(* ===== verification/_CoqProject ===== *)
-Q . S2P
Prelude.v
Text.v
Scan.v
Prog.v
Btree.v
Log.v
Metadata.v
Planning.v
Upload.v
Archive.v
Migration.v
Client.v
Executor.v
ExecutionPlan.v
Planner.v
Verify.v
Journal.v
Operation.v
Groups.v
Apply.v
ImportClient.v
ImportJournal.v
ImportEffects.v
ImportApply.v
ImportDryRun.v
Limits.v
ScanConfig.v
Digest.v
Profiles.v
Console.v
Jobs.v
JobsFacts.v
JobsRun.v
JobsTheorems.v
Grants.v
GrantsTheorems.v
Sort.v
Sources.v
Reconcile.v
ReconcileFacts.v
ReconcileTheorems.v
Discovery.v
DiscoveryFacts.v
DiscoveryTheorems.v
ScanAccess.v
Decimal.v
ScanArchive.v
ScanArchiveFacts.v
Takeout.v
TakeoutFacts.v
TakeoutTheorems.v
TakeoutScanTheorems.v
Apple.v
Picasa.v
AppleTheorems.v
PicasaTheorems.v
Secrets.v
Net.v
Auth.v
AuthTheorems.v
Endpoint.v
ReadClient.v
ReadClientTheorems.v
Servers.v
Inventory.v
InventoryTheorems.v
ArchiveApply.v
Disk.v
ArchiveApplyTheorems.v
MigrationPlanning.v
MigrationPlanningTheorems.v
Staging.v
StagingFacts.v
StagingTheorems.v
MigrationApply.v
MigrationApplyTheorems.v
ImportRun.v
ImportRunTheorems.v
History.v
StateStore.v
