(* ===== verification/Prelude.v ===== *)
(** * immich-rs: plans, checkpoints and uploads, verified

    immich-rs is a command line client and a small web control plane that bring
    photo libraries (folders, Google Takeout, Apple Photos, Picasa, another Immich
    server) into an Immich server.  Work is split in two.  A read-only phase scans
    a source into a _normalized plan_ and turns it into an immutable _upload plan_
    for one server.  An apply phase verifies that the source still gives the
    plan, then performs its effects, each one at most once, and records every
    outcome in a checkpoint journal, so that an interrupted run can be resumed.
    This library models the core of both phases as executable definitions that
    follow the Rust sources under [src/crates/], and proves what makes them
    correct.  A web console queues such phases as jobs and asks for confirmations.

    ** Foundations

    - [Prelude]: results and the [?] operator ([result], [←]), fallible access to
      a world ([io]), machine integers with their wrapping, checked and saturating
      operations, sums and counts, and the tactics [result_inv] and [bools].
    - [Text]: strings as their UTF-8 bytes and the operations of the standard
      library on them.  [Scan]: the validation loop all plan schemas share, with
      the class [OrderedScan].  [Btree], [Log], [Prog]: ordered maps as lists, the
      last-row-per-key query, and the monad of programs with fuelled loops.

    ** Data and validators ([immich-core])

    - [Metadata] ([metadata.rs]): normalized metadata, with binary64 parsing and
      printing for coordinates.
    - [Planning] ([planning.rs]), [Upload] ([upload.rs]), [Migration]
      ([migration.rs]), [Archive] ([archive.rs]): the four plan schemas and their
      [validate] functions.  Each validator is proved to accept exactly the
      well-formed plans ([.._validate_iff]) and to report only errors that are
      true of the plan ([.._error_sound]).

    ** Planning ([immich-executor])

    - [Planner] ([planner.rs], [import_planner.rs]): from a resolved scan to an
      upload plan: valid, bound to the scan, one faithful operation for each
      asset, and complete for scans that are ready.
    - [ExecutionPlan] ([migration_execution_plan.rs]): a valid migration plan
      always becomes a valid upload plan with the same content.
    - [Verify] ([verify.rs]): the source is scanned and read again before any
      effect; success means that every file had its planned identity.

    ** The clients ([immich-client])

    - [Client] ([error.rs], [response.rs], [models.rs], [upload.rs]) and
      [ImportClient] ([import.rs], [import_models.rs]): the requests, their local
      checks, and the checks of the answers.  They discharge the interfaces
      [UploadClient] and [ImportClient] with the laws [UploadClientLaws] and
      [ImportClientLaws] the executor relies on.
    - [Net], [Endpoint] ([endpoint.rs], [auth.rs], [tls.rs], [network_policy.rs]) and
      [ReadClient] ([read.rs]): origins, pinned addresses, the probe and the
      capabilities made from it.  [ReadClientTheorems]: who may write where, up to the
      guards of the executor.
    - [Inventory] ([archive.rs], [migration.rs]): the assets and albums of a server, page
      by page.  [InventoryTheorems]: reading them returns, is complete and is bounded.

    ** The upload run ([immich-executor])

    - [Executor] ([error.rs], [config.rs], [retry.rs], and the digests of
      [production.rs]): limits, authorizations, the shared retry budget and the
      deterministic delay.
    - [Journal] ([journal.rs]): the checkpoint as the contents of its tables; it
      refines a map of completed operations and belongs to one plan and scope.
    - [Operation] ([operation.rs]): duplicate check, upload and retries of one
      operation.  Its theorems read the trace of requests.
    - [Groups] and [Apply] ([apply.rs]): scheduling, one group, and the whole run
      in plain, production and dry form.

    ** The import run ([immich-executor])

    - [ImportJournal] ([import_journal.rs], [import_journal_db.rs]): effects by
      key; the journal refines a map from keys to last outcomes.
    - [ImportEffects] ([import_effects.rs], [import_effect_support.rs]): metadata,
      albums and memberships; an album is never created twice.
    - [ImportApply] ([import_apply.rs]) and [ImportDryRun] ([import_dry_run.rs]):
      the whole run, which returns, is bounded by the announced mutations, keeps
      what was done and leaves a journal that can be resumed; and its dry form.
    - [Staging] ([import_staging_fs.rs], [import_staging.rs]): the private directory
      members of archives are decoded into, which implements the class [ImportApply.Staging].  [StagingFacts], [StagingTheorems]: what may change on
      disk, and that a file is handed over only when it is the planned one.
    - [ImportRun] ([picasa_import.rs], [import_config.rs], the public functions):
      scanner, planner, staging and run put together.  [ImportRunTheorems]: the three
      imports, from the source to the journal.

    ** Archives and migrations ([immich-executor])

    - [ArchiveApply] ([archive_plan.rs], [archive_apply.rs]): a manifest of a
      server's originals, and the run that downloads them.  [Disk]: the
      tree of directories and files the promises of the file system are about, also used
      for staging.  [ArchiveApplyTheorems]: what a run changes, and that it completes.
    - [MigrationPlanning] ([migration_plan.rs]): hashing every original of a server and
      assembling the plan.  [MigrationPlanningTheorems]: the plan says what the source
      said, with the digests of downloaded bytes, and assembling again gives the same.
    - [MigrationApply] ([migration_staging.rs], [migration_apply.rs]): downloading the
      originals, checking the source again, and the run.
      [MigrationApplyTheorems]: an unchanged source is accepted, uploads are the planned
      originals, and the run is resumable because it is an import with other files.

    ** The sources ([immich-sources])

    - [Sort]: orders as a class, stable sorting, [BTreeMap] entries and grouping.
    - [ScanConfig]: the limits of scans and imports and their identities.  [Sources]: the records of a scan and its
      diagnostics.
    - [Discovery] ([discovery.rs], [identity.rs], [lib.rs]): the walk, the streamed
      identities and the whole scan.  [DiscoveryTheorems]: the walk ends and the
      plan of a folder scan is valid and names files that the scan saw and read, with the
      digests of the bytes it read;
      [ScanAccess]: what a scan may list and open, on a logging file system.
    - [Reconcile] ([reconcile.rs]): from found files to the plan.
      [ReconcileTheorems]: every sidecar is attached once or reported, live photos
      are exactly the pairs, and the planners find what they ask for.
    - [ScanArchive] ([archive_support.rs], and what [takeout_archive.rs] and
      [apple_archive.rs] share): the checks of ZIP entries, decoding, and the merge
      of several parts.
    - [Takeout] ([takeout_metadata.rs], [google_takeout.rs], [takeout_reconcile.rs],
      [takeout_archive.rs]): metadata documents, albums, files of one content, and the
      scans.  [TakeoutTheorems]: what a document says, and that
      merging loses nothing; [TakeoutScanTheorems]: parts are merged without a choice,
      and why a scan may fail.  [Decimal]: coordinates print and read back exactly.
    - [Apple] ([apple_photos.rs], [apple_archive.rs]) and [Picasa] ([picasa.rs],
      [picasa_ini.rs]): folder albums, INI documents, and the scans.  [AppleTheorems],
      [PicasaTheorems]: every asset gets exactly what its folder says, and what the
      document says that the scan read for its folder.

    ** The web console ([immich-web])

    - [Limits] ([limits.rs]), [Profiles] ([profiles], lookups of [config.rs]) and
      [Digest]: settings, contained inputs, address ranges, and generation digests
      that bind what they name.  [Console]: the values its parts exchange.
    - [Jobs] ([jobs.rs], [jobs/]): the job manager as a step relation over its
      locked state, worker threads and event log.  [JobsTheorems]: its invariant,
      that the queue does not stall while the console runs, exclusive applies, and exact
      replay.
    - [Secrets] ([profiles/secret.rs], [oidc/secret.rs]): secrets and certificates are read
      from files that do not change meanwhile.  [Auth] ([auth.rs]), [AuthTheorems]:
      pairing, sessions and what an accepted cookie proves.  [Auth] also holds which
      requests are answered ([cookies.rs], [policy.rs]).
    - [Servers] ([profiles/server.rs]): the profiles of servers, and that a client made
      from one stays within them.
    - [Grants] ([grants.rs]): confirmations of applies.  [GrantsTheorems]: a receipt
      is spent once, and a job starts only on what was confirmed.
    - [History] ([state_store/history.rs], [receipts.rs], the SQL files): the tables of
      finished jobs and dry-run receipts; they stay in order, the history is only appended
      to, and what is recorded is read back.
    - [StateStore] ([state_store.rs], [plan_store.rs], [plan_io.rs]): stored plans with
      their bindings, and checkpoints; a plan is loaded as it was written and never
      overwritten.  The store implements what [Jobs] and [Grants] ask for
      ([Jobs.ConsoleHistory], [Grants.ConsoleStore]), so the receipt a dry run leaves is
      followed up to the confirmed grant.

    ** Conventions

    Definitions have the names of the Rust functions and types; a field carries a
    prefix of its record, and error enums live in a Module of their name with the
    type [t].  Code outside the repository is a class parameter: [TimeLib]
    (RFC 3339), [Codec] (digests, JSON), [Transport] (HTTP), [FileSystem],
    [Storage] (clock and disk of a journal), [Scheduler] ([buffer_unordered]),
    [Runtime] (timer and shared atomic budget), [Cancellation], [ScanFs] and
    [UnicodeLib] (directories, files and Unicode tables of a scan), [ZipReader],
    [TakeoutLib], [TakeoutFs], [CalendarLib] and [PlanJson] (ZIP archives, JSON
    documents and dates of exports), [UrlLib], [TlsLib], [HeaderLib], [Dns],
    [ReadTransport] and [InventoryTransport] (the network stack of the reading client),
    [DestinationFs], [StagingFs] (the files a run writes), [ArchiveCodec], [MigrationCodec],
    [Base64Lib] (SHA-1, JSON and base64 of archives and migrations),
    [ProfileFs], [SecretFs], [Entropy],
    [HistoryWorld], [PlanFs] and [PlanStateJson] (the files, the random bytes, the SQLite
    connection and the JSON of the console).  All of them act on
    a world of any type and may change it at every call, so other tasks and the
    outside are free to interfere; what the theorems assume of them is in the
    [..Laws] classes.  Where a theorem says what was read, it names the world in which a
    run made the call and what the call returned there; [DiscoveryFacts.later] orders the
    worlds of a scan.  A panic of the source is a value of the error type.

    ** Fuel

    Loops that are not structural take fuel.  Reading a file takes the planned
    length and two more iterations ([Verify.stream_content]); an operation takes
    one more than the configured attempts ([Operation.attempts_fuel], since every
    further iteration has claimed a retry); the loops of import effects the same
    ([ImportEffects.effect_fuel]); the result stream of a run one more than the
    groups ([Apply.apply_upload_inner]); a walk [max_entries + 1] rounds and a file
    its length and one more ([Discovery.discover], [Discovery.hash_file]).  That this is enough is proved, not
    assumed: [Operation.apply_returns], [Apply.apply_run_returns],
    [ImportApply.import_run_returns], [DiscoveryTheorems.discover_returns] and
    [DiscoveryFacts.hash_loop_returns] (and [ScanArchiveFacts.decode_entry_returns],
    [PicasaTheorems.read_to_end_returns] for exports) state that the result is never [None].
    A listing of a server has as many pages as it may keep assets, and one more
    ([InventoryTheorems.archive_listing_complete], [migration_inventory_sound]); a
    download as many rounds as it has chunks, and one more; hashing a file that is already
    there its length and one more ([ArchiveApplyTheorems.archive_apply_safe]); decoding a
    staged member what is left of it, and one more ([StagingTheorems.stage_loop_runs]).

    ** What is not modelled

    The single sign-on of the console, its HTTP handlers and pages; [immich-cli] and most of
    [immich-application], which only orchestrate.  SQLite appears as statements that
    succeed or fail as a whole, and TLS, HTML and argument parsing are not modelled
    at all. *)
From Stdlib Require Export ZArith Lia Sorted.
From stdpp Require Export base gmap sets list strings option sorting.

(** ** Results

    Rust's [Result<A, E>]; the error type comes first so that [result E] is a
    monad and stdpp's [x ← m; k] notation plays the role of [?]. *)
Inductive result (E A : Type) : Type :=
  | Ok (a : A)
  | Err (e : E).
Arguments Ok {E A} a.
Arguments Err {E A} e.

#[export] Instance result_ret {E} : MRet (result E) := λ A a, Ok a.
#[export] Instance result_bind {E} : MBind (result E) := λ A B f m,
  match m with Ok a => f a | Err e => Err e end.
#[export] Instance result_fmap {E} : FMap (result E) := λ A B f m,
  match m with Ok a => Ok (f a) | Err e => Err e end.

#[export] Instance result_eq_dec {E A} `{EqDecision E, EqDecision A} :
  EqDecision (result E A).
Proof. solve_decision. Defined.

(** [if cond { return Err(e); }] *)
Definition fail_if {E} (b : bool) (e : E) : result E unit :=
  if b then Err e else Ok tt.

(** [option.ok_or(e)] *)
Definition ok_or {E A} (o : option A) (e : E) : result E A :=
  match o with Some a => Ok a | None => Err e end.

(** [result.map_err(f)] *)
Definition map_err {E F A} (f : E → F) (r : result E A) : result F A :=
  match r with Ok a => Ok a | Err e => Err (f e) end.

Definition is_ok {E A} (r : result E A) : bool :=
  match r with Ok _ => true | Err _ => false end.

(** Code that can also panic: slicing a string inside a character, an index
    out of range. *)
Inductive fault (E : Type) : Type :=
  | Fail (e : E)
  | Panic.
Arguments Fail {E} e.
Arguments Panic {E}.

#[export] Instance fault_eq_dec {E} `{EqDecision E} : EqDecision (fault E).
Proof. solve_decision. Defined.

(** A [for] loop whose body may return early with an error; [s] is what the
    loop body mutates. *)
Fixpoint for_each {E A S} (f : S → A → result E S) (l : list A) (s : S) : result E S :=
  match l with
  | [] => Ok s
  | x :: l => s' ← f s x; for_each f l s'
  end.

(** [iter().map(f).collect::<Result<Vec<_>, _>>()] *)
Fixpoint try_map {E A B} (f : A → result E B) (l : list A) : result E (list B) :=
  match l with
  | [] => Ok []
  | x :: l => y ← f x; ys ← try_map f l; Ok (y :: ys)
  end.

Section result_lemmas.
  Context {E A B : Type}.
  Implicit Types (e : E) (a : A) (b : B).

Lemma bind_Ok (m : result E A) (k : A → result E B) b :
  (m ≫= k) = Ok b ↔ ∃ a, m = Ok a ∧ k a = Ok b.
Proof. destruct m; simpl; naive_solver. Qed.

Lemma bind_Err (m : result E A) (k : A → result E B) e :
  (m ≫= k) = Err e ↔ m = Err e ∨ ∃ a, m = Ok a ∧ k a = Err e.
Proof. destruct m; simpl; naive_solver. Qed.

Lemma fail_if_Ok (c : bool) e (u : unit) : fail_if c e = Ok u ↔ c = false.
Proof. destruct c, u; simpl; naive_solver. Qed.

Lemma fail_if_Err (c : bool) e e' : fail_if c e = Err e' ↔ c = true ∧ e = e'.
Proof. destruct c; simpl; naive_solver. Qed.

Lemma bind_fail_if_Ok (c : bool) e (k : unit → result E B) b :
  (fail_if c e ≫= k) = Ok b ↔ c = false ∧ k tt = Ok b.
Proof. destruct c; simpl; naive_solver. Qed.

Lemma bind_fail_if_Err (c : bool) e (k : unit → result E B) e' :
  (fail_if c e ≫= k) = Err e' ↔ (c = true ∧ e = e') ∨ (c = false ∧ k tt = Err e').
Proof. destruct c; simpl; naive_solver. Qed.

(** Success of a guarded computation, whatever it returns. *)
Lemma ex_bind_fail_if (c : bool) e (k : unit → result E B) :
  (∃ b, (fail_if c e ≫= k) = Ok b) ↔ c = false ∧ ∃ b, k tt = Ok b.
Proof. setoid_rewrite bind_fail_if_Ok. naive_solver. Qed.

Lemma ex_bind (m : result E A) (k : A → result E B) :
  (∃ b, (m ≫= k) = Ok b) ↔ ∃ a, m = Ok a ∧ ∃ b, k a = Ok b.
Proof. setoid_rewrite bind_Ok. naive_solver. Qed.

Lemma ex_bind_const (m : result E A) (r : result E B) :
  (∃ b, (m ≫= λ _, r) = Ok b) ↔ (∃ a, m = Ok a) ∧ ∃ b, r = Ok b.
Proof. setoid_rewrite bind_Ok. naive_solver. Qed.

Lemma Ok_tt (m : result E unit) : m = Ok tt ↔ ∃ u, m = Ok u.
Proof. split; [eauto|]. by intros [[] ?]. Qed.

Lemma ex_Ok a : (∃ a', @Ok E A a = Ok a') ↔ True.
Proof. naive_solver. Qed.

Lemma ok_or_Ok (o : option A) e a : ok_or o e = Ok a ↔ o = Some a.
Proof. destruct o; simpl; naive_solver. Qed.

Lemma ok_or_Err (o : option A) e e' : ok_or o e = Err e' ↔ o = None ∧ e = e'.
Proof. destruct o; simpl; naive_solver. Qed.
End result_lemmas.

Lemma map_err_Ok {E F A} (f : E → F) (r : result E A) a :
  map_err f r = Ok a ↔ r = Ok a.
Proof. destruct r; simpl; naive_solver. Qed.

Lemma map_err_Err {E F A} (f : E → F) (r : result E A) e :
  map_err f r = Err e ↔ ∃ e', r = Err e' ∧ f e' = e.
Proof. destruct r; simpl; naive_solver. Qed.

Lemma try_map_Ok {E A B} (f : A → result E B) l ys :
  try_map f l = Ok ys ↔ Forall2 (λ x y, f x = Ok y) l ys.
Proof.
  revert ys. induction l as [|x l IH]; intros ys; simpl.
  - split; [intros [= <-]; constructor | by inversion 1].
  - rewrite bind_Ok. split.
    + intros (y & Hy & (ys' & Hys & [= <-])%bind_Ok). constructor; [done|]. by apply IH.
    + inversion 1 as [|? y ? ys' Hy Hys]; subst. exists y. split; [done|].
      apply bind_Ok. exists ys'. split; [by apply IH | done].
Qed.

(** ** Effects

    An asynchronous function of the code reads and changes the world it runs in
    (server, file system, clock, cancellation flag and whatever concurrent tasks
    do meanwhile) and returns a result. *)
Definition io (W E A : Type) : Type := W → result E A * W.

#[export] Instance io_ret {W E} : MRet (io W E) := λ A a w, (Ok a, w).
#[export] Instance io_bind {W E} : MBind (io W E) := λ A B f m w,
  match m w with
  | (Ok a, w') => f a w'
  | (Err e, w') => (Err e, w')
  end.

(** A computation without effects. *)
Definition lift {W E A} (r : result E A) : io W E A := λ w, (r, w).

Lemma io_bind_Ok {W E A B} (m : io W E A) (f : A → io W E B) w b w' :
  (m ≫= f) w = (Ok b, w') ↔ ∃ a w1, m w = (Ok a, w1) ∧ f a w1 = (Ok b, w').
Proof. unfold mbind, io_bind. destruct (m w) as [[] ?]; naive_solver. Qed.

Lemma io_bind_inv {W E A B} (m : io W E A) (f : A → io W E B) w r w' :
  (m ≫= f) w = (r, w') →
    (∃ e, m w = (Err e, w') ∧ r = Err e) ∨ ∃ a w1, m w = (Ok a, w1) ∧ f a w1 = (r, w').
Proof. unfold mbind, io_bind. destruct (m w) as [[] ?]; naive_solver. Qed.

Lemma io_bind_Err {W E A B} (m : io W E A) (f : A → io W E B) w e w' :
  (m ≫= f) w = (Err e, w') ↔
    m w = (Err e, w') ∨ ∃ a w1, m w = (Ok a, w1) ∧ f a w1 = (Err e, w').
Proof. unfold mbind, io_bind. destruct (m w) as [[] ?]; naive_solver. Qed.

Lemma lift_Ok {W E A} (r : result E A) (w : W) a w' :
  lift r w = (Ok a, w') ↔ r = Ok a ∧ w = w'.
Proof. unfold lift. naive_solver. Qed.

Lemma lift_Err {W E A} (r : result E A) (w : W) e w' :
  lift r w = (Err e, w') ↔ r = Err e ∧ w = w'.
Proof. unfold lift. naive_solver. Qed.

(** [result_inv] turns every hypothesis [m = Ok a] or [m = Err e] about a
    monadic computation into the facts its steps give. *)
Ltac result_step :=
  match goal with
  | H : (fail_if _ _ ≫= _) = Ok _ |- _ => apply bind_fail_if_Ok in H as [? H]
  | H : (fail_if _ _ ≫= _) = Err _ |- _ => apply bind_fail_if_Err in H as [[? ?]|[? H]]
  | H : fail_if _ _ = Ok _ |- _ => apply fail_if_Ok in H
  | H : fail_if _ _ = Err _ |- _ => apply fail_if_Err in H as [? ?]
  | H : ok_or _ _ = Ok _ |- _ => apply ok_or_Ok in H
  | H : ok_or _ _ = Err _ |- _ => apply ok_or_Err in H as [? ?]
  | H : map_err _ _ = Ok _ |- _ => apply map_err_Ok in H
  | H : map_err _ _ = Err _ |- _ => apply map_err_Err in H as (? & H & ?)
  | H : (_ ≫= _) = Ok _ |- _ => apply bind_Ok in H as (? & ? & H)
  | H : (_ ≫= _) = Err _ |- _ => apply bind_Err in H as [H|(? & ? & H)]
  | H : Ok _ = Ok _ |- _ => injection H as H
  | H : Err _ = Err _ |- _ => injection H as H
  | H : Ok _ = Err _ |- _ => discriminate H
  | H : Err _ = Ok _ |- _ => discriminate H
  end; cbv beta in *; subst.
Ltac result_inv := repeat result_step.

(** Conjunctions with the same members, in another order. *)
Ltac iff_and := split; intros; destruct_and?; split_and!; first [assumption | done].

(** ** Boolean conditions as the code writes them *)
Create Rewrite HintDb bools.
#[export] Hint Rewrite orb_false_iff orb_true_iff andb_true_iff andb_false_iff
  negb_true_iff negb_false_iff Z.eqb_eq Z.eqb_neq Z.leb_le Z.ltb_lt Z.leb_gt Z.ltb_ge
  Nat.eqb_eq Nat.eqb_neq Nat.leb_le Nat.ltb_lt bool_decide_eq_true bool_decide_eq_false
  forallb_forall existsb_exists : bools.

Ltac bools := autorewrite with bools in *; destruct_and?.

Lemma existsb_false {A} (f : A → bool) l :
  existsb f l = false ↔ Forall (λ x, f x = false) l.
Proof.
  induction l as [|x l IH]; simpl; [naive_solver|].
  rewrite orb_false_iff, Forall_cons, IH. done.
Qed.

Lemma existsb_true {A} (f : A → bool) l :
  existsb f l = true ↔ Exists (λ x, f x = true) l.
Proof.
  induction l as [|x l IH]; simpl; [by rewrite Exists_nil|].
  rewrite orb_true_iff, Exists_cons, IH. done.
Qed.

Lemma forallb_true {A} (f : A → bool) l :
  forallb f l = true ↔ Forall (λ x, f x = true) l.
Proof.
  induction l as [|x l IH]; simpl; [naive_solver|].
  rewrite andb_true_iff, Forall_cons, IH. done.
Qed.

(** [opt.is_some_and(f)] and [opt.is_none_or(f)] *)
Definition is_some_and {A} (o : option A) (f : A → bool) : bool :=
  match o with Some a => f a | None => false end.
Definition is_none_or {A} (o : option A) (f : A → bool) : bool :=
  match o with Some a => f a | None => true end.
Definition is_some {A} (o : option A) : bool :=
  match o with Some _ => true | None => false end.

(** ** Machine integers

    [u64], [u32] and [usize] values are integers of [Z]; every operation that
    can leave the width says what the code does there. *)
Open Scope Z_scope.

Definition u32_max : Z := 2 ^ 32 - 1.
Definition u64_max : Z := 2 ^ 64 - 1.

Definition is_u32 (x : Z) : Prop := 0 <= x <= u32_max.
Definition is_u64 (x : Z) : Prop := 0 <= x <= u64_max.

(** [a.saturating_add(b)], [a.saturating_mul(b)] and [a.saturating_sub(b)] on
    [u64]; the [u32] versions carry their width in the name. *)
Definition sat_add (a b : Z) : Z := Z.min (a + b) u64_max.
Definition sat_mul (a b : Z) : Z := Z.min (a * b) u64_max.
Definition sat_sub (a b : Z) : Z := Z.max (a - b) 0.
Definition sat_add32 (a b : Z) : Z := Z.min (a + b) u32_max.
Definition sat_sub32 (a b : Z) : Z := Z.max (a - b) 0.

(** [a.checked_add(b)] *)
Definition checked_add (a b : Z) : option Z :=
  if a + b <=? u64_max then Some (a + b) else None.

(** [Duration]: nanoseconds, up to [u64::MAX] seconds and a fraction. *)
Definition NANOS_PER_SEC : Z := 1000000000.
Definition NANOS_PER_MILLI : Z := 1000000.
Definition DURATION_MAX : Z := u64_max * NANOS_PER_SEC + (NANOS_PER_SEC - 1).
Definition is_duration (d : Z) : Prop := 0 <= d <= DURATION_MAX.
Definition from_secs (s : Z) : Z := s * NANOS_PER_SEC.
Definition from_millis (ms : Z) : Z := ms * NANOS_PER_MILLI.
Definition as_millis (d : Z) : Z := d / NANOS_PER_MILLI.
Definition duration_saturating_add (a b : Z) : Z := Z.min (a + b) DURATION_MAX.
Definition duration_saturating_mul (a k : Z) : Z := Z.min (a * k) DURATION_MAX.

(** [iter().sum::<u64>()]: the addition of a release build wraps. *)
Definition wrap64 (a : Z) : Z := a mod 2 ^ 64.
Definition sum_u64 (l : list Z) : Z := fold_left (λ acc x, wrap64 (acc + x)) l 0.

(** [vec.len() as u64] *)
Definition zlen {A} (l : list A) : Z := Z.of_nat (length l).

(** [iter().filter(p).count() as u64] *)
Definition count {A} (p : A → bool) (l : list A) : Z := zlen (List.filter p l).

Lemma checked_add_Some a b c :
  checked_add a b = Some c ↔ c = a + b ∧ a + b <= u64_max.
Proof. unfold checked_add. destruct (Z.leb_spec (a + b) u64_max); naive_solver lia. Qed.

Lemma zlen_nonneg {A} (l : list A) : 0 <= zlen l.
Proof. unfold zlen. lia. Qed.

Lemma zlen_cons {A} (x : A) l : zlen (x :: l) = 1 + zlen l.
Proof. unfold zlen. simpl length. lia. Qed.

Lemma zlen_app {A} (l k : list A) : zlen (l ++ k) = zlen l + zlen k.
Proof. unfold zlen. rewrite length_app. lia. Qed.

Lemma zlen_map {A B} (f : A → B) l : zlen (map f l) = zlen l.
Proof. unfold zlen. by rewrite length_map. Qed.

Lemma count_nonneg {A} (p : A → bool) l : 0 <= count p l.
Proof. apply zlen_nonneg. Qed.

Lemma count_cons {A} (p : A → bool) x l : count p (x :: l) = (if p x then 1 else 0) + count p l.
Proof. unfold count. simpl. destruct (p x); [by rewrite zlen_cons|done]. Qed.

Lemma count_le_zlen {A} (p : A → bool) l : count p l <= zlen l.
Proof. unfold count, zlen. pose proof (List.filter_length_le p l). lia. Qed.

Lemma count_map {A B} (f : A → B) (p : B → bool) l :
  count p (map f l) = count (λ x, p (f x)) l.
Proof.
  unfold count. induction l as [|x l IH]; [done|]. simpl.
  destruct (p (f x)); rewrite ?zlen_cons; lia.
Qed.

Lemma count_ext {A} (p q : A → bool) l :
  Forall (λ x, p x = q x) l → count p l = count q l.
Proof.
  unfold count. induction 1 as [|x l Hx _ IH]; [done|]. simpl. rewrite Hx.
  destruct (q x); rewrite ?zlen_cons; lia.
Qed.

Lemma sum_u64_range l : 0 <= sum_u64 l <= u64_max.
Proof.
  unfold sum_u64, u64_max. assert (∀ acc, 0 <= acc <= 2 ^ 64 - 1 →
    0 <= fold_left (λ acc x, wrap64 (acc + x)) l acc <= 2 ^ 64 - 1) as H; [|apply H; lia].
  induction l as [|x l IH]; intros acc Hacc; simpl; [lia|]. apply IH.
  unfold wrap64. pose proof (Z.mod_pos_bound (acc + x) (2 ^ 64)). lia.
Qed.

(** The wrapped sum is the sum modulo the width, hence the sum itself when
    nothing overflows. *)
Lemma sum_u64_mod l : sum_u64 l = foldr Z.add 0 l mod 2 ^ 64.
Proof.
  unfold sum_u64, wrap64. assert (∀ acc, fold_left (λ acc x, (acc + x) mod 2 ^ 64) l (acc mod 2 ^ 64)
    = (acc + foldr Z.add 0 l) mod 2 ^ 64) as H.
  { induction l as [|x l IH]; intros acc; simpl.
    - by rewrite Z.add_0_r.
    - rewrite Zplus_mod_idemp_l, IH. f_equal. lia. }
  specialize (H 0). done.
Qed.

(** ** Slices *)

(** [slice.windows(2).all(|pair| f(pair[0], pair[1]))] *)
Fixpoint windows2_all {A} (f : A → A → bool) (l : list A) : bool :=
  match l with
  | x :: (y :: _) as l' => f x y && windows2_all f l'
  | _ => true
  end.

Lemma windows2_all_Sorted {A} (f : A → A → bool) (R : A → A → Prop) l :
  (∀ x y, f x y = true ↔ R x y) → windows2_all f l = true ↔ Sorted R l.
Proof.
  intros Hf. induction l as [|x [|y l] IH]; simpl.
  - naive_solver.
  - split; [by repeat constructor | done].
  - rewrite andb_true_iff, Hf. change (windows2_all f (y :: l) = true ↔ Sorted R (y :: l)) in IH.
    rewrite IH. split.
    + intros [??]. constructor; [done|]. by constructor.
    + inversion 1 as [|?? Hs Hr]; subst. inversion Hr; subst. done.
Qed.

Lemma windows2_all_StronglySorted {A} (f : A → A → bool) (R : A → A → Prop) `{!Transitive R} l :
  (∀ x y, f x y = true ↔ R x y) → windows2_all f l = true ↔ StronglySorted R l.
Proof.
  intros Hf. rewrite windows2_all_Sorted by done. split.
  - apply Sorted_StronglySorted. intros x y z. apply transitivity.
  - apply StronglySorted_Sorted.
Qed.

Lemma StronglySorted_NoDup {A} (R : A → A → Prop) `{!Irreflexive R} l :
  StronglySorted R l → NoDup l.
Proof.
  induction 1 as [|x l _ IH Hall]; constructor; [|done].
  intros Hin. rewrite Forall_forall in Hall. by apply (irreflexivity R x), Hall.
Qed.

(** ** Maps

    [iter().map(|x| (key(x), value(x))).collect::<BTreeMap<_, _>>()]: a later
    entry replaces an earlier one of the same key. *)
Definition collect_map {A V} (key : A → string) (val : A → V) (l : list A) : gmap string V :=
  foldl (λ m x, <[key x := val x]> m) ∅ l.

(** Membership of a mapped list without a detour through [In]. *)
Lemma elem_of_map {A B} (f : A → B) l y : y ∈ map f l ↔ ∃ x, y = f x ∧ x ∈ l.
Proof. apply list_elem_of_fmap. Qed.

(** ** [List.filter] *)

Lemma elem_of_List_filter {A} (p : A → bool) l x : x ∈ List.filter p l ↔ x ∈ l ∧ p x = true.
Proof. by rewrite list_elem_of_In, filter_In, <- list_elem_of_In. Qed.

Lemma Forall_List_filter {A} (Q : A → Prop) p (l : list A) : Forall Q l → Forall Q (List.filter p l).
Proof.
  rewrite !Forall_forall. intros Hq x Hx. apply Hq. by apply elem_of_List_filter in Hx as [? _].
Qed.

Lemma NoDup_map_filter {A B} (f : A → B) (p : A → bool) l :
  NoDup (map f l) → NoDup (map f (List.filter p l)).
Proof.
  induction l as [|a l IH]; [done|]. cbn [map List.filter]. intros [Hnew Hn]%NoDup_cons.
  destruct (p a); [|by apply IH]. cbn [map]. constructor; [|by apply IH].
  intros (b & Hab & [Hb _]%elem_of_List_filter)%elem_of_map. destruct Hnew.
  apply elem_of_map. by exists b.
Qed.

Lemma StronglySorted_map_filter {A B} (R : B → B → Prop) (f : A → B) (p : A → bool) l :
  StronglySorted R (map f l) → StronglySorted R (map f (List.filter p l)).
Proof.
  induction l as [|x l IH]; simpl; [done|]. inversion 1 as [|?? Hs Hall]; subst.
  destruct (p x); simpl; [|by apply IH]. constructor; [by apply IH|].
  rewrite Forall_map in *. rewrite Forall_forall in *.
  intros y [Hy _]%list_elem_of_In%filter_In. by apply Hall, list_elem_of_In.
Qed.

Lemma filter_all {A} (f : A → bool) l : Forall (λ x, f x = true) l → List.filter f l = l.
Proof. induction 1 as [|x l Hx _ IH]; [done|]. simpl. by rewrite Hx, IH. Qed.
Lemma NoDup_map_inj {A K} (f : A → K) l x y :
  NoDup (map f l) → x ∈ l → y ∈ l → f x = f y → x = y.
Proof.
  induction l as [|z l IH]; cbn; [by intros _ ?%not_elem_of_nil|]. intros [Hz Hl]%NoDup_cons Hx Hy Hf.
  apply elem_of_cons in Hx as [->|Hx], Hy as [->|Hy]; try done; try by apply IH.
  - destruct Hz. apply elem_of_map. by exists y.
  - destruct Hz. apply elem_of_map. by exists x.
Qed.

Lemma filter_perm {A} (f : A → bool) l k : l ≡ₚ k → List.filter f l ≡ₚ List.filter f k.
Proof.
  induction 1 as [|x l k _ IH|x y l|l k m _ IH1 _ IH2]; simpl; [done| | |by rewrite IH1].
  - destruct (f x); [by constructor|done].
  - destruct (f x), (f y); try done. constructor.
Qed.
Lemma filter_none {A} (f : A → bool) l : Forall (λ x, f x = false) l → List.filter f l = [].
Proof. induction 1 as [|x l Hx _ IH]; [done|]. simpl. by rewrite Hx, IH. Qed.
Lemma filter_filter {A} (p q : A → bool) l :
  List.filter p (List.filter q l) = List.filter (λ x, q x && p x) l.
Proof. induction l as [|x l IH]; simpl; [done|]. destruct (q x); simpl; [destruct (p x)|]; by rewrite IH. Qed.
Lemma filter_length_le {A} (p q : A → bool) l :
  (∀ x, p x = true → q x = true) → (length (List.filter p l) <= length (List.filter q l))%nat.
Proof.
  intros Hpq. induction l as [|x l IH]; simpl; [done|].
  destruct (p x) eqn:Hp; [rewrite (Hpq _ Hp); simpl; lia|]. destruct (q x); simpl; lia.
Qed.

Lemma foldl_insert_lookup {A V} (key : A → string) (val : A → V) l (m : gmap string V) k :
  foldl (λ m x, <[key x := val x]> m) m l !! k =
    match last (List.filter (λ x, bool_decide (key x = k)) l) with
    | Some x => Some (val x)
    | None => m !! k
    end.
Proof.
  revert m. induction l as [|x l IH]; intros m; simpl; [done|]. rewrite IH.
  case_bool_decide as Hk.
  - rewrite last_cons. destruct (last (List.filter _ l)); [done|].
    by rewrite <-Hk, lookup_insert_eq.
  - destruct (last (List.filter _ l)); [done|]. by rewrite lookup_insert_ne.
Qed.

Lemma collect_map_None {A V} (key : A → string) (val : A → V) l k :
  collect_map key val l !! k = None ↔ k ∉ map key l.
Proof.
  unfold collect_map. rewrite foldl_insert_lookup, lookup_empty.
  destruct (last (List.filter _ l)) as [x|] eqn:Hl.
  - split; [done|]. intros Hk. destruct Hk. apply last_Some in Hl as [l' Hl].
    assert (In x (List.filter (λ x, bool_decide (key x = k)) l)) as [Hin Hx]%filter_In.
    { rewrite Hl. apply in_or_app. right. by left. }
    rewrite bool_decide_eq_true in Hx. rewrite elem_of_map. exists x.
    split; [done|]. by apply list_elem_of_In.
  - split; [|done]. intros _. apply last_None in Hl. rewrite elem_of_map.
    intros (x & -> & Hx%list_elem_of_In).
    assert (In x (List.filter (λ y, bool_decide (key y = key x)) l)) as Hin.
    { apply filter_In. split; [done|]. by apply bool_decide_eq_true. }
    by rewrite Hl in Hin.
Qed.

(** With distinct keys the map holds exactly the entries. *)
Lemma collect_map_Some {A V} (key : A → string) (val : A → V) l k v :
  NoDup (map key l) →
  collect_map key val l !! k = Some v ↔ ∃ x, x ∈ l ∧ key x = k ∧ val x = v.
Proof.
  intros Hnd. unfold collect_map. rewrite foldl_insert_lookup, lookup_empty.
  assert (∀ x y, x ∈ l → y ∈ l → key x = key y → x = y) as Hinj.
  { clear v. induction l as [|z l IH]; [by intros ?? ?%elem_of_nil|].
    simpl in Hnd. apply NoDup_cons in Hnd as [Hz Hnd]. rewrite elem_of_map in Hz.
    intros x y [->|Hx]%elem_of_cons [->|Hy]%elem_of_cons Heq; naive_solver. }
  assert (∀ x, x ∈ List.filter (λ x, bool_decide (key x = k)) l ↔ x ∈ l ∧ key x = k) as Hf.
  { intros x. rewrite !list_elem_of_In, filter_In, bool_decide_eq_true. done. }
  destruct (last (List.filter _ l)) as [x|] eqn:Hl.
  - apply last_Some in Hl as [l' Hl].
    destruct (proj1 (Hf x)) as [Hx Hk]; [rewrite Hl; set_solver|].
    split; [naive_solver|]. intros (y & Hy & Hyk & <-). f_equal. f_equal. naive_solver.
  - split; [done|]. apply last_None in Hl. intros (y & Hy & Hyk & _).
    assert (y ∈ ([] : list A)) as []%elem_of_nil. rewrite <-Hl. by apply Hf.
Qed.

(** [i128::from(a).saturating_mul(b)]; exact on the product of an [i64] and a
    factor below [2^64]. *)
Definition sat_mul_i128 (a b : Z) : Z := Z.max (- 2 ^ 127) (Z.min (a * b) (2 ^ 127 - 1)).
Definition is_i64 (x : Z) : Prop := - 2 ^ 63 <= x < 2 ^ 63.

Lemma sat_mul_i128_exact a b : is_i64 a → 0 <= b < 2 ^ 64 → sat_mul_i128 a b = a * b.
Proof.
  unfold is_i64, sat_mul_i128. intros Ha Hb.
  assert (- 2 ^ 127 <= a * b <= 2 ^ 127 - 1); [nia|lia].
Qed.

(** ** Counting the values of a map *)

(** [map.values().filter(p).count()] *)
Definition mcount {A} (p : A → bool) (m : gmap string A) : Z :=
  map_fold (λ _ x n, if p x then n + 1 else n) 0 m.

Section mcount.
  Context {A : Type}.
  Implicit Types (p q : A → bool) (m : gmap string A).

Definition one_if (b : bool) : Z := if b then 1 else 0.

Lemma mcount_empty p : mcount p ∅ = 0.
Proof. apply map_fold_empty. Qed.

Lemma mcount_insert p m k x : m !! k = None → mcount p (<[k:=x]> m) = mcount p m + one_if (p x).
Proof.
  intros Hk. unfold mcount. rewrite map_fold_insert_L; [|..|done].
  - unfold one_if. destruct (p x); lia.
  - intros j1 j2 z1 z2 y. intros. destruct (p z1), (p z2); lia.
Qed.

Lemma mcount_delete p m k x : m !! k = Some x → mcount p (delete k m) = mcount p m - one_if (p x).
Proof.
  intros Hk. rewrite <- (insert_delete_id m k x) at 2 by done.
  rewrite mcount_insert by apply lookup_delete_eq. lia.
Qed.

Lemma mcount_update p m k x y :
  m !! k = Some x → mcount p (<[k:=y]> m) = mcount p m - one_if (p x) + one_if (p y).
Proof.
  intros Hk. rewrite <- insert_delete_eq, mcount_insert by apply lookup_delete_eq.
  by rewrite (mcount_delete _ _ _ x).
Qed.

Lemma mcount_ext p q m : map_Forall (λ _ x, p x = q x) m → mcount p m = mcount q m.
Proof.
  induction m as [|k x m Hk IH] using map_ind; [done|].
  rewrite map_Forall_insert by done. intros [Hx Hm]. rewrite !mcount_insert by done.
  by rewrite IH, Hx.
Qed.

Lemma mcount_bounds p m : 0 <= mcount p m <= Z.of_nat (size m).
Proof.
  induction m as [|k x m Hk IH] using map_ind; [rewrite mcount_empty, map_size_empty; lia|].
  rewrite mcount_insert, map_size_insert_None by done. unfold one_if. destruct (p x); lia.
Qed.

Lemma mcount_zero p m : mcount p m = 0 ↔ map_Forall (λ _ x, p x = false) m.
Proof.
  induction m as [|k x m Hk IH] using map_ind; [split; [intros _; apply map_Forall_empty|by rewrite mcount_empty]|].
  rewrite mcount_insert, map_Forall_insert, <- IH by done. pose proof (mcount_bounds p m).
  unfold one_if. destruct (p x); split; intros; destruct_and?; split_and?; try done; lia.
Qed.

Lemma mcount_sum p q m :
  map_Forall (λ _ x, p x && q x = false) m → 
  mcount p m + mcount q m = mcount (λ x, p x || q x) m.
Proof.
  induction m as [|k x m Hk IH] using map_ind; [done|].
  rewrite map_Forall_insert by done. intros [Hx Hm]. rewrite !mcount_insert, <- IH by done.
  unfold one_if. destruct (p x), (q x); try done; simpl; lia.
Qed.
End mcount.

Lemma mcount_fmap {A B} (f : A → B) (p : B → bool) (m : gmap string A) :
  mcount p (f <$> m) = mcount (λ x, p (f x)) m.
Proof.
  induction m as [|k x m Hk IH] using map_ind; [by rewrite fmap_empty, !mcount_empty|].
  rewrite fmap_insert, !mcount_insert by (rewrite ?lookup_fmap, ?Hk; done). by rewrite IH.
Qed.

