(* ===== verification/Text.v ===== *)
(** * Text: the string operations of the Rust standard library

    A [String] or [&str] is its sequence of UTF-8 bytes, so [len], [==] and the
    ordering are those of Rust.  The operations on [char]s decode the bytes
    with [chars]. *)
From Stdlib Require Import Ascii.
From S2P Require Export Prelude.

Notation bytes := String.list_ascii_of_string (only parsing).

(** [s.len()], in bytes *)
Definition len (s : string) : Z := Z.of_nat (String.length s).

Definition is_empty (s : string) : bool := String.eqb s "".

(** ** Bytes *)

Definition code (a : ascii) : Z := Z.of_N (N_of_ascii a).

Definition is_ascii_digit (a : ascii) : bool := (48 <=? code a) && (code a <=? 57).
Definition is_ascii_uppercase (a : ascii) : bool := (65 <=? code a) && (code a <=? 90).
(** [(b'a'..=b'f').contains(&byte)] *)
Definition is_a_to_f (a : ascii) : bool := (97 <=? code a) && (code a <=? 102).
Definition is_A_to_F (a : ascii) : bool := (65 <=? code a) && (code a <=? 70).
Definition is_ascii_hexdigit (a : ascii) : bool :=
  is_ascii_digit a || is_A_to_F a || is_a_to_f a.

(** [value.contains(c)] for an ASCII character [c]: in UTF-8 such a byte never
    is part of a longer sequence. *)
Definition contains_byte (c : ascii) (s : string) : bool :=
  existsb (Ascii.eqb c) (bytes s).

(** ** Characters *)

(** [s.chars()], as code points.  The bytes of a [str] are valid UTF-8, where
    the lead byte gives the length of a sequence. *)
Fixpoint decode_utf8 (l : list ascii) : list Z :=
  match l with
  | [] => []
  | a :: l1 =>
    if code a <? 128 then code a :: decode_utf8 l1
    else match l1 with
    | [] => [code a]
    | b :: l2 =>
      if code a <? 224 then
        (Z.land (code a) 31 * 64 + Z.land (code b) 63) :: decode_utf8 l2
      else match l2 with
      | [] => [code a; code b]
      | c :: l3 =>
        if code a <? 240 then
          (Z.land (code a) 15 * 4096 + Z.land (code b) 63 * 64 + Z.land (code c) 63)
            :: decode_utf8 l3
        else match l3 with
        | [] => [code a; code b; code c]
        | d :: l4 =>
          (Z.land (code a) 7 * 262144 + Z.land (code b) 63 * 4096
             + Z.land (code c) 63 * 64 + Z.land (code d) 63) :: decode_utf8 l4
        end
      end
    end
  end.

Definition chars (s : string) : list Z := decode_utf8 (bytes s).

(** [char::is_control]: Unicode's category Cc *)
Definition is_control (c : Z) : bool := (c <? 32) || ((127 <=? c) && (c <=? 159)).

(** [s.chars().any(char::is_control)] *)
Definition has_control (s : string) : bool := existsb is_control (chars s).

(** [char::is_whitespace]: Unicode's property White_Space *)
Definition is_whitespace (c : Z) : bool :=
  ((9 <=? c) && (c <=? 13)) || (c =? 32) || (c =? 133) || (c =? 160) || (c =? 5760)
  || ((8192 <=? c) && (c <=? 8202)) || (c =? 8232) || (c =? 8233) || (c =? 8239)
  || (c =? 8287) || (c =? 12288).

(** [s.trim()], as characters *)
Fixpoint trim_start (l : list Z) : list Z :=
  match l with
  | c :: l' => if is_whitespace c then trim_start l' else l
  | [] => []
  end.
Definition trim_chars (s : string) : list Z := rev (trim_start (rev (trim_start (chars s)))).

(** [s.trim() == s] *)
Definition is_trimmed (s : string) : bool := bool_decide (trim_chars s = chars s).

(** [s.ends_with(c)] for an ASCII character *)
Fixpoint ends_with (c : ascii) (s : string) : bool :=
  match s with
  | EmptyString => false
  | String a EmptyString => Ascii.eqb a c
  | String _ s => ends_with c s
  end.

(** [s.split(c).next().unwrap_or_default()] *)
Fixpoint before_first (c : ascii) (s : string) : string :=
  match s with
  | EmptyString => EmptyString
  | String a s => if Ascii.eqb a c then EmptyString else String a (before_first c s)
  end.

(** [s.rsplit_once(c)]: what is before and after the last [c] *)
Fixpoint rsplit_once (c : ascii) (s : string) : option (string * string) :=
  match s with
  | EmptyString => None
  | String a s =>
    match rsplit_once c s with
    | Some (before, after) => Some (String a before, after)
    | None => if Ascii.eqb a c then Some (EmptyString, s) else None
    end
  end.

(** [&s[..n]]: [None] when the slice would end inside a character, where Rust
    panics *)
Definition is_continuation (a : ascii) : bool := (128 <=? code a) && (code a <=? 191).
Definition slice_to (n : nat) (s : string) : option string :=
  if bool_decide (String.length s < n)%nat then None
  else match String.get n s with
  | Some a => if is_continuation a then None else Some (String.substring 0 n s)
  | None => Some (String.substring 0 n s)
  end.

(** [s.as_bytes()[n]], where the index is in range *)
Definition byte_at (n : nat) (s : string) : ascii := default "000"%char (String.get n s).

(** [s.split(c)] *)
Fixpoint split_on (c : ascii) (s : string) : list string :=
  match s with
  | EmptyString => [EmptyString]
  | String a s =>
    if Ascii.eqb a c then EmptyString :: split_on c s
    else match split_on c s with
    | w :: ws => String a w :: ws
    | [] => [String a EmptyString]
    end
  end.

Definition ascii_upper (a : ascii) : ascii :=
  if (97 <=? code a) && (code a <=? 122) then ascii_of_N (Z.to_N (code a - 32)) else a.
Fixpoint to_ascii_uppercase (s : string) : string :=
  match s with
  | EmptyString => EmptyString
  | String a s => String (ascii_upper a) (to_ascii_uppercase s)
  end.

(** [Path::components] without empty components and single dots *)
Definition normal_components (path : string) : list string :=
  List.filter (λ c, negb (is_empty c) && negb (String.eqb c ".")) (split_on "/" path).

(** [s.strip_prefix(p)] *)
Fixpoint strip_prefix (p s : string) : option string :=
  match p, s with
  | EmptyString, _ => Some s
  | String a p, String b s => if Ascii.eqb a b then strip_prefix p s else None
  | String _ _, EmptyString => None
  end.

(** [s.strip_suffix(p)] *)
Fixpoint strip_suffix (p s : string) : option string :=
  if String.eqb s p then Some EmptyString
  else match s with
  | EmptyString => None
  | String a s => match strip_suffix p s with Some t => Some (String a t) | None => None end
  end.

(** [OsStr::to_str] succeeds: the bytes are well-formed UTF-8. *)
Fixpoint well_formed_utf8 (l : list ascii) : bool :=
  match l with
  | [] => true
  | a :: l1 =>
    if code a <? 128 then well_formed_utf8 l1
    else match l1 with
    | [] => false
    | b :: l2 =>
      if (194 <=? code a) && (code a <=? 223) then is_continuation b && well_formed_utf8 l2
      else match l2 with
      | [] => false
      | c :: l3 =>
        if (224 <=? code a) && (code a <=? 239) then
          is_continuation b && is_continuation c
          && (negb (code a =? 224) || (160 <=? code b))
          && (negb (code a =? 237) || (code b <=? 159)) && well_formed_utf8 l3
        else match l3 with
        | [] => false
        | d :: l4 =>
          (240 <=? code a) && (code a <=? 244)
          && is_continuation b && is_continuation c && is_continuation d
          && (negb (code a =? 240) || (144 <=? code b))
          && (negb (code a =? 244) || (code b <=? 143)) && well_formed_utf8 l4
        end
      end
    end
  end.
Definition is_utf8 (s : string) : bool := well_formed_utf8 (bytes s).

(** The bytes of the first character, by its lead byte *)
Definition char_width (a : ascii) : nat :=
  if code a <? 128 then 1 else if code a <? 224 then 2 else if code a <? 240 then 3 else 4.

(** The characters of a string, each as its bytes; [fuel] is the number of bytes. *)
Fixpoint segments (fuel : nat) (l : list ascii) : list (list ascii) :=
  match fuel, l with
  | S fuel, a :: _ => take (char_width a) l :: segments fuel (drop (char_width a) l)
  | _, _ => []
  end.

Definition is_space (segment : list ascii) : bool :=
  match decode_utf8 segment with [c] => is_whitespace c | _ => false end.

Fixpoint skip_spaces (l : list (list ascii)) : list (list ascii) :=
  match l with
  | segment :: l' => if is_space segment then skip_spaces l' else l
  | [] => []
  end.

(** [s.trim()] *)
Definition trim (s : string) : string :=
  let l := segments (String.length s) (bytes s) in
  String.string_of_list_ascii (concat (rev (skip_spaces (rev (skip_spaces l))))).

(** [s.lines()]: lines end in a newline, before which a carriage return is
    dropped; what follows the last newline is a line unless it is empty. *)
Definition drop_return (line : string) : string :=
  default line (strip_suffix (String (ascii_of_N 13) EmptyString) line).

Fixpoint lines_of (parts : list string) : list string :=
  match parts with
  | [] => []
  | [last] => if is_empty last then [] else [last]
  | line :: parts => drop_return line :: lines_of parts
  end.

Definition lines (s : string) : list string := lines_of (split_on (ascii_of_N 10) s).

(** [s.split_once(c)] *)
Fixpoint split_once (c : ascii) (s : string) : option (string * string) :=
  match s with
  | EmptyString => None
  | String a s => if Ascii.eqb a c then Some (EmptyString, s)
                  else '(l, r) ← split_once c s; Some (String a l, r)
  end.


(** [format!("{n}")] of an unsigned integer *)
Fixpoint decimal_digits (fuel : nat) (n : Z) (acc : string) : string :=
  match fuel with
  | O => acc
  | S fuel =>
    let acc := String (ascii_of_N (Z.to_N (48 + n mod 10))) acc in
    if n <? 10 then acc else decimal_digits fuel (n / 10) acc
  end.
Definition display_u64 (n : Z) : string := decimal_digits 20 n "".

(** ** The order of strings *)

Lemma ascii_compare_refl a : Ascii.compare a a = Eq.
Proof. unfold Ascii.compare. apply N.compare_refl. Qed.

Lemma string_compare_refl s : String.compare s s = Eq.
Proof. induction s as [|a s IH]; [done|]. cbn. by rewrite ascii_compare_refl. Qed.

(** [a < b] on [str]: lexicographic on the bytes *)
Definition str_lt (a b : string) : Prop := String.ltb a b = true.

Lemma str_lt_le a b : str_lt a b ↔ String.le a b ∧ a ≠ b.
Proof.
  unfold str_lt, String.le, String.ltb, String.leb.
  destruct (String.compare a b) eqn:E; split; try naive_solver.
  - apply String.compare_eq_iff in E. naive_solver.
  - intros _. split; [done|]. intros ->.
    by rewrite string_compare_refl in E.
Qed.

#[export] Instance str_lt_irrefl : Irreflexive str_lt.
Proof. intros a [_ H]%str_lt_le. done. Qed.

#[export] Instance str_lt_trans : Transitive str_lt.
Proof.
  intros a b c [H1 N1]%str_lt_le [H2 N2]%str_lt_le. apply str_lt_le. split.
  - by trans b.
  - intros ->. apply N1. by apply (anti_symm String.le).
Qed.

#[export] Instance str_lt_strict : StrictOrder str_lt.
Proof. split; apply _. Qed.

Lemma str_ltb_spec a b : String.ltb a b = true ↔ str_lt a b.
Proof. done. Qed.

Lemma str_lt_total a b : str_lt a b ∨ a = b ∨ str_lt b a.
Proof.
  destruct (decide (a = b)) as [->|Hne]; [by right; left|].
  destruct (total String.le a b); [left|right; right]; apply str_lt_le; naive_solver.
Qed.

(** A common prefix does not change the order. *)
Lemma str_lt_app_l p a b : str_lt (p +:+ a) (p +:+ b) ↔ str_lt a b.
Proof.
  unfold str_lt, String.ltb. induction p as [|x p IH]; [done|].
  change (String x p +:+ a) with (String x (p +:+ a)).
  change (String x p +:+ b) with (String x (p +:+ b)).
  cbn. by rewrite ascii_compare_refl.
Qed.

(** Between strings of one length, what follows does not matter. *)
Lemma str_lt_app_r a b x y :
  String.length a = String.length b → str_lt a b → str_lt (a +:+ x) (b +:+ y).
Proof.
  unfold str_lt, String.ltb. revert b. induction a as [|c a IH]; intros [|d b] Hl H; try done.
  change (String c a +:+ x) with (String c (a +:+ x)).
  change (String d b +:+ y) with (String d (b +:+ y)).
  cbn in *. destruct (Ascii.compare c d); [|done..]. apply IH; [lia|done].
Qed.

(** ** Lengths and bytes of concatenations *)

Lemma bytes_app s t : bytes (s +:+ t) = bytes s ++ bytes t.
Proof.
  induction s as [|a s IH]; [done|]. change (String a s +:+ t) with (String a (s +:+ t)).
  cbn. by rewrite IH.
Qed.

Lemma length_bytes s : length (bytes s) = String.length s.
Proof. induction s; cbn; congruence. Qed.

Lemma length_str_app s t :
  String.length (s +:+ t) = (String.length s + String.length t)%nat.
Proof. rewrite <-!length_bytes, bytes_app, length_app. done. Qed.

Lemma bytes_inj s t : bytes s = bytes t → s = t.
Proof.
  revert t. induction s as [|a s IH]; intros [|b t] H; cbn in H; try done.
  injection H as -> H. f_equal. by apply IH.
Qed.

Lemma is_empty_true s : is_empty s = true ↔ s = "".
Proof. apply String.eqb_eq. Qed.

Lemma is_empty_false s : is_empty s = false ↔ s ≠ "".
Proof. apply String.eqb_neq. Qed.

Lemma contains_byte_false c s : contains_byte c s = false ↔ c ∉ bytes s.
Proof.
  unfold contains_byte. rewrite existsb_false, Forall_forall. split.
  - intros H Hin. specialize (H c Hin). apply Ascii.eqb_neq in H. done.
  - intros H a Ha. apply Ascii.eqb_neq. naive_solver.
Qed.

(** ** Digests as the plans store them *)

(** 64 hexadecimal digits of either case: [upload.rs]'s [is_sha256] *)
Definition hex_any_case (n : Z) (s : string) : bool :=
  (len s =? n) && forallb is_ascii_hexdigit (bytes s).

(** lower-case hexadecimal digits *)
Definition is_lower_hex_byte (a : ascii) : bool := is_ascii_digit a || is_a_to_f a.

Lemma lower_hexdigit a :
  is_ascii_hexdigit a && negb (is_ascii_uppercase a) = is_lower_hex_byte a.
Proof. destruct a as [[] [] [] [] [] [] [] []]; reflexivity. Qed.

Lemma lower_hex_not_byte c s :
  is_lower_hex_byte c = false → forallb is_lower_hex_byte (bytes s) = true → c ∉ bytes s.
Proof.
  intros Hc Hs Hin. rewrite forallb_true, Forall_forall in Hs.
  specialize (Hs c Hin). congruence.
Qed.

(** [s.bytes().enumerate().all(f)] *)
Fixpoint all_from (f : nat → ascii → bool) (n : nat) (l : list ascii) : bool :=
  match l with
  | [] => true
  | a :: l => f n a && all_from f (S n) l
  end.
Definition bytes_all (f : nat → ascii → bool) (s : string) : bool := all_from f 0 (bytes s).

Lemma all_from_true f n l :
  all_from f n l = true ↔ ∀ i a, l !! i = Some a → f (n + i)%nat a = true.
Proof.
  revert n. induction l as [|a l IH]; intros n; simpl; [naive_solver|].
  rewrite andb_true_iff, IH. split.
  - intros [Ha Hl] [|i] b; simpl; [intros [= <-]; by rewrite Nat.add_0_r|].
    rewrite <-Nat.add_succ_comm. apply Hl.
  - intros Hl. split; [by rewrite <-(Nat.add_0_r n); apply (Hl 0%nat)|].
    intros i b Hi. rewrite Nat.add_succ_comm. by apply (Hl (S i)).
Qed.

Lemma bytes_all_true f s :
  bytes_all f s = true ↔ ∀ i a, bytes s !! i = Some a → f i a = true.
Proof. unfold bytes_all. by rewrite all_from_true. Qed.

Lemma byte_at_lookup s i a : bytes s !! i = Some a → byte_at i s = a.
Proof.
  unfold byte_at. revert i. induction s as [|b s IH]; intros [|i] Hi; cbn in *; try done.
  - by injection Hi.
  - by apply IH.
Qed.

(** ** Numbers *)

(** [s.parse::<u64>().ok()]: decimal digits after an optional plus sign, [None]
    when there is none, another byte, or the value overflows *)
Fixpoint parse_digits (l : list ascii) (acc : Z) : option Z :=
  match l with
  | [] => Some acc
  | a :: l =>
    if is_ascii_digit a then
      let acc := acc * 10 + (code a - 48) in
      if acc <=? u64_max then parse_digits l acc else None
    else None
  end.
Definition parse_u64 (s : string) : option Z :=
  match bytes s with
  | [] => None
  | a :: l =>
    let digits := if Ascii.eqb a "+" then l else a :: l in
    match digits with [] => None | _ => parse_digits digits 0 end
  end.

Lemma parse_digits_range l acc n :
  0 <= acc <= u64_max → parse_digits l acc = Some n → is_u64 n.
Proof.
  revert acc. induction l as [|a l IH]; intros acc Hacc; simpl; [intros [= <-]; done|].
  destruct (is_ascii_digit a) eqn:Ha; [|done].
  destruct (Z.leb_spec (acc * 10 + (code a - 48)) u64_max); [|done].
  apply IH. unfold is_ascii_digit in Ha. bools. lia.
Qed.

Lemma parse_u64_range s n : parse_u64 s = Some n → is_u64 n.
Proof.
  unfold parse_u64. destruct (bytes s) as [|a l]; [done|].
  destruct (if Ascii.eqb a "+" then l else a :: l); [done|].
  apply parse_digits_range. unfold u64_max. lia.
Qed.

(** ** Splitting *)
Lemma split_on_none c s : contains_byte c s = false → split_on c s = [s].
Proof.
  rewrite contains_byte_false. induction s as [|a s IH]; cbn; [done|].
  intros Hc. apply not_elem_of_cons in Hc as [Ha Hs].
  destruct (Ascii.eqb_spec a c) as [->|]; [done|]. by rewrite IH.
Qed.

Lemma split_on_app c a b :
  contains_byte c a = false → split_on c (a +:+ String c b) = a :: split_on c b.
Proof.
  rewrite contains_byte_false. induction a as [|x a IH]; intros Hc.
  - change ("" +:+ String c b) with (String c b). cbn. by rewrite Ascii.eqb_refl.
  - change (String x a +:+ String c b) with (String x (a +:+ String c b)). cbn in *.
    apply not_elem_of_cons in Hc as [Hx Ha].
    destruct (Ascii.eqb_spec x c) as [->|]; [done|]. by rewrite IH.
Qed.

Lemma rsplit_once_last c a b :
  contains_byte c b = false → rsplit_once c (a +:+ String c b) = Some (a, b).
Proof.
  intros Hb. assert (rsplit_once c b = None) as Hn.
  { rewrite contains_byte_false in Hb. induction b as [|x b IH]; [done|].
    change (bytes (String x b)) with (x :: bytes b) in Hb. apply not_elem_of_cons in Hb as [Hx Hb].
    cbn. rewrite (IH Hb). destruct (Ascii.eqb_spec x c); congruence. }
  induction a as [|x a IH].
  - change ("" +:+ String c b) with (String c b). cbn. by rewrite Hn, Ascii.eqb_refl.
  - change (String x a +:+ String c b) with (String x (a +:+ String c b)). cbn. by rewrite IH.
Qed.
