(* ===== verification/Scan.v ===== *)
(** * Scan: the validation loop the plan schemas share, and progress events

    Four validators of [immich-core] walk a list with the same loop: each
    element passes its own checks, its path is above the previous one, and its
    identifier was not seen.  The lemmas are proved once, about any loop body
    that an instance of [OrderedScan] describes.  The events a scan of files
    reports ([crates/immich-core/src/progress.rs]) are at the end. *)
From S2P Require Export Prelude Text.

(** [previous.is_some_and(|path| path >= current)] *)
Definition not_above (previous : option string) (current : string) : bool :=
  is_some_and previous (λ path, negb (String.ltb path current)).

Definition above (previous : option string) (current : string) : Prop :=
  match previous with Some path => str_lt path current | None => True end.

Lemma not_above_false previous current :
  not_above previous current = false ↔ above previous current.
Proof. destruct previous; simpl; [by rewrite negb_false_iff|done]. Qed.

Lemma not_above_true previous current :
  not_above previous current = true ↔ ∃ path, previous = Some path ∧ ¬ str_lt path current.
Proof.
  destruct previous as [path|]; simpl; [|naive_solver].
  rewrite negb_true_iff, <-not_true_iff_false. unfold str_lt. naive_solver.
Qed.

(** Extending a sorted sequence of paths upwards. *)
Lemma above_cons previous current l :
  StronglySorted str_lt (option_list previous ++ current :: l) ↔
    above previous current ∧ StronglySorted str_lt (current :: l).
Proof.
  destruct previous as [p|]; simpl; [|naive_solver]. split.
  - inversion 1 as [|?? Hs Hall]; subst. split; [|done]. by inversion Hall.
  - intros [Hp Hs]. constructor; [done|]. inversion Hs as [|?? _ Hall]; subst.
    constructor; [done|]. eapply Forall_impl; [done|]. intros y. by trans current.
Qed.

(** ** Loops *)
Section for_each.
  Context {E A S : Type} (f : S → A → result E S).

Lemma for_each_app l1 l2 s :
  for_each f (l1 ++ l2) s = (s' ← for_each f l1 s; for_each f l2 s').
Proof.
  revert s. induction l1 as [|x l1 IH]; intros s; [done|]. simpl.
  destruct (f s x); simpl; [apply IH|done].
Qed.

(** A failing loop fails at its first failing element. *)
Lemma for_each_Err l s e :
  for_each f l s = Err e ↔
    ∃ l1 x l2 s', l = l1 ++ x :: l2 ∧ for_each f l1 s = Ok s' ∧ f s' x = Err e.
Proof.
  split.
  - revert s. induction l as [|x l IH]; intros s; [done|]. simpl.
    destruct (f s x) as [s1|e1] eqn:Hx; simpl.
    + intros (l1 & y & l2 & s' & -> & Hl1 & Hy)%IH.
      exists (x :: l1), y, l2, s'. split_and!; [done| |done]. simpl. by rewrite Hx.
    + intros [= ->]. by exists [], x, l, s.
  - intros (l1 & x & l2 & s' & -> & Hl1 & Hx). rewrite for_each_app, Hl1. simpl. by rewrite Hx.
Qed.

(** A property the body keeps holds at the end. *)
Lemma for_each_inv (I : S → Prop) l s s' :
  (∀ s x s', x ∈ l → I s → f s x = Ok s' → I s') → I s → for_each f l s = Ok s' → I s'.
Proof.
  revert s. induction l as [|x l IH]; intros s Hf HI; simpl; [by intros [= <-]|].
  intros (s1 & Hx & Hl)%bind_Ok. eapply IH; [|eapply Hf; [left|done..]|done].
  intros ????. apply Hf. by right.
Qed.
End for_each.

Lemma for_each_ext {E A S} (f g : S → A → result E S) l s :
  (∀ s x, f s x = g s x) → for_each f l s = for_each g l s.
Proof.
  intros Hfg. revert s. induction l as [|x l IH]; intros s; simpl; [done|].
  rewrite Hfg. destruct (g s x); simpl; [apply IH|done].
Qed.

(** A loop that only checks. *)
Lemma for_each_check_Ok {E A} (e : E) (p : A → bool) l :
  for_each (λ _ x, fail_if (negb (p x)) e) l tt = Ok tt ↔ Forall (λ x, p x = true) l.
Proof.
  induction l as [|x l IH]; simpl; [naive_solver|].
  rewrite bind_fail_if_Ok, negb_false_iff, IH, Forall_cons. done.
Qed.

Lemma for_each_check_Err {E A} (e e' : E) (p : A → bool) l :
  for_each (λ _ x, fail_if (negb (p x)) e) l tt = Err e' → e' = e.
Proof. intros (?&?&?&?&_&_&[_ ->]%fail_if_Err)%for_each_Err. done. Qed.

(** Two loops in lockstep, each with a state of its own. *)
Section both.
  Context {E A S T : Type} (g : S → A → result E S) (h : T → A → result E T).

Definition both (s : S * T) (x : A) : result E (S * T) :=
  s' ← g s.1 x; t' ← h s.2 x; Ok (s', t').

Lemma for_each_both l s t s' t' :
  for_each both l (s, t) = Ok (s', t') ↔ for_each g l s = Ok s' ∧ for_each h l t = Ok t'.
Proof.
  revert s t. induction l as [|x l IH]; intros s t; simpl; [naive_solver|].
  assert (both (s, t) x = (s' ← g s x; t' ← h t x; Ok (s', t'))) as -> by done.
  destruct (g s x) as [s1|]; simpl; [|by split; [|intros []]].
  destruct (h t x) as [t1|]; simpl; [apply IH|by split; [|intros []]].
Qed.
End both.

(** Summing into a [u64] with [checked_add]: the loop succeeds exactly when the
    true sum fits. *)
Definition checked_sum {E A} (e : E) (f : A → Z) (acc : Z) (x : A) : result E Z :=
  ok_or (checked_add acc (f x)) e.

Lemma checked_sum_Ok {E A} (e : E) (f : A → Z) l acc r :
  0 <= acc <= u64_max → Forall (λ x, 0 <= f x) l →
  for_each (checked_sum e f) l acc = Ok r ↔
    r = acc + foldr Z.add 0 (map f l) ∧ acc + foldr Z.add 0 (map f l) <= u64_max.
Proof.
  intros Hacc Hl. revert acc Hacc. induction Hl as [|x l Hx Hl IH]; intros acc Hacc; simpl.
  { rewrite Z.add_0_r. naive_solver lia. }
  assert (0 <= foldr Z.add 0 (map f l)) by (clear -Hl; induction Hl; simpl; lia).
  rewrite bind_Ok. unfold checked_sum at 1. setoid_rewrite ok_or_Ok.
  setoid_rewrite checked_add_Some. split.
  - intros (acc' & [-> ?] & Hr). rewrite IH in Hr by lia. lia.
  - intros [-> ?]. exists (acc + f x). split; [lia|]. rewrite IH by lia. lia.
Qed.

(** ** Pairs of elements *)

(** Two elements of [l], one before the other, related by [R]. *)
Definition ordered_pair {A} (R : A → A → Prop) (l : list A) : Prop :=
  ∃ l1 x l2 y l3, l = l1 ++ x :: l2 ++ y :: l3 ∧ R x y.

Definition adjacent_pair {A} (R : A → A → Prop) (l : list A) : Prop :=
  ∃ l1 x y l2, l = l1 ++ x :: y :: l2 ∧ R x y.

Lemma adjacent_pair_snoc {A} (R : A → A → Prop) (l1 l2 : list A) y x :
  R y x → adjacent_pair R ((l1 ++ [y]) ++ x :: l2).
Proof. intros. exists l1, y, x, l2. by rewrite <-app_assoc. Qed.

Lemma ordered_pair_mem {A} (R : A → A → Prop) (l1 l2 : list A) y x :
  y ∈ l1 → R y x → ordered_pair R (l1 ++ x :: l2).
Proof.
  intros (k1 & k2 & ->)%list_elem_of_split ?. exists k1, y, k2, x, l2.
  by rewrite <-app_assoc.
Qed.

(** ** Ordered scans *)

(** The loop state [S] holds the previous path and the identifiers seen. *)
Class OrderedScan {E A S : Type} (f : S → A → result E S)
    (path id : A → string) (ok : A → Prop) := {
  scan_prev : S → option string;
  scan_ids : S → gset string;
  scan_step s x :
    (∃ s', f s x = Ok s') ↔ ok x ∧ above (scan_prev s) (path x) ∧ id x ∉ scan_ids s;
  scan_next s x s' :
    f s x = Ok s' → scan_prev s' = Some (path x) ∧ scan_ids s' = {[id x]} ∪ scan_ids s;
}.

Section scan.
  Context {E A S : Type} (f : S → A → result E S) (path id : A → string) (ok : A → Prop).
  Context `{!OrderedScan f path id ok}.

Lemma scan_exists l s :
  (∃ s', for_each f l s = Ok s') ↔
    Forall ok l ∧ StronglySorted str_lt (option_list (scan_prev s) ++ map path l)
    ∧ NoDup (map id l) ∧ Forall (λ x, id x ∉ scan_ids s) l.
Proof.
  revert s. induction l as [|x l IH]; intros s; simpl.
  - split; [|eauto]. intros _. split_and!; [done| |by constructor|done].
    destruct (scan_prev s); simpl; repeat constructor.
  - split.
    + intros (s' & (s1 & Hx & Hl)%bind_Ok).
      destruct (proj1 (scan_step s x)) as (Hok & Hab & Hid); [by eexists|].
      destruct (scan_next _ _ _ Hx) as [Hp Hi].
      destruct (proj1 (IH s1)) as (Hoks & Hs & Hnd & Hnew); [by eexists|].
      rewrite Hp in Hs. rewrite Hi in Hnew. simpl in Hs.
      split_and!.
      * by constructor.
      * destruct (scan_prev s) as [p|]; simpl in *; [|done].
        constructor; [done|]. inversion Hs as [|?? _ Hall]; subst.
        constructor; [done|]. eapply Forall_impl; [done|]. intros y. by trans (path x).
      * constructor; [|done]. rewrite elem_of_map. intros (y & Heq & Hy).
        rewrite Forall_forall in Hnew. specialize (Hnew y Hy). set_solver.
      * constructor; [done|]. eapply Forall_impl; [done|]. set_solver.
    + intros (Hok & Hs & Hnd & Hnew).
      apply Forall_cons in Hok as [Hok Hoks]. apply Forall_cons in Hnew as [Hid Hnew].
      apply NoDup_cons in Hnd as [Hfresh Hnd].
      destruct (proj2 (scan_step s x)) as [s1 Hx].
      { split_and!; [done| |done]. destruct (scan_prev s) as [p|]; simpl in *; [|done].
        inversion Hs as [|?? _ Hall]; subst. by inversion Hall. }
      destruct (scan_next _ _ _ Hx) as [Hp Hi].
      destruct (proj2 (IH s1)) as [s' Hl].
      { rewrite Hp, Hi. split_and!; [done| |done|].
        - destruct (scan_prev s); simpl in *; [by inversion Hs|done].
        - rewrite Forall_forall in Hnew |- *. intros y Hy.
          assert (id y ≠ id x); [|set_solver].
          intros Heq. apply Hfresh. rewrite elem_of_map. eauto. }
      exists s'. apply bind_Ok. eauto.
Qed.

(** What the state holds after a prefix. *)
Lemma scan_state l s s' :
  for_each f l s = Ok s' →
  scan_prev s' = match last (map path l) with Some p => Some p | None => scan_prev s end
  ∧ scan_ids s' = list_to_set (map id l) ∪ scan_ids s.
Proof.
  revert s. induction l as [|x l IH]; intros s; simpl.
  { intros [= <-]. split; [done|]. set_solver. }
  intros (s1 & Hx & Hl)%bind_Ok.
  destruct (scan_next _ _ _ Hx) as [Hp Hi]. destruct (IH _ Hl) as [Hp' Hi'].
  rewrite Hp', Hi', Hp, Hi. split; [|set_solver].
  destruct l as [|y l]; [done|]. change (map path (y :: l)) with (path y :: map path l).
  rewrite last_cons_cons.
  destruct (last (path y :: map path l)) eqn:HH; [done|]. by apply last_None in HH.
Qed.

(** Started with nothing seen, a path below its predecessor is the adjacent
    one, and an identifier seen is that of an earlier element. *)
Lemma scan_not_above l1 l2 s s' x :
  for_each f l1 s = Ok s' → scan_prev s = None → not_above (scan_prev s') (path x) = true →
  adjacent_pair (λ a b, ¬ str_lt (path a) (path b)) (l1 ++ x :: l2).
Proof.
  intros Hl H0 (p & Hp & Hlt)%not_above_true.
  destruct (scan_state _ _ _ Hl) as [Hprev _]. rewrite Hprev, H0 in Hp.
  destruct l1 as [|y l' _] using rev_ind; [done|].
  rewrite map_app in Hp. simpl in Hp. rewrite last_snoc in Hp. injection Hp as <-.
  by apply adjacent_pair_snoc.
Qed.

Lemma scan_seen l1 l2 s s' x :
  for_each f l1 s = Ok s' → scan_ids s = ∅ → id x ∈ scan_ids s' →
  ordered_pair (λ a b, id a = id b) (l1 ++ x :: l2).
Proof.
  intros Hl H0 Hin. destruct (scan_state _ _ _ Hl) as [_ Hids].
  rewrite Hids, H0, right_id_L, elem_of_list_to_set, elem_of_map in Hin by apply _.
  destruct Hin as (y & Heq & Hy). by eapply ordered_pair_mem.
Qed.
End scan.

Inductive ProgressStage := Discovery | ContentIdentity | Reconciliation | StageComplete.

Record ProgressEvent := {
  pe_schema_version : Z;
  pe_sequence : Z;
  pe_stage : ProgressStage;
  pe_assets_observed : Z;
  pe_bytes_read : Z;
}.

Definition PROGRESS_EVENT_SCHEMA_VERSION : Z := 1.
