(* ===== verification/Prog.v ===== *)
(** * Prog: effectful functions with loops

    [prog S E A] is a computation on a mutable state [S] that returns, fails with
    an [E], or runs out of the fuel of one of its loops ([None]).  The functions
    of the import executor are written in this monad; their theorems show that
    the fuel they pass is always enough. *)
From S2P Require Export Prelude.

Definition prog (S E A : Type) : Type := S → option (result E A * S).

#[export] Instance prog_ret {S E} : MRet (prog S E) := λ A a s, Some (Ok a, s).
#[export] Instance prog_bind {S E} : MBind (prog S E) := λ A B f m s,
  match m s with
  | Some (Ok a, s) => f a s
  | Some (Err e, s) => Some (Err e, s)
  | None => None
  end.

(** A computation without loops, and one without effects. *)
Definition run_io {S E A} (m : io S E A) : prog S E A := λ s, Some (m s).
Definition run_lift {S E A} (r : result E A) : prog S E A := λ s, Some (r, s).

(** [m] always returns, and whatever it returns satisfies [R]. *)
Definition runs {S E A} (m : prog S E A) (R : S → result E A → S → Prop) : Prop :=
  ∀ s, ∃ r s', m s = Some (r, s') ∧ R s r s'.

Section runs.
  Context {S E : Type}.

Lemma runs_weaken {A} (m : prog S E A) R R' :
  runs m R → (∀ s r s', R s r s' → R' s r s') → runs m R'.
Proof. intros Hm Hw s. destruct (Hm s) as (r & s' & ? & ?). exists r, s'. auto. Qed.

Lemma runs_ret {A} (a : A) : runs (mret a : prog S E A) (λ s r s', r = Ok a ∧ s' = s).
Proof. intros s. by eexists _, _. Qed.

Lemma runs_io {A} (m : io S E A) : runs (run_io m) (λ s r s', m s = (r, s')).
Proof. intros s. destruct (m s) as [r s'] eqn:Hm. exists r, s'. unfold run_io. by rewrite Hm. Qed.

Lemma runs_lift {A} (r0 : result E A) : runs (run_lift r0 : prog S E A) (λ s r s', r = r0 ∧ s' = s).
Proof. intros s. by eexists _, _. Qed.

Lemma runs_bind {A B} (m : prog S E A) (f : A → prog S E B) R1 R2 :
  runs m R1 → (∀ a, runs (f a) (R2 a)) →
  runs (m ≫= f) (λ s r s',
    (∃ e, r = Err e ∧ R1 s (Err e) s') ∨ (∃ a s1, R1 s (Ok a) s1 ∧ R2 a s1 r s')).
Proof.
  intros Hm Hf s. destruct (Hm s) as ([a|e] & s1 & Heq & H1).
  - destruct (Hf a s1) as (r & s' & Hr & H2). exists r, s'.
    unfold mbind, prog_bind. rewrite Heq. split; [done|]. right. by exists a, s1.
  - exists (Err e), s1. unfold mbind, prog_bind. rewrite Heq. split; [done|]. left. by exists e.
Qed.
End runs.
