(* ===== verification/Btree.v ===== *)
(** * Btree: ordered maps and sets of strings

    [BTreeMap<String, V>] and [BTreeSet<String>], where the code iterates over
    them: lists in the order of their keys. *)
From Stdlib Require Import Ascii.
From S2P Require Export Prelude Text.

(** [set.insert(x)] *)
Fixpoint set_insert (x : string) (l : list string) : list string :=
  match l with
  | [] => [x]
  | y :: l' =>
    if String.ltb y x then y :: set_insert x l'
    else if String.eqb y x then l else x :: l
  end.

(** [f(map.entry(k).or_insert(d))] *)
Fixpoint entry_or {V} (k : string) (d : V) (f : V → V) (l : list (string * V)) : list (string * V) :=
  match l with
  | [] => [(k, f d)]
  | (k', v) :: l' =>
    if String.ltb k' k then (k', v) :: entry_or k d f l'
    else if String.eqb k' k then (k', f v) :: l' else (k, f d) :: l
  end.

Lemma elem_of_set_insert x y l : y ∈ set_insert x l ↔ y = x ∨ y ∈ l.
Proof.
  induction l as [|z l IH]; simpl; [set_solver|].
  destruct (String.ltb z x); [rewrite !elem_of_cons, IH; tauto|].
  destruct (String.eqb_spec z x) as [->|]; [set_solver|]. set_solver.
Qed.

Lemma set_insert_sorted x l : StronglySorted str_lt l → StronglySorted str_lt (set_insert x l).
Proof.
  induction 1 as [|z l Hs IH Hz]; simpl; [by repeat constructor|].
  destruct (String.ltb z x) eqn:Hlt.
  - constructor; [done|]. rewrite Forall_forall in *. intros y [->|Hy]%elem_of_set_insert; [done|by apply Hz].
  - destruct (String.eqb_spec z x) as [->|Hne]; [by constructor|].
    assert (str_lt x z) as Hxz.
    { destruct (str_lt_total x z) as [?|[?|Hzx]]; [done|done|]. unfold str_lt in Hzx. congruence. }
    constructor; [by constructor|]. constructor; [done|].
    eapply Forall_impl; [exact Hz|]. intros y Hy. by trans z.
Qed.

Section entry_or.
  Context {V : Type} (d : V) (f : V → V).

Lemma entry_or_keys k l : map fst (entry_or k d f l) = set_insert k (map fst l).
Proof.
  induction l as [|[k' v] l IH]; simpl; [done|]. destruct (String.ltb k' k); simpl; [by rewrite IH|].
  by destruct (String.eqb_spec k' k).
Qed.

(** The only value that changes is the one of [k]. *)
Lemma entry_or_elem k l k' v :
  (k', v) ∈ entry_or k d f l → (k', v) ∈ l ∨ k' = k ∧ (v = f d ∨ ∃ v0, (k, v0) ∈ l ∧ v = f v0).
Proof.
  induction l as [|[k0 v0] l IH]; simpl; [set_solver|].
  destruct (String.ltb k0 k).
  - intros [[= -> ->]|Hin]%elem_of_cons; [left; left|].
    destruct (IH Hin) as [?|(-> & [->|(v1 & ? & ->)])];
      [left; by right|right; by auto|right; split; [done|]; right; exists v1; split; [by right|done]].
  - destruct (String.eqb_spec k0 k) as [->|].
    + intros [[= -> ->]|Hin]%elem_of_cons; [|left; by right].
      right. split; [done|]. right. exists v0. split; [left|done].
    + intros [[= -> ->]|Hin]%elem_of_cons; [right; by auto|by left].
Qed.
End entry_or.
