(* ===== verification/Log.v ===== *)
(** * Log: the last row of every key

    Both journals keep an append-only table and read it through the same query:
    the rows whose sequence number is the greatest of their key.  [latest_by] is
    that query, [last_row] its specification. *)
From Stdlib Require Import Ascii.
From S2P Require Export Prelude.

Section log.
  Context {R : Type} (key : R → string).

(** [JOIN (SELECT key, MAX(sequence) .. GROUP BY key)]: the rows that no later row
    of the same key follows *)
Fixpoint latest_by (rows : list R) : list R :=
  match rows with
  | [] => []
  | r :: rows =>
    if existsb (λ r', String.eqb (key r') (key r)) rows then latest_by rows
    else r :: latest_by rows
  end.

(** Lookup in the log: the last row of the key decides. *)
Fixpoint last_row (k : string) (rows : list R) : option R :=
  match rows with
  | [] => None
  | r :: rows =>
    match last_row k rows with
    | Some r' => Some r'
    | None => if String.eqb (key r) k then Some r else None
    end
  end.

Lemma existsb_last_row k rows :
  existsb (λ r', String.eqb (key r') k) rows = is_some (last_row k rows).
Proof.
  induction rows as [|r rows IH]; simpl; [done|]. rewrite IH.
  destruct (last_row k rows); simpl; [by rewrite orb_true_r|].
  by destruct (String.eqb (key r) k).
Qed.

Lemma last_row_op k rows r : last_row k rows = Some r → key r = k ∧ r ∈ rows.
Proof.
  induction rows as [|r' rows IH]; simpl; [done|]. destruct (last_row k rows).
  - intros Hr. destruct (IH Hr). split; [done|by right].
  - destruct (String.eqb_spec (key r') k); [|done]. intros [= <-]. split; [done|left].
Qed.

Lemma last_row_app k rows rows' :
  last_row k (rows ++ rows') =
    match last_row k rows' with Some r => Some r | None => last_row k rows end.
Proof.
  induction rows as [|r rows IH]; simpl; [by destruct (last_row k rows')|]. rewrite IH.
  by destruct (last_row k rows').
Qed.

Lemma last_row_None k rows : last_row k rows = None ↔ k ∉ map key rows.
Proof.
  induction rows as [|r rows IH]; simpl; [set_solver|]. rewrite not_elem_of_cons, <-IH.
  destruct (last_row k rows); [naive_solver|].
  destruct (String.eqb_spec (key r) k); naive_solver.
Qed.

(** The grouped query returns exactly the last row of every key. *)
Lemma latest_mem rows r : r ∈ latest_by rows ↔ last_row (key r) rows = Some r.
Proof.
  induction rows as [|r' rows IH]; simpl; [set_solver|].
  rewrite existsb_last_row. destruct (last_row (key r') rows) as [r''|] eqn:Hl; simpl.
  - rewrite IH. destruct (last_row (key r) rows) as [r0|] eqn:Hr; [done|].
    destruct (String.eqb_spec (key r') (key r)) as [Heq|]; [|done].
    rewrite Heq in Hl. congruence.
  - rewrite elem_of_cons, IH. split.
    + intros [->|Hr]; [|by rewrite Hr]. by rewrite Hl, String.eqb_refl.
    + destruct (last_row (key r) rows); [by right|].
      destruct (String.eqb_spec (key r') (key r)); [|done]. intros [= ->]. by left.
Qed.

Lemma latest_NoDup rows : NoDup (map key (latest_by rows)).
Proof.
  induction rows as [|r rows IH]; simpl; [constructor|].
  rewrite existsb_last_row. destruct (last_row (key r) rows) eqn:Hl; simpl; [done|].
  constructor; [|done]. intros (r' & Heq & Hr')%Prelude.elem_of_map.
  apply latest_mem in Hr'. rewrite <-Heq in Hr'. congruence.
Qed.

Lemma last_row_unique k rows r :
  NoDup (map key rows) → r ∈ rows → key r = k → last_row k rows = Some r.
Proof.
  induction rows as [|r' rows IH]; [set_solver|]. simpl. intros [Hfresh Hnd]%NoDup_cons.
  intros [->|Hr]%elem_of_cons Hop; subst.
  - destruct (last_row (key r') rows) as [r''|] eqn:Hl.
    + apply last_row_op in Hl as [Heq Hin]. destruct Hfresh. rewrite <-Heq.
      apply Prelude.elem_of_map. by exists r''.
    + by rewrite String.eqb_refl.
  - by rewrite IH.
Qed.

Lemma latest_subset rows r : r ∈ latest_by rows → r ∈ rows.
Proof. intros Hr%latest_mem. by eapply last_row_op. Qed.
End log.
