(* ===== verification/Metadata.v ===== *)
(** * Metadata: source-neutral metadata and its validity
    ([crates/immich-core/src/metadata.rs])

    [NormalizedMetadata::is_valid] is the gate every plan schema uses.  It
    needs binary64 numbers of the Rust standard library (parsing to the nearest
    number, printing the shortest digits that parse back), which are modelled
    here, and the RFC 3339 functions of the [time] crate, which are the
    parameters of [TimeLib]. *)
From Stdlib Require Import Ascii.
From S2P Require Export Prelude Text.

(** The operations of the [time] crate the sources call on [OffsetDateTime]. *)
Class TimeLib := {
  instant : Type;
  parse_rfc3339 : string → option instant;
  format_rfc3339 : instant → option string;
  unix_timestamp_nanos : instant → Z;
  from_unix_timestamp_nanos : Z → option instant;
}.

(** ** Binary64 numbers *)
Module F64.

(** [F64 neg m e] is [± m * 2^e] with [m < 2^53] and [-1074 <= e]. *)
Inductive f64 :=
  | F64 (neg : bool) (m e : Z)
  | F64Inf (neg : bool)
  | F64NaN.

(** [floor (log2 (n / d))] *)
Definition log2_ratio (n d : Z) : Z :=
  let k := Z.log2 n - Z.log2 d in
  if n * 2 ^ Z.max 0 (- k) <? d * 2 ^ Z.max 0 k then k - 1 else k.

(** The number nearest to [n / d > 0], ties to even; [None] is infinity. *)
Definition round_ratio (n d : Z) : option (Z * Z) :=
  let e := Z.max (log2_ratio n d - 52) (-1074) in
  let num := n * 2 ^ Z.max 0 (- e) in
  let den := d * 2 ^ Z.max 0 e in
  let q := num / den in
  let r := num mod den in
  let m := if 2 * r <? den then q
           else if den <? 2 * r then q + 1
           else if Z.even q then q else q + 1 in
  let '(m, e) := if m =? 2 ^ 53 then (2 ^ 52, e + 1) else (m, e) in
  if 971 <? e then None else Some (m, e).

Definition of_ratio (neg : bool) (n d : Z) : f64 :=
  if n =? 0 then F64 neg 0 0
  else match round_ratio n d with
  | Some (m, e) => F64 neg m e
  | None => F64Inf neg
  end.

(** Leading decimal digits: their value, how many, and the rest. *)
Fixpoint take_digits (l : list ascii) (acc n : Z) : Z * Z * list ascii :=
  match l with
  | a :: l' => if is_ascii_digit a then take_digits l' (acc * 10 + (code a - 48)) (n + 1)
               else (acc, n, l)
  | [] => (acc, n, [])
  end.

Definition take_sign (l : list ascii) : bool * list ascii :=
  match l with
  | a :: l' => if Ascii.eqb a "-" then (true, l')
               else if Ascii.eqb a "+" then (false, l') else (false, l)
  | [] => (false, [])
  end.

(** [Number ::= (Digit+ | Digit+ '.' Digit* | Digit* '.' Digit+) Exp?] *)
Definition parse_number (neg : bool) (l : list ascii) : option f64 :=
  let '(int, ni, l) := take_digits l 0 0 in
  let '(mant, nf, l) :=
    match l with
    | a :: l' =>
      if Ascii.eqb a "." then
        let '(mant, n, l') := take_digits l' int 0 in (mant, n, l')
      else (int, 0, l)
    | [] => (int, 0, [])
    end in
  if ni + nf =? 0 then None
  else
    let finish (exp : Z) : option f64 :=
      let s := exp - nf in
      Some (of_ratio neg (mant * 10 ^ Z.max 0 s) (10 ^ Z.max 0 (- s))) in
    match l with
    | [] => finish 0
    | a :: l' =>
      if Ascii.eqb a "e" || Ascii.eqb a "E" then
        let '(eneg, l'') := take_sign l' in
        let '(exp, ne, rest) := take_digits l'' 0 0 in
        match rest with
        | [] => if ne =? 0 then None else finish (if eneg then - exp else exp)
        | _ :: _ => None
        end
      else None
    end.

(** [value.parse::<f64>()] *)
Definition parse (s : string) : option f64 :=
  let '(neg, l) := take_sign (bytes s) in
  let word := to_ascii_uppercase (String.string_of_list_ascii l) in
  if String.eqb word "INF" || String.eqb word "INFINITY" then Some (F64Inf neg)
  else if String.eqb word "NAN" then Some F64NaN
  else parse_number neg l.

(** [number.is_finite()] *)
Definition is_finite (x : f64) : bool := match x with F64 _ _ _ => true | _ => false end.

(** [number == 0.0] *)
Definition is_zero (x : f64) : bool := match x with F64 _ m _ => m =? 0 | _ => false end.

(** [(minimum..=maximum).contains(&number)] for integral bounds *)
Definition in_range (minimum maximum : Z) (x : f64) : bool :=
  match x with
  | F64 neg m e =>
    let n := (if neg then - m else m) * 2 ^ Z.max 0 e in
    let d := 2 ^ Z.max 0 (- e) in
    (minimum * d <=? n) && (n <=? maximum * d)
  | _ => false
  end.

(** *** Shortest printing *)

(** The [p] with [10^(p-1) <= n/d < 10^p], searched from [p]. *)
Fixpoint scale_up (fuel : nat) (n d p : Z) : Z :=
  match fuel with
  | O => p
  | S fuel => if n <? d * 10 ^ p then p else scale_up fuel n d (p + 1)
  end.
Fixpoint scale_down (fuel : nat) (n d p : Z) : Z :=
  match fuel with
  | O => p
  | S fuel => if d <=? n * 10 ^ (1 - p) then p else scale_down fuel n d (p - 1)
  end.
Definition decimal_point (n d : Z) : Z :=
  if n <? d then scale_down 400 n d 0 else scale_up 400 n d 1.

(** Whether [D * 10^-s] rounds to [m * 2^e]. *)
Definition rounds_to (D s m e : Z) : bool :=
  match round_ratio (D * 10 ^ Z.max 0 (- s)) (10 ^ Z.max 0 s) with
  | Some (m', e') => (m' =? m) && (e' =? e)
  | None => false
  end.

(** The closest of the numbers of [k], [k+1], ... digits that parse back. *)
Fixpoint shortest_digits (fuel : nat) (k n d p m e : Z) : Z * Z :=
  let s := k - p in
  let num := n * 10 ^ Z.max 0 s in
  let den := d * 10 ^ Z.max 0 (- s) in
  let lo := num / den in
  let up := den <=? 2 * (num mod den) in
  let lo_ok := (0 <? lo) && rounds_to lo s m e in
  let hi_ok := rounds_to (lo + 1) s m e in
  match fuel with
  | O => (lo, k)
  | S fuel =>
    if hi_ok && (up || negb lo_ok) then (lo + 1, k)
    else if lo_ok then (lo, k)
    else shortest_digits fuel (k + 1) n d p m e
  end.

Fixpoint zeros (n : nat) : list ascii :=
  match n with O => [] | S n => "0"%char :: zeros n end.

Fixpoint strip_zeros (l : list ascii) : list ascii :=
  match l with
  | a :: l' => if Ascii.eqb a "0" then strip_zeros l' else l
  | [] => []
  end.

(** [number.to_string()] of a finite non-zero number: no exponent, a point
    only when there is a fraction *)
Definition display_pos (m e : Z) : list ascii :=
  let n := m * 2 ^ Z.max 0 e in
  let d := 2 ^ Z.max 0 (- e) in
  let p := decimal_point n d in
  let '(D, k) := shortest_digits 17 1 n d p m e in
  let all := bytes (display_u64 D) in
  let p := p + (zlen all - k) in
  let ds := rev (strip_zeros (rev all)) in
  if p <=? 0 then ("0" :: "." :: zeros (Z.to_nat (- p)) ++ ds)%char
  else if zlen ds <=? p then ds ++ zeros (Z.to_nat (p - zlen ds))
  else (take (Z.to_nat p) ds ++ "." :: drop (Z.to_nat p) ds)%char.

Definition display (x : f64) : string :=
  match x with
  | F64 neg m e =>
    let body := if m =? 0 then ["0"%char] else display_pos m e in
    String.string_of_list_ascii (if neg then "-"%char :: body else body)
  | F64Inf neg => if neg then "-inf" else "inf"
  | F64NaN => "NaN"
  end.

End F64.

(** [decimal_in_range] *)
Definition decimal_in_range (value : string) (minimum maximum : Z) : bool :=
  match F64.parse value with
  | Some number =>
    let canonical := if F64.is_zero number then "0" else F64.display number in
    F64.is_finite number && F64.in_range minimum maximum number && String.eqb value canonical
  | None => false
  end.

(** ** Normalized metadata *)

Record GeoCoordinates := { latitude : string; longitude : string }.

Record NormalizedMetadata := {
  description : option string;
  taken_at_utc : option string;
  location : option GeoCoordinates;
  albums : list string;
}.

#[export] Instance GeoCoordinates_eq_dec : EqDecision GeoCoordinates.
Proof. solve_decision. Defined.
#[export] Instance NormalizedMetadata_eq_dec : EqDecision NormalizedMetadata.
Proof. solve_decision. Defined.

(** [NormalizedMetadata::default()] *)
Definition default_metadata : NormalizedMetadata :=
  {| description := None; taken_at_utc := None; location := None; albums := [] |}.

(** [GeoCoordinates::is_valid] *)
Definition geo_is_valid (g : GeoCoordinates) : bool :=
  decimal_in_range (latitude g) (-90) 90 && decimal_in_range (longitude g) (-180) 180.

Definition valid_album (value : string) : bool :=
  negb (is_empty value) && (len value <=? 4096) && negb (contains_byte "\" value)
  && negb (has_control value).

Definition is_layout (c : Z) : bool := (c =? 10) || (c =? 13) || (c =? 9).

Definition valid_text (value : string) (max_bytes : Z) (allow_layout : bool) : bool :=
  negb (is_empty value) && (len value <=? max_bytes)
  && negb (existsb (λ c, is_control c && negb (allow_layout && is_layout c)) (chars value))
  && (allow_layout || negb (contains_byte "/" value || contains_byte "\" value)).

Section is_valid.
  Context `{TimeLib}.

(** [OffsetDateTime::parse(..).ok().and_then(format ..)] equal to the input,
    and in UTC *)
Definition canonical_utc (value : string) : bool :=
  is_some_and (parse_rfc3339 value ≫= format_rfc3339)
    (λ canonical, String.eqb canonical value && ends_with "Z" value).

(** [NormalizedMetadata::is_valid] *)
Definition is_valid (m : NormalizedMetadata) : bool :=
  is_none_or (description m) (λ value, valid_text value (16 * 1024) true)
  && is_none_or (taken_at_utc m) canonical_utc
  && is_none_or (location m) geo_is_valid
  && forallb valid_album (albums m)
  && windows2_all String.ltb (albums m).

(** *** Facts *)

Lemma is_valid_albums m :
  is_valid m = true → Forall (λ a, valid_album a = true) (albums m) ∧ StronglySorted str_lt (albums m).
Proof.
  unfold is_valid. intros Hv. apply andb_true_iff in Hv as [Hv Hs].
  apply andb_true_iff in Hv as [_ Ha]. split; [by apply forallb_true|].
  apply (windows2_all_StronglySorted String.ltb); [apply _|done|done].
Qed.

(** Validity splits into the scalar fields and the album list. *)
Definition scalars_valid (m : NormalizedMetadata) : bool :=
  is_none_or (description m) (λ value, valid_text value (16 * 1024) true)
  && is_none_or (taken_at_utc m) canonical_utc
  && is_none_or (location m) geo_is_valid.

Lemma is_valid_iff m :
  is_valid m = true ↔
    scalars_valid m = true ∧ Forall (λ a, valid_album a = true) (albums m)
    ∧ StronglySorted str_lt (albums m).
Proof.
  unfold is_valid, scalars_valid. rewrite !andb_true_iff, forallb_true.
  rewrite (windows2_all_StronglySorted String.ltb str_lt) by done. tauto.
Qed.

Lemma is_valid_default : is_valid default_metadata = true.
Proof. done. Qed.
End is_valid.

Example decimal_ok : decimal_in_range "45.4642" (-90) 90 = true. Proof. vm_compute. reflexivity. Qed.
Example decimal_neg : decimal_in_range "-0.1" (-90) 90 = true. Proof. vm_compute. reflexivity. Qed.
Example decimal_padded : decimal_in_range "45.50" (-90) 90 = false. Proof. vm_compute. reflexivity. Qed.
Example decimal_range : decimal_in_range "90.5" (-90) 90 = false. Proof. vm_compute. reflexivity. Qed.
Example decimal_neg_zero : decimal_in_range "-0" (-90) 90 = false. Proof. vm_compute. reflexivity. Qed.
Example decimal_tiny : decimal_in_range "0.0000001" (-90) 90 = true. Proof. vm_compute. reflexivity. Qed.
Example decimal_third : decimal_in_range "0.3333333333333333" (-90) 90 = true. Proof. vm_compute. reflexivity. Qed.
Example decimal_excess : decimal_in_range "0.33333333333333333" (-90) 90 = false. Proof. vm_compute. reflexivity. Qed.
Example decimal_exp : decimal_in_range "1e1" (-90) 90 = false. Proof. vm_compute. reflexivity. Qed.
Example decimal_hundred : decimal_in_range "100" (-180) 180 = true. Proof. vm_compute. reflexivity. Qed.

(** A clock that knows one instant, for the concrete inputs of the examples. *)
Definition sample_utc : string := "2020-05-17T08:09:10Z".
Definition sample_time : TimeLib := {|
  instant := Z;
  parse_rfc3339 s := if String.eqb s sample_utc then Some 1589702950 else None;
  format_rfc3339 i := if i =? 1589702950 then Some sample_utc else None;
  unix_timestamp_nanos i := i * 10 ^ 9;
  from_unix_timestamp_nanos n := Some (n / 10 ^ 9);
|}.

Definition sample_metadata : NormalizedMetadata := {|
  description := Some "Lake"; taken_at_utc := Some sample_utc;
  location := Some {| latitude := "45.4642"; longitude := "9.19" |};
  albums := ["Italy"; "Summer"] |}.

Example sample_metadata_valid : is_valid (H := sample_time) sample_metadata = true.
Proof. vm_compute. reflexivity. Qed.
