(* ===== verification/Planning.v ===== *)
(** * Planning: the normalized plan of a read-only scan
    ([crates/immich-core/src/planning.rs], schema constants of [lib.rs])

    The data of the plan, [NormalizedPlan::validate] and what it accepts. *)
From S2P Require Export Prelude Text Scan Metadata.

(** ** Data *)

Definition NORMALIZED_PLAN_SCHEMA_VERSION : Z := 1.
Definition NORMALIZED_PLAN_SCHEMA_VERSION_V2 : Z := 2.
Definition NORMALIZED_PLAN_SCHEMA_VERSION_V3 : Z := 3.
Definition NORMALIZED_PLAN_SCHEMA_VERSION_V4 : Z := 4.

Inductive SourceKind := Folder | GoogleTakeout | ApplePhotos | Picasa | Immich.
Inductive UnicodeNormalization := Nfc.
(** [MediaKind::Image] and [MediaKind::Video] *)
Inductive MediaKind := Media_Image | Media_Video.
(** [MetadataKind::Json] and [MetadataKind::Xmp] *)
Inductive MetadataKind := Meta_Json | Meta_Xmp.
(** [LivePhotoRole::Image] and [LivePhotoRole::Video] *)
Inductive LivePhotoRole := Live_Image | Live_Video.

Record SourceDescriptor := {
  kind : SourceKind;
  label : string;
  fingerprint_sha256 : string;
  case_sensitive : bool;
  unicode_normalization : UnicodeNormalization;
}.

Record RuleEvidence := { re_rule_id : string; outcome : string }.

Record MetadataCandidate := {
  mc_relative_path : string;
  mc_kind : MetadataKind;
  mc_rule_id : string;
}.

Record LivePhotoMember := { pair_id : string; role : LivePhotoRole }.

Record CandidateAsset := {
  ca_operation_id : string;
  ca_relative_path : string;
  ca_media_kind : MediaKind;
  ca_byte_len : Z;
  ca_content_sha256 : string;
  ca_metadata : list MetadataCandidate;
  ca_normalized_metadata : option NormalizedMetadata;
  ca_live_photo : option LivePhotoMember;
  ca_evidence : list RuleEvidence;
}.

Record PlanDiagnostic := { pd_rule_id : string; pd_code : string; pd_paths : list string }.

Record PlanSummary := { ps_assets : Z; ps_sidecars : Z; ps_bytes_read : Z }.

Record NormalizedPlan := {
  np_schema_version : Z;
  np_source : SourceDescriptor;
  np_assets : list CandidateAsset;
  np_warnings : list PlanDiagnostic;
  np_errors : list PlanDiagnostic;
  np_summary : PlanSummary;
}.

Module PlanValidationError.
Inductive t :=
  | UnsupportedSchema (version : Z)
  | InvalidSchemaSource
  | InvalidSourceDescriptor
  | InvalidAssetIdentity
  | AssetsNotStrictlySorted
  | DuplicateOperationId
  | MissingRuleId
  | InvalidNormalizedMetadata
  | SummaryMismatch.
#[export] Instance t_eq_dec : EqDecision t.
Proof. solve_decision. Defined.
End PlanValidationError.
Import PlanValidationError.

#[export] Instance SourceKind_eq_dec : EqDecision SourceKind.
Proof. solve_decision. Defined.
#[export] Instance UnicodeNormalization_eq_dec : EqDecision UnicodeNormalization.
Proof. solve_decision. Defined.
#[export] Instance MediaKind_eq_dec : EqDecision MediaKind.
Proof. solve_decision. Defined.
#[export] Instance MetadataKind_eq_dec : EqDecision MetadataKind.
Proof. solve_decision. Defined.
#[export] Instance LivePhotoRole_eq_dec : EqDecision LivePhotoRole.
Proof. solve_decision. Defined.
#[export] Instance SourceDescriptor_eq_dec : EqDecision SourceDescriptor.
Proof. solve_decision. Defined.
#[export] Instance PlanDiagnostic_eq_dec : EqDecision PlanDiagnostic.
Proof. solve_decision. Defined.
#[export] Instance PlanSummary_eq_dec : EqDecision PlanSummary.
Proof. solve_decision. Defined.

(** *** The derived order of [PlanDiagnostic]: fields in declaration order *)

Definition then_compare (c d : comparison) : comparison :=
  match c with Eq => d | _ => c end.

Fixpoint list_string_compare (l m : list string) : comparison :=
  match l, m with
  | [], [] => Eq
  | [], _ => Lt
  | _, [] => Gt
  | x :: l, y :: m => then_compare (String.compare x y) (list_string_compare l m)
  end.

Definition diagnostic_compare (a b : PlanDiagnostic) : comparison :=
  then_compare (String.compare (pd_rule_id a) (pd_rule_id b))
    (then_compare (String.compare (pd_code a) (pd_code b))
       (list_string_compare (pd_paths a) (pd_paths b))).

(** [a <= b] *)
Definition diagnostic_leb (a b : PlanDiagnostic) : bool :=
  match diagnostic_compare a b with Gt => false | _ => true end.

Definition diagnostic_le (a b : PlanDiagnostic) : Prop := diagnostic_leb a b = true.

(** ** [NormalizedPlan::validate] *)
Section validate.
  Context `{TimeLib}.

(** The loop state: [previous_path] and [operation_ids]. *)
Definition validate_asset (schema_version : Z) (s : option string * gset string)
    (asset : CandidateAsset) : result PlanValidationError.t (option string * gset string) :=
  let '(previous_path, operation_ids) := s in
  _ ← fail_if (is_empty (ca_relative_path asset)
               || negb (len (ca_operation_id asset) =? 64)
               || negb (len (ca_content_sha256 asset) =? 64)) InvalidAssetIdentity;
  _ ← fail_if (not_above previous_path (ca_relative_path asset)) AssetsNotStrictlySorted;
  _ ← fail_if (bool_decide (ca_operation_id asset ∈ operation_ids)) DuplicateOperationId;
  _ ← fail_if (existsb (λ evidence, is_empty (re_rule_id evidence)) (ca_evidence asset)
               || existsb (λ metadata, is_empty (mc_rule_id metadata)) (ca_metadata asset))
        MissingRuleId;
  _ ← fail_if (((schema_version =? NORMALIZED_PLAN_SCHEMA_VERSION)
                && is_some (ca_normalized_metadata asset))
               || is_some_and (ca_normalized_metadata asset) (λ m, negb (is_valid m)))
        InvalidNormalizedMetadata;
  Ok (Some (ca_relative_path asset), {[ca_operation_id asset]} ∪ operation_ids).

Definition supported_schema (v : Z) : bool :=
  (v =? NORMALIZED_PLAN_SCHEMA_VERSION) || (v =? NORMALIZED_PLAN_SCHEMA_VERSION_V2)
  || (v =? NORMALIZED_PLAN_SCHEMA_VERSION_V3) || (v =? NORMALIZED_PLAN_SCHEMA_VERSION_V4).

Definition source_is (p : NormalizedPlan) (k : SourceKind) : bool :=
  bool_decide (kind (np_source p) = k).

(** [assets.iter().map(|asset| asset.metadata.len() as u64).sum::<u64>()] *)
Definition sidecar_count (assets : list CandidateAsset) : Z :=
  sum_u64 (map (λ asset, zlen (ca_metadata asset)) assets).

Definition validate (p : NormalizedPlan) : result PlanValidationError.t unit :=
  let v := np_schema_version p in
  _ ← fail_if (negb (supported_schema v)) (UnsupportedSchema v);
  _ ← fail_if ((v =? NORMALIZED_PLAN_SCHEMA_VERSION_V2) && negb (source_is p GoogleTakeout))
        InvalidSchemaSource;
  _ ← fail_if ((v =? NORMALIZED_PLAN_SCHEMA_VERSION_V3) && negb (source_is p ApplePhotos))
        InvalidSchemaSource;
  _ ← fail_if ((v =? NORMALIZED_PLAN_SCHEMA_VERSION_V4) && negb (source_is p Picasa))
        InvalidSchemaSource;
  _ ← fail_if (source_is p ApplePhotos && negb (v =? NORMALIZED_PLAN_SCHEMA_VERSION_V3))
        InvalidSchemaSource;
  _ ← fail_if (source_is p Picasa && negb (v =? NORMALIZED_PLAN_SCHEMA_VERSION_V4))
        InvalidSchemaSource;
  _ ← fail_if (source_is p Immich) InvalidSchemaSource;
  _ ← fail_if (is_empty (label (np_source p))
               || negb (len (fingerprint_sha256 (np_source p)) =? 64)) InvalidSourceDescriptor;
  _ ← for_each (validate_asset v) (np_assets p) (None, ∅);
  _ ← fail_if (negb (ps_assets (np_summary p) =? zlen (np_assets p))
               || negb (ps_sidecars (np_summary p) =? sidecar_count (np_assets p))
               || negb (windows2_all diagnostic_leb (np_warnings p))
               || negb (windows2_all diagnostic_leb (np_errors p))) SummaryMismatch;
  Ok tt.

(** ** What a valid plan is *)

(** The source adapters each schema version admits. *)
Inductive schema_source : Z → SourceKind → Prop :=
  | schema_1_folder : schema_source 1 Folder
  | schema_1_takeout : schema_source 1 GoogleTakeout
  | schema_2 : schema_source 2 GoogleTakeout
  | schema_3 : schema_source 3 ApplePhotos
  | schema_4 : schema_source 4 Picasa.

Record asset_well_formed (schema_version : Z) (a : CandidateAsset) : Prop := {
  awf_path : ca_relative_path a ≠ "";
  awf_operation_id : len (ca_operation_id a) = 64;
  awf_content : len (ca_content_sha256 a) = 64;
  awf_evidence : Forall (λ e, re_rule_id e ≠ "") (ca_evidence a);
  awf_metadata : Forall (λ m, mc_rule_id m ≠ "") (ca_metadata a);
  awf_schema_1 : schema_version = 1 → ca_normalized_metadata a = None;
  awf_normalized : ∀ m, ca_normalized_metadata a = Some m → is_valid m = true;
}.

Record plan_well_formed (p : NormalizedPlan) : Prop := {
  pwf_schema : schema_source (np_schema_version p) (kind (np_source p));
  pwf_label : label (np_source p) ≠ "";
  pwf_fingerprint : len (fingerprint_sha256 (np_source p)) = 64;
  pwf_assets : Forall (asset_well_formed (np_schema_version p)) (np_assets p);
  pwf_sorted : StronglySorted str_lt (map ca_relative_path (np_assets p));
  pwf_ids : NoDup (map ca_operation_id (np_assets p));
  pwf_asset_count : ps_assets (np_summary p) = zlen (np_assets p);
  pwf_sidecar_count : ps_sidecars (np_summary p) = sidecar_count (np_assets p);
  pwf_warnings : Sorted diagnostic_le (np_warnings p);
  pwf_errors : Sorted diagnostic_le (np_errors p);
}.

(** *** The asset loop is an ordered scan *)

Lemma asset_checks_iff schema_version a :
  (is_empty (ca_relative_path a) || negb (len (ca_operation_id a) =? 64)
     || negb (len (ca_content_sha256 a) =? 64) = false
   ∧ existsb (λ e, is_empty (re_rule_id e)) (ca_evidence a)
     || existsb (λ m, is_empty (mc_rule_id m)) (ca_metadata a) = false
   ∧ ((schema_version =? NORMALIZED_PLAN_SCHEMA_VERSION) && is_some (ca_normalized_metadata a))
     || is_some_and (ca_normalized_metadata a) (λ m, negb (is_valid m)) = false)
  ↔ asset_well_formed schema_version a.
Proof.
  unfold NORMALIZED_PLAN_SCHEMA_VERSION.
  rewrite !orb_false_iff, !negb_false_iff, !Z.eqb_eq, !existsb_false, is_empty_false.
  rewrite andb_false_iff, Z.eqb_neq.
  setoid_rewrite is_empty_false. destruct (ca_normalized_metadata a) as [m|] eqn:Hm; simpl.
  - rewrite negb_false_iff. split.
    + intros ([[??]?] & [??] & [[?|?] ?]); [|done]. split; naive_solver.
    + intros []. split_and!; try done; [left|by eauto]. intros ?. naive_solver.
  - split.
    + intros ([[??]?] & [??] & _). split; naive_solver.
    + intros []. naive_solver.
Qed.

#[export] Instance validate_asset_scan (v : Z) :
  OrderedScan (validate_asset v) ca_relative_path ca_operation_id (asset_well_formed v).
Proof.
  refine {| scan_prev := fst; scan_ids := snd |}.
  - intros [prev ids] a. unfold validate_asset. rewrite <-asset_checks_iff. simpl.
    rewrite !ex_bind_fail_if, ex_Ok, not_above_false, bool_decide_eq_false. iff_and.
  - intros [prev ids] a s'. unfold validate_asset. intros Hv. result_inv. done.
Defined.

Lemma schema_source_iff (p : NormalizedPlan) :
  let v := np_schema_version p in
  (negb (supported_schema v) = false
   ∧ (v =? NORMALIZED_PLAN_SCHEMA_VERSION_V2) && negb (source_is p GoogleTakeout) = false
   ∧ (v =? NORMALIZED_PLAN_SCHEMA_VERSION_V3) && negb (source_is p ApplePhotos) = false
   ∧ (v =? NORMALIZED_PLAN_SCHEMA_VERSION_V4) && negb (source_is p Picasa) = false
   ∧ source_is p ApplePhotos && negb (v =? NORMALIZED_PLAN_SCHEMA_VERSION_V3) = false
   ∧ source_is p Picasa && negb (v =? NORMALIZED_PLAN_SCHEMA_VERSION_V4) = false
   ∧ source_is p Immich = false)
  ↔ schema_source v (kind (np_source p)).
Proof.
  intros v. unfold supported_schema, source_is, NORMALIZED_PLAN_SCHEMA_VERSION,
    NORMALIZED_PLAN_SCHEMA_VERSION_V2, NORMALIZED_PLAN_SCHEMA_VERSION_V3,
    NORMALIZED_PLAN_SCHEMA_VERSION_V4.
  destruct (Z.eqb_spec v 1) as [->|]; [|destruct (Z.eqb_spec v 2) as [->|];
    [|destruct (Z.eqb_spec v 3) as [->|]; [|destruct (Z.eqb_spec v 4) as [->|]]]];
    destruct (kind (np_source p)); simpl;
    (split; [intros; destruct_and?; try done; constructor | inversion 1; done]).
Qed.

Lemma summary_checks_iff p :
  negb (ps_assets (np_summary p) =? zlen (np_assets p))
    || negb (ps_sidecars (np_summary p) =? sidecar_count (np_assets p))
    || negb (windows2_all diagnostic_leb (np_warnings p))
    || negb (windows2_all diagnostic_leb (np_errors p)) = false
  ↔ ps_assets (np_summary p) = zlen (np_assets p)
    ∧ ps_sidecars (np_summary p) = sidecar_count (np_assets p)
    ∧ Sorted diagnostic_le (np_warnings p) ∧ Sorted diagnostic_le (np_errors p).
Proof.
  rewrite !orb_false_iff, !negb_false_iff, !Z.eqb_eq.
  rewrite !(windows2_all_Sorted _ diagnostic_le) by done. iff_and.
Qed.

Lemma normalized_validate_Ok p : validate p = Ok tt ↔ plan_well_formed p.
Proof.
  unfold validate. rewrite Ok_tt, !ex_bind_fail_if, ex_bind_const, ex_bind_fail_if, ex_Ok.
  rewrite summary_checks_iff, (scan_exists _ ca_relative_path ca_operation_id
    (asset_well_formed (np_schema_version p))). simpl.
  rewrite (orb_false_iff (is_empty _)), (negb_false_iff (_ =? _)), Z.eqb_eq, is_empty_false.
  pose proof (schema_source_iff p) as Hsch. simpl in Hsch. split.
  - intros (?&?&?&?&?&?&?&[??]&(?&?&?&_)&(?&?&?&?)&_). split; try done.
    apply Hsch. by split_and!.
  - intros []. destruct (proj2 Hsch) as (?&?&?&?&?&?&?); [done|].
    split_and!; try done. by apply Forall_true.
Qed.

(** A plan passes [NormalizedPlan::validate] exactly when it is well formed:
    its schema version admits its source adapter, its identities have the right
    width, its assets are well formed, strictly sorted by path and free of
    duplicate operations, its counters are those of its assets and its
    diagnostics are sorted. *)
Theorem normalized_validate_iff p : validate p = Ok tt ↔ plan_well_formed p.
Proof.
  apply normalized_validate_Ok.
Qed.

(** *** Errors are truthful *)

(** What each error says of the plan. *)
Definition error_reason (p : NormalizedPlan) (e : PlanValidationError.t) : Prop :=
  let assets := np_assets p in
  match e with
  | UnsupportedSchema v => v = np_schema_version p ∧ ∀ k, ¬ schema_source v k
  | InvalidSchemaSource => ¬ schema_source (np_schema_version p) (kind (np_source p))
  | InvalidSourceDescriptor =>
      label (np_source p) = "" ∨ len (fingerprint_sha256 (np_source p)) ≠ 64
  | InvalidAssetIdentity => ∃ a, a ∈ assets
      ∧ (ca_relative_path a = "" ∨ len (ca_operation_id a) ≠ 64 ∨ len (ca_content_sha256 a) ≠ 64)
  | AssetsNotStrictlySorted =>
      adjacent_pair (λ a b, ¬ str_lt (ca_relative_path a) (ca_relative_path b)) assets
  | DuplicateOperationId =>
      ordered_pair (λ a b, ca_operation_id a = ca_operation_id b) assets
  | MissingRuleId => ∃ a, a ∈ assets
      ∧ (Exists (λ x, re_rule_id x = "") (ca_evidence a)
         ∨ Exists (λ x, mc_rule_id x = "") (ca_metadata a))
  | InvalidNormalizedMetadata => ∃ a m, a ∈ assets ∧ ca_normalized_metadata a = Some m
      ∧ (np_schema_version p = 1 ∨ is_valid m = false)
  | SummaryMismatch =>
      ps_assets (np_summary p) ≠ zlen assets ∨ ps_sidecars (np_summary p) ≠ sidecar_count assets
      ∨ ¬ Sorted diagnostic_le (np_warnings p) ∨ ¬ Sorted diagnostic_le (np_errors p)
  end.

Lemma asset_error_reason p e :
  for_each (validate_asset (np_schema_version p)) (np_assets p) (None, ∅) = Err e →
  error_reason p e.
Proof.
  intros (l1 & a & l2 & [prev ids] & Hl & Hpre & Ha)%for_each_Err.
  assert (a ∈ np_assets p) as Hin by (rewrite Hl; set_solver).
  unfold validate_asset in Ha. result_inv; simpl; rewrite ?orb_true_iff, ?negb_true_iff,
    ?Z.eqb_neq, ?is_empty_true, ?bool_decide_eq_true in *.
  - exists a. naive_solver.
  - rewrite Hl. by eapply (scan_not_above _ _ _ _ _ _ _ _ _ Hpre).
  - rewrite Hl. by eapply (scan_seen _ _ _ _ _ _ _ _ _ Hpre).
  - exists a. split; [done|]. rewrite !existsb_true in *.
    destruct_or!; [left|right]; (eapply Exists_impl; [done|]); by intros ? ?%is_empty_true.
  - destruct (ca_normalized_metadata a) as [m|] eqn:Hm; simpl in *.
    + exists a, m. split_and!; [done..|]. rewrite andb_true_iff, Z.eqb_eq, negb_true_iff in *.
      naive_solver.
    + rewrite andb_false_r in *. naive_solver.
Qed.

Lemma unsupported_schema_source v :
  supported_schema v = false → ∀ k, ¬ schema_source v k.
Proof. intros Hv k. inversion 1; subst; by vm_compute in Hv. Qed.

Lemma invalid_schema_source p :
  let v := np_schema_version p in
  supported_schema v = true →
  ((v =? NORMALIZED_PLAN_SCHEMA_VERSION_V2) && negb (source_is p GoogleTakeout) = true
   ∨ (v =? NORMALIZED_PLAN_SCHEMA_VERSION_V3) && negb (source_is p ApplePhotos) = true
   ∨ (v =? NORMALIZED_PLAN_SCHEMA_VERSION_V4) && negb (source_is p Picasa) = true
   ∨ source_is p ApplePhotos && negb (v =? NORMALIZED_PLAN_SCHEMA_VERSION_V3) = true
   ∨ source_is p Picasa && negb (v =? NORMALIZED_PLAN_SCHEMA_VERSION_V4) = true
   ∨ source_is p Immich = true) →
  ¬ schema_source v (kind (np_source p)).
Proof.
  intros v Hs Hbad (_&?&?&?&?&?&?)%schema_source_iff. subst v.
  destruct_or!; congruence.
Qed.

(** Whatever error [NormalizedPlan::validate] reports is true of the plan. *)
Theorem normalized_validate_error_sound p e : validate p = Err e → error_reason p e.
Proof.
  unfold validate. intros Hv. result_inv;
    rewrite ?negb_true_iff, ?negb_false_iff in *;
    try (simpl; eapply invalid_schema_source; [done|tauto]).
  - simpl. split; [done|]. by apply unsupported_schema_source.
  - simpl. rewrite orb_true_iff, negb_true_iff, is_empty_true, Z.eqb_neq in *. done.
  - by apply asset_error_reason.
  - simpl. match goal with H : _ = true |- _ => rename H into Hs end.
    destruct (Z.eq_dec (ps_assets (np_summary p)) (zlen (np_assets p))); [|by left].
    destruct (Z.eq_dec (ps_sidecars (np_summary p)) (sidecar_count (np_assets p))); [|naive_solver].
    right; right. rewrite <-!(windows2_all_Sorted diagnostic_leb diagnostic_le) by done.
    rewrite !orb_true_iff, !negb_true_iff, !Z.eqb_neq in Hs.
    rewrite !not_true_iff_false. naive_solver.
Qed.
End validate.

(** *** Concrete plans *)
Definition sample_digest : string :=
  "aaaaaaaaaaaaaaaaaaaaaaaaaaaaaaaaaaaaaaaaaaaaaaaaaaaaaaaaaaaaaaaa".
Definition sample_digest_2 : string :=
  "bbbbbbbbbbbbbbbbbbbbbbbbbbbbbbbbbbbbbbbbbbbbbbbbbbbbbbbbbbbbbbbb".
Definition sample_source (k : SourceKind) : SourceDescriptor := {|
  kind := k; label := "Photos"; fingerprint_sha256 := sample_digest;
  case_sensitive := true; unicode_normalization := Nfc |}.

Definition sample_asset (path operation : string) (m : option NormalizedMetadata) :
    CandidateAsset := {|
  ca_operation_id := operation; ca_relative_path := path; ca_media_kind := Media_Image;
  ca_byte_len := 1; ca_content_sha256 := sample_digest; ca_metadata := [];
  ca_normalized_metadata := m; ca_live_photo := None;
  ca_evidence := [{| re_rule_id := "SRC-FOLDER-001"; outcome := "accepted" |}] |}.

Definition sample_plan (assets : list CandidateAsset) : NormalizedPlan := {|
  np_schema_version := 1; np_source := sample_source Folder; np_assets := assets;
  np_warnings := []; np_errors := [];
  np_summary := {| ps_assets := zlen assets; ps_sidecars := sidecar_count assets;
                   ps_bytes_read := 0 |} |}.

(** Two assets that share an operation, with another one between them. *)
Definition repeated_operation_plan : NormalizedPlan :=
  sample_plan [sample_asset "a.jpg" sample_digest None; sample_asset "b.jpg" sample_digest_2 None;
               sample_asset "c.jpg" sample_digest None].

Example sample_plan_valid :
  validate (H := sample_time) (sample_plan [sample_asset "a.jpg" sample_digest None]) = Ok tt.
Proof. vm_compute. reflexivity. Qed.

Lemma normalized_validate_error_sound_witness :
  error_reason (H := sample_time) repeated_operation_plan DuplicateOperationId.
Proof.
  apply (normalized_validate_error_sound (H := sample_time)). vm_compute. reflexivity.
Defined.
