(* ===== verification/Upload.v ===== *)
(** * Upload: the immutable upload plan
    ([crates/immich-core/src/upload.rs])

    The plan an apply run consumes: its data, the counters derived from its
    operations, [UploadPlan::validate], and what a valid plan guarantees about
    order, identity and live-photo dependencies. *)
From S2P Require Export Prelude Text Scan Metadata Planning.

(** ** Data *)

Definition UPLOAD_PLAN_SCHEMA_VERSION : Z := 1.
Definition UPLOAD_PLAN_SCHEMA_VERSION_V2 : Z := 2.

Record ServerVersion := { major : Z; minor : Z; patch : Z }.

Record ServerCompatibility := { version : ServerVersion; identity_sha256 : string }.

Record UploadSidecar := {
  us_relative_path : string;
  us_byte_len : Z;
  us_content_sha256 : string;
}.

Inductive UploadRole :=
  | Standalone
  | LivePhotoVideo (pair_id : string)
  | LivePhotoImage (pair_id video_operation_id : string).

Record UploadOperation := {
  uo_operation_id : string;
  uo_relative_path : string;
  uo_media_kind : MediaKind;
  uo_byte_len : Z;
  uo_content_sha256 : string;
  uo_created_at_unix_ms : Z;
  uo_modified_at_unix_ms : Z;
  uo_xmp_sidecar : option UploadSidecar;
  uo_normalized_metadata : option NormalizedMetadata;
  uo_role : UploadRole;
}.

Record UploadPlanSummary := {
  ups_operations : Z;
  ups_media_bytes : Z;
  ups_xmp_sidecars : Z;
  ups_live_photo_pairs : Z;
  ups_metadata_updates : Z;
  ups_album_creates : Z;
  ups_album_memberships : Z;
  ups_max_mutations : Z;
}.

Record UploadPlan := {
  up_schema_version : Z;
  up_normalized_plan_sha256 : string;
  up_source : SourceDescriptor;
  up_configuration_sha256 : string;
  up_server : ServerCompatibility;
  up_operations : list UploadOperation;
  up_summary : UploadPlanSummary;
}.

Module UploadPlanValidationError.
Inductive t :=
  | UnsupportedSchema (version : Z)
  | InvalidIdentity
  | InvalidOperation
  | OperationsNotStrictlySorted
  | DuplicateOperationId
  | InvalidSidecar
  | InvalidMetadata
  | InvalidSchemaSource
  | InvalidLivePhotoDependency
  | SummaryMismatch.
#[export] Instance t_eq_dec : EqDecision t.
Proof. solve_decision. Defined.
End UploadPlanValidationError.
Import UploadPlanValidationError.

#[export] Instance ServerVersion_eq_dec : EqDecision ServerVersion.
Proof. solve_decision. Defined.
#[export] Instance ServerCompatibility_eq_dec : EqDecision ServerCompatibility.
Proof. solve_decision. Defined.
#[export] Instance UploadSidecar_eq_dec : EqDecision UploadSidecar.
Proof. solve_decision. Defined.
#[export] Instance UploadRole_eq_dec : EqDecision UploadRole.
Proof. solve_decision. Defined.
#[export] Instance UploadOperation_eq_dec : EqDecision UploadOperation.
Proof. solve_decision. Defined.
#[export] Instance UploadPlanSummary_eq_dec : EqDecision UploadPlanSummary.
Proof. solve_decision. Defined.
#[export] Instance UploadPlan_eq_dec : EqDecision UploadPlan.
Proof. solve_decision. Defined.

(** ** Counters *)

(** [value.len() == 64 && value.bytes().all(is_ascii_hexdigit)] *)
Definition is_sha256 (value : string) : bool := hex_any_case 64 value.

Definition has_metadata (m : NormalizedMetadata) : bool :=
  is_some (description m) || is_some (taken_at_utc m) || is_some (location m).

Definition is_image (r : UploadRole) : bool :=
  match r with LivePhotoImage _ _ => true | _ => false end.
Definition is_video (r : UploadRole) : bool :=
  match r with LivePhotoVideo _ => true | _ => false end.

(** The album titles of an operation. *)
Definition operation_albums (o : UploadOperation) : list string :=
  match uo_normalized_metadata o with Some m => albums m | None => [] end.

(** [...flat_map(albums).collect::<BTreeSet<_>>()] *)
Definition album_set (operations : list UploadOperation) : gset string :=
  list_to_set (List.flat_map operation_albums operations).

Definition set_len (s : gset string) : Z := Z.of_nat (size s).

Definition expected_summary (schema_version : Z) (operations : list UploadOperation) :
    UploadPlanSummary :=
  let metadata_updates :=
    count (λ o, is_some_and (uo_normalized_metadata o) has_metadata) operations in
  let operations_count := zlen operations in
  let import := schema_version =? UPLOAD_PLAN_SCHEMA_VERSION_V2 in
  let metadata_updates := if import then metadata_updates else 0 in
  let album_count := if import then set_len (album_set operations) else 0 in
  {| ups_operations := operations_count;
     ups_media_bytes := sum_u64 (map uo_byte_len operations);
     ups_xmp_sidecars := count (λ o, is_some (uo_xmp_sidecar o)) operations;
     ups_live_photo_pairs := count (λ o, is_image (uo_role o)) operations;
     ups_metadata_updates := metadata_updates;
     ups_album_creates := album_count;
     ups_album_memberships := album_count;
     ups_max_mutations :=
       if import then sat_add (sat_add operations_count metadata_updates) (sat_mul album_count 2)
       else 0 |}.

(** [UploadPlanSummary::from_operations] *)
Definition from_operations := expected_summary.

(** ** [UploadPlan::validate] *)
Section validate.
  Context `{TimeLib}.

Definition sidecar_invalid (sidecar : UploadSidecar) : bool :=
  is_empty (us_relative_path sidecar) || (us_byte_len sidecar =? 0)
  || negb (is_sha256 (us_content_sha256 sidecar)).

(** Returns the extended [ids]. *)
Definition validate_operation (operation : UploadOperation) (previous_path : option string)
    (ids : gset string) : result UploadPlanValidationError.t (gset string) :=
  _ ← fail_if (is_empty (uo_relative_path operation)
               || negb (is_sha256 (uo_operation_id operation))
               || negb (is_sha256 (uo_content_sha256 operation))
               || (uo_byte_len operation =? 0)) InvalidOperation;
  _ ← fail_if (not_above previous_path (uo_relative_path operation)) OperationsNotStrictlySorted;
  _ ← fail_if (bool_decide (uo_operation_id operation ∈ ids)) DuplicateOperationId;
  _ ← fail_if (is_some_and (uo_xmp_sidecar operation) sidecar_invalid) InvalidSidecar;
  _ ← fail_if (is_some_and (uo_normalized_metadata operation) (λ m, negb (is_valid m)))
        InvalidMetadata;
  Ok ({[uo_operation_id operation]} ∪ ids).

(** The loop state of [validate]: [previous_path], [ids] and [roles]. *)
Definition scan_operation (s : option string * gset string * gmap string UploadRole)
    (operation : UploadOperation) :
    result UploadPlanValidationError.t (option string * gset string * gmap string UploadRole) :=
  let '(previous_path, ids, roles) := s in
  ids ← validate_operation operation previous_path ids;
  Ok (Some (uo_relative_path operation), ids,
      <[uo_operation_id operation := uo_role operation]> roles).

(** The [match roles.get(video_operation_id)] both plan schemas use. *)
Definition dependency_ok (roles : gmap string UploadRole) (r : UploadRole) : bool :=
  match r with
  | LivePhotoImage pair_id video_operation_id =>
    match roles !! video_operation_id with
    | Some (LivePhotoVideo video_pair) => String.eqb video_pair pair_id
    | _ => false
    end
  | _ => true
  end.

Definition validate_dependencies (operations : list UploadOperation)
    (roles : gmap string UploadRole) : result UploadPlanValidationError.t unit :=
  for_each (λ _ operation,
    fail_if (negb (dependency_ok roles (uo_role operation))) InvalidLivePhotoDependency)
    operations tt.

Definition source_schema_matches (schema_version : Z) (k : SourceKind) : bool :=
  if schema_version =? UPLOAD_PLAN_SCHEMA_VERSION then bool_decide (k = Folder)
  else if schema_version =? UPLOAD_PLAN_SCHEMA_VERSION_V2 then
    match k with GoogleTakeout | ApplePhotos | Picasa | Immich => true | Folder => false end
  else false.

Definition validate (p : UploadPlan) : result UploadPlanValidationError.t unit :=
  let v := up_schema_version p in
  _ ← fail_if (negb ((v =? UPLOAD_PLAN_SCHEMA_VERSION) || (v =? UPLOAD_PLAN_SCHEMA_VERSION_V2)))
        (UnsupportedSchema v);
  _ ← fail_if (negb (is_sha256 (up_normalized_plan_sha256 p))
               || negb (is_sha256 (up_configuration_sha256 p))
               || negb (is_sha256 (fingerprint_sha256 (up_source p)))
               || negb (is_sha256 (identity_sha256 (up_server p)))) InvalidIdentity;
  _ ← fail_if (negb (source_schema_matches v (kind (up_source p)))) InvalidSchemaSource;
  _ ← fail_if ((v =? UPLOAD_PLAN_SCHEMA_VERSION)
               && existsb (λ o, is_some (uo_normalized_metadata o)) (up_operations p))
        InvalidMetadata;
  '(_, _, roles) ← for_each scan_operation (up_operations p) (None, ∅, ∅);
  _ ← validate_dependencies (up_operations p) roles;
  _ ← fail_if (negb (bool_decide (expected_summary v (up_operations p) = up_summary p)))
        SummaryMismatch;
  Ok tt.

(** ** What a valid plan is *)

Inductive upload_schema_source : Z → SourceKind → Prop :=
  | upload_folder : upload_schema_source 1 Folder
  | upload_import k : k ≠ Folder → upload_schema_source 2 k.

Record sidecar_well_formed (s : UploadSidecar) : Prop := {
  swf_path : us_relative_path s ≠ "";
  swf_len : us_byte_len s ≠ 0;
  swf_digest : is_sha256 (us_content_sha256 s) = true;
}.

Record operation_well_formed (o : UploadOperation) : Prop := {
  owf_path : uo_relative_path o ≠ "";
  owf_id : is_sha256 (uo_operation_id o) = true;
  owf_content : is_sha256 (uo_content_sha256 o) = true;
  owf_len : uo_byte_len o ≠ 0;
  owf_sidecar : ∀ s, uo_xmp_sidecar o = Some s → sidecar_well_formed s;
  owf_metadata : ∀ m, uo_normalized_metadata o = Some m → is_valid m = true;
}.

(** Every live-photo image names a video operation of its own pair. *)
Definition dependencies_met (operations : list UploadOperation) : Prop :=
  ∀ o pair vid, o ∈ operations → uo_role o = LivePhotoImage pair vid →
  ∃ v, v ∈ operations ∧ uo_operation_id v = vid ∧ uo_role v = LivePhotoVideo pair.

Record upload_well_formed (p : UploadPlan) : Prop := {
  uwf_schema : upload_schema_source (up_schema_version p) (kind (up_source p));
  uwf_normalized : is_sha256 (up_normalized_plan_sha256 p) = true;
  uwf_configuration : is_sha256 (up_configuration_sha256 p) = true;
  uwf_fingerprint : is_sha256 (fingerprint_sha256 (up_source p)) = true;
  uwf_identity : is_sha256 (identity_sha256 (up_server p)) = true;
  uwf_schema_1 : up_schema_version p = 1 →
    Forall (λ o, uo_normalized_metadata o = None) (up_operations p);
  uwf_operations : Forall operation_well_formed (up_operations p);
  uwf_sorted : StronglySorted str_lt (map uo_relative_path (up_operations p));
  uwf_ids : NoDup (map uo_operation_id (up_operations p));
  uwf_dependencies : dependencies_met (up_operations p);
  uwf_summary : up_summary p = expected_summary (up_schema_version p) (up_operations p);
}.

(** *** The operation loop is an ordered scan *)

Lemma sidecar_invalid_false s : sidecar_invalid s = false ↔ sidecar_well_formed s.
Proof.
  unfold sidecar_invalid. rewrite !orb_false_iff, is_empty_false, Z.eqb_neq, negb_false_iff.
  split; [intros [[??]?]; by split | by intros []].
Qed.

Lemma operation_checks_iff o :
  (is_empty (uo_relative_path o) || negb (is_sha256 (uo_operation_id o))
     || negb (is_sha256 (uo_content_sha256 o)) || (uo_byte_len o =? 0) = false
   ∧ is_some_and (uo_xmp_sidecar o) sidecar_invalid = false
   ∧ is_some_and (uo_normalized_metadata o) (λ m, negb (is_valid m)) = false)
  ↔ operation_well_formed o.
Proof.
  rewrite !orb_false_iff, !negb_false_iff, is_empty_false, Z.eqb_neq.
  assert (is_some_and (uo_xmp_sidecar o) sidecar_invalid = false ↔
    ∀ s, uo_xmp_sidecar o = Some s → sidecar_well_formed s) as ->.
  { destruct (uo_xmp_sidecar o); simpl; [rewrite sidecar_invalid_false|]; naive_solver. }
  assert (is_some_and (uo_normalized_metadata o) (λ m, negb (is_valid m)) = false ↔
    ∀ m, uo_normalized_metadata o = Some m → is_valid m = true) as ->.
  { destruct (uo_normalized_metadata o); simpl; [rewrite negb_false_iff|]; naive_solver. }
  split; [intros ([[[??]?]?]&?&?); by split | by intros []].
Qed.

#[export] Instance scan_operation_scan :
  OrderedScan scan_operation uo_relative_path uo_operation_id operation_well_formed.
Proof.
  refine {| scan_prev := λ s, s.1.1; scan_ids := λ s, s.1.2 |}.
  - intros [[prev ids] roles] o. unfold scan_operation, validate_operation.
    rewrite <-operation_checks_iff. simpl.
    rewrite ex_bind. setoid_rewrite ex_Ok. split.
    + intros (ids' & Hv & _). result_inv. by rewrite <-not_above_false, <-bool_decide_eq_false.
    + intros ((?&?&?)&?&?). exists ({[uo_operation_id o]} ∪ ids). split; [|done].
      rewrite !bind_fail_if_Ok. rewrite <-not_above_false, <-bool_decide_eq_false in *.
      by split_and!.
  - intros [[prev ids] roles] o s'. unfold scan_operation, validate_operation.
    intros Hv. result_inv. done.
Defined.

(** The map of roles the loop collects. *)
Lemma scan_operation_roles l s prev ids roles :
  for_each scan_operation l s = Ok (prev, ids, roles) →
  roles = foldl (λ m o, <[uo_operation_id o := uo_role o]> m) s.2 l.
Proof.
  revert s. induction l as [|o l IH]; intros [[prev' ids'] roles']; simpl.
  { by intros [= _ _ <-]. }
  intros (s1 & Ho & Hl)%bind_Ok. rewrite (IH _ Hl).
  unfold scan_operation in Ho. by result_inv.
Qed.

(** Both plan schemas collect the roles of their entries by identifier and
    check every entry against the map. *)
Lemma dependency_ok_iff {A} (id : A → string) (rl : A → UploadRole) (l : list A) r :
  NoDup (map id l) →
  dependency_ok (collect_map id rl l) r = true ↔
    ∀ pair vid, r = LivePhotoImage pair vid →
    ∃ v, v ∈ l ∧ id v = vid ∧ rl v = LivePhotoVideo pair.
Proof.
  intros Hnd. destruct r as [|pair|pair vid]; simpl; [naive_solver..|].
  assert (∀ r', collect_map id rl l !! vid = Some r' ↔ ∃ v, v ∈ l ∧ id v = vid ∧ rl v = r') as Hlook.
  { intros r'. by apply collect_map_Some. }
  split.
  - intros Hd p v' [= <- <-]. apply Hlook. revert Hd.
    destruct (collect_map id rl l !! vid) as [[]|]; try done. by intros ->%String.eqb_eq.
  - intros Hall. destruct (Hall pair vid) as (v&Hv); [done|].
    rewrite (proj2 (Hlook (LivePhotoVideo pair))); [|by exists v]. apply String.eqb_refl.
Qed.

Lemma dependencies_collected {A} (id : A → string) (rl : A → UploadRole) (l : list A) :
  NoDup (map id l) →
  Forall (λ x, dependency_ok (collect_map id rl l) (rl x) = true) l ↔
    ∀ x pair vid, x ∈ l → rl x = LivePhotoImage pair vid →
    ∃ v, v ∈ l ∧ id v = vid ∧ rl v = LivePhotoVideo pair.
Proof.
  intros Hnd. rewrite Forall_forall. setoid_rewrite dependency_ok_iff; [|done]. naive_solver.
Qed.

Definition roles_of (operations : list UploadOperation) : gmap string UploadRole :=
  collect_map uo_operation_id uo_role operations.

Lemma validate_dependencies_Ok operations roles :
  validate_dependencies operations roles = Ok tt ↔
    Forall (λ o, dependency_ok roles (uo_role o) = true) operations.
Proof. apply (for_each_check_Ok _ (λ o, dependency_ok roles (uo_role o))). Qed.

Lemma validate_dependencies_Err operations roles e :
  validate_dependencies operations roles = Err e → e = InvalidLivePhotoDependency.
Proof. apply (for_each_check_Err _ _ (λ o, dependency_ok roles (uo_role o))). Qed.

Lemma dependencies_met_iff operations :
  NoDup (map uo_operation_id operations) →
  validate_dependencies operations (roles_of operations) = Ok tt ↔ dependencies_met operations.
Proof.
  intros Hnd. rewrite validate_dependencies_Ok. by apply dependencies_collected.
Qed.

Lemma upload_schema_source_iff v k :
  (negb ((v =? UPLOAD_PLAN_SCHEMA_VERSION) || (v =? UPLOAD_PLAN_SCHEMA_VERSION_V2)) = false
   ∧ negb (source_schema_matches v k) = false) ↔ upload_schema_source v k.
Proof.
  unfold source_schema_matches, UPLOAD_PLAN_SCHEMA_VERSION, UPLOAD_PLAN_SCHEMA_VERSION_V2.
  destruct (Z.eqb_spec v 1) as [->|]; [|destruct (Z.eqb_spec v 2) as [->|]];
    destruct k; simpl; (split; [intros [??]; try done; by constructor | by inversion 1]).
Qed.

Lemma schema_1_metadata v (operations : list UploadOperation) :
  (v =? UPLOAD_PLAN_SCHEMA_VERSION)
    && existsb (λ o, is_some (uo_normalized_metadata o)) operations = false ↔
  (v = 1 → Forall (λ o, uo_normalized_metadata o = None) operations).
Proof.
  unfold UPLOAD_PLAN_SCHEMA_VERSION. rewrite andb_false_iff, Z.eqb_neq, existsb_false.
  assert (∀ o, is_some (uo_normalized_metadata o) = false ↔ uo_normalized_metadata o = None)
    as Hn by (intros o; destruct (uo_normalized_metadata o); naive_solver).
  setoid_rewrite Hn. destruct (decide (v = 1)); naive_solver.
Qed.

(** The loop accepts exactly the well-formed, sorted, duplicate-free lists, and
    leaves the map of their roles. *)
Lemma scan_operations_Ok operations :
  (∃ s, for_each scan_operation operations (None, ∅, ∅) = Ok s) ↔
    Forall operation_well_formed operations
    ∧ StronglySorted str_lt (map uo_relative_path operations)
    ∧ NoDup (map uo_operation_id operations).
Proof.
  rewrite (scan_exists _ uo_relative_path uo_operation_id operation_well_formed). simpl.
  split; [naive_solver|]. intros (?&?&?). split_and!; try done.
  apply Forall_true. set_solver.
Qed.

Lemma upload_validate_Ok p : validate p = Ok tt ↔ upload_well_formed p.
Proof.
  unfold validate. rewrite !bind_fail_if_Ok, bind_Ok.
  rewrite schema_1_metadata, !orb_false_iff, !negb_false_iff. split.
  - intros (Hv & (((?&?)&?)&?) & Hsrc & Hm1 & ([[prev ids] roles] & Hl & Hrest)).
    destruct (proj1 (scan_operations_Ok (up_operations p))) as (?&?&Hnd); [by eexists|].
    apply scan_operation_roles in Hl as ->. result_inv.
    rewrite negb_false_iff, bool_decide_eq_true in *.
    split; try done.
    + apply upload_schema_source_iff. by rewrite !negb_false_iff.
    + apply dependencies_met_iff; [done|]. by destruct x.
  - intros []. destruct (proj2 (upload_schema_source_iff _ _) uwf_schema0) as [??].
    rewrite !negb_false_iff in *. split_and!; try done.
    destruct (proj2 (scan_operations_Ok (up_operations p))) as [[[prev ids] roles] Hl]; [done|].
    exists (prev, ids, roles). split; [done|]. apply scan_operation_roles in Hl as ->.
    apply bind_Ok. exists tt. split; [by apply dependencies_met_iff|].
    rewrite bind_fail_if_Ok, negb_false_iff, bool_decide_eq_true. done.
Qed.

(** A plan passes [UploadPlan::validate] exactly when it is a well-formed
    upload plan: schema and source agree, digests are 64 hex digits, operations
    are well formed, strictly sorted by path with distinct identifiers, every
    live-photo image names a video of its own pair, and the summary is the one
    its operations determine. *)
Theorem upload_validate_iff p : validate p = Ok tt ↔ upload_well_formed p.
Proof.
  apply upload_validate_Ok.
Qed.

(** *** Errors are truthful *)

Definition upload_error_reason (p : UploadPlan) (e : UploadPlanValidationError.t) : Prop :=
  let operations := up_operations p in
  let v := up_schema_version p in
  match e with
  | UnsupportedSchema v' => v' = v ∧ v ≠ 1 ∧ v ≠ 2
  | InvalidIdentity =>
      Exists (λ digest, is_sha256 digest = false)
        [up_normalized_plan_sha256 p; up_configuration_sha256 p;
         fingerprint_sha256 (up_source p); identity_sha256 (up_server p)]
  | InvalidSchemaSource => ¬ upload_schema_source v (kind (up_source p))
  | InvalidOperation => ∃ o, o ∈ operations
      ∧ (uo_relative_path o = "" ∨ is_sha256 (uo_operation_id o) = false
         ∨ is_sha256 (uo_content_sha256 o) = false ∨ uo_byte_len o = 0)
  | OperationsNotStrictlySorted =>
      adjacent_pair (λ a b, ¬ str_lt (uo_relative_path a) (uo_relative_path b)) operations
  | DuplicateOperationId =>
      ordered_pair (λ a b, uo_operation_id a = uo_operation_id b) operations
  | InvalidSidecar => ∃ o s, o ∈ operations ∧ uo_xmp_sidecar o = Some s ∧ ¬ sidecar_well_formed s
  | InvalidMetadata => ∃ o m, o ∈ operations ∧ uo_normalized_metadata o = Some m
      ∧ (v = 1 ∨ is_valid m = false)
  | InvalidLivePhotoDependency => ¬ dependencies_met operations
  | SummaryMismatch => up_summary p ≠ expected_summary v operations
  end.

Lemma operation_error_reason p e :
  for_each scan_operation (up_operations p) (None, ∅, ∅) = Err e → upload_error_reason p e.
Proof.
  intros (l1 & o & l2 & [[prev ids] roles] & Hl & Hpre & Ho)%for_each_Err.
  assert (o ∈ up_operations p) as Hin by (rewrite Hl; set_solver).
  unfold scan_operation, validate_operation in Ho. result_inv; simpl;
    rewrite ?orb_true_iff, ?negb_true_iff, ?Z.eqb_eq, ?is_empty_true, ?bool_decide_eq_true in *.
  - exists o. naive_solver.
  - rewrite Hl. by eapply (scan_not_above _ _ _ _ _ _ _ _ _ Hpre).
  - rewrite Hl. by eapply (scan_seen _ _ _ _ _ _ _ _ _ Hpre).
  - destruct (uo_xmp_sidecar o) as [s|] eqn:Hs; [|done]. exists o, s. split_and!; [done..|].
    rewrite <-sidecar_invalid_false. simpl in *. congruence.
  - destruct (uo_normalized_metadata o) as [m|] eqn:Hm; [|done]. simpl in *.
    rewrite negb_true_iff in *. exists o, m. naive_solver.
Qed.

(** Whatever error [UploadPlan::validate] reports is true of the plan. *)
Theorem upload_validate_error_sound p e : validate p = Err e → upload_error_reason p e.
Proof.
  unfold validate. intros Hv. result_inv; rewrite ?negb_true_iff, ?negb_false_iff in *.
  - rewrite orb_false_iff in *. simpl. unfold UPLOAD_PLAN_SCHEMA_VERSION,
      UPLOAD_PLAN_SCHEMA_VERSION_V2 in *. lia.
  - simpl. rewrite !orb_true_iff, !negb_true_iff in *.
    rewrite !Exists_cons. tauto.
  - simpl. intros [_ Hm]%upload_schema_source_iff. rewrite negb_false_iff in *. congruence.
  - rewrite andb_true_iff, Z.eqb_eq, existsb_true, Exists_exists in *. destruct_and?.
    match goal with H : ∃ _, _ |- _ => destruct H as (o & Ho & Hm) end.
    destruct (uo_normalized_metadata o) as [m|] eqn:Hom; [|done]. simpl.
    exists o, m. naive_solver.
  - by apply operation_error_reason.
  - destruct x as [[prev ids] roles]. simpl.
    destruct (proj1 (scan_operations_Ok (up_operations p))) as (_&_&Hnd); [by eexists|].
    match goal with H : for_each _ _ _ = Ok _ |- _ => apply scan_operation_roles in H as -> end.
    result_inv; simpl.
    + match goal with H : validate_dependencies _ _ = Err _ |- _ => rename H into Hd end.
      pose proof (validate_dependencies_Err _ _ _ Hd) as ->. simpl.
      intros Hmet%dependencies_met_iff; [|done].
      unfold roles_of, collect_map in Hmet. simpl in *. congruence.
    + rewrite negb_true_iff, bool_decide_eq_false in *. congruence.
Qed.

(** *** Consequences *)

(** The authorised number of mutations, as long as nothing saturates: one
    upload for each operation, one metadata update for each operation that has
    metadata, and a creation and a membership request for each album. *)
Lemma max_mutations_exact (p : UploadPlan) :
  let s := up_summary p in
  upload_well_formed p → up_schema_version p = 2 →
  zlen (up_operations p) < 2 ^ 60 → set_len (album_set (up_operations p)) < 2 ^ 60 →
  ups_max_mutations s = ups_operations s + ups_metadata_updates s
    + ups_album_creates s + ups_album_memberships s.
Proof.
  intros s Hwf Hv Ho Ha. subst s. rewrite (uwf_summary _ Hwf), Hv.
  unfold expected_summary. simpl.
  pose proof (count_le_zlen (λ o, is_some_and (uo_normalized_metadata o) has_metadata)
    (up_operations p)).
  unfold sat_add, sat_mul, u64_max. lia.
Qed.
End validate.

Definition sample_server : ServerCompatibility := {|
  version := {| major := 3; minor := 1; patch := 0 |}; identity_sha256 := sample_digest |}.

Definition sample_operation (path operation : string) (m : option NormalizedMetadata)
    (r : UploadRole) : UploadOperation := {|
  uo_operation_id := operation; uo_relative_path := path; uo_media_kind := Media_Image;
  uo_byte_len := 4; uo_content_sha256 := sample_digest; uo_created_at_unix_ms := 1589702950000;
  uo_modified_at_unix_ms := 1589702950000; uo_xmp_sidecar := None; uo_normalized_metadata := m;
  uo_role := r |}.

Definition sample_upload_plan (v : Z) (k : SourceKind) (operations : list UploadOperation) :
    UploadPlan := {|
  up_schema_version := v; up_normalized_plan_sha256 := sample_digest;
  up_source := sample_source k; up_configuration_sha256 := sample_digest;
  up_server := sample_server; up_operations := operations;
  up_summary := expected_summary v operations |}.

(** A still image and its motion video. *)
Definition sample_pair : list UploadOperation :=
  [sample_operation "IMG_1.HEIC" sample_digest None (LivePhotoImage "p" sample_digest_2);
   sample_operation "IMG_1.MOV" sample_digest_2 None (LivePhotoVideo "p")].

Example sample_pair_valid :
  validate (H := sample_time) (sample_upload_plan 1 Folder sample_pair) = Ok tt.
Proof. vm_compute. reflexivity. Qed.

Definition orphan_image_plan : UploadPlan :=
  sample_upload_plan 1 Folder
    [sample_operation "a.jpg" sample_digest None (LivePhotoImage "p" sample_digest_2)].

Lemma upload_validate_error_sound_witness :
  upload_error_reason (H := sample_time) orphan_image_plan InvalidLivePhotoDependency.
Proof.
  apply (upload_validate_error_sound (H := sample_time)). vm_compute. reflexivity.
Defined.
