(* ===== verification/Archive.v ===== *)
(** * Archive: the archive manifest and its apply report
    ([crates/immich-core/src/archive.rs])

    The manifest of originals an archive run downloads, its validation, and
    what a valid manifest guarantees about the files that will be written. *)
From Stdlib Require Import Ascii.
From S2P Require Export Prelude Text Scan Upload.

(** ** Data *)

Definition ARCHIVE_MANIFEST_SCHEMA_VERSION : Z := 1.
Definition ARCHIVE_APPLY_REPORT_SCHEMA_VERSION : Z := 1.

Record ArchiveAsset := {
  aa_asset_id : string;
  aa_original_file_name : string;
  aa_target_path : string;
  aa_media_kind : MediaKind;
  aa_byte_len : Z;
  aa_checksum_sha1 : string;
}.

Record ArchiveManifestSummary := { ams_assets : Z; ams_media_bytes : Z }.

Record ArchiveManifest := {
  am_schema_version : Z;
  am_server : ServerCompatibility;
  am_configuration_sha256 : string;
  am_assets : list ArchiveAsset;
  am_summary : ArchiveManifestSummary;
}.

Record ArchiveApplyReport := {
  aar_schema_version : Z;
  aar_manifest_sha256 : string;
  aar_downloaded : Z;
  aar_already_complete : Z;
  aar_bytes_written : Z;
  aar_retries : Z;
}.

Module ArchiveManifestValidationError.
Inductive t :=
  | UnsupportedSchema (version : Z)
  | InvalidIdentity
  | InvalidAsset
  | DuplicateAssetId
  | AssetsNotStrictlySorted
  | SummaryMismatch
  | InvalidReport.
#[export] Instance t_eq_dec : EqDecision t.
Proof. solve_decision. Defined.
End ArchiveManifestValidationError.
Import ArchiveManifestValidationError.

#[export] Instance ArchiveManifestSummary_eq_dec : EqDecision ArchiveManifestSummary.
Proof. solve_decision. Defined.

(** ** Names *)

(** [matches!(stem, "CON" | "PRN" | "AUX" | "NUL") || (stem.len() == 4 && ...)].
    The slice [&stem[..3]] panics when a character straddles it: [None]. *)
Definition reserved_device (stem : string) : option bool :=
  if bool_decide (stem ∈ ["CON"; "PRN"; "AUX"; "NUL"]) then Some true
  else if negb (len stem =? 4) then Some false
  else match slice_to 3 stem with
  | None => None
  | Some prefix =>
    Some (bool_decide (prefix ∈ ["COM"; "LPT"]) && is_ascii_digit (byte_at 3 stem)
          && negb (Ascii.eqb (byte_at 3 stem) "0"))
  end.

Definition device_stem (value : string) : string := to_ascii_uppercase (before_first "." value).

(** The first condition of [safe_component]. *)
Definition unsafe_text (value : string) : bool :=
  is_empty value || (255 <? len value) || bool_decide (value ∈ ["."; ".."])
  || ends_with "." value || ends_with " " value
  || contains_byte "/" value || contains_byte "\" value || has_control value.

Definition safe_component (value : string) : option bool :=
  if unsafe_text value then Some false
  else negb <$> reserved_device (device_stem value).

Definition canonical_uuid_byte (index : nat) (byte : ascii) : bool :=
  if bool_decide (index ∈ [8; 13; 18; 23]%nat) then Ascii.eqb byte "-"
  else if bool_decide (index = 14)%nat then Ascii.eqb byte "4"
  else if bool_decide (index = 19)%nat then bool_decide (byte ∈ ["8"; "9"; "a"; "b"]%char)
  else is_lower_hex_byte byte.

Definition canonical_uuid_v4 (value : string) : bool :=
  (len value =? 36) && bytes_all canonical_uuid_byte value.

Definition is_sha1 (value : string) : bool :=
  (len value =? 40) && forallb is_lower_hex_byte (bytes value).

Definition is_sha256 (value : string) : bool :=
  (len value =? 64) && forallb is_lower_hex_byte (bytes value).

(** [format!("assets/{}/{}", asset_id, original_file_name)] *)
Definition target_path_of (asset_id original_file_name : string) : string :=
  "assets/" +:+ asset_id +:+ "/" +:+ original_file_name.

(** ** [ArchiveManifest::validate] *)

Definition archive_error := fault ArchiveManifestValidationError.t.

Definition validate_asset (asset : ArchiveAsset) (previous_path : option string)
    (ids : gset string) : result archive_error (gset string) :=
  _ ← fail_if (negb (canonical_uuid_v4 (aa_asset_id asset))) (Fail InvalidAsset);
  safe ← ok_or (safe_component (aa_original_file_name asset)) Panic;
  _ ← fail_if (negb safe || negb (is_sha1 (aa_checksum_sha1 asset))
               || negb (String.eqb (aa_target_path asset)
                          (target_path_of (aa_asset_id asset) (aa_original_file_name asset))))
        (Fail InvalidAsset);
  _ ← fail_if (bool_decide (aa_asset_id asset ∈ ids)) (Fail DuplicateAssetId);
  _ ← fail_if (not_above previous_path (aa_target_path asset)) (Fail AssetsNotStrictlySorted);
  Ok ({[aa_asset_id asset]} ∪ ids).

(** The loop state of [validate]: [previous_path], [ids] and [bytes]. *)
Definition scan_asset (s : option string * gset string * Z) (asset : ArchiveAsset) :
    result archive_error (option string * gset string * Z) :=
  let '(previous_path, ids, bytes) := s in
  ids ← validate_asset asset previous_path ids;
  bytes ← ok_or (checked_add bytes (aa_byte_len asset)) (Fail SummaryMismatch);
  Ok (Some (aa_target_path asset), ids, bytes).

Definition validate (m : ArchiveManifest) : result archive_error unit :=
  _ ← fail_if (negb (am_schema_version m =? ARCHIVE_MANIFEST_SCHEMA_VERSION))
        (Fail (UnsupportedSchema (am_schema_version m)));
  _ ← fail_if (negb (is_sha256 (am_configuration_sha256 m))
               || negb (is_sha256 (identity_sha256 (am_server m)))
               || negb (major (version (am_server m)) =? 3)
               || negb (minor (version (am_server m)) =? 1)) (Fail InvalidIdentity);
  '(_, _, bytes) ← for_each scan_asset (am_assets m) (None, ∅, 0);
  _ ← fail_if (negb (bool_decide (am_summary m =
        {| ams_assets := zlen (am_assets m); ams_media_bytes := bytes |})))
        (Fail SummaryMismatch);
  Ok tt.

(** [ArchiveApplyReport::validate] *)
Definition report_validate (r : ArchiveApplyReport) (expected_assets : Z) :
    result ArchiveManifestValidationError.t unit :=
  fail_if (negb (aar_schema_version r =? ARCHIVE_APPLY_REPORT_SCHEMA_VERSION)
           || negb (is_sha256 (aar_manifest_sha256 r))
           || negb (sat_add (aar_downloaded r) (aar_already_complete r) =? expected_assets))
    InvalidReport.

(** ** What a valid manifest is *)

Definition device_names : list string :=
  ["CON"; "PRN"; "AUX"; "NUL";
   "COM1"; "COM2"; "COM3"; "COM4"; "COM5"; "COM6"; "COM7"; "COM8"; "COM9";
   "LPT1"; "LPT2"; "LPT3"; "LPT4"; "LPT5"; "LPT6"; "LPT7"; "LPT8"; "LPT9"].

(** A file name that is one component on every platform. *)
Record portable_component (v : string) : Prop := {
  pc_len : 1 <= len v <= 255;
  pc_dots : v ≠ "." ∧ v ≠ "..";
  pc_trailing : ends_with "." v = false ∧ ends_with " " v = false;
  pc_separators : "/"%char ∉ bytes v ∧ "\"%char ∉ bytes v;
  pc_control : has_control v = false;
  pc_device : device_stem v ∉ device_names;
}.

(** The names on which [&stem[..3]] panics: the device stem has four bytes and
    the last one continues a character. *)
Definition straddling_stem (v : string) : Prop :=
  len (device_stem v) = 4 ∧ is_continuation (byte_at 3 (device_stem v)) = true.

Record archive_asset_well_formed (a : ArchiveAsset) : Prop := {
  aawf_id : canonical_uuid_v4 (aa_asset_id a) = true;
  aawf_name : portable_component (aa_original_file_name a);
  aawf_name_slices : ¬ straddling_stem (aa_original_file_name a);
  aawf_sha1 : is_sha1 (aa_checksum_sha1 a) = true;
  aawf_target : aa_target_path a = target_path_of (aa_asset_id a) (aa_original_file_name a);
}.

Record archive_well_formed (m : ArchiveManifest) : Prop := {
  amwf_schema : am_schema_version m = 1;
  amwf_configuration : is_sha256 (am_configuration_sha256 m) = true;
  amwf_identity : is_sha256 (identity_sha256 (am_server m)) = true;
  amwf_version : major (version (am_server m)) = 3 ∧ minor (version (am_server m)) = 1;
  amwf_assets : Forall archive_asset_well_formed (am_assets m);
  amwf_sorted : StronglySorted str_lt (map aa_target_path (am_assets m));
  amwf_ids : NoDup (map aa_asset_id (am_assets m));
  amwf_count : ams_assets (am_summary m) = zlen (am_assets m);
  amwf_bytes : ams_media_bytes (am_summary m) = foldr Z.add 0 (map aa_byte_len (am_assets m));
  amwf_fits : ams_media_bytes (am_summary m) <= u64_max;
}.

(** *** Names *)

Lemma unsafe_text_false v :
  unsafe_text v = false ↔
    1 <= len v <= 255 ∧ (v ≠ "." ∧ v ≠ "..")
    ∧ (ends_with "." v = false ∧ ends_with " " v = false)
    ∧ ("/"%char ∉ bytes v ∧ "\"%char ∉ bytes v) ∧ has_control v = false.
Proof.
  unfold unsafe_text. rewrite !orb_false_iff, is_empty_false, Z.ltb_ge, bool_decide_eq_false.
  rewrite !contains_byte_false.
  assert (v ≠ "" ↔ 1 <= len v) as ->.
  { unfold len. destruct v; simpl; [split; [done|lia]|split; [lia|done]]. }
  assert (v ∉ ["."; ".."] ↔ v ≠ "." ∧ v ≠ "..") as -> by set_solver.
  tauto.
Qed.

(** The digit test of the code, as the nine names it stands for. *)
Lemma digit_1_9 (d : ascii) :
  is_ascii_digit d && negb (Ascii.eqb d "0") =
    existsb (Ascii.eqb d) ["1"; "2"; "3"; "4"; "5"; "6"; "7"; "8"; "9"]%char.
Proof. destruct d as [[] [] [] [] [] [] [] []]; reflexivity. Qed.

Lemma four_bytes (s : string) :
  len s = 4 → ∃ a b c d, s = String a (String b (String c (String d ""))).
Proof.
  unfold len. destruct s as [|a [|b [|c [|d [|e s]]]]]; simpl; try lia. by eauto.
Qed.

Lemma prefix_device (p : string) d :
  String.length p = 3%nat →
  (bool_decide (p ∈ ["COM"; "LPT"]) && is_ascii_digit d && negb (Ascii.eqb d "0") = true
   ↔ p +:+ String d "" ∈ device_names).
Proof.
  intros Hp. rewrite <-andb_assoc, digit_1_9, andb_true_iff, bool_decide_eq_true.
  destruct p as [|p0 [|p1 [|p2 [|]]]]; try done.
  change (String p0 (String p1 (String p2 "")) +:+ String d "")
    with (String p0 (String p1 (String p2 (String d "")))).
  rewrite existsb_true, Exists_exists. unfold device_names. rewrite !elem_of_cons.
  setoid_rewrite Ascii.eqb_eq. split.
  - intros [[[= -> -> ->]|[[= -> -> ->]|?]] (c & Hc & ->)]; [..|set_solver];
      rewrite !elem_of_cons in Hc; destruct_or! Hc; subst; try tauto; set_solver.
  - intros Hd. destruct_or! Hd; try discriminate Hd; try (by apply elem_of_nil in Hd);
      injection Hd as -> -> -> ->;
      (split; [tauto|eexists; split; [|done]; set_solver]).
Qed.

Definition straddles (stem : string) : bool := (len stem =? 4) && is_continuation (byte_at 3 stem).

Lemma short_device (s : string) :
  len s ≠ 4 → (s ∈ device_names ↔ s ∈ ["CON"; "PRN"; "AUX"; "NUL"]).
Proof.
  intros Hs. unfold device_names. split; [|set_solver].
  rewrite !elem_of_cons. intros Hd. destruct_or! Hd; subst; try done; tauto.
Qed.

Lemma reserved_device_spec stem :
  reserved_device stem =
    if straddles stem then None else Some (bool_decide (stem ∈ device_names)).
Proof.
  unfold reserved_device, straddles. destruct (Z.eqb_spec (len stem) 4) as [Hl|Hl]; simpl.
  - destruct (four_bytes _ Hl) as (a&b&c&d&->).
    rewrite (bool_decide_eq_false_2 (_ ∈ ["CON"; _; _; _]))
      by (rewrite !elem_of_cons; intros Hd; destruct_or! Hd; try done; by apply elem_of_nil in Hd).
    cbn [byte_at String.get default]. unfold slice_to. simpl.
    destruct (is_continuation d) eqn:Hc; [done|]. simpl. f_equal.
    apply Bool.eq_iff_eq_true. rewrite bool_decide_eq_true.
    by apply (prefix_device (String a (String b (String c ""))) d).
  - case_bool_decide as Hs; case_bool_decide as Hd; try done;
      rewrite short_device in Hd by done; done.
Qed.

Lemma safe_component_spec v :
  safe_component v =
    if unsafe_text v then Some false
    else if straddles (device_stem v) then None
    else Some (bool_decide (device_stem v ∉ device_names)).
Proof.
  unfold safe_component. rewrite reserved_device_spec.
  destruct (unsafe_text v), (straddles (device_stem v)); simpl; try done.
  by rewrite bool_decide_not.
Qed.

Lemma straddles_iff v : straddles (device_stem v) = true ↔ straddling_stem v.
Proof. unfold straddles, straddling_stem. by rewrite andb_true_iff, Z.eqb_eq. Qed.

Lemma safe_component_true v :
  safe_component v = Some true ↔ portable_component v ∧ ¬ straddling_stem v.
Proof.
  rewrite safe_component_spec, <-straddles_iff.
  destruct (unsafe_text v) eqn:Hu.
  - split; [done|]. intros [[] _]. apply not_false_iff_true in Hu. destruct Hu.
    by apply unsafe_text_false.
  - apply unsafe_text_false in Hu as (?&?&?&?&?).
    destruct (straddles (device_stem v)); [naive_solver|]. split.
    + intros [= Hd%bool_decide_eq_true]. split; [by split|done].
    + intros [[] _]. f_equal. by apply bool_decide_eq_true.
Qed.

Lemma portable_component_dec v :
  negb (unsafe_text v) && bool_decide (device_stem v ∉ device_names) = true →
  portable_component v.
Proof.
  rewrite andb_true_iff, negb_true_iff, bool_decide_eq_true.
  intros [(?&?&?&?&?)%unsafe_text_false ?]. by split.
Qed.

(** The names on which the validation panics. *)
Lemma safe_component_None v :
  safe_component v = None ↔ unsafe_text v = false ∧ straddling_stem v.
Proof.
  rewrite safe_component_spec, <-straddles_iff.
  destruct (unsafe_text v), (straddles (device_stem v)); naive_solver.
Qed.

(** *** The asset loop *)

(** What the loop does apart from summing. *)
Definition scan_identity (s : option string * gset string) (asset : ArchiveAsset) :
    result archive_error (option string * gset string) :=
  ids ← validate_asset asset s.1 s.2; Ok (Some (aa_target_path asset), ids).

Lemma scan_asset_both s a :
  scan_asset s a = both scan_identity (checked_sum (Fail SummaryMismatch) aa_byte_len) s a.
Proof.
  destruct s as [[prev ids] bytes]. unfold scan_asset, both, scan_identity, checked_sum. simpl.
  destruct (validate_asset a prev ids); simpl; [|done]. by destruct (checked_add _ _).
Qed.

#[export] Instance scan_identity_scan :
  OrderedScan scan_identity aa_target_path aa_asset_id archive_asset_well_formed.
Proof.
  refine {| scan_prev := fst; scan_ids := snd |}.
  - intros [prev ids] a. unfold scan_identity, validate_asset. simpl.
    rewrite ex_bind. setoid_rewrite ex_Ok. split.
    + intros (ids' & Hv & _). result_inv.
      rewrite !orb_false_iff, !negb_false_iff, String.eqb_eq in *. destruct_and?. subst.
      match goal with H : safe_component _ = _ |- _ => apply safe_component_true in H as [] end.
      rewrite not_above_false, bool_decide_eq_false in *. split; [by split|done].
    + intros ([]&?&?). exists ({[aa_asset_id a]} ∪ ids). split; [|done].
      rewrite bind_fail_if_Ok, negb_false_iff. split; [done|].
      rewrite (proj2 (safe_component_true _)) by done. simpl.
      rewrite !bind_fail_if_Ok, !orb_false_iff, !negb_false_iff, String.eqb_eq.
      rewrite not_above_false, bool_decide_eq_false. done.
  - intros [prev ids] a s'. unfold scan_identity, validate_asset. intros Hv. result_inv. done.
Defined.

(** The width of the data: a [u64] length. *)
Definition lengths_in_range (m : ArchiveManifest) : Prop :=
  Forall (λ a, is_u64 (aa_byte_len a)) (am_assets m).

Lemma archive_scan_assets_Ok m bytes :
  lengths_in_range m →
  (∃ prev ids, for_each scan_asset (am_assets m) (None, ∅, 0) = Ok (prev, ids, bytes)) ↔
    Forall archive_asset_well_formed (am_assets m)
    ∧ StronglySorted str_lt (map aa_target_path (am_assets m))
    ∧ NoDup (map aa_asset_id (am_assets m))
    ∧ bytes = foldr Z.add 0 (map aa_byte_len (am_assets m)) ∧ bytes <= u64_max.
Proof.
  intros Hr. setoid_rewrite (for_each_ext _ _ _ _ scan_asset_both).
  setoid_rewrite for_each_both. setoid_rewrite (checked_sum_Ok _ _ (am_assets m)).
  2, 3: first [unfold u64_max; lia | eapply Forall_impl; [done|]; intros ? []; done].
  pose proof (scan_exists _ _ _ _ (am_assets m) (None, ∅)) as Hs. simpl in Hs. split.
  - intros (prev & ids & Hl & -> & ?).
    destruct (proj1 Hs) as (?&?&?&_); [by eexists|]. done.
  - intros (?&?&?&->&?). destruct (proj2 Hs) as [[prev ids] Hl].
    { split_and!; try done. apply Forall_true. set_solver. }
    exists prev, ids. done.
Qed.

Lemma archive_validate_Ok m :
  lengths_in_range m → validate m = Ok tt ↔ archive_well_formed m.
Proof.
  intros Hr. unfold validate. rewrite !bind_fail_if_Ok, bind_Ok.
  rewrite !orb_false_iff, !negb_false_iff, !Z.eqb_eq. split.
  - intros (?&(((?&?)&?)&?)&([[prev ids] bytes]&Hl&Hs)). result_inv.
    rewrite negb_false_iff, bool_decide_eq_true in *.
    destruct (proj1 (archive_scan_assets_Ok m bytes Hr)) as (?&?&?&->&?); [by do 2 eexists|].
    match goal with H : am_summary m = _ |- _ => rename H into Hsum end.
    split; try done; by rewrite Hsum.
  - intros []. split_and!; try naive_solver.
    destruct (proj2 (archive_scan_assets_Ok m (ams_media_bytes (am_summary m)) Hr)) as (prev&ids&Hl).
    { by split_and!. }
    eexists. split; [done|]. simpl. rewrite bind_fail_if_Ok, negb_false_iff, bool_decide_eq_true.
    split; [|done]. destruct (am_summary m). simpl in *. congruence.
Qed.

(** A manifest passes [ArchiveManifest::validate] exactly when it is well
    formed: its schema and server are supported, every asset has a canonical
    identifier, a file name that is one component on every platform and a target
    derived from the two, targets are strictly sorted, identifiers distinct, and
    the byte counter is the true sum of the lengths, which fits in a [u64]. *)
Theorem archive_validate_iff m :
  lengths_in_range m → validate m = Ok tt ↔ archive_well_formed m.
Proof.
  apply archive_validate_Ok.
Qed.

(** *** Errors and panics *)

Definition archive_error_reason (m : ArchiveManifest) (e : archive_error) : Prop :=
  let assets := am_assets m in
  let total := foldr Z.add 0 (map aa_byte_len assets) in
  match e with
  | Fail (UnsupportedSchema v) => v = am_schema_version m ∧ v ≠ 1
  | Fail InvalidIdentity =>
      is_sha256 (am_configuration_sha256 m) = false
      ∨ is_sha256 (identity_sha256 (am_server m)) = false
      ∨ major (version (am_server m)) ≠ 3 ∨ minor (version (am_server m)) ≠ 1
  | Fail InvalidAsset => ∃ a, a ∈ assets ∧ ¬ archive_asset_well_formed a
  | Fail DuplicateAssetId => ordered_pair (λ a b, aa_asset_id a = aa_asset_id b) assets
  | Fail AssetsNotStrictlySorted =>
      adjacent_pair (λ a b, ¬ str_lt (aa_target_path a) (aa_target_path b)) assets
  | Fail SummaryMismatch =>
      am_summary m ≠ {| ams_assets := zlen assets; ams_media_bytes := total |} ∨ u64_max < total
  | Fail InvalidReport => False
  | Panic => ∃ a, a ∈ assets ∧ straddling_stem (aa_original_file_name a)
  end.

Lemma sum_prefix_le (l1 l2 : list Z) x :
  Forall (λ y, 0 <= y) l2 → foldr Z.add 0 l1 + x <= foldr Z.add 0 (l1 ++ x :: l2).
Proof.
  intros Hl. assert (0 <= foldr Z.add 0 l2) by (induction Hl; simpl; lia).
  induction l1; simpl; lia.
Qed.

Lemma checked_add_None a b : checked_add a b = None ↔ u64_max < a + b.
Proof. unfold checked_add. destruct (Z.leb_spec (a + b) u64_max); split; done || lia. Qed.

Lemma asset_loop_error_reason m e :
  lengths_in_range m →
  for_each scan_asset (am_assets m) (None, ∅, 0) = Err e → archive_error_reason m e.
Proof.
  intros Hr. intros (l1 & a & l2 & [[prev ids] bytes] & Hl & Hpre & Ha)%for_each_Err.
  assert (a ∈ am_assets m) as Hin by (rewrite Hl; set_solver).
  rewrite (for_each_ext _ _ _ _ scan_asset_both) in Hpre.
  apply for_each_both in Hpre as [Hpre Hsum].
  unfold lengths_in_range in Hr. rewrite Hl in Hr.
  apply Forall_app in Hr as [Hr1 [Hra Hr2]%Forall_cons].
  apply checked_sum_Ok in Hsum as [-> _].
  2: unfold u64_max; lia. 2: eapply Forall_impl; [done|]; intros ? []; done.
  unfold scan_asset, validate_asset in Ha. result_inv; simpl;
    rewrite ?negb_true_iff, ?bool_decide_eq_true, ?safe_component_None, ?checked_add_None in *.
  - exists a. split; [done|]. intros []. congruence.
  - exists a. naive_solver.
  - exists a. split; [done|]. intros [].
    match goal with H : safe_component _ = Some ?b |- _ =>
      rewrite (proj2 (safe_component_true _)) in H by done; injection H as <- end.
    rewrite !orb_true_iff, !negb_true_iff, String.eqb_neq in *. destruct_or!; congruence.
  - rewrite Hl. by eapply (scan_seen _ _ _ _ _ _ _ _ _ Hpre).
  - rewrite Hl. by eapply (scan_not_above _ _ _ _ _ _ _ _ _ Hpre).
  - right. rewrite Hl, map_app. simpl. eapply Z.lt_le_trans; [done|]. apply sum_prefix_le.
    rewrite Forall_map. eapply Forall_impl; [done|]. by intros ? [].
Qed.

(** Whatever [ArchiveManifest::validate] reports is true of the manifest;
    a panic means that some file name has a device stem that [&stem[..3]] cuts
    inside a character. *)
Theorem archive_validate_error_sound m e :
  lengths_in_range m → validate m = Err e → archive_error_reason m e.
Proof.
  intros Hr. unfold validate. intros Hv. result_inv;
    rewrite ?orb_true_iff, ?negb_true_iff, ?negb_false_iff, ?Z.eqb_neq, ?Z.eqb_eq in *.
  - simpl. done.
  - simpl. tauto.
  - by apply asset_loop_error_reason.
  - destruct x as [[prev ids] bytes]. result_inv. simpl.
    rewrite negb_true_iff, bool_decide_eq_false in *.
    destruct (proj1 (archive_scan_assets_Ok m bytes Hr)) as (_&_&_&->&_); [by do 2 eexists|]. by left.
Qed.

(** *** What a valid manifest guarantees *)

Lemma canonical_uuid_v4_bytes id :
  canonical_uuid_v4 id = true →
  Forall (λ a, is_lower_hex_byte a = true ∨ a = "-"%char) (bytes id).
Proof.
  unfold canonical_uuid_v4. rewrite andb_true_iff, bytes_all_true. intros [_ Hb].
  apply Forall_lookup. intros i a Ha. specialize (Hb i a Ha). unfold canonical_uuid_byte in Hb.
  repeat case_bool_decide; try done; auto.
  - apply Ascii.eqb_eq in Hb. auto.
  - apply Ascii.eqb_eq in Hb as ->. auto.
  - left. match goal with H : a ∈ _ |- _ => rewrite !elem_of_cons in H; destruct_or! H end;
      subst; try done. by match goal with H : _ ∈ [] |- _ => apply elem_of_nil in H end.
Qed.

Lemma canonical_uuid_v4_no_slash id :
  canonical_uuid_v4 id = true → contains_byte "/" id = false.
Proof.
  intros Hid%canonical_uuid_v4_bytes. apply contains_byte_false. intros Hin.
  rewrite Forall_forall in Hid. by destruct (Hid _ Hin).
Qed.

Lemma target_path_split id name :
  canonical_uuid_v4 id = true → portable_component name →
  split_on "/" (target_path_of id name) = ["assets"; id; name].
Proof.
  intros Hid Hn. unfold target_path_of.
  change ("assets/" +:+ id +:+ "/" +:+ name) with ("assets" +:+ String "/" (id +:+ String "/" name)).
  rewrite split_on_app by done. rewrite split_on_app by by apply canonical_uuid_v4_no_slash.
  rewrite split_on_none; [done|]. apply contains_byte_false, Hn.
Qed.

(** The targets of a valid manifest are distinct paths of exactly three
    components below the archive root, the last of which is portable: no
    separator, no dot component, no control character, no reserved device. *)
Theorem archive_targets_contained m :
  lengths_in_range m → validate m = Ok tt →
  NoDup (map aa_target_path (am_assets m)) ∧
  Forall (λ a, split_on "/" (aa_target_path a) = ["assets"; aa_asset_id a; aa_original_file_name a]
    ∧ portable_component (aa_original_file_name a) ∧ len (aa_asset_id a) = 36) (am_assets m).
Proof.
  intros Hr [_ _ _ _ Hassets Hsorted _ _ _ _]%archive_validate_Ok; [|done].
  split; [by eapply StronglySorted_NoDup, Hsorted; apply _|].
  eapply Forall_impl; [done|]. intros a []. split_and!; [|done|].
  - match goal with H : aa_target_path a = _ |- _ => rewrite H end. by apply target_path_split.
  - unfold canonical_uuid_v4 in *. bools. done.
Qed.

(** C40: a portable file name whose device stem is four bytes long and ends
    inside a character, such as one emoji, is not rejected: validating the
    manifest panics. *)
Theorem archive_validate_panics m a rest :
  am_schema_version m = 1 → is_sha256 (am_configuration_sha256 m) = true →
  is_sha256 (identity_sha256 (am_server m)) = true →
  major (version (am_server m)) = 3 → minor (version (am_server m)) = 1 →
  am_assets m = a :: rest → canonical_uuid_v4 (aa_asset_id a) = true →
  portable_component (aa_original_file_name a) → straddling_stem (aa_original_file_name a) →
  validate m = Err Panic.
Proof.
  intros Hv Hc Hi Hmaj Hmin Ha Hid [? ? ? ? ? _] Hs.
  unfold validate. rewrite Hv, Hc, Hi, Hmaj, Hmin, Ha. simpl.
  unfold validate_asset. rewrite Hid. simpl.
  rewrite (proj2 (safe_component_None _)); [done|]. split; [|done]. by apply unsafe_text_false.
Qed.

(** *** Concrete manifests *)
Definition sample_uuid : string := "3fa85f64-5717-4562-b3fc-2c963f66afa6".
Definition sample_archive_asset (name : string) (byte_len : Z) : ArchiveAsset := {|
  aa_asset_id := sample_uuid; aa_original_file_name := name;
  aa_target_path := target_path_of sample_uuid name; aa_media_kind := Media_Image;
  aa_byte_len := byte_len; aa_checksum_sha1 := "da39a3ee5e6b4b0d3255bfef95601890afd80709" |}.
Definition sample_manifest (assets : list ArchiveAsset) (media_bytes : Z) : ArchiveManifest := {|
  am_schema_version := 1; am_server := sample_server;
  am_configuration_sha256 := sample_digest; am_assets := assets;
  am_summary := {| ams_assets := zlen assets; ams_media_bytes := media_bytes |} |}.

Lemma archive_validate_iff_witness :
  archive_well_formed (sample_manifest [sample_archive_asset "IMG_1.HEIC" 7] 7).
Proof.
  apply archive_validate_iff; [repeat constructor; vm_compute; done|]. vm_compute. reflexivity.
Defined.

Lemma archive_validate_error_sound_witness :
  archive_error_reason (sample_manifest [sample_archive_asset "COM3.jpg" 7] 7) (Fail InvalidAsset).
Proof.
  apply archive_validate_error_sound; [repeat constructor; vm_compute; done|].
  vm_compute. reflexivity.
Defined.

Lemma archive_targets_contained_witness :
  Forall (λ a, split_on "/" (aa_target_path a) = ["assets"; aa_asset_id a; aa_original_file_name a]
    ∧ portable_component (aa_original_file_name a) ∧ len (aa_asset_id a) = 36)
    [sample_archive_asset "IMG_1.HEIC" 7].
Proof.
  apply (archive_targets_contained (sample_manifest [sample_archive_asset "IMG_1.HEIC" 7] 7));
    [repeat constructor; vm_compute; done|]. vm_compute. reflexivity.
Defined.

Lemma archive_validate_panics_witness :
  validate (sample_manifest [sample_archive_asset "😀.jpg" 7] 7) = Err Panic.
Proof.
  eapply archive_validate_panics; try reflexivity; [|split; reflexivity].
  apply portable_component_dec. vm_compute. reflexivity.
Defined.
