(* ===== verification/Migration.v ===== *)
(** * Migration: the server-to-server migration plan
    ([crates/immich-core/src/migration.rs])

    The plan that copies the assets and albums of one server to another, the
    counters derived from it and its validation. *)
From Stdlib Require Import Ascii.
From S2P Require Export Prelude Text Scan Metadata Planning Upload Archive.

(** ** Data *)

Definition MIGRATION_PLAN_SCHEMA_VERSION : Z := 1.

Record MigrationServer := {
  ms_compatibility : ServerCompatibility;
  ms_origin_sha256 : string;
}.

Record MigrationAsset := {
  ma_source_asset_id : string;
  ma_operation_id : string;
  ma_original_file_name : string;
  ma_media_kind : MediaKind;
  ma_byte_len : Z;
  ma_checksum_sha1 : string;
  ma_content_sha256 : string;
  ma_created_at_unix_ms : Z;
  ma_modified_at_unix_ms : Z;
  ma_normalized_metadata : option NormalizedMetadata;
  ma_role : UploadRole;
}.

Record MigrationAlbum := {
  mal_name : string;
  mal_member_operation_ids : list string;
}.

Record MigrationPlanSummary := {
  mps_assets : Z;
  mps_media_bytes : Z;
  mps_metadata_updates : Z;
  mps_album_creates : Z;
  mps_album_memberships : Z;
  mps_max_mutations : Z;
}.

Record MigrationPlan := {
  mp_schema_version : Z;
  mp_source_server : MigrationServer;
  mp_destination_server : MigrationServer;
  mp_source_fingerprint_sha256 : string;
  mp_configuration_sha256 : string;
  mp_assets : list MigrationAsset;
  mp_albums : list MigrationAlbum;
  mp_summary : MigrationPlanSummary;
}.

Module MigrationPlanValidationError.
Inductive t :=
  | UnsupportedSchema (version : Z)
  | InvalidIdentity
  | InvalidAsset
  | AssetsNotStrictlySorted
  | InvalidLivePhotoDependency
  | InvalidAlbum
  | SummaryMismatch.
#[export] Instance t_eq_dec : EqDecision t.
Proof. solve_decision. Defined.
End MigrationPlanValidationError.
Import MigrationPlanValidationError.

#[export] Instance MigrationPlanSummary_eq_dec : EqDecision MigrationPlanSummary.
Proof. solve_decision. Defined.

(** ** Checks *)

Definition lower_hex (value : string) (length : Z) : bool :=
  (len value =? length)
  && forallb (λ byte, is_ascii_hexdigit byte && negb (is_ascii_uppercase byte)) (bytes value).

Definition uuid_v4 (value : string) : bool :=
  (len value =? 36)
  && forallb (λ index, Ascii.eqb (byte_at index value) "-") [8; 13; 18; 23]%nat
  && Ascii.eqb (byte_at 14 value) "4"
  && bool_decide (byte_at 19 value ∈ ["8"; "9"; "a"; "b"]%char)
  && bytes_all (λ index byte,
       bool_decide (index ∈ [8; 13; 18; 23]%nat)
       || (is_ascii_hexdigit byte && negb (is_ascii_uppercase byte))) value.

Definition portable_file_name (value : string) : bool :=
  negb (is_empty value) && (len value <=? 4096)
  && negb (contains_byte "/" value || contains_byte "\" value)
  && negb (String.eqb value ".") && negb (String.eqb value "..")
  && negb (has_control value).

Definition server_valid (server : MigrationServer) : bool :=
  lower_hex (identity_sha256 (ms_compatibility server)) 64
  && lower_hex (ms_origin_sha256 server) 64.

Definition expected_summary (assets : list MigrationAsset) (albums : list MigrationAlbum) :
    MigrationPlanSummary :=
  let metadata_updates :=
    count (λ a, is_some_and (ma_normalized_metadata a) has_metadata) assets in
  let assets_count := zlen assets in
  let album_count := zlen albums in
  {| mps_assets := assets_count;
     mps_media_bytes := sum_u64 (map ma_byte_len assets);
     mps_metadata_updates := metadata_updates;
     mps_album_creates := album_count;
     mps_album_memberships := album_count;
     mps_max_mutations :=
       sat_add (sat_add assets_count metadata_updates) (sat_mul album_count 2) |}.

(** ** [MigrationPlan::validate] *)
Section validate.
  Context `{TimeLib}.

Definition valid_unix_ms (value : Z) : bool :=
  is_some (from_unix_timestamp_nanos (sat_mul_i128 value 1000000)).

(** The checks of [validate_assets] that concern one asset alone. *)
Definition asset_invalid (asset : MigrationAsset) : bool :=
  negb (uuid_v4 (ma_source_asset_id asset))
  || negb (lower_hex (ma_operation_id asset) 64)
  || negb (portable_file_name (ma_original_file_name asset))
  || (ma_byte_len asset =? 0)
  || negb (lower_hex (ma_checksum_sha1 asset) 40)
  || negb (lower_hex (ma_content_sha256 asset) 64)
  || negb (valid_unix_ms (ma_created_at_unix_ms asset))
  || negb (valid_unix_ms (ma_modified_at_unix_ms asset))
  || is_some_and (ma_normalized_metadata asset)
       (λ m, negb (is_valid m) || negb (bool_decide (albums m = []))).

(** The loop state: [previous] and [operations]; a duplicate operation is one
    whose insertion finds an entry. *)
Definition scan_asset (s : option string * gmap string UploadRole) (asset : MigrationAsset) :
    result MigrationPlanValidationError.t (option string * gmap string UploadRole) :=
  let '(previous, operations) := s in
  _ ← fail_if (not_above previous (ma_source_asset_id asset)) AssetsNotStrictlySorted;
  _ ← fail_if (asset_invalid asset || is_some (operations !! ma_operation_id asset)) InvalidAsset;
  Ok (Some (ma_source_asset_id asset), <[ma_operation_id asset := ma_role asset]> operations).

Definition validate_assets (assets : list MigrationAsset) :
    result MigrationPlanValidationError.t (gmap string UploadRole) :=
  '(_, operations) ← for_each scan_asset assets (None, ∅);
  _ ← for_each (λ _ asset,
        fail_if (negb (dependency_ok operations (ma_role asset))) InvalidLivePhotoDependency)
        assets tt;
  Ok operations.

Definition album_metadata (name : string) : NormalizedMetadata :=
  {| description := None; taken_at_utc := None; location := None; albums := [name] |}.

Definition album_invalid (operations : gmap string UploadRole) (album : MigrationAlbum) : bool :=
  negb (is_valid (album_metadata (mal_name album)))
  || bool_decide (mal_member_operation_ids album = [])
  || negb (windows2_all String.ltb (mal_member_operation_ids album))
  || existsb (λ operation, negb (is_some (operations !! operation)))
       (mal_member_operation_ids album).

Definition scan_album (operations : gmap string UploadRole) (previous : option string)
    (album : MigrationAlbum) : result MigrationPlanValidationError.t (option string) :=
  _ ← fail_if (not_above previous (mal_name album) || album_invalid operations album) InvalidAlbum;
  Ok (Some (mal_name album)).

Definition validate_albums (albums : list MigrationAlbum) (operations : gmap string UploadRole) :
    result MigrationPlanValidationError.t unit :=
  _ ← for_each (scan_album operations) albums None; Ok tt.

Definition validate (p : MigrationPlan) : result MigrationPlanValidationError.t unit :=
  _ ← fail_if (negb (mp_schema_version p =? MIGRATION_PLAN_SCHEMA_VERSION))
        (UnsupportedSchema (mp_schema_version p));
  _ ← fail_if (negb (server_valid (mp_source_server p))
               || negb (server_valid (mp_destination_server p))
               || String.eqb (ms_origin_sha256 (mp_source_server p))
                    (ms_origin_sha256 (mp_destination_server p))
               || String.eqb (identity_sha256 (ms_compatibility (mp_source_server p)))
                    (identity_sha256 (ms_compatibility (mp_destination_server p)))
               || negb (lower_hex (mp_source_fingerprint_sha256 p) 64)
               || negb (lower_hex (mp_configuration_sha256 p) 64)) InvalidIdentity;
  operation_map ← validate_assets (mp_assets p);
  _ ← validate_albums (mp_albums p) operation_map;
  _ ← fail_if (negb (bool_decide
        (expected_summary (mp_assets p) (mp_albums p) = mp_summary p))) SummaryMismatch;
  Ok tt.

(** ** What a valid plan is *)

Record migration_asset_well_formed (a : MigrationAsset) : Prop := {
  mawf_source : uuid_v4 (ma_source_asset_id a) = true;
  mawf_operation : lower_hex (ma_operation_id a) 64 = true;
  mawf_name : portable_file_name (ma_original_file_name a) = true;
  mawf_len : ma_byte_len a ≠ 0;
  mawf_sha1 : lower_hex (ma_checksum_sha1 a) 40 = true;
  mawf_sha256 : lower_hex (ma_content_sha256 a) 64 = true;
  mawf_created : valid_unix_ms (ma_created_at_unix_ms a) = true;
  mawf_modified : valid_unix_ms (ma_modified_at_unix_ms a) = true;
  mawf_metadata : ∀ m, ma_normalized_metadata a = Some m → is_valid m = true ∧ albums m = [];
}.

(** Every live-photo image names a video asset of its own pair. *)
Definition migration_dependencies_met (assets : list MigrationAsset) : Prop :=
  ∀ a pair vid, a ∈ assets → ma_role a = LivePhotoImage pair vid →
  ∃ v, v ∈ assets ∧ ma_operation_id v = vid ∧ ma_role v = LivePhotoVideo pair.

Record album_well_formed (assets : list MigrationAsset) (a : MigrationAlbum) : Prop := {
  albwf_name : valid_album (mal_name a) = true;
  albwf_members : mal_member_operation_ids a ≠ [];
  albwf_sorted : StronglySorted str_lt (mal_member_operation_ids a);
  albwf_known : ∀ id, id ∈ mal_member_operation_ids a → id ∈ map ma_operation_id assets;
}.

Record migration_well_formed (p : MigrationPlan) : Prop := {
  mwf_schema : mp_schema_version p = 1;
  mwf_source : server_valid (mp_source_server p) = true;
  mwf_destination : server_valid (mp_destination_server p) = true;
  mwf_origins :
    ms_origin_sha256 (mp_source_server p) ≠ ms_origin_sha256 (mp_destination_server p);
  mwf_identities : identity_sha256 (ms_compatibility (mp_source_server p))
    ≠ identity_sha256 (ms_compatibility (mp_destination_server p));
  mwf_fingerprint : lower_hex (mp_source_fingerprint_sha256 p) 64 = true;
  mwf_configuration : lower_hex (mp_configuration_sha256 p) 64 = true;
  mwf_assets : Forall migration_asset_well_formed (mp_assets p);
  mwf_sorted : StronglySorted str_lt (map ma_source_asset_id (mp_assets p));
  mwf_ids : NoDup (map ma_operation_id (mp_assets p));
  mwf_dependencies : migration_dependencies_met (mp_assets p);
  mwf_albums : Forall (album_well_formed (mp_assets p)) (mp_albums p);
  mwf_album_order : StronglySorted str_lt (map mal_name (mp_albums p));
  mwf_summary : mp_summary p = expected_summary (mp_assets p) (mp_albums p);
}.

(** *** The loops are ordered scans *)

Lemma is_valid_album_metadata name : is_valid (album_metadata name) = valid_album name.
Proof. unfold is_valid. simpl. by rewrite !andb_true_r. Qed.

Lemma asset_invalid_false a : asset_invalid a = false ↔ migration_asset_well_formed a.
Proof.
  unfold asset_invalid. rewrite !orb_false_iff, !negb_false_iff, Z.eqb_neq.
  assert (is_some_and (ma_normalized_metadata a)
      (λ m, negb (is_valid m) || negb (bool_decide (albums m = []))) = false ↔
    ∀ m, ma_normalized_metadata a = Some m → is_valid m = true ∧ albums m = []) as ->.
  { destruct (ma_normalized_metadata a); simpl; [|naive_solver].
    rewrite orb_false_iff, !negb_false_iff, bool_decide_eq_true. naive_solver. }
  split; [intros; destruct_and!; by split | intros []; by split_and!].
Qed.

#[export] Instance migration_scan :
  OrderedScan scan_asset ma_source_asset_id ma_operation_id migration_asset_well_formed.
Proof.
  refine {| scan_prev := fst; scan_ids := λ s, dom s.2 |}.
  - intros [prev ops] a. unfold scan_asset. rewrite <-asset_invalid_false. simpl.
    rewrite !ex_bind_fail_if, ex_Ok, not_above_false, orb_false_iff, not_elem_of_dom.
    assert (is_some (ops !! ma_operation_id a) = false ↔ ops !! ma_operation_id a = None) as ->
      by (by destruct (ops !! _)).
    iff_and.
  - intros [prev ops] a s'. unfold scan_asset. intros Hv. result_inv.
    split; [done|]. simpl. by rewrite dom_insert_L.
Defined.

Lemma scan_asset_operations l s s' :
  for_each scan_asset l s = Ok s' →
  s'.2 = foldl (λ m a, <[ma_operation_id a := ma_role a]> m) s.2 l.
Proof.
  revert s. induction l as [|a l IH]; intros [prev ops]; simpl; [by intros [= <-]|].
  intros (s1 & Ha & Hl)%bind_Ok. rewrite (IH _ Hl). unfold scan_asset in Ha. by result_inv.
Qed.

Definition operations_of (assets : list MigrationAsset) : gmap string UploadRole :=
  collect_map ma_operation_id ma_role assets.

Lemma scan_assets_Ok assets :
  (∃ s, for_each scan_asset assets (None, ∅) = Ok s) ↔
    Forall migration_asset_well_formed assets
    ∧ StronglySorted str_lt (map ma_source_asset_id assets)
    ∧ NoDup (map ma_operation_id assets).
Proof.
  rewrite (scan_exists _ ma_source_asset_id ma_operation_id migration_asset_well_formed). simpl.
  split; [naive_solver|]. intros (?&?&?). split_and!; try done. apply Forall_true. set_solver.
Qed.

Lemma validate_assets_Ok assets operations :
  validate_assets assets = Ok operations ↔
    operations = operations_of assets
    ∧ Forall migration_asset_well_formed assets
    ∧ StronglySorted str_lt (map ma_source_asset_id assets)
    ∧ NoDup (map ma_operation_id assets) ∧ migration_dependencies_met assets.
Proof.
  unfold validate_assets. rewrite bind_Ok. split.
  - intros ([prev ops] & Hl & Hrest). pose proof (proj1 (scan_assets_Ok _) (ex_intro _ _ Hl)) as
      (?&?&Hnd). apply scan_asset_operations in Hl. simpl in Hl. subst.
    apply bind_Ok in Hrest as ([] & Hd%for_each_check_Ok & [= <-]).
    split_and!; try done. exact (proj1 (dependencies_collected _ _ _ Hnd) Hd).
  - intros (-> & ?&?& Hnd & Hd). destruct (proj2 (scan_assets_Ok assets)) as [[prev ops] Hl];
      [done|]. exists (prev, ops). split; [done|]. apply scan_asset_operations in Hl.
    simpl in Hl. subst. apply bind_Ok. exists tt. split; [|done].
    apply for_each_check_Ok. exact (proj2 (dependencies_collected _ _ _ Hnd) Hd).
Qed.

Lemma operation_known assets id :
  negb (is_some (operations_of assets !! id)) = false ↔ id ∈ map ma_operation_id assets.
Proof.
  rewrite negb_false_iff. destruct (operations_of assets !! id) eqn:Hid; simpl.
  - split; [|done]. intros _. destruct (decide (id ∈ map ma_operation_id assets)); [done|].
    unfold operations_of in Hid. rewrite (proj2 (collect_map_None _ _ _ _)) in Hid; done.
  - apply collect_map_None in Hid. done.
Qed.

Lemma album_invalid_false assets a :
  album_invalid (operations_of assets) a = false ↔ album_well_formed assets a.
Proof.
  unfold album_invalid. rewrite !orb_false_iff, !negb_false_iff, bool_decide_eq_false.
  rewrite is_valid_album_metadata, existsb_false, Forall_forall.
  setoid_rewrite operation_known.
  rewrite (windows2_all_StronglySorted _ str_lt) by apply str_ltb_spec.
  split; [intros; destruct_and!; by split | intros []; by split_and!].
Qed.

(** The album loop has no identifiers of its own; its paths are the names. *)
Lemma validate_albums_Ok assets albums :
  validate_albums albums (operations_of assets) = Ok tt ↔
    Forall (album_well_formed assets) albums ∧ StronglySorted str_lt (map mal_name albums).
Proof.
  unfold validate_albums. rewrite bind_Ok.
  assert (∀ prev, (∃ s, for_each (scan_album (operations_of assets)) albums prev = Ok s) ↔
    Forall (album_well_formed assets) albums
    ∧ StronglySorted str_lt (option_list prev ++ map mal_name albums)) as Hl.
  { induction albums as [|a l IH]; intros prev; simpl.
    - split; [|eauto]. intros _. split; [done|]. destruct prev; repeat constructor.
    - rewrite ex_bind. split.
      + intros (p & Ha & [Hall Hs]%IH). unfold scan_album in Ha. result_inv.
        rewrite orb_false_iff, not_above_false, album_invalid_false in *. destruct_and?.
        split; [by constructor|]. by apply above_cons.
      + intros [[Ha Hall]%Forall_cons Hs]. exists (Some (mal_name a)).
        apply above_cons in Hs as [Hab Hs]. split; [|by apply IH].
        unfold scan_album. rewrite bind_fail_if_Ok, orb_false_iff, not_above_false, album_invalid_false. done. }
  specialize (Hl None). simpl in Hl. rewrite <-Hl. naive_solver.
Qed.

Lemma migration_validate_Ok p : validate p = Ok tt ↔ migration_well_formed p.
Proof.
  unfold validate. rewrite !bind_fail_if_Ok, bind_Ok.
  rewrite !orb_false_iff, !negb_false_iff, Z.eqb_eq, !String.eqb_neq. split.
  - intros (?&(((((?&?)&?)&?)&?)&?)&(ops & (->&?&?&?&?)%validate_assets_Ok & Hrest)).
    apply bind_Ok in Hrest as ([] & [??]%validate_albums_Ok & Hrest). result_inv.
    rewrite negb_false_iff, bool_decide_eq_true in *. by split.
  - intros []. split_and!; try done. exists (operations_of (mp_assets p)).
    rewrite validate_assets_Ok. split; [done|]. apply bind_Ok. exists tt.
    rewrite validate_albums_Ok. split; [done|].
    by rewrite bind_fail_if_Ok, negb_false_iff, bool_decide_eq_true.
Qed.

(** A plan passes [MigrationPlan::validate] exactly when it is well formed:
    two different servers and users, well-formed assets strictly sorted by
    source identifier with distinct operations, live-photo images that name a
    video of their pair, albums strictly sorted by name whose members are sorted
    operations of the plan, and the summary its contents determine. *)
Theorem migration_validate_iff p : validate p = Ok tt ↔ migration_well_formed p.
Proof.
  apply migration_validate_Ok.
Qed.

(** *** Errors are truthful *)

Definition migration_error_reason (p : MigrationPlan) (e : MigrationPlanValidationError.t) : Prop :=
  let assets := mp_assets p in
  match e with
  | UnsupportedSchema v => v = mp_schema_version p ∧ v ≠ 1
  | InvalidIdentity =>
      server_valid (mp_source_server p) = false ∨ server_valid (mp_destination_server p) = false
      ∨ ms_origin_sha256 (mp_source_server p) = ms_origin_sha256 (mp_destination_server p)
      ∨ identity_sha256 (ms_compatibility (mp_source_server p))
        = identity_sha256 (ms_compatibility (mp_destination_server p))
      ∨ lower_hex (mp_source_fingerprint_sha256 p) 64 = false
      ∨ lower_hex (mp_configuration_sha256 p) 64 = false
  | InvalidAsset => (∃ a, a ∈ assets ∧ ¬ migration_asset_well_formed a)
      ∨ ordered_pair (λ a b, ma_operation_id a = ma_operation_id b) assets
  | AssetsNotStrictlySorted =>
      adjacent_pair (λ a b, ¬ str_lt (ma_source_asset_id a) (ma_source_asset_id b)) assets
  | InvalidLivePhotoDependency => ¬ migration_dependencies_met assets
  | InvalidAlbum => ¬ (Forall (album_well_formed assets) (mp_albums p)
      ∧ StronglySorted str_lt (map mal_name (mp_albums p)))
  | SummaryMismatch => mp_summary p ≠ expected_summary assets (mp_albums p)
  end.

Lemma scan_asset_error_reason p e :
  for_each scan_asset (mp_assets p) (None, ∅) = Err e → migration_error_reason p e.
Proof.
  intros (l1 & a & l2 & [prev ops] & Hl & Hpre & Ha)%for_each_Err.
  assert (a ∈ mp_assets p) as Hin by (rewrite Hl; set_solver).
  unfold scan_asset in Ha. result_inv; simpl.
  - rewrite Hl. by eapply (scan_not_above _ _ _ _ _ _ _ _ _ Hpre).
  - rewrite orb_true_iff in *. destruct_or!; [left|right].
    + exists a. split; [done|]. rewrite <-asset_invalid_false. congruence.
    + rewrite Hl. eapply (scan_seen _ _ _ _ _ _ _ _ _ Hpre); [done|]. simpl.
      apply elem_of_dom. destruct (ops !! ma_operation_id a); [by eexists|done].
Qed.

Lemma validate_assets_error p e :
  validate_assets (mp_assets p) = Err e → migration_error_reason p e.
Proof.
  unfold validate_assets. intros [Hl|([prev ops] & Hl & Hd)]%bind_Err.
  { by apply scan_asset_error_reason. }
  destruct (proj1 (scan_assets_Ok _) (ex_intro _ _ Hl)) as (_&_&Hnd).
  apply scan_asset_operations in Hl. simpl in Hl. subst.
  apply bind_Err in Hd as [Hd|(?&?&?)]; [|done].
  pose proof (for_each_check_Err _ _ _ _ Hd) as ->. simpl. intros Hmet.
  rewrite (proj2 (for_each_check_Ok _ _ _)) in Hd; [done|].
  exact (proj2 (dependencies_collected _ _ _ Hnd) Hmet).
Qed.

Lemma validate_albums_error ops albums e :
  validate_albums albums ops = Err e → e = InvalidAlbum.
Proof.
  unfold validate_albums. intros [Hl|(?&?&?)]%bind_Err; [|done].
  apply for_each_Err in Hl as (?&?&?&?&_&_&Ha). unfold scan_album in Ha. by result_inv.
Qed.

(** Whatever error [MigrationPlan::validate] reports is true of the plan. *)
Theorem migration_validate_error_sound p e :
  validate p = Err e → migration_error_reason p e.
Proof.
  unfold validate. intros [[Hv <-]|[Hv Hrest]]%bind_fail_if_Err.
  { rewrite negb_true_iff, Z.eqb_neq in Hv. done. }
  apply bind_fail_if_Err in Hrest as [[Hi <-]|[_ Hrest]].
  { rewrite !orb_true_iff, !negb_true_iff, !String.eqb_eq in Hi. simpl. tauto. }
  apply bind_Err in Hrest as [Hrest|(ops & (->&_)%validate_assets_Ok & Hrest)].
  { by apply validate_assets_error. }
  apply bind_Err in Hrest as [Hal|([] & _ & Hs)].
  - pose proof (validate_albums_error _ _ _ Hal) as ->. simpl.
    rewrite <-validate_albums_Ok, Hal. done.
  - result_inv. rewrite negb_true_iff, bool_decide_eq_false in *. simpl. congruence.
Qed.
End validate.

(** *** The two identifier checks of the schemas agree *)

Lemma lower_hex_bytes v n :
  lower_hex v n = (len v =? n) && forallb is_lower_hex_byte (bytes v).
Proof.
  unfold lower_hex. f_equal. induction (bytes v) as [|a l IH]; simpl; [done|].
  by rewrite lower_hexdigit, IH.
Qed.

Lemma uuid_position_iff index byte :
  canonical_uuid_byte index byte = true ↔
    (index ∈ [8; 13; 18; 23]%nat → byte = "-"%char) ∧ (index = 14%nat → byte = "4"%char)
    ∧ (index = 19%nat → byte ∈ ["8"; "9"; "a"; "b"]%char)
    ∧ (index ∉ [8; 13; 18; 23]%nat → is_lower_hex_byte byte = true).
Proof.
  unfold canonical_uuid_byte. case_bool_decide as Hd.
  { rewrite Ascii.eqb_eq. split; [|naive_solver]. intros ->. split_and!; try done; intros ->;
      rewrite !elem_of_cons in Hd; destruct_or! Hd; try done; by apply elem_of_nil in Hd. }
  case_bool_decide as H14.
  { rewrite Ascii.eqb_eq. subst. split; [|naive_solver]. intros ->. done. }
  case_bool_decide as H19.
  { rewrite bool_decide_eq_true. subst. split; [|naive_solver].
    intros Hb. split_and!; try done. intros _.
    rewrite !elem_of_cons in Hb. destruct_or! Hb; subst; try done. by apply elem_of_nil in Hb. }
  split; [|naive_solver]. intros. by split_and!.
Qed.

(** The archive and the migration schema accept the same asset
    identifiers. *)
Theorem uuid_v4_canonical v : uuid_v4 v = canonical_uuid_v4 v.
Proof.
  unfold uuid_v4, canonical_uuid_v4. destruct (Z.eqb_spec (len v) 36) as [Hl|]; [|done]. simpl.
  assert (∀ i, (i < 36)%nat → bytes v !! i = Some (byte_at i v)) as Hat.
  { intros i Hi. destruct (bytes v !! i) as [a|] eqn:Ha.
    - by rewrite (byte_at_lookup _ _ _ Ha).
    - apply lookup_ge_None in Ha. rewrite length_bytes in Ha. unfold len in Hl. lia. }
  apply Bool.eq_iff_eq_true. rewrite !andb_true_iff, !bytes_all_true, bool_decide_eq_true.
  setoid_rewrite uuid_position_iff. rewrite !Ascii.eqb_eq.
  setoid_rewrite orb_true_iff. setoid_rewrite bool_decide_eq_true. setoid_rewrite lower_hexdigit.
  split.
  - intros [[[(?&?&?&?&_) H14] H19] Hall] i a Ha. specialize (Hall i a Ha).
    pose proof (byte_at_lookup _ _ _ Ha) as <-. split_and!; [|by intros ->..|intros; apply orb_true_iff; by destruct Hall].
    rewrite !elem_of_cons. intros Hi. destruct_or! Hi; subst; try done. by apply elem_of_nil in Hi.
  - intros Hall. split; [split; [split|]|].
    + split_and!; try done; eapply Hall; try (apply Hat; lia); set_solver.
    + by eapply (Hall 14%nat); [apply Hat; lia|].
    + by eapply (Hall 19%nat); [apply Hat; lia|].
    + intros i a Ha. destruct (decide (i ∈ [8; 13; 18; 23]%nat)); [by left|right].
      apply orb_true_iff; by apply (Hall i a Ha).
Qed.

(** *** Concrete plans *)
Definition sample_origin : string :=
  "cccccccccccccccccccccccccccccccccccccccccccccccccccccccccccccccc".
Definition sample_destination : MigrationServer := {|
  ms_compatibility := sample_server; ms_origin_sha256 := sample_digest |}.
Definition sample_source_server : MigrationServer := {|
  ms_compatibility :=
    {| version := version sample_server; identity_sha256 := sample_digest_2 |};
  ms_origin_sha256 := sample_origin |}.
Definition sample_uuid_2 : string := "7fa85f64-5717-4562-b3fc-2c963f66afa6".

Definition sample_migration_asset (uuid operation name : string) (r : UploadRole) :
    MigrationAsset := {|
  ma_source_asset_id := uuid; ma_operation_id := operation; ma_original_file_name := name;
  ma_media_kind := Media_Image; ma_byte_len := 4;
  ma_checksum_sha1 := "da39a3ee5e6b4b0d3255bfef95601890afd80709";
  ma_content_sha256 := sample_digest; ma_created_at_unix_ms := 0; ma_modified_at_unix_ms := 0;
  ma_normalized_metadata := None; ma_role := r |}.

Definition sample_migration (assets : list MigrationAsset) (als : list MigrationAlbum) :
    MigrationPlan := {|
  mp_schema_version := 1; mp_source_server := sample_source_server;
  mp_destination_server := sample_destination; mp_source_fingerprint_sha256 := sample_digest;
  mp_configuration_sha256 := sample_digest; mp_assets := assets; mp_albums := als;
  mp_summary := expected_summary assets als |}.

Definition sample_migration_pair : list MigrationAsset :=
  [sample_migration_asset sample_uuid sample_digest "IMG_1.HEIC"
     (LivePhotoImage "p" sample_digest_2);
   sample_migration_asset sample_uuid_2 sample_digest_2 "IMG_1.MOV" (LivePhotoVideo "p")].
Definition sample_album : MigrationAlbum :=
  {| mal_name := "Italy"; mal_member_operation_ids := [sample_digest; sample_digest_2] |}.
Definition sample_migration_plan : MigrationPlan :=
  sample_migration sample_migration_pair [sample_album].

Example sample_migration_valid : validate (H := sample_time) sample_migration_plan = Ok tt.
Proof. vm_compute. reflexivity. Qed.

Lemma migration_validate_error_sound_witness :
  migration_error_reason (H := sample_time)
    (sample_migration sample_migration_pair
       [{| mal_name := "Italy"; mal_member_operation_ids := [] |}]) InvalidAlbum.
Proof.
  apply (migration_validate_error_sound (H := sample_time)). vm_compute. reflexivity.
Defined.
