(* ===== verification/Client.v ===== *)
(** * Client: the upload capability of the Immich client
    ([crates/immich-client/src/error.rs], [response.rs], [models.rs], [upload.rs])

    What the client accepts from a server and what it sends.  The HTTP
    transport and the JSON decoder are not part of the repository: they are the
    parameters of [Transport].  The interface [UploadClient] is what the
    executor uses; [ImmichUploadClient] implements it. *)
From Stdlib Require Import Ascii.
From S2P Require Export Prelude Text Metadata Upload.

(** ** Errors *)

Module ClientErrorClass.
Inductive t :=
  | Authentication
  | Compatibility
  | RateLimited
  | Server
  | Timeout
  | Disconnect
  | Protocol
  | Source
  | Cancelled.
#[global] Instance t_eq_dec : EqDecision t.
Proof. solve_decision. Defined.
End ClientErrorClass.

Record ClientError := {
  ce_class : ClientErrorClass.t;
  ce_status : option Z;
  ce_retry_after : option Z;
}.

Definition client_error (class : ClientErrorClass.t) : ClientError :=
  {| ce_class := class; ce_status := None; ce_retry_after := None |}.

Definition response_error (class : ClientErrorClass.t) (status : Z) (retry_after : option Z) :
    ClientError :=
  {| ce_class := class; ce_status := Some status; ce_retry_after := retry_after |}.

Definition is_retryable (e : ClientError) : bool :=
  match ce_class e with
  | ClientErrorClass.RateLimited | ClientErrorClass.Server
  | ClientErrorClass.Timeout | ClientErrorClass.Disconnect => true
  | _ => false
  end.

Definition is_class (c : ClientErrorClass.t) (e : ClientError) : bool :=
  bool_decide (ce_class e = c).

(** ** Responses *)

(** The questions the code asks of a [reqwest::Error]. *)
Record TransportError := {
  is_timeout : bool;
  is_connect : bool;
  is_request : bool;
  is_body : bool;
}.

(** A response: its status, its [Retry-After] header when it is printable, and
    its body as the stream of chunks the code reads. *)
Record HttpResponse := {
  hr_status : Z;
  hr_retry_after : option string;
  hr_chunks : list (result TransportError string);
}.

Definition classify_transport (error : TransportError) : ClientError :=
  client_error
    (if is_timeout error then ClientErrorClass.Timeout
     else if is_connect error || is_request error || is_body error
     then ClientErrorClass.Disconnect
     else ClientErrorClass.Protocol).

Definition status_class (status : Z) : ClientErrorClass.t :=
  if (status =? 401) || (status =? 403) then ClientErrorClass.Authentication
  else if status =? 429 then ClientErrorClass.RateLimited
  else if (status =? 408) || (status =? 425) || ((500 <=? status) && (status <=? 599))
  then ClientErrorClass.Server
  else ClientErrorClass.Protocol.

Definition status_error (response : HttpResponse) (retry_after_cap : Z) : ClientError :=
  let retry_after :=
    value ← hr_retry_after response;
    secs ← parse_u64 value;
    let delay := from_secs secs in
    if delay <=? retry_after_cap then Some delay else None in
  response_error (status_class (hr_status response)) (hr_status response) retry_after.

(** [status.is_success()] *)
Definition is_success (status : Z) : bool := (200 <=? status) && (status <? 300).

(** The body loop of [bounded_json]: never more than [max_bytes]. *)
Definition push_chunk (max_bytes : Z) (body : string) (chunk : result TransportError string) :
    result ClientError string :=
  chunk ← map_err classify_transport chunk;
  next_len ← ok_or (checked_add (len body) (len chunk)) (client_error ClientErrorClass.Protocol);
  _ ← fail_if (max_bytes <? next_len) (client_error ClientErrorClass.Protocol);
  Ok (body +:+ chunk).

Definition bounded_json {T} (from_slice : string → option T) (response : HttpResponse)
    (max_bytes retry_after_cap : Z) : result ClientError T :=
  _ ← fail_if (negb (is_success (hr_status response))) (status_error response retry_after_cap);
  body ← for_each (push_chunk max_bytes) (hr_chunks response) "";
  ok_or (from_slice body) (client_error ClientErrorClass.Protocol).

(** ** Data of the upload interface *)

Inductive DuplicateCheck :=
  | Accept
  | Duplicate (asset_id : string).

Inductive UploadResult := UploadCreated | UploadDuplicate.

Record UploadRequest := {
  ur_operation_id : string;
  ur_file_name : string;
  ur_media_path : string;
  ur_media_len : Z;
  ur_sha1_base64 : string;
  ur_created_at_unix_ms : Z;
  ur_modified_at_unix_ms : Z;
  ur_xmp : option (string * Z);
  ur_live_photo_video_id : option string;
}.

Record BulkCheckAsset := { bca_id : string; bca_checksum : string }.
Inductive BulkCheckAction := BulkAccept | BulkReject.
Record BulkCheckResult := {
  bcr_id : string;
  bcr_action : BulkCheckAction;
  bcr_asset_id : option string;
}.
Record BulkCheckResponse := { results : list BulkCheckResult }.
Record UploadResponse := { upr_id : string; upr_status : UploadResult }.

(** A multipart field: a text, or a file streamed with a declared length. *)
Inductive Part :=
  | TextPart (value : string)
  | StreamPart (path : string) (len : Z) (file_name : string).
Definition Form : Type := list (string * Part).

Inductive HttpRequest :=
  | PostBulkCheck (asset : BulkCheckAsset)
  | PostAsset (checksum : string) (form : Form).

(** The identifiers the executor may record. *)
Definition valid_asset_id (id : string) : bool := negb (is_empty id) && (len id <=? 4096).

(** What the executor needs of an upload client. *)
Class UploadClient (W : Type) := {
  duplicate_check : string → string → io W ClientError DuplicateCheck;
  upload : UploadRequest → io W ClientError (UploadResult * string);
}.

(** The promise: identifiers are never empty and never too long to record. *)
Class UploadClientLaws (W : Type) `{UploadClient W} : Prop := {
  duplicate_check_id op sha1 w id w' :
    duplicate_check op sha1 w = (Ok (Duplicate id), w') → valid_asset_id id = true;
  upload_id req w r id w' : upload req w = (Ok (r, id), w') → valid_asset_id id = true;
}.

(** ** The implementation *)

(** The trait [Cancellation] of [crates/immich-core/src/cancellation.rs]: the flag
    may be raised at any time, so reading it is an effect. *)
Class Cancellation (W : Type) := { is_cancelled : W → bool * W }.

(** The HTTP stack and the files the client streams: [send] is [None] when
    cancellation wins the [select!]. *)
Class Transport (W : Type) := {
  open_file : string → W → bool * W;
  send : HttpRequest → W → option (result TransportError HttpResponse) * W;
  decode_bulk_check : string → option BulkCheckResponse;
  decode_upload : string → option UploadResponse;
}.

Record ClientConfig := {
  request_timeout : Z;
  max_response_bytes : Z;
  retry_after_cap : Z;
  upload_buffer_bytes : Z;
}.

Section ImmichUploadClient.
  Context {W : Type} `{Cancellation W, Transport W, TimeLib} (config : ClientConfig).

Definition protocol : ClientError := client_error ClientErrorClass.Protocol.

Definition check_cancelled : io W ClientError unit := λ w,
  let '(cancelled, w) := is_cancelled w in
  (fail_if cancelled (client_error ClientErrorClass.Cancelled), w).

Definition cancellable_send (request : HttpRequest) : io W ClientError HttpResponse := λ w,
  match send request w with
  | (None, w) => (Err (client_error ClientErrorClass.Cancelled), w)
  | (Some response, w) => (map_err classify_transport response, w)
  end.

Definition read_json {T} (from_slice : string → option T) (response : HttpResponse) :
    result ClientError T :=
  bounded_json from_slice response (max_response_bytes config) (retry_after_cap config).

(** [check_results]: what [ImmichUploadClient::duplicate_check] makes of the
    decoded response *)
Definition check_results (operation_id : string) (body : BulkCheckResponse) :
    result ClientError DuplicateCheck :=
  match results body with
  | [result] =>
    if negb (String.eqb (bcr_id result) operation_id) then Err protocol
    else match bcr_action result, bcr_asset_id result with
    | BulkAccept, None => Ok Accept
    | BulkReject, Some asset_id =>
      if valid_asset_id asset_id then Ok (Duplicate asset_id) else Err protocol
    | _, _ => Err protocol
    end
  | _ => Err protocol
  end.

Definition client_duplicate_check (operation_id sha1_base64 : string) :
    io W ClientError DuplicateCheck :=
  _ ← check_cancelled;
  response ← cancellable_send
    (PostBulkCheck {| bca_id := operation_id; bca_checksum := sha1_base64 |});
  body ← lift (read_json decode_bulk_check response);
  lift (check_results operation_id body).

Definition validate_upload_request (request : UploadRequest) : result ClientError unit :=
  let valid :=
    negb (is_empty (ur_operation_id request))
    && negb (is_empty (ur_file_name request))
    && negb (contains_byte "/" (ur_file_name request) || contains_byte "\" (ur_file_name request))
    && (0 <? ur_media_len request)
    && negb (is_empty (ur_sha1_base64 request))
    && (len (ur_sha1_base64 request) <=? 128)
    && is_none_or (ur_live_photo_video_id request) valid_asset_id
    && is_none_or (ur_xmp request) (λ '(_, len), 0 <? len) in
  fail_if (negb valid) protocol.

(** [i128::from(unix_ms).checked_mul(1_000_000)] cannot overflow. *)
Definition format_timestamp (unix_ms : Z) : result ClientError string :=
  timestamp ← ok_or (from_unix_timestamp_nanos (unix_ms * 1000000)) protocol;
  ok_or (format_rfc3339 timestamp) protocol.

Definition streaming_part (path : string) (len : Z) (file_name : string) :
    io W ClientError Part := λ w,
  let '(opened, w) := open_file path w in
  (if opened then Ok (StreamPart path len file_name)
   else Err (client_error ClientErrorClass.Source), w).

(** The fields every upload has. *)
Definition base_fields (request : UploadRequest) (media : Part) (created modified : string) :
    Form :=
  [("assetData", media); ("deviceAssetId", TextPart (ur_operation_id request));
   ("deviceId", TextPart "immich-rs"); ("fileCreatedAt", TextPart created);
   ("fileModifiedAt", TextPart modified); ("isFavorite", TextPart "false")].

Definition multipart (request : UploadRequest) : io W ClientError Form :=
  media ← streaming_part (ur_media_path request) (ur_media_len request) (ur_file_name request);
  created ← lift (format_timestamp (ur_created_at_unix_ms request));
  modified ← lift (format_timestamp (ur_modified_at_unix_ms request));
  let form := base_fields request media created modified in
  form ← match ur_xmp request with
         | Some (path, len) =>
           sidecar ← streaming_part path len "metadata.xmp";
           mret (form ++ [("sidecarData", sidecar)])
         | None => mret form
         end;
  mret match ur_live_photo_video_id request with
       | Some asset_id => form ++ [("livePhotoVideoId", TextPart asset_id)]
       | None => form
       end.

(** What [ImmichUploadClient::upload] makes of the decoded response. *)
Definition upload_result (body : UploadResponse) : result ClientError (UploadResult * string) :=
  _ ← fail_if (is_empty (upr_id body) || (4096 <? len (upr_id body))) protocol;
  Ok (upr_status body, upr_id body).

Definition client_upload (request : UploadRequest) :
    io W ClientError (UploadResult * string) :=
  _ ← check_cancelled;
  _ ← lift (validate_upload_request request);
  form ← multipart request;
  response ← cancellable_send (PostAsset (ur_sha1_base64 request) form);
  body ← lift (read_json decode_upload response);
  lift (upload_result body).

#[export] Instance ImmichUploadClient : UploadClient W := {|
  duplicate_check := client_duplicate_check;
  upload := client_upload;
|}.
End ImmichUploadClient.

(** ** What the client guarantees *)

Lemma len_app s t : len (s +:+ t) = len s + len t.
Proof. unfold len. rewrite length_str_app. lia. Qed.

Lemma len_nonneg s : 0 <= len s.
Proof. unfold len. lia. Qed.

Definition concat_strings (l : list string) : string := foldr String.append "" l.

Lemma str_app_assoc (a b c : string) : (a +:+ b) +:+ c = a +:+ (b +:+ c).
Proof. apply bytes_inj. by rewrite !bytes_app, app_assoc. Qed.

Lemma str_app_nil_r (a : string) : a +:+ "" = a.
Proof. apply bytes_inj. rewrite bytes_app. by rewrite app_nil_r. Qed.

Lemma push_chunk_Ok max body chunk body' :
  max <= u64_max →
  push_chunk max body chunk = Ok body' ↔
    ∃ c, chunk = Ok c ∧ body' = body +:+ c ∧ len body' <= max.
Proof.
  intros Hmax. unfold push_chunk. split.
  - intros Hp. result_inv. exists x. split_and!; try done. rewrite len_app.
    match goal with H : checked_add _ _ = _ |- _ => apply checked_add_Some in H as [-> _] end.
    rewrite Z.ltb_ge in *. done.
  - intros (c & -> & -> & Hl). rewrite len_app in Hl. simpl. unfold checked_add.
    destruct (Z.leb_spec (len body + len c) u64_max); [|lia]. simpl.
    destruct (Z.ltb_spec max (len body + len c)); [lia|]. done.
Qed.

Lemma push_chunks_Ok max chunks body body' :
  max <= u64_max → len body <= max →
  for_each (push_chunk max) chunks body = Ok body' ↔
    ∃ cs, chunks = map Ok cs ∧ body' = body +:+ concat_strings cs ∧ len body' <= max.
Proof.
  intros Hmax. revert body. induction chunks as [|c chunks IH]; intros body Hb; simpl.
  - split.
    + intros [= <-]. exists []. simpl. by rewrite str_app_nil_r.
    + intros ([|] & ? & -> & _); [|done]. simpl. by rewrite str_app_nil_r.
  - rewrite bind_Ok. setoid_rewrite push_chunk_Ok; [|done]. split.
    + intros (b1 & (c' & -> & -> & Hl) & Hr). apply IH in Hr as (cs & -> & -> & ?); [|done].
      exists (c' :: cs). simpl. by rewrite str_app_assoc in *.
    + intros ([|c' cs] & Heq & -> & Hl); [done|]. injection Heq as -> ->. simpl in *.
      assert (len (body +:+ c') <= max) as Hb1.
      { rewrite !len_app in *. pose proof (len_nonneg (concat_strings cs)). lia. }
      exists (body +:+ c'). split; [by exists c'|]. apply IH; [done|].
      exists cs. by rewrite str_app_assoc.
Qed.

(** [bounded_json] decodes a response exactly when its status is a success,
    every chunk arrived, the whole body has at most [max_bytes] bytes and the
    decoder accepts it; nothing longer is ever held. *)
Theorem bounded_json_Ok {T} (from_slice : string → option T) response max cap v :
  0 <= max <= u64_max →
  bounded_json from_slice response max cap = Ok v ↔
    is_success (hr_status response) = true ∧
    ∃ cs, hr_chunks response = map Ok cs ∧ len (concat_strings cs) <= max
      ∧ from_slice (concat_strings cs) = Some v.
Proof.
  intros Hmax. unfold bounded_json. rewrite bind_fail_if_Ok, negb_false_iff, bind_Ok.
  setoid_rewrite push_chunks_Ok; [|lia|change (len "") with 0; lia]. setoid_rewrite ok_or_Ok. split.
  - intros (? & b & (cs & -> & -> & ?) & ?). split; [done|]. by exists cs.
  - intros (? & cs & -> & ? & ?). split; [done|]. exists (concat_strings cs).
    split; [by exists cs|done].
Qed.

(** A delay the client reports to the executor never exceeds its cap, and
    the error classes are those of the status code. *)
Theorem status_error_bounded response cap :
  let e := status_error response cap in
  (∀ d, ce_retry_after e = Some d → 0 <= d <= cap) ∧
  (is_retryable e = true ↔
     hr_status response = 429 ∨ hr_status response = 408 ∨ hr_status response = 425
     ∨ 500 <= hr_status response <= 599).
Proof.
  intros e. subst e. unfold status_error. simpl. split.
  - intros d. destruct (hr_retry_after response) as [value|]; simpl; [|done].
    destruct (parse_u64 value) as [secs|] eqn:Hp; simpl; [|done].
    apply parse_u64_range in Hp. destruct (Z.leb_spec (from_secs secs) cap); [|done].
    intros [= <-]. unfold from_secs, NANOS_PER_SEC, is_u64 in *. lia.
  - unfold is_retryable, response_error, status_class. simpl.
    repeat match goal with
    | |- context [?a =? ?b] => destruct (Z.eqb_spec a b); simpl
    | |- context [?a <=? ?b] => destruct (Z.leb_spec a b); simpl
    end; split; (done || lia || (intros; exfalso; lia)).
Qed.

Section laws.
  Context {W : Type} `{Cancellation W, Transport W, TimeLib} (config : ClientConfig).

Lemma check_results_id op body id :
  check_results op body = Ok (Duplicate id) → valid_asset_id id = true.
Proof.
  unfold check_results. destruct (results body) as [|r [|]]; try done.
  destruct (negb _); [done|].
  destruct (bcr_action r), (bcr_asset_id r) as [a|]; try done.
  destruct (valid_asset_id a) eqn:Ha; [|done]. by intros [= <-].
Qed.

Lemma upload_result_id body r id :
  upload_result body = Ok (r, id) → valid_asset_id id = true.
Proof.
  unfold upload_result, valid_asset_id. rewrite bind_fail_if_Ok.
  intros [Hid [= <- <-]]. rewrite orb_false_iff, Z.ltb_ge in Hid. destruct Hid as [-> ?].
  by apply Z.leb_le.
Qed.

#[export] Instance ImmichUploadClient_laws : UploadClientLaws W (H := ImmichUploadClient config).
Proof.
  split.
  - intros op sha1 w id w'. simpl. unfold client_duplicate_check.
    intros (?&?&_&(?&?&_&(?&?&_&[Hc _]%lift_Ok)%io_bind_Ok)%io_bind_Ok)%io_bind_Ok.
    by eapply check_results_id.
  - intros req w r id w'. simpl. unfold client_upload.
    intros (?&?&_&(?&?&_&(?&?&_&(?&?&_&(?&?&_&[Hu _]%lift_Ok)%io_bind_Ok)%io_bind_Ok)%io_bind_Ok)
      %io_bind_Ok)%io_bind_Ok.
    by eapply upload_result_id.
Qed.

(** Whatever the server answers, the identifiers this client hands to the
    executor are non-empty and at most 4096 bytes long. *)
Theorem upload_client_laws : UploadClientLaws W (H := ImmichUploadClient config).
Proof. apply ImmichUploadClient_laws. Qed.

(** The multipart form of an upload names the operation, both timestamps and
    the media with its exact length, the sidecar exactly when the request has
    one, and the live-photo video exactly when the request has one. *)
Theorem upload_form_faithful req w form w' :
  multipart req w = (Ok form, w') →
  ∃ created modified,
    format_timestamp (ur_created_at_unix_ms req) = Ok created ∧
    format_timestamp (ur_modified_at_unix_ms req) = Ok modified ∧
    form = base_fields req
        (StreamPart (ur_media_path req) (ur_media_len req) (ur_file_name req)) created modified
      ++ match ur_xmp req with
         | Some (path, len) => [("sidecarData", StreamPart path len "metadata.xmp")]
         | None => []
         end
      ++ match ur_live_photo_video_id req with
         | Some id => [("livePhotoVideoId", TextPart id)]
         | None => []
         end.
Proof.
  assert (∀ path n name w p w', streaming_part path n name w = (Ok p, w') →
    p = StreamPart path n name) as Hpart.
  { intros path n name w1 p w2. unfold streaming_part.
    destruct (open_file path w1) as [[] ?]; naive_solver. }
  unfold multipart.
  intros (media&?&Hm%Hpart&(created&?&[Hc _]%lift_Ok&(modified&?&[Hmod _]%lift_Ok&
    (form'&?&Hx&Hl)%io_bind_Ok)%io_bind_Ok)%io_bind_Ok)%io_bind_Ok.
  exists created, modified. split_and!; try done. subst media.
  assert (form' = base_fields req (StreamPart (ur_media_path req) (ur_media_len req)
      (ur_file_name req)) created modified ++ match ur_xmp req with
    | Some (path, len) => [("sidecarData", StreamPart path len "metadata.xmp")]
    | None => [] end) as Hf.
  { destruct (ur_xmp req) as [[path n]|].
    - apply io_bind_Ok in Hx as (p&?&->%Hpart&[= <- _]). done.
    - injection Hx as <- _. by rewrite app_nil_r. }
  injection Hl as <- _. rewrite Hf, app_assoc.
  destruct (ur_live_photo_video_id req); [done|by rewrite app_nil_r].
Qed.
End laws.

(** ** A scripted server *)

(** A world that is the list of answers still to come. *)
#[export] Instance script_cancellation : Cancellation (list HttpResponse) :=
  {| is_cancelled w := (false, w) |}.
Definition script_transport : Transport (list HttpResponse) := {|
  open_file _ w := (true, w);
  send _ w := match w with r :: w => (Some (Ok r), w) | [] => (None, []) end;
  decode_bulk_check body :=
    if String.eqb body "accept"
    then Some {| results := [{| bcr_id := sample_digest; bcr_action := BulkAccept;
                                bcr_asset_id := None |}] |}
    else if String.eqb body "reject"
    then Some {| results := [{| bcr_id := sample_digest; bcr_action := BulkReject;
                                bcr_asset_id := Some "server-id" |}] |}
    else None;
  decode_upload body :=
    if String.eqb body "created" then Some {| upr_id := "server-id"; upr_status := UploadCreated |}
    else None;
|}.

Definition answer (status : Z) (chunks : list string) : HttpResponse :=
  {| hr_status := status; hr_retry_after := Some "7"; hr_chunks := map Ok chunks |}.

Definition sample_client_config : ClientConfig :=
  {| request_timeout := from_secs 30; max_response_bytes := 64; retry_after_cap := from_secs 60;
     upload_buffer_bytes := 4096 |}.

Definition sample_request : UploadRequest := {|
  ur_operation_id := sample_digest; ur_file_name := "a.jpg"; ur_media_path := "/photos/a.jpg";
  ur_media_len := 4; ur_sha1_base64 := "2jmj7l5rSw0yVb/vlWAYkK/YBwk=";
  ur_created_at_unix_ms := 1589702950000; ur_modified_at_unix_ms := 1589702950000;
  ur_xmp := None; ur_live_photo_video_id := Some "video-id" |}.

Example scripted_upload :
  client_upload (H0 := script_transport) (H1 := sample_time) sample_client_config sample_request
    [answer 201 ["cre"; "ated"]] = (Ok (UploadCreated, "server-id"), []).
Proof. vm_compute. reflexivity. Qed.

Example scripted_throttle :
  client_upload (H0 := script_transport) (H1 := sample_time) sample_client_config sample_request
    [answer 429 []] = (Err (response_error ClientErrorClass.RateLimited 429 (Some (from_secs 7))), []).
Proof. vm_compute. reflexivity. Qed.

Lemma bounded_json_Ok_witness :
  bounded_json (λ s, Some s) (answer 200 ["ab"; "cd"]) 4 0 = Ok "abcd"
  ∧ bounded_json (λ s, Some s) (answer 200 ["ab"; "cd"]) 3 0 ≠ Ok "abcd".
Proof.
  split.
  - apply bounded_json_Ok; [unfold u64_max; lia|]. split; [done|]. by exists ["ab"; "cd"].
  - intros Hb. apply bounded_json_Ok in Hb as (_ & cs & Hcs & Hl & _); [|unfold u64_max; lia].
    destruct cs as [|a [|b [|]]]; try done. injection Hcs as <- <-. vm_compute in Hl. done.
Defined.

Lemma upload_form_faithful_witness : ∃ created modified form,
  form = base_fields sample_request (StreamPart "/photos/a.jpg" 4 "a.jpg") created modified
    ++ [("livePhotoVideoId", TextPart "video-id")].
Proof.
  destruct (multipart (H0 := script_transport) (H1 := sample_time) sample_request [])
    as [[form|e] w] eqn:Hm; [|by vm_compute in Hm].
  destruct (upload_form_faithful (H0 := script_transport) (H1 := sample_time) _ _ _ _ Hm)
    as (created & modified & _ & _ & Hf).
  exists created, modified, form. exact Hf.
Defined.
