(* ===== verification/Executor.v ===== *)
(** * Executor: errors, limits, digests and the retry policy
    ([crates/immich-executor/src/error.rs], [config.rs], [retry.rs] and the
    digests of [crates/immich-client/src/production.rs])

    The vocabulary every executor component shares.  SHA-256, SHA-1, Base64 and the
    JSON encoder are not part of the repository: they are the parameters of [Codec],
    with the digest's documented length as the law [CodecLaws]. *)
From Stdlib Require Import Ascii.
From S2P Require Export Prelude Text Metadata Planning Upload Migration Client.

(** ** Errors *)

Module ExecutorErrorClass.
Inductive t :=
  | InvalidConfiguration
  | InvalidPlan
  | SourceDiagnostics
  | UnsupportedMetadata
  | SourceChanged
  | Cancelled
  | Checkpoint
  | Destination
  | Client
  | Invariant.
#[global] Instance t_eq_dec : EqDecision t.
Proof. solve_decision. Defined.
End ExecutorErrorClass.

Record ExecutorError := { class : ExecutorErrorClass.t }.
#[export] Instance ExecutorError_eq_dec : EqDecision ExecutorError.
Proof. solve_decision. Defined.

(** [ExecutorError::new(class)] *)
Definition executor_error (c : ExecutorErrorClass.t) : ExecutorError := {| class := c |}.

Definition invalid_plan : ExecutorError := executor_error ExecutorErrorClass.InvalidPlan.
Definition invariant_error : ExecutorError := executor_error ExecutorErrorClass.Invariant.
Definition checkpoint_error : ExecutorError := executor_error ExecutorErrorClass.Checkpoint.

(** ** Limits *)

Record FolderScanConfig := {
  fsc_buffer_bytes : Z;
  fsc_max_entries : Z;
  fsc_max_directory_entries : Z;
  fsc_max_path_bytes : Z;
  fsc_case_sensitive : bool;
}.

Record UploadExecutionConfig := {
  scan : FolderScanConfig;
  verification_buffer_bytes : Z;
  concurrency : Z;
  max_attempts_per_operation : Z;
  max_retries_per_run : Z;
  retry_base_delay : Z;
  retry_delay_cap : Z;
}.

Record ConfigurationIdentity := {
  ci_scan_buffer_bytes : Z;
  ci_max_entries : Z;
  ci_max_directory_entries : Z;
  ci_max_path_bytes : Z;
  ci_case_sensitive : bool;
  ci_verification_buffer_bytes : Z;
  ci_concurrency : Z;
  ci_max_attempts_per_operation : Z;
  ci_max_retries_per_run : Z;
  ci_retry_base_delay_ms : Z;
  ci_retry_delay_cap_ms : Z;
}.

(** ** Digests *)

(** [serde_json::to_vec] for the values that are hashed, [Sha256::digest], and
    [STANDARD.encode(Sha1::digest(..))]; hashing chunk by chunk is hashing their
    concatenation. *)
Class Codec := {
  json_normalized_plan : NormalizedPlan → option string;
  json_upload_plan : UploadPlan → option string;
  json_migration_plan : MigrationPlan → option string;
  json_configuration : ConfigurationIdentity → option string;
  sha256 : string → string;
  sha1_base64 : string → string;
}.

(** A digest has 32 bytes. *)
Class CodecLaws `{Codec} : Prop := { sha256_length s : String.length (sha256 s) = 32%nat }.

(** [format!("{:x}", digest)] *)
Definition hex_digit (n : Z) : ascii :=
  ascii_of_N (Z.to_N (if n <? 10 then 48 + n else 87 + n)).
Fixpoint hex (s : string) : string :=
  match s with
  | EmptyString => EmptyString
  | String a s => String (hex_digit (code a / 16)) (String (hex_digit (code a mod 16)) (hex s))
  end.

Section config.
  Context `{Codec}.

Definition sha256_hex (bytes : string) : string := hex (sha256 bytes).

(** [UploadExecutionConfig::default] *)
Definition default_scan : FolderScanConfig := {|
  fsc_buffer_bytes := 64 * 1024; fsc_max_entries := 100000;
  fsc_max_directory_entries := 10000; fsc_max_path_bytes := 4096; fsc_case_sensitive := true |}.
Definition default_config : UploadExecutionConfig := {|
  scan := default_scan; verification_buffer_bytes := 64 * 1024; concurrency := 1;
  max_attempts_per_operation := 3; max_retries_per_run := 100;
  retry_base_delay := from_millis 100; retry_delay_cap := from_secs 10 |}.

Definition config_valid (c : UploadExecutionConfig) : bool :=
  (4 * 1024 <=? verification_buffer_bytes c) && (verification_buffer_bytes c <=? 4 * 1024 * 1024)
  && (1 <=? concurrency c) && (concurrency c <=? 8)
  && (1 <=? max_attempts_per_operation c) && (max_attempts_per_operation c <=? 10)
  && (max_retries_per_run c <=? 10000)
  && negb (retry_base_delay c =? 0)
  && (retry_base_delay c <=? retry_delay_cap c)
  && (retry_delay_cap c <=? from_secs 300).

Definition config_validate (c : UploadExecutionConfig) : result ExecutorError unit :=
  fail_if (negb (config_valid c)) (executor_error ExecutorErrorClass.InvalidConfiguration).

(** [config.rs: duration_millis] *)
Definition duration_millis (d : Z) : result ExecutorError Z :=
  if as_millis d <=? u64_max then Ok (as_millis d)
  else Err (executor_error ExecutorErrorClass.InvalidConfiguration).

Definition config_identity_sha256 (c : UploadExecutionConfig) : result ExecutorError string :=
  _ ← config_validate c;
  base ← duration_millis (retry_base_delay c);
  cap ← duration_millis (retry_delay_cap c);
  let identity := {|
    ci_scan_buffer_bytes := fsc_buffer_bytes (scan c);
    ci_max_entries := fsc_max_entries (scan c);
    ci_max_directory_entries := fsc_max_directory_entries (scan c);
    ci_max_path_bytes := fsc_max_path_bytes (scan c);
    ci_case_sensitive := fsc_case_sensitive (scan c);
    ci_verification_buffer_bytes := verification_buffer_bytes c;
    ci_concurrency := concurrency c;
    ci_max_attempts_per_operation := max_attempts_per_operation c;
    ci_max_retries_per_run := max_retries_per_run c;
    ci_retry_base_delay_ms := base;
    ci_retry_delay_cap_ms := cap |} in
  bytes ← ok_or (json_configuration identity) invariant_error;
  Ok (sha256_hex bytes).

(** [compact_sha256] of both planners *)
Definition compact_sha256 (plan : NormalizedPlan) : result ExecutorError string :=
  bytes ← ok_or (json_normalized_plan plan) invariant_error;
  Ok (sha256_hex bytes).

(** [upload_plan_sha256] and [migration_plan_sha256] of the client *)
Definition upload_plan_sha256 `{TimeLib} (plan : UploadPlan) : result ClientError string :=
  _ ← map_err (λ _, client_error ClientErrorClass.Compatibility) (Upload.validate plan);
  bytes ← ok_or (json_upload_plan plan) (client_error ClientErrorClass.Protocol);
  Ok (sha256_hex bytes).

Definition migration_plan_sha256 `{TimeLib} (plan : MigrationPlan) : result ClientError string :=
  _ ← fail_if (negb (mp_schema_version plan =? MIGRATION_PLAN_SCHEMA_VERSION))
        (client_error ClientErrorClass.Compatibility);
  _ ← map_err (λ _, client_error ClientErrorClass.Compatibility) (Migration.validate plan);
  bytes ← ok_or (json_migration_plan plan) (client_error ClientErrorClass.Protocol);
  Ok (sha256_hex bytes).

(** *** Production authorization *)

Record ProductionUploadAuthorization := {
  pua_plan_sha256 : string;
  pua_expected_operations : Z;
  pua_backup_reference_sha256 : string;
}.
Record ProductionImportAuthorization := {
  pia_plan_sha256 : string;
  pia_expected_mutations : Z;
  pia_backup_reference_sha256 : string;
}.

Definition is_ok_and {E A} (r : result E A) (f : A → bool) : bool :=
  match r with Ok a => f a | Err _ => false end.

Definition upload_matches_plan `{TimeLib} (auth : ProductionUploadAuthorization)
    (plan : UploadPlan) : bool :=
  is_ok_and (upload_plan_sha256 plan) (λ digest,
    String.eqb digest (pua_plan_sha256 auth)
    && (ups_operations (up_summary plan) =? pua_expected_operations auth)
    && (zlen (up_operations plan) =? pua_expected_operations auth)).

Definition import_matches_plan `{TimeLib} (auth : ProductionImportAuthorization)
    (plan : UploadPlan) : bool :=
  (up_schema_version plan =? UPLOAD_PLAN_SCHEMA_VERSION_V2)
  && is_ok_and (upload_plan_sha256 plan) (λ digest,
       String.eqb digest (pia_plan_sha256 auth)
       && (ups_max_mutations (up_summary plan) =? pia_expected_mutations auth)).
End config.

(** ** Retries *)

Record RetryBudget := { used : Z; maximum : Z }.

Definition new_budget (m : Z) : RetryBudget := {| used := 0; maximum := m |}.

(** [claim]: one atomic read-modify-write of the shared counter *)
Definition claim (b : RetryBudget) : bool * RetryBudget :=
  if used b <? maximum b then (true, {| used := sat_add32 (used b) 1; maximum := maximum b |})
  else (false, b).

(** Big-endian bytes of a [u32], and the value of big-endian bytes. *)
Definition be_bytes32 (n : Z) : string :=
  String.string_of_list_ascii
    (map (λ k, ascii_of_N (Z.to_N (Z.land (Z.shiftr n k) 255))) [24; 16; 8; 0]).
Definition from_be_bytes (l : list ascii) : Z := fold_left (λ acc a, acc * 256 + code a) l 0.

(** [retry.rs: duration_millis] *)
Definition duration_millis_or_max (d : Z) : Z := Z.min (as_millis d) u64_max.

Section delay.
  Context `{Codec}.

Definition delay (operation_id : string) (retry_count : Z) (error : ClientError)
    (config : UploadExecutionConfig) : Z :=
  match ce_retry_after error with
  | Some server_delay => Z.min server_delay (retry_delay_cap config)
  | None =>
    let exponent := Z.min (sat_sub32 retry_count 1) 20 in
    let factor := Z.shiftl 1 exponent in
    let exponential :=
      Z.min (duration_saturating_mul (retry_base_delay config) factor) (retry_delay_cap config) in
    let jitter_window := duration_millis_or_max (retry_base_delay config) / 4 in
    if jitter_window =? 0 then exponential
    else
      let digest := sha256 (operation_id +:+ be_bytes32 retry_count) in
      let prefix := take 8 (bytes digest) in
      let jitter := from_be_bytes prefix mod jitter_window in
      Z.min (duration_saturating_add exponential (from_millis jitter)) (retry_delay_cap config)
  end.
End delay.

(** ** Facts *)

Lemma code_range a : 0 <= code a < 256.
Proof. destruct a as [[] [] [] [] [] [] [] []]; vm_compute; split; congruence. Qed.

Lemma hex_digit_lower n : 0 <= n < 16 → is_lower_hex_byte (hex_digit n) = true.
Proof.
  intros Hn. assert (n ∈ seqZ 0 16) as Hin by (apply elem_of_seqZ; lia).
  revert Hin. change (seqZ 0 16) with [0;1;2;3;4;5;6;7;8;9;10;11;12;13;14;15].
  rewrite !elem_of_cons. intros Hd. clear Hn.
  destruct_or! Hd; subst; try done. by apply elem_of_nil in Hd.
Qed.

Lemma hex_length s : String.length (hex s) = (2 * String.length s)%nat.
Proof. induction s as [|a s IH]; cbn [hex String.length]; lia. Qed.

Lemma hex_lower s : forallb is_lower_hex_byte (bytes (hex s)) = true.
Proof.
  induction s as [|a s IH]; [done|]. cbn [hex String.list_ascii_of_string forallb].
  pose proof (code_range a).
  rewrite !hex_digit_lower, IH; [done|..].
  - apply Z.mod_pos_bound. lia.
  - split; [apply Z.div_pos; lia|apply Z.div_lt_upper_bound; lia].
Qed.

Lemma lower_hex_any a : is_lower_hex_byte a = true → is_ascii_hexdigit a = true.
Proof. rewrite <-lower_hexdigit. by intros [??]%andb_true_iff. Qed.

Lemma lower_hex_hex_any n s : lower_hex s n = true → hex_any_case n s = true.
Proof.
  rewrite lower_hex_bytes. unfold hex_any_case. rewrite !andb_true_iff, !forallb_true.
  intros [??]. split; [done|]. eapply Forall_impl; [done|]. apply lower_hex_any.
Qed.

Section facts.
  Context `{Codec, !CodecLaws}.

Lemma sha256_hex_lower s : lower_hex (sha256_hex s) 64 = true.
Proof.
  rewrite lower_hex_bytes. unfold sha256_hex. rewrite hex_lower, andb_true_r.
  unfold len. rewrite hex_length, sha256_length. reflexivity.
Qed.

Lemma sha256_hex_is_sha256 s : Upload.is_sha256 (sha256_hex s) = true.
Proof. apply lower_hex_hex_any, sha256_hex_lower. Qed.
End facts.

Section delay_facts.
  Context `{Codec}.

(** A wait between two attempts never exceeds the configured cap, whatever
    the server asks for, and is never negative. *)
Theorem delay_bounded op n e c :
  0 <= retry_base_delay c → 0 <= retry_delay_cap c → 0 <= n →
  (∀ d, ce_retry_after e = Some d → 0 <= d) →
  0 <= delay op n e c <= retry_delay_cap c.
Proof.
  intros Hb Hc Hn He. unfold delay. destruct (ce_retry_after e) as [d|].
  { specialize (He d eq_refl). lia. }
  assert (0 <= duration_saturating_mul (retry_base_delay c)
    (Z.shiftl 1 (Z.min (sat_sub32 n 1) 20))) as Hmul.
  { unfold duration_saturating_mul, DURATION_MAX, u64_max, NANOS_PER_SEC, sat_sub32.
    rewrite Z.shiftl_mul_pow2 by lia.
    assert (0 <= 2 ^ Z.min (Z.max (n - 1) 0) 20) by (apply Z.pow_nonneg; lia). nia. }
  destruct (Z.eqb_spec (duration_millis_or_max (retry_base_delay c) / 4) 0) as [|Hw]; [lia|].
  assert (0 < duration_millis_or_max (retry_base_delay c) / 4) as Hpos.
  { unfold duration_millis_or_max, as_millis, NANOS_PER_MILLI, u64_max in *.
    assert (0 <= retry_base_delay c / 1000000) by (apply Z.div_pos; lia).
    assert (0 <= Z.min (retry_base_delay c / 1000000) (2 ^ 64 - 1) / 4)
      by (apply Z.div_pos; lia). lia. }
  match goal with |- context [?x mod ?y] => pose proof (Z.mod_pos_bound x y Hpos) end.
  unfold duration_saturating_add, from_millis, NANOS_PER_MILLI, DURATION_MAX, u64_max,
    NANOS_PER_SEC. lia.
Qed.

(** Without a server hint, the wait before retry [n] is the base delay
    doubled [n - 1] times, up to the cap, plus a jitter of at most a quarter of
    the base delay; nothing saturates or overflows on the way. *)
Theorem delay_exponential op n e c :
  config_valid c = true → 1 <= n <= 21 → ce_retry_after e = None →
  let floor := Z.min (retry_base_delay c * 2 ^ (n - 1)) (retry_delay_cap c) in
  0 <= retry_base_delay c →
  floor <= delay op n e c <= floor + retry_base_delay c / 4.
Proof.
  intros Hv Hn He floor Hb. unfold config_valid in Hv. bools.
  unfold delay. rewrite He. unfold sat_sub32.
  rewrite Z.shiftl_mul_pow2, Z.mul_1_l by lia.
  replace (Z.min (Z.max (n - 1) 0) 20) with (n - 1) by lia.
  assert (1 <= 2 ^ (n - 1) <= 2 ^ 20) as Hpow.
  { split; [|apply Z.pow_le_mono_r; lia]. change 1 with (2 ^ 0) at 1. apply Z.pow_le_mono_r; lia. }
  assert (duration_saturating_mul (retry_base_delay c) (2 ^ (n - 1))
    = retry_base_delay c * 2 ^ (n - 1)) as ->.
  { unfold duration_saturating_mul, DURATION_MAX, u64_max, NANOS_PER_SEC, from_secs in *.
    unfold NANOS_PER_SEC in *. nia. }
  assert (floor <= retry_delay_cap c) by lia. fold floor.
  assert (0 <= retry_base_delay c / 4) by (apply Z.div_pos; lia).
  destruct (Z.eqb_spec (duration_millis_or_max (retry_base_delay c) / 4) 0) as [|Hw]; [lia|].
  assert (0 <= retry_base_delay c / 1000000) by (apply Z.div_pos; lia).
  assert (duration_millis_or_max (retry_base_delay c) = retry_base_delay c / 1000000) as Hms.
  { unfold duration_millis_or_max, as_millis, NANOS_PER_MILLI, from_secs, NANOS_PER_SEC, u64_max in *.
    assert (retry_base_delay c / 1000000 <= retry_base_delay c) by (apply Z.div_le_upper_bound; lia).
    lia. }
  rewrite Hms in *.
  assert (0 < retry_base_delay c / 1000000 / 4) as Hpos.
  { assert (0 <= retry_base_delay c / 1000000 / 4) by (apply Z.div_pos; lia). lia. }
  match goal with |- context [?x mod ?y] =>
    pose proof (Z.mod_pos_bound x y Hpos) as Hj; set (j := x mod y) in * end.
  assert (from_millis j <= retry_base_delay c / 4) as Hjit.
  { unfold from_millis, NANOS_PER_MILLI. apply Z.div_le_lower_bound; [lia|].
    assert (4 * (retry_base_delay c / 1000000 / 4) <= retry_base_delay c / 1000000)
      by (apply Z.mul_div_le; lia).
    assert (1000000 * (retry_base_delay c / 1000000) <= retry_base_delay c)
      by (apply Z.mul_div_le; lia). lia. }
  assert (0 <= from_millis j) by (unfold from_millis, NANOS_PER_MILLI; lia).
  assert (retry_base_delay c / 4 <= retry_base_delay c) by (apply Z.div_le_upper_bound; lia).
  unfold duration_saturating_add. assert (floor + from_millis j <= DURATION_MAX); [|lia].
  unfold DURATION_MAX, u64_max, NANOS_PER_SEC, from_secs, NANOS_PER_SEC in *. lia.
Qed.
End delay_facts.

(** The budget is one atomic counter, so every interleaving of the concurrent
    operations is a sequence of claims. *)
Fixpoint claims (n : nat) (b : RetryBudget) : list bool * RetryBudget :=
  match n with
  | O => ([], b)
  | S n => let '(granted, b) := claim b in let '(l, b) := claims n b in (granted :: l, b)
  end.

Lemma claims_count n b :
  0 <= used b <= maximum b → maximum b <= u32_max →
  let '(l, b') := claims n b in
  count Datatypes.id l = Z.min (Z.of_nat n) (maximum b - used b)
  ∧ used b' = used b + count Datatypes.id l ∧ maximum b' = maximum b.
Proof.
  revert b. induction n as [|n IH]; intros b Hu Hm; cbn [claims].
  { unfold count. simpl. unfold zlen. simpl. lia. }
  unfold claim. destruct (Z.ltb_spec (used b) (maximum b)) as [Hlt|Hge].
  - specialize (IH {| used := sat_add32 (used b) 1; maximum := maximum b |}). cbn [used maximum] in IH.
    unfold sat_add32 in *. destruct (claims n _) as [l b'].
    destruct IH as (Hc & Hb & Hmax); [lia..|]. unfold count in *. cbn [List.filter Datatypes.id].
    rewrite zlen_cons. lia.
  - specialize (IH b Hu Hm). destruct (claims n b) as [l b']. destruct IH as (Hc & Hb & Hmax).
    unfold count in *. cbn [List.filter Datatypes.id]. lia.
Qed.

(** However the operations of a run interleave, the shared budget grants
    exactly the configured number of retries and not one more. *)
Theorem retry_budget_exact n m :
  is_u32 m → count Datatypes.id (claims n (new_budget m)).1 = Z.min (Z.of_nat n) m.
Proof.
  intros [? ?]. pose proof (claims_count n (new_budget m)) as Hc.
  destruct (claims n (new_budget m)) as [l b']. simpl in *. lia.
Qed.

(** An authorization accepts a plan only when the plan is valid, its digest
    is the confirmed one and its size is the confirmed number of operations. *)
Theorem upload_matches_plan_iff `{Codec, TimeLib} auth plan :
  upload_matches_plan auth plan = true ↔
    upload_well_formed plan ∧
    (∃ bytes, json_upload_plan plan = Some bytes ∧ sha256_hex bytes = pua_plan_sha256 auth) ∧
    zlen (up_operations plan) = pua_expected_operations auth.
Proof.
  assert (upload_well_formed plan → ups_operations (up_summary plan) = zlen (up_operations plan))
    as Hlen by (intros []; by rewrite uwf_summary).
  rewrite <-upload_validate_Ok in *. unfold upload_matches_plan, upload_plan_sha256.
  destruct (Upload.validate plan) as [[]|e] eqn:Hv; simpl; [|naive_solver].
  destruct (json_upload_plan plan) as [b|] eqn:Hj; simpl; [|naive_solver].
  rewrite !andb_true_iff, String.eqb_eq, !Z.eqb_eq, Hlen by done. naive_solver.
Qed.

(** *** A concrete codec *)

(** Encodes the number of entries; its digests are padded to 32 bytes. *)
Definition pad32 (s : string) : string :=
  String.substring 0 32 (s +:+ "0123456789abcdef0123456789abcdef").
Definition sample_codec : Codec := {|
  json_normalized_plan p := Some (display_u64 (zlen (np_assets p)));
  json_upload_plan p := Some (display_u64 (zlen (up_operations p)));
  json_migration_plan p := Some (display_u64 (zlen (mp_assets p)));
  json_configuration c := Some (display_u64 (ci_concurrency c));
  sha256 := pad32;
  sha1_base64 s := s;
|}.

Lemma substring_length n s : (n <= String.length s)%nat → String.length (String.substring 0 n s) = n.
Proof.
  revert s. induction n as [|n IH]; intros [|a s]; simpl; try lia. intros Hn. rewrite IH; lia.
Qed.

#[export] Instance sample_codec_laws : CodecLaws (H := sample_codec).
Proof.
  split. intros s. apply substring_length. rewrite length_str_app.
  cbn [String.length]. lia.
Qed.

Lemma delay_bounded_witness :
  0 <= delay (H := sample_codec) sample_digest 40 (client_error ClientErrorClass.Timeout)
    default_config <= from_secs 10.
Proof.
  apply (delay_bounded (H := sample_codec)); try (vm_compute; congruence).
Defined.

Lemma delay_exponential_witness :
  from_millis 400 <= delay (H := sample_codec) sample_digest 3
    (client_error ClientErrorClass.Timeout) default_config <= from_millis 425.
Proof.
  apply (delay_exponential (H := sample_codec) _ 3 _ default_config); try reflexivity; vm_compute;
    (split; congruence) || congruence.
Defined.

Lemma retry_budget_exact_witness :
  count Datatypes.id (claims 7 (new_budget 3)).1 = 3.
Proof. apply (retry_budget_exact 7 3). split; vm_compute; congruence. Defined.
