(* ===== verification/ExecutionPlan.v ===== *)
(** * ExecutionPlan: from a migration plan to the upload plan that executes it
    ([crates/immich-executor/src/migration_execution_plan.rs])

    The conversion checks its own result, so it could fail on a valid plan.
    The theorem is that it never does: the migration schema is strong enough for
    every valid plan to become a valid upload plan. *)
From Stdlib Require Import Ascii.
From S2P Require Export Prelude Text Scan Metadata Planning Upload Migration Executor.

(** ** The conversion *)

(** [albums.entry(operation_id).or_default().push(name)] *)
Definition push_album (name : string) (albums : gmap string (list string)) (operation_id : string) :
    gmap string (list string) :=
  <[operation_id := default [] (albums !! operation_id) ++ [name]]> albums.

Definition collect_albums (l : list MigrationAlbum) : gmap string (list string) :=
  foldl (λ albums album, foldl (push_album (mal_name album)) albums (mal_member_operation_ids album))
    ∅ l.

(** One asset; [albums.remove(..)] takes the titles out of the map. *)
Definition convert_asset (asset : MigrationAsset) (titles : list string) : UploadOperation :=
  let metadata := default default_metadata (ma_normalized_metadata asset) in
  let metadata := {| description := description metadata; taken_at_utc := taken_at_utc metadata;
                     location := location metadata; albums := titles |} in
  {| uo_operation_id := ma_operation_id asset;
     uo_relative_path :=
       target_path_of (ma_source_asset_id asset) (ma_original_file_name asset);
     uo_media_kind := ma_media_kind asset;
     uo_byte_len := ma_byte_len asset;
     uo_content_sha256 := ma_content_sha256 asset;
     uo_created_at_unix_ms := ma_created_at_unix_ms asset;
     uo_modified_at_unix_ms := ma_modified_at_unix_ms asset;
     uo_xmp_sidecar := None;
     uo_normalized_metadata :=
       if bool_decide (metadata = default_metadata) then None else Some metadata;
     uo_role := ma_role asset |}.

Fixpoint convert_assets (assets : list MigrationAsset) (albums : gmap string (list string)) :
    list UploadOperation * gmap string (list string) :=
  match assets with
  | [] => ([], albums)
  | asset :: assets =>
    let operation := convert_asset asset (default [] (albums !! ma_operation_id asset)) in
    let '(operations, albums) := convert_assets assets (delete (ma_operation_id asset) albums) in
    (operation :: operations, albums)
  end.

Section execution_plan.
  Context `{Codec, TimeLib}.

Definition execution_plan (plan : MigrationPlan) : result ExecutorError UploadPlan :=
  _ ← map_err (λ _, invalid_plan) (Migration.validate plan);
  migration_sha256 ← map_err (λ _, invalid_plan) (migration_plan_sha256 plan);
  let '(operations, albums) :=
    convert_assets (mp_assets plan) (collect_albums (mp_albums plan)) in
  _ ← fail_if (negb (bool_decide (albums = ∅))) invalid_plan;
  let summary := from_operations UPLOAD_PLAN_SCHEMA_VERSION_V2 operations in
  let planned := mp_summary plan in
  _ ← fail_if (negb (ups_operations summary =? mps_assets planned)
               || negb (ups_media_bytes summary =? mps_media_bytes planned)
               || negb (ups_metadata_updates summary =? mps_metadata_updates planned)
               || negb (ups_album_creates summary =? mps_album_creates planned)
               || negb (ups_album_memberships summary =? mps_album_memberships planned)
               || negb (ups_max_mutations summary =? mps_max_mutations planned)) invalid_plan;
  let execution := {|
    up_schema_version := UPLOAD_PLAN_SCHEMA_VERSION_V2;
    up_normalized_plan_sha256 := migration_sha256;
    up_source := {| kind := Immich; label := "immich-migration";
                    fingerprint_sha256 := mp_source_fingerprint_sha256 plan;
                    case_sensitive := true; unicode_normalization := Nfc |};
    up_configuration_sha256 := mp_configuration_sha256 plan;
    up_server := ms_compatibility (mp_destination_server plan);
    up_operations := operations;
    up_summary := summary |} in
  _ ← map_err (λ _, invalid_plan) (Upload.validate execution);
  Ok execution.
End execution_plan.

(** ** Albums *)

(** The titles the albums give to an operation, in album order. *)
Definition titles_of (l : list MigrationAlbum) (operation_id : string) : list string :=
  map mal_name (List.filter (λ a, bool_decide (operation_id ∈ mal_member_operation_ids a)) l).

Lemma push_members_lookup name members albums op :
  NoDup members →
  default [] (foldl (push_album name) albums members !! op) =
    default [] (albums !! op) ++ (if bool_decide (op ∈ members) then [name] else []).
Proof.
  revert albums. induction members as [|m members IH]; intros albums Hnd; simpl.
  { by rewrite app_nil_r. }
  apply NoDup_cons in Hnd as [Hm Hnd]. rewrite IH by done. unfold push_album.
  destruct (decide (op = m)) as [->|Hne].
  - rewrite lookup_insert_eq. simpl.
    rewrite (bool_decide_eq_false_2 (m ∈ members)), (bool_decide_eq_true_2 (m ∈ m :: members))
      by set_solver. by rewrite app_nil_r.
  - rewrite lookup_insert_ne by done. f_equal.
    rewrite (bool_decide_ext (op ∈ members) (op ∈ m :: members)); [done|set_solver].
Qed.

Lemma push_members_dom name members albums :
  dom (foldl (push_album name) albums members) = dom albums ∪ list_to_set members.
Proof.
  revert albums. induction members as [|m members IH]; intros albums; simpl; [set_solver|].
  rewrite IH. unfold push_album. rewrite dom_insert_L. set_solver.
Qed.

Lemma collect_albums_lookup l op :
  Forall (λ a, NoDup (mal_member_operation_ids a)) l →
  default [] (collect_albums l !! op) = titles_of l op.
Proof.
  intros Hl. unfold collect_albums.
  assert (∀ m, default [] (foldl (λ albums album,
      foldl (push_album (mal_name album)) albums (mal_member_operation_ids album)) m l !! op)
    = default [] (m !! op) ++ titles_of l op) as H; [|by rewrite H, lookup_empty].
  induction Hl as [|a l Ha Hl IH]; intros m; simpl; [by rewrite app_nil_r|].
  rewrite IH, push_members_lookup by done. rewrite <-app_assoc. f_equal.
  unfold titles_of. simpl. by case_bool_decide.
Qed.

Lemma collect_albums_dom l :
  dom (collect_albums l) = list_to_set (List.flat_map mal_member_operation_ids l).
Proof.
  unfold collect_albums. assert (∀ m, dom (foldl (λ albums album,
      foldl (push_album (mal_name album)) albums (mal_member_operation_ids album)) m l)
    = dom m ∪ list_to_set (List.flat_map mal_member_operation_ids l)) as H.
  { induction l as [|a l IH]; intros m; simpl; [set_solver|].
    rewrite IH, push_members_dom, list_to_set_app_L. set_solver. }
  rewrite H. set_solver.
Qed.

(** With distinct identifiers every asset finds its own titles, and what is left
    belongs to no asset. *)
Lemma convert_assets_spec assets albums :
  NoDup (map ma_operation_id assets) →
  convert_assets assets albums =
    (map (λ a, convert_asset a (default [] (albums !! ma_operation_id a))) assets,
     filter (λ kv, kv.1 ∉ map ma_operation_id assets) albums).
Proof.
  revert albums. induction assets as [|a assets IH]; intros albums Hnd; simpl.
  { f_equal. symmetry. apply map_filter_id. intros ???. apply not_elem_of_nil. }
  apply NoDup_cons in Hnd as [Ha Hnd]. rewrite IH by done. f_equal.
  - f_equal. apply map_ext_in. intros b Hb%list_elem_of_In.
    rewrite lookup_delete_ne; [done|]. intros Heq. apply Ha. rewrite Heq. apply elem_of_map. by exists b.
  - apply map_eq. intros k. apply option_eq. intros v.
    rewrite !map_lookup_filter_Some, lookup_delete_Some. simpl.
    rewrite not_elem_of_cons. naive_solver.
Qed.

Lemma titles_of_mem l op t :
  t ∈ titles_of l op ↔ ∃ a, a ∈ l ∧ op ∈ mal_member_operation_ids a ∧ mal_name a = t.
Proof.
  unfold titles_of. rewrite elem_of_map. setoid_rewrite list_elem_of_In.
  setoid_rewrite filter_In. setoid_rewrite bool_decide_eq_true.
  setoid_rewrite <-list_elem_of_In. naive_solver.
Qed.

Section refinement.
  Context `{Codec, !CodecLaws, TimeLib}.
  Variable plan : MigrationPlan.
  Hypothesis Hwf : migration_well_formed plan.

Definition planned_operations : list UploadOperation :=
  map (λ a, convert_asset a (titles_of (mp_albums plan) (ma_operation_id a))) (mp_assets plan).

Lemma members_NoDup : Forall (λ a, NoDup (mal_member_operation_ids a)) (mp_albums plan).
Proof.
  eapply Forall_impl; [apply Hwf|]. intros a [_ _ Hs _].
  eapply StronglySorted_NoDup, Hs. apply _.
Qed.

Lemma album_known a op :
  a ∈ mp_albums plan → op ∈ mal_member_operation_ids a → op ∈ map ma_operation_id (mp_assets plan).
Proof.
  intros Ha. pose proof (mwf_albums _ Hwf) as Hall. rewrite Forall_forall in Hall. by apply Hall.
Qed.

Lemma convert_planned :
  convert_assets (mp_assets plan) (collect_albums (mp_albums plan)) = (planned_operations, ∅).
Proof.
  rewrite convert_assets_spec by apply Hwf. f_equal.
  - apply map_ext. intros a. by rewrite collect_albums_lookup by apply members_NoDup.
  - apply map_empty. intros k. apply map_lookup_filter_None. right. intros v Hk Hnot.
    simpl in Hnot. apply Hnot.
    apply elem_of_dom_2 in Hk. rewrite collect_albums_dom, elem_of_list_to_set in Hk.
    apply list_elem_of_In, in_flat_map in Hk as (a & Ha & Hk).
    eapply album_known; apply list_elem_of_In; eassumption.
Qed.

Lemma operation_albums_planned a :
  operation_albums (convert_asset a (titles_of (mp_albums plan) (ma_operation_id a)))
  = titles_of (mp_albums plan) (ma_operation_id a).
Proof.
  unfold operation_albums, convert_asset. simpl. case_bool_decide as Hd; [|done].
  by injection Hd as _ _ _ ->.
Qed.

(** Every album has a member, so every title is used. *)
Lemma album_set_planned :
  album_set planned_operations = list_to_set (map mal_name (mp_albums plan)).
Proof.
  apply set_eq. intros t. unfold album_set. rewrite !elem_of_list_to_set.
  rewrite (Prelude.elem_of_map mal_name). rewrite list_elem_of_In, in_flat_map.
  unfold planned_operations. setoid_rewrite <-list_elem_of_In. setoid_rewrite Prelude.elem_of_map.
  split.
  - intros (o & (a & -> & Ha) & Ht). rewrite operation_albums_planned in Ht.
    apply titles_of_mem in Ht as (b & ? & _ & <-). by exists b.
  - intros (b & -> & Hb). pose proof (mwf_albums _ Hwf) as Hall. rewrite Forall_forall in Hall.
    destruct (mal_member_operation_ids b) as [|op ops] eqn:Hops.
    { by destruct (albwf_members _ _ (Hall b Hb)). }
    destruct (proj1 (Prelude.elem_of_map ma_operation_id (mp_assets plan) op)) as (a & -> & Ha).
    { eapply album_known; [done|]. rewrite Hops. set_solver. }
    eexists. split; [by exists a|]. rewrite operation_albums_planned. apply titles_of_mem.
    exists b. rewrite Hops. set_solver.
Qed.

Lemma album_count_planned : set_len (album_set planned_operations) = zlen (mp_albums plan).
Proof.
  rewrite album_set_planned. unfold set_len, zlen. rewrite size_list_to_set.
  - by rewrite length_map.
  - eapply StronglySorted_NoDup; [|apply Hwf]. apply _.
Qed.

Lemma metadata_updates_planned :
  count (λ o, is_some_and (uo_normalized_metadata o) has_metadata) planned_operations
  = count (λ a, is_some_and (ma_normalized_metadata a) has_metadata) (mp_assets plan).
Proof.
  unfold planned_operations. rewrite count_map. apply count_ext, Forall_true. intros a. simpl.
  case_bool_decide as Hd; simpl.
  - injection Hd as Hd1 Hd2 Hd3 _.
    destruct (ma_normalized_metadata a) as [m|]; simpl in *; [|done].
    unfold has_metadata. by rewrite Hd1, Hd2, Hd3.
  - by destruct (ma_normalized_metadata a).
Qed.

(** The summary the upload schema derives is the one the migration plan states. *)
Lemma summary_planned :
  let s := expected_summary UPLOAD_PLAN_SCHEMA_VERSION_V2 planned_operations in
  let planned := mp_summary plan in
  ups_operations s = mps_assets planned ∧ ups_media_bytes s = mps_media_bytes planned
  ∧ ups_metadata_updates s = mps_metadata_updates planned
  ∧ ups_album_creates s = mps_album_creates planned
  ∧ ups_album_memberships s = mps_album_memberships planned
  ∧ ups_max_mutations s = mps_max_mutations planned.
Proof.
  rewrite (mwf_summary _ Hwf). unfold Upload.expected_summary, Migration.expected_summary. simpl.
  rewrite album_count_planned, metadata_updates_planned.
  unfold planned_operations. rewrite zlen_map, map_map. done.
Qed.

Lemma metadata_planned a m :
  a ∈ mp_assets plan →
  uo_normalized_metadata (convert_asset a (titles_of (mp_albums plan) (ma_operation_id a))) = Some m →
  is_valid m = true.
Proof.
  intros Ha. simpl. case_bool_decide as Hd; [done|]. intros [= <-].
  pose proof (mwf_assets _ Hwf) as Hall. rewrite Forall_forall in Hall. specialize (Hall a Ha).
  apply is_valid_iff. simpl. split_and!.
  - destruct (ma_normalized_metadata a) as [m|] eqn:Hm; [|done].
    destruct (mawf_metadata _ Hall m Hm) as [Hv _]. by apply is_valid_iff in Hv as [Hs _].
  - rewrite Forall_forall. intros t (b & Hb & _ & <-)%titles_of_mem.
    pose proof (mwf_albums _ Hwf) as Hal. rewrite Forall_forall in Hal. apply (Hal b Hb).
  - apply StronglySorted_map_filter, Hwf.
Qed.

Lemma uuid_v4_length v : uuid_v4 v = true → String.length v = 36%nat.
Proof. unfold uuid_v4. rewrite !andb_true_iff, Z.eqb_eq. unfold len. lia. Qed.

(** The targets keep the order of the identifiers, which all have one length. *)
Lemma paths_planned : StronglySorted str_lt (map uo_relative_path planned_operations).
Proof.
  unfold planned_operations. rewrite map_map. simpl.
  pose proof (mwf_sorted _ Hwf) as Hs. pose proof (mwf_assets _ Hwf) as Hall.
  induction (mp_assets plan) as [|a l IH]; simpl in *; [constructor|].
  apply Forall_cons in Hall as [Ha Hall]. inversion Hs as [|?? Hs' Hlt]; subst.
  constructor; [by apply IH|]. rewrite Forall_map in *. rewrite Forall_forall in *.
  intros b Hb. unfold target_path_of. apply str_lt_app_l.
  apply str_lt_app_r; [|by apply Hlt].
  rewrite !uuid_v4_length; [done|..]; [by apply Hall|apply Ha].
Qed.

Lemma operation_planned a :
  a ∈ mp_assets plan →
  operation_well_formed (convert_asset a (titles_of (mp_albums plan) (ma_operation_id a))).
Proof.
  intros Ha. pose proof (mwf_assets _ Hwf) as Hall. rewrite Forall_forall in Hall.
  destruct (Hall a Ha). split; try done.
  - by apply lower_hex_hex_any.
  - by apply lower_hex_hex_any.
  - intros m. by apply metadata_planned.
Qed.

Definition planned_execution (digest : string) : UploadPlan := {|
  up_schema_version := UPLOAD_PLAN_SCHEMA_VERSION_V2;
  up_normalized_plan_sha256 := digest;
  up_source := {| kind := Immich; label := "immich-migration";
                  fingerprint_sha256 := mp_source_fingerprint_sha256 plan;
                  case_sensitive := true; unicode_normalization := Nfc |};
  up_configuration_sha256 := mp_configuration_sha256 plan;
  up_server := ms_compatibility (mp_destination_server plan);
  up_operations := planned_operations;
  up_summary := expected_summary UPLOAD_PLAN_SCHEMA_VERSION_V2 planned_operations |}.

Lemma planned_execution_valid bytes : upload_well_formed (planned_execution (sha256_hex bytes)).
Proof.
  pose proof Hwf as []. split; simpl; try done.
  - by constructor.
  - apply sha256_hex_is_sha256.
  - by apply lower_hex_hex_any.
  - by apply lower_hex_hex_any.
  - apply lower_hex_hex_any. unfold server_valid in *. by bools.
  - unfold planned_operations. rewrite Forall_map, Forall_forall.
    intros a Ha. by apply operation_planned.
  - apply paths_planned.
  - unfold planned_operations. by rewrite map_map.
  - intros o pair vid (a & -> & Ha)%Prelude.elem_of_map Hr.
    destruct (mwf_dependencies a pair vid Ha Hr) as (v & Hv & Hid & Hvr).
    exists (convert_asset v (titles_of (mp_albums plan) (ma_operation_id v))).
    split; [apply Prelude.elem_of_map; by exists v|done].
Qed.

Lemma execution_plan_total bytes :
  json_migration_plan plan = Some bytes →
  execution_plan plan = Ok (planned_execution (sha256_hex bytes)).
Proof.
  intros Hj. unfold execution_plan, migration_plan_sha256.
  rewrite (proj2 (migration_validate_Ok plan) Hwf), (mwf_schema _ Hwf), Hj, convert_planned.
  rewrite bool_decide_eq_true_2 by done.
  cbn [mbind result_bind map_err fail_if ok_or negb Z.eqb MIGRATION_PLAN_SCHEMA_VERSION Pos.eqb].
  pose proof summary_planned as Hsum. pose proof (planned_execution_valid bytes) as Hval.
  apply upload_validate_Ok in Hval. unfold planned_execution in *. unfold from_operations.
  remember (expected_summary UPLOAD_PLAN_SCHEMA_VERSION_V2 planned_operations) as s eqn:Hs.
  destruct Hsum as (H1'&H2'&H3'&H4'&H5'&H6').
  rewrite (proj2 (Z.eqb_eq _ _) H1'), (proj2 (Z.eqb_eq _ _) H2'), (proj2 (Z.eqb_eq _ _) H3'),
    (proj2 (Z.eqb_eq _ _) H4'), (proj2 (Z.eqb_eq _ _) H5'), (proj2 (Z.eqb_eq _ _) H6').
  simpl. simpl in Hval. by rewrite Hval.
Qed.
End refinement.

(** Every valid migration plan whose plan can be serialised becomes a valid
    upload plan: the conversion cannot fail on it, its operations are the plan's
    assets in order, each with the titles of exactly the albums that list it,
    under a target that keeps the order of the identifiers, and the upload
    counters are those the migration plan authorised. *)
Theorem execution_plan_refines `{Codec, !CodecLaws, TimeLib} plan bytes :
  Migration.validate plan = Ok tt → json_migration_plan plan = Some bytes →
  ∃ execution, execution_plan plan = Ok execution ∧ Upload.validate execution = Ok tt
    ∧ up_operations execution =
        map (λ a, convert_asset a (titles_of (mp_albums plan) (ma_operation_id a))) (mp_assets plan)
    ∧ ups_max_mutations (up_summary execution) = mps_max_mutations (mp_summary plan).
Proof.
  intros Hv%migration_validate_Ok Hj. eexists. split_and!.
  - by apply execution_plan_total.
  - by apply upload_validate_Ok, planned_execution_valid.
  - done.
  - by apply summary_planned.
Qed.

Lemma execution_plan_refines_witness : ∃ execution,
  execution_plan (H := sample_codec) (H0 := sample_time) sample_migration_plan = Ok execution
  ∧ Upload.validate (H := sample_time) execution = Ok tt.
Proof.
  destruct (execution_plan_refines (H := sample_codec) (H1 := sample_time)
    sample_migration_plan "2") as (x & Hx & Hv & _); [vm_compute; reflexivity..|].
  exists x. split; [exact Hx|exact Hv].
Defined.
