(* ===== verification/Planner.v ===== *)
(** * Planner: from a resolved source scan to a server-bound upload plan
    ([crates/immich-executor/src/planner.rs], [import_planner.rs], and the file
    facts of [verify.rs])

    Both planners check their own result with [UploadPlan::validate]; the
    theorems say which operations the plan holds and that a valid, error-free
    scan whose pairs and sidecars are complete always yields a plan. *)
From Stdlib Require Import Ascii.
From S2P Require Export Prelude Text Scan Metadata Planning Upload Executor.

(** ** The resolved scan ([crates/immich-sources/src/lib.rs]) *)

Record ResolvedSourceFile := {
  rsf_native_path : string;
  rsf_archive_index : option Z;
  rsf_byte_len : Z;
  rsf_content_sha256 : string;
  rsf_content_sha1_base64 : string;
  rsf_created_at_unix_ms : option Z;
  rsf_modified_at_unix_ms : option Z;
}.

Record ResolvedFolderPlan := {
  rfp_plan : NormalizedPlan;
  rfp_files : gmap string ResolvedSourceFile;
}.

Definition source_file (resolved : ResolvedFolderPlan) (portable_path : string) :
    option ResolvedSourceFile :=
  rfp_files resolved !! portable_path.

(** ** File facts *)

(** [std::fs::Metadata]; times are nanoseconds from the Unix epoch, [None] when
    the platform has none. *)
Record FileMetadata := {
  fm_is_file : bool;
  fm_is_symlink : bool;
  fm_len : Z;
  fm_modified : option Z;
  fm_created : option Z;
}.

(** The part of the file system the executor reads: [fs::symlink_metadata],
    [File::open] and [Read::read] (an empty chunk is the end of the file). *)
Class FileSystem (W : Type) := {
  symlink_metadata : string → W → option FileMetadata * W;
  open_reader : string → W → bool * W;
  read_chunk : string → W → option string * W;
}.

Definition source_changed : ExecutorError := executor_error ExecutorErrorClass.SourceChanged.

(** [duration_since(UNIX_EPOCH)] fails before the epoch. *)
Definition unix_millis (value : Z) : result ExecutorError Z :=
  _ ← fail_if (value <? 0) source_changed;
  if as_millis value <? 2 ^ 63 then Ok (as_millis value) else Err source_changed.

Definition timestamps_of (metadata : FileMetadata) (expected_len : Z) :
    result ExecutorError (Z * Z) :=
  _ ← fail_if (negb (fm_is_file metadata) || fm_is_symlink metadata
               || negb (fm_len metadata =? expected_len)) source_changed;
  modified ← ok_or (fm_modified metadata) source_changed;
  let created := default modified (fm_created metadata) in
  created ← unix_millis created;
  modified ← unix_millis modified;
  Ok (created, modified).

Definition source_timestamps `{FileSystem W} (path : string) (expected_len : Z) :
    io W ExecutorError (Z * Z) := λ w,
  let '(metadata, w) := symlink_metadata path w in
  (metadata ← ok_or metadata source_changed; timestamps_of metadata expected_len, w).

(** ** Live photos *)

(** [live_video_operations]: the operation of each pair's video *)
Definition record_video (videos : gmap string string) (asset : CandidateAsset) :
    gmap string string :=
  match ca_live_photo asset with
  | Some member =>
    if bool_decide (role member = Live_Video)
    then <[pair_id member := ca_operation_id asset]> videos else videos
  | None => videos
  end.
Definition live_video_operations (resolved : ResolvedFolderPlan) : gmap string string :=
  foldl record_video ∅ (np_assets (rfp_plan resolved)).

Definition upload_role (asset : CandidateAsset) (videos : gmap string string) :
    result ExecutorError UploadRole :=
  match ca_live_photo asset with
  | None => Ok Standalone
  | Some member =>
    match role member with
    | Live_Video => Ok (LivePhotoVideo (pair_id member))
    | Live_Image =>
      video_operation_id ← ok_or (videos !! pair_id member) invalid_plan;
      Ok (LivePhotoImage (pair_id member) video_operation_id)
    end
  end.

(** ** Sidecars *)

Definition unsupported_metadata : ExecutorError :=
  executor_error ExecutorErrorClass.UnsupportedMetadata.

Definition is_json (m : MetadataCandidate) : bool := bool_decide (mc_kind m = Meta_Json).
Definition is_xmp (m : MetadataCandidate) : bool := bool_decide (mc_kind m = Meta_Xmp).

Definition sidecar_for (resolved : ResolvedFolderPlan) (metadata : MetadataCandidate) :
    result ExecutorError (option UploadSidecar) :=
  source ← ok_or (source_file resolved (mc_relative_path metadata)) invariant_error;
  Ok (Some {| us_relative_path := mc_relative_path metadata;
              us_byte_len := rsf_byte_len source;
              us_content_sha256 := rsf_content_sha256 source |}).

(** [planner.rs]: at most one sidecar, and not JSON *)
Definition plan_sidecar (resolved : ResolvedFolderPlan) (asset : CandidateAsset) :
    result ExecutorError (option UploadSidecar) :=
  _ ← fail_if ((1 <? zlen (ca_metadata asset)) || existsb is_json (ca_metadata asset))
        unsupported_metadata;
  match ca_metadata asset with
  | metadata :: _ => sidecar_for resolved metadata
  | [] => Ok None
  end.

(** [import_planner.rs]: at most one XMP sidecar *)
Definition xmp_sidecar (resolved : ResolvedFolderPlan) (asset : CandidateAsset) :
    result ExecutorError (option UploadSidecar) :=
  match List.filter is_xmp (ca_metadata asset) with
  | [metadata] => sidecar_for resolved metadata
  | [] => Ok None
  | _ => Err unsupported_metadata
  end.

(** ** The folder planner *)

(** [summarize] of [planner.rs] *)
Definition summarize (operations : list UploadOperation) : UploadPlanSummary := {|
  ups_operations := zlen operations;
  ups_media_bytes := sum_u64 (map uo_byte_len operations);
  ups_xmp_sidecars := count (λ o, is_some (uo_xmp_sidecar o)) operations;
  ups_live_photo_pairs := count (λ o, is_image (uo_role o)) operations;
  ups_metadata_updates := 0; ups_album_creates := 0; ups_album_memberships := 0;
  ups_max_mutations := 0 |}.

Section planner.
  Context {W : Type} `{FileSystem W, Codec, TimeLib}.

Definition supported_server (server : ServerCompatibility) : bool :=
  (major (version server) =? 3) && (minor (version server) =? 1).

(** [source_for] *)
Definition source_for (resolved : ResolvedFolderPlan) (path : string) (byte_len : Z)
    (content_sha256 : string) : result ExecutorError ResolvedSourceFile :=
  source ← ok_or (source_file resolved path) invariant_error;
  _ ← fail_if (negb (rsf_byte_len source =? byte_len)
               || negb (String.eqb (rsf_content_sha256 source) content_sha256)) invariant_error;
  Ok source.

(** One iteration of the loop of [create_upload_plan]. *)
Definition plan_operation (resolved : ResolvedFolderPlan) (videos : gmap string string)
    (asset : CandidateAsset) : io W ExecutorError UploadOperation :=
  source ← lift (source_for resolved (ca_relative_path asset) (ca_byte_len asset)
                   (ca_content_sha256 asset));
  '(created_at_unix_ms, modified_at_unix_ms) ←
    source_timestamps (rsf_native_path source) (ca_byte_len asset);
  xmp_sidecar ← lift (plan_sidecar resolved asset);
  role ← lift (upload_role asset videos);
  mret {| uo_operation_id := ca_operation_id asset;
          uo_relative_path := ca_relative_path asset;
          uo_media_kind := ca_media_kind asset;
          uo_byte_len := ca_byte_len asset;
          uo_content_sha256 := ca_content_sha256 asset;
          uo_created_at_unix_ms := created_at_unix_ms;
          uo_modified_at_unix_ms := modified_at_unix_ms;
          uo_xmp_sidecar := xmp_sidecar;
          uo_normalized_metadata := None;
          uo_role := role |}.

Fixpoint plan_operations (resolved : ResolvedFolderPlan) (videos : gmap string string)
    (assets : list CandidateAsset) : io W ExecutorError (list UploadOperation) :=
  match assets with
  | [] => mret []
  | asset :: assets =>
    operation ← plan_operation resolved videos asset;
    operations ← plan_operations resolved videos assets;
    mret (operation :: operations)
  end.

Definition create_upload_plan (resolved : ResolvedFolderPlan) (server : ServerCompatibility)
    (config : UploadExecutionConfig) : io W ExecutorError UploadPlan :=
  _ ← lift (config_validate config);
  _ ← lift (map_err (λ _, invalid_plan) (Planning.validate (rfp_plan resolved)));
  _ ← lift (fail_if (negb (bool_decide (np_errors (rfp_plan resolved) = [])))
              (executor_error ExecutorErrorClass.SourceDiagnostics));
  _ ← lift (fail_if (negb (supported_server server)) invalid_plan);
  operations ← plan_operations resolved (live_video_operations resolved)
    (np_assets (rfp_plan resolved));
  normalized_plan_sha256 ← lift (compact_sha256 (rfp_plan resolved));
  configuration_sha256 ← lift (config_identity_sha256 config);
  let plan := {|
    up_schema_version := UPLOAD_PLAN_SCHEMA_VERSION;
    up_normalized_plan_sha256 := normalized_plan_sha256;
    up_source := np_source (rfp_plan resolved);
    up_configuration_sha256 := configuration_sha256;
    up_server := server;
    up_operations := operations;
    up_summary := summarize operations |} in
  _ ← lift (map_err (λ _, invalid_plan) (Upload.validate plan));
  mret plan.

(** ** The import planner *)

(** The trait [ImportConfig]. *)
Class ImportConfig (C : Type) := {
  validate_import : C → result ExecutorError unit;
  source_kind : C → SourceKind;
  identity : C → result ExecutorError string;
}.

Definition FALLBACK_TIMESTAMP_UNIX_MS : Z := 0.

(** [i64::try_from(nanos / 1_000_000)]: the division truncates towards zero. *)
Definition i64_millis (nanos : Z) : result ExecutorError Z :=
  let millis := Z.quot nanos 1000000 in
  if (- 2 ^ 63 <=? millis) && (millis <? 2 ^ 63) then Ok millis else Err invalid_plan.

Definition import_timestamps (asset : CandidateAsset) (source : ResolvedSourceFile)
    (source_kind : SourceKind) : result ExecutorError (Z * Z) :=
  match ca_normalized_metadata asset ≫= taken_at_utc with
  | Some value =>
    instant ← ok_or (parse_rfc3339 value) invalid_plan;
    millis ← i64_millis (unix_timestamp_nanos instant);
    Ok (millis, millis)
  | None =>
    match source_kind with
    | ApplePhotos | Picasa =>
      let created := default FALLBACK_TIMESTAMP_UNIX_MS
        (match rsf_created_at_unix_ms source with
         | Some c => Some c | None => rsf_modified_at_unix_ms source end) in
      let modified := default created (rsf_modified_at_unix_ms source) in
      Ok (created, modified)
    | _ => Ok (FALLBACK_TIMESTAMP_UNIX_MS, FALLBACK_TIMESTAMP_UNIX_MS)
    end
  end.

Definition import_operation (resolved : ResolvedFolderPlan) (videos : gmap string string)
    (kind : SourceKind) (asset : CandidateAsset) : result ExecutorError UploadOperation :=
  source ← source_for resolved (ca_relative_path asset) (ca_byte_len asset)
             (ca_content_sha256 asset);
  timestamps ← import_timestamps asset source kind;
  xmp_sidecar ← xmp_sidecar resolved asset;
  role ← upload_role asset videos;
  Ok {| uo_operation_id := ca_operation_id asset;
        uo_relative_path := ca_relative_path asset;
        uo_media_kind := ca_media_kind asset;
        uo_byte_len := ca_byte_len asset;
        uo_content_sha256 := ca_content_sha256 asset;
        uo_created_at_unix_ms := timestamps.1;
        uo_modified_at_unix_ms := timestamps.2;
        uo_xmp_sidecar := xmp_sidecar;
        uo_normalized_metadata := ca_normalized_metadata asset;
        uo_role := role |}.

Definition create_import_upload_plan `{ImportConfig C} (resolved : ResolvedFolderPlan)
    (server : ServerCompatibility) (config : C) : result ExecutorError UploadPlan :=
  _ ← validate_import config;
  _ ← map_err (λ _, invalid_plan) (Planning.validate (rfp_plan resolved));
  _ ← fail_if (negb (bool_decide (np_errors (rfp_plan resolved) = []))
               || negb (bool_decide (kind (np_source (rfp_plan resolved)) = source_kind config))
               || negb (supported_server server)) invalid_plan;
  operations ← try_map
    (import_operation resolved (live_video_operations resolved) (source_kind config))
    (np_assets (rfp_plan resolved));
  normalized_plan_sha256 ← compact_sha256 (rfp_plan resolved);
  configuration_sha256 ← identity config;
  let plan := {|
    up_schema_version := UPLOAD_PLAN_SCHEMA_VERSION_V2;
    up_normalized_plan_sha256 := normalized_plan_sha256;
    up_source := np_source (rfp_plan resolved);
    up_configuration_sha256 := configuration_sha256;
    up_server := server;
    up_operations := operations;
    up_summary := from_operations UPLOAD_PLAN_SCHEMA_VERSION_V2 operations |} in
  _ ← map_err (λ _, invalid_plan) (Upload.validate plan);
  Ok plan.
End planner.

(** ** Live-photo links *)

Section live_videos.
  Variable resolved : ResolvedFolderPlan.
  Notation assets := (np_assets (rfp_plan resolved)).

Definition is_video_of (pair : string) (a : CandidateAsset) : Prop :=
  ∃ m, ca_live_photo a = Some m ∧ role m = Live_Video ∧ pair_id m = pair.

Lemma live_video_operations_Some pair op :
  live_video_operations resolved !! pair = Some op →
  ∃ a, a ∈ assets ∧ is_video_of pair a ∧ ca_operation_id a = op.
Proof.
  unfold live_video_operations.
  assert (∀ l m, foldl record_video m l !! pair = Some op →
    m !! pair = Some op ∨ ∃ a, a ∈ l ∧ is_video_of pair a ∧ ca_operation_id a = op) as H.
  { induction l as [|a l IH]; intros m; simpl; [by left|]. unfold record_video.
    intros [Hm|(b & ? & ?)]%IH; [|right; exists b; set_solver].
    destruct (ca_live_photo a) as [mem|] eqn:Ha; [|by left].
    case_bool_decide as Hr; [|by left].
    apply lookup_insert_Some in Hm as [[Hp Ho]|[_ Hm]]; [right|by left].
    exists a. split; [set_solver|]. split; [|done]. by exists mem. }
  intros [Hm|?]%H; [|done]. by rewrite lookup_empty in Hm.
Qed.

Lemma live_video_operations_is_Some pair a :
  a ∈ assets → is_video_of pair a → is_Some (live_video_operations resolved !! pair).
Proof.
  unfold live_video_operations. intros Hin (m & Hm & Hr & <-).
  assert (∀ l ms, (a ∈ l ∨ is_Some (ms !! pair_id m)) →
    is_Some (foldl record_video ms l !! pair_id m)) as H; [|apply H; by left].
  induction l as [|b l IH]; intros ms Hl; simpl; [set_solver|]. apply IH. unfold record_video.
  destruct Hl as [[->|?]%elem_of_cons|Hs]; [right|by left|right].
  - rewrite Hm, bool_decide_eq_true_2 by done. rewrite lookup_insert_eq. by eexists.
  - destruct (ca_live_photo b) as [mb|]; [|done]. case_bool_decide; [|done].
    destruct (decide (pair_id mb = pair_id m)) as [->|]; [rewrite lookup_insert_eq; by eexists|].
    by rewrite lookup_insert_ne.
Qed.
End live_videos.

(** What an operation keeps of its asset, whichever planner made it. *)
Record operation_of (resolved : ResolvedFolderPlan) (a : CandidateAsset) (o : UploadOperation) :
    Prop := {
  oo_id : uo_operation_id o = ca_operation_id a;
  oo_path : uo_relative_path o = ca_relative_path a;
  oo_kind : uo_media_kind o = ca_media_kind a;
  oo_len : uo_byte_len o = ca_byte_len a;
  oo_content : uo_content_sha256 o = ca_content_sha256 a;
  oo_role : upload_role a (live_video_operations resolved) = Ok (uo_role o);
  oo_file : ∃ f, source_file resolved (ca_relative_path a) = Some f
    ∧ rsf_byte_len f = ca_byte_len a ∧ rsf_content_sha256 f = ca_content_sha256 a;
}.

Lemma source_for_Ok resolved path n sha f :
  source_for resolved path n sha = Ok f ↔
    source_file resolved path = Some f ∧ rsf_byte_len f = n ∧ rsf_content_sha256 f = sha.
Proof.
  unfold source_for. split.
  - intros Hs. result_inv. rewrite orb_false_iff, !negb_false_iff, Z.eqb_eq, String.eqb_eq in *.
    naive_solver.
  - intros (-> & <- & <-). simpl. by rewrite Z.eqb_refl, String.eqb_refl.
Qed.

Section planner_theorems.
  Context {W : Type} `{FileSystem W, Codec, TimeLib}.

Lemma import_operation_Ok resolved kind a o :
  import_operation resolved (live_video_operations resolved) kind a = Ok o →
  operation_of resolved a o ∧ uo_normalized_metadata o = ca_normalized_metadata a.
Proof.
  unfold import_operation. intros Ho. result_inv.
  match goal with H : source_for _ _ _ _ = Ok _ |- _ => apply source_for_Ok in H end.
  split; [|done]. split; simpl; try done. by eexists.
Qed.

Lemma plan_operation_Ok resolved a w o w' :
  plan_operation resolved (live_video_operations resolved) a w = (Ok o, w') →
  operation_of resolved a o ∧ uo_normalized_metadata o = None.
Proof.
  unfold plan_operation.
  intros (f&?&[Hf%source_for_Ok _]%lift_Ok&([created modified]&?&_&(sc&?&_&(r&?&[Hr _]%lift_Ok&
    [= <- _])%io_bind_Ok)%io_bind_Ok)%io_bind_Ok)%io_bind_Ok.
  split; [|done]. split; simpl; try done. by exists f.
Qed.

Lemma plan_operations_Ok resolved l w os w' :
  plan_operations resolved (live_video_operations resolved) l w = (Ok os, w') →
  Forall2 (λ a o, operation_of resolved a o ∧ uo_normalized_metadata o = None) l os.
Proof.
  revert w os w'. induction l as [|a l IH]; intros w os w'; simpl; [intros [= <- _]; constructor|].
  intros (o&?&Ho%plan_operation_Ok&(os'&?&Hos%IH&[= <- _])%io_bind_Ok)%io_bind_Ok.
  by constructor.
Qed.

(** A folder plan, once created, is well formed and holds exactly one
    operation for each asset of the scan, in order, with the identity, length,
    digest and live-photo link of its asset, confirmed by the file the scan
    resolved; it is bound to the scan and to the configuration by digest. *)
Theorem create_upload_plan_sound resolved server config w p w' :
  create_upload_plan resolved server config w = (Ok p, w') →
  upload_well_formed p ∧ up_server p = server
  ∧ Forall2 (λ a o, operation_of resolved a o ∧ uo_normalized_metadata o = None)
      (np_assets (rfp_plan resolved)) (up_operations p)
  ∧ compact_sha256 (rfp_plan resolved) = Ok (up_normalized_plan_sha256 p)
  ∧ config_identity_sha256 config = Ok (up_configuration_sha256 p)
  ∧ np_errors (rfp_plan resolved) = [].
Proof.
  unfold create_upload_plan.
  intros (?&?&_&([]&?&_&([]&?&[Herr _]%lift_Ok&([]&?&_&(os&?&Hos%plan_operations_Ok&
    (d&?&[Hd _]%lift_Ok&(c&?&[Hc _]%lift_Ok&([]&?&[Hv _]%lift_Ok&[= <- _])%io_bind_Ok)
    %io_bind_Ok)%io_bind_Ok)%io_bind_Ok)%io_bind_Ok)%io_bind_Ok)%io_bind_Ok)%io_bind_Ok.
  result_inv. rewrite negb_false_iff, bool_decide_eq_true in *.
  split_and!; try done. by apply upload_validate_Ok.
Qed.

(** The same for an import plan, whose operations also keep the metadata of
    their assets. *)
Theorem create_import_upload_plan_sound `{ImportConfig C} resolved server (config : C) p :
  create_import_upload_plan resolved server config = Ok p →
  upload_well_formed p ∧ up_server p = server
  ∧ Forall2 (λ a o, operation_of resolved a o
      ∧ uo_normalized_metadata o = ca_normalized_metadata a)
      (np_assets (rfp_plan resolved)) (up_operations p)
  ∧ compact_sha256 (rfp_plan resolved) = Ok (up_normalized_plan_sha256 p)
  ∧ identity config = Ok (up_configuration_sha256 p)
  ∧ np_errors (rfp_plan resolved) = [].
Proof.
  unfold create_import_upload_plan. intros Hp. result_inv.
  rewrite !orb_false_iff, !negb_false_iff, !bool_decide_eq_true in *. destruct_and?.
  match goal with H : try_map _ _ = Ok _ |- _ => apply try_map_Ok in H end.
  split_and!; try done; [by apply upload_validate_Ok; destruct x4|].
  eapply Forall2_impl; [done|]. intros a o. by apply import_operation_Ok.
Qed.
End planner_theorems.

(** ** Completeness *)

(** A scan an import can use: every asset has its resolved file, at most one XMP
    sidecar that was resolved too, a readable capture time, and, when it is the
    image of a live photo, a video in the same pair. *)
Record asset_ready `{TimeLib} (resolved : ResolvedFolderPlan) (a : CandidateAsset) : Prop := {
  ar_id : Upload.is_sha256 (ca_operation_id a) = true;
  ar_content : Upload.is_sha256 (ca_content_sha256 a) = true;
  ar_len : ca_byte_len a ≠ 0;
  ar_file : ∃ f, source_file resolved (ca_relative_path a) = Some f
    ∧ rsf_byte_len f = ca_byte_len a ∧ rsf_content_sha256 f = ca_content_sha256 a;
  ar_sidecar : List.filter is_xmp (ca_metadata a) = [] ∨
    ∃ m f, List.filter is_xmp (ca_metadata a) = [m] ∧ mc_relative_path m ≠ ""
      ∧ source_file resolved (mc_relative_path m) = Some f
      ∧ rsf_byte_len f ≠ 0 ∧ Upload.is_sha256 (rsf_content_sha256 f) = true;
  ar_time : ∀ value, ca_normalized_metadata a ≫= taken_at_utc = Some value →
    ∃ i, parse_rfc3339 value = Some i
      ∧ - 2 ^ 63 <= Z.quot (unix_timestamp_nanos i) 1000000 < 2 ^ 63;
  ar_pair : ∀ m, ca_live_photo a = Some m → role m = Live_Image →
    ∃ v, v ∈ np_assets (rfp_plan resolved) ∧ is_video_of (pair_id m) v;
}.

Section completeness.
  Context `{Codec, !CodecLaws, TimeLib} {C : Type} `{ImportConfig C}.
  Variables (resolved : ResolvedFolderPlan) (server : ServerCompatibility) (config : C).
  Notation plan := (rfp_plan resolved).
  Notation videos := (live_video_operations resolved).

Lemma import_timestamps_total a f k :
  asset_ready resolved a → ∃ ts, import_timestamps a f k = Ok ts.
Proof.
  intros Ha. unfold import_timestamps.
  destruct (ca_normalized_metadata a ≫= taken_at_utc) as [value|] eqn:Ht.
  - destruct (ar_time _ _ Ha value Ht) as (i & -> & ?). simpl. unfold i64_millis.
    rewrite (proj2 (Z.leb_le _ _)), (proj2 (Z.ltb_lt _ _)) by lia. simpl. by eexists.
  - destruct k; by eexists.
Qed.

Lemma upload_role_total a :
  asset_ready resolved a → ∃ r, upload_role a videos = Ok r.
Proof.
  intros Ha. unfold upload_role. destruct (ca_live_photo a) as [m|] eqn:Hm; [|by eexists].
  destruct (role m) eqn:Hr; [|by eexists].
  destruct (ar_pair _ _ Ha m Hm Hr) as (v & Hv & Hpair).
  destruct (live_video_operations_is_Some resolved _ v Hv Hpair) as [op Hop].
  rewrite Hop. simpl. by eexists.
Qed.

Lemma xmp_sidecar_total a :
  asset_ready resolved a → ∃ sc, xmp_sidecar resolved a = Ok sc
    ∧ ∀ s, sc = Some s → sidecar_well_formed s.
Proof.
  intros Ha. unfold xmp_sidecar.
  destruct (ar_sidecar _ _ Ha) as [->|(m & f & -> & ? & Hf & ? & ?)]; [by exists None|].
  unfold sidecar_for. rewrite Hf. simpl. eexists. split; [done|]. intros s [= <-]. by split.
Qed.

Lemma import_operation_total a :
  asset_ready resolved a → a ∈ np_assets plan → plan_well_formed plan →
  ∃ o, import_operation resolved videos (source_kind config) a = Ok o
    ∧ operation_well_formed o.
Proof.
  intros Ha Hin Hwf. destruct (ar_file _ _ Ha) as (f & Hf & Hl & Hc).
  destruct (import_timestamps_total a f (source_kind config) Ha) as [ts Hts].
  destruct (xmp_sidecar_total a Ha) as (sc & Hsc & Hscwf).
  destruct (upload_role_total a Ha) as [r Hr].
  unfold import_operation. rewrite (proj2 (source_for_Ok _ _ _ _ f)) by done. simpl.
  rewrite Hts. simpl. rewrite Hsc. simpl. rewrite Hr. simpl.
  eexists. split; [done|]. destruct Ha.
  pose proof (pwf_assets _ Hwf) as Hall. rewrite Forall_forall in Hall.
  destruct (Hall a Hin). by split.
Qed.

Lemma operations_total :
  Forall (asset_ready resolved) (np_assets plan) → plan_well_formed plan →
  ∃ os, try_map (import_operation resolved videos (source_kind config)) (np_assets plan) = Ok os
    ∧ Forall operation_well_formed os.
Proof.
  intros Hready Hwf. setoid_rewrite try_map_Ok.
  assert (∀ l, (∀ a, a ∈ l → a ∈ np_assets plan) → Forall (asset_ready resolved) l →
    ∃ os, Forall2 (λ a o, import_operation resolved videos (source_kind config) a = Ok o) l os
      ∧ Forall operation_well_formed os) as H3; [|by apply H3].
  intros l Hl. induction 1 as [|a l Ha Hr IH]; [by exists []|].
  destruct IH as (os & ? & ?); [set_solver|].
  destruct (import_operation_total a Ha) as (o & ? & ?); [set_solver|done|].
  exists (o :: os). split; by constructor.
Qed.

Lemma operations_dependencies os :
  Forall2 (λ a o, operation_of resolved a o ∧ uo_normalized_metadata o = ca_normalized_metadata a)
    (np_assets plan) os →
  dependencies_met os.
Proof.
  intros Hos o pair vid Ho Hr.
  destruct (list_elem_of_lookup_1 _ _ Ho) as [i Hi].
  destruct (Forall2_lookup_r _ _ _ _ _ Hos Hi) as (a & Ha & [Hoa _]).
  pose proof (oo_role _ _ _ Hoa) as Hrole. rewrite Hr in Hrole. unfold upload_role in Hrole.
  destruct (ca_live_photo a) as [m|]; [|done]. destruct (role m); [|done]. result_inv.
  match goal with H : live_video_operations _ !! _ = Some _ |- _ =>
    apply live_video_operations_Some in H as (v & Hv & (mv & Hmv & Hrv & Hpv) & <-) end.
  destruct (list_elem_of_lookup_1 _ _ Hv) as [j Hj].
  destruct (Forall2_lookup_l _ _ _ _ _ Hos Hj) as (ov & Hov & [Hoov _]).
  exists ov. split; [by eapply list_elem_of_lookup_2|]. split; [apply Hoov|].
  pose proof (oo_role _ _ _ Hoov) as Hvr. unfold upload_role in Hvr. rewrite Hmv, Hrv in Hvr.
  injection Hvr as <-. by f_equal.
Qed.

Lemma operations_map {B} (f : CandidateAsset → B) (g : UploadOperation → B) os :
  (∀ a o, operation_of resolved a o → g o = f a) →
  Forall2 (λ a o, operation_of resolved a o ∧ uo_normalized_metadata o = ca_normalized_metadata a)
    (np_assets plan) os → map g os = map f (np_assets plan).
Proof. intros Hfg. induction 1 as [|a o l os [Ho _] _ IH]; simpl; [done|]. by rewrite IH, (Hfg a o). Qed.

Lemma import_plan_complete d :
  validate_import config = Ok tt → identity config = Ok d → Upload.is_sha256 d = true →
  is_Some (json_normalized_plan plan) →
  plan_well_formed plan → np_errors plan = [] → kind (np_source plan) = source_kind config →
  source_kind config ≠ Folder → Upload.is_sha256 (fingerprint_sha256 (np_source plan)) = true →
  supported_server server = true → Upload.is_sha256 (identity_sha256 server) = true →
  Forall (asset_ready resolved) (np_assets plan) →
  ∃ p, create_import_upload_plan resolved server config = Ok p.
Proof.
  intros Hc Hid Hd [b Hj] Hwf Herr Hk Hnf Hfp Hs Hsid Hready.
  destruct (operations_total Hready Hwf) as (os & Hos & Howf).
  unfold create_import_upload_plan. rewrite Hc. simpl.
  rewrite (proj2 (normalized_validate_Ok plan) Hwf). simpl.
  rewrite Herr, Hs, !bool_decide_eq_true_2 by done. simpl. rewrite Hos. simpl.
  unfold compact_sha256. rewrite Hj. simpl. rewrite Hid. simpl.
  apply try_map_Ok in Hos.
  assert (Forall2 (λ a o, operation_of resolved a o
    ∧ uo_normalized_metadata o = ca_normalized_metadata a) (np_assets plan) os) as Hof.
  { eapply Forall2_impl; [done|]. intros a o. by apply import_operation_Ok. }
  match goal with |- context [Upload.validate ?p] =>
    rewrite (proj2 (upload_validate_Ok p)); [by eexists|] end.
  split; simpl; try done.
  - constructor. congruence.
  - apply sha256_hex_is_sha256.
  - rewrite (operations_map ca_relative_path); [apply Hwf|by intros ?? []|done].
  - rewrite (operations_map ca_operation_id); [apply Hwf|by intros ?? []|done].
  - by apply operations_dependencies.
Qed.
End completeness.

(** Planning an import succeeds on every valid, error-free scan of the
    configured source whose assets are ready, for every supported server: no
    internal check of the planner can reject it. *)
Theorem create_import_upload_plan_complete `{Codec, !CodecLaws, TimeLib, ImportConfig C}
    resolved server (config : C) d :
  validate_import config = Ok tt → identity config = Ok d → Upload.is_sha256 d = true →
  is_Some (json_normalized_plan (rfp_plan resolved)) →
  plan_well_formed (rfp_plan resolved) → np_errors (rfp_plan resolved) = [] →
  kind (np_source (rfp_plan resolved)) = source_kind config → source_kind config ≠ Folder →
  Upload.is_sha256 (fingerprint_sha256 (np_source (rfp_plan resolved))) = true →
  supported_server server = true → Upload.is_sha256 (identity_sha256 server) = true →
  Forall (asset_ready resolved) (np_assets (rfp_plan resolved)) →
  ∃ p, create_import_upload_plan resolved server config = Ok p.
Proof. apply import_plan_complete. Qed.

(** *** A concrete scan *)

Definition sample_resolved_file (content : string) : ResolvedSourceFile := {|
  rsf_native_path := "/photos/file"; rsf_archive_index := None; rsf_byte_len := 1;
  rsf_content_sha256 := content; rsf_content_sha1_base64 := "2jmj7l5rSw0yVb/vlWAYkK/YBwk=";
  rsf_created_at_unix_ms := None; rsf_modified_at_unix_ms := None |}.

Definition sample_member (path operation : string) (m : option NormalizedMetadata)
    (r : LivePhotoRole) : CandidateAsset := {|
  ca_operation_id := operation; ca_relative_path := path; ca_media_kind := Media_Image;
  ca_byte_len := 1; ca_content_sha256 := sample_digest; ca_metadata := [];
  ca_normalized_metadata := m; ca_live_photo := Some {| pair_id := "p"; role := r |};
  ca_evidence := [{| re_rule_id := "SRC-TAKEOUT-001"; outcome := "accepted" |}] |}.

Definition sample_scan (v : Z) (k : SourceKind) (m : option NormalizedMetadata) :
    ResolvedFolderPlan :=
  let assets := [sample_member "IMG_1.HEIC" sample_digest m Live_Image;
                 sample_member "IMG_1.MOV" sample_digest_2 None Live_Video] in
  {| rfp_plan := {| np_schema_version := v; np_source := sample_source k; np_assets := assets;
       np_warnings := []; np_errors := [];
       np_summary := {| ps_assets := zlen assets; ps_sidecars := 0; ps_bytes_read := 2 |} |};
     rfp_files := <["IMG_1.HEIC" := sample_resolved_file sample_digest]>
       (<["IMG_1.MOV" := sample_resolved_file sample_digest]> ∅) |}.

Definition sample_import_config : ImportConfig unit := {|
  validate_import _ := Ok tt; source_kind _ := GoogleTakeout; identity _ := Ok sample_digest |}.

Definition sample_files : FileSystem unit := {|
  symlink_metadata _ w := (Some {| fm_is_file := true; fm_is_symlink := false; fm_len := 1;
    fm_modified := Some 1589702950000000000; fm_created := None |}, w);
  open_reader _ w := (true, w);
  read_chunk _ w := (Some "", w) |}.

Lemma create_upload_plan_sound_witness : ∃ p,
  create_upload_plan (H := sample_files) (H0 := sample_codec) (H1 := sample_time)
    (sample_scan 1 Folder None) sample_server default_config tt = (Ok p, tt)
  ∧ upload_well_formed (H := sample_time) p.
Proof.
  eexists. split; [vm_compute; reflexivity|].
  eapply (create_upload_plan_sound (H := sample_files) (H0 := sample_codec) (H1 := sample_time)
    (sample_scan 1 Folder None) sample_server default_config tt _ tt).
  vm_compute. reflexivity.
Defined.

Lemma create_import_upload_plan_sound_witness : ∃ p,
  create_import_upload_plan (H0 := sample_codec) (H1 := sample_time) (H2 := sample_import_config)
    (sample_scan 2 GoogleTakeout (Some sample_metadata)) sample_server tt = Ok p
  ∧ upload_well_formed (H := sample_time) p.
Proof.
  eexists. split; [vm_compute; reflexivity|].
  eapply (create_import_upload_plan_sound (H0 := sample_codec) (H1 := sample_time)
    (H2 := sample_import_config) (sample_scan 2 GoogleTakeout (Some sample_metadata))
    sample_server tt).
  vm_compute. reflexivity.
Defined.

Lemma sample_scan_ready :
  Forall (asset_ready (H := sample_time) (sample_scan 2 GoogleTakeout (Some sample_metadata)))
    (np_assets (rfp_plan (sample_scan 2 GoogleTakeout (Some sample_metadata)))).
Proof.
  constructor; [|constructor; [|constructor]]; split.
  1, 2, 8, 9: vm_compute; reflexivity.
  1, 6: done.
  1, 5: by exists (sample_resolved_file sample_digest).
  1, 4: by left.
  - intros value [= <-]. exists 1589702950. split; [done|]. vm_compute. split; congruence.
  - intros m [= <-] _. exists (sample_member "IMG_1.MOV" sample_digest_2 None Live_Video).
    split; [right; left|]. by exists {| pair_id := "p"; role := Live_Video |}.
  - done.
  - by intros m [= <-].
Qed.

Lemma create_import_upload_plan_complete_witness : ∃ p,
  create_import_upload_plan (H0 := sample_codec) (H1 := sample_time) (H2 := sample_import_config)
    (sample_scan 2 GoogleTakeout (Some sample_metadata)) sample_server tt = Ok p.
Proof.
  eapply (create_import_upload_plan_complete (H := sample_codec) (H1 := sample_time)
    (H2 := sample_import_config) _ _ _ sample_digest); try done.
  - apply (normalized_validate_Ok (H := sample_time)). vm_compute. reflexivity.
  - apply sample_scan_ready.
Defined.
