(* ===== verification/Verify.v ===== *)
(** * Verify: the source is re-read before anything is sent
    ([crates/immich-executor/src/verify.rs])

    [verify_source] scans the source again, compares it with the plan and
    streams every file the plan names.  The rescan itself is the interface
    [SourceScan]; the file system is the interface [FileSystem] and may change
    at every call.  The read loop is bounded by the planned length, so its fuel
    is that length plus two iterations: one for the end of the file, one for the
    chunk that is too long. *)
From Stdlib Require Import Ascii.
From S2P Require Export Prelude Text Metadata Planning Upload Client Executor Planner.

(** ** Data *)

Record VerifiedAsset := {
  va_media_path : string;
  va_file_name : string;
  va_sha1_base64 : string;
  va_xmp : option (string * Z);
}.

Record StreamIdentity := { si_sha256 : string; si_sha1_base64 : string }.

(** What [scan_folder_resolved] can fail with, as this module tells apart. *)
Inductive ScanError := ScanCancelled | ScanFailed.

(** The deterministic rescan of [immich-sources]. *)
Class SourceScan (W : Type) := {
  scan_folder_resolved : string → string → FolderScanConfig → io W ScanError ResolvedFolderPlan;
}.

Definition cancelled_error : ExecutorError := executor_error ExecutorErrorClass.Cancelled.

Definition io_map_err {W E F A} (f : E → F) (m : io W E A) : io W F A := λ w,
  let '(r, w) := m w in (map_err f r, w).

Lemma io_map_err_inv {W E F A} (f : E → F) (m : io W E A) w r w' :
  io_map_err f m w = (r, w') → ∃ r0, m w = (r0, w') ∧ r = map_err f r0.
Proof. unfold io_map_err. destruct (m w) as [r0 w0]. intros [= <- <-]. eauto. Qed.

(** ** Streaming *)
Section verify.
  Context {W : Type} `{Cancellation W, FileSystem W, SourceScan W, Codec, TimeLib}.

Definition check_not_cancelled : io W ExecutorError unit := λ w,
  let '(cancelled, w) := is_cancelled w in (fail_if cancelled cancelled_error, w).

(** The read loop of [stream_content]; [None] is running out of fuel. *)
Fixpoint read_loop (fuel : nat) (path : string) (expected_len bytes_read : Z) (content : string)
    (w : W) : option (result ExecutorError string * W) :=
  match fuel with
  | O => None
  | S fuel =>
    match check_not_cancelled w with
    | (Err e, w) => Some (Err e, w)
    | (Ok _, w) =>
      match read_chunk path w with
      | (None, w) => Some (Err source_changed, w)
      | (Some chunk, w) =>
        if is_empty chunk then
          Some (if bytes_read =? expected_len then Ok content else Err source_changed, w)
        else match checked_add bytes_read (len chunk) with
        | None => Some (Err source_changed, w)
        | Some bytes_read =>
          if expected_len <? bytes_read then Some (Err source_changed, w)
          else read_loop fuel path expected_len bytes_read (content +:+ chunk) w
        end
      end
    end
  end.

Definition read_fuel (expected_len : Z) : nat := (Z.to_nat expected_len + 2)%nat.

Definition identity_of (content : string) : StreamIdentity :=
  {| si_sha256 := sha256_hex content; si_sha1_base64 := sha1_base64 content |}.

(** [None] never happens: [stream_content_returns]. *)
Definition stream_content (path : string) (expected_len : Z) (w : W) :
    option (result ExecutorError StreamIdentity * W) :=
  match open_reader path w with
  | (false, w) => Some (Err source_changed, w)
  | (true, w) =>
    '(r, w) ← read_loop (read_fuel expected_len) path expected_len 0 "" w;
    Some (content ← r; Ok (identity_of content), w)
  end.

(** The total version, for the callers. *)
Definition stream_content_io (path : string) (expected_len : Z) :
    io W ExecutorError StreamIdentity := λ w,
  default (Err invariant_error, w) (stream_content path expected_len w).

Definition stream_identity (path : string) (expected_len expected_created expected_modified : Z) :
    io W ExecutorError StreamIdentity :=
  before ← source_timestamps path expected_len;
  _ ← lift (fail_if (negb (bool_decide (before = (expected_created, expected_modified))))
              source_changed);
  identity ← stream_content_io path expected_len;
  after ← source_timestamps path expected_len;
  _ ← lift (fail_if (negb (bool_decide (after = before))) source_changed);
  mret identity.

(** ** The source *)

Definition require_same_normalized_plan (plan : UploadPlan) (resolved : ResolvedFolderPlan) :
    result ExecutorError unit :=
  digest ← compact_sha256 (rfp_plan resolved);
  fail_if (negb (String.eqb digest (up_normalized_plan_sha256 plan))
           || negb (bool_decide (np_source (rfp_plan resolved) = up_source plan))) source_changed.

Definition verify_sidecar (resolved : ResolvedFolderPlan) (operation : UploadOperation) :
    io W ExecutorError (option (string * Z)) :=
  match uo_xmp_sidecar operation with
  | None => mret None
  | Some expected =>
    source ← lift (ok_or (source_file resolved (us_relative_path expected)) source_changed);
    identity ← stream_content_io (rsf_native_path source) (us_byte_len expected);
    _ ← lift (fail_if (negb (String.eqb (si_sha256 identity) (us_content_sha256 expected)))
                source_changed);
    mret (Some (rsf_native_path source, us_byte_len expected))
  end.

(** [relative_path.rsplit_once('/').map_or(relative_path, |(_, name)| name)] *)
Definition file_name_of (relative_path : string) : string :=
  match rsplit_once "/" relative_path with Some (_, name) => name | None => relative_path end.

(** One iteration of the loop of [verify_source]. *)
Definition verify_operation (resolved : ResolvedFolderPlan) (operation : UploadOperation) :
    io W ExecutorError VerifiedAsset :=
  _ ← check_not_cancelled;
  media ← lift (ok_or (source_file resolved (uo_relative_path operation)) source_changed);
  identity ← stream_identity (rsf_native_path media) (uo_byte_len operation)
    (uo_created_at_unix_ms operation) (uo_modified_at_unix_ms operation);
  _ ← lift (fail_if (negb (String.eqb (si_sha256 identity) (uo_content_sha256 operation)))
              source_changed);
  xmp ← verify_sidecar resolved operation;
  mret {| va_media_path := rsf_native_path media;
          va_file_name := file_name_of (uo_relative_path operation);
          va_sha1_base64 := si_sha1_base64 identity;
          va_xmp := xmp |}.

Fixpoint verify_operations (resolved : ResolvedFolderPlan) (operations : list UploadOperation)
    (verified : gmap string VerifiedAsset) : io W ExecutorError (gmap string VerifiedAsset) :=
  match operations with
  | [] => mret verified
  | operation :: operations =>
    asset ← verify_operation resolved operation;
    verify_operations resolved operations (<[uo_operation_id operation := asset]> verified)
  end.

Definition scan_error (e : ScanError) : ExecutorError :=
  match e with ScanCancelled => cancelled_error | ScanFailed => source_changed end.

Definition verify_source (plan : UploadPlan) (root : string) (config : UploadExecutionConfig) :
    io W ExecutorError (gmap string VerifiedAsset) :=
  _ ← lift (map_err (λ _, invalid_plan) (Upload.validate plan));
  identity ← lift (config_identity_sha256 config);
  _ ← lift (fail_if (negb (String.eqb (up_configuration_sha256 plan) identity)) invalid_plan);
  resolved ← io_map_err scan_error
    (scan_folder_resolved root (label (up_source plan)) (scan config));
  _ ← lift (require_same_normalized_plan plan resolved);
  verify_operations resolved (up_operations plan) ∅.

(** ** The read loop always returns *)

Lemma read_loop_returns fuel path expected n content w :
  0 <= n <= expected → (Z.to_nat (expected - n) + 2 <= fuel)%nat →
  is_Some (read_loop fuel path expected n content w).
Proof.
  revert n content w. induction fuel as [|fuel IH]; intros n content w Hn Hf; simpl; [lia|].
  destruct (check_not_cancelled w) as [[]w1]; [|by eexists].
  destruct (read_chunk path w1) as [[chunk|] w2]; [|by eexists].
  destruct (is_empty chunk) eqn:Hc; [by eexists|].
  destruct (checked_add n (len chunk)) as [n'|] eqn:Ha; [|by eexists].
  apply checked_add_Some in Ha as [-> _].
  assert (1 <= len chunk).
  { apply is_empty_false in Hc. unfold len. destruct chunk; [done|]. simpl. lia. }
  destruct (Z.ltb_spec expected (n + len chunk)); [by eexists|]. apply IH; lia.
Qed.

(** Reading a file always comes to an end, however it grows or changes
    meanwhile: the planned length bounds the number of reads. *)
Theorem stream_content_returns path expected w :
  0 <= expected → is_Some (stream_content path expected w).
Proof.
  intros He. unfold stream_content. destruct (open_reader path w) as [[] w1]; [|by eexists].
  destruct (read_loop_returns (read_fuel expected) path expected 0 "" w1) as [[r w2] ->];
    [lia|unfold read_fuel; lia|]. by eexists.
Qed.

Lemma read_loop_content fuel path expected n content w c w' :
  len content = n → read_loop fuel path expected n content w = Some (Ok c, w') →
  len c = expected.
Proof.
  revert n content w. induction fuel as [|fuel IH]; intros n content w Hn; simpl; [done|].
  destruct (check_not_cancelled w) as [[]w1]; [|done].
  destruct (read_chunk path w1) as [[chunk|] w2]; [|done].
  destruct (is_empty chunk).
  { destruct (Z.eqb_spec n expected); [|done]. intros [= <- _]. congruence. }
  destruct (checked_add n (len chunk)) as [n'|] eqn:Ha; [|done].
  apply checked_add_Some in Ha as [-> _].
  destruct (Z.ltb_spec expected (n + len chunk)); [done|]. apply IH. rewrite len_app. lia.
Qed.

Lemma stream_content_Ok path expected w i w' :
  stream_content_io path expected w = (Ok i, w') →
  ∃ content, len content = expected ∧ i = identity_of content.
Proof.
  unfold stream_content_io, stream_content. destruct (open_reader path w) as [[] w1]; [|done].
  destruct (read_loop _ path expected 0 "" w1) as [[r w2]|] eqn:Hr; [|done]. simpl.
  destruct r as [c|]; [|done]. intros [= <- <-]. exists c. split; [|done].
  eapply read_loop_content, Hr. done.
Qed.

(** ** What has been verified *)

(** The bytes that were read for an operation: their length and digest are the
    planned ones, and the SHA-1 sent to the server is theirs. *)
Definition verified_for (o : UploadOperation) (a : VerifiedAsset) : Prop :=
  (∃ content, len content = uo_byte_len o ∧ sha256_hex content = uo_content_sha256 o
     ∧ va_sha1_base64 a = sha1_base64 content)
  ∧ va_file_name a = file_name_of (uo_relative_path o)
  ∧ match uo_xmp_sidecar o with
    | None => va_xmp a = None
    | Some s => ∃ path content, va_xmp a = Some (path, us_byte_len s)
        ∧ len content = us_byte_len s ∧ sha256_hex content = us_content_sha256 s
    end.

Lemma verify_sidecar_Ok resolved o w x w' :
  verify_sidecar resolved o w = (Ok x, w') →
  match uo_xmp_sidecar o with
  | None => x = None
  | Some s => ∃ path content, x = Some (path, us_byte_len s)
      ∧ len content = us_byte_len s ∧ sha256_hex content = us_content_sha256 s
  end.
Proof.
  unfold verify_sidecar. destruct (uo_xmp_sidecar o) as [s|]; [|by intros [= <- _]].
  intros (f&?&_&(i&?&(c&Hl&->)%stream_content_Ok&([]&?&[Hd _]%lift_Ok&[= <- _])%io_bind_Ok)
    %io_bind_Ok)%io_bind_Ok.
  result_inv. rewrite negb_false_iff, String.eqb_eq in *. by exists (rsf_native_path f), c.
Qed.

Lemma verify_operation_Ok resolved o w a w' :
  verify_operation resolved o w = (Ok a, w') → verified_for o a.
Proof.
  unfold verify_operation, stream_identity.
  intros (?&?&_&(f&?&_&(i&?&(?&?&_&(?&?&_&(i'&?&(c&Hl&->)%stream_content_Ok&(?&?&_&(?&?&_&
    [= <- _])%io_bind_Ok)%io_bind_Ok)%io_bind_Ok)%io_bind_Ok)%io_bind_Ok&
    ([]&?&[Hd _]%lift_Ok&(xmp&?&Hx%verify_sidecar_Ok&[= <- _])%io_bind_Ok)%io_bind_Ok)
    %io_bind_Ok)%io_bind_Ok)%io_bind_Ok.
  result_inv. rewrite negb_false_iff, String.eqb_eq in *.
  split; [by exists c|]. split; [done|]. exact Hx.
Qed.

Lemma verify_operations_Ok resolved os m w m' w' :
  NoDup (map uo_operation_id os) →
  verify_operations resolved os m w = (Ok m', w') →
  (∀ o, o ∈ os → ∃ a, m' !! uo_operation_id o = Some a ∧ verified_for o a)
  ∧ (∀ k, k ∉ map uo_operation_id os → m' !! k = m !! k).
Proof.
  revert m w. induction os as [|o os IH]; intros m w Hnd; simpl.
  { intros [= <- _]. split; [set_solver|done]. }
  apply NoDup_cons in Hnd as [Ho Hnd].
  intros (a&?&Ha%verify_operation_Ok&[Hin Hout]%IH)%io_bind_Ok; [|done]. split.
  - intros o' [->|Ho']%elem_of_cons; [|by apply Hin].
    exists a. split; [|done]. rewrite Hout by done. by rewrite lookup_insert_eq.
  - intros k Hk. apply not_elem_of_cons in Hk as [Hne Hk]. rewrite Hout by done.
    by rewrite lookup_insert_ne.
Qed.

(** When verification succeeds, the plan is valid and bound to this
    configuration and to the scan that was just repeated, and exactly its
    operations are verified: for each of them bytes of the planned length and
    digest were read, and the checksum that will be sent is that of these
    bytes. *)
Theorem verify_source_sound plan root config w m w' :
  verify_source plan root config w = (Ok m, w') →
  upload_well_formed plan
  ∧ config_identity_sha256 config = Ok (up_configuration_sha256 plan)
  ∧ (∀ o, o ∈ up_operations plan → ∃ a, m !! uo_operation_id o = Some a ∧ verified_for o a)
  ∧ dom m = list_to_set (map uo_operation_id (up_operations plan)).
Proof.
  unfold verify_source.
  intros ([]&?&[Hv _]%lift_Ok&(d&?&[Hd _]%lift_Ok&([]&?&[He _]%lift_Ok&(rs&?&_&(?&?&_&Hops)
    %io_bind_Ok)%io_bind_Ok)%io_bind_Ok)%io_bind_Ok)%io_bind_Ok.
  result_inv. rewrite negb_false_iff, String.eqb_eq in *. subst.
  match goal with H : Upload.validate _ = _ |- _ => apply upload_validate_Ok in H as Hwf end.
  destruct (verify_operations_Ok _ _ _ _ _ _ (uwf_ids _ Hwf) Hops) as [Hin Hout].
  split_and!; try done. apply set_eq. intros k. rewrite elem_of_list_to_set. split.
  - intros Hk%elem_of_dom. destruct (decide (k ∈ map uo_operation_id (up_operations plan)));
      [done|]. rewrite Hout in Hk by done. rewrite lookup_empty in Hk. by destruct Hk.
  - intros (o & -> & Ho)%Prelude.elem_of_map. destruct (Hin o Ho) as (a & Ha & _).
    by eapply elem_of_dom_2.
Qed.
End verify.

(** *** A concrete source: one file of one byte *)

Definition byte_digest : string := Eval vm_compute in sha256_hex (H := sample_codec) "x".

Definition byte_scan : ResolvedFolderPlan :=
  let asset := {|
    ca_operation_id := sample_digest; ca_relative_path := "2020/a.jpg";
    ca_media_kind := Media_Image; ca_byte_len := 1; ca_content_sha256 := byte_digest;
    ca_metadata := []; ca_normalized_metadata := None; ca_live_photo := None;
    ca_evidence := [] |} in
  {| rfp_plan := {| np_schema_version := 1; np_source := sample_source Folder;
       np_assets := [asset]; np_warnings := []; np_errors := [];
       np_summary := {| ps_assets := 1; ps_sidecars := 0; ps_bytes_read := 1 |} |};
     rfp_files := <["2020/a.jpg" := sample_resolved_file byte_digest]> ∅ |}.

(** The world is the list of chunks still to be read. *)
Definition chunk_files : FileSystem (list string) := {|
  symlink_metadata path w := ((symlink_metadata (FileSystem := sample_files) path tt).1, w);
  open_reader _ w := (true, w);
  read_chunk _ w := match w with chunk :: w => (Some chunk, w) | [] => (Some "", []) end |}.
Definition chunk_cancellation : Cancellation (list string) := {| is_cancelled w := (false, w) |}.
Definition byte_rescan : SourceScan (list string) :=
  {| scan_folder_resolved _ _ _ w := (Ok byte_scan, w) |}.

Section witnesses.
#[local] Existing Instances sample_codec sample_time chunk_files chunk_cancellation byte_rescan.

Definition byte_plan : UploadPlan :=
  match (create_upload_plan byte_scan sample_server default_config []).1 with
  | Ok p => p
  | Err _ => sample_upload_plan 1 Folder []
  end.

Lemma stream_content_returns_witness : is_Some (stream_content "/photos/a.jpg" 1 ["x"; "yz"; ""]).
Proof. apply stream_content_returns. lia. Defined.

Lemma verify_source_sound_witness : ∃ m w,
  verify_source byte_plan "/photos" default_config ["x"; ""] = (Ok m, w)
  ∧ dom m = list_to_set (map uo_operation_id (up_operations byte_plan)).
Proof.
  assert (is_ok (verify_source byte_plan "/photos" default_config ["x"; ""]).1 = true) as Hok
    by (vm_compute; reflexivity).
  destruct (verify_source byte_plan "/photos" default_config ["x"; ""]) as [[m|e] w] eqn:Hv;
    [|discriminate Hok].
  destruct (verify_source_sound _ _ _ _ _ _ Hv) as (_ & _ & _ & Hd).
  exists m, w. split; [reflexivity|exact Hd].
Defined.
End witnesses.
