(* ===== verification/Journal.v ===== *)
(** * Journal: the durable checkpoint of an upload run
    ([crates/immich-executor/src/journal.rs])

    The SQLite file is modelled by the contents of its two tables: [metadata]
    binds the file to one plan and scope, [events] is the append-only log whose
    sequence number is the position.  A failing statement rolls its transaction
    back; [available = false] stands for any such failure.  The specification is
    [replay], the map of completed operations the log describes; the query of
    [completed_assets] is proved to compute it. *)
From Stdlib Require Import Ascii.
From S2P Require Export Prelude Text Log Metadata Upload Executor.

(** ** Data *)

Definition CHECKPOINT_SCHEMA : string := "checkpoint-v1".
Definition APPLICATION_ID : Z := 1230132017.
Definition EXECUTION_SCOPE_KEY : string := "execution_scope".
Definition BACKUP_REFERENCE_KEY : string := "backup_reference_sha256".
Definition PRODUCTION_SCOPE : string := "production".

Inductive OutcomeKind := Created | Duplicated | Failed | Indeterminate.
#[export] Instance OutcomeKind_eq_dec : EqDecision OutcomeKind.
Proof. solve_decision. Defined.

(** [OutcomeKind::as_str] *)
Definition as_str (k : OutcomeKind) : string :=
  match k with
  | Created => "created"
  | Duplicated => "duplicate"
  | Failed => "failed"
  | Indeterminate => "indeterminate"
  end.

Record JournalEvent := {
  je_operation_id : string;
  je_kind : OutcomeKind;
  je_asset_id : option string;
  je_retry_count : Z;
}.

(** A row of [events]. *)
Record Row := {
  row_operation_id : string;
  row_outcome : string;
  row_asset_id : option string;
  row_retry_count : Z;
  row_recorded_unix_ms : Z;
}.

Record Connection := {
  application_id : Z;
  user_version : Z;
  metadata : list (string * string);
  events : list Row;
}.

(** What is at the path of the checkpoint. *)
Inductive CheckpointFile (C : Type) :=
  | Missing
  | Symlink
  | Unreadable
  | Database (connection : C).
Arguments Missing {C}.
Arguments Symlink {C}.
Arguments Unreadable {C}.
Arguments Database {C} connection.

(** ** Appending *)

Definition asset_contract (event : JournalEvent) : bool :=
  match je_kind event with
  | Created | Duplicated => is_some_and (je_asset_id event) valid_asset_id
  | Failed | Indeterminate => negb (is_some (je_asset_id event))
  end.

Definition row_of (event : JournalEvent) (now : Z) : Row := {|
  row_operation_id := je_operation_id event;
  row_outcome := as_str (je_kind event);
  row_asset_id := je_asset_id event;
  row_retry_count := je_retry_count event;
  row_recorded_unix_ms := now |}.

(** The clock and the disk at the time of a statement. *)
Class Storage (W : Type) := { storage : W → result ExecutorError Z * bool * W }.

(** [now] is what [now_unix_ms] returns. *)
Definition append (event : JournalEvent) (now : result ExecutorError Z) (available : bool)
    (c : Connection) : result ExecutorError unit * Connection :=
  if is_empty (je_operation_id event) || negb (asset_contract event) then (Err invariant_error, c)
  else match now with
  | Err e => (Err e, c)
  | Ok now =>
    if available then
      (Ok tt, {| application_id := application_id c; user_version := user_version c;
                 metadata := metadata c; events := events c ++ [row_of event now] |})
    else (Err checkpoint_error, c)
  end.

(** ** The completed operations *)

(** [JOIN (SELECT operation_id, MAX(sequence) .. GROUP BY operation_id)] *)
Definition latest (rows : list Row) : list Row := latest_by row_operation_id rows.

(** [outcome IN ('created','duplicate')] *)
Definition is_completed (r : Row) : bool :=
  String.eqb (row_outcome r) "created" || String.eqb (row_outcome r) "duplicate".

Definition insert_completed (completed : gmap string string) (r : Row) :
    result ExecutorError (gmap string string) :=
  asset_id ← ok_or (row_asset_id r) checkpoint_error;
  _ ← fail_if (is_empty (row_operation_id r) || is_empty asset_id || (4096 <? len asset_id)
               || is_some (completed !! row_operation_id r)) checkpoint_error;
  Ok (<[row_operation_id r := asset_id]> completed).

(** [completed_assets]; a statement or a row that cannot be read is the error of the file. *)
Definition completed_assets (readable : bool) (c : Connection) :
    result ExecutorError (gmap string string) :=
  _ ← fail_if (negb readable) checkpoint_error;
  for_each insert_completed (List.filter is_completed (latest (events c))) ∅.

(** ** The binding *)
Section binding.
  Context `{Codec}.

(** [is_lower_sha256] *)
Definition is_lower_sha256 (value : string) : bool :=
  (len value =? 64) && forallb is_lower_hex_byte (bytes value).

Definition version_string (v : ServerVersion) : string :=
  display_u64 (major v) +:+ "." +:+ display_u64 (minor v) +:+ "." +:+ display_u64 (patch v).

Definition expected_binding (plan : UploadPlan) (backup_reference_sha256 : option string) :
    result ExecutorError (gmap string string) :=
  plan_bytes ← ok_or (json_upload_plan plan) invariant_error;
  let binding : gmap string string := list_to_map [
    ("schema", CHECKPOINT_SCHEMA);
    ("upload_plan_sha256", sha256_hex plan_bytes);
    ("normalized_plan_sha256", up_normalized_plan_sha256 plan);
    ("source_sha256", fingerprint_sha256 (up_source plan));
    ("configuration_sha256", up_configuration_sha256 plan);
    ("server_identity_sha256", identity_sha256 (up_server plan));
    ("server_version", version_string (version (up_server plan)))] in
  Ok match backup_reference_sha256 with
     | Some digest =>
       <[BACKUP_REFERENCE_KEY := digest]> (<[EXECUTION_SCOPE_KEY := PRODUCTION_SCOPE]> binding)
     | None => binding
     end.

Definition validate_application (c : Connection) : result ExecutorError unit :=
  fail_if (negb (application_id c =? APPLICATION_ID) || negb (user_version c =? 1))
    checkpoint_error.

Definition insert_binding (actual : gmap string string) (kv : string * string) :
    result ExecutorError (gmap string string) :=
  _ ← fail_if (is_some (actual !! kv.1)) checkpoint_error;
  Ok (<[kv.1 := kv.2]> actual).

Definition read_binding (c : Connection) : result ExecutorError (gmap string string) :=
  _ ← validate_application c;
  for_each insert_binding (metadata c) ∅.

Definition validate_binding_for_scope (c : Connection) (plan : UploadPlan)
    (backup_reference_sha256 : option string) : result ExecutorError unit :=
  actual ← read_binding c;
  expected ← expected_binding plan backup_reference_sha256;
  fail_if (negb (bool_decide (actual = expected))) checkpoint_error.

Definition valid_scope (scope backup : option string) : bool :=
  match scope, backup with
  | None, None => true
  | Some s, Some digest => String.eqb s PRODUCTION_SCOPE && is_lower_sha256 digest
  | _, _ => false
  end.

Definition validate_binding_any_scope (c : Connection) (plan : UploadPlan) :
    result ExecutorError unit :=
  actual ← read_binding c;
  let scope := actual !! EXECUTION_SCOPE_KEY in
  let actual := delete EXECUTION_SCOPE_KEY actual in
  let backup := actual !! BACKUP_REFERENCE_KEY in
  let actual := delete BACKUP_REFERENCE_KEY actual in
  _ ← fail_if (negb (valid_scope scope backup)) checkpoint_error;
  expected ← expected_binding plan None;
  fail_if (negb (bool_decide (actual = expected))) checkpoint_error.

(** The rows are inserted in the order of the map, inside one transaction. *)
Definition bind_or_validate (plan : UploadPlan) (backup_reference_sha256 : option string)
    (available : bool) (c : Connection) : result ExecutorError unit * Connection :=
  if bool_decide (metadata c = []) then
    match expected_binding plan backup_reference_sha256 with
    | Err e => (Err e, c)
    | Ok expected =>
      if available then
        (Ok tt, {| application_id := application_id c; user_version := user_version c;
                   metadata := map_to_list expected; events := events c |})
      else (Err checkpoint_error, c)
    end
  else (validate_binding_for_scope c plan backup_reference_sha256, c).

(** ** Opening *)

Definition reject_symlink {C} (file : CheckpointFile C) : result ExecutorError unit :=
  match file with
  | Symlink | Unreadable => Err checkpoint_error
  | Missing | Database _ => Ok tt
  end.

(** [configure] and [create_schema]: the pragmas, and the tables if missing. *)
Definition configured (file : CheckpointFile Connection) : Connection :=
  let tables := match file with Database c => (metadata c, events c) | _ => ([], []) end in
  {| application_id := APPLICATION_ID; user_version := 1;
     metadata := tables.1; events := tables.2 |}.

Definition open_with_scope (file : CheckpointFile Connection) (plan : UploadPlan)
    (backup_reference_sha256 : option string) (available : bool) :
    result ExecutorError Connection :=
  _ ← reject_symlink file;
  _ ← fail_if (negb available) checkpoint_error;
  match bind_or_validate plan backup_reference_sha256 available (configured file) with
  | (Ok _, c) => Ok c
  | (Err e, _) => Err e
  end.

Definition open_journal (file : CheckpointFile Connection) (plan : UploadPlan) (available : bool) :
    result ExecutorError Connection :=
  open_with_scope file plan None available.

Definition open_production (file : CheckpointFile Connection) (plan : UploadPlan)
    (backup_reference_sha256 : string) (available : bool) : result ExecutorError Connection :=
  _ ← fail_if (negb (is_lower_sha256 backup_reference_sha256)) checkpoint_error;
  open_with_scope file plan (Some backup_reference_sha256) available.

(** A dangling link counts as missing: [path.exists()] follows it. *)
Definition validate_existing (file : CheckpointFile Connection) (plan : UploadPlan) (available : bool) :
    result ExecutorError (gmap string string) :=
  match file with
  | Missing => Ok ∅
  | _ =>
    _ ← reject_symlink file;
    _ ← fail_if (negb available) checkpoint_error;
    let c := match file with Database c => c
             | _ => {| application_id := 0; user_version := 0; metadata := []; events := [] |} end in
    _ ← validate_application c;
    _ ← validate_binding_any_scope c plan;
    completed_assets available c
  end.
End binding.

(** ** The specification: replaying the log *)

Definition replay_row (completed : gmap string string) (r : Row) : gmap string string :=
  match row_asset_id r with
  | Some asset_id =>
    if is_completed r then <[row_operation_id r := asset_id]> completed
    else delete (row_operation_id r) completed
  | None => delete (row_operation_id r) completed
  end.

Definition replay (rows : list Row) : gmap string string := foldl replay_row ∅ rows.

(** The contract every appended row satisfies. *)
Definition row_ok (r : Row) : Prop :=
  row_operation_id r ≠ "" ∧
  (is_completed r = true → ∃ id, row_asset_id r = Some id ∧ valid_asset_id id = true).

Definition completed_by (r : Row) : option string :=
  if is_completed r then row_asset_id r else None.

Lemma foldl_replay_lookup rows m op :
  foldl replay_row m rows !! op =
    match last_row row_operation_id op rows with Some r => completed_by r | None => m !! op end.
Proof.
  revert m. induction rows as [|r rows IH]; intros m; simpl; [done|]. rewrite IH.
  destruct (last_row row_operation_id op rows); [done|]. unfold replay_row, completed_by.
  destruct (String.eqb_spec (row_operation_id r) op) as [->|Hne].
  - destruct (row_asset_id r), (is_completed r);
      by rewrite ?lookup_insert_eq, ?lookup_delete_eq.
  - destruct (row_asset_id r), (is_completed r);
      by rewrite ?lookup_insert_ne, ?lookup_delete_ne.
Qed.

(** Inserting rows with distinct operations cannot fail. *)
Lemma insert_completed_all rows m :
  Forall row_ok rows → Forall (λ r, is_completed r = true) rows →
  NoDup (map row_operation_id rows) → (∀ r, r ∈ rows → m !! row_operation_id r = None) →
  for_each insert_completed rows m = Ok (foldl replay_row m rows).
Proof.
  intros Hok. revert m. induction Hok as [|r rows [Hid Hr] Hok IH]; intros m Hc Hnd Hm; simpl;
    [done|].
  apply Forall_cons in Hc as [Hcr Hc]. apply NoDup_cons in Hnd as [Hfresh Hnd].
  destruct (Hr Hcr) as (id & Hrid & Hvalid). unfold valid_asset_id in Hvalid.
  apply andb_true_iff in Hvalid as [Hne Hle].
  rewrite negb_true_iff in Hne. rewrite Z.leb_le in Hle.
  assert (insert_completed m r = Ok (replay_row m r)) as ->.
  { unfold insert_completed, replay_row. rewrite Hrid, Hcr. simpl.
    rewrite (proj2 (is_empty_false _) Hid), Hne, Hm by set_solver. simpl.
    destruct (Z.ltb_spec 4096 (len id)); [lia|done]. }
  simpl. apply IH; try done. unfold replay_row. rewrite Hrid, Hcr.
  intros r' Hr'. rewrite lookup_insert_ne; [apply Hm; set_solver|].
  intros Heq. apply Hfresh. rewrite Heq. apply Prelude.elem_of_map. by exists r'.
Qed.

Lemma completed_assets_replay c :
  Forall row_ok (events c) → completed_assets true c = Ok (replay (events c)).
Proof.
  intros Hok. change (completed_assets true c) with
    (for_each insert_completed (List.filter is_completed (latest (events c))) ∅). unfold latest.
  assert (∀ r, r ∈ List.filter is_completed (latest_by row_operation_id (events c)) ↔
    last_row row_operation_id (row_operation_id r) (events c) = Some r ∧ is_completed r = true) as Hmem.
  { intros r. by rewrite list_elem_of_In, filter_In, <-list_elem_of_In, latest_mem. }
  assert (NoDup (map row_operation_id (List.filter is_completed (latest_by row_operation_id (events c))))) as Hnd.
  { apply NoDup_map_filter, latest_NoDup. }
  rewrite insert_completed_all; try done.
  - f_equal. apply map_eq. intros op. unfold replay. rewrite !foldl_replay_lookup, lookup_empty.
    destruct (last_row row_operation_id op (events c)) as [r|] eqn:Hr.
    + destruct (last_row_op _ _ _ _ Hr) as [<- _]. destruct (is_completed r) eqn:Hc.
      * rewrite (last_row_unique _ _ _ r Hnd); [done|by apply Hmem|done].
      * unfold completed_by. rewrite Hc. destruct (last_row row_operation_id _ (List.filter _ _)) as [r'|] eqn:Hl;
          [|done]. apply last_row_op in Hl as [Heq [Hl' Hc']%Hmem]. rewrite Heq in Hl'. congruence.
    + destruct (last_row row_operation_id op (List.filter _ _)) as [r'|] eqn:Hl; [|done].
      apply last_row_op in Hl as [<- [Hl' _]%Hmem]. congruence.
  - rewrite Forall_forall in *. intros r [Hr _]%Hmem. apply Hok. by eapply last_row_op.
  - rewrite Forall_forall. by intros r [_ Hc]%Hmem.
Qed.

(** ** Reachable journals *)
Section reachable.
  Context `{Codec}.

(** What can happen to a checkpoint file: events are appended, successfully or
    not, it is bound or checked against a plan, and opened again. *)
Inductive journal_step : Connection → Connection → Prop :=
  | step_append event now available c r c' :
      append event now available c = (r, c') → journal_step c c'
  | step_bind plan backup available c r c' :
      bind_or_validate plan backup available c = (r, c') → journal_step c c'
  | step_reopen c : journal_step c (configured (Database c)).

Inductive journal_reachable : Connection → Prop :=
  | reachable_fresh : journal_reachable (configured Missing)
  | reachable_step c c' : journal_reachable c → journal_step c c' → journal_reachable c'.

Lemma as_str_completed event now :
  is_completed (row_of event now) = match je_kind event with
    | Created | Duplicated => true | _ => false end.
Proof. by destruct event as [? [] ? ?]. Qed.

Lemma append_cases event now available c r c' :
  append event now available c = (r, c') →
  (∃ e, r = Err e ∧ c' = c) ∨
  (r = Ok tt ∧ ∃ t, now = Ok t ∧ je_operation_id event ≠ "" ∧ asset_contract event = true
    ∧ events c' = events c ++ [row_of event t]
    ∧ metadata c' = metadata c ∧ application_id c' = application_id c
    ∧ user_version c' = user_version c).
Proof.
  unfold append. destruct (is_empty _ || _) eqn:Hc; [intros [= <- <-]; left; by eexists|].
  apply orb_false_iff in Hc as [Hid%is_empty_false Hct%negb_false_iff].
  destruct now as [t|e]; [|intros [= <- <-]; left; by eexists].
  destruct available; intros [= <- <-]; [right|left; by eexists].
  split; [done|]. by exists t.
Qed.

Lemma row_of_ok event now :
  je_operation_id event ≠ "" → asset_contract event = true → row_ok (row_of event now).
Proof.
  intros Hid Hc. split; [done|]. rewrite as_str_completed. unfold asset_contract in Hc.
  destruct (je_kind event); try done; intros _; simpl;
    destruct (je_asset_id event) as [id|]; try done; by exists id.
Qed.

Lemma bind_events plan backup available c r c' :
  bind_or_validate plan backup available c = (r, c') → events c' = events c.
Proof.
  unfold bind_or_validate. case_bool_decide; [|by intros [= _ <-]].
  destruct (expected_binding plan backup); [|by intros [= _ <-]].
  by destruct available; intros [= _ <-].
Qed.

Lemma reachable_rows c : journal_reachable c → Forall row_ok (events c).
Proof.
  induction 1 as [|c c' _ IH Hstep]; [constructor|].
  destruct Hstep as [ev now av c r c' Ha|plan b av c r c' Hb|c].
  - apply append_cases in Ha as [(e & _ & ->)|(_ & t & _ & Hid & Hct & -> & _)]; [done|].
    apply Forall_app. split; [done|]. constructor; [by apply row_of_ok|constructor].
  - by rewrite (bind_events _ _ _ _ _ _ Hb).
  - done.
Qed.

(** The abstract state of a journal and what an event does to it. *)
Definition apply_event (event : JournalEvent) (completed : gmap string string) :
    gmap string string :=
  match je_kind event, je_asset_id event with
  | (Created | Duplicated), Some id => <[je_operation_id event := id]> completed
  | _, _ => delete (je_operation_id event) completed
  end.

Lemma replay_append rows event now :
  replay (rows ++ [row_of event now]) = apply_event event (replay rows).
Proof.
  unfold replay. rewrite foldl_app. simpl. unfold replay_row, apply_event.
  rewrite as_str_completed. simpl. by destruct (je_kind event), (je_asset_id event).
Qed.

(** C29: the journal refines a map of completed operations.  On every reachable
    file the query succeeds when it can be read; an append that returns [Ok] is exactly the abstract
    update of its event, and one that fails, for a broken contract, a clock or a
    storage error, changes nothing. *)
Theorem journal_refines c event now available r c' :
  journal_reachable c → append event now available c = (r, c') →
  ∃ completed, completed_assets true c = Ok completed ∧
    ((r = Ok tt ∧ completed_assets true c' = Ok (apply_event event completed)
      ∧ asset_contract event = true)
     ∨ (r ≠ Ok tt ∧ c' = c)).
Proof.
  intros Hc Ha. exists (replay (events c)).
  split; [by apply completed_assets_replay, reachable_rows|].
  assert (journal_reachable c') as Hc' by (eapply reachable_step; [done|by econstructor]).
  destruct (append_cases _ _ _ _ _ _ Ha) as [(e & -> & ->)|(-> & t & _ & _ & Hct & Hev & _)];
    [by right|left]. split_and!; [done| |done].
  rewrite completed_assets_replay by by apply reachable_rows. by rewrite Hev, replay_append.
Qed.

(** ** The binding of a file *)

Lemma insert_bindings_Ok l acc :
  NoDup l.*1 → (∀ k, k ∈ l.*1 → acc !! k = None) →
  for_each insert_binding l acc = Ok (list_to_map l ∪ acc).
Proof.
  revert acc. induction l as [|[k v] l IH]; intros acc Hnd Hacc.
  { simpl. by rewrite (left_id_L ∅ _). }
  simpl in *. apply NoDup_cons in Hnd as [Hk Hnd]. unfold insert_binding. simpl.
  rewrite Hacc by set_solver. simpl. rewrite IH; [|done|].
  - f_equal. rewrite <-insert_union_l, insert_union_r; [done|].
    by apply not_elem_of_list_to_map.
  - intros k' Hk'. rewrite lookup_insert_ne; [apply Hacc; set_solver|]. by intros ->.
Qed.

Lemma read_bound c m :
  application_id c = APPLICATION_ID → user_version c = 1 → metadata c = map_to_list m →
  read_binding c = Ok m.
Proof.
  intros Ha Hu Hm. unfold read_binding, validate_application. rewrite Ha, Hu, Hm. simpl.
  rewrite insert_bindings_Ok; [|apply NoDup_fst_map_to_list|done].
  by rewrite list_to_map_to_list, (right_id_L ∅ _).
Qed.

Lemma expected_binding_schema plan backup m :
  expected_binding plan backup = Ok m → m !! "schema" = Some CHECKPOINT_SCHEMA.
Proof. unfold expected_binding. intros Hm. result_inv. by destruct backup. Qed.

Lemma expected_binding_scope plan backup m :
  expected_binding plan backup = Ok m →
  m !! EXECUTION_SCOPE_KEY = (if backup then Some PRODUCTION_SCOPE else None)
  ∧ m !! BACKUP_REFERENCE_KEY = backup.
Proof. unfold expected_binding. intros Hm. result_inv. by destruct backup. Qed.

Lemma bound_nonempty m (l : list (string * string)) :
  m !! "schema" = Some CHECKPOINT_SCHEMA → l = map_to_list (m : gmap string string) → l ≠ [].
Proof.
  intros Hs -> Hnil%map_to_list_empty_iff. by rewrite Hnil, lookup_empty in Hs.
Qed.

(** Opening keeps the rows of the file, and the binding of one that has it. *)
Definition file_rows (file : CheckpointFile Connection) : list Row :=
  match file with Database c => events c | _ => [] end.

Lemma open_rows file plan backup available j :
  open_with_scope file plan backup available = Ok j →
  events j = file_rows file
  ∧ ∀ c, file = Database c → metadata c ≠ [] → metadata j = metadata c.
Proof.
  unfold open_with_scope. intros Ho. result_inv.
  destruct (bind_or_validate plan backup available (configured file)) as [[[]|] c] eqn:Hb; [|done].
  injection Ho as <-. split.
  - rewrite (bind_events _ _ _ _ _ _ Hb). by destruct file.
  - intros c0 -> Hne. unfold bind_or_validate in Hb. simpl in Hb.
    rewrite bool_decide_eq_false_2 in Hb by done. by injection Hb as _ <-.
Qed.

Lemma open_fresh plan backup c :
  open_with_scope Missing plan backup true = Ok c →
  ∃ m, expected_binding plan backup = Ok m ∧ metadata c = map_to_list m.
Proof.
  unfold open_with_scope, bind_or_validate. simpl.
  destruct (expected_binding plan backup) as [m|] eqn:Hm; simpl; [|done].
  intros [= <-]. by exists m.
Qed.

(** A checkpoint belongs to one plan and one scope for life.  A file created
    for a plan can be reopened, whatever was appended since, exactly by a run
    whose plan and scope give the same binding; in particular a test run never
    resumes a production checkpoint, nor the reverse, and two production runs
    share one only with the same backup reference. *)
Theorem journal_binding plan backup c c' plan' backup' :
  open_with_scope Missing plan backup true = Ok c → metadata c' = metadata c →
  ((∃ j, open_with_scope (Database c') plan' backup' true = Ok j) ↔
     expected_binding plan' backup' = expected_binding plan backup)
  ∧ ((∃ j, open_with_scope (Database c') plan' backup' true = Ok j) → backup' = backup).
Proof.
  intros (m & Hm & Hc)%open_fresh Hmeta. rewrite Hc in Hmeta.
  assert ((∃ j, open_with_scope (Database c') plan' backup' true = Ok j) ↔
    expected_binding plan' backup' = expected_binding plan backup) as Hiff.
  { unfold open_with_scope, bind_or_validate. simpl.
    rewrite bool_decide_eq_false_2
      by (eapply bound_nonempty; [by eapply expected_binding_schema|done]).
    unfold validate_binding_for_scope. rewrite (read_bound _ m) by done. simpl. rewrite Hm.
    destruct (expected_binding plan' backup') as [m'|]; simpl; [|naive_solver].
    case_bool_decide as Heq; simpl; [subst; split; [done|by eexists]|].
    split; [by intros []|]. intros [= ->]. done. }
  split; [done|]. intros Hj%Hiff. rewrite Hm in Hj.
  apply expected_binding_scope in Hj as [_ Hb']. apply expected_binding_scope in Hm as [_ Hb].
  congruence.
Qed.
End reachable.

(** *** A concrete journal *)
Section witnesses.
#[local] Existing Instances sample_codec.

Definition sample_event : JournalEvent := {|
  je_operation_id := sample_digest; je_kind := Created; je_asset_id := Some "server-id";
  je_retry_count := 0 |}.

Lemma journal_refines_witness :
  completed_assets true (append sample_event (Ok 0) true (configured Missing)).2
  = Ok {[sample_digest := "server-id"]}.
Proof.
  destruct (journal_refines (configured Missing) sample_event (Ok 0) true _ _
    reachable_fresh eq_refl) as (m & Hm & [(_ & Hc & _)|[Hn _]]); [|by destruct Hn].
  injection Hm as <-. exact Hc.
Defined.

Lemma journal_binding_witness : ∃ c,
  open_with_scope Missing (sample_upload_plan 1 Folder sample_pair) None true = Ok c
  ∧ ¬ ∃ j, open_with_scope (Database c) (sample_upload_plan 1 Folder sample_pair)
      (Some sample_digest) true = Ok j.
Proof.
  eexists. split; [reflexivity|]. intros Hj.
  pose proof (proj2 (journal_binding (sample_upload_plan 1 Folder sample_pair) None _ _
    (sample_upload_plan 1 Folder sample_pair) (Some sample_digest) eq_refl eq_refl) Hj).
  discriminate.
Defined.
End witnesses.
