(* ===== verification/Operation.v ===== *)
(** * Operation: one upload with its retries
    ([crates/immich-executor/src/operation.rs])

    The loop of [apply] checks for a duplicate, uploads, and retries transient
    failures within the shared budget.  The client is the interface
    [UploadClient], the timer and the shared budget are [Runtime]; every call
    may change the world, so whatever concurrent operations do happens there.
    Each iteration but the last claims a retry, and a retry needs
    [retries + 1 < max_attempts], so [max_attempts + 1] iterations are fuel
    enough.  The theorems observe the calls through [Traced], a world that also
    records them. *)
From Stdlib Require Import Ascii.
From S2P Require Export Prelude Text Upload Client Executor Planner Verify Journal.

(** ** Data *)

Record OperationOutcome := {
  oc_operation_id : string;
  oc_kind : OutcomeKind;
  oc_asset_id : option string;
  oc_retries : Z;
}.

Inductive OperationResult :=
  | Completed (outcome : OperationOutcome)
  | CancelledWith (outcome : option OperationOutcome).

(** [retry::wait] is [false] when cancellation comes first; the budget is the
    [RetryBudget] every operation of the run shares. *)
Class Runtime (W : Type) := {
  wait : Z → W → bool * W;
  budget : W → RetryBudget;
  set_budget : RetryBudget → W → W;
}.

Definition successful (operation : UploadOperation) (kind : OutcomeKind) (asset_id : string)
    (retries : Z) : OperationOutcome := {|
  oc_operation_id := uo_operation_id operation; oc_kind := kind;
  oc_asset_id := Some asset_id; oc_retries := retries |}.

Definition failed (operation : UploadOperation) (retries : Z) : OperationOutcome := {|
  oc_operation_id := uo_operation_id operation; oc_kind := Failed;
  oc_asset_id := None; oc_retries := retries |}.

Definition indeterminate (operation : UploadOperation) (retries : Z) : OperationOutcome := {|
  oc_operation_id := uo_operation_id operation; oc_kind := Indeterminate;
  oc_asset_id := None; oc_retries := retries |}.

Definition uncertain (error : ClientError) : bool :=
  is_class ClientErrorClass.Disconnect error || is_class ClientErrorClass.Timeout error.

Definition request_of (operation : UploadOperation) (source : VerifiedAsset)
    (live_photo_video_id : option string) : UploadRequest := {|
  ur_operation_id := uo_operation_id operation;
  ur_file_name := va_file_name source;
  ur_media_path := va_media_path source;
  ur_media_len := uo_byte_len operation;
  ur_sha1_base64 := va_sha1_base64 source;
  ur_created_at_unix_ms := uo_created_at_unix_ms operation;
  ur_modified_at_unix_ms := uo_modified_at_unix_ms operation;
  ur_xmp := va_xmp source;
  ur_live_photo_video_id := live_photo_video_id |}.

(** ** The loop *)
Section apply.
  Context {W : Type} `{Cancellation W, UploadClient W, Runtime W, Codec}.
  Variables (operation : UploadOperation) (source : VerifiedAsset)
    (live_photo_video_id : option string) (config : UploadExecutionConfig).

(** [budget.claim()] on the shared budget *)
Definition claim_retry (w : W) : bool * W :=
  let '(granted, b) := claim (budget w) in (granted, set_budget b w).

Definition retry_allowed (error : ClientError) (retries : Z) (w : W) : bool * W :=
  if is_retryable error && (retries + 1 <? max_attempts_per_operation config)
  then claim_retry w else (false, w).

Definition upload_kind (status : UploadResult) : OutcomeKind :=
  match status with UploadCreated => Created | UploadDuplicate => Duplicated end.

Definition reconcile_uncertain (retries : Z) (w : W) : OperationResult * W :=
  match duplicate_check (uo_operation_id operation) (va_sha1_base64 source) w with
  | (Ok (Duplicate asset_id), w) =>
    (Completed (successful operation Duplicated asset_id retries), w)
  | (_, w) =>
    let '(cancelled, w) := is_cancelled w in
    (if cancelled then CancelledWith (Some (indeterminate operation retries))
     else Completed (indeterminate operation retries), w)
  end.

Fixpoint apply_loop (fuel : nat) (retries : Z) (w : W) : option (OperationResult * W) :=
  match fuel with
  | O => None
  | S fuel =>
    match duplicate_check (uo_operation_id operation) (va_sha1_base64 source) w with
    | (Ok (Duplicate asset_id), w) =>
      Some (Completed (successful operation Duplicated asset_id retries), w)
    | (Err error, w) =>
      if is_class ClientErrorClass.Cancelled error then Some (CancelledWith None, w)
      else match retry_allowed error retries w with
      | (true, w) =>
        match wait (delay (uo_operation_id operation) (retries + 1) error config) w with
        | (true, w) => apply_loop fuel (retries + 1) w
        | (false, w) => Some (CancelledWith None, w)
        end
      | (false, w) => Some (Completed (failed operation retries), w)
      end
    | (Ok Accept, w) =>
      match upload (request_of operation source live_photo_video_id) w with
      | (Ok (status, asset_id), w) =>
        Some (Completed (successful operation (upload_kind status) asset_id retries), w)
      | (Err error, w) =>
        if is_class ClientErrorClass.Cancelled error
        then Some (CancelledWith (Some (indeterminate operation retries)), w)
        else match retry_allowed error retries w with
        | (true, w) =>
          match wait (delay (uo_operation_id operation) (retries + 1) error config) w with
          | (true, w) => apply_loop fuel (retries + 1) w
          | (false, w) => Some (CancelledWith (Some (indeterminate operation retries)), w)
          end
        | (false, w) =>
          if uncertain error then Some (reconcile_uncertain retries w)
          else Some (Completed (failed operation retries), w)
        end
      end
    end
  end.

Definition attempts_fuel : nat := S (Z.to_nat (max_attempts_per_operation config)).

(** [operation::apply] *)
Definition apply (w : W) : option (OperationResult * W) := apply_loop attempts_fuel 0 w.

(** ** Termination *)

Lemma retry_allowed_true error retries w w' :
  retry_allowed error retries w = (true, w') →
  is_retryable error = true ∧ retries + 1 < max_attempts_per_operation config.
Proof.
  unfold retry_allowed. destruct (is_retryable error); simpl; [|done].
  destruct (Z.ltb_spec (retries + 1) (max_attempts_per_operation config)); done.
Qed.

Lemma apply_loop_returns fuel retries w :
  0 <= retries → (Z.to_nat (max_attempts_per_operation config - retries) < fuel)%nat →
  is_Some (apply_loop fuel retries w).
Proof.
  revert retries w. induction fuel as [|fuel IH]; intros n w Hn Hf; simpl; [lia|].
  destruct (duplicate_check _ _ w) as [[[|id]|e] w1]; [|by eexists|].
  - destruct (upload _ w1) as [[[st id]|e] w2]; [by eexists|].
    destruct (is_class _ e); [by eexists|].
    destruct (retry_allowed e n w2) as [[] w3] eqn:Hr; [|by destruct (uncertain e); eexists].
    apply retry_allowed_true in Hr as [_ ?].
    destruct (wait _ w3) as [[] w4]; [apply IH; lia|by eexists].
  - destruct (is_class _ e); [by eexists|].
    destruct (retry_allowed e n w1) as [[] w2] eqn:Hr; [|by eexists].
    apply retry_allowed_true in Hr as [_ ?].
    destruct (wait _ w2) as [[] w3]; [apply IH; lia|by eexists].
Qed.

(** An operation always comes to a result, whatever the server answers and
    whatever other operations do: it makes at most the configured number of
    attempts. *)
Theorem apply_returns w : is_Some (apply w).
Proof. apply apply_loop_returns; unfold attempts_fuel; lia. Qed.
End apply.

(** ** Observing the calls *)

Inductive Action :=
  | ACheck (operation_id sha1 : string) (r : result ClientError DuplicateCheck)
  | AUpload (request : UploadRequest) (r : result ClientError (UploadResult * string))
  | AWait (d : Z) (r : bool).

Definition Traced (W : Type) : Type := W * list Action.

Section traced.
  Context {W : Type} `{Cancellation W, UploadClient W, Runtime W}.

#[export] Instance traced_cancellation : Cancellation (Traced W) := {|
  is_cancelled w := let '(b, w1) := is_cancelled w.1 in (b, (w1, w.2)) |}.

#[export] Instance traced_client : UploadClient (Traced W) := {|
  duplicate_check op sha1 w :=
    let '(r, w1) := duplicate_check op sha1 w.1 in (r, (w1, w.2 ++ [ACheck op sha1 r]));
  upload req w := let '(r, w1) := upload req w.1 in (r, (w1, w.2 ++ [AUpload req r])) |}.

#[export] Instance traced_runtime : Runtime (Traced W) := {|
  wait d w := let '(b, w1) := wait d w.1 in (b, (w1, w.2 ++ [AWait d b]));
  budget w := budget w.1;
  set_budget b w := (set_budget b w.1, w.2) |}.

#[export] Instance traced_laws `{!UploadClientLaws W} : UploadClientLaws (Traced W).
Proof.
  split.
  - intros op sha1 [w l] id w'. simpl. destruct (duplicate_check op sha1 w) as [r w1] eqn:Hd.
    intros [= -> _]. by eapply duplicate_check_id.
  - intros req [w l] r id w'. simpl. destruct (upload req w) as [r' w1] eqn:Hu.
    intros [= -> _]. by eapply upload_id.
Qed.
End traced.

(** ** What an operation does *)
Section protocol.
  Context {W : Type} `{Cancellation W, UploadClient W, Runtime W, Codec}.
  Variables (operation : UploadOperation) (source : VerifiedAsset)
    (live_photo_video_id : option string) (config : UploadExecutionConfig).
  Notation request := (request_of operation source live_photo_video_id).

Definition waited (a : Action) : bool := match a with AWait _ true => true | _ => false end.
Definition is_upload (a : Action) : bool := match a with AUpload _ _ => true | _ => false end.

(** The protocol: every call is about this operation, an upload comes directly
    after a check that accepted it, and nothing follows an upload that
    succeeded. *)
Fixpoint protocol_from (accepted : bool) (t : list Action) : Prop :=
  match t with
  | [] => True
  | ACheck op sha1 r :: t =>
    op = uo_operation_id operation ∧ sha1 = va_sha1_base64 source ∧
    protocol_from (match r with Ok Accept => true | _ => false end) t
  | AUpload req r :: t =>
    accepted = true ∧ req = request ∧ (is_ok r = true → t = []) ∧ protocol_from false t
  | AWait _ _ :: t => protocol_from false t
  end.

Definition outcome_of (r : OperationResult) : option OperationOutcome :=
  match r with Completed o => Some o | CancelledWith o => o end.

Definition uploaded (t : list Action) (status : UploadResult) (id : string) : Prop :=
  ∃ t0, t = t0 ++ [AUpload request (Ok (status, id))].
Definition found_duplicate (t : list Action) (id : string) : Prop :=
  ∃ t0, t = t0 ++ [ACheck (uo_operation_id operation) (va_sha1_base64 source) (Ok (Duplicate id))].
Definition no_upload_succeeded (t : list Action) : Prop :=
  Forall (λ a, match a with AUpload _ r => is_ok r = false | _ => True end) t.

(** What an outcome says of the calls that were made. *)
Definition outcome_true (o : OperationOutcome) (t : list Action) : Prop :=
  match oc_kind o with
  | Created => ∃ id, oc_asset_id o = Some id ∧ uploaded t UploadCreated id
  | Duplicated => ∃ id, oc_asset_id o = Some id ∧ (uploaded t UploadDuplicate id ∨ found_duplicate t id)
  | Failed | Indeterminate => oc_asset_id o = None ∧ no_upload_succeeded t
  end.

(** Everything a run of the loop guarantees, from [n] retries on. *)
Record run_facts (n : Z) (t : list Action) (r : OperationResult) : Prop := {
  rf_protocol : protocol_from false t;
  rf_retries : n + count waited t <= Z.max n (max_attempts_per_operation config - 1);
  rf_uploads : count is_upload t <= 1 + count waited t;
  rf_outcome : ∀ o, outcome_of r = Some o →
    oc_operation_id o = uo_operation_id operation ∧ oc_retries o = n + count waited t
    ∧ outcome_true o t;
  rf_none : outcome_of r = None → r = CancelledWith None;
}.

(** The calls of an iteration that ends in a retry. *)
Inductive failed_attempt : list Action → Prop :=
  | attempt_check e d : failed_attempt
      [ACheck (uo_operation_id operation) (va_sha1_base64 source) (Err e); AWait d true]
  | attempt_upload e d : failed_attempt
      [ACheck (uo_operation_id operation) (va_sha1_base64 source) (Ok Accept);
       AUpload request (Err e); AWait d true].

Lemma count_nil {A} (p : A → bool) : count p [] = 0.
Proof. done. Qed.

Lemma run_facts_retry n a t r :
  failed_attempt a → n + 1 < max_attempts_per_operation config →
  run_facts (n + 1) t r → run_facts n (a ++ t) r.
Proof.
  intros Ha Hn [Hp Hr Hu Ho Hno].
  assert (∀ o, outcome_true o t → outcome_true o (a ++ t)) as Htrue.
  { intros o. unfold outcome_true, uploaded, found_duplicate, no_upload_succeeded.
    assert (∀ x, (∃ t0, t = t0 ++ x) → ∃ t0, a ++ t = t0 ++ x) as Hsuf.
    { intros x [t0 ->]. exists (a ++ t0). by rewrite app_assoc. }
    destruct (oc_kind o); [naive_solver..| |]; intros [? Hall]; (split; [done|]);
      apply Forall_app; (split; [|done]); destruct Ha; repeat constructor. }
  destruct Ha; split; simpl; rewrite ?count_cons in *; simpl; rewrite ?count_cons in *; simpl;
    try (split_and!; done); try lia;
    try (intros o Hoo; destruct (Ho o Hoo) as (?&?&?); split_and!; [done|lia|by apply Htrue]);
    try done.
Qed.

(** The calls of the last iteration. *)
Lemma run_facts_final n t r :
  protocol_from false t → count waited t = 0 → count is_upload t <= 1 →
  (∀ o, outcome_of r = Some o → oc_operation_id o = uo_operation_id operation
     ∧ oc_retries o = n ∧ outcome_true o t) →
  (outcome_of r = None → r = CancelledWith None) → run_facts n t r.
Proof.
  intros Hp Hw Hu Ho Hno. split; rewrite ?Hw; try done; try lia.
  intros o Hoo. destruct (Ho o Hoo) as (?&?&?). split_and!; [done|lia|done].
Qed.

(** The calls of the traced world extend its record. *)
Lemma traced_check op sha1 (w : Traced W) r w' :
  duplicate_check op sha1 w = (r, w') → w'.2 = w.2 ++ [ACheck op sha1 r].
Proof. simpl. destruct (duplicate_check op sha1 w.1) as [r' w1]. by intros [= <- <-]. Qed.

Lemma traced_upload req (w : Traced W) r w' :
  upload req w = (r, w') → w'.2 = w.2 ++ [AUpload req r].
Proof. simpl. destruct (upload req w.1) as [r' w1]. by intros [= <- <-]. Qed.

Lemma traced_wait d (w : Traced W) b w' : wait d w = (b, w') → w'.2 = w.2 ++ [AWait d b].
Proof. simpl. destruct (wait d w.1) as [b' w1]. by intros [= <- <-]. Qed.

Lemma traced_cancelled (w : Traced W) b w' : is_cancelled w = (b, w') → w'.2 = w.2.
Proof. simpl. destruct (is_cancelled w.1) as [b' w1]. by intros [= <- <-]. Qed.

Lemma traced_retry e n (w : Traced W) b w' :
  retry_allowed config e n w = (b, w') → w'.2 = w.2.
Proof.
  unfold retry_allowed, claim_retry. destruct (_ && _); [|by intros [= <- <-]].
  destruct (claim _) as [g bu]. by intros [= <- <-].
Qed.

Lemma traced_reconcile n (w : Traced W) r w' :
  reconcile_uncertain operation source n w = (r, w') →
  ∃ c, w'.2 = w.2 ++ [ACheck (uo_operation_id operation) (va_sha1_base64 source) c] ∧
    match c with
    | Ok (Duplicate id) => r = Completed (successful operation Duplicated id n)
    | _ => outcome_of r = Some (indeterminate operation n)
    end.
Proof.
  unfold reconcile_uncertain.
  destruct (duplicate_check _ _ w) as [c w1] eqn:Hd. apply traced_check in Hd.
  destruct c as [[|id]|e].
  - destruct (is_cancelled w1) as [b w2] eqn:Hc. apply traced_cancelled in Hc. intros [= <- <-].
    exists (Ok Accept). rewrite Hc. split; [done|]. by destruct b.
  - intros [= <- <-]. by exists (Ok (Duplicate id)).
  - destruct (is_cancelled w1) as [b w2] eqn:Hc. apply traced_cancelled in Hc. intros [= <- <-].
    exists (Err e). rewrite Hc. split; [done|]. by destruct b.
Qed.

Lemma final_failed n o t :
  o = failed operation n ∨ o = indeterminate operation n →
  no_upload_succeeded t →
  oc_operation_id o = uo_operation_id operation ∧ oc_retries o = n ∧ outcome_true o t.
Proof. by intros [->| ->] Ht. Qed.

Lemma check_iteration n e (w w' : Traced W) r :
  w'.2 = w.2 ++ [ACheck (uo_operation_id operation) (va_sha1_base64 source) (Err e)] →
  (∀ o, outcome_of r = Some o → o = failed operation n ∨ o = indeterminate operation n) →
  (outcome_of r = None → r = CancelledWith None) →
  ∃ t, w'.2 = w.2 ++ t ∧ run_facts n t r.
Proof.
  intros Hw Ho Hno. eexists. split; [exact Hw|]. apply run_facts_final; try done.
  intros o Hoo%Ho. apply final_failed; [done|]. by repeat constructor.
Qed.

(** A failed upload that is not retried, possibly after one last check. *)
Lemma upload_iteration n e (w w' : Traced W) r extra :
  w'.2 = w.2 ++ [ACheck (uo_operation_id operation) (va_sha1_base64 source) (Ok Accept);
                 AUpload request (Err e)] ++ extra →
  protocol_from false extra → count waited extra = 0 → count is_upload extra = 0 →
  no_upload_succeeded extra →
  (∀ o, outcome_of r = Some o → o = failed operation n ∨ o = indeterminate operation n) →
  (outcome_of r = None → r = CancelledWith None) →
  ∃ t, w'.2 = w.2 ++ t ∧ run_facts n t r.
Proof.
  intros Hw Hp Hc Hu Hs Ho Hno. eexists. split; [exact Hw|].
  apply run_facts_final; simpl; rewrite ?count_cons; simpl; rewrite ?count_cons; simpl;
    try done; try lia.
  intros o Hoo%Ho. apply final_failed; [done|]. by repeat constructor.
Qed.

Lemma apply_loop_facts fuel n (w w' : Traced W) r :
  apply_loop operation source live_photo_video_id config fuel n w = Some (r, w') →
  ∃ t, w'.2 = w.2 ++ t ∧ run_facts n t r.
Proof.
  revert n w. induction fuel as [|fuel IH]; intros n w; [done|]. cbn [apply_loop].
  destruct (duplicate_check _ _ w) as [[[|id]|e] w1] eqn:Hd; apply traced_check in Hd.
  - destruct (upload _ w1) as [[[st id]|e] w2] eqn:Hu; apply traced_upload in Hu;
      rewrite Hd, <-app_assoc in Hu.
    { intros [= <- <-]. eexists. split; [exact Hu|]. apply run_facts_final; try done.
      intros o [= <-]. split_and!; try done.
      assert (∀ c, uploaded [c; AUpload request (Ok (st, id))] st id) as Hup by (intros c; by exists [c]).
      destruct st; exists id; (split; [done|]); [apply Hup|left; apply Hup]. }
    destruct (is_class _ e).
    { intros [= <- <-]. eapply (upload_iteration n e _ _ _ []); try done; [by constructor|].
      intros o [= <-]. by right. }
    destruct (retry_allowed config e n w2) as [[] w3] eqn:Hr.
    + pose proof (retry_allowed_true _ _ _ _ _ Hr) as [_ Hlt]. apply traced_retry in Hr.
      destruct (wait _ w3) as [[] w4] eqn:Hw; apply traced_wait in Hw;
        rewrite Hr, Hu, <-app_assoc in Hw.
      * intros (t & Ht & Hf)%IH. rewrite Hw, <-app_assoc in Ht. eexists. split; [exact Ht|].
        eapply run_facts_retry; [apply attempt_upload|done|done].
      * intros [= <- <-]. eapply (upload_iteration n e _ _ _ [AWait _ false]); try done.
        { by repeat constructor. } intros o [= <-]. by right.
    + apply traced_retry in Hr. destruct (uncertain e).
      * intros [= Hrec]. destruct (reconcile_uncertain _ _ n w3) as [r' w4] eqn:Hq.
        injection Hrec as <- <-.
        apply traced_reconcile in Hq as (c & Hw & Hc). rewrite Hr, Hu, <-app_assoc in Hw.
        destruct c as [[|id]|e']; [|subst|];
          [eapply (upload_iteration n e _ _ _ [_]); try done; simpl; try done;
             [by repeat constructor|intros o; rewrite Hc; intros [= <-]; by right|by rewrite Hc]| |
           eapply (upload_iteration n e _ _ _ [_]); try done; simpl; try done;
             [by repeat constructor|intros o; rewrite Hc; intros [= <-]; by right|by rewrite Hc]].
        eexists. split; [exact Hw|]. apply run_facts_final; try done.
        intros o [= <-]. split_and!; try done. exists id. split; [done|]. right.
        by eexists [_; _].
      * intros [= <- <-]. rewrite <-Hr in Hu. eapply (upload_iteration n e _ _ _ []); try done; [by constructor|].
        intros o [= <-]. by left.
  - intros [= <- <-]. eexists. split; [exact Hd|]. apply run_facts_final; try done.
    intros o [= <-]. split_and!; try done. exists id. split; [done|]. right. by exists [].
  - destruct (is_class _ e).
    { intros [= <- <-]. by eapply check_iteration. }
    destruct (retry_allowed config e n w1) as [[] w2] eqn:Hr.
    + pose proof (retry_allowed_true _ _ _ _ _ Hr) as [_ Hlt]. apply traced_retry in Hr.
      destruct (wait _ w2) as [[] w3] eqn:Hw; apply traced_wait in Hw;
        rewrite Hr, Hd, <-app_assoc in Hw.
      * intros (t & Ht & Hf)%IH. rewrite Hw, <-app_assoc in Ht. eexists. split; [exact Ht|].
        eapply run_facts_retry; [apply attempt_check|done|done].
      * intros [= <- <-]. eexists. split; [exact Hw|]. by apply run_facts_final.
    + apply traced_retry in Hr. intros [= <- <-]. rewrite <-Hr in Hd.
      eapply check_iteration; [done| |done]. intros o [= <-]. by left.
Qed.

Lemma protocol_upload accepted t t1 req r t2 :
  protocol_from accepted t → t = t1 ++ AUpload req r :: t2 →
  req = request ∧ (is_ok r = true → t2 = [])
  ∧ ((t1 = [] ∧ accepted = true) ∨ ∃ t0, t1 = t0 ++
       [ACheck (uo_operation_id operation) (va_sha1_base64 source) (Ok Accept)]).
Proof.
  revert accepted t1. induction t as [|a t IH]; intros accepted t1 Hp Heq; [by destruct t1|].
  destruct t1 as [|a1 t1]; simpl in Heq; injection Heq as -> Heq.
  - subst t. simpl in Hp. destruct Hp as (-> & -> & Hlast & _). naive_solver.
  - assert (∃ acc, protocol_from acc t ∧ (acc = true → a1 =
      ACheck (uo_operation_id operation) (va_sha1_base64 source) (Ok Accept))) as (acc & Hp' & Hacc).
    { destruct a1 as [op sha1 res|rq res|d b]; simpl in Hp.
      - destruct Hp as (-> & -> & Hp). eexists. split; [exact Hp|].
        by destruct res as [[|]|].
      - destruct Hp as (_ & _ & _ & Hp). by exists false.
      - by exists false. }
    destruct (IH acc t1 Hp' Heq) as (Hreq & Hlast & [[-> Hacct]|[t0 ->]]);
      split_and!; try done; right; [exists []; by rewrite (Hacc Hacct)|by exists (a1 :: t0)].
Qed.

Lemma apply_facts w r w' t :
  apply operation source live_photo_video_id config (w, []) = Some (r, (w', t)) → run_facts 0 t r.
Proof. intros (t' & Ht & Hf)%apply_loop_facts. simpl in Ht. by subst. Qed.

(** C26: nothing is uploaded blindly.  Every upload an operation sends carries
    exactly its own file, length, checksum and timestamps, follows directly a
    check in which the server did not know the checksum, and once an upload is
    acknowledged no further call is made. *)
Theorem apply_protocol w r w' t t1 req res t2 :
  apply operation source live_photo_video_id config (w, []) = Some (r, (w', t)) →
  t = t1 ++ AUpload req res :: t2 →
  req = request
  ∧ (∃ t0, t1 = t0 ++ [ACheck (uo_operation_id operation) (va_sha1_base64 source) (Ok Accept)])
  ∧ (is_ok res = true → t2 = []).
Proof.
  intros [Hp _ _ _ _]%apply_facts Heq.
  destruct (protocol_upload _ _ _ _ _ _ Hp Heq) as (? & ? & [[_ ?]|?]); done.
Qed.

(** The outcome an operation reports is what the server said: [Created] and
    [Duplicated] carry the identifier of the last answer, and after [Failed] and
    [Indeterminate] no upload was acknowledged.  Its retry counter is the number
    of waits, below the configured attempts, and it sent at most one upload per
    attempt. *)
Theorem apply_outcome w r w' t o :
  1 <= max_attempts_per_operation config →
  apply operation source live_photo_video_id config (w, []) = Some (r, (w', t)) →
  outcome_of r = Some o →
  oc_operation_id o = uo_operation_id operation ∧ outcome_true o t
  ∧ oc_retries o = count waited t ∧ oc_retries o < max_attempts_per_operation config
  ∧ count is_upload t <= max_attempts_per_operation config.
Proof.
  intros Hmax [_ Hr Hu Ho _]%apply_facts Hoo.
  destruct (Ho o Hoo) as (Hid & Hret & Htrue). split_and!; try done; lia.
Qed.
End protocol.

(** ** The journal accepts every outcome *)

Definition event_of (o : OperationOutcome) : JournalEvent := {|
  je_operation_id := oc_operation_id o; je_kind := oc_kind o; je_asset_id := oc_asset_id o;
  je_retry_count := oc_retries o |}.

Section contract.
  Context {W : Type} `{Cancellation W, UploadClient W, !UploadClientLaws W, Runtime W, Codec}.

Lemma reconcile_contract operation source n (w w' : W) r o :
  reconcile_uncertain operation source n w = (r, w') → outcome_of r = Some o →
  asset_contract (event_of o) = true ∧ oc_operation_id o = uo_operation_id operation.
Proof.
  unfold reconcile_uncertain. destruct (duplicate_check _ _ w) as [[[|id]|e] w1] eqn:Hd.
  - destruct (is_cancelled w1) as [[] w2]; intros [= <- _] [= <-]; done.
  - intros [= <- _] [= <-]. split; [|done]. by eapply duplicate_check_id.
  - destruct (is_cancelled w1) as [[] w2]; intros [= <- _] [= <-]; done.
Qed.

Lemma apply_loop_contract operation source video config fuel n (w w' : W) r o :
  apply_loop operation source video config fuel n w = Some (r, w') → outcome_of r = Some o →
  asset_contract (event_of o) = true ∧ oc_operation_id o = uo_operation_id operation.
Proof.
  revert n w. induction fuel as [|fuel IH]; intros n w; [done|]. cbn [apply_loop].
  destruct (duplicate_check _ _ w) as [[[|id]|e] w1] eqn:Hd.
  - destruct (upload _ w1) as [[[st id]|e] w2] eqn:Hu.
    { intros [= <- _] [= <-]. split; [|done]. apply upload_id in Hu. by destruct st. }
    destruct (is_class _ e); [by intros [= <- _] [= <-]|].
    destruct (retry_allowed config e n w2) as [[] w3].
    + destruct (wait _ w3) as [[] w4]; [apply IH|by intros [= <- _] [= <-]].
    + destruct (uncertain e); [|by intros [= <- _] [= <-]]. intros [= Hq].
      destruct (reconcile_uncertain operation source n w3) as [r' w4] eqn:Hr.
      injection Hq as <- <-. by eapply reconcile_contract.
  - intros [= <- _] [= <-]. split; [|done]. by eapply duplicate_check_id.
  - destruct (is_class _ e); [by intros [= <- _]|].
    destruct (retry_allowed config e n w1) as [[] w2]; [|by intros [= <- _] [= <-]].
    destruct (wait _ w2) as [[] w3]; [apply IH|by intros [= <- _]].
Qed.

(** Whatever the server answers, an operation of a valid plan ends with an
    outcome the journal accepts, so recording it never fails on its contract. *)
Theorem apply_contract operation source video config (w w' : W) r o :
  uo_operation_id operation ≠ "" →
  apply operation source video config w = Some (r, w') → outcome_of r = Some o →
  ∀ t c, (append (event_of o) (Ok t) true c).1 = Ok tt.
Proof.
  intros Hid Ha Ho t c. destruct (apply_loop_contract _ _ _ _ _ _ _ _ _ _ Ha Ho) as [Hc Hop].
  unfold append. rewrite Hc. simpl. rewrite Hop, (proj2 (is_empty_false _) Hid). done.
Qed.
End contract.

(** ** A scripted run *)

Inductive Reply :=
  | RCheck (r : result ClientError DuplicateCheck)
  | RUpload (r : result ClientError (UploadResult * string)).

(** The answers still to come and the shared budget; an exhausted script times
    out. *)
Definition Script : Type := list Reply * RetryBudget.

Definition timeout_error : ClientError := client_error ClientErrorClass.Timeout.

Definition script_client : UploadClient Script := {|
  duplicate_check _ _ w := match w with
    | (RCheck r :: l, b) => (r, (l, b))
    | (l, b) => (Err timeout_error, (l, b)) end;
  upload _ w := match w with
    | (RUpload r :: l, b) => (r, (l, b))
    | (l, b) => (Err timeout_error, (l, b)) end |}.
Definition script_runtime : Runtime Script := {|
  wait _ w := (true, w); budget w := w.2; set_budget b w := (w.1, b) |}.
Definition script_flag : Cancellation Script := {| is_cancelled w := (false, w) |}.

Definition sample_verified : VerifiedAsset := {|
  va_media_path := "/photos/a.jpg"; va_file_name := "a.jpg";
  va_sha1_base64 := "2jmj7l5rSw0yVb/vlWAYkK/YBwk="; va_xmp := None |}.
Definition sample_op : UploadOperation := sample_operation "a.jpg" sample_digest None Standalone.

Section witnesses.
#[local] Existing Instances sample_codec script_client script_runtime script_flag.

Definition run_script (l : list Reply) : option (OperationResult * Traced Script) :=
  apply sample_op sample_verified None default_config ((l, new_budget 5), []).

(** One lost connection, then success. *)
Definition retried_script : list Reply :=
  [RCheck (Ok Accept); RUpload (Err (client_error ClientErrorClass.Disconnect));
   RCheck (Ok Accept); RUpload (Ok (UploadCreated, "server-id"))].
Definition retried_trace : list Action :=
  let check := ACheck sample_digest (va_sha1_base64 sample_verified) (Ok Accept) in
  let req := request_of sample_op sample_verified None in
  let error := client_error ClientErrorClass.Disconnect in
  [check; AUpload req (Err error); AWait (delay sample_digest 1 error default_config) true;
   check; AUpload req (Ok (UploadCreated, "server-id"))].

Lemma retried_run : run_script retried_script =
  Some (Completed (successful sample_op Created "server-id" 1),
        (([], {| used := 1; maximum := 5 |}), retried_trace)).
Proof. vm_compute. reflexivity. Qed.

Lemma apply_protocol_witness :
  request_of sample_op sample_verified None = request_of sample_op sample_verified None
  ∧ (∃ t0, take 3 retried_trace ++ take 1 retried_trace = t0 ++
      [ACheck sample_digest (va_sha1_base64 sample_verified) (Ok Accept)])
  ∧ (is_ok (Ok (E := ClientError) (UploadCreated, "server-id")) = true → @nil Action = []).
Proof.
  apply (apply_protocol sample_op sample_verified None default_config _ _ _ retried_trace
    (take 3 retried_trace ++ take 1 retried_trace) (request_of sample_op sample_verified None)
    (Ok (UploadCreated, "server-id")) [] retried_run). reflexivity.
Defined.

Lemma apply_outcome_witness :
  outcome_true sample_op sample_verified None (successful sample_op Created "server-id" 1)
    retried_trace
  ∧ count waited retried_trace = 1.
Proof.
  destruct (apply_outcome sample_op sample_verified None default_config _ _ _ retried_trace
    (successful sample_op Created "server-id" 1) ltac:(vm_compute; congruence) retried_run eq_refl)
    as (_ & Ht & Hr & _). split; [exact Ht|symmetry; exact Hr].
Defined.

(** The answer to the first upload is lost and the check of the second attempt
    is refused: the asset may well exist, yet the outcome is [Failed]. *)
Definition lost_upload_script : list Reply :=
  [RCheck (Ok Accept); RUpload (Err (client_error ClientErrorClass.Disconnect));
   RCheck (Err (client_error ClientErrorClass.Authentication))].

(** An upload whose answer was lost can end as [Failed] instead of
    [Indeterminate]: when the retry's duplicate check fails for good, nothing
    remembers that the earlier upload may have reached the server. *)
Theorem lost_upload_reported_failed :
  ∃ w t e, run_script lost_upload_script = Some (Completed (failed sample_op 1), (w, t))
    ∧ AUpload (request_of sample_op sample_verified None) (Err e) ∈ t ∧ uncertain e = true.
Proof.
  eexists _, _, (client_error ClientErrorClass.Disconnect).
  split; [vm_compute; reflexivity|]. split; [set_solver|done].
Qed.
End witnesses.

(** The scripted HTTP server of [Client.v], with a budget that never runs out. *)
Section client_witness.
#[local] Existing Instances sample_codec sample_time script_transport.
Definition http_runtime : Runtime (list HttpResponse) := {|
  wait _ w := (true, w); budget _ := new_budget 5; set_budget _ w := w |}.
#[local] Existing Instance http_runtime.

Definition http_run : option (OperationResult * list HttpResponse) :=
  apply (H0 := ImmichUploadClient sample_client_config) sample_op sample_verified None
    default_config [answer 200 ["accept"]; answer 201 ["created"]].

Lemma apply_contract_witness :
  (append (event_of (successful sample_op Created "server-id" 0)) (Ok 0) true (configured Missing)).1
  = Ok tt.
Proof.
  assert (http_run = Some (Completed (successful sample_op Created "server-id" 0), [])) as Hrun
    by (vm_compute; reflexivity).
  exact (apply_contract (H0 := ImmichUploadClient sample_client_config) sample_op sample_verified
    None default_config _ _ _ _ ltac:(done) Hrun eq_refl 0 (configured Missing)).
Defined.
End client_witness.
