(* ===== verification/Groups.v ===== *)
(** * Groups: which operations a run schedules, and what one group does
    ([crates/immich-executor/src/apply.rs]: [pending_groups],
    [validate_completed], [apply_group])

    A group is a standalone operation, or the video and the image of a live
    photo, which run one after the other because the image needs the server's
    identifier of its video.  Groups whose operations the journal knows as
    completed are left out. *)
From Stdlib Require Import Ascii.
From S2P Require Export Prelude Text Scan Upload Client Executor Planner Verify Journal Operation.

(** ** Data *)

Definition OperationGroup : Type := list UploadOperation.

Record GroupResult := { outcomes : list OperationOutcome; cancelled : bool }.

(** ** Groups *)
Section groups.
  Variable completed : gmap string string.

Definition is_completed_op (operation_id : string) : bool := is_some (completed !! operation_id).

(** [plan.operations.iter().find(..)]: the first image that names the video *)
Definition names_video (video_operation_id : string) (candidate : UploadOperation) : bool :=
  match uo_role candidate with
  | LivePhotoImage _ video => String.eqb video video_operation_id
  | _ => false
  end.
Definition image_of (operations : list UploadOperation) (video_operation_id : string) :
    option UploadOperation :=
  List.find (names_video video_operation_id) operations.

(** One iteration of the loop of [pending_groups]. *)
Definition push_group (operations : list UploadOperation) (by_id : gmap string UploadOperation)
    (groups : list OperationGroup) (operation : UploadOperation) :
    result ExecutorError (list OperationGroup) :=
  match uo_role operation with
  | Standalone =>
    Ok (if is_completed_op (uo_operation_id operation) then groups else groups ++ [[operation]])
  | LivePhotoVideo _ =>
    image ← ok_or (image_of operations (uo_operation_id operation)) invalid_plan;
    Ok (if negb (is_completed_op (uo_operation_id operation))
           || negb (is_completed_op (uo_operation_id image))
        then groups ++ [[operation; image]] else groups)
  | LivePhotoImage _ video_operation_id =>
    _ ← fail_if (negb (is_some (by_id !! video_operation_id))) invalid_plan;
    Ok groups
  end.

(** The stable sort by the path of the first operation. *)
Definition group_path (g : OperationGroup) : string :=
  match g with o :: _ => uo_relative_path o | [] => "" end.
Fixpoint insert_group (g : OperationGroup) (l : list OperationGroup) : list OperationGroup :=
  match l with
  | [] => [g]
  | h :: t => if String.ltb (group_path h) (group_path g) then h :: insert_group g t else g :: h :: t
  end.
Definition sort_groups (l : list OperationGroup) : list OperationGroup := foldr insert_group [] l.

Definition pending_groups (plan : UploadPlan) : result ExecutorError (list OperationGroup) :=
  let by_id := collect_map uo_operation_id id (up_operations plan) in
  groups ← for_each (push_group (up_operations plan) by_id) (up_operations plan) [];
  Ok (sort_groups groups).

Definition validate_completed (plan : UploadPlan) : result ExecutorError unit :=
  fail_if (negb (bool_decide (dom completed ⊆ list_to_set (map uo_operation_id (up_operations plan)))))
    checkpoint_error.

(** ** One group *)
Section apply_group.
  Context {W : Type} `{Cancellation W, UploadClient W, Runtime W, Codec}.
  Variables (verified : gmap string VerifiedAsset) (config : UploadExecutionConfig).

(** [operation::apply] always returns ([apply_returns]). *)
Definition apply_operation (operation : UploadOperation) (source : VerifiedAsset)
    (video_asset_id : option string) (w : W) : OperationResult * W :=
  default (CancelledWith None, w) (apply operation source video_asset_id config w).

Fixpoint apply_group_from (group : OperationGroup) (done : list OperationOutcome)
    (video_asset_id : option string) (w : W) : GroupResult * W :=
  match group with
  | [] => ({| outcomes := done; cancelled := false |}, w)
  | operation :: group =>
    let '(stop, w) := is_cancelled w in
    if stop then ({| outcomes := done; cancelled := true |}, w)
    else match completed !! uo_operation_id operation with
    | Some asset_id =>
      apply_group_from group done
        (if is_video (uo_role operation) then Some asset_id else video_asset_id) w
    | None =>
      if is_image (uo_role operation) && negb (is_some video_asset_id)
      then apply_group_from group (done ++ [failed operation 0]) video_asset_id w
      else match verified !! uo_operation_id operation with
      | None => apply_group_from group (done ++ [failed operation 0]) video_asset_id w
      | Some source =>
        match apply_operation operation source video_asset_id w with
        | (CancelledWith outcome, w) =>
          ({| outcomes := done ++ option_list outcome; cancelled := true |}, w)
        | (Completed outcome, w) =>
          let video := is_video (uo_role operation) in
          let video_asset_id := if video then oc_asset_id outcome else video_asset_id in
          if negb (is_some (oc_asset_id outcome)) && video
          then ({| outcomes := done ++ [outcome]; cancelled := false |}, w)
          else apply_group_from group (done ++ [outcome]) video_asset_id w
        end
      end
    end
  end.

Definition apply_group (group : OperationGroup) (w : W) : GroupResult * W :=
  apply_group_from group [] None w.
End apply_group.
End groups.

(** ** Scheduling *)
Section scheduling.
  Variable completed : gmap string string.
  Context `{TimeLib}.
  Variable plan : UploadPlan.
  Hypothesis Hwf : upload_well_formed plan.
  Notation operations := (up_operations plan).

(** Every video has an image, and only one. *)
Definition videos_have_images : Prop :=
  ∀ v pair, v ∈ operations → uo_role v = LivePhotoVideo pair →
  is_Some (image_of operations (uo_operation_id v)).
Definition one_image_each : Prop :=
  ∀ i j pair pair' vid, i ∈ operations → j ∈ operations →
  uo_role i = LivePhotoImage pair vid → uo_role j = LivePhotoImage pair' vid → i = j.

Definition group_for (o : UploadOperation) : list OperationGroup :=
  match uo_role o with
  | Standalone => if is_completed_op completed (uo_operation_id o) then [] else [[o]]
  | LivePhotoVideo _ =>
    match image_of operations (uo_operation_id o) with
    | Some image =>
      if negb (is_completed_op completed (uo_operation_id o))
         || negb (is_completed_op completed (uo_operation_id image)) then [[o; image]] else []
    | None => []
    end
  | LivePhotoImage _ _ => []
  end.

Notation by_id := (collect_map uo_operation_id id operations).

Lemma video_known pair vid o :
  o ∈ operations → uo_role o = LivePhotoImage pair vid → is_some (by_id !! vid) = true.
Proof.
  intros Ho Hr. destruct (uwf_dependencies _ Hwf o pair vid Ho Hr) as (v & Hv & Hid & _).
  destruct (by_id !! vid) eqn:Hn; [done|]. apply collect_map_None in Hn. destruct Hn.
  apply Prelude.elem_of_map. by exists v.
Qed.

(** The loop succeeds exactly when every video of the list has its image, and
    then pushes the groups in order. *)
Lemma push_groups_Ok l groups groups' :
  (∀ o, o ∈ l → o ∈ operations) →
  for_each (push_group completed operations by_id) l groups = Ok groups' ↔
    (∀ v pair, v ∈ l → uo_role v = LivePhotoVideo pair →
       is_Some (image_of operations (uo_operation_id v)))
    ∧ groups' = groups ++ List.flat_map group_for l.
Proof.
  revert groups. induction l as [|o l IH]; intros groups Hl; simpl.
  { rewrite app_nil_r. split; [by intros [= <-]; split; [set_solver|]|by intros [_ ->]]. }
  assert (∀ r, push_group completed operations by_id groups o = Ok r ↔
    (∀ pair, uo_role o = LivePhotoVideo pair → is_Some (image_of operations (uo_operation_id o)))
    ∧ r = groups ++ group_for o) as Hpush.
  { intros r. unfold push_group, group_for. destruct (uo_role o) as [|pair|pair vid] eqn:Hr.
    - destruct (is_completed_op completed _); rewrite ?app_nil_r;
        (split; [by intros [= <-]|by intros [_ ->]]).
    - destruct (image_of operations _) as [i|]; simpl.
      + destruct (_ || _); rewrite ?app_nil_r;
          (split; [intros [= <-]; split; [by eexists|done]|by intros [_ ->]]).
      + split; [done|]. intros [Hi _]. by destruct (Hi pair eq_refl).
    - rewrite (video_known pair vid o) by (done || set_solver). simpl. rewrite app_nil_r.
      split; [by intros [= <-]|by intros [_ ->]]. }
  rewrite bind_Ok. setoid_rewrite Hpush. split.
  - intros (r & [Hi ->] & Hrest). apply IH in Hrest as [Hv ->]; [|set_solver].
    rewrite app_assoc. split; [|done]. intros v pair [->|Hin]%elem_of_cons; [apply Hi|by apply Hv].
  - intros [Hv ->]. exists (groups ++ group_for o). split.
    + split; [|done]. intros pair Hr. eapply Hv; [left|done].
    + apply IH; [set_solver|]. split; [|by rewrite app_assoc].
      intros v pair Hin. apply Hv. by right.
Qed.

(** The groups come out sorted already, so sorting keeps them. *)
Lemma insert_group_below g l :
  Forall (λ h, ¬ str_lt (group_path h) (group_path g)) l → insert_group g l = g :: l.
Proof.
  destruct 1 as [|h l Hh _]; [done|]. simpl.
  by rewrite (proj1 (not_true_iff_false _) Hh).
Qed.

Lemma group_for_path o g : g ∈ group_for o → group_path g = uo_relative_path o ∧ g ≠ [].
Proof.
  unfold group_for. destruct (uo_role o).
  - destruct (is_completed_op _ _); set_solver.
  - destruct (image_of _ _); [|set_solver]. destruct (_ || _); set_solver.
  - set_solver.
Qed.

Lemma sort_groups_id l :
  StronglySorted str_lt (map uo_relative_path l) →
  sort_groups (List.flat_map group_for l) = List.flat_map group_for l.
Proof.
  intros Hs. induction l as [|o l IH]; [done|]. simpl in *.
  inversion Hs as [|?? Hs' Hlt]; subst. unfold sort_groups. rewrite foldr_app.
  fold (sort_groups (List.flat_map group_for l)). rewrite IH by done.
  assert (Forall (λ h, str_lt (uo_relative_path o) (group_path h)) (List.flat_map group_for l)) as Hall.
  { rewrite Forall_forall. intros h (o' & Ho' & Hh)%list_elem_of_In%in_flat_map.
    apply list_elem_of_In in Hh. destruct (group_for_path _ _ Hh) as [-> _].
    rewrite Forall_map, Forall_forall in Hlt. by apply Hlt, list_elem_of_In. }
  assert (length (group_for o) <= 1)%nat as Hlen.
  { unfold group_for. destruct (uo_role o); simpl; [destruct (is_completed_op _ _); simpl; lia| |lia].
    destruct (image_of _ _); simpl; [|lia]. destruct (_ || _); simpl; lia. }
  destruct (group_for o) as [|g [|]] eqn:Hg; simpl in *; [done| |lia].
  apply insert_group_below. eapply Forall_impl; [exact Hall|]. intros h Hh Hn.
  destruct (group_for_path o g) as [Hp _]; [rewrite Hg; set_solver|]. rewrite Hp in Hn.
  apply (irreflexivity str_lt (uo_relative_path o)). by trans (group_path h).
Qed.

Lemma pending_groups_Ok groups :
  pending_groups completed plan = Ok groups ↔
    videos_have_images ∧ groups = List.flat_map group_for operations.
Proof.
  unfold pending_groups. rewrite bind_Ok. setoid_rewrite push_groups_Ok; [|done]. simpl. split.
  - intros (gs & [Hv ->] & [= <-]). split; [exact Hv|]. apply sort_groups_id, Hwf.
  - intros [Hv ->]. eexists. split; [by split|]. f_equal. apply sort_groups_id, Hwf.
Qed.

Lemma image_of_Some vid i :
  image_of operations vid = Some i → i ∈ operations ∧ ∃ pair, uo_role i = LivePhotoImage pair vid.
Proof.
  intros [Hin Hn]%find_some. split; [by apply list_elem_of_In|]. unfold names_video in Hn.
  destruct (uo_role i) as [| |pair v]; try done. apply String.eqb_eq in Hn as ->. by exists pair.
Qed.

Lemma operation_unique o o' :
  o ∈ operations → o' ∈ operations → uo_operation_id o = uo_operation_id o' → o = o'.
Proof.
  intros Ho Ho' Heq. by eapply NoDup_map_inj; [apply (uwf_ids _ Hwf)|..].
Qed.

(** A member of a group is its head, or the image of its head. *)
Lemma group_member o x :
  x ∈ concat (group_for o) →
  x = o ∧ is_image (uo_role o) = false
  ∨ image_of operations (uo_operation_id o) = Some x ∧ is_video (uo_role o) = true.
Proof.
  unfold group_for. destruct (uo_role o) as [|pair|pair vid] eqn:Hr; simpl; [|..|set_solver].
  - destruct (is_completed_op _ _); simpl; set_solver.
  - destruct (image_of operations _) as [i|] eqn:Hi; simpl; [|set_solver].
    destruct (_ || _); simpl; set_solver.
Qed.

Lemma concat_flat_map {A B} (f : A → list (list B)) l :
  concat (List.flat_map f l) = List.flat_map (λ x, concat (f x)) l.
Proof. induction l; simpl; [done|]. by rewrite concat_app, IHl. Qed.

Lemma groups_member x :
  x ∈ concat (List.flat_map group_for operations) ↔
    ∃ o, o ∈ operations ∧ x ∈ concat (group_for o).
Proof.
  rewrite (concat_flat_map (B := UploadOperation) group_for), list_elem_of_In, in_flat_map.
  setoid_rewrite <-list_elem_of_In. done.
Qed.

Lemma groups_subset x : x ∈ concat (List.flat_map group_for operations) → x ∈ operations.
Proof.
  intros (o & Ho & [[-> _]|[Hi _]]%group_member)%groups_member; [done|].
  by destruct (image_of_Some _ _ Hi).
Qed.

Lemma NoDup_flat_map {A B} (f : A → list B) l :
  NoDup l → (∀ x, x ∈ l → NoDup (f x)) →
  (∀ x y z, x ∈ l → y ∈ l → z ∈ f x → z ∈ f y → x = y) → NoDup (List.flat_map f l).
Proof.
  induction 1 as [|x l Hx Hnd IH]; simpl; intros Hf Hd; [constructor|].
  apply NoDup_app. split_and!.
  - apply Hf. left.
  - intros z Hz (y & Hy & Hzy)%list_elem_of_In%in_flat_map. apply Hx.
    apply list_elem_of_In in Hy, Hzy. rewrite (Hd x y z); [done|left|by right|done|done].
  - apply IH; [intros; apply Hf; by right|].
    intros y1 y2 z Hy1 Hy2. apply Hd; by right.
Qed.

Lemma groups_NoDup : NoDup (concat (List.flat_map group_for operations)).
Proof.
  rewrite (concat_flat_map (B := UploadOperation) group_for). apply NoDup_flat_map.
  - eapply NoDup_fmap_1, (uwf_ids _ Hwf).
  - intros o Ho. unfold group_for. destruct (uo_role o) as [|pair|] eqn:Hr; simpl.
    + destruct (is_completed_op _ _); simpl; repeat constructor; set_solver.
    + destruct (image_of operations _) as [i|] eqn:Hi; simpl; [|constructor].
      destruct (_ || _); simpl; [|constructor].
      apply image_of_Some in Hi as [_ [p Hp]].
      repeat constructor; [|set_solver]. rewrite list_elem_of_singleton. congruence.
    + constructor.
  - intros o o' x Ho Ho' [[-> Hn]|[Hi Hv]]%group_member [[-> Hn']|[Hi' Hv']]%group_member; try done.
    + apply image_of_Some in Hi' as [_ [p Hp]]. by rewrite Hp in Hn.
    + apply image_of_Some in Hi as [_ [p Hp]]. by rewrite Hp in Hn'.
    + apply image_of_Some in Hi as [_ [p Hp]]. apply image_of_Some in Hi' as [_ [p' Hp']].
      apply operation_unique; [done|done|]. congruence.
Qed.

Definition pending (o : UploadOperation) : bool := negb (is_completed_op completed (uo_operation_id o)).

Lemma pending_scheduled o :
  videos_have_images → one_image_each → o ∈ operations → pending o = true →
  o ∈ concat (List.flat_map group_for operations).
Proof.
  intros Hv H1 Ho Hp. apply groups_member. unfold pending in Hp.
  destruct (uo_role o) as [|pair|pair vid] eqn:Hr.
  - exists o. split; [done|]. unfold group_for. rewrite Hr.
    destruct (is_completed_op _ _); [done|]. simpl. set_solver.
  - exists o. split; [done|]. unfold group_for. rewrite Hr.
    destruct (Hv o pair Ho Hr) as [i ->]. rewrite Hp. simpl. set_solver.
  - destruct (uwf_dependencies _ Hwf o pair vid Ho Hr) as (v & Hvin & <- & Hvr).
    exists v. split; [done|]. destruct (Hv v pair Hvin Hvr) as [i Hi].
    unfold group_for. rewrite Hvr, Hi.
    destruct (image_of_Some _ _ Hi) as [Hiin [p' Hir]].
    assert (i = o) as -> by (by eapply H1). rewrite Hp, orb_true_r. simpl. set_solver.
Qed.
End scheduling.

(** Scheduling succeeds exactly when every motion video has its image, and
    then no operation is scheduled twice, and, if no two images share a video,
    the operations still to be done are exactly those the journal does not know
    as completed. *)
Theorem pending_groups_exact `{TimeLib} completed plan :
  upload_well_formed plan →
  ((∃ groups, pending_groups completed plan = Ok groups) ↔ videos_have_images plan)
  ∧ ∀ groups, pending_groups completed plan = Ok groups →
      NoDup (concat groups)
      ∧ (one_image_each plan →
         List.filter (pending completed) (concat groups)
         ≡ₚ List.filter (pending completed) (up_operations plan)).
Proof.
  intros Hwf. split.
  { setoid_rewrite pending_groups_Ok; [|done]. naive_solver. }
  intros groups Hg. apply (pending_groups_Ok completed plan Hwf) in Hg as [Hv ->].
  split; [by apply (groups_NoDup completed plan Hwf)|]. intros H1. apply NoDup_Permutation.
  - apply NoDup_ListNoDup, List.NoDup_filter, NoDup_ListNoDup. by apply (groups_NoDup completed plan Hwf).
  - apply NoDup_ListNoDup, List.NoDup_filter, NoDup_ListNoDup.
    eapply NoDup_fmap_1, (uwf_ids _ Hwf).
  - intros o. rewrite !list_elem_of_In, !filter_In, <-!list_elem_of_In. split.
    + intros [Ho ?]. split; [|done]. by eapply (groups_subset completed plan).
    + intros [Ho ?]. split; [|done]. by apply (pending_scheduled completed plan Hwf).
Qed.

(** When two images of a valid plan name the same video, only the first is
    ever scheduled: the other one is in no group, whatever was completed. *)
Theorem second_image_dropped `{TimeLib} completed plan groups vid i j pair :
  upload_well_formed plan → pending_groups completed plan = Ok groups →
  image_of (up_operations plan) vid = Some i → j ≠ i → uo_role j = LivePhotoImage pair vid →
  j ∉ concat groups.
Proof.
  intros Hwf Hg Hi Hne Hr Hin. apply (pending_groups_Ok completed plan Hwf) in Hg as [_ ->].
  apply (groups_member completed plan) in Hin as (o & Ho & Hm).
  apply (group_member completed plan Hwf) in Hm as [[-> Hn]|[Hj Hv]]; [by rewrite Hr in Hn|].
  destruct (image_of_Some _ _ _ Hj) as [_ [p Hp]]. rewrite Hr in Hp. injection Hp as <- ->.
  congruence.
Qed.

(** ** What a group does *)
Section group_facts.
  Context {W : Type} `{Cancellation W, UploadClient W, !UploadClientLaws W, Runtime W, Codec}.
  Variables (completed : gmap string string) (verified : gmap string VerifiedAsset)
    (config : UploadExecutionConfig).

Lemma apply_operation_eq o src vid (w : W) r w' :
  apply_operation config o src vid w = (r, w') →
  apply o src vid config w = Some (r, w').
Proof.
  unfold apply_operation. destruct (apply_returns o src vid config w) as [[r0 w0] Hr].
  rewrite Hr. simpl. by intros [= <- <-].
Qed.

Lemma operation_contract o src vid (w : W) r w' oc :
  apply_operation config o src vid w = (r, w') → outcome_of r = Some oc →
  asset_contract (event_of oc) = true ∧ oc_operation_id oc = uo_operation_id o.
Proof. intros Ha%apply_operation_eq. by eapply apply_loop_contract. Qed.

Lemma pending_true o : completed !! uo_operation_id o = None → pending completed o = true.
Proof. unfold pending, is_completed_op. by intros ->. Qed.

Lemma pending_false o a : completed !! uo_operation_id o = Some a → pending completed o = false.
Proof. unfold pending, is_completed_op. by intros ->. Qed.

(** The outcomes of a group: at most one for each operation still to be done, in
    order, each of which the journal accepts. *)
Definition outcomes_for (group : OperationGroup) (l : list OperationOutcome) : Prop :=
  sublist (map oc_operation_id l) (map uo_operation_id (List.filter (pending completed) group))
  ∧ Forall (λ oc, asset_contract (event_of oc) = true) l.

Lemma outcomes_for_nil group : outcomes_for group [].
Proof. split; [apply sublist_nil_l|constructor]. Qed.

Lemma outcomes_for_skip o group l : outcomes_for group l → outcomes_for (o :: group) l.
Proof.
  intros [Hs Hc]. split; [|done]. simpl. destruct (pending completed o); [|done].
  by apply sublist_cons.
Qed.

Lemma outcomes_for_cons o group oc l :
  completed !! uo_operation_id o = None → oc_operation_id oc = uo_operation_id o →
  asset_contract (event_of oc) = true → outcomes_for group l → outcomes_for (o :: group) (oc :: l).
Proof.
  intros Hp Hid Hct [Hs Hc]. split; [|by constructor]. simpl. rewrite (pending_true o Hp).
  simpl. rewrite Hid. by apply sublist_skip.
Qed.

Lemma group_outcomes group done vid (w : W) g w' :
  apply_group_from completed verified config group done vid w = (g, w') →
  ∃ l, outcomes g = done ++ l ∧ outcomes_for group l.
Proof.
  revert done vid w. induction group as [|o group IH]; intros done vid w; simpl.
  { intros [= <- _]. exists []. rewrite app_nil_r. split; [done|apply outcomes_for_nil]. }
  destruct (is_cancelled w) as [[] w1].
  { intros [= <- _]. exists []. rewrite app_nil_r. split; [done|apply outcomes_for_nil]. }
  destruct (completed !! uo_operation_id o) as [a|] eqn:Hc.
  { intros (l & Hl & Ho)%IH. exists l. split; [done|]. by apply outcomes_for_skip. }
  assert (∀ oc vid w2, oc_operation_id oc = uo_operation_id o →
    asset_contract (event_of oc) = true →
    apply_group_from completed verified config group (done ++ [oc]) vid w2 = (g, w') →
    ∃ l, outcomes g = done ++ l ∧ outcomes_for (o :: group) l) as Hnext.
  { intros oc vid' w2 Hid Hct (l & Hl & Ho)%IH. exists (oc :: l).
    rewrite Hl, <-app_assoc. split; [done|]. by apply outcomes_for_cons. }
  destruct (_ && _); [by apply Hnext|].
  destruct (verified !! uo_operation_id o) as [src|]; [|by apply Hnext].
  destruct (apply_operation config o src vid w1) as [r w2] eqn:Ha.
  assert (∀ oc', outcome_of r = Some oc' →
    asset_contract (event_of oc') = true ∧ oc_operation_id oc' = uo_operation_id o) as Hct
    by (intros oc'; by eapply operation_contract).
  destruct r as [oc|oc].
  - destruct (Hct oc eq_refl) as [Hc1 Hc2]. destruct (_ && _); [|by apply Hnext].
    intros [= <- _]. exists [oc]. split; [done|].
    apply outcomes_for_cons; try done. apply outcomes_for_nil.
  - intros [= <- _]. exists (option_list oc). split; [done|]. destruct oc as [oc|]; simpl.
    + destruct (Hct oc eq_refl). apply outcomes_for_cons; try done. apply outcomes_for_nil.
    + apply outcomes_for_nil.
Qed.

End group_facts.

(** ** What a group sends *)
Section group_trace.
  Context {W : Type} `{Cancellation W, UploadClient W, Runtime W, Codec}.
  Variables (completed : gmap string string) (verified : gmap string VerifiedAsset)
    (config : UploadExecutionConfig).

(** The identifier a group holds for its video comes from the journal or from
    an outcome of this run. *)
Definition video_known_as (group : OperationGroup) (done : list OperationOutcome) (x : string) : Prop :=
  ∃ v, v ∈ group ∧ is_video (uo_role v) = true ∧
    (completed !! uo_operation_id v = Some x ∨
     ∃ oc, oc ∈ done ∧ oc_operation_id oc = uo_operation_id v ∧ oc_asset_id oc = Some x).

Lemma video_known_mono group done done' x :
  done ⊆ done' → video_known_as group done x → video_known_as group done' x.
Proof.
  intros Hd (v & Hv & Hvid & Hx). exists v. split; [done|]. split; [done|].
  destruct Hx as [?|(oc & Hoc & ?)]; [by left|right]. exists oc. split; [by apply Hd|done].
Qed.

(** What every upload of a group satisfies. *)
Definition group_upload (group : OperationGroup) (done : list OperationOutcome)
    (req : UploadRequest) : Prop :=
  ∃ o src vid, o ∈ group ∧ completed !! uo_operation_id o = None
    ∧ verified !! uo_operation_id o = Some src ∧ req = request_of o src vid
    ∧ (is_image (uo_role o) = true → ∃ x, vid = Some x ∧ video_known_as group done x).

Lemma operation_uploads o src vid (w w' : Traced W) r :
  apply_operation config o src vid w = (r, w') →
  ∃ t, w'.2 = w.2 ++ t ∧ (∀ req res, AUpload req res ∈ t → req = request_of o src vid)
    ∧ ∀ oc, outcome_of r = Some oc → oc_operation_id oc = uo_operation_id o.
Proof.
  intros (t & Ht & [Hp _ _ Ho _])%apply_operation_eq%apply_loop_facts. exists t.
  split; [done|]. split.
  - intros req res (t1 & t2 & Heq)%list_elem_of_split.
    by destruct (protocol_upload _ _ _ _ _ _ _ _ _ Hp Heq) as [? _].
  - intros oc Hoc. by destruct (Ho oc Hoc) as [? _].
Qed.

Lemma group_uploads full group done vid (w w' : Traced W) g :
  group ⊆ full → (∀ x, vid = Some x → video_known_as full done x) →
  apply_group_from completed verified config group done vid w = (g, w') →
  done ⊆ outcomes g ∧
  ∃ t, w'.2 = w.2 ++ t ∧ ∀ req res, AUpload req res ∈ t → group_upload full (outcomes g) req.
Proof.
  revert done vid w. induction group as [|o group IH]; intros done vid w Hsub Hvid; cbn [apply_group_from].
  { intros [= <- <-]. split; [done|]. exists []. rewrite app_nil_r. split; [done|set_solver]. }
  destruct (is_cancelled w) as [[] w1] eqn:Hc; apply traced_cancelled in Hc; rewrite <-Hc.
  { intros [= <- <-]. split; [done|]. exists []. rewrite app_nil_r. split; [done|set_solver]. }
  assert (group ⊆ full) as Hsub' by set_solver. assert (o ∈ full) as Ho by set_solver.
  destruct (completed !! uo_operation_id o) as [a|] eqn:Hcm.
  { apply IH; [done|]. intros x. destruct (is_video (uo_role o)) eqn:Hv; [|apply Hvid].
    intros [= ->]. exists o. split; [done|]. split; [done|by left]. }
  assert (∀ oc w2, apply_group_from completed verified config group (done ++ [oc]) vid w2 = (g, w') →
    done ⊆ outcomes g ∧ ∃ t, w'.2 = w2.2 ++ t ∧
      ∀ req res, AUpload req res ∈ t → group_upload full (outcomes g) req) as Hnext.
  { intros oc w2 Hrun. apply IH in Hrun as [Hd Ht]; [|done|].
    - split; [set_solver|done].
    - intros x Hx. eapply video_known_mono; [|by apply Hvid]. set_solver. }
  destruct (is_image (uo_role o) && negb (is_some vid)) eqn:Himg; [by apply Hnext|].
  destruct (verified !! uo_operation_id o) as [src|] eqn:Hsrc; [|by apply Hnext].
  destruct (apply_operation config o src vid w1) as [r w2] eqn:Ha.
  apply operation_uploads in Ha as (t & Ht & Hup & Hid).
  assert (∀ done', done ⊆ done' → ∀ req res, AUpload req res ∈ t → group_upload full done' req) as Hown.
  { intros done' Hd req res Hin. exists o, src, vid. split; [done|]. split; [done|].
    split; [done|]. split; [by eapply Hup|]. intros Hi. rewrite Hi in Himg.
    destruct vid as [x|]; [|done]. exists x. split; [done|].
    eapply video_known_mono; [exact Hd|by apply Hvid]. }
  destruct r as [oc|oc].
  - destruct (negb (is_some (oc_asset_id oc)) && is_video (uo_role o)).
    { intros [= <- <-]. split; [set_solver|]. exists t. split; [done|]. apply Hown. set_solver. }
    intros Hrun. apply IH in Hrun as (Hd & t' & Ht' & Hup'); [|done|].
    + split; [set_solver|]. exists (t ++ t'). rewrite Ht', Ht, app_assoc. split; [done|].
      intros req res [Hin|Hin]%elem_of_app; [eapply Hown; [set_solver|done]|by eapply Hup'].
    + intros x. destruct (is_video (uo_role o)) eqn:Hv.
      * intros Hx. exists o. split; [done|]. split; [done|]. right. exists oc.
        split; [set_solver|]. split; [by apply Hid|done].
      * intros Hx. eapply video_known_mono; [|by apply Hvid]. set_solver.
  - intros [= <- <-]. split; [set_solver|]. exists t. split; [done|]. apply Hown. set_solver.
Qed.

(** C28: a group never uploads an operation the journal already knows as
    completed, nor one whose file was not verified, and the image of a live
    photo is only ever uploaded together with the identifier its video has
    in the journal or was just given by the server. *)
Theorem group_uploads_safe group w g w' t req res :
  apply_group completed verified config group (w, []) = (g, (w', t)) →
  AUpload req res ∈ t → group_upload group (outcomes g) req.
Proof.
  intros Hrun Hin. apply (group_uploads group) in Hrun as (_ & t' & Ht & Hup); [|done..].
  simpl in Ht. subst t'. by eapply Hup.
Qed.
End group_trace.

(** *** Concrete groups *)

(** A server that knows nothing and accepts everything. *)
Definition accepting_client (W : Type) : UploadClient W := {|
  duplicate_check _ _ w := (Ok Accept, w); upload _ w := (Ok (UploadCreated, "server-id"), w) |}.
Lemma accepting_client_laws (W : Type) : @UploadClientLaws W (accepting_client W).
Proof. split; simpl; [done|by intros _ w r id w' [= <- <- <-]]. Qed.
Definition steady_runtime (W : Type) : Runtime W := {|
  wait _ w := (true, w); budget _ := new_budget 5; set_budget _ w := w |}.
Definition steady_storage (W : Type) : Storage W := {| storage w := (Ok 1700000000000, true, w) |}.

Definition sample_digest_3 : string := String "d" (String.substring 1 63 sample_digest).

(** Two images that name the same video. *)
Definition shared_video : list UploadOperation :=
  [sample_operation "IMG_1.HEIC" sample_digest None (LivePhotoImage "p" sample_digest_2);
   sample_operation "IMG_1.JPG" sample_digest_3 None (LivePhotoImage "p" sample_digest_2);
   sample_operation "IMG_1.MOV" sample_digest_2 None (LivePhotoVideo "p")].

Section witnesses.
#[local] Existing Instances sample_codec sample_time chunk_files chunk_cancellation
  accepting_client steady_runtime.

Lemma sample_pair_well_formed : upload_well_formed (sample_upload_plan 1 Folder sample_pair).
Proof. apply upload_validate_Ok, sample_pair_valid. Qed.

Lemma pending_groups_exact_witness :
  ∃ groups, pending_groups ∅ (sample_upload_plan 1 Folder sample_pair) = Ok groups
    ∧ NoDup (concat groups).
Proof.
  destruct (pending_groups_exact ∅ _ sample_pair_well_formed) as [_ Hall].
  eexists. split; [vm_compute; reflexivity|]. apply Hall. vm_compute. reflexivity.
Defined.

Lemma second_image_dropped_witness :
  ∃ groups, pending_groups ∅ (sample_upload_plan 1 Folder shared_video) = Ok groups
    ∧ sample_operation "IMG_1.JPG" sample_digest_3 None (LivePhotoImage "p" sample_digest_2)
      ∉ concat groups.
Proof.
  eexists. split; [vm_compute; reflexivity|].
  eapply (second_image_dropped ∅ (sample_upload_plan 1 Folder shared_video) _ sample_digest_2);
    [apply upload_validate_Ok; vm_compute; reflexivity|vm_compute; reflexivity..|discriminate|].
  reflexivity.
Defined.

Lemma group_uploads_safe_witness : ∃ g t req,
  apply_group ∅ {[sample_digest := sample_verified]} default_config [sample_op] ([], [])
    = (g, ([], t))
  ∧ group_upload ∅ {[sample_digest := sample_verified]} [sample_op] (outcomes g) req.
Proof.
  eexists _, _, (request_of sample_op sample_verified None). split; [vm_compute; reflexivity|].
  eapply (group_uploads_safe ∅ {[sample_digest := sample_verified]} default_config [sample_op] []);
    [vm_compute; reflexivity|]. right. left.
Defined.
End witnesses.
