(* ===== verification/Apply.v ===== *)
(** * Apply: one run over an upload plan
    ([crates/immich-executor/src/apply.rs])

    A run verifies the source, opens the journal, schedules the groups of
    [Groups], and records every outcome.  The groups run
    concurrently under [buffer_unordered], which is the parameter [Scheduler]:
    each group runs once, in an environment the others may change, and the
    results arrive in any order. *)
From Stdlib Require Import Ascii.
From S2P Require Export Prelude Text Scan Upload Client Executor Planner Verify Journal Operation Groups.

(** ** Data *)

Definition APPLY_REPORT_SCHEMA_VERSION : Z := 1.

Record ApplyReport := {
  ar_schema_version : Z;
  ar_dry_run : bool;
  ar_planned : Z;
  ar_would_upload : Z;
  ar_created : Z;
  ar_duplicate : Z;
  ar_resumed : Z;
  ar_retried : Z;
  ar_failed : Z;
  ar_indeterminate : Z;
  ar_cancelled : bool;
}.

(** [ApplyReport::new] *)
Definition new_report (planned : Z) (dry_run : bool) : ApplyReport := {|
  ar_schema_version := APPLY_REPORT_SCHEMA_VERSION; ar_dry_run := dry_run;
  ar_planned := planned; ar_would_upload := 0; ar_created := 0; ar_duplicate := 0;
  ar_resumed := 0; ar_retried := 0; ar_failed := 0; ar_indeterminate := 0;
  ar_cancelled := false |}.

(** ** Recording *)

Definition record_report (report : ApplyReport) (outcome : OperationOutcome) : ApplyReport :=
  let bump k n := if bool_decide (oc_kind outcome = k) then sat_add n 1 else n in
  {| ar_schema_version := ar_schema_version report; ar_dry_run := ar_dry_run report;
     ar_planned := ar_planned report; ar_would_upload := ar_would_upload report;
     ar_created := bump Created (ar_created report);
     ar_duplicate := bump Duplicated (ar_duplicate report);
     ar_resumed := ar_resumed report;
     ar_retried := sat_add (ar_retried report) (oc_retries outcome);
     ar_failed := bump Failed (ar_failed report);
     ar_indeterminate := bump Indeterminate (ar_indeterminate report);
     ar_cancelled := ar_cancelled report |}.

Definition set_cancelled (report : ApplyReport) : ApplyReport := {|
  ar_schema_version := ar_schema_version report; ar_dry_run := ar_dry_run report;
  ar_planned := ar_planned report; ar_would_upload := ar_would_upload report;
  ar_created := ar_created report; ar_duplicate := ar_duplicate report;
  ar_resumed := ar_resumed report; ar_retried := ar_retried report;
  ar_failed := ar_failed report; ar_indeterminate := ar_indeterminate report;
  ar_cancelled := true |}.

Definition set_resumed (report : ApplyReport) (n : Z) : ApplyReport := {|
  ar_schema_version := ar_schema_version report; ar_dry_run := ar_dry_run report;
  ar_planned := ar_planned report; ar_would_upload := ar_would_upload report;
  ar_created := ar_created report; ar_duplicate := ar_duplicate report;
  ar_resumed := n; ar_retried := ar_retried report; ar_failed := ar_failed report;
  ar_indeterminate := ar_indeterminate report; ar_cancelled := ar_cancelled report |}.

Definition set_would_upload (report : ApplyReport) (n : Z) : ApplyReport := {|
  ar_schema_version := ar_schema_version report; ar_dry_run := ar_dry_run report;
  ar_planned := ar_planned report; ar_would_upload := n;
  ar_created := ar_created report; ar_duplicate := ar_duplicate report;
  ar_resumed := ar_resumed report; ar_retried := ar_retried report; ar_failed := ar_failed report;
  ar_indeterminate := ar_indeterminate report; ar_cancelled := ar_cancelled report |}.

(** [futures_util]'s [buffer_unordered]: a stream of the results of some futures,
    at most [concurrency] of which are driven at a time.  [next] may let any of
    them make progress and returns the result of one that has completed; dropping
    the stream drops those that have not. *)
Class Scheduler (W : Type) := {
  stream : Type;
  buffer_unordered : Z → list (W → GroupResult * W) → stream;
  next : stream → W → option (GroupResult * stream) * W;
}.
(** Every future completes once, in whatever world the others leave to it, and
    the stream ends when all have. *)
Class SchedulerLaws (W : Type) `{Scheduler W} : Prop := {
  stream_spec : ∃ remaining : stream → list (W → GroupResult * W) → Prop,
    (∀ n fs, 1 <= n → remaining (buffer_unordered n fs) fs)
    ∧ ∀ s fs w, remaining s fs →
      match next s w with
      | (None, _) => fs = []
      | (Some (g, s'), _) => ∃ f fs', fs ≡ₚ f :: fs' ∧ remaining s' fs' ∧ ∃ w1 w2, f w1 = (g, w2)
      end;
}.

Section run.
  Context {W : Type} `{Cancellation W, UploadClient W, Runtime W, Codec, TimeLib, FileSystem W,
    SourceScan W, Storage W, Scheduler W}.

(** [journal.append(..)?; record_report(..)] for the outcomes of one group *)
Fixpoint record_outcomes (l : list OperationOutcome) (c : Connection) (report : ApplyReport) (w : W) :
    result ExecutorError ApplyReport * Connection * W :=
  match l with
  | [] => (Ok report, c, w)
  | outcome :: l =>
    let '(now, available, w) := storage w in
    match append (event_of outcome) now available c with
    | (Err e, c) => (Err e, c, w)
    | (Ok _, c) => record_outcomes l c (record_report report outcome) w
    end
  end.

(** [while let Some(group_result) = results.next().await]; the fuel is one more
    than the number of groups. *)
Fixpoint record_groups (fuel : nat) (results : stream) (c : Connection) (report : ApplyReport) (w : W) :
    option (result ExecutorError ApplyReport * Connection * W) :=
  match fuel with
  | O => None
  | S fuel =>
    match next results w with
    | (None, w) => Some (Ok report, c, w)
    | (Some (g, results), w) =>
      let report := if cancelled g then set_cancelled report else report in
      match record_outcomes (outcomes g) c report w with
      | (Err e, c, w) => Some (Err e, c, w)
      | (Ok report, c, w) => record_groups fuel results c report w
      end
    end
  end.

Definition open_checkpoint (file : CheckpointFile Connection) (plan : UploadPlan)
    (backup_reference_sha256 : option string) (available : bool) :
    result ExecutorError Connection :=
  match backup_reference_sha256 with
  | Some digest => open_production file plan digest available
  | None => open_journal file plan available
  end.

(** [apply_upload_inner]; returns the journal as well, when it was opened. *)
Definition apply_upload_inner (plan : UploadPlan) (root : string) (file : CheckpointFile Connection)
    (config : UploadExecutionConfig) (compatibility : ServerCompatibility)
    (backup_reference_sha256 : option string) (w : W) :
    option (result ExecutorError ApplyReport * option Connection * W) :=
  match (_ ← lift (config_validate config);
         _ ← lift (fail_if (negb (bool_decide (compatibility = up_server plan))) invalid_plan);
         verify_source plan root config) w with
  | (Err e, w) => Some (Err e, None, w)
  | (Ok verified, w) =>
    let '(_, available, w) := storage w in
    match open_checkpoint file plan backup_reference_sha256 available with
    | Err e => Some (Err e, None, w)
    | Ok journal =>
      let '(_, readable, w) := storage w in
      match (completed ← completed_assets readable journal;
             _ ← validate_completed completed plan;
             groups ← pending_groups completed plan;
             Ok (completed, groups)) with
      | Err e => Some (Err e, Some journal, w)
      | Ok (completed, groups) =>
        let report := set_resumed (new_report (ups_operations (up_summary plan)) false)
          (Z.of_nat (size completed)) in
        let w := set_budget (new_budget (max_retries_per_run config)) w in
        let results := buffer_unordered (concurrency config)
          (map (apply_group completed verified config) groups) in
        '(r, journal, w) ← record_groups (S (length groups)) results journal report w;
        Some (r, Some journal, w)
      end
    end
  end.

(** What [ImmichUploadClient] knows of itself. *)
Record ClientIdentity := { compatibility : ServerCompatibility; is_production : bool }.

Definition apply_upload (plan : UploadPlan) (root : string) (file : CheckpointFile Connection)
    (config : UploadExecutionConfig) (client : ClientIdentity) (w : W) :
    option (result ExecutorError ApplyReport * option Connection * W) :=
  if is_production client then Some (Err invalid_plan, None, w)
  else apply_upload_inner plan root file config (compatibility client) None w.

Definition apply_production_upload (plan : UploadPlan) (root : string) (file : CheckpointFile Connection)
    (config : UploadExecutionConfig) (client : ClientIdentity)
    (authorization : ProductionUploadAuthorization) (w : W) :
    option (result ExecutorError ApplyReport * option Connection * W) :=
  if negb (upload_matches_plan authorization plan) || negb (is_production client)
  then Some (Err invalid_plan, None, w)
  else apply_upload_inner plan root file config (compatibility client)
    (Some (pua_backup_reference_sha256 authorization)) w.

Definition dry_run_upload (plan : UploadPlan) (root : string) (file : CheckpointFile Connection)
    (config : UploadExecutionConfig) : io W ExecutorError ApplyReport :=
  _ ← lift (config_validate config);
  _ ← verify_source plan root config;
  available ← (λ w, let '(_, available, w) := storage w in (Ok available, w));
  completed ← lift (validate_existing file plan available);
  _ ← lift (validate_completed completed plan);
  let resumed := Z.of_nat (size completed) in
  let report := set_resumed (new_report (ups_operations (up_summary plan)) true) resumed in
  mret (set_would_upload report (sat_sub (ar_planned report) resumed)).
End run.

(** ** What a run records *)

Definition is_kind (k : OutcomeKind) (oc : OperationOutcome) : bool := bool_decide (oc_kind oc = k).

(** The row the journal appended for an outcome. *)
Definition recorded (oc : OperationOutcome) (r : Row) : Prop :=
  ∃ t, r = row_of (event_of oc) t ∧ oc_operation_id oc ≠ "" ∧ asset_contract (event_of oc) = true.

Lemma recorded_id oc r : recorded oc r → row_operation_id r = oc_operation_id oc.
Proof. by intros (t & -> & _). Qed.

Lemma recorded_ids l rows : Forall2 recorded l rows → map row_operation_id rows = map oc_operation_id l.
Proof. induction 1 as [|oc r l rows H _ IH]; simpl; [done|]. by rewrite IH, (recorded_id _ _ H). Qed.

Lemma recorded_ok l rows : Forall2 recorded l rows → Forall row_ok rows.
Proof.
  induction 1 as [|oc r l rows (t & -> & Hid & Hc) _ IH]; constructor; [by apply row_of_ok|done].
Qed.

(** Counting is saturating, so it agrees with the true number. *)
Lemma fold_bump {B} (get : B → Z) (step : B → OperationOutcome → B) (p : OperationOutcome → bool) :
  (∀ s oc, get (step s oc) = if p oc then sat_add (get s) 1 else get s) →
  ∀ l s, get s <= u64_max → get (foldl step s l) = sat_add (get s) (count p l).
Proof.
  intros Hstep l. induction l as [|oc l IH]; intros s Hs; simpl.
  { unfold sat_add, count, zlen. simpl. lia. }
  assert (get (step s oc) <= u64_max) as Hs'.
  { rewrite Hstep. unfold sat_add. destruct (p oc); lia. }
  rewrite IH, Hstep by done. pose proof (count_nonneg p l). unfold sat_add, count in *.
  simpl. destruct (p oc); rewrite ?zlen_cons; lia.
Qed.

(** The counters a run adds to a report. *)
Record report_of (report : ApplyReport) (l : list OperationOutcome) (report' : ApplyReport) : Prop := {
  ro_planned : ar_planned report' = ar_planned report;
  ro_resumed : ar_resumed report' = ar_resumed report;
  ro_created : ar_created report' = sat_add (ar_created report) (count (is_kind Created) l);
  ro_duplicate : ar_duplicate report' = sat_add (ar_duplicate report) (count (is_kind Duplicated) l);
  ro_failed : ar_failed report' = sat_add (ar_failed report) (count (is_kind Failed) l);
  ro_indeterminate :
    ar_indeterminate report' = sat_add (ar_indeterminate report) (count (is_kind Indeterminate) l);
}.

Lemma fold_keep {B C} (get : B → C) (step : B → OperationOutcome → B) :
  (∀ s oc, get (step s oc) = get s) → ∀ l s, get (foldl step s l) = get s.
Proof. intros Hstep l. induction l as [|oc l IH]; intros s; simpl; [done|]. by rewrite IH. Qed.

Definition in_range (r : ApplyReport) : Prop :=
  ar_created r <= u64_max ∧ ar_duplicate r <= u64_max ∧ ar_failed r <= u64_max
  ∧ ar_indeterminate r <= u64_max.

Lemma bump_eq k oc n :
  (if bool_decide (oc_kind oc = k) then sat_add n 1 else n) = if is_kind k oc then sat_add n 1 else n.
Proof. done. Qed.

Lemma record_report_of report l :
  in_range report → report_of report l (foldl record_report report l).
Proof.
  intros (H1 & H2 & H3 & H4). split.
  - by apply (fold_keep ar_planned).
  - by apply (fold_keep ar_resumed).
  - by apply (fold_bump ar_created).
  - by apply (fold_bump ar_duplicate).
  - by apply (fold_bump ar_failed).
  - by apply (fold_bump ar_indeterminate).
Qed.

(** The four counters partition the outcomes. *)
Lemma count_kinds l :
  count (is_kind Created) l + count (is_kind Duplicated) l + count (is_kind Failed) l
    + count (is_kind Indeterminate) l = zlen l.
Proof.
  induction l as [|oc l IH]; [done|]. rewrite !count_cons, zlen_cons, <-IH. unfold is_kind.
  destruct (oc_kind oc); simpl; lia.
Qed.

Section recording.
  Context {W : Type} `{Storage W}.

Lemma record_outcomes_facts l c report (w : W) r c' w' :
  record_outcomes l c report w = (r, c', w') →
  ∃ l1 l2 rows, l = l1 ++ l2 ∧ Forall2 recorded l1 rows ∧ events c' = events c ++ rows
    ∧ metadata c' = metadata c
    ∧ ∀ report', r = Ok report' → l2 = [] ∧ report' = foldl record_report report l.
Proof.
  revert c report w. induction l as [|oc l IH]; intros c report w; simpl.
  { intros [= <- <- <-]. exists [], [], []. split_and!; [done|constructor|by rewrite app_nil_r|done|].
    by intros ? [= ->]. }
  destruct (storage w) as [[now av] w1]. destruct (append (event_of oc) now av c) as [ra c1] eqn:Ha.
  apply append_cases in Ha as [(e & -> & ->)|(-> & t & _ & Hid & Hct & Hev & Hm & _)].
  { intros [= <- <- <-]. exists [], (oc :: l), [].
    split_and!; [done|constructor|by rewrite app_nil_r|done|done]. }
  intros (l1 & l2 & rows & -> & Hrec & Hev' & Hm' & Hr)%IH.
  exists (oc :: l1), l2, (row_of (event_of oc) t :: rows). split_and!; [done| | | |done].
  - constructor; [by exists t|done].
  - by rewrite Hev', Hev, <-app_assoc.
  - by rewrite Hm'.
Qed.

(** The counters of a [u64]. *)
Definition counters_range (r : ApplyReport) : Prop :=
  (0 <= ar_created r ∧ 0 <= ar_duplicate r ∧ 0 <= ar_failed r ∧ 0 <= ar_indeterminate r)
  ∧ in_range r.

Lemma report_of_range report l report' :
  report_of report l report' → counters_range report → counters_range report'.
Proof.
  intros [_ _ Hc Hd Hf Hi] ((?&?&?&?) & _).
  pose proof (count_nonneg (is_kind Created) l). pose proof (count_nonneg (is_kind Duplicated) l).
  pose proof (count_nonneg (is_kind Failed) l). pose proof (count_nonneg (is_kind Indeterminate) l).
  unfold counters_range, in_range. rewrite Hc, Hd, Hf, Hi. unfold sat_add.
  assert (0 <= u64_max) by done. lia.
Qed.

Lemma report_of_app report l1 report1 l2 report2 :
  0 <= ar_created report ∧ 0 <= ar_duplicate report ∧ 0 <= ar_failed report
    ∧ 0 <= ar_indeterminate report →
  report_of report l1 report1 → report_of report1 l2 report2 → report_of report (l1 ++ l2) report2.
Proof.
  intros (?&?&?&?) [] []. split; try congruence;
    repeat match goal with H : _ = sat_add _ _ |- _ => revert H end;
    unfold sat_add, count; rewrite List.filter_app; unfold zlen; rewrite length_app; lia.
Qed.

Definition all_outcomes (gs : list GroupResult) : list OperationOutcome := concat (map outcomes gs).

(** What was recorded of the results that arrived, and what the report says if
    none was lost. *)
Definition groups_recorded (gs : list GroupResult) (c : Connection) (report : ApplyReport)
    (r : result ExecutorError ApplyReport) (c' : Connection) : Prop :=
  ∃ l1 l2 rows, all_outcomes gs = l1 ++ l2 ∧ Forall2 recorded l1 rows
    ∧ events c' = events c ++ rows ∧ metadata c' = metadata c
    ∧ ∀ report', r = Ok report' → counters_range report → l2 = [] ∧
        report_of report (all_outcomes gs) report'
        ∧ ar_cancelled report' = ar_cancelled report || existsb cancelled gs.

Lemma groups_recorded_nil c report : groups_recorded [] c report (Ok report) c.
Proof.
  exists [], [], []. split_and!; [done|constructor|by rewrite app_nil_r|done|].
  intros ? [= ->] Hr. split_and!; [done| |by rewrite orb_false_r].
  apply (record_report_of report' []), Hr.
Qed.

Lemma groups_recorded_cons g gs c report report1 (w : W) c1 w1 r c' :
  record_outcomes (outcomes g) c (if cancelled g then set_cancelled report else report) w
    = (Ok report1, c1, w1) →
  groups_recorded gs c1 report1 r c' → groups_recorded (g :: gs) c report r c'.
Proof.
  intros (l1 & l2 & rows & Hl & Hrec & Hev & Hm & Hok)%record_outcomes_facts
    (k1 & k2 & rows' & Hk & Hrec' & Hev' & Hm' & Hok').
  destruct (Hok report1 eq_refl) as [-> Hrep]. rewrite app_nil_r in Hl. subst l1.
  exists (outcomes g ++ k1), k2, (rows ++ rows').
  unfold all_outcomes. simpl. fold (all_outcomes gs). rewrite Hk, app_assoc.
  split_and!; [done|by apply Forall2_app|by rewrite Hev', Hev, app_assoc|by rewrite Hm'|].
  intros report' Hr Hrange. rewrite <-app_assoc, <-Hk.
  set (report0 := if cancelled g then set_cancelled report else report) in *.
  assert (counters_range report0) as Hrange0 by (unfold report0; by destruct (cancelled g)).
  assert (report_of report (outcomes g) report1) as Hg.
  { subst report1. pose proof (record_report_of report0 (outcomes g) (proj2 Hrange0)) as [].
    unfold report0 in *. split; destruct (cancelled g); done. }
  destruct (Hok' report' Hr) as (-> & Hrep' & Hcan); [by eapply report_of_range|].
  split_and!; [done| |].
  - eapply report_of_app; [apply Hrange|done|done].
  - rewrite Hcan, orb_assoc. f_equal. subst report1.
    rewrite (fold_keep ar_cancelled) by done. unfold report0.
    destruct (cancelled g); simpl; [by rewrite orb_true_r|by rewrite orb_false_r].
Qed.

Lemma groups_recorded_lost g c report (w : W) e c1 w1 :
  record_outcomes (outcomes g) c (if cancelled g then set_cancelled report else report) w
    = (Err e, c1, w1) → groups_recorded [g] c report (Err e) c1.
Proof.
  intros (l1 & l2 & rows & Hl & Hrec & Hev & Hm & Hok)%record_outcomes_facts.
  exists l1, l2, rows. unfold all_outcomes. simpl. rewrite app_nil_r. by split_and!.
Qed.

(** The loop takes the results of some of the futures, of all of them unless the
    journal fails, and always ends. *)
Lemma record_groups_facts `{Scheduler W} (remaining : stream → list (W → GroupResult * W) → Prop) :
  (∀ s fs w, remaining s fs →
     match next s w with
     | (None, _) => fs = []
     | (Some (g, s'), _) => ∃ f fs', fs ≡ₚ f :: fs' ∧ remaining s' fs' ∧ ∃ w1 w2, f w1 = (g, w2)
     end) →
  ∀ fuel s fs c report w, remaining s fs → (length fs < fuel)%nat →
  ∃ r c' w' gs taken rest, record_groups fuel s c report w = Some (r, c', w')
    ∧ fs ≡ₚ taken ++ rest ∧ Forall2 (λ f g, ∃ w1 w2, f w1 = (g, w2)) taken gs
    ∧ groups_recorded gs c report r c'.
Proof.
  intros Hspec fuel. induction fuel as [|fuel IH]; intros s fs c report w Hs Hf; [lia|].
  cbn [record_groups]. specialize (Hspec s fs w Hs).
  destruct (next s w) as [[[g s']|] w1].
  - destruct Hspec as (f & fs' & Hperm & Hs' & Hrun). apply Permutation_length in Hperm as Hlen.
    simpl in Hlen. destruct (record_outcomes _ c _ w1) as [[[report1|e] c1] w2] eqn:Ho.
    + destruct (IH s' fs' c1 report1 w2 Hs') as (r & c' & w' & gs & taken & rest & Hr & Hp & Hall & Hg);
        [lia|].
      exists r, c', w', (g :: gs), (f :: taken), rest. split_and!; [done| |by constructor|].
      * by rewrite Hperm, Hp.
      * by eapply groups_recorded_cons.
    + exists (Err e), c1, w2, [g], [f], fs'. split_and!; [done|done|by repeat constructor|].
      by eapply groups_recorded_lost.
  - subst fs. exists (Ok report), c, w1, [], [], []. split_and!; [done|done|constructor|].
    apply groups_recorded_nil.
Qed.
End recording.

(** ** A whole run *)
Section run_facts.
  Context {W : Type} `{Cancellation W, UploadClient W, !UploadClientLaws W, Runtime W, Codec, TimeLib,
    FileSystem W, SourceScan W, Storage W, Scheduler W, !SchedulerLaws W}.

Lemma concat_perm {A} (l k : list (list A)) : k ≡ₚ l → concat l ≡ₚ concat k.
Proof.
  induction 1 as [|x l k _ IH|x y l|l1 l2 l3 _ IH1 _ IH2]; simpl; [done|by rewrite IH| |by etrans].
  rewrite !app_assoc. apply Permutation_app_tail, Permutation_app_comm.
Qed.

Lemma NoDup_submseteq_l {A} (l k : list A) : l ⊆+ k → NoDup k → NoDup l.
Proof. intros [k' ->]%submseteq_Permutation. by intros [? _]%NoDup_app. Qed.

(** The outcomes of the groups that were taken: each belongs to an operation still
    to be done, at most one to each. *)
Lemma scheduled_outcomes completed verified config plan groups taken rest gs :
  upload_well_formed plan → pending_groups completed plan = Ok groups →
  map (apply_group completed verified config) groups ≡ₚ taken ++ rest →
  Forall2 (λ (f : W → GroupResult * W) g, ∃ w1 w2, f w1 = (g, w2)) taken gs →
  map oc_operation_id (all_outcomes gs)
  ⊆+ map uo_operation_id (List.filter (pending completed) (up_operations plan)).
Proof.
  intros Hwf [_ ->]%(pending_groups_Ok completed plan Hwf) Hp Hall.
  symmetry in Hp. apply Permutation_map_inv in Hp as (groups & Heq & Hperm).
  symmetry in Heq. apply map_eq_app in Heq as (g1 & g2 & -> & <- & <-).
  trans (map uo_operation_id (List.filter (pending completed) (concat (g1 ++ g2)))).
  - rewrite concat_app, List.filter_app, map_app. apply submseteq_inserts_r, sublist_submseteq.
    clear Hperm. revert gs Hall. induction g1 as [|g g1 IH]; intros rs Hall;
      inversion Hall as [|? r ? rs' (w1 & w2 & Hrun) Hall']; subst; [done|].
    apply group_outcomes in Hrun as (l & Hl & [Hs _]). simpl in Hl. subst l.
    unfold all_outcomes. simpl. rewrite List.filter_app, !map_app.
    apply sublist_app; [done|by apply IH].
  - apply (fmap_submseteq uo_operation_id), NoDup_submseteq.
    + apply NoDup_ListNoDup, List.NoDup_filter, NoDup_ListNoDup.
      rewrite (concat_perm _ _ Hperm). by apply (groups_NoDup completed plan Hwf).
    + intros o. rewrite !list_elem_of_In, !filter_In, <-!list_elem_of_In, (concat_perm _ _ Hperm).
      intros [Ho ?]. split; [|done]. by eapply (groups_subset completed plan).
Qed.

Lemma config_valid_concurrency config :
  config_validate config = Ok tt → 1 <= concurrency config.
Proof. unfold config_validate, config_valid. intros Hc. result_inv. lia. Qed.

(** Every completed operation is one of the plan, so what is done and what is to
    be done add up. *)
Lemma pending_count completed plan :
  upload_well_formed plan → validate_completed completed plan = Ok tt →
  count (pending completed) (up_operations plan) + Z.of_nat (size completed)
  = zlen (up_operations plan).
Proof.
  intros Hwf. unfold validate_completed. intros Hv. result_inv.
  rewrite negb_false_iff, bool_decide_eq_true in *.
  assert (dom completed = list_to_set (map uo_operation_id
    (List.filter (λ o, is_completed_op completed (uo_operation_id o)) (up_operations plan)))) as Hdom.
  { apply set_eq. intros k. rewrite elem_of_list_to_set. split.
    - intros Hk. match goal with H : dom completed ⊆ _ |- _ => apply H in Hk as Hin end.
      apply elem_of_list_to_set, Prelude.elem_of_map in Hin as (o & -> & Ho).
      apply Prelude.elem_of_map. exists o. split; [done|].
      apply list_elem_of_In, filter_In. split; [by apply list_elem_of_In|].
      apply elem_of_dom in Hk as [x Hx]. unfold is_completed_op. by rewrite Hx.
    - intros (o & -> & Ho)%Prelude.elem_of_map.
      apply list_elem_of_In, filter_In in Ho as [_ Ho]. unfold is_completed_op in Ho.
      apply elem_of_dom. by destruct (completed !! _). }
  rewrite <-size_dom, Hdom, size_list_to_set by by apply NoDup_map_filter, (uwf_ids _ Hwf).
  rewrite length_map. clear. unfold count, zlen, pending.
  induction (up_operations plan) as [|o l IH]; [done|]. simpl.
  destruct (is_completed_op completed _); simpl; lia.
Qed.

Lemma replay_app_keeps rows0 rows op x :
  replay rows0 !! op = Some x → op ∉ map row_operation_id rows →
  replay (rows0 ++ rows) !! op = Some x.
Proof.
  intros Hx Hop. unfold replay in *. rewrite foldl_app, foldl_replay_lookup.
  destruct (last_row row_operation_id op rows) as [r|] eqn:Hr; [|done].
  apply last_row_op in Hr as [<- Hr]. destruct Hop. apply Prelude.elem_of_map. by exists r.
Qed.

(** A checkpoint only this program wrote, or none. *)
Definition own_checkpoint (file : CheckpointFile Connection) : Prop :=
  match file with Database c => journal_reachable c | _ => True end.

Lemma open_checkpoint_reachable file plan backup available j :
  own_checkpoint file → open_checkpoint file plan backup available = Ok j → journal_reachable j.
Proof.
  intros Hown. assert (∀ b, open_with_scope file plan b available = Ok j → journal_reachable j) as Hopen.
  { intros b Ho. unfold open_with_scope in Ho. result_inv.
    destruct (bind_or_validate plan b available (configured file)) as [[[]|] c] eqn:Hb; [|done].
    injection Ho as <-. eapply reachable_step; [|by eapply step_bind].
    destruct file; simpl in *; try (apply reachable_fresh).
    eapply reachable_step; [exact Hown|apply step_reopen]. }
  unfold open_checkpoint, open_production. destruct backup; [|apply Hopen].
  intros Ho. result_inv. by eapply Hopen.
Qed.

(** The phases of a run: it always returns, and when it opened a journal, that
    is the one the results were recorded in. *)
Lemma apply_upload_inner_cases plan root file config compat backup (w : W) :
  ∃ r j w', apply_upload_inner plan root file config compat backup w = Some (r, j, w') ∧
  ∀ journal, j = Some journal →
  upload_well_formed plan ∧ compat = up_server plan ∧
  ∃ available j0, open_checkpoint file plan backup available = Ok j0 ∧
    ((is_ok r = false ∧ journal = j0) ∨
     ∃ completed gs, completed_assets true j0 = Ok completed
       ∧ validate_completed completed plan = Ok tt
       ∧ map oc_operation_id (all_outcomes gs)
         ⊆+ map uo_operation_id (List.filter (pending completed) (up_operations plan))
       ∧ groups_recorded gs j0 (set_resumed (new_report (ups_operations (up_summary plan)) false)
           (Z.of_nat (size completed))) r journal).
Proof.
  unfold apply_upload_inner.
  destruct ((_ ← lift (config_validate config); _) w) as [[verified|e] w0] eqn:Hpre;
    [|by eexists _, None, _].
  apply io_bind_Ok in Hpre as ([] & ? & [Hc%config_valid_concurrency _]%lift_Ok &
    ([] & ? & [Hs _]%lift_Ok & Hv%verify_source_sound)%io_bind_Ok).
  destruct Hv as [Hwf _]. result_inv. rewrite negb_false_iff, bool_decide_eq_true in *.
  destruct (storage w0) as [[now available] w1].
  destruct (open_checkpoint _ _ _ _) as [j0|e] eqn:Ho; [|by eexists _, None, _].
  destruct (storage w1) as [[now2 readable] w2].
  destruct (completed ← _; _) as [[completed groups]|e] eqn:Hplan; cbn beta iota.
  2: { eexists _, _, _. split; [done|]. intros journal [= <-]. split_and!; [done|done|].
    exists available, j0. split; [done|by left]. }
  result_inv.
  destruct stream_spec as (remaining & Hstart & Hnext).
  specialize (Hstart _ (map (apply_group completed verified config) groups) Hc).
  destruct (record_groups_facts remaining Hnext (S (length groups)) _ _ j0
    (set_resumed (new_report (ups_operations (up_summary plan)) false) (Z.of_nat (size completed)))
    (set_budget (new_budget (max_retries_per_run config)) w2) Hstart)
    as (r & c' & w' & gs & taken & rest & Hr & Hp & Hall & Hg); [rewrite length_map; lia|].
  rewrite Hr. exists r, (Some c'), w'. split; [done|]. intros journal [= <-].
  split_and!; [done|done|]. exists available, j0. split; [done|]. right.
  exists completed, gs. repeat match goal with u : unit |- _ => destruct u end.
  split_and!; [by destruct readable|done| |done]. by eapply scheduled_outcomes.
Qed.

(** A run always returns: the stream of results ends after as many results as
    there are groups, and each group after as many operations as it has. *)
Theorem apply_run_returns plan root file config compat backup (w : W) :
  is_Some (apply_upload_inner plan root file config compat backup w).
Proof.
  destruct (apply_upload_inner_cases plan root file config compat backup w) as (r & j & w' & -> & _).
  by eexists.
Qed.

(** What a finished run tells. *)
Record report_adds_up (plan : UploadPlan) (completed : gmap string string) (rows : list Row)
    (report : ApplyReport) : Prop := {
  rau_planned : ar_planned report = zlen (up_operations plan);
  rau_resumed : ar_resumed report = Z.of_nat (size completed);
  rau_outcomes : ar_created report + ar_duplicate report + ar_failed report
    + ar_indeterminate report = zlen rows;
  rau_bound : zlen rows + ar_resumed report <= ar_planned report;
}.

Lemma sat_add_0 n : 0 <= n → n <= u64_max → sat_add 0 n = n.
Proof. unfold sat_add. lia. Qed.

Lemma report_adds_up_of plan completed l l' rows report :
  upload_well_formed plan → zlen (up_operations plan) <= u64_max →
  validate_completed completed plan = Ok tt →
  map oc_operation_id l ⊆+ map uo_operation_id (List.filter (pending completed) (up_operations plan)) →
  l = l' → Forall2 recorded l' rows →
  report_of (set_resumed (new_report (ups_operations (up_summary plan)) false)
    (Z.of_nat (size completed))) l report →
  report_adds_up plan completed rows report.
Proof.
  intros Hwf Hlen Hvc Hsub <- Hrec [Hp Hr Hc Hd Hf Hi].
  pose proof (pending_count completed plan Hwf Hvc) as Hcount.
  apply submseteq_length in Hsub. rewrite !length_map in Hsub.
  assert (zlen l <= count (pending completed) (up_operations plan)) as Hll
    by (unfold count, zlen; lia).
  assert (zlen rows = zlen l) as Hrows by (unfold zlen; by rewrite (Forall2_length _ _ _ Hrec)).
  pose proof (count_kinds l) as Hk. simpl in *.
  pose proof (count_nonneg (is_kind Created) l). pose proof (count_nonneg (is_kind Duplicated) l).
  pose proof (count_nonneg (is_kind Failed) l). pose proof (count_nonneg (is_kind Indeterminate) l).
  assert (ups_operations (up_summary plan) = zlen (up_operations plan)) as Hplanned
    by by rewrite (uwf_summary _ Hwf).
  rewrite sat_add_0 in Hc, Hd, Hf, Hi by lia.
  split; rewrite ?Hp, ?Hr, ?Hc, ?Hd, ?Hf, ?Hi; lia.
Qed.

Lemma open_checkpoint_rows file plan backup available j :
  open_checkpoint file plan backup available = Ok j →
  events j = file_rows file ∧ ∀ c, file = Database c → metadata c ≠ [] → metadata j = metadata c.
Proof.
  unfold open_checkpoint, open_production. destruct backup; [|apply open_rows].
  intros Ho. result_inv. by eapply open_rows.
Qed.

(** C1: the rows that were in the checkpoint stay where they are, with the binding of the
    file, and a run only appends to them: at most one row for each operation of the plan
    the file did not know as completed, and none for the others; so what the file knew
    as completed stays completed, with the same server identifier.  A run that returns a
    report counts every appended row once, its resumed operations are those the file
    knew, and together they never exceed the plan. *)
Theorem apply_run_sound plan root file config compat backup (w w' : W) r j :
  own_checkpoint file → zlen (up_operations plan) <= u64_max →
  apply_upload_inner plan root file config compat backup w = Some (r, Some j, w') →
  let completed := replay (file_rows file) in
  ∃ rows,
    events j = file_rows file ++ rows
    ∧ (∀ c, file = Database c → metadata c ≠ [] → metadata j = metadata c)
    ∧ completed_assets true (configured file) = Ok completed
    ∧ completed_assets true j = Ok (replay (file_rows file ++ rows))
    ∧ completed ⊆ replay (file_rows file ++ rows)
    ∧ NoDup (map row_operation_id rows)
    ∧ (∀ id, id ∈ map row_operation_id rows → completed !! id = None
         ∧ id ∈ map uo_operation_id (up_operations plan))
    ∧ ∀ report, r = Ok report → report_adds_up plan completed rows report.
Proof.
  intros Hown Hlen Hrun.
  destruct (apply_upload_inner_cases plan root file config compat backup w)
    as (r' & oj & w1 & Heq & Hcases).
  rewrite Hrun in Heq. injection Heq as <- <- <-.
  destruct (Hcases j eq_refl) as (Hwf & _ & av & j0 & Hopen & Hcase). clear Hcases.
  apply (open_checkpoint_reachable _ _ _ _ _ Hown) in Hopen as Hreach.
  pose proof (reachable_rows _ Hreach) as Hrows0.
  pose proof (completed_assets_replay _ Hrows0) as Hreplay.
  apply open_checkpoint_rows in Hopen as [He0 Hm0]. rewrite He0 in *. cbv zeta.
  assert (completed_assets true (configured file) = Ok (replay (file_rows file))) as Hfile.
  { replace (file_rows file) with (events (configured file)) by by destruct file.
    apply completed_assets_replay. by replace (events (configured file)) with (file_rows file) by by destruct file. }
  destruct Hcase as [[Hr ->]|(completed & gs & Hca & Hvc & Hsub & Hrec)].
  { exists []. rewrite app_nil_r.
    split_and!; [done|done|done|done|done|constructor|set_solver|]. intros report ->. done. }
  assert (completed = replay (file_rows file)) as Hcr by congruence.
  destruct Hrec as (l1 & l2 & rows & Hl & Hf2 & Hev & Hmeta & Hok).
  assert (map row_operation_id rows ⊆+
    map uo_operation_id (List.filter (pending completed) (up_operations plan))) as Hsub1.
  { rewrite (recorded_ids _ _ Hf2). etrans; [|exact Hsub]. rewrite Hl, map_app.
    by apply submseteq_inserts_r. }
  assert (∀ id, id ∈ map row_operation_id rows → completed !! id = None
    ∧ id ∈ map uo_operation_id (up_operations plan)) as Hids.
  { intros id Hin. apply (elem_of_submseteq _ _ _ Hin) in Hsub1.
    apply Prelude.elem_of_map in Hsub1 as (o & -> & Ho).
    apply list_elem_of_In, filter_In in Ho as [Ho Hp]. split.
    - unfold pending, is_completed_op in Hp. by destruct (completed !! _).
    - apply Prelude.elem_of_map. exists o. split; [done|by apply list_elem_of_In]. }
  rewrite He0 in Hev. subst completed. exists rows. split_and!; try done.
  - intros c Hc Hne. rewrite Hmeta. by apply Hm0.
  - rewrite <-Hev. apply completed_assets_replay. rewrite Hev. apply Forall_app.
    split; [done|by eapply recorded_ok].
  - apply map_subseteq_spec. intros op x Hx.
    apply replay_app_keeps; [done|]. intros [Hn _]%Hids. congruence.
  - eapply NoDup_submseteq_l; [exact Hsub1|]. apply NoDup_map_filter, (uwf_ids _ Hwf).
  - intros report ->. destruct (Hok report eq_refl) as (-> & Hrep & _).
    { unfold counters_range, in_range. simpl. assert (0 <= u64_max) by done. lia. }
    rewrite app_nil_r in Hl. by eapply report_adds_up_of.
Qed.

(** A dry run promises exactly the operations a run would still schedule:
    those of the plan the checkpoint does not know as completed. *)
Theorem dry_run_promise plan root file config (w w' : W) report :
  dry_run_upload plan root file config w = (Ok report, w') →
  ∃ completed available, validate_existing file plan available = Ok completed
    ∧ dom completed ⊆ list_to_set (map uo_operation_id (up_operations plan))
    ∧ ar_resumed report = Z.of_nat (size completed)
    ∧ ar_would_upload report = count (pending completed) (up_operations plan)
    ∧ ar_planned report = ar_would_upload report + ar_resumed report
    ∧ ar_dry_run report = true.
Proof.
  unfold dry_run_upload.
  intros ([]&?&_&(m&w1&Hv%verify_source_sound&(av&w2&_&(completed&?&[Hex _]%lift_Ok&([]&?&[Hvc _]%lift_Ok
    &[= <- _])%io_bind_Ok)%io_bind_Ok)%io_bind_Ok)%io_bind_Ok)%io_bind_Ok.
  destruct Hv as [Hwf _]. exists completed, av.
  pose proof (pending_count completed plan Hwf Hvc) as Hcount.
  assert (ups_operations (up_summary plan) = zlen (up_operations plan)) as Hplanned
    by by rewrite (uwf_summary _ Hwf).
  pose proof (count_nonneg (pending completed) (up_operations plan)).
  split_and!; try done; simpl; rewrite ?Hplanned; unfold sat_sub; try lia.
  unfold validate_completed in Hvc. result_inv.
  by rewrite negb_false_iff, bool_decide_eq_true in *.
Qed.

(** The binding of the journal a run leaves is that of its plan and scope. *)
Lemma open_checkpoint_bound file plan backup available j :
  open_checkpoint file plan backup available = Ok j →
  (∀ digest, backup = Some digest → is_lower_sha256 digest = true) ∧
  ∃ m, expected_binding plan backup = Ok m ∧ for_each insert_binding (metadata j) ∅ = Ok m.
Proof.
  assert (∀ b, open_with_scope file plan b available = Ok j →
    ∃ m, expected_binding plan b = Ok m ∧ for_each insert_binding (metadata j) ∅ = Ok m) as Hopen.
  { intros b Ho. unfold open_with_scope in Ho. result_inv. unfold bind_or_validate in Ho.
    case_bool_decide as Hnil.
    - destruct (expected_binding plan b) as [m|] eqn:Hm; [|done].
      destruct available; [|done]. injection Ho as <-. exists m. split; [done|]. simpl.
      rewrite insert_bindings_Ok; [|apply NoDup_fst_map_to_list|done].
      by rewrite list_to_map_to_list, (right_id_L ∅ _).
    - destruct (validate_binding_for_scope (configured file) plan b) as [[]|] eqn:Hv; [|done].
      injection Ho as <-. unfold validate_binding_for_scope, read_binding in Hv. result_inv.
      rewrite negb_false_iff, bool_decide_eq_true in *. subst. by eexists. }
  unfold open_checkpoint, open_production. destruct backup as [digest|].
  - intros Ho. result_inv. rewrite negb_false_iff in *. split; [by intros ? [= <-]|by apply Hopen].
  - intros Ho. split; [done|by apply Hopen].
Qed.

Lemma apply_upload_inner_binding plan root file config compat backup (w w' : W) r j :
  apply_upload_inner plan root file config compat backup w = Some (r, Some j, w') →
  compat = up_server plan ∧
  (∀ digest, backup = Some digest → is_lower_sha256 digest = true) ∧
  ∃ m, expected_binding plan backup = Ok m ∧ for_each insert_binding (metadata j) ∅ = Ok m.
Proof.
  intros Hrun. destruct (apply_upload_inner_cases plan root file config compat backup w)
    as (r' & oj & w1 & Heq & Hcases).
  rewrite Hrun in Heq. injection Heq as <- <- <-.
  destruct (Hcases j eq_refl) as (_ & Hs & av & j0 & Hopen & Hcase). split; [done|].
  apply open_checkpoint_bound in Hopen as (Hb & m & Hm & Hmeta). split; [done|]. exists m.
  split; [done|]. destruct Hcase as [[_ ->]|(? & ? & _ & _ & _ & Hrec)]; [done|].
  by destruct Hrec as (_ & _ & _ & _ & _ & _ & -> & _).
Qed.

(** C39: the two entry points never reach each other's servers.  A plain run whose
    client is a production client stops before it opens a checkpoint; a
    production run goes on only with an authorization issued for exactly this
    plan and server, and leaves a journal bound to the production scope and to
    the backup of the authorization. *)
Theorem production_separation plan root file config client authorization (w w' : W) r j :
  (apply_upload plan root file config client w = Some (r, Some j, w') →
     is_production client = false ∧ compatibility client = up_server plan
     ∧ ∃ m, for_each insert_binding (metadata j) ∅ = Ok m ∧ m !! EXECUTION_SCOPE_KEY = None)
  ∧ (apply_production_upload plan root file config client authorization w = Some (r, Some j, w') →
     is_production client = true ∧ compatibility client = up_server plan
     ∧ upload_matches_plan authorization plan = true
     ∧ is_lower_sha256 (pua_backup_reference_sha256 authorization) = true
     ∧ ∃ m, for_each insert_binding (metadata j) ∅ = Ok m
         ∧ m !! EXECUTION_SCOPE_KEY = Some PRODUCTION_SCOPE
         ∧ m !! BACKUP_REFERENCE_KEY = Some (pua_backup_reference_sha256 authorization)).
Proof.
  split.
  - unfold apply_upload. destruct (is_production client) eqn:Hp; [done|].
    intros (Hs & _ & m & Hm & Hmeta)%apply_upload_inner_binding.
    apply expected_binding_scope in Hm as [Hscope _]. split_and!; [done|done|]. by exists m.
  - unfold apply_production_upload. destruct (_ || _) eqn:Hg; [done|].
    apply orb_false_iff in Hg as [Hmp%negb_false_iff Hp%negb_false_iff].
    intros (Hs & Hb & m & Hm & Hmeta)%apply_upload_inner_binding.
    apply expected_binding_scope in Hm as [Hscope Hback].
    split_and!; [done|done|done|by apply Hb|]. by exists m.
Qed.
End run_facts.

(** *** Concrete runs *)

(** One group after the other. *)
Definition sequential_scheduler (W : Type) : Scheduler W := {|
  stream := list (W → GroupResult * W);
  buffer_unordered _ fs := fs;
  next fs w := match fs with
    | [] => (None, w)
    | f :: fs => let '(g, w) := f w in (Some (g, fs), w)
    end |}.

Lemma sequential_scheduler_laws (W : Type) : @SchedulerLaws W (sequential_scheduler W).
Proof.
  split. exists eq. split; [done|]. intros s fs w ->. destruct fs as [|f fs]; simpl; [done|].
  destruct (f w) as [g w'] eqn:Hf. exists f, fs. split; [done|]. split; [done|]. by exists w, w'.
Qed.

Section witnesses.
#[local] Existing Instances sample_codec sample_time chunk_files chunk_cancellation byte_rescan
  accepting_client accepting_client_laws steady_runtime steady_storage sequential_scheduler
  sequential_scheduler_laws.

Definition byte_run : option (result ExecutorError ApplyReport * option Connection * list string) :=
  apply_upload_inner byte_plan "/photos" Missing default_config sample_server None ["x"; ""].

(** The one file of the plan is uploaded and recorded. *)
Lemma byte_run_Ok : ∃ report j w, byte_run = Some (Ok report, Some j, w)
  ∧ ar_created report = 1 ∧ zlen (events j) = 1.
Proof.
  destruct byte_run as [[[[report|e] [j|]] w]|] eqn:Hrun;
    (assert (match byte_run with
             | Some (Ok report, Some j, _) => (ar_created report =? 1) && (zlen (events j) =? 1)
             | _ => false end = true) as Hok by (vm_compute; reflexivity));
    rewrite Hrun in Hok; try discriminate Hok.
  apply andb_true_iff in Hok as [H1%Z.eqb_eq H2%Z.eqb_eq].
  exists report, j, w. exact (conj eq_refl (conj H1 H2)).
Qed.

Lemma apply_run_returns_witness : is_Some byte_run.
Proof.
  apply (apply_run_returns byte_plan "/photos" Missing default_config sample_server None ["x"; ""]).
Defined.

Lemma apply_run_sound_witness : ∃ report j w rows,
  byte_run = Some (Ok report, Some j, w) ∧ events j = rows ∧ report_adds_up byte_plan ∅ rows report.
Proof.
  destruct byte_run_Ok as (report & j & w & Hrun & _).
  destruct (apply_run_sound byte_plan "/photos" Missing default_config sample_server None
    ["x"; ""] w (Ok report) j I ltac:(vm_compute; discriminate) Hrun)
    as (rows & Hev & _ & _ & _ & _ & _ & _ & Hrep).
  exists report, j, w, rows.
  exact (conj Hrun (conj Hev (Hrep report eq_refl))).
Defined.

Lemma dry_run_promise_witness : ∃ report w,
  dry_run_upload byte_plan "/photos" Missing default_config ["x"; ""] = (Ok report, w)
  ∧ ar_dry_run report = true.
Proof.
  assert (is_ok (dry_run_upload byte_plan "/photos" Missing default_config ["x"; ""]).1 = true)
    as Hok by (vm_compute; reflexivity).
  destruct (dry_run_upload byte_plan "/photos" Missing default_config ["x"; ""])
    as [[report|e] w] eqn:Hrun; [|discriminate Hok].
  destruct (dry_run_promise byte_plan "/photos" Missing default_config _ _ _ Hrun)
    as (completed & available & _ & _ & _ & _ & _ & Hdry).
  exists report, w. exact (conj eq_refl Hdry).
Defined.

Definition byte_authorization : ProductionUploadAuthorization := {|
  pua_plan_sha256 := match upload_plan_sha256 byte_plan with Ok d => d | Err _ => "" end;
  pua_expected_operations := 1; pua_backup_reference_sha256 := sample_digest |}.
Definition production_client : ClientIdentity := {|
  compatibility := sample_server; is_production := true |}.

Lemma production_separation_witness : ∃ r j w,
  apply_production_upload byte_plan "/photos" Missing default_config production_client
    byte_authorization ["x"; ""] = Some (r, Some j, w)
  ∧ upload_matches_plan byte_authorization byte_plan = true.
Proof.
  assert (match apply_production_upload byte_plan "/photos" Missing default_config
    production_client byte_authorization ["x"; ""] with
    | Some (_, Some _, _) => true | _ => false end = true) as Hok by (vm_compute; reflexivity).
  destruct (apply_production_upload byte_plan "/photos" Missing default_config
    production_client byte_authorization ["x"; ""]) as [[[r [j|]] w]|] eqn:Hrun;
    [|discriminate Hok..].
  destruct (production_separation byte_plan "/photos" Missing default_config production_client
    byte_authorization ["x"; ""] w r j) as [_ Hp].
  exists r, j, w. exact (conj eq_refl (proj1 (proj2 (proj2 (Hp Hrun))))).
Defined.
End witnesses.
