(* ===== verification/ImportClient.v ===== *)
(** * ImportClient: the metadata and album requests of an import
    ([crates/immich-client/src/import.rs], [import_models.rs])

    What the client checks before it sends a metadata or album request and what
    it accepts as an answer.  The interface [ImportClient] is what the import
    executor uses; [ImmichImportClient] implements it. *)
From Stdlib Require Import Ascii.
From S2P Require Export Prelude Text Log Metadata Client.

(** ** Data *)

Definition MAX_ALBUM_ASSETS : Z := 100000.
Definition MAX_REMOTE_ID_BYTES : Z := 36.

Record RemoteAlbum := { ra_id : string; ra_name : string }.

Record UpdateAssetRequest := {
  uar_date_time_original : option string;
  uar_description : option string;
  uar_latitude : option F64.f64;
  uar_longitude : option F64.f64;
}.
Record AssetResponse := { asr_id : string }.
Record AlbumResponse := { alr_id : string; alr_album_name : string }.
Inductive BulkIdError := BulkDuplicate | NoPermission | NotFound | Unknown | Validation.
#[export] Instance BulkIdError_eq_dec : EqDecision BulkIdError.
Proof. solve_decision. Defined.
Record BulkIdResponse := {
  bir_id : string;
  bir_success : bool;
  bir_error : option BulkIdError;
}.

Inductive ImportRequest :=
  | PutAsset (path : string) (body : UpdateAssetRequest)
  | GetOwnedAlbums (name : string)
  | PostAlbum (album_name : string)
  | PutAlbumAssets (path : string) (ids : list string).

(** What the import executor needs of a client. *)
Class ImportClient (W : Type) := {
  update_asset_metadata : string → NormalizedMetadata → io W ClientError unit;
  find_owned_albums : string → io W ClientError (list RemoteAlbum);
  create_album : string → io W ClientError RemoteAlbum;
  add_album_assets : string → list string → io W ClientError unit;
}.

(** The promise: albums have the name that was asked for and an identifier that
    can be recorded. *)
Definition album_of (name : string) (a : RemoteAlbum) : Prop :=
  ra_name a = name ∧ valid_asset_id (ra_id a) = true.
Class ImportClientLaws (W : Type) `{ImportClient W} : Prop := {
  find_owned_albums_of name w l w' :
    find_owned_albums name w = (Ok l, w') → Forall (album_of name) l;
  create_album_of name w a w' : create_album name w = (Ok a, w') → album_of name a;
}.

(** ** Local checks *)

Definition remote_id_byte (index : nat) (byte : ascii) : bool :=
  match index with
  | 8%nat | 13%nat | 18%nat | 23%nat => true
  | _ => is_ascii_hexdigit byte
  end.

Definition valid_remote_id (value : string) : bool :=
  (len value =? MAX_REMOTE_ID_BYTES)
  && Ascii.eqb (byte_at 8 value) "-" && Ascii.eqb (byte_at 13 value) "-"
  && Ascii.eqb (byte_at 14 value) "4" && Ascii.eqb (byte_at 18 value) "-"
  && existsb (Ascii.eqb (byte_at 19 value)) ["8"; "9"; "a"; "b"; "A"; "B"]%char
  && Ascii.eqb (byte_at 23 value) "-"
  && bytes_all remote_id_byte value.

Definition validate_album_name (name : string) : result ClientError unit :=
  let valid := negb (is_empty name) && (len name <=? 4096)
    && negb (contains_byte "/" name || contains_byte "\" name) && negb (has_control name) in
  fail_if (negb valid) protocol.

Definition validate_ids (album_id : string) (asset_ids : list string) : result ClientError unit :=
  let valid := valid_remote_id album_id
    && negb (bool_decide (asset_ids = []))
    && (zlen asset_ids <=? MAX_ALBUM_ASSETS)
    && forallb valid_remote_id asset_ids
    && windows2_all String.ltb asset_ids in
  fail_if (negb valid) protocol.

(** [result.success || result.error == Some(BulkIdError::Duplicate)] *)
Definition converged (r : BulkIdResponse) : bool :=
  bir_success r || bool_decide (bir_error r = Some BulkDuplicate).

Definition validate_membership_results (expected : list string) (results : list BulkIdResponse) :
    result ClientError unit :=
  let actual : gmap string bool := collect_map bir_id converged results in
  let valid := (Z.of_nat (size actual) =? zlen expected)
    && forallb (λ id, is_some_and (actual !! id) (λ success, success)) expected in
  fail_if (negb valid) protocol.

Section metadata_request.
  Context `{TimeLib}.

Definition valid_timestamp (value : string) : bool :=
  is_some_and (parse_rfc3339 value ≫= format_rfc3339)
    (λ canonical, String.eqb canonical value && ends_with "Z" value).

Definition invalid_description (value : string) : bool :=
  is_empty value || (16 * 1024 <? len value)
  || existsb (λ c, is_control c && negb (is_layout c)) (chars value).

(** The coordinates as numbers in range, or an error. *)
Definition coordinates (location : GeoCoordinates) : result ClientError (F64.f64 * F64.f64) :=
  match F64.parse (latitude location), F64.parse (longitude location) with
  | Some lat, Some long =>
    if F64.is_finite lat && F64.is_finite long
       && F64.in_range (-90) 90 lat && F64.in_range (-180) 180 long
    then Ok (lat, long) else Err protocol
  | _, _ => Err protocol
  end.

Definition metadata_request (metadata : NormalizedMetadata) : result ClientError UpdateAssetRequest :=
  _ ← fail_if (is_some_and (description metadata) invalid_description
               || is_some_and (taken_at_utc metadata) (λ value, negb (valid_timestamp value))) protocol;
  '(lat, long) ← match location metadata with
                 | Some l => '(lat, long) ← coordinates l; Ok (Some lat, Some long)
                 | None => Ok (None, None)
                 end;
  let request := {| uar_date_time_original := taken_at_utc metadata;
                    uar_description := description metadata;
                    uar_latitude := lat; uar_longitude := long |} in
  _ ← fail_if (negb (is_some (uar_date_time_original request) || is_some (uar_description request)
                     || is_some (uar_latitude request))) protocol;
  Ok request.
End metadata_request.

(** ** The requests *)

(** The transport of these requests; [api_url] joins a path to the endpoint. *)
Class ImportTransport (W : Type) := {
  api_url : string → option string;
  send_import : ImportRequest → W → option (result TransportError HttpResponse) * W;
  decode_asset : string → option AssetResponse;
  decode_albums : string → option (list AlbumResponse);
  decode_album : string → option AlbumResponse;
  decode_bulk_ids : string → option (list BulkIdResponse);
}.

Section ImmichImportClient.
  Context {W : Type} `{Cancellation W, ImportTransport W, TimeLib} (config : ClientConfig).

Definition import_send (request : ImportRequest) : io W ClientError HttpResponse := λ w,
  match send_import request w with
  | (None, w) => (Err (client_error ClientErrorClass.Cancelled), w)
  | (Some response, w) => (map_err classify_transport response, w)
  end.

Definition url_of (path : string) : result ClientError string := ok_or (api_url path) protocol.

Definition client_update_asset_metadata (asset_id : string) (metadata : NormalizedMetadata) :
    io W ClientError unit :=
  _ ← check_cancelled;
  request ← lift (metadata_request metadata);
  url ← lift (url_of ("api/assets/" +:+ asset_id));
  response ← import_send (PutAsset url request);
  body ← lift (read_json config decode_asset response);
  lift (fail_if (negb (String.eqb (asr_id body) asset_id) || negb (valid_remote_id (asr_id body)))
          protocol).

(** The loop over the albums of the answer. *)
Definition check_album (name : string) (album : AlbumResponse) : result ClientError RemoteAlbum :=
  _ ← fail_if (negb (String.eqb (alr_album_name album) name) || negb (valid_remote_id (alr_id album)))
        protocol;
  Ok {| ra_id := alr_id album; ra_name := alr_album_name album |}.

Fixpoint insert_album (a : RemoteAlbum) (l : list RemoteAlbum) : list RemoteAlbum :=
  match l with
  | [] => [a]
  | h :: t => if String.ltb (ra_id h) (ra_id a) then h :: insert_album a t else a :: h :: t
  end.
Definition sort_albums (l : list RemoteAlbum) : list RemoteAlbum := foldr insert_album [] l.

Definition client_find_owned_albums (name : string) : io W ClientError (list RemoteAlbum) :=
  _ ← check_cancelled;
  _ ← lift (validate_album_name name);
  _ ← lift (url_of "api/albums");
  response ← import_send (GetOwnedAlbums name);
  albums ← lift (read_json config decode_albums response);
  result ← lift (try_map (check_album name) albums);
  mret (sort_albums result).

Definition client_create_album (name : string) : io W ClientError RemoteAlbum :=
  _ ← check_cancelled;
  _ ← lift (validate_album_name name);
  _ ← lift (url_of "api/albums");
  response ← import_send (PostAlbum name);
  album ← lift (read_json config decode_album response);
  lift (check_album name album).

Definition client_add_album_assets (album_id : string) (asset_ids : list string) :
    io W ClientError unit :=
  _ ← check_cancelled;
  _ ← lift (validate_ids album_id asset_ids);
  url ← lift (url_of ("api/albums/" +:+ album_id +:+ "/assets"));
  response ← import_send (PutAlbumAssets url asset_ids);
  results ← lift (read_json config decode_bulk_ids response);
  lift (validate_membership_results asset_ids results).

#[export] Instance ImmichImportClient : ImportClient W := {|
  update_asset_metadata := client_update_asset_metadata;
  find_owned_albums := client_find_owned_albums;
  create_album := client_create_album;
  add_album_assets := client_add_album_assets;
|}.
End ImmichImportClient.

(** ** What the client guarantees *)
Section laws.
  Context {W : Type} `{Cancellation W, ImportTransport W, TimeLib} (config : ClientConfig).

Lemma valid_remote_id_recordable id : valid_remote_id id = true → valid_asset_id id = true.
Proof.
  unfold valid_remote_id, valid_asset_id. intros Hv. rewrite !andb_true_iff in Hv.
  destruct Hv as (((((((Hl & _) & _) & _) & _) & _) & _) & _). apply Z.eqb_eq in Hl.
  unfold MAX_REMOTE_ID_BYTES in Hl. apply andb_true_iff. split; [|rewrite Z.leb_le; lia].
  apply negb_true_iff, is_empty_false. by intros ->.
Qed.

Lemma check_album_of name a r : check_album name a = Ok r → album_of name r.
Proof.
  unfold check_album. intros Hc. result_inv.
  rewrite orb_false_iff, !negb_false_iff, String.eqb_eq in *. destruct_and?. subst.
  split; [done|]. by apply valid_remote_id_recordable.
Qed.

Lemma elem_of_insert_album x a l : x ∈ insert_album a l ↔ x = a ∨ x ∈ l.
Proof.
  induction l as [|h l IH]; simpl; [set_solver|].
  destruct (String.ltb _ _); rewrite !elem_of_cons; rewrite ?IH; tauto.
Qed.

Lemma elem_of_sort_albums x l : x ∈ sort_albums l ↔ x ∈ l.
Proof.
  unfold sort_albums. induction l as [|a l IH]; simpl; [done|].
  by rewrite elem_of_insert_album, IH, elem_of_cons.
Qed.

#[export] Instance ImmichImportClient_laws : ImportClientLaws W (H := ImmichImportClient config).
Proof.
  split.
  - intros name w l w'. simpl. unfold client_find_owned_albums.
    intros (?&?&_&(?&?&_&(?&?&_&(?&?&_&(?&?&_&(l'&?&[Hl _]%lift_Ok&[= <- _])%io_bind_Ok)%io_bind_Ok)
      %io_bind_Ok)%io_bind_Ok)%io_bind_Ok)%io_bind_Ok.
    apply try_map_Ok in Hl. rewrite Forall_forall. intros a Ha. rewrite elem_of_sort_albums in Ha.
    apply list_elem_of_lookup in Ha as [i Hi].
    destruct (Forall2_lookup_r _ _ _ _ _ Hl Hi) as (b & _ & Hb). by eapply check_album_of.
  - intros name w a w'. simpl. unfold client_create_album.
    intros (?&?&_&(?&?&_&(?&?&_&(?&?&_&(?&?&_&[Hl _]%lift_Ok)%io_bind_Ok)%io_bind_Ok)%io_bind_Ok)
      %io_bind_Ok)%io_bind_Ok.
    by eapply check_album_of.
Qed.
End laws.

(** Every metadata assignment a valid plan can contain is one the client
    sends: it is never refused locally, and the request carries the description,
    the time and the coordinates of the plan, parsed. *)
Theorem metadata_request_complete `{TimeLib} m :
  is_valid m = true →
  is_some (description m) || is_some (taken_at_utc m) || is_some (location m) = true →
  metadata_request m = Ok {|
    uar_date_time_original := taken_at_utc m; uar_description := description m;
    uar_latitude := l ← location m; F64.parse (latitude l);
    uar_longitude := l ← location m; F64.parse (longitude l) |}.
Proof.
  rewrite is_valid_iff. intros [Hs _] Hsome. unfold scalars_valid in Hs.
  apply andb_true_iff in Hs as [[Hd Ht]%andb_true_iff Hl]. unfold metadata_request.
  assert (is_some_and (description m) invalid_description = false) as ->.
  { destruct (description m) as [d|]; [|done]. simpl in *. unfold valid_text in Hd.
    rewrite !andb_true_iff, !negb_true_iff, Z.leb_le in Hd. destruct Hd as (((? & ?) & Hc) & _).
    unfold invalid_description. simpl in Hc. rewrite Hc, H0. simpl.
    destruct (Z.ltb_spec (16 * 1024) (len d)); [lia|done]. }
  assert (is_some_and (taken_at_utc m) (λ value, negb (valid_timestamp value)) = false) as ->.
  { destruct (taken_at_utc m) as [t|]; [|done]. simpl in *. unfold valid_timestamp.
    unfold canonical_utc in Ht. by rewrite Ht. }
  simpl. destruct (location m) as [[lat long]|]; simpl in *.
  - unfold geo_is_valid, decimal_in_range in Hl. simpl in Hl. unfold coordinates. simpl.
    destruct (F64.parse lat) as [x|]; [|done]. destruct (F64.parse long) as [y|]; [|by rewrite andb_false_r in Hl].
    rewrite !andb_true_iff in Hl. destruct Hl as (((Hx & Hxr) & _) & ((Hy & Hyr) & _)).
    rewrite Hx, Hxr, Hy, Hyr. simpl. by rewrite orb_true_r.
  - by destruct (description m), (taken_at_utc m).
Qed.

(** Adding members counts as done exactly when the server answered for
    exactly the assets that were sent and each of them is now a member: added,
    or there already. *)
Theorem membership_results_Ok expected results :
  NoDup expected → NoDup (map bir_id results) →
  validate_membership_results expected results = Ok tt ↔
    map bir_id results ≡ₚ expected ∧ Forall (λ r, converged r = true) results.
Proof.
  intros Hnd Hndr. unfold validate_membership_results. rewrite fail_if_Ok, negb_false_iff, andb_true_iff.
  rewrite Z.eqb_eq, forallb_true, Forall_forall.
  assert (size (collect_map bir_id converged results) = length results) as ->.
  { rewrite <-size_dom. rewrite <-(length_map bir_id), <-(size_list_to_set (C := gset string)) by done.
    f_equal. apply set_eq. intros k. rewrite elem_of_dom, elem_of_list_to_set, <-not_eq_None_Some.
    rewrite collect_map_None. by destruct (decide (k ∈ map bir_id results)); naive_solver. }
  assert ((∀ id, id ∈ expected → is_some_and (collect_map bir_id converged results !! id) (λ s, s) = true)
    ↔ ∀ id, id ∈ expected → ∃ r, r ∈ results ∧ bir_id r = id ∧ converged r = true) as ->.
  { apply forall_proper. intros id. apply imp_iff_compat_l. rewrite <-collect_map_Some by done.
    destruct (collect_map _ _ _ !! id) as [[]|]; simpl; naive_solver. }
  unfold zlen. split.
  - intros [Hlen Hall].
    assert (expected ⊆+ map bir_id results) as Hsub.
    { apply NoDup_submseteq; [done|]. intros id (r & Hr & <- & _)%Hall.
      apply Prelude.elem_of_map. by exists r. }
    assert (map bir_id results ≡ₚ expected) as Hperm.
    { symmetry. apply submseteq_length_Permutation; [done|]. rewrite length_map. lia. }
    split; [done|]. rewrite Forall_forall. intros r Hr.
    assert (bir_id r ∈ expected) as (r' & Hr' & Heq & Hc)%Hall.
    { rewrite <-Hperm. apply Prelude.elem_of_map. by exists r. }
    assert (r' = r) as ->; [|done].
    apply (NoDup_map_inj bir_id results); done.
  - intros [Hperm Hall]. split; [by rewrite <-Hperm, length_map|].
    intros id Hid. rewrite <-Hperm in Hid. apply Prelude.elem_of_map in Hid as (r & -> & Hr).
    exists r. rewrite Forall_forall in Hall. split_and!; [done|done|by apply Hall].
Qed.

(** The client refuses album names that every plan may contain: a valid album
    title passes the client's own check exactly when it holds no slash. *)
Theorem slash_album_refused name :
  valid_album name = true →
  (validate_album_name name = Ok tt ↔ contains_byte "/" name = false).
Proof.
  unfold valid_album, validate_album_name. rewrite !andb_true_iff, !negb_true_iff.
  intros (((H1 & H2) & H3) & H4). rewrite fail_if_Ok, negb_false_iff, H1, H2, H3, H4. simpl.
  rewrite orb_false_r, andb_true_r, negb_true_iff. done.
Qed.

(** *** Concrete requests *)

Definition sample_remote_id : string := "3f0c1a52-7b6d-4e8f-9a10-2b3c4d5e6f70".

Lemma metadata_request_complete_witness : ∃ lat long,
  metadata_request (H := sample_time) sample_metadata = Ok {|
    uar_date_time_original := Some sample_utc; uar_description := Some "Lake";
    uar_latitude := lat; uar_longitude := long |} ∧ is_some lat = true.
Proof.
  do 2 eexists. split.
  - apply (metadata_request_complete (H := sample_time) sample_metadata); vm_compute; reflexivity.
  - vm_compute. reflexivity.
Defined.

Lemma membership_results_Ok_witness :
  validate_membership_results [sample_remote_id]
    [{| bir_id := sample_remote_id; bir_success := false; bir_error := Some BulkDuplicate |}] = Ok tt.
Proof.
  apply (membership_results_Ok [sample_remote_id]
    [{| bir_id := sample_remote_id; bir_success := false; bir_error := Some BulkDuplicate |}]);
    [apply NoDup_singleton|apply NoDup_singleton|].
  split; [reflexivity|]. constructor; [reflexivity|constructor].
Defined.

Lemma slash_album_refused_witness :
  valid_album "Travel/2020" = true ∧ validate_album_name "Travel/2020" ≠ Ok tt.
Proof.
  split; [vm_compute; reflexivity|]. intros Hok.
  apply (slash_album_refused "Travel/2020" ltac:(vm_compute; reflexivity)) in Hok.
  discriminate Hok.
Defined.
