(* ===== verification/ImportJournal.v ===== *)
(** * ImportJournal: the durable effects of an import
    ([crates/immich-executor/src/import_journal.rs], [import_journal_db.rs])

    An import has four kinds of effects: uploading an asset, assigning its
    metadata, creating or reusing an album, and adding members to it.  Every
    effect has a key, and the journal keeps the last outcome of every key.  The
    specification is the map from keys to outcomes that the log replays to. *)
From Stdlib Require Import Ascii.
From S2P Require Export Prelude Text Log Metadata Upload Executor Journal.

(** ** Data *)

Definition IMPORT_CHECKPOINT_SCHEMA : string := "checkpoint-v2".
Definition IMPORT_APPLICATION_ID : Z := 1230132018.

Module ImportOutcome.
Inductive t := Created | Duplicate | Completed | Reused | Failed | Indeterminate.
#[global] Instance t_eq_dec : EqDecision t.
Proof. solve_decision. Defined.

Definition as_str (o : t) : string :=
  match o with
  | Created => "created"
  | Duplicate => "duplicate"
  | Completed => "completed"
  | Reused => "reused"
  | Failed => "failed"
  | Indeterminate => "indeterminate"
  end.

Definition parse (value : string) : option t :=
  if String.eqb value "created" then Some Created
  else if String.eqb value "duplicate" then Some Duplicate
  else if String.eqb value "completed" then Some Completed
  else if String.eqb value "reused" then Some Reused
  else if String.eqb value "failed" then Some Failed
  else if String.eqb value "indeterminate" then Some Indeterminate
  else None.

Lemma parse_as_str o : parse (as_str o) = Some o.
Proof. by destruct o. Qed.
End ImportOutcome.

Record ImportEvent := {
  ie_effect_key : string;
  ie_outcome : ImportOutcome.t;
  ie_remote_id : option string;
  ie_retries : Z;
}.

Record StoredEffect := { se_outcome : ImportOutcome.t; se_remote_id : option string }.
Notation ImportState := (gmap string StoredEffect).

(** A row of [effects]. *)
Record EffectRow := {
  er_effect_key : string;
  er_outcome : string;
  er_remote_id : option string;
  er_retry_count : Z;
  er_recorded_unix_ms : Z;
}.

Record ImportConnection := {
  ic_application_id : Z;
  ic_user_version : Z;
  ic_metadata : list (string * string);
  effects : list EffectRow;
}.

(** ** Keys *)

Definition asset_key (operation_id : string) : string := "asset:" +:+ operation_id.
Definition metadata_key (operation_id : string) : string := "metadata:" +:+ operation_id.
Definition album_effect_key (identity : string) : string := "album:" +:+ identity.
Definition membership_key (identity : string) : string := "membership:" +:+ identity.
Definition album_identity `{Codec} (name : string) : string := sha256_hex name.

Definition has_known_prefix (key : string) : bool :=
  existsb (λ prefix, is_some_and (strip_prefix prefix key) is_lower_sha256)
    ["asset:"; "metadata:"; "album:"; "membership:"].

Definition expects_id (outcome : ImportOutcome.t) : bool :=
  match outcome with
  | ImportOutcome.Created | ImportOutcome.Duplicate | ImportOutcome.Reused => true
  | _ => false
  end.

Definition validate_effect (key : string) (outcome : ImportOutcome.t) (remote_id : option string) :
    result ExecutorError unit :=
  if has_known_prefix key && Bool.eqb (expects_id outcome) (is_some_and remote_id valid_asset_id)
  then Ok tt else Err checkpoint_error.

(** ** Appending and reading *)

Definition effect_row_of (event : ImportEvent) (now : Z) : EffectRow := {|
  er_effect_key := ie_effect_key event;
  er_outcome := ImportOutcome.as_str (ie_outcome event);
  er_remote_id := ie_remote_id event;
  er_retry_count := ie_retries event;
  er_recorded_unix_ms := now |}.

(** [ImportJournal::append]; [now] is what [now_unix_ms] returns. *)
Definition append_effect (event : ImportEvent) (now : result ExecutorError Z) (available : bool)
    (c : ImportConnection) : result ExecutorError unit * ImportConnection :=
  match validate_effect (ie_effect_key event) (ie_outcome event) (ie_remote_id event) with
  | Err e => (Err e, c)
  | Ok _ =>
    match now with
    | Err e => (Err e, c)
    | Ok now =>
      if available then
        (Ok tt, {| ic_application_id := ic_application_id c; ic_user_version := ic_user_version c;
                   ic_metadata := ic_metadata c; effects := effects c ++ [effect_row_of event now] |})
      else (Err checkpoint_error, c)
    end
  end.

Definition latest_effects (rows : list EffectRow) : list EffectRow := latest_by er_effect_key rows.

Definition insert_effect (latest : ImportState) (row : EffectRow) : result ExecutorError ImportState :=
  outcome ← ok_or (ImportOutcome.parse (er_outcome row)) checkpoint_error;
  _ ← validate_effect (er_effect_key row) outcome (er_remote_id row);
  _ ← fail_if (is_some (latest !! er_effect_key row)) checkpoint_error;
  Ok (<[er_effect_key row := {| se_outcome := outcome; se_remote_id := er_remote_id row |}]> latest).

(** [ImportJournal::state]; a statement or a row that cannot be read is the error of the file. *)
Definition journal_state (readable : bool) (c : ImportConnection) : result ExecutorError ImportState :=
  _ ← fail_if (negb readable) checkpoint_error;
  for_each insert_effect (latest_effects (effects c)) ∅.

(** ** The state a resumed import looks at *)

Definition remote_id_of (state : ImportState) (key : string) (outcomes : list ImportOutcome.t) :
    option string :=
  effect ← state !! key;
  if bool_decide (se_outcome effect ∈ outcomes) then se_remote_id effect else None.

Definition state_asset_id (state : ImportState) (operation_id : string) : option string :=
  remote_id_of state (asset_key operation_id) [ImportOutcome.Created; ImportOutcome.Duplicate].

Definition effect_completed (state : ImportState) (key : string) : bool :=
  is_some_and (state !! key) (λ effect, bool_decide (se_outcome effect = ImportOutcome.Completed)).

Definition metadata_done (state : ImportState) (operation_id : string) : bool :=
  effect_completed state (metadata_key operation_id).
Definition membership_done (state : ImportState) (album_key : string) : bool :=
  effect_completed state (membership_key album_key).

Definition state_album (state : ImportState) (album_key : string) :
    option (ImportOutcome.t * string) :=
  effect ← state !! album_effect_key album_key;
  match se_outcome effect with
  | ImportOutcome.Created | ImportOutcome.Reused =>
    (λ id, (se_outcome effect, id)) <$> se_remote_id effect
  | _ => None
  end.

Definition has_metadata_assignment (metadata : NormalizedMetadata) : bool :=
  is_some (description metadata) || is_some (taken_at_utc metadata) || is_some (location metadata).

Section plan_keys.
  Context `{Codec}.

Definition album_keys (name : string) : list string :=
  [album_effect_key (album_identity name); membership_key (album_identity name)].

(** The keys one operation allows. *)
Definition operation_keys (o : UploadOperation) : list string :=
  asset_key (uo_operation_id o)
  :: (if is_some_and (uo_normalized_metadata o) has_metadata_assignment
      then [metadata_key (uo_operation_id o)] else [])
  ++ match uo_normalized_metadata o with
     | Some metadata => List.flat_map album_keys (albums metadata)
     | None => []
     end.

Definition allowed_keys (plan : UploadPlan) : gset string :=
  list_to_set (List.flat_map operation_keys (up_operations plan)).

Definition validate_for_plan (state : ImportState) (plan : UploadPlan) : result ExecutorError unit :=
  fail_if (negb (bool_decide (dom state ⊆ allowed_keys plan))) checkpoint_error.
End plan_keys.

(** ** Binding and opening *)
Section binding.
  Context `{Codec, TimeLib}.

(** [import_journal_db::validate_plan] *)
Definition validate_import_plan (plan : UploadPlan) : result ExecutorError unit :=
  _ ← map_err (λ _, invalid_plan) (Upload.validate plan);
  fail_if (negb (up_schema_version plan =? UPLOAD_PLAN_SCHEMA_VERSION_V2)) invalid_plan.

Definition import_binding (plan : UploadPlan) (backup_reference_sha256 : option string) :
    result ExecutorError (gmap string string) :=
  bytes ← ok_or (json_upload_plan plan) invariant_error;
  let binding : gmap string string := list_to_map [
    ("schema", IMPORT_CHECKPOINT_SCHEMA);
    ("upload_plan_sha256", sha256_hex bytes);
    ("normalized_plan_sha256", up_normalized_plan_sha256 plan);
    ("source_sha256", fingerprint_sha256 (up_source plan));
    ("configuration_sha256", up_configuration_sha256 plan);
    ("server_identity_sha256", identity_sha256 (up_server plan))] in
  Ok match backup_reference_sha256 with
     | Some digest =>
       <["backup_reference_sha256" := digest]> (<["execution_scope" := "production"]> binding)
     | None => binding
     end.

Definition validate_import_application (c : ImportConnection) : result ExecutorError unit :=
  fail_if (negb ((ic_application_id c =? IMPORT_APPLICATION_ID) && (ic_user_version c =? 2)))
    checkpoint_error.

Definition read_import_binding (c : ImportConnection) : result ExecutorError (gmap string string) :=
  _ ← validate_import_application c;
  for_each insert_binding (ic_metadata c) ∅.

Definition bind_or_validate_import (plan : UploadPlan) (backup_reference_sha256 : option string)
    (available : bool) (c : ImportConnection) : result ExecutorError unit * ImportConnection :=
  match import_binding plan backup_reference_sha256 with
  | Err e => (Err e, c)
  | Ok expected =>
    if bool_decide (ic_metadata c = []) then
      if available then
        (Ok tt, {| ic_application_id := ic_application_id c; ic_user_version := ic_user_version c;
                   ic_metadata := map_to_list expected; effects := effects c |})
      else (Err checkpoint_error, c)
    else
      (actual ← read_import_binding c;
       fail_if (negb (bool_decide (actual = expected))) checkpoint_error, c)
  end.

(** [open_connection]: the pragmas, and the tables if missing. *)
Definition import_configured (file : CheckpointFile ImportConnection) : ImportConnection :=
  let tables := match file with Database c => (ic_metadata c, effects c) | _ => ([], []) end in
  {| ic_application_id := IMPORT_APPLICATION_ID; ic_user_version := 2;
     ic_metadata := tables.1; effects := tables.2 |}.

Definition open_connection (file : CheckpointFile ImportConnection) (available : bool) :
    result ExecutorError ImportConnection :=
  _ ← reject_symlink file;
  _ ← fail_if (negb available) checkpoint_error;
  Ok (import_configured file).

Definition open_import_with_scope (file : CheckpointFile ImportConnection) (plan : UploadPlan)
    (backup_reference_sha256 : option string) (available : bool) :
    result ExecutorError ImportConnection :=
  _ ← validate_import_plan plan;
  connection ← open_connection file available;
  match bind_or_validate_import plan backup_reference_sha256 available connection with
  | (Ok _, c) => Ok c
  | (Err e, _) => Err e
  end.

Definition open_import (file : CheckpointFile ImportConnection) (plan : UploadPlan)
    (available : bool) : result ExecutorError ImportConnection :=
  open_import_with_scope file plan None available.

Definition open_import_production (file : CheckpointFile ImportConnection) (plan : UploadPlan)
    (backup_reference_sha256 : string) (available : bool) : result ExecutorError ImportConnection :=
  _ ← fail_if (negb (is_lower_sha256 backup_reference_sha256)) checkpoint_error;
  open_import_with_scope file plan (Some backup_reference_sha256) available.
End binding.

(** ** The specification: replaying the log *)

Definition effect_valid (r : EffectRow) : Prop :=
  ∃ outcome, ImportOutcome.parse (er_outcome r) = Some outcome
    ∧ validate_effect (er_effect_key r) outcome (er_remote_id r) = Ok tt.

Definition stored (r : EffectRow) : option StoredEffect :=
  (λ outcome, {| se_outcome := outcome; se_remote_id := er_remote_id r |})
  <$> ImportOutcome.parse (er_outcome r).

Definition replay_effect (state : ImportState) (r : EffectRow) : ImportState :=
  match stored r with Some e => <[er_effect_key r := e]> state | None => state end.
Definition replay_effects (rows : list EffectRow) : ImportState := foldl replay_effect ∅ rows.

Lemma stored_valid r : effect_valid r → is_Some (stored r).
Proof. intros (o & Ho & _). unfold stored. rewrite Ho. by eexists. Qed.

Lemma foldl_replay_effects rows m key :
  Forall effect_valid rows →
  foldl replay_effect m rows !! key =
    match last_row er_effect_key key rows with Some r => stored r | None => m !! key end.
Proof.
  intros Hv. revert m. induction Hv as [|r rows Hr Hv IH]; intros m; simpl; [done|]. rewrite IH.
  destruct (last_row er_effect_key key rows); [done|]. unfold replay_effect.
  destruct (stored_valid r Hr) as [e He]. rewrite He.
  destruct (String.eqb_spec (er_effect_key r) key) as [->|Hne];
    [by rewrite lookup_insert_eq|by rewrite lookup_insert_ne].
Qed.

Lemma insert_effects_all rows m :
  Forall effect_valid rows → NoDup (map er_effect_key rows) →
  (∀ r, r ∈ rows → m !! er_effect_key r = None) →
  for_each insert_effect rows m = Ok (foldl replay_effect m rows).
Proof.
  intros Hv. revert m. induction Hv as [|r rows (o & Ho & Hr) Hv IH]; intros m Hnd Hm; simpl; [done|].
  apply NoDup_cons in Hnd as [Hfresh Hnd].
  assert (insert_effect m r = Ok (replay_effect m r)) as ->.
  { unfold insert_effect, replay_effect, stored. rewrite Ho. simpl. rewrite Hr. simpl.
    rewrite Hm by set_solver. done. }
  simpl. apply IH; [done|]. intros r' Hr'. unfold replay_effect, stored. rewrite Ho. simpl.
  rewrite lookup_insert_ne; [apply Hm; set_solver|]. intros Heq. apply Hfresh. rewrite Heq.
  apply Prelude.elem_of_map. by exists r'.
Qed.

Lemma journal_state_replay c :
  Forall effect_valid (effects c) → journal_state true c = Ok (replay_effects (effects c)).
Proof.
  intros Hv. change (journal_state true c) with
    (for_each insert_effect (latest_effects (effects c)) ∅). unfold latest_effects.
  assert (Forall effect_valid (latest_by er_effect_key (effects c))) as Hl.
  { rewrite Forall_forall in *. intros r Hr%latest_subset. by apply Hv. }
  rewrite insert_effects_all; [|done|apply latest_NoDup|done].
  f_equal. apply map_eq. intros key. unfold replay_effects.
  rewrite !foldl_replay_effects, lookup_empty by done.
  destruct (last_row er_effect_key key (effects c)) as [r|] eqn:Hr.
  - destruct (last_row_op _ _ _ _ Hr) as [<- _].
    rewrite (last_row_unique _ _ _ r (latest_NoDup _ _)); [done|by apply latest_mem|done].
  - apply last_row_None in Hr. rewrite (proj2 (last_row_None _ _ _)); [done|].
    intros (r & -> & Hin%latest_subset)%Prelude.elem_of_map. apply Hr.
    apply Prelude.elem_of_map. by exists r.
Qed.

(** ** Reachable journals *)
Section reachable.
  Context `{Codec, TimeLib}.

Inductive import_journal_step : ImportConnection → ImportConnection → Prop :=
  | import_step_append event now available c r c' :
      append_effect event now available c = (r, c') → import_journal_step c c'
  | import_step_bind plan backup available c r c' :
      bind_or_validate_import plan backup available c = (r, c') → import_journal_step c c'
  | import_step_reopen c : import_journal_step c (import_configured (Database c)).

Inductive import_journal_reachable : ImportConnection → Prop :=
  | import_reachable_fresh : import_journal_reachable (import_configured Missing)
  | import_reachable_step c c' :
      import_journal_reachable c → import_journal_step c c' → import_journal_reachable c'.

Lemma append_effect_cases event now available c r c' :
  append_effect event now available c = (r, c') →
  (∃ e, r = Err e ∧ c' = c) ∨
  (r = Ok tt ∧ ∃ t, now = Ok t
    ∧ validate_effect (ie_effect_key event) (ie_outcome event) (ie_remote_id event) = Ok tt
    ∧ effects c' = effects c ++ [effect_row_of event t] ∧ ic_metadata c' = ic_metadata c).
Proof.
  unfold append_effect. destruct (validate_effect _ _ _) as [[]|e];
    [|intros [= <- <-]; left; by eexists].
  destruct now as [t|e]; [|intros [= <- <-]; left; by eexists].
  destruct available; intros [= <- <-]; [right|left; by eexists]. split; [done|]. by exists t.
Qed.

Lemma effect_row_valid event now :
  validate_effect (ie_effect_key event) (ie_outcome event) (ie_remote_id event) = Ok tt →
  effect_valid (effect_row_of event now).
Proof. intros Hv. exists (ie_outcome event). simpl. by rewrite ImportOutcome.parse_as_str. Qed.

Lemma bind_import_effects plan backup available c r c' :
  bind_or_validate_import plan backup available c = (r, c') → effects c' = effects c.
Proof.
  unfold bind_or_validate_import. destruct (import_binding plan backup); [|by intros [= _ <-]].
  case_bool_decide; [|by intros [= _ <-]]. by destruct available; intros [= _ <-].
Qed.

Lemma import_reachable_rows c : import_journal_reachable c → Forall effect_valid (effects c).
Proof.
  induction 1 as [|c c' _ IH Hstep]; [constructor|].
  destruct Hstep as [ev now av c r c' Ha|plan b av c r c' Hb|c].
  - apply append_effect_cases in Ha as [(e & _ & ->)|(_ & t & _ & Hv & -> & _)]; [done|].
    apply Forall_app. split; [done|]. constructor; [by apply effect_row_valid|constructor].
  - by rewrite (bind_import_effects _ _ _ _ _ _ Hb).
  - done.
Qed.

(** The abstract update of an event. *)
Definition record_event (event : ImportEvent) (state : ImportState) : ImportState :=
  <[ie_effect_key event :=
     {| se_outcome := ie_outcome event; se_remote_id := ie_remote_id event |}]> state.

Lemma replay_effects_append rows event now :
  replay_effects (rows ++ [effect_row_of event now]) = record_event event (replay_effects rows).
Proof.
  unfold replay_effects. rewrite foldl_app. simpl. unfold replay_effect, stored, record_event. simpl.
  by rewrite ImportOutcome.parse_as_str.
Qed.

(** C30: the import journal refines a map from effects to their last outcome.  On
    every reachable file the query succeeds when it can be read; an append that returns [Ok] is
    exactly the update of its key, which was a known effect with an identifier
    exactly when its outcome needs one; a failing append changes nothing. *)
Theorem import_journal_refines c event now available r c' :
  import_journal_reachable c → append_effect event now available c = (r, c') →
  ∃ state, journal_state true c = Ok state ∧
    ((r = Ok tt ∧ journal_state true c' = Ok (record_event event state)
      ∧ validate_effect (ie_effect_key event) (ie_outcome event) (ie_remote_id event) = Ok tt)
     ∨ (r ≠ Ok tt ∧ c' = c)).
Proof.
  intros Hc Ha. exists (replay_effects (effects c)).
  split; [by apply journal_state_replay, import_reachable_rows|].
  assert (import_journal_reachable c') as Hc' by (eapply import_reachable_step; [done|by econstructor]).
  destruct (append_effect_cases _ _ _ _ _ _ Ha) as [(e & -> & ->)|(-> & t & _ & Hv & Hev & _)];
    [by right|left]. split_and!; [done| |done].
  rewrite journal_state_replay by by apply import_reachable_rows.
  by rewrite Hev, replay_effects_append.
Qed.

(** Opening keeps the rows of the file, and the binding of one that has it. *)
Definition file_effects (file : CheckpointFile ImportConnection) : list EffectRow :=
  match file with Database c => effects c | _ => [] end.
Definition file_state (file : CheckpointFile ImportConnection) : ImportState :=
  replay_effects (file_effects file).

Lemma open_import_rows file plan backup available c :
  open_import_with_scope file plan backup available = Ok c →
  effects c = file_effects file
  ∧ ∀ c0, file = Database c0 → ic_metadata c0 ≠ [] → ic_metadata c = ic_metadata c0.
Proof.
  unfold open_import_with_scope, open_connection. intros Ho. result_inv.
  destruct (bind_or_validate_import plan backup available (import_configured file))
    as [[[]|] c'] eqn:Hb; [|done]. injection Ho as <-. split.
  - rewrite (bind_import_effects _ _ _ _ _ _ Hb). by destruct file.
  - intros c0 -> Hne. unfold bind_or_validate_import in Hb.
    destruct (import_binding plan backup); [|done]. simpl in Hb.
    rewrite bool_decide_eq_false_2 in Hb by done. by injection Hb as _ <-.
Qed.

Lemma open_import_reachable file plan backup available c :
  match file with Database c0 => import_journal_reachable c0 | _ => True end →
  open_import_with_scope file plan backup available = Ok c → import_journal_reachable c.
Proof.
  intros Hfile Ho. unfold open_import_with_scope, open_connection in Ho. result_inv.
  destruct (bind_or_validate_import plan backup available (import_configured file))
    as [[[]|] c'] eqn:Hb; [|done]. injection Ho as <-.
  eapply import_reachable_step; [|by eapply import_step_bind].
  destruct file; simpl in *; try (apply import_reachable_fresh).
  eapply import_reachable_step; [exact Hfile|apply import_step_reopen].
Qed.

(** A journal that was opened for a plan holds the binding of that plan. *)
Lemma open_import_bound file plan backup available c :
  open_import_with_scope file plan backup available = Ok c →
  upload_well_formed plan ∧ up_schema_version plan = 2 ∧
  ∃ m, import_binding plan backup = Ok m ∧ for_each insert_binding (ic_metadata c) ∅ = Ok m.
Proof.
  intros Ho. unfold open_import_with_scope, validate_import_plan, open_connection in Ho. result_inv.
  repeat match goal with u : unit |- _ => destruct u end.
  match goal with H : Upload.validate _ = _ |- _ => apply upload_validate_Ok in H as Hwf end.
  rewrite negb_false_iff, Z.eqb_eq in *. split; [done|]. split; [done|].
  unfold bind_or_validate_import in Ho.
  destruct (import_binding plan backup) as [m|]; [|done]. exists m. split; [done|].
  case_bool_decide as Hnil.
  - destruct available; [|done]. injection Ho as <-. simpl.
    rewrite insert_bindings_Ok; [|apply NoDup_fst_map_to_list|done].
    by rewrite list_to_map_to_list, (right_id_L ∅ _).
  - destruct (read_import_binding (import_configured file)) as [actual|] eqn:Hr; [|done]. simpl in Ho.
    case_bool_decide as Heq; [|done]. injection Ho as <-. subst actual.
    unfold read_import_binding in Hr. by result_inv.
Qed.
End reachable.

(** *** A concrete journal *)
Section witnesses.
#[local] Existing Instances sample_codec sample_time.

Definition sample_effect : ImportEvent := {|
  ie_effect_key := asset_key sample_digest; ie_outcome := ImportOutcome.Created;
  ie_remote_id := Some "server-id"; ie_retries := 1 |}.

Lemma import_journal_refines_witness :
  journal_state true (append_effect sample_effect (Ok 0) true (import_configured Missing)).2
  = Ok {[asset_key sample_digest :=
         {| se_outcome := ImportOutcome.Created; se_remote_id := Some "server-id" |}]}.
Proof.
  destruct (import_journal_refines (import_configured Missing) sample_effect (Ok 0) true _ _
    import_reachable_fresh eq_refl) as (m & Hm & [(_ & Hc & _)|[Hn _]]); [|by destruct Hn].
  injection Hm as <-. exact Hc.
Defined.
End witnesses.
