(* ===== verification/ImportEffects.v ===== *)
(** * ImportEffects: metadata and albums of an import
    ([crates/immich-executor/src/import_effects.rs], [import_effect_support.rs])

    After the assets are uploaded an import assigns their metadata, makes every
    album exist exactly once, and adds its members.  Every effect is retried
    within the budget and recorded under its key in the journal. *)
From Stdlib Require Import Ascii.
From S2P Require Export Prelude Prog Btree Text Metadata Upload Client ImportClient Executor Verify.
From S2P Require Export Journal ImportJournal Operation.

(** ** Data *)

Definition IMPORT_APPLY_REPORT_SCHEMA_VERSION : Z := 1.

(** The counters of the report. *)
Record ImportApplyReport := {
  iar_schema_version : Z;
  iar_dry_run : bool;
  iar_planned : UploadPlanSummary;
  iar_would_upload : Z;
  iar_would_update_metadata : Z;
  iar_would_create_albums : Z;
  iar_would_add_album_memberships : Z;
  iar_created : Z;
  iar_duplicate : Z;
  iar_metadata_updated : Z;
  iar_albums_created : Z;
  iar_albums_reused : Z;
  iar_album_memberships_updated : Z;
  iar_resumed_effects : Z;
  iar_retried : Z;
  iar_failed : Z;
  iar_indeterminate : Z;
  iar_cancelled : bool;
}.

Module Counter.
Inductive t := Created | Duplicate | MetadataUpdated | AlbumsCreated | AlbumsReused
  | MembershipsUpdated | ResumedEffects | Retried | Failed | Indeterminate.
#[global] Instance t_eq_dec : EqDecision t.
Proof. solve_decision. Defined.
End Counter.

(** [report.c = report.c.saturating_add(n)] *)
Definition bump (c : Counter.t) (n : Z) (r : ImportApplyReport) : ImportApplyReport :=
  let add c' v := if bool_decide (c = c') then sat_add v n else v in
  {| iar_schema_version := iar_schema_version r; iar_dry_run := iar_dry_run r;
     iar_planned := iar_planned r; iar_would_upload := iar_would_upload r;
     iar_would_update_metadata := iar_would_update_metadata r;
     iar_would_create_albums := iar_would_create_albums r;
     iar_would_add_album_memberships := iar_would_add_album_memberships r;
     iar_created := add Counter.Created (iar_created r);
     iar_duplicate := add Counter.Duplicate (iar_duplicate r);
     iar_metadata_updated := add Counter.MetadataUpdated (iar_metadata_updated r);
     iar_albums_created := add Counter.AlbumsCreated (iar_albums_created r);
     iar_albums_reused := add Counter.AlbumsReused (iar_albums_reused r);
     iar_album_memberships_updated := add Counter.MembershipsUpdated (iar_album_memberships_updated r);
     iar_resumed_effects := add Counter.ResumedEffects (iar_resumed_effects r);
     iar_retried := add Counter.Retried (iar_retried r);
     iar_failed := add Counter.Failed (iar_failed r);
     iar_indeterminate := add Counter.Indeterminate (iar_indeterminate r);
     iar_cancelled := iar_cancelled r |}.

(** [report.cancelled = true] *)
Definition mark_cancelled (r : ImportApplyReport) : ImportApplyReport := {|
  iar_schema_version := iar_schema_version r; iar_dry_run := iar_dry_run r;
  iar_planned := iar_planned r; iar_would_upload := iar_would_upload r;
  iar_would_update_metadata := iar_would_update_metadata r;
  iar_would_create_albums := iar_would_create_albums r;
  iar_would_add_album_memberships := iar_would_add_album_memberships r;
  iar_created := iar_created r; iar_duplicate := iar_duplicate r;
  iar_metadata_updated := iar_metadata_updated r; iar_albums_created := iar_albums_created r;
  iar_albums_reused := iar_albums_reused r;
  iar_album_memberships_updated := iar_album_memberships_updated r;
  iar_resumed_effects := iar_resumed_effects r; iar_retried := iar_retried r;
  iar_failed := iar_failed r; iar_indeterminate := iar_indeterminate r;
  iar_cancelled := true |}.

(** What the functions of a run share: the world, the journal and the report. *)
Record RunState (W : Type) := {
  run_world : W;
  run_journal : ImportConnection;
  run_report : ImportApplyReport;
}.
Arguments run_world {W}.
Arguments run_journal {W}.
Arguments run_report {W}.

(** The album of an effect, and how an effect ended. *)
Inductive EffectResult :=
  | Done (album_id : string) (outcome : ImportOutcome.t) (retries : Z)
  | EffectFailed (indeterminate : bool) (retries : Z)
  | EffectCancelled (indeterminate : bool) (retries : Z).

(** [album_members]: the members of every album that have an asset, both in
    order *)
Definition add_member (asset_id : string) (albums : list (string * list string)) (album : string) :
    list (string * list string) :=
  entry_or album [] (set_insert asset_id) albums.

Definition album_members (plan : UploadPlan) (asset_ids : gmap string string) :
    list (string * list string) :=
  foldl (λ albums operation,
    match asset_ids !! uo_operation_id operation with
    | Some asset_id =>
      match uo_normalized_metadata operation with
      | Some metadata => foldl (add_member asset_id) albums (Metadata.albums metadata)
      | None => albums
      end
    | None => albums
    end) [] (up_operations plan).

Section effects.
  Context {W : Type} `{Cancellation W, ImportClient W, Runtime W, Storage W, Codec}.
  Variable config : UploadExecutionConfig.

Notation run := (prog (RunState W) ExecutorError).

(** ** Steps *)

Definition set_world (w : W) (s : RunState W) : RunState W :=
  {| run_world := w; run_journal := run_journal s; run_report := run_report s |}.

Definition on_world {A} (f : W → A * W) : run A := λ s,
  let '(a, w) := f (run_world s) in Some (Ok a, set_world w s).

Definition on_report (f : ImportApplyReport → ImportApplyReport) : run unit := λ s,
  Some (Ok tt, {| run_world := run_world s; run_journal := run_journal s;
                  run_report := f (run_report s) |}).

(** [append] *)
Definition append_outcome (key : string) (outcome : ImportOutcome.t) (remote_id : option string)
    (retries : Z) : run unit := λ s,
  let '(now, available, w) := storage (run_world s) in
  let event := {| ie_effect_key := key; ie_outcome := outcome; ie_remote_id := remote_id;
                  ie_retries := retries |} in
  let '(r, c) := append_effect event now available (run_journal s) in
  Some (r, {| run_world := w; run_journal := c; run_report := run_report s |}).

Definition effect_retry_allowed (error : ClientError) (retries : Z) (w : W) : bool * W :=
  if is_retryable error && (sat_add32 retries 1 <? max_attempts_per_operation config)
  then claim_retry w else (false, w).

Definition wait_retry (key : string) (retries : Z) (error : ClientError) : W → bool * W :=
  wait (delay key (sat_add32 retries 1) error config).

Definition failure_outcome (indeterminate : bool) : ImportOutcome.t :=
  if indeterminate then ImportOutcome.Indeterminate else ImportOutcome.Failed.
Definition failure_counter (indeterminate : bool) : Counter.t :=
  if indeterminate then Counter.Indeterminate else Counter.Failed.

Definition record_effect_failure (key : string) (indeterminate : bool) (retries : Z) : run unit :=
  _ ← on_report (bump (failure_counter indeterminate) 1);
  _ ← append_outcome key (failure_outcome indeterminate) None retries;
  on_report (bump Counter.Retried retries).

(** Recording a completed effect, and one that cancellation interrupted. *)
Definition record_done (key : string) (outcome : ImportOutcome.t) (remote_id : option string)
    (counter : Counter.t) (retries : Z) : run unit :=
  _ ← append_outcome key outcome remote_id retries;
  _ ← on_report (bump counter 1);
  on_report (bump Counter.Retried retries).

(** ** Metadata *)

Definition interrupted_metadata (key : string) (retries : Z) : run bool :=
  _ ← append_outcome key ImportOutcome.Indeterminate None retries;
  _ ← on_report (bump Counter.Indeterminate 1);
  _ ← on_report (bump Counter.Retried retries);
  _ ← on_report mark_cancelled;
  mret false.

Fixpoint metadata_loop (fuel : nat) (key asset_id : string) (metadata : NormalizedMetadata)
    (retries : Z) : run bool :=
  match fuel with
  | O => λ _, None
  | S fuel =>
    answer ← on_world (update_asset_metadata asset_id metadata);
    match answer with
    | Ok _ =>
      _ ← record_done key ImportOutcome.Completed None Counter.MetadataUpdated retries;
      mret true
    | Err error =>
      if is_class ClientErrorClass.Cancelled error then interrupted_metadata key retries
      else
        retry ← on_world (effect_retry_allowed error retries);
        if retry : bool then
          waited ← on_world (wait_retry key retries error);
          if waited : bool
          then metadata_loop fuel key asset_id metadata (sat_add32 retries 1)
          else interrupted_metadata key retries
        else
          _ ← record_effect_failure key (uncertain error) retries;
          mret true
    end
  end.

Definition effect_fuel : nat := S (Z.to_nat (max_attempts_per_operation config)).

Definition apply_metadata (operation : UploadOperation) (asset_id : string) (state : ImportState) :
    run bool :=
  match uo_normalized_metadata operation with
  | Some metadata =>
    if has_metadata_assignment metadata then
      if metadata_done state (uo_operation_id operation) then
        _ ← on_report (bump Counter.ResumedEffects 1);
        mret true
      else
        metadata_loop effect_fuel (metadata_key (uo_operation_id operation)) asset_id metadata 0
    else mret true
  | None => mret true
  end.

(** ** Albums *)

(** [lookup_albums]; the retries are shared with the caller. *)
Fixpoint lookup_albums (fuel : nat) (name : string) (retries : Z) :
    run (result EffectResult (list RemoteAlbum) * Z) :=
  match fuel with
  | O => λ _, None
  | S fuel =>
    answer ← on_world (find_owned_albums name);
    match answer with
    | Ok albums => mret (Ok albums, retries)
    | Err error =>
      if is_class ClientErrorClass.Cancelled error
      then mret (Err (EffectCancelled false retries), retries)
      else
        retry ← on_world (effect_retry_allowed error retries);
        if retry : bool then
          waited ← on_world (wait_retry name retries error);
          if waited : bool then lookup_albums fuel name (sat_add32 retries 1)
          else mret (Err (EffectCancelled false retries), retries)
        else mret (Err (EffectFailed false retries), retries)
    end
  end.

(** The loop of [converge_album] around [create_album]. *)
Fixpoint create_loop (fuel : nat) (name : string) (retries : Z) : run EffectResult :=
  match fuel with
  | O => λ _, None
  | S fuel =>
    answer ← on_world (create_album name);
    match answer with
    | Ok album => mret (Done (ra_id album) ImportOutcome.Created retries)
    | Err error =>
      if is_class ClientErrorClass.Cancelled error then mret (EffectCancelled true retries)
      else if is_retryable error then
        '(observed, retries) ← lookup_albums effect_fuel name retries;
        match observed with
        | Ok [album] => mret (Done (ra_id album) ImportOutcome.Created retries)
        | Ok (_ :: _ :: _) => mret (EffectFailed true retries)
        | Err (EffectCancelled _ n) => mret (EffectCancelled true n)
        | Err (EffectFailed _ n) => mret (EffectFailed true n)
        | Err (Done _ _ _) => mret (EffectFailed true retries)
        | Ok [] =>
          retry ← on_world (effect_retry_allowed error retries);
          waited ← (if retry : bool then on_world (wait_retry name retries error) else mret false);
          if waited : bool then create_loop fuel name (sat_add32 retries 1)
          else
            stop ← on_world is_cancelled;
            mret (if stop : bool then EffectCancelled true retries
                  else EffectFailed (uncertain error) retries)
        end
      else mret (EffectFailed false retries)
    end
  end.

Definition converge_album (name : string) : run EffectResult :=
  '(albums, retries) ← lookup_albums effect_fuel name 0;
  match albums with
  | Err result => mret result
  | Ok [album] => mret (Done (ra_id album) ImportOutcome.Reused retries)
  | Ok [] => create_loop effect_fuel name retries
  | Ok _ => mret (EffectFailed false retries)
  end.

Definition album_counter (outcome : ImportOutcome.t) : ImportApplyReport → ImportApplyReport :=
  match outcome with
  | ImportOutcome.Created => bump Counter.AlbumsCreated 1
  | ImportOutcome.Reused => bump Counter.AlbumsReused 1
  | _ => id
  end.

Definition record_album (identity : string) (effect : EffectResult) : run (option string) :=
  let key := album_effect_key identity in
  match effect with
  | Done album outcome retries =>
    _ ← append_outcome key outcome (Some album) retries;
    _ ← on_report (album_counter outcome);
    _ ← on_report (bump Counter.Retried retries);
    mret (Some album)
  | EffectFailed indeterminate retries =>
    _ ← record_effect_failure key indeterminate retries;
    mret None
  | EffectCancelled indeterminate retries =>
    _ ← record_effect_failure key indeterminate retries;
    _ ← on_report mark_cancelled;
    mret None
  end.

Definition interrupted_membership (key : string) (retries : Z) : run bool :=
  _ ← record_effect_failure key true retries;
  _ ← on_report mark_cancelled;
  mret false.

Fixpoint membership_loop (fuel : nat) (key album_id : string) (member_ids : list string)
    (retries : Z) : run bool :=
  match fuel with
  | O => λ _, None
  | S fuel =>
    answer ← on_world (add_album_assets album_id member_ids);
    match answer with
    | Ok _ =>
      _ ← record_done key ImportOutcome.Completed None Counter.MembershipsUpdated retries;
      mret true
    | Err error =>
      if is_class ClientErrorClass.Cancelled error then interrupted_membership key retries
      else
        retry ← on_world (effect_retry_allowed error retries);
        if retry : bool then
          waited ← on_world (wait_retry key retries error);
          if waited : bool
          then membership_loop fuel key album_id member_ids (sat_add32 retries 1)
          else interrupted_membership key retries
        else
          _ ← record_effect_failure key (uncertain error) retries;
          mret true
    end
  end.

Definition apply_membership (identity album_id : string) (member_ids : list string) : run bool :=
  membership_loop effect_fuel (membership_key identity) album_id member_ids 0.

(** The album of one iteration: known to the journal, or made to exist now. *)
Definition album_for (name identity : string) (state : ImportState) : run (option string) :=
  match state_album state identity with
  | Some (_, album_id) =>
    _ ← on_report (bump Counter.ResumedEffects 1);
    mret (Some album_id)
  | None =>
    effect ← converge_album name;
    record_album identity effect
  end.

Definition report_cancelled : run bool := λ s, Some (Ok (iar_cancelled (run_report s)), s).

(** One iteration of the loop of [apply_albums]; [false] is [break]. *)
Definition apply_album (state : ImportState) (name : string) (members : list string) : run bool :=
  stop ← on_world is_cancelled;
  if stop : bool then
    _ ← on_report mark_cancelled;
    mret false
  else
    let identity := album_identity name in
    album ← album_for name identity state;
    match album with
    | None =>
      cancelled ← report_cancelled;
      mret (negb cancelled)
    | Some album_id =>
      if membership_done state identity then
        _ ← on_report (bump Counter.ResumedEffects 1);
        mret true
      else apply_membership identity album_id members
    end.

Fixpoint apply_albums_from (state : ImportState) (albums : list (string * list string)) : run unit :=
  match albums with
  | [] => mret tt
  | (name, members) :: albums =>
    continue ← apply_album state name members;
    if continue : bool then apply_albums_from state albums else mret tt
  end.

Definition apply_albums (plan : UploadPlan) (asset_ids : gmap string string) (state : ImportState) :
    run unit :=
  apply_albums_from state (album_members plan asset_ids).
End effects.

(** ** What a step may do to the journal *)
Section keeps.
  Context {W : Type} `{Cancellation W, ImportClient W, !ImportClientLaws W, Runtime W, Storage W, Codec}.
  Variable config : UploadExecutionConfig.
Notation run := (prog (RunState W) ExecutorError).

(** The journal grows by valid rows, at most one for each of [keys]. *)
Definition grows (keys : list string) (s s' : RunState W) : Prop :=
  ∃ rows, effects (run_journal s') = effects (run_journal s) ++ rows
    ∧ map er_effect_key rows ⊆+ keys ∧ Forall effect_valid rows
    ∧ ic_metadata (run_journal s') = ic_metadata (run_journal s).

(** Appends can only fail on the disk, the clock, or an unknown key. *)
Definition recordable (keys : list string) : Prop :=
  (∀ w : W, ∃ t w', storage w = (Ok t, true, w'))
  ∧ Forall (λ k, has_known_prefix k = true) keys.

Definition keeps {A} (keys : list string) (m : run A) : Prop :=
  runs m (λ s r s', grows keys s s' ∧ (recordable keys → ∃ a, r = Ok a)).

Lemma grows_refl keys s : grows keys s s.
Proof. exists []. rewrite app_nil_r. split_and!; [done|apply submseteq_nil_l|constructor|done]. Qed.

Lemma grows_trans k1 k2 s1 s2 s3 : grows k1 s1 s2 → grows k2 s2 s3 → grows (k1 ++ k2) s1 s3.
Proof.
  intros (r1 & He1 & Hk1 & Hv1 & Hm1) (r2 & He2 & Hk2 & Hv2 & Hm2). exists (r1 ++ r2).
  rewrite He2, He1, app_assoc, map_app, Hm2. split_and!; [done|by apply submseteq_app|by apply Forall_app|done].
Qed.

Lemma grows_mono k k' s s' : k ⊆+ k' → grows k s s' → grows k' s s'.
Proof. intros Hk (r & He & Hr & Hv). exists r. split; [done|]. split; [by etrans|done]. Qed.

Lemma recordable_mono k k' : k ⊆+ k' → recordable k' → recordable k.
Proof.
  intros Hk [Hs Hf]. split; [done|]. rewrite Forall_forall in *. intros x Hx. apply Hf.
  by eapply elem_of_submseteq.
Qed.

Lemma keeps_mono {A} k k' (m : run A) : k ⊆+ k' → keeps k m → keeps k' m.
Proof.
  intros Hk Hm. eapply runs_weaken; [exact Hm|]. intros s r s' [Hg Hr].
  split; [exact (grows_mono _ _ _ _ Hk Hg)|]. intros Hrec. exact (Hr (recordable_mono _ _ Hk Hrec)).
Qed.

Lemma keeps_ret {A} keys (a : A) : keeps keys (mret a : run A).
Proof. intros s. eexists _, s. split; [done|]. split; [apply grows_refl|by exists a]. Qed.

Lemma keeps_bind {A B} k1 k2 (m : run A) (f : A → run B) :
  keeps k1 m → (∀ a, keeps k2 (f a)) → keeps (k1 ++ k2) (m ≫= f).
Proof.
  intros Hm Hf. eapply runs_weaken; [apply (runs_bind _ _ _ _ Hm Hf)|]. intros s r s'.
  assert (k1 ⊆+ k1 ++ k2) as Hk1 by by apply submseteq_inserts_r.
  assert (k2 ⊆+ k1 ++ k2) as Hk2 by by apply submseteq_inserts_l.
  intros [(e & -> & Hg & Hr)|(a & s1 & [Hg1 _] & [Hg2 Hr2])].
  - split; [exact (grows_mono _ _ _ _ Hk1 Hg)|]. intros Hrec.
    destruct (Hr (recordable_mono _ _ Hk1 Hrec)) as [? [=]].
  - split; [by eapply grows_trans|]. intros Hrec. exact (Hr2 (recordable_mono _ _ Hk2 Hrec)).
Qed.

(** Sequencing a step that never appends. *)
Lemma keeps_bind_nil {A B} k (m : run A) (f : A → run B) :
  keeps [] m → (∀ a, keeps k (f a)) → keeps k (m ≫= f).
Proof. apply (keeps_bind []). Qed.

Lemma keeps_bind_last {A B} k (m : run A) (f : A → run B) :
  keeps k m → (∀ a, keeps [] (f a)) → keeps k (m ≫= f).
Proof. intros Hm Hf. rewrite <-(app_nil_r k). by apply keeps_bind. Qed.

Lemma keeps_on_world {A} k (f : W → A * W) : keeps k (on_world f).
Proof.
  intros s. unfold on_world. destruct (f (run_world s)) as [a w]. eexists _, _. split; [done|].
  split; [|by exists a]. exists []. rewrite app_nil_r. split_and!; [done|apply submseteq_nil_l|constructor|done].
Qed.

Lemma keeps_on_report k f : keeps k (on_report f : run unit).
Proof.
  intros s. eexists _, _. split; [done|]. split; [|by exists tt].
  exists []. rewrite app_nil_r. split_and!; [done|apply submseteq_nil_l|constructor|done].
Qed.

Lemma keeps_report_cancelled k : keeps k (report_cancelled : run bool).
Proof. intros s. eexists _, s. split; [done|]. split; [apply grows_refl|by eexists]. Qed.

Lemma keeps_append key outcome remote_id retries :
  expects_id outcome = is_some_and remote_id valid_asset_id →
  keeps [key] (append_outcome key outcome remote_id retries : run unit).
Proof.
  intros Hid s. unfold append_outcome. destruct (storage (run_world s)) as [[now av] w] eqn:Hst.
  destruct (append_effect _ now av (run_journal s)) as [r c] eqn:Ha. eexists r, _. split; [done|].
  apply append_effect_cases in Ha as Hcases. split.
  - destruct Hcases as [(e & -> & ->)|(-> & t & _ & Hv & Hev & Hm)].
    + exists []. rewrite app_nil_r. split_and!; [done|apply submseteq_nil_l|constructor|done].
    + eexists [_]. split_and!; [exact Hev|done| |done]. constructor; [by apply effect_row_valid|constructor].
  - intros [Hs Hk]. apply Forall_inv in Hk. destruct (Hs (run_world s)) as (t & w' & Hst').
    rewrite Hst in Hst'. injection Hst' as -> -> ->. exists tt. unfold append_effect, validate_effect in Ha.
    simpl in Ha. rewrite Hk, Hid, eqb_reflx in Ha. simpl in Ha. by injection Ha as <- _.
Qed.
End keeps.

Create HintDb keeps.
#[export] Hint Resolve keeps_ret keeps_on_world keeps_on_report keeps_report_cancelled : keeps.

(** [keeps_step] follows the structure of a computation. *)
Ltac keeps_step :=
  intros;
  match goal with
  | |- keeps _ (on_world _ ≫= _) => apply keeps_bind_nil; [apply keeps_on_world|intros ?]
  | |- keeps _ (on_report _ ≫= _) => apply keeps_bind_nil; [apply keeps_on_report|intros ?]
  | |- keeps _ (report_cancelled ≫= _) => apply keeps_bind_nil; [apply keeps_report_cancelled|intros ?]
  | |- keeps _ (append_outcome _ _ _ _ ≫= _) =>
      apply keeps_bind_last; [apply keeps_append; try done|intros ?]
  | |- keeps _ (match ?x with _ => _ end) => destruct x eqn:?
  | |- keeps _ (let '(_, _) := ?x in _) => destruct x eqn:?
  | |- keeps _ (append_outcome _ _ _ _) => apply keeps_append; try done
  | |- keeps _ _ => solve [eauto with keeps]
  end.

Section effect_facts.
  Context {W : Type} `{Cancellation W, ImportClient W, !ImportClientLaws W, Runtime W, Storage W, Codec}.
  Variable config : UploadExecutionConfig.
  Hypothesis Hmax : max_attempts_per_operation config <= u32_max.
Notation run := (prog (RunState W) ExecutorError).

(** A granted retry leaves attempts for the next iteration. *)
Lemma retry_left error n (w w' : W) :
  0 <= n → effect_retry_allowed config error n w = (true, w') →
  n + 1 < max_attempts_per_operation config ∧ sat_add32 n 1 = n + 1.
Proof.
  unfold effect_retry_allowed. destruct (is_retryable error); simpl; [|done].
  destruct (Z.ltb_spec (sat_add32 n 1) (max_attempts_per_operation config)); [|done].
  intros _ _. unfold sat_add32 in *. lia.
Qed.

Lemma keeps_bind_retry {A} k error n (f : bool → run A) :
  0 <= n →
  (n + 1 < max_attempts_per_operation config → sat_add32 n 1 = n + 1 → keeps k (f true)) →
  keeps k (f false) → keeps k (on_world (effect_retry_allowed config error n) ≫= f).
Proof.
  intros Hn Ht Hf s. unfold mbind, prog_bind, on_world.
  destruct (effect_retry_allowed config error n (run_world s)) as [[] w] eqn:Hr.
  - destruct (retry_left _ _ _ _ Hn Hr) as [Hlt Heq].
    destruct (Ht Hlt Heq (set_world w s)) as (r & s' & Hrun & HR). by exists r, s'.
  - destruct (Hf (set_world w s)) as (r & s' & Hrun & HR). by exists r, s'.
Qed.

Lemma keeps_failure key b n : keeps [key] (record_effect_failure key b n : run unit).
Proof. unfold record_effect_failure. repeat keeps_step. by destruct b. Qed.

Lemma keeps_done key outcome remote_id counter n :
  expects_id outcome = is_some_and remote_id valid_asset_id →
  keeps [key] (record_done key outcome remote_id counter n : run unit).
Proof. intros Hid. unfold record_done. repeat keeps_step. Qed.

Lemma keeps_interrupted_metadata key n : keeps [key] (interrupted_metadata key n : run bool).
Proof. unfold interrupted_metadata. repeat keeps_step. Qed.

Lemma keeps_interrupted_membership key n : keeps [key] (interrupted_membership key n : run bool).
Proof.
  unfold interrupted_membership. apply keeps_bind_last; [apply keeps_failure|]. repeat keeps_step.
Qed.

(** The shape both request loops share. *)
Lemma keeps_done_true key outcome counter n :
  expects_id outcome = false →
  keeps [key] (record_done key outcome None counter n ≫= λ _, mret true : run bool).
Proof. intros Hid. apply keeps_bind_last; [by apply keeps_done|]. repeat keeps_step. Qed.

Lemma keeps_failure_true key b n :
  keeps [key] (record_effect_failure key b n ≫= λ _, mret true : run bool).
Proof. apply keeps_bind_last; [apply keeps_failure|]. repeat keeps_step. Qed.

Lemma keeps_metadata_loop fuel key asset_id metadata n :
  0 <= n → (Z.to_nat (max_attempts_per_operation config - n) < fuel)%nat →
  keeps [key] (metadata_loop config fuel key asset_id metadata n : run bool).
Proof.
  revert n. induction fuel as [|fuel IH]; intros n Hn Hf; [lia|]. cbn [metadata_loop].
  apply keeps_bind_nil; [apply keeps_on_world|]. intros [[]|error]; [by apply keeps_done_true|].
  destruct (is_class _ error); [apply keeps_interrupted_metadata|].
  apply keeps_bind_retry; [done| |apply keeps_failure_true]. intros Hlt ->.
  apply keeps_bind_nil; [apply keeps_on_world|]. intros [];
    [apply IH; lia|apply keeps_interrupted_metadata].
Qed.

Lemma keeps_membership_loop fuel key album_id ids n :
  0 <= n → (Z.to_nat (max_attempts_per_operation config - n) < fuel)%nat →
  keeps [key] (membership_loop config fuel key album_id ids n : run bool).
Proof.
  revert n. induction fuel as [|fuel IH]; intros n Hn Hf; [lia|]. cbn [membership_loop].
  apply keeps_bind_nil; [apply keeps_on_world|]. intros [[]|error]; [by apply keeps_done_true|].
  destruct (is_class _ error); [apply keeps_interrupted_membership|].
  apply keeps_bind_retry; [done| |apply keeps_failure_true]. intros Hlt ->.
  apply keeps_bind_nil; [apply keeps_on_world|]. intros [];
    [apply IH; lia|apply keeps_interrupted_membership].
Qed.

(** The keys an operation can still write in this run. *)
Definition metadata_keys (state : ImportState) (o : UploadOperation) : list string :=
  if is_some_and (uo_normalized_metadata o) has_metadata_assignment
     && negb (metadata_done state (uo_operation_id o))
  then [metadata_key (uo_operation_id o)] else [].

Lemma keeps_apply_metadata o asset_id state :
  keeps (metadata_keys state o) (apply_metadata config o asset_id state : run bool).
Proof.
  unfold apply_metadata, metadata_keys.
  destruct (uo_normalized_metadata o) as [m|]; cbn [is_some_and]; [|apply keeps_ret].
  destruct (has_metadata_assignment m); cbn [andb]; [|apply keeps_ret].
  destruct (metadata_done state _); cbn [negb]; [repeat keeps_step|].
  apply keeps_metadata_loop; unfold effect_fuel; lia.
Qed.

(** *** Albums *)

Definition effect_ok (e : EffectResult) : Prop :=
  match e with
  | Done id outcome _ => valid_asset_id id = true ∧ expects_id outcome = true
  | _ => True
  end.

(** Converging an album only touches the world, always returns, and a result has
    an identifier that can be recorded. *)
Definition world_only {A} (P : A → Prop) (m : run A) : Prop :=
  runs m (λ s r s', ∃ a w, r = Ok a ∧ s' = set_world w s ∧ P a).

Lemma world_only_ret {A} (P : A → Prop) a : P a → world_only P (mret a : run A).
Proof. intros Ha s. eexists _, _. split; [done|]. exists a, (run_world s). by destruct s. Qed.

Lemma world_only_bind {A B} P Q (m : run A) (f : A → run B) :
  world_only P m → (∀ a, P a → world_only Q (f a)) → world_only Q (m ≫= f).
Proof.
  intros Hm Hf s. destruct (Hm s) as (r & s1 & Hr & a & w & -> & -> & Ha).
  destruct (Hf a Ha (set_world w s)) as (r & s2 & Hr2 & b & w2 & -> & -> & Hb).
  eexists _, _. unfold mbind, prog_bind. rewrite Hr. split; [done|]. by exists b, w2.
Qed.

Lemma world_only_call {A} (P : A → Prop) (f : W → A * W) :
  (∀ w a w', f w = (a, w') → P a) → world_only P (on_world f).
Proof.
  intros Hf s. unfold on_world. destruct (f (run_world s)) as [a w] eqn:Heq.
  eexists _, _. split; [done|]. exists a, w. split_and!; [done|done|by eapply Hf].
Qed.

Lemma world_only_keeps {A} P k (m : run A) : world_only P m → keeps k m.
Proof.
  intros Hm s. destruct (Hm s) as (r & s' & Hr & a & w & -> & -> & _). eexists _, _. split; [done|].
  split; [|by exists a]. exists []. rewrite app_nil_r. split_and!; [done|apply submseteq_nil_l|constructor|done].
Qed.

Lemma world_only_retry {A} P error n (f : bool → run A) :
  0 <= n →
  (n + 1 < max_attempts_per_operation config → sat_add32 n 1 = n + 1 → world_only P (f true)) →
  world_only P (f false) → world_only P (on_world (effect_retry_allowed config error n) ≫= f).
Proof.
  intros Hn Ht Hf.
  apply (world_only_bind (λ b, b = true →
    n + 1 < max_attempts_per_operation config ∧ sat_add32 n 1 = n + 1)).
  - apply world_only_call. intros w b w' Hb ->. by eapply retry_left.
  - intros [] Hb; [destruct (Hb eq_refl); by apply Ht|done].
Qed.

Definition lookup_ok (r : result EffectResult (list RemoteAlbum) * Z) : Prop :=
  0 <= r.2 ∧ match r.1 with
  | Ok albums => Forall (λ a, valid_asset_id (ra_id a) = true) albums
  | Err e => effect_ok e
  end.

Lemma lookup_albums_ok fuel name n :
  0 <= n → (Z.to_nat (max_attempts_per_operation config - n) < fuel)%nat →
  world_only (λ r, lookup_ok r ∧ n <= r.2) (lookup_albums config fuel name n : run _).
Proof.
  revert n. induction fuel as [|fuel IH]; intros n Hn Hf; [lia|]. cbn [lookup_albums].
  apply (world_only_bind (λ r, match r with
    | Ok l => Forall (λ a, valid_asset_id (ra_id a) = true) l | Err _ => True end)).
  - apply world_only_call. intros w [l|e] w' Hl; [|done].
    eapply Forall_impl; [by eapply find_owned_albums_of|]. by intros a [_ Ha].
  - intros [l|error] Hl; [apply world_only_ret; split; [by split|simpl; lia]|].
    destruct (is_class _ error); [apply world_only_ret; split; [by split|simpl; lia]|].
    apply world_only_retry; [done| |apply world_only_ret; split; [by split|simpl; lia]].
    intros Hlt ->. apply (world_only_bind (λ _, True)); [by apply world_only_call|]. intros [] _.
    + intros s. destruct (IH (n + 1) ltac:(lia) ltac:(lia) s) as (r & s' & Hr & a & w & -> & -> & Ha & Hge).
      eexists _, _. split; [exact Hr|]. exists a, w. split_and!; [done|done|done|lia].
    + apply world_only_ret. split; [by split|simpl; lia].
Qed.

Lemma create_loop_ok fuel name n :
  0 <= n → (Z.to_nat (max_attempts_per_operation config - n) < fuel)%nat →
  world_only effect_ok (create_loop config fuel name n : run EffectResult).
Proof.
  revert n. induction fuel as [|fuel IH]; intros n Hn Hf; [lia|]. cbn [create_loop].
  apply (world_only_bind (λ r, match r with
    | Ok a => valid_asset_id (ra_id a) = true | Err _ => True end)).
  { apply world_only_call. intros w [a|e] w' Ha; [|done]. by eapply create_album_of. }
  intros [album|error] Ha; [by apply world_only_ret|].
  destruct (is_class _ error); [by apply world_only_ret|].
  destruct (is_retryable error); [|by apply world_only_ret].
  eapply world_only_bind; [apply lookup_albums_ok; [done|unfold effect_fuel; lia]|].
  intros [observed m] [[Hm Hobs] Hge]. simpl in *.
  destruct observed as [[|album [|]]|[]]; try (apply world_only_ret; simpl in *; try done).
  - apply world_only_retry; [done| |].
    + intros Hlt ->. apply (world_only_bind (λ _, True)); [by apply world_only_call|]. intros [] _.
      * apply IH; lia.
      * apply (world_only_bind (λ _, True)); [by apply world_only_call|]. intros [] _; by apply world_only_ret.
    + apply (world_only_bind (λ b, b = false)); [by apply world_only_ret|]. intros ? ->.
      apply (world_only_bind (λ _, True)); [by apply world_only_call|]. intros [] _; by apply world_only_ret.
  - by apply Forall_inv in Hobs.
Qed.

Lemma converge_album_ok name : world_only effect_ok (converge_album config name : run EffectResult).
Proof.
  unfold converge_album.
  eapply world_only_bind; [apply lookup_albums_ok; [done|unfold effect_fuel; lia]|].
  intros [albums n] [[Hn Hobs] _]. cbn [fst snd] in *. destruct albums as [[|album [|]]|e].
  - apply create_loop_ok; [done|unfold effect_fuel; lia].
  - apply world_only_ret. by apply Forall_inv in Hobs.
  - by apply world_only_ret.
  - by apply world_only_ret.
Qed.

Lemma keeps_record_album identity e :
  effect_ok e → keeps [album_effect_key identity] (record_album identity e : run (option string)).
Proof.
  intros He. unfold record_album. destruct e as [id outcome n|b n|b n].
  - destruct He as [Hid Ho]. apply keeps_bind_last; [apply keeps_append; by rewrite Ho|]. repeat keeps_step.
  - apply keeps_bind_last; [apply keeps_failure|]. repeat keeps_step.
  - apply keeps_bind_last; [apply keeps_failure|]. repeat keeps_step.
Qed.

(** The keys an album can still write in this run. *)
Definition album_run_keys (state : ImportState) (name : string) : list string :=
  let identity := album_identity name in
  (if is_some (state_album state identity) then [] else [album_effect_key identity])
  ++ (if membership_done state identity then [] else [membership_key identity]).

Lemma keeps_album_for name identity state :
  keeps (if is_some (state_album state identity) then [] else [album_effect_key identity])
    (album_for config name identity state : run (option string)).
Proof.
  unfold album_for. destruct (state_album state identity) as [[]|]; cbn [is_some];
    [repeat keeps_step|].
  intros s. destruct (converge_album_ok name s) as (r & s1 & Hr & e & w & -> & -> & He).
  destruct (keeps_record_album identity e He (set_world w s)) as (r & s' & Hr' & Hg).
  exists r, s'. unfold mbind, prog_bind. by rewrite Hr.
Qed.

Lemma keeps_apply_album state name members :
  keeps (album_run_keys state name) (apply_album config state name members : run bool).
Proof.
  unfold apply_album, album_run_keys. apply keeps_bind_nil; [apply keeps_on_world|]. intros [].
  { repeat keeps_step. }
  apply keeps_bind; [apply keeps_album_for|]. intros [album|]; [|repeat keeps_step].
  destruct (membership_done state _); [repeat keeps_step|].
  apply keeps_membership_loop; unfold effect_fuel; lia.
Qed.

Lemma keeps_apply_albums state l :
  keeps (List.flat_map (album_run_keys state) (map fst l)) (apply_albums_from config state l : run unit).
Proof.
  induction l as [|[name members] l IH]; [apply keeps_ret|].
  cbn [apply_albums_from List.flat_map map fst]. apply keeps_bind; [apply keeps_apply_album|].
  intros []; [exact IH|apply keeps_ret].
Qed.
End effect_facts.

(** ** Albums are never duplicated *)

Inductive AlbumAction :=
  | AFind (name : string) (r : result ClientError (list RemoteAlbum))
  | ACreate (name : string) (r : result ClientError RemoteAlbum).

Definition AlbumTraced (W : Type) : Type := W * list AlbumAction.

Section album_traced.
  Context {W : Type} `{Cancellation W, ImportClient W, Runtime W}.

Definition album_traced_cancellation : Cancellation (AlbumTraced W) := {|
  is_cancelled w := let '(b, w1) := is_cancelled w.1 in (b, (w1, w.2)) |}.
Definition album_traced_client : ImportClient (AlbumTraced W) := {|
  update_asset_metadata id m w :=
    let '(r, w1) := update_asset_metadata id m w.1 in (r, (w1, w.2));
  find_owned_albums name w :=
    let '(r, w1) := find_owned_albums name w.1 in (r, (w1, w.2 ++ [AFind name r]));
  create_album name w :=
    let '(r, w1) := create_album name w.1 in (r, (w1, w.2 ++ [ACreate name r]));
  add_album_assets id ids w := let '(r, w1) := add_album_assets id ids w.1 in (r, (w1, w.2)) |}.
Definition album_traced_runtime : Runtime (AlbumTraced W) := {|
  wait d w := let '(b, w1) := wait d w.1 in (b, (w1, w.2));
  budget w := budget w.1;
  set_budget b w := (set_budget b w.1, w.2) |}.
End album_traced.

(** An album is only created when the request just before found none of its
    name, and nothing follows a creation that succeeded. *)
Fixpoint album_protocol (name : string) (absent : bool) (t : list AlbumAction) : Prop :=
  match t with
  | [] => True
  | AFind n r :: t =>
    n = name ∧ album_protocol name (match r with Ok [] => true | _ => false end) t
  | ACreate n r :: t =>
    absent = true ∧ n = name ∧ (is_ok r = true → t = []) ∧ album_protocol name false t
  end.

Section album_protocol.
  Context {W : Type} `{Cancellation W, ImportClient W, Runtime W, Codec}.
  Variable config : UploadExecutionConfig.
#[local] Existing Instances album_traced_cancellation album_traced_client album_traced_runtime.
Notation state := (RunState (AlbumTraced W)).
Notation trace s := ((run_world s).2).

(** What a computation adds to the trace. *)
Definition adds {A} (m : prog state ExecutorError A) (R : A → list AlbumAction → Prop) : Prop :=
  ∀ s r s', m s = Some (r, s') → ∃ a t, r = Ok a ∧ trace s' = trace s ++ t ∧ R a t.

Lemma adds_ret {A} (a : A) : adds (mret a) (λ b t, b = a ∧ t = []).
Proof. intros s r s' [= <- <-]. exists a, []. by rewrite app_nil_r. Qed.

Lemma adds_bind {A B} (m : prog state ExecutorError A) (f : A → prog state ExecutorError B) R Q :
  adds m R → (∀ a, adds (f a) (Q a)) →
  adds (m ≫= f) (λ b t, ∃ a t1 t2, t = t1 ++ t2 ∧ R a t1 ∧ Q a b t2).
Proof.
  intros Hm Hf s r s' Hrun. unfold mbind, prog_bind in Hrun.
  destruct (m s) as [[[a|e] s1]|] eqn:Hs; [|destruct (Hm _ _ _ Hs) as (? & ? & [=] & _)|done].
  destruct (Hm _ _ _ Hs) as (a' & t1 & [= <-] & Ht1 & HR).
  destruct (Hf a _ _ _ Hrun) as (b & t2 & -> & Ht2 & HQ).
  exists b, (t1 ++ t2). rewrite Ht2, Ht1, app_assoc. split_and!; [done|done|]. by exists a, t1, t2.
Qed.

Lemma adds_weaken {A} (m : prog state ExecutorError A) (R R' : A → list AlbumAction → Prop) :
  adds m R → (∀ a t, R a t → R' a t) → adds m R'.
Proof. intros Hm Hw s r s' (a & t & ? & ? & ?)%Hm. exists a, t. auto. Qed.

(** A quiet step, and the requests. *)
Lemma adds_quiet {A B} (f : AlbumTraced W → A * AlbumTraced W) (k : A → prog state ExecutorError B) R :
  (∀ w a w', f w = (a, w') → w'.2 = w.2) → (∀ a, adds (k a) R) → adds (on_world f ≫= k) R.
Proof.
  intros Hf Hk s r s' Hrun. unfold mbind, prog_bind, on_world in Hrun.
  destruct (f (run_world s)) as [a w] eqn:Ha. apply Hf in Ha.
  destruct (Hk a _ _ _ Hrun) as (b & t & -> & Ht & HR). simpl in Ht. rewrite Ha in Ht. by exists b, t.
Qed.

Lemma adds_find {B} name (k : result ClientError (list RemoteAlbum) → prog state ExecutorError B) R :
  (∀ a, adds (k a) (λ b t, R b (AFind name a :: t))) → adds (on_world (find_owned_albums name) ≫= k) R.
Proof.
  intros Hk s r s' Hrun. unfold mbind, prog_bind, on_world in Hrun. simpl in Hrun.
  destruct (find_owned_albums name (run_world s).1) as [a w].
  destruct (Hk a _ _ _ Hrun) as (b & t & -> & Ht & HR). simpl in Ht. rewrite <-app_assoc in Ht.
  by exists b, (AFind name a :: t).
Qed.

Lemma adds_create {B} name (k : result ClientError RemoteAlbum → prog state ExecutorError B) R :
  (∀ a, adds (k a) (λ b t, R b (ACreate name a :: t))) → adds (on_world (create_album name) ≫= k) R.
Proof.
  intros Hk s r s' Hrun. unfold mbind, prog_bind, on_world in Hrun. simpl in Hrun.
  destruct (create_album name (run_world s).1) as [a w].
  destruct (Hk a _ _ _ Hrun) as (b & t & -> & Ht & HR). simpl in Ht. rewrite <-app_assoc in Ht.
  by exists b, (ACreate name a :: t).
Qed.

Lemma quiet_retry e n (w : AlbumTraced W) b w' :
  effect_retry_allowed config e n w = (b, w') → w'.2 = w.2.
Proof.
  unfold effect_retry_allowed, claim_retry. destruct (_ && _); [|by intros [= _ <-]].
  destruct (claim _) as [g bu]. by intros [= _ <-].
Qed.

Lemma quiet_wait key n e (w : AlbumTraced W) b w' : wait_retry config key n e w = (b, w') → w'.2 = w.2.
Proof. unfold wait_retry. simpl. destruct (wait _ w.1) as [b' w1]. by intros [= _ <-]. Qed.

Lemma quiet_cancelled (w : AlbumTraced W) b w' : is_cancelled w = (b, w') → w'.2 = w.2.
Proof. simpl. destruct (is_cancelled w.1) as [b' w1]. by intros [= _ <-]. Qed.

(** A lookup only asks for the name, and the last answer is its result. *)
Definition finds (name : string) (t : list AlbumAction) : Prop :=
  Forall (λ a, ∃ e, a = AFind name (Err e)) t.

Definition lookup_trace (name : string) (r : result EffectResult (list RemoteAlbum) * Z)
    (t : list AlbumAction) : Prop :=
  match r.1 with
  | Ok l => ∃ t0, t = t0 ++ [AFind name (Ok l)] ∧ finds name t0
  | Err _ => finds name t
  end.

Lemma lookup_adds fuel name n : adds (lookup_albums config fuel name n) (lookup_trace name).
Proof.
  revert n. induction fuel as [|fuel IH]; intros n; [done|]. cbn [lookup_albums].
  apply adds_find. intros [l|error].
  { eapply adds_weaken; [apply adds_ret|]. intros ? ? [-> ->]. exists []. split; [done|constructor]. }
  assert (∀ e m, adds (mret (Err e, m)) (λ b t, lookup_trace name b (AFind name (Err error) :: t))) as Hstop.
  { intros e m. eapply adds_weaken; [apply adds_ret|]. intros ? ? [-> ->].
    constructor; [by exists error|constructor]. }
  destruct (is_class _ error); [apply Hstop|].
  apply adds_quiet; [apply quiet_retry|]. intros []; [|apply Hstop].
  apply adds_quiet; [apply quiet_wait|]. intros []; [|apply Hstop].
  eapply adds_weaken; [apply IH|]. intros [[l|e] m] t; unfold lookup_trace; simpl.
  - intros (t0 & -> & Hf). exists (AFind name (Err error) :: t0). split; [done|].
    constructor; [by exists error|done].
  - intros Hf. constructor; [by exists error|done].
Qed.

Lemma protocol_absent name absent t : album_protocol name false t → album_protocol name absent t.
Proof. destruct t as [|[n r|n r] t]; simpl; [done|done|]. by intros [? _]. Qed.

Lemma protocol_finds name absent t t' :
  finds name t → album_protocol name false t' → album_protocol name absent (t ++ t').
Proof.
  intros Hf Ht'. revert absent. induction Hf as [|a t [e ->] Hf IH]; intros absent; simpl.
  - by apply protocol_absent.
  - split; [done|apply IH].
Qed.

Lemma protocol_lookup name absent l t0 t' :
  finds name t0 → album_protocol name (match l with [] => true | _ => false end) t' →
  album_protocol name absent ((t0 ++ [AFind name (Ok l)]) ++ t').
Proof.
  intros Hf Ht'. rewrite <-app_assoc. apply protocol_finds; [done|]. simpl. by destruct l.
Qed.

(** After an attempt that failed, the trace goes on after a lookup. *)
Lemma create_loop_adds fuel name n :
  adds (create_loop config fuel name n) (λ _ t, album_protocol name true t).
Proof.
  revert n. induction fuel as [|fuel IH]; intros n; [done|]. cbn [create_loop].
  apply adds_create. intros [album|error].
  { eapply adds_weaken; [apply adds_ret|]. by intros ? ? [_ ->]. }
  assert (∀ e : EffectResult, adds (mret e) (λ _ t, album_protocol name true (ACreate name (Err error) :: t))) as Hstop.
  { intros e. eapply adds_weaken; [apply adds_ret|]. by intros ? ? [_ ->]. }
  destruct (is_class _ error); [apply Hstop|]. destruct (is_retryable error); [|apply Hstop].
  eapply adds_weaken.
  - eapply (adds_bind _ _ (lookup_trace name)
      (λ r _ t, album_protocol name (match r.1 with Ok [] => true | _ => false end) t));
      [apply lookup_adds|]. intros [observed m]. cbn [fst].
    assert (∀ e : EffectResult, adds (mret e)
      (λ _ t, album_protocol name (match observed with Ok [] => true | _ => false end) t)) as Hend.
    { intros e. eapply adds_weaken; [apply adds_ret|]. by intros ? ? [_ ->]. }
    destruct observed as [[|album [|]]|[]]; try apply Hend.
    apply adds_quiet; [apply quiet_retry|]. intros [].
    + apply adds_quiet; [apply quiet_wait|]. intros []; [apply IH|].
      apply adds_quiet; [apply quiet_cancelled|]. intros []; apply Hend.
    + intros s r s' Hrun. unfold mbind at 1, prog_bind in Hrun. cbn beta iota in Hrun.
      revert s r s' Hrun. apply adds_quiet; [apply quiet_cancelled|]. intros []; apply Hend.
  - intros e t ([observed m] & t1 & t2 & -> & Hl & Hp). simpl. split_and!; [done|done|done|].
    unfold lookup_trace in Hl. simpl in Hl, Hp. destruct observed as [l|r].
    + destruct Hl as (t0 & -> & Hf). by apply protocol_lookup.
    + by apply protocol_finds.
Qed.

(** C27: an album is never created twice.  Every creation follows directly a lookup
    in which the server showed no album of the name, also after a creation whose
    answer was lost, and after an acknowledged creation no further request is
    made. *)
Theorem converge_album_protocol name (s : state) r (s' : state) :
  converge_album config name s = Some (r, s') → trace s = [] → album_protocol name false (trace s').
Proof.
  intros Hrun Hs.
  assert (adds (converge_album config name) (λ _ t, album_protocol name false t)) as Hadds.
  { unfold converge_album. eapply adds_weaken.
    - eapply (adds_bind _ _ (lookup_trace name)
        (λ r _ t, album_protocol name (match r.1 with Ok [] => true | _ => false end) t));
        [apply lookup_adds|]. intros [albums n]. cbn [fst].
      assert (∀ e : EffectResult, adds (mret e)
        (λ _ t, album_protocol name (match albums with Ok [] => true | _ => false end) t)) as Hend.
      { intros e. eapply adds_weaken; [apply adds_ret|]. by intros ? ? [_ ->]. }
      destruct albums as [[|album [|]]|e]; try apply Hend. apply create_loop_adds.
    - intros e t ([albums m] & t1 & t2 & -> & Hl & Hp). unfold lookup_trace in Hl. simpl in Hl, Hp.
      destruct albums as [l|e'].
      + destruct Hl as (t0 & -> & Hf). by apply protocol_lookup.
      + by apply protocol_finds. }
  destruct (Hadds _ _ _ Hrun) as (e & t & _ & Ht & Hp). by rewrite Ht, Hs.
Qed.
End album_protocol.

(** *** A concrete album: the answer to its creation is lost, the next lookup
    finds it. *)
Definition album_script : Type := list (result ClientError (list RemoteAlbum)).

(** Lookups answer from the script; creations always lose their answer. *)
Definition lossy_albums : ImportClient album_script := {|
  update_asset_metadata _ _ w := (Ok tt, w);
  find_owned_albums _ w := match w with r :: w => (r, w) | [] => (Ok [], []) end;
  create_album _ w := (Err (client_error ClientErrorClass.Disconnect), w);
  add_album_assets _ _ w := (Ok tt, w) |}.
Definition lossy_runtime : Runtime album_script := {|
  wait _ w := (true, w); budget _ := new_budget 5; set_budget _ w := w |}.
Definition lossy_flag : Cancellation album_script := {| is_cancelled w := (false, w) |}.

Definition empty_import_report (planned : UploadPlanSummary) (dry : bool) : ImportApplyReport := {|
  iar_schema_version := IMPORT_APPLY_REPORT_SCHEMA_VERSION; iar_dry_run := dry; iar_planned := planned;
  iar_would_upload := 0; iar_would_update_metadata := 0; iar_would_create_albums := 0;
  iar_would_add_album_memberships := 0; iar_created := 0; iar_duplicate := 0;
  iar_metadata_updated := 0; iar_albums_created := 0; iar_albums_reused := 0;
  iar_album_memberships_updated := 0; iar_resumed_effects := 0; iar_retried := 0;
  iar_failed := 0; iar_indeterminate := 0; iar_cancelled := false |}.

Section witnesses.
#[local] Existing Instances sample_codec lossy_albums lossy_runtime lossy_flag
  album_traced_cancellation album_traced_client album_traced_runtime.

Definition italy : RemoteAlbum := {| ra_id := sample_remote_id; ra_name := "Italy" |}.

Definition album_start : RunState (AlbumTraced album_script) := {|
  run_world := ([Ok []; Ok [italy]], []); run_journal := import_configured Missing;
  run_report := empty_import_report (expected_summary 2 []) false |}.

Lemma converge_album_protocol_witness : ∃ s,
  converge_album default_config "Italy" album_start
    = Some (Ok (Done sample_remote_id ImportOutcome.Created 0), s)
  ∧ album_protocol "Italy" false (run_world s).2.
Proof.
  eexists. split; [vm_compute; reflexivity|].
  eapply (converge_album_protocol default_config "Italy" album_start); [vm_compute; reflexivity|reflexivity].
Defined.
End witnesses.
