(* ===== verification/ImportApply.v ===== *)
(** * ImportApply: one run over an import plan
    ([crates/immich-executor/src/import_apply.rs])

    The run rescans the source, opens the import journal, uploads the assets that
    have no identifier yet, assigns their metadata, and, when every asset has an
    identifier, applies the albums.  Preparing the files ([ImportStaging]) is the
    class [Staging]. *)
From Stdlib Require Import Ascii.
From S2P Require Export Prelude Prog Text Metadata Upload Client ImportClient Executor Planner Verify.
From S2P Require Export Journal ImportJournal Operation Groups ImportEffects.

(** ** Interfaces *)

(** The part of the trait [ImportConfig] that [Planner] does not use. *)
Class ImportSource (W C : Type) := {
  upload_config : C → UploadExecutionConfig;
  scan_resolved : C → list string → string → io W ScanError ResolvedFolderPlan;
}.

(** [ImportStaging] and [PreparedImportAsset], with what their drops do. *)
Class Staging (W C : Type) := {
  Stage : Type;
  Prepared : Type;
  staging_open : UploadPlan → C → io W ExecutorError Stage;
  prepare : Stage → ResolvedFolderPlan → UploadOperation → io W ExecutorError Prepared;
  verified : Prepared → VerifiedAsset;
  drop_prepared : Prepared → W → W;
  drop_staging : Stage → W → W;
}.

(** What [ImmichImportClient] knows of its server. *)
Record ImportIdentity := { import_compatibility : ServerCompatibility; import_production : bool }.

(** ** Before the run *)

Definition push_ordered (operations : list UploadOperation) (groups : list OperationGroup)
    (operation : UploadOperation) : result ExecutorError (list OperationGroup) :=
  match uo_role operation with
  | Standalone => Ok (groups ++ [[operation]])
  | LivePhotoVideo _ =>
    image ← ok_or (image_of operations (uo_operation_id operation)) invalid_plan;
    Ok (groups ++ [[operation; image]])
  | LivePhotoImage _ _ => Ok groups
  end.

Definition ordered_operations (plan : UploadPlan) : result ExecutorError (list UploadOperation) :=
  groups ← for_each (push_ordered (up_operations plan)) (up_operations plan) [];
  Ok (concat (sort_groups groups)).

(** [filter_map(..).collect()] *)
Definition initial_asset_ids (plan : UploadPlan) (state : ImportState) : gmap string string :=
  foldl (λ ids operation,
    match state_asset_id state (uo_operation_id operation) with
    | Some id => <[uo_operation_id operation := id]> ids
    | None => ids
    end) ∅ (up_operations plan).

Definition live_video_id (operation : UploadOperation) (asset_ids : gmap string string) :
    option string :=
  match uo_role operation with
  | LivePhotoImage _ video_operation_id => asset_ids !! video_operation_id
  | _ => None
  end.

(** [apply_report] *)
Definition apply_report (plan : UploadPlan) : ImportApplyReport :=
  empty_import_report (up_summary plan) false.

(** ** The run *)
Section run.
  Context {W C : Type} `{Cancellation W, UploadClient W, ImportClient W, Runtime W, Storage W, Codec,
    TimeLib, ImportConfig C, ImportSource W C, Staging W C}.
Notation run := (prog (RunState W) ExecutorError).

Definition call {A} (m : io W ExecutorError A) : run A := λ s,
  let '(r, w) := m (run_world s) in Some (r, set_world w s).

Definition import_outcome (kind : OutcomeKind) : ImportOutcome.t :=
  match kind with
  | Created => ImportOutcome.Created
  | Duplicated => ImportOutcome.Duplicate
  | Failed => ImportOutcome.Failed
  | Indeterminate => ImportOutcome.Indeterminate
  end.

Definition outcome_counter (kind : OutcomeKind) : Counter.t :=
  match kind with
  | Created => Counter.Created
  | Duplicated => Counter.Duplicate
  | Failed => Counter.Failed
  | Indeterminate => Counter.Indeterminate
  end.

Definition record_completed_asset (outcome : OperationOutcome) : run (option string) :=
  _ ← append_outcome (asset_key (oc_operation_id outcome)) (import_outcome (oc_kind outcome))
        (oc_asset_id outcome) (oc_retries outcome);
  _ ← on_report (bump Counter.Retried (oc_retries outcome));
  _ ← on_report (bump (outcome_counter (oc_kind outcome)) 1);
  mret (oc_asset_id outcome).

Definition record_asset (operation : UploadOperation) (result : OperationResult) :
    run (option string) :=
  match result with
  | Completed outcome => record_completed_asset outcome
  | CancelledWith outcome =>
    _ ← on_report mark_cancelled;
    _ ← match outcome with
        | Some outcome =>
          _ ← append_outcome (asset_key (uo_operation_id operation)) ImportOutcome.Indeterminate None
                (oc_retries outcome);
          _ ← on_report (bump Counter.Retried (oc_retries outcome));
          on_report (bump Counter.Indeterminate 1)
        | None => mret tt
        end;
    mret None
  end.

Definition append_asset_failure (operation : UploadOperation) : run unit :=
  _ ← append_outcome (asset_key (uo_operation_id operation)) ImportOutcome.Failed None 0;
  on_report (bump Counter.Failed 1).

(** The asset of one iteration: known, just uploaded, or none ([continue], or
    [break] when cancelled). *)
Inductive AssetStep :=
  | Known (asset_id : string)
  | Uploaded (asset_id : string)
  | Skip
  | Stop.

Definition asset_step (config : C) (staging : Stage) (resolved : ResolvedFolderPlan) (state : ImportState)
    (asset_ids : gmap string string) (operation : UploadOperation) : run AssetStep :=
  match state_asset_id state (uo_operation_id operation) with
  | Some asset_id =>
    _ ← on_report (bump Counter.ResumedEffects 1);
    mret (Known asset_id)
  | None =>
    let live_video_id := live_video_id operation asset_ids in
    if is_image (uo_role operation) && negb (is_some live_video_id) then
      _ ← append_asset_failure operation;
      mret Skip
    else
      prepared ← call (prepare staging resolved operation);
      result ← on_world (apply_operation (upload_config config) operation (verified prepared) live_video_id);
      _ ← on_world (λ w, (tt, drop_prepared prepared w));
      asset_id ← record_asset operation result;
      match asset_id with
      | Some asset_id => mret (Uploaded asset_id)
      | None =>
        cancelled ← report_cancelled;
        mret (if cancelled : bool then Stop else Skip)
      end
  end.

(** The loop over the operations; returns the identifiers known at its end. *)
Fixpoint import_loop (config : C) (staging : Stage) (resolved : ResolvedFolderPlan) (state : ImportState)
    (operations : list UploadOperation) (asset_ids : gmap string string) :
    run (gmap string string) :=
  match operations with
  | [] => mret asset_ids
  | operation :: operations =>
    stop ← on_world is_cancelled;
    if stop : bool then
      _ ← on_report mark_cancelled;
      mret asset_ids
    else
      step ← asset_step config staging resolved state asset_ids operation;
      let metadata (asset_id : string) (asset_ids : gmap string string) :=
        go_on ← apply_metadata (upload_config config) operation asset_id state;
        if go_on : bool then import_loop config staging resolved state operations asset_ids
        else mret asset_ids in
      match step with
      | Known asset_id => metadata asset_id asset_ids
      | Uploaded asset_id => metadata asset_id (<[uo_operation_id operation := asset_id]> asset_ids)
      | Skip => import_loop config staging resolved state operations asset_ids
      | Stop => mret asset_ids
      end
  end.

Definition read_state : run ImportState := λ s,
  let '(_, readable, w) := storage (run_world s) in
  Some (journal_state readable (run_journal s), set_world w s).
Definition read_report : run ImportApplyReport := λ s, Some (Ok (run_report s), s).

(** The staging lives until the function returns, in whatever way. *)
Definition with_staging {A} (staging : Stage) (m : run A) : run A := λ s,
  match m s with
  | Some (r, s) => Some (r, set_world (drop_staging staging (run_world s)) s)
  | None => None
  end.

(** From the opened journal on. *)
Definition import_body (plan : UploadPlan) (config : C) (resolved : ResolvedFolderPlan) :
    run ImportApplyReport :=
  state ← read_state;
  _ ← run_lift (validate_for_plan state plan);
  staging ← call (staging_open plan config);
  with_staging staging (
    _ ← on_world (λ w, (tt, set_budget (new_budget (max_retries_per_run (upload_config config))) w));
    operations ← run_lift (ordered_operations plan);
    asset_ids ← import_loop config staging resolved state operations (initial_asset_ids plan state);
    cancelled ← report_cancelled;
    _ ← (if negb cancelled && (Z.of_nat (size asset_ids) =? zlen (up_operations plan))
         then apply_albums (upload_config config) plan asset_ids state
         else mret tt);
    read_report).

Definition validate_context (plan : UploadPlan) (config : C) (client : ImportIdentity)
    (production : bool) : result ExecutorError unit :=
  _ ← validate_import config;
  _ ← map_err (λ _, invalid_plan) (Upload.validate plan);
  if (up_schema_version plan =? UPLOAD_PLAN_SCHEMA_VERSION_V2)
     && bool_decide (kind (up_source plan) = source_kind config)
  then
    identity ← identity config;
    fail_if (negb (String.eqb (up_configuration_sha256 plan) identity
                   && bool_decide (import_compatibility client = up_server plan)
                   && Bool.eqb (import_production client) production)) invalid_plan
  else Err invalid_plan.

Definition rescan (plan : UploadPlan) (inputs : list string) (config : C) :
    io W ExecutorError ResolvedFolderPlan :=
  resolved ← io_map_err scan_error (scan_resolved config inputs (label (up_source plan)));
  observed ← lift (create_import_upload_plan resolved (up_server plan) config);
  _ ← lift (fail_if (negb (bool_decide (observed = plan))) source_changed);
  mret resolved.

Definition open_import_checkpoint (file : CheckpointFile ImportConnection) (plan : UploadPlan)
    (backup_reference_sha256 : option string) (available : bool) :
    result ExecutorError ImportConnection :=
  match backup_reference_sha256 with
  | Some digest => open_import_production file plan digest available
  | None => open_import file plan available
  end.

(** [apply_import_inner]; returns the journal as well, when it was opened. *)
Definition apply_import_inner (plan : UploadPlan) (inputs : list string)
    (file : CheckpointFile ImportConnection) (config : C) (client : ImportIdentity)
    (backup_reference_sha256 : option string) (w : W) :
    option (result ExecutorError ImportApplyReport * option ImportConnection * W) :=
  match (_ ← lift (validate_context plan config client (is_some backup_reference_sha256));
         rescan plan inputs config) w with
  | (Err e, w) => Some (Err e, None, w)
  | (Ok resolved, w) =>
    let '(_, available, w) := storage w in
    match open_import_checkpoint file plan backup_reference_sha256 available with
    | Err e => Some (Err e, None, w)
    | Ok journal =>
      '(r, s) ← import_body plan config resolved
        {| run_world := w; run_journal := journal; run_report := apply_report plan |};
      Some (r, Some (run_journal s), run_world s)
    end
  end.

(** [apply_takeout_import], [apply_apple_photos_import] *)
Definition apply_import (plan : UploadPlan) (inputs : list string)
    (file : CheckpointFile ImportConnection) (config : C) (client : ImportIdentity) (w : W) :=
  apply_import_inner plan inputs file config client None w.

(** [apply_production_takeout_import], [apply_production_apple_photos_import] *)
Definition apply_production_import (plan : UploadPlan) (inputs : list string)
    (file : CheckpointFile ImportConnection) (config : C) (client : ImportIdentity)
    (authorization : ProductionImportAuthorization) (w : W) :=
  if negb (import_matches_plan authorization plan) || negb (import_production client)
  then Some (Err invalid_plan, None, w)
  else apply_import_inner plan inputs file config client
    (Some (pia_backup_reference_sha256 authorization)) w.
End run.

(** ** The order of the operations *)
Section ordered.
  Context `{TimeLib}.

(** It is the schedule of a run that has completed nothing. *)
Lemma push_ordered_push plan groups o :
  upload_well_formed plan → o ∈ up_operations plan →
  push_ordered (up_operations plan) groups o =
  push_group ∅ (up_operations plan) (collect_map uo_operation_id id (up_operations plan)) groups o.
Proof.
  intros Hwf Ho. unfold push_ordered, push_group. destruct (uo_role o) as [|pair|pair vid] eqn:Hr.
  - unfold is_completed_op. by rewrite lookup_empty.
  - destruct (image_of _ _); [|done]. simpl. unfold is_completed_op. by rewrite lookup_empty.
  - destruct (uwf_dependencies _ Hwf o pair vid Ho Hr) as (v & Hv & <- & _).
    destruct (collect_map uo_operation_id id (up_operations plan) !! uo_operation_id v) eqn:Hl; [done|].
    apply collect_map_None in Hl. destruct Hl. apply Prelude.elem_of_map. by exists v.
Qed.

Lemma ordered_operations_groups plan :
  upload_well_formed plan →
  ordered_operations plan = groups ← pending_groups ∅ plan; Ok (concat groups).
Proof.
  intros Hwf. unfold ordered_operations, pending_groups.
  assert (∀ l groups, l ⊆ up_operations plan →
    for_each (push_ordered (up_operations plan)) l groups =
    for_each (push_group ∅ (up_operations plan)
      (collect_map uo_operation_id id (up_operations plan))) l groups) as Heq.
  { induction l as [|o l IH]; intros groups Hl; [done|]. simpl.
    rewrite push_ordered_push by (done || set_solver).
    destruct (push_group _ _ _ groups o); simpl; [|done]. apply IH. set_solver. }
  rewrite Heq by done. by destruct (for_each (push_group _ _ _) _ _).
Qed.

Lemma ordered_operations_Ok plan l :
  upload_well_formed plan → ordered_operations plan = Ok l →
  NoDup l ∧ ∀ o, o ∈ l → o ∈ up_operations plan.
Proof.
  intros Hwf. rewrite ordered_operations_groups by done. intros Ho. result_inv.
  match goal with H : pending_groups ∅ plan = Ok _ |- _ =>
    apply (pending_groups_Ok ∅ plan Hwf) in H as [_ ->] end.
  split; [by apply (groups_NoDup ∅ plan Hwf)|]. intros o. by apply (groups_subset ∅ plan).
Qed.

Lemma ordered_operations_sub plan l :
  upload_well_formed plan → ordered_operations plan = Ok l → l ⊆+ up_operations plan.
Proof.
  intros Hwf Ho. destruct (ordered_operations_Ok plan l Hwf Ho) as [Hnd Hin]. by apply NoDup_submseteq.
Qed.
End ordered.

(** ** What a run may write *)
Section run_facts.
  Context {W C : Type} `{Cancellation W, UploadClient W, !UploadClientLaws W, ImportClient W,
    !ImportClientLaws W, Runtime W, Storage W, Codec, TimeLib, ImportConfig C, ImportSource W C,
    Staging W C}.
  Variable config : C.
  Hypothesis Hmax : max_attempts_per_operation (upload_config config) <= u32_max.
Notation run := (prog (RunState W) ExecutorError).

(** [extends keys m]: whatever happens, [m] returns and the journal has grown by
    valid rows, at most one for each of [keys]. *)
Definition extends {A} (keys : list string) (m : run A) : Prop := runs m (λ s _ s', grows keys s s').

Lemma keeps_extends {A} keys (m : run A) : keeps keys m → extends keys m.
Proof. intros Hm. eapply runs_weaken; [exact Hm|]. by intros s r s' [Hg _]. Qed.

Lemma extends_bind {A B} k1 k2 (m : run A) (f : A → run B) :
  extends k1 m → (∀ a, extends k2 (f a)) → extends (k1 ++ k2) (m ≫= f).
Proof.
  intros Hm Hf. eapply runs_weaken; [apply (runs_bind _ _ _ _ Hm Hf)|]. intros s r s'.
  intros [(e & -> & Hg)|(a & s1 & Hg1 & Hg2)]; [|by eapply grows_trans].
  eapply grows_mono; [|exact Hg]. by apply submseteq_inserts_r.
Qed.

Lemma extends_bind_nil {A B} k (m : run A) (f : A → run B) :
  extends [] m → (∀ a, extends k (f a)) → extends k (m ≫= f).
Proof. apply (extends_bind []). Qed.

Lemma extends_mono {A} k k' (m : run A) : k ⊆+ k' → extends k m → extends k' m.
Proof. intros Hk Hm. eapply runs_weaken; [exact Hm|]. intros s r s'. by apply grows_mono. Qed.

Lemma extends_nil {A} k (m : run A) : extends [] m → extends k m.
Proof. apply extends_mono, submseteq_nil_l. Qed.

Lemma extends_call {A} k (m : io W ExecutorError A) : extends k (call m).
Proof.
  apply extends_nil. intros s. unfold call. destruct (m (run_world s)) as [r w].
  eexists _, _. split; [done|]. exists []. rewrite app_nil_r.
  split_and!; [done|done|constructor|done].
Qed.

Lemma extends_lift {A} k (r : result ExecutorError A) : extends k (run_lift r : run A).
Proof. intros s. eexists _, _. split; [done|]. apply grows_refl. Qed.

Lemma extends_lift_Ok {A B} k (a : A) (f : A → run B) :
  extends k (f a) → extends k (run_lift (Ok a) ≫= f).
Proof. done. Qed.

Lemma extends_ret {A} k (a : A) : extends k (mret a : run A).
Proof. apply keeps_extends, keeps_ret. Qed.

Lemma extends_world {A} k (f : W → A * W) : extends k (on_world f).
Proof. apply keeps_extends, keeps_on_world. Qed.

Lemma extends_report k f : extends k (on_report f : run unit).
Proof. apply keeps_extends, keeps_on_report. Qed.

(** An outcome of the operation loop has the contract of the import journal. *)
Definition result_ok (o : UploadOperation) (r : OperationResult) : Prop :=
  ∀ oc, outcome_of r = Some oc →
    asset_contract (event_of oc) = true ∧ oc_operation_id oc = uo_operation_id o.

Lemma import_outcome_contract oc :
  asset_contract (event_of oc) = true →
  expects_id (import_outcome (oc_kind oc)) = is_some_and (oc_asset_id oc) valid_asset_id.
Proof.
  unfold asset_contract. simpl. destruct (oc_kind oc); simpl; intros Hc; try by rewrite Hc.
  - by destruct (oc_asset_id oc).
  - by destruct (oc_asset_id oc).
Qed.

Lemma keeps_record_asset o r :
  result_ok o r → keeps [asset_key (uo_operation_id o)] (record_asset o r : run (option string)).
Proof.
  intros Hr. unfold record_asset. destruct r as [oc|oc].
  - destruct (Hr oc eq_refl) as [Hc Hid]. unfold record_completed_asset. rewrite Hid.
    apply keeps_bind_last; [by apply keeps_append, import_outcome_contract|]. repeat keeps_step.
  - apply keeps_bind_nil; [apply keeps_on_report|]. intros _.
    apply keeps_bind_last; [|intros; apply keeps_ret]. destruct oc as [oc|]; [|apply keeps_ret].
    repeat keeps_step.
Qed.

Lemma keeps_append_failure o : keeps [asset_key (uo_operation_id o)] (append_asset_failure o : run unit).
Proof. unfold append_asset_failure. repeat keeps_step. Qed.

Definition asset_keys (state : ImportState) (o : UploadOperation) : list string :=
  if is_some (state_asset_id state (uo_operation_id o)) then [] else [asset_key (uo_operation_id o)].

Lemma extends_with_staging {A} k staging (m : run A) : extends k m → extends k (with_staging staging m).
Proof.
  intros Hm s. destruct (Hm s) as (r & s' & Hr & Hg). unfold with_staging. rewrite Hr.
  eexists _, _. split; [done|exact Hg].
Qed.

Lemma extends_asset_step staging resolved state ids o :
  extends (asset_keys state o) (asset_step config staging resolved state ids o : run AssetStep).
Proof.
  unfold asset_step, asset_keys. destruct (state_asset_id state _); cbn [is_some].
  { apply keeps_extends. repeat keeps_step. }
  destruct (is_image _ && _).
  { apply keeps_extends, keeps_bind_last; [apply keeps_append_failure|]. repeat keeps_step. }
  apply extends_bind_nil; [apply extends_call|]. intros prepared.
  intros s. unfold mbind at 1, prog_bind at 1, on_world at 1.
  destruct (apply_operation _ o (verified prepared) _ (run_world s)) as [r w] eqn:Hr.
  assert (result_ok o r) as Hok.
  { intros oc Hoc. by eapply operation_contract. }
  revert w Hr. generalize s. intros s0 w _.
  assert (extends [asset_key (uo_operation_id o)]
    (_ ← on_world (λ w, (tt, drop_prepared prepared w));
     asset_id ← record_asset o r;
     match asset_id with
     | Some asset_id => mret (Uploaded asset_id)
     | None => cancelled ← report_cancelled; mret (if cancelled : bool then Stop else Skip)
     end : run AssetStep)) as Hrec.
  { apply extends_bind_nil; [apply extends_world|]. intros _.
    apply keeps_extends, keeps_bind_last; [by apply keeps_record_asset|]. intros [id|]; repeat keeps_step. }
  destruct (Hrec (set_world w s0)) as (r' & s' & Hrun & Hg). by exists r', s'.
Qed.

Definition operation_run_keys (state : ImportState) (o : UploadOperation) : list string :=
  asset_keys state o ++ metadata_keys state o.

Lemma extends_import_loop staging resolved state ops ids :
  extends (List.flat_map (operation_run_keys state) ops)
    (import_loop config staging resolved state ops ids : run (gmap string string)).
Proof.
  revert ids. induction ops as [|o ops IH]; intros ids; [apply extends_ret|].
  cbn [import_loop List.flat_map]. unfold operation_run_keys at 1. rewrite <-app_assoc.
  apply extends_bind_nil; [apply extends_world|]. intros [].
  { apply extends_bind_nil; [apply extends_report|]. intros _. apply extends_ret. }
  apply extends_bind; [apply extends_asset_step|].
  assert (∀ id ids, extends (metadata_keys state o ++ List.flat_map (operation_run_keys state) ops)
    (go_on ← apply_metadata (upload_config config) o id state;
     if go_on : bool then import_loop config staging resolved state ops ids else mret ids)) as Hmeta.
  { intros id ids'. apply extends_bind; [by apply keeps_extends, keeps_apply_metadata|].
    intros []; [apply IH|apply extends_ret]. }
  intros []; [apply Hmeta|apply Hmeta| |apply extends_ret].
  eapply extends_mono; [by apply submseteq_inserts_l|apply IH].
Qed.

(** *** Albums *)

Lemma add_members_keys id l names :
  (∀ n, n ∈ map fst (foldl (add_member id) l names) ↔ n ∈ map fst l ∨ n ∈ names)
  ∧ (StronglySorted str_lt (map fst l) → StronglySorted str_lt (map fst (foldl (add_member id) l names))).
Proof.
  revert l. induction names as [|a names IH]; intros l; simpl; [split; [set_solver|done]|].
  destruct (IH (add_member id l a)) as [Hin Hs]. unfold add_member in Hin, Hs at 1.
  rewrite entry_or_keys in Hs. split.
  - intros n. rewrite Hin, entry_or_keys, elem_of_set_insert, elem_of_cons. tauto.
  - intros Hl. unfold add_member in *. apply Hs. by apply set_insert_sorted.
Qed.

Lemma album_members_names plan ids :
  StronglySorted str_lt (map fst (album_members plan ids)) ∧
  ∀ n, n ∈ map fst (album_members plan ids) → n ∈ album_set (up_operations plan).
Proof.
  unfold album_members, album_set.
  assert (∀ os l (names : gset string), (∀ o, o ∈ os → list_to_set (operation_albums o) ⊆ names) →
    (∀ n, n ∈ map fst l → n ∈ names) → StronglySorted str_lt (map fst l) →
    let l' := foldl (λ albums operation,
      match ids !! uo_operation_id operation with
      | Some asset_id =>
        match uo_normalized_metadata operation with
        | Some metadata => foldl (add_member asset_id) albums (Metadata.albums metadata)
        | None => albums
        end
      | None => albums
      end) l os in
    StronglySorted str_lt (map fst l') ∧ ∀ n, n ∈ map fst l' → n ∈ names) as Hgen.
  { induction os as [|o os IH]; intros l names Hos Hl Hs; simpl; [done|].
    apply IH; [set_solver| |].
    - assert (list_to_set (operation_albums o) ⊆ names) as Ho by set_solver.
      unfold operation_albums in Ho. destruct (ids !! _) as [id|]; [|done].
      destruct (uo_normalized_metadata o) as [m|]; [|done].
      intros n [?|Hn]%(proj1 (add_members_keys _ _ _)); [by apply Hl|]. apply Ho. by apply elem_of_list_to_set.
    - destruct (ids !! _) as [id|]; [|done]. destruct (uo_normalized_metadata o) as [m|]; [|done].
      by apply add_members_keys. }
  apply Hgen; [|set_solver|constructor]. intros o Ho n Hn. apply elem_of_list_to_set in Hn.
  apply elem_of_list_to_set, list_elem_of_In, in_flat_map. exists o. by rewrite <-!list_elem_of_In.
Qed.

(** *** The keys of a plan *)

Definition plan_run_keys (state : ImportState) (plan : UploadPlan) : list string :=
  List.flat_map (operation_run_keys state) (up_operations plan)
  ++ List.flat_map (album_run_keys state) (elements (album_set (up_operations plan))).

Lemma flat_map_submseteq {A B} (f : A → list B) l k : l ⊆+ k → List.flat_map f l ⊆+ List.flat_map f k.
Proof.
  induction 1 as [|x l k _ IH|x y l|x l k _ IH|l1 l2 l3 _ IH1 _ IH2]; simpl; [done|by apply submseteq_app| | |by etrans].
  - apply Permutation_submseteq. rewrite !app_assoc. apply Permutation_app_tail, Permutation_app_comm.
  - etrans; [exact IH|]. by apply submseteq_inserts_l.
Qed.

Lemma album_names_sub plan ids :
  map fst (album_members plan ids) ⊆+ elements (album_set (up_operations plan)).
Proof.
  destruct (album_members_names plan ids) as [Hs Hin]. apply NoDup_submseteq.
  - by eapply StronglySorted_NoDup, Hs; apply _.
  - intros n Hn. by apply elem_of_elements, Hin.
Qed.

(** After the state was read and accepted. *)
Lemma import_body_grows plan resolved (s : RunState W) state :
  upload_well_formed plan → journal_state true (run_journal s) = Ok state →
  ∃ r s', import_body plan config resolved s = Some (r, s') ∧ grows (plan_run_keys state plan) s s'.
Proof.
  intros Hwf Hst. unfold import_body.
  set (rest := λ state : ImportState, _ ← run_lift (validate_for_plan state plan); _).
  assert (extends (plan_run_keys state plan) (rest state)) as Hrest.
  { unfold rest, plan_run_keys. apply extends_bind_nil; [apply extends_lift|]. intros _.
    apply extends_bind_nil; [apply extends_call|]. intros staging. apply extends_with_staging.
    apply extends_bind_nil; [apply extends_world|]. intros _.
    destruct (ordered_operations plan) as [ops|e] eqn:Hops.
    - apply extends_lift_Ok, extends_bind.
      + eapply extends_mono; [|apply extends_import_loop].
        by apply flat_map_submseteq, ordered_operations_sub.
      + intros ids. eapply extends_bind_nil; [apply keeps_extends, keeps_report_cancelled|]. intros c.
        rewrite <-(app_nil_r (List.flat_map _ _)). apply extends_bind.
        * destruct (_ && _); [|apply extends_ret]. apply keeps_extends.
          eapply keeps_mono; [|by apply keeps_apply_albums]. by apply flat_map_submseteq, album_names_sub.
        * intros _ s0. eexists _, _. split; [done|]. apply grows_refl.
    - intros s0. eexists _, _. split; [done|]. apply grows_refl. }
  unfold mbind at 1, prog_bind, read_state. destruct (storage (run_world s)) as [[now readable] w].
  destruct readable; [|eexists _, _; split; [done|]; exact (grows_refl _ s)].
  rewrite Hst. destruct (Hrest (set_world w s)) as (r & s' & Hr & Hg). by exists r, s'.
Qed.
End run_facts.

(** ** Whole runs *)

(** What is done once is not done again: the keys whose last outcome the run
    reads as settled. *)
Definition settled (state : ImportState) (key : string) : Prop :=
  (∃ id, key = asset_key id ∧ is_Some (state_asset_id state id))
  ∨ (∃ id, key = metadata_key id ∧ metadata_done state id = true)
  ∨ (∃ identity, key = album_effect_key identity ∧ is_Some (state_album state identity))
  ∨ (∃ identity, key = membership_key identity ∧ membership_done state identity = true).

Section keys.
  Context `{Codec}.

(** The kinds of keys a run writes, with the condition each is written under. *)
Lemma plan_run_keys_cases state plan key :
  key ∈ plan_run_keys state plan →
  (∃ o, o ∈ up_operations plan ∧ key = asset_key (uo_operation_id o)
     ∧ state_asset_id state (uo_operation_id o) = None)
  ∨ (∃ o, o ∈ up_operations plan ∧ key = metadata_key (uo_operation_id o)
     ∧ is_some_and (uo_normalized_metadata o) has_metadata_assignment = true
     ∧ metadata_done state (uo_operation_id o) = false)
  ∨ (∃ name, name ∈ album_set (up_operations plan) ∧ key = album_effect_key (album_identity name)
     ∧ state_album state (album_identity name) = None)
  ∨ (∃ name, name ∈ album_set (up_operations plan) ∧ key = membership_key (album_identity name)
     ∧ membership_done state (album_identity name) = false).
Proof.
  unfold plan_run_keys. rewrite elem_of_app, !list_elem_of_In, !in_flat_map. intros [(o & Ho & Hk)|(name & Hn & Hk)].
  - apply list_elem_of_In in Ho. unfold operation_run_keys, asset_keys, metadata_keys in Hk.
    apply in_app_or in Hk as [Hk|Hk].
    + left. destruct (state_asset_id state _) eqn:Hs; simpl in Hk; [done|]. destruct Hk as [<-|[]]. by exists o.
    + right; left. destruct (is_some_and _ _) eqn:Hm; simpl in Hk; [|done].
      destruct (metadata_done state _) eqn:Hd; simpl in Hk; [done|]. destruct Hk as [<-|[]]. by exists o.
  - apply list_elem_of_In, elem_of_elements in Hn. unfold album_run_keys in Hk.
    apply in_app_or in Hk as [Hk|Hk].
    + right; right; left. destruct (state_album state _) eqn:Hs; simpl in Hk; [done|].
      destruct Hk as [<-|[]]. by exists name.
    + right; right; right. destruct (membership_done state _) eqn:Hs; simpl in Hk; [done|].
      destruct Hk as [<-|[]]. by exists name.
Qed.

Lemma settled_not_written state plan key : settled state key → key ∉ plan_run_keys state plan.
Proof.
  intros Hs Hk%plan_run_keys_cases.
  destruct Hs as [(i & -> & Hi)|[(i & -> & Hi)|[(i & -> & Hi)|(i & -> & Hi)]]];
    destruct Hk as [(x & _ & Hk & Hx)|[(x & _ & Hk & _ & Hx)|[(x & _ & Hk & Hx)|(x & _ & Hk & Hx)]]];
    try discriminate Hk; injection Hk as Hk; match type of Hk with _ +:+ ?a = _ +:+ ?b => change (a = b) in Hk end; subst i;
    rewrite Hx in Hi; try discriminate Hi; by destruct Hi.
Qed.

(** A run stays within what the plan allows. *)
Lemma plan_run_keys_allowed state plan key :
  key ∈ plan_run_keys state plan → key ∈ allowed_keys plan.
Proof.
  unfold allowed_keys. intros Hk%plan_run_keys_cases.
  rewrite elem_of_list_to_set, list_elem_of_In, in_flat_map.
  assert (∀ name, name ∈ album_set (up_operations plan) →
    ∃ o m, o ∈ up_operations plan ∧ uo_normalized_metadata o = Some m ∧ name ∈ Metadata.albums m) as Halbum.
  { intros name (o & Ho & Hn)%elem_of_list_to_set%list_elem_of_In%in_flat_map.
    apply list_elem_of_In in Ho, Hn. unfold operation_albums in Hn.
    destruct (uo_normalized_metadata o) as [m|] eqn:Hm; [by exists o, m|by apply not_elem_of_nil in Hn]. }
  destruct Hk as [(o & Ho & -> & _)|[(o & Ho & -> & Hm & _)|[(n & Hn & -> & _)|(n & Hn & -> & _)]]].
  - exists o. rewrite <-list_elem_of_In. split; [done|]. by left.
  - exists o. rewrite <-list_elem_of_In. split; [done|]. right. rewrite Hm. by left.
  - destruct (Halbum n Hn) as (o & m & Ho & Hm & Hin). exists o. rewrite <-list_elem_of_In. split; [done|].
    right. apply in_or_app. right. rewrite Hm. apply in_flat_map. exists n.
    rewrite <-list_elem_of_In. split; [done|by left].
  - destruct (Halbum n Hn) as (o & m & Ho & Hm & Hin). exists o. rewrite <-list_elem_of_In. split; [done|].
    right. apply in_or_app. right. rewrite Hm. apply in_flat_map. exists n.
    rewrite <-list_elem_of_In. split; [done|]. right. by left.
Qed.

(** The number of keys is within the mutations the plan announces. *)
Lemma operation_run_keys_length state ops :
  zlen (List.flat_map (operation_run_keys state) ops)
  <= zlen ops + count (λ o, is_some_and (uo_normalized_metadata o) has_metadata) ops.
Proof.
  induction ops as [|o ops IH]; [done|]. cbn [List.flat_map]. rewrite zlen_app, zlen_cons.
  rewrite count_cons.
  unfold operation_run_keys at 1, asset_keys, metadata_keys. rewrite zlen_app.
  change has_metadata with has_metadata_assignment in *.
  destruct (state_asset_id _ _), (is_some_and _ _), (metadata_done _ _);
    cbn [is_some andb negb]; rewrite ?zlen_cons; change (@zlen string []) with 0; lia.
Qed.

Lemma album_run_keys_length state names :
  zlen (List.flat_map (album_run_keys state) names) <= 2 * zlen names.
Proof.
  induction names as [|name names IH]; [done|]. cbn [List.flat_map]. rewrite zlen_app, zlen_cons.
  unfold album_run_keys at 1. rewrite zlen_app.
  destruct (state_album _ _), (membership_done _ _); cbn [is_some]; rewrite ?zlen_cons; change (@zlen string []) with 0; lia.
Qed.

Lemma plan_run_keys_length `{TimeLib} state plan :
  upload_well_formed plan → up_schema_version plan = 2 →
  zlen (up_operations plan) < 2 ^ 60 → set_len (album_set (up_operations plan)) < 2 ^ 60 →
  zlen (plan_run_keys state plan) <= ups_max_mutations (up_summary plan).
Proof.
  intros Hwf Hv Ho Ha. rewrite max_mutations_exact, (uwf_summary _ Hwf), Hv by done.
  unfold plan_run_keys, expected_summary, set_len. simpl. rewrite zlen_app.
  pose proof (operation_run_keys_length state (up_operations plan)).
  pose proof (album_run_keys_length state (elements (album_set (up_operations plan)))) as Hal.
  unfold size, set_size in *. unfold zlen in *. simpl in *. lia.
Qed.
End keys.

Section runs.
  Context {W C : Type} `{Cancellation W, UploadClient W, !UploadClientLaws W, ImportClient W,
    !ImportClientLaws W, Runtime W, Storage W, Codec, TimeLib, ImportConfig C, ImportSource W C,
    Staging W C}.

Definition own_journal (file : CheckpointFile ImportConnection) : Prop :=
  match file with Database c => import_journal_reachable c | _ => True end.

Lemma open_import_checkpoint_scope file plan backup available j :
  open_import_checkpoint file plan backup available = Ok j →
  open_import_with_scope file plan backup available = Ok j
  ∧ (∀ digest, backup = Some digest → is_lower_sha256 digest = true).
Proof.
  unfold open_import_checkpoint. destruct backup as [digest|]; [|done].
  unfold open_import_production. intros Ho. result_inv.
  repeat match goal with u : unit |- _ => destruct u end.
  rewrite negb_false_iff in *. split; [done|]. by intros d [= <-].
Qed.

Lemma validate_context_Ok plan (config : C) client production :
  validate_context plan config client production = Ok tt →
  upload_well_formed plan ∧ up_schema_version plan = 2
  ∧ import_compatibility client = up_server plan ∧ import_production client = production.
Proof.
  intros Hc. unfold validate_context in Hc. result_inv.
  repeat match goal with u : unit |- _ => destruct u end.
  match goal with H : Upload.validate _ = _ |- _ => apply upload_validate_Ok in H end.
  destruct ((_ =? _) && _) eqn:Hb; [|done]. result_inv.
  repeat match goal with
  | H : negb _ = false |- _ => apply negb_false_iff in H
  | H : _ && _ = true |- _ => apply andb_true_iff in H as [? ?]
  | H : bool_decide _ = true |- _ => apply bool_decide_eq_true in H
  | H : Bool.eqb _ _ = true |- _ => apply eqb_prop in H
  | H : (_ =? _) = true |- _ => apply Z.eqb_eq in H
  end. done.
Qed.

(** What happens before the journal is opened. *)
Lemma import_prologue plan inputs (config : C) client production (w : W) resolved w' :
  (_ ← lift (validate_context plan config client production); rescan plan inputs config) w
    = (Ok resolved, w') →
  ∃ w1, (upload_well_formed plan ∧ up_schema_version plan = 2
   ∧ import_compatibility client = up_server plan ∧ import_production client = production)
  ∧ scan_resolved config inputs (label (up_source plan)) w = (Ok resolved, w1)
  ∧ create_import_upload_plan resolved (up_server plan) config = Ok plan.
Proof.
  intros Hp. apply io_bind_Ok in Hp as ([] & w1 & [Hc ->]%lift_Ok & Hp).
  unfold rescan in Hp. apply io_bind_Ok in Hp as (r & w2 & Hs & Hp).
  apply io_map_err_inv in Hs as (r0 & Hs & Hr0). destruct r0 as [y|e]; [|done]. injection Hr0 as <-.
  exists w2. split; [by eapply validate_context_Ok|].
  apply io_bind_Ok in Hp as (observed & w3 & [Ho ->]%lift_Ok & Hp).
  apply io_bind_Ok in Hp as ([] & w4 & [Heq ->]%lift_Ok & Hp). injection Hp as -> _.
  destruct (bool_decide (observed = plan)) eqn:Hb; [|discriminate Heq].
  apply bool_decide_eq_true in Hb. split; [done|]. by subst.
Qed.

Lemma journal_state_grown keys (s s' : RunState W) state :
  import_journal_reachable (run_journal s) → journal_state true (run_journal s) = Ok state →
  grows keys s s' →
  ∃ rows state', effects (run_journal s') = effects (run_journal s) ++ rows
    ∧ map er_effect_key rows ⊆+ keys ∧ Forall effect_valid rows
    ∧ ic_metadata (run_journal s') = ic_metadata (run_journal s)
    ∧ journal_state true (run_journal s') = Ok state'
    ∧ ∀ key, state' !! key = match last_row er_effect_key key rows with
        | Some row => stored row | None => state !! key end.
Proof.
  intros Hr Hst (rows & He & Hk & Hv & Hm). apply import_reachable_rows in Hr.
  rewrite journal_state_replay in Hst by done. injection Hst as <-.
  exists rows, (replay_effects (effects (run_journal s'))).
  split_and!; [done|done|done|done| |].
  - apply journal_state_replay. rewrite He. by apply Forall_app.
  - intros key. unfold replay_effects. rewrite !foldl_replay_effects, He, last_row_app; [|done|].
    + by destruct (last_row er_effect_key key rows).
    + rewrite He. by apply Forall_app.
Qed.

(** What a run does to the journal it finds: the rows of the file and its binding stay; it
    appends at most one valid row for every effect of the plan the file does not know as
    settled, no more rows than the plan announced; everything else is as it was, and the
    journal is accepted again for the same plan. *)
Definition journal_extended (plan : UploadPlan) (file : CheckpointFile ImportConnection)
    (j : ImportConnection) : Prop :=
  let state := file_state file in
  ∃ rows state',
  journal_state true (import_configured file) = Ok state ∧
  effects j = file_effects file ++ rows ∧ journal_state true j = Ok state' ∧
  (∀ c, file = Database c → ic_metadata c ≠ [] → ic_metadata j = ic_metadata c) ∧
  Forall effect_valid rows ∧ map er_effect_key rows ⊆+ plan_run_keys state plan ∧
  zlen rows <= ups_max_mutations (up_summary plan) ∧
  (∀ key, key ∉ map er_effect_key rows → state' !! key = state !! key) ∧
  (∀ key, settled state key → state' !! key = state !! key) ∧
  (validate_for_plan state plan = Ok tt → validate_for_plan state' plan = Ok tt).

(** The state of the file is the one the opened journal holds. *)
Lemma opened_state file plan backup available j :
  own_journal file → open_import_with_scope file plan backup available = Ok j →
  import_journal_reachable j ∧ journal_state true j = Ok (file_state file)
  ∧ journal_state true (import_configured file) = Ok (file_state file).
Proof.
  intros Hown Ho. apply open_import_rows in Ho as He. destruct He as [He _].
  apply open_import_reachable in Ho; [|done].
  assert (effects (import_configured file) = file_effects file) as Hf by by destruct file.
  pose proof (import_reachable_rows _ Ho) as Hv. split; [done|].
  unfold file_state. split.
  - by rewrite journal_state_replay, He.
  - rewrite journal_state_replay by by rewrite Hf, <-He. by rewrite Hf.
Qed.

Lemma grown_journal_extended plan file backup available (s s' : RunState W) :
  upload_well_formed plan → up_schema_version plan = 2 →
  zlen (up_operations plan) < 2 ^ 60 → set_len (album_set (up_operations plan)) < 2 ^ 60 →
  own_journal file → open_import_with_scope file plan backup available = Ok (run_journal s) →
  grows (plan_run_keys (file_state file) plan) s s' →
  journal_extended plan file (run_journal s') ∧ ic_metadata (run_journal s') = ic_metadata (run_journal s).
Proof.
  intros Hwf Hv Hops Halb Hown Hopen Hg. set (state := file_state file) in *.
  destruct (opened_state _ _ _ _ _ Hown Hopen) as (Ho & Hst & Hst0).
  destruct (open_import_rows _ _ _ _ _ Hopen) as [He0 Hm0].
  destruct (journal_state_grown _ s s' _ Ho Hst Hg) as (rows & state' & He & Hk & Hvr & Hmeta & Hst' & Hlook).
  split; [|done]. rewrite He0 in He.
  assert (∀ key, key ∉ map er_effect_key rows → state' !! key = state !! key) as Hframe.
  { intros key Hn. rewrite Hlook. by rewrite (proj2 (last_row_None _ _ _)). }
  exists rows, state'. split_and!; try done.
  - intros c Hc Hne. rewrite Hmeta. by apply Hm0.
  - apply submseteq_length in Hk. rewrite length_map in Hk.
    pose proof (plan_run_keys_length state plan Hwf Hv Hops Halb). unfold zlen in *. lia.
  - intros key Hs. apply Hframe. intros Hin. eapply settled_not_written; [exact Hs|].
    by eapply elem_of_submseteq.
  - unfold validate_for_plan. case_bool_decide as Hd; [|done]. intros _.
    rewrite bool_decide_eq_true_2; [done|]. intros key [e Hkey]%elem_of_dom.
    destruct (decide (key ∈ map er_effect_key rows)) as [Hin|Hn].
    + eapply plan_run_keys_allowed, elem_of_submseteq; [exact Hin|exact Hk].
    + apply Hd, elem_of_dom. exists e. by rewrite <-Hframe.
Qed.

(** An import always returns: neither the server, nor the clock, nor the disk
    can make it loop or get stuck. *)
Theorem import_run_returns plan inputs file (config : C) client backup (w : W) :
  own_journal file → max_attempts_per_operation (upload_config config) <= u32_max →
  is_Some (apply_import_inner plan inputs file config client backup w).
Proof.
  intros Hfile Hmax. unfold apply_import_inner.
  destruct ((_ ← lift (validate_context _ _ _ _); _) w) as [[resolved|e] w1] eqn:Hp; [|done].
  apply import_prologue in Hp as (_ & (Hwf & _) & _).
  destruct (storage w1) as [[now available] w2].
  destruct (open_import_checkpoint _ _ _ _) as [j|e] eqn:Ho; [|done].
  apply open_import_checkpoint_scope in Ho as [Ho _].
  destruct (opened_state _ _ _ _ _ Hfile Ho) as (_ & Hst & _).
  edestruct (import_body_grows config Hmax plan resolved
    {| run_world := w2; run_journal := j; run_report := apply_report plan |}) as (r & s & Hrun & _);
    [done|exact Hst|].
  by rewrite Hrun.
Qed.

(** C2: an import is resumable and bounded.  The plan is valid and is exactly what the run's
    own scan of the inputs gave.  The rows the journal file held stay where they are,
    with its binding to the plan; a run appends at most one valid row for every effect
    of the plan that these rows do not settle, and no more rows than the mutations the
    plan announced; the journal stays readable; every other effect, and in particular
    every settled one, has the outcome it had in the file; and the journal is accepted
    again for the same plan. *)
Theorem import_run_sound plan inputs file (config : C) client backup (w : W) r j w' :
  own_journal file → max_attempts_per_operation (upload_config config) <= u32_max →
  zlen (up_operations plan) < 2 ^ 60 → set_len (album_set (up_operations plan)) < 2 ^ 60 →
  apply_import_inner plan inputs file config client backup w = Some (r, Some j, w') →
  ∃ resolved w1 m,
    upload_well_formed plan ∧
    scan_resolved config inputs (label (up_source plan)) w = (Ok resolved, w1) ∧
    create_import_upload_plan resolved (up_server plan) config = Ok plan ∧
    import_binding plan backup = Ok m ∧ for_each insert_binding (ic_metadata j) ∅ = Ok m ∧
    journal_extended plan file j.
Proof.
  intros Hfile Hmax Hops Halb Hrun. unfold apply_import_inner in Hrun.
  destruct ((_ ← lift (validate_context _ _ _ _); _) w) as [[resolved|e] w1] eqn:Hp; [|done].
  apply import_prologue in Hp as (w0 & (Hwf & Hv & _) & Hscan & Hplan).
  destruct (storage w1) as [[now available] w2].
  destruct (open_import_checkpoint _ _ _ _) as [j0|e] eqn:Ho; [|done].
  apply open_import_checkpoint_scope in Ho as [Ho _].
  apply open_import_bound in Ho as Hb. destruct Hb as (_ & _ & m & Hm & Hbind).
  set (s := {| run_world := w2; run_journal := j0; run_report := apply_report plan |}) in *.
  destruct (opened_state _ _ _ _ _ Hfile Ho) as (_ & Hst & _).
  destruct (import_body_grows config Hmax plan resolved s _ Hwf Hst) as (r0 & s' & Hbody & Hg).
  rewrite Hbody in Hrun. simpl in Hrun. injection Hrun as -> <- <-.
  destruct (grown_journal_extended plan file backup available s s' Hwf Hv Hops Halb Hfile Ho Hg)
    as [Hext Hmeta].
  exists resolved, w0, m. split_and!; try done. by rewrite Hmeta.
Qed.

(** Imports and production are separate.  A plain import only opens a journal
    for a client that is not a production client, a production import only for
    an authorization of exactly this plan, with a well-formed backup reference
    and a production client, and its journal is bound to that reference. *)
Theorem production_import_separation plan inputs file (config : C) client authorization (w w' : W) r j :
  (apply_import plan inputs file config client w = Some (r, Some j, w') →
   import_production client = false ∧ import_compatibility client = up_server plan) ∧
  (own_journal file → max_attempts_per_operation (upload_config config) <= u32_max →
   apply_production_import plan inputs file config client authorization w = Some (r, Some j, w') →
   import_production client = true ∧ import_compatibility client = up_server plan
   ∧ import_matches_plan authorization plan = true
   ∧ is_lower_sha256 (pia_backup_reference_sha256 authorization) = true
   ∧ ∃ m, for_each insert_binding (ic_metadata j) ∅ = Ok m
       ∧ m !! "execution_scope" = Some "production"
       ∧ m !! "backup_reference_sha256" = Some (pia_backup_reference_sha256 authorization)).
Proof.
  split.
  - unfold apply_import, apply_import_inner. destruct ((_ ← lift (validate_context _ _ _ _); _) w) as [[resolved|e] w1] eqn:Hp; [|done].
    by apply import_prologue in Hp as (_ & (_ & _ & ? & ?) & _).
  - intros Hfile Hmax. unfold apply_production_import, apply_import_inner.
    destruct (import_matches_plan authorization plan); [|done].
    destruct (import_production client) eqn:Hprod; [|done]. cbn [negb orb is_some].
    destruct ((_ ← lift (validate_context _ _ _ _); _) w) as [[resolved|e] w1] eqn:Hp; [|done].
    apply import_prologue in Hp as (_ & (Hwf & _ & Hserver & _) & _).
    destruct (storage w1) as [[now available] w2].
    destruct (open_import_checkpoint _ _ _ _) as [j0|e] eqn:Ho; [|done].
    apply open_import_checkpoint_scope in Ho as [Ho Hdigest].
    apply open_import_bound in Ho as Hb. destruct Hb as (_ & _ & m & Hm & Hbind).
    destruct (opened_state _ _ _ _ _ Hfile Ho) as (_ & Hst & _).
    set (s := {| run_world := w2; run_journal := j0; run_report := apply_report plan |}).
    destruct (import_body_grows config Hmax plan resolved s _ Hwf Hst) as (r0 & s' & Hbody & (_ & _ & _ & _ & Hmeta)).
    rewrite Hbody. simpl. intros [= -> <- <-]. split_and!; [done|done|done|by apply Hdigest|].
    exists m. rewrite Hmeta. split; [done|]. unfold import_binding in Hm. result_inv.
    by rewrite lookup_insert_ne, lookup_insert_eq, lookup_insert_eq by done.
Qed.
End runs.

(** *** A concrete import: two files of a Takeout, one of them in two albums *)
Definition import_world : Type := unit.
Definition accepting_albums : ImportClient import_world := {|
  update_asset_metadata _ _ w := (Ok tt, w);
  find_owned_albums _ w := (Ok [], w);
  create_album name w := (Ok {| ra_id := sample_remote_id; ra_name := name |}, w);
  add_album_assets _ _ w := (Ok tt, w) |}.
Lemma accepting_albums_laws : @ImportClientLaws import_world accepting_albums.
Proof.
  split; simpl; [by intros name w l w' [= <- <-]; constructor|].
  intros name w a w' [= <- <-]. by split.
Qed.
Definition accepting_files : Staging import_world unit := {|
  staging_open _ _ w := (Ok tt, w);
  prepare _ _ o w := (Ok {| va_media_path := uo_relative_path o; va_file_name := uo_relative_path o;
                           va_sha1_base64 := "c2hhMQ=="; va_xmp := None |}, w);
  verified := id; drop_prepared _ w := w; drop_staging _ w := w |}.
Definition import_scan : ResolvedFolderPlan := sample_scan 2 GoogleTakeout (Some sample_metadata).
Definition accepting_source : ImportSource import_world unit := {|
  upload_config _ := default_config; scan_resolved _ _ _ w := (Ok import_scan, w) |}.
Definition never_cancelled : Cancellation import_world := {| is_cancelled w := (false, w) |}.

Section witnesses.
#[local] Existing Instances sample_codec sample_time never_cancelled accepting_client
  accepting_client_laws accepting_albums accepting_albums_laws steady_runtime steady_storage
  sample_import_config accepting_source accepting_files.

Definition import_plan : UploadPlan :=
  match create_import_upload_plan import_scan sample_server tt with
  | Ok p => p
  | Err _ => sample_upload_plan 2 GoogleTakeout []
  end.
Definition import_identity (p : bool) : ImportIdentity :=
  {| import_compatibility := sample_server; import_production := p |}.

(** The first run, and a second one over the journal it left. *)
Definition import_run (file : CheckpointFile ImportConnection) :=
  apply_import_inner import_plan [] file tt (import_identity false) None tt.

Lemma import_run_returns_witness : is_Some (import_run Missing).
Proof.
  apply (import_run_returns import_plan [] Missing tt (import_identity false) None tt I).
  vm_compute. discriminate.
Defined.

Lemma import_run_Ok :
  match import_run Missing with
  | Some (Ok report, Some j, _) =>
    (iar_created report =? 2) && (iar_metadata_updated report =? 1) && (iar_albums_created report =? 2)
    && (zlen (effects j) =? 7)
    && match import_run (Database j) with
       | Some (Ok report, Some j', _) =>
         (iar_resumed_effects report =? 7) && (iar_created report =? 0) && (zlen (effects j') =? 7)
       | _ => false
       end
  | _ => false
  end = true.
Proof. vm_compute. reflexivity. Qed.

(** A journal in which the first asset is uploaded already *)
Definition first_event : ImportEvent := {|
  ie_effect_key := match up_operations import_plan with
                   | o :: _ => asset_key (uo_operation_id o) | [] => "" end;
  ie_outcome := ImportOutcome.Created; ie_remote_id := Some sample_remote_id; ie_retries := 0 |}.
Definition begun_journal : ImportConnection :=
  (append_effect first_event (Ok 0) true
     (bind_or_validate_import import_plan None true (import_configured Missing)).2).2.

Lemma begun_reachable : import_journal_reachable begun_journal.
Proof.
  unfold begun_journal. destruct (append_effect _ _ _ _) as [r c] eqn:Ha.
  eapply import_reachable_step; [|by eapply import_step_append].
  destruct (bind_or_validate_import _ _ _ _) as [r' c'] eqn:Hb.
  eapply import_reachable_step; [apply import_reachable_fresh|by eapply import_step_bind].
Qed.

(** It is resumed: the asset is not uploaded again. *)
Lemma import_run_sound_witness : ∃ report j w,
  import_run (Database begun_journal) = Some (Ok report, Some j, w) ∧ iar_created report = 1
  ∧ zlen (effects begun_journal) = 1 ∧ zlen (effects j) = 7
  ∧ journal_extended import_plan (Database begun_journal) j.
Proof.
  assert (match import_run (Database begun_journal) with
          | Some (Ok report, Some j, _) => (iar_created report =? 1) && (zlen (effects j) =? 7)
          | _ => false end = true) as Hok by (vm_compute; reflexivity).
  destruct (import_run (Database begun_journal)) as [[[[report|e] [j|]] w]|] eqn:Hrun; try discriminate Hok.
  apply andb_true_iff in Hok as [Hc%Z.eqb_eq Hl%Z.eqb_eq].
  assert (max_attempts_per_operation (upload_config tt) <= u32_max) as H1 by (vm_compute; discriminate).
  assert (zlen (up_operations import_plan) < 2 ^ 60) as H2 by (vm_compute; reflexivity).
  assert (set_len (album_set (up_operations import_plan)) < 2 ^ 60) as H3 by (vm_compute; reflexivity).
  assert (zlen (effects begun_journal) = 1) as Hb by (vm_compute; reflexivity).
  pose proof Hrun as Hr. unfold import_run in Hr.
  destruct (import_run_sound import_plan [] (Database begun_journal) tt (import_identity false) None tt
    (Ok report) j w begun_reachable H1 H2 H3 Hr) as (resolved & w1 & m & _ & _ & _ & _ & _ & Hext).
  exists report, j, w. exact (conj eq_refl (conj Hc (conj Hb (conj Hl Hext)))).
Defined.

Definition import_authorization : ProductionImportAuthorization := {|
  pia_plan_sha256 := match upload_plan_sha256 import_plan with Ok d => d | Err _ => "" end;
  pia_expected_mutations := 7; pia_backup_reference_sha256 := sample_digest |}.

Definition production_import_run :=
  apply_production_import import_plan [] Missing tt (import_identity true) import_authorization tt.

Lemma production_import_separation_witness : ∃ r j w,
  production_import_run = Some (r, Some j, w) ∧ import_matches_plan import_authorization import_plan = true.
Proof.
  assert (match production_import_run with Some (_, Some _, _) => true | _ => false end = true) as Hok
    by (vm_compute; reflexivity).
  destruct production_import_run as [[[r [j|]] w]|] eqn:Hrun; try discriminate Hok.
  destruct (production_import_separation import_plan [] Missing tt (import_identity true)
    import_authorization tt w r j) as [_ Hp].
  exists r, j, w. refine (conj eq_refl (proj1 (proj2 (proj2 (Hp I _ Hrun))))).
  vm_compute. discriminate.
Defined.
End witnesses.
