(* ===== verification/ImportDryRun.v ===== *)
(** * ImportDryRun: checking an import without doing it
    ([crates/immich-executor/src/import_dry_run.rs], [ImportApplyReport::dry_run]
    of [crates/immich-core/src/import_report.rs])

    A dry run makes the checks of an import, up to the checkpoint, and reports the
    effects the plan announces. *)
From Stdlib Require Import Ascii.
From S2P Require Export Prelude Text Upload Client ImportClient Executor Planner Verify Journal.
From S2P Require Export ImportJournal ImportEffects Groups ImportApply.

(** [ImportApplyReport::dry_run] *)
Definition dry_run_report (planned : UploadPlanSummary) : ImportApplyReport := {|
  iar_schema_version := IMPORT_APPLY_REPORT_SCHEMA_VERSION; iar_dry_run := true; iar_planned := planned;
  iar_would_upload := ups_operations planned;
  iar_would_update_metadata := ups_metadata_updates planned;
  iar_would_create_albums := ups_album_creates planned;
  iar_would_add_album_memberships := ups_album_memberships planned;
  iar_created := 0; iar_duplicate := 0; iar_metadata_updated := 0; iar_albums_created := 0;
  iar_albums_reused := 0; iar_album_memberships_updated := 0; iar_resumed_effects := 0;
  iar_retried := 0; iar_failed := 0; iar_indeterminate := 0; iar_cancelled := false |}.

(** [symlink_metadata] of the checkpoint path. *)
Definition checkpoint_exists (file : CheckpointFile ImportConnection) : result ExecutorError bool :=
  match file with
  | Symlink | Database _ => Ok true
  | Missing => Ok false
  | Unreadable => Err checkpoint_error
  end.

Section dry_run.
  Context {W C : Type} `{Codec, TimeLib, ImportConfig C, ImportSource W C}.

Definition dry_run_import (plan : UploadPlan) (inputs : list string)
    (file : CheckpointFile ImportConnection) (config : C) : io W ExecutorError ImportApplyReport :=
  _ ← lift (validate_import config);
  _ ← lift (map_err (λ _, invalid_plan) (Upload.validate plan));
  _ ← lift (if (up_schema_version plan =? UPLOAD_PLAN_SCHEMA_VERSION_V2)
               && bool_decide (kind (up_source plan) = source_kind config)
            then
              identity ← identity config;
              fail_if (negb (String.eqb (up_configuration_sha256 plan) identity)) invalid_plan
            else Err invalid_plan);
  exists_ ← lift (checkpoint_exists file);
  _ ← lift (fail_if exists_ checkpoint_error);
  resolved ← io_map_err scan_error (scan_resolved config inputs (label (up_source plan)));
  observed ← lift (create_import_upload_plan resolved (up_server plan) config);
  _ ← lift (fail_if (negb (bool_decide (observed = plan))) source_changed);
  mret (dry_run_report (up_summary plan)).

(** An import dry run keeps its promise.  It succeeds only where no checkpoint
    is; the plan is valid and is what the source gives; the effects it announces
    are exactly the mutations of the plan; and an import of the same plan passes
    all its own checks, for every client of the planned server, as long as the
    source still scans to the same. *)
Theorem import_dry_run_promise plan inputs file (config : C) (w w' : W) report :
  dry_run_import plan inputs file config w = (Ok report, w') →
  zlen (up_operations plan) < 2 ^ 60 → set_len (album_set (up_operations plan)) < 2 ^ 60 →
  file = Missing ∧ upload_well_formed plan ∧ iar_dry_run report = true ∧
  iar_would_upload report + iar_would_update_metadata report + iar_would_create_albums report
    + iar_would_add_album_memberships report = ups_max_mutations (up_summary plan) ∧
  ∃ resolved, create_import_upload_plan resolved (up_server plan) config = Ok plan ∧
    ∀ client production w1 w2,
      import_compatibility client = up_server plan → import_production client = production →
      scan_resolved config inputs (label (up_source plan)) w1 = (Ok resolved, w2) →
      (_ ← lift (validate_context plan config client production); rescan plan inputs config) w1
        = (Ok resolved, w2).
Proof.
  intros Hrun Hops Halb. unfold dry_run_import in Hrun.
  apply io_bind_Ok in Hrun as ([] & w1 & [Hvi ->]%lift_Ok & Hrun).
  apply io_bind_Ok in Hrun as ([] & w2 & [Hvu ->]%lift_Ok & Hrun).
  apply io_bind_Ok in Hrun as ([] & w3 & [Hctx ->]%lift_Ok & Hrun).
  apply io_bind_Ok in Hrun as (ex & w4 & [Hex ->]%lift_Ok & Hrun).
  apply io_bind_Ok in Hrun as ([] & w5 & [Hnone ->]%lift_Ok & Hrun).
  apply io_bind_Ok in Hrun as (resolved & w6 & Hscan & Hrun).
  apply io_bind_Ok in Hrun as (observed & w7 & [Hobs ->]%lift_Ok & Hrun).
  apply io_bind_Ok in Hrun as ([] & w8 & [Heq ->]%lift_Ok & Hrun). injection Hrun as <- _.
  destruct (bool_decide (observed = plan)) eqn:Hb; [|discriminate Heq].
  apply bool_decide_eq_true in Hb. subst observed.
  destruct (Upload.validate plan) as [[]|] eqn:Hval; [|discriminate Hvu].
  apply upload_validate_Ok in Hval as Hwf.
  destruct ((_ =? _) && _) eqn:Hkind; [|discriminate Hctx].
  destruct (identity config) as [digest|] eqn:Hid; [|discriminate Hctx].
  simpl in Hctx. destruct (String.eqb _ digest) eqn:Hdigest; [|discriminate Hctx].
  assert (up_schema_version plan = 2) as Hv by by apply andb_true_iff in Hkind as [?%Z.eqb_eq _].
  split_and!; [|done|done| |].
  - destruct file; [done|..]; simpl in Hex; try discriminate Hex; injection Hex as <-; discriminate Hnone.
  - by rewrite max_mutations_exact.
  - exists resolved. split; [done|]. intros client production v1 v2 Hserver Hprod Hscan'.
    assert (validate_context plan config client production = Ok tt) as Hc.
    { unfold validate_context. rewrite Hvi, Hval. simpl. rewrite Hkind, Hid. simpl.
      rewrite Hdigest, bool_decide_eq_true_2, Hprod, eqb_reflx by done. done. }
    rewrite Hc. unfold rescan, io_map_err, mbind, io_bind, lift. simpl. rewrite Hscan'. simpl.
    rewrite Hobs. simpl. by rewrite bool_decide_eq_true_2.
Qed.
End dry_run.

Section witnesses.
#[local] Existing Instances sample_codec sample_time sample_import_config accepting_source.

Lemma import_dry_run_promise_witness : ∃ report,
  dry_run_import import_plan [] Missing tt tt = (Ok report, tt)
  ∧ iar_would_upload report + iar_would_update_metadata report + iar_would_create_albums report
    + iar_would_add_album_memberships report = 7.
Proof.
  assert (is_ok (dry_run_import import_plan [] Missing tt tt).1 = true) as Hok by (vm_compute; reflexivity).
  destruct (dry_run_import import_plan [] Missing tt tt) as [[report|e] []] eqn:Hrun; [|discriminate Hok].
  assert (zlen (up_operations import_plan) < 2 ^ 60) as H1 by (vm_compute; reflexivity).
  assert (set_len (album_set (up_operations import_plan)) < 2 ^ 60) as H2 by (vm_compute; reflexivity).
  destruct (import_dry_run_promise import_plan [] Missing tt tt tt report Hrun H1 H2)
    as (_ & _ & _ & Hsum & _).
  exists report. split; [reflexivity|]. rewrite Hsum. vm_compute. reflexivity.
Defined.
End witnesses.
