(* ===== verification/Limits.v ===== *)
(** * Limits: the resource bounds of the web console
    ([crates/immich-web/src/limits.rs])

    Every bound has a default and a hard maximum; [validate] refuses a
    configuration outside of them.  The other components of the console are proved
    correct for validated limits. *)
From S2P Require Export Prelude.

(** ** Data *)

Record WebLimits := {
  request_header_bytes : Z;
  request_body_bytes : Z;
  accepted_connections : Z;
  header_read_seconds : Z;
  response_seconds : Z;
  max_sessions : Z;
  session_idle_seconds : Z;
  session_absolute_seconds : Z;
  bootstrap_lifetime_seconds : Z;
  concurrent_jobs : Z;
  queued_jobs : Z;
  retained_jobs : Z;
  sse_subscribers_per_session : Z;
  sse_subscribers_per_process : Z;
  sse_replay_events : Z;
  sse_heartbeat_seconds : Z;
  dns_addresses : Z;
  history_page_rows : Z;
  history_retained_rows : Z;
  history_retention_days : Z;
  history_store_bytes : Z;
  plan_file_bytes : Z;
  plan_store_bytes : Z;
  dry_run_receipt_seconds : Z;
  production_grant_seconds : Z;
  backup_reference_bytes : Z;
  oidc_discovery_bytes : Z;
  oidc_jwks_bytes : Z;
  oidc_signing_keys : Z;
  oidc_state_seconds : Z;
  oidc_token_bytes : Z;
}.

(** The configuration as it is parsed: every field may be missing. *)
Record RawWebLimits := {
  raw_request_header_bytes : option Z;
  raw_request_body_bytes : option Z;
  raw_accepted_connections : option Z;
  raw_header_read_seconds : option Z;
  raw_response_seconds : option Z;
  raw_max_sessions : option Z;
  raw_session_idle_seconds : option Z;
  raw_session_absolute_seconds : option Z;
  raw_bootstrap_lifetime_seconds : option Z;
  raw_concurrent_jobs : option Z;
  raw_queued_jobs : option Z;
  raw_retained_jobs : option Z;
  raw_sse_subscribers_per_session : option Z;
  raw_sse_subscribers_per_process : option Z;
  raw_sse_replay_events : option Z;
  raw_sse_heartbeat_seconds : option Z;
  raw_dns_addresses : option Z;
  raw_history_page_rows : option Z;
  raw_history_retained_rows : option Z;
  raw_history_retention_days : option Z;
  raw_history_store_bytes : option Z;
  raw_plan_file_bytes : option Z;
  raw_plan_store_bytes : option Z;
  raw_dry_run_receipt_seconds : option Z;
  raw_production_grant_seconds : option Z;
  raw_backup_reference_bytes : option Z;
  raw_oidc_discovery_bytes : option Z;
  raw_oidc_jwks_bytes : option Z;
  raw_oidc_signing_keys : option Z;
  raw_oidc_state_seconds : option Z;
  raw_oidc_token_bytes : option Z;
}.

(** [WebLimits::default] *)
Definition default_limits : WebLimits := {|
  request_header_bytes := 16 * 1024;
  request_body_bytes := 16 * 1024;
  accepted_connections := 16;
  header_read_seconds := 5;
  response_seconds := 15;
  max_sessions := 8;
  session_idle_seconds := 30 * 60;
  session_absolute_seconds := 8 * 60 * 60;
  bootstrap_lifetime_seconds := 10 * 60;
  concurrent_jobs := 1;
  queued_jobs := 4;
  retained_jobs := 128;
  sse_subscribers_per_session := 4;
  sse_subscribers_per_process := 16;
  sse_replay_events := 128;
  sse_heartbeat_seconds := 15;
  dns_addresses := 4;
  history_page_rows := 50;
  history_retained_rows := 5000;
  history_retention_days := 30;
  history_store_bytes := 32 * 1024 * 1024;
  plan_file_bytes := 128 * 1024 * 1024;
  plan_store_bytes := 512 * 1024 * 1024;
  dry_run_receipt_seconds := 5 * 60;
  production_grant_seconds := 90;
  backup_reference_bytes := 256;
  oidc_discovery_bytes := 64 * 1024;
  oidc_jwks_bytes := 256 * 1024;
  oidc_signing_keys := 8;
  oidc_state_seconds := 3 * 60;
  oidc_token_bytes := 32 * 1024 |}.

(** [RawWebLimits::into_limits] *)
Definition into_limits (raw : RawWebLimits) : WebLimits := {|
  request_header_bytes := default (request_header_bytes default_limits) (raw_request_header_bytes raw);
  request_body_bytes := default (request_body_bytes default_limits) (raw_request_body_bytes raw);
  accepted_connections := default (accepted_connections default_limits) (raw_accepted_connections raw);
  header_read_seconds := default (header_read_seconds default_limits) (raw_header_read_seconds raw);
  response_seconds := default (response_seconds default_limits) (raw_response_seconds raw);
  max_sessions := default (max_sessions default_limits) (raw_max_sessions raw);
  session_idle_seconds := default (session_idle_seconds default_limits) (raw_session_idle_seconds raw);
  session_absolute_seconds := default (session_absolute_seconds default_limits) (raw_session_absolute_seconds raw);
  bootstrap_lifetime_seconds := default (bootstrap_lifetime_seconds default_limits) (raw_bootstrap_lifetime_seconds raw);
  concurrent_jobs := default (concurrent_jobs default_limits) (raw_concurrent_jobs raw);
  queued_jobs := default (queued_jobs default_limits) (raw_queued_jobs raw);
  retained_jobs := default (retained_jobs default_limits) (raw_retained_jobs raw);
  sse_subscribers_per_session := default (sse_subscribers_per_session default_limits) (raw_sse_subscribers_per_session raw);
  sse_subscribers_per_process := default (sse_subscribers_per_process default_limits) (raw_sse_subscribers_per_process raw);
  sse_replay_events := default (sse_replay_events default_limits) (raw_sse_replay_events raw);
  sse_heartbeat_seconds := default (sse_heartbeat_seconds default_limits) (raw_sse_heartbeat_seconds raw);
  dns_addresses := default (dns_addresses default_limits) (raw_dns_addresses raw);
  history_page_rows := default (history_page_rows default_limits) (raw_history_page_rows raw);
  history_retained_rows := default (history_retained_rows default_limits) (raw_history_retained_rows raw);
  history_retention_days := default (history_retention_days default_limits) (raw_history_retention_days raw);
  history_store_bytes := default (history_store_bytes default_limits) (raw_history_store_bytes raw);
  plan_file_bytes := default (plan_file_bytes default_limits) (raw_plan_file_bytes raw);
  plan_store_bytes := default (plan_store_bytes default_limits) (raw_plan_store_bytes raw);
  dry_run_receipt_seconds := default (dry_run_receipt_seconds default_limits) (raw_dry_run_receipt_seconds raw);
  production_grant_seconds := default (production_grant_seconds default_limits) (raw_production_grant_seconds raw);
  backup_reference_bytes := default (backup_reference_bytes default_limits) (raw_backup_reference_bytes raw);
  oidc_discovery_bytes := default (oidc_discovery_bytes default_limits) (raw_oidc_discovery_bytes raw);
  oidc_jwks_bytes := default (oidc_jwks_bytes default_limits) (raw_oidc_jwks_bytes raw);
  oidc_signing_keys := default (oidc_signing_keys default_limits) (raw_oidc_signing_keys raw);
  oidc_state_seconds := default (oidc_state_seconds default_limits) (raw_oidc_state_seconds raw);
  oidc_token_bytes := default (oidc_token_bytes default_limits) (raw_oidc_token_bytes raw) |}.

(** ** Validation *)

(** [(a..=b).contains(&x)] *)
Definition within (a b x : Z) : bool := (a <=? x) && (x <=? b).

Definition limits_valid (l : WebLimits) : bool :=
  within 1 (32 * 1024) (request_header_bytes l)
  && within 1 (64 * 1024) (request_body_bytes l)
  && within 1 (32) (accepted_connections l)
  && within 1 (10) (header_read_seconds l)
  && within 1 (30) (response_seconds l)
  && within 1 (16) (max_sessions l)
  && within 1 (60 * 60) (session_idle_seconds l)
  && within 1 (12 * 60 * 60) (session_absolute_seconds l)
  && (session_idle_seconds l <=? session_absolute_seconds l)
  && within 1 (15 * 60) (bootstrap_lifetime_seconds l)
  && within 1 (4) (concurrent_jobs l)
  && within 1 (8) (queued_jobs l)
  && within 1 (256) (retained_jobs l)
  && (sat_add (concurrent_jobs l) (queued_jobs l) <=? retained_jobs l)
  && within 1 (8) (sse_subscribers_per_session l)
  && within 1 (32) (sse_subscribers_per_process l)
  && (sse_subscribers_per_session l <=? sse_subscribers_per_process l)
  && within 1 (256) (sse_replay_events l)
  && within 1 (30) (sse_heartbeat_seconds l)
  && within 1 (8) (dns_addresses l)
  && within 1 (100) (history_page_rows l)
  && within 1 (10000) (history_retained_rows l)
  && (history_page_rows l <=? history_retained_rows l)
  && within 1 (90) (history_retention_days l)
  && within (1024 * 1024) (64 * 1024 * 1024) (history_store_bytes l)
  && within (1024 * 1024) (256 * 1024 * 1024) (plan_file_bytes l)
  && (sat_add (plan_file_bytes l) (16 * 1024) <=? plan_store_bytes l)
  && (plan_store_bytes l <=? 4 * 1024 * 1024 * 1024)
  && within 1 (10 * 60) (dry_run_receipt_seconds l)
  && within 1 (120) (production_grant_seconds l)
  && within 1 (256) (backup_reference_bytes l)
  && within 1 (128 * 1024) (oidc_discovery_bytes l)
  && within 1 (512 * 1024) (oidc_jwks_bytes l)
  && within 1 (16) (oidc_signing_keys l)
  && within 1 (5 * 60) (oidc_state_seconds l)
  && within 1 (64 * 1024) (oidc_token_bytes l).

(** [WebLimits::validate]; its error holds a message only. *)
Definition limits_validate (l : WebLimits) : result unit WebLimits :=
  if limits_valid l then Ok l else Err tt.

Lemma within_iff a b x : within a b x = true ↔ a <= x <= b.
Proof. unfold within. rewrite andb_true_iff, !Z.leb_le. done. Qed.

Example default_limits_valid : limits_validate default_limits = Ok default_limits.
Proof. vm_compute. reflexivity. Qed.

(** What the other components use of validated limits. *)
Lemma limits_valid_jobs l :
  limits_valid l = true →
  1 <= concurrent_jobs l <= 4 ∧ 1 <= queued_jobs l <= 8 ∧
  concurrent_jobs l + queued_jobs l <= retained_jobs l <= 256 ∧
  1 <= sse_subscribers_per_session l <= sse_subscribers_per_process l ∧
  sse_subscribers_per_process l <= 32 ∧ 1 <= sse_replay_events l <= 256 ∧
  1 <= max_sessions l <= 16 ∧ 1 <= history_retained_rows l <= 10000 ∧
  1 <= session_idle_seconds l <= session_absolute_seconds l ∧
  1 <= production_grant_seconds l <= 120 ∧ 1 <= dry_run_receipt_seconds l <= 600.
Proof.
  unfold limits_valid. rewrite !andb_true_iff, !within_iff, !Z.leb_le.
  unfold sat_add, u64_max. lia.
Qed.
