(* ===== verification/ScanConfig.v ===== *)
(** * ScanConfig: scan and import configurations
    ([crates/immich-sources/src/scan.rs], the configurations of [apple_photos.rs]
    and [picasa.rs], [crates/immich-executor/src/import_config.rs],
    [crates/immich-web/src/profiles/source_config.rs])

    The limits of one scan per source kind, their validation, the configuration
    identities of the import executor, and the settings of a source profile of
    the web console with the bytes its generation digest is taken of. *)
From Stdlib Require Import Ascii.
From S2P Require Export Prelude Text Metadata Planning Client Executor Planner Verify.

(** ** Source configurations *)

Record TakeoutScanConfig := {
  tsc_scan : FolderScanConfig;
  tsc_max_archives : Z;
  tsc_max_archive_entry_bytes : Z;
  tsc_max_compression_ratio : Z;
  tsc_compression_ratio_grace_bytes : Z;
}.

Module AlbumMode.
Inductive t := None | Folder | Path.
End AlbumMode.

Record ApplePhotosScanConfig := {
  asc_scan : FolderScanConfig;
  asc_max_archives : Z;
  asc_max_archive_entry_bytes : Z;
  asc_max_compression_ratio : Z;
  asc_compression_ratio_grace_bytes : Z;
  asc_album_mode : AlbumMode.t;
  asc_album_path_joiner : string;
}.

Record PicasaScanConfig := {
  psc_scan : FolderScanConfig;
  psc_max_archives : Z;
  psc_max_archive_entry_bytes : Z;
  psc_max_compression_ratio : Z;
  psc_compression_ratio_grace_bytes : Z;
  psc_album_mode : AlbumMode.t;
  psc_album_path_joiner : string;
  psc_picasa_albums : bool;
  psc_filename_date : bool;
}.

#[export] Instance FolderScanConfig_eq_dec : EqDecision FolderScanConfig.
Proof. solve_decision. Defined.
#[export] Instance UploadExecutionConfig_eq_dec : EqDecision UploadExecutionConfig.
Proof. solve_decision. Defined.
#[export] Instance AlbumMode_eq_dec : EqDecision AlbumMode.t.
Proof. solve_decision. Defined.

Definition default_takeout_scan : TakeoutScanConfig := {|
  tsc_scan := default_scan; tsc_max_archives := 64;
  tsc_max_archive_entry_bytes := 1099511627776; tsc_max_compression_ratio := 200;
  tsc_compression_ratio_grace_bytes := 1048576 |}.

Definition default_apple_scan : ApplePhotosScanConfig := {|
  asc_scan := default_scan; asc_max_archives := 64;
  asc_max_archive_entry_bytes := 1099511627776; asc_max_compression_ratio := 200;
  asc_compression_ratio_grace_bytes := 1048576; asc_album_mode := AlbumMode.None;
  asc_album_path_joiner := " - " |}.

Definition default_picasa_scan : PicasaScanConfig := {|
  psc_scan := asc_scan default_apple_scan;
  psc_max_archives := asc_max_archives default_apple_scan;
  psc_max_archive_entry_bytes := asc_max_archive_entry_bytes default_apple_scan;
  psc_max_compression_ratio := asc_max_compression_ratio default_apple_scan;
  psc_compression_ratio_grace_bytes := asc_compression_ratio_grace_bytes default_apple_scan;
  psc_album_mode := AlbumMode.None; psc_album_path_joiner := " / ";
  psc_picasa_albums := true; psc_filename_date := true |}.

(** ** Validation; an error of these functions holds a message only. *)

Definition MIN_BUFFER_BYTES : Z := 4 * 1024.
Definition MAX_BUFFER_BYTES : Z := 4 * 1024 * 1024.

(** [(a..=b).contains(&x)] *)
Definition in_range (a b x : Z) : bool := (a <=? x) && (x <=? b).

(** The [ScanError::InvalidConfiguration] of the code *)
Inductive ConfigError := InvalidConfiguration (message : string).

Definition folder_validate (c : FolderScanConfig) : result ConfigError unit :=
  _ ← fail_if (negb (in_range MIN_BUFFER_BYTES MAX_BUFFER_BYTES (fsc_buffer_bytes c)))
        (InvalidConfiguration "buffer_bytes must be in 4096..=4194304");
  _ ← fail_if ((fsc_max_entries c =? 0) || (fsc_max_directory_entries c =? 0))
        (InvalidConfiguration "entry limits must be greater than zero");
  fail_if (negb (in_range 64 65536 (fsc_max_path_bytes c)))
    (InvalidConfiguration "max_path_bytes must be in 64..=65536").

Definition takeout_validate (c : TakeoutScanConfig) : result ConfigError unit :=
  _ ← folder_validate (tsc_scan c);
  _ ← fail_if (negb (in_range 1 64 (tsc_max_archives c)))
        (InvalidConfiguration "max_archives must be in 1..=64");
  fail_if ((tsc_max_archive_entry_bytes c =? 0)
           || negb (in_range 1 10000 (tsc_max_compression_ratio c)))
    (InvalidConfiguration "archive byte and compression limits must be positive and bounded").

Definition apple_validate (c : ApplePhotosScanConfig) : result ConfigError unit :=
  _ ← folder_validate (asc_scan c);
  _ ← fail_if (negb (in_range 1 64 (asc_max_archives c)))
        (InvalidConfiguration "max_archives must be in 1..=64");
  _ ← fail_if ((asc_max_archive_entry_bytes c =? 0)
               || negb (in_range 1 10000 (asc_max_compression_ratio c)))
        (InvalidConfiguration "archive byte and compression limits must be positive and bounded");
  let joiner := asc_album_path_joiner c in
  fail_if (is_empty joiner || (32 <? len joiner)
           || (contains_byte "/" joiner || contains_byte "\" joiner)
           || has_control joiner)
    (InvalidConfiguration "album_path_joiner must be 1..=32 safe UTF-8 bytes").

Definition picasa_validate (c : PicasaScanConfig) : result ConfigError unit :=
  _ ← folder_validate (psc_scan c);
  _ ← fail_if (negb (in_range 1 64 (psc_max_archives c))
               || (psc_max_archive_entry_bytes c =? 0)
               || negb (in_range 1 10000 (psc_max_compression_ratio c)))
        (InvalidConfiguration "Picasa archive limits must be positive and bounded");
  fail_if (is_empty (psc_album_path_joiner c) || (32 <? len (psc_album_path_joiner c))
           || contains_byte "\" (psc_album_path_joiner c)
           || has_control (psc_album_path_joiner c))
    (InvalidConfiguration "album_path_joiner must be 1..=32 safe UTF-8 bytes").

(** [as_archive_config] *)
Definition as_archive_config (c : PicasaScanConfig) : ApplePhotosScanConfig := {|
  asc_scan := psc_scan c; asc_max_archives := psc_max_archives c;
  asc_max_archive_entry_bytes := psc_max_archive_entry_bytes c;
  asc_max_compression_ratio := psc_max_compression_ratio c;
  asc_compression_ratio_grace_bytes := psc_compression_ratio_grace_bytes c;
  asc_album_mode := AlbumMode.None; asc_album_path_joiner := "-" |}.

(** The archive configuration of a valid Picasa configuration is valid. *)
Lemma picasa_archive_valid c :
  picasa_validate c = Ok tt → apple_validate (as_archive_config c) = Ok tt.
Proof.
  unfold picasa_validate, apple_validate. intros Hp. result_inv. bools.
  cbn [as_archive_config asc_scan asc_max_archives asc_max_archive_entry_bytes
    asc_max_compression_ratio asc_album_path_joiner].
  match goal with H : folder_validate _ = Ok ?u |- _ => destruct u; rewrite H end. simpl.
  repeat match goal with H : in_range _ _ _ = true |- _ => rewrite H; clear H end. simpl.
  match goal with H : _ ≠ 0 |- _ => apply Z.eqb_neq in H; rewrite H end. done.
Qed.

(** ** Import configurations *)

Record TakeoutImportConfig := {
  tic_source : TakeoutScanConfig;
  tic_upload : UploadExecutionConfig;
}.
Record ApplePhotosImportConfig := {
  aic_source : ApplePhotosScanConfig;
  aic_upload : UploadExecutionConfig;
}.
Record PicasaImportConfig := {
  pic_source : PicasaScanConfig;
  pic_upload : UploadExecutionConfig;
}.

Definition set_takeout_scan (s : FolderScanConfig) (c : TakeoutScanConfig) : TakeoutScanConfig := {|
  tsc_scan := s; tsc_max_archives := tsc_max_archives c;
  tsc_max_archive_entry_bytes := tsc_max_archive_entry_bytes c;
  tsc_max_compression_ratio := tsc_max_compression_ratio c;
  tsc_compression_ratio_grace_bytes := tsc_compression_ratio_grace_bytes c |}.
Definition set_apple_scan (s : FolderScanConfig) (c : ApplePhotosScanConfig) : ApplePhotosScanConfig := {|
  asc_scan := s; asc_max_archives := asc_max_archives c;
  asc_max_archive_entry_bytes := asc_max_archive_entry_bytes c;
  asc_max_compression_ratio := asc_max_compression_ratio c;
  asc_compression_ratio_grace_bytes := asc_compression_ratio_grace_bytes c;
  asc_album_mode := asc_album_mode c; asc_album_path_joiner := asc_album_path_joiner c |}.
Definition set_picasa_scan (s : FolderScanConfig) (c : PicasaScanConfig) : PicasaScanConfig := {|
  psc_scan := s; psc_max_archives := psc_max_archives c;
  psc_max_archive_entry_bytes := psc_max_archive_entry_bytes c;
  psc_max_compression_ratio := psc_max_compression_ratio c;
  psc_compression_ratio_grace_bytes := psc_compression_ratio_grace_bytes c;
  psc_album_mode := psc_album_mode c; psc_album_path_joiner := psc_album_path_joiner c;
  psc_picasa_albums := psc_picasa_albums c; psc_filename_date := psc_filename_date c |}.

(** The [Default] instances *)
Definition default_takeout_import : TakeoutImportConfig := {|
  tic_source := set_takeout_scan (scan default_config) default_takeout_scan;
  tic_upload := default_config |}.
Definition default_apple_import : ApplePhotosImportConfig := {|
  aic_source := set_apple_scan (scan default_config) default_apple_scan;
  aic_upload := default_config |}.
Definition default_picasa_import : PicasaImportConfig := {|
  pic_source := set_picasa_scan (scan default_config) default_picasa_scan;
  pic_upload := default_config |}.

Definition invalid_configuration : ExecutorError :=
  executor_error ExecutorErrorClass.InvalidConfiguration.

Definition takeout_import_validate (c : TakeoutImportConfig) : result ExecutorError unit :=
  _ ← config_validate (tic_upload c);
  _ ← map_err (λ _, invalid_configuration) (takeout_validate (tic_source c));
  fail_if (negb (bool_decide (tsc_scan (tic_source c) = scan (tic_upload c)))) invalid_configuration.

Definition apple_import_validate (c : ApplePhotosImportConfig) : result ExecutorError unit :=
  _ ← config_validate (aic_upload c);
  _ ← map_err (λ _, invalid_configuration) (apple_validate (aic_source c));
  fail_if (negb (bool_decide (asc_scan (aic_source c) = scan (aic_upload c)))) invalid_configuration.

Definition picasa_import_validate (c : PicasaImportConfig) : result ExecutorError unit :=
  _ ← config_validate (pic_upload c);
  _ ← map_err (λ _, invalid_configuration) (picasa_validate (pic_source c));
  fail_if (negb (bool_decide (psc_scan (pic_source c) = scan (pic_upload c)))) invalid_configuration.

(** The values that are hashed. *)
Record TakeoutConfigurationIdentity := {
  tci_upload_sha256 : string; tci_max_archives : Z; tci_max_archive_entry_bytes : Z;
  tci_max_compression_ratio : Z; tci_compression_ratio_grace_bytes : Z;
}.
Record AppleConfigurationIdentity := {
  aci_upload_sha256 : string; aci_max_archives : Z; aci_max_archive_entry_bytes : Z;
  aci_max_compression_ratio : Z; aci_compression_ratio_grace_bytes : Z;
  aci_album_mode : string; aci_album_path_joiner : string;
}.
Record PicasaConfigurationIdentity := {
  pci_upload_sha256 : string; pci_max_archives : Z; pci_max_archive_entry_bytes : Z;
  pci_max_compression_ratio : Z; pci_compression_ratio_grace_bytes : Z;
  pci_album_mode : string; pci_album_path_joiner : string;
  pci_picasa_albums : bool; pci_filename_date : bool;
}.

(** [serde_json::to_vec] of these values *)
Class ImportCodec := {
  json_takeout : TakeoutConfigurationIdentity → option string;
  json_apple : AppleConfigurationIdentity → option string;
  json_picasa : PicasaConfigurationIdentity → option string;
}.

Definition album_mode_name (m : AlbumMode.t) : string :=
  match m with AlbumMode.None => "none" | AlbumMode.Folder => "folder" | AlbumMode.Path => "path" end.

Section identities.
  Context `{Codec, ImportCodec}.

Definition takeout_identity (c : TakeoutImportConfig) (upload_sha256 : string) :
    TakeoutConfigurationIdentity := {|
  tci_upload_sha256 := upload_sha256; tci_max_archives := tsc_max_archives (tic_source c);
  tci_max_archive_entry_bytes := tsc_max_archive_entry_bytes (tic_source c);
  tci_max_compression_ratio := tsc_max_compression_ratio (tic_source c);
  tci_compression_ratio_grace_bytes := tsc_compression_ratio_grace_bytes (tic_source c) |}.
Definition apple_identity (c : ApplePhotosImportConfig) (upload_sha256 : string) :
    AppleConfigurationIdentity := {|
  aci_upload_sha256 := upload_sha256; aci_max_archives := asc_max_archives (aic_source c);
  aci_max_archive_entry_bytes := asc_max_archive_entry_bytes (aic_source c);
  aci_max_compression_ratio := asc_max_compression_ratio (aic_source c);
  aci_compression_ratio_grace_bytes := asc_compression_ratio_grace_bytes (aic_source c);
  aci_album_mode := album_mode_name (asc_album_mode (aic_source c));
  aci_album_path_joiner := asc_album_path_joiner (aic_source c) |}.
Definition picasa_identity (c : PicasaImportConfig) (upload_sha256 : string) :
    PicasaConfigurationIdentity := {|
  pci_upload_sha256 := upload_sha256; pci_max_archives := psc_max_archives (pic_source c);
  pci_max_archive_entry_bytes := psc_max_archive_entry_bytes (pic_source c);
  pci_max_compression_ratio := psc_max_compression_ratio (pic_source c);
  pci_compression_ratio_grace_bytes := psc_compression_ratio_grace_bytes (pic_source c);
  pci_album_mode := album_mode_name (psc_album_mode (pic_source c));
  pci_album_path_joiner := psc_album_path_joiner (pic_source c);
  pci_picasa_albums := psc_picasa_albums (pic_source c);
  pci_filename_date := psc_filename_date (pic_source c) |}.

Definition takeout_identity_sha256 (c : TakeoutImportConfig) : result ExecutorError string :=
  _ ← takeout_import_validate c;
  upload_sha256 ← config_identity_sha256 (tic_upload c);
  bytes ← ok_or (json_takeout (takeout_identity c upload_sha256)) invariant_error;
  Ok (sha256_hex bytes).
Definition apple_identity_sha256 (c : ApplePhotosImportConfig) : result ExecutorError string :=
  _ ← apple_import_validate c;
  upload_sha256 ← config_identity_sha256 (aic_upload c);
  bytes ← ok_or (json_apple (apple_identity c upload_sha256)) invariant_error;
  Ok (sha256_hex bytes).
Definition picasa_identity_sha256 (c : PicasaImportConfig) : result ExecutorError string :=
  _ ← picasa_import_validate c;
  upload_sha256 ← config_identity_sha256 (pic_upload c);
  bytes ← ok_or (json_picasa (picasa_identity c upload_sha256)) invariant_error;
  Ok (sha256_hex bytes).

(** The three implementations of the trait [ImportConfig]; its scan and staging
    parts are parameters of the run. *)
#[export] Instance takeout_import_config : ImportConfig TakeoutImportConfig := {|
  validate_import := takeout_import_validate; source_kind := λ _, GoogleTakeout;
  identity := takeout_identity_sha256 |}.
#[export] Instance apple_import_config : ImportConfig ApplePhotosImportConfig := {|
  validate_import := apple_import_validate; source_kind := λ _, ApplePhotos;
  identity := apple_identity_sha256 |}.
#[export] Instance picasa_import_config : ImportConfig PicasaImportConfig := {|
  validate_import := picasa_import_validate; source_kind := λ _, Picasa;
  identity := picasa_identity_sha256 |}.
End identities.
