(* ===== verification/Digest.v ===== *)
(** * Digest: what is written into a running SHA-256

    A digest is computed of the concatenation of the fields given to [update], so
    what it binds is decided by how the fields are framed.  Integers are written
    in little-endian order at their width; a string is framed by its length when
    the code writes the length first.  The lemmas say when two concatenations of
    fields can only be equal if the fields are. *)
From Stdlib Require Import Ascii.
From S2P Require Export Prelude Text Executor.

(** [n.to_le_bytes()] of a [k]-byte integer *)
Fixpoint le_bytes (k : nat) (n : Z) : string :=
  match k with
  | O => EmptyString
  | S k => String (ascii_of_N (Z.to_N (Z.land n 255))) (le_bytes k (Z.shiftr n 8))
  end.

(** [digest.update([byte])] *)
Definition one_byte (n : Z) : string := le_bytes 1 n.

(** A length and a string: [update(value.len().to_le_bytes()); update(value)] *)
Definition framed (s : string) : string := le_bytes 8 (len s) +:+ s.

(** The collection fits the address space. *)
Definition fits (s : string) : Prop := len s <= u64_max.

Lemma le_bytes_length k n : String.length (le_bytes k n) = k.
Proof. revert n. induction k as [|k IH]; intros n; [done|]. simpl. by rewrite IH. Qed.

Lemma ascii_of_byte n : 0 <= n < 256 → code (ascii_of_N (Z.to_N n)) = n.
Proof. intros Hn. unfold code. rewrite N_ascii_embedding; lia. Qed.

Lemma byte_of n : 0 <= Z.land n 255 < 256.
Proof. change 255 with (Z.ones 8). rewrite Z.land_ones by lia. apply Z.mod_pos_bound. lia. Qed.

Lemma byte_split n : n = Z.shiftr n 8 * 256 + Z.land n 255.
Proof.
  change 255 with (Z.ones 8). rewrite Z.land_ones, Z.shiftr_div_pow2 by lia.
  change (2 ^ 8) with 256. pose proof (Z.div_mod n 256). lia.
Qed.

(** Integers of a fixed width are read back from the front. *)
Lemma le_bytes_app_inj k n m a b :
  0 <= n < 256 ^ Z.of_nat k → 0 <= m < 256 ^ Z.of_nat k →
  le_bytes k n +:+ a = le_bytes k m +:+ b → n = m ∧ a = b.
Proof.
  revert n m. induction k as [|k IH]; intros n m Hn Hm; simpl.
  - change (256 ^ Z.of_nat 0) with 1 in *. intros Heq. split; [lia|exact Heq].
  - intros [= Hb Htail]. rewrite Nat2Z.inj_succ, Z.pow_succ_r in Hn, Hm by lia.
    pose proof (byte_split n). pose proof (byte_split m).
    pose proof (byte_of n). pose proof (byte_of m).
    assert (Z.land n 255 = Z.land m 255) as Hlow.
    { rewrite <- (ascii_of_byte (Z.land n 255)), <- (ascii_of_byte (Z.land m 255)) by done.
      by rewrite Hb. }
    destruct (IH (Z.shiftr n 8) (Z.shiftr m 8)) as [Hhigh ->]; [nia|nia|done|].
    split; [nia|done].
Qed.

(** Strings of the same length are read back from the front. *)
Lemma fixed_app_inj (s t a b : string) :
  String.length s = String.length t → s +:+ a = t +:+ b → s = t ∧ a = b.
Proof.
  revert t. induction s as [|c s IH]; intros [|d t] Hlen; simpl; try done.
  intros [= -> Heq]. destruct (IH t) as [-> ->]; [|done|done]. simpl in Hlen. lia.
Qed.

Lemma framed_app_inj (s t a b : string) :
  fits s → fits t → framed s +:+ a = framed t +:+ b → s = t ∧ a = b.
Proof.
  unfold framed, fits, len, u64_max. intros Hs Ht.
  rewrite !str_app_assoc. intros Heq.
  apply le_bytes_app_inj in Heq as [Hlen Heq];
    [|change (256 ^ Z.of_nat 8) with (2 ^ 64); lia ..].
  apply fixed_app_inj in Heq; [done|lia].
Qed.

(** ** Collisions *)

(** Two given messages, different, with one digest: [x] and [y] break the hash. *)
Definition collides (hash : string → string) (x y : string) : Prop := x ≠ y ∧ hash x = hash y.

Lemma same_digest (hash : string → string) x y : hash x = hash y → x = y ∨ collides hash x y.
Proof. intros Heq. destruct (decide (x = y)); [by left|by right]. Qed.

(** ** Reading fields back, by width *)
Definition u128_max : Z := 2 ^ 128 - 1.

Lemma u64_app_inj n m a b :
  is_u64 n → is_u64 m → le_bytes 8 n +:+ a = le_bytes 8 m +:+ b → n = m ∧ a = b.
Proof.
  unfold is_u64, u64_max. intros. apply (le_bytes_app_inj 8); [..|done];
    change (256 ^ Z.of_nat 8) with (2 ^ 64); lia.
Qed.
Lemma u32_app_inj n m a b :
  is_u32 n → is_u32 m → le_bytes 4 n +:+ a = le_bytes 4 m +:+ b → n = m ∧ a = b.
Proof.
  unfold is_u32, u32_max. intros. apply (le_bytes_app_inj 4); [..|done];
    change (256 ^ Z.of_nat 4) with (2 ^ 32); lia.
Qed.
Lemma u128_app_inj n m a b :
  0 <= n <= u128_max → 0 <= m <= u128_max →
  le_bytes 16 n +:+ a = le_bytes 16 m +:+ b → n = m ∧ a = b.
Proof.
  unfold u128_max. intros. apply (le_bytes_app_inj 16); [..|done];
    change (256 ^ Z.of_nat 16) with (2 ^ 128); lia.
Qed.
Lemma byte_app_inj n m a b :
  0 <= n < 256 → 0 <= m < 256 → one_byte n +:+ a = one_byte m +:+ b → n = m ∧ a = b.
Proof. intros. by apply (le_bytes_app_inj 1). Qed.

(** Every field of a hypothesis about two encodings, from the left; the ranges
    are among the hypotheses or the hints of [core]. *)
Ltac read_field H :=
  lazymatch type of H with
  | le_bytes 8 _ +:+ _ = _ => apply u64_app_inj in H as [? H]; [|by auto ..]
  | le_bytes 4 _ +:+ _ = _ => apply u32_app_inj in H as [? H]; [|by auto ..]
  | le_bytes 16 _ +:+ _ = _ => apply u128_app_inj in H as [? H]; [|by auto ..]
  | one_byte _ +:+ _ = _ => apply byte_app_inj in H as [? H]; [|by auto ..]
  | framed _ +:+ _ = _ => apply framed_app_inj in H as [? H]; [|by auto ..]
  end.
Ltac read_fields H := rewrite ?str_app_assoc in H; repeat read_field H.

(** ** Hexadecimal digests *)

Lemma hex_digit_inj n m : 0 <= n < 16 → 0 <= m < 16 → hex_digit n = hex_digit m → n = m.
Proof.
  intros Hn Hm Heq.
  assert (code (hex_digit n) = code (hex_digit m)) as Hc by (by rewrite Heq).
  unfold hex_digit in Hc.
  rewrite !ascii_of_byte in Hc by (destruct (Z.ltb_spec n 10), (Z.ltb_spec m 10); lia).
  destruct (Z.ltb_spec n 10), (Z.ltb_spec m 10); lia.
Qed.

Lemma code_inj a b : code a = code b → a = b.
Proof.
  intros Heq. rewrite <- (ascii_N_embedding a), <- (ascii_N_embedding b).
  f_equal. unfold code in Heq. lia.
Qed.

Lemma hex_inj s t : hex s = hex t → s = t.
Proof.
  revert t. induction s as [|a s IH]; intros [|b t]; cbn [hex]; try done.
  intros [= Hhigh Hlow Heq%IH]. pose proof (code_range a). pose proof (code_range b).
  apply hex_digit_inj in Hhigh; [|split; [apply Z.div_pos|apply Z.div_lt_upper_bound]; lia ..].
  apply hex_digit_inj in Hlow; [|apply Z.mod_pos_bound; lia ..].
  assert (a = b) as ->.
  { apply code_inj. rewrite (Z.div_mod (code a) 16), (Z.div_mod (code b) 16); lia. }
  by subst.
Qed.

(** Equal hexadecimal digests: equal messages, or the two break SHA-256. *)
Lemma sha256_hex_inj `{Codec} x y : sha256_hex x = sha256_hex y → x = y ∨ collides sha256 x y.
Proof. unfold sha256_hex. intros Heq%hex_inj. by apply same_digest. Qed.
