(* ===== verification/Profiles.v ===== *)
(** * Profiles: operator-configured sources, servers and states
    ([crates/immich-web/src/profiles.rs], [profiles/], the lookups of [config.rs])

    A browser names a profile only by its id.  A profile carries a generation
    digest, the identity later steps compare; this file models the settings of a
    source, the validation of raw profiles, what each digest is computed of, and
    the address ranges a production server may resolve to. *)
From Stdlib Require Import Ascii.
From S2P Require Export Prelude Text Executor ScanConfig Digest.
From S2P Require Limits.

(** [WebConfigError], whose content is a message. *)
Inductive WebConfigError := ConfigMessage (message : string).

(** ** Source settings *)

Module WebSourceKind.
Inductive t := Folder | GoogleTakeout | ApplePhotos | Picasa.
End WebSourceKind.

Module SourceSettings.
Inductive t :=
  | Folder (config : FolderScanConfig)
  | GoogleTakeout (config : TakeoutImportConfig)
  | ApplePhotos (config : ApplePhotosImportConfig)
  | Picasa (config : PicasaImportConfig).
End SourceSettings.

Definition settings_kind (s : SourceSettings.t) : WebSourceKind.t :=
  match s with
  | SourceSettings.Folder _ => WebSourceKind.Folder
  | SourceSettings.GoogleTakeout _ => WebSourceKind.GoogleTakeout
  | SourceSettings.ApplePhotos _ => WebSourceKind.ApplePhotos
  | SourceSettings.Picasa _ => WebSourceKind.Picasa
  end.

Definition maximum_inputs (s : SourceSettings.t) : Z :=
  match s with
  | SourceSettings.Folder _ => 1
  | SourceSettings.GoogleTakeout c => tsc_max_archives (tic_source c)
  | SourceSettings.ApplePhotos c => asc_max_archives (aic_source c)
  | SourceSettings.Picasa c => psc_max_archives (pic_source c)
  end.

(** [SourceSettings::scan] *)
Definition settings_scan (s : SourceSettings.t) : FolderScanConfig :=
  match s with
  | SourceSettings.Folder c => c
  | SourceSettings.GoogleTakeout c => tsc_scan (tic_source c)
  | SourceSettings.ApplePhotos c => asc_scan (aic_source c)
  | SourceSettings.Picasa c => psc_scan (pic_source c)
  end.

(** *** Raw settings: every field may be missing *)

Record RawFolderScanConfig := {
  rfs_buffer_bytes : option Z;
  rfs_max_entries : option Z;
  rfs_max_directory_entries : option Z;
  rfs_max_path_bytes : option Z;
  rfs_case_sensitive : option bool;
}.
Record RawImportOptions := {
  rio_max_archives : option Z;
  rio_max_archive_entry_bytes : option Z;
  rio_max_compression_ratio : option Z;
  rio_compression_ratio_grace_bytes : option Z;
  rio_album_mode : option string;
  rio_album_path_joiner : option string;
  rio_picasa_albums : option bool;
  rio_filename_date : option bool;
}.
Record RawUploadConfig := {
  ruc_verification_buffer_bytes : option Z;
  ruc_concurrency : option Z;
  ruc_max_attempts_per_operation : option Z;
  ruc_max_retries_per_run : option Z;
  ruc_retry_base_delay_ms : option Z;
  ruc_retry_delay_cap_ms : option Z;
}.

Definition has_picasa_options (o : RawImportOptions) : bool :=
  is_some (rio_picasa_albums o) || is_some (rio_filename_date o).
Definition has_album_options (o : RawImportOptions) : bool :=
  is_some (rio_album_mode o) || is_some (rio_album_path_joiner o) || has_picasa_options o.
Definition has_archive_options (o : RawImportOptions) : bool :=
  is_some (rio_max_archives o) || is_some (rio_max_archive_entry_bytes o)
  || is_some (rio_max_compression_ratio o) || is_some (rio_compression_ratio_grace_bytes o).
(** [RawImportOptions::is_empty] *)
Definition options_empty (o : RawImportOptions) : bool :=
  negb (has_archive_options o) && negb (has_album_options o).

Definition scan_into_config (raw : RawFolderScanConfig) : result WebConfigError FolderScanConfig :=
  let config := {|
    fsc_buffer_bytes := default (fsc_buffer_bytes default_scan) (rfs_buffer_bytes raw);
    fsc_max_entries := default (fsc_max_entries default_scan) (rfs_max_entries raw);
    fsc_max_directory_entries :=
      default (fsc_max_directory_entries default_scan) (rfs_max_directory_entries raw);
    fsc_max_path_bytes := default (fsc_max_path_bytes default_scan) (rfs_max_path_bytes raw);
    fsc_case_sensitive := default (fsc_case_sensitive default_scan) (rfs_case_sensitive raw) |} in
  if in_range 4096 (4 * 1024 * 1024) (fsc_buffer_bytes config)
     && (0 <? fsc_max_entries config) && (0 <? fsc_max_directory_entries config)
     && in_range 64 65536 (fsc_max_path_bytes config)
  then Ok config else Err (ConfigMessage "source scan limits are invalid").

Definition upload_into_config (raw : RawUploadConfig) (scan : FolderScanConfig) :
    result WebConfigError UploadExecutionConfig :=
  let config := {|
    scan := scan;
    verification_buffer_bytes :=
      default (verification_buffer_bytes default_config) (ruc_verification_buffer_bytes raw);
    concurrency := default (concurrency default_config) (ruc_concurrency raw);
    max_attempts_per_operation :=
      default (max_attempts_per_operation default_config) (ruc_max_attempts_per_operation raw);
    max_retries_per_run :=
      default (max_retries_per_run default_config) (ruc_max_retries_per_run raw);
    retry_base_delay := from_millis (default 100 (ruc_retry_base_delay_ms raw));
    retry_delay_cap := from_millis (default 10000 (ruc_retry_delay_cap_ms raw)) |} in
  if in_range 4096 (4 * 1024 * 1024) (verification_buffer_bytes config)
     && in_range 1 8 (concurrency config)
     && in_range 1 10 (max_attempts_per_operation config)
     && (max_retries_per_run config <=? 10000)
     && negb (retry_base_delay config =? 0)
     && (retry_base_delay config <=? retry_delay_cap config)
     && (retry_delay_cap config <=? from_secs 300)
  then Ok config else Err (ConfigMessage "source upload limits are invalid").

Definition folder_upload (s : FolderScanConfig) : UploadExecutionConfig := {|
  scan := s;
  verification_buffer_bytes := verification_buffer_bytes default_config;
  concurrency := concurrency default_config;
  max_attempts_per_operation := max_attempts_per_operation default_config;
  max_retries_per_run := max_retries_per_run default_config;
  retry_base_delay := retry_base_delay default_config;
  retry_delay_cap := retry_delay_cap default_config |}.

(** [apply_archive]: the four limits, with the defaults given as the second
    argument. *)
Definition apply_archive (o : RawImportOptions) (d : Z * Z * Z * Z) : Z * Z * Z * Z :=
  let '(count, bytes, ratio, grace) := d in
  (default count (rio_max_archives o), default bytes (rio_max_archive_entry_bytes o),
   default ratio (rio_max_compression_ratio o),
   default grace (rio_compression_ratio_grace_bytes o)).

Definition parse_album_mode (value : string) : result WebConfigError AlbumMode.t :=
  if String.eqb value "none" then Ok AlbumMode.None
  else if String.eqb value "folder" then Ok AlbumMode.Folder
  else if String.eqb value "path" then Ok AlbumMode.Path
  else Err (ConfigMessage "source album mode is invalid").

Definition apply_albums (o : RawImportOptions) (mode : AlbumMode.t) (joiner : string) :
    result WebConfigError (AlbumMode.t * string) :=
  mode ← match rio_album_mode o with Some value => parse_album_mode value | None => Ok mode end;
  Ok (mode, default joiner (rio_album_path_joiner o)).

(** The [scan_error] of the profiles *)
Definition profile_scan_error (e : ConfigError) : WebConfigError :=
  ConfigMessage "source scan limits are invalid".

Definition takeout_settings (o : RawImportOptions) (s : FolderScanConfig)
    (upload : UploadExecutionConfig) : result WebConfigError SourceSettings.t :=
  let d := tic_source default_takeout_import in
  let '(count, bytes, ratio, grace) := apply_archive o
    (tsc_max_archives d, tsc_max_archive_entry_bytes d, tsc_max_compression_ratio d,
     tsc_compression_ratio_grace_bytes d) in
  let source := {| tsc_scan := s; tsc_max_archives := count; tsc_max_archive_entry_bytes := bytes;
    tsc_max_compression_ratio := ratio; tsc_compression_ratio_grace_bytes := grace |} in
  _ ← map_err profile_scan_error (takeout_validate source);
  Ok (SourceSettings.GoogleTakeout {| tic_source := source; tic_upload := upload |}).

Definition apple_settings (o : RawImportOptions) (s : FolderScanConfig)
    (upload : UploadExecutionConfig) : result WebConfigError SourceSettings.t :=
  let d := aic_source default_apple_import in
  let '(count, bytes, ratio, grace) := apply_archive o
    (asc_max_archives d, asc_max_archive_entry_bytes d, asc_max_compression_ratio d,
     asc_compression_ratio_grace_bytes d) in
  albums ← apply_albums o (asc_album_mode d) (asc_album_path_joiner d);
  let source := {| asc_scan := s; asc_max_archives := count; asc_max_archive_entry_bytes := bytes;
    asc_max_compression_ratio := ratio; asc_compression_ratio_grace_bytes := grace;
    asc_album_mode := albums.1; asc_album_path_joiner := albums.2 |} in
  _ ← map_err profile_scan_error (apple_validate source);
  Ok (SourceSettings.ApplePhotos {| aic_source := source; aic_upload := upload |}).

Definition picasa_settings (o : RawImportOptions) (s : FolderScanConfig)
    (upload : UploadExecutionConfig) : result WebConfigError SourceSettings.t :=
  let d := pic_source default_picasa_import in
  let '(count, bytes, ratio, grace) := apply_archive o
    (psc_max_archives d, psc_max_archive_entry_bytes d, psc_max_compression_ratio d,
     psc_compression_ratio_grace_bytes d) in
  albums ← apply_albums o (psc_album_mode d) (psc_album_path_joiner d);
  let source := {| psc_scan := s; psc_max_archives := count; psc_max_archive_entry_bytes := bytes;
    psc_max_compression_ratio := ratio; psc_compression_ratio_grace_bytes := grace;
    psc_album_mode := albums.1; psc_album_path_joiner := albums.2;
    psc_picasa_albums := default (psc_picasa_albums d) (rio_picasa_albums o);
    psc_filename_date := default (psc_filename_date d) (rio_filename_date o) |} in
  _ ← map_err profile_scan_error (picasa_validate source);
  Ok (SourceSettings.Picasa {| pic_source := source; pic_upload := upload |}).

(** [SourceSettings::from_raw] *)
Definition settings_from_raw (kind : WebSourceKind.t) (raw_scan : RawFolderScanConfig)
    (o : RawImportOptions) (raw_upload : RawUploadConfig) : result WebConfigError SourceSettings.t :=
  s ← scan_into_config raw_scan;
  upload ← upload_into_config raw_upload s;
  match kind with
  | WebSourceKind.Folder =>
    if options_empty o && bool_decide (upload = folder_upload s)
    then Ok (SourceSettings.Folder s)
    else Err (ConfigMessage "folder profiles cannot configure import options")
  | WebSourceKind.GoogleTakeout =>
    if has_album_options o
    then Err (ConfigMessage "Google Takeout profile has unsupported album options")
    else takeout_settings o s upload
  | WebSourceKind.ApplePhotos =>
    if has_picasa_options o
    then Err (ConfigMessage "Apple Photos profile has unsupported Picasa options")
    else apple_settings o s upload
  | WebSourceKind.Picasa => picasa_settings o s upload
  end.

(** Settings of a kind have that kind, and the executor accepts what the console
    accepted: no run fails because of limits the operator configured. *)
Definition executor_accepts (s : SourceSettings.t) : Prop :=
  match s with
  | SourceSettings.Folder c => config_validate (folder_upload c) = Ok tt
  | SourceSettings.GoogleTakeout c => takeout_import_validate c = Ok tt
  | SourceSettings.ApplePhotos c => apple_import_validate c = Ok tt
  | SourceSettings.Picasa c => picasa_import_validate c = Ok tt
  end.

Lemma scan_into_config_valid raw s : scan_into_config raw = Ok s → folder_validate s = Ok tt.
Proof.
  unfold scan_into_config. cbv zeta. set (c := Build_FolderScanConfig _ _ _ _ _).
  destruct (in_range 4096 _ _ && _ && _ && _) eqn:Hc; [|done]. intros [= <-].
  repeat rewrite andb_true_iff in Hc. destruct Hc as [[[Hb H1] H2] H3].
  unfold folder_validate. change MIN_BUFFER_BYTES with 4096.
  change MAX_BUFFER_BYTES with (4 * 1024 * 1024). rewrite Hb, H3.
  bools. destruct (Z.eqb_spec (fsc_max_entries c) 0); [lia|].
  destruct (Z.eqb_spec (fsc_max_directory_entries c) 0); [lia|]. done.
Qed.

Lemma upload_into_config_valid raw s u :
  upload_into_config raw s = Ok u → config_validate u = Ok tt ∧ scan u = s.
Proof.
  unfold upload_into_config. cbv zeta. set (c := Build_UploadExecutionConfig _ _ _ _ _ _ _).
  destruct (in_range 4096 _ _ && _ && _ && _ && _ && _ && _) eqn:Hc; [|done]. intros [= <-].
  split; [|done]. unfold config_validate, config_valid.
  change (4 * 1024) with 4096. unfold in_range in Hc.
  match goal with |- fail_if (negb ?b) _ = _ => replace b with true; [done|] end.
  symmetry. rewrite !andb_true_iff in Hc |- *. tauto.
Qed.

Lemma folder_upload_valid s : config_validate (folder_upload s) = Ok tt.
Proof. reflexivity. Qed.

Lemma settings_from_raw_kind kind raw_scan o raw_upload s :
  settings_from_raw kind raw_scan o raw_upload = Ok s → settings_kind s = kind.
Proof.
  unfold settings_from_raw, takeout_settings, apple_settings, picasa_settings. intros Hs.
  result_inv. destruct kind.
  - destruct (_ && _); [|done]. by injection Hs as <-.
  - destruct (has_album_options o); [done|]. destruct (apply_archive _ _) as [[[? ?] ?] ?].
    result_inv. done.
  - destruct (has_picasa_options o); [done|]. destruct (apply_archive _ _) as [[[? ?] ?] ?].
    result_inv. done.
  - destruct (apply_archive _ _) as [[[? ?] ?] ?]. result_inv. done.
Qed.

Ltac unit_results := repeat match goal with u : unit |- _ => destruct u end.

(** The executor's checks of an accepted import configuration, one by one. *)
Ltac accept_import validate :=
  result_inv; unit_results; split; [|done]; unfold executor_accepts, validate; simpl in *;
  repeat match goal with
  | H : ?m = Ok tt |- context [?m] => rewrite H; simpl
  end; rewrite bool_decide_eq_true_2 by reflexivity; reflexivity.

Lemma settings_accepted kind raw_scan o raw_upload s :
  settings_from_raw kind raw_scan o raw_upload = Ok s →
  executor_accepts s ∧ folder_validate (settings_scan s) = Ok tt.
Proof.
  intros Hs. unfold settings_from_raw, takeout_settings, apple_settings, picasa_settings in Hs. result_inv.
  match goal with H : scan_into_config _ = _ |- _ => pose proof (scan_into_config_valid _ _ H) end.
  match goal with H : upload_into_config _ _ = _ |- _ =>
    destruct (upload_into_config_valid _ _ _ H) as [Hu <-] end.
  destruct kind.
  - destruct (_ && _); [|done]. injection Hs as <-. split; [apply folder_upload_valid|done].
  - destruct (has_album_options o); [done|]. destruct (apply_archive _ _) as [[[? ?] ?] ?].
    accept_import takeout_import_validate.
  - destruct (has_picasa_options o); [done|]. destruct (apply_archive _ _) as [[[? ?] ?] ?].
    accept_import apple_import_validate.
  - destruct (apply_archive _ _) as [[[? ?] ?] ?]. accept_import picasa_import_validate.
Qed.

(** Every configuration the console accepts for a source profile is one the
    executor's own validation accepts, with the scan limits of the upload and of
    the source equal. *)
Theorem settings_executable kind raw_scan o raw_upload s :
  settings_from_raw kind raw_scan o raw_upload = Ok s →
  settings_kind s = kind ∧ executor_accepts s ∧ folder_validate (settings_scan s) = Ok tt.
Proof.
  intros Hs. split; [by eapply settings_from_raw_kind|by eapply settings_accepted].
Qed.

(** ** Profiles *)

(** [ServerMode] *)
Module ServerMode.
Inductive t := Disposable | ProductionRead.
End ServerMode.

(** A file identity is a digest of 32 bytes. *)
Record SourceProfile := {
  sp_id : string;
  sp_label : string;
  sp_configured_inputs : list string;
  sp_canonical_inputs : list string;
  sp_identities : list string;
  sp_generation_sha256 : string;
  sp_settings : SourceSettings.t;
}.

Record ResolvedSourceProfile := {
  rsp_inputs : list string;
  rsp_label : string;
  rsp_generation_sha256 : string;
  rsp_settings : SourceSettings.t;
}.

Module AddressRange.
Inductive t :=
  | V4 (network prefix : Z)
  | V6 (network prefix : Z).
End AddressRange.

Record ServerProfile := {
  svp_id : string;
  svp_origin : string;
  svp_api_key_file : string;
  svp_ca_certificate_file : option string;
  svp_mode : ServerMode.t;
  svp_address_ranges : list AddressRange.t;
  svp_generation : Z;
  svp_generation_sha256 : string;
  svp_credential_generation : Z;
}.

Record StateProfile := {
  stp_id : string;
  stp_label : string;
  stp_configured_root : string;
  stp_canonical_root : string;
  stp_identity : string;
  stp_generation_sha256 : string;
}.
Record ResolvedStateProfile := { rst_root : string; rst_generation_sha256 : string }.

(** [SourceProfile::kind] *)
Definition sp_kind (p : SourceProfile) : WebSourceKind.t := settings_kind (sp_settings p).

(** *** Names *)

Definition MAX_ID_BYTES : Z := 64.
Definition MAX_LABEL_BYTES : Z := 128.

Definition is_ascii_lowercase (a : ascii) : bool := (97 <=? code a) && (code a <=? 122).

Definition id_byte (a : ascii) : bool :=
  is_ascii_lowercase a || is_ascii_digit a || (Ascii.eqb a "-" || Ascii.eqb a "_").

Definition validate_id (value : string) : result WebConfigError unit :=
  let valid := in_range 1 MAX_ID_BYTES (len value)
    && match bytes value with
       | [] => false
       | first :: rest =>
         (is_ascii_lowercase first || is_ascii_digit first) && forallb id_byte rest
       end in
  if valid then Ok tt else Err (ConfigMessage "profile identifier is invalid").

Definition validate_label (value : string) : result WebConfigError unit :=
  if negb (is_empty value) && (len value <=? MAX_LABEL_BYTES) && is_trimmed value
     && negb (has_control value)
  then Ok tt else Err (ConfigMessage "source profile label is invalid").

(** *** Paths

    [Path] on Unix: components are separated by slashes; empty ones and [.] do
    not count, except a leading [.]. *)
Definition is_absolute (path : string) : bool :=
  match path with String a _ => Ascii.eqb a "/" | EmptyString => false end.

(** [path.components().all(Normal | CurDir)] of a relative path *)
Definition valid_relative_root (path : string) : bool :=
  negb (is_empty path) && negb (is_absolute path)
  && forallb (λ c, negb (String.eqb c "..")) (normal_components path).

(** [root.join(relative)] for a relative path *)
Definition path_join (root relative : string) : string :=
  if ends_with "/" root then root +:+ relative else root +:+ "/" +:+ relative.

(** [path.starts_with(base)] for absolute paths *)
Definition path_starts_with (path base : string) : bool :=
  bool_decide (take (length (normal_components base)) (normal_components path)
               = normal_components base).

(** [==] of two absolute paths *)
Definition path_eq (a b : string) : bool :=
  bool_decide (normal_components a = normal_components b).

(** ** Generation digests *)

(** [update_bytes] *)
Definition update_bytes (value : string) : string := framed value.

(** [self.kind() as u8] *)
Definition kind_byte (k : WebSourceKind.t) : Z :=
  match k with
  | WebSourceKind.Folder => 0 | WebSourceKind.GoogleTakeout => 1
  | WebSourceKind.ApplePhotos => 2 | WebSourceKind.Picasa => 3
  end.

(** [u8::from(b)] *)
Definition bool_byte (b : bool) : Z := if b then 1 else 0.

Definition update_scan (c : FolderScanConfig) : string :=
  le_bytes 8 (fsc_buffer_bytes c) +:+ le_bytes 8 (fsc_max_entries c)
  +:+ le_bytes 8 (fsc_max_directory_entries c) +:+ le_bytes 8 (fsc_max_path_bytes c)
  +:+ one_byte (bool_byte (fsc_case_sensitive c)).

Definition update_archive (count bytes ratio grace : Z) : string :=
  le_bytes 8 count +:+ le_bytes 8 bytes +:+ le_bytes 8 ratio +:+ le_bytes 8 grace.

Definition mode_byte (mode : AlbumMode.t) : Z :=
  match mode with AlbumMode.None => 0 | AlbumMode.Folder => 1 | AlbumMode.Path => 2 end.

Definition update_album (mode : AlbumMode.t) (joiner : string) : string :=
  one_byte (mode_byte mode) +:+ le_bytes 8 (len joiner) +:+ joiner.

Definition update_upload (c : UploadExecutionConfig) : string :=
  le_bytes 8 (verification_buffer_bytes c) +:+ le_bytes 8 (concurrency c)
  +:+ le_bytes 4 (max_attempts_per_operation c) +:+ le_bytes 4 (max_retries_per_run c)
  +:+ le_bytes 16 (as_millis (retry_base_delay c)) +:+ le_bytes 16 (as_millis (retry_delay_cap c)).

(** [SourceSettings::update_digest] *)
Definition update_digest (s : SourceSettings.t) : string :=
  one_byte (kind_byte (settings_kind s)) +:+
  match s with
  | SourceSettings.Folder c => update_scan c
  | SourceSettings.GoogleTakeout c =>
    let d := tic_source c in
    update_archive (tsc_max_archives d) (tsc_max_archive_entry_bytes d)
      (tsc_max_compression_ratio d) (tsc_compression_ratio_grace_bytes d)
    +:+ update_scan (tsc_scan d) +:+ update_upload (tic_upload c)
  | SourceSettings.ApplePhotos c =>
    let d := aic_source c in
    update_archive (asc_max_archives d) (asc_max_archive_entry_bytes d)
      (asc_max_compression_ratio d) (asc_compression_ratio_grace_bytes d)
    +:+ update_album (asc_album_mode d) (asc_album_path_joiner d)
    +:+ update_scan (asc_scan d) +:+ update_upload (aic_upload c)
  | SourceSettings.Picasa c =>
    let d := pic_source c in
    update_archive (psc_max_archives d) (psc_max_archive_entry_bytes d)
      (psc_max_compression_ratio d) (psc_compression_ratio_grace_bytes d)
    +:+ update_album (psc_album_mode d) (psc_album_path_joiner d)
    +:+ (one_byte (bool_byte (psc_picasa_albums d)) +:+ one_byte (bool_byte (psc_filename_date d)))
    +:+ update_scan (psc_scan d) +:+ update_upload (pic_upload c)
  end.

(** The paths of the inputs and their identities, in order; [path] is written
    as its bytes after its length. *)
Fixpoint update_inputs (inputs : list (string * string)) : string :=
  match inputs with
  | [] => EmptyString
  | (path, identity) :: inputs => framed path +:+ identity +:+ update_inputs inputs
  end.

Definition source_generation_bytes (generation : Z) (id label : string)
    (canonical_inputs identities : list string) (settings : SourceSettings.t) : string :=
  le_bytes 8 generation +:+ update_bytes id +:+ update_bytes label
  +:+ le_bytes 8 (zlen canonical_inputs)
  +:+ update_inputs (zip canonical_inputs identities)
  +:+ update_digest settings.

Definition source_generation `{Codec} (generation : Z) (id label : string)
    (canonical_inputs identities : list string) (settings : SourceSettings.t) : string :=
  sha256_hex (source_generation_bytes generation id label canonical_inputs identities settings).

Definition range_bytes (r : AddressRange.t) : string :=
  match r with
  | AddressRange.V4 network prefix => one_byte 4 +:+ one_byte prefix +:+ le_bytes 4 network
  | AddressRange.V6 network prefix => one_byte 6 +:+ one_byte prefix +:+ le_bytes 16 network
  end.

Definition ServerMode_byte (m : ServerMode.t) : Z :=
  match m with ServerMode.Disposable => 0 | ServerMode.ProductionRead => 1 end.

(** [server_generation]: nothing is framed. *)
Definition server_generation `{Codec} (generation : Z) (id origin api_key_file : string)
    (ca_certificate_file : option string) (mode : ServerMode.t)
    (ranges : list AddressRange.t) : string :=
  sha256_hex (le_bytes 8 generation +:+ id +:+ origin +:+ api_key_file
    +:+ default "" ca_certificate_file +:+ one_byte (ServerMode_byte mode)
    +:+ foldr (λ r acc, range_bytes r +:+ acc) "" ranges).

Definition state_generation `{Codec} (generation : Z) (id label canonical_root identity : string) :
    string :=
  sha256_hex (le_bytes 8 generation +:+ id +:+ label +:+ canonical_root +:+ identity).

(** *** What the digests bind *)

Definition scan_fits (c : FolderScanConfig) : Prop :=
  is_u64 (fsc_buffer_bytes c) ∧ is_u64 (fsc_max_entries c)
  ∧ is_u64 (fsc_max_directory_entries c) ∧ is_u64 (fsc_max_path_bytes c).

(** A delay of the profiles is a whole number of milliseconds. *)
Definition whole_millis (d : Z) : Prop := d = from_millis (as_millis d) ∧ 0 <= as_millis d <= u128_max.

Definition upload_fits (c : UploadExecutionConfig) : Prop :=
  is_u64 (verification_buffer_bytes c) ∧ is_u64 (concurrency c)
  ∧ is_u32 (max_attempts_per_operation c) ∧ is_u32 (max_retries_per_run c)
  ∧ whole_millis (retry_base_delay c) ∧ whole_millis (retry_delay_cap c).

Definition settings_fit (s : SourceSettings.t) : Prop :=
  match s with
  | SourceSettings.Folder c => scan_fits c
  | SourceSettings.GoogleTakeout c =>
    let d := tic_source c in
    scan_fits (tsc_scan d) ∧ is_u64 (tsc_max_archives d) ∧ is_u64 (tsc_max_archive_entry_bytes d)
    ∧ is_u64 (tsc_max_compression_ratio d) ∧ is_u64 (tsc_compression_ratio_grace_bytes d)
    ∧ upload_fits (tic_upload c) ∧ scan (tic_upload c) = tsc_scan d
  | SourceSettings.ApplePhotos c =>
    let d := aic_source c in
    scan_fits (asc_scan d) ∧ is_u64 (asc_max_archives d) ∧ is_u64 (asc_max_archive_entry_bytes d)
    ∧ is_u64 (asc_max_compression_ratio d) ∧ is_u64 (asc_compression_ratio_grace_bytes d)
    ∧ fits (asc_album_path_joiner d)
    ∧ upload_fits (aic_upload c) ∧ scan (aic_upload c) = asc_scan d
  | SourceSettings.Picasa c =>
    let d := pic_source c in
    scan_fits (psc_scan d) ∧ is_u64 (psc_max_archives d) ∧ is_u64 (psc_max_archive_entry_bytes d)
    ∧ is_u64 (psc_max_compression_ratio d) ∧ is_u64 (psc_compression_ratio_grace_bytes d)
    ∧ fits (psc_album_path_joiner d)
    ∧ upload_fits (pic_upload c) ∧ scan (pic_upload c) = psc_scan d
  end.

Lemma bool_byte_range b : 0 <= bool_byte b < 256.
Proof. destruct b; simpl; lia. Qed.
Lemma bool_byte_inj b c : bool_byte b = bool_byte c → b = c.
Proof. by destruct b, c. Qed.
Lemma mode_byte_range m : 0 <= mode_byte m < 256.
Proof. destruct m; simpl; lia. Qed.
Lemma mode_byte_inj m n : mode_byte m = mode_byte n → m = n.
Proof. by destruct m, n. Qed.
Lemma kind_byte_range k : 0 <= kind_byte k < 256.
Proof. destruct k; simpl; lia. Qed.
Lemma kind_byte_inj k l : kind_byte k = kind_byte l → k = l.
Proof. by destruct k, l. Qed.
#[local] Hint Resolve bool_byte_range mode_byte_range kind_byte_range : core.


Lemma update_scan_inj c d a b :
  scan_fits c → scan_fits d → update_scan c +:+ a = update_scan d +:+ b → c = d ∧ a = b.
Proof.
  intros (?&?&?&?) (?&?&?&?) Heq. unfold update_scan in Heq. read_fields Heq.
  split; [|done]. destruct c, d; simpl in *. f_equal; auto using bool_byte_inj.
Qed.

Lemma whole_millis_inj d e :
  whole_millis d → whole_millis e → as_millis d = as_millis e → d = e.
Proof. intros [? _] [? _] ?. congruence. Qed.

Lemma update_upload_inj c d a b :
  upload_fits c → upload_fits d → scan c = scan d →
  update_upload c +:+ a = update_upload d +:+ b → c = d ∧ a = b.
Proof.
  intros (?&?&?&?&Hb1&Hc1) (?&?&?&?&Hb2&Hc2) Hscan Heq.
  pose proof (proj2 Hb1). pose proof (proj2 Hc1). pose proof (proj2 Hb2). pose proof (proj2 Hc2).
  unfold update_upload in Heq. read_fields Heq.
  split; [|done]. destruct c, d; simpl in *. f_equal; eauto using whole_millis_inj.
Qed.

Lemma update_archive_inj n m b1 b2 r1 r2 g1 g2 x y :
  is_u64 n → is_u64 m → is_u64 b1 → is_u64 b2 → is_u64 r1 → is_u64 r2 → is_u64 g1 → is_u64 g2 →
  update_archive n b1 r1 g1 +:+ x = update_archive m b2 r2 g2 +:+ y →
  (n = m ∧ b1 = b2 ∧ r1 = r2 ∧ g1 = g2) ∧ x = y.
Proof. intros ???????? Heq. unfold update_archive in Heq. read_fields Heq. done. Qed.

Lemma update_album_inj m n j k a b :
  fits j → fits k → update_album m j +:+ a = update_album n k +:+ b → (m = n ∧ j = k) ∧ a = b.
Proof.
  intros ?? Heq. unfold update_album in Heq.
  change (le_bytes 8 (len j) +:+ j) with (framed j) in Heq.
  change (le_bytes 8 (len k) +:+ k) with (framed k) in Heq.
  read_fields Heq. auto using mode_byte_inj.
Qed.

(** The bytes of the settings determine them, whatever follows. *)
Lemma update_digest_inj s t a b :
  settings_fit s → settings_fit t → update_digest s +:+ a = update_digest t +:+ b → s = t ∧ a = b.
Proof.
  intros Hs Ht Heq. unfold update_digest in Heq. read_fields Heq.
  match goal with H : kind_byte _ = kind_byte _ |- _ => apply kind_byte_inj in H as Hkind end.
  destruct s as [c|[c u]|[c u]|[c u]], t as [d|[d v]|[d v]|[d v]]; try discriminate Hkind;
    cbn [settings_fit] in Hs, Ht; cbn [tic_source tic_upload aic_source aic_upload pic_source
      pic_upload] in *.
  - apply update_scan_inj in Heq as [-> ->]; done.
  - destruct Hs as (?&?&?&?&?&?&?), Ht as (?&?&?&?&?&?&?).
    rewrite !str_app_assoc in Heq.
    apply update_archive_inj in Heq as [(?&?&?&?) Heq]; [|done ..].
    apply update_scan_inj in Heq as [? Heq]; [|done ..].
    apply update_upload_inj in Heq as [-> ->]; [|done|done|congruence].
    split; [|done]. destruct c, d; simpl in *. congruence.
  - destruct Hs as (?&?&?&?&?&?&?&?), Ht as (?&?&?&?&?&?&?&?).
    rewrite !str_app_assoc in Heq.
    apply update_archive_inj in Heq as [(?&?&?&?) Heq]; [|done ..].
    apply update_album_inj in Heq as [(?&?) Heq]; [|done ..].
    apply update_scan_inj in Heq as [? Heq]; [|done ..].
    apply update_upload_inj in Heq as [-> ->]; [|done|done|congruence].
    split; [|done]. destruct c, d; simpl in *. congruence.
  - destruct Hs as (?&?&?&?&?&?&?&?), Ht as (?&?&?&?&?&?&?&?).
    rewrite !str_app_assoc in Heq.
    apply update_archive_inj in Heq as [(?&?&?&?) Heq]; [|done ..].
    apply update_album_inj in Heq as [(?&?) Heq]; [|done ..].
    apply byte_app_inj in Heq as [Hb1%bool_byte_inj Heq]; [|by auto ..].
    apply byte_app_inj in Heq as [Hb2%bool_byte_inj Heq]; [|by auto ..].
    apply update_scan_inj in Heq as [? Heq]; [|done ..].
    apply update_upload_inj in Heq as [-> ->]; [|done|done|congruence].
    split; [|done]. destruct c, d; simpl in *. congruence.
Qed.

(** A file identity has the width of a digest. *)
Definition input_fits (input : string * string) : Prop :=
  fits input.1 ∧ String.length input.2 = 32%nat.

Lemma update_inputs_inj l k a b :
  length l = length k → Forall input_fits l → Forall input_fits k →
  update_inputs l +:+ a = update_inputs k +:+ b → l = k ∧ a = b.
Proof.
  revert k. induction l as [|[p i] l IH]; intros [|[q j] k] Hlen Hl Hk Heq; try done.
  apply Forall_cons in Hl as [[Hp Hi] Hl], Hk as [[Hq Hj] Hk]. simpl in *.
  read_fields Heq. apply fixed_app_inj in Heq; [|by rewrite Hi, Hj]. destruct Heq as [-> Heq].
  destruct (IH k) as [-> ->]; [lia|done|done|done|]. split; [congruence|done].
Qed.

(** What the arguments of [source_generation] are: a configured profile. *)
Record generation_fits (generation : Z) (id label : string)
    (inputs identities : list string) (settings : SourceSettings.t) : Prop := {
  gf_generation : is_u64 generation;
  gf_id : fits id;
  gf_label : fits label;
  gf_count : is_u64 (zlen inputs);
  gf_identities : length identities = length inputs;
  gf_inputs : Forall input_fits (zip inputs identities);
  gf_settings : settings_fit settings;
}.

Lemma zip_inj {A B} (l1 l2 : list A) (k1 k2 : list B) :
  length k1 = length l1 → length k2 = length l2 → zip l1 k1 = zip l2 k2 → l1 = l2 ∧ k1 = k2.
Proof.
  intros H1 H2 Heq. split.
  - apply (f_equal (fmap fst)) in Heq. rewrite !fst_zip in Heq by lia. done.
  - apply (f_equal (fmap snd)) in Heq. rewrite !snd_zip in Heq by lia. done.
Qed.

Lemma source_generation_bytes_inj g1 i1 l1 p1 d1 s1 g2 i2 l2 p2 d2 s2 :
  generation_fits g1 i1 l1 p1 d1 s1 → generation_fits g2 i2 l2 p2 d2 s2 →
  source_generation_bytes g1 i1 l1 p1 d1 s1 = source_generation_bytes g2 i2 l2 p2 d2 s2 →
  (g1, i1, l1, p1, d1, s1) = (g2, i2, l2, p2, d2, s2).
Proof.
  intros [] [] Heq. unfold source_generation_bytes, update_bytes in Heq.
  read_fields Heq.
  match goal with H : zlen p1 = zlen p2 |- _ => assert (length p1 = length p2) by (unfold zlen in H; lia) end.
  apply update_inputs_inj in Heq as [Hzip Heq]; [|rewrite !length_zip; lia|done|done].
  apply zip_inj in Hzip as [-> ->]; [|done|done].
  rewrite <- (str_app_nil_r (update_digest s1)), <- (str_app_nil_r (update_digest s2)) in Heq.
  apply update_digest_inj in Heq as [-> _]; [|done|done]. congruence.
Qed.

(** The generation digest of a source profile binds everything the digest is
    meant to cover: two configurations with the same digest are the same
    generation, id, label, inputs, file identities and settings, unless the bytes
    hashed for the two are themselves different messages with one SHA-256 digest. *)
Theorem source_generation_binds `{Codec} g1 i1 l1 p1 d1 s1 g2 i2 l2 p2 d2 s2 :
  generation_fits g1 i1 l1 p1 d1 s1 → generation_fits g2 i2 l2 p2 d2 s2 →
  source_generation g1 i1 l1 p1 d1 s1 = source_generation g2 i2 l2 p2 d2 s2 →
  (g1, i1, l1, p1, d1, s1) = (g2, i2, l2, p2, d2, s2)
  ∨ collides sha256 (source_generation_bytes g1 i1 l1 p1 d1 s1) (source_generation_bytes g2 i2 l2 p2 d2 s2).
Proof.
  intros H1 H2 [Heq|?]%sha256_hex_inj; [left|by right]. by eapply source_generation_bytes_inj.
Qed.

(** The generation digest of a server profile does not bind the paths of its
    API key and certificate, and that of a state profile does not bind where the
    id ends and the label starts: distinct absolute paths, and distinct names,
    give the same bytes whatever the digest function is. *)
Theorem server_generation_ambiguous `{Codec} g id origin key ca mode ranges label root identity :
  is_absolute key = true → is_absolute ca = true →
  is_absolute (key +:+ ca) = true
  ∧ server_generation g id origin key (Some ca) mode ranges
    = server_generation g id origin (key +:+ ca) None mode ranges
  ∧ state_generation g (id +:+ origin) label root identity
    = state_generation g id (origin +:+ label) root identity.
Proof.
  intros Hkey Hca. split; [by destruct key|].
  unfold server_generation, state_generation, default. rewrite !str_app_assoc. done.
Qed.

(** ** Address ranges *)

Inductive IpAddr := IpV4 (bits : Z) | IpV6 (bits : Z).

(** [u32::MAX << (32 - prefix)], whose high bits are lost *)
Definition mask (width prefix : Z) : Z :=
  if prefix =? 0 then 0
  else Z.land (Z.shiftl (Z.ones width) (width - prefix)) (Z.ones width).
Definition mask_v4 (prefix : Z) : Z := mask 32 prefix.
Definition mask_v6 (prefix : Z) : Z := mask 128 prefix.

(** [AddressRange::parse], after the address and the prefix have been read *)
Definition range_of (address : IpAddr) (prefix : Z) : result WebConfigError AddressRange.t :=
  match address with
  | IpV4 bits => if prefix <=? 32 then Ok (AddressRange.V4 (Z.land bits (mask_v4 prefix)) prefix)
                 else Err (ConfigMessage "invalid server address allowlist")
  | IpV6 bits => if prefix <=? 128 then Ok (AddressRange.V6 (Z.land bits (mask_v6 prefix)) prefix)
                 else Err (ConfigMessage "invalid server address allowlist")
  end.

(** [AddressRange::contains] *)
Definition range_contains (r : AddressRange.t) (address : IpAddr) : bool :=
  match r, address with
  | AddressRange.V4 network prefix, IpV4 bits => Z.land bits (mask_v4 prefix) =? network
  | AddressRange.V6 network prefix, IpV6 bits => Z.land bits (mask_v6 prefix) =? network
  | _, _ => false
  end.

Definition is_loopback (address : IpAddr) : bool :=
  match address with
  | IpV4 bits => Z.shiftr bits 24 =? 127
  | IpV6 bits => bits =? 1
  end.

(** The check [validate_addresses] makes of every address of a DNS answer *)
Definition address_allowed (mode : ServerMode.t) (ranges : list AddressRange.t)
    (address : IpAddr) : bool :=
  match mode with
  | ServerMode.Disposable => is_loopback address
  | ServerMode.ProductionRead => existsb (λ range, range_contains range address) ranges
  end.

(** The reference: the first [prefix] of [width] bits agree. *)
Definition same_prefix (width prefix a b : Z) : Prop :=
  ∀ i, width - prefix <= i < width → Z.testbit a i = Z.testbit b i.

Definition in_network (network : IpAddr) (prefix : Z) (address : IpAddr) : Prop :=
  match network, address with
  | IpV4 a, IpV4 b => same_prefix 32 prefix a b
  | IpV6 a, IpV6 b => same_prefix 128 prefix a b
  | _, _ => False
  end.

Lemma mask_testbit width prefix i :
  0 <= prefix <= width → 0 <= i →
  Z.testbit (mask width prefix) i = (width - prefix <=? i) && (i <? width).
Proof.
  intros Hp Hi. unfold mask. destruct (Z.eqb_spec prefix 0) as [->|Hne].
  - rewrite Z.bits_0. destruct (Z.leb_spec (width - 0) i), (Z.ltb_spec i width); simpl; lia.
  - rewrite Z.land_spec, Z.shiftl_spec by lia.
    destruct (Z.leb_spec (width - prefix) i).
    + rewrite (Z.testbit_ones_nonneg width (i - _)), Z.testbit_ones_nonneg by lia.
      destruct (Z.ltb_spec i width), (Z.ltb_spec (i - (width - prefix)) width); simpl; lia.
    + rewrite (Z.testbit_neg_r _ (i - _)) by lia. done.
Qed.

Lemma masked_eq width prefix a b :
  0 <= prefix <= width → 
  Z.land b (mask width prefix) = Z.land a (mask width prefix) ↔ same_prefix width prefix a b.
Proof.
  intros Hp. split.
  - intros Heq i Hi. apply (f_equal (λ x, Z.testbit x i)) in Heq.
    rewrite !Z.land_spec, !mask_testbit in Heq by lia.
    destruct (Z.leb_spec (width - prefix) i), (Z.ltb_spec i width); [|lia ..].
    by rewrite !andb_true_r in Heq.
  - intros Hsame. apply Z.bits_inj'. intros i Hi. rewrite !Z.land_spec, !mask_testbit by lia.
    destruct (Z.leb_spec (width - prefix) i), (Z.ltb_spec i width); simpl; rewrite ?andb_false_r; [|done ..].
    rewrite (Hsame i) by lia. done.
Qed.

(** An address is in a configured range exactly when the range is of its
    family and the first prefix bits agree: the mask arithmetic, the empty prefix
    included, is prefix comparison. *)
Theorem address_range_exact network prefix range address :
  0 <= prefix → range_of network prefix = Ok range →
  range_contains range address = true ↔ in_network network prefix address.
Proof.
  intros Hp Hr. destruct network as [a|a]; cbn [range_of] in Hr.
  - destruct (Z.leb_spec prefix 32); [|done]. injection Hr as <-.
    destruct address as [b|b]; cbn [range_contains in_network]; [|done].
    rewrite Z.eqb_eq. apply masked_eq. lia.
  - destruct (Z.leb_spec prefix 128); [|done]. injection Hr as <-.
    destruct address as [b|b]; cbn [range_contains in_network]; [done|].
    rewrite Z.eqb_eq. apply masked_eq. lia.
Qed.

(** ** Loading and revalidating profiles *)

(** What [std::fs] tells about a path. *)
Record FileMeta := { fm_is_dir : bool; fm_is_file : bool; fm_is_symlink : bool; fm_mode : Z }.

(** [fs::symlink_metadata], [fs::metadata], [fs::canonicalize] and
    [ResourceIdentity::from_path] (the digest of the handle of the [same_file]
    crate); each may fail and each sees the file system of its moment. *)
Class ProfileFs (W : Type) := {
  fs_symlink_metadata : string → io W WebConfigError FileMeta;
  fs_metadata : string → io W WebConfigError FileMeta;
  fs_canonicalize : string → io W WebConfigError string;
  resource_identity : string → io W WebConfigError string;
}.

(** [into_iter().map(f).collect::<Result<Vec<_>, _>>()] with effects *)
Fixpoint io_try_map {W E A B} (f : A → io W E B) (l : list A) : io W E (list B) :=
  match l with
  | [] => mret []
  | x :: l => y ← f x; ys ← io_try_map f l; mret (y :: ys)
  end.

(** [path.extension()] of a canonical path *)
Definition path_extension (path : string) : option string :=
  match last (normal_components path) with
  | None => None
  | Some name => match rsplit_once "." name with
                 | Some (EmptyString, _) => None
                 | Some (_, extension) => Some extension
                 | None => None
                 end
  end.

Definition eq_ignore_ascii_case (a b : string) : bool :=
  String.eqb (to_ascii_uppercase a) (to_ascii_uppercase b).

(** [metadata.permissions().mode().trailing_zeros() >= 6]: no permission for
    group and others. *)
Definition private_mode (mode : Z) : bool := Z.land mode (Z.ones 6) =? 0.

Record RawSourceProfile := {
  rsp_raw_id : string;
  rsp_raw_label : string;
  rsp_allowed_root : string;
  rsp_relative_root : option string;
  rsp_relative_inputs : list string;
  rsp_generation : Z;
  rsp_kind : WebSourceKind.t;
  rsp_scan : RawFolderScanConfig;
  rsp_options : RawImportOptions;
  rsp_upload : RawUploadConfig;
}.
Record RawStateProfile := {
  rst_raw_id : string;
  rst_raw_label : string;
  rst_allowed_root : string;
  rst_relative_root : string;
  rst_generation : Z;
}.

Definition MAX_SOURCE_INPUTS : Z := 64.

Definition select_inputs (kind : WebSourceKind.t) (relative_root : option string)
    (relative_inputs : list string) : result WebConfigError (list string) :=
  inputs ← match kind, relative_root, relative_inputs with
    | WebSourceKind.Folder, Some root, [] => Ok [root]
    | WebSourceKind.Folder, _, _ =>
      Err (ConfigMessage "folder profile requires exactly one relative_root")
    | _, None, _ :: _ => Ok relative_inputs
    | _, _, _ => Err (ConfigMessage "import profile requires relative_inputs")
    end;
  if (zlen inputs =? 0) || (MAX_SOURCE_INPUTS <? zlen inputs)
     || existsb (λ path, negb (valid_relative_root path)) inputs
  then Err (ConfigMessage "source profile inputs are invalid") else Ok inputs.

Section load.
  Context {W : Type} `{ProfileFs W, Codec}.
Notation load := (io W WebConfigError).

Definition canonical_directory (path : string) : load string :=
  metadata ← fs_symlink_metadata path;
  _ ← lift (fail_if (fm_is_symlink metadata || negb (fm_is_dir metadata))
        (ConfigMessage "configured directory must not be a symlink"));
  fs_canonicalize path.

Definition canonical_resource (path : string) : load (string * string) :=
  metadata ← fs_symlink_metadata path;
  _ ← lift (fail_if (fm_is_symlink metadata
                     || (negb (fm_is_dir metadata) && negb (fm_is_file metadata)))
        (ConfigMessage "source input must be a regular file or directory"));
  canonical ← fs_canonicalize path;
  identity ← resource_identity canonical;
  mret (canonical, identity).

Definition resolve_contained (allowed path : string) : load (string * string) :=
  found ← canonical_resource path;
  _ ← lift (fail_if (negb (path_starts_with found.1 allowed))
        (ConfigMessage "source profile escapes its allowed root"));
  mret found.

Definition validate_input_types (kind : WebSourceKind.t) (resolved : list (string * string)) :
    load unit :=
  metadata ← io_try_map (λ found, fs_metadata found.1) resolved;
  let archives := forallb fm_is_file metadata
    && forallb (λ found, is_some_and (path_extension found.1) (λ e, eq_ignore_ascii_case e "zip"))
         resolved in
  if match kind with WebSourceKind.Folder => forallb fm_is_dir metadata | _ => false end
  then mret tt
  else if match metadata with [m] => fm_is_dir m | _ => false end then mret tt
  else lift (fail_if (negb archives)
         (ConfigMessage "import inputs must be one directory or ZIP files")).

(** [SourceProfile::from_raw] *)
Definition source_from_raw (raw : RawSourceProfile) : load SourceProfile :=
  _ ← lift (validate_id (rsp_raw_id raw));
  _ ← lift (validate_label (rsp_raw_label raw));
  _ ← lift (fail_if ((rsp_generation raw =? 0) || negb (is_absolute (rsp_allowed_root raw)))
        (ConfigMessage "source profile paths are invalid"));
  relative_inputs ← lift (select_inputs (rsp_kind raw) (rsp_relative_root raw)
                            (rsp_relative_inputs raw));
  settings ← lift (settings_from_raw (rsp_kind raw) (rsp_scan raw) (rsp_options raw)
                     (rsp_upload raw));
  _ ← lift (fail_if (maximum_inputs settings <? zlen relative_inputs)
        (ConfigMessage "source profile input count is invalid"));
  allowed ← canonical_directory (rsp_allowed_root raw);
  let configured_inputs := map (path_join (rsp_allowed_root raw)) relative_inputs in
  resolved ← io_try_map (resolve_contained allowed) configured_inputs;
  _ ← validate_input_types (rsp_kind raw) resolved;
  let canonical_inputs := map fst resolved in
  let identities := map snd resolved in
  _ ← lift (fail_if (negb (bool_decide (NoDup (map normal_components canonical_inputs))))
        (ConfigMessage "source profile inputs must be unique"));
  mret {|
    sp_id := rsp_raw_id raw; sp_label := rsp_raw_label raw;
    sp_configured_inputs := configured_inputs; sp_canonical_inputs := canonical_inputs;
    sp_identities := identities;
    sp_generation_sha256 := source_generation (rsp_generation raw) (rsp_raw_id raw)
      (rsp_raw_label raw) canonical_inputs identities settings;
    sp_settings := settings |}.

(** [SourceProfile::resolve] *)
Definition source_resolve (p : SourceProfile) : load ResolvedSourceProfile :=
  resolved ← io_try_map canonical_resource (sp_configured_inputs p);
  let canonical_inputs := map fst resolved in
  let identities := map snd resolved in
  _ ← lift (fail_if
        (negb (bool_decide (map normal_components canonical_inputs
                            = map normal_components (sp_canonical_inputs p)))
         || negb (bool_decide (identities = sp_identities p)))
        (ConfigMessage "source profile identity changed"));
  mret {| rsp_inputs := canonical_inputs; rsp_label := sp_label p;
    rsp_generation_sha256 := sp_generation_sha256 p; rsp_settings := sp_settings p |}.

(** [private_directory] *)
Definition private_directory (path : string) : load bool :=
  metadata ← fs_metadata path; mret (private_mode (fm_mode metadata)).

(** [StateProfile::from_raw] *)
Definition state_from_raw (raw : RawStateProfile) : load StateProfile :=
  _ ← lift (validate_id (rst_raw_id raw));
  _ ← lift (validate_label (rst_raw_label raw));
  _ ← lift (fail_if ((rst_generation raw =? 0) || negb (is_absolute (rst_allowed_root raw))
                     || negb (valid_relative_root (rst_relative_root raw)))
        (ConfigMessage "state profile paths are invalid"));
  allowed ← canonical_directory (rst_allowed_root raw);
  let configured_root := path_join (rst_allowed_root raw) (rst_relative_root raw) in
  canonical_root ← canonical_directory configured_root;
  private ← if path_starts_with canonical_root allowed then private_directory canonical_root
            else mret false;
  _ ← lift (fail_if (negb private) (ConfigMessage "state profile root is not private"));
  identity ← resource_identity canonical_root;
  mret {|
    stp_id := rst_raw_id raw; stp_label := rst_raw_label raw;
    stp_configured_root := configured_root; stp_canonical_root := canonical_root;
    stp_identity := identity;
    stp_generation_sha256 := state_generation (rst_generation raw) (rst_raw_id raw)
      (rst_raw_label raw) canonical_root identity |}.

(** [StateProfile::resolve]; the permissions are only looked at when the
    identity has not changed. *)
Definition state_resolve (p : StateProfile) : load ResolvedStateProfile :=
  canonical ← canonical_directory (stp_configured_root p);
  identity ← resource_identity canonical;
  same ← if path_eq canonical (stp_canonical_root p) && String.eqb identity (stp_identity p)
         then private_directory canonical else mret false;
  _ ← lift (fail_if (negb same) (ConfigMessage "state profile identity changed"));
  mret {| rst_root := canonical; rst_generation_sha256 := stp_generation_sha256 p |}.

(** [validate_sources] and [validate_states]: ids are unique. *)
Fixpoint unique_profiles {R P} (id_of : R → string) (from_raw : R → load P) (ids : list string)
    (raw : list R) : load (list P) :=
  match raw with
  | [] => mret []
  | r :: raw =>
    _ ← lift (fail_if (bool_decide (id_of r ∈ ids))
          (ConfigMessage "profile identifiers must be unique"));
    p ← from_raw r;
    ps ← unique_profiles id_of from_raw (id_of r :: ids) raw;
    mret (p :: ps)
  end.

Definition MAX_SOURCE_PROFILES : Z := 64.
Definition MAX_STATE_PROFILES : Z := 32.

Definition validate_sources (raw : list RawSourceProfile) : load (list SourceProfile) :=
  _ ← lift (fail_if ((zlen raw =? 0) || (MAX_SOURCE_PROFILES <? zlen raw))
        (ConfigMessage "source profile count is invalid"));
  unique_profiles rsp_raw_id source_from_raw [] raw.

Definition validate_states (raw : list RawStateProfile) : load (list StateProfile) :=
  _ ← lift (fail_if ((zlen raw =? 0) || (MAX_STATE_PROFILES <? zlen raw))
        (ConfigMessage "state profile count is invalid"));
  unique_profiles rst_raw_id state_from_raw [] raw.
End load.

(** ** The configuration the other components look profiles up in *)

Record WebConfig := {
  wc_limits : Limits.WebLimits;
  wc_sources : list SourceProfile;
  wc_servers : list ServerProfile;
  wc_states : list StateProfile;
  wc_history_state_id : string;
}.

(** [profiles.iter().find(|profile| profile.id() == id)] *)
Fixpoint find_profile {P} (id_of : P → string) (id : string) (l : list P) : option P :=
  match l with
  | [] => None
  | p :: l => if String.eqb (id_of p) id then Some p else find_profile id_of id l
  end.

Definition config_source (c : WebConfig) (id : string) : option SourceProfile :=
  find_profile sp_id id (wc_sources c).
Definition config_server (c : WebConfig) (id : string) : option ServerProfile :=
  find_profile svp_id id (wc_servers c).
Definition config_state (c : WebConfig) (id : string) : option StateProfile :=
  find_profile stp_id id (wc_states c).
Definition history_state (c : WebConfig) : result WebConfigError StateProfile :=
  ok_or (config_state c (wc_history_state_id c))
    (ConfigMessage "history state profile is unavailable").

Lemma find_profile_Some {P} (id_of : P → string) id l p :
  find_profile id_of id l = Some p → p ∈ l ∧ id_of p = id.
Proof.
  induction l as [|q l IH]; simpl; [done|].
  destruct (String.eqb_spec (id_of q) id); [intros [= ->]|intros Hf]; [split; [left|done]|].
  destruct (IH Hf). split; [by right|done].
Qed.

(** ** What a resolved profile may read *)
Section contained.
  Context {W : Type} `{ProfileFs W, Codec}.

Lemma io_try_map_Ok {A B} (f : A → io W WebConfigError B) l w ys w' :
  io_try_map f l w = (Ok ys, w') → Forall2 (λ x y, ∃ u u', f x u = (Ok y, u')) l ys.
Proof.
  revert w ys. induction l as [|x l IH]; intros w ys; cbn [io_try_map].
  - intros [= <- <-]. constructor.
  - intros (y & w1 & Hy & (ys' & w2 & Hys & [= <- <-])%io_bind_Ok)%io_bind_Ok.
    constructor; eauto.
Qed.

Lemma resolve_contained_Ok allowed path w found w' :
  resolve_contained allowed path w = (Ok found, w') → path_starts_with found.1 allowed = true.
Proof.
  unfold resolve_contained.
  intros (f & w1 & _ & (? & w2 & (Hc & <-)%lift_Ok & [= <- <-])%io_bind_Ok)%io_bind_Ok.
  apply fail_if_Ok in Hc. by apply negb_false_iff.
Qed.

Lemma path_starts_with_eq a b base :
  normal_components a = normal_components b → path_starts_with a base = path_starts_with b base.
Proof. unfold path_starts_with. by intros ->. Qed.

Lemma source_resolve_Ok p w r w' :
  source_resolve p w = (Ok r, w') →
  map normal_components (rsp_inputs r) = map normal_components (sp_canonical_inputs p)
  ∧ rsp_generation_sha256 r = sp_generation_sha256 p ∧ rsp_settings r = sp_settings p.
Proof.
  unfold source_resolve.
  intros (l & w1 & _ & (? & w2 & (Hc & <-)%lift_Ok & [= <- <-])%io_bind_Ok)%io_bind_Ok.
  apply fail_if_Ok in Hc. apply orb_false_iff in Hc as [Hc _].
  apply negb_false_iff, bool_decide_eq_true in Hc. done.
Qed.

(** C31: whatever a source profile resolves to later, at a moment when the file
    system may have changed, its inputs are below the allowed root as it was when
    the profile was configured, are pairwise distinct, and carry the configured
    generation and settings. *)
Theorem resolved_inputs_contained raw w p w' v r v' :
  source_from_raw raw w = (Ok p, w') → source_resolve p v = (Ok r, v') →
  ∃ allowed, (∃ u u', canonical_directory (rsp_allowed_root raw) u = (Ok allowed, u'))
    ∧ Forall (λ input, path_starts_with input allowed = true) (rsp_inputs r)
    ∧ NoDup (map normal_components (rsp_inputs r))
    ∧ rsp_generation_sha256 r = sp_generation_sha256 p
    ∧ rsp_settings r = sp_settings p ∧ executor_accepts (rsp_settings r).
Proof.
  intros Hraw (Hpaths & Hgen & Hset)%source_resolve_Ok. unfold source_from_raw in Hraw.
  repeat (apply io_bind_Ok in Hraw as (? & ? & ? & Hraw)); injection Hraw as <- <-.
  cbn [sp_canonical_inputs sp_generation_sha256 sp_settings] in *.
  repeat match goal with
  | H : lift _ _ = (Ok _, _) |- _ => apply lift_Ok in H as [H <-]
  end.
  match goal with H : canonical_directory _ _ = (Ok ?a, _) |- _ =>
    rename a into allowed; exists allowed; split; [by eauto|] end.
  rewrite Hgen, Hset, Hpaths. split_and!.
  - match goal with H : io_try_map _ _ _ = (Ok ?l, _) |- _ =>
      apply io_try_map_Ok in H; rename l into resolved; rename H into Hres end.
    assert (Forall (λ input, path_starts_with input allowed = true) (map fst resolved)) as Hin.
    { apply Forall_map. clear - Hres. induction Hres as [|a found l k (u & u' & Hf) _ IH]; constructor; [|done].
      by eapply resolve_contained_Ok. }
    clear - Hpaths Hin. revert Hpaths Hin. generalize (map fst resolved) as l.
    induction (rsp_inputs r) as [|i k IH]; intros [|j js] Heq Hin; try done; try discriminate Heq.
    injection Heq as Hi Heq. apply Forall_cons in Hin as [Hj Hin].
    constructor; [by rewrite (path_starts_with_eq _ _ _ Hi)|by eapply IH].
  - match goal with H : fail_if (negb (bool_decide (NoDup _))) _ = Ok _ |- _ =>
      apply fail_if_Ok, negb_false_iff, bool_decide_eq_true in H; exact H end.
  - done.
  - done.
  - match goal with H : settings_from_raw _ _ _ _ = Ok _ |- _ =>
      exact (proj1 (settings_accepted _ _ _ _ _ H)) end.
Qed.
End contained.

(** ** Witnesses *)
Section witnesses.

Definition no_scan : RawFolderScanConfig := {|
  rfs_buffer_bytes := None; rfs_max_entries := None; rfs_max_directory_entries := None;
  rfs_max_path_bytes := None; rfs_case_sensitive := None |}.
Definition no_options : RawImportOptions := {|
  rio_max_archives := Some 2; rio_max_archive_entry_bytes := None;
  rio_max_compression_ratio := None; rio_compression_ratio_grace_bytes := None;
  rio_album_mode := None; rio_album_path_joiner := None; rio_picasa_albums := None;
  rio_filename_date := None |}.
Definition no_upload : RawUploadConfig := {|
  ruc_verification_buffer_bytes := None; ruc_concurrency := Some 2;
  ruc_max_attempts_per_operation := None; ruc_max_retries_per_run := None;
  ruc_retry_base_delay_ms := None; ruc_retry_delay_cap_ms := None |}.

Definition takeout_sample : SourceSettings.t := Eval vm_compute in
  match settings_from_raw WebSourceKind.GoogleTakeout no_scan no_options no_upload with
  | Ok s => s | Err _ => SourceSettings.Folder default_scan end.

Lemma settings_executable_witness :
  settings_kind takeout_sample = WebSourceKind.GoogleTakeout ∧ executor_accepts takeout_sample
  ∧ folder_validate (settings_scan takeout_sample) = Ok tt.
Proof.
  apply (settings_executable WebSourceKind.GoogleTakeout no_scan no_options no_upload).
  vm_compute. reflexivity.
Defined.

#[local] Instance byte_codec : Codec := {|
  json_normalized_plan _ := Some ""; json_upload_plan _ := Some "";
  json_migration_plan _ := Some ""; json_configuration _ := Some "";
  sha256 x := x; sha1_base64 x := x |}.

Lemma takeout_sample_fits :
  generation_fits 1 "takeout" "My takeout" ["/data/a.zip"] ["0123456789abcdef0123456789abcdef"]
    takeout_sample.
Proof.
  split.
  - unfold is_u64, u64_max. lia.
  - unfold fits, u64_max, len. simpl. lia.
  - unfold fits, u64_max, len. simpl. lia.
  - unfold is_u64, u64_max, zlen. simpl. lia.
  - reflexivity.
  - constructor; [|constructor]. split; [|reflexivity]. unfold fits, u64_max, len. simpl. lia.
  - unfold takeout_sample. cbn [settings_fit tic_source tic_upload tsc_scan tsc_max_archives
      tsc_max_archive_entry_bytes tsc_max_compression_ratio tsc_compression_ratio_grace_bytes
      scan].
    unfold scan_fits, upload_fits, whole_millis, is_u64, is_u32.
    repeat split; try reflexivity; vm_compute; congruence.
Qed.

Lemma source_generation_binds_witness :
  (1, "takeout", "My takeout", ["/data/a.zip"], ["0123456789abcdef0123456789abcdef"], takeout_sample)
  = (1, "takeout", "My takeout", ["/data/a.zip"], ["0123456789abcdef0123456789abcdef"], takeout_sample)
  ∨ collides sha256
      (source_generation_bytes 1 "takeout" "My takeout" ["/data/a.zip"]
        ["0123456789abcdef0123456789abcdef"] takeout_sample)
      (source_generation_bytes 1 "takeout" "My takeout" ["/data/a.zip"]
        ["0123456789abcdef0123456789abcdef"] takeout_sample).
Proof.
  exact (source_generation_binds 1 "takeout" "My takeout" ["/data/a.zip"]
    ["0123456789abcdef0123456789abcdef"] takeout_sample 1 "takeout" "My takeout" ["/data/a.zip"]
    ["0123456789abcdef0123456789abcdef"] takeout_sample takeout_sample_fits takeout_sample_fits
    eq_refl).
Defined.

Lemma server_generation_ambiguous_witness :
  is_absolute "/keys/immich/ca.pem" = true
  ∧ server_generation 1 "home" "https://photos.example" "/keys" (Some "/immich/ca.pem")
      ServerMode.ProductionRead []
    = server_generation 1 "home" "https://photos.example" "/keys/immich/ca.pem" None
      ServerMode.ProductionRead []
  ∧ state_generation 1 "homehttps://photos.example" "l" "/r" "i"
    = state_generation 1 "home" "https://photos.examplel" "/r" "i".
Proof.
  exact (server_generation_ambiguous 1 "home" "https://photos.example" "/keys" "/immich/ca.pem"
    ServerMode.ProductionRead [] "l" "/r" "i" eq_refl eq_refl).
Defined.

(** 10.0.0.0/8 and 10.1.2.3 *)
Lemma address_range_exact_witness :
  range_contains (AddressRange.V4 (10 * 2 ^ 24) 8) (IpV4 (10 * 2 ^ 24 + 66051)) = true
  ↔ in_network (IpV4 (10 * 2 ^ 24 + 255)) 8 (IpV4 (10 * 2 ^ 24 + 66051)).
Proof.
  apply (address_range_exact (IpV4 (10 * 2 ^ 24 + 255)) 8); [lia|vm_compute; reflexivity].
Defined.

(** A file system of directories only. *)
#[local] Instance dirs_fs : ProfileFs unit := {|
  fs_symlink_metadata _ w := (Ok {| fm_is_dir := true; fm_is_file := false;
    fm_is_symlink := false; fm_mode := 448 |}, w);
  fs_metadata _ w := (Ok {| fm_is_dir := true; fm_is_file := false;
    fm_is_symlink := false; fm_mode := 448 |}, w);
  fs_canonicalize path w := (Ok path, w);
  resource_identity path w := (Ok path, w) |}.

Definition folder_raw : RawSourceProfile := {|
  rsp_raw_id := "photos"; rsp_raw_label := "Photos"; rsp_allowed_root := "/data";
  rsp_relative_root := Some "photos"; rsp_relative_inputs := []; rsp_generation := 1;
  rsp_kind := WebSourceKind.Folder; rsp_scan := no_scan;
  rsp_options := {| rio_max_archives := None; rio_max_archive_entry_bytes := None;
    rio_max_compression_ratio := None; rio_compression_ratio_grace_bytes := None;
    rio_album_mode := None; rio_album_path_joiner := None; rio_picasa_albums := None;
    rio_filename_date := None |};
  rsp_upload := {| ruc_verification_buffer_bytes := None; ruc_concurrency := None;
    ruc_max_attempts_per_operation := None; ruc_max_retries_per_run := None;
    ruc_retry_base_delay_ms := None; ruc_retry_delay_cap_ms := None |} |}.

Definition folder_profile : SourceProfile :=
  match source_from_raw folder_raw tt with (Ok p, _) => p | _ =>
    {| sp_id := ""; sp_label := ""; sp_configured_inputs := []; sp_canonical_inputs := [];
       sp_identities := []; sp_generation_sha256 := "";
       sp_settings := SourceSettings.Folder default_scan |} end.
Definition folder_resolved : ResolvedSourceProfile := {|
  rsp_inputs := sp_canonical_inputs folder_profile; rsp_label := sp_label folder_profile;
  rsp_generation_sha256 := sp_generation_sha256 folder_profile;
  rsp_settings := sp_settings folder_profile |}.

Lemma resolved_inputs_contained_witness :
  ∃ allowed, (∃ u u', canonical_directory "/data" u = (Ok allowed, u'))
    ∧ Forall (λ input, path_starts_with input allowed = true) (rsp_inputs folder_resolved)
    ∧ NoDup (map normal_components (rsp_inputs folder_resolved))
    ∧ rsp_generation_sha256 folder_resolved = sp_generation_sha256 folder_profile
    ∧ rsp_settings folder_resolved = sp_settings folder_profile
    ∧ executor_accepts (rsp_settings folder_resolved).
Proof.
  apply (resolved_inputs_contained folder_raw tt folder_profile tt tt folder_resolved tt);
    vm_compute; reflexivity.
Defined.
End witnesses.
