(* ===== verification/Console.v ===== *)
(** * Console: the values the web console passes between its components
    ([crates/immich-web/src/state_store/types.rs], [jobs/types.rs], the helpers of
    [jobs/source.rs]; [crates/immich-core/src/production.rs];
    the admission part of [crates/immich-application/src/upload_apply.rs])

    References, receipts and bindings, terminal records, job kinds, snapshots and
    events, and the prepared apply a grant carries. *)
From Stdlib Require Import Ascii.
From S2P Require Export Prelude Text Upload Client Executor Limits Profiles Scan.

(** ** References: 16 random bytes *)

Definition ArtifactRef := string.
Definition ReceiptRef := string.

Record DryRunBinding := {
  drb_plan_reference : ArtifactRef;
  drb_plan_sha256 : string;
  drb_source_configuration_sha256 : string;
  drb_server_identity_sha256 : string;
  drb_server_profile_sha256 : string;
  drb_credential_generation : Z;
  drb_max_logical_effects : Z;
  drb_completed_unix : Z;
}.
#[export] Instance DryRunBinding_eq_dec : EqDecision DryRunBinding.
Proof. solve_decision. Defined.

Record DryRunReceipt := { drr_reference : ReceiptRef; drr_binding : DryRunBinding }.

Record PlanBinding := {
  pb_schema_version : Z;
  pb_plan_sha256 : string;
  pb_source_profile_id : string;
  pb_source_profile_sha256 : string;
  pb_server_profile_id : string;
  pb_server_profile_sha256 : string;
  pb_credential_generation : Z;
  pb_server_identity_sha256 : string;
  pb_max_logical_effects : Z;
}.

Record PlanArtifact := {
  pa_reference : ArtifactRef;
  pa_schema_version : Z;
  pa_plan_sha256 : string;
  pa_max_logical_effects : Z;
}.

Record StoredUploadPlan := {
  sup_reference : ArtifactRef;
  sup_plan : UploadPlan;
  sup_binding : PlanBinding;
}.

(** ** History *)

Module HistoryKind.
Inductive t :=
  | FolderScan | FolderPlan | GoogleTakeoutPlan | ApplePhotosPlan | PicasaPlan
  | FolderDryRun | GoogleTakeoutDryRun | ApplePhotosDryRun | PicasaDryRun
  | FolderApply | GoogleTakeoutApply | ApplePhotosApply | PicasaApply.
#[global] Instance t_eq_dec : EqDecision t.
Proof. solve_decision. Defined.
End HistoryKind.

(** [kind as i64] and [TryFrom<i64>] *)
Definition history_kind_code (k : HistoryKind.t) : Z :=
  match k with
  | HistoryKind.FolderScan => 1 | HistoryKind.FolderPlan => 2
  | HistoryKind.GoogleTakeoutPlan => 3 | HistoryKind.ApplePhotosPlan => 4
  | HistoryKind.PicasaPlan => 5 | HistoryKind.FolderDryRun => 6
  | HistoryKind.GoogleTakeoutDryRun => 7 | HistoryKind.ApplePhotosDryRun => 8
  | HistoryKind.PicasaDryRun => 9 | HistoryKind.FolderApply => 10
  | HistoryKind.GoogleTakeoutApply => 11 | HistoryKind.ApplePhotosApply => 12
  | HistoryKind.PicasaApply => 13
  end.
Definition history_kind_try_from (value : Z) : option HistoryKind.t :=
  match value with
  | 1 => Some HistoryKind.FolderScan | 2 => Some HistoryKind.FolderPlan
  | 3 => Some HistoryKind.GoogleTakeoutPlan | 4 => Some HistoryKind.ApplePhotosPlan
  | 5 => Some HistoryKind.PicasaPlan | 6 => Some HistoryKind.FolderDryRun
  | 7 => Some HistoryKind.GoogleTakeoutDryRun | 8 => Some HistoryKind.ApplePhotosDryRun
  | 9 => Some HistoryKind.PicasaDryRun | 10 => Some HistoryKind.FolderApply
  | 11 => Some HistoryKind.GoogleTakeoutApply | 12 => Some HistoryKind.ApplePhotosApply
  | 13 => Some HistoryKind.PicasaApply
  | _ => None
  end.

Module TerminalStatus.
Inductive t := Completed | Failed | Cancelled.
#[global] Instance t_eq_dec : EqDecision t.
Proof. solve_decision. Defined.
End TerminalStatus.

Definition terminal_status_code (s : TerminalStatus.t) : Z :=
  match s with
  | TerminalStatus.Completed => 1 | TerminalStatus.Failed => 2 | TerminalStatus.Cancelled => 3
  end.
Definition terminal_status_try_from (value : Z) : option TerminalStatus.t :=
  match value with
  | 1 => Some TerminalStatus.Completed | 2 => Some TerminalStatus.Failed
  | 3 => Some TerminalStatus.Cancelled | _ => None
  end.

Lemma history_kind_roundtrip k : history_kind_try_from (history_kind_code k) = Some k.
Proof. by destruct k. Qed.
Lemma terminal_status_roundtrip s : terminal_status_try_from (terminal_status_code s) = Some s.
Proof. by destruct s. Qed.

Record SafeCounters := {
  sc_assets : Z;
  sc_sidecars : Z;
  sc_bytes_read : Z;
  sc_warnings : Z;
  sc_errors : Z;
  sc_max_logical_effects : Z;
}.
Definition no_counters : SafeCounters := {|
  sc_assets := 0; sc_sidecars := 0; sc_bytes_read := 0; sc_warnings := 0; sc_errors := 0;
  sc_max_logical_effects := 0 |}.

Record TerminalRecord := {
  tr_recorded_unix : Z;
  tr_kind : HistoryKind.t;
  tr_status : TerminalStatus.t;
  tr_plan : option (ArtifactRef * Z);
  tr_counters : SafeCounters;
}.

(** [scan_history], [plan_history], [dry_run_history] and [apply_history] *)
Definition scan_history (k : WebSourceKind.t) : HistoryKind.t :=
  match k with
  | WebSourceKind.Folder => HistoryKind.FolderScan
  | WebSourceKind.GoogleTakeout => HistoryKind.GoogleTakeoutPlan
  | WebSourceKind.ApplePhotos => HistoryKind.ApplePhotosPlan
  | WebSourceKind.Picasa => HistoryKind.PicasaPlan
  end.
Definition plan_history (k : WebSourceKind.t) : HistoryKind.t :=
  match k with
  | WebSourceKind.Folder => HistoryKind.FolderPlan
  | WebSourceKind.GoogleTakeout => HistoryKind.GoogleTakeoutPlan
  | WebSourceKind.ApplePhotos => HistoryKind.ApplePhotosPlan
  | WebSourceKind.Picasa => HistoryKind.PicasaPlan
  end.
Definition dry_run_history (k : WebSourceKind.t) : HistoryKind.t :=
  match k with
  | WebSourceKind.Folder => HistoryKind.FolderDryRun
  | WebSourceKind.GoogleTakeout => HistoryKind.GoogleTakeoutDryRun
  | WebSourceKind.ApplePhotos => HistoryKind.ApplePhotosDryRun
  | WebSourceKind.Picasa => HistoryKind.PicasaDryRun
  end.
Definition apply_history (k : WebSourceKind.t) : HistoryKind.t :=
  match k with
  | WebSourceKind.Folder => HistoryKind.FolderApply
  | WebSourceKind.GoogleTakeout => HistoryKind.GoogleTakeoutApply
  | WebSourceKind.ApplePhotos => HistoryKind.ApplePhotosApply
  | WebSourceKind.Picasa => HistoryKind.PicasaApply
  end.

(** ** Jobs *)

Module JobStatus.
Inductive t := Queued | Running | Completed | Failed | Cancelled.
#[global] Instance t_eq_dec : EqDecision t.
Proof. solve_decision. Defined.
End JobStatus.

(** [JobStatus::terminal] *)
Definition terminal (s : JobStatus.t) : bool :=
  match s with
  | JobStatus.Completed | JobStatus.Failed | JobStatus.Cancelled => true
  | JobStatus.Queued | JobStatus.Running => false
  end.

Record JobProgress := {
  jp_sequence : Z;
  jp_stage : option ProgressStage;
  jp_assets_observed : Z;
  jp_bytes_read : Z;
}.
Definition no_progress : JobProgress :=
  {| jp_sequence := 0; jp_stage := None; jp_assets_observed := 0; jp_bytes_read := 0 |}.

Record JobSummary := {
  js_schema_version : Z;
  js_assets : Z;
  js_sidecars : Z;
  js_bytes_read : Z;
  js_warnings : Z;
  js_errors : Z;
}.

Record JobSnapshot := {
  jn_id : string;
  jn_source_label : string;
  jn_status : JobStatus.t;
  jn_cancellation_requested : bool;
  jn_progress : JobProgress;
  jn_summary : option JobSummary;
  jn_artifact : option PlanArtifact;
  jn_receipt : option ReceiptRef;
}.

Record JobEvent := {
  je_sequence : Z;
  je_status : JobStatus.t;
  je_cancellation_requested : bool;
  je_progress : JobProgress;
  je_summary : option JobSummary;
}.

Module AdmissionError.
Inductive t := Full | UnknownProfile | Unavailable.
#[global] Instance t_eq_dec : EqDecision t.
Proof. solve_decision. Defined.
End AdmissionError.

Module JobKind.
Inductive t :=
  | Scan (history : HistoryKind.t)
  | Plan (server_id : string) (history : HistoryKind.t)
  | DryRun (reference : ArtifactRef) (history : HistoryKind.t)
  | Apply (reference : ArtifactRef) (history : HistoryKind.t).
End JobKind.

(** [JobKind::history_kind] *)
Definition history_kind (k : JobKind.t) : HistoryKind.t :=
  match k with
  | JobKind.Scan h | JobKind.Plan _ h | JobKind.DryRun _ h | JobKind.Apply _ h => h
  end.

(** The plan an apply job runs; [cancel] and [finish] look it up like this. *)
Definition apply_reference (k : JobKind.t) : option ArtifactRef :=
  match k with JobKind.Apply reference _ => Some reference | _ => None end.

(** ** Production confirmations *)

Definition MAX_BACKUP_REFERENCE_BYTES : Z := 256.

Record ProductionWriteConfirmation := {
  pwc_plan_sha256 : string;
  pwc_expected_operations : Z;
  pwc_backup_reference : string;
}.

Module ProductionConfirmationError.
Inductive t := NotAcknowledged | InvalidPlanDigest | InvalidOperationCount | InvalidBackupReference.
End ProductionConfirmationError.

Definition is_lower_sha256 (value : string) : bool :=
  (len value =? 64) && forallb is_lower_hex_byte (bytes value).

(** The bounds on a backup reference, which [grants.rs] checks as well. *)
Definition backup_reference_valid (maximum : Z) (reference : string) : bool :=
  negb (is_empty reference || (maximum <? len reference) || negb (is_trimmed reference)
        || has_control reference).

(** [ProductionWriteConfirmation::new] *)
Definition confirmation_new (acknowledged : bool) (plan_sha256 : string)
    (expected_operations : Z) (backup_reference : string) :
    result ProductionConfirmationError.t ProductionWriteConfirmation :=
  _ ← fail_if (negb acknowledged) ProductionConfirmationError.NotAcknowledged;
  _ ← fail_if (negb (is_lower_sha256 plan_sha256)) ProductionConfirmationError.InvalidPlanDigest;
  _ ← fail_if (expected_operations =? 0) ProductionConfirmationError.InvalidOperationCount;
  _ ← fail_if (negb (backup_reference_valid MAX_BACKUP_REFERENCE_BYTES backup_reference))
        ProductionConfirmationError.InvalidBackupReference;
  Ok {| pwc_plan_sha256 := plan_sha256; pwc_expected_operations := expected_operations;
        pwc_backup_reference := backup_reference |}.

Record ProductionWriteRequest := {
  pwr_plan_sha256 : string;
  pwr_expected_operations : Z;
  pwr_backup_reference : string;
}.

Record PreparedUploadApply := {
  pre_plan : UploadPlan;
  pre_production : option ProductionWriteConfirmation;
}.

(** [PreparedUploadApply::is_production] *)
Definition is_production (p : PreparedUploadApply) : bool := is_some (pre_production p).

(** [ApplicationError::InvalidRequest] *)
Inductive ApplicationError := InvalidRequest (message : string).

Section prepare.
  Context `{TimeLib, Codec}.

Definition validate_production_confirmation (request : option ProductionWriteRequest)
    (plan : UploadPlan) : result ApplicationError (option ProductionWriteConfirmation) :=
  match request with
  | None => Ok None
  | Some r =>
    value ← map_err (λ _, InvalidRequest "invalid production confirmation")
      (confirmation_new true (pwr_plan_sha256 r) (pwr_expected_operations r)
         (pwr_backup_reference r));
    digest ← map_err (λ _, InvalidRequest "invalid production upload plan")
      (upload_plan_sha256 plan);
    let expected :=
      if up_schema_version plan =? UPLOAD_PLAN_SCHEMA_VERSION_V2
      then ups_max_mutations (up_summary plan) else ups_operations (up_summary plan) in
    let matches := String.eqb (pwc_plan_sha256 value) digest
      && (pwc_expected_operations value =? expected)
      && (negb (up_schema_version plan =? UPLOAD_PLAN_SCHEMA_VERSION)
          || (pwc_expected_operations value =? zlen (up_operations plan))) in
    if matches then Ok (Some value)
    else Err (InvalidRequest "production confirmation does not match upload plan")
  end.

Definition prepare_upload_apply (plan : UploadPlan) (production : option ProductionWriteRequest) :
    result ApplicationError PreparedUploadApply :=
  _ ← fail_if (negb ((up_schema_version plan =? UPLOAD_PLAN_SCHEMA_VERSION)
                     || (up_schema_version plan =? UPLOAD_PLAN_SCHEMA_VERSION_V2)))
        (InvalidRequest "apply upload does not support this plan schema");
  confirmation ← validate_production_confirmation production plan;
  Ok {| pre_plan := plan; pre_production := confirmation |}.
End prepare.

(** ** Grants *)

Record GrantBinding := {
  gb_owner : string;
  gb_receipt : ReceiptRef;
  gb_dry_run : DryRunBinding;
  gb_source_profile_id : string;
  gb_server_profile_id : string;
  gb_backup_reference_sha256 : option string;
}.

Record ApplyCapability := { cap_prepared : PreparedUploadApply; cap_binding : GrantBinding }.
