(* ===== verification/Jobs.v ===== *)
(** * Jobs: the job manager of the web console
    ([crates/immich-web/src/jobs.rs], [jobs/apply_admission.rs],
    [jobs/subscription.rs], [jobs/metrics.rs], [jobs/progress.rs] and the parts of
    [jobs/worker.rs] that touch the shared state)

    One mutex guards [JobsState]; every operation below is one critical section,
    so a run of the console is a sequence of them ([JobsFacts]).  What a critical
    section takes from outside is an argument: fresh random ids, whether a thread
    has ended or could be spawned, the clock.  A worker's wait for its turn is a
    loop around a condition variable: [begin] is one round of it. *)
From S2P Require Export Prelude Text Limits Profiles Console.

(** ** State *)

(** [event_sender] is the sending half of a broadcast channel; what it is here is
    the sequence of values given to [send]. *)
Record StoredJob := {
  sj_id : string;
  sj_owner : string;
  sj_source_id : string;
  sj_source_label : string;
  sj_kind : JobKind.t;
  sj_status : JobStatus.t;
  sj_cancellation_requested : bool;
  sj_cancellation : bool;
  sj_progress : JobProgress;
  sj_summary : option JobSummary;
  sj_artifact : option PlanArtifact;
  sj_receipt : option ReceiptRef;
  sj_events : list JobEvent;
  sj_event_sender : list JobEvent;
  sj_next_event_sequence : Z;
}.

(** The thread of a worker, named by the job it was spawned for. *)
Record OwnedWorker := { worker_id : string }.

Record JobsState := {
  jobs : gmap string StoredJob;
  order : list string;
  handles : list OwnedWorker;
  running : Z;
  queued : Z;
  shutting_down : bool;
  worker_failed : bool;
  subscribers : Z;
  subscribers_by_owner : gmap string Z;
  apply_capabilities : gmap string ApplyCapability;
  active_checkpoints : gset ArtifactRef;
}.

Definition set_jobs f (s : JobsState) : JobsState := {|
  jobs := f (jobs s); order := order s; handles := handles s; running := running s;
  queued := queued s; shutting_down := shutting_down s; worker_failed := worker_failed s;
  subscribers := subscribers s; subscribers_by_owner := subscribers_by_owner s;
  apply_capabilities := apply_capabilities s; active_checkpoints := active_checkpoints s |}.
Definition set_order f (s : JobsState) : JobsState := {|
  jobs := jobs s; order := f (order s); handles := handles s; running := running s;
  queued := queued s; shutting_down := shutting_down s; worker_failed := worker_failed s;
  subscribers := subscribers s; subscribers_by_owner := subscribers_by_owner s;
  apply_capabilities := apply_capabilities s; active_checkpoints := active_checkpoints s |}.
Definition set_handles f (s : JobsState) : JobsState := {|
  jobs := jobs s; order := order s; handles := f (handles s); running := running s;
  queued := queued s; shutting_down := shutting_down s; worker_failed := worker_failed s;
  subscribers := subscribers s; subscribers_by_owner := subscribers_by_owner s;
  apply_capabilities := apply_capabilities s; active_checkpoints := active_checkpoints s |}.
Definition set_running f (s : JobsState) : JobsState := {|
  jobs := jobs s; order := order s; handles := handles s; running := f (running s);
  queued := queued s; shutting_down := shutting_down s; worker_failed := worker_failed s;
  subscribers := subscribers s; subscribers_by_owner := subscribers_by_owner s;
  apply_capabilities := apply_capabilities s; active_checkpoints := active_checkpoints s |}.
Definition set_queued f (s : JobsState) : JobsState := {|
  jobs := jobs s; order := order s; handles := handles s; running := running s;
  queued := f (queued s); shutting_down := shutting_down s; worker_failed := worker_failed s;
  subscribers := subscribers s; subscribers_by_owner := subscribers_by_owner s;
  apply_capabilities := apply_capabilities s; active_checkpoints := active_checkpoints s |}.
Definition set_shutting_down b (s : JobsState) : JobsState := {|
  jobs := jobs s; order := order s; handles := handles s; running := running s;
  queued := queued s; shutting_down := b; worker_failed := worker_failed s;
  subscribers := subscribers s; subscribers_by_owner := subscribers_by_owner s;
  apply_capabilities := apply_capabilities s; active_checkpoints := active_checkpoints s |}.
Definition set_worker_failed b (s : JobsState) : JobsState := {|
  jobs := jobs s; order := order s; handles := handles s; running := running s;
  queued := queued s; shutting_down := shutting_down s; worker_failed := b;
  subscribers := subscribers s; subscribers_by_owner := subscribers_by_owner s;
  apply_capabilities := apply_capabilities s; active_checkpoints := active_checkpoints s |}.
Definition set_subscribers n m (s : JobsState) : JobsState := {|
  jobs := jobs s; order := order s; handles := handles s; running := running s;
  queued := queued s; shutting_down := shutting_down s; worker_failed := worker_failed s;
  subscribers := n; subscribers_by_owner := m;
  apply_capabilities := apply_capabilities s; active_checkpoints := active_checkpoints s |}.
Definition set_capabilities f (s : JobsState) : JobsState := {|
  jobs := jobs s; order := order s; handles := handles s; running := running s;
  queued := queued s; shutting_down := shutting_down s; worker_failed := worker_failed s;
  subscribers := subscribers s; subscribers_by_owner := subscribers_by_owner s;
  apply_capabilities := f (apply_capabilities s); active_checkpoints := active_checkpoints s |}.
Definition set_checkpoints f (s : JobsState) : JobsState := {|
  jobs := jobs s; order := order s; handles := handles s; running := running s;
  queued := queued s; shutting_down := shutting_down s; worker_failed := worker_failed s;
  subscribers := subscribers s; subscribers_by_owner := subscribers_by_owner s;
  apply_capabilities := apply_capabilities s; active_checkpoints := f (active_checkpoints s) |}.

(** [JobManager::new] *)
Definition new_state : JobsState := {|
  jobs := ∅; order := []; handles := []; running := 0; queued := 0; shutting_down := false;
  worker_failed := false; subscribers := 0; subscribers_by_owner := ∅;
  apply_capabilities := ∅; active_checkpoints := ∅ |}.

(** ** Jobs and their events *)

(** [StoredJob::new] *)
Definition new_job (id owner source_id source_label : string) (kind : JobKind.t) : StoredJob := {|
  sj_id := id; sj_owner := owner; sj_source_id := source_id; sj_source_label := source_label;
  sj_kind := kind; sj_status := JobStatus.Queued; sj_cancellation_requested := false;
  sj_cancellation := false; sj_progress := no_progress; sj_summary := None; sj_artifact := None;
  sj_receipt := None; sj_events := []; sj_event_sender := []; sj_next_event_sequence := 0 |}.

(** The fields a critical section assigns before [push_event]. *)
Definition set_job (j : StoredJob) (status : JobStatus.t) (requested token : bool)
    (progress : JobProgress) (summary : option JobSummary) (artifact : option PlanArtifact)
    (receipt : option ReceiptRef) : StoredJob := {|
  sj_id := sj_id j; sj_owner := sj_owner j; sj_source_id := sj_source_id j;
  sj_source_label := sj_source_label j; sj_kind := sj_kind j; sj_status := status;
  sj_cancellation_requested := requested; sj_cancellation := token; sj_progress := progress;
  sj_summary := summary; sj_artifact := artifact; sj_receipt := receipt;
  sj_events := sj_events j; sj_event_sender := sj_event_sender j;
  sj_next_event_sequence := sj_next_event_sequence j |}.
Definition set_status (status : JobStatus.t) (j : StoredJob) : StoredJob :=
  set_job j status (sj_cancellation_requested j) (sj_cancellation j) (sj_progress j)
    (sj_summary j) (sj_artifact j) (sj_receipt j).
(** [job.cancellation_requested = true; job.cancellation.cancel();] *)
Definition request_cancellation (j : StoredJob) : StoredJob :=
  set_job j (sj_status j) true true (sj_progress j) (sj_summary j) (sj_artifact j) (sj_receipt j).
Definition set_progress (progress : JobProgress) (j : StoredJob) : StoredJob :=
  set_job j (sj_status j) (sj_cancellation_requested j) (sj_cancellation j) progress
    (sj_summary j) (sj_artifact j) (sj_receipt j).
Definition set_completed (summary : JobSummary) (artifact : option PlanArtifact)
    (receipt : option ReceiptRef) (j : StoredJob) : StoredJob :=
  set_job j JobStatus.Completed (sj_cancellation_requested j) (sj_cancellation j) (sj_progress j)
    (Some summary) artifact receipt.

Definition event_of (j : StoredJob) : JobEvent := {|
  je_sequence := sat_add (sj_next_event_sequence j) 1; je_status := sj_status j;
  je_cancellation_requested := sj_cancellation_requested j; je_progress := sj_progress j;
  je_summary := sj_summary j |}.

Definition push_event (replay_limit : Z) (j : StoredJob) : StoredJob :=
  let event := event_of j in
  let events := if zlen (sj_events j) =? replay_limit then tail (sj_events j) else sj_events j in
  {| sj_id := sj_id j; sj_owner := sj_owner j; sj_source_id := sj_source_id j;
     sj_source_label := sj_source_label j; sj_kind := sj_kind j; sj_status := sj_status j;
     sj_cancellation_requested := sj_cancellation_requested j;
     sj_cancellation := sj_cancellation j; sj_progress := sj_progress j;
     sj_summary := sj_summary j; sj_artifact := sj_artifact j; sj_receipt := sj_receipt j;
     sj_events := events ++ [event]; sj_event_sender := sj_event_sender j ++ [event];
     sj_next_event_sequence := je_sequence event |}.

Definition snapshot_job (j : StoredJob) : JobSnapshot := {|
  jn_id := sj_id j; jn_source_label := sj_source_label j; jn_status := sj_status j;
  jn_cancellation_requested := sj_cancellation_requested j; jn_progress := sj_progress j;
  jn_summary := sj_summary j; jn_artifact := sj_artifact j; jn_receipt := sj_receipt j |}.

(** [job.status == status] *)
Definition has_status (status : JobStatus.t) (j : StoredJob) : bool :=
  bool_decide (sj_status j = status).

(** [jobs.get(id).filter(|job| &job.owner == owner)] *)
Definition owned_job (id owner : string) (s : JobsState) : option StoredJob :=
  match jobs s !! id with
  | Some j => if String.eqb (sj_owner j) owner then Some j else None
  | None => None
  end.

(** ** Housekeeping *)

(** [handles.swap_remove(position)] of a position in range *)
Definition swap_remove {A} (position : nat) (l : list A) : list A :=
  match last l with
  | Some x => take (Nat.pred (length l)) (<[position := x]> l)
  | None => l
  end.

(** [ended worker] is [None] while the thread runs, and says whether it panicked
    once it has ended ([is_finished] and [join]).  Each round either drops a
    handle or moves on, so [length handles - position] rounds are enough. *)
Fixpoint reap_from (ended : OwnedWorker → option bool) (fuel position : nat) (s : JobsState) :
    JobsState :=
  match fuel with
  | O => s
  | S fuel =>
    match handles s !! position with
    | None => s
    | Some worker =>
      match ended worker with
      | Some panicked =>
        let s := set_handles (swap_remove position) s in
        reap_from ended fuel position (if panicked then set_worker_failed true s else s)
      | None => reap_from ended fuel (S position) s
      end
    end
  end.
Definition reap_workers (ended : OwnedWorker → option bool) (s : JobsState) : JobsState :=
  reap_from ended (length (handles s)) 0 s.

Definition is_terminal_job (s : JobsState) (id : string) : bool :=
  is_some_and (jobs s !! id) (λ job, terminal (sj_status job)).

(** [order.iter().position(p)] with the id found *)
Fixpoint find_id (p : string → bool) (l : list string) : option string :=
  match l with
  | [] => None
  | id :: l => if p id then Some id else find_id p l
  end.
(** [order.remove(position)] of the first such id *)
Fixpoint remove_first (p : string → bool) (l : list string) : list string :=
  match l with
  | [] => []
  | id :: l => if p id then l else id :: remove_first p l
  end.

(** Each round shortens [order]. *)
Fixpoint evict_loop (fuel : nat) (retained : Z) (s : JobsState) : JobsState :=
  match fuel with
  | O => s
  | S fuel =>
    if retained <=? Z.of_nat (size (jobs s)) then
      match find_id (is_terminal_job s) (order s) with
      | None => s
      | Some id =>
        evict_loop fuel retained
          (set_jobs (delete id) (set_order (remove_first (is_terminal_job s)) s))
      end
    else s
  end.
Definition evict_terminal (retained : Z) (s : JobsState) : JobsState :=
  evict_loop (length (order s)) retained s.

(** ** Admission *)

(** What an admission takes from outside: the random job id, whether worker
    threads have ended, and whether a thread could be spawned. *)
Record Admission := {
  adm_random_id : result unit string;
  adm_ended : OwnedWorker → option bool;
  adm_spawned : bool;
}.

Definition worker_limit (l : WebLimits) : Z := sat_add (concurrent_jobs l) (queued_jobs l).

(** The guards both admissions share after reaping and evicting; [extra] is the
    guard of [admit_apply] on the plan's checkpoint. *)
Definition admission_full (l : WebLimits) (id : string) (extra : bool) (s : JobsState) : bool :=
  extra || is_some (jobs s !! id)
  || (worker_limit l <=? sat_add (running s) (queued s))
  || (worker_limit l <=? zlen (handles s))
  || (retained_jobs l <=? Z.of_nat (size (jobs s))).

(** [jobs.insert], [order.push_back], [queued += 1] *)
Definition enqueue (l : WebLimits) (job : StoredJob) (s : JobsState) : JobsState :=
  set_queued (λ n, sat_add n 1)
    (set_order (λ o, o ++ [sj_id job])
      (set_jobs (<[sj_id job := push_event (sse_replay_events l) job]>) s)).

(** The same undone when no thread could be spawned. *)
Definition dequeue (id : string) (s : JobsState) : JobsState :=
  set_queued (λ n, sat_sub n 1)
    (set_order (List.filter (λ candidate, negb (String.eqb candidate id)))
      (set_jobs (delete id) s)).

(** [JobManager::admit_kind] *)
Definition admit_kind (config : WebConfig) (a : Admission) (owner source_id : string)
    (kind : JobKind.t) (s : JobsState) : result AdmissionError.t string * JobsState :=
  let l := wc_limits config in
  match config_source config source_id, adm_random_id a with
  | None, _ => (Err AdmissionError.UnknownProfile, s)
  | Some _, Err _ => (Err AdmissionError.Unavailable, s)
  | Some profile, Ok id =>
    let s := evict_terminal (retained_jobs l) (reap_workers (adm_ended a) s) in
    if shutting_down s || worker_failed s then (Err AdmissionError.Unavailable, s)
    else if admission_full l id false s then (Err AdmissionError.Full, s)
    else
      let s := enqueue l (new_job id owner source_id (sp_label profile) kind) s in
      if adm_spawned a then (Ok id, set_handles (λ h, h ++ [{| worker_id := id |}]) s)
      else (Err AdmissionError.Unavailable, dequeue id s)
  end.

(** [JobManager::admit] *)
Definition admit_scan (config : WebConfig) (a : Admission) (owner source_id : string) (s : JobsState) :
    result AdmissionError.t string * JobsState :=
  match config_source config source_id with
  | None => (Err AdmissionError.UnknownProfile, s)
  | Some profile => admit_kind config a owner source_id (JobKind.Scan (scan_history (sp_kind profile))) s
  end.

(** [JobManager::admit_plan] *)
Definition admit_plan (config : WebConfig) (a : Admission) (owner source_id server_id : string)
    (s : JobsState) : result AdmissionError.t string * JobsState :=
  match config_server config server_id, config_source config source_id with
  | None, _ | _, None => (Err AdmissionError.UnknownProfile, s)
  | Some _, Some profile =>
    admit_kind config a owner source_id
      (JobKind.Plan server_id (plan_history (sp_kind profile))) s
  end.

(** [JobManager::admit_dry_run]; [stored] is what the plan store loads for the
    reference. *)
Definition admit_dry_run (config : WebConfig) (a : Admission) (owner : string)
    (reference : ArtifactRef) (stored : result unit StoredUploadPlan) (s : JobsState) :
    result AdmissionError.t string * JobsState :=
  match stored with
  | Err _ => (Err AdmissionError.UnknownProfile, s)
  | Ok stored =>
    let binding := sup_binding stored in
    match config_server config (pb_server_profile_id binding),
          config_source config (pb_source_profile_id binding) with
    | None, _ | _, None => (Err AdmissionError.UnknownProfile, s)
    | Some _, Some profile =>
      admit_kind config a owner (pb_source_profile_id binding)
        (JobKind.DryRun reference (dry_run_history (sp_kind profile))) s
    end
  end.

(** [JobManager::admit_apply] *)
Definition admit_apply (config : WebConfig) (a : Admission) (capability : ApplyCapability)
    (s : JobsState) : result AdmissionError.t string * JobsState :=
  let l := wc_limits config in
  let owner := gb_owner (cap_binding capability) in
  let source_id := gb_source_profile_id (cap_binding capability) in
  let reference := drb_plan_reference (gb_dry_run (cap_binding capability)) in
  match config_source config source_id, adm_random_id a with
  | None, _ => (Err AdmissionError.UnknownProfile, s)
  | Some _, Err _ => (Err AdmissionError.Unavailable, s)
  | Some profile, Ok id =>
    let s := evict_terminal (retained_jobs l) (reap_workers (adm_ended a) s) in
    if shutting_down s || worker_failed s then (Err AdmissionError.Unavailable, s)
    else if admission_full l id (bool_decide (reference ∈ active_checkpoints s)) s
    then (Err AdmissionError.Full, s)
    else
      let kind := JobKind.Apply reference (apply_history (sp_kind profile)) in
      let s := enqueue l (new_job id owner source_id (sp_label profile) kind) s in
      let s := set_checkpoints (union {[reference]})
                 (set_capabilities (<[id := capability]>) s) in
      if adm_spawned a then (Ok id, set_handles (λ h, h ++ [{| worker_id := id |}]) s)
      else (Err AdmissionError.Unavailable,
            set_capabilities (delete id)
              (set_checkpoints (λ c, c ∖ {[reference]}) (dequeue id s)))
  end.

(** ** Observation and cancellation *)

(** [JobManager::snapshot] *)
Definition snapshot (ended : OwnedWorker → option bool) (id owner : string) (s : JobsState) :
    option JobSnapshot * JobsState :=
  let s := reap_workers ended s in (snapshot_job <$> owned_job id owner s, s).

(** The change [cancel] and [shutdown] make to a live job. *)
Definition cancel_job (replay_limit : Z) (j : StoredJob) : StoredJob :=
  let j := request_cancellation j in
  let j := if has_status JobStatus.Queued j then set_status JobStatus.Cancelled j else j in
  push_event replay_limit j.

Definition cancellable (j : StoredJob) : bool :=
  negb (terminal (sj_status j)) && negb (sj_cancellation_requested j).

(** The first critical section of [JobManager::cancel]: the snapshot, and the
    kind to record in the history when a queued job was cancelled. *)
Definition cancel (l : WebLimits) (id owner : string) (s : JobsState) :
    option (JobSnapshot * option HistoryKind.t) * JobsState :=
  match owned_job id owner s with
  | None => (None, s)
  | Some job =>
    let was_queued := has_status JobStatus.Queued job in
    let queued_apply := if was_queued then apply_reference (sj_kind job) else None in
    let record_cancelled :=
      if cancellable job && was_queued then Some (history_kind (sj_kind job)) else None in
    let job' := if cancellable job then cancel_job (sse_replay_events l) job else job in
    let s := set_jobs (<[id := job']>) s in
    let s := if was_queued then
      let s := set_capabilities (delete id) (set_queued (λ n, sat_sub n 1) s) in
      match queued_apply with
      | Some reference => set_checkpoints (λ c, c ∖ {[reference]}) s
      | None => s
      end else s in
    (Some (snapshot_job job', record_cancelled), s)
  end.

(** The second one, entered when the history could not be written. *)
Definition cancel_unrecorded (s : JobsState) : JobsState := set_worker_failed true s.

(** The critical section of [JobManager::shutdown]: the handles to join, and
    whether no worker had failed. *)
Definition shutdown (l : WebLimits) (s : JobsState) : (list OwnedWorker * bool) * JobsState :=
  let cancelled_queued := mcount (λ j, cancellable j && has_status JobStatus.Queued j) (jobs s) in
  let s' := set_handles (λ _, [])
    (set_queued (λ n, sat_sub n cancelled_queued)
      (set_jobs (fmap (λ j, if cancellable j then cancel_job (sse_replay_events l) j else j))
        (set_shutting_down true s))) in
  ((handles s, negb (worker_failed s)), s').

(** [clean &= worker.handle.join().is_ok()] over the handles *)
Definition join_all (clean : bool) (joined : OwnedWorker → bool) (workers : list OwnedWorker) : bool :=
  foldl (λ clean worker, clean && joined worker) clean workers.

(** ** Workers *)

Inductive BeginOutcome := BeginRun | BeginStop | BeginWait.

Definition is_queued_job (s : JobsState) (id : string) : bool :=
  is_some_and (jobs s !! id) (has_status JobStatus.Queued).

(** The first queued job in admission order *)
Definition next_queued (s : JobsState) : option string := find_id (is_queued_job s) (order s).

(** One round of the loop of [begin]: the job runs, the worker stops, or it waits
    on the condition variable and tries again. *)
Definition begin (l : WebLimits) (id : string) (s : JobsState) : BeginOutcome * JobsState :=
  if negb (is_queued_job s id) || shutting_down s then (BeginStop, s)
  else if bool_decide (next_queued s = Some id) && (running s <? concurrent_jobs l) then
    let s := set_running (λ n, sat_add n 1) (set_queued (λ n, sat_sub n 1) s) in
    (BeginRun,
     match jobs s !! id with
     | Some job =>
       set_jobs (<[id := push_event (sse_replay_events l) (set_status JobStatus.Running job)]>) s
     | None => s
     end)
  else (BeginWait, s).

Record JobInputs := {
  ji_source_id : string;
  ji_kind : JobKind.t;
  ji_cancellation : bool;
  ji_capability : option ApplyCapability;
}.

(** [job_inputs]: the capability of an apply job is taken out of the state. *)
Definition job_inputs (id : string) (s : JobsState) : option JobInputs * JobsState :=
  match jobs s !! id with
  | None => (None, s)
  | Some job =>
    (Some {| ji_source_id := sj_source_id job; ji_kind := sj_kind job;
             ji_cancellation := sj_cancellation job;
             ji_capability := apply_capabilities s !! id |},
     set_capabilities (delete id) s)
  end.

Inductive ApplicationProgressEvent :=
  | ScanProgress (schema_version : Z) (event : ProgressEvent)
  | ExecutionProgress (schema_version sequence completed_effects maximum_effects : Z).

(** [JobObserver::observe] *)
Definition observe (l : WebLimits) (id : string) (event : ApplicationProgressEvent)
    (s : JobsState) : JobsState :=
  match event with
  | ExecutionProgress _ _ _ _ => s
  | ScanProgress _ event =>
    match jobs s !! id with
    | None => s
    | Some job =>
      let progress := {| jp_sequence := pe_sequence event; jp_stage := Some (pe_stage event);
        jp_assets_observed := pe_assets_observed event; jp_bytes_read := pe_bytes_read event |} in
      set_jobs (<[id := push_event (sse_replay_events l) (set_progress progress job)]>) s
    end
  end.

Module WorkerOutcome.
Inductive t :=
  | Completed (kind : HistoryKind.t) (summary : JobSummary) (artifact : option PlanArtifact)
      (dry_run : option DryRunBinding)
  | Failed (kind : HistoryKind.t)
  | Cancelled (kind : HistoryKind.t).
End WorkerOutcome.

Definition outcome_kind (o : WorkerOutcome.t) : HistoryKind.t :=
  match o with
  | WorkerOutcome.Completed kind _ _ _ | WorkerOutcome.Failed kind
  | WorkerOutcome.Cancelled kind => kind
  end.

Definition dry_run_binding (o : WorkerOutcome.t) : option DryRunBinding :=
  match o with
  | WorkerOutcome.Completed _ _ _ dry_run => dry_run
  | WorkerOutcome.Failed _ | WorkerOutcome.Cancelled _ => None
  end.

Definition published_artifact (o : WorkerOutcome.t) : option PlanArtifact :=
  match o with
  | WorkerOutcome.Completed (HistoryKind.FolderPlan | HistoryKind.GoogleTakeoutPlan
      | HistoryKind.ApplePhotosPlan | HistoryKind.PicasaPlan) _ artifact _ => artifact
  | _ => None
  end.

(** [history_record]; a [usize] is a [u64] here, so the conversions succeed. *)
Definition history_record (now : result unit Z) (o : WorkerOutcome.t) : result unit TerminalRecord :=
  let '(status, counters, plan) :=
    match o with
    | WorkerOutcome.Completed _ summary artifact _ =>
      (TerminalStatus.Completed,
       {| sc_assets := js_assets summary; sc_sidecars := js_sidecars summary;
          sc_bytes_read := js_bytes_read summary; sc_warnings := js_warnings summary;
          sc_errors := js_errors summary;
          sc_max_logical_effects := match artifact with
                                    | Some value => pa_max_logical_effects value
                                    | None => 0 end |},
       (λ value, (pa_reference value, pa_schema_version value)) <$> artifact)
    | WorkerOutcome.Failed _ => (TerminalStatus.Failed, no_counters, None)
    | WorkerOutcome.Cancelled _ => (TerminalStatus.Cancelled, no_counters, None)
    end in
  recorded_unix ← match dry_run_binding o with
                  | Some binding => Ok (drb_completed_unix binding)
                  | None => now
                  end;
  Ok {| tr_recorded_unix := recorded_unix; tr_kind := outcome_kind o; tr_status := status;
        tr_plan := plan; tr_counters := counters |}.

(** What the console store promises the worker: the terminal history, receipts
    for dry runs, and the plan files. *)
Class ConsoleHistory (W : Type) := {
  now_unix : W → result unit Z * W;
  record_terminal : TerminalRecord → W → result unit Z * W;
  record_dry_run : DryRunBinding → TerminalRecord → W → result unit DryRunReceipt * W;
  remove_plan : ArtifactRef → W → result unit unit * W;
}.

(** The part of [finish] before the lock: the history entry is written, and an
    unrecorded plan is unpublished. *)
Definition finish_record `{ConsoleHistory W} (o : WorkerOutcome.t) (w : W) :
    result unit (option ReceiptRef) * W :=
  let '(record, w) :=
    match dry_run_binding o with
    | Some _ => (history_record (Err tt) o, w)
    | None => let '(now, w) := now_unix w in (history_record now o, w)
    end in
  let '(result, w) :=
    match record with
    | Err _ => (Err tt, w)
    | Ok record =>
      match dry_run_binding o with
      | None => let '(r, w) := record_terminal record w in ((λ _, None) <$> r, w)
      | Some binding =>
        let '(r, w) := record_dry_run binding record w in
        ((λ receipt, Some (drr_reference receipt)) <$> r, w)
      end
    end in
  match result, published_artifact o with
  | Err _, Some artifact => let '(_, w) := remove_plan (pa_reference artifact) w in (result, w)
  | _, _ => (result, w)
  end.

(** The outcome that becomes visible: without a history entry, a failure. *)
Definition final_outcome (history : result unit (option ReceiptRef)) (o : WorkerOutcome.t) :
    WorkerOutcome.t :=
  match history with Ok _ => o | Err _ => WorkerOutcome.Failed (outcome_kind o) end.

Definition conclude (o : WorkerOutcome.t) (receipt : option ReceiptRef) (j : StoredJob) : StoredJob :=
  match o with
  | WorkerOutcome.Completed _ summary artifact _ => set_completed summary artifact receipt j
  | WorkerOutcome.Failed _ => set_status JobStatus.Failed j
  | WorkerOutcome.Cancelled _ => set_status JobStatus.Cancelled j
  end.

(** The critical section of [finish]. *)
Definition finish (l : WebLimits) (id : string) (o : WorkerOutcome.t)
    (history : result unit (option ReceiptRef)) (s : JobsState) : JobsState :=
  let receipt := match history with Ok receipt => receipt | Err _ => None end in
  let o := final_outcome history o in
  let s := match jobs s !! id ≫= λ job, apply_reference (sj_kind job) with
           | Some reference => set_checkpoints (λ c, c ∖ {[reference]}) s
           | None => s
           end in
  let s := set_capabilities (delete id) s in
  let s := match history with Ok _ => s | Err _ => set_worker_failed true s end in
  let s := set_running (λ n, sat_sub n 1) s in
  match jobs s !! id with
  | Some job =>
    set_jobs (<[id := push_event (sse_replay_events l) (conclude o receipt job)]>) s
  | None => s
  end.

(** ** Subscriptions *)

Module SubscribeError.
Inductive t := NotFound | InvalidCursor | ReplayExhausted | SessionCapacity | ProcessCapacity
  | Unavailable.
#[global] Instance t_eq_dec : EqDecision t.
Proof. solve_decision. Defined.
End SubscribeError.

Definition select_replay (events : list JobEvent) (after : option Z) :
    result SubscribeError.t (list JobEvent) :=
  match after with
  | None => Ok events
  | Some after =>
    first ← ok_or (je_sequence <$> head events) SubscribeError.Unavailable;
    last ← ok_or (je_sequence <$> last events) SubscribeError.Unavailable;
    if last <? after then Err SubscribeError.InvalidCursor
    else if sat_add after 1 <? first then Err SubscribeError.ReplayExhausted
    else Ok (List.filter (λ event, after <? je_sequence event) events)
  end.

(** [receiver] is where in the sequence of sent events the channel was joined. *)
Record JobSubscription := {
  sub_replay : list JobEvent;
  sub_receiver : nat;
  sub_close_after_replay : bool;
  sub_closed : bool;
  sub_owner : string;
}.

(** [JobManager::subscribe] *)
Definition subscribe (l : WebLimits) (id owner : string) (after : option Z) (s : JobsState) :
    result SubscribeError.t JobSubscription * JobsState :=
  match owned_job id owner s with
  | None => (Err SubscribeError.NotFound, s)
  | Some job =>
    match select_replay (sj_events job) after with
    | Err e => (Err e, s)
    | Ok replay =>
      let owner_count := default 0 (subscribers_by_owner s !! owner) in
      if sse_subscribers_per_session l <=? owner_count then (Err SubscribeError.SessionCapacity, s)
      else if sse_subscribers_per_process l <=? subscribers s
      then (Err SubscribeError.ProcessCapacity, s)
      else
        (Ok {| sub_replay := replay; sub_receiver := length (sj_event_sender job);
               sub_close_after_replay := terminal (sj_status job); sub_closed := false;
               sub_owner := owner |},
         set_subscribers (sat_add (subscribers s) 1)
           (<[owner := sat_add owner_count 1]> (subscribers_by_owner s)) s)
    end
  end.

(** Dropping the [SubscriberLease] of a subscription *)
Definition drop_lease (owner : string) (s : JobsState) : JobsState :=
  set_subscribers (sat_sub (subscribers s) 1)
    (match subscribers_by_owner s !! owner with
     | Some count =>
       if sat_sub count 1 =? 0 then delete owner (subscribers_by_owner s)
       else <[owner := sat_sub count 1]> (subscribers_by_owner s)
     | None => subscribers_by_owner s
     end) s.

(** What the receiving half of the channel reports within the heartbeat. *)
Inductive Received :=
  | ReceivedEvent (event : JobEvent)
  | ReceivedNothing
  | ReceivedLagged
  | ReceivedClosed.

Inductive SubscriptionDelivery :=
  | DeliverEvent (event : JobEvent)
  | Heartbeat
  | DeliverReplayExhausted.

Definition close_subscription (replay : list JobEvent) (closed : bool) (sub : JobSubscription) :
    JobSubscription := {|
  sub_replay := replay; sub_receiver := sub_receiver sub;
  sub_close_after_replay := sub_close_after_replay sub; sub_closed := closed;
  sub_owner := sub_owner sub |}.

(** [JobSubscription::next] *)
Definition next (received : Received) (sub : JobSubscription) :
    option SubscriptionDelivery * JobSubscription :=
  if sub_closed sub then (None, sub)
  else match sub_replay sub with
  | event :: replay =>
    (Some (DeliverEvent event), close_subscription replay (terminal (je_status event)) sub)
  | [] =>
    if sub_close_after_replay sub then (None, close_subscription [] true sub)
    else match received with
    | ReceivedNothing => (Some Heartbeat, sub)
    | ReceivedEvent event =>
      (Some (DeliverEvent event), close_subscription [] (terminal (je_status event)) sub)
    | ReceivedLagged => (Some DeliverReplayExhausted, close_subscription [] true sub)
    | ReceivedClosed => (None, close_subscription [] true sub)
    end
  end.

(** ** Metrics *)

Record JobMetrics := {
  jm_queued : Z;
  jm_running : Z;
  jm_completed : Z;
  jm_failed : Z;
  jm_cancelled : Z;
  jm_retained : Z;
  jm_subscribers : Z;
}.

Definition status_count (status : JobStatus.t) (s : JobsState) : Z :=
  mcount (has_status status) (jobs s).

(** [metrics::collect] *)
Definition collect (ended : OwnedWorker → option bool) (s : JobsState) : JobMetrics * JobsState :=
  let s := reap_workers ended s in
  ({| jm_queued := queued s; jm_running := running s;
      jm_completed := status_count JobStatus.Completed s;
      jm_failed := status_count JobStatus.Failed s;
      jm_cancelled := status_count JobStatus.Cancelled s;
      jm_retained := Z.of_nat (size (jobs s)); jm_subscribers := subscribers s |}, s).
