(* ===== verification/JobsFacts.v ===== *)
(** * JobsFacts: what each critical section of the job manager does

    The housekeeping loops are compared with what they are for, and the state of
    one job (its event log, its cancellation flag, its place in the counters) has
    an invariant that every change the manager makes to a job preserves.  The
    interleaving of the critical sections is the subject of [JobsRun]. *)
From S2P Require Export Prelude Text Limits Profiles Console Jobs.

Create HintDb jobs.

(** ** Ids *)

Lemma find_id_Some p l id :
  find_id p l = Some id ↔ ∃ l1 l2, l = l1 ++ id :: l2 ∧ p id = true ∧ Forall (λ x, p x = false) l1.
Proof.
  induction l as [|x l IH]; simpl; [split; [done|intros (? & ? & ?%app_cons_not_nil & _); done]|].
  destruct (p x) eqn:Hx.
  - split; [intros [= ->]; by exists [], l|].
    intros ([|y l1] & l2 & [= -> Hl] & Hid & Hl1); [done|].
    apply Forall_cons in Hl1 as [Hy _]. congruence.
  - rewrite IH. split.
    + intros (l1 & l2 & -> & Hid & Hl1). exists (x :: l1), l2. by rewrite Forall_cons.
    + intros ([|y l1] & l2 & [= -> Hl] & Hid & Hl1); [congruence|]. simplify_eq/=.
      apply Forall_cons in Hl1 as [_ Hl1]. by exists l1, l2.
Qed.

Lemma find_id_None p l : find_id p l = None ↔ Forall (λ x, p x = false) l.
Proof.
  induction l as [|x l IH]; simpl; [done|]. rewrite Forall_cons.
  destruct (p x); [naive_solver|rewrite IH; naive_solver].
Qed.

Lemma find_id_elem p l id : find_id p l = Some id → id ∈ l ∧ p id = true.
Proof. rewrite find_id_Some. intros (l1 & l2 & -> & ? & _). set_solver. Qed.

Lemma remove_first_perm p l id : find_id p l = Some id → l ≡ₚ id :: remove_first p l.
Proof.
  induction l as [|x l IH]; simpl; [done|]. destruct (p x); [by intros [= ->]|].
  intros Hid. rewrite (IH Hid) at 1. by constructor.
Qed.

(** ** Reaping

    The loop with [swap_remove] drops exactly the handles of ended threads, and
    remembers whether one of them panicked. *)

Definition alive (ended : OwnedWorker → option bool) (w : OwnedWorker) : bool :=
  negb (is_some (ended w)).
Definition panicked (ended : OwnedWorker → option bool) (w : OwnedWorker) : bool :=
  is_some_and (ended w) id.

Lemma swap_remove_perm {A} i (l : list A) x : l !! i = Some x → x :: swap_remove i l ≡ₚ l.
Proof.
  intros Hi. assert (l ≠ []) as Hne by (by intros ->).
  destruct (exists_last Hne) as (l' & y & ->). unfold swap_remove. rewrite last_snoc, length_app.
  simpl. rewrite Nat.add_1_r. simpl.
  destruct (decide (i < length l')%nat) as [Hlt|Hge].
  - rewrite insert_app_l, take_app_length' by (rewrite ?length_insert; lia).
    rewrite lookup_app_l in Hi by lia.
    rewrite <- (take_drop_middle l' i x Hi) at 1 2.
    rewrite insert_app_r_alt by (rewrite length_take; lia).
    rewrite length_take, Nat.min_l, Nat.sub_diag by lia. simpl.
    etrans; [|apply Permutation_app_comm]. simpl.
    rewrite <- !Permutation_middle. apply Permutation_swap.
  - apply lookup_lt_Some in Hi as Hlt. rewrite length_app in Hlt. simpl in Hlt.
    assert (i = length l') as -> by lia. rewrite lookup_app_r, Nat.sub_diag in Hi by lia.
    injection Hi as ->. rewrite insert_app_r_alt, Nat.sub_diag, take_app_length by lia.
    by rewrite Permutation_app_comm.
Qed.

Lemma take_swap_remove {A} i (l : list A) : (i < length l)%nat → take i (swap_remove i l) = take i l.
Proof.
  intros Hi. unfold swap_remove. destruct (last l) as [y|] eqn:Hl; [|done].
  rewrite take_take, Nat.min_l by lia. by rewrite take_insert_ge by lia.
Qed.

Lemma existsb_perm {A} (f : A → bool) l k : l ≡ₚ k → existsb f l = existsb f k.
Proof. induction 1; simpl; [done|congruence| |congruence]. destruct (f x), (f y); done. Qed.

Lemma panicked_alive ended w : alive ended w = true → panicked ended w = false.
Proof. unfold alive, panicked. by destruct (ended w). Qed.

(** The state with other handles and another failure flag. *)
Definition with_workers (h : list OwnedWorker) (failed : bool) (s : JobsState) : JobsState :=
  set_handles (λ _, h) (set_worker_failed failed s).

Lemma reap_from_spec ended fuel position s :
  (length (handles s) <= position + fuel)%nat →
  Forall (λ w, alive ended w = true) (take position (handles s)) →
  ∃ h, h ≡ₚ List.filter (alive ended) (handles s)
    ∧ reap_from ended fuel position s
      = with_workers h (worker_failed s || existsb (panicked ended) (handles s)) s.
Proof.
  revert position s. induction fuel as [|fuel IH]; intros position s Hfuel Hpre; cbn [reap_from].
  - rewrite take_ge in Hpre by lia. exists (handles s). rewrite filter_all by done. split; [done|].
    replace (existsb _ _) with false; [by destruct s; rewrite orb_false_r|].
    symmetry. apply existsb_false. eapply Forall_impl; [done|]. auto using panicked_alive.
  - destruct (handles s !! position) as [w|] eqn:Hw.
    + destruct (ended w) as [p|] eqn:Hend.
      * set (s1 := set_handles (swap_remove position) s).
        assert (handles s1 = swap_remove position (handles s)) as Hh by done.
        apply lookup_lt_Some in Hw as Hlt.
        assert (handles s ≡ₚ w :: handles s1) as Hp by (symmetry; by apply swap_remove_perm).
        pose proof (Permutation_length Hp) as Hlen. simpl in Hlen.
        destruct (IH position (if p then set_worker_failed true s1 else s1)) as (h & Hperm & Heq).
        { destruct p; simpl in *; lia. }
        { destruct p; simpl; by rewrite take_swap_remove. }
        exists h. rewrite Heq.
        rewrite (existsb_perm _ _ _ Hp), (filter_perm _ _ _ Hp).
        simpl. unfold alive at 1, panicked at 2. rewrite Hend. simpl.
        destruct p; split; try done; destruct s; simpl; by rewrite ?orb_true_r.
      * apply IH; [lia|]. erewrite take_S_r by done. apply Forall_app. split; [done|].
        repeat constructor. unfold alive. by rewrite Hend.
    + apply lookup_ge_None in Hw. rewrite take_ge in Hpre by lia.
      exists (handles s). rewrite filter_all by done. split; [done|].
      replace (existsb _ _) with false; [by destruct s; rewrite orb_false_r|].
      symmetry. apply existsb_false. eapply Forall_impl; [done|]. auto using panicked_alive.
Qed.

(** [reap_workers] drops exactly the handles of the threads that have ended. *)
Lemma reap_workers_spec ended s :
  ∃ h, h ≡ₚ List.filter (alive ended) (handles s)
    ∧ reap_workers ended s
      = with_workers h (worker_failed s || existsb (panicked ended) (handles s)) s.
Proof. apply reap_from_spec; [lia|constructor]. Qed.

(** ** The job table *)

(** [order] lists the ids of the map, each once. *)
Definition table_ok (m : gmap string StoredJob) (o : list string) : Prop :=
  NoDup o ∧ ∀ id, id ∈ o ↔ is_Some (m !! id).

Definition evict_one (id : string) (s : JobsState) : JobsState :=
  set_jobs (delete id) (set_order (List.filter (λ x, negb (String.eqb x id))) s).

Lemma filter_ne_fresh id l : id ∉ l → List.filter (λ x, negb (String.eqb x id)) l = l.
Proof.
  intros Hid. apply filter_all. apply Forall_forall. intros x Hx.
  destruct (String.eqb_spec x id); [by subst|done].
Qed.

Lemma elem_of_filter_ne id x l :
  x ∈ List.filter (λ y, negb (String.eqb y id)) l ↔ x ∈ l ∧ x ≠ id.
Proof.
  rewrite !list_elem_of_In, filter_In, <- !list_elem_of_In.
  destruct (String.eqb_spec x id); naive_solver.
Qed.

Lemma remove_first_nodup p l id :
  NoDup l → find_id p l = Some id →
  remove_first p l = List.filter (λ x, negb (String.eqb x id)) l.
Proof.
  induction l as [|x l IH]; simpl; [done|]. intros [Hx Hl]%NoDup_cons.
  destruct (p x) eqn:Hp.
  - intros [= ->]. rewrite String.eqb_refl. simpl. by rewrite filter_ne_fresh.
  - intros Hid. pose proof (find_id_elem _ _ _ Hid) as [Hin Hpid].
    destruct (String.eqb_spec x id); [congruence|]. simpl. by rewrite IH.
Qed.

Lemma filter_NoDup {A} (f : A → bool) l : NoDup l → NoDup (List.filter f l).
Proof.
  induction 1 as [|x l Hx _ IH]; simpl; [constructor|]. destruct (f x); [|done].
  constructor; [|done]. rewrite list_elem_of_In, filter_In, <- list_elem_of_In. naive_solver.
Qed.

Lemma table_delete m o id :
  table_ok m o → table_ok (delete id m) (List.filter (λ x, negb (String.eqb x id)) o).
Proof.
  intros [Hnd Hdom]. split; [by apply filter_NoDup|]. intros x.
  rewrite elem_of_filter_ne, Hdom, lookup_delete_is_Some. naive_solver.
Qed.

Lemma table_update m o id j j' :
  table_ok m o → m !! id = Some j → table_ok (<[id := j']> m) o.
Proof.
  intros [Hnd Hdom] Hid. split; [done|]. intros x. rewrite Hdom, lookup_insert_is_Some.
  destruct (decide (id = x)) as [->|]; [rewrite Hid; naive_solver|naive_solver].
Qed.

Lemma table_insert m o id j :
  table_ok m o → m !! id = None → table_ok (<[id := j]> m) (o ++ [id]).
Proof.
  intros [Hnd Hdom] Hid. assert (id ∉ o) by (rewrite Hdom, Hid; by intros []). split.
  - apply NoDup_app. split_and!; [done|set_solver|apply NoDup_singleton].
  - intros x. rewrite elem_of_app, Hdom, lookup_insert_is_Some, list_elem_of_singleton.
    destruct (decide (id = x)); naive_solver.
Qed.

Lemma table_fmap m o f : table_ok m o → table_ok (f <$> m) o.
Proof. intros [Hnd Hdom]. split; [done|]. intros x. by rewrite Hdom, lookup_fmap, fmap_is_Some. Qed.
#[export] Hint Resolve table_delete table_update table_insert table_fmap : jobs.

(** Taking back an admission leaves the table as it was. *)
Lemma dequeue_table m o id (j : StoredJob) :
  table_ok m o → m !! id = None →
  delete id (<[id := j]> m) = m ∧ List.filter (λ x, negb (String.eqb x id)) (o ++ [id]) = o.
Proof.
  intros [_ Hdom] Hid. split; [by apply delete_insert_id|].
  rewrite List.filter_app. simpl. rewrite String.eqb_refl. simpl. rewrite app_nil_r.
  apply filter_ne_fresh. rewrite Hdom, Hid. by intros [].
Qed.

Lemma evict_one_eq s id :
  NoDup (order s) → find_id (is_terminal_job s) (order s) = Some id →
  set_jobs (delete id) (set_order (remove_first (is_terminal_job s)) s) = evict_one id s.
Proof.
  intros Hnd Hid. unfold evict_one, set_order. by rewrite (remove_first_nodup _ _ _ Hnd Hid).
Qed.

(** Eviction is a series of removals of terminal jobs: what each of them keeps,
    the whole loop keeps. *)
Lemma evict_ind retained (P : JobsState → Prop) :
  (∀ s id j, P s → jobs s !! id = Some j → terminal (sj_status j) = true →
    retained <= Z.of_nat (size (jobs s)) → P (evict_one id s)) →
  (∀ s, P s → table_ok (jobs s) (order s)) →
  ∀ s, P s → P (evict_terminal retained s).
Proof.
  intros Hone Htable s. unfold evict_terminal. generalize (length (order s)) as fuel.
  intros fuel. revert s. induction fuel as [|fuel IH]; intros s Hs; cbn [evict_loop]; [done|].
  destruct (Z.leb_spec retained (Z.of_nat (size (jobs s)))); [|done].
  destruct (find_id _ _) as [id|] eqn:Hid; [|done].
  rewrite (evict_one_eq _ _ (proj1 (Htable s Hs)) Hid).
  apply find_id_elem in Hid as [_ Hterm]. unfold is_terminal_job, is_some_and in Hterm.
  destruct (jobs s !! id) as [j|] eqn:Hj; [|done].
  by apply IH, (Hone s id j).
Qed.

(** It stops when there is room, or nothing left to evict. *)
Lemma evict_terminal_room retained s :
  table_ok (jobs s) (order s) →
  let s' := evict_terminal retained s in
  Z.of_nat (size (jobs s')) < retained
  ∨ map_Forall (λ _ j, terminal (sj_status j) = false) (jobs s').
Proof.
  assert (∀ fuel s, table_ok (jobs s) (order s) → (length (order s) <= fuel)%nat →
    Z.of_nat (size (jobs (evict_loop fuel retained s))) < retained
    ∨ map_Forall (λ _ j, terminal (sj_status j) = false) (jobs (evict_loop fuel retained s)))
    as H; [|intros; by apply H].
  clear s. intros fuel.
  induction fuel as [|fuel IH]; intros s Htable Hfuel; cbn [evict_loop].
  - right. intros id j Hj. destruct Htable as [_ Hdom].
    assert (id ∈ order s) as Hin by (apply Hdom; by exists j).
    destruct (order s); [by apply elem_of_nil in Hin|simpl in Hfuel; lia].
  - destruct (Z.leb_spec retained (Z.of_nat (size (jobs s)))); [|left; lia].
    destruct (find_id _ _) as [id|] eqn:Hid.
    + rewrite (evict_one_eq _ _ (proj1 Htable) Hid).
      pose proof (remove_first_perm _ _ _ Hid) as Hp%Permutation_length. simpl in Hp.
      rewrite (remove_first_nodup _ _ _ (proj1 Htable) Hid) in Hp.
      apply IH; simpl; [by apply table_delete|lia].
    + right. rewrite find_id_None, Forall_forall in Hid. intros id j Hj.
      assert (id ∈ order s) as Hin by (apply (proj2 Htable); by exists j).
      apply Hid in Hin. unfold is_terminal_job, is_some_and in Hin. by rewrite Hj in Hin.
Qed.

(** ** The event log of one job *)

(** Sequence numbers count from one and stay at the maximum of their width. *)
Definition sequence_at (i : nat) : Z := Z.min (Z.of_nat i + 1) u64_max.

(** [events] is what remains of the events sent under the replay limit. *)
Definition log_wf (limit : Z) (j : StoredJob) : Prop :=
  let sent := sj_event_sender j in
  sj_events j = drop (length sent - Z.to_nat limit) sent
  ∧ map je_sequence sent = map sequence_at (seq 0 (length sent))
  ∧ sj_next_event_sequence j = Z.min (zlen sent) u64_max
  ∧ Forall (λ e, terminal (je_status e) = false) (removelast sent).

(** The event tells the state of the job. *)
Definition event_current (j : StoredJob) (e : JobEvent) : Prop :=
  je_status e = sj_status j ∧ je_cancellation_requested e = sj_cancellation_requested j
  ∧ je_progress e = sj_progress j ∧ je_summary e = sj_summary j.

Definition log_current (j : StoredJob) : Prop :=
  ∃ e, last (sj_event_sender j) = Some e ∧ event_current j e.

Record job_ok (limit : Z) (id : string) (j : StoredJob) : Prop := {
  jo_id : sj_id j = id;
  jo_token : sj_cancellation j = sj_cancellation_requested j;
  jo_queued : sj_status j = JobStatus.Queued → sj_cancellation_requested j = false;
  jo_log : log_wf limit j;
  jo_current : log_current j;
}.

(** [j'] is [j] with the fields assigned that a critical section assigns. *)
Definition same_log (j j' : StoredJob) : Prop :=
  sj_id j' = sj_id j ∧ sj_owner j' = sj_owner j ∧ sj_source_id j' = sj_source_id j
  ∧ sj_kind j' = sj_kind j ∧ sj_events j' = sj_events j
  ∧ sj_event_sender j' = sj_event_sender j
  ∧ sj_next_event_sequence j' = sj_next_event_sequence j.

Lemma push_event_events limit j :
  1 <= limit → log_wf limit j →
  sj_events (push_event limit j)
  = drop (length (sj_event_sender j ++ [event_of j]) - Z.to_nat limit)
      (sj_event_sender j ++ [event_of j]).
Proof.
  intros Hlim (Hev & _). simpl. rewrite Hev, length_app. simpl.
  set (sent := sj_event_sender j). unfold zlen. rewrite length_drop.
  destruct (Z.eqb_spec (Z.of_nat (length sent - (length sent - Z.to_nat limit))) limit).
  - change (tail ?l) with (drop 1 l). rewrite drop_drop, drop_app_le by lia.
    do 2 f_equal. lia.
  - replace (length sent + 1 - Z.to_nat limit)%nat with 0%nat by lia.
    replace (length sent - Z.to_nat limit)%nat with 0%nat by lia. done.
Qed.

Lemma push_event_ok limit id j j' :
  1 <= limit → job_ok limit id j → terminal (sj_status j) = false → same_log j j' →
  sj_cancellation j' = sj_cancellation_requested j' →
  (sj_status j' = JobStatus.Queued → sj_cancellation_requested j' = false) →
  job_ok limit id (push_event limit j').
Proof.
  intros Hlim [Hid _ _ (Hev & Hseq & Hnext & Hopen) (e & Hlast & Hcur)] Hterm
    (Hid' & _ & _ & _ & Hev' & Hsent' & Hnext') Htok Hq.
  apply last_Some in Hlast as [sent Hsent].
  assert (Forall (λ e, terminal (je_status e) = false) (sj_event_sender j)) as Hall.
  { rewrite Hsent in Hopen |- *. rewrite removelast_last in Hopen. apply Forall_app. split; [done|].
    constructor; [|constructor]. destruct Hcur as [-> _]. done. }
  assert (log_wf limit j') as Hwf.
  { unfold log_wf. rewrite Hev', Hsent', Hnext'. done. }
  split; try done; [by simpl; rewrite Hid'| |].
  - split; [by apply push_event_events|]. simpl.
    assert (sj_next_event_sequence j' = Z.min (zlen (sj_event_sender j)) u64_max) as Hn by congruence.
    rewrite Hsent', Hn, !map_app, length_app, seq_app, map_app, Hseq. simpl.
    assert (je_sequence (event_of j') = sequence_at (length (sj_event_sender j))) as Hs.
    { simpl. rewrite Hn. unfold sat_add, sequence_at, zlen, u64_max. lia. }
    split_and!.
    + by rewrite <- Hs.
    + unfold zlen. rewrite length_app. simpl. unfold sat_add, zlen, u64_max. lia.
    + by rewrite removelast_last.
  - exists (event_of j'). simpl. rewrite last_snoc. by split.
Qed.

Lemma new_job_ok limit id owner source_id source_label kind :
  1 <= limit → job_ok limit id (push_event limit (new_job id owner source_id source_label kind)).
Proof.
  intros Hlim. assert (log_wf limit (new_job id owner source_id source_label kind)) as Hwf.
  { by split_and!. }
  split; try done.
  - split; [by apply push_event_events|]. simpl. split_and!; [done|done|constructor].
  - eexists. split; [done|]. done.
Qed.

(** The changes the manager makes to a job keep its log. *)
Lemma same_log_set_job j st c t p s a r : same_log j (set_job j st c t p s a r).
Proof. done. Qed.
#[export] Hint Resolve same_log_set_job : jobs.
#[export] Hint Unfold set_status set_progress set_completed request_cancellation : jobs.

(** ** Replaying *)

(** The log below the maximum of the sequence: the number of an event is its
    position. *)
Lemma filter_sequences (l : list JobEvent) k after :
  map je_sequence l = map (λ i, Z.of_nat i + 1) (seq k (length l)) → 0 <= after →
  List.filter (λ e, after <? je_sequence e) l = drop (Z.to_nat after - k) l.
Proof.
  revert k. induction l as [|e l IH]; intros k Hseq Hafter; [by rewrite drop_nil|].
  simpl in Hseq. injection Hseq as He Hl. simpl. rewrite (IH (S k)) by done. rewrite He.
  destruct (Z.ltb_spec after (Z.of_nat k + 1)).
  - replace (Z.to_nat after - k)%nat with 0%nat by lia.
    by replace (Z.to_nat after - S k)%nat with 0%nat by lia.
  - by replace (Z.to_nat after - k)%nat with (S (Z.to_nat after - S k)) by lia.
Qed.

Lemma log_sequences limit j :
  log_wf limit j → zlen (sj_event_sender j) <= u64_max →
  map je_sequence (sj_events j)
  = map (λ i, Z.of_nat i + 1)
      (seq (length (sj_event_sender j) - Z.to_nat limit) (length (sj_events j))).
Proof.
  intros (-> & Hseq & _ & _) Hlen. set (sent := sj_event_sender j) in *.
  set (k := (length sent - Z.to_nat limit)%nat).
  rewrite <- skipn_map, Hseq, skipn_map, length_drop.
  assert (drop k (seq 0 (length sent)) = seq k (length sent - k)) as ->.
  { replace (length sent) with (k + (length sent - k))%nat at 1 by lia.
    by rewrite seq_app, drop_app_length' by (by rewrite length_seq). }
  apply map_ext_in. intros i Hi%in_seq. unfold sequence_at. unfold zlen in Hlen. lia.
Qed.

(** What a reconnecting client gets, from the whole log. *)
Definition replay_spec (limit : Z) (sent : list JobEvent) (after : Z) :
    result SubscribeError.t (list JobEvent) :=
  if zlen sent <? after then Err SubscribeError.InvalidCursor
  else if after <? zlen sent - limit then Err SubscribeError.ReplayExhausted
  else Ok (drop (Z.to_nat after) sent).

Lemma select_replay_spec limit j after :
  1 <= limit → log_wf limit j → sj_event_sender j ≠ [] → zlen (sj_event_sender j) < u64_max →
  0 <= after → select_replay (sj_events j) (Some after) = replay_spec limit (sj_event_sender j) after.
Proof.
  intros Hlim Hwf Hne Hmax Hafter.
  pose proof (log_sequences _ _ Hwf ltac:(lia)) as Hseqs. destruct Hwf as (Hev & _).
  unfold select_replay, replay_spec, ok_or. set (sent := sj_event_sender j) in *.
  set (k := (length sent - Z.to_nat limit)%nat) in *.
  assert (length sent ≠ 0%nat) by (by destruct sent).
  assert (length (sj_events j) = (length sent - k)%nat) as Hlen by (by rewrite Hev, length_drop).
  assert (je_sequence <$> head (sj_events j) = Some (Z.of_nat k + 1)) as ->.
  { destruct (sj_events j) as [|e l] eqn:He; [simpl in Hlen; lia|]. simpl in Hseqs |- *.
    by injection Hseqs as ->. }
  assert (je_sequence <$> last (sj_events j) = Some (zlen sent)) as ->.
  { rewrite <- fmap_last. change (je_sequence <$> sj_events j) with (map je_sequence (sj_events j)).
    rewrite Hseqs, Hlen. replace (length sent - k)%nat with (S (length sent - k - 1)) by lia.
    rewrite seq_S, map_app. cbn [map]. rewrite last_snoc. unfold zlen. f_equal. lia. }
  simpl. destruct (Z.ltb_spec (zlen sent) after); [done|].
  unfold zlen in *. unfold sat_add.
  destruct (Z.ltb_spec (Z.min (after + 1) u64_max) (Z.of_nat k + 1)),
    (Z.ltb_spec after (Z.of_nat (length sent) - limit)); try lia; [done|].
  rewrite (filter_sequences _ k) by done. f_equal. rewrite Hev, drop_drop. f_equal. lia.
Qed.
