(* ===== verification/JobsRun.v ===== *)
(** * JobsRun: the console's jobs as a concurrent system

    A state of the system is the locked [JobsState], where each worker thread is
    in its code, and the subscriptions that are open.  A step is one critical
    section of [Jobs], one event of a thread (a spurious wake-up, a panic, its
    end), or nothing of these.  The invariant holds in every reachable state,
    whatever the interleaving. *)
From S2P Require Export Prelude Text Limits Profiles Console Jobs JobsFacts.

(** ** The system *)

(** Where a worker is: before a round of [begin], parked on the condition
    variable, after a successful [begin], past [job_inputs], past its last
    critical section, or ended. *)
Module Phase.
Inductive t :=
  | Starting
  | Waiting
  | Begun
  | Working
  | Exiting
  | Ended (panicked : bool).
#[global] Instance t_eq_dec : EqDecision t.
Proof. solve_decision. Defined.
End Phase.

Record System := {
  st : JobsState;
  phase : gmap string Phase.t;
  leases : list string;
}.

Definition initial : System := {| st := new_state; phase := ∅; leases := [] |}.

(** [worker_available.notify_all()] *)
Definition wake (p : Phase.t) : Phase.t :=
  match p with Phase.Waiting => Phase.Starting | p => p end.

(** [is_finished] and [join] speak of threads that have really ended. *)
Definition truthful (ended : OwnedWorker → option bool) (ph : gmap string Phase.t) : Prop :=
  ∀ w p, ended w = Some p → ph !! worker_id w = Some (Phase.Ended p).

(** What an admission is told: threads as they are, and a random id no thread
    has been given before. *)
Definition fresh_admission (a : Admission) (ph : gmap string Phase.t) : Prop :=
  truthful (adm_ended a) ph ∧ ∀ id, adm_random_id a = Ok id → ph !! id = None.

(** The phases after an admission: its worker starts. *)
Definition admitted (r : result AdmissionError.t string) (ph : gmap string Phase.t) :
    gmap string Phase.t :=
  match r with Ok id => <[id := Phase.Starting]> ph | Err _ => ph end.

(** The kinds the three admissions without a grant ask for. *)
Definition unprivileged (k : JobKind.t) : Prop := apply_reference k = None.

Definition begin_phase (o : BeginOutcome) : Phase.t :=
  match o with
  | BeginRun => Phase.Begun | BeginStop => Phase.Exiting | BeginWait => Phase.Waiting
  end.

(** [cancel] notifies when it changes the job. *)
Definition cancel_notifies (id owner : string) (s : JobsState) : bool :=
  is_some_and (owned_job id owner s) cancellable.

Section system.
  Context (config : WebConfig).
Notation l := (wc_limits config).

Inductive step : System → System → Prop :=
  | step_admit a owner source_id s ph ls r s' :
      fresh_admission a ph → admit_scan config a owner source_id s = (r, s') →
      step {| st := s; phase := ph; leases := ls |}
           {| st := s'; phase := admitted r ph; leases := ls |}
  | step_admit_plan a owner source_id server_id s ph ls r s' :
      fresh_admission a ph → admit_plan config a owner source_id server_id s = (r, s') →
      step {| st := s; phase := ph; leases := ls |}
           {| st := s'; phase := admitted r ph; leases := ls |}
  | step_admit_dry_run a owner reference stored s ph ls r s' :
      fresh_admission a ph → admit_dry_run config a owner reference stored s = (r, s') →
      step {| st := s; phase := ph; leases := ls |}
           {| st := s'; phase := admitted r ph; leases := ls |}
  | step_admit_apply a capability s ph ls r s' :
      fresh_admission a ph → admit_apply config a capability s = (r, s') →
      step {| st := s; phase := ph; leases := ls |}
           {| st := s'; phase := admitted r ph; leases := ls |}
  | step_snapshot ended id owner s ph ls r s' :
      truthful ended ph → snapshot ended id owner s = (r, s') →
      step {| st := s; phase := ph; leases := ls |} {| st := s'; phase := ph; leases := ls |}
  | step_collect ended s ph ls r s' :
      truthful ended ph → collect ended s = (r, s') →
      step {| st := s; phase := ph; leases := ls |} {| st := s'; phase := ph; leases := ls |}
  | step_cancel id owner s ph ls r s' :
      cancel l id owner s = (r, s') →
      step {| st := s; phase := ph; leases := ls |}
           {| st := s'; phase := if cancel_notifies id owner s then wake <$> ph else ph;
              leases := ls |}
  | step_unrecorded s ph ls :
      step {| st := s; phase := ph; leases := ls |}
           {| st := cancel_unrecorded s; phase := ph; leases := ls |}
  | step_shutdown s ph ls r s' :
      shutdown l s = (r, s') →
      step {| st := s; phase := ph; leases := ls |}
           {| st := s'; phase := wake <$> ph; leases := ls |}
  | step_begin id s ph ls o s' :
      ph !! id = Some Phase.Starting → begin l id s = (o, s') →
      step {| st := s; phase := ph; leases := ls |}
           {| st := s'; phase := <[id := begin_phase o]> ph; leases := ls |}
  | step_inputs id s ph ls r s' :
      ph !! id = Some Phase.Begun → job_inputs id s = (r, s') →
      step {| st := s; phase := ph; leases := ls |}
           {| st := s'; phase := <[id := if r then Phase.Working else Phase.Exiting]> ph;
              leases := ls |}
  | step_observe id event s ph ls :
      ph !! id = Some Phase.Working →
      step {| st := s; phase := ph; leases := ls |}
           {| st := observe l id event s; phase := ph; leases := ls |}
  | step_finish id o history s ph ls :
      ph !! id = Some Phase.Working →
      step {| st := s; phase := ph; leases := ls |}
           {| st := finish l id o history s; phase := <[id := Phase.Exiting]> (wake <$> ph);
              leases := ls |}
  | step_spurious id s ph ls :
      ph !! id = Some Phase.Waiting →
      step {| st := s; phase := ph; leases := ls |}
           {| st := s; phase := <[id := Phase.Starting]> ph; leases := ls |}
  | step_panic id s ph ls :
      ph !! id = Some Phase.Working →
      step {| st := s; phase := ph; leases := ls |}
           {| st := s; phase := <[id := Phase.Ended true]> ph; leases := ls |}
  | step_exit id s ph ls :
      ph !! id = Some Phase.Exiting →
      step {| st := s; phase := ph; leases := ls |}
           {| st := s; phase := <[id := Phase.Ended false]> ph; leases := ls |}
  | step_subscribe id owner after s ph ls r s' :
      subscribe l id owner after s = (r, s') →
      step {| st := s; phase := ph; leases := ls |}
           {| st := s'; phase := ph;
              leases := if r is Ok sub then sub_owner sub :: ls else ls |}
  | step_unsubscribe owner s ph ls1 ls2 :
      step {| st := s; phase := ph; leases := ls1 ++ owner :: ls2 |}
           {| st := drop_lease owner s; phase := ph; leases := ls1 ++ ls2 |}.

Definition reachable : System → Prop := rtc step initial.

(** ** The invariant *)

Definition counts_ok (m : gmap string StoredJob) (running queued : Z) : Prop :=
  queued = mcount (has_status JobStatus.Queued) m
  ∧ running = mcount (has_status JobStatus.Running) m
  ∧ Z.of_nat (size m) <= retained_jobs l
  ∧ running <= concurrent_jobs l
  ∧ running + queued <= worker_limit l.

(** The thread of a job that runs has begun, that of a queued job waits for its
    turn, and a thread past [begin] has a running job. *)
Record phases_ok (m : gmap string StoredJob) (ph : gmap string Phase.t) : Prop := {
  po_known : ∀ id, is_Some (m !! id) → is_Some (ph !! id);
  po_running : ∀ id j, m !! id = Some j → sj_status j = JobStatus.Running →
    ph !! id = Some Phase.Begun ∨ ph !! id = Some Phase.Working
    ∨ ph !! id = Some (Phase.Ended true);
  po_queued : ∀ id j, m !! id = Some j → sj_status j = JobStatus.Queued →
    ph !! id = Some Phase.Starting ∨ ph !! id = Some Phase.Waiting;
  po_active : ∀ id, ph !! id = Some Phase.Begun ∨ ph !! id = Some Phase.Working →
    ∃ j, m !! id = Some j ∧ sj_status j = JobStatus.Running;
}.

Record handles_ok (ph : gmap string Phase.t) (h : list OwnedWorker) (down : bool) : Prop := {
  ho_nodup : NoDup h;
  ho_known : ∀ w, w ∈ h → is_Some (ph !! worker_id w);
  ho_down : down = true → h = [];
  ho_live : down = false → ∀ id p, ph !! id = Some p → (∀ b, p ≠ Phase.Ended b) →
    {| worker_id := id |} ∈ h;
  ho_bound : zlen h <= worker_limit l;
}.

(** The plan a live apply job holds *)
Definition holds_plan (m : gmap string StoredJob) (id : string) (r : ArtifactRef) : Prop :=
  ∃ j, m !! id = Some j ∧ terminal (sj_status j) = false ∧ apply_reference (sj_kind j) = Some r.

Record applies_ok (m : gmap string StoredJob) (ph : gmap string Phase.t)
    (caps : gmap string ApplyCapability) (active : gset ArtifactRef) (down : bool) : Prop := {
  ao_active : down = false → ∀ r, r ∈ active ↔ ∃ id, holds_plan m id r;
  ao_unique : ∀ id1 id2 r, holds_plan m id1 r → holds_plan m id2 r → id1 = id2;
  ao_capability : ∀ id j r, m !! id = Some j → apply_reference (sj_kind j) = Some r →
    sj_status j = JobStatus.Queued ∨ ph !! id = Some Phase.Begun →
    ∃ cap, caps !! id = Some cap
      ∧ drb_plan_reference (gb_dry_run (cap_binding cap)) = r
      ∧ gb_owner (cap_binding cap) = sj_owner j
      ∧ gb_source_profile_id (cap_binding cap) = sj_source_id j;
}.

Definition leases_ok (ls : list string) (subs : Z) (by_owner : gmap string Z) : Prop :=
  subs = zlen ls ∧ subs <= sse_subscribers_per_process l
  ∧ (∀ owner, default 0 (by_owner !! owner) = count (String.eqb owner) ls)
  ∧ (∀ owner n, by_owner !! owner = Some n → 1 <= n <= sse_subscribers_per_session l).

Record Inv (σ : System) : Prop := {
  inv_table : table_ok (jobs (st σ)) (order (st σ));
  inv_counts : counts_ok (jobs (st σ)) (running (st σ)) (queued (st σ));
  inv_jobs : map_Forall (job_ok (sse_replay_events l)) (jobs (st σ));
  inv_phases : phases_ok (jobs (st σ)) (phase σ);
  inv_down : shutting_down (st σ) = true →
    map_Forall (λ _ j, sj_status j ≠ JobStatus.Queued) (jobs (st σ));
  inv_handles : handles_ok (phase σ) (handles (st σ)) (shutting_down (st σ));
  inv_applies : applies_ok (jobs (st σ)) (phase σ) (apply_capabilities (st σ))
    (active_checkpoints (st σ)) (shutting_down (st σ));
  inv_leases : leases_ok (leases σ) (subscribers (st σ)) (subscribers_by_owner (st σ));
}.
End system.

(** ** What each kind of change does to the parts of the invariant *)

Ltac at_id id x := destruct (decide (id = x)) as [<-|?];
  [rewrite ?lookup_insert_eq in * |rewrite ?lookup_insert_ne in * by done].

Section changes.
  Context (config : WebConfig).
Notation l := (wc_limits config).
  Implicit Types (m : gmap string StoredJob) (ph : gmap string Phase.t).

(** *** Phases *)

Lemma phases_wake m ph : phases_ok m ph → phases_ok m (wake <$> ph).
Proof.
  intros [Hk Hr Hq Ha]. split.
  - intros id Hid. rewrite lookup_fmap, fmap_is_Some. auto.
  - intros id j Hj Hrun. rewrite lookup_fmap. destruct (Hr id j Hj Hrun) as [->|[->| ->]]; simpl; auto.
  - intros id j Hj Hqu. rewrite lookup_fmap. destruct (Hq id j Hj Hqu) as [->| ->]; simpl; auto.
  - intros id. rewrite lookup_fmap. intros Hid. apply Ha.
    destruct (ph !! id) as [[]|]; simpl in Hid; intuition congruence.
Qed.

Lemma phases_insert m ph id j :
  phases_ok m ph → ph !! id = None → sj_status j = JobStatus.Queued →
  phases_ok (<[id := j]> m) (<[id := Phase.Starting]> ph).
Proof.
  intros [Hk Hr Hq Ha] Hid Hst. split.
  - intros x Hx. at_id id x; [by eexists|by apply Hk].
  - intros x y Hx Hrun. at_id id x; [congruence|by eapply Hr].
  - intros x y Hx Hqu. at_id id x; [by left|by eapply Hq].
  - intros x Hx. at_id id x; [destruct Hx; congruence|by apply Ha].
Qed.

Lemma phases_delete m ph id j :
  phases_ok m ph → m !! id = Some j → terminal (sj_status j) = true →
  phases_ok (delete id m) ph.
Proof.
  intros [Hk Hr Hq Ha] Hj Hterm. split.
  - intros x [_ Hx]%lookup_delete_is_Some. by apply Hk.
  - intros x y [_ Hx]%lookup_delete_Some. by apply Hr.
  - intros x y [_ Hx]%lookup_delete_Some. by apply Hq.
  - intros x Hx. destruct (Ha x Hx) as (y & Hy & Hrun). exists y.
    rewrite lookup_delete_ne; [done|]. intros ->. simplify_eq. by rewrite Hrun in Hterm.
Qed.

(** The job and the thread of one id change together. *)
Lemma phases_update m ph id j j' p :
  phases_ok m ph → m !! id = Some j →
  (sj_status j' = JobStatus.Running ↔ p = Phase.Begun ∨ p = Phase.Working) →
  (sj_status j' = JobStatus.Queued → p = Phase.Starting ∨ p = Phase.Waiting) →
  phases_ok (<[id := j']> m) (<[id := p]> ph).
Proof.
  intros [Hk Hr Hq Ha] Hj Hrun Hqu. split.
  - intros x Hx. at_id id x; [by eexists|by apply Hk].
  - intros x y Hx Hy. at_id id x; [|by eapply Hr]. simplify_eq.
    apply Hrun in Hy as [-> | ->]; auto.
  - intros x y Hx Hy. at_id id x; [|by eapply Hq]. simplify_eq.
    apply Hqu in Hy as [-> | ->]; auto.
  - intros x Hx. at_id id x; [|by apply Ha]. exists j'. split; [done|].
    apply Hrun. destruct Hx as [[= ->]|[= ->]]; auto.
Qed.

(** Only the job changes, and its status stays or ends a queued job. *)
Lemma phases_job m ph id j j' :
  phases_ok m ph → m !! id = Some j →
  sj_status j' = sj_status j ∨ sj_status j = JobStatus.Queued ∧ terminal (sj_status j') = true →
  phases_ok (<[id := j']> m) ph.
Proof.
  intros [Hk Hr Hq Ha] Hj Hst. split.
  - intros x Hx. at_id id x; [apply Hk; by eexists|by apply Hk].
  - intros x y Hx Hy. at_id id x; [|by eapply Hr]. simplify_eq.
    destruct Hst as [Heq|[_ Ht]]; [apply (Hr id j); congruence|by rewrite Hy in Ht].
  - intros x y Hx Hy. at_id id x; [|by eapply Hq]. simplify_eq.
    destruct Hst as [Heq|[_ Ht]]; [apply (Hq id j); congruence|by rewrite Hy in Ht].
  - intros x Hx. at_id id x; [|by apply Ha]. destruct (Ha id Hx) as (y & Hy & Hrun). simplify_eq.
    exists j'. split; [done|]. destruct Hst as [->|[Hq' _]]; congruence.
Qed.

(** Only the thread moves. *)
Lemma phases_thread m ph id p :
  phases_ok m ph →
  (∀ j, m !! id = Some j → sj_status j = JobStatus.Running →
    p = Phase.Begun ∨ p = Phase.Working ∨ p = Phase.Ended true) →
  (∀ j, m !! id = Some j → sj_status j = JobStatus.Queued → p = Phase.Starting ∨ p = Phase.Waiting) →
  (p = Phase.Begun ∨ p = Phase.Working →
    ∃ j, m !! id = Some j ∧ sj_status j = JobStatus.Running) →
  phases_ok m (<[id := p]> ph).
Proof.
  intros [Hk Hr Hq Ha] Hrun Hqu Hact. split.
  - intros x Hx. at_id id x; [by eexists|by apply Hk].
  - intros x y Hx Hy. at_id id x; [|by eapply Hr].
    destruct (Hrun y Hx Hy) as [-> |[-> | ->]]; auto.
  - intros x y Hx Hy. at_id id x; [|by eapply Hq]. destruct (Hqu y Hx Hy) as [-> | ->]; auto.
  - intros x Hx. at_id id x; [|by apply Ha]. apply Hact. destruct Hx as [[= ->]|[= ->]]; auto.
Qed.

(** *** Counters *)

Lemma has_status_eq s j s' : sj_status j = s' → has_status s j = bool_decide (s' = s).
Proof. by intros <-. Qed.

Definition one_status (s : JobStatus.t) (j : StoredJob) : Z := one_if (has_status s j).

Lemma counts_insert m r q id j :
  counts_ok config m r q → m !! id = None → sj_status j = JobStatus.Queued →
  Z.of_nat (size m) < retained_jobs l → r + q < worker_limit l →
  counts_ok config (<[id := j]> m) r (q + 1).
Proof.
  intros (-> & -> & Hsize & Hrun & Hload) Hid Hst Hroom Hlim. unfold counts_ok.
  rewrite !mcount_insert, map_size_insert_None, !(has_status_eq _ _ _ Hst) by done. simpl.
  split_and!; lia.
Qed.

Lemma counts_delete m r q id j :
  counts_ok config m r q → m !! id = Some j → terminal (sj_status j) = true →
  counts_ok config (delete id m) r q.
Proof.
  intros (-> & -> & Hsize & Hrun & Hload) Hid Hst. unfold counts_ok.
  rewrite !(mcount_delete _ _ _ j), map_size_delete_Some by (done || by eexists).
  destruct (sj_status j) eqn:Hj; try done; rewrite !(has_status_eq _ _ _ Hj); simpl; split_and!; lia.
Qed.

Lemma counts_update m r q r' q' id j j' :
  counts_ok config m r q → m !! id = Some j →
  q' = q - one_status JobStatus.Queued j + one_status JobStatus.Queued j' →
  r' = r - one_status JobStatus.Running j + one_status JobStatus.Running j' →
  r' <= concurrent_jobs l → r' + q' <= r + q →
  counts_ok config (<[id := j']> m) r' q'.
Proof.
  intros (-> & -> & Hsize & Hrun & Hload) Hid -> -> Hr Hsum. unfold counts_ok.
  rewrite !(mcount_update _ _ _ j j'), map_size_insert_Some by (by eexists || done).
  unfold one_status in *. split_and!; try done; lia.
Qed.

Lemma counts_nonneg m r q : counts_ok config m r q → 0 <= r ∧ 0 <= q.
Proof.
  intros (-> & -> & _). split; apply mcount_bounds.
Qed.

Lemma counts_some_queued m r q id j :
  counts_ok config m r q → m !! id = Some j → sj_status j = JobStatus.Queued → 1 <= q.
Proof.
  intros (-> & _) Hid Hst. pose proof (mcount_bounds (has_status JobStatus.Queued) (delete id m)).
  rewrite (mcount_delete _ _ _ _ Hid), (has_status_eq _ _ _ Hst) in H. simpl in H. lia.
Qed.
Lemma counts_some_running m r q id j :
  counts_ok config m r q → m !! id = Some j → sj_status j = JobStatus.Running → 1 <= r.
Proof.
  intros (_ & -> & _) Hid Hst. pose proof (mcount_bounds (has_status JobStatus.Running) (delete id m)).
  rewrite (mcount_delete _ _ _ _ Hid), (has_status_eq _ _ _ Hst) in H. simpl in H. lia.
Qed.

(** *** Handles *)

(** Threads move without being born: live ones stay live or end. *)
Lemma handles_thread ph h down id p p0 :
  handles_ok config ph h down → ph !! id = Some p0 → (∀ b, p0 ≠ Phase.Ended b) →
  handles_ok config (<[id := p]> ph) h down.
Proof.
  intros [Hnd Hk Hdown Hlive Hb] Hid Hp0. split; try done.
  - intros w Hw. at_id id (worker_id w); [by eexists|by apply Hk].
  - intros Hd x y Hx Hy. at_id id x; [by eapply Hlive|by eapply Hlive].
Qed.

Lemma handles_wake ph h down : handles_ok config ph h down → handles_ok config (wake <$> ph) h down.
Proof.
  intros [Hnd Hk Hdown Hlive Hb]. split; try done.
  - intros w Hw. rewrite lookup_fmap, fmap_is_Some. auto.
  - intros Hd x y. rewrite lookup_fmap. destruct (ph !! x) as [z|] eqn:Hz; [|done].
    intros [= <-] Hy. eapply Hlive; [done|done|]. intros b ->. by apply (Hy b).
Qed.

Lemma handles_insert ph h down id :
  handles_ok config ph h down → down = false → ph !! id = None → zlen h < worker_limit l →
  handles_ok config (<[id := Phase.Starting]> ph) (h ++ [{| worker_id := id |}]) down.
Proof.
  intros [Hnd Hk Hdown Hlive Hb] Hd Hid Hlim. split.
  - apply NoDup_app. split_and!; [done| |apply NoDup_singleton].
    intros w Hw ->%list_elem_of_singleton. apply Hk in Hw. simpl in Hw. rewrite Hid in Hw.
    by destruct Hw.
  - intros w [Hw| ->%list_elem_of_singleton]%elem_of_app; simpl.
    + at_id id (worker_id w); [by eexists|by apply Hk].
    + rewrite lookup_insert_eq. by eexists.
  - by rewrite Hd.
  - intros _ x p Hx Hp. at_id id x; apply elem_of_app; [right; by left|left; by eapply Hlive].
  - rewrite zlen_app. change (zlen [_]) with 1. lia.
Qed.

Lemma handles_reap ended ph h h' down :
  handles_ok config ph h down → truthful ended ph → h' ≡ₚ List.filter (alive ended) h →
  handles_ok config ph h' down.
Proof.
  intros [Hnd Hk Hdown Hlive Hb] Htruth Hp. split.
  - rewrite Hp. by apply filter_NoDup.
  - intros w. rewrite Hp, list_elem_of_In, filter_In, <- list_elem_of_In. intros [Hw _]. auto.
  - intros Hd. rewrite (Hdown Hd) in Hp. by apply Permutation_nil_r in Hp.
  - intros Hd x p Hx Hy. rewrite Hp, list_elem_of_In, filter_In, <- list_elem_of_In.
    split; [by eapply Hlive|]. unfold alive.
    destruct (ended _) as [b|] eqn:He; [|done]. apply Htruth in He. simpl in He. simplify_eq.
    by destruct (Hy b).
  - unfold zlen in *. rewrite Hp. pose proof (List.filter_length_le (alive ended) h). lia.
Qed.

(** *** Plans held by apply jobs *)

Lemma holds_plan_update m id j j' x r :
  m !! id = Some j → sj_kind j' = sj_kind j →
  holds_plan (<[id := j']> m) x r ↔
    (x ≠ id ∧ holds_plan m x r)
    ∨ (x = id ∧ terminal (sj_status j') = false ∧ apply_reference (sj_kind j) = Some r).
Proof.
  intros Hid Hk. unfold holds_plan. at_id id x; rewrite <- ?Hk; naive_solver.
Qed.

Lemma holds_plan_live m id j r :
  m !! id = Some j → terminal (sj_status j) = false →
  holds_plan m id r ↔ apply_reference (sj_kind j) = Some r.
Proof. unfold holds_plan. naive_solver. Qed.

(** The job stays live. *)
Lemma applies_job m ph ph' caps caps' active down id j j' :
  applies_ok m ph caps active down → m !! id = Some j → sj_kind j' = sj_kind j →
  sj_owner j' = sj_owner j → sj_source_id j' = sj_source_id j →
  terminal (sj_status j') = terminal (sj_status j) →
  (∀ x, x ≠ id → (ph' !! x = Some Phase.Begun → ph !! x = Some Phase.Begun) ∧ caps' !! x = caps !! x) →
  (sj_status j' = JobStatus.Queued ∨ ph' !! id = Some Phase.Begun →
    (sj_status j = JobStatus.Queued ∨ ph !! id = Some Phase.Begun) ∧ caps' !! id = caps !! id) →
  applies_ok (<[id := j']> m) ph' caps' active down.
Proof.
  intros [Ha Hu Hc] Hid Hk Ho Hs Ht Hothers Hself.
  assert (∀ x r, holds_plan (<[id := j']> m) x r ↔ holds_plan m x r) as Hsame.
  { intros x r. rewrite (holds_plan_update _ _ _ _ _ _ Hid Hk), Ht.
    unfold holds_plan. destruct (decide (x = id)) as [->|]; naive_solver. }
  split.
  - intros Hd r. rewrite (Ha Hd). by setoid_rewrite Hsame.
  - intros x y r. rewrite !Hsame. apply Hu.
  - intros x y r Hx Hr Hst. at_id id x.
    + simplify_eq. destruct (Hself Hst) as [Hst' ->]. rewrite Ho, Hs. rewrite Hk in Hr. by eapply Hc.
    + destruct (Hothers x) as [Hph ->]; [done|]. eapply Hc; [done|done|]. naive_solver.
Qed.

(** The job ends, and with it its hold on the plan. *)
Lemma applies_end m ph ph' caps caps' active active' down id j j' :
  applies_ok m ph caps active down → m !! id = Some j → sj_kind j' = sj_kind j →
  terminal (sj_status j) = false → terminal (sj_status j') = true →
  ph' !! id ≠ Some Phase.Begun →
  (∀ x, x ≠ id → (ph' !! x = Some Phase.Begun → ph !! x = Some Phase.Begun) ∧ caps' !! x = caps !! x) →
  (down = false → active' = match apply_reference (sj_kind j) with
                            | Some r => active ∖ {[r]} | None => active end) →
  applies_ok (<[id := j']> m) ph' caps' active' down.
Proof.
  intros [Ha Hu Hc] Hid Hk Hlive Hterm Hphase Hothers Hactive.
  assert (∀ x r, holds_plan (<[id := j']> m) x r ↔ x ≠ id ∧ holds_plan m x r) as Hsame.
  { intros x r. rewrite (holds_plan_update _ _ _ _ _ _ Hid Hk), Hterm. naive_solver. }
  split.
  - intros Hd r. setoid_rewrite Hsame. rewrite (Hactive Hd).
    destruct (apply_reference (sj_kind j)) as [r0|] eqn:Hr0.
    + rewrite elem_of_difference, elem_of_singleton, (Ha Hd). split.
      * intros [[x Hx] Hne]. exists x. split; [|done]. intros ->. 
        apply (holds_plan_live _ _ _ _ Hid Hlive) in Hx. congruence.
      * intros (x & Hne & Hx). split; [by eexists|]. intros ->. apply Hne.
        apply (Hu x id r0); [done|]. by exists j.
    + rewrite (Ha Hd). split; [|naive_solver]. intros [x Hx]. exists x. split; [|done].
      intros ->. apply (holds_plan_live _ _ _ _ Hid Hlive) in Hx. congruence.
  - intros x y r. rewrite !Hsame. intros [_ Hx] [_ Hy]. by eapply Hu.
  - intros x y r Hx Hr Hst. at_id id x.
    + simplify_eq. destruct Hst as [Hst|Hst]; [by rewrite Hst in Hterm|done].
    + destruct (Hothers x) as [Hph ->]; [done|]. eapply Hc; [done|done|]. naive_solver.
Qed.

Lemma applies_delete m ph caps active down id j :
  applies_ok m ph caps active down → m !! id = Some j → terminal (sj_status j) = true →
  applies_ok (delete id m) ph caps active down.
Proof.
  intros [Ha Hu Hc] Hid Hterm.
  assert (∀ x r, holds_plan (delete id m) x r ↔ holds_plan m x r) as Hsame.
  { intros x r. unfold holds_plan. setoid_rewrite lookup_delete_Some.
    split; [naive_solver|]. intros (y & Hy & Ht & Hr). exists y. split; [|done].
    split; [|done]. intros ->. simplify_eq. congruence. }
  split.
  - intros Hd r. rewrite (Ha Hd). by setoid_rewrite Hsame.
  - intros x y r. rewrite !Hsame. apply Hu.
  - intros x y r [_ Hx]%lookup_delete_Some. by apply Hc.
Qed.

(** A new job that is no apply job. *)
Lemma applies_insert m ph caps active down id j :
  applies_ok m ph caps active down → m !! id = None → ph !! id = None →
  apply_reference (sj_kind j) = None →
  applies_ok (<[id := j]> m) (<[id := Phase.Starting]> ph) caps active down.
Proof.
  intros [Ha Hu Hc] Hid Hph Hr0.
  assert (∀ x r, holds_plan (<[id := j]> m) x r ↔ holds_plan m x r) as Hsame.
  { intros x r. unfold holds_plan. at_id id x; [|done]. rewrite Hid. naive_solver. }
  split.
  - intros Hd r. rewrite (Ha Hd). by setoid_rewrite Hsame.
  - intros x y r. rewrite !Hsame. apply Hu.
  - intros x y r Hx Hr Hst. at_id id x; [congruence|by eapply Hc].
Qed.

(** A new apply job, for a plan nobody holds. *)
Lemma applies_insert_apply m ph caps active down id j r0 cap :
  applies_ok m ph caps active down → down = false → m !! id = None → ph !! id = None →
  apply_reference (sj_kind j) = Some r0 → terminal (sj_status j) = false → r0 ∉ active →
  drb_plan_reference (gb_dry_run (cap_binding cap)) = r0 →
  gb_owner (cap_binding cap) = sj_owner j →
  gb_source_profile_id (cap_binding cap) = sj_source_id j →
  applies_ok (<[id := j]> m) (<[id := Phase.Starting]> ph) (<[id := cap]> caps)
    ({[r0]} ∪ active) down.
Proof.
  intros [Ha Hu Hc] Hd Hid Hph Hr0 Hlive Hfree Hcr Hco Hcs.
  assert (∀ x r, holds_plan (<[id := j]> m) x r ↔ holds_plan m x r ∨ (x = id ∧ r = r0)) as Hsame.
  { intros x r. unfold holds_plan. at_id id x; rewrite ?Hid; naive_solver. }
  assert (∀ x, ¬ holds_plan m x r0) as Hnone.
  { intros x Hx. apply Hfree, (Ha Hd). by exists x. }
  split.
  - intros _ r. setoid_rewrite Hsame. rewrite elem_of_union, elem_of_singleton, (Ha Hd). naive_solver.
  - intros x y r. rewrite !Hsame. naive_solver.
  - intros x y r Hx Hr Hst. at_id id x; [|by eapply Hc]. exists cap. simplify_eq.
    split_and!; congruence.
Qed.
End changes.

Lemma jobs_state_ext s t :
  jobs s = jobs t → order s = order t → handles s = handles t → running s = running t →
  queued s = queued t → shutting_down s = shutting_down t → worker_failed s = worker_failed t →
  subscribers s = subscribers t → subscribers_by_owner s = subscribers_by_owner t →
  apply_capabilities s = apply_capabilities t → active_checkpoints s = active_checkpoints t →
  s = t.
Proof. destruct s, t. simpl. intros. subst. done. Qed.

(** ** Every step preserves the invariant *)
Section preservation.
  Context (config : WebConfig) (Hlimits : limits_valid (wc_limits config) = true).
Notation l := (wc_limits config).
Notation Inv := (Inv config).
Notation sys s ph ls := {| st := s; phase := ph; leases := ls |}.

Lemma replay_positive : 1 <= sse_replay_events l.
Proof using Hlimits. pose proof (limits_valid_jobs _ Hlimits). lia. Qed.

Lemma worker_limit_eq : worker_limit l = concurrent_jobs l + queued_jobs l ∧ worker_limit l <= 12.
Proof using Hlimits.
  pose proof (limits_valid_jobs _ Hlimits). unfold worker_limit, sat_add, u64_max. lia.
Qed.

Lemma inv_initial : Inv initial.
Proof using Hlimits.
  pose proof (limits_valid_jobs _ Hlimits). pose proof worker_limit_eq.
  split; simpl; try done.
  - split; [constructor|]. intros id. rewrite lookup_empty. split; [by intros ?%elem_of_nil|by intros []].
  - unfold counts_ok. rewrite !mcount_empty, map_size_empty. lia.
  - by split; [intros id []|intros id j []%lookup_empty_Some|intros id j []%lookup_empty_Some|intros id [|]].
  - split; [constructor|by intros w ?%elem_of_nil|done|intros _ id p; by rewrite lookup_empty|].
    unfold zlen. simpl. lia.
  - assert (∀ id r, ¬ holds_plan ∅ id r) as Hnone by (by intros id r (j & Hj & _)).
    split; [|by intros id1 id2 r H1%Hnone|done].
    intros _ r. split; [set_solver|]. by intros [id Hid%Hnone].
  - unfold leases_ok, zlen, count. simpl. split_and!; try done; lia.
Qed.

Lemma inv_reap ended s ph ls :
  Inv (sys s ph ls) → truthful ended ph → Inv (sys (reap_workers ended s) ph ls).
Proof using.
  intros [Ht Hc Hj Hp Hd Hh Ha Hl] Htruth. simpl in *.
  destruct (reap_workers_spec ended s) as (h & Hperm & ->). split; simpl; try done.
  by eapply handles_reap.
Qed.

Lemma inv_evict s ph ls :
  Inv (sys s ph ls) → Inv (sys (evict_terminal (retained_jobs l) s) ph ls).
Proof using.
  apply (evict_ind (retained_jobs l) (λ s, Inv (sys s ph ls))).
  - clear s. intros s id j [Ht Hc Hj Hp Hd Hh Ha Hl] Hid Hterm _. simpl in *.
    split; simpl; try done.
    + by apply table_delete.
    + by eapply counts_delete.
    + by apply map_Forall_delete.
    + by eapply phases_delete.
    + intros Hdown. apply map_Forall_delete. auto.
    + by eapply applies_delete.
  - clear s. intros s Hs. apply (inv_table _ _ Hs).
Qed.

(** *** Admission *)

Lemma admission_full_false id extra s ph ls :
  Inv (sys s ph ls) → admission_full l id extra s = false →
  extra = false ∧ jobs s !! id = None ∧ running s + queued s < worker_limit l
  ∧ zlen (handles s) < worker_limit l ∧ Z.of_nat (size (jobs s)) < retained_jobs l.
Proof using Hlimits.
  intros Hs. pose proof (counts_nonneg _ _ _ _ (inv_counts _ _ Hs)) as [Hr Hq]. simpl in Hr, Hq.
  destruct (inv_counts _ _ Hs) as (_ & _ & _ & _ & Hload). simpl in Hload.
  pose proof worker_limit_eq as [_ Hle].
  unfold admission_full, sat_add, u64_max. intros H. bools.
  destruct (jobs s !! id); [done|]. split_and!; try done; lia.
Qed.

Lemma enqueue_queued job s ph ls :
  Inv (sys s ph ls) → running s + queued s < worker_limit l →
  queued (enqueue l job s) = queued s + 1.
Proof using Hlimits.
  intros Hs Hload. pose proof (counts_nonneg _ _ _ _ (inv_counts _ _ Hs)) as [Hr Hq]. simpl in *.
  pose proof worker_limit_eq as [_ Hle]. unfold sat_add, u64_max. lia.
Qed.

(** A queued job has been added, and its thread. *)
Lemma inv_enqueue s ph ls id owner source_id source_label kind caps active :
  let s' := enqueue l (new_job id owner source_id source_label kind) s in
  Inv (sys s ph ls) → shutting_down s = false → ph !! id = None → jobs s !! id = None →
  running s + queued s < worker_limit l → zlen (handles s) < worker_limit l →
  Z.of_nat (size (jobs s)) < retained_jobs l →
  applies_ok (jobs s') (<[id := Phase.Starting]> ph) caps active (shutting_down s) →
  Inv (sys (set_handles (λ h, h ++ [{| worker_id := id |}])
             (set_checkpoints (λ _, active) (set_capabilities (λ _, caps) s')))
           (<[id := Phase.Starting]> ph) ls).
Proof using Hlimits.
  intros s' Hs Hdown Hph Hid Hload Hh Hsize Happ.
  pose proof (enqueue_queued (new_job id owner source_id source_label kind) _ _ _ Hs Hload) as Hq.
  destruct Hs as [Ht Hc Hj Hp Hd Hhd _ Hl]. simpl in *. split; simpl in *; try done.
  - by apply table_insert.
  - rewrite Hq. by apply counts_insert.
  - apply map_Forall_insert_2; [|done]. apply new_job_ok, replay_positive.
  - by apply phases_insert.
  - by rewrite Hdown.
  - by apply handles_insert.
Qed.

(** No thread could be spawned: the state is as before. *)
Lemma dequeue_enqueue s ph ls job :
  Inv (sys s ph ls) → jobs s !! sj_id job = None → running s + queued s < worker_limit l →
  dequeue (sj_id job) (enqueue l job s) = s.
Proof using Hlimits.
  intros Hs Hid Hload. pose proof (enqueue_queued job _ _ _ Hs Hload) as Hq.
  pose proof (counts_nonneg _ _ _ _ (inv_counts _ _ Hs)) as [_ Hq0].
  destruct (dequeue_table _ _ _ (push_event (sse_replay_events l) job) (inv_table _ _ Hs) Hid) as [Hm Ho].
  apply jobs_state_ext; try reflexivity; [exact Hm|exact Ho|].
  change (sat_sub (queued (enqueue l job s)) 1 = queued s). rewrite Hq. unfold sat_sub.
  change (0 <= queued s) in Hq0. lia.
Qed.

Lemma inv_admit_kind a owner source_id kind s ph ls r s' :
  Inv (sys s ph ls) → fresh_admission a ph → unprivileged kind →
  admit_kind config a owner source_id kind s = (r, s') →
  Inv (sys s' (admitted r ph) ls).
Proof using Hlimits.
  intros Hs [Htruth Hfresh] Hkind. unfold admit_kind.
  destruct (config_source config source_id) as [profile|]; [|by intros [= <- <-]].
  destruct (adm_random_id a) as [id|] eqn:Hid; [|by intros [= <- <-]].
  pose proof (inv_evict _ _ _ (inv_reap _ _ _ _ Hs Htruth)) as Hs1.
  set (s1 := evict_terminal _ _) in *. destruct (shutting_down s1 || worker_failed s1) eqn:Hdown;
    [by intros [= <- <-]|]. apply orb_false_iff in Hdown as [Hdown _].
  destruct (admission_full l id false s1) eqn:Hfull; [by intros [= <- <-]|].
  destruct (admission_full_false _ _ _ _ _ Hs1 Hfull) as (_ & Hnone & Hload & Hh & Hsize).
  destruct (adm_spawned a); intros [= <- <-]; simpl.
  - pose proof (inv_enqueue s1 ph ls id owner source_id (sp_label profile) kind
      (apply_capabilities s1) (active_checkpoints s1) Hs1 Hdown (Hfresh _ eq_refl) Hnone Hload Hh Hsize) as Hfin.
    destruct s1. apply Hfin. apply applies_insert; [|done|by apply Hfresh|done].
    by apply (inv_applies _ _ Hs1).
  - pose proof (dequeue_enqueue s1 ph ls (new_job id owner source_id (sp_label profile) kind)
      Hs1 Hnone Hload) as Heq. cbn [sj_id new_job] in Heq. by rewrite Heq.
Qed.

Lemma inv_admit_apply a capability s ph ls r s' :
  Inv (sys s ph ls) → fresh_admission a ph →
  admit_apply config a capability s = (r, s') → Inv (sys s' (admitted r ph) ls).
Proof using Hlimits.
  intros Hs [Htruth Hfresh]. unfold admit_apply.
  set (reference := drb_plan_reference _). set (owner := gb_owner _).
  set (source_id := gb_source_profile_id _).
  destruct (config_source config source_id) as [profile|]; [|by intros [= <- <-]].
  destruct (adm_random_id a) as [id|] eqn:Hid; [|by intros [= <- <-]].
  pose proof (inv_evict _ _ _ (inv_reap _ _ _ _ Hs Htruth)) as Hs1.
  set (s1 := evict_terminal _ _) in *. destruct (shutting_down s1 || worker_failed s1) eqn:Hdown;
    [by intros [= <- <-]|]. apply orb_false_iff in Hdown as [Hdown _].
  destruct (admission_full l id _ s1) eqn:Hfull; [by intros [= <- <-]|].
  destruct (admission_full_false _ _ _ _ _ Hs1 Hfull) as (Hfree & Hnone & Hload & Hh & Hsize).
  apply bool_decide_eq_false in Hfree.
  set (kind := JobKind.Apply reference _).
  destruct (adm_spawned a); intros [= <- <-]; simpl.
  - apply (inv_enqueue s1 ph ls id owner source_id (sp_label profile) kind
      (<[id := capability]> (apply_capabilities s1)) ({[reference]} ∪ active_checkpoints s1)); auto.
    apply applies_insert_apply; auto. by apply (inv_applies _ _ Hs1).
  - assert (set_capabilities (delete id) (set_checkpoints (λ c, c ∖ {[reference]})
      (dequeue id (set_checkpoints (union {[reference]}) (set_capabilities (<[id:=capability]>)
        (enqueue l (new_job id owner source_id (sp_label profile) kind) s1)))))
      = set_capabilities (delete id) s1) as ->.
    { pose proof (dequeue_enqueue s1 ph ls (new_job id owner source_id (sp_label profile) kind)
        Hs1 Hnone Hload) as Heq. cbn [sj_id new_job] in Heq.
      assert (({[reference]} ∪ active_checkpoints s1) ∖ {[reference]} = active_checkpoints s1)
        as Hck by set_solver.
      apply jobs_state_ext; try reflexivity.
      - exact (f_equal jobs Heq).
      - exact (f_equal order Heq).
      - exact (f_equal queued Heq).
      - apply delete_insert_eq.
      - exact Hck. }
    destruct Hs1 as [Ht Hc Hj Hp Hd Hhd Ha Hl]. simpl in *. split; simpl; try done.
    destruct Ha as [Ha Hu Hcap]. split; try done. intros x j r Hx Hr Hst. 
    destruct (decide (x = id)) as [->|]; [congruence|]. rewrite lookup_delete_ne by done. by eapply Hcap.
Qed.

(** *** Workers *)

Lemma is_queued_job_true s id :
  is_queued_job s id = true ↔ ∃ j, jobs s !! id = Some j ∧ sj_status j = JobStatus.Queued.
Proof using.
  unfold is_queued_job, is_some_and. destruct (jobs s !! id) as [j|]; [|naive_solver].
  unfold has_status. rewrite bool_decide_eq_true. naive_solver.
Qed.

Lemma inv_begin id s ph ls o s' :
  Inv (sys s ph ls) → ph !! id = Some Phase.Starting → begin l id s = (o, s') →
  Inv (sys s' (<[id := begin_phase o]> ph) ls).
Proof using Hlimits.
  intros [Ht Hc Hj Hp Hd Hh Ha Hl] Hph. simpl in *. unfold begin.
  assert (handles_ok config (<[id := begin_phase o]> ph) (handles s) (shutting_down s)) as Hh'
    by (eapply handles_thread; [done|done|done]).
  destruct (negb (is_queued_job s id) || shutting_down s) eqn:Hstop.
  - intros [= <- <-]. assert (¬ ∃ j, jobs s !! id = Some j ∧ sj_status j = JobStatus.Queued) as Hnq.
    { rewrite <- is_queued_job_true. apply orb_true_iff in Hstop as [Hstop|Hstop].
      - by destruct (is_queued_job s id).
      - rewrite is_queued_job_true. intros (j & Hid & Hst). by apply (Hd Hstop id j). }
    split; simpl; try done.
    + apply phases_thread; [done|..].
      * intros j Hid Hrun. destruct (po_running _ _ Hp id j Hid Hrun) as [?|[?|?]]; congruence.
      * intros j Hid Hst. naive_solver.
      * by intros [|].
    + destruct Ha as [Ha Hu Hcap]. split; try done. intros x j r Hx Hr Hst. at_id id x; [|by eapply Hcap].
      destruct Hst as [Hst|?]; [naive_solver|done].
  - apply orb_false_iff in Hstop as [Hq Hdown]. apply negb_false_iff, is_queued_job_true in Hq as (j & Hid & Hst).
    destruct (_ && _) eqn:Hgo.
    + intros [= <- <-]. bools. simpl. rewrite Hid.
      pose proof (counts_some_queued _ _ _ _ _ _ Hc Hid Hst) as Hq1.
      pose proof (counts_nonneg _ _ _ _ Hc) as [Hr0 _]. pose proof worker_limit_eq as [Hwl Hle].
      pose proof Hc as (_ & _ & _ & _ & Hload).
      split; simpl; try done.
      * by eapply table_update.
      * eapply counts_update; [done|done|..]; unfold one_status;
          rewrite ?(has_status_eq _ j _ Hst), ?(has_status_eq _ (push_event _ _) JobStatus.Running) by done;
          simpl; unfold sat_sub, sat_add, u64_max; lia.
      * apply map_Forall_insert_2; [|done].
        eapply push_event_ok; [apply replay_positive|by apply (Hj id j Hid)|by rewrite Hst|done|apply (jo_token _ _ _ (Hj id j Hid))|done].
      * eapply phases_update; [done|done|simpl; naive_solver|done].
      * by rewrite Hdown.
      * eapply applies_job; [done|done|done|done|done|by rewrite Hst|..].
        -- intros x Hx. rewrite lookup_insert_ne by done. done.
        -- intros _. split; [by left|done].
    + intros [= <- <-]. split; simpl; try done.
      * apply phases_thread; [done|intros; congruence|intros; by right|by intros [|]].
      * destruct Ha as [Ha Hu Hcap]. split; try done. intros x y r Hx Hr Hst'. at_id id x; [|by eapply Hcap].
        eapply Hcap; [done|done|]. left. congruence.
Qed.

Lemma inv_inputs id s ph ls r s' :
  Inv (sys s ph ls) → ph !! id = Some Phase.Begun → job_inputs id s = (r, s') →
  Inv (sys s' (<[id := if r then Phase.Working else Phase.Exiting]> ph) ls).
Proof using.
  intros [Ht Hc Hj Hp Hd Hh Ha Hl] Hph. simpl in *. unfold job_inputs.
  destruct (po_active _ _ Hp id (or_introl Hph)) as (j & Hid & Hrun). rewrite Hid.
  intros [= <- <-]. split; simpl; try done.
  - apply phases_thread; [done|auto|intros; congruence|eauto].
  - by eapply handles_thread.
  - destruct Ha as [Ha Hu Hcap]. split; try done. intros x y r Hx Hr Hst. at_id id x.
    + destruct Hst as [?|?]; congruence.
    + rewrite lookup_delete_ne by done. by eapply Hcap.
Qed.

Lemma inv_observe id event s ph ls :
  Inv (sys s ph ls) → ph !! id = Some Phase.Working → Inv (sys (observe l id event s) ph ls).
Proof using Hlimits.
  intros Hs Hph. unfold observe. destruct event as [v event|]; [|done].
  destruct Hs as [Ht Hc Hj Hp Hd Hh Ha Hl]. simpl in *.
  destruct (po_active _ _ Hp id (or_intror Hph)) as (j & Hid & Hrun). rewrite Hid.
  split; simpl; try done.
  - by eapply table_update.
  - eapply counts_update; [done|done|..]; unfold one_status, has_status; simpl; try lia.
    by destruct Hc as (_ & _ & _ & ? & _).
  - apply map_Forall_insert_2; [|done].
    eapply push_event_ok; [apply replay_positive|by apply (Hj id j Hid)|by rewrite Hrun|done|apply (jo_token _ _ _ (Hj id j Hid))|].
    simpl. rewrite Hrun. done.
  - eapply phases_job; [done|done|by left].
  - intros Hdown. apply map_Forall_insert_2; [simpl; congruence|auto].
  - eapply applies_job; [done|done|done|done|done|done|done|].
    intros [Hst|Hst]; [simpl in Hst; congruence|congruence].
Qed.

Lemma conclude_status o receipt j : terminal (sj_status (conclude o receipt j)) = true.
Proof using. by destruct o. Qed.

Lemma conclude_same o receipt j : same_log j (conclude o receipt j).
Proof using. by destruct o. Qed.

Lemma conclude_token o receipt j :
  sj_cancellation (conclude o receipt j) = sj_cancellation j
  ∧ sj_cancellation_requested (conclude o receipt j) = sj_cancellation_requested j.
Proof using. by destruct o. Qed.

Lemma terminal_counts j : terminal (sj_status j) = true →
  one_status JobStatus.Queued j = 0 ∧ one_status JobStatus.Running j = 0.
Proof using.
  intros Ht. unfold one_status, has_status. by destruct (sj_status j).
Qed.

(** The capabilities and plans after [finish], and the rest. *)
Lemma finish_eq id o history s j :
  jobs s !! id = Some j →
  finish l id o history s
  = set_jobs (<[id := push_event (sse_replay_events l) (conclude (final_outcome history o)
                  (match history with Ok receipt => receipt | Err _ => None end) j)]>)
      (set_running (λ n, sat_sub n 1)
        (set_worker_failed (worker_failed s || negb (is_ok history))
          (set_capabilities (delete id)
            (set_checkpoints (λ c, match apply_reference (sj_kind j) with
                                   | Some r => c ∖ {[r]} | None => c end) s)))).
Proof using.
  intros Hid. unfold finish. rewrite Hid. cbn [mbind option_bind].
  destruct (apply_reference (sj_kind j)), history; simpl; rewrite Hid; destruct s; simpl;
    by rewrite ?orb_false_r, ?orb_true_r.
Qed.

Lemma inv_finish id o history s ph ls :
  Inv (sys s ph ls) → ph !! id = Some Phase.Working →
  Inv (sys (finish l id o history s) (<[id := Phase.Exiting]> (wake <$> ph)) ls).
Proof using Hlimits.
  intros [Ht Hc Hj Hp Hd Hh Ha Hl] Hph. simpl in *.
  destruct (po_active _ _ Hp id (or_intror Hph)) as (j & Hid & Hrun). rewrite (finish_eq _ _ _ _ _ Hid).
  set (receipt := match history with Ok receipt => receipt | Err _ => None end).
  set (j' := conclude (final_outcome history o) receipt j).
  destruct (conclude_token (final_outcome history o) receipt j) as [Htok Hreq].
  pose proof (conclude_status (final_outcome history o) receipt j) as Hterm. fold j' in Htok, Hreq, Hterm.
  assert (terminal (sj_status (push_event (sse_replay_events l) j')) = true) as Hterm' by done.
  destruct (terminal_counts _ Hterm') as [Hq0 Hr0].
  pose proof (counts_some_running _ _ _ _ _ _ Hc Hid Hrun) as Hr1.
  assert (terminal (sj_status j) = false) as Hlive by (by rewrite Hrun).
  assert (∀ x, ph !! x = Some Phase.Begun ↔ (wake <$> ph) !! x = Some Phase.Begun) as Hwake.
  { intros x. rewrite lookup_fmap. destruct (ph !! x) as [[]|]; simpl; split; congruence. }
  split; simpl; try done.
  - by eapply table_update.
  - eapply counts_update; [done|done|..]; rewrite ?Hq0, ?Hr0; unfold one_status;
      rewrite ?(has_status_eq _ j _ Hrun); simpl; unfold sat_sub; 
      destruct Hc as (_ & _ & _ & ? & _); lia.
  - apply map_Forall_insert_2; [|done].
    eapply push_event_ok; [apply replay_positive|by apply (Hj id j Hid)|done|apply conclude_same|..].
    + rewrite Htok, Hreq. by apply (Hj id j Hid).
    + intros Hq. unfold j' in Hterm. fold j' in Hterm. by rewrite Hq in Hterm.
  - eapply phases_update; [by apply phases_wake|done| |].
    + split; [|naive_solver]. intros Hx. simpl in Hx. by rewrite Hx in Hterm.
    + intros Hx. simpl in Hx. by rewrite Hx in Hterm.
  - intros Hdown. apply map_Forall_insert_2; [|auto]. intros Hx. simpl in Hx. by rewrite Hx in Hterm.
  - apply handles_thread with (p0 := Phase.Working); [by apply handles_wake| |done].
    by rewrite lookup_fmap, Hph.
  - eapply applies_end; [done|done| |done|done|by rewrite lookup_insert_eq|..].
    + by destruct (final_outcome history o).
    + intros x Hx. rewrite lookup_insert_ne, lookup_delete_ne by done. split; [|done]. by apply Hwake.
    + done.
Qed.

(** *** Cancellation and shutdown *)

Lemma inv_wake s ph ls (b : bool) :
  Inv (sys s ph ls) → Inv (sys s (if b then wake <$> ph else ph) ls).
Proof using.
  intros [Ht Hc Hj Hp Hd Hh Ha Hl]. destruct b; [|done]. split; simpl in *; try done.
  - by apply phases_wake.
  - by apply handles_wake.
  - destruct Ha as [Ha Hu Hcap]. split; try done. intros x j r Hx Hr Hst. eapply Hcap; [done|done|].
    destruct Hst as [?|Hst]; [by left|right]. rewrite lookup_fmap in Hst.
    by destruct (ph !! x) as [[]|].
Qed.

Lemma owned_job_Some id owner s j :
  owned_job id owner s = Some j ↔ jobs s !! id = Some j ∧ sj_owner j = owner.
Proof using.
  unfold owned_job. destruct (jobs s !! id) as [k|]; [|naive_solver].
  destruct (String.eqb_spec (sj_owner k) owner); naive_solver.
Qed.

Lemma cancel_job_ok id j :
  job_ok (sse_replay_events l) id j → cancellable j = true →
  job_ok (sse_replay_events l) id (cancel_job (sse_replay_events l) j).
Proof using Hlimits.
  intros Hj Hc. unfold cancellable in Hc. bools. unfold cancel_job.
  eapply push_event_ok; [apply replay_positive|done|done|..].
  - by destruct (has_status _ _).
  - by destruct (has_status _ _).
  - destruct (has_status _ _) eqn:Hq; [done|]. intros Hst.
    by rewrite (has_status_eq _ _ _ Hst) in Hq.
Qed.

Lemma queued_cancellable id j :
  job_ok (sse_replay_events l) id j → sj_status j = JobStatus.Queued → cancellable j = true.
Proof using. intros Hj Hq. unfold cancellable. by rewrite (jo_queued _ _ _ Hj Hq), Hq. Qed.

Lemma cancel_job_status j :
  sj_status (cancel_job (sse_replay_events l) j)
  = if has_status JobStatus.Queued j then JobStatus.Cancelled else sj_status j.
Proof using.
  unfold cancel_job. change (has_status JobStatus.Queued (request_cancellation j))
    with (has_status JobStatus.Queued j). by destruct (has_status JobStatus.Queued j).
Qed.

Lemma cancel_job_fields j :
  sj_kind (cancel_job (sse_replay_events l) j) = sj_kind j
  ∧ sj_owner (cancel_job (sse_replay_events l) j) = sj_owner j
  ∧ sj_source_id (cancel_job (sse_replay_events l) j) = sj_source_id j.
Proof using.
  unfold cancel_job. by destruct (has_status _ _).
Qed.

Lemma inv_cancel id owner s ph ls r s' :
  Inv (sys s ph ls) → cancel l id owner s = (r, s') → Inv (sys s' ph ls).
Proof using Hlimits.
  intros [Ht Hc Hj Hp Hd Hh Ha Hl]. simpl in *. unfold cancel.
  destruct (owned_job id owner s) as [j|] eqn:Hown; [|by intros [= <- <-]].
  apply owned_job_Some in Hown as [Hid Howner]. pose proof (Hj id j Hid) as Hok.
  destruct (cancel_job_fields j) as (Hkind & Howner' & Hsource).
  destruct (has_status JobStatus.Queued j) eqn:Hq.
  - assert (sj_status j = JobStatus.Queued) as Hst by (by apply bool_decide_eq_true in Hq).
    rewrite (queued_cancellable _ _ Hok Hst). intros [= <- <-].
    pose proof (cancel_job_status j) as Hst'. rewrite Hq in Hst'.
    pose proof (counts_some_queued _ _ _ _ _ _ Hc Hid Hst) as Hq1.
    set (j' := cancel_job (sse_replay_events l) j) in *.
    assert (∀ c, Inv (sys (set_checkpoints (λ _, c) (set_capabilities (delete id)
      (set_queued (λ n, sat_sub n 1) (set_jobs (<[id := j']>) s)))) ph ls) ↔
      applies_ok (<[id := j']> (jobs s)) ph (delete id (apply_capabilities s)) c (shutting_down s)) as Hinv.
    { intros c. split; [by intros [_ _ _ _ _ _ Ha' _]|]. intros Ha'. split; simpl; try done.
      - by eapply table_update.
      - eapply counts_update; [done|done|..]; unfold one_status;
          rewrite ?(has_status_eq _ j _ Hst), ?(has_status_eq _ j' _ Hst'); simpl; unfold sat_sub;
          destruct Hc as (_ & _ & _ & ? & _); lia.
      - apply map_Forall_insert_2; [|done]. apply cancel_job_ok; [done|by eapply queued_cancellable].
      - eapply phases_job; [done|done|right]. by rewrite Hst'.
      - intros Hdown. apply map_Forall_insert_2; [congruence|auto]. }
    assert (ph !! id ≠ Some Phase.Begun) as Hph.
    { destruct (po_queued _ _ Hp id j Hid Hst) as [->| ->]; done. }
    assert (applies_ok (<[id := j']> (jobs s)) ph (delete id (apply_capabilities s))
      (match apply_reference (sj_kind j) with
       | Some r => active_checkpoints s ∖ {[r]} | None => active_checkpoints s end)
      (shutting_down s)) as Happ.
    { eapply applies_end; [done|done|done|by rewrite Hst|by rewrite Hst'|done|..|done].
      intros x Hx. by rewrite lookup_delete_ne by done. }
    apply Hinv in Happ. destruct (apply_reference (sj_kind j)); destruct s; exact Happ.
  - destruct (cancellable j) eqn:Hcan.
    + intros [= <- <-]. pose proof (cancel_job_status j) as Hst'. rewrite Hq in Hst'.
      set (j' := cancel_job (sse_replay_events l) j) in *. split; simpl; try done.
      * by eapply table_update.
      * eapply counts_update; [done|done|..]; unfold one_status, has_status; rewrite ?Hst'; try lia.
        by destruct Hc as (_ & _ & _ & ? & _).
      * apply map_Forall_insert_2; [|done]. by apply cancel_job_ok.
      * eapply phases_job; [done|done|by left].
      * intros Hdown. apply map_Forall_insert_2; [|auto]. rewrite Hst'. by apply (Hd Hdown id).
      * eapply applies_job; [done|done|done|done|done|by rewrite Hst'|done|].
        rewrite Hst'. intros [?|?]; split; auto.
    + intros [= <- <-]. assert (<[id:=j]> (jobs s) = jobs s) as Heq by (by apply insert_id).
      split; simpl; rewrite ?Heq; done.
Qed.

(** What [shutdown] makes of a job. *)
Definition shut (j : StoredJob) : StoredJob :=
  if cancellable j then cancel_job (sse_replay_events l) j else j.

Lemma shut_ok id j :
  job_ok (sse_replay_events l) id j → job_ok (sse_replay_events l) id (shut j).
Proof using Hlimits.
  unfold shut. intros Hj. destruct (cancellable j) eqn:Hc; [by apply cancel_job_ok|done].
Qed.

Lemma shut_status id j :
  job_ok (sse_replay_events l) id j →
  sj_status (shut j) = if has_status JobStatus.Queued j then JobStatus.Cancelled else sj_status j.
Proof using.
  intros Hj. unfold shut. destruct (cancellable j) eqn:Hc; [apply cancel_job_status|].
  destruct (has_status JobStatus.Queued j) eqn:Hq; [|done].
  apply bool_decide_eq_true in Hq. by rewrite (queued_cancellable _ _ Hj Hq) in Hc.
Qed.

Lemma shut_fields j :
  sj_kind (shut j) = sj_kind j ∧ sj_owner (shut j) = sj_owner j
  ∧ sj_source_id (shut j) = sj_source_id j.
Proof using. unfold shut. destruct (cancellable j); [apply cancel_job_fields|done]. Qed.

Lemma shut_running id j :
  job_ok (sse_replay_events l) id j →
  has_status JobStatus.Running (shut j) = has_status JobStatus.Running j
  ∧ has_status JobStatus.Queued (shut j) = false.
Proof using.
  intros Hj. pose proof (shut_status _ _ Hj) as Hst. unfold has_status in *. rewrite Hst.
  by destruct (sj_status j).
Qed.

Lemma shut_mcount s ph ls :
  Inv (sys s ph ls) →
  mcount (has_status JobStatus.Queued) (shut <$> jobs s) = 0
  ∧ mcount (has_status JobStatus.Running) (shut <$> jobs s) = running s
  ∧ mcount (λ j, cancellable j && has_status JobStatus.Queued j) (jobs s) = queued s.
Proof using.
  intros [_ (Hq & Hr & _) Hj _ _ _ _ _]. simpl in *. rewrite Hq, Hr, !mcount_fmap. split_and!.
  - apply mcount_zero. intros id j Hid. by apply (shut_running id j), Hj.
  - apply mcount_ext. intros id j Hid. by apply (shut_running id j), Hj.
  - apply mcount_ext. intros id j Hid. destruct (has_status JobStatus.Queued j) eqn:Hst.
    + rewrite (queued_cancellable id j); [done|by apply Hj|]. by apply bool_decide_eq_true in Hst.
    + by rewrite andb_false_r.
Qed.

Lemma inv_shutdown s ph ls r s' :
  Inv (sys s ph ls) → shutdown l s = (r, s') → Inv (sys s' ph ls).
Proof using Hlimits.
  intros Hs. pose proof (shut_mcount _ _ _ Hs) as (Hq & Hr & Hcancelled).
  destruct Hs as [Ht Hc Hj Hp Hd Hh Ha Hl]. simpl in *. unfold shutdown. rewrite Hcancelled.
  intros [= <- <-]. change (fmap _) with (fmap (M := gmap string) shut).
  assert (∀ id j, (shut <$> jobs s) !! id = Some j →
    ∃ j0, jobs s !! id = Some j0 ∧ j = shut j0) as Hlook.
  { intros id j. rewrite lookup_fmap, fmap_Some. done. }
  assert (∀ id r, holds_plan (shut <$> jobs s) id r → holds_plan (jobs s) id r) as Hplan.
  { intros id r (j & (j0 & Hid & ->)%Hlook & Hlive & Hr'). exists j0.
    destruct (shut_fields j0) as (Hk & _). rewrite <- Hk. split_and!; [done| |done].
    rewrite (shut_status id) in Hlive by (by apply Hj).
    unfold has_status in Hlive. destruct (sj_status j0); done. }
  split; simpl; try done.
  - by apply table_fmap.
  - destruct Hc as (Hcq & Hcr & Hsize & Hrun & Hload). unfold counts_ok.
    rewrite Hq, Hr, map_size_fmap. unfold sat_sub. 
    pose proof (mcount_bounds (has_status JobStatus.Queued) (jobs s)). split_and!; lia.
  - intros id j (j0 & Hid & ->)%Hlook. by apply shut_ok, Hj.
  - destruct Hp as [Hk Hrun Hqu Hact]. split.
    + intros id. rewrite lookup_fmap, fmap_is_Some. apply Hk.
    + intros id j (j0 & Hid & ->)%Hlook Hst. apply (Hrun id j0); [done|].
      rewrite (shut_status id) in Hst by (by apply Hj). unfold has_status in Hst.
      by destruct (sj_status j0).
    + intros id j (j0 & Hid & ->)%Hlook Hst.
      destruct (shut_running id j0) as [_ Hno]; [by apply Hj|].
      by rewrite (has_status_eq _ _ _ Hst) in Hno.
    + intros id Hph. destruct (Hact id Hph) as (j & Hid & Hst). exists (shut j).
      rewrite lookup_fmap, Hid. split; [done|]. rewrite (shut_status id) by (by apply Hj).
      by rewrite (has_status_eq _ _ _ Hst), Hst.
  - intros _ id j (j0 & Hid & ->)%Hlook Hst.
    destruct (shut_running id j0) as [_ Hno]; [by apply Hj|].
    by rewrite (has_status_eq _ _ _ Hst) in Hno.
  - destruct Hh as [Hnd Hk Hdown Hlive Hb]. split; try done; [constructor|by intros w ?%elem_of_nil|].
    pose proof worker_limit_eq. pose proof (limits_valid_jobs _ Hlimits). change (zlen []) with 0. lia.
  - destruct Ha as [Ha Hu Hcap]. split; [done| |].
    + intros id1 id2 r0 H1%Hplan H2%Hplan. by eapply Hu.
    + intros id j r0 (j0 & Hid & ->)%Hlook Hr0 Hst.
      destruct (shut_fields j0) as (Hk & -> & ->). rewrite Hk in Hr0. eapply Hcap; [done|done|].
      destruct Hst as [Hst|?]; [|by right]. destruct (shut_running id j0) as [_ Hno]; [by apply Hj|].
      by rewrite (has_status_eq _ _ _ Hst) in Hno.
Qed.

(** *** Subscriptions *)

Lemma count_app {A} (p : A → bool) l1 l2 : count p (l1 ++ l2) = count p l1 + count p l2.
Proof using. unfold count. by rewrite List.filter_app, zlen_app. Qed.

Lemma inv_subscribe id owner after s ph ls r s' :
  Inv (sys s ph ls) → subscribe l id owner after s = (r, s') →
  Inv (sys s' ph (if r is Ok sub then sub_owner sub :: ls else ls)).
Proof using Hlimits.
  intros Hs. unfold subscribe. destruct (owned_job id owner s) as [j|]; [|by intros [= <- <-]].
  destruct (select_replay _ _) as [replay|e]; [|by intros [= <- <-]].
  destruct (Z.leb_spec (sse_subscribers_per_session l) (default 0 (subscribers_by_owner s !! owner)))
    as [?|Hsession]; [by intros [= <- <-]|].
  destruct (Z.leb_spec (sse_subscribers_per_process l) (subscribers s)) as [?|Hprocess];
    [by intros [= <- <-]|].
  intros [= <- <-]. destruct Hs as [Ht Hc Hj Hp Hd Hh Ha (Hn & Hb & Ho & Hk)]. simpl in *.
  pose proof (limits_valid_jobs _ Hlimits).
  split; simpl; try done. unfold leases_ok. pose proof (zlen_nonneg ls).
  assert (0 <= default 0 (subscribers_by_owner s !! owner)) by (rewrite Ho; apply count_nonneg).
  split_and!.
  - rewrite zlen_cons. unfold sat_add, u64_max. lia.
  - unfold sat_add, u64_max. lia.
  - intros o. rewrite count_cons. at_id owner o; simpl.
    + rewrite String.eqb_refl, <- Ho. unfold sat_add, u64_max. lia.
    + destruct (String.eqb_spec o owner); [congruence|]. rewrite Ho. lia.
  - intros o n. at_id owner o; [intros [= <-]|apply Hk]. unfold sat_add, u64_max. lia.
Qed.

Lemma inv_unsubscribe owner s ph ls1 ls2 :
  Inv (sys s ph (ls1 ++ owner :: ls2)) → Inv (sys (drop_lease owner s) ph (ls1 ++ ls2)).
Proof using Hlimits.
  intros [Ht Hc Hj Hp Hd Hh Ha (Hn & Hb & Ho & Hk)]. simpl in *.
  split; simpl; try done. unfold leases_ok. rewrite !zlen_app, zlen_cons in *.
  pose proof (Ho owner) as Hown. rewrite count_app, count_cons, String.eqb_refl in Hown.
  pose proof (count_nonneg (String.eqb owner) ls1). pose proof (count_nonneg (String.eqb owner) ls2).
  pose proof (zlen_nonneg ls1). pose proof (zlen_nonneg ls2).
  destruct (subscribers_by_owner s !! owner) as [n|] eqn:Hn0; simpl in Hown; [|lia].
  pose proof (Hk _ _ Hn0) as Hrange. unfold sat_sub.
  assert (∀ o, o ≠ owner → count (String.eqb o) (ls1 ++ owner :: ls2)
    = count (String.eqb o) (ls1 ++ ls2)) as Hother.
  { intros o Hne. rewrite !count_app, count_cons. destruct (String.eqb_spec o owner); [done|lia]. }
  split_and!; [lia|lia| |].
  - intros o. destruct (Z.eqb_spec (Z.max (n - 1) 0) 0).
    + destruct (decide (owner = o)) as [<-|]; [rewrite lookup_delete_eq; simpl; rewrite count_app; lia|].
      rewrite lookup_delete_ne, Ho, Hother by done. done.
    + at_id owner o; [simpl; rewrite count_app; lia|]. by rewrite Ho, Hother.
  - intros o m. destruct (Z.eqb_spec (Z.max (n - 1) 0) 0).
    + intros [_ Hm]%lookup_delete_Some. by eapply Hk.
    + at_id owner o; [intros [= <-]; lia|apply Hk].
Qed.

(** *** Threads *)

Lemma inv_thread id s ph ls p p0 :
  Inv (sys s ph ls) → ph !! id = Some p0 → (∀ b, p0 ≠ Phase.Ended b) → p ≠ Phase.Begun →
  (p0 = Phase.Working → p = Phase.Ended true) → (p0 = Phase.Waiting → p = Phase.Starting) →
  p0 ≠ Phase.Begun → p0 ≠ Phase.Starting → p ≠ Phase.Working →
  Inv (sys s (<[id := p]> ph) ls).
Proof using.
  intros [Ht Hc Hj Hp Hd Hh Ha Hl] Hid H0 H1 H2 H3 H4 H5 H6. simpl in *. split; simpl; try done.
  - apply phases_thread; [done|..].
    + intros j Hm Hst. destruct (po_running _ _ Hp id j Hm Hst) as [Hx|[Hx|Hx]]; rewrite Hid in Hx;
        injection Hx as ->; [done|auto|naive_solver].
    + intros j Hm Hst. destruct (po_queued _ _ Hp id j Hm Hst) as [Hx|Hx]; rewrite Hid in Hx;
        injection Hx as ->; [done|auto].
    + by intros [->| ->].
  - by eapply handles_thread.
  - destruct Ha as [Ha Hu Hcap]. split; try done. intros x j r Hx Hr Hst. at_id id x; [|by eapply Hcap].
    destruct Hst as [?|[= ->]]; [|done]. eapply Hcap; [done|done|by left].
Qed.

Lemma inv_step σ σ' : Inv σ → step config σ σ' → Inv σ'.
Proof using Hlimits.
  intros Hs Hstep. destruct Hstep.
  - unfold admit_scan in *. destruct (config_source config source_id); [|by simplify_eq].
    eapply inv_admit_kind; [done|done| |eassumption]; reflexivity.
  - unfold admit_plan in *. destruct (config_server config server_id); [|by simplify_eq].
    destruct (config_source config source_id); [|by simplify_eq].
    eapply inv_admit_kind; [done|done| |eassumption]; reflexivity.
  - unfold admit_dry_run in *. destruct stored as [stored|]; [|by simplify_eq].
    destruct (config_server config _); [|by simplify_eq].
    destruct (config_source config _); [|by simplify_eq].
    eapply inv_admit_kind; [done|done| |eassumption]; reflexivity.
  - by eapply inv_admit_apply.
  - unfold snapshot in *. simplify_eq. by apply inv_reap.
  - unfold collect in *. simplify_eq. by apply inv_reap.
  - apply inv_wake. by eapply inv_cancel.
  - destruct Hs. by split.
  - apply (inv_wake _ _ _ true). by eapply inv_shutdown.
  - by eapply inv_begin.
  - by eapply inv_inputs.
  - by apply inv_observe.
  - by apply inv_finish.
  - by eapply inv_thread.
  - by eapply inv_thread.
  - by eapply inv_thread.
  - by eapply inv_subscribe.
  - by apply inv_unsubscribe.
Qed.

Lemma inv_reachable σ : reachable config σ → Inv σ.
Proof using Hlimits.
  unfold reachable. intros Hr. pose proof inv_initial as Hi. revert Hi.
  induction Hr as [|x y z Hxy _ IH]; [done|]. intros Hx. apply IH. by eapply inv_step.
Qed.
End preservation.

(** ** Progress

    [begin] parks a thread whose turn it is not.  Notifications are sent by
    [finish], [cancel] and [shutdown] only; what makes that enough is that the
    thread of the first queued job is never parked while nothing runs. *)
Section progress.
  Context (config : WebConfig) (Hlimits : limits_valid (wc_limits config) = true).
Notation l := (wc_limits config).
Notation sys s ph ls := {| st := s; phase := ph; leases := ls |}.

Definition head_awake (σ : System) : Prop :=
  ∀ id, next_queued (st σ) = Some id → phase σ !! id = Some Phase.Waiting → 1 <= running (st σ).

Lemma find_id_ext p q o : (∀ id, id ∈ o → p id = q id) → find_id p o = find_id q o.
Proof using.
  induction o as [|x o IH]; simpl; [done|]. intros H. rewrite (H x) by by left.
  destruct (q x); [done|]. apply IH. intros id Hid. apply H. by right.
Qed.

Lemma find_id_filter p id o :
  p id = false → find_id p (List.filter (λ x, negb (String.eqb x id)) o) = find_id p o.
Proof using.
  intros Hp. induction o as [|x o IH]; simpl; [done|].
  destruct (String.eqb_spec x id) as [->|]; simpl; [by rewrite Hp|]. by rewrite IH.
Qed.

Lemma next_queued_evict s :
  table_ok (jobs s) (order s) →
  next_queued (evict_terminal (retained_jobs l) s) = next_queued s
  ∧ running (evict_terminal (retained_jobs l) s) = running s.
Proof using.
  intros Hs. apply (evict_ind (retained_jobs l) (λ t, table_ok (jobs t) (order t) ∧
    next_queued t = next_queued s ∧ running t = running s)); [|by intros t []|by split_and!].
  intros t id j (Ht & <- & <-) Hid Hterm _. split; [by apply table_delete|]. split; [|done].
  unfold next_queued, evict_one. simpl. rewrite find_id_filter.
  - apply find_id_ext. intros x _. unfold is_queued_job. simpl.
    destruct (decide (x = id)) as [->|]; [|by rewrite lookup_delete_ne].
    rewrite lookup_delete_eq, Hid. simpl. unfold has_status.
    by destruct (sj_status j).
  - unfold is_queued_job. simpl. by rewrite lookup_delete_eq.
Qed.

Lemma next_queued_reap ended s :
  next_queued (reap_workers ended s) = next_queued s ∧ running (reap_workers ended s) = running s.
Proof using. destruct (reap_workers_spec ended s) as (h & _ & ->). done. Qed.

Lemma find_id_snoc p o id :
  find_id p (o ++ [id]) = match find_id p o with Some x => Some x
                          | None => if p id then Some id else None end.
Proof using. induction o as [|x o IH]; simpl; [done|]. by destruct (p x). Qed.

(** An update of one job that is queued before and after, or neither. *)
Lemma next_queued_update s id j j' :
  jobs s !! id = Some j → has_status JobStatus.Queued j' = has_status JobStatus.Queued j →
  find_id (λ x, is_some_and (<[id := j']> (jobs s) !! x) (has_status JobStatus.Queued)) (order s)
  = next_queued s.
Proof using.
  intros Hid Hq. apply find_id_ext. intros x _. unfold is_queued_job.
  at_id id x; [by rewrite Hid|done].
Qed.

Lemma awake_wake s ph ls : head_awake (sys s (wake <$> ph) ls).
Proof using.
  intros id _. simpl. rewrite lookup_fmap. by destruct (ph !! id) as [[]|].
Qed.

Lemma awake_thread s ph ls id p :
  head_awake (sys s ph ls) → p ≠ Phase.Waiting → head_awake (sys s (<[id := p]> ph) ls).
Proof using.
  intros Hs Hp x Hx Hw. simpl in *. at_id id x; [congruence|by eapply Hs].
Qed.


Lemma awake_same s t ph ls :
  next_queued t = next_queued s → running t = running s →
  head_awake (sys s ph ls) → head_awake (sys t ph ls).
Proof using. intros Hn Hr Hs id. simpl. rewrite Hn, Hr. apply Hs. Qed.

Lemma awake_prepared ended s ph ls :
  Inv config (sys s ph ls) → truthful ended ph → head_awake (sys s ph ls) →
  head_awake (sys (evict_terminal (retained_jobs l) (reap_workers ended s)) ph ls).
Proof using.
  intros Hs Htruth. pose proof (inv_table _ _ (inv_reap _ _ _ _ _ Hs Htruth)) as Ht. simpl in Ht.
  destruct (next_queued_evict _ Ht), (next_queued_reap ended s). apply awake_same; congruence.
Qed.

(** The thread of a new job is awake, and the new job is the last in turn. *)
Lemma awake_enqueue s t id job ph ls :
  head_awake (sys s ph ls) → table_ok (jobs s) (order s) → jobs s !! id = None →
  jobs t = <[id := job]> (jobs s) → order t = order s ++ [id] → running t = running s →
  head_awake (sys t (<[id := Phase.Starting]> ph) ls).
Proof using.
  intros Hs [_ Hdom] Hnone Hj Ho Hr x Hx Hw. simpl in *. at_id id x; [done|].
  rewrite Hr. apply (Hs x); [|done]. simpl. unfold next_queued in *. rewrite Ho, find_id_snoc in Hx.
  rewrite (find_id_ext _ (is_queued_job s)) in Hx.
  - destruct (find_id _ _); [done|]. by destruct (is_queued_job _ _); simplify_eq.
  - intros y Hy. unfold is_queued_job. rewrite Hj, lookup_insert_ne; [done|].
    intros <-. apply Hdom in Hy as [? Hy]. congruence.
Qed.

Lemma awake_admit_kind a owner source_id kind s ph ls r s' :
  Inv config (sys s ph ls) → head_awake (sys s ph ls) → fresh_admission a ph →
  admit_kind config a owner source_id kind s = (r, s') → head_awake (sys s' (admitted r ph) ls).
Proof using Hlimits.
  intros Hs Ha [Htruth Hfresh]. unfold admit_kind.
  destruct (config_source config source_id) as [profile|]; [|by intros [= <- <-]].
  destruct (adm_random_id a) as [id|]; [|by intros [= <- <-]].
  pose proof (inv_evict _ _ _ _ (inv_reap _ _ _ _ _ Hs Htruth)) as Hs1.
  pose proof (awake_prepared _ _ _ _ Hs Htruth Ha) as Ha1.
  set (s1 := evict_terminal _ _) in *. destruct (_ || _); [by intros [= <- <-]|].
  destruct (admission_full l id false s1) eqn:Hfull; [by intros [= <- <-]|].
  destruct (admission_full_false _ Hlimits _ _ _ _ _ Hs1 Hfull) as (_ & Hnone & Hload & _ & _).
  set (job := new_job _ _ _ _ _).
  pose proof (dequeue_enqueue _ Hlimits _ _ _ job Hs1 Hnone Hload) as Heq.
  destruct (adm_spawned a); intros [= <- <-].
  - by eapply awake_enqueue; [done|apply (inv_table _ _ Hs1)|..].
  - eapply awake_same; [exact (f_equal next_queued Heq)|exact (f_equal running Heq)|done].
Qed.

Lemma awake_admit_apply a capability s ph ls r s' :
  Inv config (sys s ph ls) → head_awake (sys s ph ls) → fresh_admission a ph →
  admit_apply config a capability s = (r, s') → head_awake (sys s' (admitted r ph) ls).
Proof using Hlimits.
  intros Hs Ha [Htruth Hfresh]. unfold admit_apply.
  destruct (config_source config _) as [profile|]; [|by intros [= <- <-]].
  destruct (adm_random_id a) as [id|]; [|by intros [= <- <-]].
  pose proof (inv_evict _ _ _ _ (inv_reap _ _ _ _ _ Hs Htruth)) as Hs1.
  pose proof (awake_prepared _ _ _ _ Hs Htruth Ha) as Ha1.
  set (s1 := evict_terminal _ _) in *. destruct (shutting_down s1 || _); [by intros [= <- <-]|].
  destruct (admission_full l id _ s1) eqn:Hfull; [by intros [= <- <-]|].
  destruct (admission_full_false _ Hlimits _ _ _ _ _ Hs1 Hfull) as (_ & Hnone & Hload & _ & _).
  set (job := new_job _ _ _ _ _).
  pose proof (dequeue_enqueue _ Hlimits _ _ _ job Hs1 Hnone Hload) as Heq.
  destruct (adm_spawned a); intros [= <- <-].
  - by eapply awake_enqueue; [done|apply (inv_table _ _ Hs1)|..].
  - eapply awake_same; [exact (f_equal next_queued Heq)|exact (f_equal running Heq)|done].
Qed.

Lemma awake_begin id s ph ls o s' :
  Inv config (sys s ph ls) → head_awake (sys s ph ls) → begin l id s = (o, s') →
  head_awake (sys s' (<[id := begin_phase o]> ph) ls).
Proof using Hlimits.
  intros Hs Ha. unfold begin. destruct (_ || _) eqn:Hstop; [intros [= <- <-]; by apply awake_thread|].
  apply orb_false_iff in Hstop as [Hq Hdown]. apply negb_false_iff, is_queued_job_true in Hq as (j & Hid & Hst).
  pose proof (limits_valid_jobs _ Hlimits). destruct (counts_nonneg _ _ _ _ (inv_counts _ _ Hs)) as [Hr0 _].
  simpl in Hr0. destruct (_ && _) eqn:Hgo; intros [= <- <-].
  - intros x _ _. simpl. rewrite Hid. simpl. unfold sat_add, u64_max. lia.
  - intros x Hx Hw. simpl in *. at_id id x; [|by eapply Ha].
    rewrite Hx, bool_decide_eq_true_2 in Hgo by done. simpl in Hgo. bools. lia.
Qed.

Lemma awake_cancel id owner s ph ls r s' :
  cancel l id owner s = (r, s') → Inv config (sys s ph ls) → head_awake (sys s ph ls) →
  head_awake (sys s' (if cancel_notifies id owner s then wake <$> ph else ph) ls).
Proof using.
  intros Hc Hs Ha. destruct (cancel_notifies id owner s) eqn:Hn; [apply awake_wake|].
  unfold cancel, cancel_notifies in *. destruct (owned_job id owner s) as [j|] eqn:Ho; [|by simplify_eq].
  simpl in Hn. rewrite Hn in Hc. apply owned_job_Some in Ho as [Hid _].
  pose proof (inv_jobs _ _ Hs id j Hid) as Hok. simpl in Hok.
  destruct (has_status JobStatus.Queued j) eqn:Hq.
  - apply bool_decide_eq_true in Hq. rewrite (queued_cancellable _ _ _ Hok Hq) in Hn. done.
  - injection Hc as <- <-. apply (awake_same s); [by apply (next_queued_update s id j j)|done|done].
Qed.

Lemma awake_step σ σ' :
  Inv config σ → head_awake σ → step config σ σ' → head_awake σ'.
Proof using Hlimits.
  intros Hs Ha Hstep. destruct Hstep.
  - unfold admit_scan in *. destruct (config_source config source_id); [|by simplify_eq].
    by eapply awake_admit_kind.
  - unfold admit_plan in *. destruct (config_server config server_id); [|by simplify_eq].
    destruct (config_source config source_id); [|by simplify_eq]. by eapply awake_admit_kind.
  - unfold admit_dry_run in *. destruct stored as [stored|]; [|by simplify_eq].
    destruct (config_server config _); [|by simplify_eq].
    destruct (config_source config _); [|by simplify_eq]. by eapply awake_admit_kind.
  - by eapply awake_admit_apply.
  - unfold snapshot in *. simplify_eq. apply (awake_same s); [apply next_queued_reap ..|done].
  - unfold collect in *. simplify_eq. apply (awake_same s); [apply next_queued_reap ..|done].
  - by eapply awake_cancel.
  - by apply (awake_same s).
  - apply awake_wake.
  - by eapply awake_begin.
  - unfold job_inputs in *. destruct (po_active _ _ (inv_phases _ _ Hs) id (or_introl H)) as (j & Hj & _).
    simpl in Hj. rewrite Hj in *. simplify_eq. apply awake_thread; [|done]. by apply (awake_same s).
  - unfold observe. destruct event; [|done]. destruct (jobs s !! id) as [j|] eqn:Hj; [|done].
    apply (awake_same s); [by apply (next_queued_update s id j)|done|done].
  - apply awake_thread; [apply awake_wake|done].
  - by apply awake_thread.
  - by apply awake_thread.
  - by apply awake_thread.
  - unfold subscribe in *. destruct (owned_job id owner s); [|by simplify_eq].
    destruct (select_replay _ _); [|by simplify_eq]. destruct (_ <=? _); [by simplify_eq|].
    destruct (_ <=? _); [by simplify_eq|]. simplify_eq. by apply (awake_same s).
  - by apply (awake_same s).
Qed.

Lemma awake_reachable σ : reachable config σ → head_awake σ.
Proof using Hlimits.
  unfold reachable. intros Hr.
  assert (Inv config initial ∧ head_awake initial) as [Hi Ha]
    by (split; [by apply inv_initial|by intros id]).
  revert Hi Ha. induction Hr as [|x y z Hxy _ IH]; [done|]. intros Hx Ha.
  apply IH; [by eapply inv_step|by eapply awake_step].
Qed.
End progress.
