(* ===== verification/JobsTheorems.v ===== *)
(** * JobsTheorems: what the job manager guarantees

    Properties of every reachable state of [JobsRun], of the outcome of a job and
    of the events a client sees, with a console of two slots as the witness. *)
From S2P Require Export Prelude Text Limits Profiles Console Jobs JobsFacts JobsRun.

Section theorems.
  Context (config : WebConfig).
Notation l := (wc_limits config).

(** C5: in every reachable state, whatever the interleaving of requests, threads,
    panics and spurious wake-ups: the table and the admission order agree, the
    two counters are the numbers of queued and running jobs and stay within the
    configured bounds, every job's log and cancellation flag are consistent with
    its status, a running job has a thread past [begin] and conversely, every
    live thread can be joined, and a plan is held by at most one live apply job,
    which still has its capability until its worker takes it. *)
Theorem jobs_invariant σ :
  limits_valid l = true → reachable config σ → Inv config σ.
Proof. intros Hl. by apply inv_reachable. Qed.

Lemma mcount_positive {A} (p : A → bool) (m : gmap string A) :
  1 <= mcount p m → ∃ id x, m !! id = Some x ∧ p x = true.
Proof.
  intros Hpos. induction m as [|k x m Hk IH] using map_ind; [by rewrite mcount_empty in Hpos|].
  rewrite mcount_insert in Hpos by done. destruct (p x) eqn:Hx.
  - exists k, x. by rewrite lookup_insert_eq.
  - destruct IH as (id & y & Hy & Hpy); [simpl in Hpos; lia|]. exists id, y.
    rewrite lookup_insert_ne; [done|congruence].
Qed.

(** C6: while the console is not shutting down, the queue does not stall for want of a
    wake-up. When a job is queued and none runs, the thread of the first queued job is
    not parked, and its next round starts the job; and while no worker has panicked,
    as long as a job is live some thread can take a step (after a panic this half says
    nothing). *)
Theorem jobs_progress σ :
  limits_valid l = true → reachable config σ → shutting_down (st σ) = false →
  (∀ id, next_queued (st σ) = Some id → running (st σ) = 0 →
    phase σ !! id = Some Phase.Starting
    ∧ ∃ s' j, begin l id (st σ) = (BeginRun, s') ∧ jobs s' !! id = Some j
        ∧ sj_status j = JobStatus.Running)
  ∧ (∀ id j, jobs (st σ) !! id = Some j → terminal (sj_status j) = false →
      (∀ x, phase σ !! x ≠ Some (Phase.Ended true)) →
      ∃ x, phase σ !! x = Some Phase.Starting ∨ phase σ !! x = Some Phase.Begun
           ∨ phase σ !! x = Some Phase.Working).
Proof.
  intros Hl Hr Hdown. pose proof (inv_reachable _ Hl _ Hr) as Hs.
  pose proof (awake_reachable _ Hl _ Hr) as Hawake. pose proof (limits_valid_jobs _ Hl).
  assert (∀ id, next_queued (st σ) = Some id → running (st σ) = 0 →
    phase σ !! id = Some Phase.Starting) as Hstart.
  { intros id Hn H0. pose proof Hn as [_ Hq]%find_id_elem. apply is_queued_job_true in Hq as (j & Hj & Hst).
    destruct (po_queued _ _ (inv_phases _ _ Hs) id j Hj Hst) as [?|Hw]; [done|].
    specialize (Hawake id Hn Hw). lia. }
  split.
  - intros id Hn H0. split; [by apply Hstart|].
    pose proof Hn as [_ Hq]%find_id_elem. unfold begin. rewrite Hq, Hdown, H0. simpl.
    rewrite bool_decide_eq_true_2 by done. destruct (Z.ltb_spec 0 (concurrent_jobs l)); [|lia]. simpl.
    apply is_queued_job_true in Hq as (j & Hj & Hst). rewrite Hj.
    do 2 eexists. split; [done|]. simpl. by rewrite lookup_insert_eq.
  - intros id j Hj Hlive Hpanic.
    assert (∀ x y, jobs (st σ) !! x = Some y → sj_status y = JobStatus.Running →
      phase σ !! x = Some Phase.Begun ∨ phase σ !! x = Some Phase.Working) as Hrun.
    { intros x y Hx Hst. destruct (po_running _ _ (inv_phases _ _ Hs) x y Hx Hst) as [?|[?|He]]; auto.
      by apply Hpanic in He. }
    destruct (decide (running (st σ) = 0)) as [H0|Hne].
    + assert (sj_status j = JobStatus.Queued) as Hst.
      { destruct (sj_status j) eqn:Hst; try done.
        pose proof (counts_some_running _ _ _ _ _ _ (inv_counts _ _ Hs) Hj Hst). lia. }
      destruct (next_queued (st σ)) as [x|] eqn:Hn; [exists x; left; by apply Hstart|].
      apply find_id_None in Hn. rewrite Forall_forall in Hn.
      assert (id ∈ order (st σ)) as Hin by (apply (inv_table _ _ Hs); by eexists).
      apply Hn in Hin. assert (is_queued_job (st σ) id = true) by (apply is_queued_job_true; eauto).
      congruence.
    + destruct (counts_nonneg _ _ _ _ (inv_counts _ _ Hs)) as [Hr0 _].
      destruct (inv_counts _ _ Hs) as (_ & Hrc & _).
      destruct (mcount_positive (has_status JobStatus.Running) (jobs (st σ))) as (x & y & Hy & Hst); [lia|].
      apply bool_decide_eq_true in Hst. exists x. destruct (Hrun x y Hy Hst); auto.
Qed.

(** A terminal job survives housekeeping unchanged or is evicted. *)
Lemma evict_keeps_terminal s id j :
  table_ok (jobs s) (order s) → jobs s !! id = Some j →
  jobs (evict_terminal (retained_jobs l) s) !! id = Some j
  ∨ jobs (evict_terminal (retained_jobs l) s) !! id = None.
Proof.
  intros Ht Hj. apply (evict_ind (retained_jobs l) (λ t, table_ok (jobs t) (order t) ∧
    (jobs t !! id = Some j ∨ jobs t !! id = None))); [|by intros t []|by split; [|left]].
  clear Ht Hj. intros t x y [Ht Hj] Hx Hterm _. split; [by apply table_delete|]. simpl.
  destruct (decide (id = x)) as [->|]; [right; apply lookup_delete_eq|by rewrite lookup_delete_ne].
Qed.

Lemma prepared_keeps ended s id j :
  table_ok (jobs s) (order s) → jobs s !! id = Some j →
  jobs (evict_terminal (retained_jobs l) (reap_workers ended s)) !! id = Some j
  ∨ jobs (evict_terminal (retained_jobs l) (reap_workers ended s)) !! id = None.
Proof.
  destruct (reap_workers_spec ended s) as (h & _ & ->). intros. by apply evict_keeps_terminal.
Qed.

(** A live job is never evicted. *)
Lemma prepared_keeps_live ended s id j :
  table_ok (jobs s) (order s) → jobs s !! id = Some j → terminal (sj_status j) = false →
  jobs (evict_terminal (retained_jobs l) (reap_workers ended s)) !! id = Some j.
Proof.
  destruct (reap_workers_spec ended s) as (h & _ & ->). set (t := with_workers _ _ _).
  intros Ht Hj Hlive. apply (evict_ind (retained_jobs l) (λ t, table_ok (jobs t) (order t) ∧
    jobs t !! id = Some j)); [|by intros u []|done].
  intros u x y [Hu Hk] Hx Hterm _. split; [by apply table_delete|]. simpl.
  rewrite lookup_delete_ne; [done|congruence].
Qed.

(** What an admission does to a job that is there already. *)
Lemma admit_kind_jobs a owner source_id kind s r s' id j :
  table_ok (jobs s) (order s) → jobs s !! id = Some j → (∀ x, adm_random_id a = Ok x → x ≠ id) →
  admit_kind config a owner source_id kind s = (r, s') →
  jobs s' !! id = Some j ∨ jobs s' !! id = None.
Proof.
  intros Ht Hj Hne. unfold admit_kind. destruct (config_source config source_id); [|intros [= _ <-]; auto].
  destruct (adm_random_id a) as [x|]; [|intros [= _ <-]; auto]. specialize (Hne x eq_refl).
  pose proof (prepared_keeps (adm_ended a) s id j Ht Hj) as Hkeep. set (s1 := evict_terminal _ _) in *.
  destruct (_ || _); [by intros [= _ <-]|]. destruct (admission_full _ _ _ _); [by intros [= _ <-]|].
  destruct (adm_spawned a); intros [= _ <-]; simpl.
  - by rewrite lookup_insert_ne.
  - by rewrite lookup_delete_ne, lookup_insert_ne.
Qed.

Lemma admit_apply_jobs a capability s r s' id j :
  table_ok (jobs s) (order s) → jobs s !! id = Some j → (∀ x, adm_random_id a = Ok x → x ≠ id) →
  admit_apply config a capability s = (r, s') →
  jobs s' !! id = Some j ∨ jobs s' !! id = None.
Proof.
  intros Ht Hj Hne. unfold admit_apply. destruct (config_source config _); [|intros [= _ <-]; auto].
  destruct (adm_random_id a) as [x|]; [|intros [= _ <-]; auto]. specialize (Hne x eq_refl).
  pose proof (prepared_keeps (adm_ended a) s id j Ht Hj) as Hkeep. set (s1 := evict_terminal _ _) in *.
  destruct (shutting_down s1 || _); [by intros [= _ <-]|].
  destruct (admission_full _ _ _ _); [by intros [= _ <-]|].
  destruct (adm_spawned a); intros [= _ <-]; simpl.
  - by rewrite lookup_insert_ne.
  - by rewrite lookup_delete_ne, lookup_insert_ne.
Qed.

(** A finished job never changes again. Once its status is completed, failed or
    cancelled, no step of any thread and no request alters it (status, summary,
    artifact, receipt or events); it stays as it is until it is evicted. *)
Theorem terminal_final σ σ' id j :
  limits_valid l = true → reachable config σ → step config σ σ' →
  jobs (st σ) !! id = Some j → terminal (sj_status j) = true →
  jobs (st σ') !! id = Some j ∨ jobs (st σ') !! id = None.
Proof.
  intros Hl Hr Hstep Hj Hterm. pose proof (inv_reachable _ Hl _ Hr) as Hs.
  pose proof (inv_table _ _ Hs) as Ht.
  assert (∀ a ph, fresh_admission a ph → ph = phase σ → ∀ x, adm_random_id a = Ok x → x ≠ id) as Hfresh.
  { intros a ph [_ Hf] -> x Hx ->. apply Hf in Hx.
    destruct (po_known _ _ (inv_phases _ _ Hs) id) as [p Hp]; [by eexists|congruence]. }
  assert (∀ x, phase σ !! x = Some Phase.Begun ∨ phase σ !! x = Some Phase.Working → x ≠ id) as Hactive.
  { intros x Hx ->. destruct (po_active _ _ (inv_phases _ _ Hs) id Hx) as (y & Hy & Hst).
    simplify_eq. by rewrite Hst in Hterm. }
  destruct Hstep; simpl in *.
  - unfold admit_scan in *. destruct (config_source config source_id); [|simplify_eq; auto].
    eapply admit_kind_jobs; eauto.
  - unfold admit_plan in *. destruct (config_server config server_id); [|simplify_eq; auto].
    destruct (config_source config source_id); [|simplify_eq; auto]. eapply admit_kind_jobs; eauto.
  - unfold admit_dry_run in *. destruct stored as [stored|]; [|simplify_eq; auto].
    destruct (config_server config _); [|simplify_eq; auto].
    destruct (config_source config _); [|simplify_eq; auto]. eapply admit_kind_jobs; eauto.
  - eapply admit_apply_jobs; eauto.
  - unfold snapshot in *. simplify_eq. destruct (reap_workers_spec ended s) as (h & _ & ->). auto.
  - unfold collect in *. simplify_eq. destruct (reap_workers_spec ended s) as (h & _ & ->). auto.
  - left. unfold cancel in *. destruct (owned_job id0 owner s) as [k|] eqn:Ho; [|by simplify_eq].
    apply owned_job_Some in Ho as [Hk _].
    assert (jobs s' !! id = (<[id0 := if cancellable k then cancel_job (sse_replay_events l) k else k]> (jobs s)) !! id)
      as ->.
    { destruct (has_status JobStatus.Queued k), (apply_reference (sj_kind k)); by simplify_eq. }
    destruct (decide (id0 = id)) as [->|]; [|by rewrite lookup_insert_ne].
    rewrite lookup_insert_eq. simplify_eq. unfold cancellable. by rewrite Hterm.
  - auto.
  - left. unfold shutdown in *. simplify_eq. simpl. rewrite lookup_fmap, Hj. simpl.
    unfold cancellable. by rewrite Hterm.
  - left. unfold begin in *. destruct (_ || _) eqn:Hstop; [by simplify_eq|].
    apply orb_false_iff in Hstop as [Hq _]. apply negb_false_iff, is_queued_job_true in Hq as (k & Hk & Hst).
    destruct (_ && _); simplify_eq; [|done]. simpl. rewrite Hk. simpl.
    rewrite lookup_insert_ne; [done|]. intros ->. simplify_eq. by rewrite Hst in Hterm.
  - left. unfold job_inputs in *. destruct (jobs s !! id0); by simplify_eq.
  - left. unfold observe. destruct event; [|done]. destruct (jobs s !! id0); [|done]. simpl.
    rewrite lookup_insert_ne; [done|]. apply Hactive. auto.
  - left. destruct (po_active _ _ (inv_phases _ _ Hs) id0) as (k & Hk & _); [auto|].
    simpl in Hk. rewrite (finish_eq _ _ _ _ _ _ Hk). simpl.
    rewrite lookup_insert_ne; [done|]. apply Hactive. auto.
  - auto.
  - auto.
  - auto.
  - left. unfold subscribe in *. destruct (owned_job id0 owner s); [|by simplify_eq].
    destruct (select_replay _ _); [|by simplify_eq]. destruct (_ <=? _); [by simplify_eq|].
    destruct (_ <=? _); by simplify_eq.
  - auto.
Qed.

(** No two live apply jobs ever run one plan. An admission for a plan that a
    queued or running apply job holds is refused whatever else is asked, and an
    admission that succeeds makes its job the holder. *)
Theorem apply_exclusive σ a capability r s' :
  limits_valid l = true → reachable config σ → fresh_admission a (phase σ) →
  admit_apply config a capability (st σ) = (r, s') →
  let reference := drb_plan_reference (gb_dry_run (cap_binding capability)) in
  ((∃ holder, holds_plan (jobs (st σ)) holder reference) → ∀ id, r ≠ Ok id)
  ∧ (∀ id, r = Ok id → holds_plan (jobs s') id reference
       ∧ ∀ other, holds_plan (jobs s') other reference → other = id).
Proof.
  intros Hl Hr Hfresh Hadm reference. pose proof (inv_reachable _ Hl _ Hr) as Hs.
  destruct σ as [s ph ls]. simpl in *.
  assert (∀ id, r = Ok id → holds_plan (jobs s') id reference) as Hholds.
  { intros id ->. unfold admit_apply in Hadm. destruct (config_source config _); [|done].
    destruct (adm_random_id a); [|done]. destruct (_ || _); [done|].
    destruct (admission_full _ _ _ _); [done|]. destruct (adm_spawned a); [|done].
    injection Hadm as -> <-. simpl. eexists. rewrite lookup_insert_eq. done. }
  split.
  - intros (holder & j & Hj & Hlive & Href) id ->. unfold admit_apply in Hadm. fold reference in Hadm.
    destruct (config_source config _); [|done]. destruct (adm_random_id a) as [x|]; [|done].
    destruct Hfresh as [Htruth _].
    pose proof (inv_evict _ _ _ _ (inv_reap _ _ _ _ _ Hs Htruth)) as Hs1.
    pose proof (prepared_keeps_live (adm_ended a) s holder j (inv_table _ _ Hs) Hj Hlive) as Hkept.
    set (s1 := evict_terminal _ _) in *.
    destruct (shutting_down s1) eqn:Hdown; [done|]. destruct (worker_failed s1); [done|]. simpl in Hadm.
    assert (reference ∈ active_checkpoints s1) as Hin.
    { apply (ao_active _ _ _ _ _ (inv_applies _ _ Hs1) Hdown). by exists holder, j. }
    unfold admission_full in Hadm. rewrite bool_decide_eq_true_2 in Hadm by done. done.
  - intros id Hid. split; [by apply Hholds|]. intros other Hother.
    pose proof (inv_admit_apply _ Hl _ _ _ _ _ _ _ Hs Hfresh Hadm) as Hs'.
    eapply (ao_unique _ _ _ _ _ (inv_applies _ _ Hs')); [done|]. by apply Hholds.
Qed.

(** ** The end of a job *)

Definition terminal_status (s : JobStatus.t) : option TerminalStatus.t :=
  match s with
  | JobStatus.Completed => Some TerminalStatus.Completed
  | JobStatus.Failed => Some TerminalStatus.Failed
  | JobStatus.Cancelled => Some TerminalStatus.Cancelled
  | JobStatus.Queued | JobStatus.Running => None
  end.

(** A client never sees an outcome the history does not have. When the history
    entry of an outcome was written, it has the status and the kind the job then
    shows, and the receipt shown is the one recorded; when it was not, the job
    fails whatever its worker did, the manager admits no more jobs, and a plan it
    had published has been removed before the failure shows. *)
Theorem finish_recorded `{ConsoleHistory W} id o w history w' s j :
  finish_record o w = (history, w') → jobs s !! id = Some j →
  ∃ j', jobs (finish l id o history s) !! id = Some j' ∧ terminal (sj_status j') = true ∧
  match history with
  | Ok receipt =>
    ∃ record w1, Some (tr_status record) = terminal_status (sj_status j')
      ∧ tr_kind record = outcome_kind o
      ∧ worker_failed (finish l id o history s) = worker_failed s
      ∧ (sj_status j' = JobStatus.Completed → sj_receipt j' = receipt)
      ∧ match dry_run_binding o with
        | None => ∃ n, record_terminal record w1 = (Ok n, w') ∧ receipt = None
        | Some binding => ∃ found, record_dry_run binding record w1 = (Ok found, w')
            ∧ receipt = Some (drr_reference found)
            ∧ tr_recorded_unix record = drb_completed_unix binding
        end
  | Err _ =>
    sj_status j' = JobStatus.Failed
    ∧ worker_failed (finish l id o history s) = true
    ∧ ∀ artifact, published_artifact o = Some artifact →
        ∃ w1 r, remove_plan (pa_reference artifact) w1 = (r, w')
  end.
Proof.
  intros Hrec Hj. rewrite (finish_eq _ _ _ _ _ _ Hj). simpl. rewrite lookup_insert_eq.
  eexists. split; [done|]. split; [simpl; apply conclude_status|].
  unfold finish_record in Hrec.
  assert (∀ now record, history_record now o = Ok record →
    Some (tr_status record) = terminal_status (sj_status (conclude o (default None (Some history ≫= λ h,
      match h with Ok r => Some r | Err _ => None end)) j))
    ∧ tr_kind record = outcome_kind o
    ∧ ∀ b, dry_run_binding o = Some b → tr_recorded_unix record = drb_completed_unix b) as Hrecord.
  { intros now record. unfold history_record. destruct o as [k sm a [b|]|k|k]; simpl; intros Hr.
    - injection Hr as <-. split_and!; [done|done|]. by intros b' [= <-].
    - destruct now; simplify_eq/=. done.
    - destruct now; simplify_eq/=. done.
    - destruct now; simplify_eq/=. done. }
  destruct (dry_run_binding o) as [b|] eqn:Hb.
  - destruct (history_record (Err tt) o) as [record|] eqn:Hh.
    + destruct (Hrecord _ _ Hh) as (Hst & Hk & Htime). 
      destruct (record_dry_run b record w) as [[found|[]] w1] eqn:Hd; simpl in Hrec.
      * simplify_eq. exists record, w. simpl in *. rewrite orb_false_r.
        split_and!; [done|done|done| |eauto 10]. by destruct o.
      * destruct (published_artifact o) as [artifact|].
        -- destruct (remove_plan _ w1) eqn:Hrm. simplify_eq. simpl. rewrite orb_true_r.
           split_and!; try done. intros ? [= <-]. eauto.
        -- simplify_eq. simpl. by rewrite orb_true_r.
    + simpl. destruct (published_artifact o) as [artifact|].
      * destruct (remove_plan _ w) eqn:Hrm. simplify_eq. simpl. rewrite orb_true_r.
        split_and!; try done. intros ? [= <-]. eauto.
      * simplify_eq. simpl. by rewrite orb_true_r.
  - destruct (now_unix w) as [now w0]. destruct (history_record now o) as [record|] eqn:Hh.
    + destruct (Hrecord _ _ Hh) as (Hst & Hk & _).
      destruct (record_terminal record w0) as [[n|[]] w1] eqn:Hd; simpl in Hrec.
      * simplify_eq. exists record, w0. simpl in *. rewrite orb_false_r.
        split_and!; [done|done|done| |eauto]. by destruct o.
      * destruct (published_artifact o) as [artifact|].
        -- destruct (remove_plan _ w1) eqn:Hrm. simplify_eq. simpl. rewrite orb_true_r.
           split_and!; try done. intros ? [= <-]. eauto.
        -- simplify_eq. simpl. by rewrite orb_true_r.
    + destruct (published_artifact o) as [artifact|].
      * destruct (remove_plan _ w0) eqn:Hrm. simplify_eq. simpl. rewrite orb_true_r.
        split_and!; try done. intros ? [= <-]. eauto.
      * simplify_eq. simpl. by rewrite orb_true_r.
Qed.

(** ** What a client sees *)

(** A client that reconnects with the number of the last event it saw misses
    nothing and sees nothing twice. In a reachable state the manager keeps at most
    the configured number of events of a job, and the answer to a cursor is that
    of the specification on everything ever sent: the events after it when they
    are all still kept, and otherwise the error that says why. When the answer is
    a replay, the replay followed by whatever the subscription receives later is
    exactly the sequence of events after the cursor. *)
Theorem replay_exact σ id j after :
  limits_valid l = true → reachable config σ → jobs (st σ) !! id = Some j →
  zlen (sj_event_sender j) < u64_max → 0 <= after →
  zlen (sj_events j) <= sse_replay_events l
  ∧ select_replay (sj_events j) (Some after)
    = replay_spec (sse_replay_events l) (sj_event_sender j) after
  ∧ ∀ owner sub s', subscribe l id owner (Some after) (st σ) = (Ok sub, s') →
      ∀ more, sub_replay sub ++ drop (sub_receiver sub) (sj_event_sender j ++ more)
              = drop (Z.to_nat after) (sj_event_sender j ++ more).
Proof.
  intros Hl Hr Hj Hmax Hafter. pose proof (inv_reachable _ Hl _ Hr) as Hs.
  pose proof (limits_valid_jobs _ Hl).
  pose proof (inv_jobs _ _ Hs id j Hj) as [_ _ _ Hlog (e & He & _)].
  assert (sj_event_sender j ≠ []) as Hne by (intros Hn; by rewrite Hn in He).
  assert (select_replay (sj_events j) (Some after)
    = replay_spec (sse_replay_events l) (sj_event_sender j) after) as Hspec
    by (apply select_replay_spec; [lia|done|done|done|done]).
  split_and!; [|done|].
  - destruct Hlog as (-> & _). unfold zlen. rewrite length_drop. lia.
  - intros owner sub s' Hsub more. unfold subscribe in Hsub.
    destruct (owned_job id owner (st σ)) as [k|] eqn:Ho; [|done].
    apply owned_job_Some in Ho as [Hk _]. simplify_eq. rewrite Hspec in Hsub.
    unfold replay_spec in Hsub. destruct (Z.ltb_spec (zlen (sj_event_sender j)) after); [done|].
    destruct (after <? _); [done|]. destruct (_ <=? _); [done|]. destruct (_ <=? _); [done|].
    injection Hsub as <- _. simpl. rewrite drop_app_length. unfold zlen in *.
    by rewrite drop_app_le by lia.
Qed.

(** The metrics add up: in a reachable state the five counters of a scrape
    together are the number of retained jobs, and the live ones are within the
    configured capacity. *)
Theorem metrics_consistent σ ended m s' :
  limits_valid l = true → reachable config σ → collect ended (st σ) = (m, s') →
  jm_queued m + jm_running m + jm_completed m + jm_failed m + jm_cancelled m = jm_retained m
  ∧ jm_retained m <= retained_jobs l ∧ jm_running m <= concurrent_jobs l
  ∧ jm_running m + jm_queued m <= concurrent_jobs l + queued_jobs l
  ∧ 0 <= jm_subscribers m <= sse_subscribers_per_process l.
Proof.
  intros Hl Hr Hc. pose proof (inv_reachable _ Hl _ Hr) as Hs.
  destruct (inv_counts _ _ Hs) as (Hq & Hrun & Hsize & Hconc & Hload).
  destruct (inv_leases _ _ Hs) as (Hsubs & Hproc & _). pose proof (zlen_nonneg (leases σ)).
  destruct (worker_limit_eq _ Hl) as [Hwl _].
  unfold collect in Hc. injection Hc as <- <-.
  destruct (reap_workers_spec ended (st σ)) as (h & _ & ->). unfold status_count. simpl.
  split_and!; try lia. rewrite Hq, Hrun. clear. generalize (jobs (st σ)) as m.
  induction m as [|k x m Hk IH] using map_ind; [by rewrite !mcount_empty, map_size_empty|].
  rewrite !mcount_insert, map_size_insert_None by done. unfold has_status, one_if in *.
  destruct (sj_status x); simpl in *; lia.
Qed.
End theorems.

(** ** A console with two slots *)

Definition two_slots : WebLimits := into_limits {|
  raw_request_header_bytes := None;
  raw_request_body_bytes := None;
  raw_accepted_connections := None;
  raw_header_read_seconds := None;
  raw_response_seconds := None;
  raw_max_sessions := None;
  raw_session_idle_seconds := None;
  raw_session_absolute_seconds := None;
  raw_bootstrap_lifetime_seconds := None;
  raw_concurrent_jobs := Some 2;
  raw_queued_jobs := None;
  raw_retained_jobs := None;
  raw_sse_subscribers_per_session := None;
  raw_sse_subscribers_per_process := None;
  raw_sse_replay_events := None;
  raw_sse_heartbeat_seconds := None;
  raw_dns_addresses := None;
  raw_history_page_rows := None;
  raw_history_retained_rows := None;
  raw_history_retention_days := None;
  raw_history_store_bytes := None;
  raw_plan_file_bytes := None;
  raw_plan_store_bytes := None;
  raw_dry_run_receipt_seconds := None;
  raw_production_grant_seconds := None;
  raw_backup_reference_bytes := None;
  raw_oidc_discovery_bytes := None;
  raw_oidc_jwks_bytes := None;
  raw_oidc_signing_keys := None;
  raw_oidc_state_seconds := None;
  raw_oidc_token_bytes := None |}.

Definition folder_source : SourceProfile := {|
  sp_id := "photos"; sp_label := "Photos"; sp_configured_inputs := ["/data/photos"];
  sp_canonical_inputs := ["/data/photos"]; sp_identities := [""]; sp_generation_sha256 := "";
  sp_settings := SourceSettings.Folder default_scan |}.

Definition console : WebConfig := {|
  wc_limits := two_slots; wc_sources := [folder_source]; wc_servers := []; wc_states := [];
  wc_history_state_id := "" |}.

Definition admission (id : string) : Admission := {|
  adm_random_id := Ok id; adm_ended := λ _, None; adm_spawned := true |}.

Definition after_admit (id owner : string) (σ : System) : System := {|
  st := (admit_scan console (admission id) owner "photos" (st σ)).2;
  phase := <[id := Phase.Starting]> (phase σ); leases := leases σ |}.
Definition after_begin (id : string) (σ : System) : System := {|
  st := (begin two_slots id (st σ)).2;
  phase := <[id := begin_phase (begin two_slots id (st σ)).1]> (phase σ); leases := leases σ |}.
Definition after_cancel (id owner : string) (σ : System) : System := {|
  st := (cancel two_slots id owner (st σ)).2; phase := wake <$> phase σ; leases := leases σ |}.

Definition one_job : System := after_admit "a" "alice" initial.
Definition two_jobs : System := after_admit "b" "bob" one_job.
Definition parked : System := after_begin "a" (after_begin "b" two_jobs).

Lemma two_slots_valid : limits_valid (wc_limits console) = true.
Proof. vm_compute. reflexivity. Qed.

Lemma admit_step id owner σ :
  phase σ !! id = None → (admit_scan console (admission id) owner "photos" (st σ)).1 = Ok id →
  step console σ (after_admit id owner σ).
Proof.
  intros Hid Hr. destruct σ as [s ph ls]. unfold after_admit. simpl in *.
  change (<[id := Phase.Starting]> ph) with (admitted (Ok id) ph). rewrite <- Hr.
  eapply step_admit; [|apply surjective_pairing]. split; [by intros w p|]. by intros x [= <-].
Qed.

Lemma begin_step id σ :
  phase σ !! id = Some Phase.Starting → step console σ (after_begin id σ).
Proof.
  intros Hid. destruct σ as [s ph ls]. unfold after_begin. simpl in *.
  eapply step_begin; [done|]. apply surjective_pairing.
Qed.

Lemma one_job_reachable : reachable console one_job.
Proof.
  apply rtc_once. apply (admit_step "a" "alice" initial); vm_compute; reflexivity.
Qed.

Lemma two_jobs_reachable : reachable console two_jobs.
Proof.
  eapply rtc_r; [apply one_job_reachable|].
  apply (admit_step "b" "bob" one_job); vm_compute; reflexivity.
Qed.

Lemma parked_reachable : reachable console parked.
Proof.
  eapply rtc_r; [eapply rtc_r; [apply two_jobs_reachable|apply (begin_step "b")]|
    apply (begin_step "a")]; vm_compute; reflexivity.
Qed.

(** With more than one slot a start can leave a slot idle. [begin] takes its job
    off the queue without notifying, so a thread that was parked because its job
    was not the first stays parked when it becomes the first, although a slot is
    free and its next round would start the job: it has to wait until another job
    finishes or is cancelled. *)
Theorem start_wakes_nobody :
  ∃ σ, reachable console σ ∧ shutting_down (st σ) = false
  ∧ next_queued (st σ) = Some "b"
  ∧ running (st σ) < concurrent_jobs (wc_limits console)
  ∧ phase σ !! "b" = Some Phase.Waiting
  ∧ (begin (wc_limits console) "b" (st σ)).1 = BeginRun
  ∧ ∀ other p, phase σ !! other = Some p → other ≠ "b" → p = Phase.Begun.
Proof.
  exists parked. split; [apply parked_reachable|]. split_and!; try (vm_compute; reflexivity).
  intros other p Hp Hne.
  assert (phase parked = <["a" := Phase.Begun]> (<["b" := Phase.Waiting]> ∅)) as Heq
    by (vm_compute; reflexivity).
  rewrite Heq in Hp. destruct (decide (other = "a")) as [->|].
  - rewrite lookup_insert_eq in Hp. by injection Hp.
  - by rewrite !lookup_insert_ne, lookup_empty in Hp.
Qed.

(** ** Witnesses *)

Lemma jobs_invariant_witness : reachable console parked ∧ Inv console parked.
Proof. split; [exact parked_reachable|exact (jobs_invariant console parked two_slots_valid parked_reachable)]. Defined.

Lemma jobs_progress_witness :
  phase two_jobs !! "a" = Some Phase.Starting
  ∧ ∃ s' j, begin two_slots "a" (st two_jobs) = (BeginRun, s') ∧ jobs s' !! "a" = Some j
      ∧ sj_status j = JobStatus.Running.
Proof.
  apply (proj1 (jobs_progress console two_jobs two_slots_valid two_jobs_reachable
    ltac:(vm_compute; reflexivity))); vm_compute; reflexivity.
Defined.

Definition job_of (id : string) (s : JobsState) : StoredJob :=
  default (new_job "" "" "" "" (JobKind.Scan HistoryKind.FolderScan)) (jobs s !! id).

Definition cancelled_b : System := after_cancel "b" "bob" two_jobs.

Lemma cancelled_b_reachable : reachable console cancelled_b.
Proof.
  eapply rtc_r; [apply two_jobs_reachable|]. unfold cancelled_b, after_cancel.
  assert (cancel_notifies "b" "bob" (st two_jobs) = true) as Hn by (vm_compute; reflexivity).
  destruct two_jobs as [s ph ls]. simpl in *.
  replace (wake <$> ph) with (if cancel_notifies "b" "bob" s then wake <$> ph else ph) by (by rewrite Hn).
  eapply step_cancel, surjective_pairing.
Qed.

Lemma terminal_final_witness :
  jobs (st (after_begin "b" cancelled_b)) !! "b" = Some (job_of "b" (st cancelled_b))
  ∨ jobs (st (after_begin "b" cancelled_b)) !! "b" = None.
Proof.
  apply (terminal_final console cancelled_b (after_begin "b" cancelled_b) "b"
    (job_of "b" (st cancelled_b)) two_slots_valid cancelled_b_reachable).
  - apply begin_step. vm_compute. reflexivity.
  - vm_compute. reflexivity.
  - vm_compute. reflexivity.
Defined.

Definition sample_binding : DryRunBinding := {|
  drb_plan_reference := "0123456789abcdef"; drb_plan_sha256 := "";
  drb_source_configuration_sha256 := ""; drb_server_identity_sha256 := "";
  drb_server_profile_sha256 := ""; drb_credential_generation := 1;
  drb_max_logical_effects := 2; drb_completed_unix := 100 |}.

Definition sample_capability : ApplyCapability := {|
  cap_prepared := {| pre_plan := sample_upload_plan 1 Folder sample_pair; pre_production := None |};
  cap_binding := {| gb_owner := "alice"; gb_receipt := "fedcba9876543210";
    gb_dry_run := sample_binding; gb_source_profile_id := "photos"; gb_server_profile_id := "";
    gb_backup_reference_sha256 := None |} |}.

Definition apply_result := admit_apply console (admission "c") sample_capability (st two_jobs).

Definition applied : System := {|
  st := apply_result.2; phase := <["c" := Phase.Starting]> (phase two_jobs); leases := [] |}.

Lemma apply_exclusive_witness :
  ((∃ holder, holds_plan (jobs (st two_jobs)) holder "0123456789abcdef") →
    ∀ id, apply_result.1 ≠ Ok id)
  ∧ (∀ id, apply_result.1 = Ok id → holds_plan (jobs apply_result.2) id "0123456789abcdef"
       ∧ ∀ other, holds_plan (jobs apply_result.2) other "0123456789abcdef" → other = id).
Proof.
  apply (apply_exclusive console two_jobs (admission "c") sample_capability _ _ two_slots_valid
    two_jobs_reachable).
  - split; [by intros w p|]. intros x [= <-]. vm_compute. reflexivity.
  - apply surjective_pairing.
Defined.

(** A second admission for the plan is refused, the first was not. *)
Example apply_twice :
  apply_result.1 = Ok "c"
  ∧ (admit_apply console (admission "d") sample_capability (st applied)).1 = Err AdmissionError.Full.
Proof. vm_compute. done. Qed.

#[local] Instance list_history : ConsoleHistory (list TerminalRecord) := {|
  now_unix w := (Ok 100, w);
  record_terminal record w := (Ok (zlen w), record :: w);
  record_dry_run binding record w :=
    (Ok {| drr_reference := "fedcba9876543210"; drr_binding := binding |}, record :: w);
  remove_plan _ w := (Ok tt, w) |}.

Definition failed_scan : WorkerOutcome.t := WorkerOutcome.Failed HistoryKind.FolderScan.

Lemma finish_recorded_witness :
  ∃ j', jobs (finish two_slots "a" failed_scan (finish_record failed_scan []).1 (st parked)) !! "a" = Some j'
    ∧ terminal (sj_status j') = true
    ∧ ∃ record w1, Some (tr_status record) = terminal_status (sj_status j')
      ∧ tr_kind record = HistoryKind.FolderScan
      ∧ worker_failed (finish two_slots "a" failed_scan (finish_record failed_scan []).1 (st parked))
        = worker_failed (st parked)
      ∧ (sj_status j' = JobStatus.Completed → sj_receipt j' = None)
      ∧ ∃ n, record_terminal record w1 = (Ok n, (finish_record failed_scan []).2) ∧ @None ReceiptRef = None.
Proof.
  apply (finish_recorded console "a" failed_scan [] (Ok None) (finish_record failed_scan []).2
    (st parked) (job_of "a" (st parked))).
  - vm_compute. reflexivity.
  - vm_compute. reflexivity.
Defined.

Lemma replay_exact_witness :
  zlen (sj_events (job_of "a" (st one_job))) <= 128
  ∧ select_replay (sj_events (job_of "a" (st one_job))) (Some 0)
    = replay_spec 128 (sj_event_sender (job_of "a" (st one_job))) 0
  ∧ ∀ owner sub s', subscribe two_slots "a" owner (Some 0) (st one_job) = (Ok sub, s') →
      ∀ more, sub_replay sub ++ drop (sub_receiver sub) (sj_event_sender (job_of "a" (st one_job)) ++ more)
              = drop 0 (sj_event_sender (job_of "a" (st one_job)) ++ more).
Proof.
  apply (replay_exact console one_job "a" (job_of "a" (st one_job)) 0 two_slots_valid one_job_reachable).
  - vm_compute. reflexivity.
  - vm_compute. reflexivity.
  - lia.
Defined.

Lemma metrics_consistent_witness :
  let m := (collect (λ _, None) (st two_jobs)).1 in
  jm_queued m + jm_running m + jm_completed m + jm_failed m + jm_cancelled m = jm_retained m
  ∧ jm_retained m <= 128 ∧ jm_running m <= 2 ∧ jm_running m + jm_queued m <= 2 + 4
  ∧ 0 <= jm_subscribers m <= 16.
Proof.
  apply (metrics_consistent console two_jobs (λ _, None) _ (collect (λ _, None) (st two_jobs)).2
    two_slots_valid two_jobs_reachable).
  apply surjective_pairing.
Defined.
