(* ===== verification/Grants.v ===== *)
(** * Grants: from a dry-run receipt to one apply job
    ([crates/immich-web/src/grants.rs], [source_configuration_digest] of
    [state_store.rs])

    An owner confirms a receipt and gets a short-lived grant with an idempotency
    key; presenting the key starts the apply job.  The plan, the receipt, the
    profiles and the state directory are compared again at both moments.  The
    calls into the store and the file system are effects of [W]; [J] is the state
    of the job manager the [start] callback changes. *)
From S2P Require Export Prelude Text Upload Client Executor Limits Profiles Console Jobs.

Module GrantError.
Inductive t := Invalid | Expired | Unavailable | Admission (e : AdmissionError.t).
#[global] Instance t_eq_dec : EqDecision t.
Proof. solve_decision. Defined.
End GrantError.

Record GrantRequest := {
  gr_receipt : ReceiptRef;
  gr_plan_sha256 : string;
  gr_max_logical_effects : Z;
  gr_backup_reference : string;
}.

Record GrantView := { gv_idempotency_key : string; gv_production : bool }.

Inductive GrantAdmission := GrantAdmitted (job_id : string) | Existing (job_id : string).

Inductive GrantStatus :=
  | Pending (slot : option ApplyCapability)
  | Consumed (job_id : string).

(** An [Instant] is a number of nanoseconds. *)
Record GrantEntry := {
  ge_receipt : ReceiptRef;
  ge_idempotency_key : string;
  ge_deadline : Z;
  ge_status : GrantStatus;
}.

Record GrantState := {
  entries : gmap string GrantEntry;
  spent_receipts : gset ReceiptRef;
}.

Definition new_grants : GrantState := {| entries := ∅; spent_receipts := ∅ |}.

Definition set_entries f (s : GrantState) : GrantState :=
  {| entries := f (entries s); spent_receipts := spent_receipts s |}.
Definition set_spent f (s : GrantState) : GrantState :=
  {| entries := entries s; spent_receipts := f (spent_receipts s) |}.

(** [instant.checked_add(duration)]; the clock counts 64-bit seconds. *)
Definition INSTANT_MAX : Z := 2 ^ 63 * NANOS_PER_SEC.
Definition instant_checked_add (now d : Z) : option Z :=
  if now + d <? INSTANT_MAX then Some (now + d) else None.

(** [left.len() == right.len() && bool::from(left.ct_eq(right))] *)
Definition same_key (left right : string) : bool :=
  (len left =? len right) && String.eqb left right.

(** [i64::saturating_sub] *)
Definition sat_sub_i64 (a b : Z) : Z := Z.max (- 2 ^ 63) (Z.min (a - b) (2 ^ 63 - 1)).

(** What the grants ask the console store. *)
Class ConsoleStore (W : Type) := {
  clock_unix : W → result unit Z * W;
  dry_run_receipt : ReceiptRef → W → result unit (option DryRunReceipt) * W;
  load_plan : ArtifactRef → W → result unit StoredUploadPlan * W;
  receipt_is_newer_than_checkpoint : ArtifactRef → Z → W → result unit bool * W;
  matches_state : ResolvedStateProfile → W → bool * W;
}.

Section grants.
  Context {W : Type} `{ConsoleStore W, ProfileFs W, TimeLib, Codec}.
  Context (config : WebConfig).
Notation l := (wc_limits config).

(** [source_configuration_digest]; the prefix ends with a zero byte. *)
Definition source_configuration_digest (source configuration : string) : string :=
  sha256_hex ("immich-rs-web-source-configuration-v1" +:+ one_byte 0 +:+ source +:+ one_byte 0
    +:+ configuration).

(** The comparisons at the end of [binding_is_current] *)
Definition binding_matches (grant : GrantBinding) (receipt : DryRunReceipt)
    (stored : StoredUploadPlan) (server : ServerProfile) (resolved : ResolvedSourceProfile)
    (state_matches : bool) : bool :=
  let d := gb_dry_run grant in
  let b := sup_binding stored in
  bool_decide (drr_binding receipt = d)
  && state_matches
  && String.eqb (pb_plan_sha256 b) (drb_plan_sha256 d)
  && String.eqb (pb_source_profile_id b) (gb_source_profile_id grant)
  && String.eqb (pb_source_profile_sha256 b) (rsp_generation_sha256 resolved)
  && String.eqb (source_configuration_digest (rsp_generation_sha256 resolved)
                   (up_configuration_sha256 (sup_plan stored)))
       (drb_source_configuration_sha256 d)
  && String.eqb (pb_server_profile_id b) (gb_server_profile_id grant)
  && String.eqb (pb_server_identity_sha256 b) (drb_server_identity_sha256 d)
  && String.eqb (pb_server_profile_sha256 b) (drb_server_profile_sha256 d)
  && (pb_credential_generation b =? drb_credential_generation d)
  && String.eqb (svp_generation_sha256 server) (drb_server_profile_sha256 d)
  && (svp_credential_generation server =? drb_credential_generation d)
  && (pb_max_logical_effects b =? drb_max_logical_effects d).

(** [binding_is_current]; the state directory is compared only when the receipt
    matches, which has no effect on the result. *)
Definition binding_is_current (grant : GrantBinding) (w : W) : bool * W :=
  match dry_run_receipt (gb_receipt grant) w with
  | (Ok (Some receipt), w) =>
    match load_plan (drb_plan_reference (gb_dry_run grant)) w with
    | (Ok stored, w) =>
      match config_source config (gb_source_profile_id grant),
            config_server config (gb_server_profile_id grant) with
      | Some source, Some server =>
        match source_resolve source w with
        | (Ok resolved, w) =>
          match history_state config with
          | Ok profile =>
            match state_resolve profile w with
            | (Ok state, w) =>
              let '(same, w) := matches_state state w in
              (binding_matches grant receipt stored server resolved same, w)
            | (Err _, w) => (false, w)
            end
          | Err _ => (false, w)
          end
        | (Err _, w) => (false, w)
        end
      | _, _ => (false, w)
      end
    | (Err _, w) => (false, w)
    end
  | (_, w) => (false, w)
  end.

Definition validate_receipt_age (binding : DryRunBinding) : io W GrantError.t unit := λ w,
  match clock_unix w with
  | (Err _, w) => (Err GrantError.Unavailable, w)
  | (Ok now, w) =>
    if 2 ^ 63 <=? dry_run_receipt_seconds l then (Err GrantError.Invalid, w)
    else if (now <? drb_completed_unix binding)
            || (dry_run_receipt_seconds l <? sat_sub_i64 now (drb_completed_unix binding))
    then (Err GrantError.Expired, w) else (Ok tt, w)
  end.

Definition validate_backup (reference : string) (production : bool) :
    result GrantError.t (option string) :=
  if negb production then if is_empty reference then Ok None else Err GrantError.Invalid
  else if negb (backup_reference_valid (backup_reference_bytes l) reference)
  then Err GrantError.Invalid
  else Ok (Some (sha256_hex reference)).

(** A fallible call, its error replaced. *)
Definition call_err {A} (f : W → result unit A * W) (e : GrantError.t) : io W GrantError.t A := λ w,
  let '(r, w) := f w in (map_err (λ _, e) r, w).

(** [self.is_current(..).then_some(..).ok_or(..)] *)
Definition require_current (capability : ApplyCapability) (production : bool) :
    io W GrantError.t (ApplyCapability * bool) := λ w,
  let '(current, w) := binding_is_current (cap_binding capability) w in
  (if current then Ok (capability, production) else Err GrantError.Invalid, w).

(** [GrantStore::prepare] *)
Definition prepare (owner : string) (request : GrantRequest) :
    io W GrantError.t (ApplyCapability * bool) :=
  found ← call_err (dry_run_receipt (gr_receipt request)) GrantError.Unavailable;
  receipt ← lift (ok_or found GrantError.Invalid);
  let binding := drr_binding receipt in
  _ ← validate_receipt_age binding;
  _ ← lift (fail_if (negb (String.eqb (gr_plan_sha256 request) (drb_plan_sha256 binding))
                     || negb (gr_max_logical_effects request =? drb_max_logical_effects binding))
        GrantError.Invalid);
  stored ← call_err (load_plan (drb_plan_reference binding)) GrantError.Invalid;
  _ ← lift (fail_if (negb ((up_schema_version (sup_plan stored) =? 1)
                           || (up_schema_version (sup_plan stored) =? 2))) GrantError.Invalid);
  newer ← call_err (receipt_is_newer_than_checkpoint (drb_plan_reference binding)
                      (drb_completed_unix binding)) GrantError.Unavailable;
  _ ← lift (fail_if (negb newer) GrantError.Invalid);
  server ← lift (ok_or (config_server config (pb_server_profile_id (sup_binding stored)))
                   GrantError.Invalid);
  let production := match svp_mode server with
                    | ServerMode.ProductionRead => true | ServerMode.Disposable => false end in
  backup_reference_sha256 ← lift (validate_backup (gr_backup_reference request) production);
  let production_request := if production then Some {|
    pwr_plan_sha256 := gr_plan_sha256 request;
    pwr_expected_operations := gr_max_logical_effects request;
    pwr_backup_reference := gr_backup_reference request |} else None in
  prepared ← lift (map_err (λ _, GrantError.Invalid)
    (prepare_upload_apply (sup_plan stored) production_request));
  let capability := {|
    cap_prepared := prepared;
    cap_binding := {|
      gb_owner := owner; gb_receipt := gr_receipt request; gb_dry_run := binding;
      gb_source_profile_id := pb_source_profile_id (sup_binding stored);
      gb_server_profile_id := pb_server_profile_id (sup_binding stored);
      gb_backup_reference_sha256 := backup_reference_sha256 |} |} in
  require_current capability production.

(** [GrantStore::confirm_at]; [key] is the random idempotency key. *)
Definition confirm_at (owner : string) (request : GrantRequest) (now : Z) (key : result unit string)
    (w : W) (s : GrantState) : result GrantError.t GrantView * W * GrantState :=
  match prepare owner request w with
  | (Err e, w) => (Err e, w, s)
  | (Ok (capability, production), w) =>
    match key, instant_checked_add now (from_secs (production_grant_seconds l)) with
    | Err _, _ | _, None => (Err GrantError.Unavailable, w, s)
    | Ok key, Some deadline =>
      let entry := {|
        ge_receipt := gb_receipt (cap_binding capability); ge_idempotency_key := key;
        ge_deadline := deadline; ge_status := Pending (Some capability) |} in
      if bool_decide (gr_receipt request ∈ spent_receipts s) then (Err GrantError.Invalid, w, s)
      else (Ok {| gv_idempotency_key := key; gv_production := production |}, w,
            set_entries (<[owner := entry]>) s)
    end
  end.

(** [GrantStore::revoke_owner] *)
Definition revoke_owner (owner : string) (s : GrantState) : GrantState :=
  set_entries (delete owner) s.

Definition set_ge_status (status : GrantStatus) (e : GrantEntry) : GrantEntry := {|
  ge_receipt := ge_receipt e; ge_idempotency_key := ge_idempotency_key e;
  ge_deadline := ge_deadline e; ge_status := status |}.

(** [GrantStore::admit_locked]; [J] is what the callback changes. *)
Definition admit_locked {J : Type} (owner : string) (receipt : ReceiptRef) (idempotency_key : string)
    (now : Z) (start : ApplyCapability → J → result AdmissionError.t string * J)
    (w : W) (j : J) (s : GrantState) : result GrantError.t GrantAdmission * W * J * GrantState :=
  match entries s !! owner with
  | None => (Err GrantError.Invalid, w, j, s)
  | Some entry =>
    if negb (String.eqb (ge_receipt entry) receipt)
       || negb (same_key (ge_idempotency_key entry) idempotency_key)
    then (Err GrantError.Invalid, w, j, s)
    else if ge_deadline entry <=? now then (Err GrantError.Expired, w, j, revoke_owner owner s)
    else match ge_status entry with
    | Consumed job_id => (Ok (Existing job_id), w, j, s)
    | Pending slot =>
      if bool_decide (receipt ∈ spent_receipts s)
         || (history_retained_rows l <=? Z.of_nat (size (spent_receipts s)))
      then (Err GrantError.Unavailable, w, j, revoke_owner owner s)
      else
        let s := set_entries (<[owner := set_ge_status (Pending None) entry]>) s in
        match slot with
        | None => (Err GrantError.Unavailable, w, j, s)
        | Some capability =>
          let binding := cap_binding capability in
          let consistent := bool_decide (is_production (cap_prepared capability)
                                         = is_some (gb_backup_reference_sha256 binding)) in
          let '(current, w) := if consistent then binding_is_current binding w else (false, w) in
          if negb consistent || negb current
          then (Err GrantError.Invalid, w, j, revoke_owner owner s)
          else match start capability j with
          | (Ok job_id, j) =>
            (Ok (GrantAdmitted job_id), w, j,
             set_entries (<[owner := set_ge_status (Consumed job_id) entry]>)
               (set_spent (union {[receipt]}) s))
          | (Err error, j) => (Err (GrantError.Admission error), w, j, revoke_owner owner s)
          end
        end
    end
  end.
End grants.
