(* ===== verification/GrantsTheorems.v ===== *)
(** * GrantsTheorems: what the grants guarantee

    [operation] is one call into [GrantStore] with the world and the jobs it
    found; [run] is any sequence of confirmations, admissions and revocations, and
    [grants_inv] the invariant every sequence keeps.  The witness is a console of one
    folder and one disposable server; its callback is [JobManager::admit_apply]. *)
From S2P Require Export Grants JobsTheorems.

Section protocol.
  Context {W J : Type} `{ConsoleStore W, ProfileFs W, TimeLib, Codec}.
  Context (config : WebConfig).
Notation l := (wc_limits config).

(** ** One call *)

Definition Callback : Type := ApplyCapability → J → result AdmissionError.t string * J.

(** A call with the world it runs in: between two calls the store, the profiles
    and the jobs may change in any way. *)
Inductive operation :=
  | Confirm (owner : string) (request : GrantRequest) (now : Z) (key : result unit string) (w : W)
  | Admit (owner : string) (receipt : ReceiptRef) (key : string) (now : Z) (start : Callback)
      (w : W) (j : J)
  | Revoke (owner : string).

(** The jobs started, in order, with the receipt each used. *)
Definition started := list (ReceiptRef * string).

Definition perform (op : operation) (s : GrantState) : started * GrantState :=
  match op with
  | Confirm owner request now key w => let '(_, _, s) := confirm_at config owner request now key w s in ([], s)
  | Admit owner receipt key now start w j =>
    match admit_locked config owner receipt key now start w j s with
    | (Ok (GrantAdmitted job), _, _, s) => ([(receipt, job)], s)
    | (_, _, _, s) => ([], s)
    end
  | Revoke owner => ([], revoke_owner owner s)
  end.

Fixpoint run (ops : list operation) (s : GrantState) : started * GrantState :=
  match ops with
  | [] => ([], s)
  | op :: ops =>
    let '(log, s) := perform op s in let '(more, s) := run ops s in (log ++ more, s)
  end.

Lemma run_app ops1 ops2 s log1 s1 log2 s2 :
  run ops1 s = (log1, s1) → run ops2 s1 = (log2, s2) → run (ops1 ++ ops2) s = (log1 ++ log2, s2).
Proof.
  revert s log1. induction ops1 as [|op ops IH]; intros s log1 R1 R2; simpl in *.
  - by simplify_eq.
  - destruct (perform op s) as [log0 s0], (run ops s0) as [more s'] eqn:Hr.
    simplify_eq. rewrite (IH _ _ Hr R2). by rewrite app_assoc.
Qed.

(** ** The calls, one by one *)

(** What [prepare] has checked when it hands out a capability. *)
Definition prepared_for (owner : string) (request : GrantRequest) (capability : ApplyCapability)
    (production : bool) : Prop :=
  let b := cap_binding capability in
  gb_owner b = owner
  ∧ gb_receipt b = gr_receipt request
  ∧ drb_plan_sha256 (gb_dry_run b) = gr_plan_sha256 request
  ∧ drb_max_logical_effects (gb_dry_run b) = gr_max_logical_effects request
  ∧ is_production (cap_prepared capability) = production
  ∧ is_some (gb_backup_reference_sha256 b) = production
  ∧ ∀ digest, gb_backup_reference_sha256 b = Some digest →
      digest = sha256_hex (gr_backup_reference request).

Lemma call_err_Ok {A} (f : W → result unit A * W) e w a w' :
  call_err f e w = (Ok a, w') ↔ f w = (Ok a, w').
Proof. unfold call_err. destruct (f w) as [[] ?]; simpl; split; intros; simplify_eq; done. Qed.

Lemma prepare_upload_apply_production plan request prepared :
  prepare_upload_apply plan request = Ok prepared → is_production prepared = is_some request.
Proof.
  unfold prepare_upload_apply, validate_production_confirmation, is_production.
  intros Hp. result_inv. simpl. destruct request as [r|]; result_inv; simplify_eq; [|done].
  case_match; by simplify_eq.
Qed.

Lemma validate_backup_Ok reference production digest :
  validate_backup config reference production = Ok digest →
  is_some digest = production ∧ ∀ d, digest = Some d → d = sha256_hex reference.
Proof.
  unfold validate_backup. intros Hv. repeat case_match; simplify_eq; split; try done;
    try (by intros d [= <-]); by destruct production.
Qed.

Lemma prepare_sound owner request w capability production w' :
  prepare config owner request w = (Ok (capability, production), w') →
  prepared_for owner request capability production
  ∧ ∃ w0, binding_is_current config (cap_binding capability) w0 = (true, w').
Proof.
  unfold prepare. intros Hp.
  apply io_bind_Ok in Hp as (found & w1 & _ & Hp).
  apply io_bind_Ok in Hp as (receipt & w2 & _ & Hp).
  apply io_bind_Ok in Hp as (? & w3 & _ & Hp).
  apply io_bind_Ok in Hp as (? & w4 & Hc & Hp). apply lift_Ok in Hc as [Hc ->].
  apply fail_if_Ok in Hc. bools.
  apply io_bind_Ok in Hp as (stored & w5 & _ & Hp).
  apply io_bind_Ok in Hp as (? & w6 & _ & Hp).
  apply io_bind_Ok in Hp as (? & w7 & _ & Hp).
  apply io_bind_Ok in Hp as (? & w8 & _ & Hp).
  apply io_bind_Ok in Hp as (server & w9 & _ & Hp).
  apply io_bind_Ok in Hp as (backup & w10 & Hb & Hp). apply lift_Ok in Hb as [Hb ->].
  apply io_bind_Ok in Hp as (prepared & w11 & Hu & Hp). apply lift_Ok in Hu as [Hu ->].
  apply map_err_Ok, prepare_upload_apply_production in Hu.
  apply validate_backup_Ok in Hb as [Hb Hd].
  unfold require_current in Hp. destruct (binding_is_current _ _ _) as [current w12] eqn:Hcur.
  destruct current; [|done]. simplify_eq. split; [|by eexists].
  unfold prepared_for. simpl. split_and!; try done.
  - symmetry. by apply String.eqb_eq.
  - rewrite Hu. by case_match.
Qed.

(** ** The invariant *)

(** [e] is what [owner]'s confirmation [op] stored, its status aside. *)
Definition issued_by (op : operation) (owner : string) (e : GrantEntry)
    (capability : ApplyCapability) : Prop :=
  ∃ request now key w production w',
    op = Confirm owner request now (Ok key) w
    ∧ prepare config owner request w = (Ok (capability, production), w')
    ∧ instant_checked_add now (from_secs (production_grant_seconds l)) = Some (ge_deadline e)
    ∧ ge_receipt e = gr_receipt request
    ∧ ge_idempotency_key e = key.

(** An entry is pending with the capability of its confirmation, or consumed by
    a job of the log; the slot of a pending entry is never empty. *)
Definition entry_ok (ops : list operation) (log : started) (owner : string) (e : GrantEntry) : Prop :=
  ∃ op capability, op ∈ ops ∧ issued_by op owner e capability
    ∧ match ge_status e with
      | Pending slot => slot = Some capability
      | Consumed job => (ge_receipt e, job) ∈ log
      end.

Record grants_inv (ops : list operation) (log : started) (s : GrantState) : Prop := {
  inv_spent : spent_receipts s = list_to_set (map fst log);
  inv_once : NoDup (map fst log);
  inv_bound : zlen log <= Z.max 0 (history_retained_rows l);
  inv_entries : map_Forall (entry_ok ops log) (entries s);
}.

Lemma entry_ok_mono ops log ops' log' owner e :
  entry_ok ops log owner e → entry_ok (ops ++ ops') (log ++ log') owner e.
Proof.
  intros (op & c & Hop & Hi & Hs). exists op, c. split_and!; [set_solver|done|].
  case_match; set_solver.
Qed.

Lemma grants_new : grants_inv [] [] new_grants.
Proof. split; simpl; [done|constructor|unfold zlen; simpl; lia|apply map_Forall_empty]. Qed.

(** A step that starts no job. *)
Lemma grants_quiet ops log op s s' :
  grants_inv ops log s → spent_receipts s' = spent_receipts s →
  map_Forall (entry_ok (ops ++ [op]) log) (entries s') → grants_inv (ops ++ [op]) (log ++ []) s'.
Proof. intros [] Hs He. rewrite app_nil_r. split; by rewrite ?Hs. Qed.

Lemma grants_entries_mono ops log op s :
  grants_inv ops log s → map_Forall (entry_ok (ops ++ [op]) log) (entries s).
Proof.
  intros Hi owner e He. rewrite <- (app_nil_r log). apply entry_ok_mono, (inv_entries _ _ _ Hi _ _ He).
Qed.

Lemma grants_revoke ops log op owner s :
  grants_inv ops log s → grants_inv (ops ++ [op]) (log ++ []) (revoke_owner owner s).
Proof.
  intros Hi. apply (grants_quiet _ _ _ s); [done|done|].
  apply map_Forall_delete, (grants_entries_mono _ _ _ _ Hi).
Qed.

Lemma revoke_set_entry owner e s :
  revoke_owner owner (set_entries <[owner := e]> s) = revoke_owner owner s.
Proof. unfold revoke_owner, set_entries. simpl. by rewrite delete_insert_eq. Qed.

(** ** Admission *)

(** The state after [entry]'s job started. *)
Definition spend (owner : string) (entry : GrantEntry) (job : string) (s : GrantState) : GrantState := {|
  entries := <[owner := set_ge_status (Consumed job) entry]> (entries s);
  spent_receipts := {[ge_receipt entry]} ∪ spent_receipts s |}.

(** What an admission that starts a job has found. *)
Definition admission_ok (owner : string) (receipt : ReceiptRef) (key : string) (now : Z)
    (start : Callback) (w : W) (j : J) (s : GrantState) (job : string) (w' : W) (j' : J)
    (entry : GrantEntry) (capability : ApplyCapability) : Prop :=
  entries s !! owner = Some entry
  ∧ ge_status entry = Pending (Some capability)
  ∧ ge_receipt entry = receipt ∧ ge_idempotency_key entry = key ∧ now < ge_deadline entry
  ∧ receipt ∉ spent_receipts s
  ∧ Z.of_nat (size (spent_receipts s)) < history_retained_rows l
  ∧ is_production (cap_prepared capability)
    = is_some (gb_backup_reference_sha256 (cap_binding capability))
  ∧ binding_is_current config (cap_binding capability) w = (true, w')
  ∧ start capability j = (Ok job, j').

Lemma same_key_eq a b : same_key a b = true ↔ a = b.
Proof.
  unfold same_key. rewrite andb_true_iff, Z.eqb_eq, String.eqb_eq. split; [by intros []|].
  by intros ->.
Qed.

(** An admission starts a job, or it leaves the entries as they are, or it only
    revokes the owner's. *)
Lemma admit_locked_spec owner receipt key now start w j s r w' j' s' :
  (∀ e, entries s !! owner = Some e → ge_status e ≠ Pending None) →
  admit_locked config owner receipt key now start w j s = (r, w', j', s') →
  (∃ job entry capability, r = Ok (GrantAdmitted job) ∧ s' = spend owner entry job s
     ∧ admission_ok owner receipt key now start w j s job w' j' entry capability)
  ∨ (∀ job, r ≠ Ok (GrantAdmitted job)) ∧ (s' = s ∨ s' = revoke_owner owner s).
Proof.
  intros Hslot. unfold admit_locked.
  destruct (entries s !! owner) as [entry|] eqn:He; [|intros; simplify_eq; auto].
  destruct (negb (String.eqb _ _) || _) eqn:Hk; [intros; simplify_eq; auto|].
  apply orb_false_iff in Hk as [Hr%negb_false_iff Hk%negb_false_iff].
  apply String.eqb_eq in Hr as <-. apply same_key_eq in Hk as <-.
  destruct (Z.leb_spec (ge_deadline entry) now); [intros; simplify_eq; auto|].
  destruct (ge_status entry) as [slot|job] eqn:Hst; [|intros; simplify_eq; auto].
  destruct (bool_decide _ || _) eqn:Hsp; [intros; simplify_eq; auto|].
  apply orb_false_iff in Hsp as [Hsp Hsz]. apply bool_decide_eq_false in Hsp. apply Z.leb_gt in Hsz.
  destruct slot as [capability|]; [|destruct (Hslot _ eq_refl); done].
  rewrite revoke_set_entry.
  destruct (bool_decide (is_production _ = _)) eqn:Hp; simpl; [|intros; simplify_eq; auto].
  apply bool_decide_eq_true in Hp.
  destruct (binding_is_current _ _ w) as [[] w1] eqn:Hcur; simpl; [|intros; simplify_eq; auto].
  destruct (start capability j) as [[job|e] j1] eqn:Ha; intros [= <- <- <- <-].
  - left. exists job, entry, capability. split_and!; [done| |by split_and!].
    unfold spend, set_entries, set_spent. simpl. f_equal. by rewrite insert_insert_eq.
  - right. split; [done|]. by right.
Qed.

Lemma entry_slot ops log owner s e :
  grants_inv ops log s → entries s !! owner = Some e → ge_status e ≠ Pending None.
Proof.
  intros Hi He Hs. destruct (inv_entries _ _ _ Hi _ _ He) as (op & c & _ & _ & Hc). by rewrite Hs in Hc.
Qed.

Lemma grants_spend ops log op owner receipt key now start w j s job w' j' entry capability :
  grants_inv ops log s →
  admission_ok owner receipt key now start w j s job w' j' entry capability →
  grants_inv (ops ++ [op]) (log ++ [(receipt, job)]) (spend owner entry job s).
Proof.
  intros Hi (He & Hst & <- & Hkey & Hnow & Hsp & Hsz & Hp & Hcur & Ha).
  pose proof (inv_spent _ _ _ Hi) as Hs. pose proof (inv_once _ _ _ Hi) as Ho.
  assert (ge_receipt entry ∉ map fst log) as Hnew by (rewrite Hs in Hsp; set_solver).
  split; simpl.
  - rewrite Hs, map_app, list_to_set_app_L. simpl. set_solver.
  - rewrite map_app. apply NoDup_app. split_and!; [done| |apply NoDup_singleton].
    intros x Hx ->%list_elem_of_singleton. done.
  - rewrite zlen_app. change (zlen [_]) with 1.
    rewrite Hs, size_list_to_set, length_map in Hsz by done. unfold zlen in *. lia.
  - apply map_Forall_insert_2.
    + destruct (inv_entries _ _ _ Hi _ _ He) as (op' & c & Hop & Hiss & _).
      exists op', c. split_and!; [set_solver|done|simpl; set_solver].
    + intros o e Hoe. apply entry_ok_mono, (inv_entries _ _ _ Hi _ _ Hoe).
Qed.

Lemma grants_perform ops log op s log' s' :
  grants_inv ops log s → perform op s = (log', s') → grants_inv (ops ++ [op]) (log ++ log') s'.
Proof.
  intros Hi. destruct op as [owner request now key w|owner receipt key now start w j|owner]; simpl.
  - unfold confirm_at.
    assert (grants_inv (ops ++ [Confirm owner request now key w]) (log ++ []) s) as Hsame
      by (apply (grants_quiet _ _ _ s); [done|done|by apply grants_entries_mono]).
    destruct (prepare config owner request w) as [[[capability production]|e] w'] eqn:Hp;
      [|by intros [= <- <-]].
    destruct key as [key|]; [|by intros [= <- <-]].
    destruct (instant_checked_add _ _) as [deadline|] eqn:Hd; [|by intros [= <- <-]].
    case_bool_decide; intros [= <- <-]; [done|].
    apply (grants_quiet _ _ _ s); [done|done|]. apply map_Forall_insert_2; [|by apply grants_entries_mono].
    exists (Confirm owner request now (Ok key) w), capability. split_and!; [set_solver| |done].
    do 6 eexists. split_and!; [done|exact Hp|done| |done]. simpl.
    by destruct (prepare_sound _ _ _ _ _ _ Hp) as [(_ & -> & _) _].
  - destruct (admit_locked config _ _ _ _ _ _ _ _) as [[[r w'] j'] s1] eqn:Ha.
    destruct (admit_locked_spec _ _ _ _ _ _ _ _ _ _ _ _
      (λ e, entry_slot ops log owner s e Hi) Ha) as [(job & entry & c & -> & -> & Hok)|[Hr Hs]].
    + intros [= <- <-]. by eapply grants_spend.
    + intros Hlog. assert (log' = [] ∧ s' = s1) as [-> ->].
      { repeat case_match; simplify_eq; try done. by destruct (Hr job_id). }
      destruct Hs as [->| ->]; [|by apply grants_revoke].
      apply (grants_quiet _ _ _ s); [done|done|by apply grants_entries_mono].
  - intros [= <- <-]. by apply grants_revoke.
Qed.

Lemma grants_run ops0 log0 ops s log s' :
  grants_inv ops0 log0 s → run ops s = (log, s') → grants_inv (ops0 ++ ops) (log0 ++ log) s'.
Proof.
  revert ops0 log0 s log. induction ops as [|op ops IH]; intros ops0 log0 s log Hi; simpl.
  - intros [= <- <-]. by rewrite !app_nil_r.
  - destruct (perform op s) as [log1 s1] eqn:Hp, (run ops s1) as [more s2] eqn:Hr.
    intros [= <- <-]. apply (grants_perform _ _ _ _ _ _ Hi) in Hp.
    specialize (IH _ _ _ _ Hp Hr). by rewrite <- !app_assoc in IH.
Qed.

Lemma grants_inv_run ops log s : run ops new_grants = (log, s) → grants_inv ops log s.
Proof. apply (grants_run [] [] ops new_grants log s grants_new). Qed.
End protocol.

Section theorems.
  Context {W J : Type} `{ConsoleStore W, ProfileFs W, TimeLib, Codec}.
  Context (config : WebConfig).
Notation l := (wc_limits config).

(** C7: a dry-run receipt starts at most one apply job, whoever confirmed it and
    however often: over any sequence of confirmations, admissions and revocations
    the receipts of the started jobs are pairwise distinct, are exactly the spent
    ones, number at most [history_retained_rows], and every consumed entry names
    the job its receipt started; confirming a spent receipt again fails. *)
Theorem receipt_spent_once (ops : list (operation (W := W) (J := J))) log s :
  run config ops new_grants = (log, s) →
  NoDup (map fst log)
  ∧ spent_receipts s = list_to_set (map fst log)
  ∧ zlen log <= Z.max 0 (history_retained_rows l)
  ∧ (∀ owner e job, entries s !! owner = Some e → ge_status e = Consumed job →
       (ge_receipt e, job) ∈ log)
  ∧ (∀ owner request now key w, gr_receipt request ∈ map fst log →
       (∃ e, (confirm_at config owner request now key w s).1.1 = Err e)
       ∧ (confirm_at config owner request now key w s).2 = s).
Proof.
  intros Hi%grants_inv_run. destruct Hi as [Hs Ho Hb He]. split_and!; try done.
  - intros owner e job Hoe Hst. destruct (He _ _ Hoe) as (? & ? & _ & _ & Hc). by rewrite Hst in Hc.
  - intros owner request now key w Hin. unfold confirm_at.
    destruct (prepare _ _ _ _) as [[[]|] ?]; [|by eauto].
    destruct key; [|by eauto]. destruct (instant_checked_add _ _); [|by eauto].
    rewrite bool_decide_eq_true_2; [by eauto|]. rewrite Hs. set_solver.
Qed.

(** ** Confirmations that still stand *)

(** A call that leaves a confirmation of [owner] standing: it does not revoke the owner, it
    is no newer confirmation, and it does not present the receipt and the key. *)
Definition undisturbed (owner receipt key : string) (s : GrantState)
    (op : operation (W := W) (J := J)) : Prop :=
  match op with
  | Revoke other => other ≠ owner
  | Confirm other request now k w =>
    other = owner → is_ok (confirm_at config other request now k w s).1.1 = false
  | Admit other r k _ _ _ _ => other = owner → r ≠ receipt ∨ k ≠ key
  end.

(** Among the calls so far is a confirmation of [owner] that succeeded, with which
    [capability] was prepared, and no later call disturbed it. *)
Definition standing (ops : list (operation (W := W) (J := J))) (owner : string) (request : GrantRequest)
    (issued : Z) (key : string) (capability : ApplyCapability) (production : bool) : Prop :=
  ∃ before wc wc' after,
    let confirmation := Confirm owner request issued (Ok key) wc in
    ops = before ++ confirmation :: after
    ∧ prepare config owner request wc = (Ok (capability, production), wc')
    ∧ is_ok (confirm_at config owner request issued (Ok key) wc (run config before new_grants).2).1.1 = true
    ∧ ∀ pre op post, after = pre ++ op :: post →
        undisturbed owner (gr_receipt request) key
          (run config (before ++ confirmation :: pre) new_grants).2 op.

Lemma standing_snoc ops op owner request issued key capability production :
  standing ops owner request issued key capability production →
  undisturbed owner (gr_receipt request) key (run config ops new_grants).2 op →
  standing (ops ++ [op]) owner request issued key capability production.
Proof.
  intros (before & wc & wc' & after & -> & Hp & Hok & Hafter) Hop.
  exists before, wc, wc', (after ++ [op]). cbv zeta. rewrite <- app_assoc. split_and!; [done..|].
  intros pre o post Heq. destruct post as [|o' post _] using rev_ind.
  - apply app_inj_tail in Heq as [-> ->]. exact Hop.
  - rewrite app_comm_cons, app_assoc in Heq. apply app_inj_tail in Heq as [-> _]. by eapply Hafter.
Qed.

Lemma run_snoc (ops : list (operation (W := W) (J := J))) op s :
  (run config (ops ++ [op]) s).2 = (perform config op (run config ops s).2).2.
Proof.
  destruct (run config ops s) as [log1 s1] eqn:Hr1. destruct (run config [op] s1) as [log2 s2] eqn:Hr2.
  rewrite (run_app config _ _ _ _ _ _ _ Hr1 Hr2). simpl in *. destruct (perform config op s1). by simplify_eq.
Qed.

(** An admission with the receipt and the key of an entry never leaves it pending. *)
Lemma admit_settles owner now (start : Callback (J := J)) (w : W) j s e e' :
  entries s !! owner = Some e →
  entries (admit_locked config owner (ge_receipt e) (ge_idempotency_key e) now start w j s).2 !! owner = Some e' →
  ∀ capability, ge_status e' ≠ Pending (Some capability).
Proof.
  intros He. unfold admit_locked.
  rewrite He, String.eqb_refl, (proj2 (same_key_eq _ _) eq_refl). cbn [negb orb].
  destruct (_ <=? now); [cbn; by rewrite lookup_delete_eq|].
  destruct (ge_status e) as [slot|job] eqn:Hst; [|cbn; rewrite He; intros [= <-] c; by rewrite Hst].
  destruct (_ || _); [cbn; by rewrite lookup_delete_eq|].
  destruct slot as [capability|]; [|cbn; rewrite lookup_insert_eq; by intros [= <-]].
  destruct (if bool_decide _ then _ else _) as [current w1].
  destruct (negb _ || negb current); [cbn; by rewrite lookup_delete_eq|].
  destruct (start capability j) as [[job|error] j1]; cbn; [|by rewrite lookup_delete_eq].
  rewrite lookup_insert_eq. by intros [= <-].
Qed.

(** The owner whose entry a call may change *)
Definition op_owner (op : operation (W := W) (J := J)) : string :=
  match op with
  | Confirm owner _ _ _ _ | Admit owner _ _ _ _ _ _ | Revoke owner => owner
  end.

Lemma revoke_other owner other s :
  other ≠ owner → entries (revoke_owner other s) !! owner = entries s !! owner.
Proof. intros. simpl. by rewrite lookup_delete_ne. Qed.

Lemma admit_other owner other receipt key now (start : Callback (J := J)) (w : W) j s :
  other ≠ owner →
  entries (admit_locked config other receipt key now start w j s).2 !! owner = entries s !! owner.
Proof.
  intros Hne. unfold admit_locked.
  repeat case_match; simpl; try done; simplify_eq;
    rewrite ?lookup_delete_ne, ?lookup_insert_ne by done; done.
Qed.

Lemma perform_other owner op s :
  op_owner op ≠ owner → entries (perform config op s).2 !! owner = entries s !! owner.
Proof.
  destruct op as [other request now key w|other receipt key now start w j|other]; simpl; intros Hne.
  - destruct (confirm_at _ _ _ _ _ _ _) as [[r w'] s'] eqn:Hc. simpl. revert Hc. unfold confirm_at.
    repeat case_match; intros; simplify_eq; simpl; try done. by rewrite lookup_insert_ne.
  - pose proof (admit_other owner other receipt key now start w j s Hne) as Ho.
    destruct (admit_locked _ _ _ _ _ _ _ _ _) as [[[[[]|] ?] ?] s']; exact Ho.
  - by rewrite lookup_delete_ne.
Qed.

Lemma run_other owner ops s :
  Forall (λ op, op_owner op ≠ owner) ops → entries (run config ops s).2 !! owner = entries s !! owner.
Proof.
  intros Hf. revert s. induction Hf as [|op ops Hop _ IH]; intros s; simpl; [done|].
  rewrite <- (perform_other owner op s Hop). destruct (perform config op s) as [log s1].
  specialize (IH s1). simpl. by destruct (run config ops s1).
Qed.

Lemma pending_standing (ops : list (operation (W := W) (J := J))) owner e capability :
  entries (run config ops new_grants).2 !! owner = Some e → ge_status e = Pending (Some capability) →
  ∃ request issued production,
    standing ops owner request issued (ge_idempotency_key e) capability production
    ∧ gr_receipt request = ge_receipt e
    ∧ ge_deadline e = issued + from_secs (production_grant_seconds l).
Proof.
  revert e. induction ops as [|op ops IH] using rev_ind; intros e; [done|]. rewrite run_snoc.
  set (s := (run config ops new_grants).2) in *. intros He Hst.
  assert (entries s !! owner = Some e →
    undisturbed owner (ge_receipt e) (ge_idempotency_key e) s op → ∃ request issued production,
    standing (ops ++ [op]) owner request issued (ge_idempotency_key e) capability production
    ∧ gr_receipt request = ge_receipt e
    ∧ ge_deadline e = issued + from_secs (production_grant_seconds l)) as Hkept.
  { intros Hs Hop. destruct (IH e Hs Hst) as (request & issued & production & Hstand & Hr & Hd).
    exists request, issued, production. split_and!; [|done..]. apply standing_snoc; [done|]. by rewrite Hr. }
  destruct (decide (op_owner op = owner)) as [Ho|Ho].
  2: { rewrite perform_other in He by done. apply Hkept; [done|].
       destruct op; cbn in *; [by intros ->|by intros ->|done]. }
  destruct op as [o request now key w|o receipt key now start w j|o]; cbn [op_owner] in Ho; subst o.
  - cbn [perform] in He. destruct (confirm_at config owner request now key w s) as [[r w1] s1] eqn:Hc.
    cbn in He. pose proof Hc as Hc'. unfold confirm_at in Hc.
    destruct (prepare config owner request w) as [[[c production]|err] w2] eqn:Hp.
    2: { injection Hc as <- <- <-. apply Hkept; [done|]. intros _. by rewrite Hc'. }
    destruct key as [key|]; [|injection Hc as <- <- <-; apply Hkept; [done|]; intros _; by rewrite Hc'].
    destruct (instant_checked_add _ _) as [deadline|] eqn:Hd;
      [|injection Hc as <- <- <-; apply Hkept; [done|]; intros _; by rewrite Hc'].
    case_bool_decide; [injection Hc as <- <- <-; apply Hkept; [done|]; intros _; by rewrite Hc'|].
    injection Hc as <- <- <-. cbn in He. rewrite lookup_insert_eq in He. injection He as <-.
    cbn in Hst. injection Hst as ->. exists request, now, production. cbn. split_and!.
    + exists ops, w, w2, []. split_and!; [done|done|by fold s; rewrite Hc'|]. by intros [].
    + symmetry. by destruct (prepare_sound _ _ _ _ _ _ _ Hp) as [(_ & -> & _) _].
    + unfold instant_checked_add in Hd. case_match; [|done]. by injection Hd as <-.
  - destruct (entries s !! owner) as [e0|] eqn:He0.
    2: { cbn [perform] in He. unfold admit_locked in He. rewrite He0 in He. cbn in He. congruence. }
    assert (entries (admit_locked config owner receipt key now start w j s).2 !! owner = Some e) as Ha.
    { cbn [perform] in He. destruct (admit_locked _ _ _ _ _ _ _ _ _) as [[[[[]|] ?] ?] ?]; exact He. }
    destruct (decide (ge_receipt e0 = receipt ∧ ge_idempotency_key e0 = key)) as [[<- <-]|Hne].
    + by destruct (admit_settles _ _ _ _ _ _ _ _ He0 Ha capability).
    + assert (negb (String.eqb (ge_receipt e0) receipt) || negb (same_key (ge_idempotency_key e0) key) = true)
        as Hb.
      { apply not_false_iff_true. intros [Hx%negb_false_iff%String.eqb_eq
          Hy%negb_false_iff%same_key_eq]%orb_false_iff. by apply Hne. }
      unfold admit_locked in Ha. rewrite He0, Hb in Ha. cbn in Ha. rewrite He0 in Ha. injection Ha as ->.
      apply Hkept; [done|]. intros _. destruct (decide (receipt = ge_receipt e)) as [->|]; [right|by left].
      intros ->. by apply Hne.
  - cbn in He. by rewrite lookup_delete_eq in He.
Qed.

(** What is compared again before a job starts: the receipt, the stored plan, the profiles
    and the state directory as they are now, with what was confirmed. *)
Definition still_current (grant : GrantBinding) (w w' : W) : Prop :=
  let d := gb_dry_run grant in
  ∃ receipt w1 stored w2 source resolved w3 server profile state w4,
    dry_run_receipt (gb_receipt grant) w = (Ok (Some receipt), w1) ∧ drr_binding receipt = d
    ∧ load_plan (drb_plan_reference d) w1 = (Ok stored, w2)
    ∧ pb_plan_sha256 (sup_binding stored) = drb_plan_sha256 d
    ∧ pb_max_logical_effects (sup_binding stored) = drb_max_logical_effects d
    ∧ config_source config (gb_source_profile_id grant) = Some source
    ∧ source_resolve source w2 = (Ok resolved, w3)
    ∧ pb_source_profile_id (sup_binding stored) = gb_source_profile_id grant
    ∧ pb_source_profile_sha256 (sup_binding stored) = rsp_generation_sha256 resolved
    ∧ drb_source_configuration_sha256 d
      = source_configuration_digest (rsp_generation_sha256 resolved) (up_configuration_sha256 (sup_plan stored))
    ∧ config_server config (gb_server_profile_id grant) = Some server
    ∧ pb_server_profile_id (sup_binding stored) = gb_server_profile_id grant
    ∧ pb_server_identity_sha256 (sup_binding stored) = drb_server_identity_sha256 d
    ∧ pb_server_profile_sha256 (sup_binding stored) = drb_server_profile_sha256 d
    ∧ svp_generation_sha256 server = drb_server_profile_sha256 d
    ∧ pb_credential_generation (sup_binding stored) = drb_credential_generation d
    ∧ svp_credential_generation server = drb_credential_generation d
    ∧ history_state config = Ok profile ∧ state_resolve profile w3 = (Ok state, w4)
    ∧ matches_state state w4 = (true, w').

Lemma binding_is_current_true grant w w' :
  binding_is_current config grant w = (true, w') → still_current grant w w'.
Proof.
  unfold binding_is_current, still_current.
  destruct (dry_run_receipt _ w) as [[[receipt|]|] w1] eqn:E1; try done.
  destruct (load_plan _ w1) as [[stored|] w2] eqn:E2; [|done].
  destruct (config_source _ _) as [source|] eqn:E3; [|done].
  destruct (config_server _ _) as [server|] eqn:E4; [|done].
  destruct (source_resolve source w2) as [[resolved|] w3] eqn:E5; [|done].
  destruct (history_state config) as [profile|] eqn:E6; [|done].
  destruct (state_resolve profile w3) as [[state|] w4] eqn:E7; [|done].
  destruct (matches_state state w4) as [same w5] eqn:E8. intros [= Hm <-].
  unfold binding_matches in Hm.
  rewrite !andb_true_iff, !String.eqb_eq, !Z.eqb_eq, bool_decide_eq_true in Hm. destruct_and! Hm. subst same.
  exists receipt, w1, stored, w2, source, resolved, w3, server, profile, state, w4. by split_and!.
Qed.

(** C8: an admission starts a job only on a confirmation of the same owner that still stands:
    it was for the receipt and gave out the key that are presented, and since then the
    owner was not revoked, confirmed nothing else, and did not present this key. It was
    issued less than [production_grant_seconds] before; the request named the digest and
    the number of effects of the receipt's plan, and a backup reference, whose digest the
    capability carries, exactly when the prepared plan is for production; the receipt had
    started no job before. Just before the callback, which received that capability, the
    receipt, the stored plan, both profiles and the state directory were read again and
    are what was confirmed. *)
Theorem grant_admission_sound (ops : list (operation (W := W) (J := J))) log s
    owner receipt key now (start : Callback (J := J)) w j job w' j' s' :
  run config ops new_grants = (log, s) →
  admit_locked config owner receipt key now start w j s = (Ok (GrantAdmitted job), w', j', s') →
  ∃ request issued capability production,
    standing ops owner request issued key capability production
    ∧ gr_receipt request = receipt
    ∧ now < issued + from_secs (production_grant_seconds l)
    ∧ prepared_for owner request capability production
    ∧ receipt ∉ map fst log
    ∧ still_current (cap_binding capability) w w'
    ∧ start capability j = (Ok job, j').
Proof.
  intros Hrun Ha. pose proof Hrun as Hi%grants_inv_run.
  destruct (admit_locked_spec _ _ _ _ _ _ _ _ _ _ _ _ _
    (λ e, entry_slot _ ops log owner s e Hi) Ha) as [(job' & entry & c & [= <-] & -> & Hok)|[Hr _]];
    [|by destruct (Hr job)].
  destruct Hok as (He & Hst & <- & <- & Hnow & Hsp & _ & _ & Hcur & Hadm).
  destruct (pending_standing ops owner entry c) as (request & issued & production & Hstand & Hr & Hd);
    [by rewrite Hrun|done|].
  exists request, issued, c, production. split_and!; [done|done|lia| | |by apply binding_is_current_true|done].
  - destruct Hstand as (? & ? & ? & ? & _ & Hp & _). by destruct (prepare_sound _ _ _ _ _ _ _ Hp).
  - rewrite (inv_spent _ _ _ _ Hi) in Hsp. set_solver.
Qed.

(** Presenting a key again is idempotent. Once a key has started a job, and
    whatever other owners do meanwhile, the same key and receipt are answered
    with that job until the deadline, with the callback not called and nothing
    changed; at the deadline the entry is dropped and the answer is [Expired]. *)
Theorem grant_repeat (ops ops' : list (operation (W := W) (J := J))) log s
    owner receipt key now (start : Callback (J := J)) w j job w' j' s' :
  run config ops new_grants = (log, s) →
  admit_locked config owner receipt key now start w j s = (Ok (GrantAdmitted job), w', j', s') →
  Forall (λ op, op_owner op ≠ owner) ops' →
  let s2 := (run config ops' s').2 in
  ∃ deadline, now < deadline ∧ ∀ later (admit2 : Callback (J := J)) w2 j2,
    admit_locked config owner receipt key later admit2 w2 j2 s2
    = if later <? deadline then (Ok (Existing job), w2, j2, s2)
      else (Err GrantError.Expired, w2, j2, revoke_owner owner s2).
Proof.
  intros Hi%grants_inv_run Ha Hf s2.
  destruct (admit_locked_spec _ _ _ _ _ _ _ _ _ _ _ _ _
    (λ e, entry_slot _ ops log owner s e Hi) Ha) as [(job' & entry & c & [= <-] & -> & Hok)|[Hr _]];
    [|by destruct (Hr job)].
  destruct Hok as (_ & _ & <- & <- & Hnow & _).
  assert (entries s2 !! owner = Some (set_ge_status (Consumed job) entry)) as He.
  { unfold s2. rewrite run_other by done. simpl. by rewrite lookup_insert_eq. }
  exists (ge_deadline entry). split; [done|]. intros later admit2 w2 j2.
  unfold admit_locked. rewrite He. simpl.
  rewrite String.eqb_refl, (proj2 (same_key_eq _ _) eq_refl). simpl.
  rewrite Z.leb_antisym. by destruct (later <? ge_deadline entry).
Qed.
End theorems.

(** ** A console with a production server *)
Section witnesses.
#[local] Existing Instances sample_codec sample_time.

#[local] Instance private_fs : ProfileFs unit := {|
  fs_symlink_metadata _ w := (Ok {| fm_is_dir := true; fm_is_file := false;
    fm_is_symlink := false; fm_mode := 448 |}, w);
  fs_metadata _ w := (Ok {| fm_is_dir := true; fm_is_file := false;
    fm_is_symlink := false; fm_mode := 448 |}, w);
  fs_canonicalize path w := (Ok path, w);
  resource_identity _ w := (Ok "", w) |}.

Definition grant_plan : UploadPlan := sample_upload_plan 1 Folder sample_pair.
Definition grant_plan_sha256 : string :=
  match upload_plan_sha256 grant_plan with Ok digest => digest | Err _ => "" end.

Definition grant_console : WebConfig := {|
  wc_limits := two_slots; wc_sources := [folder_source];
  wc_servers := [{| svp_id := "home"; svp_origin := "https://photos.example";
    svp_api_key_file := "/keys/a"; svp_ca_certificate_file := None;
    svp_mode := ServerMode.ProductionRead; svp_address_ranges := []; svp_generation := 1;
    svp_generation_sha256 := ""; svp_credential_generation := 1 |}];
  wc_states := [{| stp_id := "history"; stp_label := "History"; stp_configured_root := "/state";
    stp_canonical_root := "/state"; stp_identity := ""; stp_generation_sha256 := "" |}];
  wc_history_state_id := "history" |}.

Definition grant_dry_run : DryRunBinding := {|
  drb_plan_reference := "0123456789abcdef"; drb_plan_sha256 := grant_plan_sha256;
  drb_source_configuration_sha256 := source_configuration_digest "" (up_configuration_sha256 grant_plan);
  drb_server_identity_sha256 := sample_digest; drb_server_profile_sha256 := "";
  drb_credential_generation := 1; drb_max_logical_effects := 2; drb_completed_unix := 100 |}.

(** A store with one plan and one receipt, asked ten seconds after the dry run. *)
#[local] Instance one_receipt : ConsoleStore unit := {|
  clock_unix w := (Ok 110, w);
  dry_run_receipt reference w :=
    (Ok (Some {| drr_reference := reference; drr_binding := grant_dry_run |}), w);
  load_plan reference w := (Ok {|
    sup_reference := reference; sup_plan := grant_plan;
    sup_binding := {| pb_schema_version := 1; pb_plan_sha256 := grant_plan_sha256;
      pb_source_profile_id := "photos"; pb_source_profile_sha256 := "";
      pb_server_profile_id := "home"; pb_server_profile_sha256 := "";
      pb_credential_generation := 1; pb_server_identity_sha256 := sample_digest;
      pb_max_logical_effects := 2 |} |}, w);
  receipt_is_newer_than_checkpoint _ _ w := (Ok true, w);
  matches_state _ w := (true, w) |}.

Definition grant_request : GrantRequest := {|
  gr_receipt := "fedcba9876543210"; gr_plan_sha256 := grant_plan_sha256;
  gr_max_logical_effects := 2; gr_backup_reference := "nightly snapshot" |}.

Definition grant_confirm : operation (W := unit) (J := JobsState) :=
  Confirm "alice" grant_request 0 (Ok "key") tt.
Definition start_apply : Callback := admit_apply grant_console (admission "c").
Definition grant_admit : operation (W := unit) (J := JobsState) :=
  Admit "alice" "fedcba9876543210" "key" 5 start_apply tt (st initial).
Definition grant_states (ops : list (operation (W := unit) (J := JobsState))) : GrantState :=
  (run grant_console ops new_grants).2.

Lemma confirm_admit_run :
  run grant_console [grant_confirm; grant_admit; grant_admit] new_grants
  = ([("fedcba9876543210", "c")], grant_states [grant_confirm; grant_admit; grant_admit]).
Proof. vm_compute. reflexivity. Qed.
Lemma confirm_run : run grant_console [grant_confirm] new_grants = ([], grant_states [grant_confirm]).
Proof. vm_compute. reflexivity. Qed.

Lemma receipt_spent_once_witness :
  NoDup (map fst [("fedcba9876543210", "c")])
  ∧ ∃ e, (confirm_at grant_console "bob" grant_request 6 (Ok "other") tt
           (grant_states [grant_confirm; grant_admit; grant_admit])).1.1 = Err e.
Proof.
  destruct (receipt_spent_once grant_console [grant_confirm; grant_admit; grant_admit]
    [("fedcba9876543210", "c")] (grant_states [grant_confirm; grant_admit; grant_admit])
    confirm_admit_run) as (Ho & _ & _ & _ & He).
  split; [exact Ho|]. apply He. simpl. left.
Defined.

Definition first_admission := admit_locked grant_console "alice" "fedcba9876543210" "key" 5
  start_apply tt (st initial) (grant_states [grant_confirm]).

Lemma first_admission_ok :
  first_admission = (Ok (GrantAdmitted "c"), tt, first_admission.1.2, first_admission.2).
Proof. vm_compute. reflexivity. Qed.

Lemma grant_admission_sound_witness :
  ∃ request issued capability production,
    standing grant_console [grant_confirm] "alice" request issued "key" capability production
    ∧ gr_receipt request = "fedcba9876543210"
    ∧ 5 < issued + from_secs (production_grant_seconds two_slots)
    ∧ prepared_for "alice" request capability production
    ∧ "fedcba9876543210" ∉ map fst (@nil (ReceiptRef * string))
    ∧ still_current grant_console (cap_binding capability) tt tt
    ∧ start_apply capability (st initial) = (Ok "c", first_admission.1.2).
Proof.
  apply (grant_admission_sound grant_console [grant_confirm] [] (grant_states [grant_confirm])
    "alice" "fedcba9876543210" "key" 5 start_apply tt (st initial) "c" tt _ first_admission.2).
  - exact confirm_run.
  - exact first_admission_ok.
Defined.

Definition bob_revokes : list (operation (W := unit) (J := JobsState)) := [Revoke "bob"].
Definition after_revoke : GrantState := (run grant_console bob_revokes first_admission.2).2.

Lemma grant_repeat_witness :
  ∃ deadline, 5 < deadline ∧ ∀ later (admit2 : Callback (J := JobsState)) w2 j2,
    admit_locked grant_console "alice" "fedcba9876543210" "key" later admit2 w2 j2
      after_revoke
    = if later <? deadline
      then (Ok (Existing "c"), w2, j2, after_revoke)
      else (Err GrantError.Expired, w2, j2,
            revoke_owner "alice" after_revoke).
Proof.
  apply (grant_repeat grant_console [grant_confirm] bob_revokes [] (grant_states [grant_confirm])
    "alice" "fedcba9876543210" "key" 5 start_apply tt (st initial) "c" tt first_admission.1.2
    first_admission.2).
  - exact confirm_run.
  - exact first_admission_ok.
  - constructor; [done|constructor].
Defined.
End witnesses.
