(* ===== verification/Sort.v ===== *)
(** * Sort: orders, stable sorting and deduplication

    [Ord::cmp] as a function to [comparison] with its laws, the derived
    lexicographic orders, [slice::sort_by] (stable), [Vec::dedup], and maps that
    are iterated in key order ([BTreeMap]) for keys that are not strings. *)
From Stdlib Require Import Ascii.
From S2P Require Export Prelude Text Planning.

(** ** Orders *)

(** The laws of [Ord]. *)
Class TotalOrder {A} (c : A → A → comparison) : Prop := {
  cmp_refl x : c x x = Eq;
  cmp_eq x y : c x y = Eq → x = y;
  cmp_anti x y : c y x = CompOpp (c x y);
  cmp_trans x y z : c x y = Lt → c y z = Lt → c x z = Lt;
}.

(** [x <= y] *)
Definition leb_of {A} (c : A → A → comparison) (x y : A) : bool :=
  match c x y with Gt => false | _ => true end.

Section order.
  Context {A} (c : A → A → comparison) `{!TotalOrder c}.

Lemma leb_total x y : leb_of c x y = false → leb_of c y x = true.
Proof. unfold leb_of. rewrite (cmp_anti x y). by destruct (c x y). Qed.

Lemma leb_trans x y z : leb_of c x y = true → leb_of c y z = true → leb_of c x z = true.
Proof.
  unfold leb_of. destruct (c x y) eqn:Hxy; [apply cmp_eq in Hxy as ->; done| |done].
  destruct (c y z) eqn:Hyz; [apply cmp_eq in Hyz as <-; by rewrite Hxy| |done].
  by rewrite (cmp_trans x y z).
Qed.

Lemma leb_antisym x y : leb_of c x y = true → leb_of c y x = true → x = y.
Proof.
  unfold leb_of. rewrite (cmp_anti x y). destruct (c x y) eqn:Hxy; [|done|done].
  intros _ _. by apply cmp_eq.
Qed.
End order.

#[export] Instance string_order : TotalOrder String.compare.
Proof.
  split.
  - apply string_compare_refl.
  - apply String.compare_eq_iff.
  - intros x y. apply String.compare_antisym.
  - intros x y z Hx Hy. assert (str_lt x z) as Hz.
    { trans y; unfold str_lt, String.ltb; by rewrite ?Hx, ?Hy. }
    unfold str_lt, String.ltb in Hz. by destruct (String.compare x z).
Qed.

#[export] Instance Z_order : TotalOrder Z.compare.
Proof.
  split.
  - apply Z.compare_refl.
  - apply Z.compare_eq_iff.
  - intros x y. apply Z.compare_antisym.
  - intros x y z. rewrite !Z.compare_lt_iff. lia.
Qed.

#[export] Instance nat_order : TotalOrder Nat.compare.
Proof.
  split.
  - apply Nat.compare_refl.
  - apply Nat.compare_eq_iff.
  - intros x y. apply Nat.compare_antisym.
  - intros x y z. rewrite !Nat.compare_lt_iff. lia.
Qed.

(** A derived order compares the fields [f] and [g] one after the other. *)
Definition then_by {A B C} (cb : B → B → comparison) (f : A → B) (cc : C → C → comparison)
    (g : A → C) (x y : A) : comparison := then_compare (cb (f x) (f y)) (cc (g x) (g y)).

Lemma then_by_order {A B C} (cb : B → B → comparison) (f : A → B)
    (cc : C → C → comparison) (g : A → C) `{!TotalOrder cb, !TotalOrder cc} :
  (∀ x y, f x = f y → g x = g y → x = y) → TotalOrder (then_by cb f cc g).
Proof.
  intros Hinj. unfold then_by. split.
  - intros x. by rewrite !cmp_refl.
  - intros x y. destruct (cb (f x) (f y)) eqn:Hf; simpl; try done.
    intros Hg. apply Hinj; by apply cmp_eq.
  - intros x y. rewrite (cmp_anti (f x)), (cmp_anti (g x)). by destruct (cb (f x) (f y)).
  - intros x y z. destruct (cb (f x) (f y)) eqn:Hxy; simpl; [| |done].
    + apply cmp_eq in Hxy as ->. destruct (cb (f y) (f z)) eqn:Hyz; simpl; [|done|done].
      intros. by eapply cmp_trans.
    + destruct (cb (f y) (f z)) eqn:Hyz; simpl; [|by rewrite (cmp_trans _ _ _ Hxy Hyz)|done].
      apply cmp_eq in Hyz as <-. by rewrite Hxy.
Qed.

#[export] Instance list_string_order : TotalOrder list_string_compare.
Proof.
  split.
  - intros l. induction l as [|x l IH]; simpl; [done|]. by rewrite string_compare_refl.
  - intros l. induction l as [|x l IH]; intros [|y m]; simpl; try done.
    destruct (String.compare x y) eqn:Hxy; simpl; try done.
    intros Hl. f_equal; [by apply String.compare_eq_iff|by apply IH].
  - intros l. induction l as [|x l IH]; intros [|y m]; simpl; try done.
    rewrite (cmp_anti (c := String.compare) x y), IH. by destruct (String.compare x y).
  - intros l. induction l as [|x l IH]; intros [|y m] [|z n]; simpl; try done.
    destruct (String.compare x y) eqn:Hxy; simpl; [| |done].
    + apply String.compare_eq_iff in Hxy as ->.
      destruct (String.compare y z); simpl; [|done|done]. apply IH.
    + intros _. destruct (String.compare y z) eqn:Hyz; simpl; [| |done].
      * apply String.compare_eq_iff in Hyz as <-. by rewrite Hxy.
      * by rewrite (cmp_trans (c := String.compare) _ _ _ Hxy Hyz).
Qed.

#[export] Instance pair_order {A B} (ca : A → A → comparison) (cb : B → B → comparison)
    `{!TotalOrder ca, !TotalOrder cb} : TotalOrder (then_by ca fst cb snd).
Proof. apply (then_by_order ca fst cb snd). intros [] []; simpl; intros; by subst. Qed.

#[export] Instance diagnostic_order : TotalOrder diagnostic_compare.
Proof.
  apply (then_by_order String.compare pd_rule_id (then_by String.compare fst list_string_compare snd)
    (λ d, (pd_code d, pd_paths d))).
  intros [] []; simpl; intros; by simplify_eq.
Qed.

#[export] Instance RuleEvidence_eq_dec : EqDecision RuleEvidence.
Proof. solve_decision. Defined.
#[export] Instance MetadataCandidate_eq_dec : EqDecision MetadataCandidate.
Proof. solve_decision. Defined.

(** The derived order of [RuleEvidence] *)
Definition evidence_compare : RuleEvidence → RuleEvidence → comparison :=
  then_by String.compare re_rule_id String.compare outcome.
#[export] Instance evidence_order : TotalOrder evidence_compare.
Proof. apply (then_by_order _ _ _ _). intros [] []; simpl; intros; by subst. Qed.

(** The derived order of [MetadataKind] and [MetadataCandidate] *)
Definition metadata_kind_index (k : MetadataKind) : Z :=
  match k with Meta_Json => 0 | Meta_Xmp => 1 end.
Definition metadata_compare : MetadataCandidate → MetadataCandidate → comparison :=
  then_by String.compare mc_relative_path
    (then_by Z.compare fst String.compare snd)
    (λ m, (metadata_kind_index (mc_kind m), mc_rule_id m)).
#[export] Instance metadata_order : TotalOrder metadata_compare.
Proof.
  apply (then_by_order _ _ _ _). intros [p [] r] [p' [] r']; simpl; intros; by simplify_eq.
Qed.

(** ** Sorting *)

Section sort.
  Context {A} (le : A → A → bool).

Fixpoint insert_by (x : A) (l : list A) : list A :=
  match l with
  | [] => [x]
  | y :: l' => if le x y then x :: l else y :: insert_by x l'
  end.

(** [slice::sort_by]: stable, so every correct algorithm gives the same result. *)
Fixpoint sort_by (l : list A) : list A :=
  match l with
  | [] => []
  | x :: l => insert_by x (sort_by l)
  end.

Lemma insert_by_perm x l : insert_by x l ≡ₚ x :: l.
Proof.
  induction l as [|y l IH]; simpl; [done|]. destruct (le x y); [done|].
  rewrite IH. apply perm_swap.
Qed.

Lemma sort_by_perm l : sort_by l ≡ₚ l.
Proof. induction l as [|x l IH]; simpl; [done|]. by rewrite insert_by_perm, IH. Qed.

Lemma elem_of_sort_by x l : x ∈ sort_by l ↔ x ∈ l.
Proof. by rewrite sort_by_perm. Qed.

Lemma length_sort_by l : length (sort_by l) = length l.
Proof. by rewrite sort_by_perm. Qed.

Hypothesis le_total : ∀ x y, le x y = false → le y x = true.
Hypothesis le_trans : ∀ x y z, le x y = true → le y z = true → le x z = true.

Lemma insert_by_sorted x l :
  StronglySorted (λ a b, le a b = true) l → StronglySorted (λ a b, le a b = true) (insert_by x l).
Proof.
  induction 1 as [|y l Hs IH Hy]; simpl; [by repeat constructor|].
  destruct (le x y) eqn:Hxy.
  - constructor; [by constructor|]. constructor; [done|].
    eapply Forall_impl; [exact Hy|]. intros z Hz. by eapply le_trans.
  - constructor; [done|]. rewrite insert_by_perm. constructor; [by apply le_total|done].
Qed.

Lemma sort_by_sorted l : StronglySorted (λ a b, le a b = true) (sort_by l).
Proof. induction l as [|x l IH]; simpl; [constructor|]. by apply insert_by_sorted. Qed.

(** A sorted list is not changed. *)
Lemma sort_by_id l : StronglySorted (λ a b, le a b = true) l → sort_by l = l.
Proof.
  induction 1 as [|x l Hs IH Hx]; simpl; [done|]. rewrite IH. destruct l as [|y l]; simpl; [done|].
  apply Forall_cons in Hx as [-> _]. done.
Qed.
End sort.

(** ** [Vec::dedup]: of equal neighbours the first stays *)
Section dedup.
  Context {A} `{EqDecision A}.

Fixpoint dedup (l : list A) : list A :=
  match l with
  | [] => []
  | x :: l' =>
    match dedup l' with
    | [] => [x]
    | y :: k => if decide (x = y) then x :: k else x :: y :: k
    end
  end.

Lemma dedup_elem x l : x ∈ dedup l ↔ x ∈ l.
Proof.
  induction l as [|y l IH]; simpl; [done|]. rewrite elem_of_cons, <- IH.
  destruct (dedup l) as [|z k]; [set_solver|]. case_decide; set_solver.
Qed.

Lemma dedup_nil l : dedup l = [] ↔ l = [].
Proof.
  destruct l as [|x l]; simpl; [done|]. destruct (dedup l); [done|]. by case_decide.
Qed.

Context (c : A → A → comparison) `{!TotalOrder c}.

Lemma dedup_strict l :
  StronglySorted (λ a b, leb_of c a b = true) l → StronglySorted (λ a b, c a b = Lt) (dedup l).
Proof.
  induction 1 as [|x l Hs IH Hx]; simpl; [constructor|].
  assert (Forall (λ y, leb_of c x y = true) (dedup l)) as Hd.
  { rewrite Forall_forall in *. intros y Hy. apply Hx. by apply dedup_elem. }
  destruct (dedup l) as [|y k] eqn:Hl; [by repeat constructor|].
  inversion IH as [|? ? Hk Hy]; subst. case_decide as Hxy; [subst x; by constructor|].
  apply Forall_cons in Hd as [Hlt _]. unfold leb_of in Hlt.
  assert (c x y = Lt) as Hlt'.
  { destruct (c x y) eqn:Hc; [by destruct Hxy; apply (cmp_eq _ _ Hc)|done|done]. }
  constructor; [done|]. constructor; [done|]. eapply Forall_impl; [exact Hy|].
  intros z Hz. by eapply cmp_trans.
Qed.
End dedup.

(** [v.sort(); v.dedup();] *)
Definition sort_dedup {A} `{EqDecision A} (c : A → A → comparison) (l : list A) : list A :=
  dedup (sort_by (leb_of c) l).

Section sort_dedup.
  Context {A} `{EqDecision A} (c : A → A → comparison) `{!TotalOrder c}.

Lemma elem_of_sort_dedup x l : x ∈ sort_dedup c l ↔ x ∈ l.
Proof. unfold sort_dedup. by rewrite dedup_elem, elem_of_sort_by. Qed.

Lemma Forall_sort_dedup (P : A → Prop) l : Forall P (sort_dedup c l) ↔ Forall P l.
Proof. rewrite !Forall_forall. by setoid_rewrite elem_of_sort_dedup. Qed.

Lemma sort_dedup_strict l : StronglySorted (λ a b, c a b = Lt) (sort_dedup c l).
Proof.
  apply dedup_strict; [done|]. apply sort_by_sorted; [apply leb_total|apply leb_trans]; done.
Qed.
End sort_dedup.

Lemma sort_dedup_str_lt l : StronglySorted str_lt (sort_dedup String.compare l).
Proof.
  induction (sort_dedup_strict String.compare l) as [|a k _ IH Ha]; constructor; [done|].
  eapply Forall_impl; [exact Ha|]. intros b Hab. unfold str_lt, String.ltb. by rewrite Hab.
Qed.

(** ** [BTreeMap] with keys in the order [c]: association lists *)
Section ordered_map.
  Context {K V : Type} (c : K → K → comparison).

(** [f(map.entry(k).or_insert(d))] *)
Fixpoint entry_by (k : K) (d : V) (f : V → V) (l : list (K * V)) : list (K * V) :=
  match l with
  | [] => [(k, f d)]
  | (k', v) :: l' =>
    match c k' k with
    | Lt => (k', v) :: entry_by k d f l'
    | Eq => (k', f v) :: l'
    | Gt => (k, f d) :: l
    end
  end.

Fixpoint lookup_by (k : K) (l : list (K * V)) {struct l} : option V :=
  match l with
  | [] => None
  | (k', v) :: l => match c k' k with Eq => Some v | _ => lookup_by k l end
  end.

Context `{!TotalOrder c}.

Lemma entry_by_lookup (k : K) (d : V) f l k' :
  StronglySorted (λ a b, c a b = Lt) (map fst l) →
  lookup_by k' (entry_by k d f l)
  = match c k k' with Eq => Some (f (default d (lookup_by k l))) | _ => lookup_by k' l end.
Proof.
  induction l as [|[k0 v0] l IH]; simpl.
  - intros _. by destruct (c k k').
  - inversion 1 as [|? ? Hs Hlt]; subst. specialize (IH Hs).
    destruct (c k0 k) eqn:Hk; simpl.
    + apply cmp_eq in Hk as ->. by destruct (c k k') eqn:Hk'.
    + rewrite IH. destruct (c k k') eqn:Hk'; [|done|done]. apply cmp_eq in Hk' as <-. by rewrite Hk.
    + destruct (c k k') eqn:Hk'; [|done|done]. apply cmp_eq in Hk' as <-.
      enough (lookup_by k l = None) as -> by done.
      assert (c k k0 = Lt) as Hk0 by (by rewrite (cmp_anti k0 k), Hk).
      clear - Hlt Hk0 TotalOrder0. induction l as [|[k1 v1] l IH]; simpl in *; [done|].
      apply Forall_cons in Hlt as [H1 Hlt].
      pose proof (cmp_trans _ _ _ Hk0 H1) as Hk1. rewrite (cmp_anti k k1), Hk1. simpl. by apply IH.
Qed.

Lemma entry_by_keys (k : K) (d : V) f l x :
  x ∈ map fst (entry_by k d f l) ↔ x = k ∨ x ∈ map fst l.
Proof.
  induction l as [|[k0 v0] l IH]; simpl; [set_solver|].
  destruct (c k0 k) eqn:Hk; simpl; [apply cmp_eq in Hk as ->| |]; set_solver.
Qed.

Lemma entry_by_sorted (k : K) (d : V) f l :
  StronglySorted (λ a b, c a b = Lt) (map fst l) →
  StronglySorted (λ a b, c a b = Lt) (map fst (entry_by k d f l)).
Proof.
  induction l as [|[k0 v0] l IH]; simpl; [by repeat constructor|].
  inversion 1 as [|? ? Hs Hlt]; subst. destruct (c k0 k) eqn:Hk; simpl.
  - by constructor.
  - constructor; [by apply IH|]. rewrite Forall_forall in *.
    intros x [->|Hx]%entry_by_keys; [done|by apply Hlt].
  - assert (c k k0 = Lt) as Hk0 by (by rewrite (cmp_anti k0 k), Hk).
    constructor; [by constructor|]. constructor; [done|].
    eapply Forall_impl; [exact Hlt|]. intros x Hx. by eapply cmp_trans.
Qed.

Lemma lookup_by_elem (k : K) (v : V) l :
  StronglySorted (λ a b, c a b = Lt) (map fst l) → (k, v) ∈ l ↔ lookup_by k l = Some v.
Proof.
  induction l as [|[k0 v0] l IH]; simpl; [set_solver|].
  inversion 1 as [|? ? Hs Hlt]; subst. rewrite elem_of_cons. destruct (c k0 k) eqn:Hk.
  - apply cmp_eq in Hk as ->. split; [|by intros [= ->]; left].
    intros [[= ->]|Hin]; [done|]. rewrite Forall_forall in Hlt.
    assert (c k k = Lt) as Hc by (apply Hlt, elem_of_map; by exists (k, v)).
    by rewrite cmp_refl in Hc.
  - rewrite <- IH by done. split; [|by right]. intros [[= -> ->]|?]; [|done]. by rewrite cmp_refl in Hk.
  - rewrite <- IH by done. split; [|by right]. intros [[= -> ->]|?]; [|done]. by rewrite cmp_refl in Hk.
Qed.

End ordered_map.

(** ** Grouping *)

(** [for x in xs { map.entry(key(x)).or_default().push(val(x)) }] *)
Definition group_by {A K V} (c : K → K → comparison) (key : A → K) (val : A → V) (xs : list A) :
    list (K * list V) :=
  foldl (λ groups x, entry_by c (key x) [] (λ v, v ++ [val x]) groups) [] xs.

Section group_by.
  Context {A K V : Type} (c : K → K → comparison) `{!TotalOrder c} (key : A → K) (val : A → V).
Notation members k xs := (map val (List.filter (λ x, match c (key x) k with Eq => true | _ => false end) xs)).

Lemma group_by_sorted xs : StronglySorted (λ a b, c a b = Lt) (map fst (group_by c key val xs)).
Proof.
  unfold group_by. induction xs as [|x xs IH] using rev_ind; [constructor|].
  rewrite foldl_snoc. by apply entry_by_sorted.
Qed.

Lemma group_by_lookup xs k :
  lookup_by c k (group_by c key val xs)
  = match members k xs with [] => None | v => Some v end.
Proof.
  induction xs as [|x xs IH] using rev_ind; [done|].
  pose proof (group_by_sorted xs) as Hs. unfold group_by in *. rewrite foldl_snoc.
  rewrite entry_by_lookup by done. rewrite List.filter_app, map_app. simpl.
  destruct (c (key x) k) eqn:Hk; simpl.
  - apply cmp_eq in Hk as ->. rewrite IH. by destruct (map val _).
  - by rewrite app_nil_r.
  - by rewrite app_nil_r.
Qed.

(** Every group lists all the values of its key, in order. *)
Lemma group_by_elem xs k v :
  (k, v) ∈ group_by c key val xs ↔ v = members k xs ∧ v ≠ [].
Proof.
  rewrite (lookup_by_elem c) by apply group_by_sorted. rewrite group_by_lookup.
  destruct (members k xs); naive_solver.
Qed.

Lemma group_by_keys xs : NoDup (map fst (group_by c key val xs)).
Proof.
  pose proof (group_by_sorted xs) as Hs. induction Hs as [|k l Hs IH Hlt]; constructor; [|done].
  rewrite Forall_forall in Hlt. intros Hin. specialize (Hlt _ Hin). by rewrite cmp_refl in Hlt.
Qed.
End group_by.

(** [iter().enumerate()] *)
Definition enumerate {A} (l : list A) : list (nat * A) := zip (seq 0 (length l)) l.

Lemma elem_of_enumerate {A} (l : list A) i x : (i, x) ∈ enumerate l ↔ l !! i = Some x.
Proof.
  unfold enumerate. rewrite list_elem_of_lookup. setoid_rewrite lookup_zip_Some. split.
  - intros (j & [Hj Hx]). apply lookup_seq in Hj as [-> _]. done.
  - intros Hx. exists i. split; [|done]. apply lookup_seq. split; [lia|].
    by eapply lookup_lt_Some.
Qed.

(** The positions of the elements that satisfy [p]. *)
Definition indices_where {A} (p : A → bool) (l : list A) : list nat :=
  map fst (List.filter (λ x, p x.2) (enumerate l)).

Lemma elem_of_indices_where {A} (p : A → bool) (l : list A) i :
  i ∈ indices_where p l ↔ ∃ x, l !! i = Some x ∧ p x = true.
Proof.
  unfold indices_where. rewrite elem_of_map. split.
  - intros ([j x] & -> & Hin). rewrite list_elem_of_In, filter_In, <- list_elem_of_In in Hin.
    destruct Hin as [Hin Hp]. apply elem_of_enumerate in Hin. by exists x.
  - intros (x & Hx & Hp). exists (i, x). split; [done|].
    rewrite list_elem_of_In, filter_In, <- list_elem_of_In. by rewrite elem_of_enumerate.
Qed.

Lemma indices_where_ext {A B} (p : A → bool) (q : B → bool) (l : list A) (k : list B) :
  Forall2 (λ a b, p a = q b) l k → indices_where p l = indices_where q k.
Proof.
  unfold indices_where, enumerate. generalize 0%nat as n. intros n Hf. revert n.
  induction Hf as [|a b l k Hab _ IH]; intros n; simpl; [done|].
  rewrite Hab. destruct (q b); simpl; by rewrite IH.
Qed.

(** [iter().position(p)] *)
Definition position {A} (p : A → bool) (l : list A) : option nat := head (indices_where p l).

Lemma position_Some {A} (p : A → bool) (l : list A) i :
  position p l = Some i → ∃ x, l !! i = Some x ∧ p x = true.
Proof.
  intros Hp. apply elem_of_indices_where. unfold position in Hp.
  destruct (indices_where p l); [done|]. injection Hp as ->. left.
Qed.
