(* ===== verification/Sources.v ===== *)
(** * Sources: what the scanners collect
    ([crates/immich-sources/src/lib.rs], the error of [scan.rs], the path helpers
    of [discovery.rs] and [reconcile.rs], [rule_id.rs] of the core)

    The records of one scan, its diagnostics and the framed digests.  Unicode
    normalization and case mapping are tables of a library and of the standard
    library: the class [UnicodeLib]. *)
From Stdlib Require Import Ascii.
From S2P Require Export Prelude Text Metadata Planning Executor Planner ScanConfig Digest Sort.

(** ** Paths *)

(** [str::nfc().collect()] and [str::to_lowercase] *)
Class UnicodeLib := { nfc : string → string; to_lowercase : string → string }.

(** What is before and after the last slash. *)
Definition parent (path : string) : string :=
  match rsplit_once "/" path with Some (parent_value, _) => parent_value | None => "" end.
Definition filename (path : string) : string :=
  match rsplit_once "/" path with Some (_, filename_value) => filename_value | None => path end.
Definition stem (path : string) : string :=
  match rsplit_once "." (filename path) with
  | Some (stem_value, _) => stem_value
  | None => filename path
  end.

(** [Path::file_name] *)
Definition path_file_name (path : string) : option string :=
  match last (normal_components path) with
  | Some name => if String.eqb name ".." then None else Some name
  | None => None
  end.

(** [discovery::extension]: [Path::extension], in lower case *)
Definition extension `{UnicodeLib} (path : string) : option string :=
  match path_file_name path with
  | Some name =>
    match rsplit_once "." name with
    | Some (EmptyString, _) | None => None
    | Some (_, value) => Some (to_lowercase value)
    end
  | None => None
  end.

(** [eq_ignore_ascii_case] *)
Definition ascii_lower (a : ascii) : ascii :=
  if is_ascii_uppercase a then ascii_of_N (Z.to_N (code a + 32)) else a.
Fixpoint to_ascii_lowercase (s : string) : string :=
  match s with
  | EmptyString => EmptyString
  | String a s => String (ascii_lower a) (to_ascii_lowercase s)
  end.
Definition eq_ignore_ascii_case (s t : string) : bool :=
  String.eqb (to_ascii_lowercase s) (to_ascii_lowercase t).

Definition one_of (values : list string) (s : string) : bool := existsb (String.eqb s) values.

Definition media_kind `{UnicodeLib} (path : string) : option MediaKind :=
  extension path ≫= λ e,
  if one_of ["jpg"; "jpeg"; "png"; "heic"; "heif"; "webp"; "gif"; "tif"; "tiff"; "dng"; "cr2";
             "cr3"; "arw"; "raf"; "nef"] e then Some Media_Image
  else if one_of ["mp4"; "mov"; "avi"; "mkv"; "m4v"; "3gp"] e then Some Media_Video
  else None.

Definition metadata_kind `{UnicodeLib} (path : string) : option MetadataKind :=
  extension path ≫= λ e,
  if String.eqb e "json" then Some Meta_Json
  else if String.eqb e "xmp" then Some Meta_Xmp else None.

(** ** Rule identifiers *)

Module rule_id.
Definition REGULAR_MEDIA := "FS_REGULAR_MEDIA_V1".
Definition SIDECAR_EXACT_NAME := "META_SIDECAR_EXACT_NAME_V1".
Definition SIDECAR_BASENAME := "META_SIDECAR_BASENAME_V1".
Definition GOOGLE_TAKEOUT_TITLE := "META_GOOGLE_TAKEOUT_TITLE_V1".
Definition GOOGLE_TAKEOUT_JSON_INVALID := "META_GOOGLE_TAKEOUT_JSON_INVALID_V1".
Definition GOOGLE_TAKEOUT_JSON_OVERSIZED := "META_GOOGLE_TAKEOUT_JSON_OVERSIZED_V1".
Definition GOOGLE_TAKEOUT_AMBIGUOUS := "META_GOOGLE_TAKEOUT_AMBIGUOUS_V1".
Definition GOOGLE_TAKEOUT_UNSUPPORTED := "META_GOOGLE_TAKEOUT_UNSUPPORTED_V1".
Definition GOOGLE_TAKEOUT_UNMATCHED_MEDIA := "META_GOOGLE_TAKEOUT_UNMATCHED_MEDIA_V1".
Definition GOOGLE_TAKEOUT_SUPPLEMENTAL := "META_GOOGLE_TAKEOUT_SUPPLEMENTAL_V1".
Definition GOOGLE_TAKEOUT_ALBUM := "META_GOOGLE_TAKEOUT_ALBUM_V1".
Definition GOOGLE_TAKEOUT_METADATA_CONFLICT := "META_GOOGLE_TAKEOUT_CONFLICT_V1".
Definition GOOGLE_TAKEOUT_CONTENT_ALIAS := "META_GOOGLE_TAKEOUT_CONTENT_ALIAS_V1".
Definition APPLE_EXPORT_NOISE := "APPLE_EXPORT_NOISE_SKIPPED_V1".
Definition APPLE_FOLDER_ALBUM := "META_APPLE_FOLDER_ALBUM_V1".
Definition PICASA_CAPTION := "META_PICASA_CAPTION_V1".
Definition PICASA_ALBUM := "META_PICASA_ALBUM_V1".
Definition PICASA_FOLDER_ALBUM := "META_PICASA_FOLDER_ALBUM_V1".
Definition PICASA_FILENAME_DATE := "META_PICASA_FILENAME_DATE_V1".
Definition PICASA_INI_INVALID := "META_PICASA_INI_INVALID_V1".
Definition TAKEOUT_ARCHIVE_DUPLICATE := "ARCHIVE_TAKEOUT_DUPLICATE_IDENTICAL_V1".
Definition TAKEOUT_ARCHIVE_CONFLICT := "ARCHIVE_TAKEOUT_PATH_CONFLICT_V1".
Definition APPLE_ARCHIVE_DUPLICATE := "ARCHIVE_APPLE_DUPLICATE_IDENTICAL_V1".
Definition APPLE_ARCHIVE_CONFLICT := "ARCHIVE_APPLE_PATH_CONFLICT_V1".
Definition PICASA_ARCHIVE_DUPLICATE := "ARCHIVE_PICASA_DUPLICATE_IDENTICAL_V1".
Definition PICASA_ARCHIVE_CONFLICT := "ARCHIVE_PICASA_PATH_CONFLICT_V1".
Definition LIVE_PHOTO_BASENAME := "PAIR_LIVE_PHOTO_BASENAME_V1".
Definition SYMLINK_SKIPPED := "FS_SYMLINK_SKIPPED_V1".
Definition NON_UNICODE_PATH := "FS_NON_UNICODE_PATH_V1".
Definition UNICODE_COLLISION := "FS_UNICODE_COLLISION_V1".
Definition PATH_LIMIT_EXCEEDED := "FS_PATH_LIMIT_EXCEEDED_V1".
Definition CASE_COLLISION := "FS_CASE_COLLISION_V1".
Definition DUPLICATE_BASENAME := "FS_DUPLICATE_BASENAME_V1".
Definition AMBIGUOUS_SIDECAR := "META_AMBIGUOUS_SIDECAR_V1".
Definition ORPHAN_SIDECAR := "META_ORPHAN_SIDECAR_V1".
Definition UNREADABLE_FILE := "FS_UNREADABLE_FILE_V1".
Definition SOURCE_CHANGED := "FS_SOURCE_CHANGED_V1".
Definition SPECIAL_FILE_SKIPPED := "FS_SPECIAL_FILE_SKIPPED_V1".
End rule_id.

(** ** The state of a scan *)

Record TakeoutDocument := { td_title : string; td_metadata : NormalizedMetadata }.

Module ParseError.
Inductive t := Invalid | Oversized | SourceChanged.
#[global] Instance t_eq_dec : EqDecision t.
Proof. solve_decision. Defined.
End ParseError.

Record DiscoveredMedia := {
  dm_native_path : string;
  dm_archive_index : option Z;
  dm_relative_path : string;
  dm_kind : MediaKind;
  dm_byte_len : Z;
  dm_content_sha256 : string;
  dm_content_sha1_base64 : string;
  dm_created_at_unix_ms : option Z;
  dm_modified_at_unix_ms : option Z;
  dm_metadata : list MetadataCandidate;
  dm_normalized_metadata : option NormalizedMetadata;
  dm_live_photo : option LivePhotoMember;
  dm_evidence : list RuleEvidence;
}.

Record DiscoveredSidecar := {
  ds_native_path : string;
  ds_archive_index : option Z;
  ds_relative_path : string;
  ds_kind : MetadataKind;
  ds_byte_len : Z;
  ds_content_sha256 : string;
  ds_content_sha1_base64 : string;
  ds_created_at_unix_ms : option Z;
  ds_modified_at_unix_ms : option Z;
  ds_takeout_document : option TakeoutDocument;
  ds_takeout_parse_error : option ParseError.t;
}.

Record ScanState := {
  ss_media : list DiscoveredMedia;
  ss_sidecars : list DiscoveredSidecar;
  ss_warnings : list PlanDiagnostic;
  ss_errors : list PlanDiagnostic;
  ss_entries_seen : Z;
  ss_bytes_read : Z;
  ss_event_sequence : Z;
}.

(** [ScanState::new] *)
Definition new_scan : ScanState := {|
  ss_media := []; ss_sidecars := []; ss_warnings := []; ss_errors := [];
  ss_entries_seen := 0; ss_bytes_read := 0; ss_event_sequence := 0 |}.

(** The fields the scanners write. *)
Definition set_media f (s : ScanState) : ScanState := {|
  ss_media := f (ss_media s); ss_sidecars := ss_sidecars s; ss_warnings := ss_warnings s;
  ss_errors := ss_errors s; ss_entries_seen := ss_entries_seen s;
  ss_bytes_read := ss_bytes_read s; ss_event_sequence := ss_event_sequence s |}.
Definition set_sidecars f (s : ScanState) : ScanState := {|
  ss_media := ss_media s; ss_sidecars := f (ss_sidecars s); ss_warnings := ss_warnings s;
  ss_errors := ss_errors s; ss_entries_seen := ss_entries_seen s;
  ss_bytes_read := ss_bytes_read s; ss_event_sequence := ss_event_sequence s |}.
Definition set_warnings f (s : ScanState) : ScanState := {|
  ss_media := ss_media s; ss_sidecars := ss_sidecars s; ss_warnings := f (ss_warnings s);
  ss_errors := ss_errors s; ss_entries_seen := ss_entries_seen s;
  ss_bytes_read := ss_bytes_read s; ss_event_sequence := ss_event_sequence s |}.
Definition set_errors f (s : ScanState) : ScanState := {|
  ss_media := ss_media s; ss_sidecars := ss_sidecars s; ss_warnings := ss_warnings s;
  ss_errors := f (ss_errors s); ss_entries_seen := ss_entries_seen s;
  ss_bytes_read := ss_bytes_read s; ss_event_sequence := ss_event_sequence s |}.
Definition set_counters entries bytes sequence (s : ScanState) : ScanState := {|
  ss_media := ss_media s; ss_sidecars := ss_sidecars s; ss_warnings := ss_warnings s;
  ss_errors := ss_errors s; ss_entries_seen := entries; ss_bytes_read := bytes;
  ss_event_sequence := sequence |}.

(** The fields of a media file the reconcilers write. *)
Definition set_findings (m : DiscoveredMedia) (metadata : list MetadataCandidate)
    (normalized : option NormalizedMetadata) (live : option LivePhotoMember)
    (evidence : list RuleEvidence) : DiscoveredMedia := {|
  dm_native_path := dm_native_path m; dm_archive_index := dm_archive_index m;
  dm_relative_path := dm_relative_path m; dm_kind := dm_kind m; dm_byte_len := dm_byte_len m;
  dm_content_sha256 := dm_content_sha256 m; dm_content_sha1_base64 := dm_content_sha1_base64 m;
  dm_created_at_unix_ms := dm_created_at_unix_ms m;
  dm_modified_at_unix_ms := dm_modified_at_unix_ms m; dm_metadata := metadata;
  dm_normalized_metadata := normalized; dm_live_photo := live; dm_evidence := evidence |}.

(** ** Diagnostics and errors *)

Definition MAX_DIAGNOSTIC_PATHS : nat := 8.

Definition diagnostic (rule code : string) (paths : list string) : PlanDiagnostic := {|
  pd_rule_id := rule; pd_code := code;
  pd_paths := take MAX_DIAGNOSTIC_PATHS (sort_dedup String.compare paths) |}.

Definition push_error (d : PlanDiagnostic) : ScanState → ScanState := set_errors (λ l, l ++ [d]).
Definition push_warning (d : PlanDiagnostic) : ScanState → ScanState := set_warnings (λ l, l ++ [d]).

Module ScanError.
Inductive t :=
  | InvalidConfiguration (message : string)
  | InvalidRoot
  | UnsupportedLayout (message : string)
  | InvalidArchive (message : string)
  | LimitExceeded (limit : string)
  | Cancelled
  | InvalidPlan (error : PlanValidationError.t).
End ScanError.

(** ** Digests *)

Definition sha256_fields `{Codec} (fields : list string) : string :=
  sha256_hex (foldr (λ field rest, framed field +:+ rest) "" fields).
