(* ===== verification/Reconcile.v ===== *)
(** * Reconcile: from discovered files to a normalized plan
    ([crates/immich-sources/src/reconcile.rs], the end of a scan in [lib.rs])

    Sidecars are attached to media, still images and motion videos are paired,
    collisions are reported, and the plan with its identities is assembled.  The
    facts are about what the reconciler may change of a discovered file. *)
From Stdlib Require Import Ascii.
From S2P Require Export Sources.

Section reconcile.
  Context `{UnicodeLib, Codec}.

(** ** Collisions and order *)

Definition remove_unicode_collisions (s : ScanState) : ScanState :=
  let paths := map dm_relative_path (ss_media s) ++ map ds_relative_path (ss_sidecars s) in
  let counts := foldl (λ counts path, entry_by String.compare path 0 (λ n, n + 1) counts) [] paths in
  let collisions := map fst (List.filter (λ x, 1 <? x.2) counts) in
  let unique path := negb (existsb (String.eqb path) collisions) in
  let s := foldl (λ s path, push_error
    (diagnostic rule_id.UNICODE_COLLISION "native_paths_share_nfc_path" [path]) s) s collisions in
  set_sidecars (List.filter (λ x, unique (ds_relative_path x)))
    (set_media (List.filter (λ x, unique (dm_relative_path x))) s).

Definition prepare (s : ScanState) : ScanState :=
  let s := remove_unicode_collisions s in
  set_sidecars (sort_by (λ a b, leb_of String.compare (ds_relative_path a) (ds_relative_path b)))
    (set_media (sort_by (λ a b, leb_of String.compare (dm_relative_path a) (dm_relative_path b))) s).

(** ** Sidecars *)

Definition attach_sidecar (media : DiscoveredMedia) (sidecar : DiscoveredSidecar)
    (selected_rule : string) : DiscoveredMedia :=
  set_findings media
    (dm_metadata media ++ [{| mc_relative_path := ds_relative_path sidecar;
                              mc_kind := ds_kind sidecar; mc_rule_id := selected_rule |}])
    (dm_normalized_metadata media) (dm_live_photo media)
    (dm_evidence media ++ [{| re_rule_id := selected_rule;
                              outcome := "metadata_candidate_associated" |}]).

(** [attach_sidecar(&mut state.media[index], sidecar, rule)] *)
Definition attach_at (index : nat) (sidecar : DiscoveredSidecar) (rule : string) :
    ScanState → ScanState :=
  set_media (alter (λ media, attach_sidecar media sidecar rule) index).

Definition exact_match (media : list DiscoveredMedia) (sidecar : DiscoveredSidecar) : option nat :=
  let exact_target := match ds_kind sidecar with
                      | Meta_Json => strip_suffix ".json" (ds_relative_path sidecar)
                      | Meta_Xmp => None
                      end in
  exact_target ≫= λ target, position (λ media, String.eqb (dm_relative_path media) target) media.

Definition same_stem (sidecar : DiscoveredSidecar) (media : DiscoveredMedia) : bool :=
  String.eqb (parent (dm_relative_path media)) (parent (ds_relative_path sidecar))
  && String.eqb (stem (dm_relative_path media)) (stem (ds_relative_path sidecar)).

Definition is_image (media : DiscoveredMedia) : bool := bool_decide (dm_kind media = Media_Image).

(** The media of the sidecar's stem; its image, when there is one image. *)
Definition basename_candidates (media : list DiscoveredMedia) (sidecar : DiscoveredSidecar) :
    list nat :=
  let basename_matches := indices_where (same_stem sidecar) media in
  let image_matches := List.filter (λ index, is_some_and (media !! index) is_image) basename_matches in
  if Nat.eqb (length image_matches) 1 then image_matches else basename_matches.

Definition paths_at (media : list DiscoveredMedia) (indices : list nat) : list string :=
  omap (λ index, dm_relative_path <$> media !! index) indices.

(** One round of the loop of [reconcile_sidecars] *)
Definition reconcile_sidecar (s : ScanState) (sidecar : DiscoveredSidecar) : ScanState :=
  match exact_match (ss_media s) sidecar with
  | Some index => attach_at index sidecar rule_id.SIDECAR_EXACT_NAME s
  | None =>
    match basename_candidates (ss_media s) sidecar with
    | [index] => attach_at index sidecar rule_id.SIDECAR_BASENAME s
    | [] => push_warning (diagnostic rule_id.ORPHAN_SIDECAR "sidecar_without_media"
              [ds_relative_path sidecar]) s
    | matches => push_error (diagnostic rule_id.AMBIGUOUS_SIDECAR "ambiguous_sidecar_match"
        (ds_relative_path sidecar
         :: paths_at (ss_media s) (take (MAX_DIAGNOSTIC_PATHS - 1) matches))) s
    end
  end.

Definition reconcile_sidecars (s : ScanState) : ScanState :=
  foldl reconcile_sidecar s (ss_sidecars s).

(** ** Live photos *)

Definition live_key (media : DiscoveredMedia) : string * string :=
  (parent (dm_relative_path media), stem (dm_relative_path media)).

Definition is_motion_video (media : DiscoveredMedia) : bool :=
  bool_decide (dm_kind media = Media_Video)
  && bool_decide (extension (dm_relative_path media) = Some "mov").

Definition live_pair_id (image video : string) : string :=
  sha256_fields ["live-photo-v1"; image; video].

Definition mark_live (pair : string) (r : LivePhotoRole) (media : DiscoveredMedia) : DiscoveredMedia :=
  set_findings media (dm_metadata media) (dm_normalized_metadata media)
    (Some {| pair_id := pair; role := r |})
    (dm_evidence media ++ [{| re_rule_id := rule_id.LIVE_PHOTO_BASENAME;
                              outcome := "live_photo_member" |}]).

(** One round of the loop of [reconcile_live_photos] *)
Definition pair_group (media : list DiscoveredMedia) (indices : list nat) : list DiscoveredMedia :=
  let images := List.filter (λ i, is_some_and (media !! i) is_image) indices in
  let motion_videos := List.filter (λ i, is_some_and (media !! i) is_motion_video) indices in
  match images, motion_videos with
  | [image], [video] =>
    match media !! image, media !! video with
    | Some a, Some b =>
      let pair := live_pair_id (dm_relative_path a) (dm_relative_path b) in
      alter (mark_live pair Live_Video) video (alter (mark_live pair Live_Image) image media)
    | _, _ => media
    end
  | _, _ => media
  end.

Notation key_compare := (then_by String.compare fst String.compare snd).

Definition live_groups (media : list DiscoveredMedia) : list ((string * string) * list nat) :=
  group_by key_compare (λ x : nat * DiscoveredMedia, live_key x.2) fst (enumerate media).

Definition reconcile_live_photos (media : list DiscoveredMedia) : list DiscoveredMedia :=
  foldl pair_group media (map snd (live_groups media)).

(** ** Collisions and duplicates that are only reported *)

Definition path_groups (key : string → string) (media : list DiscoveredMedia) :
    list (list string) :=
  map snd (group_by String.compare key id (map dm_relative_path media)).

Definition detect_case_collisions (media : list DiscoveredMedia) (errors : list PlanDiagnostic) :
    list PlanDiagnostic :=
  errors ++ map (λ paths, diagnostic rule_id.CASE_COLLISION "portable_case_collision"
                            (take MAX_DIAGNOSTIC_PATHS paths))
    (List.filter (λ paths, Nat.ltb 1 (length paths)) (path_groups to_lowercase media)).

Definition lower_basename (path : string) : string :=
  match path_file_name path with Some value => to_lowercase value | None => "" end.

Definition detect_duplicate_basenames (media : list DiscoveredMedia)
    (warnings : list PlanDiagnostic) : list PlanDiagnostic :=
  warnings ++ map (λ paths, diagnostic rule_id.DUPLICATE_BASENAME
                              "duplicate_basename_across_directories"
                              (take MAX_DIAGNOSTIC_PATHS paths))
    (List.filter (λ paths, Nat.ltb 1 (length paths)
       && negb (windows2_all String.eqb (map parent paths)))
       (path_groups lower_basename media)).

Definition sort_findings (media : DiscoveredMedia) : DiscoveredMedia :=
  set_findings media (sort_dedup metadata_compare (dm_metadata media))
    (dm_normalized_metadata media) (dm_live_photo media)
    (sort_dedup evidence_compare (dm_evidence media)).

Definition complete (s : ScanState) : ScanState :=
  let s := set_media reconcile_live_photos s in
  let s := set_errors (detect_case_collisions (ss_media s)) s in
  let s := set_warnings (detect_duplicate_basenames (ss_media s)) s in
  set_errors (sort_dedup diagnostic_compare)
    (set_warnings (sort_dedup diagnostic_compare) (set_media (map sort_findings) s)).

(** [reconcile::reconcile] *)
Definition reconcile (s : ScanState) : ScanState := complete (reconcile_sidecars (prepare s)).

(** ** The plan *)

Definition fields (l : list string) : string := foldr (λ field rest, framed field +:+ rest) "" l.

Definition asset_fields (asset : CandidateAsset) : list string :=
  [ca_relative_path asset; ca_content_sha256 asset; display_u64 (ca_byte_len asset)]
  ++ flat_map (λ metadata, [mc_relative_path metadata; mc_rule_id metadata]) (ca_metadata asset).
Definition sidecar_fields (sidecar : DiscoveredSidecar) : list string :=
  [ds_relative_path sidecar; display_u64 (ds_byte_len sidecar); ds_content_sha256 sidecar].
Definition diagnostic_fields (d : PlanDiagnostic) : list string := pd_rule_id d :: pd_paths d.

Definition source_fingerprint (assets : list CandidateAsset) (sidecars : list DiscoveredSidecar)
    (warnings errors : list PlanDiagnostic) : string :=
  sha256_hex ("normalized-plan-source-v1" +:+ one_byte 0
    +:+ fields (flat_map asset_fields assets ++ flat_map sidecar_fields sidecars
                ++ flat_map diagnostic_fields (warnings ++ errors))).

Definition operation_id_of (media : DiscoveredMedia) : string :=
  sha256_fields ["normalized-plan-operation-v1"; dm_relative_path media; dm_content_sha256 media;
                 display_u64 (dm_byte_len media)].

Definition candidate_of (media : DiscoveredMedia) : CandidateAsset := {|
  ca_operation_id := operation_id_of media; ca_relative_path := dm_relative_path media;
  ca_media_kind := dm_kind media; ca_byte_len := dm_byte_len media;
  ca_content_sha256 := dm_content_sha256 media; ca_metadata := dm_metadata media;
  ca_normalized_metadata := dm_normalized_metadata media; ca_live_photo := dm_live_photo media;
  ca_evidence := dm_evidence media |}.

Definition finalize_plan (schema_version : Z) (source_kind : SourceKind) (source_label : string)
    (config : FolderScanConfig) (s : ScanState) : NormalizedPlan :=
  let assets := sort_by (λ a b, leb_of String.compare (ca_relative_path a) (ca_relative_path b))
                  (map candidate_of (ss_media s)) in
  {| np_schema_version := schema_version;
     np_source := {|
       kind := source_kind; label := source_label;
       fingerprint_sha256 := source_fingerprint assets (ss_sidecars s) (ss_warnings s) (ss_errors s);
       case_sensitive := fsc_case_sensitive config; unicode_normalization := Nfc |};
     np_assets := assets; np_warnings := ss_warnings s; np_errors := ss_errors s;
     np_summary := {| ps_assets := zlen assets; ps_sidecars := sidecar_count assets;
                      ps_bytes_read := ss_bytes_read s |} |}.

(** ** The resolved files *)

Definition media_file (media : DiscoveredMedia) : ResolvedSourceFile := {|
  rsf_native_path := dm_native_path media; rsf_archive_index := dm_archive_index media;
  rsf_byte_len := dm_byte_len media; rsf_content_sha256 := dm_content_sha256 media;
  rsf_content_sha1_base64 := dm_content_sha1_base64 media;
  rsf_created_at_unix_ms := dm_created_at_unix_ms media;
  rsf_modified_at_unix_ms := dm_modified_at_unix_ms media |}.
Definition sidecar_file (sidecar : DiscoveredSidecar) : ResolvedSourceFile := {|
  rsf_native_path := ds_native_path sidecar; rsf_archive_index := ds_archive_index sidecar;
  rsf_byte_len := ds_byte_len sidecar; rsf_content_sha256 := ds_content_sha256 sidecar;
  rsf_content_sha1_base64 := ds_content_sha1_base64 sidecar;
  rsf_created_at_unix_ms := ds_created_at_unix_ms sidecar;
  rsf_modified_at_unix_ms := ds_modified_at_unix_ms sidecar |}.

Definition resolved_files (s : ScanState) : gmap string ResolvedSourceFile :=
  collect_map fst snd
    (map (λ media, (dm_relative_path media, media_file media)) (ss_media s)
     ++ map (λ sidecar, (ds_relative_path sidecar, sidecar_file sidecar)) (ss_sidecars s)).
End reconcile.

(** [finish_resolved]; the progress event is sent by the caller here. *)
Definition finish_resolved `{TimeLib} (plan : NormalizedPlan) (files : gmap string ResolvedSourceFile) :
    result ScanError.t ResolvedFolderPlan :=
  _ ← map_err ScanError.InvalidPlan (Planning.validate plan);
  Ok {| rfp_plan := plan; rfp_files := files |}.

(** The plan and the files of a reconciled state, as the end of
    [scan_resolved_internal] makes them. *)
Definition finish_state `{TimeLib, Codec} (schema_version : Z) (source_kind : SourceKind)
    (source_label : string) (config : FolderScanConfig) (s : ScanState) :
    result ScanError.t ResolvedFolderPlan :=
  let files := resolved_files s in
  let plan := finalize_plan schema_version source_kind source_label config s in
  finish_resolved plan files.
