(* ===== verification/ReconcileFacts.v ===== *)
(** * ReconcileFacts: what reconciliation keeps and what it decides

    Lemmas on each step of [Reconcile]: which files survive [prepare], that later
    steps only write findings, which sidecars and pairs they find, and that the
    result is a well-formed plan. *)
From Stdlib Require Import Ascii.
From S2P Require Export Reconcile.

(** ** What stays the same of a file *)

(** The same file, whatever was found about it. *)
Definition same_file (a b : DiscoveredMedia) : Prop :=
  set_findings a [] None None [] = set_findings b [] None None [].

#[export] Instance same_file_equiv : Equivalence same_file.
Proof.
  unfold same_file. split; [by intros a|by intros a b ->|by intros a b c -> ->].
Qed.

Lemma same_file_findings a m n l e : same_file a (set_findings a m n l e).
Proof. done. Qed.

Lemma same_file_fields a b : same_file a b →
  dm_relative_path a = dm_relative_path b ∧ dm_kind a = dm_kind b
  ∧ dm_byte_len a = dm_byte_len b ∧ dm_content_sha256 a = dm_content_sha256 b
  ∧ media_file a = media_file b.
Proof. destruct a, b. unfold same_file, set_findings, media_file. simpl. by intros [=]; simplify_eq. Qed.

Definition same_files : list DiscoveredMedia → list DiscoveredMedia → Prop := Forall2 same_file.

Lemma same_files_refl l : same_files l l.
Proof. unfold same_files. induction l; by constructor. Qed.

Lemma same_files_trans l k m : same_files l k → same_files k m → same_files l m.
Proof. unfold same_files. intros. by etrans. Qed.

Lemma same_files_alter (f : DiscoveredMedia → DiscoveredMedia) i l :
  (∀ a, same_file a (f a)) → same_files l (alter f i l).
Proof.
  intros Hf. revert i. induction l as [|a l IH]; intros i; [apply same_files_refl|].
  destruct i; simpl; constructor; [apply Hf|apply same_files_refl|done|apply IH].
Qed.

Lemma same_files_map {B} (g : DiscoveredMedia → B) l k :
  (∀ a b, same_file a b → g a = g b) → same_files l k → map g k = map g l.
Proof. intros Hg. induction 1 as [|a b l k Hab _ IH]; simpl; [done|]. by rewrite (Hg a b Hab), IH. Qed.

Lemma same_files_paths l k : same_files l k → map dm_relative_path k = map dm_relative_path l.
Proof. apply same_files_map. intros a b Hab. by destruct (same_file_fields a b Hab). Qed.

Lemma same_files_lookup l k i a : same_files l k → l !! i = Some a →
  ∃ b, k !! i = Some b ∧ same_file a b.
Proof. intros Hf Ha. by apply (Forall2_lookup_l _ _ _ _ _ Hf). Qed.

(** ** Well-formed discoveries *)

(** What discovery guarantees of every media file, and reconciliation keeps; a
    string fits the address space. *)
Record media_ok `{TimeLib} (m : DiscoveredMedia) : Prop := {
  mo_path : dm_relative_path m ≠ "";
  mo_fits : fits (dm_relative_path m);
  mo_content : len (dm_content_sha256 m) = 64;
  mo_evidence : Forall (λ e, re_rule_id e ≠ "") (dm_evidence m);
  mo_metadata : Forall (λ c, mc_rule_id c ≠ "") (dm_metadata m);
  mo_normalized : ∀ n, dm_normalized_metadata m = Some n → is_valid n = true;
}.

Section facts.
  Context `{UnicodeLib, Codec, TimeLib}.

Lemma attach_sidecar_ok m sidecar rule : rule ≠ "" → media_ok m → media_ok (attach_sidecar m sidecar rule).
Proof.
  intros Hr []. split; simpl; try done.
  - apply Forall_app. by split; [|repeat constructor].
  - apply Forall_app. by split; [|repeat constructor].
Qed.

Lemma mark_live_ok pair r m : media_ok m → media_ok (mark_live pair r m).
Proof. intros []. split; simpl; try done. apply Forall_app. by split; [|repeat constructor]. Qed.

Lemma sort_findings_ok m : media_ok m → media_ok (sort_findings m).
Proof.
  intros []. split; simpl; try done; by rewrite Forall_sort_dedup by apply _.
Qed.

Lemma Forall_alter (P : DiscoveredMedia → Prop) f i l :
  (∀ a, P a → P (f a)) → Forall P l → Forall P (alter f i l).
Proof.
  intros Hf. revert i. induction l as [|a l IH]; intros i Hl; [by destruct i|].
  apply Forall_cons in Hl as [Ha Hl]. destruct i; simpl; constructor; [by apply Hf|done|done|by apply IH].
Qed.

(** ** [prepare] *)

(** Counting the occurrences of the paths *)
Definition path_counts (paths : list string) : list (string * Z) :=
  foldl (λ counts path, entry_by String.compare path 0 (λ n, n + 1) counts) [] paths.

Lemma path_counts_spec paths :
  StronglySorted (λ a b, String.compare a b = Lt) (map fst (path_counts paths))
  ∧ ∀ p, lookup_by String.compare p (path_counts paths)
         = if count (String.eqb p) paths =? 0 then None else Some (count (String.eqb p) paths).
Proof.
  unfold path_counts. induction paths as [|q paths [Hs IH]] using rev_ind; simpl;
    [split; [constructor|done]|].
  rewrite foldl_snoc. split; [by apply (entry_by_sorted String.compare)|].
  intros p. rewrite (entry_by_lookup String.compare) by done. rewrite !IH.
  assert (∀ p, count (String.eqb p) (paths ++ [q])
    = count (String.eqb p) paths + (if String.eqb p q then 1 else 0)) as Hc.
  { intros r. clear. induction paths as [|x l IH]; simpl; rewrite ?count_cons, ?IH; simpl; [|lia].
    unfold count. simpl. by destruct (String.eqb r q). }
  rewrite Hc. pose proof (count_nonneg (String.eqb p) paths).
  destruct (String.compare q p) eqn:Hqp.
  - apply String.compare_eq_iff in Hqp as ->. rewrite String.eqb_refl.
    destruct (Z.eqb_spec (count (String.eqb p) paths) 0) as [->|]; simpl; [done|].
    destruct (Z.eqb_spec (count (String.eqb p) paths + 1) 0); [lia|done].
  - destruct (String.eqb_spec p q) as [->|]; [by rewrite string_compare_refl in Hqp|].
    by rewrite Z.add_0_r.
  - destruct (String.eqb_spec p q) as [->|]; [by rewrite string_compare_refl in Hqp|].
    by rewrite Z.add_0_r.
Qed.

Definition collisions (paths : list string) : list string :=
  map fst (List.filter (λ x, 1 <? x.2) (path_counts paths)).

Lemma elem_of_collisions paths p : p ∈ collisions paths ↔ 1 < count (String.eqb p) paths.
Proof.
  destruct (path_counts_spec paths) as [Hs Hl]. unfold collisions. rewrite elem_of_map. split.
  - intros ([q n] & -> & Hin). rewrite list_elem_of_In, filter_In, <- list_elem_of_In in Hin.
    destruct Hin as [Hin Hn]. apply Z.ltb_lt in Hn. simpl in *.
    apply (lookup_by_elem String.compare) in Hin; [|done]. rewrite Hl in Hin.
    destruct (_ =? 0); [done|]. by injection Hin as ->.
  - intros Hc. exists (p, count (String.eqb p) paths). split; [done|].
    rewrite list_elem_of_In, filter_In, <- list_elem_of_In. split; [|by apply Z.ltb_lt].
    apply (lookup_by_elem String.compare); [done|]. rewrite Hl.
    destruct (Z.eqb_spec (count (String.eqb p) paths) 0); [lia|done].
Qed.

(** The paths that are left occur once. *)
Lemma unique_paths_NoDup (paths : list string) :
  NoDup (List.filter (λ p, negb (existsb (String.eqb p) (collisions paths))) paths).
Proof.
  assert (∀ l k, paths = k ++ l →
    NoDup (List.filter (λ p, negb (existsb (String.eqb p) (collisions paths))) l)) as Hg;
    [|by apply (Hg paths [])].
  induction l as [|p l IH]; intros k Hl; simpl; [constructor|].
  assert (NoDup (List.filter (λ p, negb (existsb (String.eqb p) (collisions paths))) l)) as Hn.
  { apply (IH (k ++ [p])). by rewrite <- app_assoc. }
  destruct (existsb (String.eqb p) (collisions paths)) eqn:He; simpl; [done|].
  constructor; [|done]. rewrite list_elem_of_In, filter_In, <- list_elem_of_In. intros [Hin _].
  rewrite existsb_false, Forall_forall in He.
  assert (p ∈ collisions paths) as Hp; [|specialize (He p Hp); by rewrite String.eqb_refl in He].
  apply elem_of_collisions. rewrite Hl. clear - Hin.
  assert (∀ l, p ∈ l → 1 <= count (String.eqb p) l) as Hone.
  { intros m. induction m as [|x m IH]; [by intros ?%elem_of_nil|].
    rewrite count_cons. pose proof (count_nonneg (String.eqb p) m).
    intros [->|Hm]%elem_of_cons; [rewrite String.eqb_refl; lia|].
    specialize (IH Hm). destruct (String.eqb p x); lia. }
  specialize (Hone l Hin). clear Hin. induction k as [|x k IH]; simpl.
  - rewrite count_cons, String.eqb_refl. lia.
  - rewrite count_cons. destruct (String.eqb p x); lia.
Qed.

Lemma filter_map {A B} (f : A → B) (p : B → bool) (l : list A) :
  map f (List.filter (λ x, p (f x)) l) = List.filter p (map f l).
Proof. induction l as [|x l IH]; simpl; [done|]. destruct (p (f x)); simpl; by rewrite IH. Qed.

(** Sorting by a key that occurs once orders the keys strictly. *)
Lemma sort_by_key_strict {A} (key : A → string) (l : list A) :
  NoDup (map key l) →
  StronglySorted str_lt (map key (sort_by (λ a b, leb_of String.compare (key a) (key b)) l)).
Proof.
  intros Hn.
  assert (StronglySorted (λ a b, leb_of String.compare (key a) (key b) = true)
    (sort_by (λ a b, leb_of String.compare (key a) (key b)) l)) as Hs.
  { apply sort_by_sorted; intros *; [apply leb_total|apply leb_trans]; apply _. }
  assert (NoDup (map key (sort_by (λ a b, leb_of String.compare (key a) (key b)) l))) as Hd
    by (by rewrite sort_by_perm).
  induction Hs as [|a k Hs IH Ha]; simpl; [constructor|].
  apply NoDup_cons in Hd as [Hnew Hd]. constructor; [by apply IH|].
  apply Forall_map. rewrite Forall_forall in *. intros b Hb. specialize (Ha b Hb).
  unfold leb_of in Ha. unfold str_lt, String.ltb.
  destruct (String.compare (key a) (key b)) eqn:Hc; [|done|done].
  apply String.compare_eq_iff in Hc. destruct Hnew. rewrite Hc. apply elem_of_map. by exists b.
Qed.

(** The paths of the state *)
Definition media_paths (s : ScanState) : list string := map dm_relative_path (ss_media s).
Definition sidecar_paths (s : ScanState) : list string := map ds_relative_path (ss_sidecars s).
Definition all_paths (s : ScanState) : list string := media_paths s ++ sidecar_paths s.

Definition unique (s : ScanState) (path : string) : bool :=
  negb (existsb (String.eqb path) (collisions (all_paths s))).

Lemma push_errors_media f (l : list string) s :
  ss_media (foldl (λ s path, push_error (f path) s) s l) = ss_media s
  ∧ ss_sidecars (foldl (λ s path, push_error (f path) s) s l) = ss_sidecars s
  ∧ ss_warnings (foldl (λ s path, push_error (f path) s) s l) = ss_warnings s
  ∧ ss_bytes_read (foldl (λ s path, push_error (f path) s) s l) = ss_bytes_read s
  ∧ ss_errors (foldl (λ s path, push_error (f path) s) s l) = ss_errors s ++ map f l.
Proof.
  revert s. induction l as [|p l IH]; intros s; simpl; [by rewrite app_nil_r|].
  destruct (IH (push_error (f p) s)) as (-> & -> & -> & -> & ->). simpl. by rewrite <- app_assoc.
Qed.

Lemma prepare_media s :
  ss_media (prepare s)
  = sort_by (λ a b, leb_of String.compare (dm_relative_path a) (dm_relative_path b))
      (List.filter (λ m, unique s (dm_relative_path m)) (ss_media s))
  ∧ ss_sidecars (prepare s)
  = sort_by (λ a b, leb_of String.compare (ds_relative_path a) (ds_relative_path b))
      (List.filter (λ x, unique s (ds_relative_path x)) (ss_sidecars s))
  ∧ ss_errors (prepare s)
  = ss_errors s ++ map (λ path, diagnostic rule_id.UNICODE_COLLISION
      "native_paths_share_nfc_path" [path]) (collisions (all_paths s))
  ∧ ss_warnings (prepare s) = ss_warnings s ∧ ss_bytes_read (prepare s) = ss_bytes_read s.
Proof.
  unfold prepare, remove_unicode_collisions. cbn [set_media set_sidecars ss_media ss_sidecars
    ss_errors ss_warnings ss_bytes_read].
  destruct (push_errors_media (λ path, diagnostic rule_id.UNICODE_COLLISION
    "native_paths_share_nfc_path" [path]) (collisions (all_paths s)) s) as (Hm & Hx & Hw & Hb & He).
  split_and!; [|exact (f_equal (λ l, sort_by _ (List.filter _ l)) Hx)|exact He|exact Hw|exact Hb].
  exact (f_equal (λ l, sort_by _ (List.filter _ l)) Hm).
Qed.

Lemma prepare_unique s : NoDup (all_paths (prepare s)).
Proof.
  unfold all_paths, media_paths, sidecar_paths.
  destruct (prepare_media s) as (-> & -> & _). rewrite !sort_by_perm, !filter_map.
  rewrite <- List.filter_app. apply unique_paths_NoDup.
Qed.

Lemma prepare_sorted s : StronglySorted str_lt (media_paths (prepare s)).
Proof.
  unfold media_paths. destruct (prepare_media s) as (-> & _). apply sort_by_key_strict.
  pose proof (prepare_unique s) as Hn. apply NoDup_app in Hn as [Hn _].
  unfold media_paths in Hn. destruct (prepare_media s) as (Hm & _). rewrite Hm in Hn.
  by rewrite sort_by_perm in Hn.
Qed.

Lemma elem_of_prepare_media s m :
  m ∈ ss_media (prepare s) ↔ m ∈ ss_media s ∧ unique s (dm_relative_path m) = true.
Proof.
  destruct (prepare_media s) as (-> & _).
  by rewrite elem_of_sort_by, list_elem_of_In, filter_In, <- list_elem_of_In.
Qed.

Lemma elem_of_prepare_sidecars s x :
  x ∈ ss_sidecars (prepare s) ↔ x ∈ ss_sidecars s ∧ unique s (ds_relative_path x) = true.
Proof.
  destruct (prepare_media s) as (_ & -> & _).
  by rewrite elem_of_sort_by, list_elem_of_In, filter_In, <- list_elem_of_In.
Qed.
(** ** Sidecars *)

(** Where a sidecar goes: it depends on the paths and kinds of the media only. *)
Definition sidecar_target (media : list DiscoveredMedia) (x : DiscoveredSidecar) :
    option (nat * string) :=
  match exact_match media x with
  | Some i => Some (i, rule_id.SIDECAR_EXACT_NAME)
  | None => match basename_candidates media x with
            | [i] => Some (i, rule_id.SIDECAR_BASENAME)
            | _ => None
            end
  end.

Definition candidate (x : DiscoveredSidecar) (rule : string) : MetadataCandidate := {|
  mc_relative_path := ds_relative_path x; mc_kind := ds_kind x; mc_rule_id := rule |}.

Lemma same_files_indices (p : DiscoveredMedia → bool) l k :
  (∀ a b, same_file a b → p a = p b) → same_files l k → indices_where p l = indices_where p k.
Proof. intros Hp Hf. apply indices_where_ext. eapply Forall2_impl; [exact Hf|]. apply Hp. Qed.

Lemma same_files_is_some (p : DiscoveredMedia → bool) l k i :
  (∀ a b, same_file a b → p a = p b) → same_files l k →
  is_some_and (l !! i) p = is_some_and (k !! i) p.
Proof.
  intros Hp Hf. destruct (l !! i) as [a|] eqn:Ha; simpl.
  - destruct (same_files_lookup _ _ _ _ Hf Ha) as (b & -> & Hab). by apply Hp.
  - apply lookup_ge_None in Ha. rewrite (Forall2_length _ _ _ Hf) in Ha.
    by rewrite (proj2 (lookup_ge_None k i) Ha).
Qed.

Lemma same_file_stem x a b : same_file a b → same_stem x a = same_stem x b.
Proof. intros Hab. unfold same_stem. by destruct (same_file_fields a b Hab) as (-> & _). Qed.
Lemma same_file_image a b : same_file a b → is_image a = is_image b.
Proof. intros Hab. unfold is_image. by destruct (same_file_fields a b Hab) as (_ & -> & _). Qed.
Lemma same_file_motion a b : same_file a b → is_motion_video a = is_motion_video b.
Proof.
  intros Hab. unfold is_motion_video. by destruct (same_file_fields a b Hab) as (-> & -> & _).
Qed.

Lemma filter_ext_in {A} (p q : A → bool) l : (∀ x, p x = q x) → List.filter p l = List.filter q l.
Proof. intros Hpq. induction l as [|x l IH]; simpl; [done|]. by rewrite Hpq, IH. Qed.

Lemma basename_candidates_same l k x :
  same_files l k → basename_candidates l x = basename_candidates k x.
Proof.
  intros Hf. unfold basename_candidates.
  rewrite (same_files_indices _ _ _ (same_file_stem x) Hf).
  rewrite (filter_ext_in _ (λ i, is_some_and (k !! i) is_image)); [done|].
  intros i. by apply same_files_is_some; [apply same_file_image|].
Qed.

Lemma sidecar_target_same l k x : same_files l k → sidecar_target l x = sidecar_target k x.
Proof.
  intros Hf. unfold sidecar_target, exact_match, position.
  rewrite (basename_candidates_same _ _ _ Hf). destruct (ds_kind x); [|done]. simpl.
  destruct (strip_suffix ".json" (ds_relative_path x)) as [target|]; simpl; [|done].
  rewrite (same_files_indices (λ m, String.eqb (dm_relative_path m) target) l k); [done| |done].
  intros a b Hab. by destruct (same_file_fields a b Hab) as (-> & _).
Qed.

(** One round: the sidecar is attached to its target, or reported. *)
Lemma reconcile_sidecar_cases s x :
  match sidecar_target (ss_media s) x with
  | Some (i, rule) => reconcile_sidecar s x = attach_at i x rule s
  | None => ∃ d, ds_relative_path x ∈ pd_paths d
      ∧ (reconcile_sidecar s x = push_warning d s ∨ reconcile_sidecar s x = push_error d s)
  end.
Proof.
  unfold sidecar_target, reconcile_sidecar. destruct (exact_match _ _); [done|].
  assert (∀ rule code paths, (length paths <= 8)%nat → ∀ p, p ∈ paths →
    p ∈ pd_paths (diagnostic rule code paths)) as Hin.
  { intros rule code paths Hl p Hp. simpl. rewrite take_ge; [by apply elem_of_sort_dedup|].
    unfold sort_dedup. assert (∀ l : list string, length (dedup l) <= length l)%nat as Hd.
    { intros l. induction l as [|y l IH]; simpl; [done|]. destruct (dedup l); simpl in *; [lia|].
      case_decide; simpl; lia. }
    etrans; [apply Hd|]. by rewrite length_sort_by. }
  destruct (basename_candidates _ _) as [|i [|j l]]; [|done|].
  - eexists. split; [|by left]. apply Hin; [simpl; lia|left].
  - eexists. split; [|by right]. apply Hin; [|left]. cbn [length]. unfold paths_at.
    assert (∀ k : list nat, length (omap (λ index, dm_relative_path <$> ss_media s !! index) k)
      <= length k)%nat as Hlen.
    { intros k. induction k as [|n k IH]; [done|]. cbn [omap list_omap length] in *.
      destruct (dm_relative_path <$> ss_media s !! n); cbn [length]; lia. }
    etrans; [apply le_n_S, Hlen|]. rewrite length_take. unfold MAX_DIAGNOSTIC_PATHS. lia.
Qed.
Lemma attach_at_same i x rule s : same_files (ss_media s) (ss_media (attach_at i x rule s)).
Proof. apply same_files_alter. intros a. apply same_file_findings. Qed.

(** A file found by [a] that stands in a diagnostic of [s]. *)
Definition reported (path : string) (s : ScanState) : Prop :=
  ∃ d, path ∈ pd_paths d ∧ (d ∈ ss_warnings s ∨ d ∈ ss_errors s).

(** Diagnostics are only added. *)
Definition extends_reports (s s' : ScanState) : Prop :=
  (∀ d, d ∈ ss_warnings s → d ∈ ss_warnings s') ∧ (∀ d, d ∈ ss_errors s → d ∈ ss_errors s').

Lemma reported_extends p s s' : extends_reports s s' → reported p s → reported p s'.
Proof. intros [Hw He] (d & Hp & [Hd|Hd]); exists d; auto. Qed.

Record sidecar_round (s s' : ScanState) : Prop := {
  sr_files : same_files (ss_media s) (ss_media s');
  sr_sidecars : ss_sidecars s' = ss_sidecars s;
  sr_bytes : ss_bytes_read s' = ss_bytes_read s;
  sr_reports : extends_reports s s';
  sr_ok : Forall media_ok (ss_media s) → Forall media_ok (ss_media s');
  sr_live : Forall2 (λ a b, dm_live_photo a = dm_live_photo b
              ∧ dm_normalized_metadata a = dm_normalized_metadata b) (ss_media s) (ss_media s');
}.

Lemma Forall2_alter (R : DiscoveredMedia → DiscoveredMedia → Prop) f i l :
  (∀ a, R a a) → (∀ a, R a (f a)) → Forall2 R l (alter f i l).
Proof.
  intros Hr Hf. assert (∀ k, Forall2 R k k) as Hk by (induction k; by constructor).
  revert i. induction l as [|a l IH]; intros i; [done|].
  destruct i; simpl; constructor; [apply Hf|apply Hk|apply Hr|apply IH].
Qed.

Lemma sidecar_round_one s x : sidecar_round s (reconcile_sidecar s x).
Proof.
  pose proof (reconcile_sidecar_cases s x) as Hc.
  destruct (sidecar_target (ss_media s) x) as [[i rule]|] eqn:Ht.
  - rewrite Hc. split; simpl; try done.
    + apply attach_at_same.
    + apply Forall_alter. intros a. apply attach_sidecar_ok. unfold sidecar_target in Ht.
      repeat case_match; by simplify_eq.
    + by apply Forall2_alter.
  - destruct Hc as (d & Hd & [-> | ->]); split; simpl; try done.
    + split; [|done]. simpl. set_solver.
    + by apply Forall_Forall2_diag, Forall_true.
    + split; [done|]. simpl. set_solver.
    + by apply Forall_Forall2_diag, Forall_true.
Qed.

Lemma sidecar_round_trans s s' s'' : sidecar_round s s' → sidecar_round s' s'' → sidecar_round s s''.
Proof.
  intros [] []. split; try congruence; eauto using same_files_trans.
  - unfold extends_reports in *. naive_solver.
  - eapply Forall2_trans; [|done|done]. intros a b c [] []. split; congruence.
Qed.

Lemma sidecar_rounds s l : sidecar_round s (foldl reconcile_sidecar s l).
Proof.
  revert s. induction l as [|x l IH]; intros s; simpl.
  - split; try done. by apply Forall_Forall2_diag, Forall_true.
  - eapply sidecar_round_trans; [apply sidecar_round_one|apply IH].
Qed.

(** The candidates a file has received are those of the sidecars whose target it
    is, in order; every other sidecar is reported. *)
Definition candidate_for (media : list DiscoveredMedia) (i : nat) (x : DiscoveredSidecar) :
    option MetadataCandidate :=
  match sidecar_target media x with
  | Some (j, rule) => if Nat.eqb i j then Some (candidate x rule) else None
  | None => None
  end.

Lemma candidate_for_same l k i x : same_files l k → candidate_for l i x = candidate_for k i x.
Proof. intros Hf. unfold candidate_for. by rewrite (sidecar_target_same l k x Hf). Qed.

Lemma reconcile_sidecars_metadata l s i m :
  ss_media s !! i = Some m →
  ∃ m', ss_media (foldl reconcile_sidecar s l) !! i = Some m' ∧ same_file m m'
    ∧ dm_metadata m' = dm_metadata m ++ omap (candidate_for (ss_media s) i) l.
Proof.
  revert s m. induction l as [|x l IH]; intros s m Hm.
  { exists m. split_and!; [done|done|by rewrite app_nil_r]. }
  cbn [foldl omap list_omap].
  assert (∃ m1, ss_media (reconcile_sidecar s x) !! i = Some m1 ∧ same_file m m1
    ∧ dm_metadata m1 = dm_metadata m ++ option_list (candidate_for (ss_media s) i x)) as
    (m1 & Hm1 & Hf1 & Hd1).
  { pose proof (reconcile_sidecar_cases s x) as Hc. unfold candidate_for.
    destruct (sidecar_target (ss_media s) x) as [[j rule]|].
    - rewrite Hc. simpl. destruct (Nat.eqb_spec i j) as [<-|Hij].
      + rewrite list_lookup_alter_eq, Hm. eexists. split_and!; [done|apply same_file_findings|done].
      + rewrite list_lookup_alter_ne by done. exists m. simpl. by rewrite app_nil_r.
    - exists m. destruct Hc as (d & _ & [-> | ->]); simpl; by rewrite app_nil_r. }
  destruct (IH _ _ Hm1) as (m' & Hm' & Hf' & Hd').
  exists m'. split_and!; [done|by etrans|]. rewrite Hd', Hd1, <- app_assoc. f_equal.
  pose proof (sr_files _ _ (sidecar_round_one s x)) as Hs.
  assert (omap (candidate_for (ss_media (reconcile_sidecar s x)) i) l
          = omap (candidate_for (ss_media s) i) l) as ->.
  { clear - Hs. induction l as [|y l IH]; [done|]. cbn [omap list_omap].
    rewrite (candidate_for_same _ _ i y Hs). by rewrite IH. }
  by destruct (candidate_for (ss_media s) i x).
Qed.

Lemma reconcile_sidecars_reported l s x :
  x ∈ l → sidecar_target (ss_media s) x = None →
  reported (ds_relative_path x) (foldl reconcile_sidecar s l).
Proof.
  revert s. induction l as [|y l IH]; intros s; [by intros ?%elem_of_nil|].
  intros [->|Hin]%elem_of_cons Ht; simpl.
  - pose proof (reconcile_sidecar_cases s y) as Hc. rewrite Ht in Hc.
    destruct Hc as (d & Hd & Hs). eapply reported_extends; [apply sidecar_rounds|].
    exists d. split; [done|]. destruct Hs as [-> | ->]; simpl; set_solver.
  - apply IH; [done|]. rewrite <- Ht. symmetry. apply sidecar_target_same.
    apply sidecar_round_one.
Qed.
(** ** Live photos *)

Notation key_compare := (then_by String.compare fst String.compare snd).

(** The role of position [i] in a group of positions: the image and the motion
    video of a group that has one of each. *)
Definition role_in (media : list DiscoveredMedia) (indices : list nat) (i : nat) :
    option (string * LivePhotoRole) :=
  let images := List.filter (λ i, is_some_and (media !! i) is_image) indices in
  let motion_videos := List.filter (λ i, is_some_and (media !! i) is_motion_video) indices in
  match images, motion_videos with
  | [image], [video] =>
    match media !! image, media !! video with
    | Some a, Some b =>
      let pid := live_pair_id (dm_relative_path a) (dm_relative_path b) in
      if Nat.eqb i image then Some (pid, Live_Image)
      else if Nat.eqb i video then Some (pid, Live_Video) else None
    | _, _ => None
    end
  | _, _ => None
  end.

(** The positions with the directory and stem of position [i]. *)
Definition stem_group (media : list DiscoveredMedia) (key : string * string) : list nat :=
  indices_where (λ m, match key_compare (live_key m) key with Eq => true | _ => false end) media.

Definition live_role (media : list DiscoveredMedia) (i : nat) : option (string * LivePhotoRole) :=
  match media !! i with
  | Some m => role_in media (stem_group media (live_key m)) i
  | None => None
  end.

Definition mark (role : option (string * LivePhotoRole)) (m : DiscoveredMedia) : DiscoveredMedia :=
  match role with Some (pid, r) => mark_live pid r m | None => m end.

Lemma mark_same role m : same_file m (mark role m).
Proof. by destruct role as [[]|]. Qed.

Lemma mark_ok role m : media_ok m → media_ok (mark role m).
Proof. destruct role as [[]|]; [apply mark_live_ok|done]. Qed.

Lemma role_in_same l k g i : same_files l k → role_in l g i = role_in k g i.
Proof.
  intros Hf. unfold role_in.
  rewrite (filter_ext_in _ (λ i, is_some_and (k !! i) is_image))
    by (intros; by apply same_files_is_some; [apply same_file_image|]).
  rewrite (filter_ext_in (λ i, is_some_and (l !! i) is_motion_video)
    (λ i, is_some_and (k !! i) is_motion_video))
    by (intros; by apply same_files_is_some; [apply same_file_motion|]).
  destruct (List.filter _ g) as [|a []]; [done| |done].
  destruct (List.filter _ g) as [|b []]; [done| |done].
  assert (∀ j, dm_relative_path <$> l !! j = dm_relative_path <$> k !! j) as Hp.
  { intros j. rewrite <- !list_lookup_fmap. f_equal. symmetry. by apply same_files_paths. }
  pose proof (Hp a) as Ha. pose proof (Hp b) as Hb.
  destruct (l !! a), (k !! a), (l !! b), (k !! b); simpl in *; simplify_eq; try done.
  by rewrite Ha, Hb.
Qed.

Lemma role_in_Some l g i pid r : role_in l g i = Some (pid, r) →
  ∃ image video a b, l !! image = Some a ∧ l !! video = Some b
    ∧ is_image a = true ∧ is_motion_video b = true ∧ image ∈ g ∧ video ∈ g
    ∧ pid = live_pair_id (dm_relative_path a) (dm_relative_path b)
    ∧ (i = image ∧ r = Live_Image ∨ i = video ∧ r = Live_Video)
    ∧ role_in l g image = Some (pid, Live_Image) ∧ role_in l g video = Some (pid, Live_Video).
Proof.
  unfold role_in. destruct (List.filter _ g) as [|image []] eqn:Hi; [done| |done].
  destruct (List.filter (λ i, is_some_and (l !! i) is_motion_video) g) as [|video []] eqn:Hv;
    [done| |done].
  assert (image ∈ g ∧ is_some_and (l !! image) is_image = true) as [Hig Hii]
    by (apply (elem_of_List_filter (λ i, is_some_and (l !! i) is_image)); rewrite Hi; left).
  assert (video ∈ g ∧ is_some_and (l !! video) is_motion_video = true) as [Hvg Hvv]
    by (apply (elem_of_List_filter (λ i, is_some_and (l !! i) is_motion_video)); rewrite Hv; left).
  destruct (l !! image) as [a|] eqn:Ha; [|done]. destruct (l !! video) as [b|] eqn:Hb; [|done].
  simpl in Hii, Hvv. intros Hr. exists image, video, a, b.
  assert (image ≠ video) as Hne.
  { intros ->. rewrite Ha in Hb. injection Hb as ->. unfold is_image, is_motion_video in *.
    apply bool_decide_eq_true in Hii. apply andb_true_iff in Hvv as [Hvv _].
    apply bool_decide_eq_true in Hvv. congruence. }
  assert (pid = live_pair_id (dm_relative_path a) (dm_relative_path b)) as ->
    by (by destruct (Nat.eqb i image), (Nat.eqb i video); simplify_eq).
  rewrite !Nat.eqb_refl. destruct (Nat.eqb_spec video image); [congruence|].
  split_and!; try done.
  destruct (Nat.eqb_spec i image), (Nat.eqb_spec i video); simplify_eq; auto.
Qed.

Lemma pair_group_lookup media g i :
  pair_group media g !! i = mark (role_in media g i) <$> media !! i.
Proof.
  destruct (role_in media g i) as [[pid r]|] eqn:Hr.
  - destruct (role_in_Some _ _ _ _ _ Hr)
      as (image & video & a & b & Ha & Hb & _ & _ & _ & _ & -> & Hcase & Hri & Hrv).
    assert (image ≠ video) as Hne by (intros ->; congruence).
    clear Hr. revert Hri Hrv. unfold role_in, pair_group.
    destruct (List.filter _ g) as [|i1 []]; [done| |done].
    destruct (List.filter _ g) as [|v1 []]; [done| |done].
    destruct (media !! i1) as [a1|] eqn:Ha1; [|done]. destruct (media !! v1) as [b1|] eqn:Hb1; [|done].
    destruct (Nat.eqb_spec image i1) as [<-|]; [|by destruct (Nat.eqb image v1)].
    intros _. destruct (Nat.eqb_spec video image); [congruence|].
    destruct (Nat.eqb_spec video v1) as [<-|]; [|done]. intros _. simplify_eq.
    destruct Hcase as [[-> ->]|[-> ->]].
    + rewrite list_lookup_alter_ne, list_lookup_alter_eq by done. by rewrite Ha.
    + rewrite list_lookup_alter_eq, list_lookup_alter_ne by done. by rewrite Hb.
  - unfold role_in in Hr. unfold pair_group. simpl. rewrite option_fmap_id.
    destruct (List.filter _ g) as [|i1 []]; [done| |done].
    destruct (List.filter _ g) as [|v1 []]; [done| |done].
    destruct (media !! i1) as [a1|] eqn:Ha1; [|done]. destruct (media !! v1) as [b1|] eqn:Hb1; [|done].
    destruct (Nat.eqb_spec i i1); [done|]. destruct (Nat.eqb_spec i v1); [done|].
    by rewrite !list_lookup_alter_ne.
Qed.
Lemma Forall2_by_lookup (R : DiscoveredMedia → DiscoveredMedia → Prop) (f : nat → DiscoveredMedia → DiscoveredMedia) l k :
  (∀ i a, R a (f i a)) → (∀ i, k !! i = f i <$> l !! i) → Forall2 R l k.
Proof.
  intros Hf Hk. apply Forall2_same_length_lookup. split.
  - apply dec_stable. intros Hne.
    destruct (Nat.lt_total (length l) (length k)) as [Hlt|[Heq|Hlt]]; [|done|].
    + destruct (lookup_lt_is_Some_2 k (length l) Hlt) as [b Hb].
      rewrite Hk, lookup_ge_None_2 in Hb; [done|lia].
    + destruct (lookup_lt_is_Some_2 l (length k) Hlt) as [a Ha].
      pose proof (Hk (length k)) as Hn. rewrite Ha, lookup_ge_None_2 in Hn; [done|lia].
  - intros i a b Ha Hb. rewrite Hk, Ha in Hb. injection Hb as <-. apply Hf.
Qed.

Lemma pair_group_same media g : same_files media (pair_group media g).
Proof.
  apply (Forall2_by_lookup same_file (λ i, mark (role_in media g i))).
  - intros i a. apply mark_same.
  - intros i. apply pair_group_lookup.
Qed.

(** A group changes its own positions only. *)
Lemma role_in_outside media g i : i ∉ g → role_in media g i = None.
Proof.
  intros Hi. destruct (role_in media g i) as [[pid r]|] eqn:Hr; [|done].
  destruct (role_in_Some _ _ _ _ _ Hr) as (im & vi & a & b & _ & _ & _ & _ & Hig & Hvg & _ & Hc & _).
  destruct Hc as [[-> _]|[-> _]]; done.
Qed.

Lemma pair_groups_lookup (groups : list ((string * string) * list nat)) media i k :
  NoDup (map fst groups) →
  (∀ k' g, (k', g) ∈ groups → i ∈ g → k' = k) →
  foldl pair_group media (map snd groups) !! i
  = mark (match lookup_by key_compare k groups with
          | Some g => role_in media g i | None => None end) <$> media !! i.
Proof.
  revert media. induction groups as [|[k0 g0] groups IH]; intros media; cbn [map fst snd foldl lookup_by].
  { intros _ _. by rewrite option_fmap_id. }
  intros [Hnew Hn]%NoDup_cons Hk.
  rewrite IH; [|done|intros k' g Hin; apply (Hk k'); by right].
  rewrite pair_group_lookup. destruct (key_compare k0 k) eqn:Hc.
  - apply (cmp_eq (c := key_compare)) in Hc as ->.
    assert (lookup_by key_compare k groups = None) as ->; [|by rewrite option_fmap_id].
    clear - Hnew. induction groups as [|[k1 g1] groups IH]; [done|].
    cbn [map fst] in Hnew. apply not_elem_of_cons in Hnew as [Hne Hnew]. cbn [lookup_by].
    destruct (key_compare k1 k) eqn:Hc; [|by apply IH..].
    apply (cmp_eq (c := key_compare)) in Hc as ->. done.
  - rewrite (role_in_outside media g0 i); [|intros Hi; specialize (Hk k0 g0 ltac:(left) Hi);
      subst k0; by rewrite (cmp_refl (c := key_compare)) in Hc].
    cbn [mark]. rewrite option_fmap_id. destruct (lookup_by key_compare k groups); [|done].
    by rewrite (role_in_same media (pair_group media g0) _ _ (pair_group_same media g0)).
  - rewrite (role_in_outside media g0 i); [|intros Hi; specialize (Hk k0 g0 ltac:(left) Hi);
      subst k0; by rewrite (cmp_refl (c := key_compare)) in Hc].
    cbn [mark]. rewrite option_fmap_id. destruct (lookup_by key_compare k groups); [|done].
    by rewrite (role_in_same media (pair_group media g0) _ _ (pair_group_same media g0)).
Qed.

(** Every file gets the role its directory and stem give it, and nothing else. *)
Lemma reconcile_live_photos_lookup media i :
  reconcile_live_photos media !! i = mark (live_role media i) <$> media !! i.
Proof.
  unfold reconcile_live_photos, live_groups. unfold live_role.
  set (groups := group_by key_compare (λ x : nat * DiscoveredMedia, live_key x.2) fst (enumerate media)).
  destruct (media !! i) as [m|] eqn:Hm.
  - rewrite (pair_groups_lookup groups media i (live_key m)).
    + rewrite Hm. unfold groups. rewrite group_by_lookup by apply _.
      change (map fst (List.filter (λ x : nat * DiscoveredMedia,
        match key_compare (live_key x.2) (live_key m) with Eq => true | _ => false end)
        (enumerate media))) with (stem_group media (live_key m)).
      destruct (stem_group media (live_key m)) eqn:Hg; [|done].
      exfalso. assert (i ∈ stem_group media (live_key m)) as Hin; [|rewrite Hg in Hin; by apply elem_of_nil in Hin].
      apply elem_of_indices_where. exists m. by rewrite (cmp_refl (c := key_compare)).
    + apply group_by_keys. apply _.
    + intros k g Hin Hi. apply group_by_elem in Hin as [-> _]; [|apply _].
      apply (elem_of_indices_where (λ m, match key_compare (live_key m) k with
        | Eq => true | _ => false end)) in Hi as (m' & Hm' & Hc).
      rewrite Hm in Hm'. injection Hm' as <-. destruct (key_compare (live_key m) k) eqn:Hk; [|done..].
      by apply (cmp_eq (c := key_compare)) in Hk.
  - assert (same_files media (foldl pair_group media (map snd groups))) as Hf.
    { generalize (map snd groups) as gs. clear. intros gs. revert media.
      induction gs as [|g gs IH]; intros media; simpl; [apply same_files_refl|].
      eapply same_files_trans; [apply pair_group_same|apply IH]. }
    apply lookup_ge_None in Hm. rewrite (Forall2_length _ _ _ Hf) in Hm.
    by apply lookup_ge_None.
Qed.

Lemma reconcile_live_photos_same media : same_files media (reconcile_live_photos media).
Proof.
  apply (Forall2_by_lookup same_file (λ i, mark (live_role media i))).
  - intros i a. apply mark_same.
  - apply reconcile_live_photos_lookup.
Qed.

Lemma reconcile_live_photos_ok media :
  Forall media_ok media → Forall media_ok (reconcile_live_photos media).
Proof.
  rewrite !Forall_lookup. intros Hm i m Hl. rewrite reconcile_live_photos_lookup in Hl.
  destruct (media !! i) as [a|] eqn:Ha; [|done]. injection Hl as <-. apply mark_ok. by eapply Hm.
Qed.
(** ** [complete] *)

Lemma strict_sorted_le l :
  StronglySorted (λ a b, diagnostic_compare a b = Lt) l → Sorted diagnostic_le l.
Proof.
  intros Hs. apply StronglySorted_Sorted. 
  induction Hs as [|a l Hs IH Ha]; constructor; [done|]. eapply Forall_impl; [exact Ha|].
  intros b Hab. unfold diagnostic_le, diagnostic_leb. by rewrite Hab.
Qed.

Lemma complete_media s :
  ss_media (complete s) = map sort_findings (reconcile_live_photos (ss_media s))
  ∧ ss_sidecars (complete s) = ss_sidecars s ∧ ss_bytes_read (complete s) = ss_bytes_read s.
Proof. done. Qed.

Lemma complete_reports s : extends_reports s (complete s).
Proof.
  split; intros d Hd; cbn [complete set_errors set_warnings set_media ss_warnings ss_errors];
    apply (elem_of_sort_dedup diagnostic_compare), elem_of_app; by left.
Qed.

Lemma complete_sorted s :
  Sorted diagnostic_le (ss_warnings (complete s)) ∧ Sorted diagnostic_le (ss_errors (complete s)).
Proof. split; apply strict_sorted_le, sort_dedup_strict; apply _. Qed.

Lemma complete_same s : same_files (ss_media s) (ss_media (complete s)).
Proof.
  destruct (complete_media s) as (-> & _). eapply same_files_trans; [apply reconcile_live_photos_same|].
  apply Forall2_fmap_r, Forall_Forall2_diag, Forall_true. intros a. apply same_file_findings.
Qed.

Lemma complete_ok s : Forall media_ok (ss_media s) → Forall media_ok (ss_media (complete s)).
Proof.
  intros Hm. destruct (complete_media s) as (-> & _). apply Forall_map.
  eapply Forall_impl; [by apply reconcile_live_photos_ok|]. apply sort_findings_ok.
Qed.

(** ** The plan *)

(** What every reconciler leaves behind. *)
Record reconciled (s : ScanState) : Prop := {
  rc_media : Forall media_ok (ss_media s);
  rc_unique : NoDup (all_paths s);
  rc_warnings : Sorted diagnostic_le (ss_warnings s);
  rc_errors : Sorted diagnostic_le (ss_errors s);
}.

Context `{!CodecLaws}.

Lemma sha256_hex_64 x : len (sha256_hex x) = 64.
Proof. unfold len, sha256_hex. rewrite hex_length, sha256_length. reflexivity. Qed.

Lemma fits_literal : fits "normalized-plan-operation-v1".
Proof. unfold fits, len, u64_max. simpl. lia. Qed.

(** What is hashed into the identifier of a file *)
Definition operation_text (m : DiscoveredMedia) : string :=
  fields ["normalized-plan-operation-v1"; dm_relative_path m; dm_content_sha256 m;
          display_u64 (dm_byte_len m)].

(** Two of the files have texts that break SHA-256. *)
Definition id_collision (l : list DiscoveredMedia) : Prop :=
  ∃ a b, a ∈ l ∧ b ∈ l ∧ collides sha256 (operation_text a) (operation_text b).

Lemma operation_id_inj a b :
  fits (dm_relative_path a) → fits (dm_relative_path b) → operation_id_of a = operation_id_of b →
  dm_relative_path a = dm_relative_path b ∨ collides sha256 (operation_text a) (operation_text b).
Proof.
  intros Ha Hb Hid. apply (sha256_hex_inj (operation_text a) (operation_text b)) in Hid as [Hid|]; [|by right].
  left. unfold operation_text in Hid. cbn [fields foldr] in Hid.
  apply framed_app_inj in Hid as [_ Hid]; [|apply fits_literal..].
  by apply framed_app_inj in Hid as [? _].
Qed.

Lemma operation_ids_unique l :
  Forall media_ok l → NoDup (map dm_relative_path l) →
  NoDup (map operation_id_of l) ∨ id_collision l.
Proof.
  induction l as [|a l IH]; intros Hok Hn; [left; constructor|].
  apply Forall_cons in Hok as [Ha Hok]. cbn [map] in Hn. apply NoDup_cons in Hn as [Hnew Hn].
  destruct (IH Hok Hn) as [IH'|(x & y & Hx & Hy & Hxy)].
  2:{ right. exists x, y. split_and!; [by right..|done]. }
  destruct (decide (operation_id_of a ∈ map operation_id_of l)) as [Hin|Hout];
    [|left; by constructor].
  right. apply elem_of_map in Hin as (b & Hid & Hb).
  rewrite Forall_forall in Hok. destruct (operation_id_inj a b (mo_fits _ Ha) (mo_fits _ (Hok _ Hb)) Hid)
    as [Hp|Hc].
  - destruct Hnew. rewrite Hp. apply elem_of_map. by exists b.
  - exists a, b. split_and!; [by left|by right|done].
Qed.

Lemma asset_of_media_ok v m :
  media_ok m → (v = 1 → dm_normalized_metadata m = None) → asset_well_formed v (candidate_of m).
Proof. intros [] Hv. split; try done. apply sha256_hex_64. Qed.

(** The assembled plan is valid, or its files break SHA-256. *)
Lemma finalize_valid v k l config s :
  reconciled s → schema_source v k → l ≠ "" →
  (v = 1 → Forall (λ m, dm_normalized_metadata m = None) (ss_media s)) →
  plan_well_formed (finalize_plan v k l config s) ∨ id_collision (ss_media s).
Proof.
  intros [Hm Hn Hw He] Hv Hl Hone. apply NoDup_app in Hn as [Hn _].
  destruct (operation_ids_unique _ Hm Hn) as [Hids|]; [|by right]. left.
  split; cbn; try done.
  - apply sha256_hex_64.
  - rewrite Forall_forall. intros a Ha. rewrite elem_of_sort_by, elem_of_map in Ha.
    destruct Ha as (m & -> & Hin). rewrite Forall_forall in Hm. apply asset_of_media_ok; [by apply Hm|].
    intros Hv1. specialize (Hone Hv1). rewrite Forall_forall in Hone. by apply Hone.
  - apply sort_by_key_strict. by rewrite map_map.
  - rewrite sort_by_perm, map_map. done.
Qed.

(** What the folder reconciler guarantees. *)
Lemma reconcile_reconciled s :
  Forall media_ok (ss_media s) → reconciled (reconcile s).
Proof.
  intros Hm. unfold reconcile.
  pose proof (sidecar_rounds (prepare s) (ss_sidecars (prepare s))) as Hr. fold (reconcile_sidecars (prepare s)) in Hr.
  destruct (complete_sorted (reconcile_sidecars (prepare s))). split; try done.
  - apply complete_ok, (sr_ok _ _ Hr). rewrite Forall_forall in *.
    intros m [Hin _]%elem_of_prepare_media. by apply Hm.
  - pose proof (prepare_unique s) as Hn. unfold all_paths, media_paths, sidecar_paths in *.
    destruct (complete_media (reconcile_sidecars (prepare s))) as (_ & -> & _).
    rewrite (same_files_paths _ _ (complete_same _)), (same_files_paths _ _ (sr_files _ _ Hr)).
    by rewrite (sr_sidecars _ _ Hr).
Qed.
End facts.
