(* ===== verification/ReconcileTheorems.v ===== *)
(** * ReconcileTheorems: what a reconciled scan promises

    Every sidecar found is attached once or reported; the pairs are exactly the
    files that stand alone with their directory and stem; the plan is valid, and
    the planners find every file and pair they ask for.  The witnesses reconcile
    a small directory with a live photo, its sidecars and an orphan. *)
From Stdlib Require Import Ascii.
From S2P Require Export ReconcileFacts.

(** ** One file of the result *)
Section result.
  Context `{UnicodeLib, Codec, TimeLib}.

Notation key_compare := (then_by String.compare fst String.compare snd).

Lemma same_file_key a b : same_file a b → live_key a = live_key b.
Proof. intros Hab. unfold live_key. by destruct (same_file_fields a b Hab) as (-> & _). Qed.

Lemma live_role_same l k i : same_files l k → live_role l i = live_role k i.
Proof.
  intros Hf. unfold live_role. destruct (l !! i) as [a|] eqn:Ha.
  - destruct (same_files_lookup _ _ _ _ Hf Ha) as (b & -> & Hab).
    rewrite (same_file_key a b Hab). unfold stem_group.
    rewrite (same_files_indices _ l k) by
      (try done; intros c d Hcd; by rewrite (same_file_key c d Hcd)).
    by apply role_in_same.
  - apply lookup_ge_None in Ha. rewrite (Forall2_length _ _ _ Hf) in Ha.
    by rewrite (proj2 (lookup_ge_None k i) Ha).
Qed.

(** The file at position [i] after reconciliation, in terms of the one before:
    its sidecars and its pair depend on the prepared files only. *)
Record reconciled_file (s : ScanState) (i : nat) (m m' : DiscoveredMedia) : Prop := {
  rf_same : same_file m m';
  rf_metadata c : c ∈ dm_metadata m' ↔ c ∈ dm_metadata m
    ∨ ∃ x, x ∈ ss_sidecars (prepare s) ∧ candidate_for (ss_media (prepare s)) i x = Some c;
  rf_live : dm_live_photo m' = match live_role (ss_media (prepare s)) i with
                               | Some (pid, r) => Some {| pair_id := pid; role := r |}
                               | None => dm_live_photo m
                               end;
  rf_normalized : dm_normalized_metadata m' = dm_normalized_metadata m;
}.

Lemma reconcile_lookup s i m :
  ss_media (prepare s) !! i = Some m →
  ∃ m', ss_media (reconcile s) !! i = Some m' ∧ reconciled_file s i m m'.
Proof.
  intros Hm. unfold reconcile. set (s1 := prepare s) in *. set (s2 := reconcile_sidecars s1).
  pose proof (sidecar_rounds s1 (ss_sidecars s1)) as Hr. fold (reconcile_sidecars s1) in Hr. fold s2 in Hr.
  destruct (reconcile_sidecars_metadata (ss_sidecars s1) s1 i m Hm) as (m2 & Hm2 & Hf & Hd).
  fold (reconcile_sidecars s1) in Hm2. fold s2 in Hm2.
  destruct (Forall2_lookup_lr _ _ _ _ _ _ (sr_live _ _ Hr) Hm Hm2) as [Hl Hn].
  destruct (complete_media s2) as (-> & _). exists (sort_findings (mark (live_role s1.(ss_media) i) m2)).
  split.
  - rewrite list_lookup_fmap, reconcile_live_photos_lookup, Hm2. simpl.
    by rewrite <- (live_role_same (ss_media s1) (ss_media s2)) by apply (sr_files _ _ Hr).
  - split.
    + etrans; [exact Hf|]. etrans; [apply mark_same|apply same_file_findings].
    + intros c. cbn [sort_findings set_findings dm_metadata]. rewrite (elem_of_sort_dedup metadata_compare).
      assert (dm_metadata (mark (live_role (ss_media s1) i) m2) = dm_metadata m2) as ->
        by (by destruct (live_role _ _) as [[]|]).
      rewrite Hd, elem_of_app. by rewrite list_elem_of_omap.
    + simpl. destruct (live_role _ _) as [[]|]; simpl; [done|by symmetry].
    + simpl. destruct (live_role _ _) as [[]|]; simpl; by symmetry.
Qed.

Lemma reconcile_same s : same_files (ss_media (prepare s)) (ss_media (reconcile s)).
Proof.
  unfold reconcile. eapply same_files_trans; [|apply complete_same].
  apply (sr_files _ _ (sidecar_rounds (prepare s) (ss_sidecars (prepare s)))).
Qed.

Lemma reconcile_elem s m' :
  m' ∈ ss_media (reconcile s) →
  ∃ i m, ss_media (prepare s) !! i = Some m ∧ ss_media (reconcile s) !! i = Some m'
    ∧ reconciled_file s i m m'.
Proof.
  intros [i Hm']%list_elem_of_lookup.
  destruct (Forall2_lookup_r _ _ _ _ _ (reconcile_same s) Hm') as (m & Hm & _).
  destruct (reconcile_lookup s i m Hm) as (m1 & Hm1 & Hf). rewrite Hm' in Hm1.
  injection Hm1 as <-. by exists i, m.
Qed.

Lemma reconcile_sidecars_kept s : ss_sidecars (reconcile s) = ss_sidecars (prepare s).
Proof.
  unfold reconcile. destruct (complete_media (reconcile_sidecars (prepare s))) as (_ & -> & _).
  apply (sr_sidecars _ _ (sidecar_rounds (prepare s) (ss_sidecars (prepare s)))).
Qed.

Lemma reconcile_unique s : NoDup (all_paths (reconcile s)).
Proof.
  pose proof (prepare_unique s) as Hn. unfold all_paths, media_paths, sidecar_paths in *.
  by rewrite reconcile_sidecars_kept, (same_files_paths _ _ (reconcile_same s)).
Qed.

Lemma all_paths_unique s : NoDup (all_paths s) → NoDup (map dm_relative_path (ss_media s))
  ∧ NoDup (map ds_relative_path (ss_sidecars s)).
Proof. unfold all_paths, media_paths, sidecar_paths. by intros (? & _ & ?)%NoDup_app. Qed.

(** Files are identified by their positions, their paths and themselves. *)
Lemma NoDup_key_inj {A} (f : A → string) l i j a b :
  NoDup (map f l) → l !! i = Some a → l !! j = Some b → f a = f b → i = j ∧ a = b.
Proof.
  intros Hn Ha Hb Hab. assert (i = j) as ->; [|by rewrite Ha in Hb; injection Hb].
  apply (NoDup_lookup _ i j (f a) Hn); rewrite list_lookup_fmap; [by rewrite Ha|by rewrite Hb, Hab].
Qed.

Lemma NoDup_key_elem {A} (f : A → string) l a b :
  NoDup (map f l) → a ∈ l → b ∈ l → f a = f b → a = b.
Proof.
  intros Hn [i Ha]%list_elem_of_lookup [j Hb]%list_elem_of_lookup Hab.
  by destruct (NoDup_key_inj f l i j a b Hn Ha Hb Hab).
Qed.
End result.

(** ** Sidecars *)

(** The sidecar stands for the file under its own name, or the file is one of
    its directory and stem. *)
Definition belongs (x : DiscoveredSidecar) (m : DiscoveredMedia) : Prop :=
  (ds_kind x = Meta_Json ∧ ds_relative_path x = dm_relative_path m +:+ ".json")
  ∨ same_stem x m = true.

Definition attached (x : DiscoveredSidecar) (m : DiscoveredMedia) : Prop :=
  ds_relative_path x ∈ map mc_relative_path (dm_metadata m).

Lemma strip_suffix_Some p s t : strip_suffix p s = Some t → s = t +:+ p.
Proof.
  revert t. induction s as [|a s IH]; intros t; cbn [strip_suffix];
    repeat case_match; intros; simplify_eq;
    try (match goal with H : String.eqb _ p = true |- _ => apply String.eqb_eq in H as <- end; done).
  - by rewrite (IH s0).
Qed.

Lemma strip_suffix_app t p : strip_suffix p (t +:+ p) = Some t.
Proof.
  assert (∀ s, strip_suffix s s = Some "") as Hself.
  { intros s. destruct s; cbn [strip_suffix]; by rewrite String.eqb_refl. }
  induction t as [|a t IH]; [apply Hself|].
  change (String a t +:+ p) with (String a (t +:+ p)). cbn [strip_suffix].
  destruct (String.eqb_spec (String a (t +:+ p)) p) as [He|]; [|by rewrite IH].
  exfalso. apply (f_equal String.length) in He. cbn [String.length] in He.
  rewrite length_str_app in He. lia.
Qed.

Section sidecars.
  Context `{UnicodeLib, Codec, TimeLib}.

Lemma sidecar_target_belongs media x i rule :
  sidecar_target media x = Some (i, rule) → ∃ m, media !! i = Some m ∧ belongs x m.
Proof.
  unfold sidecar_target. destruct (exact_match media x) as [j|] eqn:He.
  - intros [= <- _]. unfold exact_match in He. apply bind_Some in He as (t & Ht & He).
    apply position_Some in He as (m & Hm & Hp). exists m. split; [done|]. left.
    apply String.eqb_eq in Hp as ->. destruct (ds_kind x); [|done].
    by apply strip_suffix_Some in Ht.
  - unfold basename_candidates. set (found := indices_where (same_stem x) media).
    assert (∀ k, k ∈ found → ∃ m, media !! k = Some m ∧ belongs x m) as Hk.
    { intros k Hk. apply elem_of_indices_where in Hk as (m & Hm & Hs). exists m. by split; [|right]. }
    destruct (Nat.eqb _ 1).
    + destruct (List.filter _ found) as [|k []] eqn:Hf; [done| |done]. intros [= <- _]. apply Hk.
      apply (elem_of_List_filter (λ index, is_some_and (media !! index) is_image)).
      rewrite Hf. left.
    + destruct found as [|k []] eqn:Hf; [done| |done]. intros [= <- _]. apply Hk. left.
Qed.

(** A file with the sidecar's own name is its only target. *)
Lemma sidecar_target_exact media x i m :
  NoDup (map dm_relative_path media) → media !! i = Some m → ds_kind x = Meta_Json →
  ds_relative_path x = dm_relative_path m +:+ ".json" →
  sidecar_target media x = Some (i, rule_id.SIDECAR_EXACT_NAME).
Proof.
  intros Hn Hm Hk Hp. unfold sidecar_target, exact_match. rewrite Hk, Hp, strip_suffix_app. simpl.
  destruct (position _ media) as [j|] eqn:Hj.
  - apply position_Some in Hj as (m1 & Hm1 & He). apply String.eqb_eq in He.
    by destruct (NoDup_key_inj dm_relative_path media j i m1 m Hn Hm1 Hm He) as [-> _].
  - exfalso. unfold position in Hj. apply head_None in Hj.
    assert (i ∈ indices_where (λ m0, String.eqb (dm_relative_path m0) (dm_relative_path m)) media) as Hin.
    { apply elem_of_indices_where. exists m. by rewrite String.eqb_refl. }
    rewrite Hj in Hin. by apply elem_of_nil in Hin.
Qed.

Lemma attached_iff s x i m m' :
  dm_metadata m = [] → x ∈ ss_sidecars s → ss_media (prepare s) !! i = Some m →
  reconciled_file s i m m' →
  attached x m' ↔ unique s (ds_relative_path x) = true
    ∧ ∃ rule, sidecar_target (ss_media (prepare s)) x = Some (i, rule).
Proof.
  intros Hnil Hx Hm Hf. unfold attached. rewrite elem_of_map. split.
  - intros (c & Hp & Hc). apply (rf_metadata _ _ _ _ Hf) in Hc as [Hc|(y & Hy & Hc)].
    { rewrite Hnil in Hc. by apply elem_of_nil in Hc. }
    unfold candidate_for in Hc. destruct (sidecar_target _ y) as [[j rule]|] eqn:Ht; [|done].
    destruct (Nat.eqb_spec i j) as [<-|]; [|done]. injection Hc as <-. simpl in Hp.
    pose proof Hy as Hy'. apply elem_of_prepare_sidecars in Hy' as [_ Hu]. rewrite <- Hp in Hu.
    split; [done|]. assert (x = y) as ->; [|by exists rule].
    assert (x ∈ ss_sidecars (prepare s)) as Hx' by (by apply elem_of_prepare_sidecars).
    destruct (all_paths_unique _ (prepare_unique s)) as [_ Hn].
    by apply (NoDup_key_elem ds_relative_path (ss_sidecars (prepare s))).
  - intros [Hu [rule Ht]]. exists (candidate x rule). split; [done|].
    apply (rf_metadata _ _ _ _ Hf). right. exists x. split; [by apply elem_of_prepare_sidecars|].
    unfold candidate_for. by rewrite Ht, Nat.eqb_refl.
Qed.

(** A path two files share is reported by [prepare]. *)
Lemma collision_reported s p :
  p ∈ all_paths s → unique s p = false → reported p (prepare s).
Proof.
  intros Hp Hu. unfold unique in Hu. apply negb_false_iff in Hu.
  apply existsb_exists in Hu as (q & Hq & He). apply String.eqb_eq in He as <-.
  exists (diagnostic rule_id.UNICODE_COLLISION "native_paths_share_nfc_path" [p]). split; [simpl; left|].
  right. destruct (prepare_media s) as (_ & _ & -> & _). apply elem_of_app. right.
  apply elem_of_map. exists p. split; [done|]. by apply list_elem_of_In.
Qed.

Lemma prepared_reports s : extends_reports (prepare s) (reconcile s).
Proof.
  unfold reconcile. pose proof (sr_reports _ _ (sidecar_rounds (prepare s) (ss_sidecars (prepare s)))) as Hr.
  fold (reconcile_sidecars (prepare s)) in Hr. pose proof (complete_reports (reconcile_sidecars (prepare s))) as Hc.
  unfold extends_reports in *. naive_solver.
Qed.

Lemma untargeted_reported s x :
  x ∈ ss_sidecars (prepare s) → sidecar_target (ss_media (prepare s)) x = None →
  reported (ds_relative_path x) (reconcile s).
Proof.
  intros Hx Ht. unfold reconcile. eapply reported_extends; [apply complete_reports|].
  unfold reconcile_sidecars. by apply reconcile_sidecars_reported.
Qed.

(** The cases of a sidecar at one file of the result. *)
Lemma attached_at s x m' :
  Forall (λ m, dm_metadata m = []) (ss_media s) → x ∈ ss_sidecars s →
  m' ∈ ss_media (reconcile s) →
  ∃ i m, ss_media (prepare s) !! i = Some m
    ∧ ss_media (reconcile s) !! i = Some m' ∧ reconciled_file s i m m'
    ∧ (attached x m' ↔ unique s (ds_relative_path x) = true
       ∧ ∃ rule, sidecar_target (ss_media (prepare s)) x = Some (i, rule)).
Proof.
  intros Hnil Hx (i & m & Hm & Hm' & Hf)%reconcile_elem. exists i, m.
  split; [done|]. split; [done|]. split; [done|].
  apply (attached_iff s x i m m'); try done.
  apply list_elem_of_lookup_2, elem_of_prepare_media in Hm as [Hm _].
  rewrite Forall_forall in Hnil. by apply Hnil.
Qed.

(** C36: no sidecar is lost and none is used twice: after reconciliation every
    sidecar discovery found is either attached to exactly one media file, which
    has the sidecar's name without [.json] or its directory and stem, or it is
    attached to none and its path stands in a diagnostic; and a file of exactly
    the sidecar's name wins over any other. *)
Theorem sidecars_accounted s x :
  Forall (λ m, dm_metadata m = []) (ss_media s) → x ∈ ss_sidecars s →
  (∃ m, m ∈ ss_media (reconcile s) ∧ belongs x m
    ∧ (∀ m', m' ∈ ss_media (reconcile s) → attached x m' ↔ m' = m)
    ∧ ∀ m', m' ∈ ss_media (reconcile s) → ds_kind x = Meta_Json →
        ds_relative_path x = dm_relative_path m' +:+ ".json" → m' = m)
  ∨ (reported (ds_relative_path x) (reconcile s)
     ∧ ∀ m', m' ∈ ss_media (reconcile s) → ¬ attached x m').
Proof.
  intros Hnil Hx. pose proof (λ m', attached_at s x m' Hnil Hx) as Hall.
  destruct (unique s (ds_relative_path x)) eqn:Hu.
  2:{ right. split.
    - eapply reported_extends; [apply prepared_reports|]. apply collision_reported; [|done].
      apply elem_of_app. right. apply elem_of_map. by exists x.
    - intros m' (i & m & _ & _ & _ & Ha)%Hall. rewrite Ha. by intros [? _]. }
  destruct (sidecar_target (ss_media (prepare s)) x) as [[i rule]|] eqn:Ht.
  2:{ right. split.
    - apply untargeted_reported; [|done]. by apply elem_of_prepare_sidecars.
    - intros m' (j & m0 & _ & _ & _ & Ha)%Hall. rewrite Ha. by intros [_ [? ?]]. }
  left. destruct (sidecar_target_belongs _ x i rule Ht) as (m & Hm & Hb).
  destruct (reconcile_lookup s i m Hm) as (m1 & Hm1 & Hf). exists m1.
  destruct (same_file_fields m m1 (rf_same _ _ _ _ Hf)) as (Hpath & _).
  split; [by apply list_elem_of_lookup_2 in Hm1|].
  split; [unfold belongs, same_stem in *; by rewrite <- Hpath|]. split.
  - intros m' (j & m0 & Hj & Hj' & _ & Ha)%Hall. rewrite Ha. split.
    + intros [_ [rule' [= <- _]]]. rewrite Hm1 in Hj'. by injection Hj'.
    + intros ->. split; [done|]. exists rule.
      destruct (all_paths_unique _ (reconcile_unique s)) as [Hn _].
      by destruct (NoDup_key_inj dm_relative_path _ i j m1 m1 Hn Hm1 Hj' eq_refl) as [<- _].
  - intros m' (j & m0 & Hj & Hj' & Hf0 & _)%Hall Hk Hp.
    destruct (same_file_fields m0 m' (rf_same _ _ _ _ Hf0)) as (Hpath0 & _).
    rewrite <- Hpath0 in Hp.
    destruct (all_paths_unique _ (prepare_unique s)) as [Hn _].
    rewrite (sidecar_target_exact _ x j m0 Hn Hj Hk Hp) in Ht. injection Ht as <- _.
    rewrite Hm1 in Hj'. by injection Hj'.
Qed.
End sidecars.

(** ** Live photos *)

(** The pair of an image and a motion video that are alone of their kind with
    their directory and stem. *)
Record live_pair `{UnicodeLib} (media : list DiscoveredMedia) (a b : DiscoveredMedia) : Prop := {
  lp_image : a ∈ media ∧ is_image a = true;
  lp_video : b ∈ media ∧ is_motion_video b = true;
  lp_key : live_key b = live_key a;
  lp_only_image c : c ∈ media → live_key c = live_key a → is_image c = true → c = a;
  lp_only_video c : c ∈ media → live_key c = live_key a → is_motion_video c = true → c = b;
}.

Lemma singleton_iff (l : list nat) i : NoDup l → (∀ j, j ∈ l ↔ j = i) → l = [i].
Proof.
  intros Hn Hl. destruct l as [|j [|k l]].
  - assert (i ∈ []) as Hi by (by apply Hl). by apply elem_of_nil in Hi.
  - f_equal. apply Hl. left.
  - assert (j = i) as -> by (apply Hl; left). assert (k = i) as -> by (apply Hl; right; left).
    apply NoDup_cons in Hn as [Hn _]. destruct Hn. left.
Qed.

Section live.
  Context `{UnicodeLib, Codec, TimeLib}.

Notation key_compare := (then_by String.compare fst String.compare snd).

Lemma key_test (a b : string * string) :
  match key_compare a b with Eq => true | _ => false end = true ↔ a = b.
Proof.
  split.
  - destruct (key_compare a b) eqn:Hc; [|done..]. intros _. by apply (cmp_eq (c := key_compare)) in Hc.
  - intros ->. by rewrite (cmp_refl (c := key_compare)).
Qed.

Lemma elem_of_stem_group media key i :
  i ∈ stem_group media key ↔ ∃ m, media !! i = Some m ∧ live_key m = key.
Proof.
  unfold stem_group. rewrite (elem_of_indices_where (λ m, match key_compare (live_key m) key with
    | Eq => true | _ => false end)).
  by setoid_rewrite key_test.
Qed.

Lemma stem_group_NoDup media key : NoDup (stem_group media key).
Proof.
  unfold stem_group, indices_where. apply NoDup_map_filter. unfold enumerate.
  change (map fst ?l) with (fst <$> l). rewrite fst_zip by (rewrite length_seq; lia).
  apply NoDup_seq.
Qed.

(** The two filters of a group, when each is one position. *)
Lemma group_filter media (p : DiscoveredMedia → bool) key i a :
  media !! i = Some a → live_key a = key → p a = true →
  NoDup (map dm_relative_path media) →
  (∀ c, c ∈ media → live_key c = key → p c = true → c = a) →
  List.filter (λ j, is_some_and (media !! j) p) (stem_group media key) = [i].
Proof.
  intros Ha Hk Hp Hn Honly. apply singleton_iff.
  - rewrite <- (map_id (List.filter _ _)). apply NoDup_map_filter. rewrite map_id. apply stem_group_NoDup.
  - intros j. rewrite (elem_of_List_filter (λ j, is_some_and (media !! j) p)), elem_of_stem_group.
    split.
    + intros [(m & Hm & Hkm) Hpm]. rewrite Hm in Hpm.
      assert (m = a) as -> by (apply Honly; [by apply list_elem_of_lookup_2 in Hm|done|done]).
      by destruct (NoDup_key_inj dm_relative_path media j i a a Hn Hm Ha eq_refl).
    + intros ->. rewrite Ha. split; [by exists a|done].
Qed.

Lemma singleton_filter media (p : DiscoveredMedia → bool) key i a c :
  List.filter (λ j, is_some_and (media !! j) p) (stem_group media key) = [i] →
  media !! i = Some a → c ∈ media → live_key c = key → p c = true → c = a.
Proof.
  intros Hf Ha [j Hc]%list_elem_of_lookup Hk Hp.
  assert (j ∈ [i]) as Hj.
  { rewrite <- Hf. apply (elem_of_List_filter (λ j, is_some_and (media !! j) p)).
    rewrite elem_of_stem_group, Hc. split; [by exists c|done]. }
  apply elem_of_cons in Hj as [->|Hj]; [congruence|by apply elem_of_nil in Hj].
Qed.

(** The role of a file is its part of the pair it belongs to. *)
Lemma live_role_iff media i m pid r :
  NoDup (map dm_relative_path media) → media !! i = Some m →
  live_role media i = Some (pid, r) ↔
  ∃ a b, live_pair media a b ∧ pid = live_pair_id (dm_relative_path a) (dm_relative_path b)
    ∧ (m = a ∧ r = Live_Image ∨ m = b ∧ r = Live_Video).
Proof.
  intros Hn Hm. unfold live_role. rewrite Hm. split.
  - unfold role_in. destruct (List.filter _ _) as [|image []] eqn:Hi; [done| |done].
    destruct (List.filter (λ i, is_some_and (media !! i) is_motion_video) _) as [|video []] eqn:Hv;
      [done| |done].
    assert (image ∈ [image]) as Hig by left. rewrite <- Hi in Hig.
    apply (elem_of_List_filter (λ i, is_some_and (media !! i) is_image)) in Hig as [Hig Hia].
    assert (video ∈ [video]) as Hvg by left. rewrite <- Hv in Hvg.
    apply (elem_of_List_filter (λ i, is_some_and (media !! i) is_motion_video)) in Hvg as [Hvg Hvb].
    apply elem_of_stem_group in Hig as (a & Ha & Hka). apply elem_of_stem_group in Hvg as (b & Hb & Hkb).
    rewrite Ha in Hia |- *. rewrite Hb in Hvb |- *. simpl in Hia, Hvb. intros Hr.
    exists a, b. split.
    { split; [split; [by apply list_elem_of_lookup_2 in Ha|done]
             |split; [by apply list_elem_of_lookup_2 in Hb|done]|congruence|..].
      - intros c Hc Hk Hp. apply (singleton_filter media is_image (live_key m) image); congruence.
      - intros c Hc Hk Hp. apply (singleton_filter media is_motion_video (live_key m) video); congruence. }
    destruct (Nat.eqb_spec i image) as [->|]; [|destruct (Nat.eqb_spec i video) as [->|]; [|done]].
    + injection Hr as <- <-. split; [done|left]. by rewrite Hm in Ha; injection Ha.
    + injection Hr as <- <-. split; [done|right]. by rewrite Hm in Hb; injection Hb.
  - intros (a & b & Hp & -> & Hcase). destruct Hp as [[[ia Hia]%list_elem_of_lookup Ha]
      [[ib Hib]%list_elem_of_lookup Hb] Hk Honlya Honlyb].
    assert (live_key m = live_key a) as Hkm by (destruct Hcase as [[-> _]|[-> _]]; congruence).
    unfold role_in. rewrite Hkm, (group_filter media is_image _ ia a), (group_filter media is_motion_video _ ib b)
      by done.
    rewrite Hia, Hib. destruct Hcase as [[-> ->]|[-> ->]].
    + destruct (NoDup_key_inj dm_relative_path media i ia a a Hn Hm Hia eq_refl) as [-> _].
      by rewrite Nat.eqb_refl.
    + destruct (NoDup_key_inj dm_relative_path media i ib b b Hn Hm Hib eq_refl) as [-> _].
      rewrite Nat.eqb_refl. destruct (Nat.eqb_spec ib ia) as [->|]; [|done].
      rewrite Hia in Hib. injection Hib as ->. exfalso.
      unfold is_image, is_motion_video in *. apply andb_true_iff in Hb as [Hb _].
      rewrite bool_decide_eq_true in Ha, Hb. congruence.
Qed.

(** Pairs are the same before and after reconciliation, up to what was found. *)
Lemma live_pair_same l k : same_files l k → NoDup (map dm_relative_path l) →
  ∀ a b, live_pair k a b → ∃ a' b', live_pair l a' b' ∧ same_file a' a ∧ same_file b' b.
Proof.
  intros Hf Hn a b [[Ha Hia] [Hb Hib] Hk Hoa Hob].
  assert (∀ c, c ∈ k → ∃ c', c' ∈ l ∧ same_file c' c) as Hback.
  { intros c [i Hc]%list_elem_of_lookup. destruct (Forall2_lookup_r _ _ _ _ _ Hf Hc) as (c' & Hc' & ?).
    exists c'. split; [by apply list_elem_of_lookup_2 in Hc'|done]. }
  assert (∀ c, c ∈ l → ∃ c', c' ∈ k ∧ same_file c c') as Hforth.
  { intros c [i Hc]%list_elem_of_lookup. destruct (Forall2_lookup_l _ _ _ _ _ Hf Hc) as (c' & Hc' & ?).
    exists c'. split; [by apply list_elem_of_lookup_2 in Hc'|done]. }
  destruct (Hback a Ha) as (a' & Ha' & Hsa). destruct (Hback b Hb) as (b' & Hb' & Hsb).
  exists a', b'. split; [|done].
  assert (∀ c c1 c2, c ∈ l → c2 ∈ l → same_file c c1 → same_file c2 c1 → c = c2) as Hinj.
  { intros c c1 c2 Hc Hc2 (Hp & _)%same_file_fields (Hp2 & _)%same_file_fields.
    apply (NoDup_key_elem dm_relative_path l); [done..|congruence]. }
  pose proof (same_file_key a' a Hsa). pose proof (same_file_key b' b Hsb).
  split.
  - split; [done|]. by rewrite (same_file_image a' a Hsa).
  - split; [done|]. by rewrite (same_file_motion b' b Hsb).
  - congruence.
  - intros c Hc Hkc Hi. destruct (Hforth c Hc) as (c1 & Hc1 & Hs).
    rewrite (same_file_image c c1 Hs) in Hi. pose proof (same_file_key c c1 Hs).
    assert (c1 = a) as -> by (apply Hoa; congruence). by apply (Hinj c a a').
  - intros c Hc Hkc Hi. destruct (Hforth c Hc) as (c1 & Hc1 & Hs).
    rewrite (same_file_motion c c1 Hs) in Hi. pose proof (same_file_key c c1 Hs).
    assert (c1 = b) as -> by (apply Hob; congruence). by apply (Hinj c b b').
Qed.

(** The part a file of the result plays, if any. *)
Definition plays (media : list DiscoveredMedia) (m : DiscoveredMedia) (l : LivePhotoMember) : Prop :=
  ∃ a b, live_pair media a b
    ∧ pair_id l = live_pair_id (dm_relative_path a) (dm_relative_path b)
    ∧ (m = a ∧ role l = Live_Image ∨ m = b ∧ role l = Live_Video).

Lemma plays_same l k m m' member :
  same_files l k → NoDup (map dm_relative_path l) → NoDup (map dm_relative_path k) →
  m ∈ l → m' ∈ k → same_file m m' → plays l m member ↔ plays k m' member.
Proof.
  intros Hf Hl Hk Hm Hm' Hs.
  assert (∀ l k m m', same_files l k → NoDup (map dm_relative_path l) →
    NoDup (map dm_relative_path k) → m ∈ l → m' ∈ k → same_file m m' →
    plays k m' member → plays l m member) as Hone.
  { clear. intros l k m m' Hf Hl Hk Hm Hm' Hs (a & b & Hp & Hid & Hcase).
    destruct (live_pair_same l k Hf Hl a b Hp) as (a' & b' & Hp' & Hsa & Hsb). exists a', b'.
    destruct (same_file_fields _ _ Hsa) as (-> & _). destruct (same_file_fields _ _ Hsb) as (-> & _).
    split_and!; [done..|].
    assert (∀ c c', c' ∈ l → same_file c' c → m' = c → m = c') as Hinj.
    { intros c c' Hc Hcs ->. apply (NoDup_key_elem dm_relative_path l); [done..|].
      destruct (same_file_fields _ _ Hs) as (-> & _). by destruct (same_file_fields _ _ Hcs) as (-> & _). }
    destruct Hp' as [[Ha _] [Hb _] _ _ _].
    destruct Hcase as [[Hma Hr]|[Hmb Hr]]; [left|right]; eauto. }
  split; [|by apply Hone].
  apply Hone; [|done..|by symmetry]. unfold same_files in *. apply Forall2_flip.
  eapply Forall2_impl; [exact Hf|]. intros x y Hxy. by symmetry.
Qed.
End live.

Section plan.
  Context `{UnicodeLib, Codec, TimeLib}.

(** C37: the live photos of a reconciled scan are exactly the pairs: a media file
    is a member if and only if it is the image or the motion video of a pair, an
    image and a [.mov] video each alone of its kind with their directory and
    stem, and then it has the identity of that pair and the role of its kind. *)
Theorem live_photos_exact s m member :
  Forall (λ m, dm_live_photo m = None) (ss_media s) → m ∈ ss_media (reconcile s) →
  dm_live_photo m = Some member ↔ plays (ss_media (reconcile s)) m member.
Proof.
  intros Hnone Hin. pose proof Hin as (i & m0 & Hm0 & Hm & Hf)%reconcile_elem.
  destruct (all_paths_unique _ (prepare_unique s)) as [Hn _].
  destruct (all_paths_unique _ (reconcile_unique s)) as [Hn' _].
  rewrite <- (plays_same (ss_media (prepare s)) _ m0) by
    (apply reconcile_same || apply (rf_same _ _ _ _ Hf) || done || by apply list_elem_of_lookup_2 in Hm0).
  assert (dm_live_photo m0 = None) as Hm0n.
  { apply list_elem_of_lookup_2, elem_of_prepare_media in Hm0 as [Hin0 _].
    rewrite Forall_forall in Hnone. by apply Hnone. }
  rewrite (rf_live _ _ _ _ Hf), Hm0n. unfold plays. destruct member as [pid r]. cbn [pair_id role].
  rewrite <- (live_role_iff (ss_media (prepare s)) i m0 pid r Hn Hm0).
  destruct (live_role (ss_media (prepare s)) i) as [[pid' r']|]; split; intros Heq;
    by simplify_eq.
Qed.

(** *** The plan and its files *)

Context `{!CodecLaws}.
Variables (schema_version : Z) (source_kind : SourceKind) (source_label : string)
  (config : FolderScanConfig).
Notation finished s := {|
  rfp_plan := finalize_plan schema_version source_kind source_label config (reconcile s);
  rfp_files := resolved_files (reconcile s) |}.

Lemma elem_of_assets s a :
  a ∈ np_assets (rfp_plan (finished s)) ↔ ∃ m, a = candidate_of m ∧ m ∈ ss_media (reconcile s).
Proof. cbn [rfp_plan finalize_plan np_assets]. by rewrite elem_of_sort_by, elem_of_map. Qed.

Lemma resolved_file s p f :
  (p, f) ∈ map (λ media, (dm_relative_path media, media_file media)) (ss_media (reconcile s))
      ++ map (λ sidecar, (ds_relative_path sidecar, sidecar_file sidecar)) (ss_sidecars (reconcile s)) →
  source_file (finished s) p = Some f.
Proof.
  intros Hin. unfold source_file. cbn [rfp_files]. unfold resolved_files.
  apply collect_map_Some; [|by exists (p, f)].
  rewrite map_app, !map_map. apply (reconcile_unique s).
Qed.

Lemma finish_state_Ok s plan_files :
  finish_state schema_version source_kind source_label config (reconcile s) = Ok plan_files →
  plan_files = finished s.
Proof.
  unfold finish_state, finish_resolved. destruct (Planning.validate _); simpl; [|done]. by intros [= <-].
Qed.

Lemma finish_state_reconciled s :
  reconciled s → schema_source schema_version source_kind → source_label ≠ "" →
  (schema_version = 1 → Forall (λ m, dm_normalized_metadata m = None) (ss_media s)) →
  finish_state schema_version source_kind source_label config s
  = Ok {| rfp_plan := finalize_plan schema_version source_kind source_label config s;
          rfp_files := resolved_files s |}
  ∨ id_collision (ss_media s).
Proof.
  intros Hr Hv Hl Hnone.
  destruct (finalize_valid schema_version source_kind source_label config s Hr Hv Hl Hnone) as [Hwf|];
    [left|by right].
  unfold finish_state, finish_resolved. by rewrite (proj2 (normalized_validate_Ok _) Hwf).
Qed.

Lemma finished_valid s resolved :
  finish_state schema_version source_kind source_label config s = Ok resolved →
  plan_well_formed (rfp_plan resolved).
Proof.
  unfold finish_state, finish_resolved. destruct (Planning.validate _) as [[]|] eqn:Hv; [|done].
  intros [= <-]. by apply normalized_validate_Ok.
Qed.

(** Every asset of a finished state has its file, with its length and digest. *)
Lemma finished_source s resolved a :
  NoDup (all_paths s) → finish_state schema_version source_kind source_label config s = Ok resolved →
  a ∈ np_assets (rfp_plan resolved) →
  ∃ f, source_for resolved (ca_relative_path a) (ca_byte_len a) (ca_content_sha256 a) = Ok f.
Proof.
  intros Hr Hf Ha. unfold finish_state, finish_resolved in Hf.
  destruct (Planning.validate _) as [[]|] eqn:Hv; [|done]. injection Hf as <-.
  cbn [rfp_plan finalize_plan np_assets] in Ha.
  rewrite elem_of_sort_by, elem_of_map in Ha. destruct Ha as (m & -> & Hin).
  exists (media_file m). apply source_for_Ok. split; [|done]. unfold source_file. cbn [rfp_files].
  apply collect_map_Some.
  - by rewrite map_app, !map_map.
  - exists (dm_relative_path m, media_file m). split; [|done]. apply elem_of_app. left.
    apply elem_of_map. by exists m.
Qed.

(** A folder scan never produces an invalid plan: what discovery guarantees of
    every media file (a path, a 64-character digest, rule identifiers) is enough
    for the assembled plan to pass [Planning.validate], with sorted unique paths,
    distinct operation identifiers and the counts of its summary; the identifiers
    can only coincide if two of the files break SHA-256. *)
Lemma finish_state_valid s :
  Forall media_ok (ss_media s) →
  Forall (λ m, dm_normalized_metadata m = None) (ss_media s) →
  schema_source schema_version source_kind → source_label ≠ "" →
  finish_state schema_version source_kind source_label config (reconcile s) = Ok (finished s)
  ∨ id_collision (ss_media (reconcile s)).
Proof.
  intros Hok Hnone Hv Hl. apply finish_state_reconciled; [by apply reconcile_reconciled|done|done|].
  intros _. rewrite Forall_forall. intros m (i & m0 & Hm0 & _ & Hf)%reconcile_elem.
  rewrite (rf_normalized _ _ _ _ Hf).
  apply list_elem_of_lookup_2, elem_of_prepare_media in Hm0 as [Hin _].
  rewrite Forall_forall in Hnone. by apply Hnone.
Qed.

(** The plan of a scan and its files fit together: for every asset the planners
    find its file with the planned length and digest, for every metadata candidate
    the file of its sidecar, and for every live photo the upload of its video; so
    planning never fails with an invariant error on a finished folder scan. *)
Theorem scan_feeds_planner s resolved a :
  Forall (λ m, dm_metadata m = [] ∧ dm_live_photo m = None) (ss_media s) →
  finish_state schema_version source_kind source_label config (reconcile s) = Ok resolved →
  a ∈ np_assets (rfp_plan resolved) →
  (∃ f, source_for resolved (ca_relative_path a) (ca_byte_len a) (ca_content_sha256 a) = Ok f)
  ∧ (∀ c, c ∈ ca_metadata a → ∃ sidecar, sidecar_for resolved c = Ok (Some sidecar))
  ∧ ∃ r, upload_role a (live_video_operations resolved) = Ok r.
Proof.
  intros Hnil ->%finish_state_Ok Ha. pose proof Ha as (m & -> & Hin)%elem_of_assets.
  assert (∀ m0, m0 ∈ ss_media (prepare s) → dm_metadata m0 = [] ∧ dm_live_photo m0 = None) as Hnil0.
  { intros m0 [Hin0 _]%elem_of_prepare_media. rewrite Forall_forall in Hnil. by apply Hnil. }
  pose proof Hin as (i & m0 & Hm0 & Hm & Hf)%reconcile_elem.
  pose proof (Hnil0 m0 ltac:(by apply list_elem_of_lookup_2 in Hm0)) as [Hmeta Hlive].
  split; [|split].
  - exists (media_file m). apply source_for_Ok. split; [|done]. apply resolved_file, elem_of_app. left.
    apply elem_of_map. by exists m.
  - intros c Hc. apply (rf_metadata _ _ _ _ Hf) in Hc as [Hc|(x & Hx & Hc)].
    { rewrite Hmeta in Hc. by apply elem_of_nil in Hc. }
    assert (c = candidate x (mc_rule_id c)) as ->.
    { unfold candidate_for in Hc. repeat case_match; by simplify_eq. }
    unfold sidecar_for. cbn [candidate mc_relative_path].
    rewrite (resolved_file s (ds_relative_path x) (sidecar_file x)); [by eexists|].
    apply elem_of_app. right. apply elem_of_map. exists x. by rewrite reconcile_sidecars_kept.
  - unfold upload_role. cbn [candidate_of ca_live_photo].
    rewrite (rf_live _ _ _ _ Hf), Hlive.
    destruct (live_role _ i) as [[pid r]|] eqn:Hr; [|by eexists]. destruct r; [|by eexists].
    cbn [role pair_id].
    destruct (all_paths_unique _ (prepare_unique s)) as [Hn _].
    pose proof Hr as (p & v & Hp & -> & _)%(live_role_iff _ i m0 _ _ Hn Hm0).
    destruct (lp_video _ _ _ Hp) as [[j Hj]%list_elem_of_lookup _].
    assert (live_role (ss_media (prepare s)) j
      = Some (live_pair_id (dm_relative_path p) (dm_relative_path v), Live_Video)) as Hrj.
    { apply (live_role_iff _ j v _ _ Hn Hj). exists p, v. split_and!; auto. }
    destruct (reconcile_lookup s j v Hj) as (v' & Hv' & Hfv).
    destruct (live_video_operations_is_Some (finished s)
      (live_pair_id (dm_relative_path p) (dm_relative_path v)) (candidate_of v')) as [op ->];
      [| |by eexists].
    + apply elem_of_assets. exists v'. split; [done|]. by apply list_elem_of_lookup_2 in Hv'.
    + eexists. cbn [candidate_of ca_live_photo]. rewrite (rf_live _ _ _ _ Hfv), Hrj. done.
Qed.
End plan.

(** ** Witnesses *)

(** A codec whose digest tells texts of the same beginning apart. *)
Definition checksum (s : string) : Z :=
  foldl (λ h a, (257 * h + code a) mod (2 ^ 61 - 1)) 7 (bytes s).
Definition checksum_codec : Codec := {|
  json_normalized_plan p := Some (display_u64 (zlen (np_assets p)));
  json_upload_plan p := Some (display_u64 (zlen (up_operations p)));
  json_migration_plan p := Some (display_u64 (zlen (mp_assets p)));
  json_configuration c := Some (display_u64 (ci_concurrency c));
  sha256 s := pad32 (display_u64 (checksum s));
  sha1_base64 s := s;
|}.

#[export] Instance checksum_codec_laws : CodecLaws (H := checksum_codec).
Proof.
  split. intros s. apply substring_length. rewrite length_str_app. cbn [String.length]. lia.
Qed.

Section witnesses.
  #[local] Existing Instances checksum_codec sample_time.

(** A table for ASCII paths: they are normalized, and have ASCII lower case. *)
Definition sample_unicode : UnicodeLib := {| nfc := id; to_lowercase := to_ascii_lowercase |}.
#[local] Existing Instance sample_unicode.

Definition sample_media (path : string) (k : MediaKind) (content : string) : DiscoveredMedia := {|
  dm_native_path := "/photos/" +:+ path; dm_archive_index := None; dm_relative_path := path;
  dm_kind := k; dm_byte_len := 1; dm_content_sha256 := sha256_hex content;
  dm_content_sha1_base64 := ""; dm_created_at_unix_ms := None; dm_modified_at_unix_ms := None;
  dm_metadata := []; dm_normalized_metadata := None; dm_live_photo := None;
  dm_evidence := [{| re_rule_id := rule_id.REGULAR_MEDIA; outcome := "streamed_content_identity" |}] |}.

Definition sample_found (path : string) (k : MetadataKind) : DiscoveredSidecar := {|
  ds_native_path := "/photos/" +:+ path; ds_archive_index := None; ds_relative_path := path;
  ds_kind := k; ds_byte_len := 1; ds_content_sha256 := sha256_hex path; ds_content_sha1_base64 := "";
  ds_created_at_unix_ms := None; ds_modified_at_unix_ms := None; ds_takeout_document := None;
  ds_takeout_parse_error := None |}.

(** A live photo with a sidecar of its image, and an orphan. *)
Definition sample_state : ScanState :=
  set_sidecars (λ _, [sample_found "a/IMG.jpg.json" Meta_Json; sample_found "lost.xmp" Meta_Xmp])
    (set_media (λ _, [sample_media "a/IMG.mov" Media_Video "v"; sample_media "a/IMG.jpg" Media_Image "i"])
       new_scan).

Definition sample_folder_config : FolderScanConfig := {|
  fsc_buffer_bytes := 65536; fsc_max_entries := 100; fsc_max_directory_entries := 10;
  fsc_max_path_bytes := 4096; fsc_case_sensitive := true |}.

Example sample_live :
  map dm_live_photo (ss_media (reconcile sample_state))
  = [Some {| pair_id := live_pair_id "a/IMG.jpg" "a/IMG.mov"; role := Live_Image |};
     Some {| pair_id := live_pair_id "a/IMG.jpg" "a/IMG.mov"; role := Live_Video |}].
Proof. vm_compute. reflexivity. Qed.

Definition sample_resolved : ResolvedFolderPlan := {|
  rfp_plan := finalize_plan 1 Folder "photos" sample_folder_config (reconcile sample_state);
  rfp_files := resolved_files (reconcile sample_state) |}.

Lemma sample_media_ok path k content :
  path ≠ "" → (String.length path < 100)%nat → media_ok (sample_media path k content).
Proof.
  intros Hp Hl. split; simpl; try done.
  - unfold fits, len, u64_max. lia.
  - apply sha256_hex_64.
  - repeat constructor; discriminate.
Qed.

Lemma sample_state_ok : Forall media_ok (ss_media sample_state).
Proof.
  change (Forall media_ok [sample_media "a/IMG.mov" Media_Video "v"; sample_media "a/IMG.jpg" Media_Image "i"]).
  apply Forall_cons; split; [|apply Forall_cons; split; [|by apply Forall_nil]];
    (apply sample_media_ok; [discriminate|simpl; lia]).
Qed.

Lemma sample_state_new :
  Forall (λ m, dm_metadata m = [] ∧ dm_live_photo m = None) (ss_media sample_state).
Proof. repeat constructor. Qed.

Lemma sample_finish :
  finish_state 1 Folder "photos" sample_folder_config (reconcile sample_state) = Ok sample_resolved.
Proof. vm_compute. reflexivity. Qed.

Lemma sidecars_accounted_witness :
  let x := sample_found "a/IMG.jpg.json" Meta_Json in
  x ∈ ss_sidecars sample_state
  ∧ ((∃ m, m ∈ ss_media (reconcile sample_state) ∧ belongs x m
    ∧ (∀ m', m' ∈ ss_media (reconcile sample_state) → attached x m' ↔ m' = m)
    ∧ ∀ m', m' ∈ ss_media (reconcile sample_state) → ds_kind x = Meta_Json →
        ds_relative_path x = dm_relative_path m' +:+ ".json" → m' = m)
    ∨ (reported (ds_relative_path x) (reconcile sample_state)
       ∧ ∀ m', m' ∈ ss_media (reconcile sample_state) → ¬ attached x m')).
Proof.
  intros x. split; [left|].
  apply (sidecars_accounted sample_state x); [repeat constructor|left].
Defined.

Lemma live_photos_exact_witness :
  let m := nth 0 (ss_media (reconcile sample_state)) (sample_media "" Media_Image "") in
  let member := {| pair_id := live_pair_id "a/IMG.jpg" "a/IMG.mov"; role := Live_Image |} in
  dm_live_photo m = Some member ∧ plays (ss_media (reconcile sample_state)) m member.
Proof.
  intros m member. assert (dm_live_photo m = Some member) as Hm by (vm_compute; reflexivity).
  split; [exact Hm|].
  apply (live_photos_exact sample_state m member); [repeat constructor| |exact Hm].
  apply (list_elem_of_lookup_2 _ 0). vm_compute. reflexivity.
Defined.

Definition sample_asset : CandidateAsset :=
  nth 0 (np_assets (rfp_plan sample_resolved)) (candidate_of (sample_media "" Media_Image "")).

Lemma sample_asset_in : sample_asset ∈ np_assets (rfp_plan sample_resolved).
Proof. apply (list_elem_of_lookup_2 _ 0). vm_compute. reflexivity. Qed.

Lemma scan_feeds_planner_witness :
  (∃ f, source_for sample_resolved (ca_relative_path sample_asset) (ca_byte_len sample_asset)
          (ca_content_sha256 sample_asset) = Ok f)
  ∧ (∀ c, c ∈ ca_metadata sample_asset → ∃ sidecar, sidecar_for sample_resolved c = Ok (Some sidecar))
  ∧ ∃ r, upload_role sample_asset (live_video_operations sample_resolved) = Ok r.
Proof.
  exact (scan_feeds_planner 1 Folder "photos" sample_folder_config sample_state sample_resolved
    sample_asset sample_state_new sample_finish sample_asset_in).
Defined.
End witnesses.
