(* ===== verification/Discovery.v ===== *)
(** * Discovery: walking a source and reading its files
    ([crates/immich-sources/src/discovery.rs], [identity.rs], the scan of [lib.rs])

    The file system is the class [ScanFs]; a native path is its bytes.  A scan
    reads entries depth first with the stack [directories], hashes each media and
    sidecar file, and hands the state to the reconciler of its strategy.  Every
    loop has fuel; [discover_returns] and [hash_loop_returns] prove it enough. *)
From Stdlib Require Import Ascii.
From S2P Require Export Reconcile Scan.

(** ** The file system *)

Module FileType.
Inductive t := Dir | Symlink | File | Special.
#[global] Instance t_eq_dec : EqDecision t.
Proof. solve_decision. Defined.
End FileType.

(** [std::fs::Metadata] on Unix; times are nanoseconds from the Unix epoch. *)
Record ScanMeta := {
  sm_type : FileType.t;
  sm_mode : Z;
  sm_len : Z;
  sm_modified : option Z;
  sm_created : option Z;
  sm_dev : Z;
  sm_ino : Z;
}.

(** [fs::symlink_metadata], [fs::metadata], [fs::read_dir] (the names of the
    entries, each of which may fail), [File::open], and the metadata and the
    reads of the open file; an empty chunk is the end of the file. *)
Class ScanFs (W : Type) := {
  sf_symlink_metadata : string → W → option ScanMeta * W;
  sf_metadata : string → W → option ScanMeta * W;
  sf_read_dir : string → W → option (list (option string)) * W;
  sf_open : string → W → bool * W;
  sf_file_metadata : W → option ScanMeta * W;
  sf_read : Z → W → option string * W;
}.

(** [ProgressObserver::observe] *)
Class ScanObserver (W : Type) := { observe_progress : ProgressEvent → W → W }.

(** ** Portable paths *)

(** [Path::components]: the root, a leading dot, and the normal components *)
Definition path_components (path : string) : list string :=
  (match split_on "/" path with
   | EmptyString :: _ :: _ => ["/"]
   | first :: _ => if String.eqb first "." then ["."] else []
   | [] => []
   end) ++ normal_components path.

(** [Path::strip_prefix], on components *)
Fixpoint strip_components (prefix components : list string) : option (list string) :=
  match prefix, components with
  | [], _ => Some components
  | p :: prefix, c :: components =>
    if String.eqb p c then strip_components prefix components else None
  | _ :: _, [] => None
  end.
Definition strip_path (root path : string) : option (list string) :=
  strip_components (path_components root) (path_components path).

(** [directory.join(name)], which is [DirEntry::path] *)
Definition path_join (directory name : string) : string :=
  if is_empty directory || ends_with "/" directory then directory +:+ name
  else directory +:+ "/" +:+ name.

Module PortablePathError.
Inductive t := OutsideRoot | NonUnicode | TooLong.
End PortablePathError.

Definition portable_path `{UnicodeLib} (root path : string) (max_bytes : Z) :
    result PortablePathError.t string :=
  relative ← ok_or (strip_path root path) PortablePathError.OutsideRoot;
  components ← try_map (λ value, if is_utf8 value then Ok (nfc value)
                                 else Err PortablePathError.NonUnicode) relative;
  let portable := String.concat "/" components in
  _ ← fail_if (is_empty portable) PortablePathError.OutsideRoot;
  _ ← fail_if (max_bytes <? len portable) PortablePathError.TooLong;
  Ok portable.

Definition portable_sort_key `{UnicodeLib} (root path : string) : string :=
  match portable_path root path u64_max with
  | Ok portable => portable
  | Err _ => match strip_path root path with
             | Some components => String.concat "/" components
             | None => path
             end
  end.

Definition portable_directory `{UnicodeLib} (root path : string) (max_bytes : Z) : string :=
  if bool_decide (path_components path = path_components root) then "."
  else match portable_path root path max_bytes with
       | Ok portable => portable
       | Err _ => "<non-unicode>"
       end.

(** ** Content identity *)

Record FileSnapshot := {
  fsn_len : Z;
  fsn_modified_nanos : option Z;
  fsn_platform_identity : Z * Z;
}.
#[export] Instance FileSnapshot_eq_dec : EqDecision FileSnapshot.
Proof. solve_decision. Defined.

(** [FileSnapshot::from_metadata]; a time before the epoch has no duration. *)
Definition from_metadata (metadata : ScanMeta) : FileSnapshot := {|
  fsn_len := sm_len metadata;
  fsn_modified_nanos := sm_modified metadata ≫= λ m, if 0 <=? m then Some m else None;
  fsn_platform_identity := (sm_dev metadata, sm_ino metadata) |}.

(** [mode & 0o444 == 0] *)
Definition lacks_read_permissions (metadata : ScanMeta) : bool :=
  Z.land (sm_mode metadata) 292 =? 0.

Module StreamError.
Inductive t := Cancelled | Unreadable.
End StreamError.

Record ScanIdentity := {
  sci_byte_len : Z;
  sci_sha256 : string;
  sci_sha1_base64 : string;
  sci_changed : bool;
}.

Section discovery.
  Context {W : Type} `{ScanFs W, Cancellation W, ScanObserver W, UnicodeLib, Codec, TimeLib}.

(** The loop of [stream_identity]: what was read and how much *)
Fixpoint hash_loop (fuel : nat) (file_len buffer_bytes bytes_read : Z) (content : string) (w : W) :
    option (result StreamError.t (Z * string) * W) :=
  match fuel with
  | O => None
  | S fuel =>
    if bytes_read <? file_len then
      match is_cancelled w with
      | (true, w) => Some (Err StreamError.Cancelled, w)
      | (false, w) =>
        let remaining := file_len - bytes_read in
        match sf_read (Z.min remaining buffer_bytes) w with
        | (None, w) => Some (Err StreamError.Unreadable, w)
        | (Some chunk, w) =>
          if is_empty chunk then Some (Ok (bytes_read, content), w)
          else match checked_add bytes_read (len chunk) with
          | None => Some (Err StreamError.Unreadable, w)
          | Some bytes_read =>
            hash_loop fuel file_len buffer_bytes bytes_read (content +:+ chunk) w
          end
        end
      end
    else Some (Ok (bytes_read, content), w)
  end.

(** [None] never happens: [hash_loop_returns]. *)
Definition hash_file (file_len buffer_bytes : Z) : io W StreamError.t (Z * string) := λ w,
  default (Err StreamError.Unreadable, w)
    (hash_loop (Z.to_nat file_len + 1)%nat file_len buffer_bytes 0 "" w).

Definition ok_or_unreadable {A} (f : W → option A * W) : io W StreamError.t A := λ w,
  let '(r, w) := f w in (ok_or r StreamError.Unreadable, w).

Definition stream_identity (path : string) (discovered_metadata : ScanMeta) (buffer_bytes : Z) :
    io W StreamError.t ScanIdentity :=
  _ ← lift (fail_if (lacks_read_permissions discovered_metadata) StreamError.Unreadable);
  let before := from_metadata discovered_metadata in
  _ ← ok_or_unreadable (λ w, let '(opened, w) := sf_open path w in
                             (if opened then Some tt else None, w));
  opened ← ok_or_unreadable sf_file_metadata;
  let opened_snapshot := from_metadata opened in
  '(bytes_read, content) ← hash_file (fsn_len opened_snapshot) buffer_bytes;
  after_open ← ok_or_unreadable sf_file_metadata;
  after_path ← ok_or_unreadable (sf_metadata path);
  let changed := negb (bool_decide (before = opened_snapshot))
                 || negb (bool_decide (opened_snapshot = from_metadata after_open))
                 || negb (bool_decide (opened_snapshot = from_metadata after_path))
                 || negb (bytes_read =? fsn_len opened_snapshot) in
  mret {| sci_byte_len := bytes_read; sci_sha256 := sha256_hex content;
          sci_sha1_base64 := sha1_base64 content; sci_changed := changed |}.

(** ** Entries *)

Definition check_cancelled : io W ScanError.t unit := λ w,
  let '(cancelled, w) := is_cancelled w in (fail_if cancelled ScanError.Cancelled, w).

Definition observe_event (event : ProgressEvent) : io W ScanError.t unit := λ w,
  (Ok tt, observe_progress event w).

(** [ScanState::progress] *)
Definition progress (stage : ProgressStage) (s : ScanState) : io W ScanError.t ScanState :=
  let s := set_counters (ss_entries_seen s) (ss_bytes_read s) (sat_add (ss_event_sequence s) 1) s in
  _ ← observe_event {| pe_schema_version := PROGRESS_EVENT_SCHEMA_VERSION;
        pe_sequence := ss_event_sequence s; pe_stage := stage;
        pe_assets_observed := zlen (ss_media s); pe_bytes_read := ss_bytes_read s |};
  mret s.

(** [unix_millis]: no duration before the epoch, and an [i64] *)
Definition unix_millis (value : Z) : option Z :=
  if value <? 0 then None
  else if as_millis value <? 2 ^ 63 then Some (as_millis value) else None.

Definition media_of (path relative_path : string) (kind : MediaKind) (metadata : ScanMeta)
    (identity : ScanIdentity) : DiscoveredMedia := {|
  dm_native_path := path; dm_archive_index := None; dm_relative_path := relative_path;
  dm_kind := kind; dm_byte_len := sci_byte_len identity;
  dm_content_sha256 := sci_sha256 identity; dm_content_sha1_base64 := sci_sha1_base64 identity;
  dm_created_at_unix_ms := sm_created metadata ≫= unix_millis;
  dm_modified_at_unix_ms := sm_modified metadata ≫= unix_millis; dm_metadata := [];
  dm_normalized_metadata := None; dm_live_photo := None;
  dm_evidence := [{| re_rule_id := rule_id.REGULAR_MEDIA;
                     outcome := "streamed_content_identity" |}] |}.

Definition sidecar_of (path relative_path : string) (kind : MetadataKind) (metadata : ScanMeta)
    (identity : ScanIdentity) : DiscoveredSidecar := {|
  ds_native_path := path; ds_archive_index := None; ds_relative_path := relative_path;
  ds_kind := kind; ds_byte_len := sci_byte_len identity;
  ds_content_sha256 := sci_sha256 identity; ds_content_sha1_base64 := sci_sha1_base64 identity;
  ds_created_at_unix_ms := sm_created metadata ≫= unix_millis;
  ds_modified_at_unix_ms := sm_modified metadata ≫= unix_millis;
  ds_takeout_document := None; ds_takeout_parse_error := None |}.

Definition add_bytes (n : Z) (s : ScanState) : ScanState :=
  set_counters (ss_entries_seen s) (sat_add (ss_bytes_read s) n) (ss_event_sequence s) s.

Definition source_changed_diagnostic (relative_path : string) : PlanDiagnostic :=
  diagnostic rule_id.SOURCE_CHANGED "source_changed_during_scan" [relative_path].

(** [process_regular_file]; [before_read] is a hook of the tests. *)
Definition process_regular_file (path relative_path : string) (metadata : ScanMeta)
    (config : FolderScanConfig) (s : ScanState) : io W ScanError.t ScanState := λ w,
  let media := media_kind relative_path in
  let sidecar := metadata_kind relative_path in
  match media, sidecar with
  | None, None => (Ok s, w)
  | _, _ =>
    match stream_identity path metadata (fsc_buffer_bytes config) w with
    | (Ok identity, w) =>
      let s := add_bytes (sci_byte_len identity) s in
      let s := if sci_changed identity then push_error (source_changed_diagnostic relative_path) s
               else s in
      let s := match media, sidecar with
               | Some kind, _ =>
                 set_media (λ l, l ++ [media_of path relative_path kind metadata identity]) s
               | None, Some kind =>
                 set_sidecars (λ l, l ++ [sidecar_of path relative_path kind metadata identity]) s
               | None, None => s
               end in
      progress ContentIdentity s w
    | (Err StreamError.Cancelled, w) => (Err ScanError.Cancelled, w)
    | (Err StreamError.Unreadable, w) =>
      (Ok (push_error (diagnostic rule_id.UNREADABLE_FILE "unreadable_source_file"
                         [relative_path]) s), w)
    end
  end.

(** [process_entry]: the directory to descend into, if it is one *)
Definition process_entry (root path : string) (config : FolderScanConfig)
    (skip_path : string → option string) (s : ScanState) :
    io W ScanError.t (option string * ScanState) := λ w,
  match sf_symlink_metadata path w with
  | (None, w) =>
    let paths := match portable_path root path (fsc_max_path_bytes config) with
                 | Ok relative_path => [relative_path] | Err _ => [] end in
    (Ok (None, push_error (diagnostic rule_id.UNREADABLE_FILE "unreadable_metadata" paths) s), w)
  | (Some metadata, w) =>
    match portable_path root path (fsc_max_path_bytes config) with
    | Err PortablePathError.TooLong =>
      (Ok (None, push_error (diagnostic rule_id.PATH_LIMIT_EXCEEDED "portable_path_too_long"
                               ["<path-over-limit>"]) s), w)
    | Err (PortablePathError.NonUnicode | PortablePathError.OutsideRoot) =>
      (Ok (None, push_error (diagnostic rule_id.NON_UNICODE_PATH "non_unicode_path"
                               ["<non-unicode>"]) s), w)
    | Ok relative_path =>
      match skip_path relative_path with
      | Some diagnostic_path =>
        (Ok (None, push_warning (diagnostic rule_id.APPLE_EXPORT_NOISE "known_apple_export_noise"
                                   [diagnostic_path]) s), w)
      | None =>
        match sm_type metadata with
        | FileType.Dir => (Ok (Some path, s), w)
        | FileType.Symlink =>
          (Ok (None, push_warning (diagnostic rule_id.SYMLINK_SKIPPED "symlink_not_followed"
                                     [relative_path]) s), w)
        | FileType.File =>
          (s ← process_regular_file path relative_path metadata config s; mret (None, s)) w
        | FileType.Special =>
          (Ok (None, push_warning (diagnostic rule_id.SPECIAL_FILE_SKIPPED
                                     "special_file_not_read" [relative_path]) s), w)
        end
      end
    end
  end.

(** ** Directories *)

(** The loop of [directory_entries] *)
Fixpoint collect_entries (root directory : string) (config : FolderScanConfig)
    (results : list (option string)) (entries : list string) (s : ScanState) :
    io W ScanError.t (list string * ScanState) :=
  match results with
  | [] => mret (entries, s)
  | entry_result :: results =>
    _ ← check_cancelled;
    _ ← lift (fail_if (fsc_max_directory_entries config <=? zlen entries)
                (ScanError.LimitExceeded "max_directory_entries"));
    match entry_result with
    | Some name =>
      collect_entries root directory config results (entries ++ [path_join directory name]) s
    | None =>
      collect_entries root directory config results entries
        (push_error (diagnostic rule_id.UNREADABLE_FILE "unreadable_directory_entry"
           [portable_directory root directory (fsc_max_path_bytes config)]) s)
    end
  end.

Definition directory_entries (root directory : string) (config : FolderScanConfig)
    (s : ScanState) : io W ScanError.t (list string * ScanState) := λ w,
  match sf_read_dir directory w with
  | (None, w) =>
    (Ok ([], push_error (diagnostic rule_id.UNREADABLE_FILE "unreadable_directory"
       [portable_directory root directory (fsc_max_path_bytes config)]) s), w)
  | (Some read_directory, w) =>
    ('(entries, s) ← collect_entries root directory config read_directory [] s;
     mret (sort_by (λ a b, leb_of String.compare (portable_sort_key root a)
                                                 (portable_sort_key root b)) entries, s)) w
  end.

Definition count_entry (s : ScanState) : ScanState :=
  set_counters (sat_add (ss_entries_seen s) 1) (ss_bytes_read s) (ss_event_sequence s) s.

(** The inner loop of [discover]; the head of [directories] is its top. *)
Fixpoint process_entries (root : string) (config : FolderScanConfig)
    (skip_path : string → option string) (entries directories : list string) (s : ScanState) :
    io W ScanError.t (list string * ScanState) :=
  match entries with
  | [] => mret (directories, s)
  | path :: entries =>
    let s := count_entry s in
    _ ← lift (fail_if (fsc_max_entries config <? ss_entries_seen s)
                (ScanError.LimitExceeded "max_entries"));
    '(child_directory, s) ← process_entry root path config skip_path s;
    let directories := match child_directory with
                       | Some child => child :: directories | None => directories end in
    s ← progress Discovery s;
    process_entries root config skip_path entries directories s
  end.

Fixpoint discover_loop (fuel : nat) (root : string) (config : FolderScanConfig)
    (skip_path : string → option string) (directories : list string) (s : ScanState) (w : W) :
    option (result ScanError.t ScanState * W) :=
  match directories with
  | [] => Some (Ok s, w)
  | directory :: directories =>
    match fuel with
    | O => None
    | S fuel =>
      match (_ ← check_cancelled;
             '(entries, s) ← directory_entries root directory config s;
             process_entries root config skip_path (rev entries) directories s) w with
      | (Ok (directories, s), w) => discover_loop fuel root config skip_path directories s w
      | (Err e, w) => Some (Err e, w)
      end
    end
  end.

(** Every directory but the root is an entry that was counted. *)
Definition discover_fuel (config : FolderScanConfig) : nat :=
  (Z.to_nat (fsc_max_entries config) + 1)%nat.

(** [None] never happens: [discover_returns]. *)
Definition discover (root : string) (config : FolderScanConfig)
    (skip_path : string → option string) (s : ScanState) : io W ScanError.t ScanState := λ w,
  default (Err ScanError.Cancelled, w)
    (discover_loop (discover_fuel config) root config skip_path [root] s w).

(** ** A scan *)

(** A reconciler may read files again. *)
Record ScanStrategy := {
  st_source_kind : SourceKind;
  st_schema_version : Z;
  st_reconcile_state : ScanState → W → ScanState * W;
  st_skip_path : string → option string;
}.

Definition run_reconcile (strategy : ScanStrategy) (s : ScanState) : io W ScanError.t ScanState := λ w,
  let '(s, w) := st_reconcile_state strategy s w in (Ok s, w).

Definition keep_all_paths (_ : string) : option string := None.

Definition FOLDER_SCAN : ScanStrategy := {|
  st_source_kind := Folder; st_schema_version := NORMALIZED_PLAN_SCHEMA_VERSION;
  st_reconcile_state := λ s w, (reconcile s, w); st_skip_path := keep_all_paths |}.

Definition validate_source_label (source_label : string) : result ScanError.t unit :=
  fail_if (is_empty source_label || (128 <? len source_label) || has_control source_label)
    (ScanError.InvalidConfiguration "source label must be 1..=128 non-control characters").

Definition symlink_metadata_or (path : string) (e : ScanError.t) : io W ScanError.t ScanMeta := λ w,
  let '(metadata, w) := sf_symlink_metadata path w in (ok_or metadata e, w).

Definition validate_root_and_label (root source_label : string) : io W ScanError.t unit :=
  _ ← lift (validate_source_label source_label);
  root_metadata ← symlink_metadata_or root ScanError.InvalidRoot;
  lift (fail_if (negb (bool_decide (sm_type root_metadata = FileType.Dir))) ScanError.InvalidRoot).

Definition config_error (e : ConfigError) : ScanError.t :=
  match e with InvalidConfiguration message => ScanError.InvalidConfiguration message end.

(** The beginning of [scan_resolved_internal]: what is found below the root *)
Definition find_files (root source_label : string) (config : FolderScanConfig)
    (skip_path : string → option string) : io W ScanError.t ScanState :=
  _ ← lift (map_err config_error (folder_validate config));
  _ ← validate_root_and_label root source_label;
  s ← discover root config skip_path new_scan;
  _ ← check_cancelled;
  mret s.

Definition scan_resolved_internal (root source_label : string) (config : FolderScanConfig)
    (strategy : ScanStrategy) : io W ScanError.t ResolvedFolderPlan :=
  s ← find_files root source_label config (st_skip_path strategy);
  s ← run_reconcile strategy s;
  s ← progress Reconciliation s;
  let complete_sequence := sat_add (ss_event_sequence s) 1 in
  resolved ← lift (finish_state (st_schema_version strategy) (st_source_kind strategy)
                     source_label config s);
  _ ← observe_event {|
    pe_schema_version := PROGRESS_EVENT_SCHEMA_VERSION; pe_sequence := complete_sequence;
    pe_stage := StageComplete;
    pe_assets_observed := ps_assets (np_summary (rfp_plan resolved));
    pe_bytes_read := ps_bytes_read (np_summary (rfp_plan resolved)) |};
  mret resolved.

Definition scan_folder_resolved (root source_label : string) (config : FolderScanConfig) :
    io W ScanError.t ResolvedFolderPlan :=
  scan_resolved_internal root source_label config FOLDER_SCAN.
End discovery.
