(* ===== verification/DiscoveryFacts.v ===== *)
(** * DiscoveryFacts: what a walk keeps

    The loops have enough fuel; every file the state holds was seen during the walk
    as a regular file under the root with a portable path within the limit, its
    digests are those of the chunks the walk read from it, and every changed one is
    reported. *)
From Stdlib Require Import Ascii.
From S2P Require Export ReconcileFacts Discovery.

Lemma len_str_app s t : len (s +:+ t) = len s + len t.
Proof. apply len_app. Qed.

Lemma chunk_len_pos chunk : is_empty chunk = false → 0 < len chunk.
Proof. unfold is_empty, len. destruct chunk; [done|]. simpl. lia. Qed.

(** ** Runs

    The worlds a scan goes through: a step is a call of the file system, a look at the
    cancellation flag or a report of progress. *)
Section runs.
  Context {W : Type} `{ScanFs W, Cancellation W, ScanObserver W}.

Inductive fs_step : W → W → Prop :=
  | step_symlink_metadata path w : fs_step w (sf_symlink_metadata path w).2
  | step_metadata path w : fs_step w (sf_metadata path w).2
  | step_read_dir path w : fs_step w (sf_read_dir path w).2
  | step_open path w : fs_step w (sf_open path w).2
  | step_file_metadata w : fs_step w (sf_file_metadata w).2
  | step_read limit w : fs_step w (sf_read limit w).2
  | step_cancelled w : fs_step w (is_cancelled w).2
  | step_progress event w : fs_step w (observe_progress event w).

(** The world [w'] comes after [w]. *)
Definition later : W → W → Prop := rtc fs_step.

#[global] Instance later_preorder : PreOrder later.
Proof. apply _. Qed.

(** A computation goes by steps. *)
Definition by_steps {E A} (m : io W E A) : Prop := ∀ w r w', m w = (r, w') → later w w'.

Lemma by_steps_bind {E A B} (m : io W E A) (f : A → io W E B) :
  by_steps m → (∀ a, by_steps (f a)) → by_steps (m ≫= f).
Proof.
  intros Hm Hf w r w' [(e & Hr & _)|(a & w1 & Hr & Hk)]%io_bind_inv; [by eapply Hm|].
  etrans; [by eapply Hm|by eapply Hf].
Qed.

Lemma by_steps_ret {E A} (a : A) : by_steps (E := E) (mret a).
Proof. by intros w r w' [= _ <-]. Qed.

Lemma by_steps_lift {E A} (r : result E A) : by_steps (lift r).
Proof. by intros w r' w' [= _ <-]. Qed.

Lemma by_steps_call {E A} (f : W → option A * W) (e : E) :
  (∀ w, fs_step w (f w).2) → by_steps (λ w, let '(r, w) := f w in (ok_or r e, w)).
Proof. intros Hf w r w'. specialize (Hf w). destruct (f w). intros [= _ <-]. by apply rtc_once. Qed.

(** A call whose result is known *)
Lemma later_call {A} (f : W → A * W) w a w' : (∀ w, fs_step w (f w).2) → f w = (a, w') → later w w'.
Proof. intros Hf Hw. apply rtc_once. specialize (Hf w). by rewrite Hw in Hf. Qed.

(** The chunks of an open file, at most [remaining] bytes: until there are enough or
    the file ends *)
Inductive chunks_read (buffer : Z) : Z → W → string → W → Prop :=
  | chunks_enough remaining w : remaining <= 0 → chunks_read buffer remaining w "" w
  | chunks_end remaining w w1 w' : 0 < remaining → is_cancelled w = (false, w1) →
      sf_read (Z.min remaining buffer) w1 = (Some "", w') → chunks_read buffer remaining w "" w'
  | chunks_more remaining w w1 chunk w2 content w' : 0 < remaining → is_cancelled w = (false, w1) →
      sf_read (Z.min remaining buffer) w1 = (Some chunk, w2) → chunk ≠ "" →
      chunks_read buffer (remaining - len chunk) w2 content w' →
      chunks_read buffer remaining w (chunk +:+ content) w'.

(** A file is opened and read from its beginning, as far as its length says. *)
Definition file_read (path : string) (buffer : Z) (w : W) (content : string) (w' : W) : Prop :=
  ∃ w1 metadata w2, sf_open path w = (true, w1) ∧ sf_file_metadata w1 = (Some metadata, w2)
    ∧ chunks_read buffer (sm_len metadata) w2 content w'.

Lemma chunks_read_later buffer n w content w' : chunks_read buffer n w content w' → later w w'.
Proof.
  induction 1 as [|n w w1 w' _ Hc Hr|n w w1 chunk w2 content w' _ Hc Hr _ _ IH]; [done| |].
  - etrans; [by eapply later_call; [apply step_cancelled|]|by eapply later_call; [apply step_read|]].
  - etrans; [by eapply later_call; [apply step_cancelled|]|].
    etrans; [by eapply later_call; [apply step_read|]|done].
Qed.

(** Between [w] and [w'], a file was read so. *)
Definition was_read (w : W) (path : string) (buffer : Z) (content : string) (w' : W) : Prop :=
  ∃ w1 w2, later w w1 ∧ file_read path buffer w1 content w2 ∧ later w2 w'.

Lemma was_read_later w path buffer content w1 w2 :
  was_read w path buffer content w1 → later w1 w2 → was_read w path buffer content w2.
Proof. intros (a & b & ? & ? & ?) ?. exists a, b. split_and!; [done..|by etrans]. Qed.
End runs.

#[export] Hint Resolve by_steps_ret by_steps_lift : core.

Section hashing.
  Context {W : Type} `{ScanFs W, Cancellation W, ScanObserver W}.

Lemma hash_loop_returns fuel file_len buffer bytes_read content w :
  file_len - bytes_read < Z.of_nat fuel → (0 < fuel)%nat →
  is_Some (hash_loop fuel file_len buffer bytes_read content w).
Proof.
  revert bytes_read content w. induction fuel as [|fuel IH]; intros n content w Hf Hp; [lia|].
  cbn [hash_loop]. destruct (Z.ltb_spec n file_len) as [Hlt|]; [|by eexists].
  destruct (is_cancelled w) as [[] w1]; [by eexists|].
  destruct (sf_read _ w1) as [[chunk|] w2]; [|by eexists].
  destruct (is_empty chunk) eqn:He; [by eexists|]. apply chunk_len_pos in He.
  unfold checked_add. destruct (n + len chunk <=? u64_max); [|by eexists].
  apply IH; lia.
Qed.

(** The total version is the loop. *)
Lemma hash_file_spec file_len buffer w :
  hash_loop (Z.to_nat file_len + 1)%nat file_len buffer 0 "" w = Some (hash_file file_len buffer w).
Proof.
  unfold hash_file. destruct (hash_loop_returns (Z.to_nat file_len + 1)%nat file_len buffer 0 "" w)
    as [r ->]; [lia|lia|done].
Qed.

(** What was hashed is what was read. *)
Lemma hash_loop_read fuel file_len buffer n content w n' content' w' :
  hash_loop fuel file_len buffer n content w = Some (Ok (n', content'), w') →
  ∃ rest, content' = content +:+ rest ∧ n' = n + len rest ∧ chunks_read buffer (file_len - n) w rest w'.
Proof.
  revert n content w. induction fuel as [|fuel IH]; intros n content w; [done|]. cbn [hash_loop].
  destruct (Z.ltb_spec n file_len) as [Hlt|Hge].
  2:{ intros [= <- <- <-]. exists "". rewrite str_app_nil_r. change (len "") with 0.
      split_and!; [done|lia|apply chunks_enough; lia]. }
  destruct (is_cancelled w) as [[] w1] eqn:Hc; [done|].
  destruct (sf_read _ w1) as [[chunk|] w2] eqn:Hr; [|done].
  destruct (is_empty chunk) eqn:He.
  { intros [= <- <- <-]. apply is_empty_true in He as ->. exists "". rewrite str_app_nil_r.
    change (len "") with 0. split_and!; [done|lia|]. eapply chunks_end; [lia|done|exact Hr]. }
  destruct (checked_add n (len chunk)) as [n1|] eqn:Ha; [|done].
  apply checked_add_Some in Ha as [-> _]. intros (rest & -> & -> & Hrest)%IH.
  exists (chunk +:+ rest). rewrite str_app_assoc, len_str_app. split_and!; [done|lia|].
  eapply chunks_more; [lia|done|exact Hr|by apply is_empty_false|].
  by replace (file_len - n - len chunk) with (file_len - (n + len chunk)) by lia.
Qed.

Lemma hash_file_read file_len buffer w n content w' :
  hash_file file_len buffer w = (Ok (n, content), w') →
  n = len content ∧ chunks_read buffer file_len w content w'.
Proof.
  intros Hh. pose proof (hash_file_spec file_len buffer w) as Hs. rewrite Hh in Hs.
  apply hash_loop_read in Hs as (rest & -> & -> & Hr). by rewrite Z.sub_0_r in Hr.
Qed.

Lemma hash_file_by_steps file_len buffer : by_steps (hash_file file_len buffer).
Proof.
  intros w r w' Hh. pose proof (hash_file_spec file_len buffer w) as Hs. rewrite Hh in Hs.
  revert Hs. clear Hh. generalize 0, (Z.to_nat file_len + 1)%nat, "". intros n fuel content. revert n content w.
  induction fuel as [|fuel IH]; intros n content w; [done|]. cbn [hash_loop].
  destruct (n <? file_len); [|by intros [= <- <-]].
  destruct (is_cancelled w) as [c w1] eqn:Hc. apply (later_call _ _ _ _ step_cancelled) in Hc.
  destruct c; [by intros [= <- <-]|].
  destruct (sf_read _ w1) as [chunk w2] eqn:Hr. apply (later_call _ _ _ _ (step_read _)) in Hr.
  assert (later w w2) as Hw by (by etrans). destruct chunk as [chunk|]; [|by intros [= <- <-]].
  destruct (is_empty chunk); [by intros [= <- <-]|].
  destruct (checked_add n (len chunk)); [|by intros [= <- <-]]. intros ?%IH. by etrans.
Qed.
End hashing.

Section discovery.
  Context {W : Type} `{ScanFs W, Cancellation W, ScanObserver W, UnicodeLib, Codec, TimeLib}.

Lemma ok_or_unreadable_Ok {A} (f : W → option A * W) w a w' :
  ok_or_unreadable f w = (Ok a, w') ↔ f w = (Some a, w').
Proof. unfold ok_or_unreadable. destruct (f w) as [[]]; naive_solver. Qed.

Lemma open_by_steps path :
  by_steps (ok_or_unreadable (λ w : W, let '(opened, w) := sf_open path w in
    (if opened then Some tt else None, w))).
Proof. apply by_steps_call. intros w. pose proof (step_open path w). by destruct (sf_open path w). Qed.

Lemma stream_identity_by_steps path metadata buffer : by_steps (stream_identity path metadata buffer).
Proof.
  apply by_steps_bind; [auto|intros _]. apply by_steps_bind; [apply open_by_steps|intros _].
  apply by_steps_bind; [apply by_steps_call, step_file_metadata|intros opened].
  apply by_steps_bind; [apply hash_file_by_steps|intros [n content]].
  apply by_steps_bind; [apply by_steps_call, step_file_metadata|intros after_open].
  apply by_steps_bind; [apply by_steps_call, step_metadata|auto].
Qed.

(** What an identity says: the file was opened and read, the length and the digests
    are those of the bytes read, and an unchanged file was read whole, with the facts
    it was discovered with. *)
Lemma stream_identity_Ok path metadata buffer w identity w' :
  stream_identity path metadata buffer w = (Ok identity, w') →
  ∃ content, was_read w path buffer content w' ∧ sci_byte_len identity = len content
    ∧ sci_sha256 identity = sha256_hex content ∧ sci_sha1_base64 identity = sha1_base64 content
    ∧ (sci_changed identity = false → sci_byte_len identity = sm_len metadata).
Proof.
  unfold stream_identity. intros Hs.
  apply io_bind_Ok in Hs as ([] & w1 & [_ <-]%lift_Ok & Hs).
  apply io_bind_Ok in Hs as ([] & w2 & Hopen%ok_or_unreadable_Ok & Hs).
  apply io_bind_Ok in Hs as (opened & w3 & Hfacts%ok_or_unreadable_Ok & Hs).
  apply io_bind_Ok in Hs as ([n content] & w4 & [-> Hread]%hash_file_read & Hs).
  apply io_bind_Ok in Hs as (after_open & w5 & Ha%(by_steps_call _ _ step_file_metadata) & Hs).
  apply io_bind_Ok in Hs as (after_path & w6 & Hp%(by_steps_call _ _ (step_metadata path)) & Hs).
  injection Hs as <- <-. exists content. simpl. split_and!; [|done..|].
  - exists w, w4. split_and!; [done| |by etrans].
    destruct (sf_open path w) as [[] wo] eqn:Ho; [|done]. injection Hopen as ->. by exists w2, opened, w3.
  - rewrite !orb_false_iff, !negb_false_iff, !bool_decide_eq_true, Z.eqb_eq.
    intros [[[Hb _] _] ->]. by apply (f_equal fsn_len) in Hb.
Qed.

(** ** What a state holds *)

(** Between [w0] and [w], the path was seen to be a regular file. *)
Definition seen_regular (w0 : W) (path : string) (metadata : ScanMeta) (w : W) : Prop :=
  sm_type metadata = FileType.File
  ∧ ∃ w1 w2, later w0 w1 ∧ sf_symlink_metadata path w1 = (Some metadata, w2) ∧ later w2 w.

(** The walk began in the world [start]. *)
Variables (root : string) (config : FolderScanConfig) (start : W).

(** Where a file with these facts comes from: it was read during the walk, and it is
    what was read; [found_stable] is why an unreported file has the length of its
    listing. *)
Record found_at (w : W) (errors : list PlanDiagnostic) (native relative : string) (byte_len : Z)
    (sha256_of sha1_of : string) : Prop := {
  found_portable : portable_path root native (fsc_max_path_bytes config) = Ok relative;
  found_content : ∃ content, was_read start native (fsc_buffer_bytes config) content w
    ∧ byte_len = len content ∧ sha256_of = sha256_hex content ∧ sha1_of = sha1_base64 content;
  found_stable : ∃ metadata, seen_regular start native metadata w
    ∧ (byte_len = sm_len metadata ∨ source_changed_diagnostic relative ∈ errors);
}.

Record media_found (w : W) (errors : list PlanDiagnostic) (m : DiscoveredMedia) : Prop := {
  mf_at : found_at w errors (dm_native_path m) (dm_relative_path m) (dm_byte_len m)
            (dm_content_sha256 m) (dm_content_sha1_base64 m);
  mf_kind : media_kind (dm_relative_path m) = Some (dm_kind m);
  mf_new : dm_metadata m = [] ∧ dm_normalized_metadata m = None ∧ dm_live_photo m = None;
  mf_evidence : dm_evidence m = [{| re_rule_id := rule_id.REGULAR_MEDIA;
                                    outcome := "streamed_content_identity" |}];
  mf_archive : dm_archive_index m = None;
}.

Record sidecar_found (w : W) (errors : list PlanDiagnostic) (x : DiscoveredSidecar) : Prop := {
  sf_at : found_at w errors (ds_native_path x) (ds_relative_path x) (ds_byte_len x)
            (ds_content_sha256 x) (ds_content_sha1_base64 x);
  sf_kind : media_kind (ds_relative_path x) = None
            ∧ metadata_kind (ds_relative_path x) = Some (ds_kind x);
  sf_new : ds_takeout_document x = None ∧ ds_takeout_parse_error x = None;
}.

(** The invariant of the walk; [k] entries are counted and not yet stored. *)
Record discovered (w : W) (k : Z) (s : ScanState) : Prop := {
  di_media : Forall (media_found w (ss_errors s)) (ss_media s);
  di_sidecars : Forall (sidecar_found w (ss_errors s)) (ss_sidecars s);
  di_stored : zlen (ss_media s) + zlen (ss_sidecars s) + k <= ss_entries_seen s;
  di_limit : ss_entries_seen s <= fsc_max_entries config;
}.

(** Errors are only added. *)
Definition keeps_errors (s s' : ScanState) : Prop := ∀ d, d ∈ ss_errors s → d ∈ ss_errors s'.

Lemma found_at_keeps w w' s s' n r l a b : keeps_errors s s' → later w w' →
  found_at w (ss_errors s) n r l a b → found_at w' (ss_errors s') n r l a b.
Proof.
  intros Hk Hw [? (c & Hc & ?) (m & (? & w1 & w2 & ? & ? & ?) & Hs)]. split; [done|..].
  - exists c. split; [by eapply was_read_later|done].
  - exists m. split; [|naive_solver]. split; [done|]. exists w1, w2. split_and!; [done..|by etrans].
Qed.

(** Steps that store nothing. *)
Lemma discovered_keeps w w' k s s' :
  ss_media s' = ss_media s → ss_sidecars s' = ss_sidecars s →
  ss_entries_seen s' = ss_entries_seen s → keeps_errors s s' → later w w' →
  discovered w k s → discovered w' k s'.
Proof.
  intros Hm Hx He Hk Hw []. split; rewrite ?Hm, ?Hx, ?He; try done; eapply Forall_impl; [done| |done|].
  - intros m []. split; try done. by eapply found_at_keeps.
  - intros x []. split; try done. by eapply found_at_keeps.
Qed.

Lemma discovered_weaken w k k' s : k' <= k → discovered w k s → discovered w k' s.
Proof. intros ? []. split; try done. lia. Qed.

Lemma keeps_same s : keeps_errors s s.
Proof. by intros d. Qed.

Lemma discovered_later w w' k s : later w w' → discovered w k s → discovered w' k s.
Proof. intros Hw. by apply discovered_keeps; [..|apply keeps_same|]. Qed.

Lemma keeps_push_error d s : keeps_errors s (push_error d s).
Proof. intros e He. simpl. apply elem_of_app. by left. Qed.

Lemma discovered_error w k d s : discovered w k s → discovered w k (push_error d s).
Proof. by apply discovered_keeps; [..|apply keeps_push_error|]. Qed.

Lemma discovered_warning w k d s : discovered w k s → discovered w k (push_warning d s).
Proof. by apply discovered_keeps; [..|intros e|]. Qed.

Lemma progress_Ok stage (s : ScanState) (w : W) s' w' :
  progress stage s w = (Ok s', w') →
  ss_media s' = ss_media s ∧ ss_sidecars s' = ss_sidecars s ∧ ss_entries_seen s' = ss_entries_seen s
  ∧ ss_errors s' = ss_errors s ∧ ss_warnings s' = ss_warnings s ∧ ss_bytes_read s' = ss_bytes_read s.
Proof. unfold progress, observe_event. by intros [= <- <-]. Qed.

Lemma progress_by_steps stage (s : ScanState) : by_steps (progress stage s).
Proof. intros w r w' [= _ <-]. apply rtc_once, step_progress. Qed.

Lemma progress_discovered w k stage (s : ScanState) s' w' :
  progress stage s w = (Ok s', w') → discovered w k s → discovered w' k s'.
Proof.
  intros Hp. pose proof (progress_by_steps _ _ _ _ _ Hp) as Hw.
  apply progress_Ok in Hp as (? & ? & ? & He & _). apply discovered_keeps; [done..| |done].
  intros d. by rewrite He.
Qed.

(** The error of a changed file is there before the file is stored. *)
Lemma found_at_new s path relative metadata identity w w' w0 :
  later start w0 → sf_symlink_metadata path w0 = (Some metadata, w) → sm_type metadata = FileType.File →
  portable_path root path (fsc_max_path_bytes config) = Ok relative →
  stream_identity path metadata (fsc_buffer_bytes config) w = (Ok identity, w') →
  (sci_changed identity = true → source_changed_diagnostic relative ∈ ss_errors s) →
  found_at w' (ss_errors s) path relative (sci_byte_len identity) (sci_sha256 identity) (sci_sha1_base64 identity).
Proof.
  intros Hst Hm Ht Hp Hs Hc. pose proof (stream_identity_by_steps _ _ _ _ _ _ Hs) as Hw'.
  assert (later w0 w) as Hw by (by eapply later_call; [apply (step_symlink_metadata path)|]).
  apply stream_identity_Ok in Hs as (content & (w1 & w2 & ? & ? & ?) & ? & ? & ? & Hlen).
  split; [done|exists content; split; [exists w1, w2; split_and!; [by do 2 (etrans; [done|])|done..]|done]|].
  exists metadata. split; [split; [done|by exists w0, w]|].
  destruct (sci_changed identity); [right|left]; auto.
Qed.

(** A stored file uses up a counted entry. *)
Lemma store_media w s path relative kind metadata identity :
  discovered w 1 s → media_kind relative = Some kind →
  found_at w (ss_errors s) path relative (sci_byte_len identity) (sci_sha256 identity) (sci_sha1_base64 identity) →
  discovered w 0 (set_media (λ l, l ++ [media_of path relative kind metadata identity]) s).
Proof.
  intros [Hm Hx Hc Hl] Hk Hat.
  split; cbn [set_media ss_media ss_sidecars ss_entries_seen ss_errors]; try done.
  - apply Forall_app. split; [done|apply Forall_singleton; by split].
  - rewrite zlen_app. change (zlen [_]) with 1. lia.
Qed.

Lemma store_sidecar w s path relative kind metadata identity :
  discovered w 1 s → media_kind relative = None → metadata_kind relative = Some kind →
  found_at w (ss_errors s) path relative (sci_byte_len identity) (sci_sha256 identity) (sci_sha1_base64 identity) →
  discovered w 0 (set_sidecars (λ l, l ++ [sidecar_of path relative kind metadata identity]) s).
Proof.
  intros [Hm Hx Hc Hl] Hk Hk' Hat.
  split; cbn [set_sidecars ss_media ss_sidecars ss_entries_seen ss_errors]; try done.
  - apply Forall_app. split; [done|apply Forall_singleton; by split].
  - rewrite zlen_app. change (zlen [_]) with 1. lia.
Qed.

(** The state a file is stored into. *)
Definition hashed (relative : string) (identity : ScanIdentity) (s : ScanState) : ScanState :=
  let s := add_bytes (sci_byte_len identity) s in
  if sci_changed identity then push_error (source_changed_diagnostic relative) s else s.

Lemma hashed_discovered w k relative identity s :
  discovered w k s → discovered w k (hashed relative identity s).
Proof.
  intros Hd. unfold hashed. assert (discovered w k (add_bytes (sci_byte_len identity) s)) as Ha.
  { eapply discovered_keeps; [| | | | |exact Hd]; try done. by intros e. }
  destruct (sci_changed identity); [by apply discovered_error|done].
Qed.

Lemma hashed_reports relative identity s :
  sci_changed identity = true → source_changed_diagnostic relative ∈ ss_errors (hashed relative identity s).
Proof. unfold hashed. intros ->. simpl. apply elem_of_app. right. left. Qed.

Lemma hashed_entries relative identity s :
  ss_entries_seen (hashed relative identity s) = ss_entries_seen s.
Proof. unfold hashed. by destruct (sci_changed identity). Qed.

(** What a step of the walk does to the state: from [w], where [k] entries are counted
    and not stored, to [w'], where [k'] are *)
Definition advances (k k' : Z) (w : W) (s : ScanState) (w' : W) (s' : ScanState) : Prop :=
  later w w' ∧ ss_entries_seen s' = ss_entries_seen s ∧ (discovered w k s → discovered w' k' s').

Lemma advances_with k k' w s w' s' :
  later w w' → ss_entries_seen s' = ss_entries_seen s → k' <= k →
  (discovered w' k s → discovered w' k s') → advances k k' w s w' s'.
Proof.
  intros Hw He Hk Hd. split_and!; [done..|]. intros H'%(discovered_later _ _ _ _ Hw).
  by eapply discovered_weaken, Hd.
Qed.

Lemma process_regular_file_advances path relative metadata s w s' w' w0 :
  later start w0 → sf_symlink_metadata path w0 = (Some metadata, w) → sm_type metadata = FileType.File →
  portable_path root path (fsc_max_path_bytes config) = Ok relative →
  process_regular_file path relative metadata config s w = (Ok s', w') →
  advances 1 0 w s w' s'.
Proof.
  intros Hst Hm Ht Hp Hr. unfold process_regular_file in Hr.
  assert (media_kind relative = None → metadata_kind relative = None → advances 1 0 w s w' s') as Hnone.
  { intros Hk Hk'. rewrite Hk, Hk' in Hr. injection Hr as <- <-. by apply advances_with. }
  destruct (stream_identity path metadata (fsc_buffer_bytes config) w) as [[identity|[]] w2] eqn:Hs;
    pose proof (stream_identity_by_steps _ _ _ _ _ _ Hs) as Hw.
  2:{ destruct (media_kind relative), (metadata_kind relative); [done..|by apply Hnone]. }
  2:{ assert (advances 1 0 w s w2 (push_error (diagnostic rule_id.UNREADABLE_FILE
        "unreadable_source_file" [relative]) s)) as Ha
        by (apply advances_with; [done..|apply discovered_error]).
      destruct (media_kind relative), (metadata_kind relative); [by injection Hr as <- <-..|by apply Hnone]. }
  pose proof (found_at_new (hashed relative identity s) path relative metadata identity w w2 w0 Hst Hm Ht Hp Hs
    (hashed_reports relative identity s)) as Hat.
  assert (∀ s2 : ScanState, progress ContentIdentity s2 w2 = (Ok s', w') →
    ss_entries_seen s2 = ss_entries_seen (hashed relative identity s) →
    (discovered w2 1 (hashed relative identity s) → discovered w2 0 s2) → advances 1 0 w s w' s') as Hstored.
  { intros s2 Hpr He Hd. pose proof (progress_discovered w2 0 _ _ _ _ Hpr) as Hd'.
    pose proof (progress_by_steps _ _ _ _ _ Hpr) as Hw'. apply progress_Ok in Hpr as (_ & _ & He' & _). rewrite hashed_entries in He.
    split_and!; [by etrans|congruence|]. intros Hs1%(discovered_later _ _ _ _ Hw). by apply Hd', Hd, hashed_discovered. }
  destruct (media_kind relative) as [kind|] eqn:Hk;
    [|destruct (metadata_kind relative) as [kind|] eqn:Hk'; [|by apply Hnone]].
  - change (progress ContentIdentity (set_media (λ l, l ++ [media_of path relative kind metadata identity])
      (hashed relative identity s)) w2 = (Ok s', w')) in Hr.
    eapply Hstored; [exact Hr|done|]. intros Hd. by apply store_media.
  - change (progress ContentIdentity (set_sidecars (λ l, l ++ [sidecar_of path relative kind metadata identity])
      (hashed relative identity s)) w2 = (Ok s', w')) in Hr.
    eapply Hstored; [exact Hr|done|]. intros Hd. by apply store_sidecar.
Qed.

Lemma process_entry_advances path skip s w child s' w' :
  process_entry root path config skip s w = (Ok (child, s'), w') → later start w → advances 1 0 w s w' s'.
Proof.
  intros Hr Hst. unfold process_entry in Hr.
  destruct (sf_symlink_metadata path w) as [m w1] eqn:Hm.
  assert (later w w1) as Hw by (by eapply later_call; [apply (step_symlink_metadata path)|]).
  assert (∀ d, advances 1 0 w s w1 (push_error d s)) as Herr
    by (intros d; apply advances_with; [done..|apply discovered_error]).
  assert (∀ d, advances 1 0 w s w1 (push_warning d s)) as Hwarn
    by (intros d; apply advances_with; [done..|apply discovered_warning]).
  destruct m as [metadata|]; [|by injection Hr as <- <- <-].
  destruct (portable_path root path (fsc_max_path_bytes config)) as [relative|[]] eqn:Hp;
    [|by injection Hr as <- <- <-..].
  destruct (skip relative); [by injection Hr as <- <- <-|].
  destruct (sm_type metadata) eqn:Ht; [|by injection Hr as <- <- <-| |by injection Hr as <- <- <-].
  - injection Hr as <- <- <-. by apply advances_with.
  - apply io_bind_Ok in Hr as (s1 & w2 & Hr & Hc). injection Hc as <- <- <-.
    destruct (process_regular_file_advances path relative metadata s w1 s1 w2 w) as (Hw' & He & Hd); try done.
    split_and!; [by etrans|done|]. intros Hs. apply Hd. by eapply discovered_later.
Qed.

(** ** Directories *)

Lemma scan_not_cancelled (w : W) w' : check_cancelled w = (Ok tt, w') → is_cancelled w = (false, w').
Proof. unfold check_cancelled. destruct (is_cancelled w) as [[] ?]; simpl; naive_solver. Qed.

Lemma check_cancelled_by_steps : by_steps check_cancelled.
Proof.
  intros w r w'. unfold check_cancelled. pose proof (step_cancelled w) as Hs.
  destruct (is_cancelled w). intros [= _ <-]. by apply rtc_once.
Qed.

(** Listing adds errors only. *)
Lemma collect_entries_Ok directory results entries s w paths s' w' k :
  collect_entries root directory config results entries s w = (Ok (paths, s'), w') →
  advances k k w s w' s'.
Proof.
  revert entries s w. induction results as [|r results IH]; intros entries s w; cbn [collect_entries].
  { intros [= <- <- <-]. by apply advances_with. }
  intros ([] & w1 & Hc%check_cancelled_by_steps & Hr)%io_bind_Ok.
  apply io_bind_Ok in Hr as ([] & w2 & [_ <-]%lift_Ok & Hr).
  destruct r as [name|]; apply IH in Hr as (Hw & He & Hd); (split_and!; [by etrans|done|]).
  - intros Hk. apply Hd. by eapply discovered_later.
  - intros Hk. apply Hd, discovered_error. by eapply discovered_later.
Qed.

Lemma directory_entries_Ok directory s w paths s' w' k :
  directory_entries root directory config s w = (Ok (paths, s'), w') → advances k k w s w' s'.
Proof.
  unfold directory_entries. destruct (sf_read_dir directory w) as [results w1] eqn:Hl.
  assert (later w w1) as Hw by (by eapply later_call; [apply (step_read_dir directory)|]).
  destruct results as [results|].
  - intros ([paths1 s1] & w2 & Hc & Hr)%io_bind_Ok. injection Hr as <- <- <-.
    apply (collect_entries_Ok _ _ _ _ _ _ _ _ k) in Hc as (Hw' & He & Hd). split_and!; [by etrans|done|].
    intros Hk. apply Hd. by eapply discovered_later.
  - intros [= <- <- <-]. apply advances_with; [done..|apply discovered_error].
Qed.

(** The limit is below the largest counter: [usize::MAX] entries never exist. *)
Hypothesis limits : 0 <= fsc_max_entries config < u64_max.

Lemma count_entry_discovered w s :
  ss_entries_seen (count_entry s) <= fsc_max_entries config →
  discovered w 0 s → discovered w 1 (count_entry s) ∧ ss_entries_seen (count_entry s) = ss_entries_seen s + 1.
Proof.
  cbn [count_entry set_counters ss_entries_seen]. unfold sat_add. intros Hle [Hm Hx Hc Hl].
  assert (Z.min (ss_entries_seen s + 1) u64_max = ss_entries_seen s + 1) as Heq by lia.
  split; [|done].
  split; cbn [count_entry set_counters ss_media ss_sidecars ss_entries_seen ss_errors]; try done;
    unfold sat_add; lia.
Qed.

(** Each entry counts, and adds at most one directory. *)
Lemma process_entries_Ok skip entries directories s w directories' s' w' :
  process_entries root config skip entries directories s w = (Ok (directories', s'), w') →
  later start w → discovered w 0 s →
  later w w' ∧ discovered w' 0 s'
    ∧ ss_entries_seen s' = ss_entries_seen s + zlen entries
    ∧ zlen directories' <= zlen directories + zlen entries.
Proof.
  revert directories s w. induction entries as [|path entries IH]; intros directories s w;
    cbn [process_entries].
  { intros [= <- <- <-] _ Hd. change (zlen (A := string) []) with 0. split_and!; [done..|lia|lia]. }
  intros Hr Hst Hd. apply io_bind_Ok in Hr as ([] & w1 & Hlim & Hr).
  apply lift_Ok in Hlim as [Hlim%fail_if_Ok <-]. apply Z.ltb_ge in Hlim.
  apply io_bind_Ok in Hr as ([child s1] & w2 & He & Hr).
  apply io_bind_Ok in Hr as (s2 & w3 & Hp & Hr).
  destruct (count_entry_discovered w s Hlim Hd) as [Hd1 Hseen].
  destruct (process_entry_advances _ _ _ _ _ _ _ He Hst) as (Hw2 & Hseen2 & Hd2).
  pose proof (progress_discovered w2 0 _ _ _ _ Hp (Hd2 Hd1)) as Hd3.
  pose proof (progress_by_steps _ _ _ _ _ Hp) as Hw3. apply progress_Ok in Hp as (_ & _ & Hseen3 & _).
  assert (later w w3) as Hw by (by etrans).
  destruct (IH _ _ _ Hr (transitivity Hst Hw) Hd3) as (Hw' & Hd' & Hs' & Hl').
  split_and!; [by etrans|done|rewrite zlen_cons; lia|].
  rewrite zlen_cons. destruct child; [rewrite zlen_cons in Hl'|]; lia.
Qed.

(** One round of the walk *)
Lemma discover_round skip directory directories s w directories' s' w' :
  (_ ← check_cancelled;
   '(entries, s0) ← directory_entries root directory config s;
   process_entries root config skip (rev entries) directories s0) w = (Ok (directories', s'), w') →
  later start w → discovered w 0 s →
  later w w' ∧ discovered w' 0 s'
  ∧ zlen directories' - ss_entries_seen s' <= zlen directories - ss_entries_seen s.
Proof.
  intros ([] & w1 & Hw1%check_cancelled_by_steps & Hr)%io_bind_Ok Hst Hd.
  apply io_bind_Ok in Hr as ([entries s1] & w2 & He & Hr).
  apply (directory_entries_Ok _ _ _ _ _ _ 0) in He as (Hw2 & Hs1 & Hd1).
  assert (later w w2) as Hw by (by etrans).
  destruct (process_entries_Ok _ _ _ _ _ _ _ _ Hr (transitivity Hst Hw)) as (Hw' & Hd' & Hs' & Hl').
  { apply Hd1. by eapply discovered_later. }
  split_and!; [by etrans|done|lia].
Qed.

(** The walk pops a directory per round, and every directory it has pushed was
    counted. *)
Lemma discover_loop_returns fuel skip directories s w :
  later start w → discovered w 0 s →
  zlen directories + (fsc_max_entries config - ss_entries_seen s) <= Z.of_nat fuel →
  is_Some (discover_loop fuel root config skip directories s w).
Proof.
  revert directories s w. induction fuel as [|fuel IH]; intros [|d directories] s w Hst Hd Hf;
    cbn [discover_loop]; try (by eexists).
  - rewrite zlen_cons in Hf. pose proof (zlen_nonneg directories). pose proof (di_limit _ _ _ Hd). lia.
  - destruct ((check_cancelled ≫= _) w) as [[[directories' s']|e] w'] eqn:Hr; [|by eexists].
    destruct (discover_round _ _ _ _ _ _ _ _ Hr Hst Hd) as (Hw & Hd' & Hl).
    apply IH; [by etrans|done|]. rewrite zlen_cons in Hf. lia.
Qed.

Lemma discover_loop_discovered fuel skip directories s w s' w' :
  discover_loop fuel root config skip directories s w = Some (Ok s', w') →
  later start w → discovered w 0 s → later w w' ∧ discovered w' 0 s'.
Proof.
  revert directories s w. induction fuel as [|fuel IH]; intros [|d directories] s w;
    cbn [discover_loop]; try done; try (by intros [= <- <-]).
  destruct ((check_cancelled ≫= _) w) as [[[directories1 s1]|e] w1] eqn:Hr; [|done].
  intros Hl Hst Hd. destruct (discover_round _ _ _ _ _ _ _ _ Hr Hst Hd) as (Hw & Hd' & _).
  destruct (IH _ _ _ Hl (transitivity Hst Hw) Hd') as [??]. split; [by etrans|done].
Qed.

Lemma new_scan_discovered w : discovered w 0 new_scan.
Proof. split; [constructor..|done|simpl; lia]. Qed.

Lemma discover_spec skip w : later start w →
  discover_loop (discover_fuel config) root config skip [root] new_scan w
  = Some (discover root config skip new_scan w).
Proof.
  intros Hst. unfold discover.
  destruct (discover_loop_returns (discover_fuel config) skip [root] new_scan w)
    as [r ->]; [done|apply new_scan_discovered| |done].
  unfold discover_fuel. change (zlen [root]) with 1. cbn [new_scan ss_entries_seen]. lia.
Qed.

Lemma discover_discovered skip w s w' : later start w →
  discover root config skip new_scan w = (Ok s, w') → later w w' ∧ discovered w' 0 s.
Proof.
  intros Hst Hd. pose proof (discover_spec skip w Hst) as Hs. rewrite Hd in Hs.
  eapply discover_loop_discovered; [exact Hs|done|apply new_scan_discovered].
Qed.

(** ** Errors of the walk *)

(** Nothing but cancellation and the limits stops a walk. *)
Definition walk_error (e : ScanError.t) : Prop :=
  e = ScanError.Cancelled ∨ ∃ limit, e = ScanError.LimitExceeded limit.

(** Every error of [m] satisfies [E]. *)
Definition errors_in {A} (E : ScanError.t → Prop) (m : io W ScanError.t A) : Prop :=
  ∀ w e w', m w = (Err e, w') → E e.

Lemma errors_in_bind {A B} E (m : io W ScanError.t A) (f : A → io W ScanError.t B) :
  errors_in E m → (∀ a, errors_in E (f a)) → errors_in E (m ≫= f).
Proof.
  intros Hm Hf w e w' [?|(a & w1 & _ & ?)]%io_bind_Err; [by eapply Hm|by eapply Hf].
Qed.

Lemma errors_in_ret {A} E (a : A) : errors_in E (mret a).
Proof. done. Qed.

Lemma errors_in_fail_if (E : ScanError.t → Prop) (b : bool) e : E e → errors_in E (lift (fail_if b e)).
Proof. intros He w e' w'. by destruct b; [intros [= <- <-]|]. Qed.

Lemma errors_in_cancelled (E : ScanError.t → Prop) : E ScanError.Cancelled → errors_in E check_cancelled.
Proof. intros He w e w'. unfold check_cancelled. by destruct (is_cancelled w) as [[] ?]; [intros [= <- <-]|]. Qed.

Lemma errors_in_progress E stage s : errors_in E (progress stage s).
Proof. done. Qed.

Hint Resolve errors_in_bind errors_in_ret errors_in_fail_if errors_in_cancelled errors_in_progress : core.

Lemma walk_cancelled : walk_error ScanError.Cancelled.
Proof. by left. Qed.
Lemma walk_limit l : walk_error (ScanError.LimitExceeded l).
Proof. right. by eexists. Qed.
Hint Resolve walk_cancelled walk_limit : core.

Lemma collect_entries_errors directory results entries s :
  errors_in walk_error (collect_entries root directory config results entries s).
Proof.
  revert entries s. induction results as [|r results IH]; intros entries s; cbn [collect_entries]; [auto|].
  apply errors_in_bind; [auto|intros _]. apply errors_in_bind; [auto|intros _]. by destruct r.
Qed.

Lemma directory_entries_errors directory s :
  errors_in walk_error (directory_entries root directory config s).
Proof.
  intros w e w'. unfold directory_entries. destruct (sf_read_dir directory w) as [[results|] w1]; [|done].
  revert e w'. generalize w1. clear w w1. intros w. revert w.
  apply errors_in_bind; [apply collect_entries_errors|by intros []].
Qed.

Lemma process_regular_file_errors path relative metadata s :
  errors_in walk_error (process_regular_file path relative metadata config s).
Proof.
  intros w e w'. unfold process_regular_file.
  destruct (media_kind relative), (metadata_kind relative); [..|done];
    (destruct (stream_identity _ _ _ w) as [[identity|[]] w1]; [done|intros [= <- <-]; auto|done]).
Qed.

Lemma process_entry_errors path skip s :
  errors_in walk_error (process_entry root path config skip s).
Proof.
  intros w e w'. unfold process_entry. destruct (sf_symlink_metadata path w) as [[metadata|] w1]; [|done].
  destruct (portable_path _ _ _) as [relative|[]]; [|done..]. destruct (skip relative); [done|].
  destruct (sm_type metadata); [done|done| |done].
  revert e w'. generalize w1. clear w w1. intros w. revert w.
  apply errors_in_bind; [apply process_regular_file_errors|auto].
Qed.

Lemma process_entries_errors skip entries directories s :
  errors_in walk_error (process_entries root config skip entries directories s).
Proof.
  revert directories s. induction entries as [|path entries IH]; intros directories s;
    cbn [process_entries]; [auto|].
  apply errors_in_bind; [auto|intros _]. apply errors_in_bind; [apply process_entry_errors|intros [child s1]].
  apply errors_in_bind; [auto|]. intros s2. apply IH.
Qed.

Lemma discover_round_errors skip directory directories s :
  errors_in walk_error (_ ← check_cancelled;
    '(entries, s0) ← directory_entries root directory config s;
    process_entries root config skip (rev entries) directories s0).
Proof.
  apply errors_in_bind; [auto|intros _].
  apply errors_in_bind; [apply directory_entries_errors|intros [entries s1]].
  apply process_entries_errors.
Qed.

Lemma discover_loop_errors fuel skip directories s w e w' :
  discover_loop fuel root config skip directories s w = Some (Err e, w') → walk_error e.
Proof.
  revert directories s w. induction fuel as [|fuel IH]; intros [|d directories] s w;
    cbn [discover_loop]; try done.
  pose proof (discover_round_errors skip d directories s w) as He.
  destruct ((check_cancelled ≫= _) w) as [[[directories1 s1]|e1] w1]; [apply IH|].
  intros [= <- <-]. by apply (He e1 w1).
Qed.

Lemma discover_errors skip w e w' : later start w →
  discover root config skip new_scan w = (Err e, w') → walk_error e.
Proof.
  intros Hst Hd. pose proof (discover_spec skip w Hst) as Hs. rewrite Hd in Hs.
  by eapply discover_loop_errors.
Qed.
End discovery.
