(* ===== verification/DiscoveryTheorems.v ===== *)
(** * DiscoveryTheorems: what a folder scan promises

    A walk always ends; the plan of a finished scan is valid, and names files the
    scan saw and read, with the digests of the bytes it read.  The witnesses scan a
    directory with one photo. *)
From Stdlib Require Import Ascii.
From S2P Require Export ReconcileTheorems DiscoveryFacts.

Section scan.
  Context {W : Type} `{ScanFs W, Cancellation W, ScanObserver W, UnicodeLib, Codec, TimeLib}.

(** The walk of a source always ends: with [max_entries + 1] rounds of fuel it
    returns, whatever the file system answers, because every round pops a
    directory and every directory it pushes was counted against the limit. *)
Theorem discover_returns root config skip w :
  0 <= fsc_max_entries config < u64_max →
  is_Some (discover_loop (discover_fuel config) root config skip [root] new_scan w).
Proof.
  intros Hl. apply (discover_loop_returns _ _ w); [done..|by apply new_scan_discovered|].
  unfold discover_fuel. change (zlen [root]) with 1. cbn [new_scan ss_entries_seen]. lia.
Qed.

Context `{!CodecLaws}.

Lemma portable_path_Ok root path max relative :
  portable_path root path max = Ok relative → relative ≠ "" ∧ len relative <= max.
Proof.
  unfold portable_path. intros Hp. result_inv. bools. split; [by apply is_empty_false|done].
Qed.

Lemma config_paths config e :
  map_err config_error (folder_validate config) = Ok e → 64 <= fsc_max_path_bytes config <= 65536.
Proof.
  intros Hv%map_err_Ok. unfold folder_validate, in_range in Hv. result_inv. bools. lia.
Qed.

Lemma scan_label_valid root label (w : W) w' :
  validate_root_and_label root label w = (Ok tt, w') → label ≠ "".
Proof.
  intros ([] & w1 & Hl & _)%io_bind_Ok. apply lift_Ok in Hl as [Hl%fail_if_Ok _].
  apply orb_false_iff in Hl as [Hl _]. by apply orb_false_iff in Hl as [Hl%is_empty_false _].
Qed.

Lemma validate_by_steps root label : by_steps (W := W) (validate_root_and_label root label).
Proof.
  apply by_steps_bind; [auto|intros _]. apply by_steps_bind; [|auto].
  apply by_steps_call, step_symlink_metadata.
Qed.

Lemma validate_errors root label (w : W) e w' :
  validate_root_and_label root label w = (Err e, w') → ∀ p, e ≠ ScanError.InvalidPlan p.
Proof.
  unfold validate_root_and_label, symlink_metadata_or.
  intros [[Hl _]%lift_Err|([] & w1 & _ & Hr)]%io_bind_Err;
    [unfold validate_source_label in Hl; apply fail_if_Err in Hl as [_ <-]; done|].
  apply io_bind_Err in Hr as [Hr|(m & w2 & _ & [Hr _]%lift_Err)].
  - destruct (sf_symlink_metadata root w1) as [[] ?]; [done|]. by injection Hr as <- <-.
  - by apply fail_if_Err in Hr as [_ <-].
Qed.

(** What was found is well formed. *)
Lemma media_found_ok root config start w errors m :
  64 <= fsc_max_path_bytes config <= 65536 → media_found root config start w errors m → media_ok m.
Proof.
  intros Hc [[Hp (content & _ & _ & Hsha & _) _] _ (Hmeta & Hn & _) He _].
  apply portable_path_Ok in Hp as [Hne Hlen]. split.
  - done.
  - unfold fits, u64_max. lia.
  - rewrite Hsha. apply sha256_hex_64.
  - rewrite He. repeat constructor. discriminate.
  - rewrite Hmeta. constructor.
  - by rewrite Hn.
Qed.

(** What is found before a scan is reconciled *)
Lemma find_files_cases root label config skip w r w' :
  0 <= fsc_max_entries config < u64_max →
  find_files root label config skip w = (r, w') →
  match r with
  | Ok s => discovered root config w w' 0 s ∧ 64 <= fsc_max_path_bytes config <= 65536 ∧ label ≠ ""
  | Err e => ∀ p, e ≠ ScanError.InvalidPlan p
  end.
Proof.
  intros Hl. unfold find_files. unfold mbind at 1, io_bind.
  destruct (lift (map_err config_error (folder_validate config)) w) as [[u|e] w1] eqn:Hv.
  2:{ apply lift_Err in Hv as [Hv _]. intros [= <- _]. by apply map_err_Err in Hv as ([] & _ & <-). }
  apply lift_Ok in Hv as [Hv <-]. apply config_paths in Hv. unfold mbind at 1.
  destruct (validate_root_and_label root label w) as [[[]|e] w2] eqn:Hlabel.
  2:{ intros [= <- _]. by eapply validate_errors. }
  pose proof (validate_by_steps _ _ _ _ _ Hlabel) as Hw2.
  apply scan_label_valid in Hlabel. unfold mbind at 1.
  destruct (discover root config skip new_scan w2) as [[s|e] w3] eqn:Hd.
  2:{ intros [= <- _]. apply (discover_errors _ _ w) in Hd; [|done..]. destruct Hd; naive_solver. }
  apply (discover_discovered _ _ w) in Hd as [_ Hd]; [|done..]. unfold mbind at 1.
  destruct (check_cancelled w3) as [[u2|e] w4] eqn:Hc; intros [= <- <-].
  { split; [|done]. eapply discovered_later; [by eapply check_cancelled_by_steps|done]. }
  apply (errors_in_cancelled (λ e, e = ScanError.Cancelled)) in Hc; naive_solver.
Qed.

(** A scan is its finding, then the finished reconciled state. *)
Lemma scan_resolved_internal_result root label config (strategy : ScanStrategy (W := W)) w r w' :
  scan_resolved_internal root label config strategy w = (r, w') →
  match find_files root label config (st_skip_path strategy) w with
  | (Ok s, w1) =>
    r = finish_state (st_schema_version strategy) (st_source_kind strategy) label config
          (st_reconcile_state strategy s w1).1
  | (Err e, _) => r = Err e
  end.
Proof.
  unfold scan_resolved_internal. unfold mbind at 1, io_bind.
  destruct (find_files _ _ _ _ w) as [[s|e] w1]; [|by intros [= <- _]].
  unfold mbind at 1, run_reconcile. destruct (st_reconcile_state strategy s w1) as [s1 w2]. cbn [fst].
  intros Hr. unfold progress, observe_event, mbind, io_bind, mret, io_ret, lift in Hr.
  change (finish_state (st_schema_version strategy) (st_source_kind strategy) label config
    (set_counters (ss_entries_seen s1) (ss_bytes_read s1) (sat_add (ss_event_sequence s1) 1) s1))
    with (finish_state (st_schema_version strategy) (st_source_kind strategy) label config s1) in Hr.
  destruct (finish_state _ _ _ _ _); by injection Hr as <- _.
Qed.

(** After the finding come the reconciler's own steps and two reports. *)
Lemma scan_resolved_internal_later root label config (strategy : ScanStrategy (W := W)) w r w' s w1 :
  scan_resolved_internal root label config strategy w = (r, w') →
  find_files root label config (st_skip_path strategy) w = (Ok s, w1) →
  later (st_reconcile_state strategy s w1).2 w'.
Proof.
  unfold scan_resolved_internal. unfold mbind at 1, io_bind. intros Hr Hf. rewrite Hf in Hr.
  unfold mbind at 1, run_reconcile in Hr. destruct (st_reconcile_state strategy s w1) as [s1 w2]. cbn [snd].
  revert Hr. match goal with |- ?m w2 = _ → _ => cut (by_steps m); [intros Hm; by apply Hm|] end.
  apply by_steps_bind; [apply progress_by_steps|intros s2].
  apply by_steps_bind; [auto|intros resolved]. apply by_steps_bind; [|auto].
  intros w0 r0 w3 [= _ <-]. apply rtc_once, step_progress.
Qed.

Lemma prepare_keeps_errors s : keeps_errors s (reconcile s).
Proof.
  intros d Hd. apply (proj2 (prepared_reports s)). destruct (prepare_media s) as (_ & _ & -> & _).
  apply elem_of_app. by left.
Qed.

(** A file of the reconciled state is one that was found. *)
Lemma reconciled_found root config start w w' s m :
  discovered root config start w 0 s → later w w' → m ∈ ss_media (reconcile s) →
  found_at root config start w' (ss_errors (reconcile s)) (dm_native_path m) (dm_relative_path m)
    (dm_byte_len m) (dm_content_sha256 m) (dm_content_sha1_base64 m)
  ∧ media_kind (dm_relative_path m) = Some (dm_kind m).
Proof.
  intros Hd Hw (i & m0 & Hm0 & _ & Hf)%reconcile_elem.
  apply list_elem_of_lookup_2, elem_of_prepare_media in Hm0 as [Hin _].
  pose proof (di_media _ _ _ _ _ _ Hd) as Hall. rewrite Forall_forall in Hall.
  destruct (Hall m0 Hin) as [Hat Hk _ _ _].
  destruct (same_file_fields m0 m (rf_same _ _ _ _ Hf)) as (<- & <- & <- & <- & Hfile).
  assert (dm_native_path m = dm_native_path m0 ∧ dm_content_sha1_base64 m = dm_content_sha1_base64 m0)
    as [-> ->] by (split; [exact (eq_sym (f_equal rsf_native_path Hfile))
                          |exact (eq_sym (f_equal rsf_content_sha1_base64 Hfile))]).
  split; [|done]. eapply found_at_keeps; [apply prepare_keeps_errors|exact Hw|done].
Qed.

(** The file of an asset of a plan, found between two worlds *)
Definition asset_found (root : string) (config : FolderScanConfig) (w w' : W) (resolved : ResolvedFolderPlan)
    (a : CandidateAsset) : Prop :=
  ∃ f, source_file resolved (ca_relative_path a) = Some f
    ∧ rsf_byte_len f = ca_byte_len a ∧ rsf_content_sha256 f = ca_content_sha256 a
    ∧ media_kind (ca_relative_path a) = Some (ca_media_kind a)
    ∧ found_at root config w w' (np_errors (rfp_plan resolved)) (rsf_native_path f)
        (ca_relative_path a) (ca_byte_len a) (ca_content_sha256 a) (rsf_content_sha1_base64 f).

(** C32: a folder scan is sound.  A plan it returns is well formed and names only files
    below the root: each asset resolves to a file whose portable path is the
    asset's, that was seen during the scan as a regular file and has a media extension;
    during the scan the file was opened and read in chunks, up to its length or its
    end, and the asset's length and the two digests are those of the bytes these
    reads returned; and the length is the listed one unless the plan reports that the
    file changed during the scan.  The scan never fails with an invalid plan, with one
    exception: two of the files it found collide under SHA-256, their operation texts
    (path, digest and length) being different with one hash. *)
Theorem scan_folder_sound root label config w r w' :
  0 <= fsc_max_entries config < u64_max →
  scan_folder_resolved root label config w = (r, w') →
  match r with
  | Ok resolved =>
    plan_well_formed (rfp_plan resolved)
    ∧ ∀ a, a ∈ np_assets (rfp_plan resolved) → asset_found root config w w' resolved a
  | Err (ScanError.InvalidPlan _) =>
    ∃ s w1, find_files root label config keep_all_paths w = (Ok s, w1)
      ∧ id_collision (ss_media (reconcile s))
  | Err _ => True
  end.
Proof.
  intros Hl Hs.
  assert (∀ s w1, find_files root label config keep_all_paths w = (Ok s, w1) → later w1 w') as Hlater
    by (intros s w1; exact (scan_resolved_internal_later _ _ _ _ _ _ _ s w1 Hs)).
  apply scan_resolved_internal_result in Hs.
  cbn [FOLDER_SCAN st_schema_version st_source_kind st_reconcile_state st_skip_path] in Hs.
  destruct (find_files root label config keep_all_paths w) as [[s|e] w1] eqn:Hfind;
    pose proof (find_files_cases root label config keep_all_paths w _ _ Hl Hfind) as Hd.
  2:{ subst r. destruct e; try done. by destruct (Hd error). }
  destruct Hd as (Hd & Hpaths & Hlabel). subst r. cbn [fst].
  specialize (Hlater s w1 eq_refl).
  pose proof (di_media _ _ _ _ _ _ Hd) as Hm.
  assert (Forall media_ok (ss_media s)) as Hok.
  { eapply Forall_impl; [exact Hm|]. intros m. by apply media_found_ok. }
  assert (Forall (λ m, dm_normalized_metadata m = None) (ss_media s)) as Hnone.
  { eapply Forall_impl; [exact Hm|]. by intros m [_ _ (_ & ? & _) _ _]. }
  pose proof (finish_state_valid 1 Folder label config s Hok Hnone schema_1_folder Hlabel) as Hvalid.
  fold NORMALIZED_PLAN_SCHEMA_VERSION in Hvalid.
  destruct (finish_state _ _ _ _ _) as [resolved|e] eqn:Hr.
  - clear Hvalid. pose proof Hr as ->%finish_state_Ok. split.
    { unfold finish_state, finish_resolved in Hr. apply normalized_validate_Ok.
      by destruct (Planning.validate _) as [[]|]. }
    intros a Ha. pose proof Ha as (m & -> & Hin)%elem_of_assets. exists (media_file m).
    destruct (reconciled_found root config w w1 w' s m Hd Hlater Hin) as [Hat Hk].
    split_and!; [|done|done|done|exact Hat].
    apply resolved_file, elem_of_app. left. apply elem_of_map. by exists m.
  - destruct Hvalid as [|Hcol]; [done|]. destruct e; try done. by exists s, w1.
Qed.
End scan.

(** ** Witnesses *)

(** A directory with one photo and a link; the world is the rest of the open file. *)
Definition photo_meta (t : FileType.t) : ScanMeta := {|
  sm_type := t; sm_mode := 420; sm_len := 1; sm_modified := Some 1; sm_created := None;
  sm_dev := 1; sm_ino := 2 |}.
Definition photo_stat (path : string) : option ScanMeta :=
  if String.eqb path "/photos" then Some (photo_meta FileType.Dir)
  else if String.eqb path "/photos/a.jpg" then Some (photo_meta FileType.File)
  else if String.eqb path "/photos/link" then Some (photo_meta FileType.Symlink) else None.
Definition photo_fs : ScanFs string := {|
  sf_symlink_metadata path w := (photo_stat path, w);
  sf_metadata path w := (photo_stat path, w);
  sf_read_dir path w :=
    (if String.eqb path "/photos" then Some [Some "link"; Some "a.jpg"] else None, w);
  sf_open path w := (String.eqb path "/photos/a.jpg", "x");
  sf_file_metadata w := (Some (photo_meta FileType.File), w);
  sf_read limit w := (Some w, "") |}.
Definition photo_cancellation : Cancellation string := {| is_cancelled w := (false, w) |}.
Definition photo_observer : ScanObserver string := {| observe_progress _ w := w |}.

Section witnesses.
  #[local] Existing Instances checksum_codec sample_time sample_unicode photo_fs photo_cancellation
    photo_observer.

Lemma discover_returns_witness :
  is_Some (discover_loop (discover_fuel sample_folder_config) "/photos" sample_folder_config
    keep_all_paths ["/photos"] new_scan "").
Proof. apply (discover_returns "/photos" sample_folder_config keep_all_paths ""). vm_compute. split; congruence. Defined.

Notation photo_scan := (scan_folder_resolved "/photos" "photos" sample_folder_config "").

Example photo_scan_ok :
  map (λ a, (ca_relative_path a, ca_content_sha256 a)) (match photo_scan.1 with
    | Ok resolved => np_assets (rfp_plan resolved) | Err _ => [] end)
  = [("a.jpg", sha256_hex "x")].
Proof. vm_compute. reflexivity. Qed.

Lemma photo_scan_returns : ∃ resolved w, photo_scan = (Ok resolved, w).
Proof. vm_compute. eexists _, _. reflexivity. Qed.

Lemma scan_folder_sound_witness : ∃ resolved w,
  photo_scan = (Ok resolved, w) ∧ plan_well_formed (rfp_plan resolved)
  ∧ ∀ a, a ∈ np_assets (rfp_plan resolved) →
      asset_found "/photos" sample_folder_config "" w resolved a.
Proof.
  destruct photo_scan_returns as (resolved & w & Hs). exists resolved, w. split; [exact Hs|].
  assert (0 <= fsc_max_entries sample_folder_config < u64_max) as Hl by (vm_compute; split; congruence).
  exact ((scan_folder_sound "/photos" "photos" sample_folder_config "" (Ok resolved) w Hl Hs)).
Defined.
End witnesses.
