(* ===== verification/ScanAccess.v ===== *)
(** * ScanAccess: what a scan touches

    The scan of [Discovery] run on a file system that logs its accesses: every
    path below the root is looked at before it is listed or opened, only
    directories are listed and only regular files opened, so no symbolic link the
    scan has seen is followed. *)
From S2P Require Export DiscoveryTheorems.

(** ** The log

    The file system of the scan, instrumented with the list of its accesses. *)
Inductive Access :=
  | Stat (path : string) (metadata : option ScanMeta)
  | Follow (path : string)
  | ListDir (path : string)
  | OpenFile (path : string).

Section logged.
  Context {W : Type} `{ScanFs W, Cancellation W, ScanObserver W}.

Definition logged {A} (a : A → Access) (r : A * W) (log : list Access) : A * (W * list Access) :=
  (r.1, (r.2, log ++ [a r.1])).

#[export] Instance logged_fs : ScanFs (W * list Access) := {|
  sf_symlink_metadata path w := logged (Stat path) (sf_symlink_metadata path w.1) w.2;
  sf_metadata path w := logged (λ _, Follow path) (sf_metadata path w.1) w.2;
  sf_read_dir path w := logged (λ _, ListDir path) (sf_read_dir path w.1) w.2;
  sf_open path w := logged (λ _, OpenFile path) (sf_open path w.1) w.2;
  sf_file_metadata w := let '(r, w1) := sf_file_metadata w.1 in (r, (w1, w.2));
  sf_read limit w := let '(r, w1) := sf_read limit w.1 in (r, (w1, w.2));
|}.
#[export] Instance logged_cancellation : Cancellation (W * list Access) := {|
  is_cancelled w := let '(r, w1) := is_cancelled w.1 in (r, (w1, w.2)) |}.
#[export] Instance logged_observer : ScanObserver (W * list Access) := {|
  observe_progress event w := (observe_progress event w.1, w.2) |}.
End logged.

(** A path made of the root and the names of entries. *)
Inductive below (root : string) : string → Prop :=
  | below_root : below root root
  | below_entry directory name : below root directory → below root (path_join directory name).

(** The path was seen to have this type. *)
Definition seen_as (log : list Access) (path : string) (t : FileType.t) : Prop :=
  ∃ metadata, Stat path (Some metadata) ∈ log ∧ sm_type metadata = t.

(** A directory is listed and a file opened only after it was seen to be one; a
    path is followed only after it was opened. *)
Definition allowed (root : string) (log : list Access) (a : Access) : Prop :=
  match a with
  | Stat path _ => below root path
  | Follow path => OpenFile path ∈ log
  | ListDir path => below root path ∧ seen_as log path FileType.Dir
  | OpenFile path => below root path ∧ seen_as log path FileType.File
  end.

Inductive guarded (root : string) : list Access → Prop :=
  | guarded_nil : guarded root []
  | guarded_snoc log a : guarded root log → allowed root log a → guarded root (log ++ [a]).

Section touches.
  Context {W : Type} `{ScanFs W, Cancellation W, ScanObserver W, UnicodeLib, Codec, TimeLib}.
  Variable root : string.
  Notation world := (W * list Access)%type.

(** A step that keeps the log guarded and only adds to it. *)
Definition careful {E A} (P : list Access → Prop) (m : io world E A)
    (Q : A → list Access → Prop) : Prop :=
  ∀ w r w', m w = (r, w') → guarded root w.2 → P w.2 →
    guarded root w'.2 ∧ w.2 ⊆ w'.2 ∧ ∀ a, r = Ok a → Q a w'.2.

Lemma careful_bind {E A B} P (Q : A → list Access → Prop) R (m : io world E A) (f : A → io world E B) :
  careful P m Q → (∀ a, careful (Q a) (f a) R) → careful P (m ≫= f) R.
Proof.
  intros Hm Hf w r w' Hr Hg Hp. unfold mbind, io_bind in Hr.
  destruct (m w) as [[a|e] w1] eqn:Hmw.
  - destruct (Hm w (Ok a) w1 Hmw Hg Hp) as (Hg1 & Hsub & HQ).
    destruct (Hf a w1 r w' Hr Hg1 (HQ a eq_refl)) as (? & ? & ?). split_and!; [done|by etrans|done].
  - injection Hr as <- <-. destruct (Hm w (Err e) w1 Hmw Hg Hp) as (? & ? & _). by split_and!.
Qed.

Lemma careful_ret {E A} (P : list Access → Prop) (Q : A → list Access → Prop) a :
  (∀ log, P log → Q a log) → careful (E := E) P (mret a) Q.
Proof. intros HQ w r w' [= <- <-] Hg Hp. split_and!; [done|done|]. intros b [= <-]. by apply HQ. Qed.

Lemma careful_weaken {E A} (P P' : list Access → Prop) (Q Q' : A → list Access → Prop) (m : io world E A) :
  careful P m Q → (∀ log, P' log → P log) → (∀ a log, Q a log → Q' a log) → careful P' m Q'.
Proof.
  intros Hm HP HQ w r w' Hr Hg Hp. destruct (Hm w r w' Hr Hg (HP _ Hp)) as (? & ? & ?).
  split_and!; [done|done|naive_solver].
Qed.

(** A fact that stays true of longer logs. *)
Class Stable (P : list Access → Prop) : Prop := stable l l' : l ⊆ l' → P l → P l'.

#[local] Instance stable_const (P : Prop) : Stable (λ _, P).
Proof. by intros l l' _. Qed.
#[local] Instance stable_seen path t : Stable (λ log, seen_as log path t).
Proof. intros l l' Hl (m & Hm & ?). exists m. split; [by apply Hl|done]. Qed.
#[local] Instance stable_opened path : Stable (λ log, OpenFile path ∈ log).
Proof. intros l l' Hl ?. by apply Hl. Qed.
#[local] Instance stable_stat path m : Stable (λ log, Stat path m ∈ log).
Proof. intros l l' Hl ?. by apply Hl. Qed.
#[local] Instance stable_and P Q : Stable P → Stable Q → Stable (λ log, P log ∧ Q log).
Proof. intros HP HQ l l' Hl [? ?]. split; [by eapply HP|by eapply HQ]. Qed.
#[local] Instance stable_Forall {A} (P : A → list Access → Prop) k :
  (∀ a, Stable (P a)) → Stable (λ log, Forall (λ a, P a log) k).
Proof. intros HP l l' Hl Hk. eapply Forall_impl; [exact Hk|]. intros a. by apply HP. Qed.

(** A frame: what was true stays true. *)
Lemma careful_frame {E A} (F P : list Access → Prop) Q (m : io world E A) `{!Stable F} :
  careful P m Q → careful (λ log, F log ∧ P log) m (λ a log, F log ∧ Q a log).
Proof.
  intros Hm w r w' Hr Hg [Hf Hp]. destruct (Hm w r w' Hr Hg Hp) as (? & Hsub & HQ).
  split_and!; [done|done|]. intros a Ha. split; [by eapply Stable0|by apply HQ].
Qed.

(** Steps that log nothing. *)
Lemma careful_silent {E A} (P : list Access → Prop) (m : io world E A) :
  (∀ w, (m w).2.2 = w.2) → careful P m (λ _, P).
Proof.
  intros Hs w r w' Hr Hg Hp. specialize (Hs w). rewrite Hr in Hs. simpl in Hs. rewrite Hs.
  by split_and!.
Qed.

(** A silent step in front. *)
Lemma careful_then {E A B} P R (m : io world E A) (f : A → io world E B) :
  careful P m (λ _, P) → (∀ a, careful P (f a) R) → careful P (m ≫= f) R.
Proof. apply careful_bind. Qed.

(** Steps that log one access. *)
Lemma guarded_step log a : guarded root log → allowed root log a →
  guarded root (log ++ [a]) ∧ log ⊆ log ++ [a] ∧ a ∈ log ++ [a].
Proof.
  intros Hg Ha. split_and!; [by constructor|by intros b Hb; apply elem_of_app; left|].
  apply elem_of_app. right. left.
Qed.

(** *** Reading a file *)

Lemma hash_loop_silent fuel file_len buffer n content (w : world) r w' :
  hash_loop fuel file_len buffer n content w = Some (r, w') → w'.2 = w.2.
Proof.
  revert n content w. induction fuel as [|fuel IH]; intros n content w; [done|]. cbn [hash_loop].
  destruct (n <? file_len); [|by intros [= <- <-]].
  cbn [is_cancelled logged_cancellation]. destruct (is_cancelled w.1) as [[] w1]; [by intros [= <- <-]|].
  cbn [sf_read logged_fs fst snd]. destruct (sf_read _ w1) as [[chunk|] w2]; [|by intros [= <- <-]].
  destruct (is_empty chunk); [by intros [= <- <-]|].
  destruct (checked_add n (len chunk)); [|by intros [= <- <-]]. by intros ->%IH.
Qed.

Lemma stream_identity_careful path metadata buffer :
  careful (λ log, below root path ∧ seen_as log path FileType.File)
    (stream_identity (W := world) path metadata buffer) (λ _ _, True).
Proof.
  unfold stream_identity.
  apply careful_then; [by apply careful_silent|intros _].
  apply (careful_bind _ (λ _ log, OpenFile path ∈ log)).
  { intros w r w' Hr Hg Hp. unfold ok_or_unreadable in Hr. cbn [sf_open logged_fs] in Hr.
    unfold logged in Hr. destruct (sf_open path w.1) as [b w1]. cbn [fst snd] in Hr.
    destruct (guarded_step w.2 (OpenFile path) Hg Hp) as (? & ? & ?).
    destruct b; injection Hr as <- <-; by split_and!. }
  intros _. apply careful_then; [apply careful_silent|intros opened].
  { intros w. unfold ok_or_unreadable. cbn [sf_file_metadata logged_fs].
    by destruct (sf_file_metadata w.1) as [[] ?]. }
  apply careful_then; [apply careful_silent|intros [n content]].
  { intros w. unfold hash_file. destruct (hash_loop _ _ _ _ _ w) as [[r w']|] eqn:Hh; [|done].
    by apply hash_loop_silent in Hh. }
  apply careful_then; [apply careful_silent|intros after_open].
  { intros w. unfold ok_or_unreadable. cbn [sf_file_metadata logged_fs].
    by destruct (sf_file_metadata w.1) as [[] ?]. }
  apply (careful_bind _ (λ _ _, True)); [|intros after_path; by apply careful_ret].
  intros w r w' Hr Hg Hp. unfold ok_or_unreadable in Hr. cbn [sf_metadata logged_fs] in Hr.
  unfold logged in Hr. destruct (sf_metadata path w.1) as [b w1]. cbn [fst snd] in Hr.
  destruct (guarded_step w.2 (Follow path) Hg Hp) as (? & ? & ?).
  injection Hr as <- <-; by split_and!.
Qed.

(** *** Walking *)

Lemma progress_careful P stage s : careful P (progress (W := world) stage s) (λ _, P).
Proof. by apply careful_silent. Qed.

Lemma check_cancelled_careful P : careful P (check_cancelled (W := world)) (λ _, P).
Proof.
  apply careful_silent. intros w. unfold check_cancelled. cbn [is_cancelled logged_cancellation].
  by destruct (is_cancelled w.1).
Qed.

Lemma process_regular_file_careful path relative metadata config s :
  careful (λ log, below root path ∧ seen_as log path FileType.File)
    (process_regular_file (W := world) path relative metadata config s) (λ _ _, True).
Proof.
  intros w r w' Hr Hg Hp. unfold process_regular_file in Hr.
  destruct (media_kind relative), (metadata_kind relative);
    [..|injection Hr as <- <-; by split_and!];
    (destruct (stream_identity path metadata (fsc_buffer_bytes config) w) as [ri w1] eqn:Hs;
     destruct (stream_identity_careful _ _ _ _ _ _ Hs Hg Hp) as (Hg1 & Hsub & _);
     destruct ri as [identity|[]]; injection Hr as <- <-; by split_and!).
Qed.

Definition listable (log : list Access) (directory : string) : Prop :=
  below root directory ∧ seen_as log directory FileType.Dir.

#[local] Instance stable_listable directory : Stable (λ log, listable log directory).
Proof. intros l l' Hl [? Hd]. split; [done|]. by apply (stable_seen _ _ l l'). Qed.

Lemma process_entry_careful path config skip s :
  careful (λ _, below root path) (process_entry (W := world) root path config skip s)
    (λ r log, ∀ child, r.1 = Some child → listable log child).
Proof.
  intros w r w' Hr Hg Hp. unfold process_entry in Hr. cbn [sf_symlink_metadata logged_fs] in Hr.
  unfold logged in Hr. destruct (sf_symlink_metadata path w.1) as [m w1]. cbn [fst snd] in Hr.
  destruct (guarded_step w.2 (Stat path m) Hg Hp) as (Hg1 & Hsub1 & Hin).
  destruct m as [metadata|]; [|injection Hr as <- <-; split_and!; [done|done|by intros ? [= <-]]].
  destruct (portable_path root path _) as [relative|[]];
    [|injection Hr as <- <-; split_and!; [done|done|by intros ? [= <-]]..].
  destruct (skip relative); [injection Hr as <- <-; split_and!; [done|done|by intros ? [= <-]]|].
  destruct (sm_type metadata) eqn:Ht;
    [|injection Hr as <- <-; split_and!; [done|done|by intros ? [= <-]]
    | |injection Hr as <- <-; split_and!; [done|done|by intros ? [= <-]]].
  - injection Hr as <- <-. split_and!; [done|done|]. intros a [= <-] child [= <-].
    split; [done|]. by exists metadata.
  - assert (below root path ∧ seen_as (w1, w.2 ++ [Stat path (Some metadata)]).2 path FileType.File)
      as Hpre by (split; [done|by exists metadata]).
    assert (careful (λ log, below root path ∧ seen_as log path FileType.File)
      (s0 ← process_regular_file (W := world) path relative metadata config s; mret (None, s0))
      (λ (r : option string * ScanState) log, ∀ child, r.1 = Some child → listable log child)) as Hc.
    { eapply careful_bind; [apply process_regular_file_careful|]. intros s1. by apply careful_ret. }
    destruct (Hc _ _ _ Hr Hg1 Hpre) as (? & ? & ?). split_and!; [done|by etrans|done].
Qed.

Lemma collect_entries_careful directory config results entries s :
  below root directory → Forall (below root) entries →
  careful (λ _, True) (collect_entries (W := world) root directory config results entries s)
    (λ r _, Forall (below root) r.1).
Proof.
  intros Hd. revert entries s. induction results as [|r results IH]; intros entries s He;
    cbn [collect_entries]; [by apply careful_ret|].
  apply careful_then; [apply check_cancelled_careful|intros _].
  apply careful_then; [by apply careful_silent|intros _].
  destruct r as [name|]; apply IH; [|done].
  apply Forall_app. split; [done|]. apply Forall_singleton. by constructor.
Qed.

Lemma directory_entries_careful directory config s :
  careful (λ log, listable log directory)
    (directory_entries (W := world) root directory config s) (λ r _, Forall (below root) r.1).
Proof.
  intros w r w' Hr Hg Hp. unfold directory_entries in Hr. cbn [sf_read_dir logged_fs] in Hr.
  unfold logged in Hr. destruct (sf_read_dir directory w.1) as [m w1]. cbn [fst snd] in Hr.
  destruct (guarded_step w.2 (ListDir directory) Hg Hp) as (Hg1 & Hsub1 & _).
  destruct m as [results|]; [|injection Hr as <- <-; split_and!; [done|done|by intros a [= <-]]].
  assert (careful (λ _, True)
    ('(entries, s0) ← collect_entries (W := world) root directory config results [] s;
     mret (sort_by (λ a b, leb_of String.compare (portable_sort_key root a)
                                                 (portable_sort_key root b)) entries, s0))
    (λ r _, Forall (below root) r.1)) as Hc.
  { eapply careful_bind; [apply collect_entries_careful; [apply Hp|constructor]|].
    intros [entries s1]. apply careful_ret. intros log He. simpl in *.
    by rewrite sort_by_perm. }
  destruct (Hc _ _ _ Hr Hg1 I) as (? & ? & ?). split_and!; [done|by etrans|done].
Qed.

Lemma process_entries_careful config skip entries directories s :
  Forall (below root) entries →
  careful (λ log, Forall (listable log) directories)
    (process_entries (W := world) root config skip entries directories s)
    (λ r log, Forall (listable log) r.1).
Proof.
  revert directories s. induction entries as [|path entries IH]; intros directories s He;
    cbn [process_entries]; [by apply careful_ret|]. apply Forall_cons in He as [Hp He].
  apply careful_then; [by apply careful_silent|intros _].
  apply (careful_bind _ (λ r log, Forall (listable log) directories
    ∧ ∀ child, r.1 = Some child → listable log child)).
  { pose proof (careful_frame (λ log, Forall (listable log) directories) _ _ _
      (process_entry_careful path config skip (count_entry s))) as Hframe.
    eapply careful_weaken; [exact Hframe|by intros log ?|done]. }
  intros [child s1]. apply careful_then; [apply progress_careful|intros s2]. simpl.
  eapply careful_weaken; [apply IH; done| |done]. intros log [Hdirs Hchild].
  destruct child; [constructor|]; auto.
Qed.

Lemma discover_loop_careful fuel config skip directories s w r w' :
  discover_loop (W := world) fuel root config skip directories s w = Some (r, w') →
  guarded root w.2 → Forall (listable w.2) directories → guarded root w'.2 ∧ w.2 ⊆ w'.2.
Proof.
  revert directories s w. induction fuel as [|fuel IH]; intros [|d directories] s w;
    cbn [discover_loop]; try done; try (by intros [= <- <-]; split).
  assert (careful (λ log, listable log d ∧ Forall (listable log) directories)
    (_ ← check_cancelled;
     '(entries, s0) ← directory_entries (W := world) root d config s;
     process_entries root config skip (rev entries) directories s0)
    (λ r log, Forall (listable log) r.1)) as Hc.
  { apply careful_then; [apply check_cancelled_careful|intros _].
    apply (careful_bind _ (λ r log, Forall (listable log) directories ∧ Forall (below root) r.1)).
    - pose proof (careful_frame (λ log, Forall (listable log) directories) _ _ _
        (directory_entries_careful d config s)) as Hframe.
      eapply careful_weaken; [exact Hframe|by intros log [? ?]|done].
    - intros [entries s1] w1 r1 w2 Hr Hg [Hdirs He]. simpl in He.
      refine (process_entries_careful config skip (rev entries) directories s1 _ w1 r1 w2 Hr Hg Hdirs).
      by apply Forall_rev. }
  intros Hr Hg Hd. apply Forall_cons in Hd.
  destruct ((check_cancelled ≫= _) w) as [[[directories1 s1]|e] w1] eqn:Hround;
    destruct (Hc _ _ _ Hround Hg Hd) as (Hg1 & Hsub & Hdirs).
  - destruct (IH _ _ _ Hr Hg1 (Hdirs (directories1, s1) eq_refl)) as [? ?]. split; [done|by etrans].
  - by injection Hr as <- <-.
Qed.

Lemma validate_root_careful label :
  careful (λ _, True) (validate_root_and_label (W := world) root label) (λ _ log, listable log root).
Proof.
  unfold validate_root_and_label. apply careful_then; [by apply careful_silent|intros []].
  apply (careful_bind _ (λ m log, Stat root (Some m) ∈ log)).
  - intros w1 r1 w2 Hr Hg _. unfold symlink_metadata_or in Hr.
    cbn [sf_symlink_metadata logged_fs] in Hr. unfold logged in Hr.
    destruct (sf_symlink_metadata root w1.1) as [m w3]. cbn [fst snd] in Hr.
    destruct (guarded_step w1.2 (Stat root m) Hg (below_root root)) as (? & ? & ?).
    injection Hr as <- <-. split_and!; [done|done|]. intros a Ha. by destruct m; simplify_eq/=.
  - intros m w1 r1 w2 Hr Hg Hm. injection Hr as Hr <-. split_and!; [done|done|].
    intros [] ->. apply fail_if_Ok, negb_false_iff, bool_decide_eq_true in Hr.
    split; [constructor|]. by exists m.
Qed.

Lemma discover_careful config skip :
  careful (λ log, listable log root) (discover (W := world) root config skip new_scan) (λ _ _, True).
Proof.
  intros w r w' Hr Hg Hroot. unfold discover in Hr.
  destruct (discover_loop _ _ _ _ _ _ w) as [[r1 w1]|] eqn:Hl; [|by injection Hr as <- <-].
  injection Hr as <- <-.
  apply discover_loop_careful in Hl as [? ?]; [by split_and!|done|by apply Forall_singleton].
Qed.

Lemma find_files_careful label config skip :
  careful (λ _, True) (find_files (W := world) root label config skip) (λ _ _, True).
Proof.
  unfold find_files. apply careful_then; [by apply careful_silent|intros _].
  eapply careful_bind; [apply validate_root_careful|intros ?].
  eapply careful_bind; [apply discover_careful|intros s].
  apply careful_then; [apply check_cancelled_careful|intros _].
  by apply careful_ret.
Qed.

Lemma scan_careful label config (strategy : ScanStrategy (W := world)) f :
  st_reconcile_state strategy = (λ s w, (f s, w)) →
  careful (λ _, True) (scan_resolved_internal (W := world) root label config strategy) (λ _ _, True).
Proof.
  intros Hf. unfold scan_resolved_internal. eapply careful_bind; [apply find_files_careful|intros s].
  apply careful_then; [apply careful_silent; intros w; unfold run_reconcile; by rewrite Hf|intros s0].
  apply careful_then; [apply progress_careful|intros s1].
  apply careful_then; [by apply careful_silent|intros resolved].
  apply careful_then; [by apply careful_silent|intros _].
  by apply careful_ret.
Qed.

(** C33: a scan whose reconciler reads nothing (folders, Apple Photos, Picasa) follows
    no link it has seen and touches nothing outside its root: run on a logging file system, every path it looks at is the
    root or made of the root and names of entries, it lists a path only after it
    saw a directory there, opens a path only after it saw a regular file there, and
    follows a path only after opening it; whatever the file system answers, and
    also when the scan fails. *)
Theorem scan_touches_found_files label config (strategy : ScanStrategy (W := world)) f w r w' log :
  st_reconcile_state strategy = (λ s w, (f s, w)) →
  scan_resolved_internal (W := world) root label config strategy (w, []) = (r, (w', log)) →
  guarded root log.
Proof.
  intros Hf Hs. destruct (scan_careful label config strategy f Hf _ _ _ Hs (guarded_nil root) I) as (? & _).
  done.
Qed.
End touches.

(** ** Witness *)
Section witnesses.
  #[local] Existing Instances checksum_codec sample_time sample_unicode photo_fs photo_cancellation
    photo_observer.

Definition photo_log : list Access :=
  (scan_resolved_internal "/photos" "photos" sample_folder_config FOLDER_SCAN ("", [])).2.2.

Lemma photo_log_is : ∃ r w,
  scan_resolved_internal "/photos" "photos" sample_folder_config FOLDER_SCAN ("", [])
  = (r, (w, photo_log)).
Proof. eexists _, _. vm_compute. reflexivity. Qed.

Lemma scan_touches_found_files_witness :
  guarded "/photos" photo_log
  ∧ OpenFile "/photos/a.jpg" ∈ photo_log ∧ OpenFile "/photos/link" ∉ photo_log.
Proof.
  destruct photo_log_is as (r & w & Hs).
  split; [exact (scan_touches_found_files "/photos" "photos" sample_folder_config FOLDER_SCAN reconcile
    "" r w photo_log eq_refl Hs)|].
  split; [vm_compute; do 4 right; left|].
  vm_compute. intros Hin. repeat (apply elem_of_cons in Hin as [Hin|Hin]; [discriminate|]).
  by apply elem_of_nil in Hin.
Defined.
End witnesses.
