(* ===== verification/Decimal.v ===== *)
(** * Decimal: printing a coordinate and reading it back
    (the number formatting that [crates/immich-core/src/metadata.rs] and
    [crates/immich-sources/src/takeout_metadata.rs] rely on)

    The shortest decimal digits of a binary64 number parse back to the number; a
    coordinate that a source accepts is one that a plan accepts.  Numbers are
    compared as fractions; [scale] makes all powers of two integral. *)
From Stdlib Require Import Ascii.
From S2P Require Export Metadata.

Import F64.

(** ** Fractions with powers *)

(** [2 ^ k <= n / d] *)
Definition pow_le (k n d : Z) : Prop := d * 2 ^ Z.max 0 k <= n * 2 ^ Z.max 0 (- k).

Lemma pow_le_scale k n d K : 0 <= K → 0 <= k + K → pow_le k n d ↔ d * 2 ^ (k + K) <= n * 2 ^ K.
Proof.
  intros HK Hk. unfold pow_le. destruct (Z.le_ge_cases 0 k) as [Hp|Hp].
  - rewrite (Z.max_r 0 k), (Z.max_l 0 (- k)), Z.pow_add_r, Z.mul_assoc by lia.
    rewrite Z.pow_0_r, Z.mul_1_r. apply Z.mul_le_mono_pos_r. lia.
  - rewrite (Z.max_l 0 k), (Z.max_r 0 (- k)) by lia.
    replace (2 ^ K) with (2 ^ (- k) * 2 ^ (k + K)) by (rewrite <- Z.pow_add_r by lia; f_equal; lia).
    rewrite Z.pow_0_r, Z.mul_1_r, Z.mul_assoc. apply Z.mul_le_mono_pos_r. lia.
Qed.

Lemma pow_le_mono j k n d : 0 < d → j <= k → pow_le k n d → pow_le j n d.
Proof.
  intros Hd Hjk. rewrite (pow_le_scale k n d (Z.abs j + Z.abs k)), (pow_le_scale j n d (Z.abs j + Z.abs k)) by lia.
  intros Hk. etrans; [|exact Hk]. apply Z.mul_le_mono_nonneg_l; [lia|]. apply Z.pow_le_mono_r; lia.
Qed.

Lemma log2_ratio_spec n d : 0 < n → 0 < d →
  pow_le (log2_ratio n d) n d ∧ ¬ pow_le (log2_ratio n d + 1) n d.
Proof.
  intros Hn Hd. unfold log2_ratio. set (k := Z.log2 n - Z.log2 d).
  destruct (Z.log2_spec n Hn) as [Hn1 Hn2], (Z.log2_spec d Hd) as [Hd1 Hd2].
  pose proof (Z.log2_nonneg n). pose proof (Z.log2_nonneg d).
  assert (pow_le (k - 1) n d) as Hlow.
  { apply (pow_le_scale _ _ _ (Z.log2 d + 1)); [lia..|]. replace (k - 1 + (Z.log2 d + 1)) with (Z.log2 n) by lia.
    rewrite Z.mul_comm. apply Z.mul_le_mono_nonneg; lia. }
  assert (¬ pow_le (k + 1) n d) as Hhigh.
  { rewrite (pow_le_scale _ _ _ (Z.log2 d)) by lia. replace (k + 1 + Z.log2 d) with (Z.succ (Z.log2 n)) by lia.
    apply Z.lt_nge. apply Z.lt_le_trans with (2 ^ Z.succ (Z.log2 n) * 2 ^ Z.log2 d).
    - apply Z.mul_lt_mono_pos_r; [lia|done].
    - rewrite Z.mul_comm. apply Z.mul_le_mono_nonneg_r; lia. }
  destruct (Z.ltb_spec (n * 2 ^ Z.max 0 (- k)) (d * 2 ^ Z.max 0 k)).
  - replace (k - 1 + 1) with k by lia. split; [done|]. unfold pow_le. lia.
  - split; [|done]. by unfold pow_le.
Qed.

Lemma log2_ratio_unique n d k : 0 < n → 0 < d →
  pow_le k n d → ¬ pow_le (k + 1) n d → log2_ratio n d = k.
Proof.
  intros Hn Hd Hk Hk'. destruct (log2_ratio_spec n d Hn Hd) as [Hl Hl'].
  destruct (Z.lt_trichotomy (log2_ratio n d) k) as [Hlt|[?|Hgt]]; [|done|].
  - destruct Hl'. apply (pow_le_mono _ k); [lia..|done].
  - destruct Hk'. apply (pow_le_mono _ (log2_ratio n d)); [lia..|done].
Qed.

(** ** Rounding *)

(** Round a fraction to the nearest integer, ties to even. *)
Definition nearest (a b : Z) : Z :=
  let q := a / b in
  let r := a mod b in
  if 2 * r <? b then q else if b <? 2 * r then q + 1 else if Z.even q then q else q + 1.

Lemma nearest_scale a b c : 0 < c → 0 < b → nearest (a * c) (b * c) = nearest a b.
Proof.
  intros Hc Hb. unfold nearest. rewrite Z.div_mul_cancel_r, Z.mul_mod_distr_r by lia.
  rewrite Z.mul_assoc.
  assert (∀ x y, (x * c <? y * c) = (x <? y)) as Hl.
  { intros x y. destruct (Z.ltb_spec x y); destruct (Z.ltb_spec (x * c) (y * c)); nia. }
  by rewrite !Hl.
Qed.

Lemma nearest_close a b m : 0 < b → 2 * Z.abs (a - m * b) < b → nearest a b = m.
Proof.
  intros Hb Hm. unfold nearest. set (t := a - m * b) in *.
  destruct (Z.le_ge_cases 0 t) as [Ht|Ht].
  - assert (a / b = m) as Hq by (symmetry; apply Z.div_unique with t; lia).
    assert (a mod b = t) as Hr by (symmetry; apply Z.mod_unique with m; lia).
    rewrite Hq, Hr. destruct (Z.ltb_spec (2 * t) b); lia.
  - assert (t = 0 ∨ t < 0) as [Ht0|Ht'] by lia.
    + assert (a / b = m) as Hq by (symmetry; apply Z.div_unique with t; lia).
      assert (a mod b = t) as Hr by (symmetry; apply Z.mod_unique with m; lia).
      rewrite Hq, Hr. destruct (Z.ltb_spec (2 * t) b); lia.
    + assert (a / b = m - 1) as Hq by (symmetry; apply Z.div_unique with (b + t); lia).
      assert (a mod b = b + t) as Hr by (symmetry; apply Z.mod_unique with (m - 1); lia).
      rewrite Hq, Hr. destruct (Z.ltb_spec (2 * (b + t)) b); [lia|].
      destruct (Z.ltb_spec b (2 * (b + t))); lia.
Qed.

(** [round_ratio] with integral powers; [1075] is one more than the exponents need. *)
Lemma round_ratio_eq n d : 0 < n → 0 < d →
  round_ratio n d =
    let e := Z.max (log2_ratio n d - 52) (-1074) in
    let m := nearest (n * 2 ^ 1075) (d * 2 ^ (e + 1075)) in
    let '(m, e) := if m =? 2 ^ 53 then (2 ^ 52, e + 1) else (m, e) in
    if 971 <? e then None else Some (m, e).
Proof.
  intros Hn Hd. unfold round_ratio. set (e := Z.max (log2_ratio n d - 52) (-1074)).
  assert (-1074 <= e) as He by lia. clearbody e. cbv zeta.
  fold (nearest (n * 2 ^ Z.max 0 (- e)) (d * 2 ^ Z.max 0 e)).
  assert (nearest (n * 2 ^ Z.max 0 (- e)) (d * 2 ^ Z.max 0 e)
    = nearest (n * 2 ^ 1075) (d * 2 ^ (e + 1075))) as ->; [|done].
  remember (Z.min e 0 + 1075) as K eqn:HK.
  rewrite <- (nearest_scale (n * 2 ^ Z.max 0 (- e)) (d * 2 ^ Z.max 0 e) (2 ^ K));
    [|apply Z.pow_pos_nonneg; lia|apply Z.mul_pos_pos; [done|]; apply Z.pow_pos_nonneg; lia].
  rewrite <- !Z.mul_assoc, <- !Z.pow_add_r by lia.
  assert (Z.max 0 (- e) + K = 1075) as -> by lia. by assert (Z.max 0 e + K = e + 1075) as -> by lia.
Qed.

Lemma round_ratio_scale n d c : 0 < n → 0 < d → 0 < c → round_ratio (n * c) (d * c) = round_ratio n d.
Proof.
  intros Hn Hd Hc. rewrite !round_ratio_eq by nia.
  assert (∀ k, pow_le k (n * c) (d * c) ↔ pow_le k n d) as Hp.
  { intros k. unfold pow_le. rewrite <- !Z.mul_assoc, !(Z.mul_comm c), !Z.mul_assoc.
    symmetry. by apply Z.mul_le_mono_pos_r. }
  assert (log2_ratio (n * c) (d * c) = log2_ratio n d) as ->.
  { destruct (log2_ratio_spec n d Hn Hd). apply log2_ratio_unique; [nia|nia|by apply Hp|by rewrite Hp]. }
  cbv zeta. set (e := Z.max _ _). rewrite <- !Z.mul_assoc, !(Z.mul_comm c), !Z.mul_assoc.
  rewrite nearest_scale; [done|done|]. apply Z.mul_pos_pos; [done|]. apply Z.pow_pos_nonneg; lia.
Qed.

(** Equal fractions round equally. *)
Lemma round_ratio_cross n d n' d' : 0 < n → 0 < d → 0 < n' → 0 < d' →
  n * d' = n' * d → round_ratio n d = round_ratio n' d'.
Proof.
  intros Hn Hd Hn' Hd' Hc. rewrite <- (round_ratio_scale n d d'), <- (round_ratio_scale n' d' d) by done.
  by rewrite Hc, (Z.mul_comm d').
Qed.

(** The numbers that the sources hold: normalized, or of the smallest exponent *)
Definition canonical (m e : Z) : Prop :=
  0 < m < 2 ^ 53 ∧ -1074 <= e <= 971 ∧ (2 ^ 52 <= m ∨ e = -1074).

Lemma pow_shift d e k : 0 <= e + 1075 → 0 <= k → d * 2 ^ (e + k + 1075) = 2 ^ k * (d * 2 ^ (e + 1075)).
Proof.
  intros He Hk. replace (e + k + 1075) with (k + (e + 1075)) by lia. rewrite Z.pow_add_r by lia. ring.
Qed.

(** A fraction within a relative error of [1 / (2 * 10 ^ 16)] of a number rounds to it. *)
Lemma round_ratio_near n d m e : 0 < n → 0 < d → canonical m e →
  2 * 10 ^ 16 * Z.abs (n * 2 ^ 1075 - m * (d * 2 ^ (e + 1075))) <= m * (d * 2 ^ (e + 1075)) →
  round_ratio n d = Some (m, e).
Proof.
  intros Hn Hd (Hm & He & Hc) Hnear. rewrite round_ratio_eq by done.
  assert (0 < d * 2 ^ (e + 1075)) as Hu by (apply Z.mul_pos_pos; [done|]; apply Z.pow_pos_nonneg; lia).
  assert (∀ k, -1075 <= k → pow_le k n d ↔ d * 2 ^ (k + 1075) <= n * 2 ^ 1075) as Hpow
    by (intros k Hk; apply pow_le_scale; lia).
  pose proof (Hpow (e + 52) ltac:(lia)) as H52. pose proof (Hpow (e + 53) ltac:(lia)) as H53.
  rewrite pow_shift in H52, H53 by lia.
  pose proof (nearest_close (n * 2 ^ 1075) (d * 2 ^ (e + 1075)) m Hu) as Hround.
  remember (n * 2 ^ 1075) as A eqn:HA. remember (d * 2 ^ (e + 1075)) as u eqn:Hueq.
  change (2 ^ 52) with 4503599627370496 in *. change (2 ^ 53) with 9007199254740992 in *.
  change (10 ^ 16) with 10000000000000000 in *.
  assert (2 * Z.abs (A - m * u) < u) as Hhalf by nia. specialize (Hround Hhalf).
  destruct (Z.le_gt_cases (4503599627370496 * u) A) as [Hge|Hlt].
  - assert (log2_ratio n d = e + 52) as ->.
    { apply log2_ratio_unique; [done|done|by apply H52|].
      replace (e + 52 + 1) with (e + 53) by lia. rewrite H53. nia. }
    replace (Z.max (e + 52 - 52) (-1074)) with e by lia. cbv zeta. rewrite <- Hueq, Hround.
    destruct (Z.eqb_spec m 9007199254740992); [lia|]. destruct (Z.ltb_spec 971 e); [lia|done].
  - destruct (decide (e = -1074)) as [->|Hne].
    + assert (log2_ratio n d < -1074 + 52) as Hlog.
      { destruct (log2_ratio_spec n d Hn Hd) as [Hl _]. apply Z.lt_nge. intros Hge.
        apply (pow_le_mono (-1074 + 52)) in Hl; [|done|lia]. apply H52 in Hl. lia. }
      replace (Z.max (log2_ratio n d - 52) (-1074)) with (-1074) by lia. cbv zeta. rewrite <- Hueq, Hround.
      destruct (Z.eqb_spec m 9007199254740992); [lia|done].
    + destruct Hc as [Hc|]; [|done]. assert (m = 4503599627370496) as -> by nia.
      pose proof (Hpow (e + 51) ltac:(lia)) as H51. rewrite pow_shift, <- Hueq in H51 by lia.
      assert (log2_ratio n d = e + 51) as ->.
      { apply log2_ratio_unique; [done|done| |replace (e + 51 + 1) with (e + 52) by lia; rewrite H52; lia].
        apply H51. change (2 ^ 51) with 2251799813685248. lia. }
      replace (Z.max (e + 51 - 52) (-1074)) with (e - 1) by lia. cbv zeta.
      assert (u = 2 * (d * 2 ^ (e - 1 + 1075))) as Hu2.
      { rewrite Hueq. replace (e + 1075) with (1 + (e - 1 + 1075)) by lia. rewrite Z.pow_add_r by lia. ring. }
      rewrite (nearest_close _ _ 9007199254740992) by lia. rewrite Z.eqb_refl.
      replace (e - 1 + 1) with e by lia. destruct (Z.ltb_spec 971 e); [lia|done].
Qed.

(** ** The decimal point and the digits *)

Lemma pow10_pos k : 0 <= k → 0 < 10 ^ k.
Proof. intros. apply Z.pow_pos_nonneg; lia. Qed.

Lemma scale_up_spec fuel n d p :
  1 <= p → d * 10 ^ (p - 1) <= n → n < d * 10 ^ (p + Z.of_nat fuel) →
  let p' := scale_up fuel n d p in p <= p' ∧ d * 10 ^ (p' - 1) <= n ∧ n < d * 10 ^ p'.
Proof.
  revert p. induction fuel as [|fuel IH]; intros p Hp Hlow Hup; cbn [scale_up].
  - replace (p + Z.of_nat 0) with p in Hup by lia. split_and!; [lia|done|done].
  - destruct (Z.ltb_spec n (d * 10 ^ p)); [split_and!; [lia|done|done]|].
    destruct (IH (p + 1)) as (? & ? & ?); [lia|by replace (p + 1 - 1) with p by lia| |split_and!; [lia|done|done]].
    by replace (p + 1 + Z.of_nat fuel) with (p + Z.of_nat (S fuel)) by lia.
Qed.

Lemma scale_down_spec fuel n d p :
  p <= 0 → n * 10 ^ (- p) < d → d <= n * 10 ^ (1 - p + Z.of_nat fuel) →
  let p' := scale_down fuel n d p in p' <= p ∧ n * 10 ^ (- p') < d ∧ d <= n * 10 ^ (1 - p').
Proof.
  revert p. induction fuel as [|fuel IH]; intros p Hp Hup Hlow; cbn [scale_down].
  - replace (1 - p + Z.of_nat 0) with (1 - p) in Hlow by lia. split_and!; [lia|done|done].
  - destruct (Z.leb_spec d (n * 10 ^ (1 - p))); [split_and!; [lia|done|done]|].
    destruct (IH (p - 1)) as (? & ? & ?); [lia|by replace (- (p - 1)) with (1 - p) by lia| |split_and!; [lia|done|done]].
    by replace (1 - (p - 1) + Z.of_nat fuel) with (1 - p + Z.of_nat (S fuel)) by lia.
Qed.

Section shortest.
  Variables (m e : Z).
  Hypothesis Hc : canonical m e.
  Notation n := (m * 2 ^ Z.max 0 e).
  Notation d := (2 ^ Z.max 0 (- e)).
  Hypothesis small : n <= 1000 * d.
  Notation p := (decimal_point n d).
  Notation ta k := (10 ^ Z.max 0 (- (k - p))).
  Notation tb k := (10 ^ Z.max 0 (k - p)).

Lemma numerator_pos : 0 < n.
Proof. destruct Hc as [? _]. apply Z.mul_pos_pos; [lia|]. apply Z.pow_pos_nonneg; lia. Qed.
Lemma denominator_pos : 0 < d.
Proof. apply Z.pow_pos_nonneg; lia. Qed.

Lemma decimal_point_spec :
  1 <= p ∧ d * 10 ^ (p - 1) <= n ∧ n < d * 10 ^ p ∨ p <= 0 ∧ n * 10 ^ (- p) < d ∧ d <= n * 10 ^ (1 - p).
Proof.
  pose proof numerator_pos as Hn. pose proof denominator_pos as Hd. pose proof Hc as (_ & He & _).
  unfold decimal_point. destruct (Z.ltb_spec n d); [right|left].
  - apply (scale_down_spec 400 n d 0); [lia|change (10 ^ (- 0)) with 1; lia|].
    apply Z.le_trans with (2 ^ 1074); [apply Z.pow_le_mono_r; lia|].
    apply Z.le_trans with (1 * 10 ^ (1 - 0 + Z.of_nat 400)); [vm_compute; discriminate|].
    apply Z.mul_le_mono_nonneg_r; [apply Z.lt_le_incl, pow10_pos; lia|lia].
  - apply (scale_up_spec 400 n d 1); [lia|change (10 ^ (1 - 1)) with 1; lia|].
    apply Z.le_lt_trans with (1000 * d); [done|]. rewrite Z.mul_comm. apply Z.mul_lt_mono_pos_l; [done|].
    apply Z.lt_le_trans with (10 ^ 4); [done|]. apply Z.pow_le_mono_r; lia.
Qed.

(** [k] digits before the point of [n / d * 10 ^ (k - p)] *)
Lemma scaled_bounds k : 1 <= k →
  10 ^ (k - 1) * (d * ta k) <= n * tb k ∧ n * tb k < 10 ^ k * (d * ta k).
Proof.
  intros Hk. pose proof denominator_pos as Hd.
  destruct decimal_point_spec as [(Hp & Hlow & Hup)|(Hp & Hup & Hlow)].
  - destruct (Z.le_ge_cases p k) as [Hpk|Hpk].
    + rewrite (Z.max_l 0 (- (k - p))), (Z.max_r 0 (k - p)) by lia. change (10 ^ 0) with 1.
      replace (k - 1) with ((p - 1) + (k - p)) by lia. replace (10 ^ k) with (10 ^ (p + (k - p))) by (f_equal; lia).
      rewrite !Z.pow_add_r by lia. pose proof (pow10_pos (k - p) ltac:(lia)). nia.
    + rewrite (Z.max_r 0 (- (k - p))), (Z.max_l 0 (k - p)) by lia. change (10 ^ 0) with 1.
      replace (- (k - p)) with (p - k) by lia.
      assert (10 ^ (p - 1) = 10 ^ (k - 1) * 10 ^ (p - k)) as Hp1 by (rewrite <- Z.pow_add_r by lia; f_equal; lia).
      assert (10 ^ p = 10 ^ k * 10 ^ (p - k)) as Hp2 by (rewrite <- Z.pow_add_r by lia; f_equal; lia).
      rewrite Hp1 in Hlow. rewrite Hp2 in Hup. lia.
  - rewrite (Z.max_l 0 (- (k - p))), (Z.max_r 0 (k - p)) by lia. change (10 ^ 0) with 1.
    assert (10 ^ (k - p) = 10 ^ (k - 1) * 10 ^ (1 - p)) as H1 by (rewrite <- Z.pow_add_r by lia; f_equal; lia).
    assert (10 ^ (k - p) = 10 ^ k * 10 ^ (- p)) as H2 by (rewrite <- Z.pow_add_r by lia; f_equal; lia).
    pose proof (pow10_pos (k - 1) ltac:(lia)). pose proof (pow10_pos k ltac:(lia)).
    split; [rewrite H1; nia|rewrite H2; nia].
Qed.

(** The candidate nearest to the number, of seventeen digits, rounds to it. *)
Lemma seventeen_digits c : 0 < c → 2 * Z.abs (n * tb 17 - c * (d * ta 17)) <= d * ta 17 →
  rounds_to c (17 - p) m e = true.
Proof.
  intros Hcpos Hclose. pose proof numerator_pos as Hn. pose proof denominator_pos as Hd.
  destruct (scaled_bounds 17 ltac:(lia)) as [Hlow _]. pose proof Hc as (Hm & He & _).
  pose proof (pow10_pos (Z.max 0 (17 - p)) ltac:(lia)) as Hb.
  pose proof (pow10_pos (Z.max 0 (- (17 - p))) ltac:(lia)) as Ha.
  unfold rounds_to. rewrite (round_ratio_near _ _ m e); [by rewrite !Z.eqb_refl|nia|done|done|].
  assert (n * 2 ^ 1075 = m * (d * 2 ^ (e + 1075))) as Hvalue.
  { rewrite <- Z.mul_assoc, <- !Z.pow_add_r by lia. do 2 f_equal. lia. }
  assert (0 < 2 ^ 1075) as HZ by (apply Z.pow_pos_nonneg; lia).
  change (17 - 1) with 16 in Hlow.
  set (a := ta 17) in *. set (b := tb 17) in *. clearbody a b.
  remember (2 ^ 1075) as Z0 eqn:HZ0. remember (2 ^ (e + 1075)) as V eqn:HV.
  remember n as x eqn:Hx. remember d as y eqn:Hy. clear HZ0 HV Hx Hy small.
  change (10 ^ 16) with 10000000000000000 in *.
  assert (y * (c * a * Z0 - m * (b * V)) = Z0 * (y * c * a - x * b)) as H1.
  { transitivity (Z0 * (y * c * a) - (m * (y * V)) * b); [ring|]. rewrite <- Hvalue. ring. }
  assert (y * (m * (b * V)) = Z0 * (x * b)) as H2.
  { transitivity ((m * (y * V)) * b); [ring|]. rewrite <- Hvalue. ring. }
  assert (20000000000000000 * Z.abs (y * c * a - x * b) <= x * b) as H3.
  { assert (Z.abs (y * c * a - x * b) = Z.abs (x * b - c * (y * a))) as ->; [|lia].
    rewrite <- Z.abs_opp. f_equal. ring. }
  apply (Z.mul_le_mono_pos_l _ _ y Hd). rewrite H2.
  replace (y * (2 * 10000000000000000 * Z.abs (c * a * Z0 - m * (b * V))))
    with (20000000000000000 * Z.abs (y * (c * a * Z0 - m * (b * V)))) by (rewrite Z.abs_mul; lia).
  rewrite H1, Z.abs_mul, (Z.abs_eq Z0) by lia. nia.
Qed.

(** The search ends with digits that round to the number. *)
Lemma shortest_digits_spec fuel k :
  (1 <= fuel)%nat → k + Z.of_nat fuel = 18 → 1 <= k →
  let '(D, k') := shortest_digits fuel k n d p m e in
  1 <= k' <= 17 ∧ 0 < D <= 10 ^ k' ∧ rounds_to D (k' - p) m e = true.
Proof.
  revert k. induction fuel as [|fuel IH]; intros k Hf Hk Hk1; [lia|]. cbn [shortest_digits].
  destruct (scaled_bounds k Hk1) as [Hlow Hup]. pose proof denominator_pos as Hd.
  pose proof (pow10_pos (Z.max 0 (- (k - p))) ltac:(lia)) as Ha.
  pose proof (pow10_pos (k - 1) ltac:(lia)) as Hk10.
  set (num := n * tb k) in *. set (den := d * ta k) in *.
  assert (0 < den) as Hden by (unfold den; nia).
  pose proof (Z.div_mod num den ltac:(lia)) as Hdiv. pose proof (Z.mod_pos_bound num den Hden) as Hmod.
  assert (0 < num / den < 10 ^ k) as Hq.
  { split; [apply Z.div_str_pos; nia|]. apply Z.div_lt_upper_bound; lia. }
  destruct (rounds_to (num / den + 1) (k - p) m e) eqn:Hhi, (rounds_to (num / den) (k - p) m e) eqn:Hlo.
  all: rewrite ?andb_true_r, ?andb_false_r, ?orb_true_r, ?orb_false_r.
  all: try (rewrite (proj2 (Z.ltb_lt 0 (num / den))) by lia); simpl.
  - destruct (den <=? 2 * (num mod den)); simpl; split_and!; done || lia.
  - split_and!; done || lia.
  - split_and!; done || lia.
  - destruct fuel as [|fuel]; [|by apply IH; lia]. exfalso. assert (k = 17) by lia. subst k.
    destruct (Z.leb_spec den (2 * (num mod den))) as [Hr|Hr].
    + rewrite seventeen_digits in Hhi; [done|clear - Hq; lia|]. fold num den.
      rewrite Z.abs_neq by lia. lia.
    + rewrite seventeen_digits in Hlo; [done|clear - Hq; lia|]. fold num den.
      rewrite Z.abs_eq by lia. lia.
Qed.
End shortest.

(** ** Digits *)

Definition digits (l : list ascii) : Prop := Forall (λ a, is_ascii_digit a = true) l.

Definition value_from (acc : Z) (l : list ascii) : Z := foldl (λ acc a, acc * 10 + (code a - 48)) acc l.
Notation value := (value_from 0).

Lemma value_from_spec acc l : value_from acc l = acc * 10 ^ zlen l + value l.
Proof.
  unfold value_from. revert acc. induction l as [|a l IH]; intros acc; [change (zlen []) with 0; rewrite Z.pow_0_r; cbn; lia|].
  rewrite zlen_cons, Z.pow_add_r by (pose proof (zlen_nonneg l); lia). cbn [foldl].
  rewrite IH, (IH (0 * 10 + _)). change (10 ^ 1) with 10. ring.
Qed.

Lemma value_app l k : value (l ++ k) = value l * 10 ^ zlen k + value k.
Proof. unfold value_from at 1. rewrite foldl_app. apply value_from_spec. Qed.

Lemma take_digits_app l rest acc n :
  digits l → take_digits (l ++ rest) acc n = take_digits rest (value_from acc l) (n + zlen l).
Proof.
  unfold value_from. revert acc n. induction l as [|a l IH]; intros acc n Hl; cbn [app take_digits foldl].
  - by rewrite Z.add_0_r.
  - apply Forall_cons in Hl as [-> Hl]. rewrite IH, zlen_cons by done. f_equal. lia.
Qed.

Lemma zeros_spec j : digits (zeros j) ∧ value (zeros j) = 0 ∧ zlen (zeros j) = Z.of_nat j.
Proof.
  induction j as [|j (Hd & Hv & Hl)]; [by repeat constructor|]. cbn [zeros]. split_and!.
  - by constructor.
  - done.
  - rewrite zlen_cons, Hl. lia.
Qed.

Lemma strip_zeros_spec l : ∃ j, l = zeros j ++ strip_zeros l.
Proof.
  induction l as [|a l [j IH]]; [by exists O|]. simpl. destruct (Ascii.eqb_spec a "0") as [->|].
  - exists (S j). simpl. by f_equal.
  - by exists O.
Qed.

Lemma rev_zeros j : rev (zeros j) = zeros j.
Proof.
  assert (∀ k, zeros k ++ ["0"%char] = "0"%char :: zeros k) as Hsnoc.
  { intros k. induction k as [|k IH]; [done|]. simpl. by rewrite IH. }
  induction j as [|j IH]; [done|]. simpl. by rewrite IH.
Qed.

Lemma digit_char n : is_ascii_digit (ascii_of_N (Z.to_N (48 + n mod 10))) = true
  ∧ code (ascii_of_N (Z.to_N (48 + n mod 10))) - 48 = n mod 10.
Proof.
  pose proof (Z.mod_pos_bound n 10 ltac:(lia)).
  assert (code (ascii_of_N (Z.to_N (48 + n mod 10))) = 48 + n mod 10) as Hcode.
  { unfold code. rewrite N_ascii_embedding by lia. lia. }
  unfold is_ascii_digit. rewrite Hcode. split; [|lia]. apply andb_true_iff. split; lia.
Qed.

Lemma decimal_digits_spec fuel n acc :
  0 <= n < 10 ^ Z.of_nat fuel →
  ∃ l, bytes (decimal_digits fuel n acc) = l ++ bytes acc ∧ digits l ∧ value l = n.
Proof.
  revert n acc. induction fuel as [|fuel IH]; intros n acc Hn.
  { exists []. cbn in *. split_and!; [done|constructor|lia]. }
  destruct (digit_char n) as [Hd Hv]. cbn [decimal_digits].
  set (a := ascii_of_N (Z.to_N (48 + n mod 10))) in *. destruct (Z.ltb_spec n 10).
  - exists [a]. split_and!; [done|by repeat constructor|]. unfold value_from. cbn [foldl].
    rewrite Hv, Z.mod_small by lia. lia.
  - rewrite Nat2Z.inj_succ, Z.pow_succ_r in Hn by lia.
    destruct (IH (n / 10) (String a acc)) as (l & Hl & Hdig & Hval).
    { split; [apply Z.div_pos; lia|apply Z.div_lt_upper_bound; lia]. }
    exists (l ++ [a]). rewrite Hl, value_app, Hval. split_and!; [by rewrite <- app_assoc| |].
    + apply Forall_app. by split; [|repeat constructor].
    + change (zlen [a]) with 1. change (value [a]) with (0 * 10 + (code a - 48)). rewrite Hv.
      pose proof (Z.div_mod n 10 ltac:(lia)). lia.
Qed.

(** ** Parsing what is printed *)

Lemma parse_number_plain neg l : digits l → l ≠ [] → parse_number neg l = Some (of_ratio neg (value l) 1).
Proof.
  intros Hd Hne. unfold parse_number. rewrite <- (app_nil_r l), take_digits_app, app_nil_r by done.
  cbn [take_digits]. assert (1 <= zlen l) by (destruct l; [done|]; rewrite zlen_cons; pose proof (zlen_nonneg l); lia).
  destruct (Z.eqb_spec (0 + zlen l + 0) 0); [lia|].
  change (0 - 0) with 0. change (10 ^ Z.max 0 0) with 1. change (10 ^ Z.max 0 (- 0)) with 1.
  by rewrite Z.mul_1_r.
Qed.

Lemma parse_number_point neg l k : digits l → digits k → l ≠ [] →
  parse_number neg (l ++ "."%char :: k) = Some (of_ratio neg (value (l ++ k)) (10 ^ zlen k)).
Proof.
  intros Hl Hk Hne. unfold parse_number. rewrite take_digits_app by done. cbn [take_digits].
  change (is_ascii_digit ".") with false. cbv iota beta. rewrite Ascii.eqb_refl.
  rewrite <- (app_nil_r k) at 1. rewrite take_digits_app by done. cbn [take_digits].
  assert (1 <= zlen l) by (destruct l; [done|]; rewrite zlen_cons; pose proof (zlen_nonneg l); lia).
  pose proof (zlen_nonneg k). destruct (Z.eqb_spec (0 + zlen l + (0 + zlen k)) 0); [lia|].
  replace (value_from (value l) k) with (value (l ++ k)) by (unfold value_from; by rewrite foldl_app).
  rewrite Z.add_0_l. rewrite (Z.max_l 0 (0 - zlen k)), (Z.max_r 0 (- (0 - zlen k))) by lia.
  rewrite Z.mul_1_r. do 3 f_equal. lia.
Qed.

(** A text that starts with a digit is read as a number. *)
Lemma parse_digit a l : is_ascii_digit a = true →
  parse (String.string_of_list_ascii (a :: l)) = parse_number false (a :: l)
  ∧ parse (String.string_of_list_ascii ("-"%char :: a :: l)) = parse_number true (a :: l).
Proof.
  intros Ha. unfold parse. rewrite !String.list_ascii_of_string_of_list_ascii.
  assert (take_sign (a :: l) = (false, a :: l)) as ->.
  { unfold take_sign. destruct (Ascii.eqb_spec a "-") as [->|]; [done|].
    destruct (Ascii.eqb_spec a "+") as [->|]; done. }
  change (take_sign ("-"%char :: a :: l)) with (true, a :: l). cbv iota beta.
  assert (ascii_upper a = a) as Hup.
  { unfold ascii_upper. unfold is_ascii_digit in Ha. apply andb_true_iff in Ha as [_ Ha%Z.leb_le].
    destruct (Z.leb_spec 97 (code a)); [lia|done]. }
  cbn [String.string_of_list_ascii to_ascii_uppercase]. rewrite Hup.
  assert (∀ b s t, is_ascii_digit b = false → String.eqb (String a s) (String b t) = false) as Hne.
  { intros b s t Hb. apply String.eqb_neq. intros [= ->]. congruence. }
  by rewrite !Hne.
Qed.

(** What [display_pos] prints is [digits l], or [digits l], a point and [digits k]. *)
Definition denotes (body : list ascii) (num den : Z) : Prop :=
  (∃ l, body = l ∧ digits l ∧ l ≠ [] ∧ num = value l ∧ den = 1)
  ∨ ∃ l k, body = l ++ "."%char :: k ∧ digits l ∧ digits k ∧ l ≠ []
      ∧ num = value (l ++ k) ∧ den = 10 ^ zlen k.

Lemma denotes_parse neg body num den : denotes body num den →
  parse (String.string_of_list_ascii (if neg : bool then "-"%char :: body else body))
  = Some (of_ratio neg num den).
Proof.
  intros Hb.
  assert (parse_number neg body = Some (of_ratio neg num den)
    ∧ ∃ a l, body = a :: l ∧ is_ascii_digit a = true) as (Hn & a & l & -> & Ha).
  { destruct Hb as [(l & -> & Hl & Hne & -> & ->)|(l & k & -> & Hl & Hk & Hne & -> & ->)].
    - split; [by apply parse_number_plain|]. destruct l as [|a l]; [done|].
      apply Forall_cons in Hl as [? _]. by exists a, l.
    - split; [by apply parse_number_point|]. destruct l as [|a l]; [done|].
      apply Forall_cons in Hl as [? _]. by exists a, (l ++ "."%char :: k). }
  destruct (parse_digit a l Ha) as [Hf Ht]. by destruct neg; [rewrite Ht|rewrite Hf].
Qed.

(** Placing the point: [value ds * 10 ^ j] is the number of all digits. *)
Lemma place_point ds p : digits ds → ds ≠ [] →
  denotes (if p <=? 0 then ("0" :: "." :: zeros (Z.to_nat (- p)) ++ ds)%char
           else if zlen ds <=? p then ds ++ zeros (Z.to_nat (p - zlen ds))
           else (take (Z.to_nat p) ds ++ "." :: drop (Z.to_nat p) ds)%char)
    (value ds * 10 ^ Z.max 0 (p - zlen ds)) (10 ^ Z.max 0 (zlen ds - p)).
Proof.
  intros Hd Hne. assert (1 <= zlen ds) as Hlen
    by (destruct ds; [done|]; rewrite zlen_cons; pose proof (zlen_nonneg ds); lia).
  destruct (Z.leb_spec p 0); [|destruct (Z.leb_spec (zlen ds) p)].
  - right. destruct (zeros_spec (Z.to_nat (- p))) as (Hz & Hv & Hl).
    exists ["0"%char], (zeros (Z.to_nat (- p)) ++ ds). split_and!; [done|by repeat constructor|by apply Forall_app|done| |].
    + rewrite (Z.max_l 0 (p - zlen ds)), Z.pow_0_r by lia.
      rewrite !value_app, Hv. change (value ["0"%char]) with 0. lia.
    + rewrite zlen_app, Hl, (Z.max_r 0 (zlen ds - p)) by lia. f_equal. lia.
  - left. destruct (zeros_spec (Z.to_nat (p - zlen ds))) as (Hz & Hv & Hl).
    exists (ds ++ zeros (Z.to_nat (p - zlen ds))). split_and!; [done|by apply Forall_app| | |].
    + by destruct ds.
    + rewrite value_app, Hv, Hl, (Z.max_r 0 (p - zlen ds)) by lia. rewrite Z2Nat.id by lia. lia.
    + by rewrite Z.max_l by lia.
  - right. exists (take (Z.to_nat p) ds), (drop (Z.to_nat p) ds). split_and!.
    + done.
    + by apply Forall_take.
    + by apply Forall_drop.
    + destruct ds as [|a ds]; [done|]. destruct (Z.to_nat p) eqn:Hnat; [lia|discriminate].
    + rewrite take_drop, Z.max_l by lia. lia.
    + unfold zlen in *. rewrite length_drop, Z.max_r by lia. f_equal. lia.
Qed.

Lemma pow10_split a b x y : 0 <= a → 0 <= b → 0 <= x → 0 <= y → a + b = x + y → 10 ^ a * 10 ^ b = 10 ^ x * 10 ^ y.
Proof. intros. rewrite <- !Z.pow_add_r by lia. f_equal. lia. Qed.

(** [display] and [parse] are inverse on the numbers of a coordinate's size. *)
Lemma display_parse neg m e :
  canonical m e → m * 2 ^ Z.max 0 e <= 1000 * 2 ^ Z.max 0 (- e) →
  parse (display (F64 neg m e)) = Some (F64 neg m e).
Proof.
  intros Hc Hsmall. unfold display. destruct (Z.eqb_spec m 0) as [->|_].
  { destruct Hc as [[? _] _]. lia. }
  unfold display_pos. set (p := decimal_point _ _).
  pose proof (shortest_digits_spec m e Hc Hsmall 17 1 ltac:(lia) ltac:(lia) ltac:(lia)) as Hs. fold p in Hs.
  destruct (shortest_digits _ _ _ _ _ _ _) as [D k]. destruct Hs as (Hk & [HD HD'] & Hround).
  destruct (decimal_digits_spec 20 D "") as (all & Hall & Hdig & Hval).
  { split; [lia|]. apply Z.le_lt_trans with (10 ^ k); [done|]. apply Z.pow_lt_mono_r; lia. }
  rewrite app_nil_r in Hall. unfold display_u64. rewrite Hall. clear Hall.
  destruct (strip_zeros_spec (rev all)) as [j Hj]. set (ds := rev (strip_zeros (rev all))).
  assert (all = ds ++ zeros j) as Hsplit.
  { apply (f_equal (@rev ascii)) in Hj. rewrite rev_involutive, rev_app_distr, rev_zeros in Hj. done. }
  destruct (zeros_spec j) as (_ & Hzv & Hzl).
  assert (D = value ds * 10 ^ Z.of_nat j) as HDval by (rewrite <- Hval, Hsplit, value_app, Hzv, Hzl; lia).
  assert (digits ds) as Hds by (rewrite Hsplit in Hdig; by apply Forall_app in Hdig as [? _]).
  assert (ds ≠ []) as Hne by (intros Hnil; rewrite Hnil in HDval; cbn in HDval; lia).
  assert (zlen all = zlen ds + Z.of_nat j) as -> by (by rewrite Hsplit, zlen_app, Hzl).
  set (p' := p + (zlen ds + Z.of_nat j - k)).
  rewrite (denotes_parse neg _ _ _ (place_point ds p' Hds Hne)). f_equal.
  pose proof (pow10_pos (Z.max 0 (p' - zlen ds)) ltac:(lia)) as H1.
  pose proof (pow10_pos (Z.max 0 (zlen ds - p')) ltac:(lia)) as H2.
  pose proof (pow10_pos (Z.max 0 (- (k - p))) ltac:(lia)) as H3.
  pose proof (pow10_pos (Z.max 0 (k - p)) ltac:(lia)) as H4.
  pose proof (pow10_pos (Z.of_nat j) ltac:(lia)) as H5.
  assert (0 < value ds) as Hpos by nia.
  unfold of_ratio. destruct (Z.eqb_spec (value ds * 10 ^ Z.max 0 (p' - zlen ds)) 0); [nia|].
  unfold rounds_to in Hround.
  rewrite (round_ratio_cross _ _ (D * 10 ^ Z.max 0 (- (k - p))) (10 ^ Z.max 0 (k - p))); [|nia..|].
  - destruct (round_ratio _ _) as [[m' e']|]; [|done].
    apply andb_true_iff in Hround as [->%Z.eqb_eq ->%Z.eqb_eq]. done.
  - rewrite HDval. transitivity (value ds * (10 ^ Z.max 0 (p' - zlen ds) * 10 ^ Z.max 0 (k - p))); [ring|].
    transitivity (value ds * (10 ^ (Z.of_nat j + Z.max 0 (- (k - p))) * 10 ^ Z.max 0 (zlen ds - p')));
      [|rewrite Z.pow_add_r by lia; ring].
    f_equal. apply pow10_split; lia.
Qed.

(** ** Numbers that parsing gives *)

(** What a binary64 number is: zero, normalized or of the smallest exponent. *)
Definition representable (x : f64) : Prop :=
  match x with F64 _ m e => m = 0 ∨ canonical m e | _ => True end.

Lemma nearest_bounds a b lo hi : 0 < b → lo * b <= a → a < hi * b → lo <= nearest a b <= hi.
Proof.
  intros Hb Hlo Hhi. assert (lo <= a / b < hi) as Hq.
  { split; [apply Z.div_le_lower_bound; lia|apply Z.div_lt_upper_bound; lia]. }
  unfold nearest. destruct (_ <? b); [lia|]. destruct (b <? _); [lia|]. destruct (Z.even _); lia.
Qed.

Lemma round_ratio_canonical n d m e : 0 < n → 0 < d →
  round_ratio n d = Some (m, e) → m = 0 ∨ canonical m e.
Proof.
  intros Hn Hd. rewrite round_ratio_eq by done. destruct (log2_ratio_spec n d Hn Hd) as [Hl Hl'].
  set (k := log2_ratio n d) in *. set (e0 := Z.max (k - 52) (-1074)). cbv zeta.
  set (m0 := nearest _ _). intros Hr.
  assert (0 < d * 2 ^ (e0 + 1075)) as Hu by (apply Z.mul_pos_pos; [done|]; apply Z.pow_pos_nonneg; lia).
  assert (n * 2 ^ 1075 < 2 ^ 53 * (d * 2 ^ (e0 + 1075))) as Hup.
  { rewrite <- pow_shift by lia. apply Z.nle_gt. intros Hge. destruct Hl'.
    apply (pow_le_mono _ (e0 + 53)); [done|lia|]. by apply (pow_le_scale _ _ _ 1075); [lia..|]. }
  pose proof (nearest_bounds (n * 2 ^ 1075) (d * 2 ^ (e0 + 1075)) 0 (2 ^ 53) Hu ltac:(nia) Hup) as Hm.
  assert (e0 = -1074 ∨ 2 ^ 52 <= m0) as He.
  { destruct (Z.le_gt_cases (k - 52) (-1074)); [left; lia|right].
    apply (nearest_bounds _ _ (2 ^ 52) (2 ^ 53)); [done| |done].
    rewrite <- pow_shift by lia. apply (pow_le_scale _ _ _ 1075); [lia..|].
    by replace (e0 + 52) with k by lia. }
  fold m0 in Hm. clearbody m0.
  change (2 ^ 53) with 9007199254740992 in *. change (2 ^ 52) with 4503599627370496 in *.
  unfold canonical. change (2 ^ 53) with 9007199254740992. change (2 ^ 52) with 4503599627370496.
  destruct (Z.eqb_spec m0 9007199254740992); cbv iota in Hr.
  - destruct (Z.ltb_spec 971 (e0 + 1)); [done|]. injection Hr as <- <-. right. lia.
  - destruct (Z.ltb_spec 971 e0); [done|]. injection Hr as <- <-. lia.
Qed.

Lemma of_ratio_representable neg n d : 0 <= n → 0 < d → representable (of_ratio neg n d).
Proof.
  intros Hn Hd. unfold of_ratio. destruct (Z.eqb_spec n 0); [by left|].
  destruct (round_ratio n d) as [[m e]|] eqn:Hr; [|done].
  apply (round_ratio_canonical n d); [lia|done|done].
Qed.

Lemma take_digits_nonneg l acc n : 0 <= acc → 0 <= n →
  0 <= (take_digits l acc n).1.1 ∧ 0 <= (take_digits l acc n).1.2.
Proof.
  revert acc n. induction l as [|a l IH]; intros acc n Ha Hn; simpl; [done|].
  destruct (is_ascii_digit a) eqn:Hd; [|done]. unfold is_ascii_digit in Hd. apply IH; lia.
Qed.

Lemma parse_representable s x : parse s = Some x → representable x.
Proof.
  unfold parse. destruct (take_sign (bytes s)) as [neg l]. case_match; [by intros [= <-]|].
  case_match; [by intros [= <-]|]. unfold parse_number.
  pose proof (take_digits_nonneg l 0 0 ltac:(lia) ltac:(lia)) as [Hint _].
  destruct (take_digits l 0 0) as [[int ni] rest]. cbn [fst] in Hint.
  assert (∃ mant nf rest', 0 <= mant ∧ (match rest with
    | a :: l' => if Ascii.eqb a "." then let '(mant, n, l') := take_digits l' int 0 in (mant, n, l')
                 else (int, 0, rest)
    | [] => (int, 0, []) end) = (mant, nf, rest')) as (mant & nf & rest' & Hmant & ->).
  { destruct rest as [|a l']; [by exists int, 0, []|]. destruct (Ascii.eqb a "."); [|by eexists _, _, _].
    pose proof (take_digits_nonneg l' int 0 Hint ltac:(lia)) as [Hm _].
    destruct (take_digits l' int 0) as [[mant nf] rest']. by exists mant, nf, rest'. }
  case_match; [done|].
  assert (∀ exp, representable (of_ratio neg (mant * 10 ^ Z.max 0 (exp - nf)) (10 ^ Z.max 0 (- (exp - nf))))) as Hr.
  { intros exp. apply of_ratio_representable; [|apply pow10_pos; lia].
    apply Z.mul_nonneg_nonneg; [done|]. apply Z.lt_le_incl, pow10_pos. lia. }
  destruct rest' as [|a l']; [by intros [= <-]|]. case_match; [|done].
  destruct (take_sign l') as [eneg l'']. destruct (take_digits l'' 0 0) as [[exp ne] [|]]; [|done].
  case_match; [done|]. by intros [= <-].
Qed.

(** ** The coordinates of a plan *)

(** The text a number is written as *)
Definition coordinate_text (x : f64) : string := if is_zero x then "0" else display x.

Lemma display_parse_in_range x lo hi : -1000 <= lo → hi <= 1000 → representable x →
  F64.in_range lo hi x = true → is_zero x = false → parse (display x) = Some x.
Proof.
  intros Hlo Hhi Hx Hin Hz. destruct x as [neg m e| |]; [|done..]. simpl in Hz.
  destruct Hx as [->|Hc]; [done|]. apply display_parse; [done|].
  unfold F64.in_range in Hin. apply andb_true_iff in Hin as [H1%Z.leb_le H2%Z.leb_le].
  assert (0 < 2 ^ Z.max 0 (- e)) by (apply Z.pow_pos_nonneg; lia). destruct neg; nia.
Qed.

Lemma decimal_accepted s lo hi : -1000 <= lo <= 0 → 0 <= hi <= 1000 →
  decimal_in_range s lo hi = true
  ↔ ∃ x, representable x ∧ F64.in_range lo hi x = true ∧ s = coordinate_text x.
Proof.
  intros Hlo Hhi. unfold decimal_in_range. split.
  - destruct (parse s) as [x|] eqn:Hp; [|done]. cbv zeta. intros Hin.
    apply andb_true_iff in Hin as [[_ Hin]%andb_true_iff Hs%String.eqb_eq].
    exists x. split; [by eapply parse_representable|done].
  - intros (x & Hx & Hin & ->). unfold coordinate_text. destruct (is_zero x) eqn:Hz.
    + change (parse "0") with (Some (F64 false 0 0)). simpl. lia.
    + rewrite (display_parse_in_range x lo hi), Hz, Hin, String.eqb_refl by (done || lia).
      by destruct x.
Qed.

(** C38: a coordinate of a plan is exactly the text of a number in range: what a
    source writes for such a number ([canonical_decimal]: the shortest decimal
    digits, zero without a sign) is accepted, as it parses back to that number,
    and nothing else is, so equal positions have equal texts. *)
Theorem coordinate_exact s lo hi : -1000 <= lo <= 0 → 0 <= hi <= 1000 →
  decimal_in_range s lo hi = true
  ↔ ∃ x, representable x ∧ F64.in_range lo hi x = true ∧ s = coordinate_text x.
Proof. apply decimal_accepted. Qed.

Lemma coordinate_exact_witness :
  let x := F64 true 6333186975989760 (-50) in
  coordinate_text x = "-5.625"
  ∧ (decimal_in_range "-5.625" (-90) 90 = true
     ↔ ∃ x, representable x ∧ F64.in_range (-90) 90 x = true ∧ "-5.625" = coordinate_text x).
Proof.
  split; [vm_compute; reflexivity|]. apply (coordinate_exact "-5.625" (-90) 90); lia.
Defined.
