(* ===== verification/ScanArchive.v ===== *)
(** * ScanArchive: reading the entries of ZIP parts
    ([crates/immich-sources/src/archive_support.rs], [takeout_archive.rs],
    [apple_archive.rs])

    The [zip] crate is the class [ZipReader]: the archive on the open file, the
    header of an entry and the reads of its content.  An entry is checked before a
    byte of it is decoded; entries of several parts with one path are merged. *)
From Stdlib Require Import Ascii.
From stdpp Require Import gmap strings.
From S2P Require Export Discovery.

(** ** The archive reader *)

Module CompressionMethod.
Inductive t := Stored | Deflated | Other.
End CompressionMethod.

(** [zip::DateTime] *)
Record ZipDateTime := {
  zd_year : Z; zd_month : Z; zd_day : Z; zd_hour : Z; zd_minute : Z; zd_second : Z }.

(** What the code asks of a [ZipFile]; [ze_enclosed_name] is [enclosed_name()]. *)
Record ZipEntry := {
  ze_name : string;
  ze_enclosed_name : option string;
  ze_is_dir : bool;
  ze_is_file : bool;
  ze_is_symlink : bool;
  ze_encrypted : bool;
  ze_compression : CompressionMethod.t;
  ze_size : Z;
  ze_compressed_size : Z;
  ze_last_modified : option ZipDateTime;
}.

(** [ZipArchive::new] on the file that was opened last and its [len()],
    [by_index], and the reads of the entry, an empty chunk at its end.  [zip_left]
    is how much the entry still decodes to: only a bound for the loop. *)
Class ZipReader (W : Type) := {
  zip_new : W → option Z * W;
  zip_by_index : Z → W → option ZipEntry * W;
  zip_read : Z → W → option string * W;
  zip_left : W → Z;
}.

(** [Month::try_from], [Date::from_calendar_date], [Time::from_hms] and
    [assume_utc], any failure of which is [None] *)
Class CalendarLib `{TimeLib} := { utc_instant : Z → Z → Z → Z → Z → Z → option instant }.

Definition zip_unix_ms `{CalendarLib} (value : option ZipDateTime) : option Z :=
  value ← value;
  time ← utc_instant (zd_year value) (zd_month value) (zd_day value)
           (zd_hour value) (zd_minute value) (zd_second value);
  let millis := Z.quot (unix_timestamp_nanos time) 1000000 in
  if (- 2 ^ 63 <=? millis) && (millis <? 2 ^ 63) then Some millis else None.

(** ** Checks of an entry *)

Definition unsafe_path : ScanError.t := ScanError.InvalidArchive "unsafe ZIP entry path".

Definition portable_entry_path `{UnicodeLib} (entry : ZipEntry) (max_path_bytes : Z) :
    result ScanError.t string :=
  _ ← fail_if (contains_byte "\" (ze_name entry) || contains_byte (ascii_of_N 0) (ze_name entry)
               || existsb (one_of ["."; ".."]) (split_on "/" (ze_name entry))) unsafe_path;
  enclosed ← ok_or (ze_enclosed_name entry) unsafe_path;
  components ← try_map (λ value,
    if one_of ["/"; "."; ".."] value then Err unsafe_path
    else if is_utf8 value then Ok (nfc value)
    else Err (ScanError.InvalidArchive "non-Unicode ZIP entry path")) (path_components enclosed);
  let path := String.concat "/" components in
  _ ← fail_if (is_empty path || (max_path_bytes <? len path))
        (ScanError.LimitExceeded "max_path_bytes");
  Ok path.

Definition is_supported (m : CompressionMethod.t) : bool :=
  match m with CompressionMethod.Stored | CompressionMethod.Deflated => true | _ => false end.

Definition validate_entry (entry : ZipEntry)
    (max_entry_bytes max_compression_ratio ratio_grace_bytes : Z) : result ScanError.t unit :=
  _ ← fail_if (ze_encrypted entry || ze_is_symlink entry || negb (ze_is_file entry))
        (ScanError.InvalidArchive "encrypted or non-regular ZIP entry");
  _ ← fail_if (negb (is_supported (ze_compression entry)))
        (ScanError.InvalidArchive "unsupported ZIP compression method");
  _ ← fail_if (max_entry_bytes <? ze_size entry) (ScanError.LimitExceeded "max_archive_entry_bytes");
  fail_if ((ratio_grace_bytes <? ze_size entry)
           && ((ze_compressed_size entry =? 0)
               || (max_compression_ratio <? ze_size entry / ze_compressed_size entry)))
    (ScanError.InvalidArchive "ZIP entry compression ratio exceeded").

(** ** Merging entries of one path *)

Inductive EntryKind := Entry_Media (kind : MediaKind) | Entry_Sidecar (kind : MetadataKind).
#[export] Instance EntryKind_eq_dec : EqDecision EntryKind.
Proof. solve_decision. Defined.

Definition entry_kind `{UnicodeLib} (relative_path : string) : option EntryKind :=
  match media_kind relative_path, metadata_kind relative_path with
  | Some kind, _ => Some (Entry_Media kind)
  | None, Some kind => Some (Entry_Sidecar kind)
  | None, None => None
  end.

(** The modification time is part of the identity in [apple_archive.rs] only. *)
Record EntryIdentity := {
  ei_kind : EntryKind;
  ei_byte_len : Z;
  ei_content_sha256 : string;
  ei_content_sha1_base64 : string;
  ei_modified_at_unix_ms : option Z;
}.
#[export] Instance EntryIdentity_eq_dec : EqDecision EntryIdentity.
Proof. solve_decision. Defined.

(** [media.retain(..)] and [sidecars.retain(..)] of other paths *)
Definition drop_path (relative_path : string) (s : ScanState) : ScanState :=
  set_sidecars (List.filter (λ x, negb (String.eqb (ds_relative_path x) relative_path)))
    (set_media (List.filter (λ m, negb (String.eqb (dm_relative_path m) relative_path))) s).

(** The rule and code of a duplicate and of a conflict *)
Record MergeRules := {
  mr_duplicate_rule : string; mr_duplicate_code : string;
  mr_conflict_rule : string; mr_conflict_code : string }.

(** The identity a path was seen with; [Some None] after a conflict *)
Notation Seen := (gmap string (option EntryIdentity)).

(** [merge_entry]; [record] pushes the file of a new path. *)
Definition merge_entry (rules : MergeRules) (relative_path : string) (identity : EntryIdentity)
    (record : ScanState → ScanState) (seen : Seen) (s : ScanState) : Seen * ScanState :=
  match seen !! relative_path with
  | Some previous =>
    if bool_decide (previous = Some identity) then
      (seen, push_warning (diagnostic (mr_duplicate_rule rules) (mr_duplicate_code rules)
                             [relative_path]) s)
    else
      (<[relative_path := None]> seen,
       push_error (diagnostic (mr_conflict_rule rules) (mr_conflict_code rules) [relative_path])
         (drop_path relative_path s))
  | None => (<[relative_path := Some identity]> seen, record s)
  end.

Definition archive_media (archive_path relative_path : string) (archive_index : Z)
    (kind : MediaKind) (identity : EntryIdentity) : DiscoveredMedia := {|
  dm_native_path := archive_path; dm_archive_index := Some archive_index;
  dm_relative_path := relative_path; dm_kind := kind; dm_byte_len := ei_byte_len identity;
  dm_content_sha256 := ei_content_sha256 identity;
  dm_content_sha1_base64 := ei_content_sha1_base64 identity;
  dm_created_at_unix_ms := ei_modified_at_unix_ms identity;
  dm_modified_at_unix_ms := ei_modified_at_unix_ms identity; dm_metadata := [];
  dm_normalized_metadata := None; dm_live_photo := None;
  dm_evidence := [{| re_rule_id := rule_id.REGULAR_MEDIA; outcome := "streamed_content_identity" |}] |}.

Definition archive_sidecar (archive_path relative_path : string) (archive_index : Z)
    (kind : MetadataKind) (identity : EntryIdentity) (document : option TakeoutDocument)
    (parse_error : option ParseError.t) : DiscoveredSidecar := {|
  ds_native_path := archive_path; ds_archive_index := Some archive_index;
  ds_relative_path := relative_path; ds_kind := kind; ds_byte_len := ei_byte_len identity;
  ds_content_sha256 := ei_content_sha256 identity;
  ds_content_sha1_base64 := ei_content_sha1_base64 identity;
  ds_created_at_unix_ms := ei_modified_at_unix_ms identity;
  ds_modified_at_unix_ms := ei_modified_at_unix_ms identity;
  ds_takeout_document := document; ds_takeout_parse_error := parse_error |}.

(** ** Inputs *)

(** [Path::extension().and_then(OsStr::to_str)] *)
Definition raw_extension (path : string) : option string :=
  match path_file_name path with
  | Some name =>
    match rsplit_once "." name with
    | Some (EmptyString, _) | None => None
    | Some (_, value) => if is_utf8 value then Some value else None
    end
  | None => None
  end.

(** [metadata_changed]; a time that cannot be read is [None]. *)
Definition metadata_changed (before after : ScanMeta) : bool :=
  negb (sm_len before =? sm_len after)
  || negb (bool_decide (sm_modified before = sm_modified after))
  || negb (bool_decide (sm_created before = sm_created after)).

(** What is known while archives are read: the state, the seen paths, and
    whether the layout of the source was found *)
Record ArchiveScan := { as_state : ScanState; as_seen : Seen; as_layout_found : bool }.

Definition new_archive_scan : ArchiveScan :=
  {| as_state := new_scan; as_seen := ∅; as_layout_found := false |}.

Section archives.
  Context {W : Type} `{ScanFs W, ZipReader W, Cancellation W, ScanObserver W, UnicodeLib, Codec}.

Definition archive_error (message : string) : ScanError.t := ScanError.InvalidArchive message.

Definition ok_or_archive {A} (f : W → option A * W) (message : string) : io W ScanError.t A := λ w,
  let '(r, w) := f w in (ok_or r (archive_error message), w).

(** One round of the loop of [validate_inputs] *)
Definition validate_input (input : string) : io W ScanError.t unit :=
  metadata ← ok_or_archive (sf_symlink_metadata input) "archive is not readable";
  lift (fail_if (negb (bool_decide (sm_type metadata = FileType.File))
                 || is_none_or (raw_extension input) (λ value, negb (eq_ignore_ascii_case value "zip")))
          (archive_error "inputs must be non-symlink ZIP files")).

Fixpoint for_each {A} (f : A → io W ScanError.t unit) (l : list A) : io W ScanError.t unit :=
  match l with [] => mret tt | x :: l => _ ← f x; for_each f l end.

Definition validate_inputs (inputs : list string) (max_archives : Z) : io W ScanError.t unit :=
  _ ← lift (fail_if (bool_decide (inputs = []) || (max_archives <? zlen inputs))
              (ScanError.LimitExceeded "max_archives"));
  for_each validate_input inputs.

(** The loop of [stream_entry]: the content and its length *)
Fixpoint decode_loop (fuel : nat) (buffer_bytes byte_len : Z) (content : string) (w : W) :
    option (result ScanError.t (Z * string) * W) :=
  match fuel with
  | O => None
  | S fuel =>
    match check_cancelled w with
    | (Err e, w) => Some (Err e, w)
    | (Ok _, w) =>
      match zip_read buffer_bytes w with
      | (None, w) => Some (Err (archive_error "cannot read or verify ZIP entry"), w)
      | (Some chunk, w) =>
        if is_empty chunk then Some (Ok (byte_len, content), w)
        else decode_loop fuel buffer_bytes (sat_add byte_len (len chunk)) (content +:+ chunk) w
      end
    end
  end.

(** [None] never happens: [decode_loop_returns]. *)
Definition decode_entry (buffer_bytes : Z) : io W ScanError.t (Z * string) := λ w,
  default (Err ScanError.Cancelled, w)
    (decode_loop (Z.to_nat (zip_left w) + 1)%nat buffer_bytes 0 "" w).

(** [stream_entry]: the length and the content, whose digests the caller takes *)
Definition stream_entry (entry : ZipEntry) (buffer_bytes : Z) : io W ScanError.t (Z * string) :=
  '(byte_len, content) ← decode_entry buffer_bytes;
  _ ← lift (fail_if (negb (byte_len =? ze_size entry)) (archive_error "ZIP entry size mismatch"));
  mret (byte_len, content).

(** The identity of what [stream_entry] has read *)
Definition entry_identity (kind : EntryKind) (byte_len : Z) (content : string) (modified : option Z) :
    EntryIdentity := {|
  ei_kind := kind; ei_byte_len := byte_len; ei_content_sha256 := sha256_hex content;
  ei_content_sha1_base64 := sha1_base64 content; ei_modified_at_unix_ms := modified |}.

(** One archive, entry by entry; [scan_entry] is the body of the loop. *)
Definition scan_one_archive (scan_entry : string → Z → ArchiveScan → io W ScanError.t ArchiveScan)
    (max_entries : Z) (path : string) (a : ArchiveScan) : io W ScanError.t ArchiveScan :=
  let fix entries indices a :=
    match indices with
    | [] => mret a
    | index :: indices => a ← scan_entry path index a; entries indices a
    end in
  _ ← check_cancelled;
  _ ← ok_or_archive (λ w, let '(opened, w) := sf_open path w in
                          (if opened then Some tt else None, w)) "cannot open archive";
  before ← ok_or_archive sf_file_metadata "cannot inspect archive";
  entry_count ← ok_or_archive zip_new "invalid ZIP directory";
  _ ← lift (fail_if (max_entries <? sat_add (ss_entries_seen (as_state a)) entry_count)
              (ScanError.LimitExceeded "max_entries"));
  a ← entries (seqZ 0 entry_count) a;
  after ← ok_or_archive sf_file_metadata "cannot recheck archive";
  _ ← lift (fail_if (metadata_changed before after) (archive_error "archive changed during scan"));
  mret a.

Fixpoint scan_all (scan_archive : string → ArchiveScan → io W ScanError.t ArchiveScan)
    (inputs : list string) (a : ArchiveScan) : io W ScanError.t ArchiveScan :=
  match inputs with
  | [] => mret a
  | input :: inputs => a ← scan_archive input a; scan_all scan_archive inputs a
  end.

(** The record of an entry that was read, and the event that follows *)
Definition merge_and_report (rules : MergeRules) (relative_path : string) (identity : EntryIdentity)
    (record : ScanState → ScanState) (a : ArchiveScan) : io W ScanError.t ArchiveScan :=
  let '(seen, s) := merge_entry rules relative_path identity record (as_seen a)
                      (add_bytes (ei_byte_len identity) (as_state a)) in
  s ← progress ContentIdentity s;
  mret {| as_state := s; as_seen := seen; as_layout_found := as_layout_found a |}.
End archives.
