(* ===== verification/ScanArchiveFacts.v ===== *)
(** * ScanArchiveFacts: what is kept of the entries of ZIP parts

    The seen paths as a function of the entries that were read, and the invariant
    that the state holds exactly one file for every path without a conflict. *)
From Stdlib Require Import Ascii.
From stdpp Require Import gmap strings.
From S2P Require Export ScanArchive DiscoveryFacts.

(** ** Termination of [stream_entry] *)

(** A reader gives at most what is left; a cancellation token does not decode. *)
Class ZipLaws (W : Type) `{ZipReader W, Cancellation W} : Prop := {
  zip_read_left n w chunk w' : zip_read n w = (Some chunk, w') → zip_left w' + len chunk <= zip_left w;
  zip_cancelled_left w b w' : is_cancelled w = (b, w') → zip_left w' = zip_left w;
  zip_left_nonneg w : 0 <= zip_left w;
}.

Section decode.
  Context {W : Type} `{ScanFs W, ZipReader W, Cancellation W, ScanObserver W, UnicodeLib, Codec}.

Lemma len_pos s : is_empty s = false → 1 <= len s.
Proof. destruct s; [done|]. intros _. unfold len. simpl. lia. Qed.

Lemma decode_loop_returns `{!ZipLaws W} fuel buffer byte_len content w :
  zip_left w < Z.of_nat fuel → is_Some (decode_loop fuel buffer byte_len content w).
Proof.
  revert byte_len content w. induction fuel as [|fuel IH]; intros byte_len content w Hl.
  { pose proof (zip_left_nonneg w). lia. }
  cbn [decode_loop]. unfold check_cancelled.
  destruct (is_cancelled w) as [b w1] eqn:Hb. apply zip_cancelled_left in Hb. destruct b; simpl; [by eexists|].
  destruct (zip_read buffer w1) as [[chunk|] w2] eqn:Hr; [|by eexists].
  apply zip_read_left in Hr. destruct (is_empty chunk) eqn:He; [by eexists|].
  apply len_pos in He. apply IH. lia.
Qed.

Lemma decode_entry_returns `{!ZipLaws W} buffer w :
  is_Some (decode_loop (Z.to_nat (zip_left w) + 1)%nat buffer 0 "" w).
Proof. apply decode_loop_returns. pose proof (zip_left_nonneg w). lia. Qed.
End decode.

(** ** Merging *)

(** What is known of a path after entries with the identities [ids] *)
Definition seen_of (ids : list EntryIdentity) : option (option EntryIdentity) :=
  match ids with
  | [] => None
  | id :: ids => if forallb (λ i, bool_decide (i = id)) ids then Some (Some id) else Some None
  end.

Definition identities (p : string) (reads : list (string * EntryIdentity)) : list EntryIdentity :=
  map snd (List.filter (λ r, String.eqb r.1 p) reads).

(** A file of the state with this path and identity *)
Definition holds (s : ScanState) (p : string) (id : EntryIdentity) : Prop :=
  (∃ m, m ∈ ss_media s ∧ dm_relative_path m = p ∧ ei_kind id = Entry_Media (dm_kind m)
    ∧ dm_byte_len m = ei_byte_len id ∧ dm_content_sha256 m = ei_content_sha256 id
    ∧ dm_content_sha1_base64 m = ei_content_sha1_base64 id)
  ∨ ∃ x, x ∈ ss_sidecars s ∧ ds_relative_path x = p ∧ ei_kind id = Entry_Sidecar (ds_kind x)
    ∧ ds_byte_len x = ei_byte_len id ∧ ds_content_sha256 x = ei_content_sha256 id
    ∧ ds_content_sha1_base64 x = ei_content_sha1_base64 id.

(** What [record] does to a state: it adds one file. *)
Definition records (record : ScanState → ScanState) (p : string) (id : EntryIdentity) : Prop :=
  (∃ m, (∀ s, record s = set_media (λ l, l ++ [m]) s) ∧ dm_relative_path m = p
    ∧ ei_kind id = Entry_Media (dm_kind m) ∧ dm_byte_len m = ei_byte_len id
    ∧ dm_content_sha256 m = ei_content_sha256 id ∧ dm_content_sha1_base64 m = ei_content_sha1_base64 id)
  ∨ ∃ x, (∀ s, record s = set_sidecars (λ l, l ++ [x]) s) ∧ ds_relative_path x = p
    ∧ ei_kind id = Entry_Sidecar (ds_kind x) ∧ ds_byte_len x = ei_byte_len id
    ∧ ds_content_sha256 x = ei_content_sha256 id ∧ ds_content_sha1_base64 x = ei_content_sha1_base64 id.

Record merged (rules : MergeRules) (reads : list (string * EntryIdentity)) (seen : Seen)
    (s : ScanState) : Prop := {
  mg_seen p : seen !! p = seen_of (identities p reads);
  mg_unique : NoDup (all_paths s);
  mg_paths p : p ∈ all_paths s ↔ ∃ id, seen_of (identities p reads) = Some (Some id);
  mg_holds p id : seen_of (identities p reads) = Some (Some id) → holds s p id;
  mg_conflict p : seen_of (identities p reads) = Some None →
    diagnostic (mr_conflict_rule rules) (mr_conflict_code rules) [p] ∈ ss_errors s;
}.

Lemma identities_snoc p q id reads :
  identities p (reads ++ [(q, id)]) = identities p reads ++ (if String.eqb q p then [id] else []).
Proof.
  unfold identities. rewrite List.filter_app, map_app. simpl. by destruct (String.eqb q p).
Qed.

Lemma seen_of_snoc ids id :
  seen_of (ids ++ [id]) = match seen_of ids with
    | None => Some (Some id)
    | Some previous => if bool_decide (previous = Some id) then Some previous else Some None
    end.
Proof.
  destruct ids as [|i ids]; [done|]. simpl. rewrite forallb_app. simpl. rewrite andb_true_r.
  destruct (forallb _ ids); simpl; [|done].
  destruct (decide (id = i)) as [->|Hne]; [by rewrite !bool_decide_true|].
  rewrite !bool_decide_false by congruence. done.
Qed.

Lemma identities_other p q id reads : q ≠ p → identities p (reads ++ [(q, id)]) = identities p reads.
Proof. intros Hne. rewrite identities_snoc, (proj2 (String.eqb_neq q p) Hne). apply app_nil_r. Qed.

Lemma seen_of_same p id reads :
  seen_of (identities p (reads ++ [(p, id)]))
  = match seen_of (identities p reads) with
    | None => Some (Some id)
    | Some previous => if bool_decide (previous = Some id) then Some previous else Some None
    end.
Proof. by rewrite identities_snoc, String.eqb_refl, seen_of_snoc. Qed.

Lemma all_paths_drop p s : all_paths (drop_path p s) = List.filter (λ q, negb (String.eqb q p)) (all_paths s).
Proof.
  unfold all_paths, media_paths, sidecar_paths, drop_path. cbn. rewrite List.filter_app.
  by rewrite (ReconcileFacts.filter_map dm_relative_path (λ q, negb (String.eqb q p))),
    (ReconcileFacts.filter_map ds_relative_path (λ q, negb (String.eqb q p))).
Qed.

Lemma holds_drop p q id s : q ≠ p → holds s q id → holds (drop_path p s) q id.
Proof.
  intros Hne [(m & Hin & Hp & Hm)|(x & Hin & Hp & Hx)]; [left; exists m|right; exists x];
    (split; [|done]); cbn; apply elem_of_List_filter; (split; [done|]);
    by rewrite Hp, negb_true_iff, String.eqb_neq.
Qed.

Lemma records_paths record p id s : records record p id →
  (∀ q, q ∈ all_paths (record s) ↔ q = p ∨ q ∈ all_paths s)
  ∧ (p ∉ all_paths s → NoDup (all_paths s) → NoDup (all_paths (record s)))
  ∧ ss_errors (record s) = ss_errors s ∧ holds (record s) p id
  ∧ ∀ q i, holds s q i → holds (record s) q i.
Proof.
  intros [(m & Hr & Hp & Hm)|(x & Hr & Hp & Hx)]; rewrite Hr;
    unfold all_paths, media_paths, sidecar_paths; cbn; rewrite map_app; simpl; rewrite Hp; split_and!; try done.
  - set_solver.
  - intros Hnew Hn. rewrite <- app_assoc. simpl. rewrite <- Permutation_middle. by constructor.
  - left. exists m. split; [cbn; set_solver|done].
  - intros q i [(m' & Hin & ?)|(x' & Hin & ?)]; [left; exists m'|right; exists x']; cbn; set_solver.
  - set_solver.
  - intros Hnew Hn. rewrite app_assoc, <- Permutation_cons_append. by constructor.
  - right. exists x. split; [cbn; set_solver|done].
  - intros q i [(m' & Hin & ?)|(x' & Hin & ?)]; [left; exists m'|right; exists x']; cbn; set_solver.
Qed.

Lemma merged_new rules : merged rules [] ∅ new_scan.
Proof.
  split; try done.
  - constructor.
  - intros p. split; [by intros ?%elem_of_nil|by intros (? & ?)].
Qed.

Lemma merged_counters rules reads seen s e b n :
  merged rules reads seen s → merged rules reads seen (set_counters e b n s).
Proof. intros []. by split. Qed.

(** One entry more *)
Lemma merge_entry_merged rules reads p id record seen s :
  records record p id → merged rules reads seen s →
  merged rules (reads ++ [(p, id)]) (merge_entry rules p id record seen s).1
    (merge_entry rules p id record seen s).2.
Proof.
  intros Hrec [Hseen Hu Hp Hh Hc]. unfold merge_entry. rewrite Hseen.
  pose proof (seen_of_same p id reads) as Hnew.
  assert (∀ q, q ≠ p → seen_of (identities q (reads ++ [(p, id)])) = seen_of (identities q reads)) as Hold
    by (intros q Hq; by rewrite identities_other).
  destruct (seen_of (identities p reads)) as [previous|] eqn:Hs; [case_bool_decide as Hprev|];
    rewrite ?Hprev, ?bool_decide_true, ?bool_decide_false in Hnew by done; cbn [fst snd].
  - subst previous.
    assert (∀ q, seen_of (identities q (reads ++ [(p, id)])) = seen_of (identities q reads)) as Hall.
    { intros q. destruct (decide (q = p)) as [->|]; [by rewrite Hnew, Hs|by apply Hold]. }
    split; [intros q; by rewrite Hall|done|intros q; rewrite Hall; apply Hp
      |intros q i; rewrite Hall; apply Hh|intros q; rewrite Hall; apply Hc].
  - split.
    + intros q. destruct (decide (q = p)) as [->|Hq]; [by rewrite lookup_insert_eq, Hnew|].
      by rewrite lookup_insert_ne, Hold by done.
    + change (NoDup (all_paths (drop_path p s))). rewrite all_paths_drop. by apply NoDup_ListNoDup, List.NoDup_filter, NoDup_ListNoDup.
    + intros q. change (q ∈ all_paths (drop_path p s) ↔ ∃ i, seen_of (identities q (reads ++ [(p, id)])) = Some (Some i)).
      rewrite all_paths_drop, elem_of_List_filter, negb_true_iff, String.eqb_neq.
      destruct (decide (q = p)) as [->|Hq].
      * rewrite Hnew. split; [by intros [_ ?]|by intros (? & ?)].
      * rewrite Hold by done. rewrite <- Hp. tauto.
    + intros q i Hqi. assert (q ≠ p) as Hq by (intros ->; congruence).
      apply (holds_drop p q i s Hq). apply Hh. by rewrite <- Hold.
    + intros q Hq. cbn. apply elem_of_app. destruct (decide (q = p)) as [->|Hne]; [right; left|left].
      apply Hc. by rewrite <- Hold.
  - destruct (records_paths record p id s Hrec) as (Hpaths & Hnodup & Herr & Hhold & Hkeep).
    assert (p ∉ all_paths s) as Hfresh by (intros (i & Hi)%Hp; congruence).
    split.
    + intros q. destruct (decide (q = p)) as [->|Hq]; [by rewrite lookup_insert_eq, Hnew|].
      by rewrite lookup_insert_ne, Hold by done.
    + by apply Hnodup.
    + intros q. rewrite Hpaths. destruct (decide (q = p)) as [->|Hq].
      * rewrite Hnew. split; [by exists id|by left].
      * rewrite Hold, Hp by done. split; [by intros [?|?]|by right].
    + intros q i Hqi. destruct (decide (q = p)) as [->|Hq].
      * rewrite Hnew in Hqi. by injection Hqi as <-.
      * apply Hkeep, Hh. by rewrite <- Hold.
    + intros q Hq. rewrite Herr. apply Hc. rewrite <- Hold; [done|]. intros ->. congruence.
Qed.

(** ** The loops over entries and parts *)

Definition not_plan (e : ScanError.t) : Prop := ∀ p, e ≠ ScanError.InvalidPlan p.

Section scans.
  Context {W : Type} `{ScanFs W, ZipReader W, Cancellation W, ScanObserver W, UnicodeLib, Codec}.

#[local] Hint Resolve errors_in_ret errors_in_progress : core.

Lemma errors_in_lift {A} (E : ScanError.t → Prop) (r : result ScanError.t A) :
  (∀ e, r = Err e → E e) → errors_in E (lift (W := W) r).
Proof. intros Hr w e w' He. apply lift_Err in He as [He _]. by apply Hr. Qed.

Lemma errors_in_archive {A} (f : W → option A * W) message :
  errors_in not_plan (ok_or_archive f message).
Proof. intros w e w'. unfold ok_or_archive. destruct (f w) as [[x|] w1]; [done|]. by intros [= <- _] p. Qed.

Lemma decode_errors buffer : errors_in not_plan (decode_entry buffer).
Proof.
  intros w e w'. unfold decode_entry.
  assert (∀ fuel n content w r w', decode_loop fuel buffer n content w = Some (Err r, w') → not_plan r) as Hl.
  { induction fuel as [|fuel IH]; intros n content w1 r w2; simpl; [done|].
    destruct (check_cancelled w1) as [[u|e1] w3] eqn:Hc; [|intros [= <- _]].
    - destruct (zip_read buffer w3) as [[chunk|] w4]; [|by intros [= <- _] p].
      destruct (is_empty chunk); [done|]. apply IH.
    - apply (errors_in_cancelled not_plan) in Hc; [done|]. by intros p. }
  destruct (decode_loop _ _ _ _ w) as [[r w1]|] eqn:Hd; simpl; [|by intros [= <- _] p].
  intros [= -> ->]. by eapply Hl.
Qed.

Lemma stream_entry_errors entry buffer : errors_in not_plan (stream_entry entry buffer).
Proof.
  apply errors_in_bind; [apply decode_errors|]. intros [n content].
  apply errors_in_bind; [|auto]. by apply errors_in_fail_if.
Qed.

Lemma stream_entry_Ok entry buffer w n content w' :
  stream_entry entry buffer w = (Ok (n, content), w') → n = ze_size entry.
Proof.
  intros ([n' content'] & w1 & _ & ([] & w2 & Hl & [= -> -> _])%io_bind_Ok)%io_bind_Ok.
  apply lift_Ok in Hl as [Hl _]. apply fail_if_Ok, negb_false_iff, Z.eqb_eq in Hl. done.
Qed.

Lemma validate_inputs_errors inputs max : errors_in not_plan (validate_inputs inputs max).
Proof.
  apply errors_in_bind; [by apply errors_in_fail_if|intros _].
  induction inputs as [|input inputs IH]; simpl; [auto|]. apply errors_in_bind; [|auto].
  apply errors_in_bind; [apply errors_in_archive|intros m]. by apply errors_in_fail_if.
Qed.

Lemma portable_entry_path_Err entry max e : portable_entry_path entry max = Err e → not_plan e.
Proof.
  unfold portable_entry_path. intros Hp.
  destruct (_ || _) in Hp; [by injection Hp as <-|]. cbn [fail_if mbind result_bind] in Hp.
  destruct (ze_enclosed_name entry) as [enclosed|]; [|by injection Hp as <-]. cbn in Hp.
  destruct (try_map _ _) as [components|e1] eqn:Hc in Hp.
  - cbn in Hp. destruct (_ || _) in Hp; [by injection Hp as <-|done].
  - injection Hp as <-. clear -Hc. revert e1 Hc. induction (path_components enclosed) as [|c l IH]; [done|].
    intros e1. cbn [try_map]. destruct (_ || _); [by intros [= <-]|].
    destruct (is_utf8 c); [|by intros [= <-]]. cbn. destruct (try_map _ l) as [k|e2]; [done|].
    intros [= <-]. by eapply IH.
Qed.

Lemma portable_entry_path_Ok entry max path :
  portable_entry_path entry max = Ok path → path ≠ "" ∧ len path <= max.
Proof.
  unfold portable_entry_path. intros Hp. result_inv. bools. split; [by apply is_empty_false|done].
Qed.

Lemma validate_entry_Err entry a b c e : validate_entry entry a b c = Err e → not_plan e.
Proof.
  unfold validate_entry. intros He.
  repeat (apply bind_Err in He as [[_ <-]%fail_if_Err|(? & _ & He)]; [done|]). by apply fail_if_Err in He as [_ <-].
Qed.

Lemma validate_entry_Ok entry a b c : validate_entry entry a b c = Ok tt → ze_size entry <= a.
Proof. unfold validate_entry. intros Hv. result_inv. bools. done. Qed.

(** ** An invariant of the entries *)

Variable scan_entry : string → Z → ArchiveScan → io W ScanError.t ArchiveScan.
Variable max_entries : Z.

Lemma scan_one_archive_errors path a :
  (∀ path i a, errors_in not_plan (scan_entry path i a)) →
  errors_in not_plan (scan_one_archive scan_entry max_entries path a).
Proof.
  intros He. unfold scan_one_archive.
  apply errors_in_bind; [by apply errors_in_cancelled|intros _].
  apply errors_in_bind; [apply errors_in_archive|intros _].
  apply errors_in_bind; [apply errors_in_archive|intros before].
  apply errors_in_bind; [apply errors_in_archive|intros n].
  apply errors_in_bind; [by apply errors_in_fail_if|intros _].
  apply errors_in_bind.
  - generalize (seqZ 0 n). intros l. revert a. induction l as [|i l IH]; intros a; [auto|].
    apply errors_in_bind; [apply He|intros a'; apply IH].
  - intros a'. apply errors_in_bind; [apply errors_in_archive|intros after].
    apply errors_in_bind; [by apply errors_in_fail_if|auto].
Qed.

Lemma scan_all_errors inputs a :
  (∀ path i a, errors_in not_plan (scan_entry path i a)) →
  errors_in not_plan (scan_all (scan_one_archive scan_entry max_entries) inputs a).
Proof.
  intros He. revert a. induction inputs as [|input inputs IH]; intros a; simpl; [auto|].
  apply errors_in_bind; [by apply scan_one_archive_errors|auto].
Qed.

Variable P : ArchiveScan → Prop.
Hypothesis entry_keeps : ∀ path i a w a' w', P a → scan_entry path i a w = (Ok a', w') → P a'.

Lemma scan_one_archive_keeps path a w a' w' :
  P a → scan_one_archive scan_entry max_entries path a w = (Ok a', w') → P a'.
Proof.
  intros Ha. unfold scan_one_archive.
  intros (? & w1 & _ & (? & w2 & _ & (before & w3 & _ & (n & w4 & _ & (? & w5 & _ & Hr)%io_bind_Ok)%io_bind_Ok)%io_bind_Ok)%io_bind_Ok)%io_bind_Ok.
  apply io_bind_Ok in Hr as (a1 & w6 & Hentries & (after & w7 & _ & (? & w8 & _ & [= -> _])%io_bind_Ok)%io_bind_Ok).
  clear -Ha Hentries entry_keeps. revert a w5 Ha Hentries.
  generalize (seqZ 0 n). intros l. induction l as [|i l IH]; intros a w5 Ha.
  - by intros [= -> _].
  - intros (a2 & w9 & Hi & Hl)%io_bind_Ok. eapply IH; [|exact Hl]. by eapply entry_keeps.
Qed.

Lemma scan_all_keeps inputs a w a' w' :
  P a → scan_all (scan_one_archive scan_entry max_entries) inputs a w = (Ok a', w') → P a'.
Proof.
  revert a w. induction inputs as [|input inputs IH]; intros a w Ha; simpl; [by intros [= <- _]|].
  intros (a1 & w1 & Hone & Hrest)%io_bind_Ok. eapply IH; [|exact Hrest]. by eapply scan_one_archive_keeps.
Qed.
End scans.
