(* ===== verification/Takeout.v ===== *)
(** * Takeout: Google Takeout exports
    ([crates/immich-sources/src/takeout_metadata.rs], [google_takeout.rs],
    [takeout_reconcile.rs], [takeout_archive.rs])

    A JSON document becomes normalized metadata; documents are matched with media
    by title or by the names Takeout derives, directories become albums, and files
    of the same content are collapsed into one.  [serde_json] and the calendar are
    the class [TakeoutLib], reading a document again the class [TakeoutFs].
    An export is one decompressed directory or up to [max_archives] ZIP parts; a
    directory is walked by [scan_resolved_internal], parts are read entry by entry
    with their JSON documents kept, and both are reconciled by [takeout_reconcile]. *)
From Stdlib Require Import Ascii.
From S2P Require Export Reconcile Discovery ScanArchive.

(** ** Documents *)

Record RawTime := { timestamp : string }.
Record RawGeo := { rg_latitude : option F64.f64; rg_longitude : option F64.f64 }.
Record RawDocument := {
  rd_title : string;
  rd_description : option string;
  rd_photo_taken_time : option RawTime;
  rd_creation_time : option RawTime;
  rd_geo_data_exif : option RawGeo;
  rd_geo_data : option RawGeo;
}.

(** [serde_json::from_slice::<RawDocument>] and [OffsetDateTime::from_unix_timestamp] *)
Class TakeoutLib `{TimeLib} := {
  raw_document : string → option RawDocument;
  from_unix_timestamp : Z → option instant;
}.

(** [File::open(path)?.take(limit).read_to_end(..)]; any error is the same here. *)
Class TakeoutFs (W : Type) := { read_limited : string → Z → W → option string * W }.

Definition MAX_JSON_BYTES : Z := 256 * 1024.
Definition MAX_TITLE_BYTES : Z := 4096.
Definition MAX_DESCRIPTION_BYTES : Z := 16 * 1024.

(** [validate_text] *)
Definition takeout_text (value : string) (max_bytes : Z) (allow_layout : bool) :
    result ParseError.t unit :=
  let invalid_control := existsb (λ c, is_control c && negb (allow_layout && is_layout c)) (chars value) in
  fail_if (is_empty value || (max_bytes <? len value) || invalid_control
           || (negb allow_layout && (contains_byte "/" value || contains_byte "\" value)))
    ParseError.Invalid.

(** [value.parse::<i64>()] of digits only *)
Definition parse_i64_digits (value : string) : option Z :=
  parse_digits (bytes value) 0 ≫= λ n, if n <? 2 ^ 63 then Some n else None.

Definition canonical_decimal (value : F64.f64) : string :=
  if F64.is_zero value then "0" else F64.display value.

Definition normalize_location (value : RawGeo) : result ParseError.t (option GeoCoordinates) :=
  match rg_latitude value, rg_longitude value with
  | Some latitude_value, Some longitude_value =>
    _ ← fail_if (negb (F64.is_finite latitude_value) || negb (F64.is_finite longitude_value)
                 || negb (F64.in_range (-90) 90 latitude_value)
                 || negb (F64.in_range (-180) 180 longitude_value)) ParseError.Invalid;
    if F64.is_zero latitude_value && F64.is_zero longitude_value then Ok None
    else Ok (Some {| latitude := canonical_decimal latitude_value;
                     longitude := canonical_decimal longitude_value |})
  | _, _ => Err ParseError.Invalid
  end.

(** [Option::or] *)
Definition option_or {A} (a b : option A) : option A := match a with Some _ => a | None => b end.

(** [option.map(f).transpose()?] *)
Definition transpose {E A B} (f : A → result E B) (o : option A) : result E (option B) :=
  match o with None => Ok None | Some a => b ← f a; Ok (Some b) end.

Section documents.
  Context `{TimeLib, !TakeoutLib}.

Definition normalize_timestamp (value : string) : result ParseError.t string :=
  _ ← fail_if (is_empty value || existsb (λ a, negb (is_ascii_digit a)) (bytes value))
        ParseError.Invalid;
  seconds ← ok_or (parse_i64_digits value) ParseError.Invalid;
  time ← ok_or (from_unix_timestamp seconds) ParseError.Invalid;
  ok_or (format_rfc3339 time) ParseError.Invalid.

Definition parse_bytes (bytes : string) (allow_empty_title : bool) :
    result ParseError.t TakeoutDocument :=
  raw ← ok_or (raw_document bytes) ParseError.Invalid;
  _ ← if negb allow_empty_title || negb (is_empty (rd_title raw))
      then takeout_text (rd_title raw) MAX_TITLE_BYTES false else Ok tt;
  description ← transpose (λ value, _ ← takeout_text value MAX_DESCRIPTION_BYTES true; Ok value)
                  (rd_description raw ≫= λ value, if is_empty value then None else Some value);
  taken_at_utc ← transpose (λ value, normalize_timestamp (timestamp value))
                   (option_or (rd_photo_taken_time raw) (rd_creation_time raw));
  location ← transpose normalize_location (option_or (rd_geo_data_exif raw) (rd_geo_data raw));
  Ok {| td_title := rd_title raw;
        td_metadata := {| description := description; taken_at_utc := taken_at_utc;
                          location := mjoin location; albums := [] |} |}.
End documents.

#[export] Instance TakeoutDocument_eq_dec : EqDecision TakeoutDocument.
Proof. solve_decision. Defined.

Section takeout.
  Context {W : Type} `{TakeoutFs W, UnicodeLib, Codec, TimeLib, !TakeoutLib}.

(** [google_takeout::parse_document] *)
Definition parse_document (sidecar : DiscoveredSidecar) (allow_empty_title : bool) :
    io W ParseError.t TakeoutDocument := λ w,
  match ds_takeout_parse_error sidecar, ds_takeout_document sidecar with
  | Some error, _ => (Err error, w)
  | None, Some document => (Ok document, w)
  | None, None =>
    if ds_byte_len sidecar =? 0 then (Err ParseError.Invalid, w)
    else if MAX_JSON_BYTES <? ds_byte_len sidecar then (Err ParseError.Oversized, w)
    else
      let '(read, w) := read_limited (ds_native_path sidecar) (MAX_JSON_BYTES + 1) w in
      (bytes ← ok_or read ParseError.Invalid;
       _ ← fail_if (MAX_JSON_BYTES <? len bytes) ParseError.Oversized;
       _ ← fail_if (negb (len bytes =? ds_byte_len sidecar)
                    || negb (String.eqb (sha256_hex bytes) (ds_content_sha256 sidecar)))
             ParseError.SourceChanged;
       parse_bytes bytes allow_empty_title, w)
  end.

Definition record_parse_error (sidecar : DiscoveredSidecar) (error : ParseError.t) :
    ScanState → ScanState :=
  let '(rule, code) :=
    match error with
    | ParseError.Invalid => (rule_id.GOOGLE_TAKEOUT_JSON_INVALID, "invalid_takeout_json")
    | ParseError.Oversized =>
      (rule_id.GOOGLE_TAKEOUT_JSON_OVERSIZED, "takeout_json_size_limit_exceeded")
    | ParseError.SourceChanged => (rule_id.SOURCE_CHANGED, "takeout_json_changed_during_scan")
    end in
  push_error (diagnostic rule code [ds_relative_path sidecar]).

Definition record_ambiguous (code sidecar : string) (candidates : list nat) (s : ScanState) :
    ScanState :=
  push_error (diagnostic rule_id.GOOGLE_TAKEOUT_AMBIGUOUS code
    (sidecar :: paths_at (ss_media s) (take (MAX_DIAGNOSTIC_PATHS - 1) candidates))) s.

Definition unsupported (sidecar : DiscoveredSidecar) : ScanState → ScanState :=
  push_warning (diagnostic rule_id.GOOGLE_TAKEOUT_UNSUPPORTED
    "unsupported_takeout_metadata_family" [ds_relative_path sidecar]).

Definition orphan (code : string) (sidecar : DiscoveredSidecar) : ScanState → ScanState :=
  push_warning (diagnostic rule_id.ORPHAN_SIDECAR code [ds_relative_path sidecar]).

Definition unmatched_media (media : DiscoveredMedia) : ScanState → ScanState :=
  push_warning (diagnostic rule_id.GOOGLE_TAKEOUT_UNMATCHED_MEDIA "takeout_media_without_json"
    [dm_relative_path media]).

(** The media that [has] nothing is warned of *)
Definition warn_unmatched (has : DiscoveredMedia → bool) (s : ScanState) : ScanState :=
  foldl (λ s media, if has media then s else unmatched_media media s) s (ss_media s).

(** The media in the sidecar's directory with this file name *)
Definition candidates_for_title (media : list DiscoveredMedia) (sidecar title : string) : list nat :=
  indices_where (λ m, String.eqb (parent (dm_relative_path m)) (parent sidecar)
                      && String.eqb (filename (dm_relative_path m)) title) media.

(** ** The title-only reconciler of [google_takeout.rs] *)

Record TitleRun := { tt_state : ScanState; tt_matches : list (nat * list nat) }.

(** One round of the first loop *)
Definition title_sidecar (r : TitleRun) (sidecar_index : nat) (sidecar : DiscoveredSidecar) (w : W) :
    TitleRun * W :=
  let with_state f := {| tt_state := f (tt_state r); tt_matches := tt_matches r |} in
  match ds_kind sidecar with
  | Meta_Xmp => (with_state (unsupported sidecar), w)
  | Meta_Json =>
    match parse_document sidecar false w with
    | (Err error, w) => (with_state (record_parse_error sidecar error), w)
    | (Ok document, w) =>
      (match candidates_for_title (ss_media (tt_state r)) (ds_relative_path sidecar)
               (td_title document) with
       | [media_index] =>
         {| tt_state := tt_state r;
            tt_matches := entry_by Nat.compare media_index [] (λ l, l ++ [sidecar_index])
                            (tt_matches r) |}
       | [] => with_state (orphan "takeout_title_without_media" sidecar)
       | candidates => with_state (record_ambiguous "ambiguous_takeout_title"
                                     (ds_relative_path sidecar) candidates)
       end, w)
    end
  end.

Fixpoint title_loop (r : TitleRun) (sidecars : list (nat * DiscoveredSidecar)) (w : W) :
    TitleRun * W :=
  match sidecars with
  | [] => (r, w)
  | (index, sidecar) :: sidecars =>
    let '(r, w) := title_sidecar r index sidecar w in title_loop r sidecars w
  end.

Definition sidecar_paths_at (s : ScanState) (indices : list nat) : list string :=
  omap (λ index, ds_relative_path <$> ss_sidecars s !! index) indices.

(** One round of the second loop *)
Definition attach_title (s : ScanState) (m : nat * list nat) : ScanState :=
  match m.2 with
  | [sidecar_index] =>
    match ss_sidecars s !! sidecar_index with
    | Some sidecar => attach_at m.1 sidecar rule_id.GOOGLE_TAKEOUT_TITLE s
    | None => s
    end
  | sidecar_indices =>
    push_error (diagnostic rule_id.GOOGLE_TAKEOUT_AMBIGUOUS "multiple_takeout_sidecars_for_media"
      (paths_at (ss_media s) [m.1] ++ sidecar_paths_at s sidecar_indices)) s
  end.

(** [google_takeout::reconcile] *)
Definition title_reconcile (s : ScanState) (w : W) : ScanState * W :=
  let s := prepare s in
  let '(r, w) := title_loop {| tt_state := s; tt_matches := [] |} (enumerate (ss_sidecars s)) w in
  let s := foldl attach_title (tt_state r) (tt_matches r) in
  (complete (warn_unmatched (λ media, negb (bool_decide (dm_metadata media = []))) s), w).

(** ** Names ([takeout_reconcile.rs]) *)

Definition SUPPLEMENTAL_MARKER : string := "supplemental-metadata".

Definition starts_with (prefix s : string) : bool := is_some (Text.strip_prefix prefix s).

(** [<media>.<marker>(N).json] and [<media>(N).json] name [<stem>(N).<extension>]. *)
Definition indexed_media_name (sidecar_name : string) : option string :=
  s ← Text.strip_suffix ").json" sidecar_name;
  '(head_value, index) ← rsplit_once "(" s;
  if is_empty index || negb (forallb is_ascii_digit (bytes index)) then None else
  let media_name :=
    match rsplit_once "." head_value with
    | Some (media_name, marker) =>
      if negb (is_empty marker) && starts_with marker SUPPLEMENTAL_MARKER then media_name
      else head_value
    | None => head_value
    end in
  '(stem_value, extension_value) ← rsplit_once "." media_name;
  if is_empty stem_value || is_empty extension_value then None
  else Some (stem_value +:+ "(" +:+ index +:+ ")." +:+ extension_value).

Definition candidates_for_indexed_sidecar_name (media : list DiscoveredMedia) (sidecar : string) :
    list nat :=
  match indexed_media_name (filename sidecar) with
  | None => []
  | Some target =>
    indices_where (λ m, String.eqb (parent (dm_relative_path m)) (parent sidecar)
                        && String.eqb (filename (dm_relative_path m)) target) media
  end.

Definition candidates_for_sidecar_name (media : list DiscoveredMedia) (sidecar : string) : list nat :=
  let name := filename sidecar in
  let base := match Text.strip_suffix ".supplemental-metadata.json" name with
              | Some base => Some base
              | None => Text.strip_suffix ".json" name
              end in
  match base with
  | Some base =>
    if is_empty base then [] else
    let same_directory m := String.eqb (parent (dm_relative_path m)) (parent sidecar) in
    let exact := indices_where (λ m, same_directory m
                   && String.eqb (filename (dm_relative_path m)) base) media in
    match exact with
    | [] => indices_where (λ m, same_directory m
              && starts_with base (filename (dm_relative_path m))) media
    | _ => exact
    end
  | None => []
  end.

Definition is_album_document (path : string) : bool :=
  if negb (String.eqb (filename path) "metadata.json") then false
  else
    let directory := filename (parent path) in
    negb (one_of ["Archive"; "Trash"; "Bin"] directory) && negb (starts_with "Photos from " directory).

Definition canonical_rank (path : string) : Z :=
  let parent_name := filename (parent path) in
  let year := Text.strip_prefix "Photos from " parent_name in
  if is_some_and year (λ value, (len value =? 4) && forallb is_ascii_digit (bytes value)) then 0
  else 1.

(** ** Matching *)

(** [Match] of the code: a sidecar and the rule that selected it *)
Record TakeoutMatch := { tm_sidecar : nat; tm_rule : string }.

Record TakeoutRun := {
  tr_state : ScanState;
  tr_matches : list (nat * list TakeoutMatch);
  tr_albums : list (string * (string * nat));
}.

Definition set_document (document : TakeoutDocument) (x : DiscoveredSidecar) : DiscoveredSidecar := {|
  ds_native_path := ds_native_path x; ds_archive_index := ds_archive_index x;
  ds_relative_path := ds_relative_path x; ds_kind := ds_kind x; ds_byte_len := ds_byte_len x;
  ds_content_sha256 := ds_content_sha256 x; ds_content_sha1_base64 := ds_content_sha1_base64 x;
  ds_created_at_unix_ms := ds_created_at_unix_ms x;
  ds_modified_at_unix_ms := ds_modified_at_unix_ms x;
  ds_takeout_document := Some document; ds_takeout_parse_error := ds_takeout_parse_error x |}.

(** [filename(parent(..)).clone_into(&mut document.title)] of an empty title *)
Definition titled (sidecar : DiscoveredSidecar) (document : TakeoutDocument) : TakeoutDocument :=
  if is_empty (td_title document) then
    {| td_title := filename (parent (ds_relative_path sidecar)); td_metadata := td_metadata document |}
  else document.

(** The candidates of a document and the rule they are selected by *)
Definition takeout_candidates (media : list DiscoveredMedia) (sidecar : DiscoveredSidecar)
    (title : string) : list nat * string :=
  let indexed := candidates_for_indexed_sidecar_name media (ds_relative_path sidecar) in
  let exact := candidates_for_title media (ds_relative_path sidecar) title in
  match indexed, exact with
  | _ :: _, _ => (indexed, rule_id.GOOGLE_TAKEOUT_SUPPLEMENTAL)
  | [], [] => (candidates_for_sidecar_name media (ds_relative_path sidecar),
               rule_id.GOOGLE_TAKEOUT_SUPPLEMENTAL)
  | [], _ :: _ => (exact, rule_id.GOOGLE_TAKEOUT_TITLE)
  end.

(** One round of the first loop *)
Definition takeout_sidecar (r : TakeoutRun) (sidecar_index : nat) (sidecar : DiscoveredSidecar)
    (w : W) : TakeoutRun * W :=
  let with_state f := {| tr_state := f (tr_state r); tr_matches := tr_matches r;
                         tr_albums := tr_albums r |} in
  match ds_kind sidecar with
  | Meta_Xmp => (with_state (unsupported sidecar), w)
  | Meta_Json =>
    let album_document := is_album_document (ds_relative_path sidecar) in
    match parse_document sidecar album_document w with
    | (Err error, w) => (with_state (record_parse_error sidecar error), w)
    | (Ok document, w) =>
      let document := titled sidecar document in
      let s := set_sidecars (alter (set_document document) sidecar_index) (tr_state r) in
      let '(candidates, rule) := takeout_candidates (ss_media s) sidecar (td_title document) in
      (match candidates with
       | [media] =>
         {| tr_state := s;
            tr_matches := entry_by Nat.compare media []
              (λ l, l ++ [{| tm_sidecar := sidecar_index; tm_rule := rule |}]) (tr_matches r);
            tr_albums := tr_albums r |}
       | [] =>
         if album_document then
           let v := (td_title document, sidecar_index) in
           {| tr_state := s; tr_matches := tr_matches r;
              tr_albums := entry_by String.compare (parent (ds_relative_path sidecar)) v (λ _, v)
                             (tr_albums r) |}
         else {| tr_state := orphan "takeout_metadata_without_media" sidecar s;
                 tr_matches := tr_matches r; tr_albums := tr_albums r |}
       | _ => {| tr_state := record_ambiguous "ambiguous_takeout_metadata"
                               (ds_relative_path sidecar) candidates s;
                 tr_matches := tr_matches r; tr_albums := tr_albums r |}
       end, w)
    end
  end.

Fixpoint takeout_loop (r : TakeoutRun) (sidecars : list (nat * DiscoveredSidecar)) (w : W) :
    TakeoutRun * W :=
  match sidecars with
  | [] => (r, w)
  | (index, sidecar) :: sidecars =>
    let '(r, w) := takeout_sidecar r index sidecar w in takeout_loop r sidecars w
  end.

(** [media.normalized_metadata = ..] *)
Definition set_normalized (n : option NormalizedMetadata) (m : DiscoveredMedia) : DiscoveredMedia :=
  set_findings m (dm_metadata m) n (dm_live_photo m) (dm_evidence m).

Definition attach_match (media_index : nat) (s : ScanState) (item : TakeoutMatch) : ScanState :=
  match ss_sidecars s !! tm_sidecar item with
  | Some sidecar => attach_at media_index sidecar (tm_rule item) s
  | None => s
  end.

(** One round of [attach_asset_documents] *)
Definition attach_documents (s : ScanState) (m : nat * list TakeoutMatch) : ScanState :=
  let '(media_index, selected) := m in
  let documents :=
    omap (λ item, ss_sidecars s !! tm_sidecar item ≫= ds_takeout_document) selected in
  if negb (windows2_all (λ a b, bool_decide (a = b)) documents) then
    push_error (diagnostic rule_id.GOOGLE_TAKEOUT_METADATA_CONFLICT
      "conflicting_takeout_asset_metadata"
      (paths_at (ss_media s) [media_index] ++ sidecar_paths_at s (map tm_sidecar selected))) s
  else
    let s := match documents with
             | document :: _ =>
               set_media (alter (set_normalized (Some (td_metadata document))) media_index) s
             | [] => s
             end in
    foldl (attach_match media_index) s selected.

Definition attach_asset_documents (s : ScanState) (matches : list (nat * list TakeoutMatch)) :
    ScanState := foldl attach_documents s matches.

(** [albums.push(..); albums.sort(); albums.dedup()] *)
Definition add_albums (added : list string) (m : NormalizedMetadata) : NormalizedMetadata := {|
  description := description m; taken_at_utc := taken_at_utc m; location := location m;
  albums := sort_dedup String.compare (albums m ++ added) |}.

(** One round of [attach_albums] *)
Definition attach_album (sidecars : list DiscoveredSidecar) (albums : list (string * (string * nat)))
    (media : DiscoveredMedia) : DiscoveredMedia :=
  match lookup_by String.compare (parent (dm_relative_path media)) albums with
  | None => media
  | Some (title, sidecar_index) =>
    let metadata := default default_metadata (dm_normalized_metadata media) in
    let media := set_normalized (Some (add_albums [title] metadata)) media in
    match sidecars !! sidecar_index with
    | Some sidecar => attach_sidecar media sidecar rule_id.GOOGLE_TAKEOUT_ALBUM
    | None => media
    end
  end.

Definition attach_albums (albums : list (string * (string * nat))) (s : ScanState) : ScanState :=
  set_media (map (attach_album (ss_sidecars s) albums)) s.

(** ** Files of one content *)

Definition conflict (path code : string) : PlanDiagnostic :=
  diagnostic rule_id.GOOGLE_TAKEOUT_METADATA_CONFLICT code [path].

(** The merged value, and whether the values conflict *)
Definition merge_value {T} `{EqDecision T} (target incoming : option T) (path code : string)
    (errors : list PlanDiagnostic) : option T * bool * list PlanDiagnostic :=
  match target, incoming with
  | None, value => (value, false, errors)
  | Some left_value, Some right_value =>
    if negb (bool_decide (left_value = right_value))
    then (target, true, errors ++ [conflict path code]) else (target, false, errors)
  | Some _, None => (target, false, errors)
  end.

Definition merge_normalized (left_value right_value : NormalizedMetadata) (path : string)
    (errors : list PlanDiagnostic) : NormalizedMetadata * bool * list PlanDiagnostic :=
  let '(d, c1, errors) := merge_value (description left_value) (description right_value) path
                            "conflicting_takeout_description" errors in
  let '(t, c2, errors) := merge_value (taken_at_utc left_value) (taken_at_utc right_value) path
                            "conflicting_takeout_timestamp" errors in
  let '(l, c3, errors) := merge_value (location left_value) (location right_value) path
                            "conflicting_takeout_location" errors in
  ({| description := d; taken_at_utc := t; location := l;
      albums := sort_dedup String.compare (albums left_value ++ albums right_value) |},
   c1 || c2 || c3, errors).

(** The canonical file so far, whether its metadata conflict, and the errors *)
Definition AliasMerge : Type := DiscoveredMedia * bool * list PlanDiagnostic.

Definition merge_alias (r : AliasMerge) (alias : DiscoveredMedia) : AliasMerge :=
  let '(canonical, metadata_conflicted, errors) := r in
  let with_normalized n := set_findings canonical (dm_metadata canonical ++ dm_metadata alias) n
                             (dm_live_photo canonical) (dm_evidence canonical ++ dm_evidence alias) in
  if metadata_conflicted : bool then (with_normalized None, true, errors) else
  match dm_normalized_metadata canonical, dm_normalized_metadata alias with
  | None, value => (with_normalized value, false, errors)
  | Some left_value, Some right_value =>
    let '(merged, conflicted, errors) :=
      merge_normalized left_value right_value (dm_relative_path canonical) errors in
    (with_normalized (if conflicted : bool then None else Some merged), conflicted, errors)
  | Some left_value, None => (with_normalized (Some left_value), false, errors)
  end.

Notation content_compare := (then_by Z.compare fst String.compare snd).

Definition content_key (media : DiscoveredMedia) : Z * string :=
  (dm_byte_len media, dm_content_sha256 media).

Definition rank_key (media : DiscoveredMedia) : Z * string :=
  (canonical_rank (dm_relative_path media), dm_relative_path media).

Definition content_groups (media : list DiscoveredMedia) : list (list DiscoveredMedia) :=
  map snd (group_by content_compare content_key id media).

Definition collapsed_evidence (media : DiscoveredMedia) : DiscoveredMedia :=
  set_findings media (dm_metadata media) (dm_normalized_metadata media) (dm_live_photo media)
    (dm_evidence media ++ [{| re_rule_id := rule_id.GOOGLE_TAKEOUT_CONTENT_ALIAS;
                              outcome := "content_identical_paths_collapsed" |}]).

(** One round of [collapse_content_aliases] *)
Definition collapse_group (s : ScanState) (aliases : list DiscoveredMedia) : ScanState :=
  match sort_by (λ a b, leb_of content_compare (rank_key a) (rank_key b)) aliases with
  | [] => s
  | [canonical] => set_media (λ l, l ++ [canonical]) s
  | canonical :: aliases =>
    let '(merged, _, errors) := foldl merge_alias (canonical, false, ss_errors s) aliases in
    set_media (λ l, l ++ [collapsed_evidence merged])
      (push_warning (diagnostic rule_id.GOOGLE_TAKEOUT_CONTENT_ALIAS
         "content_identical_takeout_aliases" (map dm_relative_path (canonical :: aliases)))
        (set_errors (λ _, errors) s))
  end.

Definition collapse_content_aliases (s : ScanState) : ScanState :=
  foldl collapse_group (set_media (λ _, []) s) (content_groups (ss_media s)).

(** ** The reconciler *)

Definition has_asset_document (media : DiscoveredMedia) : bool :=
  existsb (λ candidate, one_of [rule_id.GOOGLE_TAKEOUT_TITLE; rule_id.GOOGLE_TAKEOUT_SUPPLEMENTAL]
                          (mc_rule_id candidate)) (dm_metadata media).

(** [takeout_reconcile::reconcile] *)
Definition takeout_reconcile (s : ScanState) (w : W) : ScanState * W :=
  let s := prepare s in
  let '(r, w) := takeout_loop {| tr_state := s; tr_matches := []; tr_albums := [] |}
                   (enumerate (ss_sidecars s)) w in
  let s := attach_asset_documents (tr_state r) (tr_matches r) in
  let s := attach_albums (tr_albums r) s in
  let s := collapse_content_aliases s in
  (complete (warn_unmatched has_asset_document s), w).
End takeout.

(** ** ZIP parts *)

Definition TAKEOUT_PREFIX : string := "Takeout/Google Photos/".

Definition TAKEOUT_RULES : MergeRules := {|
  mr_duplicate_rule := rule_id.TAKEOUT_ARCHIVE_DUPLICATE;
  mr_duplicate_code := "identical_takeout_archive_entry";
  mr_conflict_rule := rule_id.TAKEOUT_ARCHIVE_CONFLICT;
  mr_conflict_code := "conflicting_takeout_archive_entry" |}.

Section takeout_scan.
  Context {W : Type} `{ScanFs W, ZipReader W, TakeoutFs W, Cancellation W, ScanObserver W}.
  Context `{UnicodeLib, Codec, TimeLib, !TakeoutLib}.

(** The record of a new path, from [merge_entry] *)
Definition takeout_record (archive_path relative_path : string) (archive_index : Z)
    (identity : EntryIdentity) (bytes : string) : ScanState → ScanState :=
  match ei_kind identity with
  | Entry_Media kind =>
    set_media (λ l, l ++ [archive_media archive_path relative_path archive_index kind identity])
  | Entry_Sidecar kind =>
    let '(document, parse_error) :=
      match kind with
      | Meta_Json =>
        if MAX_JSON_BYTES <? ei_byte_len identity then (None, Some ParseError.Oversized)
        else match parse_bytes bytes (is_album_document relative_path) with
             | Ok document => (Some document, None)
             | Err error => (None, Some error)
             end
      | _ => (None, None)
      end in
    set_sidecars (λ l, l ++ [archive_sidecar archive_path relative_path archive_index kind identity
                               document parse_error])
  end.

(** The body of the loop of [scan_archive] *)
Definition takeout_entry (config : TakeoutScanConfig) (path : string) (index : Z) (a : ArchiveScan) :
    io W ScanError.t ArchiveScan :=
  _ ← check_cancelled;
  entry ← ok_or_archive (zip_by_index index) "cannot open ZIP entry";
  relative_path ← lift (portable_entry_path entry (fsc_max_path_bytes (tsc_scan config)));
  let inside := starts_with TAKEOUT_PREFIX relative_path in
  let a := {| as_state := count_entry (as_state a); as_seen := as_seen a;
              as_layout_found := as_layout_found a
                || String.eqb relative_path "Takeout/Google Photos" || inside |} in
  if ze_is_dir entry || negb inside then mret a else
  _ ← lift (validate_entry entry (tsc_max_archive_entry_bytes config)
              (tsc_max_compression_ratio config) (tsc_compression_ratio_grace_bytes config));
  match entry_kind relative_path with
  | None => mret a
  | Some kind =>
    let collect_json := bool_decide (kind = Entry_Sidecar Meta_Json)
                        && (ze_size entry <=? MAX_JSON_BYTES) in
    '(byte_len, content) ← stream_entry entry (fsc_buffer_bytes (tsc_scan config));
    let bytes := if collect_json then content else "" in
    let identity := entry_identity kind byte_len content None in
    merge_and_report TAKEOUT_RULES relative_path identity
      (takeout_record path relative_path index identity bytes) a
  end.

Definition takeout_archive (config : TakeoutScanConfig) : string → ArchiveScan → io W ScanError.t ArchiveScan :=
  scan_one_archive (takeout_entry config) (fsc_max_entries (tsc_scan config)).

Definition run_takeout_reconcile (s : ScanState) : io W ScanError.t ScanState := λ w,
  let '(s, w) := takeout_reconcile s w in (Ok s, w).

(** The end of a scan of archives, from the progress of the reconciliation *)
Definition conclude_scan (schema_version : Z) (source_kind : SourceKind) (source_label : string)
    (config : FolderScanConfig) (s : ScanState) : io W ScanError.t ResolvedFolderPlan :=
  s ← progress Reconciliation s;
  let sequence := sat_add (ss_event_sequence s) 1 in
  resolved ← lift (finish_state schema_version source_kind source_label config s);
  _ ← observe_event {|
    pe_schema_version := PROGRESS_EVENT_SCHEMA_VERSION; pe_sequence := sequence;
    pe_stage := StageComplete;
    pe_assets_observed := ps_assets (np_summary (rfp_plan resolved));
    pe_bytes_read := ps_bytes_read (np_summary (rfp_plan resolved)) |};
  mret resolved.

(** The beginning of [scan_archives_resolved]: what is found in the parts *)
Definition read_takeout_parts (inputs : list string) (source_label : string)
    (config : TakeoutScanConfig) : io W ScanError.t ScanState :=
  _ ← lift (map_err config_error (takeout_validate config));
  _ ← lift (validate_source_label source_label);
  _ ← validate_inputs inputs (tsc_max_archives config);
  a ← scan_all (takeout_archive config) inputs new_archive_scan;
  _ ← lift (fail_if (negb (as_layout_found a))
              (ScanError.UnsupportedLayout "archives must contain Takeout/Google Photos"));
  mret (as_state a).

(** [takeout_archive::scan_archives_resolved] *)
Definition scan_takeout_archives_resolved (inputs : list string) (source_label : string)
    (config : TakeoutScanConfig) : io W ScanError.t ResolvedFolderPlan :=
  s ← read_takeout_parts inputs source_label config;
  s ← run_takeout_reconcile s;
  conclude_scan NORMALIZED_PLAN_SCHEMA_VERSION_V2 GoogleTakeout source_label (tsc_scan config) s.

(** ** Directories *)

Definition layout_error : ScanError.t :=
  ScanError.UnsupportedLayout "expected real Takeout/Google Photos directories".

Definition validate_directory (directory : string) : io W ScanError.t unit :=
  metadata ← symlink_metadata_or directory layout_error;
  lift (fail_if (negb (bool_decide (sm_type metadata = FileType.Dir))) layout_error).

Definition validate_layout (root : string) : io W ScanError.t unit :=
  let takeout := path_join root "Takeout" in
  let photos := path_join takeout "Google Photos" in
  for_each validate_directory [takeout; photos].

Definition GOOGLE_TAKEOUT_SCAN : ScanStrategy := {|
  st_source_kind := GoogleTakeout; st_schema_version := NORMALIZED_PLAN_SCHEMA_VERSION;
  st_reconcile_state := title_reconcile; st_skip_path := keep_all_paths |}.

Definition TAKEOUT_INPUTS_SCAN : ScanStrategy := {|
  st_source_kind := GoogleTakeout; st_schema_version := NORMALIZED_PLAN_SCHEMA_VERSION_V2;
  st_reconcile_state := takeout_reconcile; st_skip_path := keep_all_paths |}.

Definition resolved_plan (scan : io W ScanError.t ResolvedFolderPlan) : io W ScanError.t NormalizedPlan :=
  resolved ← scan; mret (rfp_plan resolved).

Definition scan_google_takeout (root source_label : string) (config : FolderScanConfig) :
    io W ScanError.t NormalizedPlan :=
  _ ← validate_layout root;
  resolved_plan (scan_resolved_internal root source_label config GOOGLE_TAKEOUT_SCAN).

(** [symlink_metadata(input).is_ok_and(|metadata| metadata.file_type().is_dir())] *)
Definition is_directory (input : string) : io W ScanError.t bool := λ w,
  let '(metadata, w) := sf_symlink_metadata input w in
  (Ok (is_some_and metadata (λ metadata, bool_decide (sm_type metadata = FileType.Dir))), w).

(** The only input, when it is a directory *)
Definition single_directory (inputs : list string) : io W ScanError.t (option string) :=
  match inputs with
  | [input] => directory ← is_directory input; mret (if directory : bool then Some input else None)
  | _ => mret None
  end.

Fixpoint any_directory (inputs : list string) : io W ScanError.t bool :=
  match inputs with
  | [] => mret false
  | input :: inputs =>
    directory ← is_directory input; if directory : bool then mret true else any_directory inputs
  end.

(** One directory or archives, never both *)
Definition scan_inputs {A} (inputs : list string) (scan_directory : string → io W ScanError.t A)
    (scan_archives : list string → io W ScanError.t A) : io W ScanError.t A :=
  single ← single_directory inputs;
  match single with
  | Some input => scan_directory input
  | None =>
    mixed ← any_directory inputs;
    _ ← lift (fail_if mixed
                (ScanError.UnsupportedLayout "directory and ZIP inputs cannot be mixed"));
    scan_archives inputs
  end.

Definition scan_google_takeout_inputs_resolved (inputs : list string) (source_label : string)
    (config : TakeoutScanConfig) : io W ScanError.t ResolvedFolderPlan :=
  _ ← lift (map_err config_error (takeout_validate config));
  scan_inputs inputs
    (λ input, _ ← validate_layout input;
              scan_resolved_internal input source_label (tsc_scan config) TAKEOUT_INPUTS_SCAN)
    (λ inputs, scan_takeout_archives_resolved inputs source_label config).

Definition scan_google_takeout_inputs (inputs : list string) (source_label : string)
    (config : TakeoutScanConfig) : io W ScanError.t NormalizedPlan :=
  resolved_plan (scan_google_takeout_inputs_resolved inputs source_label config).
End takeout_scan.
