(* ===== verification/TakeoutFacts.v ===== *)
(** * TakeoutFacts: what the Takeout reconciler keeps

    The invariant of merging files of one content, and the state after every
    step of [takeout_reconcile]. *)
From Stdlib Require Import Ascii.
From S2P Require Export Takeout ReconcileFacts.

(** ** Merging metadata *)

(** The value [v] is absent or the one of [o]. *)
Definition agrees {T} (o v : option T) : Prop := v = None ∨ v = o.

(** [n] says everything [m] says. *)
Record covers (n m : NormalizedMetadata) : Prop := {
  cv_description : agrees (description n) (description m);
  cv_taken_at : agrees (taken_at_utc n) (taken_at_utc m);
  cv_location : agrees (location n) (location m);
  cv_albums : albums m ⊆ albums n;
}.

Lemma agrees_trans {T} (a b c : option T) : agrees a b → agrees b c → agrees a c.
Proof. unfold agrees. intros [-> | ->] [-> | ->]; auto. Qed.

#[export] Instance covers_preorder : PreOrder covers.
Proof.
  split.
  - intros n. split; [by right..|done].
  - intros a b c [] []. split; [by eapply agrees_trans..|set_solver].
Qed.

Lemma merge_value_spec {T} `{EqDecision T} (a b : option T) path code errors v c errors' :
  merge_value a b path code errors = (v, c, errors') →
  (v = a ∨ v = b) ∧ errors ⊆ errors'
  ∧ if c : bool then conflict path code ∈ errors' else agrees v a ∧ agrees v b.
Proof.
  unfold merge_value, agrees. intros Hm.
  destruct a as [x|], b as [y|]; [case_bool_decide|..]; simpl in Hm; injection Hm as <- <- <-;
    subst; (split; [by auto|split; [set_solver|]]); first [set_solver|by auto].
Qed.

Definition conflicts (path : string) (errors : list PlanDiagnostic) : Prop :=
  ∃ code, conflict path code ∈ errors.

Section merging.
  Context `{TimeLib}.

Lemma add_albums_valid added m :
  is_valid m = true → Forall (λ a, valid_album a = true) added → is_valid (add_albums added m) = true.
Proof.
  intros (Hs & Ha & _)%is_valid_iff Hadded. apply is_valid_iff. split_and!.
  - exact Hs.
  - apply (Forall_sort_dedup String.compare). by apply Forall_app.
  - apply sort_dedup_str_lt.
Qed.

Lemma merge_normalized_spec l r path errors n c errors' :
  merge_normalized l r path errors = (n, c, errors') →
  errors ⊆ errors' ∧ (is_valid l = true → is_valid r = true → is_valid n = true)
  ∧ if c : bool then conflicts path errors' else covers n l ∧ covers n r.
Proof.
  unfold merge_normalized.
  destruct (merge_value (description l) _ _ _ _) as [[d c1] e1] eqn:Hd.
  destruct (merge_value (taken_at_utc l) _ _ _ _) as [[t c2] e2] eqn:Ht.
  destruct (merge_value (location l) _ _ _ _) as [[g c3] e3] eqn:Hg.
  apply merge_value_spec in Hd as (Hd & He1 & H1), Ht as (Ht & He2 & H2), Hg as (Hg & He3 & H3). intros [= <- <- <-].
  split_and!.
  - set_solver.
  - intros Hl Hr. apply is_valid_iff in Hr as (Hrs & Hra & _).
    pose proof (add_albums_valid (albums r) l Hl Hra) as (_ & Ha & Hs)%is_valid_iff.
    apply is_valid_iff in Hl as (Hls & _). apply is_valid_iff. split; [|done].
    unfold scalars_valid in *. cbn [description taken_at_utc location].
    apply andb_true_iff in Hls as [[Hl1 Hl2]%andb_true_iff Hl3].
    apply andb_true_iff in Hrs as [[Hr1 Hr2]%andb_true_iff Hr3].
    destruct Hd as [-> | ->], Ht as [-> | ->], Hg as [-> | ->];
      by rewrite ?Hl1, ?Hl2, ?Hl3, ?Hr1, ?Hr2, ?Hr3.
  - unfold conflicts. destruct c1, c2, c3; simpl;
      first [by (eexists; eassumption)|by (eexists; apply He3; eassumption)
            |by (eexists; apply He3, He2; eassumption)|idtac].
    destruct H1, H2, H3.
    split; split; try done; simpl; intros x Hx; apply (elem_of_sort_dedup String.compare); set_solver.
Qed.

(** ** Merging files *)

Record merging (first : DiscoveredMedia) (seen : list DiscoveredMedia) (e0 : list PlanDiagnostic)
    (r : AliasMerge) : Prop := {
  mg_file : same_file first r.1.1;
  mg_metadata : dm_metadata r.1.1 = flat_map dm_metadata seen;
  mg_evidence : dm_evidence r.1.1 = flat_map dm_evidence seen;
  mg_errors : e0 ⊆ r.2;
  mg_state :
    if r.1.2 : bool
    then dm_normalized_metadata r.1.1 = None ∧ conflicts (dm_relative_path first) r.2
    else ∀ m n, m ∈ seen → dm_normalized_metadata m = Some n →
         ∃ n', dm_normalized_metadata r.1.1 = Some n' ∧ covers n' n;
  mg_valid : Forall media_ok seen →
    ∀ n, dm_normalized_metadata r.1.1 = Some n → is_valid n = true;
}.

Lemma merging_first m e0 : merging m [m] e0 (m, false, e0).
Proof.
  split; simpl; rewrite ?app_nil_r; try done.
  - intros ? n ->%list_elem_of_singleton Hn. by exists n.
  - intros Hm n Hn. apply Forall_cons in Hm as [Hm _]. by apply (mo_normalized _ Hm).
Qed.

Lemma merging_step first seen e0 r a :
  merging first seen e0 r → merging first (seen ++ [a]) e0 (merge_alias r a).
Proof.
  destruct r as [[c conflicted] errors]. intros [Hf Hm He Hsub Hs Hv]. cbn [fst snd] in *.
  assert (dm_relative_path c = dm_relative_path first) as Hp
    by (by destruct (same_file_fields _ _ Hf) as (-> & _)).
  assert (∀ n, same_file first (set_findings c (dm_metadata c ++ dm_metadata a) n
    (dm_live_photo c) (dm_evidence c ++ dm_evidence a))) as Hfile by (intros n; etrans; [exact Hf|apply same_file_findings]).
  assert (Forall media_ok (seen ++ [a]) → Forall media_ok seen ∧ media_ok a) as Hsplit
    by (intros [? [? _]%Forall_cons]%Forall_app; done).
  unfold merge_alias. destruct conflicted; [destruct Hs as [_ Hc]|];
    [|destruct (dm_normalized_metadata c) as [l|] eqn:Hl;
      [destruct (dm_normalized_metadata a) as [r|] eqn:Hr;
        [destruct (merge_normalized _ _ _ _) as [[n k] e] eqn:Hn;
         apply merge_normalized_spec in Hn as (Hsub' & Hvn & Hk); rewrite Hp in Hk|]|]];
    (split; cbn [fst snd set_findings dm_metadata dm_evidence dm_normalized_metadata];
     rewrite ?flat_map_app, ?Hm, ?He; simpl; rewrite ?app_nil_r; try done; try (by apply Hfile)).
  - set_solver.
  - destruct k; [done|]. destruct Hk as [Hkl Hkr].
    intros m m' Hin Hm'. exists n. split; [done|].
    apply elem_of_app in Hin as [Hin| ->%list_elem_of_singleton].
    + destruct (Hs m m' Hin Hm') as (n0 & [= ->] & Hc). by transitivity n0.
    + rewrite Hr in Hm'. by injection Hm' as <-.
  - intros (Hok & Ha)%Hsplit n'. destruct k; [done|]. intros [= <-].
    apply Hvn; [by apply Hv|by apply (mo_normalized _ Ha)].
  - intros m m' [Hin| ->%list_elem_of_singleton]%elem_of_app Hm'; [by apply (Hs m m')|congruence].
  - intros (Hok & _)%Hsplit n [= <-]. by apply Hv.
  - intros m m' [Hin| ->%list_elem_of_singleton]%elem_of_app Hm'.
    + by destruct (Hs m m' Hin Hm') as (? & ? & _).
    + by exists m'.
  - intros (_ & Ha)%Hsplit n Hn. by apply (mo_normalized _ Ha).
Qed.

Lemma merging_all first seen e0 r l :
  merging first seen e0 r → merging first (seen ++ l) e0 (foldl merge_alias r l).
Proof.
  revert seen r. induction l as [|a l IH]; intros seen r Hr; simpl; [by rewrite app_nil_r|].
  rewrite cons_middle, app_assoc. apply IH. by apply merging_step.
Qed.
End merging.

(** ** One group of files of one content *)

#[export] Instance content_order : TotalOrder (then_by Z.compare (@fst Z string) String.compare snd).
Proof. apply then_by_order; [apply _..|]. intros [] []. simpl. congruence. Qed.

Notation content_compare := (then_by Z.compare fst String.compare snd).

(** [a] is preferred to [b]. *)
Definition rank_le (a b : DiscoveredMedia) : Prop :=
  leb_of content_compare (rank_key a) (rank_key b) = true.

(** The file that stands for the files [group] of one content. *)
Record collapsed `{TimeLib} (group : list DiscoveredMedia) (c : DiscoveredMedia) (s : ScanState) : Prop := {
  cl_file : ∃ m, m ∈ group ∧ same_file m c;
  cl_rank m : m ∈ group → rank_le c m;
  cl_metadata m : m ∈ group → dm_metadata m ⊆ dm_metadata c;
  cl_paths m : m ∈ group → dm_relative_path m = dm_relative_path c
    ∨ ∃ paths, dm_relative_path m ∈ paths
        ∧ diagnostic rule_id.GOOGLE_TAKEOUT_CONTENT_ALIAS "content_identical_takeout_aliases" paths
          ∈ ss_warnings s;
  cl_normalized m n : m ∈ group → dm_normalized_metadata m = Some n →
    (∃ n', dm_normalized_metadata c = Some n' ∧ covers n' n)
    ∨ conflicts (dm_relative_path c) (ss_errors s);
  cl_ok : Forall media_ok group → media_ok c;
}.

(** What a step adds: files, warnings and errors. *)
Record grows (s s' : ScanState) (added : list DiscoveredMedia) : Prop := {
  gr_media : ss_media s' = ss_media s ++ added;
  gr_sidecars : ss_sidecars s' = ss_sidecars s;
  gr_bytes : ss_bytes_read s' = ss_bytes_read s;
  gr_warnings : ss_warnings s ⊆ ss_warnings s';
  gr_errors : ss_errors s ⊆ ss_errors s';
}.

Section collapse.
  Context `{TimeLib}.

Lemma collapsed_grows group c s s' added : grows s s' added → collapsed group c s → collapsed group c s'.
Proof.
  intros [_ _ _ Hw He] [Hf Hr Hm Hp Hn Hk]. split; try done.
  - intros m Hin. destruct (Hp m Hin) as [?|(paths & ? & ?)]; [by left|right]. exists paths. auto.
  - intros m n Hin Hmn. destruct (Hn m n Hin Hmn) as [?|(code & ?)]; [by left|right]. exists code. auto.
Qed.

#[export] Instance collapsed_proper c s : Proper ((≡ₚ) ==> impl) (λ group, collapsed group c s).
Proof.
  intros l k Hlk [(m & Hin & Hf) Hr Hm Hp Hn Hk].
  assert (∀ m, m ∈ k → m ∈ l) as Hback by (intros ?; by rewrite Hlk).
  split; [|by eauto..|].
  - exists m. by rewrite <- Hlk.
  - by rewrite <- Hlk.
Qed.

Lemma grows_transitive s1 s2 s3 l k : grows s1 s2 l → grows s2 s3 k → grows s1 s3 (l ++ k).
Proof.
  intros [Hm ? ? ? ?] [Hm' ? ? ? ?]. split; try congruence; try set_solver.
  by rewrite Hm', Hm, app_assoc.
Qed.

Lemma rank_sorted l :
  StronglySorted rank_le (sort_by (λ a b, leb_of content_compare (rank_key a) (rank_key b)) l).
Proof.
  apply (sort_by_sorted (λ a b, leb_of content_compare (rank_key a) (rank_key b)));
    intros *; [apply leb_total|apply leb_trans]; apply _.
Qed.

Lemma collapse_group_spec s group :
  group ≠ [] → ∃ c, grows s (collapse_group s group) [c] ∧ collapsed group c (collapse_group s group).
Proof.
  intros Hne. unfold collapse_group. pose proof (rank_sorted group) as Hs.
  pose proof (sort_by_perm (λ a b, leb_of content_compare (rank_key a) (rank_key b)) group) as Hp.
  destruct (sort_by _ group) as [|first l] eqn:Hsort; [by apply Permutation_nil in Hp|].
  assert (∀ m, m ∈ group → rank_le first m) as Hrank.
  { intros m Hin. rewrite <- Hp in Hin. inversion Hs as [|? ? _ Hall]; subst.
    apply elem_of_cons in Hin as [->|Hin]; [unfold rank_le, leb_of; by rewrite cmp_refl|].
    rewrite Forall_forall in Hall. by apply Hall. }
  destruct l as [|second l].
  - exists first. split; [by split|]. apply (collapsed_proper _ _ _ _ Hp). split.
    + exists first. split; [left|done].
    + intros m Hin. apply Hrank. by rewrite <- Hp.
    + by intros m ->%list_elem_of_singleton.
    + intros m ->%list_elem_of_singleton. by left.
    + intros m n ->%list_elem_of_singleton Hn. left. by exists n.
    + by intros [? _]%Forall_cons.
  - pose proof (merging_all first [first] (ss_errors s) _ (second :: l) (merging_first first (ss_errors s))) as Hg.
    destruct (foldl merge_alias (first, false, ss_errors s) (second :: l)) as [[merged k] errors] eqn:Hfold.
    destruct Hg as [Hf Hm He Hsub Hst Hv]. cbn [fst snd app] in *.
    exists (collapsed_evidence merged).
    destruct (same_file_fields _ _ Hf) as (Hpath & _ & _ & Hsha & _).
    split; [split; cbn; [done..|set_solver|done]|].
    set (all := first :: second :: l) in *. apply (collapsed_proper _ _ _ _ Hp). split.
    + exists first. split; [left|]. etrans; [exact Hf|apply same_file_findings].
    + intros m Hin. unfold rank_le, rank_key. cbn [dm_relative_path collapsed_evidence set_findings].
      rewrite <- Hpath. apply Hrank. by rewrite <- Hp.
    + intros m Hin c Hc. cbn [dm_metadata collapsed_evidence set_findings]. rewrite Hm.
      apply list_elem_of_In, in_flat_map. exists m. by rewrite <- !list_elem_of_In.
    + intros m Hin. right. exists (map dm_relative_path all). split; [apply elem_of_map; by exists m|].
      cbn. apply elem_of_app. right. left.
    + intros m n Hin Hn. cbn. destruct k.
      * right. destruct Hst as [_ Hc]. by rewrite <- Hpath.
      * left. by apply (Hst m n).
    + intros Hok. pose proof Hok as [Hfirst _]%Forall_cons. destruct Hfirst. split; cbn.
      * by rewrite <- Hpath.
      * by rewrite <- Hpath.
      * by rewrite <- Hsha.
      * apply Forall_app. split; [|by repeat constructor]. rewrite He. apply Forall_flat_map.
        by eapply Forall_impl; [exact Hok|]; intros ? [].
      * rewrite Hm. apply Forall_flat_map. by eapply Forall_impl; [exact Hok|]; intros ? [].
      * by apply Hv.
Qed.
End collapse.

Section all_groups.
  Context `{TimeLib}.

Lemma collapse_groups groups s :
  Forall (λ g, g ≠ []) groups →
  ∃ cs, grows s (foldl collapse_group s groups) cs
    ∧ Forall2 (λ g c, collapsed g c (foldl collapse_group s groups)) groups cs.
Proof.
  revert s. induction groups as [|g groups IH]; intros s Hg; simpl.
  - exists []. split; [split; try done; by rewrite app_nil_r|constructor].
  - apply Forall_cons in Hg as [Hne Hg]. destruct (collapse_group_spec s g Hne) as (c & Hc & Hcg).
    destruct (IH (collapse_group s g) Hg) as (cs & Hcs & Hall). exists (c :: cs). split.
    + exact (grows_transitive _ _ _ [c] cs Hc Hcs).
    + constructor; [|done]. by eapply collapsed_grows.
Qed.

Notation groups media := (group_by content_compare content_key id media).

Lemma same_file_content a b : same_file a b → content_key a = content_key b.
Proof. intros Hab. unfold content_key. by destruct (same_file_fields a b Hab) as (_ & _ & -> & -> & _). Qed.

Lemma elem_of_content_group media k g :
  (k, g) ∈ groups media → g ≠ [] ∧ ∀ m, m ∈ g ↔ m ∈ media ∧ content_key m = k.
Proof.
  intros [-> Hne]%group_by_elem; [|apply _]. split; [done|]. intros m.
  rewrite map_id, elem_of_List_filter. split; intros [Hin Hk]; split; try done.
  - destruct (then_by _ _ _ _ _) eqn:Hc in Hk; [|done..]. by apply (cmp_eq (c := content_compare)).
  - rewrite Hk. by rewrite (cmp_refl (c := content_compare)).
Qed.

Lemma content_group media m :
  m ∈ media → ∃ g, (content_key m, g) ∈ groups media ∧ m ∈ g.
Proof.
  intros Hm. set (g := map id (List.filter (λ x, match content_compare (content_key x) (content_key m)
    with Eq => true | _ => false end) media)).
  assert (m ∈ g) as Hg.
  { unfold g. rewrite map_id. apply elem_of_List_filter. by rewrite (cmp_refl (c := content_compare)). }
  exists g. split; [|done]. apply group_by_elem; [apply _|]. split; [done|].
  intros Hnil. rewrite Hnil in Hg. by apply elem_of_nil in Hg.
Qed.

(** The collapsed state: one file for each group. *)
Lemma collapse_spec s :
  ∃ cs, grows (set_media (λ _, []) s) (collapse_content_aliases s) cs
    ∧ ss_media (collapse_content_aliases s) = cs
    ∧ Forall2 (λ kg c, collapsed kg.2 c (collapse_content_aliases s) ∧ content_key c = kg.1)
        (groups (ss_media s)) cs.
Proof.
  unfold collapse_content_aliases.
  destruct (collapse_groups (content_groups (ss_media s)) (set_media (λ _, []) s)) as (cs & Hg & Hcs).
  { unfold content_groups. apply Forall_map, Forall_forall. intros [k g] Hin.
    by apply elem_of_content_group in Hin as [? _]. }
  exists cs. split_and!; [done|by rewrite (gr_media _ _ _ Hg)|].
  unfold content_groups in Hcs. apply Forall2_fmap_l in Hcs.
  apply Forall2_same_length_lookup_2; [by eapply Forall2_length|]. intros i [k g] c Hi Hci.
  pose proof (Forall2_lookup_lr _ _ _ _ _ _ Hcs Hi Hci) as Hc. split; [done|].
  apply list_elem_of_lookup_2, elem_of_content_group in Hi as [_ Hk]. destruct (cl_file _ _ _ Hc) as (m & Hm & Hf).
  rewrite <- (same_file_content _ _ Hf). by apply Hk.
Qed.

(** Of the files of one content one is left, and it stands for all of them. *)
Lemma collapsed_file s m :
  m ∈ ss_media s →
  ∃ g c, c ∈ ss_media (collapse_content_aliases s) ∧ m ∈ g
    ∧ collapsed g c (collapse_content_aliases s) ∧ content_key c = content_key m.
Proof.
  intros Hm. destruct (content_group _ _ Hm) as (g & Hin & Hg).
  destruct (collapse_spec s) as (cs & _ & -> & Hall).
  apply list_elem_of_lookup in Hin as [i Hi].
  destruct (Forall2_lookup_l _ _ _ _ _ Hall Hi) as (c & Hc & Hcol & Hk).
  exists g, c. split; [by apply list_elem_of_lookup_2 in Hc|done].
Qed.

Lemma collapsed_origin s c :
  c ∈ ss_media (collapse_content_aliases s) →
  ∃ m, m ∈ ss_media s ∧ same_file m c.
Proof.
  destruct (collapse_spec s) as (cs & _ & -> & Hall). intros [i Hi]%list_elem_of_lookup.
  destruct (Forall2_lookup_r _ _ _ _ _ Hall Hi) as ([k g] & Hg & Hcol & _).
  destruct (cl_file _ _ _ Hcol) as (m & Hm & Hf). exists m. split; [|done].
  apply list_elem_of_lookup_2, elem_of_content_group in Hg as [_ Hk]. by apply Hk in Hm as [? _].
Qed.

Lemma collapsed_contents s : NoDup (map content_key (ss_media (collapse_content_aliases s))).
Proof.
  destruct (collapse_spec s) as (cs & _ & -> & Hall).
  assert (map content_key cs = map fst (groups (ss_media s))) as ->; [|apply group_by_keys; apply _].
  induction Hall as [|? ? ? ? [_ Hk] _ IH]; simpl; [done|]. by rewrite Hk, IH.
Qed.

Lemma collapse_ok s :
  Forall media_ok (ss_media s) → Forall media_ok (ss_media (collapse_content_aliases s)).
Proof.
  intros Hok. apply Forall_forall. destruct (collapse_spec s) as (cs & _ & -> & Hall).
  intros c [i Hi]%list_elem_of_lookup.
  destruct (Forall2_lookup_r _ _ _ _ _ Hall Hi) as ([k g] & Hg & Hcol & _).
  apply (cl_ok _ _ _ Hcol). apply Forall_forall. intros m Hm. rewrite Forall_forall in Hok.
  apply list_elem_of_lookup_2, elem_of_content_group in Hg as [_ Hk]. apply Hok. by apply Hk in Hm as [? _].
Qed.
End all_groups.
