(* ===== verification/TakeoutTheorems.v ===== *)
(** * TakeoutTheorems: the Google Takeout reconciler

    Documents that are accepted carry valid metadata; files of one content are
    collapsed without losing what was found about them; the reconciled state gives
    a valid plan unless an album is named after an unusable directory. *)
From Stdlib Require Import Ascii.
From S2P Require Export Decimal TakeoutFacts ReconcileTheorems.

(** ** Steps that only write findings *)

Lemma entry_by_elem {K V} (c : K → K → comparison) `{!TotalOrder c} (k : K) (d : V) f l x v :
  (x, v) ∈ entry_by c k d f l →
  (x, v) ∈ l ∨ ∃ v0, v = f v0 ∧ (v0 = d ∨ (x, v0) ∈ l).
Proof.
  induction l as [|[k0 v0] l IH]; simpl.
  - intros [= -> ->]%list_elem_of_singleton. right. exists d. auto.
  - destruct (c k0 k) eqn:Hk; rewrite !elem_of_cons.
    + intros [[= -> ->]|Hin]; [right; exists v0; split; [done|]; right; left|left; by right].
    + intros [[= -> ->]|Hin]; [left; by left|].
      destruct (IH Hin) as [?|(v1 & -> & [->|?])]; [left; by right|right; by eauto..|].
      right. exists v1. split; [done|]. right. by right.
    + intros [[= -> ->]|Hin]; [right; by eauto|by left].
Qed.

(** ** Documents *)

(** What the libraries document: a number that is read is a binary64 number; a
    time is written in UTC, as a text that reads back to a time of that text. *)
Class TakeoutLaws `{TakeoutLib} : Prop := {
  raw_numbers bytes d g x : raw_document bytes = Some d →
    rd_geo_data_exif d = Some g ∨ rd_geo_data d = Some g →
    rg_latitude g = Some x ∨ rg_longitude g = Some x → representable x;
  utc_text s t text : from_unix_timestamp s = Some t → format_rfc3339 t = Some text →
    ends_with "Z" text = true;
  text_reads_back t text : format_rfc3339 t = Some text →
    ∃ t', parse_rfc3339 text = Some t' ∧ format_rfc3339 t' = Some text;
}.

Section documents.
  Context `{TimeLib, !TakeoutLib, !TakeoutLaws}.

Lemma transpose_Ok {E A B} (f : A → result E B) o r :
  transpose f o = Ok r → match o with Some a => ∃ b, f a = Ok b ∧ r = Some b | None => r = None end.
Proof. unfold transpose. destruct o; [|by intros [= <-]]. intros. result_inv. eauto. Qed.

Lemma takeout_text_valid value : takeout_text value MAX_DESCRIPTION_BYTES true = Ok tt →
  valid_text value (16 * 1024) true = true.
Proof.
  unfold takeout_text, valid_text, MAX_DESCRIPTION_BYTES. intros Ht%fail_if_Ok.
  rewrite !orb_false_iff in Ht. destruct Ht as [[[-> Hl%Z.ltb_ge] ->] _].
  by rewrite (proj2 (Z.leb_le _ _) Hl).
Qed.

Lemma normalize_timestamp_valid value text :
  normalize_timestamp value = Ok text → canonical_utc text = true.
Proof.
  unfold normalize_timestamp. intros Hn. result_inv.
  match goal with Hf : format_rfc3339 ?t = Some text, Hu : from_unix_timestamp _ = Some ?t |- _ =>
    pose proof (utc_text _ _ _ Hu Hf) as Hz; destruct (text_reads_back _ _ Hf) as (t' & Hp & Hf') end.
  unfold canonical_utc. rewrite Hp. simpl. rewrite Hf'. simpl. by rewrite String.eqb_refl.
Qed.

Lemma canonical_decimal_valid x lo hi : representable x → F64.in_range lo hi x = true →
  -1000 <= lo <= 0 → 0 <= hi <= 1000 → decimal_in_range (canonical_decimal x) lo hi = true.
Proof.
  intros Hx Hin Hlo Hhi. apply decimal_accepted; [done|done|]. by exists x.
Qed.

Lemma normalize_location_valid g o :
  (∀ x, rg_latitude g = Some x ∨ rg_longitude g = Some x → representable x) →
  normalize_location g = Ok o → ∀ l, o = Some l → geo_is_valid l = true.
Proof.
  intros Hg. unfold normalize_location. destruct (rg_latitude g) as [x|] eqn:Hx; [|done].
  destruct (rg_longitude g) as [y|] eqn:Hy; [|done]. intros Hn l ->. result_inv.
  match goal with Hf : _ || _ = false |- _ => rewrite !orb_false_iff, !negb_false_iff in Hf;
    destruct Hf as [[_ Hlat] Hlon] end.
  case_match; [done|]. result_inv. unfold geo_is_valid. cbn [latitude longitude].
  rewrite !canonical_decimal_valid; try done; auto; lia.
Qed.

(** What is accepted of a document is what a plan accepts. *)
Lemma parse_bytes_valid bytes b d : parse_bytes bytes b = Ok d → is_valid (td_metadata d) = true.
Proof.
  unfold parse_bytes. intros Hp. result_inv.
  repeat match goal with Ht : transpose _ _ = Ok _ |- _ => apply transpose_Ok in Ht end.
  simpl. unfold is_valid. simpl. rewrite !andb_true_r. rewrite !andb_true_iff. split_and!.
  - destruct (_ ≫= _) as [value|]; [|by subst]. destruct_and?; repeat match goal with Hx : ∃ _, _ |- _ => destruct Hx as (? & ? & ?) end.
    result_inv. match goal with Ht : takeout_text _ MAX_DESCRIPTION_BYTES _ = Ok ?u |- _ => destruct u end. by apply takeout_text_valid.
  - destruct (option_or (rd_photo_taken_time _) _) as [value|]; [|by subst]. destruct_and?; repeat match goal with Hx : ∃ _, _ |- _ => destruct Hx as (? & ? & ?) end.
    subst. by eapply normalize_timestamp_valid.
  - destruct (option_or (rd_geo_data_exif _) _) as [g|] eqn:Hg; [|by subst].
    match goal with Hx : ∃ _, normalize_location g = _ ∧ _ |- _ => destruct Hx as (o & Hn & ->) end.
    destruct o as [l|]; [|done]. eapply normalize_location_valid; [|exact Hn|done].
    intros y. eapply raw_numbers; [eassumption|]. unfold option_or in Hg.
    case_match; [left|right]; congruence.
Qed.
End documents.

Section takeout.
  Context {W : Type} `{TakeoutFs W, UnicodeLib, Codec, TimeLib, !TakeoutLib, !TakeoutLaws}.

(** A document with metadata a plan accepts, its title empty or usable as an album *)
Definition document_ok (d : TakeoutDocument) : Prop :=
  is_valid (td_metadata d) = true ∧ (td_title d = "" ∨ valid_album (td_title d) = true).

Definition sidecar_ok (x : DiscoveredSidecar) : Prop :=
  ∀ d, ds_takeout_document x = Some d → document_ok d.

Definition sidecar_valid (x : DiscoveredSidecar) : Prop :=
  ∀ d, ds_takeout_document x = Some d → is_valid (td_metadata d) = true.

(** The steps keep the files; they keep them valid when the albums are [good]. *)
Variable good : Prop.

Record findings (s s' : ScanState) : Prop := {
  fd_files : same_files (ss_media s) (ss_media s');
  fd_sidecars : ss_sidecars s' = ss_sidecars s;
  fd_reports : extends_reports s s';
  fd_ok : good → Forall sidecar_valid (ss_sidecars s) → Forall media_ok (ss_media s) → Forall media_ok (ss_media s');
}.

Lemma findings_refl s : findings s s.
Proof. by split. Qed.

Lemma findings_trans s1 s2 s3 : findings s1 s2 → findings s2 s3 → findings s1 s3.
Proof.
  intros [? Hs ? ?] [? Hs' ? Hok]. split; [by eapply same_files_trans|congruence| |].
  - unfold extends_reports in *. naive_solver.
  - rewrite Hs in Hok. auto.
Qed.

Lemma findings_foldl {A} (f : ScanState → A → ScanState) l s :
  (∀ s a, a ∈ l → findings s (f s a)) → findings s (foldl f s l).
Proof.
  revert s. induction l as [|a l IH]; intros s Hf; simpl; [apply findings_refl|].
  eapply findings_trans; [apply Hf; left|]. apply IH. intros ? ? ?. apply Hf. by right.
Qed.

Lemma findings_error d s : findings s (push_error d s).
Proof.
  split; try done. split; [done|]. intros ? ?. cbn. set_solver.
Qed.

Lemma findings_warning d s : findings s (push_warning d s).
Proof.
  split; try done. split; [|done]. intros ? ?. cbn. set_solver.
Qed.

Lemma findings_attach i x rule s : rule ≠ "" → findings s (attach_at i x rule s).
Proof.
  intros Hr. split; [apply attach_at_same|done|done|]. intros _ _.
  apply Forall_alter. intros a. by apply attach_sidecar_ok.
Qed.

Lemma set_normalized_ok m n : (∀ v, n = Some v → is_valid v = true) → media_ok m → media_ok (set_normalized n m).
Proof. intros Hn []. by split. Qed.

Lemma findings_warn_unmatched has s : findings s (warn_unmatched has s).
Proof.
  unfold warn_unmatched. apply findings_foldl. intros s' m _.
  destruct (has m); [apply findings_refl|apply findings_warning].
Qed.

(** ** The rounds of the loops *)

Lemma findings_documents s m :
  Forall (λ item, tm_rule item ≠ "") m.2 → findings s (attach_documents s m).
Proof.
  destruct m as [i selected]. simpl. intros Hr. unfold attach_documents.
  destruct (negb _); [apply findings_error|].
  eapply findings_trans; [|apply findings_foldl].
  - destruct (omap _ _) as [|d l] eqn:Hd; [apply findings_refl|].
    split; [apply same_files_alter; intros; apply same_file_findings|done|done|].
    cbn. intros _ Hx. apply Forall_alter. intros a. apply set_normalized_ok. intros v [= <-].
    assert (d ∈ omap (λ item, ss_sidecars s !! tm_sidecar item ≫= ds_takeout_document) selected) as Hin
      by (rewrite Hd; left).
    apply list_elem_of_omap in Hin as (item & _ & (x & Hlx & Hdx)%bind_Some).
    rewrite Forall_forall in Hx. by apply (Hx x (list_elem_of_lookup_2 _ _ _ Hlx) d Hdx).
  - intros s' item Hin. unfold attach_match. destruct (ss_sidecars s' !! _); [|apply findings_refl].
    apply findings_attach. rewrite Forall_forall in Hr. by apply Hr.
Qed.

Lemma attach_album_same sidecars albums m : same_file m (attach_album sidecars albums m).
Proof.
  unfold attach_album. destruct (lookup_by _ _ _) as [[title i]|]; [|done].
  by destruct (sidecars !! i).
Qed.

Definition titles_ok (albums : list (string * (string * nat))) : Prop :=
  ∀ dir title i, (dir, (title, i)) ∈ albums → valid_album title = true.

Lemma lookup_by_in {K V} (c : K → K → comparison) k (l : list (K * V)) v :
  lookup_by c k l = Some v → ∃ k', (k', v) ∈ l.
Proof.
  induction l as [|[k0 v0] l IH]; simpl; [done|].
  destruct (c k0 k); [intros [= ->]; exists k0; left|..]; intros (k' & Hk)%IH; exists k'; by right.
Qed.

Lemma findings_albums albums s : (good → titles_ok albums) → findings s (attach_albums albums s).
Proof.
  intros Ht. split; try done.
  - apply Forall2_fmap_r, Forall_Forall2_diag, Forall_true. apply attach_album_same.
  - intros Hg _ Hm. apply Forall_map. eapply Forall_impl; [exact Hm|]. intros m Hok. unfold attach_album.
    destruct (lookup_by _ _ _) as [[title i]|] eqn:Hl; [|done].
    apply lookup_by_in in Hl as (dir & Hl). apply (Ht Hg) in Hl.
    assert (media_ok (set_normalized (Some (add_albums [title]
      (default default_metadata (dm_normalized_metadata m)))) m)) as Hset.
    { apply set_normalized_ok; [|done]. intros v [= <-]. apply add_albums_valid; [|by repeat constructor].
      destruct (dm_normalized_metadata m) as [n|] eqn:Hn; simpl; [by apply (mo_normalized _ Hok)|apply is_valid_default]. }
    destruct (ss_sidecars s !! i); [by apply attach_sidecar_ok|done].
Qed.

(** ** The first loop *)

Lemma takeout_text_album value : takeout_text value MAX_TITLE_BYTES false = Ok tt → valid_album value = true.
Proof.
  unfold takeout_text, valid_album, MAX_TITLE_BYTES. intros Ht%fail_if_Ok.
  rewrite !orb_false_iff in Ht. destruct Ht as [[[-> Hl%Z.ltb_ge] Hc] [_ ->]%orb_false_iff].
  assert (has_control value = false) as ->; [|by rewrite (proj2 (Z.leb_le _ _) Hl)].
  unfold has_control. rewrite existsb_false in *. eapply Forall_impl; [exact Hc|].
  intros c. simpl. by rewrite andb_true_r.
Qed.

Lemma parse_bytes_ok bytes b d : parse_bytes bytes b = Ok d → document_ok d.
Proof.
  intros Hp. split; [by eapply parse_bytes_valid|]. unfold parse_bytes in Hp. result_inv. simpl.
  match goal with Ht : (if _ then takeout_text ?title _ _ else _) = Ok _ |- _ =>
    destruct (is_empty title) eqn:Hempty; [left; by apply is_empty_true|right]; rewrite orb_true_r in Ht;
    by destruct (takeout_text title MAX_TITLE_BYTES false) as [[]|] eqn:Htext; [apply takeout_text_album|]
  end.
Qed.

Lemma parse_document_ok x b w d w' :
  sidecar_ok x → parse_document x b w = (Ok d, w') → document_ok d.
Proof.
  intros Hx. unfold parse_document. destruct (ds_takeout_parse_error x); [done|].
  destruct (ds_takeout_document x) as [d'|] eqn:Hd; [intros [= <- _]; by apply Hx|].
  do 2 (case_match; [done|]). destruct (read_limited _ _ w) as [read w1]. intros [= Hr _].
  result_inv. by eapply parse_bytes_ok.
Qed.

(** The directory an untitled album is named after is a usable name. *)
Definition directory_ok (x : DiscoveredSidecar) : Prop :=
  is_album_document (ds_relative_path x) = true →
  valid_album (filename (parent (ds_relative_path x))) = true.

Record taking (s0 : ScanState) (r : TakeoutRun) : Prop := {
  tk_media : ss_media (tr_state r) = ss_media s0;
  tk_paths : map ds_relative_path (ss_sidecars (tr_state r)) = map ds_relative_path (ss_sidecars s0);
  tk_reports : extends_reports s0 (tr_state r);
  tk_documents : Forall sidecar_valid (ss_sidecars (tr_state r));
  tk_rules : Forall (λ m, Forall (λ item, tm_rule item ≠ "") m.2) (tr_matches r);
  tk_albums : good → titles_ok (tr_albums r);
}.

Lemma taking_report s0 r d (push : PlanDiagnostic → ScanState → ScanState) :
  push = push_error ∨ push = push_warning → taking s0 r →
  taking s0 {| tr_state := push d (tr_state r); tr_matches := tr_matches r; tr_albums := tr_albums r |}.
Proof.
  intros Hp [Hm Hx [Hw He] Hd Hr Ha].
  destruct Hp as [-> | ->]; split; try done; split; intros ? ?; cbn; set_solver.
Qed.

Lemma set_document_paths d i l : map ds_relative_path (alter (set_document d) i l) = map ds_relative_path l.
Proof.
  revert i. induction l as [|x l IH]; intros [|i]; simpl; try done. f_equal. apply IH.
Qed.

Lemma set_document_valid d i l :
  is_valid (td_metadata d) = true → Forall sidecar_valid l →
  Forall sidecar_valid (alter (set_document d) i l).
Proof.
  intros Hd. revert i. induction l as [|x l IH]; intros i Hl; [by destruct i|].
  apply Forall_cons in Hl as [Hx Hl]. destruct i; simpl; constructor; [by intros ? [= <-]|done|done|by apply IH].
Qed.

Lemma taking_document s0 r d i :
  is_valid (td_metadata d) = true → taking s0 r →
  taking s0 {| tr_state := set_sidecars (alter (set_document d) i) (tr_state r);
               tr_matches := tr_matches r; tr_albums := tr_albums r |}.
Proof.
  intros Hv [Hm Hx Hr Hd Hm' Ha]. split; try done; cbn.
  - by rewrite set_document_paths.
  - by apply set_document_valid.
Qed.

Lemma titled_spec x d :
  td_metadata (titled x d) = td_metadata d
  ∧ (td_title (titled x d) = td_title d ∧ td_title d ≠ ""
     ∨ td_title (titled x d) = filename (parent (ds_relative_path x))).
Proof.
  unfold titled. destruct (is_empty (td_title d)) eqn:He; [by auto|].
  apply is_empty_false in He. auto.
Qed.

Lemma taking_sidecar s0 r i x w r' w' :
  sidecar_ok x → (good → directory_ok x) → taking s0 r → takeout_sidecar r i x w = (r', w') → taking s0 r'.
Proof.
  intros Hx Hdir Hr. unfold takeout_sidecar. destruct (ds_kind x).
  - destruct (parse_document x _ w) as [[d|e] w1] eqn:Hp.
    2: { intros [= <- _]. unfold record_parse_error. destruct e; exact (taking_report _ _ _ push_error (or_introl eq_refl) Hr). }
    apply parse_document_ok in Hp as [Hv Ht]; [|done]. destruct (titled_spec x d) as [Hmeta Htitle].
    destruct (takeout_candidates _ _ _) as [candidates rule] eqn:Hc.
    pose proof (taking_document s0 r (titled x d) i ltac:(by rewrite Hmeta) Hr) as Hdoc.
    assert (rule ≠ "") as Hrule by (unfold takeout_candidates in Hc; repeat case_match; by simplify_eq).
    intros [= <- _]. destruct candidates as [|m [|]].
    + destruct (is_album_document _) eqn:Halbum; [|exact (taking_report _ _ _ push_warning (or_intror eq_refl) Hdoc)].
      destruct Hdoc as [? ? ? ? ? Ha]. split; try done. intros Hg dir title j Hin.
      cbn [tr_albums] in *. apply (entry_by_elem String.compare) in Hin as [Hin|(v0 & [= -> _] & _)]; [by eapply (Ha Hg)|].
      destruct Htitle as [[-> Hne]| ->]; [by destruct Ht|by apply (Hdir Hg)].
    + destruct Hdoc as [? ? ? ? Hm ?]. split; try done. cbn [tr_matches] in *.
      apply Forall_forall. intros [k v] Hin. rewrite Forall_forall in Hm.
      apply (entry_by_elem Nat.compare) in Hin as [Hin|(v0 & -> & Hv0)]; [by apply (Hm (k, v))|].
      simpl. apply Forall_app. split; [|by repeat constructor].
      destruct Hv0 as [->|Hin]; [constructor|by apply (Hm (k, v0))].
    + exact (taking_report _ _ _ push_error (or_introl eq_refl) Hdoc).
  - intros [= <- _]. exact (taking_report _ _ _ push_warning (or_intror eq_refl) Hr).
Qed.

Lemma taking_loop s0 sidecars r w r' w' :
  Forall (λ x, sidecar_ok x.2 ∧ (good → directory_ok x.2)) sidecars →
  taking s0 r → takeout_loop r sidecars w = (r', w') → taking s0 r'.
Proof.
  revert r w. induction sidecars as [|[i x] sidecars IH]; intros r w Hl Hr; simpl; [by intros [= <- _]|].
  apply Forall_cons in Hl as [[Hx Hdir] Hl]. destruct (takeout_sidecar r i x w) as [r1 w1] eqn:Hstep.
  assert (taking s0 r1) as Hr1 by (by eapply taking_sidecar). by apply IH.
Qed.

(** ** The reconciled state *)

(** The state before files are collapsed *)
Definition attached_state (s : ScanState) (w : W) : ScanState * W :=
  let s := prepare s in
  let '(r, w) := takeout_loop {| tr_state := s; tr_matches := []; tr_albums := [] |}
                   (enumerate (ss_sidecars s)) w in
  (attach_albums (tr_albums r) (attach_asset_documents (tr_state r) (tr_matches r)), w).

Lemma takeout_reconcile_eq s w :
  (takeout_reconcile s w).1
  = complete (warn_unmatched has_asset_document (collapse_content_aliases (attached_state s w).1)).
Proof.
  unfold takeout_reconcile, attached_state. by destruct (takeout_loop _ _ w) as [r w'].
Qed.

Lemma NoDup_map_by {A B C} (f : A → B) (g : A → C) l :
  NoDup (map g l) → (∀ a b, a ∈ l → b ∈ l → f a = f b → g a = g b) → NoDup (map f l).
Proof.
  induction l as [|a l IH]; simpl; [constructor|]. intros [Hnew Hn]%NoDup_cons Hfg. constructor.
  - intros (b & Hab & Hb)%elem_of_map. destruct Hnew. apply elem_of_map. exists b.
    split; [apply Hfg; [left|by right|done]|done].
  - apply IH; [done|]. intros x y Hx Hy. apply Hfg; by right.
Qed.

Record attached_files (s s' : ScanState) : Prop := {
  af_files : same_files (ss_media (prepare s)) (ss_media s');
  af_sidecars : map ds_relative_path (ss_sidecars s') = map ds_relative_path (ss_sidecars (prepare s));
  af_reports : extends_reports (prepare s) s';
  af_ok : good → Forall media_ok (ss_media s) → Forall media_ok (ss_media s');
}.

Lemma attached_state_spec s w :
  Forall sidecar_ok (ss_sidecars s) → (good → Forall directory_ok (ss_sidecars s)) →
  attached_files s (attached_state s w).1.
Proof.
  intros Hx Hdir. unfold attached_state.
  destruct (takeout_loop _ _ w) as [r w'] eqn:Hloop. cbn [fst].
  assert (taking (prepare s) r) as [Hm Hp Hrep Hd Hr Ha].
  { eapply taking_loop; [|split|exact Hloop]; try done.
    - apply Forall_forall. intros [i x] Hin%elem_of_enumerate%list_elem_of_lookup_2.
      apply elem_of_prepare_sidecars in Hin as [Hin _]. rewrite Forall_forall in Hx. split; [auto|].
      intros Hg. specialize (Hdir Hg). rewrite Forall_forall in Hdir. auto.
    - cbn [tr_state]. apply Forall_forall. intros x Hin. apply elem_of_prepare_sidecars in Hin as [Hin _].
      rewrite Forall_forall in Hx. intros d Hdoc. by apply (Hx x Hin).
    - by intros _ ? ? ? ?%elem_of_nil. }
  assert (findings (tr_state r) (attach_albums (tr_albums r)
    (attach_asset_documents (tr_state r) (tr_matches r)))) as [Hf Hs Hrep' Hok].
  { eapply findings_trans; [|by apply findings_albums]. unfold attach_asset_documents.
    apply findings_foldl. intros s' m Hin. apply findings_documents. rewrite Forall_forall in Hr. by apply Hr. }
  split.
  - by rewrite <- Hm.
  - by rewrite Hs.
  - unfold extends_reports in *. naive_solver.
  - intros Hg Hmedia. apply Hok; [done|done|]. rewrite Hm. apply Forall_forall.
    intros m Hin. apply elem_of_prepare_media in Hin as [Hin _]. rewrite Forall_forall in Hmedia. auto.
Qed.

End takeout.

Section result.
  Context {W : Type} `{TakeoutFs W, UnicodeLib, Codec, TimeLib, !TakeoutLib, !TakeoutLaws}.

(** Before files are collapsed and after, paths are unique. *)
Lemma collapse_unique s1 : NoDup (all_paths s1) → NoDup (all_paths (collapse_content_aliases s1)).
Proof.
  unfold all_paths, media_paths, sidecar_paths. intros (Hn & Hdisjoint & Hn')%NoDup_app.
  destruct (collapse_spec s1) as (cs & [_ -> _ _ _] & Hcs & _). cbn [set_media ss_sidecars].
  pose proof (collapsed_contents s1) as Hkeys.
  assert (∀ c, c ∈ ss_media (collapse_content_aliases s1) →
    ∃ m, m ∈ ss_media s1 ∧ dm_relative_path m = dm_relative_path c ∧ content_key m = content_key c) as Horigin.
  { intros c (m & Hin & Hmc)%collapsed_origin. exists m. split; [done|].
    split; [by destruct (same_file_fields _ _ Hmc)|by apply same_file_content]. }
  apply NoDup_app. split_and!; [| |done].
  - apply (NoDup_map_by _ content_key); [done|]. intros a b Ha Hb Hab.
    destruct (Horigin a Ha) as (ma & Hma & Hpa & <-), (Horigin b Hb) as (mb & Hmb & Hpb & <-).
    f_equal. apply (NoDup_key_elem dm_relative_path (ss_media s1)); congruence.
  - intros p (c & -> & (m & Hin & <- & _)%Horigin)%elem_of_map. apply Hdisjoint, elem_of_map. by exists m.
Qed.

Lemma warn_unmatched_media has s : ss_media (warn_unmatched has s) = ss_media s.
Proof.
  unfold warn_unmatched. generalize (ss_media s) at 1. intros l. revert s.
  induction l as [|m l IH]; intros s; simpl; [done|]. rewrite IH. by destruct (has m).
Qed.

Lemma takeout_unique s w : Forall sidecar_ok (ss_sidecars s) → NoDup (all_paths (takeout_reconcile s w).1).
Proof.
  intros Hx. rewrite takeout_reconcile_eq.
  destruct (attached_state_spec False s w Hx ltac:(done)) as [Hf Hp _ _]. set (s1 := (attached_state s w).1) in *.
  pose proof (prepare_unique s) as Hn. unfold all_paths, media_paths, sidecar_paths in Hn.
  rewrite <- Hp, <- (same_files_paths _ _ Hf) in Hn. apply (collapse_unique s1) in Hn.
  set (s2 := collapse_content_aliases s1) in *. unfold all_paths, media_paths, sidecar_paths in *.
  destruct (findings_warn_unmatched False has_asset_document s2) as [_ Hs _ _].
  rewrite (same_files_paths _ _ (complete_same _)), warn_unmatched_media.
  destruct (complete_media (warn_unmatched has_asset_document s2)) as (_ & -> & _). by rewrite Hs.
Qed.

Lemma takeout_reconciled s w :
  Forall media_ok (ss_media s) → Forall sidecar_ok (ss_sidecars s) →
  Forall directory_ok (ss_sidecars s) → reconciled (takeout_reconcile s w).1.
Proof.
  intros Hm Hx Hdir. pose proof (takeout_unique s w Hx) as Hunique. rewrite takeout_reconcile_eq in *.
  destruct (attached_state_spec (Forall directory_ok (ss_sidecars s)) s w Hx ltac:(done)) as [_ _ _ Hok].
  set (s1 := (attached_state s w).1) in *.
  destruct (complete_sorted (warn_unmatched has_asset_document (collapse_content_aliases s1))).
  split; try done. apply complete_ok. rewrite warn_unmatched_media. apply collapse_ok. by apply Hok.
Qed.
End result.

(** ** Properties *)

Section properties.
  Context {W : Type} `{TakeoutFs W, UnicodeLib, Codec, TimeLib, !TakeoutLib, !TakeoutLaws}.

(** A Takeout document that is accepted says nothing a plan would refuse: the
    file that is read again has the length and the digest it was discovered with and
    is within the limit, its description, UTC time and coordinates are valid
    metadata, and its title is a usable album name, or empty where that is allowed. *)
Theorem takeout_document_sound x allow_empty w d w' :
  ds_takeout_document x = None → parse_document x allow_empty w = (Ok d, w') →
  is_valid (td_metadata d) = true
  ∧ (valid_album (td_title d) = true ∨ td_title d = "" ∧ allow_empty = true)
  ∧ ∃ content, parse_bytes content allow_empty = Ok d ∧ len content = ds_byte_len x
      ∧ 0 < len content <= MAX_JSON_BYTES ∧ sha256_hex content = ds_content_sha256 x.
Proof.
  intros Hnone. unfold parse_document. destruct (ds_takeout_parse_error x); [done|]. rewrite Hnone.
  destruct (Z.eqb_spec (ds_byte_len x) 0) as [|Hlen]; [done|]. case_match; [done|].
  destruct (read_limited _ _ w) as [read w1]. intros [= Hr _]. result_inv.
  match goal with Hp : parse_bytes ?c _ = Ok d |- _ => set (content := c) in *;
    pose proof (parse_bytes_ok _ _ _ Hp) as [Hv Ht]; rename Hp into Hparse end.
  bools. split; [done|]. split.
  - destruct Ht as [Ht|Ht]; [right|by left]. split; [done|]. destruct allow_empty; [done|].
    unfold parse_bytes in Hparse. result_inv. simpl in Ht. cbn [negb orb] in *. rewrite Ht in *. done.
  - exists content. split_and!; try done; [|by apply String.eqb_eq].
    pose proof (len_nonneg content). lia.
Qed.

(** Files of one content are collapsed into one, and nothing that was found
    about them is lost.  Every file is stood for by one of its content, which comes
    first by [canonical_rank] and path, carries all metadata candidates of the
    others, and names them in a warning; its normalized metadata says everything
    theirs say, unless they contradict each other: then it has none and an error
    names it.  No content is left twice, and no file is made up. *)
Theorem aliases_collapsed s :
  let s' := collapse_content_aliases s in
  NoDup (map content_key (ss_media s'))
  ∧ (∀ c, c ∈ ss_media s' → ∃ m, m ∈ ss_media s ∧ same_file m c)
  ∧ ∀ m, m ∈ ss_media s → ∃ c, c ∈ ss_media s' ∧ content_key c = content_key m
      ∧ rank_le c m ∧ dm_metadata m ⊆ dm_metadata c
      ∧ (dm_relative_path m = dm_relative_path c ∨ ∃ paths, dm_relative_path m ∈ paths
          ∧ diagnostic rule_id.GOOGLE_TAKEOUT_CONTENT_ALIAS "content_identical_takeout_aliases" paths
            ∈ ss_warnings s')
      ∧ ∀ n, dm_normalized_metadata m = Some n →
          (∃ n', dm_normalized_metadata c = Some n' ∧ covers n' n)
          ∨ ∃ code, conflict (dm_relative_path c) code ∈ ss_errors s'.
Proof.
  split; [apply collapsed_contents|]. split; [apply collapsed_origin|].
  intros m (g & c & Hc & Hg & [_ Hr Hm Hp Hn _] & Hk)%collapsed_file.
  exists c. split_and!; try done; [by apply Hr|by apply Hm|by apply Hp|].
  intros n Hmn. by apply (Hn m n).
Qed.
End properties.

(** ** Concrete documents *)

(** A library that knows two documents; its clock is [sample_time]. *)
Definition sample_geo : RawGeo := {|
  rg_latitude := Some (F64.F64 false 6398517318084303 (-47));
  rg_longitude := Some (F64.F64 false 5173510071941857 (-49)) |}.
Definition sample_raw (title : string) : RawDocument := {|
  rd_title := title; rd_description := Some "Lake"; rd_photo_taken_time := None;
  rd_creation_time := Some {| timestamp := "1589702950" |};
  rd_geo_data_exif := None; rd_geo_data := Some sample_geo |}.
#[local] Existing Instance sample_time.
Definition sample_takeout : TakeoutLib := {|
  raw_document content :=
    if String.eqb content "photo" then Some (sample_raw "a.jpg")
    else if String.eqb content "album" then Some (sample_raw "") else None;
  from_unix_timestamp s := Some s |}.
#[local] Existing Instance sample_takeout.

Lemma sample_takeout_laws : TakeoutLaws.
Proof.
  split.
  - intros bytes d g x Hd Hg Hx. unfold raw_document, sample_takeout in Hd.
    assert (∃ title, d = sample_raw title) as [title ->] by (repeat case_match; simplify_eq; by eexists).
    destruct Hg as [|[= <-]]; [done|]. destruct Hx as [[= <-]|[= <-]]; right; vm_compute; intuition congruence.
  - intros s t text _. unfold format_rfc3339, sample_time. by case_match; [intros [= <-]|].
  - intros t text. unfold format_rfc3339, sample_time. case_match; [|done]. intros [= <-].
    by exists 1589702950.
Qed.

Section witnesses.
  #[local] Existing Instances checksum_codec sample_unicode sample_takeout_laws.

Definition sample_reader : TakeoutFs string := {| read_limited _ limit w := (Some w, w) |}.
#[local] Existing Instance sample_reader.

Definition sample_json (path content : string) : DiscoveredSidecar := {|
  ds_native_path := "/photos/" +:+ path; ds_archive_index := None; ds_relative_path := path;
  ds_kind := Meta_Json; ds_byte_len := 5; ds_content_sha256 := sha256_hex content;
  ds_content_sha1_base64 := ""; ds_created_at_unix_ms := None; ds_modified_at_unix_ms := None;
  ds_takeout_document := None; ds_takeout_parse_error := None |}.

Definition sample_document : TakeoutDocument := {|
  td_title := "a.jpg"; td_metadata := {| description := Some "Lake";
    taken_at_utc := Some sample_utc;
    location := Some {| latitude := "45.4642"; longitude := "9.19" |}; albums := [] |} |}.

Lemma sample_parses :
  parse_document (sample_json "p/a.jpg.json" "photo") false "photo" = (Ok sample_document, "photo").
Proof. vm_compute. reflexivity. Qed.

Lemma takeout_document_sound_witness :
  parse_document (sample_json "p/a.jpg.json" "photo") false "photo" = (Ok sample_document, "photo")
  ∧ is_valid (td_metadata sample_document) = true.
Proof.
  split; [exact sample_parses|].
  exact (proj1 (takeout_document_sound (sample_json "p/a.jpg.json" "photo") false "photo" sample_document
    "photo" eq_refl sample_parses)).
Defined.
End witnesses.
