(* ===== verification/TakeoutScanTheorems.v ===== *)
(** * TakeoutScanTheorems: scans of a Google Takeout export

    Entries of several parts are merged without a choice; a scan fails with an
    invalid plan only for an album named after an unusable directory. *)
From Stdlib Require Import Ascii.
From stdpp Require Import gmap strings.
From S2P Require Export Takeout ScanArchiveFacts TakeoutTheorems DiscoveryTheorems.

(** ** Entries of the parts *)

Section archives.
  Context {W : Type} `{ScanFs W, ZipReader W, TakeoutFs W, Cancellation W, ScanObserver W}.
  Context `{UnicodeLib, Codec, TimeLib, !TakeoutLib, !TakeoutLaws, !CodecLaws}.

(** What is known of an entry that was read *)
Definition read_of (config : TakeoutScanConfig) (r : string * EntryIdentity) : Prop :=
  starts_with TAKEOUT_PREFIX r.1 = true ∧ entry_kind r.1 = Some (ei_kind r.2)
  ∧ ei_byte_len r.2 <= tsc_max_archive_entry_bytes config
  ∧ ∃ content, ei_content_sha256 r.2 = sha256_hex content ∧ ei_content_sha1_base64 r.2 = sha1_base64 content.

(** Files as they are before anything was found about them *)
Definition fresh_media (m : DiscoveredMedia) : Prop :=
  media_ok m ∧ dm_metadata m = [] ∧ dm_normalized_metadata m = None ∧ dm_live_photo m = None.

Record fresh (s : ScanState) : Prop := {
  fr_media : Forall fresh_media (ss_media s);
  fr_sidecars : Forall sidecar_ok (ss_sidecars s);
}.

Lemma fresh_same s s' : ss_media s' = ss_media s → ss_sidecars s' = ss_sidecars s → fresh s → fresh s'.
Proof. intros Hm Hs []. split; congruence. Qed.

Lemma fresh_counters e b n s : fresh s → fresh (set_counters e b n s).
Proof. by apply fresh_same. Qed.

Lemma merge_fresh rules p id record seen s :
  fresh s → fresh (record s) → fresh (merge_entry rules p id record seen s).2.
Proof.
  intros Hs Hr. unfold merge_entry. destruct (seen !! p) as [previous|]; [case_bool_decide|done].
  - by apply (fresh_same s).
  - destruct Hs. split; cbn; by apply Forall_List_filter.
Qed.

Lemma archive_media_fresh path p i kind identity :
  p ≠ "" → len p <= 65536 → len (ei_content_sha256 identity) = 64 →
  fresh_media (archive_media path p i kind identity).
Proof.
  intros Hp Hl Hsha. split; [|done]. split; try done.
  - unfold fits, u64_max. simpl. lia.
  - by repeat constructor.
Qed.

Lemma takeout_record_records path p i identity bytes :
  records (takeout_record path p i identity bytes) p identity.
Proof.
  unfold takeout_record. destruct (ei_kind identity) as [kind|kind] eqn:Hk.
  - left. eexists. split; [intros s; reflexivity|done].
  - destruct (match kind with Meta_Json => _ | _ => _ end) as [document error].
    right. eexists. split; [intros s; reflexivity|done].
Qed.

Lemma takeout_record_fresh path p i identity bytes s :
  p ≠ "" → len p <= 65536 → len (ei_content_sha256 identity) = 64 →
  fresh s → fresh (takeout_record path p i identity bytes s).
Proof.
  intros Hp Hl Hsha [Hm Hx]. unfold takeout_record. destruct (ei_kind identity) as [kind|kind].
  - split; [|done]. cbn. apply Forall_app. split; [done|]. constructor; [by apply archive_media_fresh|done].
  - destruct (match kind with Meta_Json => _ | _ => _ end) as [document error] eqn:Hdoc.
    split; [done|]. cbn. apply Forall_app. split; [done|]. constructor; [|done].
    intros d. cbn. intros ->. repeat case_match; simplify_eq. eapply parse_bytes_ok; eassumption.
Qed.

Definition takeout_inv (config : TakeoutScanConfig) (a : ArchiveScan) : Prop :=
  ∃ reads, merged TAKEOUT_RULES reads (as_seen a) (as_state a)
    ∧ Forall (read_of config) reads ∧ fresh (as_state a).

Lemma merge_and_report_Ok rules p identity record a w a' w' :
  merge_and_report rules p identity record a w = (Ok a', w') →
  ∃ s n, s = add_bytes (ei_byte_len identity) (as_state a)
    ∧ let r := merge_entry rules p identity record (as_seen a) s in
      as_seen a' = r.1 ∧ as_state a' = set_counters (ss_entries_seen r.2) (ss_bytes_read r.2) n r.2
      ∧ as_layout_found a' = as_layout_found a.
Proof.
  unfold merge_and_report. intros Hm.
  destruct (merge_entry _ _ _ _ _ _) as [seen s] eqn:He.
  unfold progress, observe_event, mbind, io_bind, mret, io_ret in Hm. injection Hm as <- _.
  eexists _, _. split; [done|]. by rewrite He.
Qed.

Lemma takeout_entry_keeps config path i a w a' w' :
  fsc_max_path_bytes (tsc_scan config) <= 65536 →
  takeout_inv config a → takeout_entry config path i a w = (Ok a', w') → takeout_inv config a'.
Proof.
  intros Hmax (reads & Hmerged & Hreads & Hfresh).
  intros (? & w1 & _ & (entry & w2 & _ & (p & w3 & Hp & Hr)%io_bind_Ok)%io_bind_Ok)%io_bind_Ok.
  apply lift_Ok in Hp as [Hp _]. apply portable_entry_path_Ok in Hp as [Hne Hlen].
  cbv zeta in Hr.
  set (a1 := {| as_state := count_entry (as_state a); as_seen := as_seen a; as_layout_found := _ |}) in Hr.
  assert (takeout_inv config a1) as Hinv.
  { exists reads. split_and!; [by apply merged_counters|done|by apply (fresh_same (as_state a))]. }
  destruct (ze_is_dir entry || negb (starts_with TAKEOUT_PREFIX p)) eqn:Hinside; [by injection Hr as <- _|].
  apply orb_false_iff in Hinside as [_ Hinside%negb_false_iff].
  apply io_bind_Ok in Hr as ([] & w4 & [Hv _]%lift_Ok & Hr). apply validate_entry_Ok in Hv.
  destruct (entry_kind p) as [kind|] eqn:Hkind; [|by injection Hr as <- _].
  apply io_bind_Ok in Hr as ([byte_len content] & w5 & Hs & Hr). apply stream_entry_Ok in Hs.
  set (bytes := if bool_decide (kind = Entry_Sidecar Meta_Json) && (ze_size entry <=? MAX_JSON_BYTES)
    then content else "") in Hr.
  apply merge_and_report_Ok in Hr as (s & n & -> & Hseen & Hstate & _).
  set (id := entry_identity kind byte_len content None) in *.
  set (s1 := add_bytes (ei_byte_len id) (as_state a1)) in *.
  clear Hinv.
  assert (fresh s1) as Hfresh1 by (by apply (fresh_same (as_state a))).
  assert (len (ei_content_sha256 id) = 64) as Hsha by apply sha256_hex_64.
  exists (reads ++ [(p, id)]). rewrite Hseen, Hstate. split_and!.
  - apply merged_counters, merge_entry_merged; [apply takeout_record_records|].
    unfold s1, add_bytes. apply merged_counters. by apply merged_counters.
  - apply Forall_app. split; [done|]. constructor; [|done]. split_and!; try done; [simpl; lia|]. by exists content.
  - apply fresh_counters, merge_fresh; [done|].
    apply takeout_record_fresh; [done|lia|done|done].
Qed.

Lemma takeout_archives_inv config inputs w a w' :
  fsc_max_path_bytes (tsc_scan config) <= 65536 →
  scan_all (takeout_archive config) inputs new_archive_scan w = (Ok a, w') → takeout_inv config a.
Proof.
  intros Hmax. apply scan_all_keeps; [intros; by eapply takeout_entry_keeps|].
  exists []. split_and!; [apply merged_new|constructor|by split].
Qed.

(** ** Whole scans *)


Lemma fresh_ok s : fresh s → Forall media_ok (ss_media s) ∧ Forall sidecar_ok (ss_sidecars s).
Proof. intros [Hm Hx]. split; [|done]. eapply Forall_impl; [exact Hm|]. by intros m [? _]. Qed.

(** An album document whose directory is no usable name *)
Definition unusable_album (path : string) : Prop :=
  is_album_document path = true ∧ valid_album (filename (parent path)) = false.

(** What a scan of an export ends with, after it found its files *)
Definition takeout_result (found : result ScanError.t ScanState * W)
    (r : result ScanError.t ResolvedFolderPlan) : Prop :=
  match r with
  | Ok resolved =>
    plan_well_formed (rfp_plan resolved)
    ∧ ∀ a, a ∈ np_assets (rfp_plan resolved) →
        ∃ f, source_for resolved (ca_relative_path a) (ca_byte_len a) (ca_content_sha256 a) = Ok f
  | Err (ScanError.InvalidPlan _) =>
    ∃ s w, found = (Ok s, w)
      ∧ (id_collision (ss_media (takeout_reconcile s w).1)
         ∨ ∃ x, x ∈ ss_sidecars s ∧ unusable_album (ds_relative_path x))
  | Err _ => True
  end.

Lemma takeout_result_error found e : not_plan e → takeout_result found (Err e).
Proof. intros He. destruct e; try done. exfalso. by apply (He error). Qed.

Lemma directories_usable l :
  Forall directory_ok l ∨ ∃ x, x ∈ l ∧ unusable_album (ds_relative_path x).
Proof.
  induction l as [|x l [IH|(y & Hy & IH)]]; [by left| |right; exists y; split; [by right|done]].
  destruct (is_album_document (ds_relative_path x)) eqn:Ha;
    [|left; constructor; [intros ?; congruence|done]].
  destruct (valid_album (filename (parent (ds_relative_path x)))) eqn:Hv;
    [left; constructor; [by intros _|done]|right; exists x; split; [by left|done]].
Qed.

(** A fresh state ends so. *)
Lemma takeout_finish s w label config :
  fresh s → label ≠ "" →
  takeout_result (Ok s, w) (finish_state NORMALIZED_PLAN_SCHEMA_VERSION_V2 GoogleTakeout label config
                              (takeout_reconcile s w).1).
Proof.
  intros [Hm Hx]%fresh_ok Hl. destruct (finish_state _ _ _ _ _) as [resolved|e] eqn:Hf.
  - split; [by eapply finished_valid|]. intros a Ha. eapply finished_source; [|exact Hf|exact Ha].
    by apply takeout_unique.
  - destruct (directories_usable (ss_sidecars s)) as [Hdir|Hbad].
    + pose proof (finish_state_reconciled NORMALIZED_PLAN_SCHEMA_VERSION_V2 GoogleTakeout label config
        (takeout_reconcile s w).1 (takeout_reconciled s w Hm Hx Hdir) schema_2 Hl ltac:(done)) as Hok.
      rewrite Hf in Hok. destruct Hok as [|Hc]; [done|]. destruct e; try done. exists s, w. by split; [|left].
    + destruct e; try done. exists s, w. by split; [|right].
Qed.

Lemma conclude_scan_Ok v k label config s w r w' :
  conclude_scan v k label config s w = (r, w') → r = finish_state v k label config s.
Proof.
  unfold conclude_scan, progress, observe_event, mbind, io_bind, mret, io_ret, lift. cbv beta iota zeta.
  change (finish_state v k label config
    (set_counters (ss_entries_seen s) (ss_bytes_read s) (sat_add (ss_event_sequence s) 1) s))
    with (finish_state v k label config s).
  destruct (finish_state v k label config s); by intros [= <- _].
Qed.

Lemma takeout_entry_errors config path i a : errors_in not_plan (takeout_entry config path i a).
Proof.
  apply errors_in_bind; [by apply errors_in_cancelled|intros _].
  apply errors_in_bind; [apply errors_in_archive|intros entry].
  apply errors_in_bind; [apply errors_in_lift, portable_entry_path_Err|intros p]. cbv zeta.
  destruct (ze_is_dir entry || negb (starts_with TAKEOUT_PREFIX p)); [apply errors_in_ret|].
  apply errors_in_bind; [apply errors_in_lift, validate_entry_Err|intros _].
  destruct (entry_kind p); [|apply errors_in_ret].
  apply errors_in_bind; [apply stream_entry_errors|intros [n content]].
  unfold merge_and_report. destruct (merge_entry _ _ _ _ _ _).
  apply errors_in_bind; [apply errors_in_progress|intros ?; apply errors_in_ret].
Qed.

Lemma validate_source_label_Ok label : validate_source_label label = Ok tt → label ≠ "".
Proof.
  unfold validate_source_label. intros Hl%fail_if_Ok. apply orb_false_iff in Hl as [Hl _].
  by apply orb_false_iff in Hl as [Hl%is_empty_false _].
Qed.

Lemma validate_source_label_Err label e : validate_source_label label = Err e → not_plan e.
Proof. unfold validate_source_label. by intros [_ <-]%fail_if_Err. Qed.

Lemma config_error_not_plan {A} (r : result ConfigError A) e : map_err config_error r = Err e → not_plan e.
Proof. intros He. apply map_err_Err in He as ([m] & _ & <-). done. Qed.

Lemma takeout_config_paths config :
  takeout_validate config = Ok tt → fsc_max_path_bytes (tsc_scan config) <= 65536.
Proof.
  unfold takeout_validate. intros Hv. apply bind_Ok in Hv as (u & Hv & _).
  assert (map_err config_error (folder_validate (tsc_scan config)) = Ok u) as Hf by (by rewrite Hv).
  apply config_paths in Hf. lia.
Qed.

(** What reading the parts leaves *)
Lemma read_takeout_parts_cases inputs label config w r w' :
  read_takeout_parts inputs label config w = (r, w') →
  match r with Ok s => fresh s ∧ label ≠ "" | Err e => not_plan e end.
Proof.
  unfold read_takeout_parts. unfold mbind at 1, io_bind.
  destruct (lift _ w) as [[[]|e] w1] eqn:Hv; [apply lift_Ok in Hv as [Hv%map_err_Ok _]|apply lift_Err in Hv as [Hv _]].
  2:{ intros [= <- _]. by eapply config_error_not_plan. }
  apply takeout_config_paths in Hv. unfold mbind at 1.
  destruct (lift _ w1) as [[[]|e] w2] eqn:Hl; [apply lift_Ok in Hl as [Hl _]|apply lift_Err in Hl as [Hl _]].
  2:{ intros [= <- _]. by eapply validate_source_label_Err. }
  apply validate_source_label_Ok in Hl. unfold mbind at 1.
  destruct (validate_inputs _ _ w2) as [[u|e] w3] eqn:Hi.
  2:{ intros [= <- _]. by eapply validate_inputs_errors. }
  unfold mbind at 1. destruct (scan_all _ inputs new_archive_scan w3) as [[a|e] w4] eqn:Ha.
  2:{ intros [= <- _]. eapply scan_all_errors; [|exact Ha]. apply takeout_entry_errors. }
  apply takeout_archives_inv in Ha as (reads & _ & _ & Hf); [|done]. unfold mbind at 1.
  destruct (lift _ w4) as [[u2|e] w5] eqn:Hlayout; intros [= <- _]; [done|].
  apply lift_Err in Hlayout as [Hlayout _]. by apply fail_if_Err in Hlayout as [_ <-].
Qed.

Lemma scan_takeout_archives_result inputs label config w r w' :
  scan_takeout_archives_resolved inputs label config w = (r, w') →
  takeout_result (read_takeout_parts inputs label config w) r.
Proof.
  unfold scan_takeout_archives_resolved. unfold mbind at 1, io_bind.
  destruct (read_takeout_parts inputs label config w) as [[s|e] w1] eqn:Hread;
    pose proof (read_takeout_parts_cases _ _ _ _ _ _ Hread) as Hcases.
  2:{ intros [= <- _]. by apply takeout_result_error. }
  destruct Hcases as [Hf Hl]. unfold mbind, run_takeout_reconcile.
  pose proof (takeout_finish s w1 label (tsc_scan config) Hf Hl) as Hfin.
  destruct (takeout_reconcile s w1) as [s1 w6]. cbn [fst] in Hfin.
  by intros ->%conclude_scan_Ok.
Qed.

Lemma is_directory_errors input : errors_in not_plan (is_directory input).
Proof. intros w e w'. unfold is_directory. by destruct (sf_symlink_metadata input w). Qed.

(** A scan of inputs is related to a scan of the same inputs when its parts are. *)
Lemma scan_inputs_related {A B} (R : result ScanError.t A * W → result ScanError.t B → Prop) inputs
    (finding_d : string → io W ScanError.t A) finding_a (directory : string → io W ScanError.t B) archives
    w r w' :
  (∀ e w, not_plan e → R (Err e, w) (Err e)) →
  (∀ input w r w', directory input w = (r, w') → R (finding_d input w) r) →
  (∀ w r w', archives inputs w = (r, w') → R (finding_a inputs w) r) →
  scan_inputs inputs directory archives w = (r, w') → R (scan_inputs inputs finding_d finding_a w) r.
Proof.
  intros He Hd Ha. unfold scan_inputs. unfold mbind, io_bind.
  assert (errors_in not_plan (single_directory inputs)) as Hsingle.
  { unfold single_directory. destruct inputs as [|i [|]]; try apply errors_in_ret.
    apply errors_in_bind; [apply is_directory_errors|intros ?; apply errors_in_ret]. }
  destruct (single_directory inputs w) as [[single|e] w1] eqn:Hs; [|intros [= <- _]; by eapply He, Hsingle].
  destruct single as [input|]; [apply Hd|].
  assert (∀ l, errors_in not_plan (any_directory l)) as Hany.
  { induction l as [|i l IH]; simpl; [apply errors_in_ret|].
    apply errors_in_bind; [apply is_directory_errors|]. intros []; [apply errors_in_ret|apply IH]. }
  destruct (any_directory inputs w1) as [[mixed|e] w2] eqn:Hm;
    [|intros [= <- _]; by eapply He, Hany].
  destruct mixed; simpl; [intros [= <- _]; by apply He|apply Ha].
Qed.

Lemma validate_layout_errors root : errors_in not_plan (validate_layout root).
Proof.
  assert (∀ d, errors_in not_plan (validate_directory d)) as Hd.
  { intros d. apply errors_in_bind; [|intros m; by apply errors_in_fail_if].
    intros w e w'. unfold symlink_metadata_or. destruct (sf_symlink_metadata d w) as [[]]; [done|].
    by intros [= <- _]. }
  apply errors_in_bind; [apply Hd|intros _]. apply errors_in_bind; [apply Hd|intros _]. apply errors_in_ret.
Qed.

Lemma discovered_fresh root config w0 w s :
  64 <= fsc_max_path_bytes config <= 65536 → discovered root config w0 w 0 s → fresh s.
Proof.
  intros Hc [Hm Hx _ _]. split.
  - eapply Forall_impl; [exact Hm|]. intros m Hf. split; [by eapply media_found_ok|].
    destruct Hf as [_ _ (? & ? & ?) _ _]. done.
  - eapply Forall_impl; [exact Hx|]. intros x [_ _ [Hn _]] d. by rewrite Hn.
Qed.

(** What a scan finds in its directory, or in its parts *)
Definition find_takeout_directory (label : string) (config : TakeoutScanConfig) (input : string) :
    io W ScanError.t ScanState :=
  _ ← validate_layout input; find_files input label (tsc_scan config) keep_all_paths.

Definition find_takeout (inputs : list string) (label : string) (config : TakeoutScanConfig) :
    io W ScanError.t ScanState :=
  _ ← lift (map_err config_error (takeout_validate config));
  scan_inputs inputs (find_takeout_directory label config)
    (λ inputs, read_takeout_parts inputs label config).

Lemma scan_takeout_directory_result input label config w r w' :
  0 <= fsc_max_entries (tsc_scan config) < u64_max →
  (_ ← validate_layout input;
   scan_resolved_internal input label (tsc_scan config) TAKEOUT_INPUTS_SCAN) w = (r, w') →
  takeout_result (find_takeout_directory label config input w) r.
Proof.
  intros Hl. unfold find_takeout_directory, mbind, io_bind.
  destruct (validate_layout input w) as [[u|e] w1] eqn:Hv;
    [|intros [= <- _]; eapply takeout_result_error, validate_layout_errors, Hv].
  intros Hs%scan_resolved_internal_result.
  cbn [TAKEOUT_INPUTS_SCAN st_reconcile_state st_schema_version st_source_kind st_skip_path] in Hs.
  destruct (find_files _ _ _ _ w1) as [[s|e] w2] eqn:Hfind;
    pose proof (find_files_cases _ _ _ _ _ _ _ Hl Hfind) as Hd; subst r;
    [|by apply takeout_result_error].
  destruct Hd as (Hd & Hpaths & Hlabel). apply takeout_finish; [by eapply discovered_fresh|done].
Qed.

(** C34: a scan of a Takeout export, one directory or ZIP parts, never fails
    because the plan it made is invalid, whatever the documents contain, with two
    exceptions: two of the files it found break SHA-256, or one of the album documents
    it found lies in a directory whose name is no usable album.  A plan that
    is returned is well formed and the planners find the file of every asset with
    its planned length and digest. *)
Theorem takeout_scan_valid inputs label config w r w' :
  0 <= fsc_max_entries (tsc_scan config) < u64_max →
  scan_google_takeout_inputs_resolved inputs label config w = (r, w') →
  takeout_result (find_takeout inputs label config w) r.
Proof.
  intros Hl. unfold scan_google_takeout_inputs_resolved, find_takeout.
  unfold mbind at 1, io_bind. unfold mbind at 2.
  destruct (lift _ w) as [[[]|e] w1] eqn:Hv.
  - apply scan_inputs_related.
    + intros e w2. apply takeout_result_error.
    + intros input w2 r2 w3. by apply scan_takeout_directory_result.
    + intros w2 r2 w3. by apply scan_takeout_archives_result.
  - intros [= <- _]. apply lift_Err in Hv as [Hv _]. apply takeout_result_error.
    by eapply config_error_not_plan.
Qed.

(** Entries of several ZIP parts are merged without a choice.  A path is known
    as one file exactly when all entries read for it have the same kind, length and
    digests, and then the state holds that file, once; a path with two identities is
    dropped and reported; every entry lies below [Takeout/Google Photos/], is no
    longer than the limit, and has the digests of the bytes that were decoded. *)
Theorem takeout_archives_merged config inputs w a w' :
  takeout_validate config = Ok tt →
  scan_all (takeout_archive config) inputs new_archive_scan w = (Ok a, w') →
  ∃ reads, merged TAKEOUT_RULES reads (as_seen a) (as_state a) ∧ Forall (read_of config) reads.
Proof.
  intros Hv Hs. apply takeout_archives_inv in Hs as (reads & Hm & Hr & _); [by exists reads|].
  by apply takeout_config_paths.
Qed.
End archives.

(** ** A small export *)

(** The world: the open file and what is left to read of it. *)
Record ExportWorld := { ew_open : string; ew_left : string }.

Section export.
  (** The directory of the photos *)
  Variable album : string.

Notation photos := ("/t/Takeout/Google Photos/" +:+ album).

Definition export_content (path : string) : option string :=
  if String.eqb path (photos +:+ "/a.jpg") then Some "x"
  else if String.eqb path (photos +:+ "/a.jpg.json") then Some "photo"
  else if String.eqb path (photos +:+ "/metadata.json") then Some "album"
  else if String.eqb path "/z.zip" then Some "zip" else None.

Definition export_directory (path : string) : option (list (option string)) :=
  if String.eqb path "/t" then Some [Some "Takeout"]
  else if String.eqb path "/t/Takeout" then Some [Some "Google Photos"]
  else if String.eqb path "/t/Takeout/Google Photos" then Some [Some album]
  else if String.eqb path photos then Some [Some "metadata.json"; Some "a.jpg"; Some "a.jpg.json"]
  else None.

Definition export_meta (t : FileType.t) (n : Z) : ScanMeta := {|
  sm_type := t; sm_mode := 420; sm_len := n; sm_modified := Some 1; sm_created := None;
  sm_dev := 1; sm_ino := 2 |}.

Definition export_stat (path : string) : option ScanMeta :=
  match export_content path, export_directory path with
  | Some content, _ => Some (export_meta FileType.File (len content))
  | None, Some _ => Some (export_meta FileType.Dir 0)
  | None, None => None
  end.

Definition export_fs : ScanFs ExportWorld := {|
  sf_symlink_metadata path w := (export_stat path, w);
  sf_metadata path w := (export_stat path, w);
  sf_read_dir path w := (export_directory path, w);
  sf_open path w :=
    match export_content path with
    | Some content => (true, {| ew_open := path; ew_left := content |})
    | None => (false, w)
    end;
  sf_file_metadata w := (export_stat (ew_open w), w);
  sf_read _ w := (Some (ew_left w), {| ew_open := ew_open w; ew_left := "" |}) |}.

Definition export_reader : TakeoutFs ExportWorld := {|
  read_limited path _ w := (export_content path, w) |}.
End export.

Definition zip_entry (name : string) : ZipEntry := {|
  ze_name := "Takeout/Google Photos/" +:+ name; ze_enclosed_name := Some ("Takeout/Google Photos/" +:+ name);
  ze_is_dir := false; ze_is_file := true; ze_is_symlink := false; ze_encrypted := false;
  ze_compression := CompressionMethod.Stored; ze_size := 1; ze_compressed_size := 1;
  ze_last_modified := None |}.

(** A part with two files of one name and one of another *)
Definition export_zip : ZipReader ExportWorld := {|
  zip_new w := (Some 3, w);
  zip_by_index i w :=
    if i =? 0 then (Some (zip_entry "a.jpg"), {| ew_open := ew_open w; ew_left := "x" |})
    else if i =? 1 then (Some (zip_entry "b.jpg"), {| ew_open := ew_open w; ew_left := "y" |})
    else (Some (zip_entry "a.jpg"), {| ew_open := ew_open w; ew_left := "z" |});
  zip_read _ w := (Some (ew_left w), {| ew_open := ew_open w; ew_left := "" |});
  zip_left w := len (ew_left w) |}.

Definition export_cancellation : Cancellation ExportWorld := {| is_cancelled w := (false, w) |}.
Definition export_observer : ScanObserver ExportWorld := {| observe_progress _ w := w |}.

Lemma export_zip_laws : ZipLaws ExportWorld (H := export_zip) (H0 := export_cancellation).
Proof.
  split.
  - intros n w chunk w' [= <- <-]. unfold zip_left, export_zip, len. simpl. lia.
  - by intros w b w' [= <- <-].
  - intros w. apply len_nonneg.
Qed.

Section witnesses.
  #[local] Existing Instances checksum_codec sample_time sample_unicode sample_takeout sample_takeout_laws
    export_zip export_cancellation export_observer.

Notation new_world := {| ew_open := ""; ew_left := "" |}.
Notation scan album inputs := (scan_google_takeout_inputs_resolved (W := ExportWorld)
  (H := export_fs album) (H1 := export_reader album) inputs "export" default_takeout_scan new_world).

Definition found_albums (r : result ScanError.t ResolvedFolderPlan) : option (list (list string)) :=
  match r with
  | Ok resolved => Some (map (λ a, match ca_normalized_metadata a with
                                   | Some n => albums n | None => [] end) (np_assets (rfp_plan resolved)))
  | Err _ => None
  end.

(** The untitled album is named after its directory. *)
Example export_album : found_albums (scan "Lake" ["/t"]).1 = Some [["Lake"]].
Proof. vm_compute. reflexivity. Qed.

(** A directory name that is no album ends the scan. *)
Example export_unusable_album :
  match (scan "A\B" ["/t"]).1 with Err (ScanError.InvalidPlan _) => true | _ => false end = true.
Proof. vm_compute. reflexivity. Qed.

Lemma export_scan_returns : ∃ r w, scan "Lake" ["/t"] = (r, w) ∧ found_albums r = Some [["Lake"]].
Proof. eexists _, _. split; [vm_compute; reflexivity|]. vm_compute. reflexivity. Qed.

Lemma takeout_scan_valid_witness : ∃ r w,
  scan "Lake" ["/t"] = (r, w) ∧ found_albums r = Some [["Lake"]]
  ∧ takeout_result (H1 := export_reader "Lake")
      (find_takeout (W := ExportWorld) (H := export_fs "Lake") ["/t"] "export" default_takeout_scan new_world) r.
Proof.
  destruct export_scan_returns as (r & w & Hs & Ha). exists r, w. split; [exact Hs|]. split; [exact Ha|].
  assert (0 <= fsc_max_entries (tsc_scan default_takeout_scan) < u64_max) as Hl by (vm_compute; split; congruence).
  exact (takeout_scan_valid ["/t"] "export" default_takeout_scan new_world r w Hl Hs).
Defined.

Notation parts := (scan_all (takeout_archive (W := ExportWorld) (H := export_fs "Lake") default_takeout_scan)
  ["/z.zip"] new_archive_scan new_world).

Lemma export_parts_merge : ∃ a w, parts = (Ok a, w)
  ∧ all_paths (as_state a) = ["Takeout/Google Photos/b.jpg"]
  ∧ map pd_paths (ss_errors (as_state a)) = [["Takeout/Google Photos/a.jpg"]].
Proof. eexists _, _. split; [vm_compute; reflexivity|]. vm_compute. split; reflexivity. Qed.

Lemma takeout_archives_merged_witness : ∃ a w, parts = (Ok a, w)
  ∧ all_paths (as_state a) = ["Takeout/Google Photos/b.jpg"]
  ∧ ∃ reads, merged TAKEOUT_RULES reads (as_seen a) (as_state a)
      ∧ Forall (read_of default_takeout_scan) reads.
Proof.
  destruct export_parts_merge as (a & w & Hs & Hp & _). exists a, w. split; [exact Hs|]. split; [exact Hp|].
  assert (takeout_validate default_takeout_scan = Ok tt) as Hv by (vm_compute; reflexivity).
  exact (takeout_archives_merged default_takeout_scan ["/z.zip"] new_world a w Hv Hs).
Defined.
End witnesses.
