(* ===== verification/Apple.v ===== *)
(** * Apple: scanning Apple Photos exports and iCloud ZIPs
    ([crates/immich-sources/src/apple_photos.rs], [apple_archive.rs])

    An export is walked or its parts are read, without known export noise; the
    plan then gets an album for every asset in a folder, when the configuration asks
    for that, and a fingerprint of its own. *)
From Stdlib Require Import Ascii.
From stdpp Require Import gmap strings.
From S2P Require Export Takeout.

(** ** Export noise *)

Definition starts_with_dot_underscore (component : string) : bool := starts_with "._" component.

Definition is_export_noise (component : string) : bool :=
  existsb (eq_ignore_ascii_case component)
    ["@eaDir"; ".Spotlight-V100"; ".photostructure"; "Recently Deleted"; ".DS_Store"; "Thumbs.db"]
  || starts_with_dot_underscore component.

(** The path up to the first component that is noise *)
Definition export_noise_path (path : string) : option string :=
  let components := split_on "/" path in
  (λ index, String.concat "/" (take (S index) components)) <$> position is_export_noise components.

(** ** Folder albums *)

(** [album_for], and [folder_album] of [picasa.rs] *)
Definition album_of_folder (mode : AlbumMode.t) (joiner path : string) : option string :=
  match rsplit_once "/" path with
  | None => None
  | Some (parent_value, _) =>
    match mode with
    | AlbumMode.None => None
    | AlbumMode.Folder => Some (filename parent_value)
    | AlbumMode.Path => Some (String.concat joiner (split_on "/" parent_value))
    end
  end.

Definition album_for (path : string) (config : ApplePhotosScanConfig) : option string :=
  album_of_folder (asc_album_mode config) (asc_album_path_joiner config) path.

(** [asset.normalized_metadata] and [asset.evidence] are assigned. *)
Definition set_asset_findings (a : CandidateAsset) (normalized : option NormalizedMetadata)
    (evidence : list RuleEvidence) : CandidateAsset := {|
  ca_operation_id := ca_operation_id a; ca_relative_path := ca_relative_path a;
  ca_media_kind := ca_media_kind a; ca_byte_len := ca_byte_len a;
  ca_content_sha256 := ca_content_sha256 a; ca_metadata := ca_metadata a;
  ca_normalized_metadata := normalized; ca_live_photo := ca_live_photo a; ca_evidence := evidence |}.

(** [evidence.push(..); evidence.sort(); evidence.dedup()] *)
Definition add_evidence (rule outcome_value : string) (l : list RuleEvidence) : list RuleEvidence :=
  sort_dedup evidence_compare (l ++ [{| re_rule_id := rule; outcome := outcome_value |}]).

(** One round of the loop of [finish_plan] *)
Definition add_folder_album (config : ApplePhotosScanConfig) (asset : CandidateAsset) : CandidateAsset :=
  match album_for (ca_relative_path asset) config with
  | None => asset
  | Some album =>
    let metadata := default default_metadata (ca_normalized_metadata asset) in
    set_asset_findings asset (Some (add_albums [album] metadata))
      (add_evidence rule_id.APPLE_FOLDER_ALBUM "folder_album_selected" (ca_evidence asset))
  end.

(** [plan.assets] and [plan.errors] and the fingerprint are assigned. *)
Definition set_plan (p : NormalizedPlan) (assets : list CandidateAsset) (errors : list PlanDiagnostic)
    (fingerprint : string) : NormalizedPlan := {|
  np_schema_version := np_schema_version p;
  np_source := {| kind := kind (np_source p); label := label (np_source p);
                  fingerprint_sha256 := fingerprint; case_sensitive := case_sensitive (np_source p);
                  unicode_normalization := unicode_normalization (np_source p) |};
  np_assets := assets; np_warnings := np_warnings p; np_errors := errors;
  np_summary := np_summary p |}.

Definition apple_asset_fields (asset : CandidateAsset) : list string :=
  [ca_relative_path asset; ca_content_sha256 asset]
  ++ flat_map (λ sidecar, [mc_relative_path sidecar; mc_rule_id sidecar]) (ca_metadata asset)
  ++ match ca_normalized_metadata asset with Some metadata => albums metadata | None => [] end.

Section apple.
  Context `{Codec, TimeLib}.

(** The digest of [refresh_fingerprint] *)
Definition apple_fingerprint (assets : list CandidateAsset) (warnings errors : list PlanDiagnostic) :
    string :=
  sha256_hex ("apple-photos-source-v1" +:+ one_byte 0
    +:+ fields (flat_map apple_asset_fields assets ++ flat_map diagnostic_fields (warnings ++ errors))).

Definition finish_plan (plan : NormalizedPlan) (config : ApplePhotosScanConfig) :
    result ScanError.t NormalizedPlan :=
  let assets := map (add_folder_album config) (np_assets plan) in
  let plan := set_plan plan assets (np_errors plan)
                (apple_fingerprint assets (np_warnings plan) (np_errors plan)) in
  _ ← map_err ScanError.InvalidPlan (Planning.validate plan);
  Ok plan.

Definition finish_resolved_plan (resolved : ResolvedFolderPlan) (config : ApplePhotosScanConfig) :
    result ScanError.t ResolvedFolderPlan :=
  plan ← finish_plan (rfp_plan resolved) config;
  Ok {| rfp_plan := plan; rfp_files := rfp_files resolved |}.
End apple.

(** ** ZIP parts *)

Module ArchiveFlavor.
Inductive t := Apple | Picasa.
End ArchiveFlavor.

(** [ArchiveFlavor::source] and [ArchiveFlavor::rules] *)
Definition flavor_source (f : ArchiveFlavor.t) : Z * SourceKind :=
  match f with
  | ArchiveFlavor.Apple => (NORMALIZED_PLAN_SCHEMA_VERSION_V3, ApplePhotos)
  | ArchiveFlavor.Picasa => (NORMALIZED_PLAN_SCHEMA_VERSION_V4, Picasa)
  end.

Definition flavor_rules (f : ArchiveFlavor.t) : MergeRules :=
  let '(duplicate, conflict) :=
    match f with
    | ArchiveFlavor.Apple => (rule_id.APPLE_ARCHIVE_DUPLICATE, rule_id.APPLE_ARCHIVE_CONFLICT)
    | ArchiveFlavor.Picasa => (rule_id.PICASA_ARCHIVE_DUPLICATE, rule_id.PICASA_ARCHIVE_CONFLICT)
    end in
  {| mr_duplicate_rule := duplicate; mr_duplicate_code := "identical_archive_entry";
     mr_conflict_rule := conflict; mr_conflict_code := "conflicting_archive_entry" |}.

(** The record of a new path, from [merge_entry] *)
Definition apple_record (archive_path relative_path : string) (archive_index : Z)
    (identity : EntryIdentity) : ScanState → ScanState :=
  match ei_kind identity with
  | Entry_Media kind =>
    set_media (λ l, l ++ [archive_media archive_path relative_path archive_index kind identity])
  | Entry_Sidecar kind =>
    set_sidecars (λ l, l ++ [archive_sidecar archive_path relative_path archive_index kind identity
                               None None])
  end.

Section apple_scan.
  Context {W : Type} `{ScanFs W, ZipReader W, Cancellation W, ScanObserver W}.
  Context `{UnicodeLib, Codec, TimeLib, !CalendarLib}.

(** The body of the loop of [scan_archive] *)
Definition apple_entry (config : ApplePhotosScanConfig) (flavor : ArchiveFlavor.t) (path : string)
    (index : Z) (a : ArchiveScan) : io W ScanError.t ArchiveScan :=
  _ ← check_cancelled;
  entry ← ok_or_archive (zip_by_index index) "cannot open ZIP entry";
  relative_path ← lift (portable_entry_path entry (fsc_max_path_bytes (asc_scan config)));
  let a := {| as_state := count_entry (as_state a); as_seen := as_seen a;
              as_layout_found := as_layout_found a |} in
  let noise := match flavor with
               | ArchiveFlavor.Apple => export_noise_path relative_path
               | ArchiveFlavor.Picasa => None
               end in
  match noise with
  | Some diagnostic_path =>
    mret {| as_state := push_warning (diagnostic rule_id.APPLE_EXPORT_NOISE "known_apple_export_noise"
                                        [diagnostic_path]) (as_state a);
            as_seen := as_seen a; as_layout_found := as_layout_found a |}
  | None =>
    if ze_is_dir entry then mret a else
    match entry_kind relative_path with
    | None => mret a
    | Some kind =>
      _ ← lift (validate_entry entry (asc_max_archive_entry_bytes config)
                  (asc_max_compression_ratio config) (asc_compression_ratio_grace_bytes config));
      let modified := zip_unix_ms (ze_last_modified entry) in
      '(byte_len, content) ← stream_entry entry (fsc_buffer_bytes (asc_scan config));
      let identity := entry_identity kind byte_len content modified in
      merge_and_report (flavor_rules flavor) relative_path identity
        (apple_record path relative_path index identity) a
    end
  end.

Definition apple_archive (config : ApplePhotosScanConfig) (flavor : ArchiveFlavor.t) :
    string → ArchiveScan → io W ScanError.t ArchiveScan :=
  scan_one_archive (apple_entry config flavor) (fsc_max_entries (asc_scan config)).

(** What [finish_plan] adds to the plan of a flavor: [finish_resolved_plan] of [picasa.rs] is its
    caller's. *)
Definition flavor_plan (config : ApplePhotosScanConfig) (flavor : ArchiveFlavor.t) (plan : NormalizedPlan) :
    result ScanError.t NormalizedPlan :=
  match flavor with
  | ArchiveFlavor.Apple => finish_plan plan config
  | ArchiveFlavor.Picasa => Ok plan
  end.

(** The end of [scan_archives]: the plan is finished before it is resolved. *)
Definition conclude_archives (source_label : string) (config : ApplePhotosScanConfig)
    (flavor : ArchiveFlavor.t) (s : ScanState) : io W ScanError.t ResolvedFolderPlan :=
  s ← progress Reconciliation (reconcile s);
  let sequence := sat_add (ss_event_sequence s) 1 in
  let files := resolved_files s in
  let '(schema_version, source_kind) := flavor_source flavor in
  let plan := finalize_plan schema_version source_kind source_label (asc_scan config) s in
  plan ← lift (flavor_plan config flavor plan);
  resolved ← lift (finish_resolved plan files);
  _ ← observe_event {|
    pe_schema_version := PROGRESS_EVENT_SCHEMA_VERSION; pe_sequence := sequence;
    pe_stage := StageComplete;
    pe_assets_observed := ps_assets (np_summary (rfp_plan resolved));
    pe_bytes_read := ps_bytes_read (np_summary (rfp_plan resolved)) |};
  mret resolved.

(** Its beginning: what is found in the parts *)
Definition read_apple_parts (inputs : list string) (source_label : string)
    (config : ApplePhotosScanConfig) (flavor : ArchiveFlavor.t) : io W ScanError.t ScanState :=
  _ ← lift (map_err config_error (apple_validate config));
  _ ← lift (validate_source_label source_label);
  _ ← validate_inputs inputs (asc_max_archives config);
  a ← scan_all (apple_archive config flavor) inputs new_archive_scan;
  mret (as_state a).

Definition scan_apple_archives (inputs : list string) (source_label : string)
    (config : ApplePhotosScanConfig) (flavor : ArchiveFlavor.t) :
    io W ScanError.t ResolvedFolderPlan :=
  s ← read_apple_parts inputs source_label config flavor;
  conclude_archives source_label config flavor s.

Definition scan_apple_archives_resolved inputs source_label config : io W ScanError.t ResolvedFolderPlan :=
  scan_apple_archives inputs source_label config ArchiveFlavor.Apple.

Definition scan_picasa_archives_resolved inputs source_label config : io W ScanError.t ResolvedFolderPlan :=
  scan_apple_archives inputs source_label config ArchiveFlavor.Picasa.

(** ** Whole scans *)

Definition APPLE_SCAN : ScanStrategy (W := W) := {|
  st_source_kind := ApplePhotos; st_schema_version := NORMALIZED_PLAN_SCHEMA_VERSION_V3;
  st_reconcile_state := λ s w, (reconcile s, w); st_skip_path := export_noise_path |}.

Definition scan_apple_photos_inputs_resolved (inputs : list string) (source_label : string)
    (config : ApplePhotosScanConfig) : io W ScanError.t ResolvedFolderPlan :=
  _ ← lift (map_err config_error (apple_validate config));
  scan_inputs inputs
    (λ input, resolved ← scan_resolved_internal input source_label (asc_scan config) APPLE_SCAN;
              lift (finish_resolved_plan resolved config))
    (λ inputs, scan_apple_archives_resolved inputs source_label config).

Definition scan_apple_photos_inputs (inputs : list string) (source_label : string)
    (config : ApplePhotosScanConfig) : io W ScanError.t NormalizedPlan :=
  resolved_plan (scan_apple_photos_inputs_resolved inputs source_label config).
End apple_scan.
