(* ===== verification/Picasa.v ===== *)
(** * Picasa: scanning Picasa folders
    ([crates/immich-sources/src/picasa_ini.rs], [picasa.rs])

    A folder's [.picasa.ini] names its album and captions its files; a scan without
    these is made by [Discovery] or [Apple], and its plan is finished here. *)
From Stdlib Require Import Ascii.
From stdpp Require Import gmap strings.
From S2P Require Export Apple.

(** ** [picasa_ini.rs] *)

Module IniError.
Inductive t := Oversized | InvalidUtf8 | InvalidSyntax | Conflict.
End IniError.

Record PicasaDocument := { pd_album : option string; pd_captions : gmap string string }.

Definition MAX_INI_BYTES : Z := 1048576.
Definition MAX_LINES : Z := 20000.
Definition MAX_LINE_BYTES : Z := 16384.
Definition MAX_SECTIONS : Z := 10000.

Definition assign (target : option string) (value : string) : result IniError.t (option string) :=
  _ ← fail_if (is_empty value || (4096 <? len value)
               || (contains_byte "/" value || contains_byte "\" value) || has_control value)
        IniError.InvalidSyntax;
  _ ← fail_if (is_some_and target (λ existing, negb (String.eqb existing value))) IniError.Conflict;
  Ok (Some value).

(** The variables of the loop *)
Record IniState := {
  ini_document : PicasaDocument; ini_section : option string; ini_sections : Z }.

Definition new_ini : IniState := {|
  ini_document := {| pd_album := None; pd_captions := ∅ |}; ini_section := None; ini_sections := 0 |}.

(** A line that begins a section *)
Definition ini_header (line : string) (s : IniState) : result IniError.t IniState :=
  name ← ok_or (Text.strip_prefix "[" line ≫= Text.strip_suffix "]") IniError.InvalidSyntax;
  _ ← fail_if (is_empty name || (4096 <? len name) || has_control name) IniError.InvalidSyntax;
  let sections := sat_add (ini_sections s) 1 in
  _ ← fail_if (MAX_SECTIONS <? sections) IniError.Oversized;
  Ok {| ini_document := ini_document s; ini_section := Some name; ini_sections := sections |}.

Definition ini_caption (section value : string) (document : PicasaDocument) :
    result IniError.t PicasaDocument :=
  let entry := default "" (pd_captions document !! section) in
  _ ← fail_if (negb (is_empty entry) && negb (String.eqb entry value)) IniError.Conflict;
  _ ← fail_if (is_empty value
               || existsb (λ c, is_control c && negb (is_layout c)) (chars value))
        IniError.InvalidSyntax;
  Ok {| pd_album := pd_album document; pd_captions := <[section := value]> (pd_captions document) |}.

Definition ini_pair (line : string) (s : IniState) : result IniError.t IniState :=
  '(key, value) ← ok_or (split_once "=" line) IniError.InvalidSyntax;
  let key := trim key in
  let value := trim value in
  _ ← fail_if (is_empty key || (256 <? len key) || (16384 <? len value)) IniError.Oversized;
  section ← ok_or (ini_section s) IniError.InvalidSyntax;
  document ←
    (if eq_ignore_ascii_case section "Picasa" && eq_ignore_ascii_case key "name" then
       album ← assign (pd_album (ini_document s)) value;
       Ok {| pd_album := album; pd_captions := pd_captions (ini_document s) |}
     else if eq_ignore_ascii_case key "caption" then ini_caption section value (ini_document s)
     else Ok (ini_document s));
  Ok {| ini_document := document; ini_section := ini_section s; ini_sections := ini_sections s |}.

(** The body of the loop of [parse] *)
Definition ini_line (index : Z) (raw_line : string) (s : IniState) : result IniError.t IniState :=
  _ ← fail_if ((MAX_LINES <=? index) || (MAX_LINE_BYTES <? len raw_line)) IniError.Oversized;
  let line := trim raw_line in
  if is_empty line || starts_with ";" line || starts_with "#" line then Ok s
  else if starts_with "[" line then ini_header line s
  else ini_pair line s.

Fixpoint ini_lines (index : Z) (l : list string) (s : IniState) : result IniError.t IniState :=
  match l with
  | [] => Ok s
  | raw_line :: l => s ← ini_line index raw_line s; ini_lines (index + 1) l s
  end.

(** [picasa_ini::parse] *)
Definition parse_ini (bytes : string) : result IniError.t PicasaDocument :=
  _ ← fail_if (MAX_INI_BYTES <? len bytes) IniError.Oversized;
  _ ← fail_if (negb (is_utf8 bytes)) IniError.InvalidUtf8;
  s ← ini_lines 0 (lines bytes) new_ini;
  Ok (ini_document s).

(** ** The documents of a scan *)

Record Documents := { do_parsed : gmap string PicasaDocument; do_errors : list PlanDiagnostic }.

Definition no_documents : Documents := {| do_parsed := ∅; do_errors := [] |}.

Definition invalid_document (directory : string) (d : Documents) : Documents := {|
  do_parsed := do_parsed d;
  do_errors := do_errors d ++ [diagnostic rule_id.PICASA_INI_INVALID "invalid_picasa_ini"
                                 [if is_empty directory then "." else directory]] |}.

Definition insert_document (directory bytes : string) (d : Documents) : Documents :=
  match parse_ini bytes, do_parsed d !! directory with
  | Ok document, None =>
    {| do_parsed := <[directory := document]> (do_parsed d); do_errors := do_errors d |}
  | _, _ => invalid_document directory d
  end.

(** ** Metadata of an asset *)

(** [filename] of [picasa.rs] is [Sources.filename]. *)
Definition folder_album (path : string) (config : PicasaScanConfig) : option string :=
  album_of_folder (psc_album_mode config) (psc_album_path_joiner config) path.

(** [text.parse::<u8>()] and [text.parse::<i32>()]: digits after an optional sign *)
Definition parse_small (maximum : Z) (s : string) : option Z :=
  n ← parse_u64 s; if n <=? maximum then Some n else None.
Definition parse_i32 (s : string) : option Z :=
  match s with
  | String a rest =>
    if Ascii.eqb a "-" then
      match bytes rest with
      | [] => None
      | digits => n ← parse_digits digits 0; if n <=? 2 ^ 31 then Some (- n) else None
      end
    else parse_small (2 ^ 31 - 1) s
  | EmptyString => None
  end.

(** [str::from_utf8(bytes.get(a..b)?)] *)
Definition byte_range (a b : Z) (name : string) : option string :=
  if b <=? len name then
    let s := String.substring (Z.to_nat a) (Z.to_nat (b - a)) name in
    if is_utf8 s then Some s else None
  else None.

Definition two_digits (a b : Z) (name : string) : option Z := byte_range a b name ≫= parse_small 255.

Section picasa.
  Context `{UnicodeLib, Codec, TimeLib, !CalendarLib}.

(** [serde_json::to_vec(&(&plan.assets, &plan.warnings, &plan.errors))] *)
Class PlanJson := {
  json_findings : list CandidateAsset → list PlanDiagnostic → list PlanDiagnostic → option string }.
Context `{!PlanJson}.

(** A leading [YYYYMMDD-HHMMSS] *)
Definition filename_timestamp (name : string) : option string :=
  if (len name <? 15) || negb (bool_decide (String.get 8 name = Some "-"%char)) then None else
  year ← byte_range 0 4 name ≫= parse_i32;
  month ← two_digits 4 6 name;
  day ← two_digits 6 8 name;
  hour ← two_digits 9 11 name;
  minute ← two_digits 11 13 name;
  second ← two_digits 13 15 name;
  time ← utc_instant year month day hour minute second;
  format_rfc3339 time.

(** [apply_metadata] *)
Definition apply_metadata (config : PicasaScanConfig) (document : option PicasaDocument)
    (asset : CandidateAsset) : CandidateAsset :=
  let name := filename (ca_relative_path asset) in
  let metadata := default default_metadata (ca_normalized_metadata asset) in
  let caption := document ≫= λ doc, pd_captions doc !! name in
  let '(description_value, evidence) :=
    match caption with
    | Some caption => (Some caption, add_evidence rule_id.PICASA_CAPTION "picasa_caption_selected"
                                       (ca_evidence asset))
    | None => (description metadata, ca_evidence asset)
    end in
  let document_album := if psc_picasa_albums config then document ≫= pd_album else None in
  let evidence := match document_album with
                  | Some _ => add_evidence rule_id.PICASA_ALBUM "picasa_album_selected" evidence
                  | None => evidence
                  end in
  let folder := folder_album (ca_relative_path asset) config in
  let evidence := match folder with
                  | Some _ => add_evidence rule_id.PICASA_FOLDER_ALBUM "folder_album_selected" evidence
                  | None => evidence
                  end in
  let '(taken, evidence) :=
    match psc_filename_date config, taken_at_utc metadata with
    | true, None =>
      match filename_timestamp name with
      | Some time => (Some time, add_evidence rule_id.PICASA_FILENAME_DATE "filename_date_selected" evidence)
      | None => (None, evidence)
      end
    | _, taken => (taken, evidence)
    end in
  let metadata := add_albums (option_list document_album ++ option_list folder)
    {| description := description_value; taken_at_utc := taken; location := location metadata;
       albums := albums metadata |} in
  set_asset_findings asset
    (if bool_decide (metadata = default_metadata) then None else Some metadata) evidence.

(** The digest of [refresh_fingerprint] *)
Definition picasa_fingerprint (assets : list CandidateAsset) (warnings errors : list PlanDiagnostic) :
    result ScanError.t string :=
  bytes ← ok_or (json_findings assets warnings errors)
    (ScanError.InvalidConfiguration "Picasa identity serialization failed");
  Ok (sha256_hex ("picasa-source-v1" +:+ one_byte 0 +:+ bytes)).

Definition picasa_finish (resolved : ResolvedFolderPlan) (config : PicasaScanConfig)
    (documents : Documents) : result ScanError.t ResolvedFolderPlan :=
  let plan := rfp_plan resolved in
  let assets := map (λ asset, apply_metadata config
    (do_parsed documents !! parent (ca_relative_path asset)) asset) (np_assets plan) in
  let errors := sort_dedup diagnostic_compare (np_errors plan ++ do_errors documents) in
  fingerprint ← picasa_fingerprint assets (np_warnings plan) errors;
  let plan := set_plan plan assets errors fingerprint in
  _ ← map_err ScanError.InvalidPlan (Planning.validate plan);
  Ok {| rfp_plan := plan; rfp_files := rfp_files resolved |}.
End picasa.

(** ** Reading the documents *)

Section picasa_scan.
  Context {W : Type} `{ScanFs W, ZipReader W, Cancellation W, ScanObserver W}.
  Context `{UnicodeLib, Codec, TimeLib, !CalendarLib, !PlanJson}.

(** [reader.take(remaining).read_to_end(..)]; an empty chunk is the end. *)
Fixpoint read_to_end (fuel : nat) (read : Z → W → option string * W) (remaining : Z)
    (content : string) (w : W) : option (option string * W) :=
  match fuel with
  | O => None
  | S fuel =>
    if remaining <=? 0 then Some (Some content, w)
    else match read remaining w with
    | (None, w) => Some (None, w)
    | (Some chunk, w) =>
      if is_empty chunk then Some (Some content, w)
      else read_to_end fuel read (remaining - len chunk) (content +:+ chunk) w
    end
  end.

(** [None] of the loop never happens: [read_to_end_returns]. *)
Definition read_bounded (read : Z → W → option string * W) : io W ScanError.t string :=
  bytes ← ok_or_archive (λ w, default (None, w)
    (read_to_end (Z.to_nat (MAX_INI_BYTES + 1) + 1)%nat read (MAX_INI_BYTES + 1) "" w))
    "cannot read Picasa INI";
  _ ← lift (fail_if (MAX_INI_BYTES <? len bytes) (ScanError.LimitExceeded "max_picasa_ini_bytes"));
  mret bytes.

(** One round of the loop of [directory_documents] *)
Definition directory_document (root : string) (d : Documents) (parent_value : string) :
    io W ScanError.t Documents := λ w,
  let path := path_join (path_join root parent_value) ".picasa.ini" in
  match sf_symlink_metadata path w with
  | (None, w) => (Ok d, w)
  | (Some metadata, w) =>
    if negb (bool_decide (sm_type metadata = FileType.File)) then (Ok (invalid_document parent_value d), w)
    else
      match sf_open path w with
      | (false, w) => (Err ScanError.InvalidRoot, w)
      | (true, w) =>
        (bytes ← read_bounded sf_read; mret (insert_document parent_value bytes d)) w
      end
  end.

Fixpoint fold_io {A S} (f : S → A → io W ScanError.t S) (l : list A) (s : S) : io W ScanError.t S :=
  match l with [] => mret s | x :: l => s ← f s x; fold_io f l s end.

(** The parents are a [BTreeSet]. *)
Definition directory_documents (root : string) (plan : NormalizedPlan) : io W ScanError.t Documents :=
  fold_io (directory_document root)
    (sort_dedup String.compare (map (λ asset, parent (ca_relative_path asset)) (np_assets plan)))
    no_documents.

(** The body of the inner loop of [archive_documents] *)
Definition archive_document (config : PicasaScanConfig) (d : Documents) (index : Z) :
    io W ScanError.t Documents :=
  _ ← check_cancelled;
  entry ← ok_or_archive (zip_by_index index) "cannot open ZIP entry";
  path ← lift (portable_entry_path entry (fsc_max_path_bytes (psc_scan config)));
  if negb (eq_ignore_ascii_case (filename path) ".picasa.ini") then mret d else
  _ ← lift (validate_entry entry MAX_INI_BYTES (psc_max_compression_ratio config)
              (psc_compression_ratio_grace_bytes config));
  bytes ← read_bounded zip_read;
  mret (insert_document (parent path) bytes d).

Definition input_documents (config : PicasaScanConfig) (d : Documents) (input : string) :
    io W ScanError.t Documents :=
  _ ← ok_or_archive (λ w, let '(opened, w) := sf_open input w in
                          (if opened then Some tt else None, w)) "cannot open archive";
  entry_count ← ok_or_archive zip_new "invalid ZIP directory";
  fold_io (archive_document config) (seqZ 0 entry_count) d.

Definition archive_documents (inputs : list string) (config : PicasaScanConfig) :
    io W ScanError.t Documents := fold_io (input_documents config) inputs no_documents.

(** ** Whole scans *)

Definition PICASA_SCAN : ScanStrategy (W := W) := {|
  st_source_kind := Picasa; st_schema_version := NORMALIZED_PLAN_SCHEMA_VERSION_V4;
  st_reconcile_state := λ s w, (reconcile s, w); st_skip_path := keep_all_paths |}.

Definition scan_picasa_inputs_resolved (inputs : list string) (source_label : string)
    (config : PicasaScanConfig) : io W ScanError.t ResolvedFolderPlan :=
  _ ← lift (map_err config_error (picasa_validate config));
  scan_inputs inputs
    (λ root, resolved ← scan_resolved_internal root source_label (psc_scan config) PICASA_SCAN;
             documents ← directory_documents root (rfp_plan resolved);
             lift (picasa_finish resolved config documents))
    (λ inputs, resolved ← scan_picasa_archives_resolved inputs source_label (as_archive_config config);
               documents ← archive_documents inputs config;
               lift (picasa_finish resolved config documents)).

Definition scan_picasa_inputs (inputs : list string) (source_label : string)
    (config : PicasaScanConfig) : io W ScanError.t NormalizedPlan :=
  resolved_plan (scan_picasa_inputs_resolved inputs source_label config).
End picasa_scan.
