(* ===== verification/AppleTheorems.v ===== *)
(** * AppleTheorems: plans that are finished with folder albums

    Finishing a valid plan keeps its files and adds one album per asset in a folder;
    it fails exactly when such a name is no album. *)
From Stdlib Require Import Ascii.
From stdpp Require Import gmap strings.
From S2P Require Export Apple TakeoutScanTheorems.

(** ** Finishing a plan *)

(** What finishing keeps of an asset *)
Record same_asset (a b : CandidateAsset) : Prop := {
  sa_id : ca_operation_id b = ca_operation_id a;
  sa_path : ca_relative_path b = ca_relative_path a;
  sa_kind : ca_media_kind b = ca_media_kind a;
  sa_len : ca_byte_len b = ca_byte_len a;
  sa_content : ca_content_sha256 b = ca_content_sha256 a;
  sa_metadata : ca_metadata b = ca_metadata a;
  sa_live : ca_live_photo b = ca_live_photo a;
}.

Definition albums_of (a : CandidateAsset) : list string :=
  match ca_normalized_metadata a with Some n => albums n | None => [] end.

Lemma add_evidence_ok rule code l :
  rule ≠ "" → Forall (λ e, re_rule_id e ≠ "") l → Forall (λ e, re_rule_id e ≠ "") (add_evidence rule code l).
Proof.
  intros Hr Hl. apply (Forall_sort_dedup evidence_compare). apply Forall_app. by split; [|repeat constructor].
Qed.

Section finish.
  Context `{Codec, TimeLib, !CodecLaws}.

Lemma set_plan_map (f : CandidateAsset → CandidateAsset) p :
  (∀ a, a ∈ np_assets p → same_asset a (f a)) →
  map ca_relative_path (map f (np_assets p)) = map ca_relative_path (np_assets p)
  ∧ map ca_operation_id (map f (np_assets p)) = map ca_operation_id (np_assets p)
  ∧ sidecar_count (map f (np_assets p)) = sidecar_count (np_assets p).
Proof.
  intros Hf. unfold sidecar_count. rewrite !map_map.
  split_and!; [| |f_equal]; apply map_ext_Forall, Forall_forall; intros a Hin; destruct (Hf a Hin); congruence.
Qed.

(** Finishing gives a well-formed plan when the new findings are valid. *)
Lemma set_plan_well_formed f p errors fingerprint :
  plan_well_formed p → np_schema_version p ≠ 1 → len fingerprint = 64 → Sorted diagnostic_le errors →
  (∀ a, a ∈ np_assets p → same_asset a (f a)) →
  (∀ a, a ∈ np_assets p → Forall (λ e, re_rule_id e ≠ "") (ca_evidence (f a))) →
  plan_well_formed (set_plan p (map f (np_assets p)) errors fingerprint)
  ↔ ∀ a n, a ∈ np_assets p → ca_normalized_metadata (f a) = Some n → is_valid n = true.
Proof.
  intros [Hs Hl Hfp Ha Hsort Hids Hcount Hsidecars Hw He] Hv Hlen Herr Hf Hev.
  destruct (set_plan_map f p Hf) as (Hpaths & Hops & Hside). split.
  - intros [_ _ _ Hall _ _ _ _ _ _] a n Hin Hn. cbn in Hall. rewrite Forall_map, Forall_forall in Hall.
    by apply (awf_normalized _ _ (Hall a Hin)).
  - intros Hvalid. split; cbn; rewrite ?Hpaths, ?Hops, ?Hside; try done.
    + apply Forall_map. rewrite Forall_forall in *. intros a Hin. destruct (Ha a Hin).
      destruct (Hf a Hin) as [Hid Hp _ _ Hc Hm _]. split; rewrite ?Hid, ?Hp, ?Hc, ?Hm; try done; auto.
      intros n. by apply Hvalid.
    + by rewrite zlen_map.
    + change (ps_sidecars (np_summary p) = sidecar_count (map f (np_assets p))). by rewrite Hside.
Qed.

(** ** Folder albums *)

Lemma add_folder_album_same config a : same_asset a (add_folder_album config a).
Proof. unfold add_folder_album. by destruct (album_for _ config). Qed.

Lemma add_folder_album_evidence config a :
  Forall (λ e, re_rule_id e ≠ "") (ca_evidence a) →
  Forall (λ e, re_rule_id e ≠ "") (ca_evidence (add_folder_album config a)).
Proof.
  unfold add_folder_album. destruct (album_for _ config); [|done]. by apply add_evidence_ok.
Qed.

Lemma add_albums_valid_iff added m : is_valid m = true →
  is_valid (add_albums added m) = true ↔ Forall (λ a, valid_album a = true) added.
Proof.
  intros Hm. split; [|by apply add_albums_valid]. intros (_ & Ha & _)%is_valid_iff.
  cbn [albums add_albums] in Ha. by apply Forall_sort_dedup, Forall_app in Ha as [_ ?].
Qed.

Lemma add_folder_album_valid config a :
  (∀ n, ca_normalized_metadata a = Some n → is_valid n = true) →
  (∀ n, ca_normalized_metadata (add_folder_album config a) = Some n → is_valid n = true)
  ↔ ∀ album, album_for (ca_relative_path a) config = Some album → valid_album album = true.
Proof.
  intros Hn. unfold add_folder_album. destruct (album_for _ config) as [album|]; [|by split].
  assert (is_valid (default default_metadata (ca_normalized_metadata a)) = true) as Hd.
  { destruct (ca_normalized_metadata a) as [n|]; simpl; [by apply Hn|apply is_valid_default]. }
  apply (add_albums_valid_iff [album]) in Hd. rewrite Forall_cons in Hd. split.
  - intros Hv album' [= <-]. by apply Hd, Hv.
  - intros Ha n [= <-]. apply Hd. split; [by apply Ha|constructor].
Qed.

Lemma add_folder_album_albums config a album :
  album ∈ albums_of (add_folder_album config a)
  ↔ album ∈ albums_of a ∨ album_for (ca_relative_path a) config = Some album.
Proof.
  unfold albums_of, add_folder_album. destruct (album_for _ config) as [album'|]; [|naive_solver].
  cbn. rewrite (elem_of_sort_dedup String.compare), elem_of_app, list_elem_of_singleton.
  destruct (ca_normalized_metadata a); simpl; [|rewrite elem_of_nil]; naive_solver.
Qed.

Lemma finish_plan_valid plan config :
  plan_well_formed plan → np_schema_version plan ≠ 1 →
  (∃ p, finish_plan plan config = Ok p)
  ↔ ∀ a album, a ∈ np_assets plan → album_for (ca_relative_path a) config = Some album →
      valid_album album = true.
Proof.
  intros Hwf Hv. unfold finish_plan. set (fp := apple_fingerprint _ _ _).
  pose proof Hwf as [_ _ _ Ha _ _ _ _ _ He]. rewrite Forall_forall in Ha.
  pose proof (set_plan_well_formed (add_folder_album config) plan (np_errors plan) fp Hwf Hv
    (sha256_hex_64 _) He (λ a _, add_folder_album_same config a)
    (λ a Hin, add_folder_album_evidence config a (awf_evidence _ _ (Ha a Hin)))) as Hset.
  rewrite <- normalized_validate_Ok in Hset. split.
  - intros [p Hp] a album Hin. apply bind_Ok in Hp as ([] & Hp%map_err_Ok & _).
    apply add_folder_album_valid; [by apply (awf_normalized _ _ (Ha a Hin))|].
    intros n. by apply (proj1 Hset Hp).
  - intros Hall. rewrite (proj2 Hset); [by eexists|]. intros a n Hin.
    apply add_folder_album_valid; [by apply (awf_normalized _ _ (Ha a Hin))|]. intros album. by apply Hall.
Qed.
End finish.

(** ** Entries of the parts *)

Section archives.
  Context {W : Type} `{ScanFs W, ZipReader W, Cancellation W, ScanObserver W}.
  Context `{UnicodeLib, Codec, TimeLib, !CalendarLib, !CodecLaws}.

Lemma apple_record_records path p i identity : records (apple_record path p i identity) p identity.
Proof.
  unfold apple_record. destruct (ei_kind identity) eqn:Hk;
    [left|right]; (eexists; split; [intros s; reflexivity|done]).
Qed.

Lemma apple_record_fresh path p i identity s :
  p ≠ "" → len p <= 65536 → len (ei_content_sha256 identity) = 64 →
  fresh s → fresh (apple_record path p i identity s).
Proof.
  intros Hp Hl Hsha [Hm Hx]. unfold apple_record. destruct (ei_kind identity) as [kind|kind]; split; try done;
    cbn; apply Forall_app; (split; [done|]); constructor; try done. by apply archive_media_fresh.
Qed.

Definition apple_inv (config : ApplePhotosScanConfig) (flavor : ArchiveFlavor.t) (a : ArchiveScan) : Prop :=
  ∃ reads, merged (flavor_rules flavor) reads (as_seen a) (as_state a)
    ∧ Forall (λ r, ei_byte_len r.2 <= asc_max_archive_entry_bytes config) reads ∧ fresh (as_state a).

Lemma merged_warning rules reads seen d s : merged rules reads seen s → merged rules reads seen (push_warning d s).
Proof. intros []. by split. Qed.

Lemma apple_entry_keeps config flavor path i a w a' w' :
  fsc_max_path_bytes (asc_scan config) <= 65536 →
  apple_inv config flavor a → apple_entry config flavor path i a w = (Ok a', w') → apple_inv config flavor a'.
Proof.
  intros Hmax (reads & Hmerged & Hreads & Hfresh).
  intros (? & w1 & _ & (entry & w2 & _ & (p & w3 & Hp & Hr)%io_bind_Ok)%io_bind_Ok)%io_bind_Ok.
  apply lift_Ok in Hp as [Hp _]. apply portable_entry_path_Ok in Hp as [Hne Hlen]. cbv zeta in Hr.
  set (a1 := {| as_state := count_entry (as_state a); as_seen := as_seen a; as_layout_found := _ |}) in Hr.
  assert (apple_inv config flavor a1) as Hinv.
  { exists reads. split_and!; [by apply merged_counters|done|by apply fresh_counters]. }
  destruct (match flavor with ArchiveFlavor.Apple => _ | _ => _ end) as [noise|] in Hr.
  { injection Hr as <- _. exists reads. split_and!; [by apply merged_warning, merged_counters|done|].
    by apply (fresh_same (as_state a)). }
  destruct (ze_is_dir entry); [by injection Hr as <- _|].
  destruct (entry_kind p) as [kind|] eqn:Hkind; [|by injection Hr as <- _].
  apply io_bind_Ok in Hr as ([] & w4 & [Hv _]%lift_Ok & Hr). apply validate_entry_Ok in Hv.
  apply io_bind_Ok in Hr as ([byte_len content] & w5 & Hs & Hr). apply stream_entry_Ok in Hs.
  apply merge_and_report_Ok in Hr as (s & n & -> & Hseen & Hstate & _).
  set (id := entry_identity _ _ _ _) in *. set (s1 := add_bytes (ei_byte_len id) (as_state a1)) in *.
  assert (fresh s1) as Hfresh1 by (by apply (fresh_same (as_state a))).
  assert (len (ei_content_sha256 id) = 64) as Hsha by apply sha256_hex_64.
  exists (reads ++ [(p, id)]). rewrite Hseen, Hstate. split_and!.
  - apply merged_counters, merge_entry_merged; [apply apple_record_records|].
    unfold s1, add_bytes. apply merged_counters. by apply merged_counters.
  - apply Forall_app. split; [done|]. constructor; [simpl; lia|done].
  - apply fresh_counters, merge_fresh; [done|]. apply apple_record_fresh; [done|lia|done|done].
Qed.

Lemma apple_archives_inv config flavor inputs w a w' :
  fsc_max_path_bytes (asc_scan config) <= 65536 →
  scan_all (apple_archive config flavor) inputs new_archive_scan w = (Ok a, w') → apple_inv config flavor a.
Proof.
  intros Hmax. apply scan_all_keeps; [intros; by eapply apple_entry_keeps|].
  exists []. split_and!; [apply merged_new|constructor|by split].
Qed.

Lemma apple_entry_errors config flavor path i a : errors_in not_plan (apple_entry config flavor path i a).
Proof.
  apply errors_in_bind; [by apply errors_in_cancelled|intros _].
  apply errors_in_bind; [apply errors_in_archive|intros entry].
  apply errors_in_bind; [apply errors_in_lift, portable_entry_path_Err|intros p]. cbv zeta.
  destruct (match flavor with ArchiveFlavor.Apple => _ | _ => _ end); [apply errors_in_ret|].
  destruct (ze_is_dir entry); [apply errors_in_ret|].
  destruct (entry_kind p); [|apply errors_in_ret].
  apply errors_in_bind; [apply errors_in_lift, validate_entry_Err|intros _].
  apply errors_in_bind; [apply stream_entry_errors|intros [n content]].
  unfold merge_and_report. destruct (merge_entry _ _ _ _ _ _).
  apply errors_in_bind; [apply errors_in_progress|intros ?; apply errors_in_ret].
Qed.

Lemma apple_config_paths config :
  apple_validate config = Ok tt → fsc_max_path_bytes (asc_scan config) <= 65536.
Proof.
  unfold apple_validate. intros Hv. apply bind_Ok in Hv as (u & Hv & _).
  assert (map_err config_error (folder_validate (asc_scan config)) = Ok u) as Hf by (by rewrite Hv).
  apply config_paths in Hf. lia.
Qed.

(** ** Whole scans *)

(** The reconciled plan before it is finished *)
Definition plan_of (flavor : ArchiveFlavor.t) (label : string) (config : FolderScanConfig) (s : ScanState) :
    NormalizedPlan :=
  finalize_plan (flavor_source flavor).1 (flavor_source flavor).2 label config (reconcile s).

Lemma plan_of_well_formed flavor label config s :
  fresh s → label ≠ "" →
  plan_well_formed (plan_of flavor label config s) ∨ id_collision (ss_media (reconcile s)).
Proof.
  intros [Hok _]%fresh_ok Hl. apply finalize_valid; [by apply reconcile_reconciled| |done|].
  - destruct flavor; constructor.
  - by destruct flavor.
Qed.

Lemma plan_of_schema flavor label config s : np_schema_version (plan_of flavor label config s) ≠ 1.
Proof. by destruct flavor. Qed.

Lemma finalize_plan_same v k label config s s' :
  ss_media s' = ss_media s → ss_sidecars s' = ss_sidecars s → ss_errors s' = ss_errors s →
  ss_warnings s' = ss_warnings s → ss_bytes_read s' = ss_bytes_read s →
  finalize_plan v k label config s' = finalize_plan v k label config s
  ∧ resolved_files s' = resolved_files s.
Proof. unfold finalize_plan, resolved_files. by intros -> -> -> -> ->. Qed.

Lemma conclude_archives_Ok label config flavor s w r w' :
  conclude_archives label config flavor s w = (r, w') →
  r = plan ← flavor_plan config flavor (plan_of flavor label (asc_scan config) s);
      finish_resolved plan (resolved_files (reconcile s)).
Proof.
  unfold conclude_archives, plan_of. generalize (reconcile s) as s0. clear s. intros s Hr.
  unfold mbind at 1, io_bind in Hr. destruct (progress _ s w) as [[s'|e] w1] eqn:Hp; [|discriminate Hp].
  apply progress_Ok in Hp as (Hm & Hx & _ & He & Hw & Hb). destruct (flavor_source flavor) as [v k].
  destruct (finalize_plan_same v k label (asc_scan config) s s' Hm Hx He Hw Hb) as [Hplan Hfiles].
  cbv zeta in Hr. rewrite Hplan, Hfiles in Hr. cbn [fst snd]. clear -Hr.
  revert Hr. generalize (finalize_plan v k label (asc_scan config) s) (resolved_files s).
  intros plan files. unfold mbind at 1, io_bind, lift.
  destruct (flavor_plan config flavor plan) as [p|e]; [|by intros [= <- _]].
  unfold mbind at 1, io_bind. simpl. destruct (finish_resolved p files); by intros [= <- _].
Qed.

(** What reading the parts leaves *)
Lemma read_apple_parts_cases inputs label config flavor w r w' :
  read_apple_parts inputs label config flavor w = (r, w') →
  match r with Ok s => fresh s ∧ label ≠ "" | Err e => not_plan e end.
Proof.
  unfold read_apple_parts. unfold mbind at 1, io_bind.
  destruct (lift _ w) as [[[]|e] w1] eqn:Hv; [apply lift_Ok in Hv as [Hv%map_err_Ok _]|apply lift_Err in Hv as [Hv _]].
  2:{ intros [= <- _]. by eapply config_error_not_plan. }
  apply apple_config_paths in Hv. unfold mbind at 1.
  destruct (lift _ w1) as [[[]|e] w2] eqn:Hl; [apply lift_Ok in Hl as [Hl _]|apply lift_Err in Hl as [Hl _]].
  2:{ intros [= <- _]. by eapply validate_source_label_Err. }
  apply validate_source_label_Ok in Hl. unfold mbind at 1.
  destruct (validate_inputs _ _ w2) as [[u|e] w3] eqn:Hi.
  2:{ intros [= <- _]. by eapply validate_inputs_errors. }
  unfold mbind at 1. destruct (scan_all _ inputs new_archive_scan w3) as [[a|e] w4] eqn:Ha.
  2:{ intros [= <- _]. eapply scan_all_errors; [|exact Ha]. apply apple_entry_errors. }
  apply apple_archives_inv in Ha as (reads & _ & _ & Hf); [|done]. by intros [= <- _].
Qed.

(** An archive scan is its reading, then the finished reconciled state. *)
Lemma scan_apple_archives_result inputs label config flavor w r w' :
  scan_apple_archives inputs label config flavor w = (r, w') →
  match read_apple_parts inputs label config flavor w with
  | (Ok s, _) => r = plan ← flavor_plan config flavor (plan_of flavor label (asc_scan config) s);
                     finish_resolved plan (resolved_files (reconcile s))
  | (Err e, _) => r = Err e
  end.
Proof.
  unfold scan_apple_archives. unfold mbind at 1, io_bind.
  destruct (read_apple_parts _ _ _ _ w) as [[s|e] w1]; [|by intros [= <- _]].
  by intros ->%conclude_archives_Ok.
Qed.

(** *** The end of an Apple Photos scan *)

(** A folder of a found file whose name is no album *)
Definition unusable_folder (config : ApplePhotosScanConfig) (s : ScanState) : Prop :=
  ∃ m album, m ∈ ss_media (reconcile s) ∧ album_for (dm_relative_path m) config = Some album
    ∧ valid_album album = false.

Definition apple_result (config : ApplePhotosScanConfig) (found : result ScanError.t ScanState * W)
    (r : result ScanError.t ResolvedFolderPlan) : Prop :=
  match r with
  | Ok resolved =>
    plan_well_formed (rfp_plan resolved)
    ∧ ∀ a, a ∈ np_assets (rfp_plan resolved) →
        (∃ f, source_for resolved (ca_relative_path a) (ca_byte_len a) (ca_content_sha256 a) = Ok f)
        ∧ albums_of a = option_list (album_for (ca_relative_path a) config)
  | Err (ScanError.InvalidPlan _) =>
    ∃ s w, found = (Ok s, w) ∧ (id_collision (ss_media (reconcile s)) ∨ unusable_folder config s)
  | Err _ => True
  end.

Lemma apple_result_error config found e : not_plan e → apple_result config found (Err e).
Proof. intros He. destruct e; try done. exfalso. by apply (He error). Qed.

(** The files of a fresh state are found, and nothing is known of them. *)
Lemma plan_of_assets flavor label config s a :
  fresh s → a ∈ np_assets (plan_of flavor label config s) →
  ca_normalized_metadata a = None
  ∧ (∃ m, m ∈ ss_media (reconcile s) ∧ ca_relative_path a = dm_relative_path m)
  ∧ ∀ plan, ∃ f, source_for {| rfp_plan := plan; rfp_files := resolved_files (reconcile s) |}
                   (ca_relative_path a) (ca_byte_len a) (ca_content_sha256 a) = Ok f.
Proof.
  intros [Hfresh _] Ha. unfold plan_of in Ha. cbn [finalize_plan np_assets] in Ha.
  rewrite elem_of_sort_by, elem_of_map in Ha. destruct Ha as (m & -> & Hin). split_and!.
  - pose proof Hin as (i & m0 & Hm0 & _ & Hf)%reconcile_elem. cbn. rewrite (rf_normalized _ _ _ _ Hf).
    apply list_elem_of_lookup_2, elem_of_prepare_media in Hm0 as [Hin0 _].
    rewrite Forall_forall in Hfresh. by destruct (Hfresh m0 Hin0) as (_ & _ & ? & _).
  - by exists m.
  - intros plan. exists (media_file m). apply source_for_Ok. split; [|done].
    unfold source_file. cbn [rfp_files]. apply collect_map_Some.
    + rewrite map_app, !map_map. apply reconcile_unique.
    + exists (dm_relative_path m, media_file m). split; [|done]. apply elem_of_app. left.
      apply elem_of_map. by exists m.
Qed.

Lemma finish_plan_Ok plan config p :
  finish_plan plan config = Ok p →
  Planning.validate p = Ok tt ∧ np_assets p = map (add_folder_album config) (np_assets plan).
Proof.
  unfold finish_plan. intros Hp. apply bind_Ok in Hp as ([] & Hv%map_err_Ok & [= <-]). done.
Qed.

Lemma finish_plan_Err plan config e : finish_plan plan config = Err e → ∃ p, e = ScanError.InvalidPlan p.
Proof.
  unfold finish_plan. intros [He|(? & _ & He)]%bind_Err; [|done].
  apply map_err_Err in He as (p & _ & <-). by exists p.
Qed.

Lemma usable_folders (folder : CandidateAsset → option string) (l : list CandidateAsset) :
  (∀ a album, a ∈ l → folder a = Some album → valid_album album = true)
  ∨ ∃ a album, a ∈ l ∧ folder a = Some album ∧ valid_album album = false.
Proof.
  induction l as [|a l [IH|(b & album & Hb & IH)]]; [left; by intros ? ? ?%elem_of_nil| |].
  2:{ right. exists b, album. split; [by right|done]. }
  destruct (folder a) as [album|] eqn:Ha.
  - destruct (valid_album album) eqn:Hv; [left|right; exists a, album; split; [by left|done]].
    intros b album' [->|Hb]%elem_of_cons; [by intros; simplify_eq|by apply IH].
  - left. intros b album [->|Hb]%elem_of_cons; [congruence|by apply IH].
Qed.

(** What a plan that was finished from a fresh state holds *)
Lemma apple_finished s w label config p :
  fresh s → let plan := plan_of ArchiveFlavor.Apple label (asc_scan config) s in
  finish_plan plan config = Ok p →
  apple_result config (Ok s, w) (Ok {| rfp_plan := p; rfp_files := resolved_files (reconcile s) |}).
Proof.
  intros Hf plan (Hv & Hassets)%finish_plan_Ok. split; [by apply normalized_validate_Ok|].
  intros a Ha. cbn [rfp_plan] in Ha. rewrite Hassets, elem_of_map in Ha. destruct Ha as (a0 & -> & Ha0).
  destruct (plan_of_assets _ _ _ _ _ Hf Ha0) as (Hnone & _ & Hsource).
  destruct (add_folder_album_same config a0). split; [|].
  - rewrite sa_path0, sa_len0, sa_content0. apply Hsource.
  - rewrite sa_path0. unfold albums_of, add_folder_album.
    destruct (album_for _ config); simpl; rewrite Hnone; done.
Qed.

(** A plan that was not finished has a reason. *)
Lemma apple_unfinished s label config e :
  fresh s → label ≠ "" → let plan := plan_of ArchiveFlavor.Apple label (asc_scan config) s in
  finish_plan plan config = Err e ∨ ¬ plan_well_formed plan →
  id_collision (ss_media (reconcile s)) ∨ unusable_folder config s.
Proof.
  intros Hf Hl plan He. pose proof (plan_of_well_formed ArchiveFlavor.Apple label (asc_scan config) s Hf Hl)
    as [Hwf|Hc]; [|by left]. destruct He as [He|He]; [|done]. right.
  destruct (usable_folders (λ a, album_for (ca_relative_path a) config) (np_assets plan)) as [Hall|(a & album & Ha & Halbum & Hbad)].
  - apply (finish_plan_valid plan config Hwf (plan_of_schema ArchiveFlavor.Apple _ _ _)) in Hall as [p Hp]. congruence.
  - destruct (plan_of_assets _ _ _ _ _ Hf Ha) as (_ & (m & Hm & Hp) & _). exists m, album. by rewrite <- Hp.
Qed.

(** A fresh state ends so, from parts or from a directory. *)
Lemma apple_finish s w label config :
  fresh s → label ≠ "" →
  let plan := plan_of ArchiveFlavor.Apple label (asc_scan config) s in
  let files := resolved_files (reconcile s) in
  apple_result config (Ok s, w) (p ← finish_plan plan config; finish_resolved p files)
  ∧ apple_result config (Ok s, w) (resolved ← finish_resolved plan files; finish_resolved_plan resolved config).
Proof.
  intros Hf Hl plan files.
  assert (∀ e, finish_plan plan config = Err e ∨ ¬ plan_well_formed plan →
    ∀ e, apple_result config (Ok s, w) (Err e)) as Herr.
  { intros e He e'. apply apple_unfinished in He; [|done..]. destruct e'; try done. by exists s, w. }
  assert (∀ p, finish_plan plan config = Ok p →
    apple_result config (Ok s, w) (finish_resolved p files)
    ∧ apple_result config (Ok s, w) (Ok {| rfp_plan := p; rfp_files := files |})) as Hok.
  { intros p Hp. pose proof (apple_finished s w label config p Hf Hp) as Hok.
    apply finish_plan_Ok in Hp as [Hpv _]. unfold finish_resolved. by rewrite Hpv. }
  split.
  - destruct (finish_plan plan config) as [p|e] eqn:Hp; simpl; [by apply Hok|apply (Herr e); by left].
  - unfold finish_resolved. destruct (Planning.validate plan) as [[]|v] eqn:Hv; simpl.
    + unfold finish_resolved_plan. cbn [rfp_plan rfp_files].
      destruct (finish_plan plan config) as [p|e] eqn:Hp; simpl; [by apply Hok|apply (Herr e); by left].
    + apply (λ He, Herr (ScanError.InvalidPlan v) He (ScanError.InvalidPlan v)). right.
      intros Hwf%normalized_validate_Ok. congruence.
Qed.

(** What an Apple Photos scan finds in its directory, or in its parts *)
Definition find_apple (inputs : list string) (label : string) (config : ApplePhotosScanConfig) :
    io W ScanError.t ScanState :=
  _ ← lift (map_err config_error (apple_validate config));
  scan_inputs inputs (λ input, find_files input label (asc_scan config) export_noise_path)
    (λ inputs, read_apple_parts inputs label config ArchiveFlavor.Apple).

Lemma scan_apple_directory_result input label config w r w' :
  0 <= fsc_max_entries (asc_scan config) < u64_max →
  (resolved ← scan_resolved_internal input label (asc_scan config) APPLE_SCAN;
   lift (finish_resolved_plan resolved config)) w = (r, w') →
  apple_result config (find_files input label (asc_scan config) export_noise_path w) r.
Proof.
  intros Hl. unfold mbind, io_bind.
  destruct (scan_resolved_internal _ _ _ _ w) as [r0 w1] eqn:Hs. apply scan_resolved_internal_result in Hs.
  cbn [APPLE_SCAN st_reconcile_state st_schema_version st_source_kind st_skip_path] in Hs.
  destruct (find_files _ _ _ _ w) as [[s|e] w2] eqn:Hfind;
    pose proof (find_files_cases _ _ _ _ _ _ _ Hl Hfind) as Hd; subst r0;
    [|intros [= <- _]; by apply apple_result_error].
  destruct Hd as (Hd & Hpaths & Hlabel). apply discovered_fresh in Hd; [|done].
  destruct (apple_finish s w2 label config Hd Hlabel) as [_ Hfin]. cbn [fst].
  unfold finish_state. unfold mbind, result_bind in Hfin.
  change (finalize_plan NORMALIZED_PLAN_SCHEMA_VERSION_V3 ApplePhotos label (asc_scan config) (reconcile s))
    with (plan_of ArchiveFlavor.Apple label (asc_scan config) s).
  destruct (finish_resolved _ _); unfold lift; intros [= <- _]; exact Hfin.
Qed.

(** A scan of an Apple Photos export, one directory or ZIP parts, never fails
    because the plan it made is invalid, with two exceptions: two of the files it
    found break SHA-256, or a folder it found a file in has a name that is no album.
    A plan that is returned is well formed, every asset is in exactly the album its
    folder and the configuration say, and the planners find its file. *)
Theorem apple_scan_valid inputs label config w r w' :
  0 <= fsc_max_entries (asc_scan config) < u64_max →
  scan_apple_photos_inputs_resolved inputs label config w = (r, w') →
  apple_result config (find_apple inputs label config w) r.
Proof.
  intros Hl. unfold scan_apple_photos_inputs_resolved, find_apple.
  unfold mbind at 1, io_bind. unfold mbind at 2.
  destruct (lift _ w) as [[[]|e] w1] eqn:Hv.
  - apply scan_inputs_related.
    + intros e w2. apply apple_result_error.
    + intros input w2 r2 w3. by apply scan_apple_directory_result.
    + intros w2 r2 w3 Hs%scan_apple_archives_result.
      destruct (read_apple_parts _ _ _ _ w2) as [[s|e] w4] eqn:Hread;
        pose proof (read_apple_parts_cases _ _ _ _ _ _ _ Hread) as Hd; subst r2;
        [|by apply apple_result_error].
      destruct Hd as [Hf Hlabel]. by apply apple_finish.
  - intros [= <- _]. apply lift_Err in Hv as [Hv _]. apply apple_result_error.
    by eapply config_error_not_plan.
Qed.
End archives.

(** ** Witnesses *)

(** A calendar of one instant *)
Definition sample_calendar : @CalendarLib sample_time :=
  @Build_CalendarLib sample_time (λ year month day hour minute second,
    if bool_decide ((year, month, day, hour, minute, second) = (2020, 5, 17, 8, 9, 10))
    then Some 1589702950 else None).

Section witnesses.
  #[local] Existing Instances checksum_codec sample_time sample_calendar sample_unicode
    export_zip export_cancellation export_observer.

Notation new_world := {| ew_open := ""; ew_left := "" |}.

Definition folder_albums : ApplePhotosScanConfig := {|
  asc_scan := asc_scan default_apple_scan; asc_max_archives := asc_max_archives default_apple_scan;
  asc_max_archive_entry_bytes := asc_max_archive_entry_bytes default_apple_scan;
  asc_max_compression_ratio := asc_max_compression_ratio default_apple_scan;
  asc_compression_ratio_grace_bytes := asc_compression_ratio_grace_bytes default_apple_scan;
  asc_album_mode := AlbumMode.Folder; asc_album_path_joiner := "-" |}.

Notation scan album inputs := (scan_apple_photos_inputs_resolved (W := ExportWorld)
  (H := export_fs album) inputs "export" folder_albums new_world).

(** A folder whose name is no album ends the scan. *)
Example apple_unusable_folder :
  match (scan "A\B" ["/t"]).1 with Err (ScanError.InvalidPlan _) => true | _ => false end = true.
Proof. vm_compute. reflexivity. Qed.

Lemma apple_scan_returns : ∃ r w, scan "Lake" ["/t"] = (r, w) ∧ found_albums r = Some [["Lake"]].
Proof. eexists _, _. split; [vm_compute; reflexivity|]. vm_compute. reflexivity. Qed.

Lemma apple_scan_valid_witness : ∃ r w,
  scan "Lake" ["/t"] = (r, w) ∧ found_albums r = Some [["Lake"]]
  ∧ apple_result folder_albums
      (find_apple (W := ExportWorld) (H := export_fs "Lake") ["/t"] "export" folder_albums new_world) r.
Proof.
  destruct apple_scan_returns as (r & w & Hs & Ha). exists r, w. split; [exact Hs|]. split; [exact Ha|].
  assert (0 <= fsc_max_entries (asc_scan folder_albums) < u64_max) as Hl by (vm_compute; split; congruence).
  exact (apple_scan_valid ["/t"] "export" folder_albums new_world r w Hl Hs).
Defined.
End witnesses.
