(* ===== verification/PicasaTheorems.v ===== *)
(** * PicasaTheorems: [.picasa.ini] documents and the plans they are applied to

    A document says exactly what its lines assign; a scan looks at the documents of
    its folders, or of its parts, and gives every asset what the document read for its
    folder says of it; and the plan is valid unless a folder has a name that is no
    album. *)
From Stdlib Require Import Ascii.
From stdpp Require Import gmap strings.
From S2P Require Export Picasa AppleTheorems.

(** ** What a document says *)

(** The assignments of a text: the section, key and value of each pair in order,
    without any check *)
Definition entry_of (section : option string) (line : string) : list (string * string * string) :=
  match split_once "=" line, section with
  | Some (key, value), Some section => [(section, trim key, trim value)]
  | _, _ => []
  end.

Fixpoint ini_entries (section : option string) (l : list string) : list (string * string * string) :=
  match l with
  | [] => []
  | raw_line :: l =>
    let line := trim raw_line in
    if is_empty line || starts_with ";" line || starts_with "#" line then ini_entries section l
    else if starts_with "[" line
    then ini_entries (Text.strip_prefix "[" line ≫= Text.strip_suffix "]") l
    else entry_of section line ++ ini_entries section l
  end.

(** The name of the folder's album, or the caption of a file *)
Definition names_album (section key : string) : bool :=
  eq_ignore_ascii_case section "Picasa" && eq_ignore_ascii_case key "name".
Definition is_caption (key : string) : bool := eq_ignore_ascii_case key "caption".

(** A document that says what some assignments say, with usable texts *)
Record describes (es : list (string * string * string)) (d : PicasaDocument) : Prop := {
  de_album a : pd_album d = Some a ↔ ∃ section key, (section, key, a) ∈ es ∧ names_album section key = true;
  de_caption file c : pd_captions d !! file = Some c ↔ ∃ key, (file, key, c) ∈ es ∧ is_caption key = true;
  de_album_valid a : pd_album d = Some a → valid_album a = true ∧ contains_byte "/" a = false;
  de_caption_valid file c : pd_captions d !! file = Some c → valid_text c 16384 true = true;
}.

Lemma name_no_caption key : eq_ignore_ascii_case key "name" = true → is_caption key = false.
Proof.
  unfold is_caption, eq_ignore_ascii_case. rewrite String.eqb_eq, String.eqb_neq. by intros ->.
Qed.

Lemma describes_nothing : describes [] (ini_document new_ini).
Proof.
  split; simpl; try done.
  - intros a. split; [done|]. by intros (? & ? & ?%elem_of_nil & _).
  - intros file c. rewrite lookup_empty. split; [done|]. by intros (? & ?%elem_of_nil & _).
Qed.

Lemma assign_Ok target value r :
  assign target value = Ok r →
  r = Some value ∧ valid_album value = true ∧ contains_byte "/" value = false
  ∧ (target = None ∨ target = Some value).
Proof.
  unfold assign. intros Hr. result_inv. repeat match goal with Hf : _ || _ = false |- _ =>
    apply orb_false_iff in Hf as [? ?] end.
  split_and!; [done| |done|].
  - unfold valid_album. rewrite !andb_true_iff, !negb_true_iff. split_and!; try done. lia.
  - destruct target as [a|]; [right|by left]. simpl in *.
    match goal with Hn : negb _ = false |- _ => apply negb_false_iff, String.eqb_eq in Hn; by subst end.
Qed.

(** An assignment of the album *)
Lemma describes_album es d section key value a :
  describes es d → names_album section key = true → assign (pd_album d) value = Ok a →
  describes (es ++ [(section, key, value)]) {| pd_album := a; pd_captions := pd_captions d |}.
Proof.
  intros [Ha Hc Hva Hvc] Hn (-> & Hval & Hslash & Hold)%assign_Ok. split; cbn [pd_album pd_captions].
  - intros b. split.
    + intros [= <-]. exists section, key. split; [|done]. apply elem_of_app. right. by left.
    + intros (s & k & [Hin|[= -> -> ->]%list_elem_of_singleton]%elem_of_app & Hb); [|done].
      assert (pd_album d = Some b) as Hb' by (apply Ha; by exists s, k).
      destruct Hold; congruence.
  - intros file c. rewrite Hc. split; intros (k & Hin & Hk); exists k; (split; [|done]).
    + apply elem_of_app. by left.
    + apply elem_of_app in Hin as [|[= -> -> ->]%list_elem_of_singleton]; [done|].
      apply andb_true_iff in Hn as [_ Hn%name_no_caption]. congruence.
  - by intros b [= <-].
  - done.
Qed.

Lemma ini_caption_Ok section value d d' :
  ini_caption section value d = Ok d' →
  d' = {| pd_album := pd_album d; pd_captions := <[section := value]> (pd_captions d) |}
  ∧ (default "" (pd_captions d !! section) = "" ∨ default "" (pd_captions d !! section) = value)
  ∧ value ≠ "" ∧ existsb (λ c, is_control c && negb (is_layout c)) (chars value) = false.
Proof.
  unfold ini_caption. intros Hr. result_inv.
  repeat match goal with Hf : _ || _ = false |- _ => apply orb_false_iff in Hf as [? ?] end.
  split_and!; [done| |by apply is_empty_false|done].
  match goal with Hf : _ && _ = false |- _ => apply andb_false_iff in Hf as [Hf|Hf];
    apply negb_false_iff in Hf end.
  - left. by apply is_empty_true.
  - right. by apply String.eqb_eq.
Qed.

(** An assignment of a caption *)
Lemma describes_caption es d section key value d' :
  describes es d → names_album section key = false → is_caption key = true → len value <= 16384 →
  ini_caption section value d = Ok d' → describes (es ++ [(section, key, value)]) d'.
Proof.
  intros [Ha Hc Hva Hvc] Hn Hk Hlen (-> & Hold & Hne & Hctl)%ini_caption_Ok.
  assert (∀ c, pd_captions d !! section = Some c → c = value) as Hsame.
  { intros c Hc0. pose proof (Hvc _ _ Hc0) as Hv. rewrite Hc0 in Hold. simpl in Hold.
    destruct Hold as [->|]; [|done]. done. }
  split; cbn [pd_album pd_captions].
  - intros a. rewrite Ha. split; intros (s & k & Hin & Hb); exists s, k; (split; [|done]).
    + apply elem_of_app. by left.
    + apply elem_of_app in Hin as [|[= -> -> ->]%list_elem_of_singleton]; [done|congruence].
  - intros file c. rewrite lookup_insert_Some. split.
    + intros [[-> ->]|[_ (k & Hin & Hkc)%Hc]].
      * exists key. split; [|done]. apply elem_of_app. right. by left.
      * exists k. split; [|done]. apply elem_of_app. by left.
    + intros (k & [Hin|[= -> -> ->]%list_elem_of_singleton]%elem_of_app & Hkc); [|by left].
      assert (pd_captions d !! file = Some c) as Hfc by (apply Hc; by exists k).
      destruct (decide (section = file)) as [->|]; [left|by right]. split; [done|]. symmetry. by apply Hsame.
  - done.
  - intros file c. rewrite lookup_insert_Some. intros [[-> ->]|[_ Hfc]]; [|by eapply Hvc].
    unfold valid_text. rewrite !andb_true_iff, !negb_true_iff. simpl. split_and!; try done; [|lia].
    by apply is_empty_false.
Qed.

(** Any other assignment *)
Lemma describes_other es d section key value :
  describes es d → names_album section key = false → is_caption key = false →
  describes (es ++ [(section, key, value)]) d.
Proof.
  intros [Ha Hc Hva Hvc] Hn Hk. split; [| |done|done].
  - intros a. rewrite Ha. split; intros (s & k & Hin & Hb); exists s, k; (split; [|done]).
    + apply elem_of_app. by left.
    + apply elem_of_app in Hin as [|[= -> -> ->]%list_elem_of_singleton]; [done|congruence].
  - intros file c. rewrite Hc. split; intros (k & Hin & Hkc); exists k; (split; [|done]).
    + apply elem_of_app. by left.
    + apply elem_of_app in Hin as [|[= -> -> ->]%list_elem_of_singleton]; [done|congruence].
Qed.

(** A pair of a section *)
Lemma ini_pair_describes es line s s' :
  describes es (ini_document s) → ini_pair line s = Ok s' →
  describes (es ++ entry_of (ini_section s) line) (ini_document s') ∧ ini_section s' = ini_section s.
Proof.
  intros Hd Hp. unfold ini_pair in Hp. apply bind_Ok in Hp as ([key value] & Hsplit%ok_or_Ok & Hp).
  apply bind_Ok in Hp as ([] & Hbounds%fail_if_Ok & Hp). apply bind_Ok in Hp as (section & Hsec%ok_or_Ok & Hp).
  apply bind_Ok in Hp as (document & Hdoc & [= <-]). split; [|done]. cbn [ini_document].
  unfold entry_of. rewrite Hsplit, Hsec. fold (names_album section (trim key)) in Hdoc.
  apply orb_false_iff in Hbounds as [_ Hlen]. rewrite Z.ltb_ge in Hlen.
  destruct (names_album section (trim key)) eqn:Hn.
  { apply bind_Ok in Hdoc as (a & Ha & [= <-]). by apply describes_album. }
  fold (is_caption (trim key)) in Hdoc. destruct (is_caption (trim key)) eqn:Hk.
  - by eapply describes_caption.
  - injection Hdoc as <-. by apply describes_other.
Qed.

Lemma ini_lines_describes l : ∀ index es s s',
  describes es (ini_document s) → ini_lines index l s = Ok s' →
  describes (es ++ ini_entries (ini_section s) l) (ini_document s').
Proof.
  induction l as [|raw l IH]; intros index es s s' Hd Hl; [injection Hl as <-; by rewrite app_nil_r|].
  apply bind_Ok in Hl as (s1 & Hline & Hl). unfold ini_line in Hline.
  apply bind_Ok in Hline as ([] & _ & Hline). cbn [ini_entries].
  destruct (is_empty (trim raw) || starts_with ";" (trim raw) || starts_with "#" (trim raw)).
  { injection Hline as <-. by eapply IH. }
  destruct (starts_with "[" (trim raw)).
  - unfold ini_header in Hline. apply bind_Ok in Hline as (name & Hname%ok_or_Ok & Hline). rewrite Hname.
    result_inv. by eapply (IH _ es) in Hl.
  - apply ini_pair_describes with (es := es) in Hline as [Hd1 Hsec]; [|done].
    eapply IH in Hl; [|exact Hd1]. by rewrite <- app_assoc, Hsec in Hl.
Qed.

(** A [.picasa.ini] that is accepted says exactly what its lines assign: the album
    is the value of the name in a section Picasa, the caption of a file the value of
    the caption in its section, and nothing else is kept; two lines that assign
    different values are refused.  What is kept can be written into a plan: the name
    is an album without a slash, a caption is a description. *)
Lemma parse_ini_describes bytes d :
  parse_ini bytes = Ok d → describes (ini_entries None (lines bytes)) d.
Proof.
  unfold parse_ini. intros Hp. apply bind_Ok in Hp as ([] & _ & Hp). apply bind_Ok in Hp as ([] & _ & Hp).
  apply bind_Ok in Hp as (s & Hs & [= <-]). by apply (ini_lines_describes _ 0 [] new_ini s describes_nothing).
Qed.

(** ** Plans with documents *)

(** The promises about the calendar: what it writes is UTC text that reads back. *)
Class CalendarLaws `{TimeLib, !CalendarLib} : Prop := {
  calendar_utc y mo d h mi s t text : utc_instant y mo d h mi s = Some t → format_rfc3339 t = Some text →
    ends_with "Z" text = true;
  calendar_reads_back t text : format_rfc3339 t = Some text →
    ∃ t', parse_rfc3339 text = Some t' ∧ format_rfc3339 t' = Some text;
}.

Section finish.
  Context `{UnicodeLib, Codec, TimeLib, !CalendarLib, !PlanJson, !CodecLaws, !CalendarLaws}.

Lemma filename_timestamp_canonical name text : filename_timestamp name = Some text → canonical_utc text = true.
Proof.
  unfold filename_timestamp. case_match; [done|]. intros Ht.
  repeat match goal with Hb : mbind _ _ = Some _ |- _ => apply bind_Some in Hb as (? & ? & Hb) end.
  destruct (calendar_reads_back _ _ Ht) as (t' & Hp & Hf). unfold canonical_utc. rewrite Hp. simpl.
  rewrite Hf. simpl. rewrite String.eqb_refl. by eapply calendar_utc.
Qed.

(** The metadata an asset of unknown metadata is given *)
Definition picasa_metadata (config : PicasaScanConfig) (document : option PicasaDocument) (path : string) :
    NormalizedMetadata := {|
  description := document ≫= λ doc, pd_captions doc !! filename path;
  taken_at_utc := if psc_filename_date config then filename_timestamp (filename path) else None;
  location := None;
  albums := sort_dedup String.compare
    (option_list (if psc_picasa_albums config then document ≫= pd_album else None)
     ++ option_list (folder_album path config)) |}.

Lemma apply_metadata_same config document a : same_asset a (apply_metadata config document a).
Proof.
  unfold apply_metadata. repeat case_match; by split.
Qed.

Lemma apply_metadata_normalized config document a :
  ca_normalized_metadata a = None →
  ca_normalized_metadata (apply_metadata config document a)
  = (let m := picasa_metadata config document (ca_relative_path a) in
     if bool_decide (m = default_metadata) then None else Some m).
Proof.
  intros Hn. unfold apply_metadata, picasa_metadata. rewrite Hn. simpl.
  destruct (document ≫= _) as [caption|]; destruct (psc_filename_date config);
    try destruct (filename_timestamp (filename (ca_relative_path a))); done.
Qed.

Lemma apply_metadata_evidence config document a :
  Forall (λ e, re_rule_id e ≠ "") (ca_evidence a) →
  Forall (λ e, re_rule_id e ≠ "") (ca_evidence (apply_metadata config document a)).
Proof.
  intros He. unfold apply_metadata. 
  repeat case_match; simplify_eq; cbn [set_asset_findings ca_evidence]; repeat apply add_evidence_ok; done.
Qed.

(** Documents whose texts can be written into a plan *)
Definition usable_document (d : PicasaDocument) : Prop :=
  (∀ a, pd_album d = Some a → valid_album a = true)
  ∧ ∀ file c, pd_captions d !! file = Some c → valid_text c 16384 true = true.

Definition documents_ok (d : Documents) : Prop :=
  ∀ directory document, do_parsed d !! directory = Some document → usable_document document.

Lemma insert_document_ok directory bytes d : documents_ok d → documents_ok (insert_document directory bytes d).
Proof.
  intros Hd. unfold insert_document. destruct (parse_ini bytes) as [document|e] eqn:Hp; [|done].
  destruct (do_parsed d !! directory); [done|]. intros x document'. cbn [do_parsed].
  rewrite lookup_insert_Some. intros [[-> <-]|[_ Hx]]; [|by eapply Hd].
  apply parse_ini_describes in Hp as [_ _ Ha Hc].
  split; [|done]. intros a. apply Ha.
Qed.

Lemma picasa_metadata_valid config document path :
  (∀ d, document = Some d → usable_document d) →
  is_valid (picasa_metadata config document path) = true
  ↔ ∀ album, folder_album path config = Some album → valid_album album = true.
Proof.
  intros Hd. rewrite is_valid_iff. unfold picasa_metadata. cbn [albums]. split.
  - intros (_ & Ha & _) album Hf. apply Forall_sort_dedup, Forall_app in Ha as [_ Ha].
    rewrite Hf in Ha. by apply Forall_cons in Ha as [? _].
  - intros Hf. split_and!.
    + unfold scalars_valid. cbn [description taken_at_utc location]. rewrite !andb_true_r, andb_true_iff. split.
      * destruct document as [d|]; [|done]. simpl. destruct (pd_captions d !! _) eqn:Hc; [|done].
        by apply (proj2 (Hd d eq_refl)) in Hc.
      * destruct (psc_filename_date config); [|done]. destruct (filename_timestamp _) eqn:Ht; [|done].
        by apply filename_timestamp_canonical in Ht.
    + apply Forall_sort_dedup, Forall_app. split.
      * destruct (psc_picasa_albums config); [|constructor]. destruct document as [d|]; [|constructor]. simpl.
        destruct (pd_album d) eqn:Ha; repeat constructor. by apply (proj1 (Hd d eq_refl)).
      * destruct (folder_album path config); repeat constructor. by apply Hf.
    + apply sort_dedup_str_lt.
Qed.

(** What an asset [a] is in the finished plan, when the folders have these documents *)
Definition picasa_asset (config : PicasaScanConfig) (document_of : string → option PicasaDocument)
    (a b : CandidateAsset) : Prop :=
  same_asset a b
  ∧ ca_normalized_metadata b
    = let m := picasa_metadata config (document_of (parent (ca_relative_path a))) (ca_relative_path a) in
      if bool_decide (m = default_metadata) then None else Some m.

Lemma apply_metadata_valid config documents a :
  documents_ok documents → ca_normalized_metadata a = None →
  (∀ n, ca_normalized_metadata (apply_metadata config (do_parsed documents !! parent (ca_relative_path a)) a) = Some n →
        is_valid n = true)
  ↔ ∀ album, folder_album (ca_relative_path a) config = Some album → valid_album album = true.
Proof.
  intros Hd Hn. rewrite apply_metadata_normalized by done. cbv zeta.
  rewrite <- (picasa_metadata_valid config (do_parsed documents !! parent (ca_relative_path a)))
    by (intros d; apply Hd).
  case_bool_decide as Hm; split; [by rewrite Hm|done|intros Hv; by apply Hv|by intros Hv n [= <-]].
Qed.

(** What finishing does *)
Lemma picasa_finish_spec resolved config documents :
  plan_well_formed (rfp_plan resolved) → np_schema_version (rfp_plan resolved) ≠ 1 →
  Forall (λ a, ca_normalized_metadata a = None) (np_assets (rfp_plan resolved)) → documents_ok documents →
  match picasa_finish resolved config documents with
  | Ok r =>
    plan_well_formed (rfp_plan r) ∧ rfp_files r = rfp_files resolved
    ∧ Forall2 (picasa_asset config (λ d, do_parsed documents !! d))
        (np_assets (rfp_plan resolved)) (np_assets (rfp_plan r))
    ∧ (∀ d, d ∈ np_errors (rfp_plan r) ↔ d ∈ np_errors (rfp_plan resolved) ∨ d ∈ do_errors documents)
  | Err (ScanError.InvalidPlan _) =>
    ∃ a album, a ∈ np_assets (rfp_plan resolved) ∧ folder_album (ca_relative_path a) config = Some album
      ∧ valid_album album = false
  | Err e => e = ScanError.InvalidConfiguration "Picasa identity serialization failed"
  end.
Proof.
  intros Hwf Hv Hnone Hd. unfold picasa_finish. cbv zeta. unfold picasa_fingerprint.
  set (f := λ a, apply_metadata config (do_parsed documents !! parent (ca_relative_path a)) a).
  set (errors := sort_dedup _ _). destruct (json_findings _ _ _) as [bytes|]; simpl; [|done].
  set (fp := sha256_hex _). pose proof Hwf as [_ _ _ Hassets _ _ _ _ _ _]. rewrite Forall_forall in Hassets, Hnone.
  pose proof (set_plan_well_formed f (rfp_plan resolved) errors fp Hwf Hv (sha256_hex_64 _)
    (strict_sorted_le _ (sort_dedup_strict _ _)) (λ a _, apply_metadata_same config _ a)
    (λ a Hin, apply_metadata_evidence config _ a (awf_evidence _ _ (Hassets a Hin)))) as Hset.
  rewrite <- normalized_validate_Ok in Hset.
  destruct (Planning.validate _) as [[]|v] eqn:Hval; simpl.
  - split_and!; [by apply normalized_validate_Ok|done| |].
    + cbn [rfp_plan set_plan np_assets]. apply Forall2_fmap_r, Forall_Forall2_diag, Forall_forall.
      intros a Ha. change (picasa_asset config (λ d, do_parsed documents !! d) a (f a)). split; [apply apply_metadata_same|]. apply apply_metadata_normalized. by apply Hnone.
    + intros d. cbn [rfp_plan set_plan np_errors]. unfold errors. rewrite (elem_of_sort_dedup diagnostic_compare), elem_of_app.
      done.
  - destruct (usable_folders (λ a, folder_album (ca_relative_path a) config) (np_assets (rfp_plan resolved)))
      as [Hall|Hbad]; [|done]. exfalso.
    cut (Err v = Ok tt :> result PlanValidationError.t unit); [done|]. apply Hset. intros a n Ha. apply apply_metadata_valid; [done|by apply Hnone|]. intros album. by apply Hall.
Qed.
End finish.

(** ** The documents of folders

    What a scan saw of a folder's document; [IniRefused] is no regular file. *)
Inductive IniSeen := IniMissing | IniRefused | IniBytes (bytes : string).

(** The document, when there is one and it reads well *)
Definition usable_ini (o : IniSeen) : option PicasaDocument :=
  match o with
  | IniBytes bytes => match parse_ini bytes with Ok document => Some document | Err _ => None end
  | _ => None
  end.

(** The document of a folder is the first one seen there that reads well. *)
Fixpoint document_of (seen : list (string * IniSeen)) (directory : string) : option PicasaDocument :=
  match seen with
  | [] => None
  | (d, o) :: seen =>
    if decide (d = directory) then
      match usable_ini o with Some document => Some document | None => document_of seen directory end
    else document_of seen directory
  end.

(** Another document was seen in the folder, or one that does not read well. *)
Definition refused (seen : list (string * IniSeen)) (directory : string) : Prop :=
  ∃ before o after, seen = before ++ (directory, o) :: after ∧ o ≠ IniMissing
    ∧ (usable_ini o = None ∨ is_Some (document_of before directory)).

Definition ini_diagnostic (directory : string) : PlanDiagnostic :=
  diagnostic rule_id.PICASA_INI_INVALID "invalid_picasa_ini" [if is_empty directory then "." else directory].

(** The documents kept are those of what was seen, and the errors its refusals. *)
Definition documents_are (seen : list (string * IniSeen)) (d : Documents) : Prop :=
  (∀ directory, do_parsed d !! directory = document_of seen directory)
  ∧ ∀ e, e ∈ do_errors d ↔ ∃ directory, refused seen directory ∧ e = ini_diagnostic directory.

Lemma document_of_snoc seen d o directory :
  document_of (seen ++ [(d, o)]) directory
  = match document_of seen directory with
    | Some document => Some document
    | None => if decide (d = directory) then usable_ini o else None
    end.
Proof.
  induction seen as [|[d' o'] seen IH]; simpl.
  - case_decide; [|done]. by destruct (usable_ini o).
  - destruct (decide (d' = directory)); [by destruct (usable_ini o')|exact IH].
Qed.

Lemma refused_snoc seen d o directory :
  refused (seen ++ [(d, o)]) directory
  ↔ refused seen directory
    ∨ directory = d ∧ o ≠ IniMissing ∧ (usable_ini o = None ∨ is_Some (document_of seen directory)).
Proof.
  split.
  - intros (before & x & after & Heq & Hx & Hr). destruct after as [|y after _] using rev_ind.
    + apply app_inj_tail in Heq as [-> [= -> ->]]. by right.
    + rewrite app_comm_cons, app_assoc in Heq. apply app_inj_tail in Heq as [-> _].
      left. by exists before, x, after.
  - intros [(before & x & after & -> & Hx & Hr)|(-> & Ho & Hr)].
    + exists before, x, (after ++ [(d, o)]). split_and!; [by rewrite <- app_assoc|done|done].
    + by exists seen, o, [].
Qed.

Lemma documents_are_nil : documents_are [] no_documents.
Proof.
  split; [done|]. intros e. split; [by intros ?%elem_of_nil|].
  by intros (d & ([] & ? & ? & ? & _) & _).
Qed.

Lemma document_of_missing seen d directory : document_of (seen ++ [(d, IniMissing)]) directory = document_of seen directory.
Proof. rewrite document_of_snoc. destruct (document_of seen directory); [done|]. by case_decide. Qed.

Lemma documents_are_missing seen d directory :
  documents_are seen d → documents_are (seen ++ [(directory, IniMissing)]) d.
Proof.
  intros [Hp He]. split; [intros x; by rewrite Hp, document_of_missing|].
  intros e. rewrite He. setoid_rewrite refused_snoc. naive_solver.
Qed.

Lemma documents_are_invalid seen d directory o :
  documents_are seen d → o ≠ IniMissing →
  usable_ini o = None ∨ is_Some (document_of seen directory) →
  documents_are (seen ++ [(directory, o)]) (invalid_document directory d).
Proof.
  intros [Hp He] Ho Hr. split.
  - intros x. cbn [invalid_document do_parsed]. rewrite Hp, document_of_snoc.
    destruct (document_of seen x) eqn:Hx; [done|]. case_decide; [|done]. subst x.
    destruct Hr as [->|[? Hs]]; [done|congruence].
  - intros e. cbn [invalid_document do_errors]. rewrite elem_of_app, He, list_elem_of_singleton.
    setoid_rewrite refused_snoc. fold (ini_diagnostic directory). naive_solver.
Qed.

Lemma documents_are_insert seen d directory bytes :
  documents_are seen d → documents_are (seen ++ [(directory, IniBytes bytes)]) (insert_document directory bytes d).
Proof.
  intros Hd. pose proof Hd as [Hp He]. unfold insert_document.
  destruct (parse_ini bytes) as [document|e] eqn:Hparse.
  2:{ apply documents_are_invalid; [done..|]. left. simpl. by rewrite Hparse. }
  destruct (do_parsed d !! directory) eqn:Hold; rewrite Hp in Hold.
  { apply documents_are_invalid; [done..|]. right. by eexists. }
  assert (usable_ini (IniBytes bytes) = Some document) as Hu by (simpl; by rewrite Hparse).
  split; cbn [do_parsed do_errors].
  - intros x. rewrite document_of_snoc, Hu. destruct (decide (directory = x)) as [<-|Hne].
    + by rewrite lookup_insert_eq, Hold.
    + rewrite lookup_insert_ne, Hp by done. by destruct (document_of seen x).
  - intros e. rewrite He. setoid_rewrite refused_snoc. rewrite Hu.
    split; [naive_solver|]. intros (x & [?|(-> & _ & [?|[? Hs]])] & ->); [by exists x|done|congruence].
Qed.

(** A document that was seen says what its lines say. *)
Lemma document_of_describes seen directory document :
  document_of seen directory = Some document →
  ∃ bytes, (directory, IniBytes bytes) ∈ seen ∧ parse_ini bytes = Ok document.
Proof.
  induction seen as [|[d o] seen IH]; simpl; [done|]. intros Hd.
  assert (document_of seen directory = Some document →
    ∃ bytes, (directory, IniBytes bytes) ∈ (d, o) :: seen ∧ parse_ini bytes = Ok document) as Hlater.
  { intros (bytes & ? & ?)%IH. exists bytes. split; [by right|done]. }
  case_decide as Heq; [|by apply Hlater]. subst d.
  destruct o as [| |bytes]; simpl in Hd; [by apply Hlater..|].
  destruct (parse_ini bytes) eqn:Hp; [|by apply Hlater]. injection Hd as <-. exists bytes. split; [left|done].
Qed.

(** *** What was read *)

Section seen.
  Context {W : Type} `{ScanFs W, ZipReader W, Cancellation W, !UnicodeLib}.

(** At most [n] bytes are read, until there are enough or the file ends. *)
Inductive taken (read : Z → W → option string * W) : Z → W → string → W → Prop :=
  | taken_enough n w : n <= 0 → taken read n w "" w
  | taken_end n w w' : 0 < n → read n w = (Some "", w') → taken read n w "" w'
  | taken_more n w chunk w1 content w' : 0 < n → read n w = (Some chunk, w1) → chunk ≠ "" →
      taken read (n - len chunk) w1 content w' → taken read n w (chunk +:+ content) w'.

(** A whole document, which is never longer than the limit *)
Definition whole_document (read : Z → W → option string * W) (w : W) (bytes : string) (w' : W) : Prop :=
  taken read (MAX_INI_BYTES + 1) w bytes w' ∧ len bytes <= MAX_INI_BYTES.

Definition ini_path (root directory : string) : string :=
  path_join (path_join root directory) ".picasa.ini".

(** A look at the document of a folder of a directory *)
Inductive folder_seen (root : string) (w : W) (directory : string) : list (string * IniSeen) → W → Prop :=
  | folder_missing w' :
      sf_symlink_metadata (ini_path root directory) w = (None, w') →
      folder_seen root w directory [(directory, IniMissing)] w'
  | folder_irregular metadata w' :
      sf_symlink_metadata (ini_path root directory) w = (Some metadata, w') →
      sm_type metadata ≠ FileType.File →
      folder_seen root w directory [(directory, IniRefused)] w'
  | folder_bytes metadata w1 w2 bytes w' :
      sf_symlink_metadata (ini_path root directory) w = (Some metadata, w1) →
      sm_type metadata = FileType.File →
      sf_open (ini_path root directory) w1 = (true, w2) → whole_document sf_read w2 bytes w' →
      folder_seen root w directory [(directory, IniBytes bytes)] w'.

(** A look at an entry of a part; only documents are read. *)
Definition entry_seen (config : PicasaScanConfig) (w : W) (index : Z) (seen : list (string * IniSeen)) (w' : W) :
    Prop :=
  ∃ w1 entry w2 path, is_cancelled w = (false, w1) ∧ zip_by_index index w1 = (Some entry, w2)
    ∧ portable_entry_path entry (fsc_max_path_bytes (psc_scan config)) = Ok path
    ∧ if eq_ignore_ascii_case (filename path) ".picasa.ini"
      then ∃ bytes, whole_document zip_read w2 bytes w' ∧ seen = [(parent path, IniBytes bytes)]
      else seen = [] ∧ w' = w2.

(** Looks at one thing after the other *)
Inductive visited {A} (look : W → A → list (string * IniSeen) → W → Prop) :
    W → list A → list (string * IniSeen) → W → Prop :=
  | visited_nil w : visited look w [] [] w
  | visited_cons w x seen w1 xs more w' :
      look w x seen w1 → visited look w1 xs more w' → visited look w (x :: xs) (seen ++ more) w'.

(** A part is opened, and all its entries are looked at in their order. *)
Definition part_seen (config : PicasaScanConfig) (w : W) (input : string) (seen : list (string * IniSeen))
    (w' : W) : Prop :=
  ∃ w1 n w2, sf_open input w = (true, w1) ∧ zip_new w1 = (Some n, w2)
    ∧ visited (entry_seen config) w2 (seqZ 0 n) seen w'.

(** The looks of a scan whose plan is made: at the folders of its assets, each once, or
    at all entries of its parts *)
Definition documents_seen (config : PicasaScanConfig) (inputs : list string) (root : option string)
    (plan : NormalizedPlan) (w : W) (seen : list (string * IniSeen)) (w' : W) : Prop :=
  match root with
  | Some root =>
    visited (folder_seen root) w
      (sort_dedup String.compare (map (λ a, parent (ca_relative_path a)) (np_assets plan))) seen w'
  | None => visited (part_seen config) w inputs seen w'
  end.

Lemma read_to_end_taken read : ∀ fuel remaining content (w : W) bytes w',
  read_to_end fuel read remaining content w = Some (Some bytes, w') →
  ∃ rest, bytes = content +:+ rest ∧ taken read remaining w rest w'.
Proof.
  induction fuel as [|fuel IH]; intros n content w bytes w'; [done|]. cbn [read_to_end].
  destruct (Z.leb_spec n 0).
  { intros [= <- <-]. exists "". rewrite str_app_nil_r. split; [done|by apply taken_enough]. }
  destruct (read n w) as [[chunk|] w1] eqn:Hr; [|done]. destruct (is_empty chunk) eqn:He.
  { intros [= <- <-]. apply is_empty_true in He as ->. exists "". rewrite str_app_nil_r.
    split; [done|by apply taken_end]. }
  intros (rest & -> & Hrest)%IH. exists (chunk +:+ rest). rewrite str_app_assoc. split; [done|].
  eapply taken_more; [done|exact Hr|by apply is_empty_false|done].
Qed.

Lemma read_bounded_whole read (w : W) bytes w' :
  read_bounded read w = (Ok bytes, w') → whole_document read w bytes w'.
Proof.
  unfold read_bounded. intros (b & w1 & Hr & Hb)%io_bind_Ok.
  apply io_bind_Ok in Hb as ([] & w2 & [Hl%fail_if_Ok <-]%lift_Ok & [= <- <-]).
  unfold ok_or_archive in Hr. destruct (read_to_end _ read _ "" w) as [[[content|] w3]|] eqn:Hread;
    simpl in Hr; [|done..].
  injection Hr as <- <-. apply read_to_end_taken in Hread as (rest & -> & Ht). split; [exact Ht|].
  apply Z.ltb_ge in Hl. exact Hl.
Qed.

(** A loop over documents keeps what was seen. *)
Lemma fold_visited {A} (look : W → A → list (string * IniSeen) → W → Prop)
    (f : Documents → A → io W ScanError.t Documents) :
  (∀ before d x w d' w', documents_are before d → f d x w = (Ok d', w') →
    ∃ seen, look w x seen w' ∧ documents_are (before ++ seen) d') →
  ∀ l before d w d' w', documents_are before d → fold_io f l d w = (Ok d', w') →
  ∃ seen, visited look w l seen w' ∧ documents_are (before ++ seen) d'.
Proof.
  intros Hf l. induction l as [|x l IH]; intros before d w d' w' Hd.
  { intros [= <- <-]. exists []. split; [constructor|by rewrite app_nil_r]. }
  intros (d1 & w1 & Hx & Hl)%io_bind_Ok. apply (Hf before) in Hx as (seen & Hlook & Hd1); [|done].
  apply (IH (before ++ seen)) in Hl as (more & Hmore & Hd'); [|done].
  exists (seen ++ more). split; [by econstructor|by rewrite app_assoc].
Qed.

Lemma directory_documents_seen root plan (w : W) d w' :
  directory_documents root plan w = (Ok d, w') →
  ∃ seen, visited (folder_seen root) w
      (sort_dedup String.compare (map (λ a, parent (ca_relative_path a)) (np_assets plan))) seen w'
    ∧ documents_are seen d.
Proof.
  unfold directory_documents. apply (fold_visited (folder_seen root)) with (before := []); [|apply documents_are_nil].
  clear. intros before d directory w d' w' Hd. unfold directory_document. fold (ini_path root directory).
  destruct (sf_symlink_metadata _ w) as [[metadata|] w1] eqn:Hm.
  2:{ intros [= <- <-]. eexists. split; [by apply folder_missing|by apply documents_are_missing]. }
  destruct (bool_decide_reflect (sm_type metadata = FileType.File)) as [Ht|Ht]; simpl.
  2:{ intros [= <- <-]. eexists. split; [by eapply folder_irregular|by apply documents_are_invalid; [..|left]]. }
  destruct (sf_open _ w1) as [[] w2] eqn:Ho; [|done].
  intros (bytes & w3 & Hb%read_bounded_whole & [= <- <-])%io_bind_Ok.
  eexists. split; [by eapply folder_bytes|by apply documents_are_insert].
Qed.

Lemma archive_documents_seen inputs config (w : W) d w' :
  archive_documents inputs config w = (Ok d, w') →
  ∃ seen, visited (part_seen config) w inputs seen w' ∧ documents_are seen d.
Proof.
  unfold archive_documents. apply (fold_visited (part_seen config)) with (before := []); [|apply documents_are_nil].
  clear. intros before d input w d' w' Hd ([] & w1 & Ho & Hr)%io_bind_Ok.
  apply io_bind_Ok in Hr as (n & w2 & Hn & Hr).
  apply (fold_visited (entry_seen config)) with (before := before) in Hr as (seen & Hv & Hd'); [| |done].
  - exists seen. split; [|done]. exists w1, n, w2. unfold ok_or_archive in Ho, Hn.
    destruct (sf_open input w) as [[] ?]; [|done]. destruct (zip_new w1) as [[] ?]; [|done].
    simplify_eq/=. done.
  - clear. intros before d index w d' w' Hd ([] & w1 & Hc%scan_not_cancelled & Hr)%io_bind_Ok.
    apply io_bind_Ok in Hr as (entry & w2 & He & Hr).
    apply io_bind_Ok in Hr as (path & w3 & [Hp <-]%lift_Ok & Hr). unfold ok_or_archive in He.
    destruct (zip_by_index index w1) as [[entry'|] w4] eqn:Hz; simplify_eq/=.
    destruct (eq_ignore_ascii_case (filename path) ".picasa.ini") eqn:Hname; simpl in Hr.
    + apply io_bind_Ok in Hr as ([] & w5 & [_ <-]%lift_Ok & Hr).
      apply io_bind_Ok in Hr as (bytes & w6 & Hb%read_bounded_whole & [= <- <-]).
      exists [(parent path, IniBytes bytes)]. split; [|by apply documents_are_insert].
      exists w1, entry, w2, path. rewrite Hname. split_and!; [done..|by exists bytes].
    + injection Hr as <- <-. exists []. split; [|by rewrite app_nil_r].
      exists w1, entry, w2, path. by rewrite Hname.
Qed.
End seen.

(** ** Whole scans *)

Section scan.
  Context {W : Type} `{ScanFs W, ZipReader W, Cancellation W, ScanObserver W}.
  Context `{UnicodeLib, Codec, TimeLib, !CalendarLib, !PlanJson, !CodecLaws, !CalendarLaws}.

(** Reading a document ends: each chunk is not empty, or is the last. *)
Lemma read_to_end_returns read : ∀ fuel remaining content (w : W),
  (Z.to_nat remaining < fuel)%nat → is_Some (read_to_end fuel read remaining content w).
Proof.
  induction fuel as [|fuel IH]; intros remaining content w Hf; [lia|]. simpl.
  destruct (Z.leb_spec remaining 0); [done|]. destruct (read remaining w) as [[chunk|] w']; [|done].
  destruct (is_empty chunk) eqn:He; [done|]. apply len_pos in He. apply IH. lia.
Qed.

(** What a computation returns, and how it fails otherwise *)
Definition ends {A} (P : A → Prop) (m : io W ScanError.t A) : Prop := ∀ w r w',
  m w = (r, w') → match r with Ok a => P a | Err e => not_plan e end.

Lemma ends_bind {A B} (P : A → Prop) (Q : B → Prop) (m : io W ScanError.t A) k :
  ends P m → (∀ a, P a → ends Q (k a)) → ends Q (a ← m; k a).
Proof.
  intros Hm Hk w r w'. unfold mbind, io_bind. destruct (m w) as [[a|e] w1] eqn:Hr; apply Hm in Hr.
  - by apply Hk.
  - by intros [= <- _].
Qed.

Lemma ends_ret {A} (P : A → Prop) a : P a → ends P (mret a).
Proof. by intros Ha w r w' [= <- _]. Qed.

Lemma ends_errors {A} (m : io W ScanError.t A) : errors_in not_plan m → ends (λ _, True) m.
Proof. intros Hm w [a|e] w' Hr; [done|by eapply Hm]. Qed.

Lemma ends_fold {A S} (P : S → Prop) (f : S → A → io W ScanError.t S) l : ∀ s,
  (∀ s x, P s → ends P (f s x)) → P s → ends P (fold_io f l s).
Proof.
  induction l as [|x l IH]; intros s Hf Hs; [by apply ends_ret|].
  apply (ends_bind P); [by apply Hf|intros s' Hs'; by apply IH].
Qed.

Lemma read_bounded_ends read : ends (λ _, True) (read_bounded read).
Proof.
  apply (ends_bind (λ _, True)); [apply ends_errors, errors_in_archive|intros bytes _].
  apply (ends_bind (λ _, True)); [apply ends_errors; by apply errors_in_fail_if|intros _ _].
  by apply ends_ret.
Qed.

Lemma invalid_document_ok directory d : documents_ok d → documents_ok (invalid_document directory d).
Proof. done. Qed.

Lemma directory_documents_ends root plan : ends documents_ok (directory_documents root plan).
Proof.
  apply ends_fold; [|by intros ? ? ?]. intros d parent_value Hd w r w'. unfold directory_document.
  destruct (sf_symlink_metadata _ w) as [[m|] w1]; [|by intros [= <- _]].
  case_bool_decide; simpl; [|by intros [= <- _]].
  destruct (sf_open _ w1) as [[] w2]; [|by intros [= <- _]].
  apply (ends_bind (λ _, True)); [apply read_bounded_ends|intros bytes _].
  by apply ends_ret, insert_document_ok.
Qed.

Lemma archive_documents_ends inputs config : ends documents_ok (archive_documents inputs config).
Proof.
  apply ends_fold; [|by intros ? ? ?]. intros d input Hd.
  apply (ends_bind (λ _, True)); [apply ends_errors, errors_in_archive|intros _ _].
  apply (ends_bind (λ _, True)); [apply ends_errors, errors_in_archive|intros n _].
  apply ends_fold; [|done]. clear d Hd. intros d index Hd.
  apply (ends_bind (λ _, True)); [apply ends_errors; by apply errors_in_cancelled|intros _ _].
  apply (ends_bind (λ _, True)); [apply ends_errors, errors_in_archive|intros entry _].
  apply (ends_bind (λ _, True)); [apply ends_errors, errors_in_lift, portable_entry_path_Err|intros path _].
  destruct (negb _); [by apply ends_ret|].
  apply (ends_bind (λ _, True)); [apply ends_errors, errors_in_lift, validate_entry_Err|intros _ _].
  apply (ends_bind (λ _, True)); [apply read_bounded_ends|intros bytes _].
  by apply ends_ret, insert_document_ok.
Qed.

(** *** The plan before its documents *)

(** A plan that was resolved from the files of a fresh state *)
Record picasa_base (s : ScanState) (base : ResolvedFolderPlan) : Prop := {
  pb_valid : plan_well_formed (rfp_plan base);
  pb_schema : np_schema_version (rfp_plan base) ≠ 1;
  pb_unknown : Forall (λ a, ca_normalized_metadata a = None) (np_assets (rfp_plan base));
  pb_paths a : a ∈ np_assets (rfp_plan base) →
    ∃ m, m ∈ ss_media (reconcile s) ∧ ca_relative_path a = dm_relative_path m;
  pb_sources a plan : a ∈ np_assets (rfp_plan base) → ∃ f,
    source_for {| rfp_plan := plan; rfp_files := rfp_files base |}
      (ca_relative_path a) (ca_byte_len a) (ca_content_sha256 a) = Ok f;
}.

Lemma picasa_base_of s label config :
  fresh s → label ≠ "" →
  match finish_resolved (plan_of ArchiveFlavor.Picasa label config s) (resolved_files (reconcile s)) with
  | Ok base => picasa_base s base
  | Err (ScanError.InvalidPlan _) => id_collision (ss_media (reconcile s))
  | Err _ => True
  end.
Proof.
  intros Hf Hl. pose proof (plan_of_well_formed ArchiveFlavor.Picasa label config s Hf Hl) as Hwf.
  unfold finish_resolved. destruct (Planning.validate _) as [[]|v] eqn:Hv; simpl.
  - split; cbn [rfp_plan rfp_files]; [by apply normalized_validate_Ok|apply plan_of_schema| | |].
    + rewrite Forall_forall. intros a Ha. by apply (plan_of_assets ArchiveFlavor.Picasa label config s _ Hf) in Ha as (? & _).
    + intros a Ha. by apply (plan_of_assets ArchiveFlavor.Picasa label config s _ Hf) in Ha as (_ & ? & _).
    + intros a plan Ha. by apply (plan_of_assets ArchiveFlavor.Picasa label config s _ Hf) in Ha as (_ & _ & ?).
  - destruct Hwf as [Hwf%normalized_validate_Ok|]; [congruence|done].
Qed.

(** A folder of a found file whose name is no album *)
Definition unusable_picasa_folder (config : PicasaScanConfig) (s : ScanState) : Prop :=
  ∃ m album, m ∈ ss_media (reconcile s) ∧ folder_album (dm_relative_path m) config = Some album
    ∧ valid_album album = false.

(** Why a scan of found files fails with an invalid plan *)
Definition picasa_failed (config : PicasaScanConfig) (found : result ScanError.t ScanState * W)
    (r : result ScanError.t ResolvedFolderPlan) : Prop :=
  match r with
  | Err (ScanError.InvalidPlan _) => ∃ s w, found = (Ok s, w)
      ∧ (id_collision (ss_media (reconcile s)) ∨ unusable_picasa_folder config s)
  | _ => True
  end.

(** What a scan makes of the plan made before the documents, and of the documents it
    saw after it *)
Definition picasa_applied (config : PicasaScanConfig) (inputs : list string)
    (made : result ScanError.t (option string * ResolvedFolderPlan) * W)
    (r : result ScanError.t ResolvedFolderPlan) : Prop :=
  match r with
  | Ok resolved => ∃ root plan w1 seen w2, made = (Ok (root, plan), w1)
      ∧ documents_seen config inputs root (rfp_plan plan) w1 seen w2
      ∧ (∀ directory document, document_of seen directory = Some document →
           ∃ bytes, (directory, IniBytes bytes) ∈ seen ∧ describes (ini_entries None (lines bytes)) document)
      ∧ Forall2 (picasa_asset config (document_of seen)) (np_assets (rfp_plan plan)) (np_assets (rfp_plan resolved))
      ∧ (∀ e, e ∈ np_errors (rfp_plan resolved)
          ↔ e ∈ np_errors (rfp_plan plan) ∨ ∃ directory, refused seen directory ∧ e = ini_diagnostic directory)
      ∧ plan_well_formed (rfp_plan resolved)
      ∧ ∀ a, a ∈ np_assets (rfp_plan resolved) →
          ∃ f, source_for resolved (ca_relative_path a) (ca_byte_len a) (ca_content_sha256 a) = Ok f
  | _ => True
  end.

(** Finishing a plan of found files *)
Lemma picasa_finished config inputs root s base documents seen (w w1 w2 : W) :
  picasa_base s base → documents_ok documents →
  documents_seen config inputs root (rfp_plan base) w1 seen w2 → documents_are seen documents →
  picasa_failed config (Ok s, w) (picasa_finish base config documents)
  ∧ picasa_applied config inputs (Ok (root, base), w1) (picasa_finish base config documents).
Proof.
  intros [Hwf Hv Hnone Hpaths Hsources] Hd Hseen [Hdocs Herrs].
  pose proof (picasa_finish_spec base config documents Hwf Hv Hnone Hd) as Hfin.
  destruct (picasa_finish base config documents) as [r|e].
  - split; [done|]. destruct Hfin as (Hr & Hfiles & Hall & Herr). exists root, base, w1, seen, w2. split_and!; try done.
    { intros directory document (bytes & Hin & Hp)%document_of_describes. exists bytes.
      split; [done|]. by apply parse_ini_describes. }
    { eapply Forall2_impl; [exact Hall|]. intros a b. unfold picasa_asset. by rewrite Hdocs. }
    { intros e. by rewrite Herr, Herrs. }
    intros b [i Hb]%list_elem_of_lookup. destruct (Forall2_lookup_r _ _ _ _ _ Hall Hb) as (a & Ha & Hsame & _).
    apply list_elem_of_lookup_2 in Ha. destruct (Hsources a (rfp_plan r) Ha) as [f Hf]. exists f.
    rewrite (sa_path _ _ Hsame), (sa_len _ _ Hsame), (sa_content _ _ Hsame).
    unfold source_for, source_file in *. cbn [rfp_files] in Hf. rewrite Hfiles. exact Hf.
  - split; [|done]. destruct e; try done. destruct Hfin as (a & album & Ha & Hf & Hbad).
    destruct (Hpaths a Ha) as (m & Hm & Hp). exists s, w. split; [done|]. right. exists m, album.
    by rewrite <- Hp.
Qed.

(** Steps of a computation that is known to fail, or to go on *)
Lemma io_bind_then {A B} (m : io W ScanError.t A) (k : A → io W ScanError.t B) w a w1 :
  m w = (Ok a, w1) → (a ← m; k a) w = k a w1.
Proof. intros Hm. unfold mbind, io_bind. by rewrite Hm. Qed.

Lemma picasa_failed_error config found e : not_plan e → picasa_failed config found (Err e).
Proof. intros He. destruct e; try done. exfalso. by apply (He error). Qed.

(** The plan of a directory, and of parts, before a document is read *)
Definition directory_plan (label : string) (config : PicasaScanConfig) (root : string) :
    io W ScanError.t (option string * ResolvedFolderPlan) :=
  resolved ← scan_resolved_internal root label (psc_scan config) PICASA_SCAN; mret (Some root, resolved).

Definition parts_plan (label : string) (config : PicasaScanConfig) (inputs : list string) :
    io W ScanError.t (option string * ResolvedFolderPlan) :=
  resolved ← scan_picasa_archives_resolved inputs label (as_archive_config config); mret (None, resolved).

(** The end of both: [base] makes the plan of the files that [found] finds, [read]
    reads its documents. *)
Lemma picasa_scan_end config inputs root (found : io W ScanError.t ScanState)
    (base : io W ScanError.t ResolvedFolderPlan) read w r w' :
  (∀ w, match found w with
        | (Ok s, _) => match (base w).1 with
                       | Ok resolved => picasa_base s resolved
                       | Err (ScanError.InvalidPlan _) => id_collision (ss_media (reconcile s))
                       | Err _ => True
                       end
        | (Err e, _) => (base w).1 = Err e ∧ not_plan e
        end) →
  (∀ resolved, ends documents_ok (read resolved)) →
  (∀ resolved w1 documents w2, read resolved w1 = (Ok documents, w2) →
    ∃ seen, documents_seen config inputs root (rfp_plan resolved) w1 seen w2 ∧ documents_are seen documents) →
  (resolved ← base; documents ← read resolved; lift (picasa_finish resolved config documents)) w = (r, w') →
  picasa_failed config (found w) r
  ∧ picasa_applied config inputs ((resolved ← base; (mret (root, resolved) : io W ScanError.t _)) w) r.
Proof.
  intros Hbase Hread Hseen. specialize (Hbase w). unfold mbind, io_bind.
  destruct (found w) as [[s|e] w1]; destruct (base w) as [[resolved|e1] w2]; cbn [fst] in Hbase.
  - destruct (read resolved w2) as [[documents|e] w3] eqn:Hr; pose proof (Hread _ _ _ _ Hr) as Hd.
    + unfold lift. intros [= <- _]. destruct (Hseen _ _ _ _ Hr) as (seen & Hs & Hdocs).
      by eapply picasa_finished.
    + intros [= <- _]. split; [by apply picasa_failed_error|]. by destruct e.
  - intros [= <- _]. split; [|done]. destruct e1; try done. exists s, w1. by split; [|left].
  - by destruct Hbase.
  - intros [= <- _]. destruct Hbase as [[= ->] He]. split; [by apply picasa_failed_error|]. by destruct e.
Qed.

(** The files a scan finds in its directory, or in its parts *)
Definition find_picasa (inputs : list string) (label : string) (config : PicasaScanConfig) :
    io W ScanError.t ScanState :=
  _ ← lift (map_err config_error (picasa_validate config));
  scan_inputs inputs (λ root, find_files root label (psc_scan config) keep_all_paths)
    (λ inputs, read_apple_parts inputs label (as_archive_config config) ArchiveFlavor.Picasa).

(** Its plan before a document is read, with its directory if it has one *)
Definition picasa_plan (inputs : list string) (label : string) (config : PicasaScanConfig) :
    io W ScanError.t (option string * ResolvedFolderPlan) :=
  _ ← lift (map_err config_error (picasa_validate config));
  scan_inputs inputs (directory_plan label config) (parts_plan label config).

Lemma directory_base_of root label config w :
  0 <= fsc_max_entries (psc_scan config) < u64_max →
  match find_files root label (psc_scan config) keep_all_paths w with
  | (Ok s, _) =>
    match (scan_resolved_internal root label (psc_scan config) PICASA_SCAN w).1 with
    | Ok resolved => picasa_base s resolved
    | Err (ScanError.InvalidPlan _) => id_collision (ss_media (reconcile s))
    | Err _ => True
    end
  | (Err e, _) => (scan_resolved_internal root label (psc_scan config) PICASA_SCAN w).1 = Err e ∧ not_plan e
  end.
Proof.
  intros Hl. destruct (scan_resolved_internal _ _ _ _ w) as [r w'] eqn:Hs. apply scan_resolved_internal_result in Hs.
  cbn [PICASA_SCAN st_reconcile_state st_schema_version st_source_kind st_skip_path] in Hs.
  destruct (find_files _ _ _ _ w) as [[s|e] w2] eqn:Hfind;
    pose proof (find_files_cases _ _ _ _ _ _ _ Hl Hfind) as Hd; subst r; [|done].
  destruct Hd as (Hd & Hpaths & Hlabel). apply discovered_fresh in Hd; [|done]. cbn [fst].
  by apply (picasa_base_of s label (psc_scan config)).
Qed.

Lemma archives_base_of inputs label config w :
  match read_apple_parts inputs label (as_archive_config config) ArchiveFlavor.Picasa w with
  | (Ok s, _) =>
    match (scan_picasa_archives_resolved inputs label (as_archive_config config) w).1 with
    | Ok resolved => picasa_base s resolved
    | Err (ScanError.InvalidPlan _) => id_collision (ss_media (reconcile s))
    | Err _ => True
    end
  | (Err e, _) =>
    (scan_picasa_archives_resolved inputs label (as_archive_config config) w).1 = Err e ∧ not_plan e
  end.
Proof.
  unfold scan_picasa_archives_resolved.
  destruct (scan_apple_archives _ _ _ _ w) as [r w'] eqn:Hs. apply scan_apple_archives_result in Hs.
  destruct (read_apple_parts _ _ _ _ w) as [[s|e] w4] eqn:Hread;
    pose proof (read_apple_parts_cases _ _ _ _ _ _ _ Hread) as Hd; subst r; [|done].
  destruct Hd as [Hf Hlabel]. by apply (picasa_base_of s label (psc_scan config)).
Qed.

Lemma picasa_directory_end inputs root label config w r w' :
  0 <= fsc_max_entries (psc_scan config) < u64_max →
  (resolved ← scan_resolved_internal root label (psc_scan config) PICASA_SCAN;
   documents ← directory_documents root (rfp_plan resolved);
   lift (picasa_finish resolved config documents)) w = (r, w') →
  picasa_failed config (find_files root label (psc_scan config) keep_all_paths w) r
  ∧ picasa_applied config inputs (directory_plan label config root w) r.
Proof.
  intros Hl Hs. exact (picasa_scan_end config inputs (Some root) (find_files root label (psc_scan config) keep_all_paths)
    (scan_resolved_internal root label (psc_scan config) PICASA_SCAN)
    (λ resolved, directory_documents root (rfp_plan resolved)) w r w'
    (λ w0, directory_base_of root label config w0 Hl)
    (λ resolved, directory_documents_ends root (rfp_plan resolved))
    (λ resolved, directory_documents_seen root (rfp_plan resolved)) Hs).
Qed.

Lemma picasa_archives_end inputs label config w r w' :
  (resolved ← scan_picasa_archives_resolved inputs label (as_archive_config config);
   documents ← archive_documents inputs config;
   lift (picasa_finish resolved config documents)) w = (r, w') →
  picasa_failed config (read_apple_parts inputs label (as_archive_config config) ArchiveFlavor.Picasa w) r
  ∧ picasa_applied config inputs (parts_plan label config inputs w) r.
Proof.
  intros Hs. exact (picasa_scan_end config inputs None
    (read_apple_parts inputs label (as_archive_config config) ArchiveFlavor.Picasa)
    (scan_picasa_archives_resolved inputs label (as_archive_config config))
    (λ _, archive_documents inputs config) w r w'
    (archives_base_of inputs label config) (λ _, archive_documents_ends inputs config)
    (λ _, archive_documents_seen inputs config) Hs).
Qed.

(** C35: a scan of Picasa folders, one directory or ZIP parts, applies the documents it
    reads.  After its plan is made it looks, for a directory, once at the file
    [.picasa.ini] of every folder that holds an asset, under the path the plan gives the
    folder (which is in NFC: a folder whose own name is not has no document), and reads
    it to its end if it is a regular file; of parts it reads every entry of that name, in any case.  The document of a
    folder is the first one seen there that reads well, and it says exactly what its
    lines assign.  In the plan returned every asset has the
    caption that the document of its own folder gives its file name, that document's album,
    its folder's album and the time in its name, as configured, and nothing else; the errors are
    those of the plan made before and one for each folder of which a document was
    refused; the plan is well formed, holds the files of the plan made before, and the
    planners find each.  The scan never fails because the plan
    is invalid, with two exceptions: two of the files it found collide under SHA-256,
    or a folder it found a file in has a name that is no album. *)
Theorem picasa_scan_valid inputs label config w r w' :
  0 <= fsc_max_entries (psc_scan config) < u64_max →
  scan_picasa_inputs_resolved inputs label config w = (r, w') →
  picasa_failed config (find_picasa inputs label config w) r
  ∧ picasa_applied config inputs (picasa_plan inputs label config w) r.
Proof.
  intros Hl. unfold scan_picasa_inputs_resolved, find_picasa, picasa_plan.
  intros Hs. apply io_bind_inv in Hs as [(e & Hv & ->)|([] & w1 & Hv & Hs)].
  - pose proof Hv as [He _]%lift_Err. split; [|done]. apply picasa_failed_error. by eapply config_error_not_plan.
  - rewrite !(io_bind_then _ _ _ _ _ Hv). split; (eapply scan_inputs_related; [| | |exact Hs]).
    + intros e w2. apply picasa_failed_error.
    + intros root w2 r2 w3 Hr. by eapply picasa_directory_end.
    + intros w2 r2 w3 Hr. by eapply picasa_archives_end.
    + done.
    + intros root w2 r2 w3 Hr. by eapply picasa_directory_end.
    + intros w2 r2 w3 Hr. by eapply picasa_archives_end.
Qed.
End scan.

(** ** Witnesses *)

(** A folder with a photo and a document *)
Definition newline : string := String (ascii_of_N 10) "".
Definition sample_ini : string :=
  String.concat newline ["[Picasa]"; " name = Lake"; ""; "; a comment"; "[20200517-080910.jpg]"; "caption=Dawn"; "star=yes"].

Definition folder_content (path : string) : option string :=
  if String.eqb path "/p/Trip/20200517-080910.jpg" then Some "x"
  else if String.eqb path "/p/Trip/.picasa.ini" then Some sample_ini else None.

Definition folder_directory (path : string) : option (list (option string)) :=
  if String.eqb path "/p" then Some [Some "Trip"]
  else if String.eqb path "/p/Trip" then Some [Some ".picasa.ini"; Some "20200517-080910.jpg"] else None.

Definition folder_stat (path : string) : option ScanMeta :=
  match folder_content path, folder_directory path with
  | Some content, _ => Some (export_meta FileType.File (len content))
  | None, Some _ => Some (export_meta FileType.Dir 0)
  | None, None => None
  end.

Definition folder_fs : ScanFs ExportWorld := {|
  sf_symlink_metadata path w := (folder_stat path, w);
  sf_metadata path w := (folder_stat path, w);
  sf_read_dir path w := (folder_directory path, w);
  sf_open path w :=
    match folder_content path with
    | Some content => (true, {| ew_open := path; ew_left := content |})
    | None => (false, w)
    end;
  sf_file_metadata w := (folder_stat (ew_open w), w);
  sf_read _ w := (Some (ew_left w), {| ew_open := ew_open w; ew_left := "" |}) |}.

Definition sample_json : PlanJson := {| json_findings _ _ _ := Some "findings" |}.

Lemma sample_calendar_laws : @CalendarLaws sample_time sample_calendar.
Proof.
  split.
  - intros y mo d h mi s t text. unfold utc_instant, sample_calendar. case_bool_decide; [|done].
    intros [= <-]. by intros [= <-].
  - intros t text. unfold format_rfc3339, parse_rfc3339, sample_time. case_match; [|done].
    intros [= <-]. exists 1589702950. split; [|done]. by rewrite String.eqb_refl.
Qed.

Section witnesses.
  #[local] Existing Instances checksum_codec sample_time sample_calendar sample_calendar_laws sample_unicode
    sample_json folder_fs export_zip export_cancellation export_observer.

Notation new_world := {| ew_open := ""; ew_left := "" |}.

Definition both_albums : PicasaScanConfig := {|
  psc_scan := psc_scan default_picasa_scan; psc_max_archives := psc_max_archives default_picasa_scan;
  psc_max_archive_entry_bytes := psc_max_archive_entry_bytes default_picasa_scan;
  psc_max_compression_ratio := psc_max_compression_ratio default_picasa_scan;
  psc_compression_ratio_grace_bytes := psc_compression_ratio_grace_bytes default_picasa_scan;
  psc_album_mode := AlbumMode.Folder; psc_album_path_joiner := " / ";
  psc_picasa_albums := true; psc_filename_date := true |}.

Notation scan inputs := (scan_picasa_inputs_resolved (W := ExportWorld) inputs "folders" both_albums new_world).

Definition found_metadata (r : result ScanError.t ResolvedFolderPlan) :
    option (list (option NormalizedMetadata)) :=
  match r with
  | Ok resolved => Some (map ca_normalized_metadata (np_assets (rfp_plan resolved)))
  | Err _ => None
  end.

Definition trip_metadata : NormalizedMetadata := {|
  description := Some "Dawn"; taken_at_utc := Some sample_utc; location := None; albums := ["Lake"; "Trip"] |}.

Lemma picasa_scan_returns : ∃ r w, scan ["/p"] = (r, w) ∧ found_metadata r = Some [Some trip_metadata].
Proof. eexists _, _. split; [vm_compute; reflexivity|]. vm_compute. reflexivity. Qed.

Lemma picasa_scan_valid_witness : ∃ r w,
  scan ["/p"] = (r, w) ∧ found_metadata r = Some [Some trip_metadata]
  ∧ picasa_applied both_albums ["/p"] (picasa_plan (W := ExportWorld) ["/p"] "folders" both_albums new_world) r.
Proof.
  destruct picasa_scan_returns as (r & w & Hs & Ha). exists r, w. split; [exact Hs|]. split; [exact Ha|].
  assert (0 <= fsc_max_entries (psc_scan both_albums) < u64_max) as Hl by (vm_compute; split; congruence).
  exact (proj2 (picasa_scan_valid ["/p"] "folders" both_albums new_world r w Hl Hs)).
Defined.
End witnesses.
