(* ===== verification/Secrets.v ===== *)
(** * Secrets: files that hold a secret or a certificate
    ([crates/immich-web/src/profiles/secret.rs], [oidc/secret.rs],
    [read_secret] of [auth.rs])

    A file is checked before it is opened, when it is open, and after it has been
    read; its content is only used when all three were the same file, bounded and,
    for secrets, without permissions for others. *)
From Stdlib Require Import Ascii.
From stdpp Require Import strings.
From S2P Require Export Prelude Text Limits Profiles.

(** What [Metadata] tells of a file *)
Record SecretMeta := { sm_is_file : bool; sm_is_link : bool; sm_length : Z; sm_permissions : Z }.

(** [fs::symlink_metadata], [ResourceIdentity::from_path], [File::open], and for the
    open file [metadata], [ResourceIdentity::from_file] and
    [file.take(n).read_to_end(..)] *)
Class SecretFs (W : Type) := {
  se_metadata : string → W → option SecretMeta * W;
  se_identity : string → W → option string * W;
  se_open : string → W → bool * W;
  se_file_metadata : W → option SecretMeta * W;
  se_file_identity : W → option string * W;
  se_read : Z → W → option string * W;
}.

(** [ResourceIdentity] is a digest; [WebConfigError] a message. *)
Record FileStamp := { fs_identity : string; fs_length : Z }.
#[global] Instance FileStamp_eq_dec : EqDecision FileStamp.
Proof. solve_decision. Defined.

Section secrets.
  Context {W : Type} `{SecretFs W}.
Notation load := (io W WebConfigError).

Definition or_message {A} (f : W → option A * W) (message : string) : load A := λ w,
  match f w with
  | (Some a, w) => (Ok a, w)
  | (None, w) => (Err (ConfigMessage message), w)
  end.

Definition opened_or (path message : string) : load unit :=
  or_message (λ w, let '(ok, w) := se_open path w in (if ok then Some tt else None, w)) message.

(** ** [profiles/secret.rs] *)

Definition MAX_API_KEY_FILE_BYTES : Z := 4097.
Definition MAX_CA_CERTIFICATE_BYTES : Z := 1024 * 1024.

Definition stamp (metadata : SecretMeta) (identity : string) (maximum : Z) (private : bool) :
    result WebConfigError FileStamp :=
  _ ← fail_if (negb (sm_is_file metadata) || (sm_length metadata =? 0) || (maximum <? sm_length metadata))
        (ConfigMessage "server file must be bounded and regular");
  _ ← fail_if (private && negb (private_mode (sm_permissions metadata)))
        (ConfigMessage "server secret file is not private");
  Ok {| fs_identity := identity; fs_length := sm_length metadata |}.

Definition file_stamp (path : string) (maximum : Z) (private : bool) : load FileStamp :=
  metadata ← or_message (se_metadata path) "cannot inspect server file";
  identity ← or_message (se_identity path) "server file identity is unavailable";
  lift (stamp metadata identity maximum private).

Definition open_stamp (maximum : Z) (private : bool) : load FileStamp :=
  metadata ← or_message se_file_metadata "cannot inspect server file";
  identity ← or_message se_file_identity "server file identity is unavailable";
  lift (stamp metadata identity maximum private).

(** A [usize] holds every [u64] length here. *)
Definition bounded_file (path : string) (maximum : Z) (private : bool) : load string :=
  before ← file_stamp path maximum private;
  _ ← opened_or path "cannot open server file";
  opened ← open_stamp maximum private;
  _ ← lift (fail_if (negb (bool_decide (opened = before)))
              (ConfigMessage "server file identity changed"));
  bytes ← or_message (se_read (sat_add maximum 1)) "cannot read server file";
  _ ← lift (fail_if (maximum <? len bytes) (ConfigMessage "server file size is invalid"));
  after ← file_stamp path maximum private;
  _ ← lift (fail_if (negb (bool_decide (after = opened)) || negb (len bytes =? fs_length opened))
              (ConfigMessage "server file identity changed"));
  mret bytes.

(** [s.trim_end_matches(['\r', '\n'])] *)
Fixpoint drop_line_ends (l : list ascii) : list ascii :=
  match l with
  | a :: l' => if (code a =? 10) || (code a =? 13) then drop_line_ends l' else l
  | [] => []
  end.
Definition trim_line_ends (s : string) : string :=
  String.string_of_list_ascii (rev (drop_line_ends (rev (bytes s)))).

(** [ApiKey::new] and [TlsRootCertificates::from_pem_bundle] are arguments. *)
Definition api_key {K} (new : string → option K) (path : string) : load K :=
  bytes ← bounded_file path MAX_API_KEY_FILE_BYTES true;
  _ ← lift (fail_if (negb (is_utf8 bytes)) (ConfigMessage "server API key file is invalid"));
  lift (ok_or (new (trim_line_ends bytes)) (ConfigMessage "server API key file is invalid")).

Definition root_certificates {C} (from_pem_bundle : string → option C) (path : option string) :
    load (option C) :=
  match path with
  | None => mret None
  | Some path =>
    bytes ← bounded_file path MAX_CA_CERTIFICATE_BYTES false;
    certificates ← lift (ok_or (from_pem_bundle bytes)
                           (ConfigMessage "server CA certificate file is invalid"));
    mret (Some certificates)
  end.

(** ** [oidc/secret.rs] *)

Definition OIDC_MAX_SECRET_BYTES : Z := 512.
Definition OIDC_MAX_CA_BYTES : Z := 1024 * 1024.

Definition validate_metadata (metadata : SecretMeta) (maximum : Z) (private : bool) :
    result WebConfigError unit :=
  fail_if (negb (sm_is_file metadata) || sm_is_link metadata || (sm_length metadata =? 0)
           || (maximum <? sm_length metadata)
           || (private && negb (private_mode (sm_permissions metadata))))
    (ConfigMessage "OIDC file must be a bounded regular file").

Definition read_file (path : string) (maximum : Z) (private : bool) : load string :=
  before ← or_message (se_metadata path) "cannot inspect OIDC file";
  _ ← lift (validate_metadata before maximum private);
  before_identity ← or_message (se_identity path) "cannot inspect OIDC file";
  _ ← opened_or path "cannot open OIDC file";
  opened ← or_message se_file_metadata "cannot inspect OIDC file";
  _ ← lift (validate_metadata opened maximum private);
  opened_identity ← or_message se_file_identity "cannot inspect OIDC file";
  bytes ← or_message (se_read (maximum + 1)) "cannot read OIDC file";
  after ← or_message (se_metadata path) "cannot revalidate OIDC file";
  _ ← lift (validate_metadata after maximum private);
  after_identity ← or_message (se_identity path) "cannot revalidate OIDC file";
  _ ← lift (fail_if (is_empty bytes || (maximum <? len bytes)
                     || negb (String.eqb opened_identity before_identity)
                     || negb (String.eqb opened_identity after_identity))
              (ConfigMessage "OIDC file identity changed"));
  mret bytes.

(** [if bytes.last() == Some(&b'\n') { pop; if .. b'\r' { pop } }] *)
Definition pop_line_end (bytes : string) : string :=
  match Text.strip_suffix (String (ascii_of_N 10) "") bytes with
  | Some bytes => default bytes (Text.strip_suffix (String (ascii_of_N 13) "") bytes)
  | None => bytes
  end.

(** [str::from_utf8(..).is_ok_and(|value| value.trim() == value && ..)] *)
Definition secret_text (value : string) : bool := is_utf8 value && is_trimmed value && negb (has_control value).

Definition load_secret_bytes (path : string) : load string :=
  bytes ← read_file path OIDC_MAX_SECRET_BYTES true;
  let bytes := pop_line_end bytes in
  _ ← lift (fail_if (negb (in_range 16 OIDC_MAX_SECRET_BYTES (len bytes) && secret_text bytes))
              (ConfigMessage "OIDC client secret file is invalid"));
  mret bytes.

Definition load_ca (path : string) : load string := read_file path OIDC_MAX_CA_BYTES false.

(** ** The bootstrap secret of [auth.rs] *)

Definition MIN_SECRET_BYTES : Z := 16.
Definition MAX_SECRET_BYTES : Z := 256.

Definition validate_secret_metadata (metadata : SecretMeta) : result WebConfigError unit :=
  fail_if (negb (sm_is_file metadata) || sm_is_link metadata
           || negb (in_range MIN_SECRET_BYTES (MAX_SECRET_BYTES + 2) (sm_length metadata))
           || negb (private_mode (sm_permissions metadata)))
    (ConfigMessage "bootstrap secret must be a private bounded regular file").

Definition read_secret (path : string) : load string :=
  before ← or_message (se_metadata path) "cannot read bootstrap secret";
  _ ← lift (validate_secret_metadata before);
  before_identity ← or_message (se_identity path) "cannot inspect bootstrap secret";
  _ ← opened_or path "cannot read bootstrap secret";
  opened ← or_message se_file_metadata "cannot inspect bootstrap secret";
  _ ← lift (validate_secret_metadata opened);
  opened_identity ← or_message se_file_identity "cannot inspect bootstrap secret";
  bytes ← or_message (se_read (MAX_SECRET_BYTES + 1)) "cannot read bootstrap secret";
  after ← or_message (se_metadata path) "cannot revalidate bootstrap secret";
  _ ← lift (validate_secret_metadata after);
  after_identity ← or_message (se_identity path) "cannot revalidate bootstrap secret";
  _ ← lift (fail_if (negb (String.eqb opened_identity before_identity)
                     || negb (String.eqb opened_identity after_identity))
              (ConfigMessage "bootstrap secret identity changed"));
  let bytes := pop_line_end bytes in
  _ ← lift (fail_if (negb (in_range MIN_SECRET_BYTES MAX_SECRET_BYTES (len bytes)) || negb (secret_text bytes))
              (ConfigMessage "bootstrap secret is invalid"));
  mret bytes.
End secrets.
