(* ===== verification/Net.v ===== *)
(** * Net: addresses, origins and header values

    What the sources use of the standard library's [IpAddr] and [SocketAddr]
    ([FromStr], [Ord]), and the interfaces of the [url] and [http] crates, which the
    client, the server profiles and the request policy rely on. *)
From Stdlib Require Import Ascii.
From stdpp Require Import strings.
From S2P Require Export Prelude Text Profiles Sort.

#[global] Instance IpAddr_eq_dec : EqDecision IpAddr.
Proof. solve_decision. Defined.

(** ** [<IpAddr as FromStr>::from_str]

    The parser reads from the front and gives what it read and the rest. *)

(** [char::to_digit(radix)], for a radix of at most 16 *)
Definition to_digit (radix : Z) (a : ascii) : option Z :=
  let n := code a in
  let v := if (48 <=? n) && (n <=? 57) then n - 48
           else if (97 <=? n) && (n <=? 102) then n - 87
           else if (65 <=? n) && (n <=? 70) then n - 55 else 16 in
  if v <? radix then Some v else None.

Fixpoint read_digits (radix max_digits : Z) (l : list ascii) (number count : Z) :
    option (Z * Z * list ascii) :=
  match l with
  | [] => Some (number, count, [])
  | a :: rest =>
    match to_digit radix a with
    | Some d => if max_digits <? count + 1 then None
                else read_digits radix max_digits rest (number * radix + d) (count + 1)
    | None => Some (number, count, l)
    end
  end.

Definition read_number (radix max_digits : Z) (allow_zero_prefix : bool) (limit : Z) (l : list ascii) :
    option (Z * list ascii) :=
  let has_leading_zero := bool_decide (head l = Some "0"%char) in
  '(number, count, rest) ← read_digits radix max_digits l 0 0;
  if count =? 0 then None
  else if negb allow_zero_prefix && has_leading_zero && (1 <? count) then None
  else if number <=? limit then Some (number, rest) else None.

Definition read_given_char (c : ascii) (l : list ascii) : option (list ascii) :=
  match l with a :: l => if Ascii.eqb a c then Some l else None | [] => None end.

Definition read_separator {A} (separator : ascii) (index : nat)
    (inner : list ascii → option (A * list ascii)) (l : list ascii) : option (A * list ascii) :=
  l ← match index with O => Some l | _ => read_given_char separator l end;
  inner l.

Fixpoint read_ipv4_groups (remaining index : nat) (bits : Z) (l : list ascii) : option (Z * list ascii) :=
  match remaining with
  | O => Some (bits, l)
  | S remaining =>
    '(group, l) ← read_separator "." index (read_number 10 3 false 255) l;
    read_ipv4_groups remaining (S index) (bits * 256 + group) l
  end.
Definition read_ipv4_addr : list ascii → option (Z * list ascii) := read_ipv4_groups 4 0 0.

(** [read_groups]: the groups read, whether the last two were an IPv4 address, the rest *)
Fixpoint read_groups (remaining index : nat) (l : list ascii) : list Z * bool * list ascii :=
  match remaining with
  | O => ([], false, l)
  | S remaining =>
    match (match remaining with O => None | _ => read_separator ":" index read_ipv4_addr l end) with
    | Some (bits, rest) => ([Z.shiftr bits 16; Z.land bits 65535], true, rest)
    | None =>
      match read_separator ":" index (read_number 16 4 true 65535) l with
      | Some (group, rest) =>
        let '(groups, ipv4, rest) := read_groups remaining (S index) rest in (group :: groups, ipv4, rest)
      | None => ([], false, l)
      end
    end
  end.

Definition ipv6_bits (groups : list Z) : Z := foldl (λ bits group, bits * 65536 + group) 0 groups.

Definition read_ipv6_addr (l : list ascii) : option (Z * list ascii) :=
  let '(head, head_ipv4, rest) := read_groups 8 0 l in
  if (length head =? 8)%nat then Some (ipv6_bits head, rest)
  else if head_ipv4 then None
  else
    rest ← read_given_char ":" rest;
    rest ← read_given_char ":" rest;
    let '(tail, _, rest) := read_groups (8 - (length head + 1)) 0 rest in
    Some (ipv6_bits (head ++ replicate (8 - length head - length tail) 0 ++ tail), rest).

(** [s.parse::<IpAddr>().ok()]: the whole text is one address. *)
Definition parse_ip (s : string) : option IpAddr :=
  match (match read_ipv4_addr (bytes s) with
         | Some (bits, rest) => Some (IpV4 bits, rest)
         | None => '(bits, rest) ← read_ipv6_addr (bytes s); Some (IpV6 bits, rest)
         end) with
  | Some (address, []) => Some address
  | _ => None
  end.

Example parse_ips :
  parse_ip "127.0.0.1" = Some (IpV4 2130706433) ∧ parse_ip "127.0.0.01" = None
  ∧ parse_ip "256.0.0.1" = None ∧ parse_ip "::1" = Some (IpV6 1) ∧ parse_ip "[::1]" = None
  ∧ parse_ip "2001:db8::7" = Some (IpV6 (0x20010db8 * 2 ^ 96 + 7))
  ∧ parse_ip "::ffff:10.0.0.1" = Some (IpV6 (0xffff * 2 ^ 32 + 10 * 2 ^ 24 + 1))
  ∧ parse_ip "1:2:3:4:5:6:7:8:9" = None ∧ parse_ip "::1 " = None.
Proof. repeat split; vm_compute; reflexivity. Qed.

(** [s.parse::<u8>().ok()] *)
Definition parse_u8 (s : string) : option Z :=
  n ← parse_u64 s; if n <=? 255 then Some n else None.

(** A bracket starts neither form. *)
Lemma parse_ip_bracket s : parse_ip (String "[" s) = None.
Proof. done. Qed.

(** ** [SocketAddr] *)

(** The flow information and the scope of an IPv4 address are zero. *)
Record SocketAddr := { sa_ip : IpAddr; sa_port : Z; sa_flowinfo : Z; sa_scope_id : Z }.
#[global] Instance SocketAddr_eq_dec : EqDecision SocketAddr.
Proof. solve_decision. Defined.

Definition ip_index (a : IpAddr) : Z := match a with IpV4 _ => 4 | IpV6 _ => 6 end.
Definition ip_bits (a : IpAddr) : Z := match a with IpV4 b | IpV6 b => b end.

(** The derived [Ord]: the family, the address, the port, and for IPv6 the rest. *)
Notation compare_pair := (then_by Z.compare fst Z.compare snd).
Definition socket_compare : SocketAddr → SocketAddr → comparison :=
  then_by compare_pair (λ a, (ip_index (sa_ip a), ip_bits (sa_ip a)))
    (then_by Z.compare fst compare_pair snd) (λ a, (sa_port a, (sa_flowinfo a, sa_scope_id a))).

#[export] Instance socket_order : TotalOrder socket_compare.
Proof.
  assert (TotalOrder (then_by Z.compare (@fst Z (Z * Z)) compare_pair snd)).
  { apply then_by_order; [apply _..|]. intros [] []; simpl; intros; by subst. }
  apply then_by_order; [apply _..|]. intros [[] ???] [[] ???]; simpl; intros; by simplify_eq.
Qed.

(** [addresses.collect::<BTreeSet<_>>()], in the order it is iterated *)
Definition socket_set (addresses : list SocketAddr) : list SocketAddr :=
  sort_dedup socket_compare addresses.

Lemma socket_set_NoDup addresses : NoDup (socket_set addresses).
Proof.
  eapply StronglySorted_NoDup, sort_dedup_strict; [|apply _].
  intros a Ha. by rewrite cmp_refl in Ha.
Qed.

(** [unique.len() == addresses.len()] *)
Lemma socket_set_length addresses :
  zlen (socket_set addresses) = zlen addresses → NoDup addresses.
Proof.
  intros Hl. assert (socket_set addresses ≡ₚ addresses) as <-; [|apply socket_set_NoDup].
  apply submseteq_length_Permutation; [|unfold zlen in Hl; lia].
  apply NoDup_submseteq; [apply socket_set_NoDup|]. intros a. by apply elem_of_sort_dedup.
Qed.

(** ** The [url] crate *)

Module Host.
Inductive t := Domain (domain : string) | Ipv4 (bits : Z) | Ipv6 (bits : Z).
End Host.

Class UrlLib := {
  Url : Type;
  Url_eq_dec :: EqDecision Url;
  url_parse : string → option Url;
  url_username : Url → string;
  url_password : Url → option string;
  url_query : Url → option string;
  url_fragment : Url → option string;
  url_path : Url → string;
  url_host : Url → option Host.t;
  url_scheme : Url → string;
  url_set_path : string → Url → Url;
  url_join : string → Url → option Url;
  url_as_str : Url → string;
  url_host_str : Url → option string;
  url_port_or_known_default : Url → option Z;
}.

(** What the documentation promises: the host as a text is the host, with brackets
    around an IPv6 address, URLs with the same text are equal, and changing the path
    changes nothing else. *)
Class UrlLaws `{UrlLib} : Prop := {
  url_as_str_inj u v : url_as_str u = url_as_str v → u = v;
  host_str_domain u d : url_host u = Some (Host.Domain d) → url_host_str u = Some d;
  host_str_ipv4 u b : url_host u = Some (Host.Ipv4 b) →
    ∃ s, url_host_str u = Some s ∧ parse_ip s = Some (IpV4 b);
  host_str_ipv6 u b : url_host u = Some (Host.Ipv6 b) → ∃ s, url_host_str u = Some (String "[" s);
  set_path_scheme p u : url_scheme (url_set_path p u) = url_scheme u;
  set_path_host p u : url_host (url_set_path p u) = url_host u;
  set_path_host_str p u : url_host_str (url_set_path p u) = url_host_str u;
  set_path_port p u : url_port_or_known_default (url_set_path p u) = url_port_or_known_default u;
}.

(** ** The [http] crate *)

(** [HeaderValue::to_str], which fails on opaque bytes, and whether a text parses as a
    [HeaderValue] *)
Class HeaderLib := {
  header_str : string → option string;
  valid_header_value : string → bool;
}.

(** A text that is given is the value itself. *)
Class HeaderLaws `{HeaderLib} : Prop := { header_str_same v s : header_str v = Some s → s = v }.

(** ** A small URL library *)

(** Five origins, without credentials, query and fragment, and a path, for concrete
    runs. *)
Inductive SampleOrigin := Loopback4 | Loopback6 | Remote6 | PhotosHttps | PhotosHttp.
#[global] Instance SampleOrigin_eq_dec : EqDecision SampleOrigin.
Proof. solve_decision. Defined.

Definition origin_text (o : SampleOrigin) : string :=
  match o with
  | Loopback4 => "http://127.0.0.1:2283" | Loopback6 => "http://[::1]:2283"
  | Remote6 => "https://[2001:db8::7]" | PhotosHttps => "https://photos.example"
  | PhotosHttp => "http://photos.example"
  end.
Definition origin_host (o : SampleOrigin) : Host.t :=
  match o with
  | Loopback4 => Host.Ipv4 2130706433 | Loopback6 => Host.Ipv6 1
  | Remote6 => Host.Ipv6 (0x20010db8 * 2 ^ 96 + 7)
  | PhotosHttps | PhotosHttp => Host.Domain "photos.example"
  end.
Definition origin_host_str (o : SampleOrigin) : string :=
  match o with
  | Loopback4 => "127.0.0.1" | Loopback6 => "[::1]" | Remote6 => "[2001:db8::7]"
  | PhotosHttps | PhotosHttp => "photos.example"
  end.
Definition origin_scheme (o : SampleOrigin) : string :=
  match o with Remote6 | PhotosHttps => "https" | _ => "http" end.
Definition origin_port (o : SampleOrigin) : Z :=
  match o with Loopback4 | Loopback6 => 2283 | PhotosHttp => 80 | _ => 443 end.

Definition sample_url : UrlLib := {|
  Url := SampleOrigin * string;
  url_parse text := (λ o, (o, "/")) <$> List.find (λ o, String.eqb (origin_text o) text)
    [Loopback4; Loopback6; Remote6; PhotosHttps; PhotosHttp];
  url_username _ := ""; url_password _ := None; url_query _ := None; url_fragment _ := None;
  url_path := snd;
  url_host u := Some (origin_host u.1);
  url_scheme u := origin_scheme u.1;
  url_set_path p u := (u.1, p);
  url_join p u := Some (u.1, "/" +:+ p);
  url_as_str u := origin_text u.1 +:+ u.2;
  url_host_str u := Some (origin_host_str u.1);
  url_port_or_known_default u := Some (origin_port u.1);
|}.

Lemma sample_url_laws : UrlLaws (H := sample_url).
Proof.
  split; try done; simpl.
  - intros [u p] [v q]. simpl. by destruct u, v; intros Heq; [simpl in Heq; simplify_eq..].
  - intros [[] p] d; simpl; by intros [= <-].
  - intros [[] p] b; simpl; intros [= <-]. eexists. split; [done|]. by vm_compute.
  - intros [[] p] b; simpl; intros [= <-]; by eexists.
Qed.
