(* ===== verification/Auth.v ===== *)
(** * Auth: pairing, sessions and request policy of the console
    ([crates/immich-web/src/auth.rs], [policy.rs], [cookies.rs])

    The console is paired once with a bootstrap secret, or signs operators in by
    OIDC; a session is known by a random cookie until it is idle or too old.  An
    operation first reads the clock and then takes the lock of the store, which it
    holds to its end; nothing panics while it is held.  So an operation is a function
    of the state it finds and of a moment read before, and operations that wait for
    the lock may run in another order than they read the clock: the moments of a
    history need not be ordered.  The headers of a request are a list of names,
    in lower case, and values; the response is hardened whether or not the request is
    rejected. *)
From Stdlib Require Import Ascii.
From stdpp Require Import gmap strings.
From S2P Require Export Secrets Grants Net.

Definition TOKEN_BYTES : Z := 32.
Definition MAX_PAIRING_FAILURES : Z := 5.
Definition PAIRING_FAILURE_WINDOW : Z := from_secs (5 * 60).

#[global] Instance IpAddr_eq_dec : EqDecision IpAddr.
Proof. solve_decision. Defined.
#[global] Instance IpAddr_countable : Countable IpAddr.
Proof.
  refine (inj_countable' (λ a, match a with IpV4 b => inl b | IpV6 b => inr b end)
    (λ s, match s with inl b => IpV4 b | inr b => IpV6 b end) _). by intros [].
Defined.

(** [Instant]s are numbers of nanoseconds. *)
Record Bootstrap := {
  secret_digest : string;
  bs_cookie_token : string;
  bs_csrf_token : string;
  expires_at : Z;
  failures : gmap IpAddr (list Z);
}.

Record Session := {
  binding : string;
  se_csrf_token : string;
  created_at : Z;
  last_seen_at : Z;
}.

Record AuthState := { bootstrap : option Bootstrap; sessions : gmap string Session }.

Record PairingView := { pv_cookie_token : string; pv_csrf_token : string }.
Record SessionView := { sv_binding : string; sv_csrf_token : string }.

(** [EstablishedSession] holds the cookie. *)
Definition EstablishedSession : Type := string.

Module PairingFailure.
Inductive t := Denied | InvalidCsrf | Expired | RateLimited | Unavailable.
End PairingFailure.

(** [getrandom::fill] and [URL_SAFE_NO_PAD.encode] *)
Class Entropy (W : Type) := {
  getrandom : Z → W → option string * W;
  url_safe_no_pad : string → string;
}.

Definition set_bootstrap f (s : AuthState) : AuthState :=
  {| bootstrap := f (bootstrap s); sessions := sessions s |}.
Definition set_sessions f (s : AuthState) : AuthState :=
  {| bootstrap := bootstrap s; sessions := f (sessions s) |}.

(** [now.saturating_duration_since(earlier)] *)
Definition duration_since (now earlier : Z) : Z := Z.max 0 (now - earlier).

(** The queue of failures is oldest first. *)
Fixpoint retain_recent_failures (failures : list Z) (now : Z) : list Z :=
  match failures with
  | failure :: rest =>
    if PAIRING_FAILURE_WINDOW <=? duration_since now failure then retain_recent_failures rest now
    else failures
  | [] => []
  end.

Definition record_failure (failures : list Z) (now : Z) : list Z :=
  (if zlen failures =? MAX_PAIRING_FAILURES then tail failures else failures) ++ [now].

(** [constant_time_equal] is [Grants.same_key]. *)
Notation constant_time_equal := same_key.

Section auth.
  Context {W : Type} `{SecretFs W, Entropy W, Codec}.
  Context (limits : WebLimits).

Definition random_token : io W WebConfigError string :=
  bytes ← or_message (getrandom TOKEN_BYTES) "operating-system randomness is unavailable";
  mret (url_safe_no_pad bytes).

(** [AuthStore::oidc] *)
Definition oidc_store : AuthState := {| bootstrap := None; sessions := ∅ |}.

(** [AuthStore::load] *)
Definition load_store (path : string) (now : Z) : io W WebConfigError AuthState :=
  bootstrap_material ← read_secret path;
  expires ← lift (ok_or (instant_checked_add now (from_secs (bootstrap_lifetime_seconds limits)))
                    (ConfigMessage "bootstrap lifetime is invalid"));
  cookie_token ← random_token;
  csrf_token ← random_token;
  mret {| bootstrap := Some {| secret_digest := sha256 bootstrap_material;
                               bs_cookie_token := cookie_token; bs_csrf_token := csrf_token;
                               expires_at := expires; failures := ∅ |};
          sessions := ∅ |}.

Definition pairing (now : Z) (s : AuthState) : option PairingView * AuthState :=
  match bootstrap s with
  | None => (None, s)
  | Some b =>
    if expires_at b <=? now then (None, set_bootstrap (λ _, None) s)
    else (Some {| pv_cookie_token := bs_cookie_token b; pv_csrf_token := bs_csrf_token b |}, s)
  end.

(** [failures] of one source are replaced. *)
Definition set_failures (source : IpAddr) (queue : list Z) : AuthState → AuthState :=
  set_bootstrap (fmap (λ b, {|
    secret_digest := secret_digest b; bs_cookie_token := bs_cookie_token b;
    bs_csrf_token := bs_csrf_token b; expires_at := expires_at b;
    failures := <[source := queue]> (failures b) |})).

Definition new_session (now : Z) (session_binding csrf_token : string) : Session := {|
  binding := session_binding; se_csrf_token := csrf_token; created_at := now; last_seen_at := now |}.

Definition pair (source : IpAddr) (cookie_token csrf_token supplied_secret : string) (now : Z)
    (s : AuthState) (w : W) : result PairingFailure.t EstablishedSession * AuthState * W :=
  if max_sessions limits <=? Z.of_nat (size (sessions s)) then (Err PairingFailure.Unavailable, s, w) else
  match bootstrap s with
  | None => (Err PairingFailure.Expired, s, w)
  | Some b =>
    if expires_at b <=? now then (Err PairingFailure.Expired, set_bootstrap (λ _, None) s, w) else
    let queue := retain_recent_failures (default [] (failures b !! source)) now in
    if MAX_PAIRING_FAILURES <=? zlen queue
    then (Err PairingFailure.RateLimited, set_failures source queue s, w) else
    if negb (constant_time_equal cookie_token (bs_cookie_token b))
       || negb (constant_time_equal csrf_token (bs_csrf_token b))
    then (Err PairingFailure.InvalidCsrf, set_failures source (record_failure queue now) s, w) else
    if negb (String.eqb (sha256 supplied_secret) (secret_digest b))
    then (Err PairingFailure.Denied, set_failures source (record_failure queue now) s, w) else
    match random_token w with
    | (Err _, w) => (Err PairingFailure.Unavailable, set_failures source queue s, w)
    | (Ok cookie_token, w) =>
      match random_token w with
      | (Err _, w) => (Err PairingFailure.Unavailable, set_failures source queue s, w)
      | (Ok csrf_token, w) =>
        (Ok cookie_token,
         {| bootstrap := None;
            sessions := <[cookie_token := new_session now (sha256 cookie_token) csrf_token]> (sessions s) |},
         w)
      end
    end
  end.

Definition session_alive (now : Z) (session : Session) : bool :=
  (duration_since now (last_seen_at session) <? from_secs (session_idle_seconds limits))
  && (duration_since now (created_at session) <? from_secs (session_absolute_seconds limits)).

Definition expire_sessions (now : Z) : gmap string Session → gmap string Session :=
  filter (λ entry, session_alive now entry.2 = true).

Definition see_session (now : Z) (session : Session) : Session := {|
  binding := binding session; se_csrf_token := se_csrf_token session;
  created_at := created_at session; last_seen_at := now |}.

Definition authenticate (cookie_token : string) (now : Z) (s : AuthState) :
    option SessionView * AuthState :=
  let s := set_sessions (expire_sessions now) s in
  match sessions s !! cookie_token with
  | None => (None, s)
  | Some session =>
    (Some {| sv_binding := binding session; sv_csrf_token := se_csrf_token session |},
     set_sessions (insert cookie_token (see_session now session)) s)
  end.

(** The text whose digest binds a session to its principal; a zero byte follows. *)
Definition binding_input (principal cookie_token : string) : string :=
  principal +:+ one_byte 0 +:+ cookie_token.

Definition establish_oidc (principal : string) (previous_cookie : option string) (now : Z)
    (s : AuthState) (w : W) : result WebConfigError EstablishedSession * AuthState * W :=
  let s := set_sessions (expire_sessions now) s in
  let s := match previous_cookie with
           | Some previous => set_sessions (delete previous) s
           | None => s
           end in
  if max_sessions limits <=? Z.of_nat (size (sessions s))
  then (Err (ConfigMessage "OIDC session capacity is exhausted"), s, w) else
  match random_token w with
  | (Err e, w) => (Err e, s, w)
  | (Ok cookie_token, w) =>
    match random_token w with
    | (Err e, w) => (Err e, s, w)
    | (Ok csrf_token, w) =>
      (Ok cookie_token,
       set_sessions (insert cookie_token
         (new_session now (sha256 (binding_input principal cookie_token)) csrf_token)) s,
       w)
    end
  end.

Definition authenticate_csrf (cookie_token csrf_token : string) (now : Z) (s : AuthState) :
    option SessionView * AuthState :=
  match authenticate cookie_token now s with
  | (None, s) => (None, s)
  | (Some session, s) =>
    (if constant_time_equal csrf_token (sv_csrf_token session) then Some session else None, s)
  end.

Definition valid_binding (cookie_token session_binding : string) (now : Z) (s : AuthState) :
    bool * AuthState :=
  let s := set_sessions (expire_sessions now) s in
  (match sessions s !! cookie_token with
   | Some session => String.eqb (binding session) session_binding
   | None => false
   end, s).

Definition active_session_count (now : Z) (s : AuthState) : Z * AuthState :=
  let s := set_sessions (expire_sessions now) s in (Z.of_nat (size (sessions s)), s).

Definition logout (cookie_token csrf_token : string) (now : Z) (s : AuthState) : bool * AuthState :=
  let s := set_sessions (expire_sessions now) s in
  let valid := match sessions s !! cookie_token with
               | Some session => constant_time_equal csrf_token (se_csrf_token session)
               | None => false
               end in
  (valid, if valid then set_sessions (delete cookie_token) s else s).
End auth.

Definition HeaderMap : Type := list (string * string).

(** [headers.get_all(name)] and [headers.get(name)] *)
Definition get_all (name : string) (headers : HeaderMap) : list string :=
  map snd (List.filter (λ h, String.eqb h.1 name) headers).
Definition get (name : string) (headers : HeaderMap) : option string := head (get_all name headers).

(** ** Requests *)

Record RequestPolicy := {
  allowed_host : string;
  public_origin : string;
  max_header_bytes : Z;
  max_body_bytes : Z;
  direct_tls_lan : bool;
}.

Module Method.
Inductive t := GET | HEAD | POST | PUT | PATCH | DELETE | OPTIONS | TRACE | CONNECT | Extension (name : string).
End Method.

(** [ConnectInfo] is the peer, when the server knows it. *)
Record Request := { rq_peer : option IpAddr; rq_method : Method.t; rq_headers : HeaderMap }.

Inductive StatusCode := BAD_REQUEST | FORBIDDEN | PAYLOAD_TOO_LARGE.

(** ** [cookies.rs] *)

Section policy.
  Context `{HeaderLib}.

Definition SESSION_COOKIE : string := "immich_rs_session".
Definition PAIRING_COOKIE : string := "immich_rs_pairing".
Definition OIDC_LOGIN_COOKIE : string := "immich_rs_oidc_login".

Definition is_ascii_alphanumeric (a : ascii) : bool :=
  is_ascii_digit a || ((65 <=? code a) && (code a <=? 90)) || ((97 <=? code a) && (code a <=? 122)).

Definition valid_token (value : string) : bool :=
  (len value =? 43)
  && forallb (λ a, is_ascii_alphanumeric a || Ascii.eqb a "-" || Ascii.eqb a "_") (bytes value).

(** One part of a header: [None] refuses the whole request's cookie. *)
Definition cookie_part (name : string) (found : option string) (part : string) : option (option string) :=
  '(cookie_name, cookie_value) ← split_once "=" (trim part);
  if String.eqb cookie_name name then
    if is_some found || negb (valid_token cookie_value) then None else Some (Some cookie_value)
  else Some found.

Fixpoint cookie_parts (name : string) (parts : list string) (found : option string) : option (option string) :=
  match parts with
  | [] => Some found
  | part :: parts => found ← cookie_part name found part; cookie_parts name parts found
  end.

Fixpoint cookie_headers (name : string) (headers : list string) (found : option string) : option (option string) :=
  match headers with
  | [] => Some found
  | header :: headers =>
    header_value ← header_str header;
    found ← cookie_parts name (split_on ";" header_value) found;
    cookie_headers name headers found
  end.

(** [cookies::value] *)
Definition cookie_value (headers : HeaderMap) (name : string) : option string :=
  found ← cookie_headers name (get_all "cookie" headers) None; found.

(** [append] and [clear] give the new headers of the response, and whether they did. *)
Definition append_cookie (headers : HeaderMap) (name value : string) (max_age : Z) (secure : bool) :
    bool * HeaderMap :=
  let protection := if secure then "; Secure" else "" in
  let cookie := name +:+ "=" +:+ value +:+ "; Path=/; HttpOnly; SameSite=Strict; Max-Age="
                +:+ display_u64 max_age +:+ protection in
  if valid_header_value cookie then (true, headers ++ [("set-cookie", cookie)]) else (false, headers).

Definition clear_cookie (headers : HeaderMap) (name : string) (secure : bool) : bool * HeaderMap :=
  let protection := if secure then "; Secure" else "" in
  let cookie := name +:+ "=; Path=/; HttpOnly; SameSite=Strict; Max-Age=0" +:+ protection in
  if valid_header_value cookie then (true, headers ++ [("set-cookie", cookie)]) else (false, headers).

(** ** [policy.rs] *)

Definition state_changing (method : Method.t) : bool :=
  match method with Method.POST | Method.PUT | Method.PATCH | Method.DELETE => true | _ => false end.

Definition has_forwarded_header (headers : HeaderMap) : bool :=
  existsb (λ name, is_some (get name headers))
    ["forwarded"; "x-forwarded-for"; "x-forwarded-host"; "x-forwarded-port"; "x-forwarded-proto"].

Definition header_bytes (headers : HeaderMap) : Z :=
  foldl (λ total h, sat_add (sat_add (sat_add total (len h.1)) (len h.2)) 4) 0 headers.

Definition header_is (name value : string) (headers : HeaderMap) : bool :=
  bool_decide ((get name headers ≫= header_str) = Some value).

Definition content_length (headers : HeaderMap) : option Z :=
  value ← get "content-length" headers; value ← header_str value; parse_u64 value.

Definition validate_request (policy : RequestPolicy) (request : Request) : option StatusCode :=
  let headers := rq_headers request in
  if is_none_or (rq_peer request) (λ peer, negb (direct_tls_lan policy) && negb (is_loopback peer))
     || negb (zlen (get_all "host" headers) =? 1)
     || negb (header_is "host" (allowed_host policy) headers)
     || has_forwarded_header headers
     || (max_header_bytes policy <? header_bytes headers)
  then Some BAD_REQUEST
  else if state_changing (rq_method request) && negb (header_is "origin" (public_origin policy) headers)
  then Some FORBIDDEN
  else if is_some_and (content_length headers) (λ length, max_body_bytes policy <? length)
  then Some PAYLOAD_TOO_LARGE
  else None.

(** [headers.insert(name, value)] replaces all values of the name. *)
Definition insert_header (headers : HeaderMap) (h : string * string) : HeaderMap :=
  List.filter (λ e, negb (String.eqb e.1 h.1)) headers ++ [h].

Definition HARDENED : HeaderMap :=
  [("cache-control", "private, no-store, max-age=0"); ("pragma", "no-cache");
   ("content-security-policy",
    "default-src 'none'; style-src 'self'; script-src 'self'; connect-src 'self'; form-action 'self'; base-uri 'none'; frame-ancestors 'none'");
   ("x-frame-options", "DENY"); ("referrer-policy", "no-referrer"); ("x-content-type-options", "nosniff");
   ("permissions-policy", "camera=(), microphone=(), geolocation=()");
   ("cross-origin-opener-policy", "same-origin"); ("cross-origin-resource-policy", "same-origin");
   ("x-robots-tag", "noindex, nofollow")].

Definition harden_response (headers : HeaderMap) : HeaderMap := foldl insert_header headers HARDENED.

(** [request_policy]: the rest of the server is an argument. *)
Definition request_policy {R} (policy : RequestPolicy) (request : Request)
    (reject : StatusCode → R) (next : Request → R) : R :=
  match validate_request policy request with
  | Some status => reject status
  | None => next request
  end.

(** ** What they guarantee *)

Context `{!HeaderLaws}.

Lemma cookie_part_keeps name found part found' :
  cookie_part name found part = Some found' →
  (∀ v, found = Some v → valid_token v = true) → ∀ v, found' = Some v → valid_token v = true.
Proof.
  unfold cookie_part. intros ([n value] & _ & Hr)%bind_Some Hf v ->.
  destruct (String.eqb n name); [|injection Hr as ->; by apply Hf].
  destruct (is_some found || negb (valid_token value)) eqn:Hc; [done|]. injection Hr as ->.
  apply orb_false_iff in Hc as [_ Hc]. by apply negb_false_iff.
Qed.

Lemma cookie_parts_keeps name parts : ∀ found found',
  cookie_parts name parts found = Some found' →
  (∀ v, found = Some v → valid_token v = true) → ∀ v, found' = Some v → valid_token v = true.
Proof.
  induction parts as [|part parts IH]; intros found found' Hr Hf; [by injection Hr as <-|].
  apply bind_Some in Hr as (f1 & H1 & Hr). eapply IH; [exact Hr|]. by eapply cookie_part_keeps.
Qed.

(** A cookie that is accepted is a token. *)
Lemma cookie_value_token headers name v : cookie_value headers name = Some v → valid_token v = true.
Proof.
  unfold cookie_value. intros (found & Hr & ->)%bind_Some.
  enough (∀ l found, cookie_headers name l found = Some (Some v) →
    (∀ v, found = Some v → valid_token v = true) → valid_token v = true) as Hl by by eapply Hl.
  induction l as [|header l IH]; intros found Hl Hf; [injection Hl as ->; by apply Hf|].
  apply bind_Some in Hl as (hv & _ & (f1 & H1 & Hl)%bind_Some). eapply IH; [exact Hl|].
  by eapply cookie_parts_keeps.
Qed.

(** A request that passes names the host once, comes from this machine unless the
    console serves the LAN, was not forwarded, and changes nothing for another origin. *)
Lemma validate_request_None policy request :
  validate_request policy request = None →
  (∃ peer, rq_peer request = Some peer ∧ (direct_tls_lan policy = true ∨ is_loopback peer = true))
  ∧ get_all "host" (rq_headers request) = [allowed_host policy]
  ∧ (state_changing (rq_method request) = true →
     get "origin" (rq_headers request) = Some (public_origin policy))
  ∧ header_bytes (rq_headers request) <= max_header_bytes policy.
Proof.
  unfold validate_request. cbv zeta.
  destruct (_ || _ || _ || _ || _) eqn:Hbad; [done|]. destruct (state_changing _ && _) eqn:Ho; [done|].
  destruct (is_some_and _ _); [done|]. intros _.
  apply orb_false_iff in Hbad as [Hbad Hbytes]. apply orb_false_iff in Hbad as [Hbad Hfwd].
  apply orb_false_iff in Hbad as [Hbad Hhost]. apply orb_false_iff in Hbad as [Hpeer Hone].
  assert (∀ name value headers, header_is name value headers = true → get name headers = Some value) as His.
  { intros name value headers. unfold header_is. rewrite bool_decide_eq_true. intros (v & Hv & Hs)%bind_Some.
    rewrite Hv. apply header_str_same in Hs. by subst. }
  split_and!.
  - destruct (rq_peer request) as [peer|]; [|done]. exists peer. split; [done|]. simpl in Hpeer.
    apply andb_false_iff in Hpeer as [Hp%negb_false_iff|Hp%negb_false_iff]; auto.
  - apply negb_false_iff, His in Hhost. unfold get in Hhost. apply negb_false_iff, Z.eqb_eq in Hone.
    destruct (get_all "host" (rq_headers request)) as [|h [|]]; try done; [by injection Hhost as ->|].
    unfold zlen in Hone. simpl in Hone. lia.
  - intros Hs. rewrite Hs in Ho. simpl in Ho. by apply negb_false_iff, His in Ho.
  - lia.
Qed.
End policy.
