(* ===== verification/AuthTheorems.v ===== *)
(** * AuthTheorems: who can hold a session

    Over any sequence of calls, in the order in which they take the lock, a session is
    only recognised after it was established, while it is young and in use and was not
    ended; pairing succeeds once, with the secret; and guesses are limited for each source. *)
From Stdlib Require Import Ascii Sorted.
From stdpp Require Import gmap strings.
From S2P Require Export Auth ReconcileTheorems.

(** ** Runs *)

(** A call and its answer *)
Inductive AuthLabel :=
  | L_pairing (r : option PairingView)
  | L_pair (source : IpAddr) (cookie csrf secret : string) (r : result PairingFailure.t EstablishedSession)
  | L_authenticate (cookie : string) (r : option SessionView)
  | L_oidc (principal : string) (previous : option string) (r : result WebConfigError EstablishedSession)
  | L_csrf (cookie csrf : string) (r : option SessionView)
  | L_binding (cookie session_binding : string) (r : bool)
  | L_count (r : Z)
  | L_logout (cookie csrf : string) (r : bool).

(** A call moves the shared state and the world; the moment is the one it reads. *)
Inductive auth_step {W} `{Entropy W, Codec} (limits : WebLimits) (now : Z) :
    AuthState * W → AuthLabel → AuthState * W → Prop :=
  | step_pairing s w r s' : pairing now s = (r, s') →
      auth_step limits now (s, w) (L_pairing r) (s', w)
  | step_pair source cookie csrf secret s w r s' w' :
      pair limits source cookie csrf secret now s w = (r, s', w') →
      auth_step limits now (s, w) (L_pair source cookie csrf secret r) (s', w')
  | step_authenticate cookie s w r s' : authenticate limits cookie now s = (r, s') →
      auth_step limits now (s, w) (L_authenticate cookie r) (s', w)
  | step_oidc principal previous s w r s' w' :
      establish_oidc limits principal previous now s w = (r, s', w') →
      auth_step limits now (s, w) (L_oidc principal previous r) (s', w')
  | step_csrf cookie csrf s w r s' : authenticate_csrf limits cookie csrf now s = (r, s') →
      auth_step limits now (s, w) (L_csrf cookie csrf r) (s', w)
  | step_binding cookie session_binding s w r s' :
      valid_binding limits cookie session_binding now s = (r, s') →
      auth_step limits now (s, w) (L_binding cookie session_binding r) (s', w)
  | step_count s w r s' : active_session_count limits now s = (r, s') →
      auth_step limits now (s, w) (L_count r) (s', w)
  | step_logout cookie csrf s w r s' : logout limits cookie csrf now s = (r, s') →
      auth_step limits now (s, w) (L_logout cookie csrf r) (s', w).

(** A history: the calls in the order in which they took the lock, each with the moment it
    read from the clock. *)
Definition History : Type := list (Z * AuthLabel).

(** A call reads the clock before it takes the lock, and others may take it in between, so
    only the moments at which the lock is taken are in order.  [calls] has them first;
    other tasks may change the world between two calls. *)
Definition Calls : Type := list (Z * (Z * AuthLabel)).

Inductive auth_run {W} `{Entropy W, Codec} (limits : WebLimits) (s0 : AuthState) :
    Calls → AuthState → W → Prop :=
  | run_nil w : auth_run limits s0 [] s0 w
  | run_world calls s w w' : auth_run limits s0 calls s w → auth_run limits s0 calls s w'
  | run_step calls s w locked now L s' w' :
      auth_run limits s0 calls s w → (∀ e, e ∈ calls → e.1 <= locked) → now <= locked →
      auth_step limits now (s, w) L (s', w') → auth_run limits s0 (calls ++ [(locked, (now, L))]) s' w'.

Definition history_of (calls : Calls) : History := map snd calls.

Lemma history_of_snoc calls e : history_of (calls ++ [e]) = history_of calls ++ [e.2].
Proof. unfold history_of. by rewrite map_app. Qed.

(** ** What a history says of a cookie *)

(** The call made the cookie a session. *)
Definition establishes (cookie : string) (L : AuthLabel) : Prop :=
  match L with
  | L_pair _ _ _ _ (Ok c) | L_oidc _ _ (Ok c) => c = cookie
  | _ => False
  end.

(** The call ended the session. *)
Definition ends_session (cookie : string) (L : AuthLabel) : Prop :=
  match L with
  | L_logout c _ true => c = cookie
  | L_oidc _ (Some c) _ => c = cookie
  | _ => False
  end.

(** The call showed the cookie. *)
Definition shows (cookie : string) (L : AuthLabel) : Prop :=
  match L with
  | L_authenticate c _ | L_csrf c _ _ => c = cookie
  | _ => establishes cookie L
  end.

(** What a session established so is bound to *)
Definition binding_of `{Codec} (cookie : string) (L : AuthLabel) : string :=
  match L with
  | L_oidc principal _ _ => sha256 (binding_input principal cookie)
  | _ => sha256 cookie
  end.

(** A session the history accounts for: the last call that established it was at
    [created_at], none ended it since, and it was last shown at [last_seen_at]. *)
Definition backed `{Codec} (h : History) (cookie : string) (x : Session) : Prop :=
  ∃ before L after,
    h = before ++ (created_at x, L) :: after ∧ establishes cookie L
    ∧ binding x = binding_of cookie L
    ∧ Forall (λ e, ¬ ends_session cookie e.2 ∧ ¬ establishes cookie e.2) after
    ∧ ∃ L', (last_seen_at x, L') ∈ (created_at x, L) :: after ∧ shows cookie L'.

Section auth.
  Context {W : Type} `{Entropy W, Codec}.
  Context (limits : WebLimits).

Definition all_backed (h : History) (s : AuthState) : Prop :=
  ∀ cookie x, sessions s !! cookie = Some x → backed h cookie x.

Lemma backed_later h cookie x now L :
  backed h cookie x → ¬ ends_session cookie L → ¬ establishes cookie L → backed (h ++ [(now, L)]) cookie x.
Proof.
  intros (before & L0 & after & -> & He & Hb & Hall & L' & Hin & Hs) Hend Hest.
  exists before, L0, (after ++ [(now, L)]). rewrite <- app_assoc. split_and!; try done.
  - apply Forall_app. split; [done|]. by constructor.
  - exists L'. split; [|done]. cbn [created_at]. rewrite app_comm_cons. apply elem_of_app. by left.
Qed.

Lemma backed_seen h cookie x now L :
  backed h cookie x → ¬ ends_session cookie L → ¬ establishes cookie L → shows cookie L →
  backed (h ++ [(now, L)]) cookie (see_session now x).
Proof.
  intros (before & L0 & after & -> & He & Hb & Hall & _) Hend Hest Hshow.
  exists before, L0, (after ++ [(now, L)]). rewrite <- app_assoc. split_and!; try done.
  - apply Forall_app. split; [done|]. by constructor.
  - exists L. split; [|done]. right. apply elem_of_app. right. by left.
Qed.

Lemma backed_new h cookie now L session_binding csrf :
  establishes cookie L → session_binding = binding_of cookie L →
  backed (h ++ [(now, L)]) cookie (new_session now session_binding csrf).
Proof.
  intros He ->. exists h, L, []. split_and!; try done.
  exists L. split; [by left|]. by destruct L.
Qed.

Lemma lookup_expired now m cookie x :
  expire_sessions limits now m !! cookie = Some x ↔ m !! cookie = Some x ∧ session_alive limits now x = true.
Proof. unfold expire_sessions. rewrite map_lookup_filter_Some. done. Qed.

(** A call that only expires sessions, and one that keeps them *)
Lemma kept_backed h now L s s' :
  all_backed h s →
  (∀ cookie x, sessions s' !! cookie = Some x →
     sessions s !! cookie = Some x ∧ ¬ ends_session cookie L) →
  (∀ cookie, ¬ establishes cookie L) → all_backed (h ++ [(now, L)]) s'.
Proof.
  intros Hs Hkept He cookie x Hx. apply Hkept in Hx as [Hx Hend]. apply backed_later; auto.
Qed.

Lemma pair_backed h now source cookie csrf secret s w r s' w' :
  all_backed h s → pair limits source cookie csrf secret now s w = (r, s', w') →
  all_backed (h ++ [(now, L_pair source cookie csrf secret r)]) s'.
Proof.
  intros Hs. unfold pair.
  assert (∀ e s', sessions s' = sessions s →
    all_backed (h ++ [(now, L_pair source cookie csrf secret (Err e))]) s') as Herr.
  { intros e s1 Heq. apply (kept_backed h now _ s); [done| |by intros ? []]. rewrite Heq. by intros c x Hx; split; [|intros []]. }
  destruct (_ <=? _); [intros [= <- <- _]; by apply Herr|].
  destruct (bootstrap s) as [b|]; [|intros [= <- <- _]; by apply Herr].
  destruct (_ <=? now); [intros [= <- <- _]; by apply Herr|].
  destruct (MAX_PAIRING_FAILURES <=? _); [intros [= <- <- _]; by apply Herr|].
  destruct (_ || _); [intros [= <- <- _]; by apply Herr|].
  destruct (negb _); [intros [= <- <- _]; by apply Herr|].
  destruct (random_token w) as [[token|e] w1]; [|intros [= <- <- _]; by apply Herr].
  destruct (random_token w1) as [[token'|e] w2]; [|intros [= <- <- _]; by apply Herr].
  intros [= <- <- _] c x. cbn [sessions]. rewrite lookup_insert_Some. intros [[-> <-]|[Hne Hx]].
  - by apply backed_new.
  - apply backed_later; [by apply Hs|by intros []|]. simpl. congruence.
Qed.

Lemma oidc_backed h now principal previous s w r s' w' :
  all_backed h s → establish_oidc limits principal previous now s w = (r, s', w') →
  all_backed (h ++ [(now, L_oidc principal previous r)]) s'.
Proof.
  intros Hs. unfold establish_oidc. cbv zeta.
  set (s1 := match previous with Some c => _ | None => _ end).
  assert (∀ cookie x, sessions s1 !! cookie = Some x →
    sessions s !! cookie = Some x ∧ previous ≠ Some cookie) as Hs1.
  { intros cookie x. unfold s1. destruct previous as [p|]; cbn [set_sessions sessions].
    - rewrite lookup_delete_Some, lookup_expired. intros (Hne & Hx & _). split; [done|]. congruence.
    - by intros [Hx _]%lookup_expired. }
  assert (∀ r, (∀ c, r ≠ Ok c) → all_backed (h ++ [(now, L_oidc principal previous r)]) s1) as Herr.
  { intros r1 Hr1. apply (kept_backed h now _ s); [done| |].
    - intros c x [Hx Hne]%Hs1. split; [done|]. simpl. destruct previous; congruence.
    - intros c Hc. destruct r1; [by eapply Hr1|done]. }
  destruct (_ <=? _); [intros [= <- <- _]; by apply Herr|].
  destruct (random_token w) as [[token|e] w1]; [|intros [= <- <- _]; by apply Herr].
  destruct (random_token w1) as [[token'|e] w2]; [|intros [= <- <- _]; by apply Herr].
  intros [= <- <- _] c x. cbn [set_sessions sessions]. rewrite lookup_insert_Some. intros [[-> <-]|[Hne Hx]].
  - by apply backed_new.
  - apply Hs1 in Hx as [Hx Hprev]. apply backed_later; [by apply Hs| |].
    + simpl. destruct previous; congruence.
    + simpl. congruence.
Qed.

Lemma authenticate_Some cookie now s r s' :
  authenticate limits cookie now s = (r, s') →
  (r = None ∧ sessions s' = expire_sessions limits now (sessions s))
  ∨ ∃ x, expire_sessions limits now (sessions s) !! cookie = Some x
      ∧ r = Some {| sv_binding := binding x; sv_csrf_token := se_csrf_token x |}
      ∧ sessions s' = <[cookie := see_session now x]> (expire_sessions limits now (sessions s)).
Proof.
  unfold authenticate. cbv zeta. cbn [set_sessions sessions].
  destruct (_ !! cookie) as [x|] eqn:Hx; intros [= <- <-]; [right|by left].
  by exists x.
Qed.

(** A call that shows a cookie *)
Lemma shown_backed h now cookie L s r s' :
  all_backed h s → authenticate limits cookie now s = (r, s') →
  (∀ c, ¬ establishes c L) → (∀ c, ¬ ends_session c L) → shows cookie L →
  all_backed (h ++ [(now, L)]) s'.
Proof.
  intros Hs Ha He Hend Hshow c x.
  destruct (authenticate_Some _ _ _ _ _ Ha) as [[_ ->]|(y & Hy & _ & ->)].
  - intros [Hx _]%lookup_expired. apply backed_later; auto.
  - rewrite lookup_insert_Some. intros [[-> <-]|[_ [Hx _]%lookup_expired]].
    + apply lookup_expired in Hy as [Hy _]. apply backed_seen; auto.
    + apply backed_later; auto.
Qed.

Lemma step_backed h now s w L s' w' :
  all_backed h s → auth_step limits now (s, w) L (s', w') → all_backed (h ++ [(now, L)]) s'.
Proof.
  intros Hs Hstep. inversion Hstep; subst.
  - apply (kept_backed h now _ s); [done| |by intros ? []]. intros c x Hx. split; [|by intros []].
    revert Hx. match goal with Hp : pairing _ _ = _ |- _ => revert Hp end. unfold pairing.
    destruct (bootstrap s) as [b|]; [destruct (_ <=? now)|]; by intros [= <- <-].
  - by eapply pair_backed.
  - eapply shown_backed; [done|eassumption|by intros ? []|by intros ? []|done].
  - by eapply oidc_backed.
  - match goal with Hp : authenticate_csrf _ _ _ _ _ = _ |- _ => revert Hp end. unfold authenticate_csrf.
    destruct (authenticate limits cookie now s) as [[v|] s1] eqn:Ha; intros [= <- <-];
      (eapply shown_backed; [done|eassumption|by intros ? []|by intros ? []|done]).
  - match goal with Hp : valid_binding _ _ _ _ _ = _ |- _ => injection Hp as <- <- end.
    apply (kept_backed h now _ s); [done| |by intros ? []]. by intros c x [Hx _]%lookup_expired; split; [|intros []].
  - match goal with Hp : active_session_count _ _ _ = _ |- _ => injection Hp as <- <- end.
    apply (kept_backed h now _ s); [done| |by intros ? []]. by intros c x [Hx _]%lookup_expired; split; [|intros []].
  - match goal with Hp : logout _ _ _ _ _ = _ |- _ => revert Hp end. unfold logout. cbv zeta.
    cbn [set_sessions sessions]. set (v := match _ with Some _ => _ | None => _ end). intros [= <- <-].
    apply (kept_backed h now _ s); [done| |by intros ? []]. intros c x. destruct v; cbn [set_sessions sessions].
    + rewrite lookup_delete_Some. intros [Hne [Hx _]%lookup_expired]. by split.
    + intros [Hx _]%lookup_expired. by split; [|intros []].
Qed.

(** Every session of a reachable state is accounted for. *)
Lemma run_backed s0 calls s w :
  sessions s0 = ∅ → auth_run limits s0 calls s w → all_backed (history_of calls) s.
Proof.
  intros Hempty Hrun.
  induction Hrun as [w|calls s w w' _ IH|calls s w locked now L s' w' _ IH _ _ Hstep]; [|done|].
  - intros c x. by rewrite Hempty, lookup_empty.
  - rewrite history_of_snoc. by eapply step_backed.
Qed.

(** C15: A session is recognised only when the history accounts for it: the cookie was
    given out by a pairing or a sign-in, and no later call ended it or gave it out
    again; less than the absolute limit has passed since, and less than the idle
    limit since the cookie was last shown; and the binding returned is the digest of
    the cookie, with the principal that signed in. *)
Theorem session_accounted s0 calls s w now cookie view s' :
  sessions s0 = ∅ → auth_run limits s0 calls s w →
  authenticate limits cookie now s = (Some view, s') →
  ∃ before t L after, history_of calls = before ++ (t, L) :: after ∧ establishes cookie L
    ∧ Forall (λ e, ¬ ends_session cookie e.2 ∧ ¬ establishes cookie e.2) after
    ∧ now - t < from_secs (session_absolute_seconds limits)
    ∧ sv_binding view = binding_of cookie L
    ∧ ∃ t' L', (t', L') ∈ (t, L) :: after ∧ shows cookie L'
        ∧ now - t' < from_secs (session_idle_seconds limits).
Proof.
  intros Hempty Hrun Ha. apply run_backed in Hrun; [|done].
  destruct (authenticate_Some _ _ _ _ _ Ha) as [[Hr _]|(x & [Hx Halive]%lookup_expired & [= ->] & _)]; [done|].
  apply Hrun in Hx as (before & L & after & Hh & He & Hb & Hall & L' & Hin & Hshow).
  unfold session_alive, duration_since in Halive. apply andb_true_iff in Halive as [Hidle Habs].
  exists before, (created_at x), L, after. split_and!; try done; [lia|].
  exists (last_seen_at x), L'. split_and!; [done|done|lia].
Qed.
(** ** Pairing *)

(** The tokens and the secret of the call were compared, and it was told so: it was refused
    for what it showed, or it paired the console. *)
Definition compared (source : IpAddr) (L : AuthLabel) : bool :=
  match L with
  | L_pair source' _ _ _ (Err (PairingFailure.Denied | PairingFailure.InvalidCsrf) | Ok _) =>
    bool_decide (source' = source)
  | _ => false
  end.

(** The guesses of a source: when each of them read the clock, and when it took the lock *)
Definition guesses (source : IpAddr) (calls : Calls) : list (Z * Z) :=
  map (λ e, (e.2.1, e.1)) (List.filter (λ e, compared source e.2.2) calls).

Definition paired (L : AuthLabel) : bool :=
  match L with L_pair _ _ _ _ (Ok _) => true | _ => false end.

Lemma guesses_app source calls locked now L :
  guesses source (calls ++ [(locked, (now, L))])
  = guesses source calls ++ (if compared source L then [(now, locked)] else []).
Proof.
  unfold guesses. rewrite List.filter_app, map_app. simpl. by destruct (compared source L).
Qed.

Lemma retain_recent_split queue now : ∃ dropped,
  queue = dropped ++ retain_recent_failures queue now
  ∧ Forall (λ t, PAIRING_FAILURE_WINDOW <= now - t) dropped.
Proof.
  induction queue as [|t queue (dropped & Hq & Hd)]; simpl; [by exists []|].
  destruct (Z.leb_spec PAIRING_FAILURE_WINDOW (duration_since now t)) as [Hle|]; [|by exists []].
  exists (t :: dropped). split; [by rewrite Hq at 1|]. constructor; [|done].
  unfold duration_since, PAIRING_FAILURE_WINDOW, from_secs, NANOS_PER_SEC in *. lia.
Qed.

Definition with_queue (b : Bootstrap) (source : IpAddr) (queue : list Z) : Bootstrap := {|
  secret_digest := secret_digest b; bs_cookie_token := bs_cookie_token b;
  bs_csrf_token := bs_csrf_token b; expires_at := expires_at b;
  failures := <[source := queue]> (failures b) |}.

Definition queue_of (b : Bootstrap) (source : IpAddr) : list Z := default [] (failures b !! source).

(** What a pairing does to the bootstrap *)
Inductive pair_outcome (now : Z) (source : IpAddr) (cookie csrf secret : string) (b : Bootstrap) :
    result PairingFailure.t EstablishedSession → option Bootstrap → Prop :=
  | outcome_expired : pair_outcome now source cookie csrf secret b (Err PairingFailure.Expired) None
  | outcome_full : pair_outcome now source cookie csrf secret b (Err PairingFailure.Unavailable) (Some b)
  | outcome_kept e : e = PairingFailure.RateLimited ∨ e = PairingFailure.Unavailable →
      pair_outcome now source cookie csrf secret b (Err e)
        (Some (with_queue b source (retain_recent_failures (queue_of b source) now)))
  | outcome_guess e : e = PairingFailure.InvalidCsrf ∨ e = PairingFailure.Denied →
      zlen (retain_recent_failures (queue_of b source) now) < MAX_PAIRING_FAILURES →
      pair_outcome now source cookie csrf secret b (Err e)
        (Some (with_queue b source (retain_recent_failures (queue_of b source) now ++ [now])))
  | outcome_paired c : zlen (retain_recent_failures (queue_of b source) now) < MAX_PAIRING_FAILURES →
      now < expires_at b → cookie = bs_cookie_token b → csrf = bs_csrf_token b →
      sha256 secret = secret_digest b →
      pair_outcome now source cookie csrf secret b (Ok c) None.

Lemma same_key_true a b : same_key a b = true ↔ a = b.
Proof.
  unfold same_key. rewrite andb_true_iff, String.eqb_eq, Z.eqb_eq. split; [by intros []|by intros ->].
Qed.

Lemma pair_cases source cookie csrf secret now s w r s' w' b :
  bootstrap s = Some b → pair limits source cookie csrf secret now s w = (r, s', w') →
  pair_outcome now source cookie csrf secret b r (bootstrap s').
Proof.
  intros Hb. unfold pair. rewrite Hb. cbv zeta. fold (queue_of b source).
  set (queue := retain_recent_failures _ now).
  assert (∀ q, bootstrap (set_failures source q s) = Some (with_queue b source q)) as Hset.
  { intros q. unfold set_failures. cbn [set_bootstrap bootstrap]. by rewrite Hb. }
  destruct (max_sessions limits <=? _); [intros [= <- <- _]; rewrite Hb; constructor|].
  destruct (Z.leb_spec (expires_at b) now); [intros [= <- <- _]; constructor|].
  destruct (Z.leb_spec MAX_PAIRING_FAILURES (zlen queue)) as [|Hq].
  { intros [= <- <- _]. rewrite Hset. constructor. by left. }
  assert (record_failure queue now = queue ++ [now]) as Hrec.
  { unfold record_failure. destruct (Z.eqb_spec (zlen queue) MAX_PAIRING_FAILURES); [lia|done]. }
  destruct (negb (same_key cookie _) || negb (same_key csrf _)) eqn:Hkeys.
  { intros [= <- <- _]. rewrite Hset, Hrec. constructor; [by left|done]. }
  apply orb_false_iff in Hkeys as [Hc%negb_false_iff%same_key_true Hcs%negb_false_iff%same_key_true].
  destruct (negb _) eqn:Hs.
  { intros [= <- <- _]. rewrite Hset, Hrec. constructor; [by right|done]. }
  apply negb_false_iff, String.eqb_eq in Hs.
  destruct (random_token w) as [[token|e] w1].
  2:{ intros [= <- <- _]. rewrite Hset. constructor. by right. }
  destruct (random_token w1) as [[token'|e] w2].
  2:{ intros [= <- <- _]. rewrite Hset. constructor. by right. }
  intros [= <- <- _]. by constructor.
Qed.

(** Without a bootstrap nothing is paired or guessed. *)
Lemma pair_without source cookie csrf secret now s w r s' w' :
  bootstrap s = None → pair limits source cookie csrf secret now s w = (r, s', w') →
  bootstrap s' = None ∧ (r = Err PairingFailure.Unavailable ∨ r = Err PairingFailure.Expired).
Proof.
  intros Hb. unfold pair. rewrite Hb. destruct (_ <=? _); intros [= <- <- _]; auto.
Qed.

(** Other calls keep the bootstrap, or drop it. *)
Lemma step_bootstrap now s w L s' w' :
  auth_step limits now (s, w) L (s', w') →
  (∃ source cookie csrf secret r, L = L_pair source cookie csrf secret r
    ∧ pair limits source cookie csrf secret now s w = (r, s', w'))
  ∨ (paired L = false ∧ (∀ source, compared source L = false)
     ∧ (bootstrap s' = bootstrap s ∨ bootstrap s' = None)).
Proof.
  intros Hstep. inversion Hstep; subst; [|by left; repeat eexists| | | | | |]; right; (split_and!; [done|done|]).
  - match goal with Hp : pairing _ _ = _ |- _ => revert Hp end. unfold pairing.
    destruct (bootstrap s) as [b|] eqn:Hb; [destruct (_ <=? now)|]; intros [= <- <-]; auto.
  - match goal with Hp : authenticate _ _ _ _ = _ |- _ => revert Hp end. unfold authenticate. cbv zeta.
    destruct (_ !! _); intros [= <- <-]; by left.
  - match goal with Hp : establish_oidc _ _ _ _ _ _ = _ |- _ => revert Hp end. unfold establish_oidc. cbv zeta.
    destruct (_ <=? _); [intros [= <- <- _]; left; by destruct previous|].
    destruct (random_token w) as [[token|e] w1]; [|intros [= <- <- _]; left; by destruct previous].
    destruct (random_token w1) as [[token'|e] w2]; intros [= <- <- _]; left; by destruct previous.
  - match goal with Hp : authenticate_csrf _ _ _ _ _ = _ |- _ => revert Hp end.
    unfold authenticate_csrf, authenticate. cbv zeta. destruct (_ !! _); intros [= <- <-]; by left.
  - match goal with Hp : valid_binding _ _ _ _ _ = _ |- _ => injection Hp as <- <- end. by left.
  - match goal with Hp : active_session_count _ _ _ = _ |- _ => injection Hp as <- <- end. by left.
  - match goal with Hp : logout _ _ _ _ _ = _ |- _ => revert Hp end. unfold logout. cbv zeta.
    intros [= <- <-]. left. by destruct (match _ with Some _ => _ | None => _ end).
Qed.
(** *** Guesses *)

(** Of six guesses in order, the last is compared a whole window after the first came. *)
Definition spaced (l : list (Z * Z)) : Prop :=
  ∀ i first sixth, l !! i = Some first → l !! (i + 5)%nat = Some sixth →
    PAIRING_FAILURE_WINDOW <= sixth.2 - first.1.

(** The queue of a source holds the last guesses, and the others are old. *)
Definition queue_covers (calls : Calls) (b : Bootstrap) (source : IpAddr) : Prop :=
  ∃ old, map fst (guesses source calls) = old ++ queue_of b source
    ∧ zlen (queue_of b source) <= MAX_PAIRING_FAILURES
    ∧ Forall (λ t, ∃ e, e ∈ calls ∧ PAIRING_FAILURE_WINDOW <= e.1 - t) old.

Lemma spaced_snoc l old queue now locked :
  spaced l → map fst l = old ++ queue → zlen queue < 5 →
  Forall (λ t, PAIRING_FAILURE_WINDOW <= locked - t) old → spaced (l ++ [(now, locked)]).
Proof.
  intros Hs Hl Hq Ho i first sixth Hi Hi'. unfold zlen in Hq.
  assert (length l = length old + length queue)%nat as Hlen by (by rewrite <- length_app, <- Hl, length_map).
  apply lookup_app_Some in Hi' as [Hi'|[Hge Hi']].
  - eapply Hs; [|exact Hi']. apply lookup_lt_Some in Hi'. rewrite lookup_app_l in Hi; [done|lia].
  - apply list_lookup_singleton_Some in Hi' as [Hz <-]. cbn [snd].
    assert (i < length old)%nat as Hlt by lia. rewrite lookup_app_l in Hi by lia.
    assert (old !! i = Some first.1) as Hold.
    { rewrite <- (lookup_app_l old queue), <- Hl by done. by rewrite list_lookup_fmap, Hi. }
    rewrite Forall_forall in Ho. apply Ho. by apply list_elem_of_lookup_2 in Hold.
Qed.

(** The invariant of the guesses of one source *)
Record guarded (source : IpAddr) (calls : Calls) (s : AuthState) : Prop := {
  gd_spaced : spaced (guesses source calls);
  gd_queue b : bootstrap s = Some b → queue_covers calls b source;
}.

Lemma queue_later calls b source e : guesses source (calls ++ [e]) = guesses source calls →
  queue_covers calls b source → queue_covers (calls ++ [e]) b source.
Proof.
  intros Hg (old & Heq & Hlen & Hold). exists old. split_and!; [by rewrite Hg|done|].
  eapply Forall_impl; [exact Hold|]. intros t (c & Hin & Ht). exists c. split; [|done].
  apply elem_of_app. by left.
Qed.

Lemma guarded_same source calls s locked now L s' :
  compared source L = false → guarded source calls s →
  (∀ b, bootstrap s' = Some b → ∃ b', bootstrap s = Some b' ∧ queue_of b source = queue_of b' source) →
  guarded source (calls ++ [(locked, (now, L))]) s'.
Proof.
  intros Hl [Hs Hq] Hb.
  assert (guesses source (calls ++ [(locked, (now, L))]) = guesses source calls) as Hg
    by (rewrite guesses_app, Hl; apply app_nil_r).
  split; [by rewrite Hg|]. intros b (b' & Hb' & Heq)%Hb. apply Hq in Hb'.
  apply (queue_later calls b' source (locked, (now, L))) in Hb'; [|done]. unfold queue_covers in *. by rewrite Heq.
Qed.

Lemma queue_with_other b source source' q : source' ≠ source →
  queue_of (with_queue b source' q) source = queue_of b source.
Proof. intros Hne. unfold queue_of, with_queue. cbn [failures]. by rewrite lookup_insert_ne. Qed.

Lemma queue_with_same b source q : queue_of (with_queue b source q) source = q.
Proof. unfold queue_of, with_queue. cbn [failures]. by rewrite lookup_insert_eq. Qed.

(** Guesses of the source itself *)
Lemma guarded_pair source calls s locked now L s' b :
  guarded source calls s → (∀ e, e ∈ calls → e.1 <= locked) → now <= locked → bootstrap s = Some b →
  let queue := retain_recent_failures (queue_of b source) now in
  (compared source L = false ∧ bootstrap s' = Some (with_queue b source queue)
   ∨ compared source L = true ∧ zlen queue < MAX_PAIRING_FAILURES
     ∧ (bootstrap s' = Some (with_queue b source (queue ++ [now])) ∨ bootstrap s' = None)) →
  guarded source (calls ++ [(locked, (now, L))]) s'.
Proof.
  intros [Hs Hq] Hlocked Hnow Hb queue Hcases. apply Hq in Hb as (old & Hg & Hlen & Hold).
  destruct (retain_recent_split (queue_of b source) now) as (dropped & Hsplit & Hdropped). fold queue in Hsplit.
  assert (Forall (λ t, PAIRING_FAILURE_WINDOW <= locked - t) (old ++ dropped)) as Hall.
  { apply Forall_app. split; (eapply Forall_impl; [eassumption|]).
    - intros t (e & Hin & Ht). apply Hlocked in Hin. lia.
    - intros t Ht. cbn in Ht. lia. }
  assert (Forall (λ t, ∃ e, e ∈ calls ++ [(locked, (now, L))] ∧ PAIRING_FAILURE_WINDOW <= e.1 - t) (old ++ dropped)) as Hlater.
  { eapply Forall_impl; [exact Hall|]. intros t Ht. exists (locked, (now, L)). split; [|done].
    apply elem_of_app. right. by left. }
  assert (map fst (guesses source calls) = (old ++ dropped) ++ queue) as Hg'
    by (by rewrite Hg, Hsplit, <- app_assoc).
  assert (zlen queue <= MAX_PAIRING_FAILURES) as Hqlen.
  { rewrite Hsplit in Hlen. unfold zlen in *. rewrite length_app in Hlen. lia. }
  destruct Hcases as [[Hl Hb']|(Hl & Hlt & Hb')].
  - split; [by rewrite guesses_app, Hl, app_nil_r|]. intros b' Hb''. rewrite Hb' in Hb''. injection Hb'' as <-.
    exists (old ++ dropped). rewrite queue_with_same, guesses_app, Hl, app_nil_r. by split_and!.
  - split.
    + rewrite guesses_app, Hl. by eapply spaced_snoc.
    + intros b' Hb''. destruct Hb' as [Hb'|Hb']; rewrite Hb' in Hb''; [|done]. injection Hb'' as <-.
      exists (old ++ dropped). rewrite queue_with_same, guesses_app, Hl, map_app, Hg', <- app_assoc.
      split_and!; [done| |done]. unfold zlen in *. rewrite length_app. simpl. lia.
Qed.

Lemma step_guarded source calls locked now s w L s' w' :
  guarded source calls s → (∀ e, e ∈ calls → e.1 <= locked) → now <= locked →
  auth_step limits now (s, w) L (s', w') → guarded source (calls ++ [(locked, (now, L))]) s'.
Proof.
  intros Hg Hlocked Hnow [(source' & cookie & csrf & secret & r & -> & Hp)|(_ & Hl & Hb)]%step_bootstrap.
  2:{ apply (guarded_same source calls s); [done|done|]. intros b Hs'. exists b. destruct Hb; [|congruence].
      split; [congruence|done]. }
  destruct (bootstrap s) as [b|] eqn:Hb.
  2:{ apply pair_without in Hp as [Hb' Hr]; [|done]. apply (guarded_same source calls s); [|done|congruence].
      by destruct Hr as [-> | ->]. }
  apply (pair_cases _ _ _ _ _ _ _ _ _ _ b) in Hp; [|done].
  destruct (decide (source' = source)) as [->|Hne].
  - remember (bootstrap s') as ob eqn:Hb'.
    destruct Hp as [| |e He|e He Hq|c Hq _ _ _ _];
      try (apply (guarded_same source calls s); [done|done|intros b' Hs'; rewrite <- Hb' in Hs'; simplify_eq; eauto]).
    + eapply (guarded_pair source calls s); [done..|]. left. split; [|done]. by destruct He as [-> | ->].
    + eapply (guarded_pair source calls s); [done..|]. right. split_and!; [|done|by left].
      by destruct He as [-> | ->]; simpl; rewrite bool_decide_eq_true_2.
    + eapply (guarded_pair source calls s); [done..|]. right. split_and!; [|done|by right].
      simpl. by rewrite bool_decide_eq_true_2.
  - apply (guarded_same source calls s); [|done|].
    + simpl. repeat case_match; try done; by apply bool_decide_eq_false_2.
    + remember (bootstrap s') as ob eqn:Hb'. intros b' ->. exists b. split; [done|].
      inversion Hp; subst; [done|by apply queue_with_other..].
Qed.

(** C17: Guesses are limited.  Threads read the clock before they take the lock, so calls may
    come in any order and at any moments.  Of any six calls of one source whose tokens and
    secret are compared, wrong or right, the sixth takes the lock five minutes or more
    after the first read the clock. *)
Theorem guesses_limited s0 calls s w source b0 :
  bootstrap s0 = Some b0 → failures b0 = ∅ → auth_run limits s0 calls s w → spaced (guesses source calls).
Proof.
  intros Hb0 Hf0 Hrun. enough (guarded source calls s) as [? _] by done.
  induction Hrun as [w|calls s w w' _ IH|calls s w locked now L s' w' _ IH Hlocked Hnow Hstep];
    [|done|by eapply step_guarded].
  split; [by intros [|i] t t'|]. intros b Hb. exists [].
  assert (queue_of b source = []) as Hq by (unfold queue_of; by rewrite Hb0 in Hb; injection Hb as <-; rewrite Hf0).
  by rewrite Hq.
Qed.
(** *** Pairing happens once *)

(** What stays of a bootstrap *)
Definition same_bootstrap (b0 b : Bootstrap) : Prop :=
  secret_digest b = secret_digest b0 ∧ bs_cookie_token b = bs_cookie_token b0
  ∧ bs_csrf_token b = bs_csrf_token b0 ∧ expires_at b = expires_at b0.

(** A pairing that succeeded showed all that the bootstrap asks for, in time. *)
Definition proper_pairing (b0 : Bootstrap) (e : Z * AuthLabel) : Prop :=
  match e.2 with
  | L_pair _ cookie csrf secret (Ok _) =>
    e.1 < expires_at b0 ∧ cookie = bs_cookie_token b0 ∧ csrf = bs_csrf_token b0
    ∧ sha256 secret = secret_digest b0
  | _ => True
  end.

Definition pairings (h : History) : nat := length (List.filter (λ e, paired e.2) h).

Record once (b0 : Bootstrap) (h : History) (s : AuthState) : Prop := {
  on_proper : Forall (proper_pairing b0) h;
  on_count : (pairings h <= 1)%nat;
  on_open b : bootstrap s = Some b → same_bootstrap b0 b ∧ pairings h = 0%nat;
}.

Lemma pairings_snoc h now L : pairings (h ++ [(now, L)]) = (pairings h + if paired L then 1 else 0)%nat.
Proof. unfold pairings. rewrite List.filter_app, length_app. simpl. by destruct (paired L). Qed.

Lemma once_unpaired b0 h s now L s' :
  once b0 h s → paired L = false →
  (∀ b, bootstrap s' = Some b → ∃ b', bootstrap s = Some b' ∧ same_bootstrap b' b) →
  once b0 (h ++ [(now, L)]) s'.
Proof.
  intros [Hp Hc Ho] Hl Hb. split.
  - apply Forall_app. split; [done|]. constructor; [|done]. destruct L as [|? ? ? ? []| | | | | |]; done.
  - rewrite pairings_snoc, Hl. lia.
  - intros b (b' & Hb' & Hsame)%Hb. destruct (Ho b' Hb') as [Hsame' Hz]. rewrite pairings_snoc, Hl, Hz.
    split; [|done]. unfold same_bootstrap in *. intuition congruence.
Qed.

Lemma step_once b0 h now s w L s' w' :
  once b0 h s → auth_step limits now (s, w) L (s', w') → once b0 (h ++ [(now, L)]) s'.
Proof.
  intros Ho [(source & cookie & csrf & secret & r & -> & Hp)|(Hl & _ & Hb)]%step_bootstrap.
  2:{ apply (once_unpaired b0 h s); [done|done|]. intros b Hs'. exists b. destruct Hb; [|congruence].
      split; [congruence|]. by split_and!. }
  destruct (bootstrap s) as [b|] eqn:Hb.
  2:{ apply pair_without in Hp as [Hb' Hr]; [|done]. apply (once_unpaired b0 h s); [done| |congruence].
      by destruct Hr as [-> | ->]. }
  apply (pair_cases _ _ _ _ _ _ _ _ _ _ b) in Hp; [|done].
  remember (bootstrap s') as ob eqn:Hb'. destruct Hp as [| |e He|e He Hq|c _ Ht Hc Hcs Hs];
    try (apply (once_unpaired b0 h s); [done|done|]; intros b' Hs'; rewrite <- Hb' in Hs'; simplify_eq;
         eexists; (split; [eassumption|by repeat split])).
  destruct Ho as [Hp Hcount Hopen]. destruct (Hopen b Hb) as [(Hd & Hk & Hcsrf & He) Hz]. split.
  - apply Forall_app. split; [done|]. constructor; [|done]. unfold proper_pairing. simpl. split_and!; [lia|congruence..].
  - rewrite pairings_snoc, Hz. simpl. lia.
  - congruence.
Qed.

Lemma run_once b0 s0 calls s w :
  bootstrap s0 = Some b0 → auth_run limits s0 calls s w → once b0 (history_of calls) s.
Proof.
  intros Hb0 Hrun. induction Hrun as [w|calls s w w' _ IH|calls s w locked now L s' w' _ IH _ _ Hstep];
    [|done|rewrite history_of_snoc; by eapply step_once].
  split; [done|unfold pairings; simpl; lia|]. intros b Hb. rewrite Hb0 in Hb. injection Hb as <-. by split_and!.
Qed.
End auth.

Section load.
  Context {W : Type} `{SecretFs W, Entropy W, Codec}.
  Context (limits : WebLimits).

Lemma load_store_Ok path now w s w' :
  load_store limits path now w = (Ok s, w') →
  ∃ material w1 b, read_secret path w = (Ok material, w1) ∧ sessions s = ∅ ∧ bootstrap s = Some b
    ∧ secret_digest b = sha256 material ∧ failures b = ∅
    ∧ expires_at b = now + from_secs (bootstrap_lifetime_seconds limits).
Proof.
  unfold load_store. intros (material & w1 & Hm & (expires & w2 & He & (c & w3 & _ & (t & w4 & _ & Hr)%io_bind_Ok)%io_bind_Ok)%io_bind_Ok)%io_bind_Ok.
  injection Hr as <- _. apply lift_Ok in He as [He%ok_or_Ok _].
  exists material, w1. eexists. split_and!; try done. cbn.
  unfold instant_checked_add in He. case_match; by simplify_eq.
Qed.

(** C16: The console is paired at most once in its life, by a call that showed both
    tokens of its page before the bootstrap expired and a secret with the digest of
    the one in its file; afterwards nothing can be paired, and before it, or when it
    fails, nobody has a session but those who signed in. *)
Theorem pairing_once path now w0 s0 w1 calls s w :
  load_store limits path now w0 = (Ok s0, w1) → auth_run limits s0 calls s w →
  let h := history_of calls in
  ∃ material w2 b0, read_secret path w0 = (Ok material, w2)
    ∧ secret_digest b0 = sha256 material
    ∧ expires_at b0 = now + from_secs (bootstrap_lifetime_seconds limits)
    ∧ Forall (proper_pairing b0) h ∧ (pairings h <= 1)%nat
    ∧ (pairings h = 1%nat → ∀ t, (pairing t s).1 = None)
    ∧ (∀ cookie x, sessions s !! cookie = Some x →
         ∃ t L, (t, L) ∈ h ∧ establishes cookie L).
Proof.
  intros (material & w2 & b0 & Hm & Hempty & Hb0 & Hd & Hf & He)%load_store_Ok Hrun.
  exists material, w2, b0. destruct (run_once limits b0 s0 calls s w Hb0 Hrun) as [Hp Hc Hopen].
  split_and!; try done.
  - intros Hone t. unfold pairing. destruct (bootstrap s) as [b|]; [|done].
    destruct (Hopen b eq_refl) as [_ Hz]. lia.
  - intros cookie x Hx. apply (run_backed limits s0 calls s w Hempty Hrun) in Hx
      as (before & L & after & Hh & Hest & _). rewrite Hh. exists (created_at x), L. split; [|done].
    apply elem_of_app. right. by left.
Qed.
End load.

(** ** Witnesses *)

(** A world of the content of the one secret file, and of a source of random bytes *)
Definition DeskWorld : Type := string * nat.

Definition secret_meta (content : string) : SecretMeta := {|
  sm_is_file := true; sm_is_link := false; sm_length := len content; sm_permissions := 384 |}.

Definition desk_fs : SecretFs DeskWorld := {|
  se_metadata _ w := (Some (secret_meta w.1), w);
  se_identity _ w := (Some "file", w);
  se_open _ w := (true, w);
  se_file_metadata w := (Some (secret_meta w.1), w);
  se_file_identity w := (Some "file", w);
  se_read n w := (Some (String.substring 0 (Z.to_nat n) w.1), w) |}.

(** Each draw is a new token. *)
Definition desk_entropy : Entropy DeskWorld := {|
  getrandom _ w := (Some (display_u64 (Z.of_nat w.2)), (w.1, S w.2));
  url_safe_no_pad bytes := "token-" +:+ bytes |}.

Section witnesses.
  #[local] Existing Instances checksum_codec desk_fs desk_entropy.

Definition desk_secret : string := "synthetic-bootstrap-secret".
Definition line_feed : string := String (ascii_of_N 10) "".
Definition carriage_return : string := String (ascii_of_N 13) "".
Definition long_secret : string := String.string_of_list_ascii (repeat "s"%char 256).

(** A secret of the greatest length may end its line as on Unix, not as on Windows,
    although the file passes the checks of its length. *)
Example long_secret_unix : (read_secret "/secret" (long_secret +:+ line_feed, 0%nat)).1 = Ok long_secret.
Proof. vm_compute. reflexivity. Qed.
Example long_secret_windows :
  (read_secret "/secret" (long_secret +:+ carriage_return +:+ line_feed, 0%nat)).1
  = Err (ConfigMessage "bootstrap secret is invalid")
  ∧ validate_secret_metadata (secret_meta (long_secret +:+ carriage_return +:+ line_feed)) = Ok tt.
Proof. vm_compute. done. Qed.

Notation desk := (desk_secret +:+ line_feed, 0%nat).
Notation local := (IpV4 2130706433).

(** The state after the console started *)
Definition desk_bootstrap (queue : gmap IpAddr (list Z)) : Bootstrap := {|
  secret_digest := sha256 desk_secret; bs_cookie_token := "token-0"; bs_csrf_token := "token-1";
  expires_at := from_secs 600; failures := queue |}.
Definition desk_state (queue : gmap IpAddr (list Z)) : AuthState := {|
  bootstrap := Some (desk_bootstrap queue); sessions := ∅ |}.

Lemma desk_loads : load_store default_limits "/secret" 0 desk = (Ok (desk_state ∅), (desk.1, 2%nat)).
Proof. vm_compute. reflexivity. Qed.

(** A wrong guess, the pairing, and a look at the session; the guess waits for the lock. *)
Definition desk_calls : Calls :=
  [(3, (1, L_pair local "token-0" "token-1" "wrong" (Err PairingFailure.Denied)));
   (4, (2, L_pair local "token-0" "token-1" desk_secret (Ok "token-2")))].
Notation desk_history := (history_of desk_calls).
Definition desk_session : Session := new_session 2 (sha256 "token-2") "token-3".
Definition desk_paired : AuthState := {| bootstrap := None; sessions := {["token-2" := desk_session]} |}.

Lemma desk_run : auth_run default_limits (desk_state ∅) desk_calls desk_paired (desk.1, 4%nat).
Proof.
  apply (run_step default_limits _
    [(3, (1, L_pair local "token-0" "token-1" "wrong" (Err PairingFailure.Denied)))]
    (desk_state {[local := [1]]}) (desk.1, 2%nat)).
  - apply (run_step default_limits _ [] (desk_state ∅) (desk.1, 2%nat));
      [constructor|by intros ? ?%elem_of_nil|lia|]. apply step_pair. vm_compute. reflexivity.
  - intros e ->%list_elem_of_singleton. simpl. lia.
  - lia.
  - apply step_pair. vm_compute. reflexivity.
Qed.

Lemma desk_authenticates : authenticate default_limits "token-2" 5 desk_paired
  = (Some {| sv_binding := sha256 "token-2"; sv_csrf_token := "token-3" |},
     {| bootstrap := None; sessions := {["token-2" := see_session 5 desk_session]} |}).
Proof. vm_compute. reflexivity. Qed.

Lemma session_accounted_witness : ∃ before t L after,
  desk_history = before ++ (t, L) :: after ∧ establishes "token-2" L
  ∧ Forall (λ e, ¬ ends_session "token-2" e.2 ∧ ¬ establishes "token-2" e.2) after
  ∧ 5 - t < from_secs (session_absolute_seconds default_limits)
  ∧ sha256 "token-2" = binding_of "token-2" L
  ∧ ∃ t' L', (t', L') ∈ (t, L) :: after ∧ shows "token-2" L'
      ∧ 5 - t' < from_secs (session_idle_seconds default_limits).
Proof.
  exact (session_accounted default_limits (desk_state ∅) desk_calls desk_paired (desk.1, 4%nat) 5
    "token-2" _ _ eq_refl desk_run desk_authenticates).
Defined.

Lemma guesses_limited_witness :
  guesses local desk_calls = [(1, 3); (2, 4)] ∧ spaced (guesses local desk_calls).
Proof.
  split; [vm_compute; reflexivity|].
  exact (guesses_limited default_limits (desk_state ∅) desk_calls desk_paired (desk.1, 4%nat) local
    (desk_bootstrap ∅) eq_refl eq_refl desk_run).
Defined.

Lemma pairing_once_witness : pairings desk_history = 1%nat ∧ ∃ material w2 b0,
  read_secret "/secret" desk = (Ok material, w2) ∧ secret_digest b0 = sha256 material
  ∧ expires_at b0 = 0 + from_secs (bootstrap_lifetime_seconds default_limits)
  ∧ Forall (proper_pairing b0) desk_history ∧ (pairings desk_history <= 1)%nat
  ∧ (pairings desk_history = 1%nat → ∀ t, (pairing t desk_paired).1 = None)
  ∧ (∀ cookie x, sessions desk_paired !! cookie = Some x →
       ∃ t L, (t, L) ∈ desk_history ∧ establishes cookie L).
Proof.
  split; [reflexivity|].
  exact (pairing_once default_limits "/secret" 0 desk (desk_state ∅) (desk.1, 2%nat) desk_calls desk_paired
    (desk.1, 4%nat) desk_loads desk_run).
Defined.
End witnesses.
