(* ===== verification/Endpoint.v ===== *)
(** * Endpoint: which servers the client talks to, and how
    ([crates/immich-client/src/endpoint.rs], [auth.rs], [tls.rs], [network_policy.rs])

    An endpoint is a URL origin: HTTPS, or HTTP when the host is written as a local one.  The access of a client
    is decided from it once; the HTTP client is built without redirects and, when
    addresses are pinned, connects to those only. *)
From Stdlib Require Import Ascii.
From stdpp Require Import strings.
From S2P Require Export Net Client Executor.

(** ** [endpoint.rs] *)

Module EndpointError.
Inductive t :=
  | InvalidOrigin
  | UnsupportedScheme
  | InsecureRemoteOrigin
  | DisposableRequiresLoopback
  | ProductionReadNotAcknowledged
  | ProductionReadRequiresRemoteHttps.
End EndpointError.

Module AccessMode.
Inductive t := Disposable | ProductionRead.
#[global] Instance t_eq_dec : EqDecision t.
Proof. solve_decision. Defined.
End AccessMode.

Record EndpointAccess := { ea_mode : AccessMode.t }.

(** [domain.to_ascii_lowercase()] *)
Definition to_ascii_lowercase (s : string) : string :=
  String.string_of_list_ascii
    (map (λ a, if (65 <=? code a) && (code a <=? 90) then ascii_of_N (Z.to_N (code a + 32)) else a)
       (bytes s)).

Definition is_loopback_host (host : Host.t) : bool :=
  match host with
  | Host.Domain domain =>
    eq_ignore_ascii_case domain "localhost"
    || is_some_and (Text.strip_suffix ".localhost" (to_ascii_lowercase domain))
         (λ prefix, negb (is_empty prefix))
  | Host.Ipv4 address => is_loopback (IpV4 address)
  | Host.Ipv6 address => is_loopback (IpV6 address)
  end.

Section endpoint.
  Context `{UrlLib}.

Record ImmichEndpoint := { origin : Url; loopback : bool }.

(** [EndpointAccess::disposable] and [EndpointAccess::production_read] *)
Definition access_disposable (endpoint : ImmichEndpoint) : result EndpointError.t EndpointAccess :=
  if loopback endpoint then Ok {| ea_mode := AccessMode.Disposable |}
  else Err EndpointError.DisposableRequiresLoopback.

Definition access_production_read (endpoint : ImmichEndpoint) (acknowledged : bool) :
    result EndpointError.t EndpointAccess :=
  _ ← fail_if (negb acknowledged) EndpointError.ProductionReadNotAcknowledged;
  _ ← fail_if (loopback endpoint || negb (String.eqb (url_scheme (origin endpoint)) "https"))
        EndpointError.ProductionReadRequiresRemoteHttps;
  Ok {| ea_mode := AccessMode.ProductionRead |}.

Definition permits_upload (access : EndpointAccess) : bool :=
  bool_decide (ea_mode access = AccessMode.Disposable).
Definition permits_production_upload (access : EndpointAccess) : bool :=
  bool_decide (ea_mode access = AccessMode.ProductionRead).

(** [ImmichEndpoint::parse] *)
Definition endpoint_parse (value : string) : result EndpointError.t ImmichEndpoint :=
  origin ← ok_or (url_parse value) EndpointError.InvalidOrigin;
  _ ← fail_if (negb (is_empty (url_username origin))
               || is_some (url_password origin)
               || is_some (url_query origin)
               || is_some (url_fragment origin)
               || negb (is_empty (url_path origin) || String.eqb (url_path origin) "/"))
        EndpointError.InvalidOrigin;
  let loopback := is_some_and (url_host origin) is_loopback_host in
  _ ← (if String.eqb (url_scheme origin) "https" then Ok tt
       else if String.eqb (url_scheme origin) "http" && loopback then Ok tt
       else if String.eqb (url_scheme origin) "http" then Err EndpointError.InsecureRemoteOrigin
       else Err EndpointError.UnsupportedScheme);
  Ok {| origin := url_set_path "/" origin; loopback := loopback |}.

Definition same_origin (a b : ImmichEndpoint) : bool := bool_decide (origin a = origin b).

Definition api_url (endpoint : ImmichEndpoint) (path : string) : result EndpointError.t Url :=
  ok_or (url_join path (origin endpoint)) EndpointError.InvalidOrigin.

Definition canonical_origin (endpoint : ImmichEndpoint) : string := url_as_str (origin endpoint).

Definition resolution_target (endpoint : ImmichEndpoint) :
    result EndpointError.t (string * Z * option IpAddr) :=
  host ← ok_or (url_host_str (origin endpoint)) EndpointError.InvalidOrigin;
  port ← ok_or (url_port_or_known_default (origin endpoint)) EndpointError.InvalidOrigin;
  Ok (host, port, parse_ip host).
End endpoint.

(** ** [auth.rs] *)

Definition MAX_API_KEY_BYTES : Z := 4096.

Record ApiKey := { key_value : string }.
Inductive ApiKeyError := InvalidApiKey.

(** [ApiKey::new] *)
Definition api_key_new `{HeaderLib} (value : string) : result ApiKeyError ApiKey :=
  _ ← fail_if (is_empty value || (MAX_API_KEY_BYTES <? len value)) InvalidApiKey;
  _ ← fail_if (negb (valid_header_value value)) InvalidApiKey;
  Ok {| key_value := value |}.

(** ** [tls.rs] *)

(** [reqwest::Certificate::from_pem_bundle], and whether [ClientBuilder::build] accepts
    the certificates *)
Class TlsLib := {
  Certificate : Type;
  from_pem_bundle : string → option (list Certificate);
  tls_build : list Certificate → bool;
}.

Definition MAX_PEM_BUNDLE_BYTES : Z := 1024 * 1024.
Definition MAX_ROOT_CERTIFICATES : Z := 64.

Definition protocol_error : ClientError := client_error ClientErrorClass.Protocol.
Definition compatibility_error : ClientError := client_error ClientErrorClass.Compatibility.

Section tls.
  Context `{TlsLib}.

Record TlsRootCertificates := { certificates : list Certificate }.

(** [TlsRootCertificates::from_pem_bundle] *)
Definition roots_from_pem (pem : string) : result ClientError TlsRootCertificates :=
  _ ← fail_if (is_empty pem || (MAX_PEM_BUNDLE_BYTES <? len pem)) protocol_error;
  found ← ok_or (from_pem_bundle pem) protocol_error;
  _ ← fail_if ((zlen found =? 0) || (MAX_ROOT_CERTIFICATES <? zlen found)) protocol_error;
  Ok {| certificates := found |}.
End tls.

(** ** [network_policy.rs] *)

Definition MAX_PINNED_ADDRESSES : Z := 8.

Record PinnedEndpointAddresses := {
  pea_host : string;
  pea_addresses : list SocketAddr;
  pea_endpoint_sha256 : string;
}.

Section network.
  Context `{UrlLib, TlsLib, Codec}.

(** [PinnedEndpointAddresses::new] *)
Definition pinned_new (endpoint : ImmichEndpoint) (addresses : list SocketAddr) :
    result ClientError PinnedEndpointAddresses :=
  '(host, port, literal_ip) ← map_err (λ _, protocol_error) (resolution_target endpoint);
  let unique := socket_set addresses in
  let valid := in_range 1 MAX_PINNED_ADDRESSES (zlen addresses)
    && (zlen unique =? zlen addresses)
    && forallb (λ address, (sa_port address =? port)
         && is_none_or literal_ip (λ literal, bool_decide (sa_ip address = literal))) addresses in
  _ ← fail_if (negb valid) protocol_error;
  Ok {| pea_host := host; pea_addresses := addresses;
        pea_endpoint_sha256 := sha256 (canonical_origin endpoint) |}.

(** [PinnedEndpointAddresses::matches] *)
Definition pinned_matches (pinned : PinnedEndpointAddresses) (endpoint : ImmichEndpoint) : bool :=
  String.eqb (sha256 (canonical_origin endpoint)) (pea_endpoint_sha256 pinned).

(** What the builder is told: the [Accept] header, the timeout, no redirects, the
    additional roots and the addresses the host is resolved to. *)
Record HttpClient := {
  hc_accept : string;
  hc_timeout : Z;
  hc_follow_redirects : bool;
  hc_roots : list Certificate;
  hc_resolve : option (string * list SocketAddr);
}.

Definition build_http_client (endpoint : ImmichEndpoint) (config : ClientConfig)
    (roots : option TlsRootCertificates) (addresses : option PinnedEndpointAddresses) :
    result ClientError HttpClient :=
  let certificates := match roots with Some roots => certificates roots | None => [] end in
  resolve ← match addresses with
            | Some addresses =>
              _ ← fail_if (negb (pinned_matches addresses endpoint)) protocol_error;
              Ok (Some (pea_host addresses, pea_addresses addresses))
            | None => Ok None
            end;
  _ ← fail_if (negb (tls_build certificates)) protocol_error;
  Ok {| hc_accept := "application/json"; hc_timeout := request_timeout config;
        hc_follow_redirects := false; hc_roots := certificates; hc_resolve := resolve |}.
End network.

(** ** Facts *)

Section facts.
  Context `{UrlLib}.

(** An endpoint is over plain HTTP only when its host is written as a local one. *)
Lemma endpoint_parse_Ok `{!UrlLaws} value endpoint :
  endpoint_parse value = Ok endpoint →
  loopback endpoint = is_some_and (url_host (origin endpoint)) is_loopback_host
  ∧ (url_scheme (origin endpoint) = "https"
     ∨ url_scheme (origin endpoint) = "http" ∧ loopback endpoint = true).
Proof.
  intros Hp. unfold endpoint_parse in Hp. result_inv. cbn [origin loopback].
  rewrite set_path_host, set_path_scheme. split; [done|].
  destruct (String.eqb_spec (url_scheme x) "https"); [by left|].
  destruct (String.eqb_spec (url_scheme x) "http"); simpl in *; [|done].
  destruct (is_some_and _ _); [by right|done].
Qed.

Lemma access_disposable_Ok endpoint access :
  access_disposable endpoint = Ok access ↔
    loopback endpoint = true ∧ ea_mode access = AccessMode.Disposable.
Proof. unfold access_disposable. destruct access as [[]], (loopback endpoint); naive_solver. Qed.

Lemma access_production_read_Ok endpoint acknowledged access :
  access_production_read endpoint acknowledged = Ok access ↔
    acknowledged = true ∧ loopback endpoint = false
    ∧ url_scheme (origin endpoint) = "https" ∧ ea_mode access = AccessMode.ProductionRead.
Proof.
  unfold access_production_read. rewrite !bind_fail_if_Ok, negb_false_iff, orb_false_iff,
    negb_false_iff, String.eqb_eq. destruct access as [[]]; naive_solver.
Qed.

(** The literal address of an endpoint: found in an IPv4 origin, never in an IPv6 one,
    whose host is written in brackets. *)
Lemma resolution_target_ipv4 `{!UrlLaws} endpoint b host port literal :
  url_host (origin endpoint) = Some (Host.Ipv4 b) →
  resolution_target endpoint = Ok (host, port, literal) → literal = Some (IpV4 b).
Proof.
  intros (s & Hs & Hip)%host_str_ipv4 Hr. unfold resolution_target in Hr. rewrite Hs in Hr.
  simpl in Hr. result_inv. done.
Qed.

Lemma resolution_target_ipv6 `{!UrlLaws} endpoint b host port literal :
  url_host (origin endpoint) = Some (Host.Ipv6 b) →
  resolution_target endpoint = Ok (host, port, literal) → literal = None.
Proof.
  intros (s & Hs)%host_str_ipv6 Hr. unfold resolution_target in Hr. rewrite Hs in Hr.
  simpl in Hr. result_inv. apply parse_ip_bracket.
Qed.

Context `{TlsLib, Codec}.

(** What is pinned: one to eight distinct addresses on the port of the endpoint, all of
    them the literal address when the endpoint is an IPv4 one. *)
Lemma pinned_new_Ok endpoint addresses pinned :
  pinned_new endpoint addresses = Ok pinned →
  pea_addresses pinned = addresses ∧ NoDup addresses ∧ 1 <= zlen addresses <= MAX_PINNED_ADDRESSES
  ∧ url_host_str (origin endpoint) = Some (pea_host pinned)
  ∧ Forall (λ a, url_port_or_known_default (origin endpoint) = Some (sa_port a)
      ∧ ∀ literal, parse_ip (pea_host pinned) = Some literal → sa_ip a = literal) addresses.
Proof.
  intros Hp. unfold pinned_new in Hp. apply bind_Ok in Hp as ([[host port] literal] & Hr & Hp).
  apply map_err_Ok in Hr. unfold resolution_target in Hr. result_inv. cbn [pea_addresses pea_host].
  match goal with H : negb _ = false |- _ =>
    apply negb_false_iff, andb_true_iff in H as [[Hn Hu]%andb_true_iff Hall] end.
  apply Z.eqb_eq, socket_set_length in Hu. split_and!; try done.
  - unfold in_range in Hn. lia.
  - unfold in_range in Hn. lia.
  - apply Forall_forall. intros a Ha. rewrite forallb_forall in Hall.
    specialize (Hall a (proj1 (list_elem_of_In _ _) Ha)).
    apply andb_true_iff in Hall as [<-%Z.eqb_eq Hlit]. split; [done|].
    intros literal Hp. rewrite Hp in Hlit. simpl in Hlit. by apply bool_decide_eq_true in Hlit.
Qed.
End facts.
