(* ===== verification/ReadClient.v ===== *)
(** * ReadClient: the authenticated client and the capabilities made from it
    ([crates/immich-client/src/read.rs], the constructors of [upload.rs], [import.rs] and
    [production.rs])

    A client is built for one endpoint with the access the endpoint has.  Probing the
    server gives a proof that names the origin; the client and a matching proof give the
    right to upload, to a host written as a local one, or of one exact plan that was confirmed. *)
From Stdlib Require Import Ascii.
From stdpp Require Import strings.
From S2P Require Export Endpoint Console Apply ImportApply.

Definition SUPPORTED_MAJOR : Z := 3.
Definition SUPPORTED_MINOR : Z := 1.

(** [ClientConfig::default] *)
Definition default_client_config : ClientConfig := {|
  request_timeout := from_secs 30; max_response_bytes := 64 * 1024;
  retry_after_cap := from_secs 60; upload_buffer_bytes := 64 * 1024 |}.

(** [ClientConfig::validate] *)
Definition client_config_validate (config : ClientConfig) : result ClientError ClientConfig :=
  let valid := negb (request_timeout config =? 0)
    && ScanConfig.in_range 1024 (1024 * 1024) (max_response_bytes config)
    && ScanConfig.in_range (4 * 1024) (4 * 1024 * 1024) (upload_buffer_bytes config)
    && (retry_after_cap config <=? from_secs 300) in
  if valid then Ok config else Err protocol_error.

(** ** Responses of the server *)

Record VersionResponse := {
  vr_major : Z;
  vr_minor : Z;
  vr_patch : Z;
  vr_prerelease : option Z;
}.
Record UserResponse := { usr_id : string }.

(** [client.get(url).header("x-api-key", key).send()], and [serde_json] *)
Class ReadTransport (W : Type) `{UrlLib, TlsLib} := {
  http_get : HttpClient → Url → ApiKey → W → result TransportError HttpResponse * W;
  decode_version : string → option VersionResponse;
  decode_user : string → option UserResponse;
}.

(** ** The client *)

(** A proof of a successful probe *)
Record NegotiatedServer := {
  ns_compatibility : ServerCompatibility;
  ns_origin_sha256 : string;
}.
Definition migration_server (n : NegotiatedServer) : MigrationServer :=
  {| ms_compatibility := ns_compatibility n; ms_origin_sha256 := ns_origin_sha256 n |}.

Section read_client.
  Context {W : Type} `{UrlLib, TlsLib, Codec, TimeLib, Cancellation W, !ReadTransport W}.
Notation call := (io W ClientError).

Record ImmichReadClient := {
  rc_http : HttpClient;
  rc_endpoint : ImmichEndpoint;
  rc_api_key : ApiKey;
  rc_config : ClientConfig;
  rc_access : EndpointAccess;
}.

Definition new_with_access (endpoint : ImmichEndpoint) (api_key : ApiKey) (config : ClientConfig)
    (access : EndpointAccess) (roots : option TlsRootCertificates)
    (addresses : option PinnedEndpointAddresses) : result ClientError ImmichReadClient :=
  config ← client_config_validate config;
  http ← build_http_client endpoint config roots addresses;
  Ok {| rc_http := http; rc_endpoint := endpoint; rc_api_key := api_key;
        rc_config := config; rc_access := access |}.

(** [ImmichReadClient::new] *)
Definition read_client_new (endpoint : ImmichEndpoint) (api_key : ApiKey) (config : ClientConfig) :
    result ClientError ImmichReadClient :=
  access ← map_err (λ _, compatibility_error) (access_disposable endpoint);
  new_with_access endpoint api_key config access None None.

Definition new_production_read (endpoint : ImmichEndpoint) (api_key : ApiKey) (config : ClientConfig)
    (acknowledged : bool) : result ClientError ImmichReadClient :=
  access ← map_err (λ _, compatibility_error) (access_production_read endpoint acknowledged);
  new_with_access endpoint api_key config access None None.

Definition new_production_read_with_roots (endpoint : ImmichEndpoint) (api_key : ApiKey)
    (config : ClientConfig) (acknowledged : bool) (roots : TlsRootCertificates) :
    result ClientError ImmichReadClient :=
  access ← map_err (λ _, compatibility_error) (access_production_read endpoint acknowledged);
  new_with_access endpoint api_key config access (Some roots) None.

Definition new_pinned (endpoint : ImmichEndpoint) (api_key : ApiKey) (config : ClientConfig)
    (roots : option TlsRootCertificates) (addresses : PinnedEndpointAddresses) :
    result ClientError ImmichReadClient :=
  access ← map_err (λ _, compatibility_error) (access_disposable endpoint);
  new_with_access endpoint api_key config access roots (Some addresses).

Definition new_production_read_pinned (endpoint : ImmichEndpoint) (api_key : ApiKey)
    (config : ClientConfig) (acknowledged : bool) (roots : option TlsRootCertificates)
    (addresses : PinnedEndpointAddresses) : result ClientError ImmichReadClient :=
  access ← map_err (λ _, compatibility_error) (access_production_read endpoint acknowledged);
  new_with_access endpoint api_key config access roots (Some addresses).

(** [get_json]: the request itself is not cancelled. *)
Definition get_json {T} (client : ImmichReadClient) (from_slice : string → option T) (path : string) :
    call T :=
  url ← lift (map_err (λ _, protocol_error) (Endpoint.api_url (rc_endpoint client) path));
  response ← (λ w, let '(r, w) := http_get (rc_http client) url (rc_api_key client) w in
                   (map_err classify_transport r, w));
  lift (read_json (rc_config client) from_slice response).

(** [Sha256::digest] of the origin, a zero byte and the identifier *)
Definition identity_digest (origin user_id : string) : string :=
  sha256_hex (origin +:+ one_byte 0 +:+ user_id).

Definition origin_digest (client : ImmichReadClient) : string :=
  sha256_hex (canonical_origin (rc_endpoint client)).

(** [ImmichReadClient::probe] *)
Definition probe (client : ImmichReadClient) : call NegotiatedServer :=
  _ ← check_cancelled;
  version ← get_json client decode_version "api/server/version";
  _ ← lift (fail_if (negb (vr_major version =? SUPPORTED_MAJOR)
                     || negb (vr_minor version =? SUPPORTED_MINOR)
                     || is_some (vr_prerelease version)) compatibility_error);
  _ ← check_cancelled;
  user ← get_json client decode_user "api/users/me";
  _ ← lift (fail_if (is_empty (usr_id user) || (4096 <? len (usr_id user))) protocol_error);
  let identity := identity_digest (canonical_origin (rc_endpoint client)) (usr_id user) in
  mret {| ns_compatibility :=
            {| version := {| major := vr_major version; minor := vr_minor version;
                             patch := vr_patch version |};
               identity_sha256 := identity |};
          ns_origin_sha256 := origin_digest client |}.

(** ** Capabilities *)

(** [ImmichUploadClient] of upload.rs as a value: the client it was made from, the server
    it was probed as, and whether it may write to a production server *)
Record UploadCapability := {
  uc_read : ImmichReadClient;
  uc_compatibility : ServerCompatibility;
  uc_production : bool;
}.
(** [ImmichImportClient] of import.rs *)
Record ImportCapability := { ic_upload : UploadCapability }.
Record ProductionImmichUploadClient := {
  puc_upload : UploadCapability;
  puc_proof : ProductionUploadAuthorization;
}.
Record ProductionImmichImportClient := {
  pic_import : ImportCapability;
  pic_proof : ProductionImportAuthorization;
}.

Definition from_negotiated (read : ImmichReadClient) (compatibility : ServerCompatibility) :
    UploadCapability :=
  {| uc_read := read; uc_compatibility := compatibility; uc_production := false |}.
Definition from_production (read : ImmichReadClient) (compatibility : ServerCompatibility) :
    UploadCapability :=
  {| uc_read := read; uc_compatibility := compatibility; uc_production := true |}.

(** What the executor asks a capability: [compatibility()] and [is_production()] *)
Definition upload_identity (u : UploadCapability) : ClientIdentity :=
  {| compatibility := uc_compatibility u; is_production := uc_production u |}.
Definition import_identity_of (i : ImportCapability) : ImportIdentity :=
  {| import_compatibility := uc_compatibility (ic_upload i);
     import_production := uc_production (ic_upload i) |}.

Definition validate_negotiated_binding (client : ImmichReadClient) (negotiated : NegotiatedServer) :
    result ClientError unit :=
  fail_if (negb (String.eqb (origin_digest client) (ns_origin_sha256 negotiated))) compatibility_error.

Definition authorize_upload (client : ImmichReadClient) (negotiated : NegotiatedServer) :
    result ClientError UploadCapability :=
  _ ← fail_if (negb (permits_upload (rc_access client))) compatibility_error;
  _ ← validate_negotiated_binding client negotiated;
  Ok (from_negotiated client (ns_compatibility negotiated)).

Definition authorize_import (client : ImmichReadClient) (negotiated : NegotiatedServer) :
    result ClientError ImportCapability :=
  _ ← fail_if (negb (permits_upload (rc_access client))) compatibility_error;
  _ ← validate_negotiated_binding client negotiated;
  Ok {| ic_upload := from_negotiated client (ns_compatibility negotiated) |}.

Definition authorize_production_upload (client : ImmichReadClient) (negotiated : NegotiatedServer)
    (plan : UploadPlan) (confirmation : ProductionWriteConfirmation) :
    result ClientError ProductionImmichUploadClient :=
  _ ← fail_if (negb (permits_production_upload (rc_access client))) compatibility_error;
  _ ← validate_negotiated_binding client negotiated;
  _ ← fail_if (negb (bool_decide (ns_compatibility negotiated = up_server plan))) compatibility_error;
  plan_sha256 ← upload_plan_sha256 plan;
  _ ← fail_if (negb (String.eqb (pwc_plan_sha256 confirmation) plan_sha256)
               || negb (pwc_expected_operations confirmation =? ups_operations (up_summary plan))
               || negb (pwc_expected_operations confirmation =? zlen (up_operations plan)))
        compatibility_error;
  let proof := {| pua_plan_sha256 := plan_sha256;
                  pua_expected_operations := pwc_expected_operations confirmation;
                  pua_backup_reference_sha256 := sha256_hex (pwc_backup_reference confirmation) |} in
  Ok {| puc_upload := from_production client (ns_compatibility negotiated); puc_proof := proof |}.

Definition authorize_production_import (client : ImmichReadClient) (negotiated : NegotiatedServer)
    (plan : UploadPlan) (confirmation : ProductionWriteConfirmation) :
    result ClientError ProductionImmichImportClient :=
  _ ← fail_if (negb (permits_production_upload (rc_access client))) compatibility_error;
  _ ← validate_negotiated_binding client negotiated;
  _ ← fail_if (negb (bool_decide (ns_compatibility negotiated = up_server plan))) compatibility_error;
  plan_sha256 ← upload_plan_sha256 plan;
  _ ← fail_if (negb (String.eqb (pwc_plan_sha256 confirmation) plan_sha256)
               || negb (pwc_expected_operations confirmation =? ups_max_mutations (up_summary plan))
               || negb (up_schema_version plan =? UPLOAD_PLAN_SCHEMA_VERSION_V2))
        compatibility_error;
  let proof := {| pia_plan_sha256 := plan_sha256;
                  pia_expected_mutations := pwc_expected_operations confirmation;
                  pia_backup_reference_sha256 := sha256_hex (pwc_backup_reference confirmation) |} in
  Ok {| pic_import := {| ic_upload := from_production client (ns_compatibility negotiated) |};
        pic_proof := proof |}.
End read_client.
