(* ===== verification/ReadClientTheorems.v ===== *)
(** * ReadClientTheorems: who may write where

    The capabilities a client can hand out, from the way it was built to the guard of the
    executor that uses them. *)
From Stdlib Require Import Ascii.
From stdpp Require Import strings.
From S2P Require Export ReadClient Digest.

Section capabilities.
  Context {W : Type} `{UrlLib, TlsLib, Codec, TimeLib, Cancellation W, !ReadTransport W}.
  Context `{!UrlLaws}.

(** A client only exists through one of the constructors, from a text that was parsed. *)
Inductive constructed (c : ImmichReadClient) : Prop :=
  | constructed_new value endpoint key config :
      endpoint_parse value = Ok endpoint → read_client_new endpoint key config = Ok c → constructed c
  | constructed_production value endpoint key config acknowledged :
      endpoint_parse value = Ok endpoint →
      new_production_read endpoint key config acknowledged = Ok c → constructed c
  | constructed_roots value endpoint key config acknowledged roots :
      endpoint_parse value = Ok endpoint →
      new_production_read_with_roots endpoint key config acknowledged roots = Ok c → constructed c
  | constructed_pinned value endpoint key config roots addresses :
      endpoint_parse value = Ok endpoint →
      new_pinned endpoint key config roots addresses = Ok c → constructed c
  | constructed_production_pinned value endpoint key config acknowledged roots addresses :
      endpoint_parse value = Ok endpoint →
      new_production_read_pinned endpoint key config acknowledged roots addresses = Ok c →
      constructed c.

(** The host is written as a loopback address, as localhost or as a name below it. *)
Definition named_local (endpoint : ImmichEndpoint) : Prop :=
  is_some_and (url_host (origin endpoint)) is_loopback_host = true.

(** The host is written otherwise, and the scheme is https. *)
Definition named_remote_https (endpoint : ImmichEndpoint) : Prop :=
  is_some_and (url_host (origin endpoint)) is_loopback_host = false
  ∧ url_scheme (origin endpoint) = "https".

Definition access_fits (endpoint : ImmichEndpoint) (access : EndpointAccess) : Prop :=
  match ea_mode access with
  | AccessMode.Disposable => named_local endpoint
  | AccessMode.ProductionRead => named_remote_https endpoint
  end.

Lemma build_http_client_Ok endpoint config roots addresses http :
  build_http_client endpoint config roots addresses = Ok http →
  hc_follow_redirects http = false ∧ hc_timeout http = request_timeout config
  ∧ hc_roots http = match roots with Some roots => certificates roots | None => [] end
  ∧ hc_resolve http = (λ a, (pea_host a, pea_addresses a)) <$> addresses
  ∧ ∀ a, addresses = Some a → pinned_matches a endpoint = true.
Proof.
  unfold build_http_client. intros (resolve & Hr & Hb)%bind_Ok. result_inv. cbn.
  split_and!; try done.
  - destruct addresses as [a|]; [|by injection Hr as <-]. by apply bind_fail_if_Ok in Hr as [_ [= <-]].
  - intros a ->. apply bind_fail_if_Ok in Hr as [Hm _]. by apply negb_false_iff.
Qed.

Lemma new_with_access_Ok endpoint key config access roots addresses c :
  new_with_access endpoint key config access roots addresses = Ok c →
  rc_endpoint c = endpoint ∧ rc_access c = access ∧ rc_api_key c = key ∧ rc_config c = config
  ∧ build_http_client endpoint config roots addresses = Ok (rc_http c).
Proof.
  unfold new_with_access. intros (config' & Hc & (http & Hb & [= <-])%bind_Ok)%bind_Ok.
  assert (config' = config) as ->; [|done]. unfold client_config_validate in Hc. cbv zeta in Hc.
  by destruct (_ && _); [injection Hc as ->|].
Qed.

(** What every client is. *)
Lemma constructed_inv c :
  constructed c →
  access_fits (rc_endpoint c) (rc_access c) ∧ hc_follow_redirects (rc_http c) = false.
Proof.
  assert (∀ value endpoint key config roots addresses,
    endpoint_parse value = Ok endpoint →
    (access ← map_err (λ _, compatibility_error) (access_disposable endpoint);
     new_with_access endpoint key config access roots addresses) = Ok c →
    access_fits (rc_endpoint c) (rc_access c) ∧ hc_follow_redirects (rc_http c) = false) as Hdisposable.
  { intros value endpoint key config roots addresses [Hl _]%endpoint_parse_Ok.
    intros (access & [Hloop Hmode]%map_err_Ok%access_disposable_Ok &
      (-> & -> & _ & _ & [Hf _]%build_http_client_Ok)%new_with_access_Ok)%bind_Ok.
    split; [|done]. unfold access_fits, named_local. by rewrite Hmode, <- Hl. }
  assert (∀ value endpoint key config acknowledged roots addresses,
    endpoint_parse value = Ok endpoint →
    (access ← map_err (λ _, compatibility_error) (access_production_read endpoint acknowledged);
     new_with_access endpoint key config access roots addresses) = Ok c →
    access_fits (rc_endpoint c) (rc_access c) ∧ hc_follow_redirects (rc_http c) = false) as Hproduction.
  { intros value endpoint key config acknowledged roots addresses [Hl _]%endpoint_parse_Ok.
    intros (access & (_ & Hloop & Hs & Hmode)%map_err_Ok%access_production_read_Ok &
      (-> & -> & _ & _ & [Hf _]%build_http_client_Ok)%new_with_access_Ok)%bind_Ok.
    split; [|done]. unfold access_fits, named_remote_https. rewrite Hmode, <- Hl. done. }
  intros []; eauto.
Qed.

Definition supported (v : ServerVersion) : Prop := major v = 3 ∧ minor v = 1.

Lemma get_json_Ok {T} client (from_slice : string → option T) path w v w' :
  get_json client from_slice path w = (Ok v, w') →
  ∃ url response, Endpoint.api_url (rc_endpoint client) path = Ok url
    ∧ http_get (rc_http client) url (rc_api_key client) w = (Ok response, w')
    ∧ read_json (rc_config client) from_slice response = Ok v.
Proof.
  unfold get_json. intros (url & w1 & [Hu%map_err_Ok <-]%lift_Ok & (response & w2 & Hg & [Hj <-]%lift_Ok)%io_bind_Ok)%io_bind_Ok.
  destruct (http_get (rc_http client) url (rc_api_key client) w) as [r w3] eqn:Hget.
  injection Hg as Hr ->. apply map_err_Ok in Hr as ->. by exists url, response.
Qed.

Lemma probe_Ok client w n w' :
  probe client w = (Ok n, w') →
  supported (version (ns_compatibility n)) ∧ ns_origin_sha256 n = origin_digest client
  ∧ ∃ id, identity_sha256 (ns_compatibility n) = identity_digest (canonical_origin (rc_endpoint client)) id
      ∧ 1 <= len id <= 4096.
Proof.
  unfold probe.
  intros (?&?&_&(v&?&_&(?&?&[Hv%fail_if_Ok _]%lift_Ok&(?&?&_&(u&?&_&(?&?&[Hu%fail_if_Ok _]%lift_Ok&
    [= <- _])%io_bind_Ok)%io_bind_Ok)%io_bind_Ok)%io_bind_Ok)%io_bind_Ok)%io_bind_Ok. cbn.
  apply orb_false_iff in Hv as [[Hmaj%negb_false_iff%Z.eqb_eq Hmin%negb_false_iff%Z.eqb_eq]%orb_false_iff _].
  apply orb_false_iff in Hu as [He Hl%Z.ltb_ge].
  split; [done|]. split; [done|]. exists (usr_id u). split; [done|]. split; [|done].
  destruct (usr_id u); [done|]. unfold len. simpl. lia.
Qed.

Lemma validate_negotiated_binding_Ok c c' n w w' :
  probe c' w = (Ok n, w') → validate_negotiated_binding c n = Ok tt →
  same_origin (rc_endpoint c) (rc_endpoint c') = true
  ∨ collides sha256 (canonical_origin (rc_endpoint c)) (canonical_origin (rc_endpoint c')).
Proof.
  intros (_ & Ho & _)%probe_Ok Hv. unfold validate_negotiated_binding in Hv.
  apply fail_if_Ok, negb_false_iff, String.eqb_eq in Hv. rewrite Ho in Hv.
  apply sha256_hex_inj in Hv as [Heq|]; [left|by right].
  apply bool_decide_eq_true. by apply url_as_str_inj.
Qed.

(** C13: A capability to upload or to import only exists for the server that was probed at the
    same origin (or SHA-256 collides) and runs a supported version, and its client
    never follows a redirect.  The host of a disposable one is written as a loopback
    address, as localhost or as a name below .localhost, and it is not a production one
    for the executor; the host of a
    production one is written otherwise and its scheme is https.  Both say how the
    host is written, not which address it resolves or is pinned to.  A production one
    is bound to one plan: the plan names that server, the operator confirmed its digest
    and its counts, and the authorization is one that the executor accepts for this
    plan. *)
Theorem capabilities_bound c c' n w w' :
  constructed c → probe c' w = (Ok n, w') →
  let server := ns_compatibility n in
  let bound :=
    supported (version server) ∧ hc_follow_redirects (rc_http c) = false
    ∧ (same_origin (rc_endpoint c) (rc_endpoint c') = true
       ∨ collides sha256 (canonical_origin (rc_endpoint c)) (canonical_origin (rc_endpoint c'))) in
  let identity production := {| compatibility := server; is_production := production |} in
  let import_identity production :=
    {| import_compatibility := server; import_production := production |} in
  (∀ u, authorize_upload c n = Ok u →
     bound ∧ uc_read u = c ∧ named_local (rc_endpoint c) ∧ upload_identity u = identity false)
  ∧ (∀ i, authorize_import c n = Ok i →
     bound ∧ uc_read (ic_upload i) = c ∧ named_local (rc_endpoint c)
     ∧ import_identity_of i = import_identity false)
  ∧ (∀ plan confirmation u, authorize_production_upload c n plan confirmation = Ok u →
     bound ∧ uc_read (puc_upload u) = c ∧ named_remote_https (rc_endpoint c)
     ∧ upload_identity (puc_upload u) = identity true ∧ server = up_server plan
     ∧ upload_plan_sha256 plan = Ok (pwc_plan_sha256 confirmation)
     ∧ pwc_expected_operations confirmation = zlen (up_operations plan)
     ∧ upload_matches_plan (puc_proof u) plan = true)
  ∧ (∀ plan confirmation i, authorize_production_import c n plan confirmation = Ok i →
     bound ∧ uc_read (ic_upload (pic_import i)) = c ∧ named_remote_https (rc_endpoint c)
     ∧ import_identity_of (pic_import i) = import_identity true ∧ server = up_server plan
     ∧ upload_plan_sha256 plan = Ok (pwc_plan_sha256 confirmation)
     ∧ pwc_expected_operations confirmation = ups_max_mutations (up_summary plan)
     ∧ import_matches_plan (pic_proof i) plan = true).
Proof.
  intros [Ha Hf]%constructed_inv Hprobe. cbv zeta. pose proof (probe_Ok _ _ _ _ Hprobe) as [Hs _].
  assert (∀ v, validate_negotiated_binding c n = Ok v →
    supported (version (ns_compatibility n)) ∧ hc_follow_redirects (rc_http c) = false
    ∧ (same_origin (rc_endpoint c) (rc_endpoint c') = true
       ∨ collides sha256 (canonical_origin (rc_endpoint c)) (canonical_origin (rc_endpoint c'))))
    as Hbound.
  { intros [] Hv. split_and!; [done|done|]. by eapply validate_negotiated_binding_Ok. }
  assert (permits_upload (rc_access c) = true → named_local (rc_endpoint c)) as Hlocal.
  { intros Hp%bool_decide_eq_true. unfold access_fits in Ha. by rewrite Hp in Ha. }
  assert (permits_production_upload (rc_access c) = true → named_remote_https (rc_endpoint c)) as Hremote.
  { intros Hp%bool_decide_eq_true. unfold access_fits in Ha. by rewrite Hp in Ha. }
  clear Ha. split_and!; [intros u Hu|intros u Hu|intros plan confirmation u Hu..].
  - unfold authorize_upload in Hu. result_inv. bools. eauto 10.
  - unfold authorize_import in Hu. result_inv. bools. eauto 10.
  - unfold authorize_production_upload in Hu. result_inv. bools.
    match goal with H : (_ =? _)%string = true |- _ => apply String.eqb_eq in H as <- end.
    split; [by eapply Hbound|]. split_and!; try done; [by apply Hremote..|].
    unfold upload_matches_plan. cbn.
    match goal with H : upload_plan_sha256 _ = _ |- _ => rewrite H end. cbn.
    rewrite String.eqb_refl. simpl. apply andb_true_iff. by rewrite !Z.eqb_eq.
  - unfold authorize_production_import in Hu. result_inv. bools.
    match goal with H : (_ =? _)%string = true |- _ => apply String.eqb_eq in H as <- end.
    split; [by eapply Hbound|]. split_and!; try done; [by apply Hremote..|].
    unfold import_matches_plan. cbn.
    match goal with H : upload_plan_sha256 _ = _ |- _ => rewrite H end. cbn.
    rewrite String.eqb_refl. simpl. apply andb_true_iff. by rewrite !Z.eqb_eq.
Qed.
End capabilities.

(** ** Concrete runs *)

Section witnesses.
#[local] Existing Instances sample_codec sample_time sample_url sample_url_laws.

#[local] Instance sample_tls : TlsLib :=
  {| Certificate := unit; from_pem_bundle _ := Some [tt]; tls_build _ := true |}.
#[local] Instance scripted_reads : ReadTransport (list HttpResponse) := {|
  http_get _ _ _ w := match w with r :: w => (Ok r, w) | [] => (Ok (answer 500 []), []) end;
  decode_version body := if String.eqb body "3.1.4" then
    Some {| vr_major := 3; vr_minor := 1; vr_patch := 4; vr_prerelease := None |} else None;
  decode_user body := Some {| usr_id := body |};
|}.

Definition sample_key : ApiKey := {| key_value := "key" |}.
Definition client_of (text : string) : result ClientError ImmichReadClient :=
  endpoint ← map_err (λ _, protocol_error) (endpoint_parse text);
  if loopback endpoint then read_client_new endpoint sample_key default_client_config
  else new_production_read endpoint sample_key default_client_config true.

Definition origin_client (o : SampleOrigin) : ImmichReadClient := {|
  rc_http := {| hc_accept := "application/json"; hc_timeout := from_secs 30;
    hc_follow_redirects := false; hc_roots := []; hc_resolve := None |};
  rc_endpoint := {| origin := (o, "/") : Url; loopback := is_loopback_host (origin_host o) |};
  rc_api_key := sample_key; rc_config := default_client_config;
  rc_access := {| ea_mode := if is_loopback_host (origin_host o) then AccessMode.Disposable
                             else AccessMode.ProductionRead |} |}.

Definition photo_answers : list HttpResponse := [answer 200 ["3.1"; ".4"]; answer 200 ["me"]].
Definition photo_server : NegotiatedServer :=
  match probe (origin_client PhotosHttps) photo_answers with
  | (Ok n, _) => n
  | _ => {| ns_compatibility := sample_server; ns_origin_sha256 := "" |}
  end.
Definition photo_plan : UploadPlan := {|
  up_schema_version := up_schema_version byte_plan;
  up_normalized_plan_sha256 := up_normalized_plan_sha256 byte_plan;
  up_source := up_source byte_plan; up_configuration_sha256 := up_configuration_sha256 byte_plan;
  up_server := ns_compatibility photo_server; up_operations := up_operations byte_plan;
  up_summary := up_summary byte_plan |}.
Definition photo_confirmation : ProductionWriteConfirmation := {|
  pwc_plan_sha256 := match upload_plan_sha256 photo_plan with Ok d => d | Err _ => "" end;
  pwc_expected_operations := 1; pwc_backup_reference := "backup-7" |}.

(** Every origin is probed; only the matching capabilities exist. *)
Example capability_matrix :
  client_of "http://photos.example" = Err protocol_error
  ∧ client_of "http://127.0.0.1:2283" = Ok (origin_client Loopback4)
  ∧ client_of "https://photos.example" = Ok (origin_client PhotosHttps)
  ∧ authorize_upload (origin_client PhotosHttps) photo_server = Err compatibility_error
  ∧ authorize_production_upload (origin_client Loopback4) photo_server photo_plan photo_confirmation
    = Err compatibility_error
  ∧ is_ok (authorize_production_upload (origin_client PhotosHttps) photo_server photo_plan
             photo_confirmation) = true
  ∧ (probe (origin_client PhotosHttps) [answer 200 ["3.2.0"]]).1 = Err protocol_error.
Proof. repeat split; vm_compute; reflexivity. Qed.

Lemma capabilities_bound_witness :
  ∃ u, authorize_production_upload (origin_client PhotosHttps) photo_server photo_plan
         photo_confirmation = Ok u
    ∧ upload_matches_plan (puc_proof u) photo_plan = true
    ∧ named_remote_https (rc_endpoint (uc_read (puc_upload u))).
Proof.
  assert (constructed (origin_client PhotosHttps)) as Hc.
  { apply (constructed_production _ "https://photos.example"
      (rc_endpoint (origin_client PhotosHttps)) sample_key default_client_config true);
      vm_compute; reflexivity. }
  assert (probe (origin_client PhotosHttps) photo_answers = (Ok photo_server, [])) as Hp
    by (vm_compute; reflexivity).
  destruct (authorize_production_upload (origin_client PhotosHttps) photo_server photo_plan
    photo_confirmation) as [u|e] eqn:Hu; [|by vm_compute in Hu].
  destruct (capabilities_bound _ _ _ _ _ Hc Hp) as (_ & _ & Hprod & _).
  destruct (Hprod _ _ _ Hu) as (_ & Hread & Hremote & _ & _ & _ & _ & Hmatch).
  exists u. rewrite Hread. exact (conj eq_refl (conj Hmatch Hremote)).
Defined.
End witnesses.
