(* ===== verification/Servers.v ===== *)
(** * Servers: the server profiles of the console and the clients made from them
    ([crates/immich-web/src/profiles/server.rs], [validate_servers] of [config.rs])

    A profile names an origin, how it may be used and which addresses it may have.  Each
    client made from it resolves the name again, checks every answer, reads the secrets
    again and pins the addresses. *)
From Stdlib Require Import Ascii.
From stdpp Require Import strings.
From S2P Require Export Secrets ReadClient ReadClientTheorems.

Definition MAX_ADDRESS_RANGES : Z := 32.
Definition MAX_SERVER_PROFILES : Z := 32.

Record RawServerProfile := {
  rsv_id : string;
  rsv_origin : string;
  rsv_api_key_file : string;
  rsv_ca_certificate_file : option string;
  rsv_mode : ServerMode.t;
  rsv_allowed_cidrs : list string;
  rsv_generation : Z;
  rsv_credential_generation : Z;
}.

(** [AddressRange::parse] *)
Definition range_parse (value : string) : result WebConfigError AddressRange.t :=
  let invalid := ConfigMessage "invalid server address allowlist" in
  '(address, prefix) ← ok_or (split_once "/" value) invalid;
  address ← ok_or (parse_ip address) invalid;
  prefix ← ok_or (parse_u8 prefix) invalid;
  range_of address prefix.

Definition parse_ranges (values : list string) : result WebConfigError (list AddressRange.t) :=
  _ ← fail_if (MAX_ADDRESS_RANGES <? zlen values)
        (ConfigMessage "server address allowlist is too large");
  try_map range_parse values.

(** What the resolver answers, in order: [(host, port).to_socket_addrs()] *)
Class Dns (W : Type) := { to_socket_addrs : string → Z → W → option (list SocketAddr) * W }.

Section servers.
  Context {W : Type} `{UrlLib, TlsLib, HeaderLib, Codec, TimeLib, SecretFs W, Dns W}.
Notation load := (io W WebConfigError).

Definition valid_mode (mode : ServerMode.t) (url : Url) (endpoint : ImmichEndpoint)
    (ranges : list AddressRange.t) : bool :=
  match mode with
  | ServerMode.Disposable =>
    loopback endpoint
    && is_some_and (url_host url) (λ host,
         match host with
         | Host.Ipv4 address => is_loopback (IpV4 address)
         | Host.Ipv6 address => is_loopback (IpV6 address)
         | Host.Domain _ => false
         end)
    && (zlen ranges =? 0)
  | ServerMode.ProductionRead =>
    String.eqb (url_scheme url) "https" && negb (loopback endpoint) && negb ((zlen ranges =? 0))
  end.

(** [ServerProfile::from_raw] *)
Definition server_from_raw (raw : RawServerProfile) : result WebConfigError ServerProfile :=
  _ ← validate_id (rsv_id raw);
  endpoint ← map_err (λ _, ConfigMessage "server profile origin is invalid")
    (endpoint_parse (rsv_origin raw));
  url ← ok_or (url_parse (rsv_origin raw)) (ConfigMessage "server profile origin is invalid");
  address_ranges ← parse_ranges (rsv_allowed_cidrs raw);
  _ ← fail_if (negb (is_absolute (rsv_api_key_file raw))
               || is_some_and (rsv_ca_certificate_file raw) (λ path, negb (is_absolute path))
               || (rsv_generation raw =? 0)
               || (rsv_credential_generation raw =? 0)
               || negb (valid_mode (rsv_mode raw) url endpoint address_ranges))
        (ConfigMessage "server profile is invalid");
  Ok {| svp_id := rsv_id raw; svp_origin := rsv_origin raw;
        svp_api_key_file := rsv_api_key_file raw;
        svp_ca_certificate_file := rsv_ca_certificate_file raw;
        svp_mode := rsv_mode raw; svp_address_ranges := address_ranges;
        svp_generation := rsv_generation raw;
        svp_generation_sha256 :=
          server_generation (rsv_generation raw) (rsv_id raw) (rsv_origin raw)
            (rsv_api_key_file raw) (rsv_ca_certificate_file raw) (rsv_mode raw) address_ranges;
        svp_credential_generation := rsv_credential_generation raw |}.

(** [validate_servers] of the configuration *)
Definition validate_servers (raw : list RawServerProfile) : load (list ServerProfile) :=
  _ ← lift (fail_if (MAX_SERVER_PROFILES <? zlen raw) (ConfigMessage "server profile count is invalid"));
  unique_profiles rsv_id (λ raw, lift (server_from_raw raw)) [] raw.

(** The addresses that may be pinned, in their order *)
Definition validate_addresses (mode : ServerMode.t) (ranges : list AddressRange.t) (maximum : Z)
    (values : list SocketAddr) : result WebConfigError (list SocketAddr) :=
  _ ← fail_if (maximum <? zlen values) (ConfigMessage "server DNS answer limit exceeded");
  let addresses := socket_set values in
  let valid := negb ((zlen addresses =? 0))
    && (zlen addresses <=? maximum)
    && forallb (λ address, address_allowed mode ranges (sa_ip address)) addresses in
  if valid then Ok addresses else Err (ConfigMessage "server resolved address is not allowed").

(** [ServerProfile::resolve_addresses] *)
Definition resolve_addresses (profile : ServerProfile) (maximum : Z) : load PinnedEndpointAddresses :=
  _ ← lift (fail_if (negb (ScanConfig.in_range 1 8 maximum)) (ConfigMessage "DNS address limit is invalid"));
  endpoint ← lift (map_err (λ _, ConfigMessage "server profile origin changed")
    (endpoint_parse (svp_origin profile)));
  url ← lift (ok_or (url_parse (svp_origin profile)) (ConfigMessage "server profile origin changed"));
  host ← lift (ok_or (url_host_str url) (ConfigMessage "server profile host is unavailable"));
  port ← lift (ok_or (url_port_or_known_default url) (ConfigMessage "server profile port is unavailable"));
  answers ← or_message (to_socket_addrs host port) "server profile DNS resolution failed";
  let resolved := take (Z.to_nat (sat_add maximum 1)) answers in
  addresses ← lift (validate_addresses (svp_mode profile) (svp_address_ranges profile) maximum resolved);
  lift (map_err (λ _, ConfigMessage "server profile address pinning failed") (pinned_new endpoint addresses)).

Definition err_none {E A} (r : result E A) : option A := match r with Ok a => Some a | Err _ => None end.

(** [ServerProfile::read_client] *)
Definition read_client (profile : ServerProfile) (maximum_addresses : Z) : load ImmichReadClient :=
  endpoint ← lift (map_err (λ _, ConfigMessage "server profile origin changed")
    (endpoint_parse (svp_origin profile)));
  addresses ← resolve_addresses profile maximum_addresses;
  roots ← root_certificates (λ pem, err_none (roots_from_pem pem)) (svp_ca_certificate_file profile);
  key ← api_key (λ value, err_none (api_key_new value)) (svp_api_key_file profile);
  let result :=
    match svp_mode profile with
    | ServerMode.Disposable => new_pinned endpoint key default_client_config roots addresses
    | ServerMode.ProductionRead =>
      new_production_read_pinned endpoint key default_client_config true roots addresses
    end in
  lift (map_err (λ _, ConfigMessage "server read client construction failed") result).
End servers.

(** ** What a client can reach *)

Section reach.
  Context {W : Type} `{UrlLib, TlsLib, HeaderLib, Codec, TimeLib, SecretFs W, Dns W, !UrlLaws}.

Lemma validate_addresses_Ok mode ranges maximum values addresses :
  validate_addresses mode ranges maximum values = Ok addresses →
  NoDup addresses ∧ zlen addresses <= maximum
  ∧ Forall (λ a, address_allowed mode ranges (sa_ip a) = true ∧ a ∈ values) addresses.
Proof.
  unfold validate_addresses. rewrite bind_fail_if_Ok. cbv zeta. intros [_ Hv].
  destruct (_ && _) eqn:Hb in Hv; [|done]. injection Hv as <-. bools.
  split_and!; [apply socket_set_NoDup|done|]. apply Forall_forall. intros a Ha.
  split; [|by apply elem_of_sort_dedup in Ha].
  match goal with H : ∀ x, In x _ → _ |- _ => apply H end. by apply list_elem_of_In.
Qed.

Lemma resolve_addresses_Ok profile maximum w pinned w' :
  resolve_addresses profile maximum w = (Ok pinned, w') →
  ∃ endpoint, endpoint_parse (svp_origin profile) = Ok endpoint
    ∧ 1 <= maximum <= 8
    ∧ url_host_str (origin endpoint) = Some (pea_host pinned)
    ∧ 1 <= zlen (pea_addresses pinned) <= maximum ∧ NoDup (pea_addresses pinned)
    ∧ Forall (λ a, url_port_or_known_default (origin endpoint) = Some (sa_port a)
        ∧ address_allowed (svp_mode profile) (svp_address_ranges profile) (sa_ip a) = true)
        (pea_addresses pinned).
Proof.
  unfold resolve_addresses. intros (?&?&[Hm%fail_if_Ok _]%lift_Ok&(endpoint&?&[He%map_err_Ok _]%lift_Ok&
    (?&?&_&(?&?&_&(?&?&_&(answers&?&_&(addresses&?&[Ha _]%lift_Ok&[Hp _]%lift_Ok)%io_bind_Ok)%io_bind_Ok)
    %io_bind_Ok)%io_bind_Ok)%io_bind_Ok)%io_bind_Ok)%io_bind_Ok.
  apply map_err_Ok, pinned_new_Ok in Hp as (Haddr & Hnd & Hlen & Hhost & Hport).
  apply validate_addresses_Ok in Ha as (_ & Hmax & Hall). exists endpoint. rewrite Haddr.
  apply negb_false_iff, andb_true_iff in Hm as [Hm1%Z.leb_le Hm8%Z.leb_le].
  split_and!; [done|lia|lia|done|lia|lia|done|].
  apply Forall_and. split; eapply Forall_impl; [exact Hport|by intros a []|exact Hall|by intros a []].
Qed.

(** The origin of a profile that was accepted fits its mode. *)
Lemma server_from_raw_Ok raw p :
  server_from_raw raw = Ok p →
  svp_origin p = rsv_origin raw ∧ svp_mode p = rsv_mode raw
  ∧ svp_ca_certificate_file p = rsv_ca_certificate_file raw
  ∧ svp_api_key_file p = rsv_api_key_file raw
  ∧ parse_ranges (rsv_allowed_cidrs raw) = Ok (svp_address_ranges p)
  ∧ ∃ endpoint url, endpoint_parse (rsv_origin raw) = Ok endpoint ∧ url_parse (rsv_origin raw) = Some url
      ∧ valid_mode (rsv_mode raw) url endpoint (svp_address_ranges p) = true.
Proof.
  intros Hr. unfold server_from_raw in Hr. result_inv. bools. cbn. split_and!; try done. eauto.
Qed.

Lemma range_of_profile cidrs ranges address :
  parse_ranges cidrs = Ok ranges → address_allowed ServerMode.ProductionRead ranges address = true →
  ∃ cidr range, cidr ∈ cidrs ∧ range_parse cidr = Ok range ∧ range_contains range address = true.
Proof.
  unfold parse_ranges. rewrite bind_fail_if_Ok. intros [_ Hr%try_map_Ok] (range & Hin & Hc)%existsb_exists.
  apply list_elem_of_In, list_elem_of_lookup in Hin as [i Hi].
  destruct (Forall2_lookup_r _ _ _ _ _ Hr Hi) as (cidr & Hcidr & Hparse).
  exists cidr, range. split; [by eapply list_elem_of_lookup_2|done].
Qed.

(** A pinned client connects to what was pinned. *)
Lemma new_with_access_pinned endpoint key config access roots pinned c :
  new_with_access endpoint key config access roots (Some pinned) = Ok c →
  rc_endpoint c = endpoint ∧ rc_access c = access ∧ hc_follow_redirects (rc_http c) = false
  ∧ hc_resolve (rc_http c) = Some (pea_host pinned, pea_addresses pinned).
Proof.
  by intros (-> & -> & _ & _ & (? & _ & _ & ? & _)%build_http_client_Ok)%new_with_access_Ok.
Qed.

(** C14: Whatever the name of a server resolves to later, a client made from a profile only
    connects to one to eight addresses, as many as the operator allows at most, on the
    port of the origin, each of them in an address range of the profile or, for a
    disposable one, on this machine.  It does not follow redirects, it is a client for
    the very origin of the profile, and it may write to a production server exactly when
    the profile says so: then its host is not written as a local one, and it is over TLS. *)
Theorem profile_client_contained raw p maximum w c w' :
  server_from_raw raw = Ok p → read_client p maximum w = (Ok c, w') →
  endpoint_parse (rsv_origin raw) = Ok (rc_endpoint c)
  ∧ hc_follow_redirects (rc_http c) = false
  ∧ (∃ host addresses, hc_resolve (rc_http c) = Some (host, addresses)
      ∧ url_host_str (origin (rc_endpoint c)) = Some host
      ∧ 1 <= zlen addresses <= maximum ∧ maximum <= MAX_PINNED_ADDRESSES
      ∧ Forall (λ a, url_port_or_known_default (origin (rc_endpoint c)) = Some (sa_port a)
          ∧ match rsv_mode raw with
            | ServerMode.Disposable => is_loopback (sa_ip a) = true
            | ServerMode.ProductionRead =>
              ∃ cidr range, cidr ∈ rsv_allowed_cidrs raw ∧ range_parse cidr = Ok range
                ∧ range_contains range (sa_ip a) = true
            end) addresses)
  ∧ match rsv_mode raw with
    | ServerMode.Disposable =>
      ea_mode (rc_access c) = AccessMode.Disposable ∧ named_local (rc_endpoint c)
    | ServerMode.ProductionRead =>
      ea_mode (rc_access c) = AccessMode.ProductionRead ∧ named_remote_https (rc_endpoint c)
    end.
Proof.
  intros (Horigin & Hmode & _ & _ & Hranges & _)%server_from_raw_Ok.
  unfold read_client. intros (endpoint&w1&[He%map_err_Ok _]%lift_Ok&(pinned&?&Hpin&
    (roots&?&_&(key&?&_&[Hc%map_err_Ok _]%lift_Ok)%io_bind_Ok)%io_bind_Ok)%io_bind_Ok)%io_bind_Ok.
  apply resolve_addresses_Ok in Hpin as (endpoint' & He' & Hmax & Hhost & Hlen & _ & Hall).
  rewrite He in He'. injection He' as <-. rewrite Horigin in He. rewrite Hmode in *.
  pose proof He as [Hl _]%endpoint_parse_Ok.
  assert (rc_endpoint c = endpoint ∧ hc_follow_redirects (rc_http c) = false
    ∧ hc_resolve (rc_http c) = Some (pea_host pinned, pea_addresses pinned)
    ∧ match rsv_mode raw with
      | ServerMode.Disposable =>
        ea_mode (rc_access c) = AccessMode.Disposable ∧ named_local endpoint
      | ServerMode.ProductionRead =>
        ea_mode (rc_access c) = AccessMode.ProductionRead ∧ named_remote_https endpoint
      end) as (-> & Hfollow & Hresolve & Haccess).
  { unfold named_local, named_remote_https. rewrite <- Hl. destruct (rsv_mode raw).
    - by apply bind_Ok in Hc as (access & [? ?]%map_err_Ok%access_disposable_Ok
        & (-> & -> & -> & ->)%new_with_access_pinned).
    - by apply bind_Ok in Hc as (access & (_ & ? & ? & ?)%map_err_Ok%access_production_read_Ok
        & (-> & -> & -> & ->)%new_with_access_pinned). }
  split_and!; try done. exists (pea_host pinned), (pea_addresses pinned).
  split_and!; [done|done|lia|lia|unfold MAX_PINNED_ADDRESSES; lia|].
  eapply Forall_impl; [exact Hall|]. intros a [Hport Hallow]. split; [done|].
  destruct (rsv_mode raw); [done|]. by eapply range_of_profile.
Qed.
End reach.

(** ** Concrete runs *)

Section witnesses.
#[local] Existing Instances sample_codec sample_time sample_url sample_url_laws sample_tls.
#[local] Instance any_header : HeaderLib := {| header_str := Some; valid_header_value _ := true |}.

(** Every file is a key of three bytes; the world is the answer of the resolver. *)
Definition key_file : SecretMeta :=
  {| sm_is_file := true; sm_is_link := false; sm_length := 3; sm_permissions := 384 |}.
#[local] Instance key_files : SecretFs (list SocketAddr) := {|
  se_metadata _ w := (Some key_file, w); se_identity path w := (Some path, w);
  se_open _ w := (true, w); se_file_metadata w := (Some key_file, w);
  se_file_identity w := (Some "/run/key", w); se_read _ w := (Some "key", w);
|}.
#[local] Instance fixed_dns : Dns (list SocketAddr) := {| to_socket_addrs _ _ w := (Some w, w) |}.

Definition at_port (ip : IpAddr) (port : Z) : SocketAddr :=
  {| sa_ip := ip; sa_port := port; sa_flowinfo := 0; sa_scope_id := 0 |}.
Definition photo_profile : RawServerProfile := {|
  rsv_id := "photos"; rsv_origin := "https://photos.example"; rsv_api_key_file := "/run/key";
  rsv_ca_certificate_file := None; rsv_mode := ServerMode.ProductionRead;
  rsv_allowed_cidrs := ["10.0.0.0/8"; "2001:db8::/32"]; rsv_generation := 1;
  rsv_credential_generation := 1 |}.
Definition photo_addresses : list SocketAddr :=
  [at_port (IpV4 (10 * 2 ^ 24 + 7)) 443; at_port (IpV6 (0x20010db8 * 2 ^ 96 + 9)) 443].

Definition photo_client (answers : list SocketAddr) : result WebConfigError ImmichReadClient :=
  p ← server_from_raw photo_profile; (read_client p 4 answers).1.

(** An answer outside the ranges, too many answers, or another port, give no client. *)
Example photo_clients :
  is_ok (photo_client photo_addresses) = true
  ∧ photo_client (at_port (IpV4 2130706433) 443 :: photo_addresses)
    = Err (ConfigMessage "server resolved address is not allowed")
  ∧ photo_client (flat_map (λ _, photo_addresses) [1; 2; 3])
    = Err (ConfigMessage "server DNS answer limit exceeded")
  ∧ photo_client [at_port (IpV4 (10 * 2 ^ 24 + 7)) 22]
    = Err (ConfigMessage "server profile address pinning failed")
  ∧ photo_client [] = Err (ConfigMessage "server resolved address is not allowed").
Proof. repeat split; vm_compute; reflexivity. Qed.

(** The literal address of an IPv4 origin is the only one that can be pinned; for an
    IPv6 origin, whose host is written in brackets, any address can. *)
Example literal_pins :
  let pin o ip := is_ok (pinned_new (rc_endpoint (origin_client o)) [at_port ip (origin_port o)]) in
  pin Loopback4 (IpV4 2130706433) = true ∧ pin Loopback4 (IpV4 134744072) = false
  ∧ pin Remote6 (IpV4 134744072) = true.
Proof. repeat split; vm_compute; reflexivity. Qed.

Lemma profile_client_contained_witness : ∃ c addresses,
  photo_client photo_addresses = Ok c ∧ hc_resolve (rc_http c) = Some ("photos.example", addresses)
  ∧ 1 <= zlen addresses <= 4 ∧ named_remote_https (rc_endpoint c).
Proof.
  destruct (server_from_raw photo_profile) as [p|e] eqn:Hp; [|by vm_compute in Hp].
  assert (photo_client photo_addresses = (read_client p 4 photo_addresses).1) as Hclient
    by (unfold photo_client; rewrite Hp; reflexivity).
  assert (is_ok (photo_client photo_addresses) = true) as Hok by (vm_compute; reflexivity).
  rewrite Hclient in Hok.
  destruct (read_client p 4 photo_addresses) as [[c|e] w] eqn:Hc; [|discriminate Hok].
  destruct (profile_client_contained photo_profile p 4 photo_addresses c w Hp Hc)
    as (He & _ & (host & addresses & Hr & Hhost & Hlen & _ & _) & _ & Hremote).
  exists c, addresses. rewrite Hclient. split; [exact eq_refl|].
  assert (host = "photos.example") as ->.
  { injection He as He. rewrite <- He in Hhost. by injection Hhost as <-. }
  exact (conj Hr (conj Hlen Hremote)).
Defined.
End witnesses.
