(* ===== verification/Inventory.v ===== *)
(** * Inventory: reading the assets and albums of a server
    ([crates/immich-client/src/archive.rs], [migration.rs] and the responses of
    [models.rs])

    Assets are listed page by page until the server names no next page; every page must
    be consistent, and nothing above the configured bounds is kept.  The loop over the
    pages has fuel: one page more than the bound on what is kept. *)
From Stdlib Require Import Ascii.
From stdpp Require Import strings.
From S2P Require Export Prog ReadClient Sort Archive.

(** ** [models.rs] *)

Record ArchiveSearchRequest := {
  sq_page : Z;
  sq_size : Z;
  sq_order : string;
  sq_with_exif : bool;
  sq_album_ids : option (list string);
  sq_visibility : string;
  sq_with_deleted : option bool;
}.

Module AssetTypeResponse.
Inductive t := Image | Video | Audio | Other.
End AssetTypeResponse.

Record ArchiveExifResponse := {
  exr_file_size_in_byte : option Z;
  exr_date_time_original : option string;
  exr_description : option string;
  exr_latitude : option F64.f64;
  exr_longitude : option F64.f64;
}.

Record ArchiveAssetResponse := {
  aar_id : string;
  aar_original_file_name : string;
  aar_checksum : string;
  aar_type : AssetTypeResponse.t;
  aar_exif_info : option ArchiveExifResponse;
  aar_file_created_at : option string;
  aar_file_modified_at : option string;
  aar_live_photo_video_id : option string;
}.

Record ArchiveSearchAssets := {
  sas_items : list ArchiveAssetResponse;
  sas_count : Z;
  sas_next_page : option string;
  sas_total : Z;
}.
Record ArchiveSearchResponse := { asr_assets : ArchiveSearchAssets }.

Record MigrationAlbumResponse := {
  mar_id : string;
  mar_album_name : string;
  mar_asset_count : Z;
}.

(** ** Configurations and results *)

Module ArchiveVisibility.
Inductive t := Timeline | Archive | Hidden.
End ArchiveVisibility.

(** [ArchiveVisibility::api_value] *)
Definition api_value (v : ArchiveVisibility.t) : string :=
  match v with
  | ArchiveVisibility.Timeline => "timeline"
  | ArchiveVisibility.Archive => "archive"
  | ArchiveVisibility.Hidden => "hidden"
  end.

Record ArchiveListConfig := {
  alc_visibility : ArchiveVisibility.t;
  alc_include_trashed : bool;
  alc_page_size : Z;
  alc_max_assets : Z;
}.

(** [ArchiveListConfig::validate] *)
Definition list_config_validate (c : ArchiveListConfig) : result ClientError ArchiveListConfig :=
  if ScanConfig.in_range 1 1000 (alc_page_size c) && (0 <? alc_max_assets c) then Ok c
  else Err protocol_error.

Record RemoteArchiveAsset := {
  raa_asset_id : string;
  raa_original_file_name : string;
  raa_media_kind : MediaKind;
  raa_byte_len : Z;
  raa_checksum_sha1 : string;
}.

Record MigrationListConfig := {
  mlc_page_size : Z;
  mlc_max_assets : Z;
  mlc_max_albums : Z;
  mlc_max_album_memberships : Z;
}.

(** [MigrationListConfig::default] *)
Definition default_migration_list : MigrationListConfig := {|
  mlc_page_size := 100; mlc_max_assets := 100000; mlc_max_albums := 10000;
  mlc_max_album_memberships := 1000000 |}.

(** [MigrationListConfig::validate] *)
Definition migration_config_validate (c : MigrationListConfig) : result ClientError MigrationListConfig :=
  if ScanConfig.in_range 1 1000 (mlc_page_size c) && (0 <? mlc_max_assets c)
     && (0 <? mlc_max_albums c) && (0 <? mlc_max_album_memberships c) then Ok c
  else Err protocol_error.

Record RemoteMigrationAsset := {
  rma_asset_id : string;
  rma_original_file_name : string;
  rma_media_kind : MediaKind;
  rma_byte_len : Z;
  rma_checksum_sha1 : string;
  rma_created_at_unix_ms : Z;
  rma_modified_at_unix_ms : Z;
  rma_normalized_metadata : option NormalizedMetadata;
  rma_live_photo_video_id : option string;
}.

Record RemoteOwnedAlbum := {
  roa_album_id : string;
  roa_name : string;
  roa_asset_ids : list string;
}.

Record RemoteMigrationInventory := {
  rmi_assets : list RemoteMigrationAsset;
  rmi_albums : list RemoteOwnedAlbum;
}.

(** ** What is not in the repository *)

(** The requests that cancellation may interrupt ([None] when it wins the [select!]),
    [serde_json] and the [base64] crate *)
Class InventoryTransport (W : Type) `{UrlLib, TlsLib} := {
  http_post : HttpClient → Url → ApiKey → ArchiveSearchRequest →
              W → option (result TransportError HttpResponse) * W;
  http_download : HttpClient → Url → ApiKey → W → option (result TransportError HttpResponse) * W;
  chunk_arrives : W → bool * W;
  decode_search : string → option ArchiveSearchResponse;
  decode_archive_asset : string → option ArchiveAssetResponse;
  decode_owned_albums : string → option (list MigrationAlbumResponse);
  base64_decode : string → option string;
}.

(** ** Converting what the server says *)

Definition lowercase_hex (bytes : string) : string := hex bytes.

Definition media_kind_of (t : AssetTypeResponse.t) : result ClientError MediaKind :=
  match t with
  | AssetTypeResponse.Image => Ok Media_Image
  | AssetTypeResponse.Video => Ok Media_Video
  | AssetTypeResponse.Audio | AssetTypeResponse.Other => Err protocol_error
  end.

(** [uuid_v4]: some of the bytes are checked twice. *)
Definition uuid_byte (index : nat) (byte : ascii) : bool :=
  bool_decide (index ∈ [8; 13; 18; 23]%nat) || (is_ascii_hexdigit byte && negb (is_ascii_uppercase byte)).
Definition uuid_v4 (value : string) : bool :=
  (len value =? 36)
  && forallb (λ index, Ascii.eqb (byte_at index value) "-") [8; 13; 18; 23]%nat
  && Ascii.eqb (byte_at 14 value) "4"
  && bool_decide (byte_at 19 value ∈ ["8"; "9"; "a"; "b"]%char)
  && bytes_all uuid_byte value.

Definition valid_album_name (value : string) : bool :=
  negb (is_empty value) && (len value <=? 4096) && negb (contains_byte "\" value)
  && negb (has_control value).

(** ** The archive inventory *)

Section inventory.
  Context {W : Type} `{UrlLib, TlsLib, Codec, TimeLib, Cancellation W, !ReadTransport W,
    !InventoryTransport W}.
Notation call := (io W ClientError).

(** [cancellable]: the future, unless cancellation is seen first *)
Definition cancellable {A} (future : W → option (result TransportError A) * W) : call A := λ w,
  match future w with
  | (None, w) => (Err (client_error ClientErrorClass.Cancelled), w)
  | (Some r, w) => (map_err classify_transport r, w)
  end.

Definition post_json {T} (client : ImmichReadClient) (from_slice : string → option T) (path : string)
    (body : ArchiveSearchRequest) : call T :=
  url ← lift (map_err (λ _, protocol_error) (Endpoint.api_url (rc_endpoint client) path));
  response ← cancellable (http_post (rc_http client) url (rc_api_key client) body);
  lift (read_json (rc_config client) from_slice response).

Definition convert_asset (item : ArchiveAssetResponse) :
    result ClientError (RemoteArchiveAsset * option string) :=
  media_kind ← media_kind_of (aar_type item);
  decoded ← ok_or (base64_decode (aar_checksum item)) protocol_error;
  _ ← fail_if (negb (len decoded =? 20)) protocol_error;
  byte_len ← ok_or (aar_exif_info item ≫= exr_file_size_in_byte) protocol_error;
  Ok ({| raa_asset_id := aar_id item; raa_original_file_name := aar_original_file_name item;
         raa_media_kind := media_kind; raa_byte_len := byte_len;
         raa_checksum_sha1 := lowercase_hex decoded |}, aar_live_photo_video_id item).

(** What [next_page] of a response says about the page after [page]. *)
Definition follow_page (page count : Z) (next : option string) : result ClientError (option Z) :=
  match next with
  | None => Ok None
  | Some next =>
    _ ← fail_if (count =? 0) protocol_error;
    parsed ← ok_or (parse_u64 next) protocol_error;
    _ ← fail_if (negb (parsed =? sat_add page 1)) protocol_error;
    Ok (Some parsed)
  end.

(** [loop { .. }] over the pages: a step gives the next page, or [None] to leave it. *)
Fixpoint pages {S} (fuel : nat) (step : Z → S → call (S * option Z)) (page : Z) (state : S) :
    prog W ClientError S :=
  match fuel with
  | O => λ _, None
  | S fuel =>
    '(state, next) ← run_io (step page state);
    match next with Some next => pages fuel step next state | None => mret state end
  end.

Definition search_request (config : ArchiveListConfig) (page : Z) : ArchiveSearchRequest := {|
  sq_page := page; sq_size := alc_page_size config; sq_order := "asc"; sq_with_exif := true;
  sq_album_ids := None; sq_visibility := api_value (alc_visibility config);
  sq_with_deleted := if alc_include_trashed config then Some true else None |}.

(** The assets so far and the related ids *)
Definition Listing : Type := list RemoteArchiveAsset * list string.

Definition push_item (max_assets : Z) (listing : Listing) (item : ArchiveAssetResponse) :
    result ClientError Listing :=
  let '(assets, related_ids) := listing in
  _ ← fail_if (max_assets <=? zlen assets) protocol_error;
  '(asset, related_id) ← convert_asset item;
  Ok (assets ++ [asset], related_ids ++ option_list related_id).

Definition list_page (client : ImmichReadClient) (config : ArchiveListConfig) (page : Z)
    (listing : Listing) : call (Listing * option Z) :=
  _ ← check_cancelled;
  response ← post_json client decode_search "api/search/metadata" (search_request config page);
  let assets := asr_assets response in
  _ ← lift (fail_if (alc_max_assets config <? sas_total assets) protocol_error);
  _ ← lift (fail_if (negb (sas_count assets =? zlen (sas_items assets))) protocol_error);
  listing ← lift (for_each (push_item (alc_max_assets config)) (sas_items assets) listing);
  next ← lift (follow_page page (sas_count assets) (sas_next_page assets));
  mret (listing, next).

(** One linked video that no page listed *)
Definition fetch_related (client : ImmichReadClient) (max_assets : Z)
    (assets : list RemoteArchiveAsset) (identifier : string) : call (list RemoteArchiveAsset) :=
  if existsb (λ asset, String.eqb (raa_asset_id asset) identifier) assets then mret assets
  else
    _ ← lift (fail_if (max_assets <=? zlen assets) protocol_error);
    _ ← check_cancelled;
    item ← get_json client decode_archive_asset ("api/assets/" +:+ identifier);
    '(asset, _) ← lift (convert_asset item);
    _ ← lift (fail_if (negb (String.eqb (raa_asset_id asset) identifier)) protocol_error);
    mret (assets ++ [asset]).

(** [for x in l { s = f(s, x)?; }] *)
Fixpoint io_for_each {E S A} (f : S → A → io W E S) (l : list A) (s : S) : io W E S :=
  match l with [] => mret s | x :: l => s ← f s x; io_for_each f l s end.

(** [validate_binding] of archive.rs is [validate_negotiated_binding] of read.rs. *)
Definition list_archive_assets (client : ImmichReadClient) (negotiated : NegotiatedServer)
    (config : ArchiveListConfig) : prog W ClientError (list RemoteArchiveAsset) :=
  _ ← run_lift (validate_negotiated_binding client negotiated);
  config ← run_lift (list_config_validate config);
  '(assets, related_ids) ←
    pages (S (Z.to_nat (alc_max_assets config))) (list_page client config) 1 ([], []);
  run_io (io_for_each (fetch_related client (alc_max_assets config))
            (sort_dedup String.compare related_ids) assets).

(** ** One original *)

(** The body is not read here: the chunks are what is left of it. *)
Definition download_original (client : ImmichReadClient) (negotiated : NegotiatedServer)
    (asset_id : string) : call HttpResponse :=
  _ ← lift (validate_negotiated_binding client negotiated);
  _ ← check_cancelled;
  url ← lift (map_err (λ _, protocol_error)
    (Endpoint.api_url (rc_endpoint client) ("api/assets/" +:+ asset_id +:+ "/original")));
  response ← cancellable (http_download (rc_http client) url (rc_api_key client));
  _ ← lift (fail_if (negb (is_success (hr_status response)))
              (status_error response (retry_after_cap (rc_config client))));
  mret response.

(** [ArchiveDownload::next_chunk] gives the download after it as well. *)
Definition next_chunk (download : HttpResponse) : call (option string * HttpResponse) := λ w,
  let '(arrived, w) := chunk_arrives w in
  if arrived then
    match hr_chunks download with
    | [] => (Ok (None, download), w)
    | chunk :: chunks =>
      (map_err classify_transport chunk ≫= λ bytes,
         Ok (Some bytes, {| hr_status := hr_status download;
                            hr_retry_after := hr_retry_after download; hr_chunks := chunks |}), w)
    end
  else (Err (client_error ClientErrorClass.Cancelled), w).
End inventory.

(** ** The migration inventory *)

Section migration.
  Context {W : Type} `{UrlLib, TlsLib, Codec, TimeLib, Cancellation W, !ReadTransport W,
    !InventoryTransport W}.

(** [OffsetDateTime::to_offset(UTC)] panics when the instant has no UTC date. *)
Notation converted := (result (fault ClientError)).

Definition timestamp_millis (value : string) : converted Z :=
  timestamp ← ok_or (parse_rfc3339 value) (Fail protocol_error);
  let millis := Z.quot (unix_timestamp_nanos timestamp) 1000000 in
  if (- 2 ^ 63 <=? millis) && (millis <? 2 ^ 63) then Ok millis else Err (Fail protocol_error).

Definition canonical_timestamp (value : string) : converted string :=
  timestamp ← ok_or (parse_rfc3339 value) (Fail protocol_error);
  let nanos := unix_timestamp_nanos timestamp in
  utc ← ok_or (from_unix_timestamp_nanos (nanos - nanos mod 1000000000)) Panic;
  ok_or (format_rfc3339 utc) (Fail protocol_error).

Definition canonical_decimal (value : F64.f64) : string :=
  if F64.is_zero value then "0" else F64.display value.

Definition decode_sha1 (value : string) : converted string :=
  bytes ← ok_or (base64_decode value) (Fail protocol_error);
  _ ← fail_if (negb (len bytes =? 20)) (Fail protocol_error);
  Ok (lowercase_hex bytes).

Definition remote_location (latitude longitude : option F64.f64) : converted (option GeoCoordinates) :=
  match latitude, longitude with
  | None, None => Ok None
  | Some latitude, Some longitude =>
    if F64.is_finite latitude && F64.is_finite longitude
    then Ok (Some {| latitude := canonical_decimal latitude; longitude := canonical_decimal longitude |})
    else Err (Fail protocol_error)
  | _, _ => Err (Fail protocol_error)
  end.

Definition normalized_metadata (description : option string) (taken_at : option string)
    (latitude longitude : option F64.f64) : converted (option NormalizedMetadata) :=
  let description := match description with
                     | Some value => if is_empty value then None else Some value
                     | None => None
                     end in
  taken_at_utc ← match taken_at with
                 | Some value => utc ← canonical_timestamp value; Ok (Some utc)
                 | None => Ok None
                 end;
  location ← remote_location latitude longitude;
  let metadata := {| description := description; taken_at_utc := taken_at_utc;
                     location := location; albums := [] |} in
  Ok (if bool_decide (metadata = default_metadata) then None else Some metadata).

Definition migration_asset (item : ArchiveAssetResponse) : converted RemoteMigrationAsset :=
  media_kind ← map_err Fail (media_kind_of (aar_type item));
  checksum_sha1 ← decode_sha1 (aar_checksum item);
  exif ← ok_or (aar_exif_info item) (Fail protocol_error);
  byte_len ← ok_or (exr_file_size_in_byte exif) (Fail protocol_error);
  _ ← fail_if (byte_len <=? 0) (Fail protocol_error);
  created_at ← ok_or (aar_file_created_at item) (Fail protocol_error);
  created ← timestamp_millis created_at;
  modified_at ← ok_or (aar_file_modified_at item) (Fail protocol_error);
  modified ← timestamp_millis modified_at;
  let taken_at := match exr_date_time_original exif with
                  | Some value => Some value
                  | None => aar_file_created_at item
                  end in
  metadata ← normalized_metadata (exr_description exif) taken_at (exr_latitude exif) (exr_longitude exif);
  Ok {| rma_asset_id := aar_id item; rma_original_file_name := aar_original_file_name item;
        rma_media_kind := media_kind; rma_byte_len := byte_len; rma_checksum_sha1 := checksum_sha1;
        rma_created_at_unix_ms := created; rma_modified_at_unix_ms := modified;
        rma_normalized_metadata := metadata;
        rma_live_photo_video_id := aar_live_photo_video_id item |}.

Definition validate_migration_binding (client : ImmichReadClient) (negotiated : NegotiatedServer) :
    result ClientError unit :=
  let expected := ms_origin_sha256 (migration_server negotiated) in
  fail_if (negb (String.eqb (origin_digest client) expected)) protocol_error.

(** *** Albums *)

Definition push_member (max_album_memberships : Z) (ids : list string) (item : ArchiveAssetResponse) :
    result ClientError (list string) :=
  _ ← fail_if ((max_album_memberships <=? zlen ids) || negb (uuid_v4 (aar_id item))) protocol_error;
  Ok (ids ++ [aar_id item]).

Definition album_request (album_id : string) (config : MigrationListConfig) (page : Z) :
    ArchiveSearchRequest := {|
  sq_page := page; sq_size := mlc_page_size config; sq_order := "asc"; sq_with_exif := false;
  sq_album_ids := Some [album_id]; sq_visibility := "timeline"; sq_with_deleted := None |}.

Definition album_page (client : ImmichReadClient) (album_id : string) (config : MigrationListConfig)
    (page : Z) (ids : list string) : io W ClientError (list string * option Z) :=
  _ ← Client.check_cancelled;
  response ← post_json client decode_search "api/search/metadata" (album_request album_id config page);
  let assets := asr_assets response in
  _ ← lift (fail_if (negb (sas_count assets =? zlen (sas_items assets))) protocol_error);
  ids ← lift (for_each (push_member (mlc_max_album_memberships config)) (sas_items assets) ids);
  next ← lift (follow_page page (sas_count assets) (sas_next_page assets));
  mret (ids, next).

Definition migration_album_assets (client : ImmichReadClient) (album_id : string)
    (config : MigrationListConfig) : prog W ClientError (list string) :=
  pages (S (Z.to_nat (mlc_max_album_memberships config))) (album_page client album_id config) 1 [].

(** One album; the memberships so far and the albums so far *)
Definition migration_album (client : ImmichReadClient) (config : MigrationListConfig)
    (allowed : list string) (state : Z * list RemoteOwnedAlbum) (header : MigrationAlbumResponse) :
    prog W ClientError (Z * list RemoteOwnedAlbum) :=
  let '(memberships, albums) := state in
  _ ← run_io Client.check_cancelled;
  _ ← run_lift (fail_if (negb (uuid_v4 (mar_id header)) || negb (valid_album_name (mar_album_name header))
                         || (mlc_max_album_memberships config <? mar_asset_count header)) protocol_error);
  asset_ids ← migration_album_assets client (mar_id header) config;
  let asset_ids := sort_dedup String.compare
                     (List.filter (λ id, existsb (String.eqb id) allowed) asset_ids) in
  let memberships := sat_add memberships (zlen asset_ids) in
  _ ← run_lift (fail_if (mlc_max_album_memberships config <? memberships) protocol_error);
  mret (memberships,
        match asset_ids with
        | [] => albums
        | _ => albums ++ [{| roa_album_id := mar_id header; roa_name := mar_album_name header;
                             roa_asset_ids := asset_ids |}]
        end).

Fixpoint prog_for_each {E S A} (f : S → A → prog W E S) (l : list A) (s : S) : prog W E S :=
  match l with [] => mret s | x :: l => s ← f s x; prog_for_each f l s end.

Definition album_le : RemoteOwnedAlbum → RemoteOwnedAlbum → bool :=
  leb_of (then_by String.compare roa_name String.compare roa_album_id).

Definition migration_albums (client : ImmichReadClient) (negotiated : NegotiatedServer)
    (config : MigrationListConfig) (allowed : list string) : prog W ClientError (list RemoteOwnedAlbum) :=
  _ ← run_lift (validate_migration_binding client negotiated);
  _ ← run_io Client.check_cancelled;
  headers ← run_io (get_json client decode_owned_albums "api/albums?isOwned=true");
  _ ← run_lift (fail_if (mlc_max_albums config <? zlen headers) protocol_error);
  '(_, albums) ← prog_for_each (migration_album client config allowed) headers (0, []);
  mret (sort_by album_le albums).

(** *** The whole inventory *)

Definition fail_io {A} (m : io W ClientError A) : io W (fault ClientError) A := λ w,
  let '(r, w) := m w in (map_err Fail r, w).
Definition fail_prog {A} (m : prog W ClientError A) : prog W (fault ClientError) A := λ w,
  match m w with Some (r, w) => Some (map_err Fail r, w) | None => None end.

Definition same_asset (asset : RemoteMigrationAsset) (expected : RemoteArchiveAsset) : bool :=
  String.eqb (rma_asset_id asset) (raa_asset_id expected)
  && String.eqb (rma_original_file_name asset) (raa_original_file_name expected)
  && bool_decide (rma_media_kind asset = raa_media_kind expected)
  && (rma_byte_len asset =? raa_byte_len expected)
  && String.eqb (rma_checksum_sha1 asset) (raa_checksum_sha1 expected).

Definition read_asset (client : ImmichReadClient) (assets : list RemoteMigrationAsset)
    (expected : RemoteArchiveAsset) : io W (fault ClientError) (list RemoteMigrationAsset) :=
  _ ← fail_io Client.check_cancelled;
  response ← fail_io (get_json client decode_archive_asset ("api/assets/" +:+ raa_asset_id expected));
  asset ← lift (migration_asset response);
  _ ← lift (fail_if (negb (same_asset asset expected)) (Fail protocol_error));
  mret (assets ++ [asset]).

Definition asset_le (a b : RemoteMigrationAsset) : bool :=
  leb_of String.compare (rma_asset_id a) (rma_asset_id b).

Definition migration_inventory (client : ImmichReadClient) (negotiated : NegotiatedServer)
    (config : MigrationListConfig) : prog W (fault ClientError) RemoteMigrationInventory :=
  config ← run_lift (map_err Fail (migration_config_validate config));
  archive ← fail_prog (list_archive_assets client negotiated
    {| alc_visibility := ArchiveVisibility.Timeline; alc_include_trashed := false;
       alc_page_size := mlc_page_size config; alc_max_assets := mlc_max_assets config |});
  assets ← run_io (io_for_each (read_asset client) archive []);
  let assets := sort_by asset_le assets in
  _ ← run_lift (fail_if (negb (windows2_all (λ a b, String.ltb (rma_asset_id a) (rma_asset_id b)) assets))
                  (Fail protocol_error));
  let allowed := map rma_asset_id assets in
  albums ← fail_prog (migration_albums client negotiated config allowed);
  mret {| rmi_assets := assets; rmi_albums := albums |}.
End migration.
