(* ===== verification/InventoryTheorems.v ===== *)
(** * InventoryTheorems: a server cannot make the inventory endless, partial or unbounded *)
From Stdlib Require Import Ascii.
From stdpp Require Import strings.
From S2P Require Export Inventory ReadClientTheorems.

(** ** Loops over pages *)

Section pages.
  Context {W S : Type} (step : Z → S → io W ClientError (S * option Z)).

(** The steps of a loop that ended well *)
Inductive paged : Z → S → W → S → W → Prop :=
  | paged_last page s w s' w' : step page s w = (Ok (s', None), w') → paged page s w s' w'
  | paged_more page s w s1 next w1 s' w' :
      step page s w = (Ok (s1, Some next), w1) → paged next s1 w1 s' w' → paged page s w s' w'.

(** A loop whose state grows with every page that is followed, up to a bound, returns. *)
Lemma pages_runs (size : S → Z) (bound : Z) (fuel : nat) :
  (∀ page s w s' next w', step page s w = (Ok (s', Some next), w') → size s < size s' <= bound) →
  ∀ page s, size s <= bound → bound - size s < Z.of_nat fuel →
  runs (pages fuel step page s) (λ w r w', ∀ s', r = Ok s' → paged page s w s' w').
Proof.
  intros Hgrow. induction fuel as [|fuel IH]; intros page s Hs Hf; [lia|].
  intros w. cbn [pages]. unfold mbind, prog_bind, run_io.
  destruct (step page s w) as [[[s1 [next|]]|e] w1] eqn:Hstep.
  - destruct (Hgrow _ _ _ _ _ _ Hstep). destruct (IH next s1 ltac:(lia) ltac:(lia) w1) as (r & w' & Hr & Hp).
    exists r, w'. split; [exact Hr|]. intros s' ->. eapply paged_more; [exact Hstep|by apply Hp].
  - exists (Ok s1), w1. split; [done|]. intros s' [= <-]. by apply paged_last.
  - exists (Err e), w1. split; [done|]. intros s' [=].
Qed.
End pages.

(** A relation along a list of answers *)
Inductive along {S A} (R : S → A → S → Prop) : S → list A → S → Prop :=
  | along_nil s : along R s [] s
  | along_cons s a s1 l s' : R s a s1 → along R s1 l s' → along R s (a :: l) s'.

Lemma follow_page_Some page count next p :
  follow_page page count next = Ok (Some p) →
  count ≠ 0 ∧ p = sat_add page 1 ∧ ∃ text, next = Some text ∧ parse_u64 text = Some p.
Proof.
  unfold follow_page. destruct next as [text|]; [|done]. intros Hr. result_inv. bools. eauto 6.
Qed.

Lemma follow_page_None page count next : follow_page page count next = Ok None → next = None.
Proof. unfold follow_page. destruct next; [|done]. intros Hr. by result_inv. Qed.

(** ** What the server says *)

Section said.
  Context {W : Type} `{UrlLib, TlsLib, Codec, TimeLib, Cancellation W, !ReadTransport W,
    !InventoryTransport W}.

(** The pages of a search: asked for one after the other from [page] on, each of them
    naming the next one but the last. *)
Inductive pages_read client (request : Z → ArchiveSearchRequest) :
    Z → W → list ArchiveSearchAssets → W → Prop :=
  | last_page page w w1 response w' :
      is_cancelled w = (false, w1) →
      post_json client decode_search "api/search/metadata" (request page) w1 = (Ok response, w') →
      sas_next_page (asr_assets response) = None →
      pages_read client request page w [asr_assets response] w'
  | more_pages page w w1 response w2 text responses w' :
      is_cancelled w = (false, w1) →
      post_json client decode_search "api/search/metadata" (request page) w1 = (Ok response, w2) →
      sas_next_page (asr_assets response) = Some text → parse_u64 text = Some (sat_add page 1) →
      sas_items (asr_assets response) ≠ [] →
      pages_read client request (sat_add page 1) w2 responses w' →
      pages_read client request page w (asr_assets response :: responses) w'.

(** A step of a loop over pages: one request, whose answer [R] relates to the state *)
Definition reads_page {S} client (request : Z → ArchiveSearchRequest) (R : S → ArchiveSearchAssets → S → Prop)
    (step : Z → S → io W ClientError (S * option Z)) : Prop :=
  ∀ page s w s' next w', step page s w = (Ok (s', next), w') → ∃ response w1,
    is_cancelled w = (false, w1)
    ∧ post_json client decode_search "api/search/metadata" (request page) w1 = (Ok response, w')
    ∧ R s (asr_assets response) s'
    ∧ sas_count (asr_assets response) = zlen (sas_items (asr_assets response))
    ∧ follow_page page (sas_count (asr_assets response)) (sas_next_page (asr_assets response)) = Ok next.

Lemma paged_pages_read {S} client request R (step : Z → S → io W ClientError (S * option Z)) page s w s' w' :
  reads_page client request R step → paged step page s w s' w' →
  ∃ responses, pages_read client request page w responses w' ∧ along R s responses s'.
Proof.
  intros Hstep. induction 1 as [page s w s' w' Hs|page s w s1 next w1 s' w' Hs _ (responses & Hr & Ha)].
  - apply Hstep in Hs as (response & w1 & Hc & Hp & HR & _ & Hn). exists [asr_assets response]. split.
    + eapply last_page; [done..|]. by eapply follow_page_None.
    + by eapply along_cons; [|constructor].
  - apply Hstep in Hs as (response & w2 & Hc & Hp & HR & Hcount & Hn).
    apply follow_page_Some in Hn as (Hpos & -> & text & Ht & Hparse).
    exists (asr_assets response :: responses). split; [|by eapply along_cons].
    eapply more_pages; try done. intros Heq. by rewrite Heq in Hcount.
Qed.

(** An item, and what is made of it, field by field *)
Definition kind_said (item : ArchiveAssetResponse) (kind : MediaKind) : Prop :=
  match aar_type item with
  | AssetTypeResponse.Image => kind = Media_Image
  | AssetTypeResponse.Video => kind = Media_Video
  | _ => False
  end.
Definition sha1_said (item : ArchiveAssetResponse) (sha1 : string) : Prop :=
  ∃ digest, base64_decode (aar_checksum item) = Some digest ∧ len digest = 20 ∧ sha1 = hex digest.

Record listed_as (item : ArchiveAssetResponse) (p : RemoteArchiveAsset * option string) : Prop := {
  la_id : raa_asset_id p.1 = aar_id item;
  la_name : raa_original_file_name p.1 = aar_original_file_name item;
  la_kind : kind_said item (raa_media_kind p.1);
  la_len : (aar_exif_info item ≫= exr_file_size_in_byte) = Some (raa_byte_len p.1);
  la_sha1 : sha1_said item (raa_checksum_sha1 p.1);
  la_linked : p.2 = aar_live_photo_video_id item;
}.

Lemma media_kind_said item kind : media_kind_of (aar_type item) = Ok kind → kind_said item kind.
Proof. unfold kind_said. by destruct (aar_type item); intros [=]. Qed.

Lemma convert_asset_said item p : convert_asset item = Ok p → listed_as item p.
Proof.
  unfold convert_asset. intros (k & Hk%media_kind_said & (d & Hd%ok_or_Ok & [Hl%negb_false_iff%Z.eqb_eq
    (n & Hn%ok_or_Ok & [= <-])%bind_Ok]%bind_fail_if_Ok)%bind_Ok)%bind_Ok.
  split; try done. by exists d.
Qed.
End said.

(** ** The archive inventory *)

Section archive.
  Context {W : Type} `{UrlLib, TlsLib, Codec, TimeLib, Cancellation W, !ReadTransport W,
    !InventoryTransport W}.

Notation related p := (option_list (snd p)).

Lemma push_items max items : ∀ assets ids assets' ids',
  for_each (push_item max) items (assets, ids) = Ok (assets', ids') →
  ∃ ps, Forall2 listed_as items ps
    ∧ assets' = assets ++ map fst ps ∧ ids' = ids ++ concat (map (λ p, related p) ps)
    ∧ (items ≠ [] → zlen assets' <= max).
Proof.
  induction items as [|item items IH]; intros assets ids assets' ids' Hr; cbn [for_each] in Hr.
  - injection Hr as <- <-. exists []. cbn. rewrite !app_nil_r. by split_and!.
  - apply bind_Ok in Hr as ([a1 i1] & Hp & Hr). cbn [push_item] in Hp.
    apply bind_fail_if_Ok in Hp as [Hlt%Z.leb_gt ([asset related_id] & Hc%convert_asset_said & [= <- <-])%bind_Ok].
    apply IH in Hr as (ps & Hps & -> & -> & Hmax). exists ((asset, related_id) :: ps). cbn.
    rewrite <- !app_assoc. split_and!; [by constructor|done|done|]. intros _.
    rewrite <- app_assoc in Hmax. destruct items as [|item' items']; [|by apply Hmax].
    apply Forall2_nil_inv_l in Hps as ->. unfold zlen in *. rewrite !length_app. cbn in *. lia.
Qed.

Lemma list_page_Ok client config page assets ids w assets' ids' next w' :
  list_page client config page (assets, ids) w = (Ok ((assets', ids'), next), w') →
  ∃ response w1 ps, is_cancelled w = (false, w1)
    ∧ post_json client decode_search "api/search/metadata" (search_request config page) w1 = (Ok response, w')
    ∧ Forall2 listed_as (sas_items (asr_assets response)) ps
    ∧ assets' = assets ++ map fst ps ∧ ids' = ids ++ concat (map (λ p, related p) ps)
    ∧ (sas_items (asr_assets response) ≠ [] → zlen assets' <= alc_max_assets config)
    ∧ sas_count (asr_assets response) = zlen (sas_items (asr_assets response))
    ∧ follow_page page (sas_count (asr_assets response)) (sas_next_page (asr_assets response)) = Ok next.
Proof.
  unfold list_page. intros ([]&w1&Hc&(response&w2&Hp&(?&?&[_ <-]%lift_Ok&(?&?&[Hn%fail_if_Ok <-]%lift_Ok&
    ([a i]&?&[Hitems <-]%lift_Ok&(n&?&[Hnext <-]%lift_Ok&[= <- <- <- <-])%io_bind_Ok)%io_bind_Ok)%io_bind_Ok)
    %io_bind_Ok)%io_bind_Ok)%io_bind_Ok.
  apply push_items in Hitems as (ps & ? & ? & ? & ?).
  exists response, w1, ps. split_and!; try done.
  - unfold Client.check_cancelled in Hc. destruct (is_cancelled w) as [[] ?]; [done|by injection Hc as <-].
  - by apply negb_false_iff, Z.eqb_eq in Hn.
Qed.

(** A page that names another one brought something. *)
Lemma list_page_grows client config page s w s' next w' :
  list_page client config page s w = (Ok (s', Some next), w') →
  zlen s.1 < zlen s'.1 <= alc_max_assets config.
Proof.
  destruct s as [assets ids], s' as [assets' ids'].
  intros (response & w1 & ps & _ & _ & Hps & -> & _ & Hmax & Hcount & Hn)%list_page_Ok.
  apply follow_page_Some in Hn as (Hpos & _). cbn [fst].
  apply Forall2_length in Hps. unfold zlen in *. rewrite length_app, length_map in *.
  destruct (sas_items (asr_assets response)); [done|]. specialize (Hmax ltac:(done)). cbn in *. lia.
Qed.

(** What one page adds to a listing *)
Definition page_listed config (s : Listing) (response : ArchiveSearchAssets) (s' : Listing) : Prop :=
  ∃ ps, Forall2 listed_as (sas_items response) ps
    ∧ s'.1 = s.1 ++ map fst ps ∧ s'.2 = s.2 ++ concat (map (λ p, related p) ps)
    ∧ (sas_items response ≠ [] → zlen s'.1 <= alc_max_assets config).

Lemma list_page_reads client config :
  reads_page client (search_request config) (page_listed config) (list_page client config).
Proof.
  intros page [assets ids] w [assets' ids'] next w'
    (response & w1 & ps & Hc & Hp & Hps & -> & -> & Hmax & Hcount & Hn)%list_page_Ok.
  exists response, w1. split_and!; try done. by exists ps.
Qed.

Lemma listed_along config s responses s' :
  along (page_listed config) s responses s' → zlen s.1 <= alc_max_assets config →
  ∃ ps, Forall2 listed_as (concat (map sas_items responses)) ps
    ∧ s'.1 = s.1 ++ map fst ps ∧ s'.2 = s.2 ++ concat (map (λ p, related p) ps)
    ∧ zlen s'.1 <= alc_max_assets config.
Proof.
  induction 1 as [s|s response s1 responses s' (ps & Hps & Ha & Hi & Hmax) _ IH]; intros Hs.
  - exists []. cbn. by rewrite !app_nil_r.
  - destruct IH as (qs & Hqs & Ha' & Hi' & Hl).
    { destruct (sas_items response); [|by apply Hmax]. apply Forall2_nil_inv_l in Hps as ->.
      rewrite Ha. cbn. by rewrite app_nil_r. }
    exists (ps ++ qs). cbn. rewrite !map_app, concat_app, !app_assoc, <- Ha, <- Hi.
    split_and!; [by apply Forall2_app|done..].
Qed.

(** *** The linked videos *)

(** They are asked for on their own, one after the other. *)
Inductive videos_read client : W → list RemoteArchiveAsset → W → Prop :=
  | videos_none w : videos_read client w [] w
  | videos_more w w1 item w2 asset related_id assets w' :
      is_cancelled w = (false, w1) →
      get_json client decode_archive_asset ("api/assets/" +:+ raa_asset_id asset) w1 = (Ok item, w2) →
      listed_as item (asset, related_id) →
      videos_read client w2 assets w' →
      videos_read client w (asset :: assets) w'.

Lemma videos_read_app client w l w1 k w' :
  videos_read client w l w1 → videos_read client w1 k w' → videos_read client w (l ++ k) w'.
Proof. induction 1 as [|? ? ? ? ? ? ? ? ? ? ? ? IH]; intros Hk; [done|]. cbn. eapply videos_more; eauto. Qed.

Notation unlisted assets :=
  (λ identifier, negb (existsb (λ asset, String.eqb (raa_asset_id asset) identifier) assets)).

Lemma fetch_related_Ok client max assets identifier w assets' w' :
  fetch_related client max assets identifier w = (Ok assets', w') → zlen assets <= max →
  ∃ linked, assets' = assets ++ linked ∧ videos_read client w linked w'
    ∧ map raa_asset_id linked = List.filter (unlisted assets) [identifier] ∧ zlen assets' <= max.
Proof.
  unfold fetch_related. cbn [List.filter]. destruct (existsb _ assets); cbn [negb]; intros Hr Hlen.
  - injection Hr as <- <-. exists []. rewrite app_nil_r. split_and!; try done. constructor.
  - revert Hr. intros ([]&w1&[Hlt%fail_if_Ok <-]%lift_Ok&([]&w2&Hc&(item&w3&Hg&([asset r]&w4&[Hi%convert_asset_said <-]%lift_Ok&
      ([]&w5&[Hid%fail_if_Ok <-]%lift_Ok&[= <- <-])%io_bind_Ok)%io_bind_Ok)%io_bind_Ok)%io_bind_Ok)%io_bind_Ok.
    apply negb_false_iff, String.eqb_eq in Hid. exists [asset]. split_and!; [done| |by cbn; rewrite Hid|].
    + eapply videos_more; [|rewrite Hid; exact Hg|exact Hi|constructor].
      unfold Client.check_cancelled in Hc. destruct (is_cancelled w) as [[] ?]; [done|by injection Hc as <-].
    + unfold zlen in *. rewrite length_app. cbn. lia.
Qed.

Lemma fetch_all client max identifiers : ∀ assets w assets' w',
  io_for_each (fetch_related client max) identifiers assets w = (Ok assets', w') →
  zlen assets <= max → NoDup identifiers →
  ∃ linked, assets' = assets ++ linked ∧ videos_read client w linked w'
    ∧ map raa_asset_id linked = List.filter (unlisted assets) identifiers ∧ zlen assets' <= max.
Proof.
  induction identifiers as [|id identifiers IH]; intros assets w assets' w' Hr Hlen Hn; cbn [io_for_each] in Hr.
  - injection Hr as <- <-. exists []. rewrite app_nil_r. split_and!; try done. constructor.
  - apply NoDup_cons in Hn as [Hid Hn]. apply io_bind_Ok in Hr as (a1 & w1 & Hf & Hr).
    apply fetch_related_Ok in Hf as (l1 & -> & Hl1 & Hids1 & Hlen1); [|done].
    apply IH in Hr as (l2 & -> & Hl2 & Hids2 & Hlen2); [|done..].
    exists (l1 ++ l2). rewrite !app_assoc. split_and!; [done|by eapply videos_read_app| |done].
    rewrite map_app, Hids1, Hids2. change (id :: identifiers) with ([id] ++ identifiers).
    rewrite List.filter_app. f_equal. apply filter_ext_in. intros x Hx. f_equal.
    rewrite existsb_app. replace (existsb _ l1) with false; [by rewrite orb_false_r|].
    symmetry. apply existsb_false, Forall_forall. intros a Ha. apply String.eqb_neq. intros He.
    assert (x ∈ map raa_asset_id l1) as Hin.
    { rewrite <- He. by apply list_elem_of_fmap_2. }
    rewrite Hids1 in Hin. apply list_elem_of_In, filter_In in Hin as [[<-|[]] _].
    apply Hid. by apply list_elem_of_In.
Qed.

Definition listing_of client negotiated config (w : W) (assets : list RemoteArchiveAsset) (w' : W) : Prop :=
  origin_digest client = ns_origin_sha256 negotiated
  ∧ zlen assets <= alc_max_assets config
  ∧ ∃ responses w1 ps linked,
      pages_read client (search_request config) 1 w responses w1
      ∧ Forall2 listed_as (concat (map sas_items responses)) ps
      ∧ videos_read client w1 linked w'
      ∧ assets = map fst ps ++ linked
      ∧ NoDup (map raa_asset_id linked)
      ∧ ∀ id, id ∈ map raa_asset_id linked ↔
          (∃ p, p ∈ ps ∧ p.2 = Some id) ∧ id ∉ map (λ p, raa_asset_id p.1) ps.

Lemma elem_of_related id (ps : list (RemoteArchiveAsset * option string)) :
  id ∈ concat (map (λ p, related p) ps) ↔ ∃ p, p ∈ ps ∧ snd p = Some id.
Proof.
  rewrite list_elem_of_In, in_concat. setoid_rewrite in_map_iff. split.
  - intros (l & (p & <- & Hp) & Hid). exists p. rewrite list_elem_of_In. split; [done|].
    destruct (snd p); [|done]. by destruct Hid as [->|[]].
  - intros (p & Hp & Hs). exists (related p). split; [exists p; by rewrite <- list_elem_of_In|].
    rewrite Hs. by left.
Qed.

Lemma elem_of_unlisted (ps : list (RemoteArchiveAsset * option string)) id :
  unlisted (map fst ps) id = true ↔ id ∉ map (λ p, raa_asset_id p.1) ps.
Proof.
  rewrite negb_true_iff, existsb_false, List.Forall_map. cbn.
  rewrite Prelude.elem_of_map. split.
  - intros Hall (p & -> & Hp). rewrite Forall_forall in Hall. by apply Hall, String.eqb_neq in Hp.
  - intros Hn. apply Forall_forall. intros p Hp. apply String.eqb_neq. intros He. apply Hn. by exists p.
Qed.

Lemma list_archive_assets_runs client negotiated config :
  runs (list_archive_assets client negotiated config)
    (λ w r w', ∀ assets, r = Ok assets → listing_of client negotiated config w assets w').
Proof.
  intros w. unfold list_archive_assets, mbind, prog_bind, run_lift.
  destruct (validate_negotiated_binding client negotiated) as [[]|e] eqn:Hb; [|by eexists _, _].
  destruct (list_config_validate config) as [c|e] eqn:Hc; [|by eexists _, _].
  assert (c = config ∧ 0 < alc_max_assets config) as [-> Hpos].
  { unfold list_config_validate in Hc. destruct (_ && _) eqn:Hv; [|done]. injection Hc as ->.
    apply andb_true_iff in Hv as [_ Hv%Z.ltb_lt]. done. }
  assert (zlen (A := RemoteArchiveAsset) [] = 0) as Hnil by done.
  pose proof (pages_runs (list_page client config) (λ s, zlen s.1) (alc_max_assets config)
    (S (Z.to_nat (alc_max_assets config))) ltac:(intros; by eapply list_page_grows) 1 ([], [])) as Hp.
  cbn [fst] in Hp. destruct (Hp ltac:(lia) ltac:(lia) w) as (r & w1 & Hr & Hpaged). clear Hp.
  rewrite Hr. destruct r as [[listed ids]|e]; [|by eexists _, _].
  destruct (paged_pages_read _ _ _ _ _ _ _ _ _ (list_page_reads client config) (Hpaged _ eq_refl))
    as (responses & Hread & Halong).
  destruct (listed_along _ _ _ _ Halong ltac:(cbn [fst]; lia)) as (ps & Hps & Ha & Hi & Hlen).
  cbn [fst snd app] in *. subst listed ids.
  assert (NoDup (sort_dedup String.compare (concat (map (λ p, related p) ps)))) as Hn.
  { eapply StronglySorted_NoDup, sort_dedup_str_lt; apply _. }
  unfold run_io. destruct (io_for_each _ _ _ w1) as [r w2] eqn:Hf. eexists _, _. split; [done|].
  intros assets ->. apply fetch_all in Hf as (linked & -> & Hlinked & Hids & Hmax); [|done..].
  split; [|split; [done|]].
  - unfold validate_negotiated_binding in Hb. by apply fail_if_Ok, negb_false_iff, String.eqb_eq in Hb.
  - exists responses, w1, ps, linked. split_and!; [done..| |].
    + rewrite Hids. by apply NoDup_ListNoDup, List.NoDup_filter, NoDup_ListNoDup.
    + intros id. rewrite Hids, list_elem_of_In, filter_In, <- list_elem_of_In, elem_of_sort_dedup,
        elem_of_related. by rewrite elem_of_unlisted.
Qed.

(** C18: Listing the assets of a server always returns, whatever the server answers: every
    page that names another one must bring something, and what is kept is bounded.  When
    it succeeds, the pages 1, 2, .. were asked for without a gap until one named no
    next page; the result is every item of every page, in order and field by field, and
    then, each of them once and as the server describes it when it is asked for on its
    own, the videos that an item links and no page listed, and nothing else; it is no
    longer than the bound, and the server is the one that was probed. *)
Theorem archive_listing_complete client negotiated config w :
  ∃ r w', list_archive_assets client negotiated config w = Some (r, w')
    ∧ ∀ assets, r = Ok assets → listing_of client negotiated config w assets w'.
Proof. apply list_archive_assets_runs. Qed.
End archive.

Lemma windows2_all_map {A B} (f : B → B → bool) (g : A → B) l :
  windows2_all f (map g l) = windows2_all (λ a b, f (g a) (g b)) l.
Proof. induction l as [|x [|y l] IH]; [done..|]. cbn in *. by rewrite IH. Qed.

(** ** Loops in [prog] *)

Lemma prog_for_each_runs {W E S A} (f : S → A → prog W E S) (I : list A → S → W → Prop) l :
  (∀ seen s x w, I seen s w →
     ∃ r w', f s x w = Some (r, w') ∧ ∀ s', r = Ok s' → I (seen ++ [x]) s' w') →
  ∀ seen s w, I seen s w →
    ∃ r w', prog_for_each f l s w = Some (r, w') ∧ ∀ s', r = Ok s' → I (seen ++ l) s' w'.
Proof.
  intros Hf. induction l as [|x l IH]; intros seen s w Hs; cbn [prog_for_each].
  - rewrite app_nil_r. exists (Ok s), w. split; [done|]. by intros s' [= <-].
  - unfold mbind, prog_bind. destruct (Hf seen s x w Hs) as ([s1|e] & w1 & -> & H1).
    + destruct (IH _ _ _ (H1 _ eq_refl)) as (r & w2 & -> & H2). exists r, w2.
      rewrite <- app_assoc in H2. by split; [|exact H2].
    + by exists (Err e), w1.
Qed.

Lemma fail_prog_runs {W A} (m : prog W ClientError A) R :
  runs m R → runs (fail_prog m) (λ w r w', ∃ r0, r = map_err Fail r0 ∧ R w r0 w').
Proof.
  intros Hm w. destruct (Hm w) as (r & w' & Hr & HR). unfold fail_prog. rewrite Hr.
  exists (map_err Fail r), w'. split; [done|]. by exists r.
Qed.

(** ** The migration inventory *)

Section migration.
  Context {W : Type} `{UrlLib, TlsLib, Codec, TimeLib, Cancellation W, !ReadTransport W,
    !InventoryTransport W}.

Lemma push_members max items : ∀ ids ids',
  for_each (push_member max) items ids = Ok ids' →
  ids' = ids ++ map aar_id items ∧ Forall (λ i, uuid_v4 (aar_id i) = true) items
  ∧ (items ≠ [] → zlen ids' <= max).
Proof.
  induction items as [|item items IH]; intros ids ids' Hr; cbn [for_each] in Hr.
  - injection Hr as <-. rewrite app_nil_r. by split_and!.
  - apply bind_Ok in Hr as (i1 & [Hp [= <-]]%bind_fail_if_Ok & Hr).
    apply orb_false_iff in Hp as [Hlt%Z.leb_gt Hu%negb_false_iff].
    apply IH in Hr as (-> & Hall & Hmax). rewrite <- app_assoc in *. split_and!; [done|by constructor|].
    intros _. destruct items; [|by apply Hmax]. unfold zlen in *. rewrite !length_app. cbn in *. lia.
Qed.

Lemma check_cancelled_Ok (w : W) u w' :
  Client.check_cancelled w = (Ok u, w') → is_cancelled w = (false, w').
Proof. unfold Client.check_cancelled. destruct (is_cancelled w) as [[] ?]; [done|]. by intros [= _ <-]. Qed.

(** What one page adds to the members of an album *)
Definition page_members config (ids : list string) (response : ArchiveSearchAssets) (ids' : list string) : Prop :=
  ids' = ids ++ map aar_id (sas_items response)
  ∧ (sas_items response ≠ [] → zlen ids' <= mlc_max_album_memberships config).

Lemma album_page_reads client album_id config :
  reads_page client (album_request album_id config) (page_members config) (album_page client album_id config).
Proof.
  unfold album_page. intros page ids w ids' next w'
    ([]&w1&Hc%check_cancelled_Ok&(response&w2&Hp&([]&w3&[Hn%fail_if_Ok <-]%lift_Ok&
    (i&w4&[Hitems <-]%lift_Ok&(n&w5&[Hnext <-]%lift_Ok&[= <- <- <-])%io_bind_Ok)%io_bind_Ok)%io_bind_Ok)%io_bind_Ok)
    %io_bind_Ok.
  apply push_members in Hitems as (-> & _ & Hmax). apply negb_false_iff, Z.eqb_eq in Hn.
  exists response, w1. by split_and!.
Qed.

Lemma album_page_grows client album_id config page ids w ids' next w' :
  album_page client album_id config page ids w = (Ok (ids', Some next), w') →
  zlen ids < zlen ids' <= mlc_max_album_memberships config.
Proof.
  intros (response & w1 & _ & _ & [-> Hmax] & Hn & (Hpos & _)%follow_page_Some)%album_page_reads.
  rewrite Hn in Hpos. unfold zlen in *. rewrite length_app, length_map in *.
  destruct (sas_items (asr_assets response)); [done|]. specialize (Hmax ltac:(done)). cbn in *. lia.
Qed.

Lemma members_along config ids responses ids' :
  along (page_members config) ids responses ids' →
  ids' = ids ++ map aar_id (concat (map sas_items responses)).
Proof.
  induction 1 as [ids|ids response i1 responses ids' [-> _] _ ->]; cbn; [by rewrite app_nil_r|].
  by rewrite map_app, app_assoc.
Qed.

Lemma migration_album_assets_runs client album_id config :
  0 < mlc_max_album_memberships config →
  runs (migration_album_assets client album_id config) (λ w r w', ∀ ids, r = Ok ids →
    ∃ responses, pages_read client (album_request album_id config) 1 w responses w'
      ∧ ids = map aar_id (concat (map sas_items responses))).
Proof.
  intros Hpos. unfold migration_album_assets.
  assert (zlen (A := string) [] = 0) as Hnil by done.
  eapply runs_weaken.
  - apply (pages_runs (album_page client album_id config) zlen (mlc_max_album_memberships config)
      (S (Z.to_nat (mlc_max_album_memberships config)))); [|lia..]. intros; by eapply album_page_grows.
  - intros w r w' Hp ids Hr. specialize (Hp _ Hr).
    destruct (paged_pages_read _ _ _ _ _ _ _ _ _ (album_page_reads client album_id config) Hp)
      as (responses & Hread & Ha%members_along). by exists responses.
Qed.

(** *** One album *)

Definition album_ok (allowed : list string) (a : RemoteOwnedAlbum) : Prop :=
  uuid_v4 (roa_album_id a) = true ∧ valid_album_name (roa_name a) = true
  ∧ roa_asset_ids a ≠ [] ∧ StronglySorted str_lt (roa_asset_ids a)
  ∧ Forall (λ id, id ∈ allowed) (roa_asset_ids a).

Definition total_members (albums : list RemoteOwnedAlbum) : Z :=
  Z.of_nat (sum_list_with (λ a, length (roa_asset_ids a)) albums).

(** The members an album keeps: those of the inventory, each once and in order *)
Definition members_of (allowed ids kept : list string) : Prop :=
  StronglySorted str_lt kept ∧ ∀ id, id ∈ kept ↔ id ∈ ids ∧ id ∈ allowed.

Definition album_kept (header : MigrationAlbumResponse) (kept : list string) : list RemoteOwnedAlbum :=
  match kept with
  | [] => []
  | _ => [{| roa_album_id := mar_id header; roa_name := mar_album_name header; roa_asset_ids := kept |}]
  end.

(** The albums, one after the other: all pages of their members are asked for. *)
Inductive albums_read client config allowed :
    W → list MigrationAlbumResponse → list RemoteOwnedAlbum → W → Prop :=
  | albums_none w : albums_read client config allowed w [] [] w
  | albums_more w w1 header responses kept w2 headers albums w' :
      is_cancelled w = (false, w1) →
      pages_read client (album_request (mar_id header) config) 1 w1 responses w2 →
      members_of allowed (map aar_id (concat (map sas_items responses))) kept →
      albums_read client config allowed w2 headers albums w' →
      albums_read client config allowed w (header :: headers) (album_kept header kept ++ albums) w'.

Lemma albums_read_app client config allowed w h1 l1 w1 h2 l2 w2 :
  albums_read client config allowed w h1 l1 w1 → albums_read client config allowed w1 h2 l2 w2 →
  albums_read client config allowed w (h1 ++ h2) (l1 ++ l2) w2.
Proof.
  induction 1 as [|w w1' header responses kept w2' headers albums w' Hc Hp Hm _ IH]; intros Hk; [done|].
  cbn [app]. rewrite <- app_assoc. eapply albums_more; eauto.
Qed.

(** The albums so far; the counter of memberships saturates. *)
Definition albums_so_far client config (allowed : list string) (w0 : W) (seen : list MigrationAlbumResponse)
    (state : Z * list RemoteOwnedAlbum) (w : W) : Prop :=
  Forall (album_ok allowed) state.2 ∧ (length state.2 <= length seen)%nat
  ∧ state.1 = Z.min (total_members state.2) u64_max
  ∧ state.1 <= mlc_max_album_memberships config
  ∧ albums_read client config allowed w0 seen state.2 w.

Lemma kept_members allowed ids :
  members_of allowed ids (sort_dedup String.compare (List.filter (λ id, existsb (String.eqb id) allowed) ids)).
Proof.
  split; [apply sort_dedup_str_lt|]. intros id.
  rewrite elem_of_sort_dedup, list_elem_of_In, filter_In, existsb_exists, <- list_elem_of_In.
  setoid_rewrite <- list_elem_of_In. split.
  - by intros [Hid (x & Hx & ->%String.eqb_eq)].
  - intros [Hid Ha]. split; [done|]. exists id. split; [done|apply String.eqb_refl].
Qed.

Lemma migration_album_runs client config allowed w0 seen state header w :
  0 < mlc_max_album_memberships config → albums_so_far client config allowed w0 seen state w →
  ∃ r w', migration_album client config allowed state header w = Some (r, w')
    ∧ ∀ s', r = Ok s' → albums_so_far client config allowed w0 (seen ++ [header]) s' w'.
Proof.
  intros Hpos (Hall & Hlen & Hcount & Hmax & Hread). destruct state as [memberships albums]. cbn [fst snd] in *.
  unfold migration_album, mbind, prog_bind, run_io, run_lift.
  destruct (Client.check_cancelled w) as [[[]|e] w1] eqn:Hc; [|by eexists _, _].
  apply check_cancelled_Ok in Hc.
  destruct (negb _ || _ || _) eqn:Hh; cbn [fail_if]; [eexists _, _; split; [reflexivity|discriminate]|].
  destruct (migration_album_assets_runs client (mar_id header) config Hpos w1) as ([ids|e] & w2 & -> & Hids);
    [|by eexists _, _].
  destruct (Hids _ eq_refl) as (responses & Hpages & Heq). clear Hids.
  set (kept := sort_dedup _ _). pose proof (kept_members allowed ids) as Hkept.
  change (sort_dedup _ _) with kept in Hkept. clearbody kept.
  destruct (_ <? sat_add _ _) eqn:Hm; cbn [fail_if]; [by eexists _, _|].
  eexists _, _. split; [done|]. intros s' [= <-]. apply Z.ltb_ge in Hm. bools.
  assert (albums_read client config allowed w0 (seen ++ [header]) (albums ++ album_kept header kept) w2) as Hread'.
  { eapply albums_read_app; [exact Hread|]. rewrite <- (app_nil_r (album_kept header kept)).
    eapply albums_more; [exact Hc|exact Hpages|by rewrite <- Heq|constructor]. }
  assert (match kept with [] => albums | _ :: _ => albums ++ [{| roa_album_id := mar_id header;
    roa_name := mar_album_name header; roa_asset_ids := kept |}] end = albums ++ album_kept header kept) as Hal
    by (destruct kept; cbn; by rewrite ?app_nil_r).
  unfold albums_so_far. cbn [fst snd]. rewrite Hal. rewrite !length_app. destruct kept as [|id kept'] eqn:Hk.
  - unfold sat_add, zlen in *. cbn [album_kept] in *. rewrite app_nil_r in *. cbn [length] in *.
    split_and!; [done|lia|lia|lia|done].
  - destruct Hkept as [Hsorted Hin]. split_and!; [|cbn; lia| |lia|done].
    + apply Forall_app. split; [done|]. constructor; [|constructor].
      split_and!; cbn [roa_album_id roa_name roa_asset_ids]; try done.
      apply Forall_forall. intros x Hx. by apply Hin.
    + unfold total_members, sat_add, zlen in *. rewrite sum_list_with_app. cbn [sum_list_with roa_asset_ids album_kept].
      lia.
Qed.

Lemma migration_albums_runs client negotiated config allowed :
  0 < mlc_max_album_memberships config →
  runs (migration_albums client negotiated config allowed) (λ w r w', ∀ albums, r = Ok albums →
    Forall (album_ok allowed) albums ∧ StronglySorted (λ a b, album_le a b = true) albums
    ∧ zlen albums <= mlc_max_albums config
    ∧ Z.min (total_members albums) u64_max <= mlc_max_album_memberships config
    ∧ ∃ headers read w1 w2, is_cancelled w = (false, w1)
      ∧ get_json client decode_owned_albums "api/albums?isOwned=true" w1 = (Ok headers, w2)
      ∧ albums_read client config allowed w2 headers read w' ∧ albums ≡ₚ read).
Proof.
  intros Hpos w. unfold migration_albums, mbind, prog_bind, run_io, run_lift.
  destruct (validate_migration_binding client negotiated) as [[]|e]; [|by eexists _, _].
  destruct (Client.check_cancelled w) as [[[]|e] w1] eqn:Hc; [|by eexists _, _].
  apply check_cancelled_Ok in Hc.
  destruct (get_json _ _ _ w1) as [[headers|e] w2] eqn:Hg; [|by eexists _, _].
  destruct (_ <? zlen headers) eqn:Hn; cbn [fail_if]; [by eexists _, _|]. apply Z.ltb_ge in Hn.
  destruct (prog_for_each_runs (migration_album client config allowed)
    (albums_so_far client config allowed w2) headers
    (λ seen s x w, migration_album_runs client config allowed w2 seen s x w Hpos) [] (0, []) w2)
    as ([[n albums]|e] & w3 & -> & Hr); [|  |by eexists _, _].
  { unfold albums_so_far. cbn. split_and!; try done; [lia|constructor]. }
  destruct (Hr _ eq_refl) as (Hall & Hlen & Hcount & Hmax & Hread). cbn [fst snd app] in *.
  eexists _, _. split; [done|]. intros sorted [= <-].
  pose proof (sort_by_perm album_le albums) as Hperm. split_and!.
  - rewrite Hperm. done.
  - apply sort_by_sorted.
    + intros a b. apply (leb_total (then_by String.compare fst String.compare snd) (roa_name a, roa_album_id a) (roa_name b, roa_album_id b)).
    + intros a b c. apply (leb_trans (then_by String.compare fst String.compare snd) (roa_name a, roa_album_id a) (roa_name b, roa_album_id b)
        (roa_name c, roa_album_id c)).
  - unfold zlen in *. rewrite Hperm. lia.
  - unfold total_members in *. rewrite Hperm. lia.
  - exists headers, albums, w1, w2. by split_and!.
Qed.

(** *** The whole inventory *)

Definition remote_asset_ok (a : RemoteMigrationAsset) : Prop :=
  0 < rma_byte_len a ∧ is_sha1 (rma_checksum_sha1 a) = true
  ∧ - 2 ^ 63 <= rma_created_at_unix_ms a < 2 ^ 63 ∧ - 2 ^ 63 <= rma_modified_at_unix_ms a < 2 ^ 63
  ∧ ∀ m, rma_normalized_metadata a = Some m →
      m ≠ default_metadata ∧ description m ≠ Some "" ∧ albums m = [].

Lemma timestamp_millis_Ok value millis :
  timestamp_millis value = Ok millis → - 2 ^ 63 <= millis < 2 ^ 63.
Proof.
  unfold timestamp_millis. intros (t & _ & Hr)%bind_Ok. cbv zeta in Hr.
  destruct (_ && _) eqn:Hb in Hr; [|done]. injection Hr as <-. bools. lia.
Qed.

Lemma decode_sha1_Ok value sha1 : decode_sha1 value = Ok sha1 → is_sha1 sha1 = true.
Proof.
  unfold decode_sha1. intros (b & _ & [Hlen%negb_false_iff%Z.eqb_eq [= <-]]%bind_fail_if_Ok)%bind_Ok.
  unfold is_sha1, lowercase_hex. rewrite hex_lower, andb_true_r. apply Z.eqb_eq.
  unfold len in *. rewrite hex_length. lia.
Qed.

Lemma normalized_metadata_Ok text taken_at lat long m :
  normalized_metadata text taken_at lat long = Ok (Some m) →
  m ≠ default_metadata ∧ description m ≠ Some "" ∧ albums m = [].
Proof.
  unfold normalized_metadata. intros (utc & _ & (loc & _ & Hr)%bind_Ok)%bind_Ok. cbv zeta in Hr.
  case_bool_decide as Hd; [done|]. injection Hr as <-. split_and!; [done| |done].
  cbn. destruct text as [[|]|]; [done|by intros [=]|done].
Qed.

(** The second answer, and the asset made of it, field by field *)
Definition time_said (text : option string) (millis : Z) : Prop :=
  ∃ t i, text = Some t ∧ parse_rfc3339 t = Some i
    ∧ millis = Z.quot (unix_timestamp_nanos i) 1000000 ∧ - 2 ^ 63 <= millis < 2 ^ 63.

(** A date is the second of the instant, written in UTC. *)
Definition date_said (text date : option string) : Prop :=
  match text with
  | None => date = None
  | Some t => ∃ i utc d, parse_rfc3339 t = Some i
      ∧ from_unix_timestamp_nanos (unix_timestamp_nanos i - unix_timestamp_nanos i mod 10 ^ 9) = Some utc
      ∧ format_rfc3339 utc = Some d ∧ date = Some d
  end.

Definition place_said (lat long : option F64.f64) (place : option GeoCoordinates) : Prop :=
  match lat, long with
  | None, None => place = None
  | Some lat, Some long => F64.is_finite lat = true ∧ F64.is_finite long = true
      ∧ place = Some {| latitude := canonical_decimal lat; longitude := canonical_decimal long |}
  | _, _ => False
  end.

Record asset_said (item : ArchiveAssetResponse) (a : RemoteMigrationAsset) : Prop := {
  as_id : rma_asset_id a = aar_id item;
  as_name : rma_original_file_name a = aar_original_file_name item;
  as_kind : kind_said item (rma_media_kind a);
  as_len : (aar_exif_info item ≫= exr_file_size_in_byte) = Some (rma_byte_len a);
  as_sha1 : sha1_said item (rma_checksum_sha1 a);
  as_created : time_said (aar_file_created_at item) (rma_created_at_unix_ms a);
  as_modified : time_said (aar_file_modified_at item) (rma_modified_at_unix_ms a);
  as_linked : rma_live_photo_video_id a = aar_live_photo_video_id item;
  (** nothing is recorded when there is nothing to record *)
  as_metadata : ∃ exif m, aar_exif_info item = Some exif
    ∧ rma_normalized_metadata a = (if bool_decide (m = default_metadata) then None else Some m)
    ∧ description m = (if bool_decide (exr_description exif = Some "") then None else exr_description exif)
    ∧ date_said (match exr_date_time_original exif with Some d => Some d | None => aar_file_created_at item end)
        (taken_at_utc m)
    ∧ place_said (exr_latitude exif) (exr_longitude exif) (location m)
    ∧ albums m = [];
}.

Lemma timestamp_millis_said value millis : timestamp_millis value = Ok millis → time_said (Some value) millis.
Proof.
  unfold timestamp_millis. intros (i & Hi%ok_or_Ok & Hr)%bind_Ok. cbv zeta in Hr.
  destruct (_ && _) eqn:Hb in Hr; [|done]. injection Hr as <-. bools. exists value, i. split_and!; done || lia.
Qed.

Lemma canonical_timestamp_said value date :
  canonical_timestamp value = Ok date → date_said (Some value) (Some date).
Proof.
  unfold canonical_timestamp. intros (i & Hi%ok_or_Ok & (utc & Hu%ok_or_Ok & Hd%ok_or_Ok)%bind_Ok)%bind_Ok.
  by exists i, utc, date.
Qed.

Lemma remote_location_said lat long place : remote_location lat long = Ok place → place_said lat long place.
Proof.
  unfold remote_location, place_said. destruct lat, long; try (by intros [=]).
  destruct (_ && _) eqn:Hb; [|done]. intros [= <-]. by bools.
Qed.

Lemma normalized_metadata_said text date lat long metadata :
  normalized_metadata text date lat long = Ok metadata →
  ∃ m, metadata = (if bool_decide (m = default_metadata) then None else Some m)
    ∧ description m = (if bool_decide (text = Some "") then None else text)
    ∧ date_said date (taken_at_utc m) ∧ place_said lat long (location m) ∧ albums m = [].
Proof.
  unfold normalized_metadata. intros (utc & Hu & (place & Hp%remote_location_said & [= <-])%bind_Ok)%bind_Ok.
  eexists. split; [done|]. cbn. split_and!; [|destruct date| |]; try done.
  - destruct text as [[|]|]; by case_bool_decide.
  - apply bind_Ok in Hu as (d & Hd%canonical_timestamp_said & [= <-]). exact Hd.
  - injection Hu as <-. done.
Qed.

Lemma migration_asset_said item a : migration_asset item = Ok a → asset_said item a.
Proof.
  unfold migration_asset. intros (k & Hk%map_err_Ok%media_kind_said & (sha1 & Hs & (exif & Hx%ok_or_Ok &
    (n & Hn%ok_or_Ok & [_ (c & Hc%ok_or_Ok & (created & Hcreated%timestamp_millis_said & (m & Hm%ok_or_Ok &
    (modified & Hmodified%timestamp_millis_said & (metadata & Hmeta & [= <-])%bind_Ok)%bind_Ok)%bind_Ok)%bind_Ok)
    %bind_Ok]%bind_fail_if_Ok)%bind_Ok)%bind_Ok)%bind_Ok)%bind_Ok.
  unfold decode_sha1 in Hs. apply bind_Ok in Hs as (d & Hd%ok_or_Ok & [Hl%negb_false_iff%Z.eqb_eq [= <-]]%bind_fail_if_Ok).
  apply normalized_metadata_said in Hmeta as (md & ? & ? & ? & ? & ?).
  split; cbn; rewrite ?Hx, ?Hc, ?Hm; try done; [by exists d|]. rewrite Hc in *. by exists exif, md.
Qed.

Lemma migration_asset_Ok item a : migration_asset item = Ok a → remote_asset_ok a.
Proof.
  intros Hr. unfold migration_asset in Hr. result_inv. unfold remote_asset_ok. cbn.
  split_and!; try (by eapply timestamp_millis_Ok); [lia|by eapply decode_sha1_Ok|].
  intros m ->. by eapply normalized_metadata_Ok.
Qed.

(** The two answers agree. *)
Definition agrees (a : RemoteMigrationAsset) (e : RemoteArchiveAsset) : Prop :=
  rma_asset_id a = raa_asset_id e ∧ rma_original_file_name a = raa_original_file_name e
  ∧ rma_media_kind a = raa_media_kind e ∧ rma_byte_len a = raa_byte_len e
  ∧ rma_checksum_sha1 a = raa_checksum_sha1 e.

(** Every listed asset is asked for again, one after the other. *)
Inductive assets_read client : W → list RemoteArchiveAsset → list RemoteMigrationAsset → W → Prop :=
  | assets_none w : assets_read client w [] [] w
  | assets_more w w1 item w2 e a archive read w' :
      is_cancelled w = (false, w1) →
      get_json client decode_archive_asset ("api/assets/" +:+ raa_asset_id e) w1 = (Ok item, w2) →
      asset_said item a → agrees a e →
      assets_read client w2 archive read w' →
      assets_read client w (e :: archive) (a :: read) w'.

Lemma assets_read_length client w archive read w' :
  assets_read client w archive read w' → length read = length archive.
Proof. induction 1; cbn; congruence. Qed.

Lemma fail_io_Ok {A} (m : io W ClientError A) w a w' : fail_io m w = (Ok a, w') → m w = (Ok a, w').
Proof. unfold fail_io. destruct (m w) as [[x|e] w1]; [by intros [= -> ->]|done]. Qed.

Lemma read_assets_Ok client archive : ∀ assets w assets' w',
  io_for_each (read_asset client) archive assets w = (Ok assets', w') →
  ∃ read, assets' = assets ++ read ∧ Forall remote_asset_ok read ∧ assets_read client w archive read w'.
Proof.
  induction archive as [|e archive IH]; intros assets w assets' w' Hr; cbn [io_for_each] in Hr.
  - injection Hr as <- <-. exists []. rewrite app_nil_r. split_and!; try done. constructor.
  - apply io_bind_Ok in Hr as (a1 & w1 & Hread & Hr). apply IH in Hr as (read & -> & Hok & Hrest).
    revert Hread. unfold read_asset. intros ([]&w2&Hc%fail_io_Ok%check_cancelled_Ok&(item&w3&Hg%fail_io_Ok&
      (a&w4&[Ha <-]%lift_Ok&([]&w5&[Heq%fail_if_Ok%negb_false_iff <-]%lift_Ok&[= <- <-])%io_bind_Ok)%io_bind_Ok)
      %io_bind_Ok)%io_bind_Ok.
    exists (a :: read). rewrite <- app_assoc.
    split_and!; [done|constructor; [by eapply migration_asset_Ok|done]|].
    eapply assets_more; [exact Hc|exact Hg|by apply migration_asset_said| |exact Hrest].
    unfold Inventory.same_asset in Heq. rewrite !andb_true_iff, !String.eqb_eq, bool_decide_eq_true, Z.eqb_eq in Heq.
    unfold agrees. tauto.
Qed.

Definition timeline_config (config : MigrationListConfig) : ArchiveListConfig := {|
  alc_visibility := ArchiveVisibility.Timeline; alc_include_trashed := false;
  alc_page_size := mlc_page_size config; alc_max_assets := mlc_max_assets config |}.

(** What an inventory is; it was read from [w] on, up to [w']. *)
Record inventory_ok client negotiated (config : MigrationListConfig) (w : W)
    (inventory : RemoteMigrationInventory) (w' : W) : Prop := {
  io_assets : Forall remote_asset_ok (rmi_assets inventory);
  io_sorted : StronglySorted str_lt (map rma_asset_id (rmi_assets inventory));
  (** a complete listing, every asset of it asked for again, and every owned album *)
  io_read : ∃ archive w1 read w2 w3 headers w4 albums,
    listing_of client negotiated (timeline_config config) w archive w1
    ∧ assets_read client w1 archive read w2 ∧ rmi_assets inventory ≡ₚ read
    ∧ is_cancelled w2 = (false, w3)
    ∧ get_json client decode_owned_albums "api/albums?isOwned=true" w3 = (Ok headers, w4)
    ∧ albums_read client config (map rma_asset_id (rmi_assets inventory)) w4 headers albums w'
    ∧ rmi_albums inventory ≡ₚ albums;
  io_bound : zlen (rmi_assets inventory) <= mlc_max_assets config;
  io_albums : Forall (album_ok (map rma_asset_id (rmi_assets inventory))) (rmi_albums inventory);
  io_album_order : StronglySorted (λ a b, album_le a b = true) (rmi_albums inventory);
  io_album_bound : zlen (rmi_albums inventory) <= mlc_max_albums config;
  io_members : Z.min (total_members (rmi_albums inventory)) u64_max <= mlc_max_album_memberships config;
}.

Lemma migration_inventory_runs client negotiated config w :
  ∃ r w', migration_inventory client negotiated config w = Some (r, w')
    ∧ ∀ inventory, r = Ok inventory → inventory_ok client negotiated config w inventory w'.
Proof.
  unfold migration_inventory, mbind, prog_bind, run_io, run_lift.
  destruct (migration_config_validate config) as [c|e] eqn:Hc; cbn [map_err]; [|by eexists _, _].
  assert (c = config ∧ 0 < mlc_max_album_memberships config) as [-> Hpos].
  { unfold migration_config_validate in Hc. destruct (_ && _) eqn:Hv in Hc; [|done]. injection Hc as ->.
    by bools. }
  change {| alc_visibility := _ |} with (timeline_config config).
  destruct (fail_prog_runs _ _ (list_archive_assets_runs client negotiated (timeline_config config)) w)
    as (r1 & w1 & -> & r0 & -> & Hlist).
  destruct r0 as [archive|e]; cbn [map_err]; [|by eexists _, _]. specialize (Hlist _ eq_refl).
  destruct (io_for_each _ _ _ w1) as [[assets|e] w2] eqn:Hread; [|by eexists _, _].
  apply read_assets_Ok in Hread as (read & Heq & Hok & Hread). cbn [app] in Heq. subst assets.
  pose proof (sort_by_perm asset_le read) as Hperm. set (assets := sort_by asset_le read) in *.
  destruct (windows2_all _ assets) eqn:Hw; cbn [negb fail_if]; [|by eexists _, _].
  destruct (fail_prog_runs _ _ (migration_albums_runs client negotiated config (map rma_asset_id assets) Hpos) w2)
    as (r2 & w3 & -> & r3 & -> & Halbums).
  destruct r3 as [albums|e]; cbn [map_err]; [|by eexists _, _].
  destruct (Halbums _ eq_refl) as (Ha & Hs & Hn & Hm & headers & listed & wa & wb & Hca & Hga & Hra & Hpa).
  eexists _, _. split; [done|]. intros inventory [= <-]. pose proof Hlist as (Hb & Hlen & _).
  split; cbn [rmi_assets rmi_albums]; try done.
  - by rewrite Hperm.
  - apply (windows2_all_StronglySorted String.ltb str_lt); [done|]. by rewrite windows2_all_map.
  - exists archive, w1, read, w2, wa, headers, wb, listed. by split_and!.
  - apply assets_read_length in Hread. unfold zlen in *. rewrite Hperm, Hread. exact Hlen.
Qed.

(** C19: Reading the inventory of a server for a migration never loops, whatever the server
    answers: it gives an inventory, an error, or the panic of the conversion of a time that
    lies after the last date in UTC.  An inventory is what the server said: a complete
    listing of the timeline, whose every asset was asked for again on its own, agreed with
    the listing, and is recorded once, in the order of the identifiers and field by field
    as the second answer says, with a positive length, a checksum of twenty bytes and times
    that fit; and every owned album of which all pages were read, with exactly its members
    that are in the inventory, unless it has none, under a canonical identifier and a valid
    name, in the order of the names.  None of the three bounds is exceeded. *)
Theorem migration_inventory_sound client negotiated config w :
  ∃ r w', migration_inventory client negotiated config w = Some (r, w')
    ∧ ∀ inventory, r = Ok inventory → inventory_ok client negotiated config w inventory w'.
Proof. apply migration_inventory_runs. Qed.
End migration.

(** ** Concrete runs *)

Section witnesses.
#[local] Existing Instances sample_codec sample_time sample_url sample_tls scripted_reads.

(** Two pages, a video that neither lists, its photo, and one album. *)
Definition twenty (c : string) : string := c +:+ "234567890123456789_".
Definition sample_id (c : string) : string := "0123456" +:+ c +:+ "-89ab-4def-8123-456789abcdef".
Definition remote_item (c : string) (type : AssetTypeResponse.t) (live : option string) :
    ArchiveAssetResponse := {|
  aar_id := sample_id c; aar_original_file_name := c +:+ ".jpg"; aar_checksum := twenty c; aar_type := type;
  aar_exif_info := Some {| exr_file_size_in_byte := Some 4; exr_date_time_original := None;
    exr_description := Some ""; exr_latitude := None; exr_longitude := None |};
  aar_file_created_at := Some sample_utc; aar_file_modified_at := Some sample_utc;
  aar_live_photo_video_id := live |}.
Definition photo := remote_item "b" AssetTypeResponse.Image (Some (sample_id "c")).
Definition video := remote_item "c" AssetTypeResponse.Video None.
Definition first_photo := remote_item "a" AssetTypeResponse.Image None.
Definition search_page (items : list ArchiveAssetResponse) (next : option string) : ArchiveSearchResponse :=
  {| asr_assets := {| sas_items := items; sas_count := zlen items; sas_next_page := next; sas_total := 3 |} |}.

#[local] Instance scripted_inventory : InventoryTransport (list HttpResponse) := {|
  http_post _ _ _ _ w := match w with r :: w => (Some (Ok r), w) | [] => (None, []) end;
  http_download _ _ _ w := match w with r :: w => (Some (Ok r), w) | [] => (None, []) end;
  chunk_arrives w := (true, w);
  decode_search body :=
    if String.eqb body "page 1" then Some (search_page [photo] (Some "2"))
    else if String.eqb body "page 2" then Some (search_page [first_photo] None)
    else if String.eqb body "again" then Some (search_page [photo] (Some "1"))
    else if String.eqb body "empty" then Some (search_page [] (Some "2")) else None;
  decode_archive_asset body :=
    if String.eqb body "a" then Some first_photo else if String.eqb body "b" then Some photo
    else if String.eqb body "c" then Some video else None;
  decode_owned_albums body := Some [{| mar_id := sample_id "f"; mar_album_name := "Lake"; mar_asset_count := 2 |}];
  base64_decode := Some;
|}.

Definition reader : ImmichReadClient := origin_client PhotosHttps.
Definition list_config : ArchiveListConfig := {| alc_visibility := ArchiveVisibility.Timeline;
  alc_include_trashed := false; alc_page_size := 1; alc_max_assets := 3 |}.
Definition migration_config : MigrationListConfig := {|
  mlc_page_size := 1; mlc_max_assets := 3; mlc_max_albums := 1; mlc_max_album_memberships := 2 |}.
Definition bodies (l : list string) : list HttpResponse := map (λ b, answer 200 [b]) l.
Definition listed (script : list string) : option (result ClientError (list string)) :=
  match list_archive_assets reader photo_server list_config (bodies script) with
  | Some (Ok assets, _) => Some (Ok (map raa_asset_id assets))
  | Some (Err e, _) => Some (Err e)
  | None => None
  end.

(** Pages out of order, empty pages with a successor and foreign assets are refused. *)
Example listings :
  listed ["page 1"; "page 2"; "c"] = Some (Ok [sample_id "b"; sample_id "a"; sample_id "c"])
  ∧ listed ["page 1"; "page 2"; "a"] = Some (Err protocol_error)
  ∧ listed ["again"] = Some (Err protocol_error)
  ∧ listed ["empty"] = Some (Err protocol_error).
Proof. repeat split; vm_compute; reflexivity. Qed.

Definition inventory_script : list HttpResponse :=
  bodies ["page 1"; "page 2"; "c"; "b"; "a"; "c"; "albums"; "page 1"; "page 2"].

Lemma archive_listing_complete_witness : ∃ assets w',
  list_archive_assets reader photo_server list_config (bodies ["page 1"; "page 2"; "c"]) = Some (Ok assets, w')
  ∧ zlen assets <= 3.
Proof.
  destruct (archive_listing_complete reader photo_server list_config (bodies ["page 1"; "page 2"; "c"]))
    as ([assets|e] & w' & Hr & Hok).
  - destruct (Hok assets eq_refl) as (_ & Hlen & _). exists assets, w'. exact (conj Hr Hlen).
  - exfalso. clear Hok. vm_compute in Hr. discriminate Hr.
Defined.

Lemma migration_inventory_sound_witness : ∃ inventory w',
  migration_inventory reader photo_server migration_config inventory_script = Some (Ok inventory, w')
  ∧ StronglySorted str_lt (map rma_asset_id (rmi_assets inventory)).
Proof.
  destruct (migration_inventory_sound reader photo_server migration_config inventory_script)
    as ([inventory|e] & w' & Hr & Hok).
  - destruct (Hok inventory eq_refl) as [_ Hsorted _ _ _ _ _ _]. exists inventory, w'. exact (conj Hr Hsorted).
  - exfalso. clear Hok. vm_compute in Hr. discriminate Hr.
Defined.

Example inventory_run : ∃ inventory w',
  migration_inventory reader photo_server migration_config inventory_script = Some (Ok inventory, w')
  ∧ map rma_asset_id (rmi_assets inventory) = map sample_id ["a"; "b"; "c"]
  ∧ map roa_asset_ids (rmi_albums inventory) = [map sample_id ["a"; "b"]].
Proof. vm_compute. by eexists _, _. Qed.
End witnesses.

(** A time with an offset can be an instant after the last date in UTC: the conversion
    then panics, on what a server said. *)
Section far_time.
#[local] Instance far_time : TimeLib := {|
  instant := Z;
  parse_rfc3339 s := if String.eqb s "9999-12-31T23:59:59-01:00" then Some 253402304399 else None;
  format_rfc3339 _ := None;
  unix_timestamp_nanos i := i * 10 ^ 9;
  from_unix_timestamp_nanos n := if n / 10 ^ 9 <=? 253402300799 then Some (n / 10 ^ 9) else None;
|}.
Example far_timestamp : canonical_timestamp "9999-12-31T23:59:59-01:00" = Err Panic.
Proof. vm_compute. reflexivity. Qed.
End far_time.
