(* ===== verification/ArchiveApply.v ===== *)
(** * ArchiveApply: the manifest of an archive run, and the run
    ([crates/immich-executor/src/archive_plan.rs], [archive_apply.rs])

    The remote assets of an inventory become a sorted manifest bound to the server
    and to the digest of the planning configuration.  Every original of it is streamed
    into a partial file beside its target and renamed when its length and digest are
    right.  The destination is the interface [DestinationFs]; its calls may fail at any
    time.  The two read loops have fuel: the chunks of the response, and the bytes of
    the file that is verified. *)
From Stdlib Require Import Ascii.
From S2P Require Export Inventory Executor Verify Discovery.

Module ArchiveSelection.
Inductive t := Timeline | Archive | Hidden | All.
End ArchiveSelection.

Record ArchivePlanningConfig := {
  apc_selection : ArchiveSelection.t;
  apc_include_trashed : bool;
  apc_page_size : Z;
  apc_max_assets : Z;
}.

(** [ArchivePlanningConfig::default] *)
Definition default_archive_planning : ArchivePlanningConfig := {|
  apc_selection := ArchiveSelection.Timeline; apc_include_trashed := false;
  apc_page_size := 100; apc_max_assets := 100000 |}.

(** [serde_json::to_vec] of what an archive run hashes, and [Sha1::digest] *)
Class ArchiveCodec := {
  json_archive_planning : ArchivePlanningConfig → option string;
  json_archive_manifest : ArchiveManifest → option string;
  sha1 : string → string;
}.

(** [ArchivePlanningConfig::validate] *)
Definition planning_config_validate (c : ArchivePlanningConfig) : result ExecutorError unit :=
  if ScanConfig.in_range 1 1000 (apc_page_size c) && (0 <? apc_max_assets c) then Ok tt
  else Err (executor_error ExecutorErrorClass.InvalidConfiguration).

(** [.map_err(|_| ..)] on a validation that may panic *)
Definition relabel {E F A} (e : F) (r : result (fault E) A) : result (fault F) A :=
  map_err (λ f, match f with Fail _ => Fail e | Panic => Panic end) r.

Definition archive_asset_of (remote : RemoteArchiveAsset) : ArchiveAsset := {|
  aa_asset_id := raa_asset_id remote;
  aa_original_file_name := raa_original_file_name remote;
  aa_target_path := target_path_of (raa_asset_id remote) (raa_original_file_name remote);
  aa_media_kind := raa_media_kind remote;
  aa_byte_len := raa_byte_len remote;
  aa_checksum_sha1 := raa_checksum_sha1 remote |}.

Definition target_le (left right : ArchiveAsset) : bool :=
  leb_of String.compare (aa_target_path left) (aa_target_path right).

(** [try_fold(0, |total, asset| total.checked_add(asset.byte_len))] *)
Fixpoint checked_total (total : Z) (assets : list ArchiveAsset) : option Z :=
  match assets with
  | [] => Some total
  | asset :: assets => total ← checked_add total (aa_byte_len asset); checked_total total assets
  end.

Section plan.
  Context `{Codec, ArchiveCodec}.

Definition create_archive_manifest (remote_assets : list RemoteArchiveAsset)
    (server : ServerCompatibility) (config : ArchivePlanningConfig) :
    result (fault ExecutorError) ArchiveManifest :=
  _ ← map_err Fail (planning_config_validate config);
  _ ← fail_if ((apc_max_assets config <? zlen remote_assets)
               || negb (major (version server) =? 3) || negb (minor (version server) =? 1))
        (Fail invalid_plan);
  let assets := sort_by target_le (map archive_asset_of remote_assets) in
  media_bytes ← ok_or (checked_total 0 assets) (Fail invalid_plan);
  let summary := {| ams_assets := zlen assets; ams_media_bytes := media_bytes |} in
  configuration_bytes ← ok_or (json_archive_planning config) (Fail invariant_error);
  let manifest := {|
    am_schema_version := ARCHIVE_MANIFEST_SCHEMA_VERSION;
    am_server := server;
    am_configuration_sha256 := sha256_hex configuration_bytes;
    am_assets := assets;
    am_summary := summary |} in
  _ ← relabel invalid_plan (Archive.validate manifest);
  Ok manifest.
End plan.

(** ** The file system *)

Module IoErrorKind.
Inductive t := NotFound | Other.
End IoErrorKind.

(** [fs::symlink_metadata] (type and length), [fs::create_dir], [fs::remove_file],
    [fs::rename], [OpenOptions::create_new], [write_all] and [sync_all] on the file
    created at the path, [File::open], reading at most so many bytes from the file
    opened last, and the [Content-Length] of a response. *)
Class DestinationFs (W : Type) := {
  node_metadata : string → io W IoErrorKind.t (FileType.t * Z);
  fs_create_dir : string → io W IoErrorKind.t unit;
  fs_remove_file : string → io W IoErrorKind.t unit;
  fs_rename : string → string → io W IoErrorKind.t unit;
  fs_create_new : string → io W IoErrorKind.t unit;
  fs_write_all : string → string → io W IoErrorKind.t unit;
  fs_sync_all : string → io W IoErrorKind.t unit;
  fs_open : string → io W IoErrorKind.t unit;
  fs_read : Z → io W IoErrorKind.t string;
  content_length : HttpResponse → option Z;
}.

Definition VERIFY_BUFFER_BYTES : Z := 64 * 1024.

Definition destination_error : ExecutorError := executor_error ExecutorErrorClass.Destination.
Definition client_class_error : ExecutorError := executor_error ExecutorErrorClass.Client.

Definition map_client_error (error : ClientError) : ExecutorError :=
  if bool_decide (ce_class error = ClientErrorClass.Cancelled) then cancelled_error
  else client_class_error.

(** ** Paths *)

(** [Path::with_file_name], of a path whose text ends with its file name *)
Definition with_file_name (path name : string) : string :=
  match rsplit_once "/" path with
  | Some (parent, _) => parent +:+ "/" +:+ name
  | None => name
  end.

Definition part_path (final_path : string) : result ExecutorError string :=
  name ← ok_or (path_file_name final_path) destination_error;
  _ ← fail_if (negb (is_utf8 name)) destination_error;
  Ok (with_file_name final_path ("." +:+ name +:+ ".immich-rs.part")).

(** The components of [assets/<id>/<name>] below the destination *)
Definition final_path (destination : string) (asset : ArchiveAsset) : string :=
  path_join destination (aa_target_path asset).

(** ** Applying a manifest *)
Section apply.
  Context {W : Type} `{UrlLib, TlsLib, Codec, TimeLib, Cancellation W, !ReadTransport W,
    !InventoryTransport W, !ArchiveCodec, !DestinationFs W}.
Notation call := (io W ExecutorError).

(** [.map_err(|_| ExecutorError::new(Destination))] *)
Definition at_destination {A} (m : io W IoErrorKind.t A) : call A :=
  io_map_err (λ _, destination_error) m.

Definition create_or_validate_directory (path : string) : call unit := λ w,
  match node_metadata path w with
  | (Ok (FileType.Dir, _), w) => (Ok tt, w)
  | (Err IoErrorKind.NotFound, w) => at_destination (fs_create_dir path) w
  | (_, w) => (Err destination_error, w)
  end.

Definition ensure_real_directory (path : string) : call unit :=
  '(file_type, _) ← at_destination (node_metadata path);
  lift (fail_if (negb (bool_decide (file_type = FileType.Dir))) destination_error).

(** [current.push(component)] for every component of the destination *)
Fixpoint ensure_components (current : string) (components : list string) : call unit :=
  match components with
  | [] => mret tt
  | component :: components =>
    if bool_decide (component ∈ ["."; ".."]) then lift (Err destination_error)
    else
      let current := path_join current component in
      _ ← create_or_validate_directory current;
      ensure_components current components
  end.

Definition ensure_destination (destination : string) : call unit :=
  _ ← lift (fail_if (is_empty destination) destination_error);
  _ ← ensure_components "" (path_components destination);
  ensure_real_directory destination.

Definition ensure_asset_directory (destination asset_id : string) : call string :=
  let assets := path_join destination "assets" in
  _ ← create_or_validate_directory assets;
  let asset := path_join assets asset_id in
  _ ← create_or_validate_directory asset;
  mret asset.

Definition path_exists (path : string) : call bool := λ w,
  match node_metadata path w with
  | (Ok _, w) => (Ok true, w)
  | (Err IoErrorKind.NotFound, w) => (Ok false, w)
  | (Err IoErrorKind.Other, w) => (Err destination_error, w)
  end.

Definition remove_stale_part (path : string) : call unit := λ w,
  match node_metadata path w with
  | (Ok (FileType.File, _), w) => at_destination (fs_remove_file path) w
  | (Err IoErrorKind.NotFound, w) => (Ok tt, w)
  | (_, w) => (Err destination_error, w)
  end.

(** The result of the removal is ignored. *)
Definition remove_created_part (path : string) : call unit := λ w,
  (Ok tt, (fs_remove_file path w).2).

(** The read loop of [verify_existing] gives the bytes it hashed. *)
Fixpoint hash_existing (fuel : nat) (content : string) : prog W ExecutorError string :=
  match fuel with
  | O => λ _, None
  | S fuel =>
    _ ← run_io check_not_cancelled;
    chunk ← run_io (at_destination (fs_read VERIFY_BUFFER_BYTES));
    if is_empty chunk then mret content else hash_existing fuel (content +:+ chunk)
  end.

Definition verify_existing (path : string) (asset : ArchiveAsset) : prog W ExecutorError unit :=
  '(file_type, length) ← run_io (at_destination (node_metadata path));
  _ ← run_lift (fail_if (negb (bool_decide (file_type = FileType.File))
                         || negb (length =? aa_byte_len asset)) destination_error);
  _ ← run_io (at_destination (fs_open path));
  content ← hash_existing (S (Z.to_nat length)) "";
  run_lift (fail_if (negb (String.eqb (hex (sha1 content)) (aa_checksum_sha1 asset)))
              destination_error).

Definition validate_content_length (download : HttpResponse) (expected : Z) :
    result ExecutorError unit :=
  fail_if (is_some_and (content_length download) (λ length, negb (length =? expected)))
    client_class_error.

(** The loop of [download_asset] gives the bytes it hashed. *)
Fixpoint receive (fuel : nat) (asset : ArchiveAsset) (part_path : string) (download : HttpResponse)
    (byte_len : Z) (content : string) : prog W ExecutorError (Z * string) :=
  match fuel with
  | O => λ _, None
  | S fuel =>
    '(chunk, download) ← run_io (io_map_err map_client_error (next_chunk download));
    match chunk with
    | None => mret (byte_len, content)
    | Some chunk =>
      byte_len ← run_lift (ok_or (checked_add byte_len (len chunk)) client_class_error);
      _ ← run_lift (fail_if (aa_byte_len asset <? byte_len) client_class_error);
      _ ← run_io (at_destination (fs_write_all part_path chunk));
      receive fuel asset part_path download byte_len (content +:+ chunk)
    end
  end.

Definition download_asset (client : ImmichReadClient) (negotiated : NegotiatedServer)
    (asset : ArchiveAsset) (part_path : string) : prog W ExecutorError unit :=
  download ← run_io (io_map_err map_client_error
    (download_original client negotiated (aa_asset_id asset)));
  _ ← run_lift (validate_content_length download (aa_byte_len asset));
  _ ← run_io (at_destination (fs_create_new part_path));
  '(byte_len, content) ←
    receive (S (length (hr_chunks download))) asset part_path download 0 "";
  _ ← run_io (at_destination (fs_sync_all part_path));
  run_lift (fail_if (negb (byte_len =? aa_byte_len asset)
                     || negb (String.eqb (hex (sha1 content)) (aa_checksum_sha1 asset)))
              client_class_error).

Definition or_clean {A} (part_path : string) (m : prog W ExecutorError A) : prog W ExecutorError A := λ w,
  match m w with
  | Some (Err e, w) => (_ ← run_io (remove_created_part part_path); run_lift (Err e)) w
  | r => r
  end.

(** [report.already_complete], [report.downloaded] and [report.bytes_written] *)
Record ArchiveProgress := { ap_already_complete : Z; ap_downloaded : Z; ap_bytes_written : Z }.

Definition apply_asset (destination : string) (client : ImmichReadClient)
    (negotiated : NegotiatedServer) (p : ArchiveProgress) (asset : ArchiveAsset) :
    prog W ExecutorError ArchiveProgress :=
  _ ← run_io check_not_cancelled;
  let final_path := final_path destination asset in
  exists_already ← run_io (path_exists final_path);
  if (exists_already : bool) then
    _ ← verify_existing final_path asset;
    mret {| ap_already_complete := sat_add (ap_already_complete p) 1;
            ap_downloaded := ap_downloaded p; ap_bytes_written := ap_bytes_written p |}
  else
    _ ← run_io (ensure_asset_directory destination (aa_asset_id asset));
    part_path ← run_lift (part_path final_path);
    _ ← run_io (remove_stale_part part_path);
    _ ← or_clean part_path (download_asset client negotiated asset part_path);
    _ ← or_clean part_path (run_io (at_destination (fs_rename part_path final_path)));
    mret {| ap_already_complete := ap_already_complete p;
            ap_downloaded := sat_add (ap_downloaded p) 1;
            ap_bytes_written := sat_add (ap_bytes_written p) (aa_byte_len asset) |}.

Definition apply_archive (manifest : ArchiveManifest) (destination : string)
    (client : ImmichReadClient) (negotiated : NegotiatedServer) :
    prog W (fault ExecutorError) ArchiveApplyReport :=
  _ ← run_lift (relabel invalid_plan (Archive.validate manifest));
  _ ← run_lift (fail_if (negb (bool_decide (ns_compatibility negotiated = am_server manifest)))
                  (Fail invalid_plan));
  _ ← run_io (io_map_err Fail (ensure_destination destination));
  manifest_bytes ← run_lift (ok_or (json_archive_manifest manifest) (Fail invariant_error));
  let manifest_sha256 := sha256_hex manifest_bytes in
  p ← (λ w, match prog_for_each (apply_asset destination client negotiated) (am_assets manifest)
                    {| ap_already_complete := 0; ap_downloaded := 0; ap_bytes_written := 0 |} w with
            | Some (r, w) => Some (map_err Fail r, w)
            | None => None
            end);
  let report := {|
    aar_schema_version := ARCHIVE_APPLY_REPORT_SCHEMA_VERSION;
    aar_manifest_sha256 := manifest_sha256;
    aar_downloaded := ap_downloaded p;
    aar_already_complete := ap_already_complete p;
    aar_bytes_written := ap_bytes_written p;
    aar_retries := 0 |} in
  _ ← run_lift (map_err (λ _, Fail invariant_error)
        (report_validate report (ams_assets (am_summary manifest))));
  mret report.
End apply.
