(* ===== verification/Disk.v ===== *)
(** * Disk: a tree of files, and what the file calls do to it

    The destination of an archive run and the staging directory are trees of nodes keyed
    by path components.  Links are the danger: a call through a linked directory would
    act elsewhere, so the laws promise something about a change only below real
    directories.  The rules for computations on such a world are here as well. *)
From Stdlib Require Import Ascii.
From stdpp Require Import strings gmap.
From S2P Require Export ArchiveApply.

(** ** The tree *)

Inductive Node := Node_File (content : string) | Node_Dir | Node_Link | Node_Special.
#[export] Instance Node_eq_dec : EqDecision Node.
Proof. solve_decision. Defined.

(** Paths of one kind: from the root, or from the current directory *)
Notation Key := (list string).
Notation Disk := (gmap (list string) Node).

Definition node_type (n : Node) : FileType.t :=
  match n with
  | Node_File _ => FileType.File
  | Node_Dir => FileType.Dir
  | Node_Link => FileType.Symlink
  | Node_Special => FileType.Special
  end.

(** No directory above [p] is a link. *)
Definition unlinked (d : Disk) (p : Key) : Prop :=
  ∀ q c r, q ≠ [] → p = q ++ c :: r → d !! q ≠ Some Node_Link.

(** [p] and every directory above it are real. *)
Definition real_dirs (d : Disk) (p : Key) : Prop :=
  ∀ q r, q ≠ [] → p = q ++ r → d !! q = Some Node_Dir.

Notation key := path_components.

Class DestinationDisk (W : Type) := {
  disk : W → Disk;
  (** what a path leads to, also through links *)
  resolve : Disk → string → option Node;
  (** what is left of the file opened last *)
  unread : W → string;
}.

(** The documented behaviour of the calls *)
Class DiskLaws (W : Type) `{!DestinationFs W, !DestinationDisk W} : Prop := {
  resolve_unlinked d p : unlinked d (key p) → resolve d p = d !! key p;
  metadata_law p w r w' : node_metadata p w = (r, w') →
    disk w' = disk w ∧
    match r with
    | Ok (t, n) => ∃ node, resolve (disk w) p = Some node ∧ t = node_type node
                     ∧ ∀ c, node = Node_File c → n = len c
    | Err IoErrorKind.NotFound => resolve (disk w) p = None
    | Err IoErrorKind.Other => True
    end;
  create_dir_law p w r w' : fs_create_dir p w = (r, w') → unlinked (disk w) (key p) →
    match r with
    | Ok _ => disk w !! key p = None ∧ disk w' = <[key p := Node_Dir]> (disk w)
    | Err _ => disk w' = disk w
    end;
  remove_file_law p w r w' : fs_remove_file p w = (r, w') → unlinked (disk w) (key p) →
    match r with Ok _ => disk w' = delete (key p) (disk w) | Err _ => disk w' = disk w end;
  rename_law p q w c r w' : fs_rename p q w = (r, w') →
    unlinked (disk w) (key p) → unlinked (disk w) (key q) → disk w !! key p = Some (Node_File c) →
    match r with
    | Ok _ => disk w' = <[key q := Node_File c]> (delete (key p) (disk w))
    | Err _ => disk w' = disk w
    end;
  create_new_law p w r w' : fs_create_new p w = (r, w') → unlinked (disk w) (key p) →
    match r with
    | Ok _ => disk w !! key p = None ∧ disk w' = <[key p := Node_File ""]> (disk w)
    | Err _ => disk w' = disk w
    end;
  write_all_law p chunk w c r w' : fs_write_all p chunk w = (r, w') →
    unlinked (disk w) (key p) → disk w !! key p = Some (Node_File c) →
    match r with
    | Ok _ => disk w' = <[key p := Node_File (c +:+ chunk)]> (disk w)
    | Err _ => ∃ c', disk w' = <[key p := Node_File c']> (disk w)
    end;
  sync_all_law p w r w' : fs_sync_all p w = (r, w') → disk w' = disk w;
  open_law p w r w' : fs_open p w = (r, w') → disk w' = disk w ∧
    ∀ c, resolve (disk w) p = Some (Node_File c) → is_ok r = true → unread w' = c;
  read_law n w r w' : fs_read n w = (r, w') → 0 < n → disk w' = disk w ∧
    ∀ chunk, r = Ok chunk →
      unread w = chunk +:+ unread w' ∧ (chunk = "" → unread w = "");
}.

(** ** Paths *)

(** A component that names an entry of a directory *)
Definition plain (c : string) : Prop :=
  c ≠ "" ∧ c ≠ "." ∧ contains_byte "/" c = false.

Lemma split_on_cons c s : ∃ x l, split_on c s = x :: l.
Proof.
  destruct s as [|a s]; cbn; [by eexists _, _|]. destruct (Ascii.eqb a c); [by eexists _, _|].
  destruct (split_on c s); by eexists _, _.
Qed.

Lemma split_on_app_any c a b : split_on c (a +:+ String c b) = split_on c a ++ split_on c b.
Proof.
  induction a as [|x a IH].
  - change ("" +:+ String c b) with (String c b). cbn. by rewrite Ascii.eqb_refl.
  - change (String x a +:+ String c b) with (String x (a +:+ String c b)). cbn. rewrite IH.
  destruct (Ascii.eqb x c); [done|]. destruct (split_on_cons c a) as (y & l & ->). done.
Qed.

Lemma ends_with_slash c d : ends_with c d = true → ∃ d', d = d' +:+ String c "".
Proof.
  induction d as [|a [|b d] IH]; cbn; [done| |].
  - intros ->%Ascii.eqb_eq. by exists "".
  - intros [d' Hd]%IH. exists (String a d'). rewrite Hd. done.
Qed.

Definition kept (c : string) : bool := negb (is_empty c) && negb (String.eqb c ".").

(** What [path_components] puts before the normal components *)
Definition leading (pieces : list string) : list string :=
  match pieces with
  | EmptyString :: _ :: _ => ["/"]
  | first :: _ => if String.eqb first "." then ["."] else []
  | [] => []
  end.

Lemma path_components_pieces p :
  key p = leading (split_on "/" p) ++ List.filter kept (split_on "/" p).
Proof. reflexivity. Qed.

Lemma leading_app l x k : l ≠ [] → l ≠ [""] → leading (l ++ x :: k) = leading l.
Proof.
  destruct l as [|[|a s] [|y l]]; simpl; try done.
Qed.

Lemma split_on_nil_inv p : split_on "/" p = [""] → p = "".
Proof.
  destruct p as [|a p]; cbn; [done|]. destruct (Ascii.eqb a "/").
  - destruct (split_on_cons "/" p) as (?&?&->). done.
  - destruct (split_on "/" p); done.
Qed.

(** Joining a relative path appends its components. *)
Lemma key_join d p : d ≠ "" → key (path_join d p) = key d ++ normal_components p.
Proof.
  intros Hd. unfold path_join. destruct (is_empty d) eqn:He; [by apply is_empty_true in He|]. cbn [orb].
  destruct (split_on_cons "/" p) as (x & k & Hp).
  destruct (ends_with "/" d) eqn:Hs.
  - apply ends_with_slash in Hs as [d' ->].
    assert (split_on "/" (d' +:+ "/") = split_on "/" d' ++ [""]) as Hsplit by apply split_on_app_any.
    rewrite str_app_assoc. change ("/" +:+ p) with (String "/" p).
    rewrite !path_components_pieces, Hsplit, split_on_app_any, !List.filter_app.
    rewrite <-!app_assoc. f_equal.
    rewrite Hp. destruct (decide (d' = "")) as [->|Hd']; [done|].
    rewrite !leading_app; try done; try (intros Hn; by apply split_on_nil_inv in Hn);
      destruct (split_on_cons "/" d') as (?&?&->); done.
  - change (d +:+ "/" +:+ p) with (d +:+ String "/" p).
    rewrite !path_components_pieces, split_on_app_any, List.filter_app, <-app_assoc. f_equal.
    rewrite Hp, leading_app; try done; [|intros Hn; by apply split_on_nil_inv in Hn].
    destruct (split_on_cons "/" d) as (?&?&->). done.
Qed.

Lemma plain_kept c : plain c → kept c = true.
Proof.
  intros (He & Hd & _). unfold kept. rewrite andb_true_iff, !negb_true_iff, is_empty_false.
  by rewrite String.eqb_neq.
Qed.

Lemma normal_plain c : plain c → normal_components c = [c].
Proof.
  intros Hc. unfold normal_components. destruct Hc as (?&?&Hs). rewrite split_on_none by done.
  cbn. fold (kept c). rewrite plain_kept by done. done.
Qed.

Lemma normal_cons c p : plain c → normal_components (c +:+ "/" +:+ p) = c :: normal_components p.
Proof.
  intros Hc. unfold normal_components. change (c +:+ "/" +:+ p) with (c +:+ String "/" p).
  rewrite split_on_app by apply Hc. cbn. fold (kept c). by rewrite plain_kept.
Qed.

Lemma key_plain c : plain c → key c = [c].
Proof.
  intros (He & Hd & Hs). rewrite path_components_pieces, split_on_none by done.
  assert (plain c) as Hc by done. cbn [List.filter]. rewrite (plain_kept _ Hc).
  cbn. destruct c; [done|]. by apply String.eqb_neq in Hd as ->.
Qed.

(** Every component of a path but a leading one is the name of an entry. *)
Lemma key_components p :
  key p = [] ∨ (∃ c l, key p = c :: l ∧ (c = "/" ∨ c = "." ∨ plain c) ∧ Forall plain l).
Proof.
  assert (Forall plain (List.filter kept (split_on "/" p))) as Hn.
  { apply Forall_forall. intros c Hc. apply list_elem_of_In, filter_In in Hc as [Hc Hk].
    unfold kept in Hk. rewrite andb_true_iff, !negb_true_iff, is_empty_false, String.eqb_neq in Hk.
    split_and!; try apply Hk. clear Hk. revert c Hc. induction p as [|a p IH]; cbn.
    - intros c [<-|[]]. done.
    - destruct (Ascii.eqb_spec a "/") as [->|Ha].
      + intros c [<-|Hc]; [done|auto].
      + destruct (split_on_cons "/" p) as (x & l & Hp). rewrite Hp in *.
        intros c [<-|Hc]; [|apply IH; by right].
        specialize (IH x (or_introl eq_refl)). rewrite contains_byte_false in *.
        change ("/"%char ∉ a :: bytes x). apply not_elem_of_cons. split; [|done]. congruence. }
  rewrite path_components_pieces. set (l := List.filter _ _) in *. clearbody l.
  assert (leading (split_on "/" p) = [] ∨ leading (split_on "/" p) = ["/"]
          ∨ leading (split_on "/" p) = ["."]) as [->|[->| ->]].
  { unfold leading. destruct (split_on "/" p) as [|[|a s] [|y k]]; cbn; eauto;
      destruct (_ : bool); eauto. }
  - destruct Hn; [by left|]. right. simpl. by eauto 8.
  - right. simpl. by eauto 8.
  - right. simpl. by eauto 8.
Qed.

Lemma real_dirs_app d p c : real_dirs d p → d !! (p ++ [c]) = Some Node_Dir → real_dirs d (p ++ [c]).
Proof.
  intros Hr Hc q r Hq He. destruct r as [|x r _] using rev_ind.
  - rewrite app_nil_r in He. by subst.
  - rewrite app_assoc in He. apply app_inj_tail in He as [-> ->]. by eapply Hr.
Qed.

Lemma real_dirs_unlinked d p c : real_dirs d p → unlinked d (p ++ [c]).
Proof.
  intros Hr q x r Hq He. destruct r as [|y r _] using rev_ind.
  - apply app_inj_tail in He as [<- _]. by rewrite (Hr p []) by (rewrite ?app_nil_r; done).
  - rewrite app_comm_cons, app_assoc in He. apply app_inj_tail in He as [-> _].
    by rewrite (Hr q (x :: r)).
Qed.

(** ** Computations from the worlds of [P] return, and then [Q] holds *)

Definition triple {W E A} (P : W → Prop) (m : prog W E A) (Q : result E A → W → Prop) : Prop :=
  ∀ w, P w → ∃ r w', m w = Some (r, w') ∧ Q r w'.

Lemma triple_bind {W E A B} P (m : prog W E A) Q (f : A → prog W E B) R :
  triple P m Q → (∀ e w, Q (Err e) w → R (Err e) w) → (∀ a, triple (Q (Ok a)) (f a) R) →
  triple P (m ≫= f) R.
Proof.
  intros Hm He Hf w Hw. destruct (Hm w Hw) as ([a|e] & w1 & Hr & Hq); unfold mbind, prog_bind; rewrite Hr.
  - by apply Hf.
  - exists (Err e), w1. auto.
Qed.

(** The same, with what is known of the result apart from what is known of the world *)
Lemma triple_seq {W E A B} (P : W → Prop) (m : prog W E A) (P' : W → Prop) (φ : result E A → Prop)
    (f : A → prog W E B) R :
  triple P m (λ r w, P' w ∧ φ r) → (∀ e w, φ (Err e) → P' w → R (Err e) w) →
  (∀ a, φ (Ok a) → triple P' (f a) R) → triple P (m ≫= f) R.
Proof.
  intros Hm He Hf. eapply triple_bind; [exact Hm|naive_solver|]. intros a w [Hw Ha]. by apply Hf.
Qed.

Lemma triple_io {W E A} P (m : io W E A) Q :
  (∀ w r w', m w = (r, w') → P w → Q r w') → triple P (run_io m) Q.
Proof. intros Hm w Hw. unfold run_io. destruct (m w) as [r w'] eqn:Hr. eauto. Qed.

Lemma triple_lift {W E A} (P : W → Prop) (r : result E A) (Q : result E A → W → Prop) :
  (∀ w, P w → Q r w) → triple P (run_lift r) Q.
Proof. intros Hq w Hw. eexists _, _. split; [done|auto]. Qed.

Lemma triple_ret {W E A} (P : W → Prop) (a : A) (Q : result E A → W → Prop) :
  (∀ w, P w → Q (Ok a) w) → triple P (mret a) Q.
Proof. intros Hq w Hw. eexists _, _. split; [done|auto]. Qed.

Lemma triple_weaken {W E A} (P P' : W → Prop) (m : prog W E A) (Q Q' : result E A → W → Prop) :
  triple P m Q → (∀ w, P' w → P w) → (∀ r w, Q r w → Q' r w) → triple P' m Q'.
Proof. intros Hm Hp Hq w Hw. destruct (Hm w (Hp w Hw)) as (r & w' & ? & ?). eauto. Qed.

