(* ===== verification/ArchiveApplyTheorems.v ===== *)
(** * ArchiveApplyTheorems: what an archive run does to its destination

    Every call may fail, and nobody else changes the destination during the run. *)
From Stdlib Require Import Ascii.
From stdpp Require Import strings gmap.
From S2P Require Export InventoryTheorems Disk.

(** The rest of the world leaves the destination alone. *)
Class DestinationLaws (W : Type) `{UrlLib, TlsLib, Cancellation W, !InventoryTransport W,
    !DestinationFs W, !DestinationDisk W} : Prop := {
  destination_disk :: DiskLaws W;
  cancelled_law w b w' : is_cancelled w = (b, w') → disk w' = disk w ∧ unread w' = unread w;
  download_law client url key w r w' : http_download client url key w = (r, w') → disk w' = disk w;
  chunk_law w b w' : chunk_arrives w = (b, w') → disk w' = disk w;
}.

(** ** Targets and partial files *)

Definition final_key (destination : string) (a : ArchiveAsset) : Key :=
  key destination ++ ["assets"; aa_asset_id a; aa_original_file_name a].
Definition part_name (name : string) : string := "." +:+ name +:+ ".immich-rs.part".
Definition part_key (destination : string) (a : ArchiveAsset) : Key :=
  key destination ++ ["assets"; aa_asset_id a; part_name (aa_original_file_name a)].

Definition asset_plain (a : ArchiveAsset) : Prop :=
  plain (aa_asset_id a) ∧ plain (aa_original_file_name a)
  ∧ aa_target_path a = target_path_of (aa_asset_id a) (aa_original_file_name a).

Lemma well_formed_plain a : archive_asset_well_formed a → asset_plain a.
Proof.
  intros [Hid Hname _ _ Ht]. pose proof (canonical_uuid_v4_no_slash _ Hid) as Hs.
  unfold canonical_uuid_v4 in Hid. bools. destruct Hname as [Hlen [Hdot _] _ [Hsep _] _ _].
  unfold asset_plain, plain. rewrite (contains_byte_false "/" (aa_original_file_name a)).
  split_and!; try done; intros He; rewrite He in *; unfold len in *; simpl in *; lia.
Qed.

Lemma plain_assets : plain "assets". Proof. done. Qed.

Lemma plain_part name : plain name → plain (part_name name).
Proof.
  intros (_ & _ & Hs). unfold part_name. split_and!; [done| |].
  - destruct name; done.
  - rewrite contains_byte_false in *. rewrite !bytes_app, !elem_of_app. intros [H|[H|H]]; [|done|];
      vm_compute in H; repeat (apply elem_of_cons in H as [H|H]; [done|]); by apply elem_of_nil in H.
Qed.

Lemma part_name_ne name : part_name name ≠ name.
Proof.
  intros He. apply (f_equal len) in He. unfold part_name in He. rewrite !len_app in He.
  change (len ".") with 1 in He. change (len ".immich-rs.part") with 15 in He. lia.
Qed.

Lemma normal_target id name :
  plain id → plain name → normal_components (target_path_of id name) = ["assets"; id; name].
Proof.
  intros Hid Hname. unfold target_path_of.
  change ("assets/" +:+ id +:+ "/" +:+ name) with ("assets" +:+ "/" +:+ (id +:+ "/" +:+ name)).
  by rewrite (normal_cons _ _ plain_assets), (normal_cons _ _ Hid), (normal_plain _ Hname).
Qed.

Lemma final_path_key destination a :
  destination ≠ "" → asset_plain a → key (final_path destination a) = final_key destination a.
Proof.
  intros Hd (Hid & Hname & Ht). unfold final_path, final_key. rewrite key_join, Ht by done. f_equal.
  by rewrite (normal_target _ _ Hid Hname).
Qed.

(** The partial file lies beside the target. *)
Lemma part_path_key destination a path :
  destination ≠ "" → asset_plain a → part_path (final_path destination a) = Ok path →
  key path = part_key destination a.
Proof.
  intros Hd (Hid & Hname & Ht). unfold part_path, part_key.
  rewrite bind_Ok. intros (name & Hfile & Hrest). apply ok_or_Ok in Hfile.
  apply bind_fail_if_Ok in Hrest as [_ [= <-]].
  assert (∃ x, final_path destination a = x +:+ "/" +:+ aa_original_file_name a
           ∧ x +:+ "/" = path_join destination ("assets/" +:+ aa_asset_id a +:+ "/")) as (x & Hx & Hj).
  { unfold final_path, path_join. rewrite Ht. unfold target_path_of. destruct (_ || _);
      [exists (destination +:+ "assets/" +:+ aa_asset_id a)
      |exists (destination +:+ "/assets/" +:+ aa_asset_id a)]; by rewrite !str_app_assoc. }
  assert (name = aa_original_file_name a) as ->.
  { unfold path_file_name in Hfile.
    assert (last (normal_components (final_path destination a)) = Some (aa_original_file_name a)) as Hl.
    { unfold normal_components. rewrite Hx. change (x +:+ "/" +:+ ?y) with (x +:+ String "/" y).
      rewrite split_on_app_any, List.filter_app, (split_on_none "/" (aa_original_file_name a)) by apply Hname. cbn [List.filter].
      fold (kept (aa_original_file_name a)). rewrite (plain_kept _ Hname). by rewrite last_snoc. }
    rewrite Hl in Hfile. destruct (String.eqb _ _); congruence. }
  unfold with_file_name. rewrite Hx. change (x +:+ "/" +:+ aa_original_file_name a)
    with (x +:+ String "/" (aa_original_file_name a)).
  rewrite rsplit_once_last by apply Hname.
  assert (path_join destination (target_path_of (aa_asset_id a) (part_name (aa_original_file_name a)))
          = x +:+ "/" +:+ part_name (aa_original_file_name a)) as Hpart.
  { rewrite <-str_app_assoc, Hj. unfold path_join, target_path_of. destruct (_ || _);
      rewrite ?str_app_assoc; done. }
  fold (part_name (aa_original_file_name a)). rewrite <-Hpart, key_join by done. f_equal.
  by rewrite (normal_target _ _ Hid (plain_part _ Hname)).
Qed.

(** ** What a run may change *)

Section safe.
  Context (destination : string) `{!ArchiveCodec}.

(** The file has the length and the digest of the manifest. *)
Definition complete (a : ArchiveAsset) (n : Node) : Prop :=
  ∃ c, n = Node_File c ∧ len c = aa_byte_len a ∧ hex (sha1 c) = aa_checksum_sha1 a.

Definition is_part (assets : list ArchiveAsset) (p : Key) : Prop :=
  ∃ a, a ∈ assets ∧ p = part_key destination a.

(** The directories a run creates *)
Definition run_directory (assets : list ArchiveAsset) (p : Key) : Prop :=
  (∃ r, key destination = p ++ r) ∨ p = key destination ++ ["assets"]
  ∨ ∃ a, a ∈ assets ∧ p = key destination ++ ["assets"; aa_asset_id a].

(** Apart from partial files, nothing that was there changes, and what appears is
    a directory of the run or a complete original under its own name. *)
Definition safe (assets : list ArchiveAsset) (d d' : Disk) : Prop :=
  ∀ p, ¬ is_part assets p →
    d' !! p = d !! p
    ∨ (d !! p = None
       ∧ ((run_directory assets p ∧ d' !! p = Some Node_Dir)
          ∨ ∃ a n, a ∈ assets ∧ p = final_key destination a ∧ d' !! p = Some n ∧ complete a n)).

#[export] Instance safe_reflexive assets : Reflexive (safe assets).
Proof. intros d p Hp. by left. Qed.

#[export] Instance safe_transitive assets : Transitive (safe assets).
Proof.
  intros d1 d2 d3 H12 H23 p Hp. specialize (H12 p Hp). specialize (H23 p Hp).
  destruct H23 as [->|(Hn & H23)]; [exact H12|]. right. split; [|exact H23].
  destruct H12 as [<-|(_ & [[_ H12]|(a & n & _ & _ & H12 & _)])]; congruence.
Qed.

Lemma safe_weaken assets assets' d d' : assets ⊆ assets' → safe assets d d' → safe assets' d d'.
Proof.
  intros Hs Hsafe p Hp. destruct (Hsafe p) as [?|(Hn & [[Hdir Hd]|(a & n & Ha & Hrest)])].
  - intros (a & Ha & ->). apply Hp. exists a. set_solver.
  - by left.
  - right. split; [done|]. left. split; [|done].
    destruct Hdir as [?|[?|(a & Ha & ->)]]; [by left|by right; left|].
    right. right. exists a. set_solver.
  - right. split; [done|]. right. exists a, n. set_solver.
Qed.

(** A partial file is neither a target nor a directory of the run. *)
Lemma final_not_part assets a :
  NoDup (map aa_asset_id assets) → a ∈ assets → ¬ is_part assets (final_key destination a).
Proof.
  intros Hn Ha (b & Hb & He). unfold final_key, part_key in He. simplify_list_eq.
  match goal with H1 : aa_asset_id a = _, H2 : aa_original_file_name a = _ |- _ =>
    rename H1 into Hid; rename H2 into Hname end.
  assert (a = b) as <-; [|by apply (part_name_ne (aa_original_file_name a))].
  apply list_elem_of_lookup in Ha as [i Hi]. apply list_elem_of_lookup in Hb as [j Hj].
  assert (i = j) as <-; [|congruence].
  apply (NoDup_lookup (aa_asset_id <$> assets) i j (aa_asset_id a) Hn);
    rewrite list_lookup_fmap; [by rewrite Hi|by rewrite Hj, Hid].
Qed.

Lemma short_not_part assets p : (length p < length (key destination) + 3)%nat → ¬ is_part assets p.
Proof. intros Hl (a & _ & ->). unfold part_key in Hl. rewrite length_app in Hl. simpl in Hl. lia. Qed.

Lemma run_directory_short assets p :
  run_directory assets p → (length p < length (key destination) + 3)%nat.
Proof.
  intros [[r Hr]|[->|(a & _ & ->)]]; [rewrite Hr|..]; rewrite ?length_app; simpl; lia.
Qed.

(** What is there stays. *)
Lemma safe_kept assets d d' p n :
  safe assets d d' → ¬ is_part assets p → d !! p = Some n → d' !! p = Some n.
Proof. intros Hs Hp Hn. destruct (Hs p Hp) as [->|[? _]]; congruence. Qed.

Lemma safe_real_dirs assets d d' q :
  safe assets d d' → (length q < length (key destination) + 3)%nat → real_dirs d q → real_dirs d' q.
Proof.
  intros Hs Hl Hr p r Hp Hq. eapply safe_kept; [exact Hs| |by eapply Hr].
  apply short_not_part. apply (f_equal length) in Hq. rewrite length_app in Hq. lia.
Qed.

(** No link appears. *)
Lemma safe_unlinked assets d d' p :
  safe assets d d' → (length p <= length (key destination) + 3)%nat → unlinked d p → unlinked d' p.
Proof.
  intros Hs Hl Hu q c r Hne Hp. specialize (Hu q c r Hne Hp).
  assert (¬ is_part assets q) as Hq.
  { apply short_not_part. apply (f_equal length) in Hp. rewrite length_app in Hp. simpl in Hp. lia. }
  destruct (Hs q Hq) as [He|(_ & [[_ He]|(a & n & _ & _ & He & c' & -> & _)])]; intros Hlink; rewrite He in Hlink; [by apply Hu|done..].
Qed.
End safe.

(** ** The steps of a run *)
Section run.
  Context {W : Type} `{DestinationLaws W, !Codec, !TimeLib, !ReadTransport W, !ArchiveCodec}.

Lemma check_not_cancelled_step w (r : result ExecutorError unit) w' :
  check_not_cancelled w = (r, w') → disk w' = disk w ∧ unread w' = unread w.
Proof.
  unfold check_not_cancelled. destruct (is_cancelled w) as [b w1] eqn:Hc. intros [= _ <-].
  by eapply cancelled_law.
Qed.

(** *** Reading *)

Lemma hash_existing_runs fuel content d u :
  (String.length u < fuel)%nat →
  triple (λ w, disk w = d ∧ unread w = u) (hash_existing fuel content)
    (λ r w, disk w = d ∧ ∀ c, r = Ok c → c = content +:+ u).
Proof.
  revert content u. induction fuel as [|fuel IH]; intros content u Hf; [lia|]. cbn [hash_existing].
  eapply (triple_bind _ _ (λ r w, disk w = d ∧ unread w = u)); [|naive_solver|].
  { apply triple_io. intros w r w' [-> ->]%check_not_cancelled_step ?. done. }
  intros []. eapply (triple_bind _ _ (λ r w, disk w = d ∧ ∀ chunk, r = Ok chunk →
    u = chunk +:+ unread w ∧ (chunk = "" → u = ""))); [|naive_solver|].
  { apply triple_io. intros w r w' (r0 & Hr & ->)%io_map_err_inv [<- <-].
    apply read_law in Hr as [Hd Hr]; [|done]. split; [done|].
    intros chunk ->%map_err_Ok. by apply Hr. }
  intros chunk. destruct (is_empty chunk) eqn:Hc.
  - apply is_empty_true in Hc as ->. apply triple_ret. intros w [Hd Hu]. split; [done|].
    destruct (Hu "" eq_refl) as [_ ->]; [|done]. intros c [= <-]. apply bytes_inj. rewrite bytes_app.
    by rewrite app_nil_r.
  - apply is_empty_false in Hc. intros w [Hd Hu]. destruct (Hu chunk eq_refl) as [-> _].
    destruct (IH (content +:+ chunk) (unread w)) with w as (r & w' & Hr & Hd' & Hok); [|done|].
    { rewrite length_str_app in Hf. destruct chunk; [done|]. simpl in Hf. lia. }
    exists r, w'. split; [exact Hr|]. split; [done|]. intros c Hcc. rewrite (Hok c Hcc).
    by rewrite str_app_assoc.
Qed.

Lemma verify_existing_runs path a d :
  triple (λ w, disk w = d) (verify_existing path a)
    (λ r w, disk w = d ∧ (is_ok r = true → ∃ n, resolve d path = Some n ∧ complete a n)).
Proof.
  unfold verify_existing.
  eapply (triple_bind _ _ (λ r w, disk w = d ∧ ∀ t n, r = Ok (t, n) →
    ∃ node, resolve d path = Some node ∧ t = node_type node ∧ ∀ c, node = Node_File c → n = len c));
    [|naive_solver|].
  { apply triple_io. intros w r w' (r0 & Hr & ->)%io_map_err_inv <-.
    apply metadata_law in Hr as [Hd Hr]. split; [done|]. intros t n ->%map_err_Ok. exact Hr. }
  intros [t n]. apply (triple_weaken (λ w, disk w = d ∧ ∃ node, resolve d path = Some node
    ∧ t = node_type node ∧ ∀ c, node = Node_File c → n = len c) _ _ (λ r w, disk w = d ∧
    (is_ok r = true → ∃ n, resolve d path = Some n ∧ complete a n))); [|naive_solver|done].
  eapply (triple_bind _ _ (λ r w, disk w = d ∧ (is_ok r = true →
    ∃ c, resolve d path = Some (Node_File c) ∧ n = len c ∧ len c = aa_byte_len a))); [|naive_solver|].
  { apply triple_lift. intros w (Hd & node & Hnode & -> & Hn). split; [done|].
    destruct (fail_if _ _) as [[]|] eqn:Hf; [|done]. intros _. apply fail_if_Ok in Hf. bools.
    destruct node as [c| | |]; try done. exists c.
    split; [done|]. specialize (Hn c eq_refl). lia. }
  intros []. eapply (triple_bind _ _ (λ r w, disk w = d ∧ (is_ok r = true →
    ∃ c, unread w = c ∧ resolve d path = Some (Node_File c) ∧ n = len c ∧ len c = aa_byte_len a)));
    [|naive_solver|].
  { apply triple_io. intros w r w' (r0 & Hr & ->)%io_map_err_inv [<- Hc].
    apply open_law in Hr as [Hd Hr]. split; [done|]. intros Hok.
    destruct Hc as (c & Hc); [done|]. exists c. split; [|done]. apply Hr; [apply Hc|by destruct r0]. }
  intros [] w (Hd & Hc). destruct (Hc eq_refl) as (c & Hu & Hc' & -> & Hlen).
  eapply (triple_bind (λ w, disk w = d ∧ unread w = c) _ (λ r w, disk w = d ∧ ∀ x, r = Ok x → x = c));
    [| | |done].
  - eapply triple_weaken; [apply (hash_existing_runs (S (Z.to_nat (len c))) "" d c)|done|done].
    unfold len. lia.
  - naive_solver.
  - intros x. apply triple_lift. intros w1 [Hd1 Hx]. rewrite (Hx x eq_refl). split; [done|].
    intros Hok. exists (Node_File c). split; [done|]. exists c. split_and!; [done..|].
    destruct (fail_if _ _) eqn:Hf; [|done]. apply fail_if_Ok in Hf. bools.
    by apply String.eqb_eq.
Qed.

(** *** Directories *)
Context (destination : string) (named : destination ≠ "").
Notation K := (key destination).

Lemma safe_new_directory (assets : list ArchiveAsset) (p : Key) (d : Disk) :
  run_directory destination assets p → d !! p = None → safe destination assets d (<[p := Node_Dir]> d).
Proof.
  intros Hp Hn q Hq. destruct (decide (q = p)) as [->|]; [|left; by rewrite lookup_insert_ne].
  right. split; [done|]. left. by rewrite lookup_insert_eq.
Qed.

Lemma create_or_validate_step assets path c p w r w' :
  create_or_validate_directory path w = (r, w') → key path = p ++ [c] →
  real_dirs (disk w) p → run_directory destination assets (p ++ [c]) →
  safe destination assets (disk w) (disk w')
  ∧ (is_ok r = true → real_dirs (disk w') (p ++ [c])).
Proof.
  intros Hr Hk Hp Hrun. pose proof (real_dirs_unlinked _ _ c Hp) as Hu. rewrite <-Hk in Hu.
  unfold create_or_validate_directory in Hr.
  destruct (node_metadata path w) as [m w1] eqn:Hm. apply metadata_law in Hm as [Hd Hm].
  destruct m as [[t n]|[]].
  - destruct Hm as (node & Hnode & -> & _). rewrite resolve_unlinked, Hk in Hnode by done.
    destruct node; injection Hr as <- <-; rewrite Hd; split; try done.
    intros _. by apply real_dirs_app.
  - apply io_map_err_inv in Hr as (r0 & Hr & ->). apply create_dir_law in Hr; [|by rewrite Hd].
    rewrite Hd, Hk in Hr. destruct r0 as [[]|e]; [|by rewrite Hr].
    destruct Hr as [Hn ->]. split; [by apply safe_new_directory|]. intros _.
    apply real_dirs_app; [|by rewrite lookup_insert_eq].
    intros q k Hq He. rewrite lookup_insert_ne; [by eapply Hp|]. subst.
    intros He%(f_equal length). rewrite !length_app in He. simpl in He. lia.
  - injection Hr as <- <-. by rewrite Hd.
Qed.

Lemma ensure_components_step components current w r w' :
  ensure_components current components w = (r, w') → current ≠ "" →
  Forall plain components → K = key current ++ components → real_dirs (disk w) (key current) →
  safe destination [] (disk w) (disk w') ∧ (is_ok r = true → real_dirs (disk w') K).
Proof.
  revert current w. induction components as [|c components IH]; intros current w Hr Hc Hplain HK Hdirs;
    cbn [ensure_components] in Hr.
  - injection Hr as <- <-. rewrite app_nil_r in HK. by rewrite HK.
  - apply Forall_cons in Hplain as [Hcp Hplain].
    destruct (bool_decide _); [by injection Hr as <- <-|].
    assert (key (path_join current c) = key current ++ [c]) as Hkey
      by (rewrite key_join, normal_plain; done).
    assert (run_directory destination [] (key current ++ [c])) as Hrun
      by (left; exists components; by rewrite <-app_assoc).
    apply io_bind_inv in Hr as [(e & Hone & ->)|([] & w1 & Hone & Htwo)];
      destruct (create_or_validate_step _ _ _ _ _ _ _ Hone Hkey Hdirs Hrun) as [Hs Hd]; [done|].
    destruct (IH _ _ Htwo) as [Hs' Hd']; [|done|by rewrite Hkey, <-app_assoc|by rewrite Hkey; auto|].
    { intros Hn. unfold path_join in Hn. destruct current; [done|]. by destruct (_ || _). }
    split; [by etrans|done].
Qed.

Lemma ensure_destination_step w r w' :
  ensure_destination destination w = (r, w') →
  safe destination [] (disk w) (disk w') ∧ (is_ok r = true → real_dirs (disk w') K).
Proof.
  unfold ensure_destination. intros Hr.
  apply io_bind_inv in Hr as [(e & [_ <-]%lift_Err & ->)|(u & w0 & [_ <-]%lift_Ok & Hr)]; [done|].
  assert (∀ r w1, ensure_components "" K w = (r, w1) →
    safe destination [] (disk w) (disk w1) ∧ (is_ok r = true → real_dirs (disk w1) K)) as Hcomponents.
  { destruct (key_components destination) as [HK|(c & l & HK & Hc & Hl)]; rewrite HK; intros r0 w1 Hr0.
    - injection Hr0 as <- <-. split; [done|]. intros _ q k Hq. by destruct q.
    - cbn [ensure_components] in Hr0. destruct (bool_decide_reflect (c ∈ ["."; ".."])) as [|Hdot];
        [by injection Hr0 as <- <-|].
      assert (path_join "" c = c) as Hj by done. rewrite Hj in Hr0.
      assert (c ≠ "" ∧ key c = [] ++ [c]) as [Hne Hkey].
      { destruct Hc as [->|[->|Hc]]; [done|set_solver|]. split; [apply Hc|by apply key_plain]. }
      assert (run_directory destination [] ([] ++ [c])) as Hrun by (left; exists l; exact HK).
      apply io_bind_inv in Hr0 as [(e & Hone & ->)|([] & w2 & Hone & Htwo)];
        (destruct (create_or_validate_step [] _ _ _ _ _ _ Hone Hkey) as [Hs Hd];
          [intros q k Hq; by destruct q|exact Hrun|]); [done|].
      eapply ensure_components_step in Htwo as [Hs' Hd']; [|done..|by rewrite HK, Hkey|rewrite Hkey; auto].
      split; [by etrans|]. by rewrite <-HK. }
  apply io_bind_inv in Hr as [(e & Hone & ->)|(u' & w1 & Hone & Htwo)]; apply Hcomponents in Hone as [Hs Hd];
    [done|].
  unfold ensure_real_directory in Htwo.
  assert (disk w' = disk w1) as ->; [|auto].
  apply io_bind_inv in Htwo as [(e & Hm & ->)|([t n] & w2 & Hm & Ht)];
    apply io_map_err_inv in Hm as (r0 & Hm & _); apply metadata_law in Hm as [Hm _]; [done|].
  by injection Ht as _ <-.
Qed.

Lemma ensure_asset_directory_step assets a w r w' :
  ensure_asset_directory destination (aa_asset_id a) w = (r, w') →
  a ∈ assets → plain (aa_asset_id a) → real_dirs (disk w) K →
  safe destination assets (disk w) (disk w')
  ∧ (is_ok r = true → real_dirs (disk w') (K ++ ["assets"; aa_asset_id a])).
Proof.
  unfold ensure_asset_directory. intros Hr Ha Hid Hdirs.
  assert (key (path_join destination "assets") = K ++ ["assets"]) as Hkey by (by rewrite key_join).
  assert (path_join destination "assets" ≠ "") as Hne.
  { intros Hn. rewrite Hn in Hkey. apply (f_equal length) in Hkey. rewrite length_app in Hkey.
    simpl in Hkey. lia. }
  assert (key (path_join (path_join destination "assets") (aa_asset_id a))
          = (K ++ ["assets"]) ++ [aa_asset_id a]) as Hkey2
    by (rewrite key_join, Hkey, normal_plain; done).
  apply io_bind_inv in Hr as [(e & Hone & ->)|([] & w1 & Hone & Hr)];
    (destruct (create_or_validate_step assets _ _ _ _ _ _ Hone Hkey Hdirs) as [Hs Hd];
      [by right; left|]); [done|].
  specialize (Hd eq_refl).
  assert (run_directory destination assets ((K ++ ["assets"]) ++ [aa_asset_id a])) as Hrun
    by (right; right; exists a; by rewrite <-app_assoc).
  apply io_bind_inv in Hr as [(e & Htwo & ->)|([] & w2 & Htwo & Hr)];
    (destruct (create_or_validate_step assets _ _ _ _ _ _ Htwo Hkey2 Hd Hrun) as [Hs' Hd']);
    [split; [by etrans|done]|].
  injection Hr as <- <-. split; [by etrans|]. intros _. rewrite <-app_assoc in Hd'. by apply Hd'.
Qed.

(** *** Downloading *)

(** Only the partial file changes. *)
Definition only (k : Key) (d d' : Disk) : Prop := ∀ p, p ≠ k → d' !! p = d !! p.

Lemma only_safe assets a d d' :
  a ∈ assets → only (part_key destination a) d d' → safe destination assets d d'.
Proof. intros Ha Ho p Hp. left. apply Ho. intros ->. apply Hp. by exists a. Qed.

Lemma only_update (k : Key) (x : option Node) (d d' : Disk) :
  only k d d' → only k d (partial_alter (λ _, x) k d').
Proof. intros Ho p Hp. rewrite lookup_partial_alter_ne by done. by apply Ho. Qed.

Lemma only_unlinked (a : ArchiveAsset) (d d' : Disk) path :
  only (part_key destination a) d d' → real_dirs d (K ++ ["assets"; aa_asset_id a]) →
  (∃ c, key path = K ++ ["assets"; aa_asset_id a; c]) → unlinked d' (key path).
Proof.
  intros Ho Hd (c & ->). change ["assets"; aa_asset_id a; c] with (["assets"; aa_asset_id a] ++ [c]).
  rewrite app_assoc. apply real_dirs_unlinked. intros q k Hq He. rewrite Ho; [by eapply Hd|].
  intros ->. apply (f_equal length) in He. unfold part_key in He. rewrite !length_app in He.
  simpl in He. lia.
Qed.

Lemma download_original_disk client negotiated id w r w' :
  download_original client negotiated id w = (r, w') → disk w' = disk w.
Proof.
  unfold download_original. intros Hr.
  apply io_bind_inv in Hr as [(e & [_ <-]%lift_Err & ->)|(u & w1 & [_ <-]%lift_Ok & Hr)]; [done|].
  assert (∀ (r : result ClientError unit) w1, Client.check_cancelled w = (r, w1) → disk w1 = disk w) as Hcc.
  { intros r0 w1. unfold Client.check_cancelled. destruct (is_cancelled w) as [b w2] eqn:Hc.
    intros Hx. apply cancelled_law in Hc as [<- _]. by destruct b; injection Hx as _ <-. }
  apply io_bind_inv in Hr as [(e & Hc%Hcc & ->)|(u' & w1 & Hc%Hcc & Hr)]; [done|]. rewrite <-Hc.
  apply io_bind_inv in Hr as [(e & [_ <-]%lift_Err & ->)|(url & w2 & [_ <-]%lift_Ok & Hr)]; [done|].
  assert (∀ r w2, cancellable (http_download (rc_http client) url (rc_api_key client)) w1 = (r, w2) →
    disk w2 = disk w1) as Hd.
  { intros r0 w2. unfold cancellable. destruct (http_download _ _ _ w1) as [[x|] w3] eqn:Hh;
      intros [= _ <-]; by apply download_law in Hh. }
  apply io_bind_inv in Hr as [(e & Hh%Hd & ->)|(x & w2 & Hh%Hd & Hr)]; [done|]. rewrite <-Hh.
  by apply io_bind_inv in Hr as [(e & [_ <-]%lift_Err & ->)|(y & w3 & [_ <-]%lift_Ok & [= _ <-])].
Qed.

Lemma next_chunk_step download w r w' :
  next_chunk download w = (r, w') → disk w' = disk w ∧
  ∀ chunk rest, r = Ok (Some chunk, rest) → (length (hr_chunks rest) < length (hr_chunks download))%nat.
Proof.
  unfold next_chunk. destruct (chunk_arrives w) as [b w1] eqn:Hc. apply chunk_law in Hc as <-.
  destruct b; [|by intros [= <- <-]]. destruct (hr_chunks download) as [|[c|e] l]; intros [= <- <-];
    (split; [done|]); intros chunk rest; try done. intros [= <- <-]. simpl. lia.
Qed.

Section download.
  Context (a : ArchiveAsset) (path : string) (d : Disk).
  Context (dirs : real_dirs d (K ++ ["assets"; aa_asset_id a])).
  Context (path_is : key path = part_key destination a).
Notation k := (part_key destination a).

Lemma part_unlinked d' : only k d d' → unlinked d' (key path).
Proof. intros Ho. eapply only_unlinked; [exact Ho|done|]. by eexists. Qed.

Lemma receive_runs fuel download n content :
  (length (hr_chunks download) < fuel)%nat → n = len content →
  triple (λ w, only k d (disk w) ∧ disk w !! k = Some (Node_File content))
    (receive fuel a path download n content)
    (λ r w, only k d (disk w) ∧ ∀ n c, r = Ok (n, c) →
      disk w !! k = Some (Node_File c) ∧ n = len c).
Proof.
  revert download n content. induction fuel as [|fuel IH]; intros download n content Hf Hn; [lia|].
  cbn [receive].
  set (P := λ w, only k d (disk w) ∧ disk w !! k = Some (Node_File content)).
  eapply (triple_seq P _ P (λ r, ∀ chunk rest, r = Ok (Some chunk, rest) →
    (length (hr_chunks rest) < fuel)%nat)); [|intros e w _ [Ho _]; by split|].
  { apply triple_io. intros w r w' (r0 & Hr & ->)%io_map_err_inv Hw. unfold P in *.
    apply next_chunk_step in Hr as [-> Hl]. split; [done|].
    intros chunk rest ->%map_err_Ok. specialize (Hl _ _ eq_refl). lia. }
  intros [[chunk|] rest] Hl.
  2: { apply triple_ret. intros w [Ho Hk]. split; [done|]. by intros ?? [= <- <-]. }
  specialize (Hl _ _ eq_refl).
  eapply (triple_seq P _ P (λ r, ∀ n', r = Ok n' → n' = n + len chunk)); [|intros e w _ [Ho _]; by split|].
  { apply triple_lift. intros w Hw. split; [done|]. intros n' Ha%ok_or_Ok.
    by apply checked_add_Some in Ha as [-> _]. }
  intros n' Hn'. rewrite (Hn' n' eq_refl). clear n' Hn'.
  eapply (triple_seq P _ P (λ _, True)); [|intros e w _ [Ho _]; by split|].
  { by apply triple_lift. }
  intros [] _. eapply (triple_bind P _ (λ r w, only k d (disk w) ∧ ∀ u : unit, r = Ok u →
    disk w !! k = Some (Node_File (content +:+ chunk)))); [|intros e w [Ho _]; by split|].
  - apply triple_io. intros w r w' (r0 & Hr & ->)%io_map_err_inv [Ho Hk].
    eapply write_all_law in Hr; [|by apply part_unlinked|by rewrite path_is].
    rewrite path_is in Hr. destruct r0 as [[]|e]; [|destruct Hr as [c' Hr]]; rewrite Hr;
      (split; [by apply only_update|]); [|done]. intros _ _. by rewrite lookup_insert_eq.
  - intros []. eapply triple_weaken; [apply (IH rest (n + len chunk) (content +:+ chunk))|..]; [done| | |done].
    + rewrite len_app. lia.
    + intros w [Ho Hk]. split; [done|]. by apply (Hk tt).
Qed.

Lemma download_asset_runs client negotiated :
  triple (λ w, only k d (disk w)) (download_asset client negotiated a path)
    (λ r w, only k d (disk w) ∧ (is_ok r = true → ∃ n, disk w !! k = Some n ∧ complete a n)).
Proof.
  unfold download_asset. set (P := λ w, only k d (disk w)).
  eapply (triple_seq P _ P (λ _, True)); [|intros e w _ Ho; by split|].
  { apply triple_io. intros w r w' (r0 & Hr & ->)%io_map_err_inv Hw.
    unfold P in *. by rewrite (download_original_disk _ _ _ _ _ _ Hr). }
  intros download _. eapply (triple_seq P _ P (λ _, True)); [|intros e w _ Ho; by split|].
  { by apply triple_lift. }
  intros [] _. eapply (triple_bind P _ (λ r w, P w ∧ (is_ok r = true →
    disk w !! k = Some (Node_File "")))); [|intros e w [Ho _]; by split|].
  { apply triple_io. intros w r w' (r0 & Hr & ->)%io_map_err_inv Ho.
    apply create_new_law in Hr; [|by apply part_unlinked]. rewrite path_is in Hr. unfold P in *.
    destruct r0 as [[]|e]; [destruct Hr as [_ Hr]|]; rewrite Hr; [|done].
    split; [by apply only_update|]. intros _. by rewrite lookup_insert_eq. }
  intros []. eapply (triple_bind _ _ (λ r w, only k d (disk w) ∧ ∀ n c, r = Ok (n, c) →
    disk w !! k = Some (Node_File c) ∧ n = len c)); [|intros e w [Ho _]; by split|].
  { eapply triple_weaken; [apply (receive_runs (S (length (hr_chunks download))) download 0 "")|..];
      [lia|done|intros w [Ho Hk]; by auto|done]. }
  intros [n content]. cbn beta.
  eapply (triple_bind _ _ (λ r w, P w ∧ disk w !! k = Some (Node_File content) ∧ n = len content));
    [|intros e w [Ho _]; by split|].
  { apply triple_io. intros w r w' (r0 & Hr & ->)%io_map_err_inv [Ho Hk].
    apply sync_all_law in Hr. unfold P. rewrite Hr. split; [done|]. by apply Hk. }
  intros []. apply triple_lift. intros w (Ho & Hk & ->). split; [done|]. intros Hok.
  destruct (fail_if _ _) eqn:Hf; [|done]. apply fail_if_Ok in Hf. bools.
  exists (Node_File content). split; [done|]. exists content. split_and!; [done|lia|].
  by apply String.eqb_eq.
Qed.

Lemma or_clean_runs {A} (P : W → Prop) (m : prog W ExecutorError A) (Q : result ExecutorError A → W → Prop) :
  triple P m Q →
  (∀ e w w' r, Q (Err e) w → fs_remove_file path w = (r, w') → Q (Err e) w') →
  triple P (or_clean path m) Q.
Proof.
  intros Hm Hc w Hw. destruct (Hm w Hw) as ([x|e] & w1 & Hr & Hq); unfold or_clean; rewrite Hr; [by eauto|].
  unfold mbind, prog_bind, run_io, remove_created_part. destruct (fs_remove_file path w1) as [r w2] eqn:Hf.
  simpl. exists (Err e), w2. split; [done|]. by eapply Hc.
Qed.

Lemma remove_only w r w' :
  fs_remove_file path w = (r, w') → only k d (disk w) → only k d (disk w').
Proof.
  intros Hr Ho. apply remove_file_law in Hr; [|by apply part_unlinked]. rewrite path_is in Hr.
  destruct r; rewrite Hr; [by apply only_update|done].
Qed.
End download.

(** *** One asset *)

Context (client : ImmichReadClient) (negotiated : NegotiatedServer).

Definition target_complete (d : Disk) (a : ArchiveAsset) : Prop :=
  ∃ n, d !! final_key destination a = Some n ∧ complete a n.

Definition after_already (p : ArchiveProgress) : ArchiveProgress :=
  {| ap_already_complete := sat_add (ap_already_complete p) 1;
     ap_downloaded := ap_downloaded p; ap_bytes_written := ap_bytes_written p |}.
Definition after_download (a : ArchiveAsset) (p : ArchiveProgress) : ArchiveProgress :=
  {| ap_already_complete := ap_already_complete p;
     ap_downloaded := sat_add (ap_downloaded p) 1;
     ap_bytes_written := sat_add (ap_bytes_written p) (aa_byte_len a) |}.

Definition asset_outcome (a : ArchiveAsset) (p p' : ArchiveProgress) (d d' : Disk) : Prop :=
  match resolve d (final_path destination a) with
  | Some n => complete a n ∧ d' = d ∧ p' = after_already p
  | None => target_complete d' a ∧ p' = after_download a p
  end.

Lemma publish_runs a path d :
  asset_plain a → real_dirs d (K ++ ["assets"; aa_asset_id a]) → key path = part_key destination a →
  triple (λ w, only (part_key destination a) d (disk w)
               ∧ ∃ n, disk w !! part_key destination a = Some n ∧ complete a n)
    (or_clean path (run_io (at_destination (fs_rename path (final_path destination a)))))
    (λ r w, match r with
            | Ok _ => ∃ d' c, only (part_key destination a) d d' ∧ complete a (Node_File c)
                        ∧ disk w = <[final_key destination a := Node_File c]>
                                     (delete (part_key destination a) d')
            | Err _ => only (part_key destination a) d (disk w)
            end).
Proof.
  intros Hplain Hdirs Hk. apply or_clean_runs; [|intros e w w' r Ho Hf; by eapply remove_only].
  apply triple_io. intros w r w' (r0 & Hr & ->)%io_map_err_inv (Ho & n & Hn & Hcomplete).
  destruct (id Hcomplete) as (c & -> & _).
  eapply rename_law in Hr; [|by eapply part_unlinked| |by rewrite Hk].
  - rewrite Hk, final_path_key in Hr by done. destruct r0 as [[]|e]; simpl; [by eauto|by rewrite Hr].
  - eapply only_unlinked; [exact Ho|done|]. eexists. by apply final_path_key.
Qed.

Lemma created_unlinked a d d' :
  safe destination [a] d d' → real_dirs d' (K ++ ["assets"; aa_asset_id a]) →
  unlinked d (final_key destination a).
Proof.
  intros Hs Hd q c r Hq He Hlink. unfold final_key in He.
  assert (∃ t, K ++ ["assets"; aa_asset_id a] = q ++ t) as (t & Ht).
  { destruct r as [|y r _] using rev_ind.
    - exists []. change ["assets"; aa_asset_id a; aa_original_file_name a]
        with (["assets"; aa_asset_id a] ++ [aa_original_file_name a]) in He.
      rewrite app_assoc in He. apply app_inj_tail in He as [-> _]. by rewrite app_nil_r.
    - exists (c :: r). change ["assets"; aa_asset_id a; aa_original_file_name a]
        with (["assets"; aa_asset_id a] ++ [aa_original_file_name a]) in He.
      rewrite app_assoc, app_comm_cons, app_assoc in He. by apply app_inj_tail in He as [-> _]. }
  specialize (Hd q t Hq Ht).
  destruct (Hs q) as [He'|[Hn _]]; [|congruence..].
  apply short_not_part. apply (f_equal length) in Ht. rewrite !length_app in Ht. simpl in Ht. lia.
Qed.

Lemma final_ne_part a : final_key destination a ≠ part_key destination a.
Proof.
  unfold final_key, part_key. intros He. simplify_list_eq. by eapply part_name_ne.
Qed.

Lemma published_safe a d d1 d2 c :
  safe destination [a] d d1 → d !! final_key destination a = None →
  only (part_key destination a) d1 d2 → complete a (Node_File c) →
  safe destination [a] d (<[final_key destination a := Node_File c]> (delete (part_key destination a) d2)).
Proof.
  intros Hs Hn Ho Hc p Hp. destruct (decide (p = final_key destination a)) as [->|Hne].
  - right. split; [done|]. right. exists a, (Node_File c). rewrite lookup_insert_eq. set_solver.
  - assert (p ≠ part_key destination a) by (intros ->; apply Hp; exists a; set_solver).
    rewrite lookup_insert_ne, lookup_delete_ne, Ho by done. by apply Hs.
Qed.

Lemma apply_asset_runs a p d :
  asset_plain a → real_dirs d K →
  triple (λ w, disk w = d) (apply_asset destination client negotiated p a)
    (λ r w, safe destination [a] d (disk w) ∧ ∀ p', r = Ok p' → asset_outcome a p p' d (disk w)).
Proof.
  intros Hplain Hdirs. unfold apply_asset.
  eapply (triple_seq _ _ (λ w, disk w = d) (λ _, True)); [|intros e w _ <-; by split|].
  { apply triple_io. intros w r w' [Hd _]%check_not_cancelled_step <-. done. }
  intros [] _. eapply (triple_seq _ _ (λ w, disk w = d) (λ r, ∀ b, r = Ok b →
    is_Some (resolve d (final_path destination a)) ↔ b = true)); [|intros e w _ <-; by split|].
  { apply triple_io. intros w r w' Hr <-. unfold path_exists in Hr.
    destruct (node_metadata _ w) as [m w1] eqn:Hm. apply metadata_law in Hm as [Hd Hm].
    destruct m as [[t n]|[]]; injection Hr as <- <-; (split; [done|]); intros b [= <-].
    - destruct Hm as (node & -> & _). done.
    - rewrite Hm. split; [by intros []|done]. }
  intros [] Hb; specialize (Hb _ eq_refl).
  - destruct (proj2 Hb eq_refl) as [n Hn].
    eapply (triple_seq _ _ (λ w, disk w = d) (λ r, is_ok r = true → complete a n));
      [|intros e w _ <-; by split|].
    { eapply triple_weaken; [apply (verify_existing_runs _ a d)|done|]. intros r w [<- Hr]. split; [done|].
      intros Hok. destruct (Hr Hok) as (n' & Hn' & ?). congruence. }
    intros [] Hc. apply triple_ret. intros w <-. split; [done|]. intros p' [= <-].
    unfold asset_outcome. rewrite Hn. auto.
  - assert (resolve d (final_path destination a) = None) as Hnone.
    { destruct (resolve d _); [|done]. by discriminate (proj1 Hb (mk_is_Some _ _ eq_refl)). }
    unfold asset_outcome. rewrite Hnone. clear Hb.
    eapply (triple_bind _ _ (λ r w, safe destination [a] d (disk w)
      ∧ (is_ok r = true → real_dirs (disk w) (K ++ ["assets"; aa_asset_id a]))));
      [|intros e w [? _]; by split|].
    { apply triple_io. intros w r w' Hr <-. eapply ensure_asset_directory_step; [done|set_solver|apply Hplain|done]. }
    intros _dir w [Hs Hd1]. specialize (Hd1 eq_refl).
    assert (d !! final_key destination a = None) as Hfresh.
    { rewrite <-final_path_key, <-resolve_unlinked; [done| |done|done].
      rewrite final_path_key by done. by eapply created_unlinked. }
    set (d1 := disk w) in *. revert Hs Hd1. generalize d1 as d0, (eq_refl : disk w = d1). clear d1.
    intros d0 Hw Hs Hd1. revert w Hw. apply (triple_weaken (λ w, only (part_key destination a) d0 (disk w))
      _ _ (λ r w, safe destination [a] d (disk w)
           ∧ ∀ p', r = Ok p' → target_complete (disk w) a ∧ p' = after_download a p));
      [|by intros w -> q _|done].
    assert (∀ d2, only (part_key destination a) d0 d2 → safe destination [a] d d2) as Hsafe.
    { intros d2 Ho. etrans; [exact Hs|]. apply (only_safe _ a); [set_solver|done]. }
    set (P := λ w, only (part_key destination a) d0 (disk w)).
    eapply (triple_seq P _ P (λ r, ∀ path, r = Ok path → key path = part_key destination a));
      [|intros e w _ Ho; split; [by apply Hsafe|done]|].
    { apply triple_lift. intros w Ho. split; [done|]. intros path. by apply part_path_key. }
    intros path Hpath. specialize (Hpath path eq_refl).
    eapply (triple_seq P _ P (λ _, True)); [|intros e w _ Ho; split; [by apply Hsafe|done]|].
    { apply triple_io. intros w r w' Hr Ho. split; [|done]. unfold remove_stale_part in Hr.
      destruct (node_metadata path w) as [m w1] eqn:Hm. apply metadata_law in Hm as [Hd _].
      assert (P w1) as Hw1 by (unfold P; by rewrite Hd).
      destruct m as [[[] n]|[]]; try by injection Hr as _ <-.
      apply io_map_err_inv in Hr as (r0 & Hr & _). by eapply remove_only. }
    intros [] _. eapply triple_bind with (Q := λ r w, P w ∧ (is_ok r = true →
      ∃ n, disk w !! part_key destination a = Some n ∧ complete a n));
      [|intros e w [Ho _]; split; [by apply Hsafe|done]|].
    { apply or_clean_runs; [by apply download_asset_runs|].
      intros e w w' r [Ho _] Hf. split; [by eapply remove_only|done]. }
    intros []. eapply triple_bind; [eapply triple_weaken; [by apply (publish_runs a path d0)| |intros r w Hw; exact Hw]|..].
    + intros w [Ho Hn]. split; [done|]. by apply Hn.
    + intros e w Ho. split; [by apply Hsafe|done].
    + intros []. apply triple_ret. intros w (d2 & c & Ho & Hc & ->). split.
      * by eapply published_safe.
      * intros p' [= <-]. split; [|done]. exists (Node_File c). by rewrite lookup_insert_eq.
Qed.

(** *** The loop over the assets *)

(** The report so far, of counters that saturate *)
Definition counters (already downloaded bytes : Z) : ArchiveProgress :=
  {| ap_already_complete := Z.min already u64_max; ap_downloaded := Z.min downloaded u64_max;
     ap_bytes_written := Z.min bytes u64_max |}.

Definition missing (d : Disk) (a : ArchiveAsset) : bool :=
  bool_decide (d !! final_key destination a = None).
Definition missing_bytes (d : Disk) (assets : list ArchiveAsset) : Z :=
  foldr Z.add 0 (map aa_byte_len (List.filter (missing d) assets)).

Lemma sat_add_min x k : 0 <= k → sat_add (Z.min x u64_max) k = Z.min (x + k) u64_max.
Proof. unfold sat_add. lia. Qed.

Definition loop_outcome (assets : list ArchiveAsset) (x y z : Z) (p' : ArchiveProgress) (d d' : Disk) : Prop :=
  Forall (λ a, unlinked d (final_key destination a)) assets →
  Forall (target_complete d') assets
  ∧ p' = counters (x + count (λ a, negb (missing d a)) assets) (y + count (missing d) assets)
                  (z + missing_bytes d assets).

Lemma loop_cons a assets x y z d d1 d2 p1 p' :
  asset_plain a → 0 <= aa_byte_len a → aa_asset_id a ∉ map aa_asset_id assets →
  NoDup (map aa_asset_id assets) →
  safe destination [a] d d1 → asset_outcome a (counters x y z) p1 d d1 →
  safe destination assets d1 d2 →
  (∀ x y z, p1 = counters x y z → loop_outcome assets x y z p' d1 d2) →
  loop_outcome (a :: assets) x y z p' d d2.
Proof.
  intros Hplain Hlen Ha Hn Hs1 Ho Hs2 IH Hu. apply Forall_cons in Hu as [Hua Hu].
  assert (∀ b, b ∈ assets → ¬ is_part destination [a] (final_key destination b)
            ∧ final_key destination b ≠ final_key destination a) as Hother.
  { intros b Hb. assert (aa_asset_id b ≠ aa_asset_id a) as Hne.
    { intros He. apply Ha. rewrite <-He. by apply list_elem_of_fmap_2. }
    unfold is_part, final_key, part_key. split; [intros (a' & ->%list_elem_of_singleton & He)|intros He];
      by simplify_list_eq. }
  assert (Forall (λ b, unlinked d1 (final_key destination b)) assets) as Hu1.
  { eapply Forall_impl; [exact Hu|]. intros b Hb. eapply safe_unlinked; [exact Hs1| |done].
    unfold final_key. rewrite length_app. simpl. lia. }
  assert (∀ b, b ∈ assets → d1 !! final_key destination b = d !! final_key destination b) as Hsame.
  { intros b Hb. destruct (Hother b Hb) as [Hp Hf].
    destruct (Hs1 _ Hp) as [?|(_ & [[Hr _]|(a' & _ & ->%list_elem_of_singleton & ? & _)])]; [done| |done].
    apply run_directory_short in Hr. unfold final_key in Hr. rewrite length_app in Hr. simpl in Hr. lia. }
  assert (map (missing d1) assets = map (missing d) assets
          ∧ List.filter (missing d1) assets = List.filter (missing d) assets) as [_ Hfilter].
  { split; [apply map_ext_in|apply filter_ext_in]; intros b Hb%list_elem_of_In;
      unfold missing; by rewrite Hsame. }
  assert (count (missing d1) assets = count (missing d) assets) as Hcount
    by (unfold count; by rewrite Hfilter).
  assert (count (λ b, negb (missing d1 b)) assets = count (λ b, negb (missing d b)) assets) as Hcount'.
  { unfold count. f_equal. apply filter_ext_in. intros b Hb%list_elem_of_In. unfold missing. by rewrite Hsame. }
  assert (target_complete d1 a ∧ p1 = counters (x + one_if (negb (missing d a))) (y + one_if (missing d a))
    (z + if missing d a then aa_byte_len a else 0)) as [Hc ->].
  { unfold asset_outcome in Ho. rewrite resolve_unlinked, final_path_key in Ho
      by (try rewrite final_path_key; done). unfold missing.
    destruct (d !! final_key destination a) as [n|] eqn:Hd.
    - destruct Ho as (Hc & -> & ->). split; [by exists n|]. unfold after_already, counters. simpl.
      rewrite sat_add_min by lia. by rewrite !Z.add_0_r.
    - destruct Ho as (Hc & ->). split; [done|]. unfold after_download, counters. simpl.
      rewrite !sat_add_min by lia. by rewrite !Z.add_0_r. }
  destruct (IH _ _ _ eq_refl Hu1) as [Hall ->]. split.
  - constructor; [|done]. destruct Hc as (n & Hn' & Hc). exists n. split; [|done].
    eapply safe_kept; [exact Hs2| |done]. intros (b & Hb & He).
    apply Ha. unfold final_key, part_key in He. simplify_list_eq.
    match goal with H : aa_asset_id a = _ |- _ => rewrite H end. by apply list_elem_of_fmap_2.
  - rewrite !count_cons, Hcount, Hcount'. unfold missing_bytes. simpl. rewrite Hfilter.
    unfold counters, one_if. destruct (missing d a); simpl; f_equal; f_equal; lia.
Qed.

Lemma loop_runs assets x y z d :
  Forall asset_plain assets → Forall (λ a, 0 <= aa_byte_len a) assets →
  NoDup (map aa_asset_id assets) → real_dirs d K →
  triple (λ w, disk w = d)
    (prog_for_each (apply_asset destination client negotiated) assets (counters x y z))
    (λ r w, safe destination assets d (disk w) ∧ ∀ p', r = Ok p' → loop_outcome assets x y z p' d (disk w)).
Proof.
  revert x y z d. induction assets as [|a assets IH]; intros x y z d Hplain Hlen Hn Hdirs; cbn [prog_for_each].
  - apply triple_ret. intros w ->. split; [done|]. intros p' [= <-] _. split; [done|].
    unfold count, missing_bytes. simpl. by rewrite !Z.add_0_r.
  - apply Forall_cons in Hplain as [Hpa Hplain]. apply Forall_cons in Hlen as [Hla Hlen].
    apply NoDup_cons in Hn as [Ha Hn].
    eapply triple_bind; [by apply apply_asset_runs| |].
    { intros e w [Hs _]. split; [|done]. eapply safe_weaken; [|exact Hs]. set_solver. }
    intros p1 w [Hs Ho]. specialize (Ho p1 eq_refl).
    assert (∃ x1 y1 z1, p1 = counters x1 y1 z1) as (x1 & y1 & z1 & ->).
    { unfold asset_outcome in Ho. destruct (resolve d _).
      - destruct Ho as (_ & _ & ->). exists (x + 1), y, z. unfold after_already. simpl.
        by rewrite sat_add_min by lia.
      - destruct Ho as (_ & ->). exists x, (y + 1), (z + aa_byte_len a). unfold after_download. simpl.
        by rewrite !sat_add_min by lia. }
    assert (real_dirs (disk w) K) as Hd1 by (eapply safe_real_dirs; [exact Hs|lia|done]).
    assert (∀ x y z, counters x1 y1 z1 = counters x y z → ∃ r w',
      prog_for_each (apply_asset destination client negotiated) assets (counters x1 y1 z1) w = Some (r, w')
      ∧ safe destination assets (disk w) (disk w')
      ∧ ∀ p', r = Ok p' → loop_outcome assets x y z p' (disk w) (disk w')) as Hrec
      by (intros ??? ->; by apply IH).
    destruct (Hrec _ _ _ eq_refl) as (r & w' & Hr & Hs' & _). exists r, w'. split; [done|]. split.
    + etrans; (eapply safe_weaken; [|done]); set_solver.
    + intros p' ->. eapply loop_cons; try done.
      intros ??? He. destruct (Hrec _ _ _ He) as (r' & w'' & Hr' & _ & Hok). rewrite Hr in Hr'.
      injection Hr' as <- <-. by apply Hok.
Qed.
End run.

Lemma filter_total_le (f : ArchiveAsset → bool) assets :
  Forall (λ a, 0 <= aa_byte_len a) assets →
  foldr Z.add 0 (map aa_byte_len (List.filter f assets)) <= foldr Z.add 0 (map aa_byte_len assets).
Proof. induction 1 as [|a l Ha Hl IH]; simpl; [lia|]. destruct (f a); simpl; lia. Qed.

Lemma count_negb {A} (f : A → bool) l : count (λ a, negb (f a)) l + count f l = zlen l.
Proof.
  induction l as [|a l IH]; [done|]. rewrite !count_cons, zlen_cons. destruct (f a); simpl; lia.
Qed.

(** ** A whole run *)
Section archive.
  Context {W : Type} `{DestinationLaws W, !Codec, !TimeLib, !ReadTransport W, !ArchiveCodec}.
  Context (m : ArchiveManifest) (destination : string) (client : ImmichReadClient)
    (negotiated : NegotiatedServer).

(** What a successful report says about the destination before and after *)
Record archive_done (report : ArchiveApplyReport) (d d' : Disk) : Prop := {
  ad_complete : Forall (target_complete destination d') (am_assets m);
  ad_downloaded : aar_downloaded report = count (missing destination d) (am_assets m);
  ad_already : aar_already_complete report
               = count (λ a, negb (missing destination d a)) (am_assets m);
  ad_bytes : aar_bytes_written report = missing_bytes destination d (am_assets m);
  ad_retries : aar_retries report = 0;
}.

Lemma early_step d1 d2 :
  safe destination [] d1 d2 →
  map (missing destination d2) (am_assets m) = map (missing destination d1) (am_assets m)
  ∧ (Forall (λ a, unlinked d1 (final_key destination a)) (am_assets m) →
     Forall (λ a, unlinked d2 (final_key destination a)) (am_assets m)).
Proof.
  intros Hs. split.
  - apply map_ext. intros a. unfold missing. f_equal.
    destruct (Hs (final_key destination a)) as [->|(_ & [[Hr _]|(b & _ & Hb & _)])]; [|done| |by apply elem_of_nil in Hb].
    + intros (b & Hb & _). by apply elem_of_nil in Hb.
    + apply run_directory_short in Hr. unfold final_key in Hr. rewrite length_app in Hr. simpl in Hr. lia.
  - intros Hu. eapply Forall_impl; [exact Hu|]. intros a Ha. eapply safe_unlinked; [exact Hs| |done].
    unfold final_key. rewrite length_app. simpl. lia.
Qed.

Lemma filter_map_ext {A} (f g : A → bool) l : map f l = map g l → List.filter f l = List.filter g l.
Proof.
  induction l as [|a l IH]; simpl; [done|]. intros [= -> Hl]. by rewrite IH.
Qed.

Lemma apply_archive_runs d :
  lengths_in_range m →
  triple (λ w, disk w = d) (apply_archive m destination client negotiated)
    (λ r w, safe destination (am_assets m) d (disk w)
            ∧ ∀ report, r = Ok report →
                Forall (λ a, unlinked d (final_key destination a)) (am_assets m) →
                archive_done report d (disk w)).
Proof.
  intros Hrange. unfold apply_archive.
  eapply (triple_seq _ _ (λ w, disk w = d) (λ r, is_ok r = true → Archive.validate m = Ok tt));
    [|intros e w _ <-; by split|].
  { apply triple_lift. intros w <-. split; [done|]. unfold relabel.
    by destruct (Archive.validate m) as [[]|]. }
  intros [] Hvalid. apply archive_validate_Ok in Hvalid as []; [|done|done].
  eapply (triple_seq _ _ (λ w, disk w = d) (λ _, True)); [|intros e w _ <-; by split|].
  { by apply triple_lift. }
  intros [] _. eapply (triple_bind _ _ (λ r w, safe destination [] d (disk w)
    ∧ (is_ok r = true → destination ≠ "" ∧ real_dirs (disk w) (key destination)))).
  { apply triple_io. intros w r w' (r0 & Hr & ->)%io_map_err_inv <-.
    destruct (decide (destination = "")) as [->|Hne].
    { unfold ensure_destination in Hr. by injection Hr as <- <-. }
    apply ensure_destination_step in Hr as [Hs Hd]; [|done]. split; [done|].
    destruct r0; [|done]. auto. }
  { intros e w [Hs _]. split; [|done]. eapply safe_weaken; [|exact Hs]. set_solver. }
  intros [] w [Hs Hok]. destruct (Hok eq_refl) as [Hne Hdirs]. clear Hok.
  destruct (early_step _ _ Hs) as [Hmissing Hunlinked].
  apply (safe_weaken destination [] (am_assets m)) in Hs; [|set_solver].
  eapply (triple_seq (λ w', disk w' = disk w) _ (λ w', disk w' = disk w) (λ _, True));
    [|intros e w' _ ->; by split| |done].
  { by apply triple_lift. }
  intros manifest_bytes _.
  assert (Forall (λ a, 0 <= aa_byte_len a) (am_assets m)) as Hlen
    by (eapply Forall_impl; [exact Hrange|]; intros a []; done).
  eapply (triple_bind _ _ (λ r w', safe destination (am_assets m) (disk w) (disk w')
    ∧ ∀ p', r = Ok p' → loop_outcome destination (am_assets m) 0 0 0 p' (disk w) (disk w')));
    [|intros e w' [Hs' _]; split; [by etrans|done]|].
  { intros w0 Hw0. destruct (loop_runs destination Hne client negotiated (am_assets m) 0 0 0 (disk w)) with w0
      as (r & w' & Hr & Hs' & Hl); try done.
    { eapply Forall_impl; [exact amwf_assets|]. apply well_formed_plain. }
    change (counters 0 0 0) with
      {| ap_already_complete := 0; ap_downloaded := 0; ap_bytes_written := 0 |} in Hr.
    rewrite Hr. eexists _, _. split; [done|]. split; [done|]. by intros p' ->%map_err_Ok; apply Hl. }
  intros p. eapply (triple_bind _ _ (λ r w', (safe destination (am_assets m) (disk w) (disk w')
      ∧ loop_outcome destination (am_assets m) 0 0 0 p (disk w) (disk w'))
    ∧ (is_ok r = true → sat_add (ap_downloaded p) (ap_already_complete p) = zlen (am_assets m))));
    [|intros e w' [[Hs' _] _]; split; [by etrans|done]|].
  { apply triple_lift. intros w' [Hs' Hl]. split; [by auto|]. unfold report_validate. simpl.
    destruct (fail_if _ _) eqn:Hf; [|done]. apply fail_if_Ok in Hf. bools. lia. }
  intros []. apply triple_ret. intros w' [[Hs' Hl] Hsum]. specialize (Hsum eq_refl).
  split; [by etrans|]. intros report [= <-] Hu. destruct (Hl (Hunlinked Hu)) as [Hall ->].
  pose proof (filter_map_ext _ _ _ Hmissing) as Hf.
  assert (count (missing destination (disk w)) (am_assets m) = count (missing destination d) (am_assets m)) as Hc
    by (unfold count; by rewrite Hf).
  pose proof (count_negb (missing destination d) (am_assets m)) as Htotal.
  pose proof (count_negb (missing destination (disk w)) (am_assets m)) as Htotal'.
  pose proof (filter_total_le (missing destination d) (am_assets m) Hlen) as Hbytes.
  pose proof (count_nonneg (missing destination d) (am_assets m)).
  pose proof (count_nonneg (λ a, negb (missing destination d a)) (am_assets m)).
  cbn [ap_downloaded ap_already_complete ap_bytes_written counters] in Hsum.
  unfold sat_add in Hsum. unfold missing_bytes in *. rewrite Hf in *.
  split; simpl; unfold missing_bytes; try done; lia.
Qed.

(** C20: an archive run always comes to an end, whatever the server, the disk and the user
    do, and in every outcome it leaves what it found: no file, link or directory that was
    there changes, apart from stale partial files; what appears is a partial file, a
    directory of the destination, or an original under its own name with the length and
    the SHA-1 digest of the manifest.  Nothing is written through a link. *)
Theorem archive_apply_safe w :
  lengths_in_range m → ∃ r w', apply_archive m destination client negotiated w = Some (r, w')
    ∧ safe destination (am_assets m) (disk w) (disk w').
Proof.
  intros Hr. destruct (apply_archive_runs (disk w) Hr w eq_refl) as (r & w' & Heq & Hs & _). eauto.
Qed.

(** C24: a successful archive run leaves every original of the manifest complete at its
    target, provided that no path component on the way to a target was a link before
    the run and that the lengths of the manifest are 64-bit; the report counts exactly
    the targets that were missing before the run, and their bytes, as downloaded, and
    all others as complete already.  (A stale partial file next to a target that was
    complete already stays where it is.) *)
Theorem archive_apply_complete w report w' :
  lengths_in_range m → Forall (λ a, unlinked (disk w) (final_key destination a)) (am_assets m) →
  apply_archive m destination client negotiated w = Some (Ok report, w') →
  archive_done report (disk w) (disk w').
Proof.
  intros Hr Hu Heq. destruct (apply_archive_runs (disk w) Hr w eq_refl) as (r & w2 & Heq2 & _ & Hd).
  rewrite Heq in Heq2. injection Heq2 as <- <-. by apply Hd.
Qed.
End archive.

(** ** Planning a manifest *)

Section manifest.
  Context `{!Codec, !ArchiveCodec}.

(** A manifest that is returned is valid; it lists the remote assets, each once and with
    its own facts, in the order of their targets, for the server that was asked and
    bound to the planning configuration. *)
Theorem create_archive_manifest_sound remote_assets server config manifest :
  create_archive_manifest remote_assets server config = Ok manifest →
  Archive.validate manifest = Ok tt
  ∧ am_assets manifest ≡ₚ map archive_asset_of remote_assets
  ∧ zlen remote_assets <= apc_max_assets config
  ∧ am_server manifest = server
  ∧ ∃ bytes, json_archive_planning config = Some bytes
             ∧ am_configuration_sha256 manifest = sha256_hex bytes.
Proof.
  unfold create_archive_manifest. intros Hc.
  apply bind_Ok in Hc as (_ & _ & [Hlimits Hc]%bind_fail_if_Ok). bools.
  apply bind_Ok in Hc as (bytes & _ & Hc).
  apply bind_Ok in Hc as (configuration & Hconf%ok_or_Ok & Hc).
  apply bind_Ok in Hc as ([] & Hvalid & [= <-]). split_and!; simpl; try done; [|apply sort_by_perm|by eauto].
  unfold relabel in Hvalid. by apply map_err_Ok in Hvalid.
Qed.
End manifest.

(** ** A concrete run *)

Section witnesses.
#[local] Existing Instances sample_codec sample_time sample_url sample_tls.

Record Box := { bx_disk : Disk; bx_unread : string; bx_script : list HttpResponse }.
Definition with_disk (d : Disk) (w : Box) : Box :=
  {| bx_disk := d; bx_unread := bx_unread w; bx_script := bx_script w |}.

#[local] Instance box_cancellation : Cancellation Box := {| is_cancelled w := (false, w) |}.
#[local] Instance box_inventory : InventoryTransport Box := {|
  http_post _ _ _ _ w := (None, w);
  http_download _ _ _ w :=
    match bx_script w with
    | r :: l => (Some (Ok r), {| bx_disk := bx_disk w; bx_unread := bx_unread w; bx_script := l |})
    | [] => (None, w)
    end;
  chunk_arrives w := (true, w);
  decode_search _ := None; decode_archive_asset _ := None; decode_owned_albums _ := None;
  base64_decode := Some;
|}.
#[local] Instance box_fs : DestinationFs Box := {|
  node_metadata p w := match bx_disk w !! key p with
    | Some n => (Ok (node_type n, match n with Node_File c => len c | _ => 0 end), w)
    | None => (Err IoErrorKind.NotFound, w) end;
  fs_create_dir p w := match bx_disk w !! key p with
    | Some _ => (Err IoErrorKind.Other, w) | None => (Ok tt, with_disk (<[key p := Node_Dir]> (bx_disk w)) w) end;
  fs_remove_file p w := (Ok tt, with_disk (delete (key p) (bx_disk w)) w);
  fs_rename p q w := match bx_disk w !! key p with
    | Some n => (Ok tt, with_disk (<[key q := n]> (delete (key p) (bx_disk w))) w)
    | None => (Err IoErrorKind.NotFound, w) end;
  fs_create_new p w := match bx_disk w !! key p with
    | Some _ => (Err IoErrorKind.Other, w) | None => (Ok tt, with_disk (<[key p := Node_File ""]> (bx_disk w)) w) end;
  fs_write_all p chunk w := match bx_disk w !! key p with
    | Some (Node_File c) => (Ok tt, with_disk (<[key p := Node_File (c +:+ chunk)]> (bx_disk w)) w)
    | _ => (Err IoErrorKind.Other, w) end;
  fs_sync_all _ w := (Ok tt, w);
  fs_open p w := match bx_disk w !! key p with
    | Some (Node_File c) => (Ok tt, {| bx_disk := bx_disk w; bx_unread := c; bx_script := bx_script w |})
    | _ => (Err IoErrorKind.NotFound, w) end;
  fs_read _ w := (Ok (bx_unread w), {| bx_disk := bx_disk w; bx_unread := ""; bx_script := bx_script w |});
  content_length _ := None;
|}.
#[local] Instance box_disk : DestinationDisk Box :=
  {| disk := bx_disk; resolve d p := d !! key p; unread := bx_unread |}.
#[local] Instance box_disk_laws : DiskLaws Box.
Proof.
  split; try done.
  - intros p w r w'. cbn. destruct (bx_disk w !! key p) as [n|] eqn:Hn; intros [= <- <-]; [|done].
    split; [done|]. exists n. split_and!; [done..|]. by intros c ->.
  - intros p w r w'. cbn. destruct (bx_disk w !! key p) eqn:Hn; by intros [= <- <-] _.
  - intros p w r w'. cbn. by intros [= <- <-] _.
  - intros p q w c r w'. cbn. intros Hr _ _ Hn. rewrite Hn in Hr. by injection Hr as <- <-.
  - intros p w r w'. cbn. destruct (bx_disk w !! key p) eqn:Hn; by intros [= <- <-] _.
  - intros p chunk w c r w'. cbn. intros Hr _ Hn. rewrite Hn in Hr. by injection Hr as <- <-.
  - intros p w r w'. cbn. by intros [= _ <-].
  - intros p w r w'. cbn. destruct (bx_disk w !! key p) as [[c| | |]|] eqn:Hn; intros [= <- <-];
      (split; [done|]); intros c' Hc Hok; cbn in *; congruence.
  - intros n w r w'. cbn. intros [= <- <-] _. split; [done|]. intros chunk [= <-]. cbn.
    split; [|done]. apply bytes_inj. by rewrite bytes_app, app_nil_r.
Qed.
#[local] Instance box_laws : DestinationLaws Box.
Proof.
  split; [apply _|..].
  - intros w b w'. cbn. by intros [= _ <-].
  - intros client url key w r w'. cbn. destruct (bx_script w); by intros [= _ <-].
  - intros w b w'. cbn. by intros [= _ <-].
Qed.

#[local] Instance box_codec : ArchiveCodec := {|
  json_archive_planning _ := Some "planning"; json_archive_manifest _ := Some "manifest";
  sha1 c := String.substring 0 20 (c +:+ "12345678901234567890");
|}.

Definition remote_of (c : string) (content : string) : RemoteArchiveAsset := {|
  raa_asset_id := sample_id c; raa_original_file_name := c +:+ ".jpg"; raa_media_kind := Media_Image;
  raa_byte_len := len content; raa_checksum_sha1 := hex (sha1 content) |}.
Definition two_originals : ArchiveManifest :=
  match create_archive_manifest [remote_of "b" "second"; remote_of "a" "first"]
          (ns_compatibility photo_server) default_archive_planning with
  | Ok m => m
  | Err _ => sample_manifest [] 0
  end.

(** The first original is there; a stale partial file of the second, and a foreign file. *)
Definition below (l : list string) : list string := ["/"; "photos"] ++ l.
Definition box_before : Box := {|
  bx_disk := list_to_map [(["/"], Node_Dir); (below [], Node_Dir); (below ["assets"], Node_Dir);
    (below ["assets"; sample_id "a"], Node_Dir);
    (below ["assets"; sample_id "a"; "a.jpg"], Node_File "first");
    (below ["assets"; sample_id "b"], Node_Dir);
    (below ["assets"; sample_id "b"; ".b.jpg.immich-rs.part"], Node_File "sec");
    (below ["notes.txt"], Node_File "mine")];
  bx_unread := ""; bx_script := [answer 200 ["sec"; "ond"]] |}.

Definition box_run : option (result (fault ExecutorError) ArchiveApplyReport * Box) :=
  apply_archive two_originals "/photos" reader photo_server box_before.
Definition box_report : ArchiveApplyReport :=
  match box_run with Some (Ok r, _) => r | _ => {| aar_schema_version := 0; aar_manifest_sha256 := "";
    aar_downloaded := 0; aar_already_complete := 0; aar_bytes_written := 0; aar_retries := 0 |} end.
Definition box_after : Box := match box_run with Some (_, w) => w | None => box_before end.

Lemma box_run_Ok : box_run = Some (Ok box_report, box_after).
Proof. vm_compute. reflexivity. Qed.

(** One original is fetched; the other files are as before; the partial file is gone. *)
Example box_result :
  aar_downloaded box_report = 1 ∧ aar_already_complete box_report = 1 ∧ aar_bytes_written box_report = 6
  ∧ bx_disk box_after !! below ["assets"; sample_id "b"; "b.jpg"] = Some (Node_File "second")
  ∧ bx_disk box_after !! below ["assets"; sample_id "b"; ".b.jpg.immich-rs.part"] = None
  ∧ bx_disk box_after !! below ["notes.txt"] = Some (Node_File "mine").
Proof. repeat split; vm_compute; reflexivity. Qed.

Lemma two_originals_in_range : lengths_in_range two_originals.
Proof.
  assert (forallb (λ a, (0 <=? aa_byte_len a) && (aa_byte_len a <=? u64_max))
            (am_assets two_originals) = true) as Hb by (vm_compute; reflexivity).
  eapply Forall_impl; [exact (proj1 (forallb_true _ _) Hb)|]. cbv beta. intros a Ha. bools. by split.
Qed.

Lemma box_before_unlinked : map_Forall (λ _ n, n ≠ Node_Link) (bx_disk box_before).
Proof. apply (bool_decide_eq_true_1 _). vm_compute. reflexivity. Qed.

Lemma archive_apply_safe_witness : ∃ r w', box_run = Some (r, w')
  ∧ safe "/photos" (am_assets two_originals) (disk box_before) (disk w').
Proof. exact (archive_apply_safe two_originals "/photos" reader photo_server box_before two_originals_in_range). Defined.

Lemma archive_apply_complete_witness :
  archive_done two_originals "/photos" box_report (disk box_before) (disk box_after).
Proof.
  apply (archive_apply_complete two_originals "/photos" reader photo_server box_before box_report box_after
           two_originals_in_range); [|exact box_run_Ok].
  apply Forall_forall. intros a _ q c r _ _ Hlink.
  exact (box_before_unlinked q Node_Link Hlink eq_refl).
Defined.
End witnesses.
