(* ===== verification/MigrationPlanning.v ===== *)
(** * MigrationPlanning: the plan of a server-to-server migration
    ([crates/immich-executor/src/migration_plan.rs])

    Every original of the inventory is downloaded once and hashed; the inventory and
    the hashes are then assembled into a plan, which is also how a run checks later
    that the source has not changed. *)
From Stdlib Require Import Ascii.
From stdpp Require Import strings gmap.
From S2P Require Export Planner ScanConfig ArchiveApply.

(** ** Configuration *)

Record MigrationPlanningConfig := {
  mpc_inventory : MigrationListConfig;
  mpc_max_asset_bytes : Z;
  mpc_max_total_bytes : Z;
  mpc_upload : UploadExecutionConfig;
}.

(** [MigrationPlanningConfig::default] *)
Definition default_migration_planning : MigrationPlanningConfig := {|
  mpc_inventory := default_migration_list; mpc_max_asset_bytes := 1024 ^ 4;
  mpc_max_total_bytes := 16 * 1024 ^ 4; mpc_upload := default_config |}.

(** [serde_json::to_vec] of the values a migration hashes *)
Class MigrationCodec := {
  json_metadata : option NormalizedMetadata → option string;
  json_migration_source : MigrationServer → list MigrationAsset → list MigrationAlbum → option string;
}.

(** [MigrationPlanningConfig::validate] *)
Definition planning_validate (c : MigrationPlanningConfig) : result ExecutorError MigrationPlanningConfig :=
  _ ← config_validate (mpc_upload c);
  let inventory := mpc_inventory c in
  let valid_inventory :=
    ScanConfig.in_range 1 1000 (mlc_page_size inventory) && (0 <? mlc_max_assets inventory)
    && (0 <? mlc_max_albums inventory) && (0 <? mlc_max_album_memberships inventory) in
  if valid_inventory && (concurrency (mpc_upload c) =? 1) && (0 <? mpc_max_asset_bytes c)
     && (mpc_max_asset_bytes c <=? mpc_max_total_bytes c)
  then Ok c else Err invalid_configuration.

(** [n.to_be_bytes()] of a [u64] or an [i64] *)
Definition be_bytes64 (n : Z) : string :=
  String.string_of_list_ascii
    (map (λ k, ascii_of_N (Z.to_N (Z.land (Z.shiftr n k) 255))) [56; 48; 40; 32; 24; 16; 8; 0]).

Definition zero_byte : string := String "000" "".

Section identity.
  Context `{Codec}.

(** [MigrationPlanningConfig::identity] *)
Definition planning_identity (c : MigrationPlanningConfig) : result ExecutorError string :=
  let inventory := mpc_inventory c in
  upload ← config_identity_sha256 (mpc_upload c);
  let value := "migration-config-v1" +:+ zero_byte +:+ display_u64 (mlc_page_size inventory)
    +:+ zero_byte +:+ display_u64 (mlc_max_assets inventory)
    +:+ zero_byte +:+ display_u64 (mlc_max_albums inventory)
    +:+ zero_byte +:+ display_u64 (mlc_max_album_memberships inventory)
    +:+ zero_byte +:+ display_u64 (mpc_max_asset_bytes c)
    +:+ zero_byte +:+ display_u64 (mpc_max_total_bytes c)
    +:+ zero_byte +:+ upload in
  Ok (sha256_hex value).

(** ** Identities *)

(** The bytes given to the hasher of [operation_id] *)
Definition operation_material (source : MigrationServer) (asset : RemoteMigrationAsset)
    (content_sha256 metadata : string) : string :=
  foldr (λ bytes rest, bytes +:+ zero_byte +:+ rest) ""
    ["immich-migration-operation-v1"; identity_sha256 (ms_compatibility source);
     rma_asset_id asset; rma_original_file_name asset; rma_checksum_sha1 asset;
     content_sha256; metadata]
  +:+ be_bytes64 (rma_byte_len asset) +:+ be_bytes64 (rma_created_at_unix_ms asset)
  +:+ be_bytes64 (rma_modified_at_unix_ms asset).

Definition operation_id `{MigrationCodec} (source : MigrationServer) (asset : RemoteMigrationAsset)
    (content_sha256 : string) : result ExecutorError string :=
  metadata ← ok_or (json_metadata (rma_normalized_metadata asset)) invariant_error;
  Ok (sha256_hex (operation_material source asset content_sha256 metadata)).

Definition pair_id (image_id video_id : string) : string :=
  sha256_hex ("immich-migration-live-photo-v1" +:+ zero_byte +:+ image_id +:+ zero_byte +:+ video_id).

Definition source_fingerprint `{MigrationCodec} (source : MigrationServer) (assets : list MigrationAsset)
    (albums : list MigrationAlbum) : result ExecutorError string :=
  bytes ← ok_or (json_migration_source source assets albums) invariant_error;
  Ok (sha256_hex bytes).

(** [iter().map(byte_len).sum()] wraps in a release build. *)
Definition summary (assets : list MigrationAsset) (albums : list MigrationAlbum) : MigrationPlanSummary :=
  let metadata_updates := count (λ asset, is_some_and (ma_normalized_metadata asset) has_metadata) assets in
  let assets_count := zlen assets in
  let album_count := zlen albums in
  {| mps_assets := assets_count;
     mps_media_bytes := sum_u64 (map ma_byte_len assets);
     mps_metadata_updates := metadata_updates;
     mps_album_creates := album_count;
     mps_album_memberships := album_count;
     mps_max_mutations := sat_add (sat_add assets_count metadata_updates) (sat_mul album_count 2) |}.
End identity.

(** ** Assembling a plan *)
Section assemble.
  Context `{Codec, !MigrationCodec, TimeLib}.

(** The maps of [live_photo_roles]: the roles, and the image of every claimed video *)
Definition Roles : Type := gmap string UploadRole * gmap string string.

(** One image with a video *)
Definition pair_image (by_id : gmap string RemoteMigrationAsset) (operation_ids : gmap string string)
    (state : Roles) (image : RemoteMigrationAsset) : result ExecutorError Roles :=
  let '(roles, video_owners) := state in
  video_id ← ok_or (rma_live_photo_video_id image) invariant_error;
  video ← ok_or (by_id !! video_id) unsupported_metadata;
  _ ← fail_if (negb (bool_decide (rma_media_kind image = Media_Image))
               || negb (bool_decide (rma_media_kind video = Media_Video))
               || is_some (rma_live_photo_video_id video)
               || is_some (video_owners !! video_id)) unsupported_metadata;
  let pair_id := pair_id (rma_asset_id image) video_id in
  video_operation_id ← ok_or (operation_ids !! video_id) invariant_error;
  Ok (<[video_id := LivePhotoVideo pair_id]>
        (<[rma_asset_id image := LivePhotoImage pair_id video_operation_id]> roles),
      <[video_id := rma_asset_id image]> video_owners).

Definition live_photo_roles (assets : list RemoteMigrationAsset) (operation_ids : gmap string string) :
    result ExecutorError (gmap string UploadRole) :=
  let by_id := collect_map rma_asset_id id assets in
  let roles := collect_map rma_asset_id (λ _, Standalone) assets in
  '(roles, _) ← for_each (pair_image by_id operation_ids)
    (List.filter (λ asset, is_some (rma_live_photo_video_id asset)) assets) (roles, ∅);
  Ok roles.

Definition plan_album (operation_ids : gmap string string) (album : RemoteOwnedAlbum) :
    result ExecutorError MigrationAlbum :=
  members ← try_map (λ asset_id, ok_or (operation_ids !! asset_id) invariant_error) (roa_asset_ids album);
  Ok {| mal_name := roa_name album; mal_member_operation_ids := sort_dedup String.compare members |}.

Definition plan_album_le (left right : MigrationAlbum) : bool :=
  leb_of String.compare (mal_name left) (mal_name right).

Definition migration_albums (inventory : RemoteMigrationInventory) (operation_ids : gmap string string) :
    result ExecutorError (list MigrationAlbum) :=
  albums ← try_map (plan_album operation_ids) (rmi_albums inventory);
  Ok (sort_by plan_album_le albums).

(** One entry of [operation_ids] *)
Definition operation_entry (source_server : MigrationServer) (content_sha256 : gmap string string)
    (asset : RemoteMigrationAsset) : result ExecutorError (string * string) :=
  body ← ok_or (content_sha256 !! rma_asset_id asset) source_changed;
  id ← operation_id source_server asset body;
  Ok (rma_asset_id asset, id).

Definition plan_asset (operation_ids content_sha256 : gmap string string)
    (roles : gmap string UploadRole) (asset : RemoteMigrationAsset) : result ExecutorError MigrationAsset :=
  operation_id ← ok_or (operation_ids !! rma_asset_id asset) invariant_error;
  content ← ok_or (content_sha256 !! rma_asset_id asset) invariant_error;
  role ← ok_or (roles !! rma_asset_id asset) invariant_error;
  Ok {| ma_source_asset_id := rma_asset_id asset;
        ma_operation_id := operation_id;
        ma_original_file_name := rma_original_file_name asset;
        ma_media_kind := rma_media_kind asset;
        ma_byte_len := rma_byte_len asset;
        ma_checksum_sha1 := rma_checksum_sha1 asset;
        ma_content_sha256 := content;
        ma_created_at_unix_ms := rma_created_at_unix_ms asset;
        ma_modified_at_unix_ms := rma_modified_at_unix_ms asset;
        ma_normalized_metadata := rma_normalized_metadata asset;
        ma_role := role |}.

Definition assemble_migration_plan (inventory : RemoteMigrationInventory)
    (source_server destination_server : MigrationServer) (content_sha256 : gmap string string)
    (config : MigrationPlanningConfig) : result ExecutorError MigrationPlan :=
  config ← planning_validate config;
  entries ← try_map (operation_entry source_server content_sha256) (rmi_assets inventory);
  let operation_ids := collect_map fst snd entries in
  _ ← fail_if (negb (Z.of_nat (size operation_ids) =? zlen (rmi_assets inventory))
               || negb (Z.of_nat (size content_sha256) =? zlen (rmi_assets inventory))) source_changed;
  roles ← live_photo_roles (rmi_assets inventory) operation_ids;
  assets ← try_map (plan_asset operation_ids content_sha256 roles) (rmi_assets inventory);
  albums ← migration_albums inventory operation_ids;
  source_fingerprint_sha256 ← source_fingerprint source_server assets albums;
  configuration_sha256 ← planning_identity config;
  let plan := {|
    mp_schema_version := MIGRATION_PLAN_SCHEMA_VERSION;
    mp_source_server := source_server;
    mp_destination_server := destination_server;
    mp_source_fingerprint_sha256 := source_fingerprint_sha256;
    mp_configuration_sha256 := configuration_sha256;
    mp_assets := assets;
    mp_albums := albums;
    mp_summary := summary assets albums |} in
  _ ← map_err (λ _, invalid_plan) (Migration.validate plan);
  Ok plan.
End assemble.

(** ** Reading every original *)
Section create.
  Context {W : Type} `{UrlLib, TlsLib, Codec, TimeLib, Cancellation W, !ReadTransport W,
    !InventoryTransport W, !ArchiveCodec, !MigrationCodec, !DestinationFs W}.

(** The loop of [verify_original] gives the bytes it hashed. *)
Fixpoint hash_original (fuel : nat) (byte_len max_bytes : Z) (download : HttpResponse)
    (bytes : Z) (content : string) : prog W ExecutorError (Z * string) :=
  match fuel with
  | O => λ _, None
  | S fuel =>
    '(chunk, download) ← run_io (io_map_err map_client_error (next_chunk download));
    match chunk with
    | None => mret (bytes, content)
    | Some chunk =>
      bytes ← run_lift (ok_or (checked_add bytes (len chunk)) source_changed);
      _ ← run_lift (fail_if ((byte_len <? bytes) || (max_bytes <? bytes)) source_changed);
      hash_original fuel byte_len max_bytes download bytes (content +:+ chunk)
    end
  end.

Definition verify_original (client : ImmichReadClient) (server : NegotiatedServer)
    (asset : RemoteMigrationAsset) (max_bytes : Z) : prog W ExecutorError string :=
  download ← run_io (io_map_err map_client_error (download_original client server (rma_asset_id asset)));
  _ ← run_lift (fail_if (is_some_and (content_length download)
        (λ length, negb (length =? rma_byte_len asset) || (max_bytes <? length))) source_changed);
  '(bytes, content) ←
    hash_original (S (length (hr_chunks download))) (rma_byte_len asset) max_bytes download 0 "";
  _ ← run_lift (fail_if (negb (bytes =? rma_byte_len asset)
                         || negb (String.eqb (hex (sha1 content)) (rma_checksum_sha1 asset))) source_changed);
  mret (sha256_hex content).

Definition hash_asset (client : ImmichReadClient) (server : NegotiatedServer) (max_bytes : Z)
    (hashes : gmap string string) (asset : RemoteMigrationAsset) :
    prog W ExecutorError (gmap string string) :=
  digest ← verify_original client server asset max_bytes;
  mret (<[rma_asset_id asset := digest]> hashes).

(** [.map_err(map_client_error)] on a reading that may panic, and [?] *)
Definition of_client {A} (m : prog W (fault ClientError) A) : prog W (fault ExecutorError) A := λ w,
  match m w with
  | Some (r, w) =>
    Some (map_err (λ f, match f with Fail e => Fail (map_client_error e) | Panic => Panic end) r, w)
  | None => None
  end.
Definition may_fail {A} (m : prog W ExecutorError A) : prog W (fault ExecutorError) A := λ w,
  match m w with Some (r, w) => Some (map_err Fail r, w) | None => None end.

(** [try_fold(0, |total, asset| total.checked_add(asset.byte_len))] *)
Fixpoint declared_total (total : Z) (assets : list RemoteMigrationAsset) : option Z :=
  match assets with
  | [] => Some total
  | asset :: assets => total ← checked_add total (rma_byte_len asset); declared_total total assets
  end.

Definition create_migration_plan (source_client : ImmichReadClient)
    (source_server destination_server : NegotiatedServer) (config : MigrationPlanningConfig) :
    prog W (fault ExecutorError) MigrationPlan :=
  config ← run_lift (map_err Fail (planning_validate config));
  let source := migration_server source_server in
  let destination := migration_server destination_server in
  _ ← run_lift (fail_if (String.eqb (ms_origin_sha256 source) (ms_origin_sha256 destination)
        || String.eqb (identity_sha256 (ms_compatibility source))
             (identity_sha256 (ms_compatibility destination))) (Fail invalid_configuration));
  inventory ← of_client (migration_inventory source_client source_server (mpc_inventory config));
  declared_total ← run_lift (ok_or (declared_total 0 (rmi_assets inventory)) (Fail invalid_configuration));
  _ ← run_lift (fail_if ((mpc_max_total_bytes config <? declared_total)
        || existsb (λ asset, mpc_max_asset_bytes config <? rma_byte_len asset) (rmi_assets inventory))
        (Fail invalid_configuration));
  hashes ← may_fail (prog_for_each
    (hash_asset source_client source_server (mpc_max_asset_bytes config)) (rmi_assets inventory) ∅);
  run_lift (map_err Fail (assemble_migration_plan inventory source destination hashes config)).
End create.
