(* ===== verification/MigrationPlanningTheorems.v ===== *)
(** * MigrationPlanningTheorems: what a migration plan promises

    The assembled plan says of every asset of the inventory exactly what the server
    said, with the digest of the bytes that were downloaded; assembling the same
    inventory again with the plan's own digests gives the same plan. *)
From Stdlib Require Import Ascii.
From stdpp Require Import strings gmap.
From S2P Require Import ReconcileTheorems.
From S2P Require Export InventoryTheorems MigrationPlanning.

(** ** Maps of known size *)

Lemma size_list_to_set_le (l : list string) : (size (list_to_set l : gset string) <= length l)%nat.
Proof.
  induction l as [|x l IH]; [done|]. cbn [list_to_set length].
  pose proof (size_union_alt ({[x]} : gset string) (list_to_set l)) as Hs.
  rewrite size_singleton in Hs.
  assert (size ((list_to_set l : gset string) ∖ {[x]}) <= size (list_to_set l : gset string))%nat
    by (apply subseteq_size; set_solver). lia.
Qed.

Lemma size_list_to_set_NoDup (l : list string) :
  size (list_to_set l : gset string) = length l → NoDup l.
Proof.
  induction l as [|x l IH]; [constructor|]. cbn [list_to_set length]. intros Hs.
  pose proof (size_list_to_set_le l) as Hle.
  destruct (decide (x ∈ l)) as [Hx|Hx].
  - assert ({[x]} ∪ list_to_set l = (list_to_set l : gset string)) as Heq by set_solver.
    rewrite Heq in Hs. lia.
  - constructor; [done|]. apply IH. rewrite size_union, size_singleton in Hs by set_solver. lia.
Qed.

Lemma dom_collect_map {A V} (key : A → string) (val : A → V) l :
  dom (collect_map key val l) = (list_to_set (map key l) : gset string).
Proof.
  apply set_eq. intros k. rewrite elem_of_dom, elem_of_list_to_set, <-not_eq_None_Some, collect_map_None.
  destruct (decide (k ∈ map key l)); tauto.
Qed.

Lemma size_collect_map_NoDup {A V} (key : A → string) (val : A → V) l :
  size (collect_map key val l) = length l → NoDup (map key l).
Proof.
  intros Hs. apply size_list_to_set_NoDup. by rewrite <-(dom_collect_map key val), size_dom, length_map.
Qed.

(** ** Assembling *)
Section assemble.
  Context `{Codec, !MigrationCodec, TimeLib}.

(** What the plan says of an asset, apart from its role *)
Record same_facts (source : MigrationServer) (a : RemoteMigrationAsset) (m : MigrationAsset) : Prop := {
  sf_id : ma_source_asset_id m = rma_asset_id a;
  sf_operation : operation_id source a (ma_content_sha256 m) = Ok (ma_operation_id m);
  sf_name : ma_original_file_name m = rma_original_file_name a;
  sf_kind : ma_media_kind m = rma_media_kind a;
  sf_len : ma_byte_len m = rma_byte_len a;
  sf_sha1 : ma_checksum_sha1 m = rma_checksum_sha1 a;
  sf_created : ma_created_at_unix_ms m = rma_created_at_unix_ms a;
  sf_modified : ma_modified_at_unix_ms m = rma_modified_at_unix_ms a;
  sf_metadata : ma_normalized_metadata m = rma_normalized_metadata a;
}.

(** *** Live photos *)

Definition operation_of (ops : gmap string string) (id : string) : string := default "" (ops !! id).

(** The role an asset must have: an image that links a video, a video that an image
    links, or neither *)
Definition role_exact (ops : gmap string string) (assets : list RemoteMigrationAsset)
    (a : RemoteMigrationAsset) (role : UploadRole) : Prop :=
  match rma_live_photo_video_id a with
  | Some v => role = LivePhotoImage (pair_id (rma_asset_id a) v) (operation_of ops v)
              ∧ rma_media_kind a = Media_Image
              ∧ ∃ video, video ∈ assets ∧ rma_asset_id video = v ∧ rma_media_kind video = Media_Video
                         ∧ rma_live_photo_video_id video = None
  | None => (∃ i, i ∈ assets ∧ rma_live_photo_video_id i = Some (rma_asset_id a)
                  ∧ role = LivePhotoVideo (pair_id (rma_asset_id i) (rma_asset_id a)))
            ∨ ((∀ i, i ∈ assets → rma_live_photo_video_id i ≠ Some (rma_asset_id a))
               ∧ role = Standalone)
  end.

Section roles.
  Context (ops : gmap string string) (assets : list RemoteMigrationAsset).
  Context (distinct : NoDup (map rma_asset_id assets)).
Notation by_id := (collect_map rma_asset_id id assets).
Notation base := (collect_map rma_asset_id (λ _, Standalone) assets).

Lemma by_id_Some k a : by_id !! k = Some a ↔ a ∈ assets ∧ rma_asset_id a = k.
Proof. rewrite collect_map_Some by done. unfold id. naive_solver. Qed.

Lemma same_id a b : a ∈ assets → b ∈ assets → rma_asset_id a = rma_asset_id b → a = b.
Proof.
  intros Ha Hb Heq. assert (by_id !! rma_asset_id a = Some a) as Hfirst by by apply by_id_Some.
  assert (by_id !! rma_asset_id a = Some b) as Hsecond by by apply by_id_Some. congruence.
Qed.

(** After the images [done] *)
Record roles_so_far (seen : list RemoteMigrationAsset) (state : Roles) : Prop := {
  rf_done i : i ∈ seen → i ∈ assets ∧ ∃ v, rma_live_photo_video_id i = Some v
    ∧ state.1 !! rma_asset_id i = Some (LivePhotoImage (pair_id (rma_asset_id i) v) (operation_of ops v))
    ∧ state.1 !! v = Some (LivePhotoVideo (pair_id (rma_asset_id i) v))
    ∧ state.2 !! v = Some (rma_asset_id i) ∧ rma_media_kind i = Media_Image
    ∧ ∃ video, video ∈ assets ∧ rma_asset_id video = v ∧ rma_media_kind video = Media_Video
               ∧ rma_live_photo_video_id video = None;
  rf_rest k : (∀ i, i ∈ seen → rma_asset_id i ≠ k ∧ rma_live_photo_video_id i ≠ Some k) →
    state.1 !! k = base !! k;
  rf_owners v : is_Some (state.2 !! v) → ∃ i, i ∈ seen ∧ rma_live_photo_video_id i = Some v;
}.

Lemma pair_image_step seen state image state' :
  image ∈ assets → image ∉ seen → roles_so_far seen state → pair_image by_id ops state image = Ok state' →
  roles_so_far (seen ++ [image]) state'.
Proof.
  intros Hin Hnew Hs Hp. destruct state as [roles owners]. unfold pair_image in Hp.
  apply bind_Ok in Hp as (v & Hv%ok_or_Ok & Hp). apply bind_Ok in Hp as (video & Hvideo%ok_or_Ok & Hp).
  apply bind_fail_if_Ok in Hp as [Hc Hp]. apply bind_Ok in Hp as (op & Hop%ok_or_Ok & [= <-]).
  rewrite !orb_false_iff, !negb_false_iff, !bool_decide_eq_true in Hc. destruct Hc as [[[Hki Hkv] Hnone] Hfree].
  apply by_id_Some in Hvideo as [Hvin Hvid].
  assert (rma_live_photo_video_id video = None) as Hvn by by destruct (rma_live_photo_video_id video).
  assert (owners !! v = None) as Hvfree by by destruct (owners !! v).
  assert (rma_asset_id image ≠ v) as Hne.
  { intros He. assert (image = video) as -> by (apply same_id; congruence). congruence. }
  destruct Hs as [Hdone Hrest Howners]. cbn [fst snd] in *.
  split; cbn [fst snd].
  - intros i [Hi| ->%list_elem_of_singleton]%elem_of_app.
    + destruct (Hdone i Hi) as (Hia & vi & Hvi & Hri & Hrv & Hov & Hk & Hvi').
      split; [done|]. exists vi. split; [done|].
      assert (vi ≠ v) by (intros ->; congruence).
      assert (rma_asset_id i ≠ v).
      { intros He. assert (i = video) as -> by (apply same_id; congruence). congruence. }
      assert (rma_asset_id i ≠ rma_asset_id image).
      { intros He. apply Hnew. assert (i = image) as <- by (apply same_id; congruence). done. }
      assert (vi ≠ rma_asset_id image).
      { intros ->. destruct Hvi' as (x & Hx & Hxi & _ & Hxn).
        assert (x = image) as -> by (apply same_id; congruence). congruence. }
      rewrite !lookup_insert_ne by done. by split_and!.
    + split; [done|]. exists v. split; [done|]. rewrite lookup_insert_ne, !lookup_insert_eq by done.
      unfold operation_of. rewrite Hop. split_and!; try done. by exists video.
  - intros k Hk. destruct (Hk image) as [Hk1 Hk2]; [set_solver|].
    rewrite !lookup_insert_ne by congruence. apply Hrest. intros i Hi. apply Hk. set_solver.
  - intros w Hw. destruct (decide (w = v)) as [->|Hwv].
    + exists image. split; [set_solver|done].
    + rewrite lookup_insert_ne in Hw by done. destruct (Howners w Hw) as (i & Hi & ?).
      exists i. split; [set_solver|done].
Qed.

Lemma pair_images l : ∀ seen state state',
  NoDup (seen ++ l) → l ⊆ assets → roles_so_far seen state →
  for_each (pair_image by_id ops) l state = Ok state' → roles_so_far (seen ++ l) state'.
Proof.
  induction l as [|i l IH]; intros seen state state' Hn Hl Hs Hf; cbn [for_each] in Hf.
  - injection Hf as <-. by rewrite app_nil_r.
  - apply bind_Ok in Hf as (state1 & Hp & Hf). rewrite cons_middle, app_assoc in *.
    eapply IH in Hf; [done|done|set_solver|]. eapply pair_image_step; [|..|done|done]; [set_solver|].
    rewrite <-app_assoc in Hn. apply NoDup_app in Hn as (_ & Hn & _). intros Hi. apply (Hn i Hi). set_solver.
Qed.

Lemma live_photo_roles_exact roles a :
  live_photo_roles assets ops = Ok roles → a ∈ assets →
  ∃ role, roles !! rma_asset_id a = Some role ∧ role_exact ops assets a role.
Proof.
  intros Hr Ha. unfold live_photo_roles in Hr. apply bind_Ok in Hr as ([roles' owners] & Hf & [= ->]).
  set (images := List.filter _ assets) in Hf.
  assert (∀ i, i ∈ images ↔ i ∈ assets ∧ is_some (rma_live_photo_video_id i) = true) as Hi.
  { intros i. unfold images. by rewrite !list_elem_of_In, filter_In. }
  assert (NoDup images) as Hn.
  { apply NoDup_ListNoDup, List.NoDup_filter, NoDup_ListNoDup. by eapply NoDup_fmap_1. }
  apply (pair_images images []) in Hf; [|done|set_solver|].
  2: { split; cbn [fst snd]; [set_solver|done|]. intros v [x Hx]. by rewrite lookup_empty in Hx. }
  destruct Hf as [Hdone Hrest _]. cbn [fst snd app] in *.
  destruct (rma_live_photo_video_id a) as [v|] eqn:Hv.
  - destruct (Hdone a) as (_ & v' & Hv' & Hr & _ & _ & Hk & Hvid); [apply Hi; by rewrite Hv|].
    rewrite Hv in Hv'. injection Hv' as <-. eexists. split; [exact Hr|]. unfold role_exact. by rewrite Hv.
  - destruct (decide (Exists (λ i, rma_live_photo_video_id i = Some (rma_asset_id a)) assets)) as [He|He].
    + apply Exists_exists in He as (i & Hin & Hiv).
      destruct (Hdone i) as (_ & v & Hv' & _ & Hr & _); [apply Hi; by rewrite Hiv|].
      rewrite Hiv in Hv'. injection Hv' as <-. eexists. split; [exact Hr|].
      unfold role_exact. rewrite Hv. left. by exists i.
    + assert (∀ i, i ∈ assets → rma_live_photo_video_id i ≠ Some (rma_asset_id a)) as Hno.
      { intros i Hin Hiv. apply He, Exists_exists. by exists i. }
      exists Standalone. split; [|unfold role_exact; rewrite Hv; by right].
      rewrite Hrest.
      * apply collect_map_Some; [done|]. by exists a.
      * intros i [Hin Hsome]%Hi. split; [|by apply Hno]. intros Heq.
        assert (i = a) as -> by by apply same_id. by rewrite Hv in Hsome.
Qed.
End roles.

(** *** The whole plan *)

(** The operation of every source asset *)
Definition plan_operations (plan : MigrationPlan) : gmap string string :=
  collect_map ma_source_asset_id ma_operation_id (mp_assets plan).
(** The digest of every source asset, as a run reads it from the plan *)
Definition plan_hashes (plan : MigrationPlan) : gmap string string :=
  collect_map ma_source_asset_id ma_content_sha256 (mp_assets plan).

Definition album_exact (ops : gmap string string) (a : RemoteOwnedAlbum) (m : MigrationAlbum) : Prop :=
  mal_name m = roa_name a ∧
  ∀ op, op ∈ mal_member_operation_ids m ↔ ∃ id, id ∈ roa_asset_ids a ∧ ops !! id = Some op.

Record plan_of (inventory : RemoteMigrationInventory) (source destination : MigrationServer)
    (hashes : gmap string string) (config : MigrationPlanningConfig) (plan : MigrationPlan) : Prop := {
  po_valid : Migration.validate plan = Ok tt;
  po_source : mp_source_server plan = source;
  po_destination : mp_destination_server plan = destination;
  po_configuration : planning_identity config = Ok (mp_configuration_sha256 plan);
  po_fingerprint :
    source_fingerprint source (mp_assets plan) (mp_albums plan) = Ok (mp_source_fingerprint_sha256 plan);
  po_assets : Forall2 (same_facts source) (rmi_assets inventory) (mp_assets plan);
  po_roles : Forall2 (λ a m, role_exact (plan_operations plan) (rmi_assets inventory) a (ma_role m))
    (rmi_assets inventory) (mp_assets plan);
  po_hashes : plan_hashes plan = hashes;
  po_albums : ∃ albums, mp_albums plan ≡ₚ albums
    ∧ Forall2 (album_exact (plan_operations plan)) (rmi_albums inventory) albums;
}.

Lemma planning_validate_Ok c c' : planning_validate c = Ok c' → c' = c.
Proof.
  unfold planning_validate. intros (u & _ & Hc)%bind_Ok. by destruct (_ && _) in Hc; [injection Hc|].
Qed.

Lemma Forall2_map_eq {A B C} (f : A → C) (g : B → C) l k :
  Forall2 (λ a b, g b = f a) l k → map g k = map f l.
Proof. induction 1 as [|a b l k Hab _ IH]; [done|]. simpl. by rewrite Hab, IH. Qed.

Lemma plan_album_exact ops a m : plan_album ops a = Ok m → album_exact ops a m.
Proof.
  unfold plan_album. intros (members & Hm%try_map_Ok & [= <-])%bind_Ok. split; [done|]. cbn.
  intros op. rewrite elem_of_sort_dedup. split.
  - intros (i & Hi)%list_elem_of_lookup. destruct (Forall2_lookup_r _ _ _ _ _ Hm Hi) as (id & Hid & Hop).
    apply ok_or_Ok in Hop. exists id. split; [by eapply list_elem_of_lookup_2|done].
  - intros (id & (i & Hi)%list_elem_of_lookup & Hop).
    destruct (Forall2_lookup_l _ _ _ _ _ Hm Hi) as (op' & Hop' & Heq%ok_or_Ok).
    apply list_elem_of_lookup_2 with i. congruence.
Qed.

(** A map with the entries of distinct assets is determined by the facts of the plan. *)
Lemma collect_unique {A} (key val : A → string) l (m : gmap string string) :
  NoDup (map key l) → size m = length l → (∀ x, x ∈ l → m !! key x = Some (val x)) →
  collect_map key val l = m.
Proof.
  intros Hn Hs Hm. assert (collect_map key val l ⊆ m) as Hsub.
  { apply map_subseteq_spec. intros k v (x & Hx & <- & <-)%collect_map_Some; [|done]. by apply Hm. }
  apply map_subseteq_size_eq; [done|]. rewrite <-(size_dom (D := gset string) (collect_map _ _ _)).
  rewrite dom_collect_map, size_list_to_set, length_map by done. lia.
Qed.

Lemma assemble_plan_of inventory source destination hashes config plan :
  assemble_migration_plan inventory source destination hashes config = Ok plan →
  plan_of inventory source destination hashes config plan.
Proof.
  unfold assemble_migration_plan.
  intros (c & ->%planning_validate_Ok & (entries & Hentries%try_map_Ok & ([Hops Hhashes]%orb_false_iff &
    (roles & Hroles & (assets & Hassets%try_map_Ok & (albums & Halbums & (fp & Hfp & (conf & Hconf &
    ([] & Hvalid%map_err_Ok & [= <-])%bind_Ok)%bind_Ok)%bind_Ok)%bind_Ok)%bind_Ok)%bind_Ok)
    %bind_fail_if_Ok)%bind_Ok)%bind_Ok.
  apply negb_false_iff, Z.eqb_eq in Hops, Hhashes. unfold zlen in Hops, Hhashes. apply Nat2Z.inj in Hops, Hhashes.
  assert (Forall2 (λ a (e : string * string), e.1 = rma_asset_id a
      ∧ ∃ body, hashes !! rma_asset_id a = Some body ∧ operation_id source a body = Ok e.2)
    (rmi_assets inventory) entries) as Hent.
  { eapply Forall2_impl; [exact Hentries|]. intros a e. unfold operation_entry.
    intros (body & Hb%ok_or_Ok & (i & Hi & [= <-])%bind_Ok)%bind_Ok. split; [done|]. by exists body. }
  assert (map fst entries = map rma_asset_id (rmi_assets inventory)) as Hkeys.
  { apply Forall2_map_eq. eapply Forall2_impl; [exact Hent|]. by intros a e []. }
  assert (length entries = length (rmi_assets inventory)) as Hlen by by (symmetry; eapply Forall2_length).
  assert (NoDup (map rma_asset_id (rmi_assets inventory))) as Hn.
  { rewrite <-Hkeys. eapply size_collect_map_NoDup with (val := snd). by rewrite Hops. }
  set (ops := collect_map fst snd entries) in *.
  assert (Forall2 (λ a m, same_facts source a m ∧ ops !! rma_asset_id a = Some (ma_operation_id m)
      ∧ hashes !! rma_asset_id a = Some (ma_content_sha256 m)
      ∧ roles !! rma_asset_id a = Some (ma_role m)) (rmi_assets inventory) assets) as Hall.
  { apply Forall2_same_length_lookup. split; [by eapply Forall2_length|]. intros i a m Hi Hm.
    pose proof (Forall2_lookup_lr _ _ _ _ _ _ Hassets Hi Hm) as Ha. revert Ha. unfold plan_asset.
    intros (op & Hop%ok_or_Ok & (content & Hcontent%ok_or_Ok & (role & Hrole%ok_or_Ok & [= <-])%bind_Ok)%bind_Ok)
      %bind_Ok. split; [|done]. split; try done. cbn.
    destruct (Forall2_lookup_l _ _ _ _ _ Hent Hi) as ([k o] & He & Hk & body & Hbody & Hid). cbn in Hk, Hid.
    rewrite Hcontent in Hbody. injection Hbody as <-.
    assert (ops !! k = Some o) as Hko.
    { apply collect_map_Some; [by rewrite Hkeys|]. exists (k, o). split; [by eapply list_elem_of_lookup_2|done]. }
    congruence. }
  assert (map ma_source_asset_id assets = map rma_asset_id (rmi_assets inventory)) as Hsources.
  { apply Forall2_map_eq. eapply Forall2_impl; [exact Hall|]. intros a m [Hf _]. by rewrite (sf_id _ _ _ Hf). }
  assert (length assets = length (rmi_assets inventory)) as Hlen' by by (symmetry; eapply Forall2_length).
  assert (∀ m, m ∈ assets → ops !! ma_source_asset_id m = Some (ma_operation_id m)
    ∧ hashes !! ma_source_asset_id m = Some (ma_content_sha256 m)) as Hm.
  { intros m (i & Hi)%list_elem_of_lookup.
    destruct (Forall2_lookup_r _ _ _ _ _ Hall Hi) as (a & _ & Hf & Ho & Hh & _).
    by rewrite (sf_id _ _ _ Hf). }
  assert (collect_map ma_source_asset_id ma_operation_id assets = ops) as Hplan_ops.
  { apply collect_unique; [by rewrite Hsources|lia|]. intros m Hin. by apply Hm. }
  split; cbn [mp_source_server mp_destination_server mp_configuration_sha256 mp_source_fingerprint_sha256 mp_assets mp_albums]; try done.
  - eapply Forall2_impl; [exact Hall|]. by intros a m [].
  - unfold plan_operations. cbn [mp_assets]. rewrite Hplan_ops. apply Forall2_same_length_lookup.
    split; [lia|]. intros i a m Hi Him.
    destruct (Forall2_lookup_lr _ _ _ _ _ _ Hall Hi Him) as (_ & _ & _ & Hrole).
    destruct (live_photo_roles_exact ops (rmi_assets inventory) Hn roles a Hroles) as (role & Hr & Hex);
      [by eapply list_elem_of_lookup_2|]. congruence.
  - unfold plan_hashes. cbn [mp_assets]. apply collect_unique; [by rewrite Hsources|lia|]. intros m Hin. by apply Hm.
  - unfold migration_albums in Halbums.
    apply bind_Ok in Halbums as (planned & Hplanned%try_map_Ok & [= <-]).
    exists planned. split; [apply sort_by_perm|]. unfold plan_operations. cbn [mp_assets]. rewrite Hplan_ops.
    eapply Forall2_impl; [exact Hplanned|]. intros a m. apply plan_album_exact.
Qed.

Lemma assemble_again inventory source destination hashes config plan :
  assemble_migration_plan inventory source destination hashes config = Ok plan →
  assemble_migration_plan inventory (mp_source_server plan) (mp_destination_server plan)
    (plan_hashes plan) config = Ok plan.
Proof.
  intros Hp. pose proof (assemble_plan_of _ _ _ _ _ _ Hp) as [_ -> -> _ _ _ _ -> _]. exact Hp.
Qed.
End assemble.

(** ** Planning *)
Section create.
  Context {W : Type} `{UrlLib, TlsLib, Codec, TimeLib, Cancellation W, !ReadTransport W,
    !InventoryTransport W, !ArchiveCodec, !MigrationCodec, !DestinationFs W}.

Lemma next_chunk_shorter download (w : W) chunk rest w' :
  next_chunk download w = (Ok (Some chunk, rest), w') →
  (length (hr_chunks rest) < length (hr_chunks download))%nat.
Proof.
  unfold next_chunk. destruct (chunk_arrives w) as [[] w1]; [|done].
  destruct (hr_chunks download) as [|[c|e] l]; [done| |done]. intros [= _ <- _]. simpl. lia.
Qed.

(** The chunks of a body, up to its end *)
Inductive body_read : HttpResponse → W → string → W → Prop :=
  | body_end download w rest w' :
      next_chunk download w = (Ok (None, rest), w') → body_read download w "" w'
  | body_chunk download w chunk rest w1 content w' :
      next_chunk download w = (Ok (Some chunk, rest), w1) → body_read rest w1 content w' →
      body_read download w (chunk +:+ content) w'.

(** The originals, downloaded one after the other and read to the end *)
Inductive originals_read client server : W → list RemoteMigrationAsset → list string → W → Prop :=
  | originals_none w : originals_read client server w [] [] w
  | originals_more w a download w1 content w2 assets contents w' :
      download_original client server (rma_asset_id a) w = (Ok download, w1) →
      body_read download w1 content w2 →
      originals_read client server w2 assets contents w' →
      originals_read client server w (a :: assets) (content :: contents) w'.

Lemma hash_original_runs fuel byte_len max_bytes download n content :
  (length (hr_chunks download) < fuel)%nat → n = len content → len content <= max_bytes →
  runs (hash_original fuel byte_len max_bytes download n content : prog W ExecutorError (Z * string))
    (λ w r w', ∀ n c, r = Ok (n, c) → n = len c ∧ len c <= max_bytes
       ∧ ∃ rest, c = content +:+ rest ∧ body_read download w rest w').
Proof.
  revert download n content. induction fuel as [|fuel IH]; intros download n content Hf Hn Hmax w; [lia|].
  cbn [hash_original]. unfold mbind at 1, prog_bind, run_io, io_map_err.
  destruct (next_chunk download w) as [[[[chunk|] rest]|e] w1] eqn:Hnext; cbn [map_err].
  - pose proof Hnext as Hshort%next_chunk_shorter. unfold mbind, run_lift.
    destruct (checked_add n (len chunk)) as [n'|] eqn:Ha; cbn [ok_or]; [|by eexists _, _].
    apply checked_add_Some in Ha as [-> _].
    destruct (_ || _) eqn:Hb; cbn [fail_if]; [by eexists _, _|]. bools.
    destruct (IH rest (n + len chunk) (content +:+ chunk)) with w1 as (r & w' & Hr & Hok);
      [lia|rewrite ?len_app; lia..|].
    exists r, w'. split; [exact Hr|]. intros m c Hc. destruct (Hok m c Hc) as (? & ? & more & -> & Hread).
    split_and!; [done|done|]. exists (chunk +:+ more). split; [by rewrite str_app_assoc|by eapply body_chunk].
  - eexists _, _. split; [done|]. intros ?? [= <- <-]. split_and!; [done..|]. exists "".
    split; [by rewrite str_app_nil_r|by eapply body_end].
  - by eexists _, _.
Qed.

(** The bytes of an original are those the source declared. *)
Definition declared (a : RemoteMigrationAsset) (max_bytes : Z) (content : string) : Prop :=
  len content = rma_byte_len a ∧ len content <= max_bytes ∧ hex (sha1 content) = rma_checksum_sha1 a.

Lemma verify_original_runs client server asset max_bytes :
  0 <= max_bytes →
  runs (verify_original client server asset max_bytes : prog W ExecutorError string)
    (λ w r w', ∀ digest, r = Ok digest → ∃ content download w1,
       download_original client server (rma_asset_id asset) w = (Ok download, w1)
       ∧ body_read download w1 content w' ∧ declared asset max_bytes content
       ∧ digest = sha256_hex content).
Proof.
  intros Hmax w. unfold verify_original, mbind, prog_bind, run_io, run_lift, io_map_err.
  destruct (download_original client server (rma_asset_id asset) w) as [[download|e] w1] eqn:Hd; cbn [map_err];
    [|by eexists _, _].
  destruct (is_some_and _ _); cbn [fail_if]; [by eexists _, _|].
  destruct (hash_original_runs (S (length (hr_chunks download))) (rma_byte_len asset) max_bytes download 0 "")
    with w1 as (r & w2 & -> & Hok); [lia|done|done|].
  destruct r as [[n content]|e]; [|by eexists _, _].
  destruct (Hok n content eq_refl) as (-> & Hle & rest & -> & Hread).
  change ("" +:+ rest) with rest in *.
  destruct (_ || _) eqn:Hb; cbn [fail_if]; [by eexists _, _|]. bools.
  eexists _, _. split; [done|]. intros digest [= <-]. exists rest, download, w1. unfold declared.
  split_and!; [done|done|lia|done| |done]. by apply String.eqb_eq.
Qed.

Lemma originals_read_snoc client server w seen contents w1 a download w2 content w' :
  originals_read client server w seen contents w1 →
  download_original client server (rma_asset_id a) w1 = (Ok download, w2) → body_read download w2 content w' →
  originals_read client server w (seen ++ [a]) (contents ++ [content]) w'.
Proof.
  induction 1 as [w|w b d wa c wb assets contents wc Hd Hb _ IH]; intros Ha Hc; cbn.
  - eapply originals_more; [exact Ha|exact Hc|constructor].
  - eapply originals_more; [exact Hd|exact Hb|by apply IH].
Qed.

(** After the originals of [seen]: their digests are known. *)
Definition hashed client server (max_bytes : Z) (w0 : W) (seen : list RemoteMigrationAsset)
    (hashes : gmap string string) (w : W) : Prop :=
  ∃ contents, originals_read client server w0 seen contents w
    ∧ Forall2 (λ a content, declared a max_bytes content
        ∧ hashes !! rma_asset_id a = Some (sha256_hex content)) seen contents.

Lemma hash_assets_runs client server max_bytes w0 l : ∀ seen hashes w,
  0 <= max_bytes → NoDup (map rma_asset_id (seen ++ l)) → hashed client server max_bytes w0 seen hashes w →
  ∃ r w', (prog_for_each (hash_asset client server max_bytes) l hashes : prog W ExecutorError _) w = Some (r, w')
    ∧ ∀ hashes', r = Ok hashes' → hashed client server max_bytes w0 (seen ++ l) hashes' w'.
Proof.
  induction l as [|a l IH]; intros seen hashes w Hmax Hn Hs; cbn [prog_for_each].
  - eexists _, _. split; [done|]. intros ? [= <-]. by rewrite app_nil_r.
  - unfold mbind, prog_bind, hash_asset at 1. unfold mbind, prog_bind.
    destruct (verify_original_runs client server a max_bytes Hmax w) as ([digest|e] & w1 & -> & Hd);
      [|by eexists _, _].
    destruct (Hd _ eq_refl) as (content & download & w2 & Hdown & Hbody & Hdecl & ->).
    rewrite cons_middle, app_assoc in *. cbn [mret prog_ret].
    apply IH; [done|done|]. destruct Hs as (contents & Hread & Hall).
    exists (contents ++ [content]). split; [by eapply originals_read_snoc|].
    rewrite !map_app in Hn. apply NoDup_app in Hn as (Hn & _ & _). apply NoDup_app in Hn as (_ & Hn & _).
    apply Forall2_app; [|constructor; [|constructor]; by rewrite lookup_insert_eq].
    apply Forall2_same_length_lookup. split; [by eapply Forall2_length|]. intros i b c Hb Hc.
    destruct (Forall2_lookup_lr _ _ _ _ _ _ Hall Hb Hc) as [Hbc Hbh]. split; [done|].
    rewrite lookup_insert_ne; [done|]. intros He. apply (Hn (rma_asset_id b)); [|rewrite <- He; set_solver].
    apply list_elem_of_fmap_2. by eapply list_elem_of_lookup_2.
Qed.

Lemma declared_total_Some assets total n :
  declared_total total assets = Some n → n = total + foldr Z.add 0 (map rma_byte_len assets).
Proof.
  revert total. induction assets as [|a l IH]; intros total; cbn [declared_total map foldr].
  - intros [= <-]. lia.
  - intros (t & [-> _]%checked_add_Some & Hr)%bind_Some. apply IH in Hr as ->. lia.
Qed.

(** What a plan that was just made promises *)
Record verified_plan client (source destination : NegotiatedServer) (config : MigrationPlanningConfig)
    (w : W) (plan : MigrationPlan) (w' : W) : Prop := {
  (** the inventory that was read, and then the originals of its assets *)
  vp_made : ∃ inventory w1 hashes contents,
    migration_inventory client source (mpc_inventory config) w = Some (Ok inventory, w1)
    ∧ plan_of inventory (migration_server source) (migration_server destination) hashes config plan
    ∧ originals_read client source w1 (rmi_assets inventory) contents w'
    ∧ Forall2 (λ m content, len content = ma_byte_len m
        ∧ hex (sha1 content) = ma_checksum_sha1 m ∧ sha256_hex content = ma_content_sha256 m)
      (mp_assets plan) contents;
  vp_servers : ms_origin_sha256 (mp_source_server plan) ≠ ms_origin_sha256 (mp_destination_server plan)
    ∧ identity_sha256 (ms_compatibility (mp_source_server plan))
      ≠ identity_sha256 (ms_compatibility (mp_destination_server plan));
  vp_asset_bound : Forall (λ m, ma_byte_len m <= mpc_max_asset_bytes config) (mp_assets plan);
  vp_total_bound : foldr Z.add 0 (map ma_byte_len (mp_assets plan)) <= mpc_max_total_bytes config;
}.

Lemma same_lengths source assets planned :
  Forall2 (same_facts source) assets planned → map ma_byte_len planned = map rma_byte_len assets.
Proof. intros Hf. apply Forall2_map_eq. eapply Forall2_impl; [exact Hf|]. by intros a m []. Qed.

(** C21: planning a migration never loops, whatever the source answers.  A plan that is
    returned is valid and is for two different servers; it says of every asset of the
    inventory that was read exactly what the inventory says, once and in its order,
    metadata and dates included, with the live photo pairs and the albums of the inventory;
    then the original of every asset was downloaded, one after the other and to its end, and
    the length, the SHA-1 and the SHA-256 digest in the plan are those of the bytes that
    arrived; and the limits on one asset and on all are kept. *)
Theorem migration_plan_verified client source destination config w :
  ∃ r w', create_migration_plan client source destination config w = Some (r, w')
    ∧ ∀ plan, r = Ok plan → verified_plan client source destination config w plan w'.
Proof.
  unfold create_migration_plan, mbind, prog_bind, run_lift.
  destruct (planning_validate config) as [c|e] eqn:Hc; cbn [map_err]; [|by eexists _, _].
  assert (c = config ∧ 0 < mpc_max_asset_bytes config) as [-> Hpos].
  { split; [by apply planning_validate_Ok|]. unfold planning_validate in Hc.
    apply bind_Ok in Hc as (? & _ & Hc). destruct (_ && _) eqn:Hb in Hc; [|done]. bools. done. }
  destruct (_ || _) eqn:Hservers; cbn [fail_if]; [by eexists _, _|].
  unfold of_client.
  destruct (migration_inventory_runs client source (mpc_inventory config) w) as (r & w1 & Hread & Hinv).
  rewrite Hread. destruct r as [inventory|e]; cbn [map_err]; [|by eexists _, _]. specialize (Hinv _ eq_refl).
  destruct (declared_total 0 (rmi_assets inventory)) as [total|] eqn:Htotal; cbn [ok_or]; [|by eexists _, _].
  apply declared_total_Some in Htotal as ->. rewrite Z.add_0_l.
  destruct (_ || existsb _ _) eqn:Hbounds; cbn [fail_if]; [by eexists _, _|].
  unfold may_fail.
  assert (NoDup (map rma_asset_id (rmi_assets inventory))) as Hn.
  { eapply StronglySorted_NoDup, (io_sorted _ _ _ _ _ _ Hinv); apply _. }
  destruct (hash_assets_runs client source (mpc_max_asset_bytes config) w1 (rmi_assets inventory) [] ∅ w1)
    as (r & w2 & -> & Hhashes); [lia|done|by exists []; split; constructor|].
  destruct r as [hashes|e]; cbn [map_err]; [|by eexists _, _]. specialize (Hhashes _ eq_refl). cbn [app] in Hhashes.
  eexists _, _. split; [done|]. intros plan Hplan%map_err_Ok. apply assemble_plan_of in Hplan.
  apply orb_false_iff in Hservers as [Ho%String.eqb_neq Hi%String.eqb_neq].
  apply orb_false_iff in Hbounds as [Htotal%Z.ltb_ge Hasset].
  rewrite existsb_false in Hasset.
  pose proof (po_assets _ _ _ _ _ _ Hplan) as Hfacts.
  split.
  - destruct Hhashes as (contents & Horiginals & Hall). exists inventory, w1, hashes, contents.
    split_and!; [done|done|done|]. pose proof (po_hashes _ _ _ _ _ _ Hplan) as Hh.
    apply Forall2_same_length_lookup.
    split; [by rewrite <- (Forall2_length _ _ _ Hfacts), (Forall2_length _ _ _ Hall)|].
    intros i m content Hm Hcontent.
    destruct (Forall2_lookup_r _ _ _ _ _ Hfacts Hm) as (a & Ha & Hsame).
    destruct (Forall2_lookup_lr _ _ _ _ _ _ Hall Ha Hcontent) as [(Hl & _ & Hs1) Hd].
    rewrite (sf_len _ _ _ Hsame), (sf_sha1 _ _ _ Hsame). split_and!; [done|done|].
    assert (plan_hashes plan !! rma_asset_id a = Some (ma_content_sha256 m)) as Hm'; [|congruence].
    unfold plan_hashes. apply collect_map_Some.
    + erewrite (Forall2_map_eq rma_asset_id ma_source_asset_id); [exact Hn|].
      eapply Forall2_impl; [exact Hfacts|]. by intros ?? [].
    + exists m. split_and!; [by eapply list_elem_of_lookup_2|by rewrite (sf_id _ _ _ Hsame)|done].
  - rewrite (po_source _ _ _ _ _ _ Hplan), (po_destination _ _ _ _ _ _ Hplan). done.
  - apply Forall_forall. intros m (i & Hm)%list_elem_of_lookup.
    destruct (Forall2_lookup_r _ _ _ _ _ Hfacts Hm) as (a & Ha & Hsame).
    rewrite (sf_len _ _ _ Hsame). eapply list_elem_of_lookup_2, (proj1 (Forall_forall _ _) Hasset) in Ha. lia.
  - by rewrite (same_lengths _ _ _ Hfacts).
Qed.
End create.

(** ** A concrete plan *)
Section witnesses.
#[local] Existing Instances checksum_codec sample_time sample_url sample_tls scripted_reads
  scripted_inventory.

#[local] Instance script_archive : ArchiveCodec := {|
  json_archive_planning _ := None; json_archive_manifest _ := None;
  sha1 content := twenty (String.substring 0 1 content);
|}.
#[local] Instance script_migration : MigrationCodec := {|
  json_metadata m := Some (if bool_decide (m = None) then "null" else "{}");
  json_migration_source _ assets albums := Some (display_u64 (zlen assets));
|}.
#[local] Instance script_lengths : DestinationFs (list HttpResponse) := {|
  node_metadata _ w := (Err IoErrorKind.Other, w); fs_create_dir _ w := (Err IoErrorKind.Other, w);
  fs_remove_file _ w := (Err IoErrorKind.Other, w); fs_rename _ _ w := (Err IoErrorKind.Other, w);
  fs_create_new _ w := (Err IoErrorKind.Other, w); fs_write_all _ _ w := (Err IoErrorKind.Other, w);
  fs_sync_all _ w := (Err IoErrorKind.Other, w); fs_open _ w := (Err IoErrorKind.Other, w);
  fs_read _ w := (Err IoErrorKind.Other, w);
  content_length _ := None;
|}.

Definition probed (answers : list HttpResponse) : NegotiatedServer :=
  match probe reader answers with
  | (Ok n, _) => n
  | _ => {| ns_compatibility := sample_server; ns_origin_sha256 := "" |}
  end.
Definition old_server : NegotiatedServer := probed photo_answers.
Definition new_server : NegotiatedServer :=
  {| ns_compatibility := sample_server; ns_origin_sha256 := sample_origin |}.
Definition planning : MigrationPlanningConfig := {|
  mpc_inventory := migration_config; mpc_max_asset_bytes := 4; mpc_max_total_bytes := 12;
  mpc_upload := default_config |}.

(** The inventory, and the three originals *)
Definition planning_script : list HttpResponse :=
  inventory_script ++ [answer 200 ["a1"; "23"]; answer 200 ["b123"]; answer 200 ["c12"; "3"]].

Definition planned : option (result (fault ExecutorError) MigrationPlan) :=
  fst <$> create_migration_plan reader old_server new_server planning planning_script.
Definition tampered : option (result (fault ExecutorError) MigrationPlan) :=
  fst <$> create_migration_plan reader old_server new_server planning
    (inventory_script ++ [answer 200 ["a1"; "23"]; answer 200 ["B123"]]).

Definition sample_new_plan : MigrationPlan :=
  match planned with Some (Ok plan) => plan | _ => sample_migration_plan end.

(** The photo and its video are paired; a byte that changed stops the planning. *)
Example planned_roles :
  planned = Some (Ok sample_new_plan)
  ∧ map ma_source_asset_id (mp_assets sample_new_plan) = map sample_id ["a"; "b"; "c"]
  ∧ map (λ a, match ma_role a with Standalone => true | _ => false end) (mp_assets sample_new_plan) = [true; false; false]
  ∧ map mal_name (mp_albums sample_new_plan) = ["Lake"]
  ∧ tampered = Some (Err (Fail source_changed)).
Proof. repeat split; vm_compute; reflexivity. Qed.

Lemma migration_plan_verified_witness : ∃ plan w',
  create_migration_plan reader old_server new_server planning planning_script = Some (Ok plan, w')
  ∧ Forall (λ m, ma_byte_len m <= 4) (mp_assets plan).
Proof.
  destruct (migration_plan_verified reader old_server new_server planning planning_script)
    as ([plan|e] & w' & Hr & Hok).
  - destruct (Hok plan eq_refl) as [_ _ Hbound _]. exists plan, w'. exact (conj Hr Hbound).
  - exfalso. clear Hok. vm_compute in Hr. discriminate Hr.
Defined.
End witnesses.
