(* ===== verification/Staging.v ===== *)
(** * Staging: the private directory of a run, and the files of an import
    ([crates/immich-executor/src/import_staging_fs.rs], [import_staging.rs],
    [picasa_import.rs])

    Members of archives and originals of another server are written into a directory
    beside the checkpoint before they are uploaded; a file takes its final name only
    when its length and digests are those of the plan.  A directory left by an earlier
    run is removed first, but only when nothing but staged files is in it.  A file of a
    folder is uploaded where it lies; a member of an archive is checked, decoded into the
    directory and renamed when it is what the plan says: the implementation of the class
    [ImportApply.Staging]. *)
From Stdlib Require Import Ascii.
From stdpp Require Import strings gmap.
From S2P Require Export ImportApply MigrationPlanning ScanArchive.

(** ** [import_staging_fs.rs] *)

(** [fs::read_dir] (the names of the entries, each of which may fail) and [fs::remove_dir] *)
Class StagingFs (W : Type) := {
  fs_read_dir : string → io W IoErrorKind.t (list (result IoErrorKind.t string));
  fs_remove_dir : string → io W IoErrorKind.t unit;
}.

Definition valid_staging_name (name : string) : bool :=
  match split_once "." name with
  | None => false
  | Some (operation_id, suffix) =>
    (len operation_id =? 64)
    && forallb (λ byte, is_ascii_digit byte || ((97 <=? code byte) && (code byte <=? 102)))
         (bytes operation_id)
    && bool_decide (suffix ∈ ["media"; "media.tmp"; "xmp"; "xmp.tmp"])
  end.

Section staging_fs.
  Context {W : Type} `{!DestinationFs W, !StagingFs W}.
Notation call := (io W ExecutorError).

Definition remove_staged (root : string) (entry : result IoErrorKind.t string) : call unit :=
  name ← lift (map_err (λ _, destination_error) entry);
  _ ← lift (fail_if (negb (is_utf8 name)) destination_error);
  '(file_type, _) ← at_destination (node_metadata (path_join root name));
  _ ← lift (fail_if (negb (bool_decide (file_type = FileType.File)) || negb (valid_staging_name name))
              destination_error);
  at_destination (fs_remove_file (path_join root name)).

Fixpoint remove_entries (root : string) (entries : list (result IoErrorKind.t string)) : call unit :=
  match entries with
  | [] => mret tt
  | entry :: entries => _ ← remove_staged root entry; remove_entries root entries
  end.

Definition cleanup_exact_root (root : string) : call unit := λ w,
  match node_metadata root w with
  | (Err IoErrorKind.NotFound, w) => (Ok tt, w)
  | (Ok (FileType.Dir, _), w) =>
    (entries ← at_destination (fs_read_dir root);
     _ ← remove_entries root entries;
     at_destination (fs_remove_dir root)) w
  | (_, w) => (Err destination_error, w)
  end.

(** The directory is created with mode [0700], the file with mode [0600]. *)
Definition create_private_directory (path : string) : call unit := at_destination (fs_create_dir path).
Definition private_file (path : string) : call unit := at_destination (fs_create_new path).

Definition validate_real_directory (path : string) : call unit :=
  '(file_type, _) ← at_destination (node_metadata path);
  lift (fail_if (negb (bool_decide (file_type = FileType.Dir))) destination_error).

Definition validate_real_file (path : string) : call unit :=
  '(file_type, _) ← io_map_err (λ _, source_changed) (node_metadata path);
  lift (fail_if (negb (bool_decide (file_type = FileType.File))) source_changed).

(** [let _ = fs::remove_file(path)] *)
Definition discard_file (path : string) (w : W) : W := (fs_remove_file path w).2.

(** [if result.is_err() { remove both }] *)
Definition or_discard {A} (temporary_path final_path : string) (m : call A) : call A := λ w,
  match m w with
  | (Err e, w) => (Err e, discard_file final_path (discard_file temporary_path w))
  | r => r
  end.

(** A loop whose fuel is enough *)
Definition total {A} (m : prog W ExecutorError A) : call A := λ w,
  default (Err invariant_error, w) (m w).
End staging_fs.

(** ** Where the directory is *)

(** The path with these components; repeated separators are not kept. *)
Definition components_path (components : list string) : string :=
  match components with
  | "/" :: components => "/" +:+ String.concat "/" components
  | _ => String.concat "/" components
  end.

(** [Path::parent] *)
Definition path_parent (path : string) : option string :=
  match rev (path_components path) with
  | [] => None
  | last :: above => if String.eqb last "/" then None else Some (components_path (rev above))
  end.

(** [checkpoint.parent().filter(|p| !p.is_empty()).unwrap_or(".")] *)
Definition checkpoint_parent (checkpoint : string) : string :=
  match path_parent checkpoint with
  | Some parent => if is_empty parent then "." else parent
  | None => "."
  end.

Definition IMPORT_STAGING_PREFIX : string := ".immich-rs-stage-".

(** [import_config.rs] *)
Record ArchiveLimits := {
  al_max_entry_bytes : Z;
  al_max_compression_ratio : Z;
  al_compression_ratio_grace_bytes : Z;
}.
Class ImportLimits (C : Type) := { archive_limits : C → ArchiveLimits }.

Record ImportStaging := {
  ist_root : string;
  ist_buffer_bytes : Z;
  ist_max_entry_bytes : Z;
  ist_max_compression_ratio : Z;
  ist_compression_ratio_grace_bytes : Z;
}.

Record PreparedImportAsset := {
  pri_media_path : string;
  pri_file_name : string;
  pri_sha1_base64 : string;
  pri_xmp : option (string * Z);
  pri_staged_paths : list string;
}.

(** ** Checks *)
Section checks.
  Context `{UnicodeLib}.

Definition resolved_source (resolved : ResolvedFolderPlan) (portable_path : string) (byte_len : Z)
    (content_sha256 : string) : result ExecutorError ResolvedSourceFile :=
  source ← ok_or (source_file resolved portable_path) invariant_error;
  _ ← fail_if (negb (rsf_byte_len source =? byte_len)
               || negb (String.eqb (rsf_content_sha256 source) content_sha256)) source_changed;
  Ok source.

Definition staged_entry_path (entry : ZipEntry) : result ExecutorError string :=
  _ ← fail_if (contains_byte "\" (ze_name entry) || contains_byte (ascii_of_N 0) (ze_name entry)
               || existsb (one_of ["."; ".."]) (split_on "/" (ze_name entry))) source_changed;
  enclosed ← ok_or (ze_enclosed_name entry) source_changed;
  components ← try_map (λ value,
    if one_of ["/"; "."; ".."] value then Err source_changed
    else if is_utf8 value then Ok (nfc value) else Err source_changed) (path_components enclosed);
  Ok (String.concat "/" components).

Definition validate_staged_entry (staging : ImportStaging) (entry : ZipEntry) (expected_path : string)
    (expected_len : Z) : result ExecutorError unit :=
  path ← staged_entry_path entry;
  fail_if (negb (
    String.eqb path expected_path && negb (ze_encrypted entry) && negb (ze_is_symlink entry)
    && ze_is_file entry && is_supported (ze_compression entry) && (ze_size entry =? expected_len)
    && (ze_size entry <=? ist_max_entry_bytes staging)
    && ((ze_size entry <=? ist_compression_ratio_grace_bytes staging)
        || ((0 <? ze_compressed_size entry)
            && (ze_size entry / ze_compressed_size entry <=? ist_max_compression_ratio staging)))))
    source_changed.

Definition staged_file_name (path : string) : result ExecutorError string :=
  match path_file_name path with
  | Some value =>
    if is_utf8 value && negb (is_empty value)
       && negb (contains_byte "/" value) && negb (contains_byte "\" value)
    then Ok value else Err invalid_plan
  | None => Err invalid_plan
  end.
End checks.

(** ** Preparing the files *)
Section staging.
  Context {W : Type} `{Cancellation W, ScanFs W, ZipReader W, !DestinationFs W, !StagingFs W,
    UnicodeLib, Codec, TimeLib}.
Notation call := (io W ExecutorError).

(** [.map_err(source_changed)] *)
Definition or_changed {A} (f : W → option A * W) : call A := λ w,
  let '(r, w) := f w in (ok_or r source_changed, w).

Definition open_archive_file (path : string) : call unit :=
  or_changed (λ w, let '(opened, w) := sf_open path w in (if opened : bool then Some tt else None, w)).

(** The loop of [stage_entry_inner] gives the bytes it hashed. *)
Fixpoint stage_loop (fuel : nat) (buffer_bytes byte_len : Z) (temporary_path : string)
    (observed : Z) (content : string) : prog W ExecutorError (Z * string) :=
  match fuel with
  | O => λ _, None
  | S fuel =>
    _ ← run_io check_not_cancelled;
    chunk ← run_io (or_changed (zip_read buffer_bytes));
    if is_empty chunk then mret (observed, content)
    else
      let observed := sat_add observed (len chunk) in
      _ ← run_lift (fail_if (byte_len <? observed) source_changed);
      _ ← run_io (at_destination (fs_write_all temporary_path chunk));
      stage_loop fuel buffer_bytes byte_len temporary_path observed (content +:+ chunk)
  end.

Definition copy_entry (staging : ImportStaging) (source : ResolvedSourceFile) (temporary_path : string) :
    call (Z * string) := λ w,
  total (stage_loop (S (Z.to_nat (zip_left w))) (ist_buffer_bytes staging) (rsf_byte_len source)
           temporary_path 0 "") w.

Definition stage_entry_inner (staging : ImportStaging) (source : ResolvedSourceFile)
    (portable_path : string) (index : Z) (temporary_path final_path : string) : call unit :=
  _ ← check_not_cancelled;
  _ ← validate_real_file (rsf_native_path source);
  _ ← open_archive_file (rsf_native_path source);
  before ← or_changed sf_file_metadata;
  _ ← or_changed zip_new;
  entry ← or_changed (zip_by_index index);
  _ ← lift (validate_staged_entry staging entry portable_path (rsf_byte_len source));
  _ ← private_file temporary_path;
  '(observed, content) ← copy_entry staging source temporary_path;
  after ← or_changed sf_file_metadata;
  _ ← lift (fail_if (metadata_changed before after
                     || negb (observed =? rsf_byte_len source)
                     || negb (String.eqb (sha256_hex content) (rsf_content_sha256 source))
                     || negb (String.eqb (sha1_base64 content) (rsf_content_sha1_base64 source)))
              source_changed);
  _ ← at_destination (fs_sync_all temporary_path);
  at_destination (fs_rename temporary_path final_path).

Definition stage_entry (staging : ImportStaging) (source : ResolvedSourceFile)
    (portable_path operation_id suffix : string) : call string :=
  index ← lift (ok_or (rsf_archive_index source) invariant_error);
  let final_path := path_join (ist_root staging) (operation_id +:+ "." +:+ suffix) in
  let temporary_path := path_join (ist_root staging) (operation_id +:+ "." +:+ suffix +:+ ".tmp") in
  _ ← or_discard temporary_path final_path
        (stage_entry_inner staging source portable_path index temporary_path final_path);
  mret final_path.

(** The sidecar is staged after the media, which is removed when that fails. *)
Definition stage_sidecar (staging : ImportStaging) (media_path : string) (operation : UploadOperation)
    (sidecar : option ResolvedSourceFile) : call (option (string * Z)) :=
  match sidecar, uo_xmp_sidecar operation with
  | Some source, Some expected => λ w,
    match stage_entry staging source (us_relative_path expected) (uo_operation_id operation) "xmp" w with
    | (Ok path, w) => (Ok (Some (path, rsf_byte_len source)), w)
    | (Err e, w) => (Err e, discard_file media_path w)
    end
  | None, None => mret None
  | _, _ => lift (Err invariant_error)
  end.

Definition resolved_sidecar (resolved : ResolvedFolderPlan) (operation : UploadOperation) :
    result ExecutorError (option ResolvedSourceFile) :=
  match uo_xmp_sidecar operation with
  | None => Ok None
  | Some expected =>
    source ← resolved_source resolved (us_relative_path expected) (us_byte_len expected)
               (us_content_sha256 expected);
    Ok (Some source)
  end.

(** [ImportStaging::prepare] *)
Definition prepare_import (staging : ImportStaging) (resolved : ResolvedFolderPlan)
    (operation : UploadOperation) : call PreparedImportAsset :=
  _ ← check_not_cancelled;
  media ← lift (resolved_source resolved (uo_relative_path operation) (uo_byte_len operation)
                  (uo_content_sha256 operation));
  sidecar ← lift (resolved_sidecar resolved operation);
  let archive_backed := is_some (rsf_archive_index media) in
  _ ← lift (fail_if (is_some_and sidecar (λ source,
              negb (Bool.eqb (is_some (rsf_archive_index source)) archive_backed))) invariant_error);
  let sidecar_bytes := match sidecar with Some source => rsf_byte_len source | None => 0 end in
  let staged_bytes := sat_add (rsf_byte_len media) sidecar_bytes in
  _ ← lift (fail_if (archive_backed && (sat_mul (ist_max_entry_bytes staging) 2 <? staged_bytes))
              invalid_configuration);
  file_name ← lift (staged_file_name (uo_relative_path operation));
  if negb archive_backed then
    mret {| pri_media_path := rsf_native_path media; pri_file_name := file_name;
            pri_sha1_base64 := rsf_content_sha1_base64 media;
            pri_xmp := (λ source, (rsf_native_path source, rsf_byte_len source)) <$> sidecar;
            pri_staged_paths := [] |}
  else
    media_path ← stage_entry staging media (uo_relative_path operation) (uo_operation_id operation) "media";
    xmp ← stage_sidecar staging media_path operation sidecar;
    mret {| pri_media_path := media_path; pri_file_name := file_name;
            pri_sha1_base64 := rsf_content_sha1_base64 media; pri_xmp := xmp;
            pri_staged_paths := media_path :: option_list (fst <$> xmp) |}.

(** The [VerifiedAsset] of [import_apply.rs] *)
Definition verified_import (prepared : PreparedImportAsset) : VerifiedAsset := {|
  va_media_path := pri_media_path prepared; va_file_name := pri_file_name prepared;
  va_sha1_base64 := pri_sha1_base64 prepared; va_xmp := pri_xmp prepared |}.

(** [Drop for PreparedImportAsset] and [Drop for ImportStaging] *)
Definition drop_prepared_import (prepared : PreparedImportAsset) (w : W) : W :=
  foldl (λ w path, discard_file path w) w (pri_staged_paths prepared).
Definition drop_import_staging (staging : ImportStaging) (w : W) : W :=
  (cleanup_exact_root (ist_root staging) w).2.

(** ** The class of [ImportApply] *)
Context {C : Type} `{!ImportConfig C, !ImportSource W C, !ImportLimits C}.

(** [ImportStaging::open] *)
Definition open_import_staging (checkpoint : string) (plan : UploadPlan) (config : C) : call ImportStaging :=
  _ ← lift (validate_import config);
  _ ← lift (map_err (λ _, invalid_plan) (Upload.validate plan));
  let parent := checkpoint_parent checkpoint in
  _ ← validate_real_directory parent;
  plan_bytes ← lift (ok_or (json_upload_plan plan) invariant_error);
  let root := path_join parent (IMPORT_STAGING_PREFIX +:+ sha256_hex plan_bytes) in
  _ ← cleanup_exact_root root;
  _ ← create_private_directory root;
  let limits := archive_limits config in
  mret {| ist_root := root;
          ist_buffer_bytes := verification_buffer_bytes (upload_config config);
          ist_max_entry_bytes := al_max_entry_bytes limits;
          ist_max_compression_ratio := al_max_compression_ratio limits;
          ist_compression_ratio_grace_bytes := al_compression_ratio_grace_bytes limits |}.

Definition import_staging (checkpoint : string) : Staging W C := {|
  Stage := ImportStaging;
  Prepared := PreparedImportAsset;
  staging_open := open_import_staging checkpoint;
  ImportApply.prepare := prepare_import;
  verified := verified_import;
  drop_prepared := drop_prepared_import;
  drop_staging := drop_import_staging;
|}.
End staging.
