(* ===== verification/StagingFacts.v ===== *)
(** * StagingFacts: what the calls on a staging directory leave alone

    Shared by the staging of an import and of a migration: which paths may change, and
    what cleaning and creating the directory do. *)
From Stdlib Require Import Ascii.
From stdpp Require Import strings gmap.
From S2P Require Export Disk Staging.

(** Listing and removing a directory *)
Class CleanupLaws (W : Type) `{!DestinationFs W, !StagingFs W, !DestinationDisk W} : Prop := {
  cleanup_disk :: DiskLaws W;
  read_dir_law p w r w' : fs_read_dir p w = (r, w') → disk w' = disk w;
  remove_dir_law p w r w' : fs_remove_dir p w = (r, w') → unlinked (disk w) (key p) →
    match r with Ok _ => disk w' = delete (key p) (disk w) | Err _ => disk w' = disk w end;
}.

(** Only entries with these names directly in the directory change. *)
Definition within (root : string) (names : list string) (d d' : Disk) : Prop :=
  ∀ p : Key, (∀ name, name ∈ names → p ≠ key root ++ [name]) → d' !! p = d !! p.

(** The directory is there, and not behind a link. *)
Definition open_root (root : string) (d : Disk) : Prop :=
  root ≠ "" ∧ unlinked d (key root) ∧ d !! key root = Some Node_Dir.

#[export] Instance within_reflexive root names : Reflexive (within root names).
Proof. intros d p _. done. Qed.
#[export] Instance within_transitive root names : Transitive (within root names).
Proof. intros d1 d2 d3 H12 H23 p Hp. rewrite (H23 p Hp). by apply H12. Qed.

Lemma within_mono root names names' d d' :
  names ⊆ names' → within root names d d' → within root names' d d'.
Proof. intros Hs Hw p Hp. apply Hw. intros name Hn. apply Hp. by apply Hs. Qed.

Lemma within_alter (root : string) (names : list string) (name : string) (d : Disk) x :
  name ∈ names → within root names d (partial_alter (λ _, x) (key root ++ [name]) d).
Proof. intros Hn p Hp. apply lookup_partial_alter_ne. by apply not_eq_sym, Hp. Qed.

Lemma within_open root names d d' : within root names d d' → open_root root d → open_root root d'.
Proof.
  intros Hw (Hne & Hu & Hd).
  assert (∀ p : Key, (length p <= length (key root))%nat → d' !! p = d !! p) as Hshort.
  { intros p Hl. apply Hw. intros name _ ->. rewrite length_app in Hl. simpl in Hl. lia. }
  split; [done|]. rewrite Hshort by lia. split; [|done].
  intros q c r Hq He. rewrite Hshort; [by eapply Hu|].
  apply (f_equal length) in He. rewrite length_app in He. simpl in He. lia.
Qed.

Lemma open_unlinked root d name : open_root root d → unlinked d (key root ++ [name]).
Proof.
  intros (_ & Hu & Hd) q c r Hq He. destruct r as [|y r _] using rev_ind.
  - apply app_inj_tail in He as [<- _]. by rewrite Hd.
  - rewrite app_comm_cons, app_assoc in He. apply app_inj_tail in He as [He _]. by eapply Hu.
Qed.

(** *** Names *)

Lemma contains_byte_app c a b : contains_byte c (a +:+ b) = contains_byte c a || contains_byte c b.
Proof.
  apply Bool.eq_iff_eq_true. rewrite orb_true_iff, <-!not_false_iff_true, !contains_byte_false, bytes_app, elem_of_app.
  destruct (decide (c ∈ bytes a)), (decide (c ∈ bytes b)); tauto.
Qed.

Lemma plain_staged id suffix :
  contains_byte "/" id = false → contains_byte "/" suffix = false → suffix ≠ "" →
  plain (id +:+ "." +:+ suffix).
Proof.
  intros Hid Hs Hne. split_and!.
  - intros He. apply (f_equal len) in He. rewrite !len_app in He. change (len ".") with 1 in He.
    unfold len in He. simpl in He. lia.
  - intros He. apply (f_equal len) in He. rewrite !len_app in He. change (len ".") with 1 in He.
    assert (1 <= len suffix) by (unfold len; destruct suffix; [done|simpl; lia]). unfold len in *. simpl in He. lia.
  - rewrite !contains_byte_app, Hid, Hs. done.
Qed.

Lemma key_staged root name : root ≠ "" → plain name → key (path_join root name) = key root ++ [name].
Proof. intros Hr Hn. by rewrite key_join, normal_plain. Qed.

(** ** Steps *)

Lemma total_step {W A} (P : W → Prop) (m : prog W ExecutorError A) Q w r w' :
  triple P m Q → P w → total m w = (r, w') → Q r w'.
Proof.
  intros Hm Hp Ht. destruct (Hm w Hp) as (r0 & w0 & Hr & Hq). unfold total in Ht. rewrite Hr in Ht.
  by injection Ht as <- <-.
Qed.
Section cleanup.
  Context {W : Type} `{CleanupLaws W}.

(** *** Files of the directory *)

Lemma staged_unlinked root name names d0 w :
  plain name → name ∈ names → open_root root d0 → within root names d0 (disk w) →
  key (path_join root name) = key root ++ [name] ∧ unlinked (disk w) (key (path_join root name)).
Proof.
  intros Hp Hn Ho Hw. destruct (id Ho) as (Hne & _). rewrite key_staged by done. split; [done|].
  by eapply open_unlinked, within_open.
Qed.

Lemma validate_real_file_disk path w (r : result ExecutorError unit) w' :
  validate_real_file path w = (r, w') → disk w' = disk w.
Proof.
  unfold validate_real_file. intros [(e & Hm & ->)|([t n] & w1 & Hm & Ht)]%io_bind_inv;
    apply io_map_err_inv in Hm as (r0 & Hm & _); apply metadata_law in Hm as [Hm _]; [done|].
  by injection Ht as _ <-.
Qed.

Lemma validate_real_directory_disk path w (r : result ExecutorError unit) w' :
  validate_real_directory path w = (r, w') → disk w' = disk w.
Proof.
  unfold validate_real_directory. intros [(e & Hm & ->)|([t n] & w1 & Hm & Ht)]%io_bind_inv;
    apply io_map_err_inv in Hm as (r0 & Hm & _); apply metadata_law in Hm as [Hm _]; [done|].
  by injection Ht as _ <-.
Qed.

Lemma discard_within root names name d0 w :
  plain name → name ∈ names → open_root root d0 → within root names d0 (disk w) →
  within root names d0 (disk (discard_file (path_join root name) w)).
Proof.
  intros Hp Hn Ho Hw. unfold discard_file. destruct (fs_remove_file _ w) as [r w1] eqn:Hr. cbn [snd].
  destruct (staged_unlinked root name names d0 w Hp Hn Ho Hw) as [Hkey Hu].
  apply remove_file_law in Hr; [|done]. rewrite Hkey in Hr. destruct r; rewrite Hr; [|done].
  etrans; [exact Hw|]. by apply within_alter.
Qed.

(** A step that touches only the two names, and removes both files when it fails, still
    touches only them. *)
Lemma or_discard_step {A} root names final d0 (m : io W ExecutorError A) Q w r w' :
  plain final → plain (final +:+ ".tmp") → final ∈ names → final +:+ ".tmp" ∈ names → open_root root d0 →
  (∀ r w', m w = (r, w') → within root names d0 (disk w') ∧ (is_ok r = true → Q w')) →
  or_discard (path_join root (final +:+ ".tmp")) (path_join root final) m w = (r, w') →
  within root names d0 (disk w') ∧ (is_ok r = true → Q w').
Proof.
  intros Hp1 Hp2 Hn1 Hn2 Ho Hm. unfold or_discard. destruct (m w) as [[u|e] w2] eqn:Hi;
    destruct (Hm _ _ eq_refl) as [Hw2 Hc2]; intros [= <- <-]; [done|].
  split; [|done]. apply discard_within; [done..|]. by apply discard_within.
Qed.

(** ** Cleaning *)

Lemma split_once_Some c s a b : split_once c s = Some (a, b) → s = a +:+ String c b.
Proof.
  revert a. induction s as [|x s IH]; intros a; cbn; [done|].
  destruct (Ascii.eqb_spec x c) as [->|]; [by intros [= <- <-]|].
  destruct (split_once c s) as [[before after]|]; [|done]. intros [= <- <-]. by rewrite (IH before).
Qed.

Lemma valid_staging_plain name : valid_staging_name name = true → plain name.
Proof.
  unfold valid_staging_name. destruct (split_once "." name) as [[id suffix]|] eqn:Hs; [|done].
  apply split_once_Some in Hs as ->. intros [[_ Hall]%andb_true_iff Hsuffix%bool_decide_eq_true]%andb_true_iff.
  rewrite forallb_forall in Hall. change (id +:+ String "." suffix) with (id +:+ "." +:+ suffix).
  assert (contains_byte "/" suffix = false ∧ suffix ≠ "") as [? ?]
    by (rewrite !elem_of_cons in Hsuffix; destruct_or! Hsuffix; subst; try done; by apply elem_of_nil in Hsuffix).
  apply plain_staged; [|done..]. apply contains_byte_false. intros Hin%list_elem_of_In%Hall. discriminate Hin.
Qed.

(** What cleaning may do: the directory and regular files in it that have the name of a
    staged file disappear. *)
Definition cleaned (root : string) (d d' : Disk) : Prop :=
  ∀ p : Key, d' !! p = d !! p ∨ (p = key root ∧ d' !! p = None)
    ∨ (∃ name c, valid_staging_name name = true ∧ p = key root ++ [name]
        ∧ d !! p = Some (Node_File c) ∧ d' !! p = None).

Lemma cleaned_trans root d1 d2 d3 : cleaned root d1 d2 → cleaned root d2 d3 → cleaned root d1 d3.
Proof.
  intros H12 H23 p. destruct (H23 p) as [He|[?|(name & c & Hv & Hp & Hc & Hn)]].
  - rewrite He. apply H12.
  - by right; left.
  - destruct (H12 p) as [<-|[[_ ?]|(? & ? & _ & _ & _ & ?)]]; [|congruence..]. right; right. by exists name, c.
Qed.

Lemma remove_staged_step root entry w r w' :
  open_root root (disk w) → remove_staged root entry w = (r, w') →
  cleaned root (disk w) (disk w') ∧ open_root root (disk w').
Proof.
  intros Ho Hr. assert (cleaned root (disk w) (disk w)) as Hrefl by (intros p; by left).
  unfold remove_staged in Hr.
  apply io_bind_inv in Hr as [(e & [_ <-]%lift_Err & ->)|(name & w1 & [_ <-]%lift_Ok & Hr)]; [done|].
  apply io_bind_inv in Hr as [(e & [_ <-]%lift_Err & ->)|(u & w1 & [_ <-]%lift_Ok & Hr)]; [done|].
  apply io_bind_inv in Hr as [(e & Hm & ->)|([t n] & w1 & Hm & Hr)];
    apply io_map_err_inv in Hm as (r0 & Hm & Hr0); apply metadata_law in Hm as [Hd Hm]; [by rewrite Hd|].
  apply io_bind_inv in Hr as [(e & [_ <-]%lift_Err & ->)|(u2 & w2 & [Hc%fail_if_Ok <-]%lift_Ok & Hr)];
    [by rewrite Hd|].
  apply orb_false_iff in Hc as [Ht%negb_false_iff%bool_decide_eq_true Hv%negb_false_iff].
  destruct r0 as [[t0 n0]|]; [|done]. injection Hr0 as <- <-. destruct Hm as (node & Hnode & Ht' & _).
  pose proof (valid_staging_plain _ Hv) as Hplain. destruct (id Ho) as (Hne & _).
  pose proof (open_unlinked root (disk w) name Ho) as Hu.
  rewrite resolve_unlinked, key_staged in Hnode by (try rewrite key_staged; done).
  assert (∃ c, node = Node_File c) as (c & ->) by (destruct node; try (by eexists); by rewrite Ht in Ht').
  apply io_map_err_inv in Hr as (r1 & Hr & ->). apply remove_file_law in Hr; [|by rewrite Hd, key_staged].
  rewrite Hd, key_staged in Hr by done. destruct r1; rewrite Hr; [|done]. split.
  - intros p. destruct (decide (p = key root ++ [name])) as [->|Hp].
    + right; right. exists name, c. by rewrite lookup_delete_eq.
    + left. by rewrite lookup_delete_ne.
  - eapply (within_open root [name]); [|exact Ho]. apply within_alter. set_solver.
Qed.

Lemma remove_entries_step root entries : ∀ w r w',
  open_root root (disk w) → remove_entries root entries w = (r, w') →
  cleaned root (disk w) (disk w') ∧ open_root root (disk w').
Proof.
  induction entries as [|entry entries IH]; intros w r w' Ho Hr; cbn [remove_entries] in Hr.
  - injection Hr as _ <-. split; [intros p; by left|done].
  - apply io_bind_inv in Hr as [(e & Hs & ->)|(u & w1 & Hs & Hr)];
      apply remove_staged_step in Hs as [Hc1 Ho1]; try done.
    apply IH in Hr as [Hc2 Ho2]; [|done]. split; [by eapply cleaned_trans|done].
Qed.

Lemma cleanup_step root w r w' :
  root ≠ "" → unlinked (disk w) (key root) → cleanup_exact_root root w = (r, w') →
  cleaned root (disk w) (disk w') ∧ (is_ok r = true → disk w' !! key root = None).
Proof.
  intros Hne Hu Hr. assert (cleaned root (disk w) (disk w)) as Hrefl by (intros p; by left).
  unfold cleanup_exact_root in Hr.
  destruct (node_metadata root w) as [m w1] eqn:Hm. apply metadata_law in Hm as [Hd Hm].
  destruct m as [[t n]|[]].
  - destruct Hm as (node & Hnode & -> & _). rewrite resolve_unlinked in Hnode by done.
    destruct node; cbn in Hr; try (injection Hr as <- <-; by rewrite Hd).
    apply io_bind_inv in Hr as [(e & Hl & ->)|(entries & w2 & Hl & Hr)];
      apply io_map_err_inv in Hl as (r0 & Hl & _); apply read_dir_law in Hl; [by rewrite Hl, Hd|].
    assert (disk w2 = disk w) as Hd2 by congruence. rewrite <-Hd2 in *.
    assert (open_root root (disk w2)) as Ho2 by done.
    apply io_bind_inv in Hr as [(e & Hs & ->)|(u & w3 & Hs & Hr)];
      apply remove_entries_step in Hs as [Hc Ho3]; try done.
    apply io_map_err_inv in Hr as (r1 & Hr & ->). apply remove_dir_law in Hr; [|apply Ho3].
    destruct r1; rewrite Hr; [|done]. split; [|by rewrite lookup_delete_eq].
    eapply cleaned_trans; [exact Hc|]. intros p. destruct (decide (p = key root)) as [->|Hp].
    + right; left. by rewrite lookup_delete_eq.
    + left. by rewrite lookup_delete_ne.
  - injection Hr as <- <-. rewrite Hd. split; [done|]. rewrite resolve_unlinked in Hm by done. done.
  - injection Hr as <- <-. by rewrite Hd.
Qed.

Context {C : Type} `{!ImportConfig C, !ImportSource W C, !ImportLimits C}.

(** Cleaning and then creating the directory *)
Lemma fresh_root_step {A} root (x : A) w (r : result ExecutorError A) w' :
  root ≠ "" → unlinked (disk w) (key root) →
  (_ ← cleanup_exact_root root; _ ← create_private_directory root; mret x) w = (r, w') →
  ∃ d, cleaned root (disk w) d ∧
    match r with
    | Ok y => y = x ∧ d !! key root = None ∧ disk w' = <[key root := Node_Dir]> d ∧ open_root root (disk w')
    | Err _ => disk w' = d
    end.
Proof.
  intros Hne Hu Hr.
  apply io_bind_inv in Hr as [(e & Hc & ->)|(u4 & w2 & Hc & Hr)]; apply cleanup_step in Hc as [Hc Hn]; try done;
    [by exists (disk w')|]. specialize (Hn eq_refl).
  assert (open_root root (<[key root := Node_Dir]> (disk w2)) ∧ unlinked (disk w2) (key root)) as [Ho Hu2].
  { assert (∀ q c r, q ≠ [] → key root = q ++ c :: r → q ≠ key root ∧ disk w2 !! q ≠ Some Node_Link) as Habove.
    { intros q c t Hq He. assert (length q < length (key root))%nat as Hlen
        by (rewrite He, length_app; simpl; lia).
      split; [intros ->; lia|].
      destruct (Hc q) as [->|[[-> _]|(name & x0 & _ & -> & _ & ->)]]; [by eapply Hu|lia|done]. }
    split; [split_and!; [done| |by rewrite lookup_insert_eq]|];
      intros q c t Hq He; destruct (Habove q c t Hq He) as [Hqk Hl]; [by rewrite lookup_insert_ne|done]. }
  apply io_bind_inv in Hr as [(e & Hs & ->)|(u5 & w3 & Hs & Hr)]; apply io_map_err_inv in Hs as (r0 & Hs & Hr0);
    apply create_dir_law in Hs; try done; destruct r0; try done.
  - by exists (disk w2).
  - exists (disk w2). split; [done|]. injection Hr as <- <-. destruct Hs as [_ ->]. by split_and!.
Qed.
End cleanup.

(** The directory of a run *)
Definition run_root (prefix checkpoint bytes : string) `{Codec} : string :=
  path_join (checkpoint_parent checkpoint) (prefix +:+ sha256_hex bytes).

Lemma run_root_named `{Codec} prefix checkpoint bytes : prefix ≠ "" → run_root prefix checkpoint bytes ≠ "".
Proof.
  unfold run_root, path_join. intros Hp He. apply (f_equal String.length) in He.
  destruct prefix; [done|]. destruct (_ || _); rewrite !length_str_app in He; cbn in He; lia.
Qed.
