(* ===== verification/StagingTheorems.v ===== *)
(** * StagingTheorems: the staging directory of an import holds what the plan says

    A staged file has the planned length and digests when it is handed to the upload;
    preparing and opening touch only the staging directory, in every outcome, and
    opening removes nothing but files with the names of staged files. *)
From Stdlib Require Import Ascii.
From stdpp Require Import strings gmap.
From S2P Require Export ScanArchiveFacts Staging StagingFacts.

(** The rest of the world leaves the tree alone, and writing a file leaves the archive
    that is read alone. *)
Class StagingLaws (W : Type) `{Cancellation W, ScanFs W, ZipReader W, !DestinationFs W, !StagingFs W,
    !DestinationDisk W} : Prop := {
  staging_cleanup :: CleanupLaws W;
  staging_zip :: ZipLaws W;
  staging_cancelled w b w' : is_cancelled w = (b, w') → disk w' = disk w;
  staging_sf_open p w r w' : sf_open p w = (r, w') → disk w' = disk w;
  staging_file_metadata w r w' : sf_file_metadata w = (r, w') → disk w' = disk w;
  staging_zip_new w r w' : zip_new w = (r, w') → disk w' = disk w;
  staging_by_index i w r w' : zip_by_index i w = (r, w') → disk w' = disk w;
  staging_zip_read n w r w' : zip_read n w = (r, w') → disk w' = disk w;
  staging_write p chunk w r w' : fs_write_all p chunk w = (r, w') → zip_left w' = zip_left w;
}.

Section staging.
  Context {W : Type} `{StagingLaws W, UnicodeLib, Codec, TimeLib}.

Lemma stage_cancelled_step w (r : result ExecutorError unit) w' :
  check_not_cancelled w = (r, w') → disk w' = disk w ∧ zip_left w' = zip_left w.
Proof.
  unfold check_not_cancelled. destruct (is_cancelled w) as [b w1] eqn:Hc. intros [= _ <-].
  split; [by eapply staging_cancelled|by eapply zip_cancelled_left].
Qed.

Section entry.
  Context (staging : ImportStaging) (name : string) (names : list string).
  Context (named : plain name) (inside : name ∈ names).
Notation root := (ist_root staging).
Notation temporary := (path_join root name).

Lemma stage_loop_runs d0 fuel buffer byte_len observed content :
  open_root root d0 → observed = Z.min (len content) u64_max →
  triple (λ w, (Z.to_nat (zip_left w) < fuel)%nat ∧ within root names d0 (disk w)
               ∧ disk w !! key temporary = Some (Node_File content))
    (stage_loop fuel buffer byte_len temporary observed content)
    (λ r w, within root names d0 (disk w) ∧ ∀ n c, r = Ok (n, c) →
      n = Z.min (len c) u64_max ∧ disk w !! key temporary = Some (Node_File c)).
Proof.
  intros Hopen. revert observed content. induction fuel as [|fuel IH]; intros observed content Hobs w (Hf & Hw & Hk);
    [lia|]. cbn [stage_loop]. unfold mbind, prog_bind, run_io, run_lift.
  destruct (check_not_cancelled w) as [[[]|e] w1] eqn:Hc; apply stage_cancelled_step in Hc as [Hd1 Hz1];
    [|eexists _, _; split; [done|]; rewrite Hd1; by split].
  unfold or_changed. destruct (zip_read buffer w1) as [[chunk|] w2] eqn:Hr; cbn [ok_or];
    pose proof (staging_zip_read _ _ _ _ Hr) as Hd2; [|eexists _, _; split; [done|]; rewrite Hd2, Hd1; by split].
  destruct (is_empty chunk) eqn:He.
  { eexists _, _. split; [done|]. rewrite Hd2, Hd1. split; [done|]. by intros n c [= <- <-]. }
  apply is_empty_false in He. apply zip_read_left in Hr. pose proof (zip_left_nonneg w2).
  assert (1 <= len chunk) by (unfold len; destruct chunk; [done|simpl; lia]).
  destruct (byte_len <? _); cbn [fail_if]; [eexists _, _; split; [done|]; rewrite Hd2, Hd1; by split|].
  unfold at_destination. destruct (io_map_err _ _ w2) as [r3 w3] eqn:Hwr.
  apply io_map_err_inv in Hwr as (r0 & Hwr & ->). pose proof (staging_write _ _ _ _ _ Hwr) as Hz3.
  assert (disk w2 = disk w) as Hd by (by rewrite Hd2, Hd1).
  destruct (staged_unlinked root name names d0 w named inside Hopen Hw) as [Hkey Hu]. rewrite <-Hd in Hu, Hk, Hw.
  eapply write_all_law in Hwr; [|exact Hu|exact Hk]. rewrite Hkey in Hwr.
  destruct r0 as [[]|e]; cbn [map_err].
  - apply IH; [unfold sat_add; rewrite len_app, Hobs; unfold len; lia|]. split_and!; [lia| |].
    + rewrite Hwr. etrans; [exact Hw|]. by apply within_alter.
    + by rewrite Hwr, Hkey, lookup_insert_eq.
  - destruct Hwr as [c' Hwr]. eexists _, _. split; [done|]. rewrite Hwr. split; [|done].
    etrans; [exact Hw|]. by apply within_alter.
Qed.
End entry.

Lemma or_changed_disk {A} (f : W → option A * W) w r w' :
  (∀ r w', f w = (r, w') → disk w' = disk w) → or_changed f w = (r, w') → disk w' = disk w.
Proof. intros Hf. unfold or_changed. destruct (f w) as [o w1] eqn:He. intros [= _ <-]. by eapply Hf. Qed.

(** A staged file is what was planned. *)
Definition staged_content (source : ResolvedSourceFile) (d : Disk) (k : Key) : Prop :=
  ∃ c, d !! k = Some (Node_File c) ∧ Z.min (len c) u64_max = rsf_byte_len source
    ∧ sha256_hex c = rsf_content_sha256 source ∧ sha1_base64 c = rsf_content_sha1_base64 source.

Section one_entry.
  Context (staging : ImportStaging) (names : list string) (source : ResolvedSourceFile) (final_name : string).
  Context (final_plain : plain final_name) (temporary_plain : plain (final_name +:+ ".tmp")).
  Context (final_inside : final_name ∈ names) (temporary_inside : final_name +:+ ".tmp" ∈ names).
Notation root := (ist_root staging).
Notation final := (path_join root final_name).
Notation temporary := (path_join root (final_name +:+ ".tmp")).

Lemma stage_entry_inner_step d0 portable index w r w' :
  open_root root d0 → within root names d0 (disk w) →
  stage_entry_inner staging source portable index temporary final w = (r, w') →
  within root names d0 (disk w')
  ∧ (is_ok r = true → staged_content source (disk w') (key root ++ [final_name])).
Proof.
  intros Ho Hw Hr. unfold stage_entry_inner, open_archive_file in Hr.
  apply io_bind_inv in Hr as [(e & Hs1 & ->)|(u & w1 & Hs1 & Hr)];
    apply stage_cancelled_step in Hs1 as [Hd1 _]; [by rewrite Hd1|].
  apply io_bind_inv in Hr as [(e & Hs2 & ->)|(u2 & w2 & Hs2 & Hr)];
    apply validate_real_file_disk in Hs2 as Hd2; [by rewrite Hd2, Hd1|].
  apply io_bind_inv in Hr as [(e & Hs3 & ->)|(u3 & w3 & Hs3 & Hr)];
    (apply or_changed_disk in Hs3 as Hd3; [|intros ? ?; destruct (sf_open _ w2) as [b wx] eqn:He;
       intros [= _ <-]; by eapply staging_sf_open]); [by rewrite Hd3, Hd2, Hd1|].
  apply io_bind_inv in Hr as [(e & Hs4 & ->)|(before & w4 & Hs4 & Hr)];
    (apply or_changed_disk in Hs4 as Hd4; [|by apply staging_file_metadata]); [by rewrite Hd4, Hd3, Hd2, Hd1|].
  apply io_bind_inv in Hr as [(e & Hs5 & ->)|(count & w5 & Hs5 & Hr)];
    (apply or_changed_disk in Hs5 as Hd5; [|by apply staging_zip_new]); [by rewrite Hd5, Hd4, Hd3, Hd2, Hd1|].
  apply io_bind_inv in Hr as [(e & Hs6 & ->)|(entry & w6 & Hs6 & Hr)];
    (apply or_changed_disk in Hs6 as Hd6; [|by apply staging_by_index]);
    [by rewrite Hd6, Hd5, Hd4, Hd3, Hd2, Hd1|].
  assert (disk w6 = disk w) as Hd by congruence. clear Hd1 Hd2 Hd3 Hd4 Hd5 Hd6. rewrite <-Hd in Hw. clear Hd w.
  apply io_bind_inv in Hr as [(e & [_ <-]%lift_Err & ->)|(u7 & w7 & [_ <-]%lift_Ok & Hr)]; [done|].
  destruct (staged_unlinked root _ names d0 w6 temporary_plain temporary_inside Ho Hw) as [Htk Htu].
  apply io_bind_inv in Hr as [(e & Hs8 & ->)|(u8 & w8 & Hs8 & Hr)];
    apply io_map_err_inv in Hs8 as (r0 & Hs8 & He); apply create_new_law in Hs8; [|done| |done].
  { destruct r0; [done|]. by rewrite Hs8. }
  destruct r0 as [[]|]; [|done]. destruct Hs8 as [_ Hs8]. rewrite Htk in Hs8.
  assert (within root names d0 (disk w8)) as Hw8.
  { rewrite Hs8. etrans; [exact Hw|]. by apply within_alter. }
  assert (disk w8 !! key temporary = Some (Node_File "")) as Hk8 by (by rewrite Htk, Hs8, lookup_insert_eq).
  apply io_bind_inv in Hr as [(e & Hs9 & ->)|([observed content] & w9 & Hs9 & Hr)];
    (eapply (total_step _ _ _ w8 _ _ (stage_loop_runs staging _ names temporary_plain temporary_inside d0 _ _ _ 0 "" Ho eq_refl)) in Hs9
       as [Hw9 Hc9]; [|split_and!; [lia|done|done]]); [done|].
  destruct (Hc9 _ _ eq_refl) as [Hobs Hk9].
  apply io_bind_inv in Hr as [(e & Hs10 & ->)|(after & w10 & Hs10 & Hr)];
    (apply or_changed_disk in Hs10 as Hd10; [|by apply staging_file_metadata]); [by rewrite Hd10|].
  apply io_bind_inv in Hr as [(e & [_ <-]%lift_Err & ->)|(u11 & w11 & [Hsame%fail_if_Ok <-]%lift_Ok & Hr)];
    [by rewrite Hd10|].
  apply io_bind_inv in Hr as [(e & Hs12 & ->)|(u12 & w12 & Hs12 & Hr)];
    apply io_map_err_inv in Hs12 as (r12 & Hs12 & _); apply sync_all_law in Hs12 as Hd12; [by rewrite Hd12, Hd10|].
  assert (disk w12 = disk w9) as Hd by congruence. rewrite <-Hd in Hw9, Hk9.
  apply io_map_err_inv in Hr as (r13 & Hr & ->).
  destruct (staged_unlinked root _ names d0 w12 temporary_plain temporary_inside Ho Hw9) as [_ Htu12].
  destruct (staged_unlinked root _ names d0 w12 final_plain final_inside Ho Hw9) as [Hfk Hfu].
  eapply rename_law in Hr; [|exact Htu12|exact Hfu|exact Hk9]. rewrite Hfk, Htk in Hr.
  destruct r13 as [u13|e]; cbn [map_err is_ok]; [|by rewrite Hr]. rewrite Hr. split.
  - etrans; [exact Hw9|]. etrans; [by eapply (within_alter _ _ _ _ None)|]. by apply within_alter.
  - intros _. bools. exists content. rewrite lookup_insert_eq. split_and!; [done|lia|by apply String.eqb_eq..].
Qed.

Lemma stage_entry_step d0 portable id suffix w r w' :
  final_name = id +:+ "." +:+ suffix →
  open_root root d0 → within root names d0 (disk w) →
  stage_entry staging source portable id suffix w = (r, w') →
  within root names d0 (disk w')
  ∧ ∀ path, r = Ok path → path = final ∧ staged_content source (disk w') (key root ++ [final_name]).
Proof.
  intros Hname Ho Hw Hr. unfold stage_entry in Hr.
  apply io_bind_inv in Hr as [(e & [_ <-]%lift_Err & ->)|(index & w1 & [_ <-]%lift_Ok & Hr)]; [done|].
  assert (id +:+ "." +:+ suffix +:+ ".tmp" = final_name +:+ ".tmp") as Htmp by (by rewrite Hname, !str_app_assoc).
  rewrite Htmp, <-Hname in Hr. clear Htmp.
  assert (∀ r w1, or_discard temporary final
    (stage_entry_inner staging source portable index temporary final) w = (r, w1) →
    within root names d0 (disk w1)
    ∧ (is_ok r = true → staged_content source (disk w1) (key root ++ [final_name]))) as Hinner.
  { intros r0 w1. apply (or_discard_step root names final_name d0 _
      (λ w, staged_content source (disk w) (key root ++ [final_name]))); try done.
    intros r1 w2. by apply stage_entry_inner_step. }
  apply io_bind_inv in Hr as [(e & [Hw1 _]%Hinner & ->)|(u & w2 & [Hw2 Hc2]%Hinner & Hr)]; [done|].
  injection Hr as <- <-. split; [done|]. intros path [= <-]. by split; [|apply Hc2].
Qed.
End one_entry.

(** ** Preparing an operation *)

Definition staged_names (id : string) : list string :=
  [id +:+ ".media"; id +:+ ".media.tmp"; id +:+ ".xmp"; id +:+ ".xmp.tmp"].

(** What the upload is given *)
Record prepared_exact (staging : ImportStaging) (resolved : ResolvedFolderPlan) (operation : UploadOperation)
    (prepared : PreparedImportAsset) (d : Disk) : Prop := {
  pe_media : ∃ media, source_file resolved (uo_relative_path operation) = Some media
    ∧ rsf_byte_len media = uo_byte_len operation
    ∧ rsf_content_sha256 media = uo_content_sha256 operation
    ∧ pri_sha1_base64 prepared = rsf_content_sha1_base64 media
    ∧ (rsf_archive_index media = None →
       pri_media_path prepared = rsf_native_path media ∧ pri_staged_paths prepared = [])
    ∧ (is_Some (rsf_archive_index media) →
       pri_media_path prepared = path_join (ist_root staging) (uo_operation_id operation +:+ ".media")
       ∧ pri_media_path prepared ∈ pri_staged_paths prepared
       ∧ staged_content media d (key (ist_root staging) ++ [uo_operation_id operation +:+ ".media"]));
  pe_xmp : ∀ path n, pri_xmp prepared = Some (path, n) → ∃ expected source,
    uo_xmp_sidecar operation = Some expected ∧ n = us_byte_len expected
    ∧ source_file resolved (us_relative_path expected) = Some source
    ∧ rsf_byte_len source = us_byte_len expected ∧ rsf_content_sha256 source = us_content_sha256 expected
    ∧ ((rsf_archive_index source = None ∧ path = rsf_native_path source)
       ∨ (path ∈ pri_staged_paths prepared
          ∧ staged_content source d (key (ist_root staging) ++ [uo_operation_id operation +:+ ".xmp"])));
  pe_no_xmp : pri_xmp prepared = None → uo_xmp_sidecar operation = None;
}.

Lemma resolved_source_Ok resolved path n digest source :
  resolved_source resolved path n digest = Ok source →
  source_file resolved path = Some source ∧ rsf_byte_len source = n ∧ rsf_content_sha256 source = digest.
Proof.
  unfold resolved_source. intros (x & Hx%ok_or_Ok & [Hc [= ->]]%bind_fail_if_Ok)%bind_Ok. bools.
  split_and!; [done|lia|by apply String.eqb_eq].
Qed.

Lemma within_staged_content root names source d d' k :
  within root names d d' → (∀ name, name ∈ names → k ≠ key root ++ [name]) →
  staged_content source d k → staged_content source d' k.
Proof. intros Hw Hk (c & Hc & ?). exists c. by rewrite Hw. Qed.

Lemma staged_names_distinct id a b : a ≠ b → id +:+ a ≠ id +:+ b.
Proof. intros Hab He. apply Hab. induction id as [|x id IH]; [done|]. injection He. exact IH. Qed.

Lemma sidecar_step staging media_path operation sidecar d0 w r w' :
  let names := [uo_operation_id operation +:+ ".xmp"; uo_operation_id operation +:+ ".xmp.tmp"] in
  contains_byte "/" (uo_operation_id operation) = false →
  open_root (ist_root staging) d0 → within (ist_root staging) names d0 (disk w) →
  stage_sidecar staging media_path operation sidecar w = (r, w') →
  match r with
  | Ok xmp => within (ist_root staging) names d0 (disk w')
      ∧ match sidecar, uo_xmp_sidecar operation with
        | Some source, Some expected => ∃ path, xmp = Some (path, rsf_byte_len source)
            ∧ staged_content source (disk w') (key (ist_root staging) ++ [uo_operation_id operation +:+ ".xmp"])
        | None, None => xmp = None
        | _, _ => False
        end
  | Err _ => ∃ w1, within (ist_root staging) names d0 (disk w1) ∧ (w' = w1 ∨ w' = discard_file media_path w1)
  end.
Proof.
  intros names Hid Ho Hw. unfold stage_sidecar.
  assert (plain (uo_operation_id operation +:+ ".xmp")) as Hp1 by (by apply (plain_staged _ "xmp")).
  assert (plain ((uo_operation_id operation +:+ ".xmp") +:+ ".tmp")) as Hp2
    by (rewrite str_app_assoc; by apply (plain_staged _ "xmp.tmp")).
  destruct sidecar as [source|], (uo_xmp_sidecar operation) as [expected|].
  - destruct (stage_entry _ _ _ _ _ w) as [[path|e] w1] eqn:Hs;
      (apply (stage_entry_step staging names source (uo_operation_id operation +:+ ".xmp")
         Hp1 Hp2 ltac:(unfold names; set_solver) ltac:(unfold names; rewrite str_app_assoc; set_solver) d0)
         in Hs as [Hw1 Hc]; [|done..]); intros [= <- <-].
    + destruct (Hc path eq_refl) as [_ ?]. split; [done|]. by exists path.
    + exists w1. split; [done|]. by right.
  - intros [= <- <-]. exists w. split; [done|by left].
  - intros [= <- <-]. exists w. split; [done|by left].
  - intros [= <- <-]. by split.
Qed.

Lemma prepare_import_step staging resolved operation w r w' :
  contains_byte "/" (uo_operation_id operation) = false → open_root (ist_root staging) (disk w) →
  prepare_import staging resolved operation w = (r, w') →
  within (ist_root staging) (staged_names (uo_operation_id operation)) (disk w) (disk w')
  ∧ ∀ prepared, r = Ok prepared → prepared_exact staging resolved operation prepared (disk w').
Proof.
  intros Hid Ho Hr. set (id := uo_operation_id operation) in *. set (root := ist_root staging) in *.
  unfold prepare_import in Hr.
  apply io_bind_inv in Hr as [(e & Hs0 & ->)|(u & w1 & Hs0 & Hr)];
    apply stage_cancelled_step in Hs0 as [Hd _]; [by rewrite Hd|]. rewrite <-Hd in *. clear Hd.
  apply io_bind_inv in Hr as [(e & [_ <-]%lift_Err & ->)|(media & w2 & [Hmedia%resolved_source_Ok <-]%lift_Ok & Hr)];
    [done|].
  apply io_bind_inv in Hr as [(e & [_ <-]%lift_Err & ->)|(sidecar & w2 & [Hside <-]%lift_Ok & Hr)]; [done|].
  assert (match sidecar with
    | Some source => ∃ expected, uo_xmp_sidecar operation = Some expected
        ∧ source_file resolved (us_relative_path expected) = Some source
        ∧ rsf_byte_len source = us_byte_len expected ∧ rsf_content_sha256 source = us_content_sha256 expected
    | None => uo_xmp_sidecar operation = None end) as Hsidecar.
  { unfold resolved_sidecar in Hside. destruct (uo_xmp_sidecar operation) as [expected|]; [|by injection Hside as <-].
    apply bind_Ok in Hside as (x & Hx%resolved_source_Ok & [= <-]). by exists expected. }
  clear Hside.
  apply io_bind_inv in Hr as [(e & [_ <-]%lift_Err & ->)|(u2 & w2 & [Hboth%fail_if_Ok <-]%lift_Ok & Hr)]; [done|].
  apply io_bind_inv in Hr as [(e & [_ <-]%lift_Err & ->)|(u3 & w2 & [_ <-]%lift_Ok & Hr)]; [done|].
  apply io_bind_inv in Hr as [(e & [_ <-]%lift_Err & ->)|(file_name & w2 & [_ <-]%lift_Ok & Hr)]; [done|].
  destruct Hmedia as (Hm & Hml & Hmd).
  destruct (rsf_archive_index media) as [index|] eqn:Hindex; cbn [is_some negb] in Hr.
  2: { injection Hr as <- <-. split; [done|]. intros prepared [= <-]. split; cbn.
    - exists media. split_and!; try done. rewrite Hindex. by intros [? ?].
    - intros path n Hx. destruct sidecar as [source|]; [|done]. injection Hx as <- <-.
      destruct Hsidecar as (expected & He & Hsf & Hl & Hdig). exists expected, source. split_and!; try done.
      left. split; [|done]. cbn in Hboth. by destruct (rsf_archive_index source).
    - destruct sidecar; [done|]. by intros _. }
  assert (plain (id +:+ ".media")) as Hp1 by (by apply (plain_staged _ "media")).
  assert (plain ((id +:+ ".media") +:+ ".tmp")) as Hp2
    by (rewrite str_app_assoc; by apply (plain_staged _ "media.tmp")).
  set (mnames := [id +:+ ".media"; id +:+ ".media.tmp"]).
  set (xnames := [id +:+ ".xmp"; id +:+ ".xmp.tmp"]).
  assert (mnames ⊆ staged_names id ∧ xnames ⊆ staged_names id) as [Hmn Hxn]
    by (unfold mnames, xnames, staged_names; set_solver).
  apply io_bind_inv in Hr as [(e & Hs1 & ->)|(media_path & w2 & Hs1 & Hr)];
    (apply (stage_entry_step staging mnames media (id +:+ ".media") Hp1 Hp2 ltac:(unfold mnames; set_solver)
       ltac:(unfold mnames; rewrite str_app_assoc; set_solver) (disk w1)) in Hs1 as [Hw2 Hc2]; [|done..]);
    pose proof (within_mono _ _ (staged_names id) _ _ Hmn Hw2) as Hw2'; [done|].
  destruct (Hc2 _ eq_refl) as [-> Hcontent].
  assert (open_root root (disk w2)) as Ho2 by by eapply within_open.
  apply io_bind_inv in Hr as [(e & Hs3 & ->)|(xmp & w3 & Hs3 & Hr)];
    apply (sidecar_step staging _ operation sidecar (disk w2) _ _ _ Hid Ho2 ltac:(done)) in Hs3; cbv zeta in Hs3.
  - split; [|done]. destruct Hs3 as (w4 & Hw4 & [->| ->]).
    + etrans; [exact Hw2'|]. by eapply within_mono.
    + apply discard_within; [done|unfold staged_names; set_solver|done|].
      etrans; [exact Hw2'|]. by eapply within_mono.
  - destruct Hs3 as [Hw3 Hx]. injection Hr as <- <-.
    assert (within root (staged_names id) (disk w1) (disk w3)) as Hw3'
      by (etrans; [exact Hw2'|]; by eapply within_mono).
    split; [done|]. intros prepared [= <-]. split; cbn.
    + exists media. split_and!; try done; [by rewrite Hindex|]. intros _. split_and!; [done|by left|].
      eapply within_staged_content; [exact Hw3| |exact Hcontent]. intros name Hn He.
      apply app_inj_tail in He as [_ He]. unfold xnames in Hn. rewrite !elem_of_cons in Hn.
      destruct Hn as [->|[->|Hn]]; [..|by apply elem_of_nil in Hn];
        by apply (staged_names_distinct id) in He.
    + intros path n ->. destruct sidecar as [source|], (uo_xmp_sidecar operation) as [expected|] eqn:He; try done.
      destruct Hx as (path' & [= -> ->] & Hstaged). destruct Hsidecar as (expected' & [= <-] & Hsf & Hl & Hdig).
      exists expected, source. split_and!; try done. right. split; [|done]. cbn. set_solver.
    + intros ->. destruct sidecar as [source|], (uo_xmp_sidecar operation) as [expected|] eqn:He; try done.
      by destruct Hx as (? & ? & _).
Qed.
(** ** Opening *)


Context {C : Type} `{!ImportConfig C, !ImportSource W C, !ImportLimits C}.

(** The directory of a plan *)
Definition import_root (checkpoint bytes : string) : string :=
  run_root IMPORT_STAGING_PREFIX checkpoint bytes.

(** Opening the staging directory of an import removes what an earlier run of the same
    plan left there and creates the directory anew.  Whatever fails, nothing disappears but
    that directory and regular files in it that have the name of a staged file, and nothing
    appears but the directory; anything else in it stops the import.  On success the
    directory is there, and not behind a link. *)
Theorem import_staging_opened checkpoint plan (config : C) bytes w r w' :
  json_upload_plan plan = Some bytes → unlinked (disk w) (key (import_root checkpoint bytes)) →
  open_import_staging checkpoint plan config w = (r, w') →
  ∃ d, cleaned (import_root checkpoint bytes) (disk w) d
    ∧ match r with
      | Ok staging => ist_root staging = import_root checkpoint bytes
          ∧ d !! key (ist_root staging) = None
          ∧ disk w' = <[key (ist_root staging) := Node_Dir]> d
          ∧ open_root (ist_root staging) (disk w')
      | Err _ => disk w' = d
      end.
Proof.
  intros Hbytes Hu Hr.
  assert (∀ root, cleaned root (disk w) (disk w)) as Hrefl by (intros root p; by left).
  unfold open_import_staging in Hr.
  apply io_bind_inv in Hr as [(e & [_ <-]%lift_Err & ->)|(u1 & w1 & [_ <-]%lift_Ok & Hr)]; [by eexists|].
  apply io_bind_inv in Hr as [(e & [_ <-]%lift_Err & ->)|(u2 & w1 & [_ <-]%lift_Ok & Hr)]; [by eexists|].
  apply io_bind_inv in Hr as [(e & Hd%validate_real_directory_disk & ->)|(u3 & w1 & Hd%validate_real_directory_disk & Hr)];
    [exists (disk w'); by rewrite Hd|]. rewrite <-Hd in *. rewrite Hbytes in Hr. cbn [ok_or] in Hr.
  apply io_bind_inv in Hr as [(e & [[=] _]%lift_Err & _)|(b & w2 & [[= <-] <-]%lift_Ok & Hr)].
  apply (fresh_root_step (import_root checkpoint bytes)) in Hr as (d & Hc & Hr); [|by apply run_root_named|done].
  exists d. split; [done|]. destruct r as [staging|e]; [|done]. by destruct Hr as [-> Hr].
Qed.

(** C22: a file is handed to the upload only when it is the one of the plan.  A member of an
    archive is then a file of the open staging directory with the planned length and
    SHA-256 digest, and the SHA-1 that is sent is its own; so is its sidecar.  A file that
    does not lie in an archive is used in place.  In every outcome nothing but the staged
    files of this operation changes. *)
Theorem import_files_verified staging resolved operation w r w' :
  contains_byte "/" (uo_operation_id operation) = false → open_root (ist_root staging) (disk w) →
  prepare_import staging resolved operation w = (r, w') →
  within (ist_root staging) (staged_names (uo_operation_id operation)) (disk w) (disk w')
  ∧ ∀ prepared, r = Ok prepared → prepared_exact staging resolved operation prepared (disk w').
Proof. apply prepare_import_step. Qed.
End staging.

(** ** A concrete directory *)

Section witnesses.
#[local] Existing Instances sample_codec sample_time.
#[local] Instance plain_unicode : UnicodeLib := {| nfc := id; to_lowercase := to_ascii_lowercase |}.

(** The tree, and what is left of the member of the archive that is open *)
Record Shelf := { sh_disk : Disk; sh_left : string }.
Definition on_disk (d : Disk) (w : Shelf) : Shelf := {| sh_disk := d; sh_left := sh_left w |}.

#[local] Instance shelf_cancellation : Cancellation Shelf := {| is_cancelled w := (false, w) |}.
Definition zip_metadata : ScanMeta := {|
  sm_type := FileType.File; sm_mode := 0; sm_len := 9; sm_modified := None; sm_created := None;
  sm_dev := 0; sm_ino := 0 |}.
#[local] Instance shelf_files : ScanFs Shelf := {|
  sf_symlink_metadata _ w := (Some zip_metadata, w); sf_metadata _ w := (Some zip_metadata, w);
  sf_read_dir _ w := (Some [], w); sf_open _ w := (true, w);
  sf_file_metadata w := (Some zip_metadata, w); sf_read _ w := (None, w) |}.
Definition zip_member : ZipEntry := {|
  ze_name := "photo.jpg"; ze_enclosed_name := Some "photo.jpg"; ze_is_dir := false; ze_is_file := true;
  ze_is_symlink := false; ze_encrypted := false; ze_compression := CompressionMethod.Stored;
  ze_size := 5; ze_compressed_size := 5; ze_last_modified := None |}.
#[local] Instance shelf_zip : ZipReader Shelf := {|
  zip_new w := (Some 1, w);
  zip_by_index _ w := (Some zip_member, w);
  zip_read _ w := (Some (sh_left w), {| sh_disk := sh_disk w; sh_left := "" |});
  zip_left w := len (sh_left w) |}.
#[local] Instance shelf_fs : DestinationFs Shelf := {|
  node_metadata p w := match sh_disk w !! key p with
    | Some n => (Ok (node_type n, match n with Node_File c => len c | _ => 0 end), w)
    | None => (Err IoErrorKind.NotFound, w) end;
  fs_create_dir p w := match sh_disk w !! key p with
    | Some _ => (Err IoErrorKind.Other, w) | None => (Ok tt, on_disk (<[key p := Node_Dir]> (sh_disk w)) w) end;
  fs_remove_file p w := (Ok tt, on_disk (delete (key p) (sh_disk w)) w);
  fs_rename p q w := match sh_disk w !! key p with
    | Some n => (Ok tt, on_disk (<[key q := n]> (delete (key p) (sh_disk w))) w)
    | None => (Err IoErrorKind.NotFound, w) end;
  fs_create_new p w := match sh_disk w !! key p with
    | Some _ => (Err IoErrorKind.Other, w) | None => (Ok tt, on_disk (<[key p := Node_File ""]> (sh_disk w)) w) end;
  fs_write_all p chunk w := match sh_disk w !! key p with
    | Some (Node_File c) => (Ok tt, on_disk (<[key p := Node_File (c +:+ chunk)]> (sh_disk w)) w)
    | _ => (Err IoErrorKind.Other, w) end;
  fs_sync_all _ w := (Ok tt, w); fs_open _ w := (Err IoErrorKind.Other, w);
  fs_read _ w := (Err IoErrorKind.Other, w); content_length _ := None |}.
#[local] Instance shelf_staging : StagingFs Shelf := {|
  fs_read_dir p w :=
    (Ok (omap (λ k, match decide (k = key p ++ [default "" (last k)]) with
                    | left _ => Some (Ok (default "" (last k))) | right _ => None end)
           (map fst (map_to_list (sh_disk w)))), w);
  fs_remove_dir p w := (Ok tt, on_disk (delete (key p) (sh_disk w)) w) |}.
#[local] Instance shelf_disk : DestinationDisk Shelf :=
  {| disk := sh_disk; resolve d p := d !! key p; unread _ := "" |}.

#[local] Instance shelf_disk_laws : DiskLaws Shelf.
Proof.
  split; try done.
  - intros p w r w'. cbn. destruct (sh_disk w !! key p) as [n|] eqn:Hn; intros [= <- <-]; [|done].
    split; [done|]. exists n. split_and!; [done..|]. by intros c ->.
  - intros p w r w'. cbn. destruct (sh_disk w !! key p) eqn:Hn; by intros [= <- <-] _.
  - intros p w r w'. cbn. by intros [= <- <-] _.
  - intros p q w c r w'. cbn. intros Hr _ _ Hn. rewrite Hn in Hr. by injection Hr as <- <-.
  - intros p w r w'. cbn. destruct (sh_disk w !! key p) eqn:Hn; by intros [= <- <-] _.
  - intros p chunk w c r w'. cbn. intros Hr _ Hn. rewrite Hn in Hr. by injection Hr as <- <-.
  - intros p w r w'. cbn. by intros [= _ <-].
  - intros p w r w'. cbn. by intros [= <- <-].
  - intros n w r w'. cbn. by intros [= <- <-] _.
Qed.
#[local] Instance shelf_zip_laws : ZipLaws Shelf.
Proof.
  split.
  - intros n w chunk w'. cbn. intros [= <- <-]. cbn. unfold len at 1. simpl. lia.
  - intros w b w'. cbn. by intros [= _ <-].
  - intros w. apply Zle_0_nat.
Qed.
#[local] Instance shelf_cleanup_laws : CleanupLaws Shelf.
Proof.
  split; [apply _|..]; cbn; intros p w r w'; [by intros [= _ <-]|]. by intros [= <- <-] _.
Qed.
#[local] Instance shelf_laws : StagingLaws Shelf.
Proof.
  split; try apply _; cbn;
    try (intros w r w'; by intros [= _ <-]);
    try (intros i w r w'; by intros [= _ <-]).
  intros p chunk w r w'. destruct (sh_disk w !! key p) as [[]|]; by intros [= _ <-].
Qed.

#[local] Instance shelf_config : ImportConfig unit := {|
  validate_import _ := Ok tt; source_kind _ := Folder; identity _ := Ok "folder" |}.
#[local] Instance shelf_source : ImportSource Shelf unit := {|
  upload_config _ := default_config; scan_resolved _ _ _ w := (Ok (sample_scan 1 Folder None), w) |}.
#[local] Instance shelf_limits : ImportLimits unit := {| archive_limits _ := {|
  al_max_entry_bytes := 1000; al_max_compression_ratio := 10; al_compression_ratio_grace_bytes := 100 |} |}.

(** A staged file that an earlier run left, and a foreign file beside the directory *)
Definition shelf_plan : UploadPlan := sample_upload_plan 1 Folder sample_pair.
Definition shelf_root : string := import_root "/state/run.sqlite" "2".
Definition shelf_before : Shelf := {|
  sh_disk := list_to_map [(["/"], Node_Dir); (["/"; "state"], Node_Dir);
    (["/"; "takeout.zip"], Node_File "archive"); (["/"; "state"; "notes.txt"], Node_File "mine");
    (key shelf_root, Node_Dir); (key shelf_root ++ [sample_digest +:+ ".media.tmp"], Node_File "ph")];
  sh_left := "photo" |}.
Definition shelf_opened : result ExecutorError ImportStaging * Shelf :=
  open_import_staging "/state/run.sqlite" shelf_plan tt shelf_before.

Example shelf_opened_result :
  match shelf_opened with
  | (Ok staging, w) => String.eqb (ist_root staging) shelf_root
      && bool_decide (sh_disk w = list_to_map [(["/"], Node_Dir); (["/"; "state"], Node_Dir);
           (["/"; "takeout.zip"], Node_File "archive"); (["/"; "state"; "notes.txt"], Node_File "mine"); (key shelf_root, Node_Dir)])
  | _ => false
  end = true.
Proof. vm_compute. reflexivity. Qed.

Lemma shelf_before_unlinked k : unlinked (disk shelf_before) k.
Proof.
  assert (map_Forall (λ _ n, n ≠ Node_Link) (sh_disk shelf_before)) as Hn
    by (apply (bool_decide_eq_true_1 _); vm_compute; reflexivity).
  intros q c r _ _ Hl. by eapply Hn.
Qed.

Lemma import_staging_opened_witness : ∃ staging w d, shelf_opened = (Ok staging, w)
  ∧ cleaned shelf_root (sh_disk shelf_before) d ∧ sh_disk w = <[key shelf_root := Node_Dir]> d.
Proof.
  pose proof shelf_opened_result as Hok. destruct shelf_opened as [[staging|e] w] eqn:Hrun; [|discriminate Hok].
  assert (json_upload_plan shelf_plan = Some "2") as Hb by (vm_compute; reflexivity).
  destruct (import_staging_opened "/state/run.sqlite" shelf_plan tt "2" shelf_before (Ok staging) w
              Hb (shelf_before_unlinked _) Hrun) as (d & Hc & Hroot & _ & Hd & _).
  rewrite Hroot in Hd. exists staging, w, d. exact (conj eq_refl (conj Hc Hd)).
Defined.

(** A member of an archive, staged in that directory *)
Definition shelf_file : ResolvedSourceFile := {|
  rsf_native_path := "/takeout.zip"; rsf_archive_index := Some 0; rsf_byte_len := 5;
  rsf_content_sha256 := sha256_hex "photo"; rsf_content_sha1_base64 := "photo";
  rsf_created_at_unix_ms := None; rsf_modified_at_unix_ms := None |}.
Definition shelf_operation : UploadOperation := {|
  uo_operation_id := sample_digest; uo_relative_path := "photo.jpg"; uo_media_kind := Media_Image;
  uo_byte_len := 5; uo_content_sha256 := sha256_hex "photo"; uo_created_at_unix_ms := 0;
  uo_modified_at_unix_ms := 0; uo_xmp_sidecar := None; uo_normalized_metadata := None; uo_role := Standalone |}.
Definition shelf_scan : ResolvedFolderPlan := {|
  rfp_plan := sample_plan []; rfp_files := <["photo.jpg" := shelf_file]> ∅ |}.
Definition shelf_stage : ImportStaging := {|
  ist_root := "/state"; ist_buffer_bytes := 3; ist_max_entry_bytes := 1000;
  ist_max_compression_ratio := 10; ist_compression_ratio_grace_bytes := 100 |}.
Definition shelf_prepared : result ExecutorError PreparedImportAsset * Shelf :=
  prepare_import shelf_stage shelf_scan shelf_operation shelf_before.
Lemma shelf_prepared_Ok : is_ok shelf_prepared.1 = true.
Proof. vm_compute. reflexivity. Qed.
Lemma shelf_state_open : open_root "/state" (disk shelf_before).
Proof. split; [discriminate|]. split; [apply shelf_before_unlinked|vm_compute; reflexivity]. Qed.

Lemma import_files_verified_witness : ∃ prepared w, shelf_prepared = (Ok prepared, w)
  ∧ prepared_exact shelf_stage shelf_scan shelf_operation prepared (sh_disk w).
Proof.
  pose proof shelf_prepared_Ok as Hok. destruct shelf_prepared as [[prepared|e] w] eqn:Hrun; [|discriminate Hok].
  destruct (import_files_verified shelf_stage shelf_scan shelf_operation shelf_before (Ok prepared) w
              eq_refl shelf_state_open Hrun) as [_ Hp].
  exists prepared, w. exact (conj eq_refl (Hp prepared eq_refl)).
Defined.
End witnesses.
