(* ===== verification/MigrationApply.v ===== *)
(** * MigrationApply: one run of a migration
    ([crates/immich-executor/src/migration_staging.rs], [migration_apply.rs])

    Before an asset is uploaded to the new server its original is downloaded from the
    old one into the staging directory, and renamed only when its length and both
    digests are those of the plan.  A run reads the inventory of the old server again,
    accepts the plan only when the inventory still gives exactly it, and then does the
    operations of its execution plan as an import does: one journal, one order, the same
    effects.  Only the files come from the old server. *)
From Stdlib Require Import Ascii.
From stdpp Require Import strings gmap.
From S2P Require Export Net Staging ExecutionPlan ImportDryRun.

Definition MIGRATION_STAGING_PREFIX : string := ".immich-rs-migration-stage-".

(** [base64::STANDARD.encode] *)
Class Base64Lib := { base64_encode : string → string }.

Record MigrationStaging := {
  mst_root : string;
  mst_max_asset_bytes : Z;
}.

Record PreparedMigrationAsset := {
  pma_path : string;
  pma_file_name : string;
  pma_sha1_base64 : string;
}.

(** ** [hex_sha1_base64] *)

(** [u8::from_str_radix(pair, 16)] of two bytes, which may start with a plus sign; bytes
    that are not UTF-8 have no digit. *)
Definition hex_pair (a b : ascii) : option Z :=
  if Ascii.eqb a "+" then to_digit 16 b
  else
    high ← to_digit 16 a;
    low ← to_digit 16 b;
    Some (16 * high + low).

(** [as_bytes().chunks_exact(2).map(..).collect()] *)
Fixpoint hex_pairs (l : list ascii) : option (list ascii) :=
  match l with
  | a :: b :: l =>
    byte ← hex_pair a b;
    rest ← hex_pairs l;
    Some (ascii_of_N (Z.to_N byte) :: rest)
  | _ => Some []
  end.

Definition hex_sha1_base64 `{Base64Lib} (value : string) : result ExecutorError string :=
  _ ← fail_if (negb (len value =? 40)) source_changed;
  bytes ← ok_or (hex_pairs (bytes value)) source_changed;
  Ok (base64_encode (String.string_of_list_ascii bytes)).

Section staging.
  Context {W : Type} `{UrlLib, TlsLib, Codec, TimeLib, Cancellation W, !ReadTransport W,
    !InventoryTransport W, !ArchiveCodec, !DestinationFs W, !StagingFs W, Base64Lib}.
Notation call := (io W ExecutorError).

(** [MigrationStaging::open] *)
Definition open_migration_staging (checkpoint : string) (plan : MigrationPlan) (max_asset_bytes : Z) :
    call MigrationStaging :=
  _ ← lift (map_err (λ _, invalid_plan) (Migration.validate plan));
  _ ← lift (fail_if (max_asset_bytes =? 0) invalid_configuration);
  let parent := checkpoint_parent checkpoint in
  _ ← validate_real_directory parent;
  plan_bytes ← lift (ok_or (json_migration_plan plan) invariant_error);
  let root := path_join parent (MIGRATION_STAGING_PREFIX +:+ sha256_hex plan_bytes) in
  _ ← cleanup_exact_root root;
  _ ← create_private_directory root;
  mret {| mst_root := root; mst_max_asset_bytes := max_asset_bytes |}.

(** The loop of [download] gives the bytes it hashed. *)
Fixpoint receive_original (fuel : nat) (byte_len max_bytes : Z) (temporary_path : string)
    (download : HttpResponse) (observed : Z) (content : string) : prog W ExecutorError (Z * string) :=
  match fuel with
  | O => λ _, None
  | S fuel =>
    '(chunk, download) ← run_io (io_map_err map_client_error (next_chunk download));
    match chunk with
    | None => mret (observed, content)
    | Some chunk =>
      observed ← run_lift (ok_or (checked_add observed (len chunk)) source_changed);
      _ ← run_lift (fail_if ((byte_len <? observed) || (max_bytes <? observed)) source_changed);
      _ ← run_io (at_destination (fs_write_all temporary_path chunk));
      receive_original fuel byte_len max_bytes temporary_path download observed (content +:+ chunk)
    end
  end.

Definition receive_whole (staging : MigrationStaging) (asset : MigrationAsset) (temporary_path : string)
    (download : HttpResponse) : call (Z * string) :=
  Staging.total (receive_original (S (length (hr_chunks download))) (ma_byte_len asset)
           (mst_max_asset_bytes staging) temporary_path download 0 "").

Definition download_staged (staging : MigrationStaging) (client : ImmichReadClient)
    (server : NegotiatedServer) (asset : MigrationAsset) (temporary_path final_path : string) : call unit :=
  download ← io_map_err map_client_error (download_original client server (ma_source_asset_id asset));
  _ ← lift (fail_if (is_some_and (content_length download) (λ length,
        negb (length =? ma_byte_len asset) || (mst_max_asset_bytes staging <? length))) source_changed);
  _ ← private_file temporary_path;
  '(observed, content) ← receive_whole staging asset temporary_path download;
  _ ← lift (fail_if (negb (observed =? ma_byte_len asset)
                     || negb (String.eqb (hex (sha1 content)) (ma_checksum_sha1 asset))
                     || negb (String.eqb (sha256_hex content) (ma_content_sha256 asset))) source_changed);
  _ ← at_destination (fs_sync_all temporary_path);
  _ ← at_destination (fs_rename temporary_path final_path);
  validate_real_file final_path.

(** [MigrationStaging::prepare] *)
Definition prepare_migration (staging : MigrationStaging) (client : ImmichReadClient)
    (server : NegotiatedServer) (asset : MigrationAsset) : call PreparedMigrationAsset :=
  _ ← lift (fail_if (mst_max_asset_bytes staging <? ma_byte_len asset) invalid_configuration);
  let final_path := path_join (mst_root staging) (ma_operation_id asset +:+ ".media") in
  let temporary_path := path_join (mst_root staging) (ma_operation_id asset +:+ ".media.tmp") in
  _ ← or_discard temporary_path final_path
        (download_staged staging client server asset temporary_path final_path);
  sha1_base64 ← lift (hex_sha1_base64 (ma_checksum_sha1 asset));
  mret {| pma_path := final_path; pma_file_name := ma_original_file_name asset;
          pma_sha1_base64 := sha1_base64 |}.
End staging.

(** [PreparedMigrationAsset::verified] *)
Definition verified_migration (prepared : PreparedMigrationAsset) : VerifiedAsset := {|
  va_media_path := pma_path prepared; va_file_name := pma_file_name prepared;
  va_sha1_base64 := pma_sha1_base64 prepared; va_xmp := None |}.

(** [Drop for PreparedMigrationAsset] and [Drop for MigrationStaging] *)
Definition drop_prepared_migration {W} `{!DestinationFs W} (prepared : PreparedMigrationAsset) (w : W) : W :=
  discard_file (pma_path prepared) w.
Definition drop_migration_staging {W} `{!DestinationFs W, !StagingFs W} (staging : MigrationStaging)
    (w : W) : W :=
  (cleanup_exact_root (mst_root staging) w).2.

#[export] Instance MigrationServer_eq_dec : EqDecision MigrationServer.
Proof. solve_decision. Defined.
#[export] Instance MigrationAsset_eq_dec : EqDecision MigrationAsset.
Proof. solve_decision. Defined.
#[export] Instance MigrationAlbum_eq_dec : EqDecision MigrationAlbum.
Proof. solve_decision. Defined.
#[export] Instance MigrationPlan_eq_dec : EqDecision MigrationPlan.
Proof. solve_decision. Defined.

(** The clients and the probe proofs of both ends *)
Record MigrationApplyContext `{UrlLib, TlsLib} := {
  mac_source_client : ImmichReadClient;
  mac_source_server : NegotiatedServer;
  mac_destination_client : ImportIdentity;
  mac_destination_server : NegotiatedServer;
}.

(** ** Checks *)
Section checks.
  Context `{UrlLib, TlsLib, Codec, !MigrationCodec, TimeLib}.

Definition validate_plan_config (plan : MigrationPlan) (config : MigrationPlanningConfig) :
    result ExecutorError unit :=
  _ ← map_err (λ _, invalid_plan) (Migration.validate plan);
  validated ← planning_validate config;
  identity ← planning_identity validated;
  fail_if (negb (String.eqb identity (mp_configuration_sha256 plan))) invalid_plan.

Definition validate_context (plan : MigrationPlan) (config : MigrationPlanningConfig)
    (source_server : NegotiatedServer) (destination : ImportIdentity)
    (destination_server : NegotiatedServer) : result ExecutorError unit :=
  _ ← validate_plan_config plan config;
  fail_if (negb (
    bool_decide (migration_server source_server = mp_source_server plan)
    && bool_decide (migration_server destination_server = mp_destination_server plan)
    && bool_decide (import_compatibility destination = ms_compatibility (mp_destination_server plan))
    && negb (import_production destination))) invalid_plan.

(** The hashes by which a run assembles the plan again *)
Definition planned_hashes (plan : MigrationPlan) : gmap string string :=
  collect_map ma_source_asset_id ma_content_sha256 (mp_assets plan).
End checks.

Section verify.
  Context {W : Type} `{UrlLib, TlsLib, Codec, !MigrationCodec, TimeLib, Cancellation W, !ReadTransport W,
    !InventoryTransport W, !ArchiveCodec}.

Definition verify_current_source (plan : MigrationPlan) (config : MigrationPlanningConfig)
    (source_client : ImmichReadClient) (source_server : NegotiatedServer) :
    prog W (fault ExecutorError) UploadPlan :=
  inventory ← of_client (migration_inventory source_client source_server (mpc_inventory config));
  let hashes := planned_hashes plan in
  observed ← run_lift (map_err Fail (assemble_migration_plan inventory (mp_source_server plan)
               (mp_destination_server plan) hashes config));
  _ ← run_lift (fail_if (negb (bool_decide (observed = plan))) (Fail source_changed));
  run_lift (map_err Fail (execution_plan plan)).

Definition prepare_execution (plan : MigrationPlan) (config : MigrationPlanningConfig)
    (context : MigrationApplyContext) : prog W (fault ExecutorError) UploadPlan :=
  _ ← run_lift (map_err Fail (validate_context plan config (mac_source_server context)
        (mac_destination_client context) (mac_destination_server context)));
  verify_current_source plan config (mac_source_client context) (mac_source_server context).

(** [dry_run_migration] *)
Definition dry_run_migration (plan : MigrationPlan) (config : MigrationPlanningConfig) :
    io W ExecutorError ImportApplyReport :=
  _ ← check_not_cancelled;
  _ ← lift (validate_plan_config plan config);
  execution ← lift (execution_plan plan);
  mret (dry_run_report (up_summary execution)).
End verify.

(** ** The run *)
Section run.
  Context {W : Type} `{UrlLib, TlsLib, Codec, !MigrationCodec, TimeLib, Cancellation W, !ReadTransport W,
    !InventoryTransport W, !ArchiveCodec, !DestinationFs W, !StagingFs W, Base64Lib, UploadClient W,
    ImportClient W, Runtime W, Storage W}.
Notation run := (prog (RunState W) ExecutorError).

Definition source_assets (plan : MigrationPlan) : gmap string MigrationAsset :=
  collect_map ma_operation_id id (mp_assets plan).

(** The asset of one iteration *)
Definition migration_asset_step (plan : MigrationPlan) (config : MigrationPlanningConfig)
    (context : MigrationApplyContext) (staging : MigrationStaging) (state : ImportState)
    (asset_ids : gmap string string) (operation : UploadOperation) : run AssetStep :=
  match state_asset_id state (uo_operation_id operation) with
  | Some asset_id =>
    _ ← on_report (bump Counter.ResumedEffects 1);
    mret (Known asset_id)
  | None =>
    let live_video := live_video_id operation asset_ids in
    if is_image (uo_role operation) && negb (is_some live_video) then
      _ ← append_asset_failure operation;
      mret Skip
    else
      source_asset ← run_lift (ok_or (source_assets plan !! uo_operation_id operation) invalid_plan);
      prepared ← call (prepare_migration staging (mac_source_client context) (mac_source_server context)
                         source_asset);
      outcome ← on_world (apply_operation (mpc_upload config) operation (verified_migration prepared)
                            live_video);
      _ ← on_world (λ w, (tt, drop_prepared_migration prepared w));
      asset_id ← record_asset operation outcome;
      match asset_id with
      | Some asset_id => mret (Uploaded asset_id)
      | None =>
        cancelled ← report_cancelled;
        mret (if cancelled : bool then Stop else Skip)
      end
  end.

Fixpoint migration_loop (plan : MigrationPlan) (config : MigrationPlanningConfig)
    (context : MigrationApplyContext) (staging : MigrationStaging) (state : ImportState)
    (operations : list UploadOperation) (asset_ids : gmap string string) : run (gmap string string) :=
  match operations with
  | [] => mret asset_ids
  | operation :: operations =>
    stop ← on_world is_cancelled;
    if stop : bool then
      _ ← on_report mark_cancelled;
      mret asset_ids
    else
      step ← migration_asset_step plan config context staging state asset_ids operation;
      let metadata (asset_id : string) (asset_ids : gmap string string) :=
        go_on ← apply_metadata (mpc_upload config) operation asset_id state;
        if go_on : bool then migration_loop plan config context staging state operations asset_ids
        else mret asset_ids in
      match step with
      | Known asset_id => metadata asset_id asset_ids
      | Uploaded asset_id => metadata asset_id (<[uo_operation_id operation := asset_id]> asset_ids)
      | Skip => migration_loop plan config context staging state operations asset_ids
      | Stop => mret asset_ids
      end
  end.

(** The staging lives until the function returns. *)
Definition with_migration_staging {A} (staging : MigrationStaging) (m : run A) : run A := λ s,
  match m s with
  | Some (r, s) => Some (r, set_world (drop_migration_staging staging (run_world s)) s)
  | None => None
  end.

(** From the opened journal on *)
Definition migration_body (plan : MigrationPlan) (execution : UploadPlan) (checkpoint : string)
    (config : MigrationPlanningConfig) (context : MigrationApplyContext) : run ImportApplyReport :=
  state ← read_state;
  _ ← run_lift (validate_for_plan state execution);
  staging ← call (open_migration_staging checkpoint plan (mpc_max_asset_bytes config));
  with_migration_staging staging (
    _ ← on_world (λ w, (tt, set_budget (new_budget (max_retries_per_run (mpc_upload config))) w));
    operations ← run_lift (ordered_operations execution);
    asset_ids ← migration_loop plan config context staging state operations
                  (initial_asset_ids execution state);
    cancelled ← report_cancelled;
    _ ← (if negb cancelled && (Z.of_nat (size asset_ids) =? zlen (up_operations execution))
         then apply_albums (mpc_upload config) execution asset_ids state
         else mret tt);
    read_report).

(** [apply_migration]; returns the journal as well, when it was opened. *)
Definition apply_migration (plan : MigrationPlan) (checkpoint : string)
    (file : CheckpointFile ImportConnection) (config : MigrationPlanningConfig)
    (context : MigrationApplyContext) (w : W) :
    option (result (fault ExecutorError) ImportApplyReport * option ImportConnection * W) :=
  '(execution, w) ← prepare_execution plan config context w;
  match execution with
  | Err e => Some (Err e, None, w)
  | Ok execution =>
    let '(_, available, w) := storage w in
    match open_import file execution available with
    | Err e => Some (Err (Fail e), None, w)
    | Ok journal =>
      '(r, s) ← migration_body plan execution checkpoint config context
        {| run_world := w; run_journal := journal; run_report := apply_report execution |};
      Some (map_err Fail r, Some (run_journal s), run_world s)
    end
  end.
End run.
