(* ===== verification/MigrationApplyTheorems.v ===== *)
(** * MigrationApplyTheorems: a migration is verified, resumable and bounded

    The plan is accepted only for an unchanged source; an original is uploaded only when
    its bytes are those of the plan; and the journal of a run grows as that of an import
    does, because the run is an import whose files come from the old server. *)
From Stdlib Require Import Ascii.
From stdpp Require Import strings gmap.
From S2P Require Import ReconcileTheorems.
From S2P Require Export MigrationApply MigrationPlanningTheorems ArchiveApplyTheorems StagingFacts.

(** ** The source *)
Section source.
  Context {W : Type} `{UrlLib, TlsLib, Codec, !MigrationCodec, TimeLib, Cancellation W, !ReadTransport W,
    !InventoryTransport W, !ArchiveCodec}.

(** C25: before a migration writes anything it reads the inventory of the source again, and
    always with an answer.  The plan is accepted only when every asset and album of the
    inventory it has just read is, with the digests of the plan, what the plan says, live
    photo links and metadata included; and a plan that was made from some inventory is
    accepted whenever the source still gives that inventory. *)
Theorem migration_source_verified plan config client server (w : W) :
  ∃ r w', verify_current_source plan config client server w = Some (r, w')
    ∧ (∀ execution, r = Ok execution → execution_plan plan = Ok execution ∧ ∃ inventory w1,
        migration_inventory client server (mpc_inventory config) w = Some (Ok inventory, w1)
        ∧ plan_of inventory (mp_source_server plan) (mp_destination_server plan) (plan_hashes plan) config plan)
    ∧ (∀ inventory w1 source destination hashes,
        migration_inventory client server (mpc_inventory config) w = Some (Ok inventory, w1) →
        assemble_migration_plan inventory source destination hashes config = Ok plan →
        r = map_err Fail (execution_plan plan) ∧ w' = w1).
Proof.
  unfold verify_current_source, mbind, prog_bind, of_client, run_lift.
  destruct (migration_inventory_runs client server (mpc_inventory config) w) as (r & w1 & Hr & _). rewrite Hr.
  destruct r as [inventory|e]; cbn [map_err]; [|eexists _, _; split_and!; [done..|]; by intros].
  change (planned_hashes plan) with (plan_hashes plan).
  assert (∀ inventory' w2 source destination hashes,
    Some (Ok inventory, w1) = Some (@Ok (fault ClientError) _ inventory', w2) →
    assemble_migration_plan inventory' source destination hashes config = Ok plan →
    assemble_migration_plan inventory (mp_source_server plan) (mp_destination_server plan) (plan_hashes plan)
      config = Ok plan ∧ w2 = w1) as Hagain.
  { intros inventory' w2 source destination hashes [= <- <-] Hplan. split; [|done].
    by eapply assemble_again. }
  destruct (assemble_migration_plan inventory _ _ _ config) as [observed|e] eqn:Hplan; cbn [map_err].
  2: { eexists _, _. split_and!; [done..|]. intros i w2 s d h Hi Ha.
       by destruct (Hagain _ _ _ _ _ Hi Ha) as [[=] _]. }
  case_bool_decide as Heq; cbn [negb fail_if].
  2: { eexists _, _. split_and!; [done..|]. intros i w2 s d h Hi Ha.
       by destruct (Hagain _ _ _ _ _ Hi Ha) as [[=] _]. }
  subst observed. eexists _, _. split_and!; [done| |].
  - intros execution He%map_err_Ok. split; [done|]. exists inventory, w1. split; [done|].
    by apply assemble_plan_of in Hplan.
  - intros i w2 s d h Hi Ha. by destruct (Hagain _ _ _ _ _ Hi Ha) as [_ ->].
Qed.
End source.

(** ** A run is an import with other files *)
Section run.
  Context {W : Type} `{UrlLib, TlsLib, Codec, !MigrationCodec, TimeLib, Cancellation W, !ReadTransport W,
    !InventoryTransport W, !ArchiveCodec, !DestinationFs W, !StagingFs W, Base64Lib, UploadClient W,
    ImportClient W, Runtime W, Storage W}.
  Context (plan : MigrationPlan) (checkpoint : string) (context : MigrationApplyContext).

(** A migration scans no folder. *)
#[local] Instance migration_source : ImportSource W MigrationPlanningConfig := {|
  upload_config := mpc_upload;
  scan_resolved _ _ _ w := (Err ScanFailed, w) |}.
#[local] Instance migration_files : Staging W MigrationPlanningConfig := {|
  Stage := MigrationStaging;
  Prepared := PreparedMigrationAsset;
  staging_open _ config := open_migration_staging checkpoint plan (mpc_max_asset_bytes config);
  ImportApply.prepare staging _ operation :=
    source_asset ← lift (ok_or (source_assets plan !! uo_operation_id operation) invalid_plan);
    prepare_migration staging (mac_source_client context) (mac_source_server context) source_asset;
  verified := verified_migration;
  drop_prepared := drop_prepared_migration;
  drop_staging := drop_migration_staging |}.

Lemma asset_step_same config (staging : @Stage W MigrationPlanningConfig migration_files) resolved state ids operation s :
  migration_asset_step plan config context staging state ids operation s
  = asset_step config staging resolved state ids operation s.
Proof.
  unfold migration_asset_step, asset_step. destruct (state_asset_id state _); [done|].
  destruct (_ && _); [done|]. unfold call. cbn [ImportApply.prepare migration_files].
  unfold mbind, prog_bind, run_lift. destruct (source_assets plan !! _); cbn [ok_or]; [done|].
  by destruct s.
Qed.

Lemma loop_same config (staging : @Stage W MigrationPlanningConfig migration_files) resolved state operations : ∀ ids s,
  migration_loop plan config context staging state operations ids s
  = import_loop config staging resolved state operations ids s.
Proof.
  induction operations as [|operation operations IH]; intros ids s; [done|].
  cbn [migration_loop import_loop]. unfold mbind, prog_bind.
  destruct (on_world is_cancelled s) as [[[[]|e] s1]|]; [done| |done..].
  rewrite (asset_step_same config _ resolved).
  destruct (asset_step config staging resolved state ids operation s1) as [[[[id|id| |]|e] s2]|];
    [| | |done..]; [..|apply IH]; cbn [upload_config migration_source];
    destruct (apply_metadata _ _ _ _ s2) as [[[[]|e] s3]|]; done || apply IH.
Qed.

Lemma body_same execution config resolved s :
  migration_body plan execution checkpoint config context s = import_body execution config resolved s.
Proof.
  unfold migration_body, import_body, mbind, prog_bind.
  destruct (read_state s) as [[[state|e] s1]|]; [|done..].
  destruct (run_lift _ s1) as [[[u|e] s2]|]; [|done..]. cbn [staging_open migration_files].
  destruct (call _ s2) as [[[staging|e] s3]|]; [|done..].
  unfold with_migration_staging, with_staging. cbn [drop_staging migration_files upload_config migration_source].
  destruct (on_world _ s3) as [[[u'|e] s4]|]; [|done..].
  destruct (run_lift _ s4) as [[[operations|e] s5]|]; [|done..].
  by rewrite (loop_same config _ resolved).
Qed.
End run.

Lemma execution_planned `{Codec, !CodecLaws, TimeLib} plan execution :
  migration_well_formed plan → execution_plan plan = Ok execution →
  ∃ bytes, json_migration_plan plan = Some bytes ∧ execution = planned_execution plan (sha256_hex bytes).
Proof.
  intros Hwf He. destruct (json_migration_plan plan) as [bytes|] eqn:Hj.
  - exists bytes. rewrite (execution_plan_total plan Hwf bytes Hj) in He. by injection He.
  - exfalso. unfold execution_plan, migration_plan_sha256 in He. rewrite Hj in He.
    apply bind_Ok in He as (u & _ & He). apply bind_Ok in He as (v & Hv%map_err_Ok & _).
    apply bind_Ok in Hv as (x & _ & Hv). apply bind_Ok in Hv as (y & _ & Hv). by apply bind_Ok in Hv as (z & ? & _).
Qed.

Lemma validate_plan_config_Ok `{Codec, !MigrationCodec, TimeLib} plan config :
  validate_plan_config plan config = Ok tt →
  migration_well_formed plan ∧ max_attempts_per_operation (mpc_upload config) <= u32_max.
Proof.
  unfold validate_plan_config. intros (u & Hv%map_err_Ok & (c & Hc & _)%bind_Ok)%bind_Ok. destruct u.
  split; [by apply migration_validate_Ok|]. unfold planning_validate in Hc.
  apply bind_Ok in Hc as (u & Hu & _). unfold config_validate in Hu. destruct u. apply fail_if_Ok in Hu.
  apply negb_false_iff in Hu. unfold config_valid in Hu. bools. unfold u32_max. lia.
Qed.

(** ** Whole runs *)
Section runs.
  Context {W : Type} `{UrlLib, TlsLib, Codec, !CodecLaws, !MigrationCodec, TimeLib, Cancellation W,
    !ReadTransport W, !InventoryTransport W, !ArchiveCodec, !DestinationFs W, !StagingFs W, Base64Lib,
    UploadClient W, !UploadClientLaws W, ImportClient W, !ImportClientLaws W, Runtime W, Storage W}.

(** What a run that opened its journal did *)
Definition migration_done (plan : MigrationPlan) (config : MigrationPlanningConfig)
    (context : MigrationApplyContext) (file : CheckpointFile ImportConnection) (w : W)
    (journal : ImportConnection) : Prop :=
  MigrationApply.validate_context plan config (mac_source_server context) (mac_destination_client context)
    (mac_destination_server context) = Ok tt ∧
  ∃ execution inventory w1 m,
    execution_plan plan = Ok execution ∧
    migration_inventory (mac_source_client context) (mac_source_server context) (mpc_inventory config) w
      = Some (Ok inventory, w1) ∧
    plan_of inventory (mp_source_server plan) (mp_destination_server plan) (plan_hashes plan) config plan ∧
    journal_extended execution file journal ∧
    ups_max_mutations (up_summary execution) = mps_max_mutations (mp_summary plan) ∧
    import_binding execution None = Ok m ∧ Prelude.for_each insert_binding (ic_metadata journal) ∅ = Ok m.

Lemma verify_current_source_runs plan config client server (w : W) :
  ∃ r w', verify_current_source plan config client server w = Some (r, w')
    ∧ ∀ execution, r = Ok execution → execution_plan plan = Ok execution ∧ ∃ inventory w1,
        migration_inventory client server (mpc_inventory config) w = Some (Ok inventory, w1)
        ∧ plan_of inventory (mp_source_server plan) (mp_destination_server plan) (plan_hashes plan) config plan.
Proof.
  unfold verify_current_source, mbind, prog_bind, of_client, run_lift.
  destruct (migration_inventory_runs client server (mpc_inventory config) w) as (r & w1 & Hr & _). rewrite Hr.
  destruct r as [inventory|e]; cbn [map_err]; [|by eexists _, _].
  destruct (assemble_migration_plan _ _ _ _ _) as [observed|e] eqn:Hplan; cbn [map_err]; [|by eexists _, _].
  case_bool_decide as Heq; cbn [negb fail_if]; [|by eexists _, _]. subst observed.
  eexists _, _. split; [done|]. intros execution He%map_err_Ok. split; [done|]. exists inventory, w1.
  split; [done|]. by apply assemble_plan_of in Hplan.
Qed.

Lemma prepare_execution_runs plan config context (w : W) :
  ∃ r w', prepare_execution plan config context w = Some (r, w')
    ∧ ∀ execution, r = Ok execution →
      MigrationApply.validate_context plan config (mac_source_server context) (mac_destination_client context)
        (mac_destination_server context) = Ok tt
      ∧ execution_plan plan = Ok execution ∧ ∃ inventory w1,
        migration_inventory (mac_source_client context) (mac_source_server context) (mpc_inventory config) w
          = Some (Ok inventory, w1)
        ∧ plan_of inventory (mp_source_server plan) (mp_destination_server plan) (plan_hashes plan) config plan.
Proof.
  unfold prepare_execution, mbind, prog_bind, run_lift.
  destruct (MigrationApply.validate_context plan config _ _ _) as [[]|e] eqn:Hctx; cbn [map_err]; [|by eexists _, _].
  destruct (verify_current_source_runs plan config (mac_source_client context) (mac_source_server context) w)
    as (r & w1 & -> & Hok). eexists _, _. split; [done|]. intros execution ->. split; [done|]. by apply Hok.
Qed.

(** C3: a migration always returns and is resumable and bounded.  It opens its journal only
    when the plan belongs to the configuration and to both servers, the destination is not
    in production, and the inventory the run has just read is what the plan says.  Then the
    rows the journal file held stay, with its binding to the execution plan; the run
    appends at most one valid row for every effect that these rows do not settle, and no
    more rows than the mutations the migration plan announced; everything else, and what
    is settled, has the outcome it had in the file; and the journal is accepted again. *)
Theorem migration_run_sound plan checkpoint file config context (w : W) :
  own_journal file → zlen (mp_assets plan) < 2 ^ 60 → zlen (mp_albums plan) < 2 ^ 60 →
  ∃ r j w', apply_migration plan checkpoint file config context w = Some (r, j, w')
    ∧ ∀ journal, j = Some journal → migration_done plan config context file w journal.
Proof.
  intros Hfile Hassets Halbums. unfold apply_migration.
  destruct (prepare_execution_runs plan config context w) as (r & w1 & -> & Hok). cbn [mbind option_bind].
  destruct r as [execution|e]; [|by eexists _, _, _].
  destruct (Hok _ eq_refl) as (Hctx & Hexec & inventory & wi & Hinv & Hplan). clear Hok.
  assert (validate_plan_config plan config = Ok tt) as [Hmwf Hmax]%validate_plan_config_Ok.
  { unfold MigrationApply.validate_context in Hctx. by apply bind_Ok in Hctx as ([] & ? & _). }
  destruct (storage w1) as [[now available] w2].
  destruct (open_import file execution available) as [j0|e] eqn:Ho; [|by eexists _, _, _].
  apply open_import_bound in Ho as Hb. destruct Hb as (Hwf & Hv & m & Hm & Hbind).
  destruct (opened_state _ _ _ _ _ Hfile Ho) as (_ & Hst & _).
  set (s := {| run_world := w2; run_journal := j0; run_report := apply_report execution |}).
  set (resolved := {| rfp_plan := sample_plan []; rfp_files := ∅ |}).
  rewrite (body_same plan checkpoint context execution config resolved s).
  edestruct (import_body_grows (H7 := migration_source) (H8 := migration_files plan checkpoint context)
    config Hmax execution resolved s _ Hwf Hst) as (r & s' & Hbody & Hg).
  rewrite Hbody. cbn [mbind option_bind]. eexists _, _, _. split; [done|]. intros journal [= <-]. split; [done|].
  destruct (execution_planned plan execution Hmwf Hexec) as (bytes & Hj & Hx).
  assert (zlen (up_operations execution) < 2 ^ 60) as Hops.
  { rewrite Hx. cbn. unfold zlen, planned_operations in *. by rewrite length_map. }
  assert (set_len (album_set (up_operations execution)) < 2 ^ 60) as Halb.
  { rewrite Hx. cbn [up_operations planned_execution]. by rewrite album_count_planned. }
  destruct (grown_journal_extended execution file None available s s' Hwf Hv Hops Halb Hfile Ho Hg)
    as [Hext Hmeta].
  exists execution, inventory, wi, m. split_and!; try done; [|by rewrite Hmeta].
  rewrite Hx. cbn. by destruct (summary_planned plan Hmwf) as (_ & _ & _ & _ & _ & Hmut).
Qed.
End runs.

(** ** The files *)

Lemma to_digit_hex n : 0 <= n < 16 → to_digit 16 (hex_digit n) = Some n.
Proof.
  intros Hn. assert (n ∈ [0; 1; 2; 3; 4; 5; 6; 7; 8; 9; 10; 11; 12; 13; 14; 15]) as Hin
    by (rewrite !elem_of_cons; lia).
  repeat (apply elem_of_cons in Hin as [->|Hin]; [vm_compute; reflexivity|]). by apply elem_of_nil in Hin.
Qed.

Lemma hex_digit_plus n : 0 <= n < 16 → Ascii.eqb (hex_digit n) "+" = false.
Proof.
  intros Hn. assert (n ∈ [0; 1; 2; 3; 4; 5; 6; 7; 8; 9; 10; 11; 12; 13; 14; 15]) as Hin
    by (rewrite !elem_of_cons; lia).
  repeat (apply elem_of_cons in Hin as [->|Hin]; [vm_compute; reflexivity|]). by apply elem_of_nil in Hin.
Qed.

Lemma code_bounds a : 0 <= code a < 256.
Proof. unfold code. pose proof (N_ascii_bounded a). lia. Qed.

(** Reading a hexadecimal digest gives the digest. *)
Lemma hex_pairs_hex s : hex_pairs (bytes (hex s)) = Some (bytes s).
Proof.
  induction s as [|a s IH]; [done|]. pose proof (code_bounds a).
  assert (0 <= code a / 16 < 16) by (split; [apply Z.div_pos; lia|apply Z.div_lt_upper_bound; lia]).
  pose proof (Z.mod_pos_bound (code a) 16 ltac:(lia)).
  change (bytes (hex (String a s))) with
    (hex_digit (code a / 16) :: hex_digit (code a mod 16) :: bytes (hex s)).
  change (bytes (String a s)) with (a :: bytes s). cbn [hex_pairs]. unfold hex_pair.
  rewrite hex_digit_plus, !to_digit_hex by done. cbn [mbind option_bind]. rewrite IH. cbn [mbind option_bind].
  rewrite <-Z.div_mod by done. unfold code. rewrite N2Z.id. by rewrite ascii_N_embedding.
Qed.

Section files.
  Context {W : Type} `{DestinationLaws W, !StagingFs W, !CleanupLaws W, !Codec, !TimeLib, !ReadTransport W,
    !ArchiveCodec, !Base64Lib}.
  Context (staging : MigrationStaging) (asset : MigrationAsset).
Notation root := (mst_root staging).
Notation final_name := (ma_operation_id asset +:+ ".media").
Notation names := [final_name; final_name +:+ ".tmp"].
Notation temporary := (path_join root (final_name +:+ ".tmp")).

(** The staged original is the planned one. *)
Definition original_staged (d : Disk) : Prop :=
  ∃ content, d !! (key root ++ [final_name]) = Some (Node_File content)
    ∧ len content = ma_byte_len asset ∧ hex (sha1 content) = ma_checksum_sha1 asset
    ∧ sha256_hex content = ma_content_sha256 asset.

Section one_file.
  Context (final_plain : plain final_name) (temporary_plain : plain (final_name +:+ ".tmp")).

Lemma receive_original_runs d0 fuel max_bytes download n content :
  open_root root d0 → (length (hr_chunks download) < fuel)%nat → n = len content →
  triple (λ w, within root names d0 (disk w) ∧ disk w !! key temporary = Some (Node_File content))
    (receive_original fuel (ma_byte_len asset) max_bytes temporary download n content)
    (λ r w, within root names d0 (disk w) ∧ ∀ n c, r = Ok (n, c) →
      disk w !! key temporary = Some (Node_File c) ∧ n = len c).
Proof.
  intros Ho. revert download n content. induction fuel as [|fuel IH]; intros download n content Hf Hn; [lia|].
  cbn [receive_original].
  set (P := λ w, within root names d0 (disk w) ∧ disk w !! key temporary = Some (Node_File content)).
  eapply (triple_seq P _ P (λ r, ∀ chunk rest, r = Ok (Some chunk, rest) →
    (length (hr_chunks rest) < fuel)%nat)); [|intros e w _ [Hw _]; by split|].
  { apply triple_io. intros w r w' (r0 & Hr & ->)%io_map_err_inv Hw. unfold P in *.
    apply next_chunk_step in Hr as [-> Hl]. split; [done|].
    intros chunk rest ->%map_err_Ok. specialize (Hl _ _ eq_refl). lia. }
  intros [[chunk|] rest] Hl.
  2: { apply triple_ret. intros w [Hw Hk]. split; [done|]. by intros ?? [= <- <-]. }
  specialize (Hl _ _ eq_refl).
  eapply (triple_seq P _ P (λ r, ∀ n', r = Ok n' → n' = n + len chunk)); [|intros e w _ [Hw _]; by split|].
  { apply triple_lift. intros w Hw. split; [done|]. intros n' Ha%ok_or_Ok.
    by apply checked_add_Some in Ha as [-> _]. }
  intros n' Hn'. rewrite (Hn' n' eq_refl). clear n' Hn'.
  eapply (triple_seq P _ P (λ _, True)); [by apply triple_lift|intros e w _ [Hw _]; by split|].
  intros [] _. eapply (triple_bind P _ (λ r w, within root names d0 (disk w) ∧ ∀ u : unit, r = Ok u →
    disk w !! key temporary = Some (Node_File (content +:+ chunk)))); [|intros e w [Hw _]; by split|].
  - apply triple_io. intros w r w' (r0 & Hr & ->)%io_map_err_inv [Hw Hk].
    destruct (staged_unlinked root _ names d0 w temporary_plain ltac:(set_solver) Ho Hw) as [Hkey Hu].
    eapply write_all_law in Hr; [|exact Hu|exact Hk].
    destruct r0 as [[]|e]; [|destruct Hr as [c' Hr]]; rewrite Hr;
      (split; [etrans; [exact Hw|]; rewrite Hkey; apply within_alter; set_solver|]); [|done].
    intros _ _. by rewrite lookup_insert_eq.
  - intros []. eapply triple_weaken; [apply (IH rest (n + len chunk) (content +:+ chunk))|..]; [done| | |done].
    + rewrite len_app. lia.
    + intros w [Hw Hk]. split; [done|]. by apply (Hk tt).
Qed.

Lemma download_staged_step client server d0 w r w' :
  open_root root d0 → within root names d0 (disk w) →
  download_staged staging client server asset temporary (path_join root final_name) w = (r, w') →
  within root names d0 (disk w') ∧ (is_ok r = true → original_staged (disk w')).
Proof.
  intros Ho Hw Hr. unfold download_staged in Hr.
  apply io_bind_inv in Hr as [(e & Hs & ->)|(download & w1 & Hs & Hr)];
    apply io_map_err_inv in Hs as (r1 & Hs & _); apply download_original_disk in Hs as Hd;
    [by rewrite Hd|]. rewrite <-Hd in Hw. clear Hd Hs r1.
  apply io_bind_inv in Hr as [(e & [_ <-]%lift_Err & ->)|(u2 & w2 & [_ <-]%lift_Ok & Hr)]; [done|].
  destruct (staged_unlinked root _ names d0 w1 temporary_plain ltac:(set_solver) Ho Hw) as [Hkey Hu].
  apply io_bind_inv in Hr as [(e & Hs & ->)|(u3 & w3 & Hs & Hr)];
    apply io_map_err_inv in Hs as (r0 & Hs & He); apply create_new_law in Hs; [|done| |done].
  { destruct r0; [done|]. by rewrite Hs. }
  destruct r0 as [[]|]; [|done]. destruct Hs as [_ Hs]. rewrite Hkey in Hs.
  assert (within root names d0 (disk w3)) as Hw3.
  { rewrite Hs. etrans; [exact Hw|]. apply within_alter. set_solver. }
  assert (disk w3 !! key temporary = Some (Node_File "")) as Hk3 by (by rewrite Hkey, Hs, lookup_insert_eq).
  clear Hs.
  apply io_bind_inv in Hr as [(e & Hs4 & ->)|([observed content] & w4 & Hs4 & Hr)];
    (eapply (total_step _ _ _ w3 _ _ (receive_original_runs d0 _ _ download 0 "" Ho (Nat.lt_succ_diag_r _) eq_refl))
       in Hs4 as [Hw4 Hc4]; [|by split]); [done|].
  destruct (Hc4 _ _ eq_refl) as [Hk4 ->].
  apply io_bind_inv in Hr as [(e & [_ <-]%lift_Err & ->)|(u5 & w5 & [Hsame%fail_if_Ok <-]%lift_Ok & Hr)]; [done|].
  apply io_bind_inv in Hr as [(e & Hs & ->)|(u6 & w6 & Hs & Hr)];
    apply io_map_err_inv in Hs as (r6 & Hs & _); apply sync_all_law in Hs as Hd; [by rewrite Hd|].
  rewrite <-Hd in Hw4, Hk4. clear Hd Hs.
  destruct (staged_unlinked root _ names d0 w6 temporary_plain ltac:(set_solver) Ho Hw4) as [_ Htu].
  destruct (staged_unlinked root _ names d0 w6 final_plain ltac:(set_solver) Ho Hw4) as [Hfk Hfu].
  assert (∀ r7 w7, fs_rename temporary (path_join root final_name) w6 = (r7, w7) →
    within root names d0 (disk w7) ∧ (is_ok r7 = true → original_staged (disk w7))) as Hren.
  { intros r7 w7 Hs. eapply rename_law in Hs; [|exact Htu|exact Hfu|exact Hk4]. rewrite Hfk, Hkey in Hs.
    destruct r7 as [u|e]; rewrite Hs; [|done]. split.
    - etrans; [exact Hw4|]. etrans; [apply (within_alter _ _ (final_name +:+ ".tmp") _ None); set_solver|].
      apply within_alter. set_solver.
    - intros _. bools. exists content. rewrite lookup_insert_eq. split_and!; [done|lia|by apply String.eqb_eq..]. }
  apply io_bind_inv in Hr as [(e & Hs & ->)|(u7 & w7 & Hs & Hr)];
    apply io_map_err_inv in Hs as (r7 & Hs & Hr7); apply Hren in Hs as [Hw7 Hc7]; [done|].
  apply validate_real_file_disk in Hr as ->. split; [done|]. intros _. apply Hc7. by destruct r7.
Qed.
End one_file.

(** C23: an original is uploaded to the new server only when it is the planned one.  Then it
    is a file of the open staging directory with the planned length and digests, within
    the limit, and the SHA-1 that is sent is its own.  In every outcome nothing but the two
    staged files of the operation changes. *)
Theorem migration_files_verified client server w r w' :
  contains_byte "/" (ma_operation_id asset) = false → open_root root (disk w) →
  prepare_migration staging client server asset w = (r, w') →
  within root names (disk w) (disk w') ∧ ∀ prepared, r = Ok prepared →
    pma_path prepared = path_join root final_name ∧ pma_file_name prepared = ma_original_file_name asset
    ∧ ma_byte_len asset <= mst_max_asset_bytes staging
    ∧ ∃ content, disk w' !! (key root ++ [final_name]) = Some (Node_File content)
      ∧ len content = ma_byte_len asset ∧ sha256_hex content = ma_content_sha256 asset
      ∧ hex (sha1 content) = ma_checksum_sha1 asset ∧ pma_sha1_base64 prepared = base64_encode (sha1 content).
Proof.
  intros Hid Ho Hr. unfold prepare_migration in Hr.
  assert (plain final_name) as Hp1 by (by apply (plain_staged _ "media")).
  assert (plain (final_name +:+ ".tmp")) as Hp2 by (rewrite str_app_assoc; by apply (plain_staged _ "media.tmp")).
  assert (ma_operation_id asset +:+ ".media.tmp" = final_name +:+ ".tmp") as Htmp by (by rewrite str_app_assoc).
  rewrite Htmp in Hr. clear Htmp.
  apply io_bind_inv in Hr as [(e & [_ <-]%lift_Err & ->)|(u1 & w1 & [Hmax%fail_if_Ok <-]%lift_Ok & Hr)]; [done|].
  assert (∀ r w1, or_discard temporary (path_join root final_name)
    (download_staged staging client server asset temporary (path_join root final_name)) w = (r, w1) →
    within root names (disk w) (disk w1) ∧ (is_ok r = true → original_staged (disk w1))) as Hinner.
  { intros r0 w1. apply (or_discard_step root names final_name (disk w) _ (λ w, original_staged (disk w)));
      [done|done|set_solver|set_solver|done|]. intros r1 w2. by apply download_staged_step. }
  apply io_bind_inv in Hr as [(e & [Hw1 _]%Hinner & ->)|(u2 & w2 & [Hw2 Hc2]%Hinner & Hr)]; [done|].
  specialize (Hc2 eq_refl) as (content & Hk & Hl & Hs1 & Hs2).
  apply io_bind_inv in Hr as [(e & [_ <-]%lift_Err & ->)|(sent & w3 & [Hsent <-]%lift_Ok & Hr)]; [done|].
  injection Hr as <- <-. split; [done|]. intros prepared [= <-]. split_and!; [done..|bools; lia|].
  exists content. split_and!; try done. cbn. unfold hex_sha1_base64 in Hsent.
  apply bind_fail_if_Ok in Hsent as [_ Hsent]. rewrite <-Hs1, hex_pairs_hex in Hsent. injection Hsent as <-.
  f_equal. by apply String.string_of_list_ascii_of_string.
Qed.
End files.

(** ** A concrete migration *)
Section witnesses.
#[local] Existing Instances checksum_codec sample_time sample_url sample_tls script_archive script_migration.

(** The tree, and what the old server answers next *)
Record Bridge := { br_disk : Disk; br_script : list HttpResponse }.
Definition bridge_disk_set (d : Disk) (w : Bridge) : Bridge := {| br_disk := d; br_script := br_script w |}.
Definition scripted {A} (f : list HttpResponse → A * list HttpResponse) (w : Bridge) : A * Bridge :=
  let '(r, l) := f (br_script w) in (r, {| br_disk := br_disk w; br_script := l |}).

#[local] Instance bridge_cancellation : Cancellation Bridge := {| is_cancelled w := (false, w) |}.
#[local] Instance bridge_reads : ReadTransport Bridge := {|
  http_get h u k := scripted (http_get (ReadTransport := scripted_reads) h u k);
  decode_version := decode_version (ReadTransport := scripted_reads);
  decode_user := decode_user (ReadTransport := scripted_reads) |}.
#[local] Instance bridge_inventory : InventoryTransport Bridge := {|
  http_post h u k q := scripted (http_post (InventoryTransport := scripted_inventory) h u k q);
  http_download h u k := scripted (http_download (InventoryTransport := scripted_inventory) h u k);
  chunk_arrives w := (true, w);
  decode_search := decode_search (InventoryTransport := scripted_inventory);
  decode_archive_asset := decode_archive_asset (InventoryTransport := scripted_inventory);
  decode_owned_albums := decode_owned_albums (InventoryTransport := scripted_inventory);
  base64_decode := Some |}.
#[local] Instance bridge_base64 : Base64Lib := {| base64_encode := id |}.
#[local] Instance bridge_fs : DestinationFs Bridge := {|
  node_metadata p w := match br_disk w !! key p with
    | Some n => (Ok (node_type n, match n with Node_File c => len c | _ => 0 end), w)
    | None => (Err IoErrorKind.NotFound, w) end;
  fs_create_dir p w := match br_disk w !! key p with
    | Some _ => (Err IoErrorKind.Other, w) | None => (Ok tt, bridge_disk_set (<[key p := Node_Dir]> (br_disk w)) w) end;
  fs_remove_file p w := (Ok tt, bridge_disk_set (delete (key p) (br_disk w)) w);
  fs_rename p q w := match br_disk w !! key p with
    | Some n => (Ok tt, bridge_disk_set (<[key q := n]> (delete (key p) (br_disk w))) w)
    | None => (Err IoErrorKind.NotFound, w) end;
  fs_create_new p w := match br_disk w !! key p with
    | Some _ => (Err IoErrorKind.Other, w)
    | None => (Ok tt, bridge_disk_set (<[key p := Node_File ""]> (br_disk w)) w) end;
  fs_write_all p chunk w := match br_disk w !! key p with
    | Some (Node_File c) => (Ok tt, bridge_disk_set (<[key p := Node_File (c +:+ chunk)]> (br_disk w)) w)
    | _ => (Err IoErrorKind.Other, w) end;
  fs_sync_all _ w := (Ok tt, w); fs_open _ w := (Err IoErrorKind.Other, w);
  fs_read _ w := (Err IoErrorKind.Other, w); content_length _ := None |}.
#[local] Instance bridge_staging : StagingFs Bridge := {|
  fs_read_dir p w :=
    (Ok (omap (λ k, match decide (k = key p ++ [default "" (last k)]) with
                    | left _ => Some (Ok (default "" (last k))) | right _ => None end)
           (map fst (map_to_list (br_disk w)))), w);
  fs_remove_dir p w := (Ok tt, bridge_disk_set (delete (key p) (br_disk w)) w) |}.
#[local] Existing Instances accepting_client accepting_client_laws steady_runtime steady_storage.
#[local] Instance bridge_albums : ImportClient Bridge := {|
  update_asset_metadata _ _ w := (Ok tt, w);
  find_owned_albums _ w := (Ok [], w);
  create_album name w := (Ok {| ra_id := sample_remote_id; ra_name := name |}, w);
  add_album_assets _ _ w := (Ok tt, w) |}.
#[local] Instance bridge_albums_laws : ImportClientLaws Bridge.
Proof.
  split; simpl; [by intros name w l w' [= <- <-]; constructor|].
  intros name w a w' [= <- <-]. by split.
Qed.

Definition bridge_context : MigrationApplyContext := {|
  mac_source_client := reader; mac_source_server := old_server;
  mac_destination_client := {| import_compatibility := sample_server; import_production := false |};
  mac_destination_server := new_server |}.
Definition bridge_before (originals : list HttpResponse) : Bridge := {|
  br_disk := list_to_map [(["/"], Node_Dir); (["/"; "state"], Node_Dir)];
  br_script := inventory_script ++ originals |}.
Definition bridge_run :=
  apply_migration sample_new_plan "/state/run.sqlite" Missing planning bridge_context
    (bridge_before [answer 200 ["a1"; "23"]; answer 200 ["c12"; "3"]; answer 200 ["b123"]]).

(** The three originals are uploaded, the album is made, and nothing is left behind. *)
Example bridge_result :
  match bridge_run with
  | Some (Ok report, Some journal, w) =>
    (iar_created report =? 3) && (iar_albums_created report =? 1) && (iar_album_memberships_updated report =? 1)
    && (iar_failed report =? 0) && (3 <? zlen (effects journal))
    && bool_decide (br_disk w = list_to_map [(["/"], Node_Dir); (["/"; "state"], Node_Dir)])
  | _ => false
  end = true.
Proof. vm_compute. reflexivity. Qed.

Lemma migration_run_sound_witness : ∃ report journal w, bridge_run = Some (Ok report, Some journal, w)
  ∧ migration_done sample_new_plan planning bridge_context Missing
      (bridge_before [answer 200 ["a1"; "23"]; answer 200 ["c12"; "3"]; answer 200 ["b123"]]) journal.
Proof.
  assert (zlen (mp_assets sample_new_plan) < 2 ^ 60) as Hassets by (vm_compute; reflexivity).
  assert (zlen (mp_albums sample_new_plan) < 2 ^ 60) as Halbums by (vm_compute; reflexivity).
  pose proof bridge_result as Hok. unfold bridge_run in *.
  edestruct (migration_run_sound sample_new_plan "/state/run.sqlite" Missing planning bridge_context)
    as (r & j & w & Hrun & Hdone); [exact I|exact Hassets|exact Halbums|].
  rewrite Hrun in Hok. destruct r as [report|e]; [|discriminate Hok]. destruct j as [journal|]; [|discriminate Hok].
  exists report, journal, w. exact (conj Hrun (Hdone journal eq_refl)).
Defined.

(** The plan is accepted while the source is as it was, and not after a photo is gone. *)
Definition bridge_verified (script : list HttpResponse) : bool :=
  match verify_current_source sample_new_plan planning reader old_server
          {| br_disk := ∅; br_script := script |} with
  | Some (Ok _, _) => true
  | _ => false
  end.
Example bridge_verified_result : bridge_verified inventory_script = true ∧ bridge_verified [] = false.
Proof. split; vm_compute; reflexivity. Qed.

Lemma migration_source_verified_witness : ∃ execution w',
  verify_current_source sample_new_plan planning reader old_server (bridge_before []) = Some (Ok execution, w')
  ∧ execution_plan sample_new_plan = Ok execution.
Proof.
  assert (match verify_current_source sample_new_plan planning reader old_server (bridge_before []) with
          | Some (Ok _, _) => true | _ => false end = true) as Hok by (vm_compute; reflexivity).
  destruct (migration_source_verified sample_new_plan planning reader old_server (bridge_before []))
    as (r & w' & Hrun & Haccepted & _).
  rewrite Hrun in Hok. destruct r as [execution|e]; [|discriminate Hok].
  exists execution, w'. exact (conj Hrun (proj1 (Haccepted execution eq_refl))).
Defined.

#[local] Instance bridge_tree : DestinationDisk Bridge :=
  {| disk := br_disk; resolve d p := d !! key p; unread _ := "" |}.
#[local] Instance bridge_disk_laws : DiskLaws Bridge.
Proof.
  split; try done.
  - intros p w r w'. cbn. destruct (br_disk w !! key p) as [n|] eqn:Hn; intros [= <- <-]; [|done].
    split; [done|]. exists n. split_and!; [done..|]. by intros c ->.
  - intros p w r w'. cbn. destruct (br_disk w !! key p) eqn:Hn; by intros [= <- <-] _.
  - intros p w r w'. cbn. by intros [= <- <-] _.
  - intros p q w c r w'. cbn. intros Hr _ _ Hn. rewrite Hn in Hr. by injection Hr as <- <-.
  - intros p w r w'. cbn. destruct (br_disk w !! key p) eqn:Hn; by intros [= <- <-] _.
  - intros p chunk w c r w'. cbn. intros Hr _ Hn. rewrite Hn in Hr. by injection Hr as <- <-.
  - intros p w r w'. cbn. by intros [= _ <-].
  - intros p w r w'. cbn. by intros [= <- <-].
  - intros n w r w'. cbn. by intros [= <- <-] _.
Qed.
#[local] Instance bridge_laws : DestinationLaws Bridge.
Proof.
  split; [apply _|..].
  - intros w b w'. cbn. by intros [= _ <-].
  - intros client url key w r w'. cbn. unfold scripted. destruct (br_script w); by intros [= _ <-].
  - intros w b w'. cbn. by intros [= _ <-].
Qed.
#[local] Instance bridge_cleanup_laws : CleanupLaws Bridge.
Proof. split; [apply _|..]; cbn; intros p w r w'; [by intros [= _ <-]|]. by intros [= <- <-] _. Qed.

(** The first original of the plan, into an open staging directory *)
Definition bridge_asset : MigrationAsset :=
  match mp_assets sample_new_plan with
  | a :: _ => a
  | [] => sample_migration_asset "" "" "" Standalone
  end.
Definition bridge_open : Bridge := {|
  br_disk := list_to_map [(["/"], Node_Dir); (["/"; "state"], Node_Dir)];
  br_script := [answer 200 ["a1"; "23"]] |}.
Definition bridge_stage : MigrationStaging := {| mst_root := "/state"; mst_max_asset_bytes := 4 |}.
Definition bridge_prepared : result ExecutorError PreparedMigrationAsset * Bridge :=
  prepare_migration bridge_stage reader old_server bridge_asset bridge_open.
Lemma bridge_prepared_Ok : is_ok bridge_prepared.1 = true.
Proof. vm_compute. reflexivity. Qed.
Lemma bridge_state_open : open_root "/state" (disk bridge_open).
Proof.
  assert (map_Forall (λ _ n, n ≠ Node_Link) (br_disk bridge_open)) as Hn
    by (apply (bool_decide_eq_true_1 _); vm_compute; reflexivity).
  split; [discriminate|]. split; [|vm_compute; reflexivity]. intros q c r _ _ Hl. by eapply Hn.
Qed.

Lemma migration_files_verified_witness : ∃ prepared w, bridge_prepared = (Ok prepared, w)
  ∧ pma_file_name prepared = ma_original_file_name bridge_asset.
Proof.
  pose proof bridge_prepared_Ok as Hok. unfold bridge_prepared in *.
  assert (contains_byte "/" (ma_operation_id bridge_asset) = false) as Hid by (vm_compute; reflexivity).
  destruct (prepare_migration bridge_stage reader old_server bridge_asset bridge_open) as [[prepared|e] w] eqn:Hrun;
    [|discriminate Hok].
  destruct (migration_files_verified bridge_stage bridge_asset reader old_server bridge_open (Ok prepared) w
              Hid bridge_state_open Hrun) as [_ Hp].
  destruct (Hp prepared eq_refl) as (_ & Hname & _).
  exists prepared, w. exact (conj eq_refl Hname).
Defined.
End witnesses.
