(* ===== verification/ImportRun.v ===== *)
(** * ImportRun: the three imports, from the scan to the journal
    ([crates/immich-executor/src/import_config.rs], [picasa_import.rs], and the public
    functions of [import_planner.rs], [import_dry_run.rs] and [import_apply.rs])

    Here the parts meet: a source of [immich-sources] is scanned, the scan is planned, and
    the plan is run with the staging directory.  The scans are those of [TakeoutScan],
    [Apple] and [Picasa], the staging is that of [ImportStaging]. *)
From Stdlib Require Import Ascii.
From stdpp Require Import strings gmap.
From S2P Require Export Takeout Apple Picasa ImportDryRun Staging.

(** The run tells only whether the scan was cancelled. *)
Definition of_scan {W A} (m : io W ScanError.t A) : io W ScanError A :=
  io_map_err (λ e, match e with ScanError.Cancelled => ScanCancelled | _ => ScanFailed end) m.

(** [NoProgress] *)
Definition no_progress (W : Type) : ScanObserver W := {| observe_progress _ w := w |}.

Section imports.
  Context {W : Type} `{ScanFs W, ZipReader W, TakeoutFs W, Cancellation W, !DestinationFs W, !StagingFs W}.
  Context `{UnicodeLib, Codec, !ImportCodec, TimeLib, !CalendarLib, !PlanJson, !TakeoutLib}.
  Context `{UploadClient W, ImportClient W, Runtime W, Storage W}.
#[local] Existing Instance no_progress.

(** ** The trait [ImportConfig] *)

Definition takeout_scan_resolved (config : TakeoutImportConfig) (inputs : list string) (source_label : string) :
    io W ScanError ResolvedFolderPlan :=
  of_scan (scan_google_takeout_inputs_resolved inputs source_label (tic_source config)).
#[export] Instance takeout_import_source : ImportSource W TakeoutImportConfig := {|
  upload_config := tic_upload; scan_resolved := takeout_scan_resolved |}.

Definition apple_scan_resolved (config : ApplePhotosImportConfig) (inputs : list string) (source_label : string) :
    io W ScanError ResolvedFolderPlan :=
  of_scan (scan_apple_photos_inputs_resolved inputs source_label (aic_source config)).
#[export] Instance apple_import_source : ImportSource W ApplePhotosImportConfig := {|
  upload_config := aic_upload; scan_resolved := apple_scan_resolved |}.

Definition picasa_scan_resolved (config : PicasaImportConfig) (inputs : list string) (source_label : string) :
    io W ScanError ResolvedFolderPlan :=
  of_scan (scan_picasa_inputs_resolved inputs source_label (pic_source config)).
#[export] Instance picasa_import_source : ImportSource W PicasaImportConfig := {|
  upload_config := pic_upload; scan_resolved := picasa_scan_resolved |}.


#[export] Instance takeout_limits : ImportLimits TakeoutImportConfig := {| archive_limits c := {|
  al_max_entry_bytes := tsc_max_archive_entry_bytes (tic_source c);
  al_max_compression_ratio := tsc_max_compression_ratio (tic_source c);
  al_compression_ratio_grace_bytes := tsc_compression_ratio_grace_bytes (tic_source c) |} |}.
#[export] Instance apple_limits : ImportLimits ApplePhotosImportConfig := {| archive_limits c := {|
  al_max_entry_bytes := asc_max_archive_entry_bytes (aic_source c);
  al_max_compression_ratio := asc_max_compression_ratio (aic_source c);
  al_compression_ratio_grace_bytes := asc_compression_ratio_grace_bytes (aic_source c) |} |}.
#[export] Instance picasa_limits : ImportLimits PicasaImportConfig := {| archive_limits c := {|
  al_max_entry_bytes := psc_max_archive_entry_bytes (pic_source c);
  al_max_compression_ratio := psc_max_compression_ratio (pic_source c);
  al_compression_ratio_grace_bytes := psc_compression_ratio_grace_bytes (pic_source c) |} |}.

(** ** Planning *)

Definition create_takeout_upload_plan (resolved : ResolvedFolderPlan) (server : ServerCompatibility)
    (config : TakeoutImportConfig) : result ExecutorError UploadPlan :=
  create_import_upload_plan resolved server config.
Definition create_apple_photos_upload_plan (resolved : ResolvedFolderPlan) (server : ServerCompatibility)
    (config : ApplePhotosImportConfig) : result ExecutorError UploadPlan :=
  create_import_upload_plan resolved server config.
Definition create_picasa_upload_plan (resolved : ResolvedFolderPlan) (server : ServerCompatibility)
    (config : PicasaImportConfig) : result ExecutorError UploadPlan :=
  create_import_upload_plan resolved server config.

(** ** Checking *)

Definition dry_run_takeout_import (plan : UploadPlan) (inputs : list string)
    (file : CheckpointFile ImportConnection) (config : TakeoutImportConfig) :
    io W ExecutorError ImportApplyReport :=
  dry_run_import plan inputs file config.
Definition dry_run_apple_photos_import (plan : UploadPlan) (inputs : list string)
    (file : CheckpointFile ImportConnection) (config : ApplePhotosImportConfig) :
    io W ExecutorError ImportApplyReport :=
  dry_run_import plan inputs file config.
Definition dry_run_picasa_import (plan : UploadPlan) (inputs : list string)
    (file : CheckpointFile ImportConnection) (config : PicasaImportConfig) :
    io W ExecutorError ImportApplyReport :=
  dry_run_import plan inputs file config.

(** ** Running *)

(** [import_apply.rs: apply_import_inner], with the directory beside the checkpoint *)
Definition run_import {C} `{!ImportConfig C, !ImportSource W C, !ImportLimits C} (plan : UploadPlan)
    (inputs : list string) (checkpoint : string) (file : CheckpointFile ImportConnection) (config : C)
    (client : ImportIdentity) (backup_reference_sha256 : option string) (w : W) :=
  let staging := import_staging checkpoint in
  apply_import_inner plan inputs file config client backup_reference_sha256 w.

(** The three functions on a production client *)
Definition run_production_import {C} `{!ImportConfig C, !ImportSource W C, !ImportLimits C}
    (plan : UploadPlan) (inputs : list string) (checkpoint : string)
    (file : CheckpointFile ImportConnection) (config : C) (client : ImportIdentity)
    (authorization : ProductionImportAuthorization) (w : W) :=
  let staging := import_staging checkpoint in
  apply_production_import plan inputs file config client authorization w.

Definition apply_takeout_import (plan : UploadPlan) (inputs : list string) (checkpoint : string)
    (file : CheckpointFile ImportConnection) (config : TakeoutImportConfig) (client : ImportIdentity) (w : W) :=
  run_import plan inputs checkpoint file config client None w.
Definition apply_production_takeout_import (plan : UploadPlan) (inputs : list string) (checkpoint : string)
    (file : CheckpointFile ImportConnection) (config : TakeoutImportConfig) (client : ImportIdentity)
    (authorization : ProductionImportAuthorization) (w : W) :=
  run_production_import plan inputs checkpoint file config client authorization w.
Definition apply_apple_photos_import (plan : UploadPlan) (inputs : list string) (checkpoint : string)
    (file : CheckpointFile ImportConnection) (config : ApplePhotosImportConfig) (client : ImportIdentity)
    (w : W) :=
  run_import plan inputs checkpoint file config client None w.
Definition apply_production_apple_photos_import (plan : UploadPlan) (inputs : list string)
    (checkpoint : string) (file : CheckpointFile ImportConnection) (config : ApplePhotosImportConfig)
    (client : ImportIdentity) (authorization : ProductionImportAuthorization) (w : W) :=
  run_production_import plan inputs checkpoint file config client authorization w.
Definition apply_picasa_import (plan : UploadPlan) (inputs : list string) (checkpoint : string)
    (file : CheckpointFile ImportConnection) (config : PicasaImportConfig) (client : ImportIdentity) (w : W) :=
  run_import plan inputs checkpoint file config client None w.
Definition apply_production_picasa_import (plan : UploadPlan) (inputs : list string) (checkpoint : string)
    (file : CheckpointFile ImportConnection) (config : PicasaImportConfig) (client : ImportIdentity)
    (authorization : ProductionImportAuthorization) (w : W) :=
  run_production_import plan inputs checkpoint file config client authorization w.
End imports.
