(* ===== verification/ImportRunTheorems.v ===== *)
(** * ImportRunTheorems: what the three imports promise, from the scan to the journal *)
From Stdlib Require Import Ascii.
From stdpp Require Import strings gmap.
From S2P Require Import Disk AppleTheorems.
From S2P Require Export ImportRun.

Section runs.
  Context {W : Type} `{ScanFs W, ZipReader W, TakeoutFs W, Cancellation W, !DestinationFs W, !StagingFs W}.
  Context `{UnicodeLib, Codec, !ImportCodec, TimeLib, !CalendarLib, !PlanJson, !TakeoutLib}.
  Context `{UploadClient W, !UploadClientLaws W, ImportClient W, !ImportClientLaws W, Runtime W, Storage W}.

#[local] Existing Instance no_progress.

Section one.
  Context {C : Type} `{!ImportConfig C, !ImportSource W C, !ImportLimits C}.
  Context (plan : UploadPlan) (inputs : list string) (config : C) (client : ImportIdentity) (w : W).
  Context (source : string → io W ScanError.t ResolvedFolderPlan).

(** What a run that opened its journal did: the scan of the source gave exactly the plan,
    the client is for the planned server and not in production, and the journal is that of
    the file, bound to the plan and extended. *)
Definition import_done (file : CheckpointFile ImportConnection) (journal : ImportConnection) : Prop :=
  ∃ resolved w1 m,
    source (label (up_source plan)) w = (Ok resolved, w1) ∧
    create_import_upload_plan resolved (up_server plan) config = Ok plan ∧
    import_compatibility client = up_server plan ∧ import_production client = false ∧
    journal_extended plan file journal ∧
    import_binding plan None = Ok m ∧ Prelude.for_each insert_binding (ic_metadata journal) ∅ = Ok m.

Lemma run_import_done checkpoint file :
  own_journal file → (∀ label, scan_resolved config inputs label = of_scan (source label)) →
  (validate_import config = Ok tt → max_attempts_per_operation (upload_config config) <= u32_max) →
  zlen (up_operations plan) < 2 ^ 60 → set_len (album_set (up_operations plan)) < 2 ^ 60 →
  ∃ r j w', run_import plan inputs checkpoint file config client None w = Some (r, j, w')
    ∧ ∀ journal, j = Some journal → import_done file journal.
Proof.
  intros Hfile Hsource Hmax Hops Halb. unfold run_import. set (staging := import_staging checkpoint).
  unfold apply_import_inner. cbn [is_some].
  destruct ((_ ← lift (validate_context plan config client false); _) w) as [[resolved|e] w1] eqn:Hp;
    [|by eexists _, _, _].
  assert (validate_import config = Ok tt ∧ ∃ w2, source (label (up_source plan)) w = (Ok resolved, w2))
    as [Hvalid [w0 Hscan]].
  { clear -Hp Hsource. apply io_bind_Ok in Hp as ([] & w2 & [Hc ->]%lift_Ok & Hp). split.
    - unfold validate_context in Hc. by apply bind_Ok in Hc as ([] & ? & _).
    - unfold rescan in Hp. apply io_bind_Ok in Hp as (x & w3 & Hs & Hp).
      apply io_map_err_inv in Hs as (r0 & Hs & Hr0). destruct r0 as [y|e]; [|done]. injection Hr0 as <-.
      rewrite Hsource in Hs. apply io_map_err_inv in Hs as (r1 & Hs & Hr1). destruct r1 as [y|e]; [|done].
      injection Hr1 as <-.
      apply io_bind_Ok in Hp as (o & w4 & [_ ->]%lift_Ok & Hp).
      apply io_bind_Ok in Hp as ([] & w5 & [_ ->]%lift_Ok & [= -> <-]). by eexists. }
  apply import_prologue in Hp as (_ & (Hwf & Hv & Hcompat & Hprod) & _ & Hplan).
  destruct (storage w1) as [[now available] w2].
  destruct (open_import_checkpoint file plan None available) as [j0|e] eqn:Ho; [|by eexists _, _, _].
  apply open_import_checkpoint_scope in Ho as [Ho _].
  apply open_import_bound in Ho as Hb. destruct Hb as (_ & _ & m & Hm & Hbind).
  destruct (opened_state _ _ _ _ _ Hfile Ho) as (_ & Hst & _).
  set (s := {| run_world := w2; run_journal := j0; run_report := apply_report plan |}).
  destruct (import_body_grows config (Hmax Hvalid) plan resolved s _ Hwf Hst) as (r & s' & Hbody & Hg).
  rewrite Hbody. cbn [mbind option_bind]. eexists _, _, _. split; [done|]. intros journal [= <-].
  destruct (grown_journal_extended plan file None available s s' Hwf Hv Hops Halb Hfile Ho Hg) as [Hext Hmeta].
  exists resolved, w0, m. split_and!; try done. by rewrite Hmeta.
Qed.
End one.

Lemma config_attempts c : config_validate c = Ok tt → max_attempts_per_operation c <= u32_max.
Proof.
  unfold config_validate. intros Hu%fail_if_Ok%negb_false_iff. unfold config_valid in Hu. bools.
  unfold u32_max. lia.
Qed.

(** C4: the three imports are sound from the source to the journal.  For Google Takeout,
    Apple Photos and Picasa alike a run always returns, whatever the disk, the archives and
    the server do.  It opens its journal only when its own scan of the inputs gives
    exactly the plan, for the planned server and not in production; then the rows the
    journal file held stay, and the run appends at most one valid row for every effect of
    the plan that these rows do not settle, within the mutations the plan announced; what
    was settled keeps its outcome, and the journal, bound to the plan, is accepted again. *)
Theorem imports_composed plan inputs checkpoint file client (w : W) :
  own_journal file → zlen (up_operations plan) < 2 ^ 60 → set_len (album_set (up_operations plan)) < 2 ^ 60 →
  (∀ config, ∃ r j w', apply_takeout_import plan inputs checkpoint file config client w = Some (r, j, w')
     ∧ ∀ journal, j = Some journal → import_done plan config client w
         (λ label, scan_google_takeout_inputs_resolved inputs label (tic_source config)) file journal) ∧
  (∀ config, ∃ r j w', apply_apple_photos_import plan inputs checkpoint file config client w = Some (r, j, w')
     ∧ ∀ journal, j = Some journal → import_done plan config client w
         (λ label, scan_apple_photos_inputs_resolved inputs label (aic_source config)) file journal) ∧
  (∀ config, ∃ r j w', apply_picasa_import plan inputs checkpoint file config client w = Some (r, j, w')
     ∧ ∀ journal, j = Some journal → import_done plan config client w
         (λ label, scan_picasa_inputs_resolved inputs label (pic_source config)) file journal).
Proof.
  intros Hfile Hops Halb. split_and!; intros config; eapply run_import_done; try done;
    intros ([] & Hu & _)%bind_Ok; by apply config_attempts.
Qed.
End runs.

(** ** A concrete Takeout import: a photo in an album *)
Section witnesses.
#[local] Existing Instances no_progress checksum_codec sample_time sample_calendar sample_unicode sample_takeout
  export_zip export_cancellation accepting_client accepting_client_laws steady_runtime steady_storage.
#[local] Instance lake_fs : ScanFs ExportWorld := export_fs "Lake".
#[local] Instance lake_reader : TakeoutFs ExportWorld := export_reader "Lake".
#[local] Instance lake_json : PlanJson := {| json_findings _ _ _ := Some "findings" |}.
#[local] Instance lake_codec : ImportCodec := {|
  json_takeout _ := Some "takeout"; json_apple _ := Some "apple"; json_picasa _ := Some "picasa" |}.
(** There is one directory, and it can be used. *)
#[local] Instance lake_destination : DestinationFs ExportWorld := {|
  node_metadata p w :=
    (if String.eqb p "/state" then Ok (FileType.Dir, 0) else Err IoErrorKind.NotFound, w);
  fs_create_dir _ w := (Ok tt, w); fs_remove_file _ w := (Ok tt, w); fs_rename _ _ w := (Ok tt, w);
  fs_create_new _ w := (Ok tt, w); fs_write_all _ _ w := (Ok tt, w); fs_sync_all _ w := (Ok tt, w);
  fs_open _ w := (Err IoErrorKind.Other, w); fs_read _ w := (Err IoErrorKind.Other, w);
  content_length _ := None |}.
#[local] Instance lake_staging : StagingFs ExportWorld := {|
  fs_read_dir _ w := (Ok [], w); fs_remove_dir _ w := (Ok tt, w) |}.
#[local] Instance lake_albums : ImportClient ExportWorld := {|
  update_asset_metadata _ _ w := (Ok tt, w);
  find_owned_albums _ w := (Ok [], w);
  create_album name w := (Ok {| ra_id := sample_remote_id; ra_name := name |}, w);
  add_album_assets _ _ w := (Ok tt, w) |}.
#[local] Instance lake_albums_laws : ImportClientLaws ExportWorld.
Proof.
  split; simpl; [by intros name w l w' [= <- <-]; constructor|].
  intros name w a w' [= <- <-]. by split.
Qed.

Definition lake_config : TakeoutImportConfig := default_takeout_import.
Definition lake_before : ExportWorld := {| ew_open := ""; ew_left := "" |}.
Definition lake_plan : UploadPlan :=
  match scan_resolved lake_config ["/t"] "export" lake_before with
  | (Ok resolved, _) =>
    match create_takeout_upload_plan resolved sample_server lake_config with
    | Ok plan => plan
    | Err _ => sample_upload_plan 2 GoogleTakeout []
    end
  | _ => sample_upload_plan 2 GoogleTakeout []
  end.
Definition lake_client : ImportIdentity := {| import_compatibility := sample_server; import_production := false |}.
Notation lake_run :=
  (apply_takeout_import lake_plan ["/t"] "/state/run.sqlite" Missing lake_config lake_client lake_before).

Example lake_result :
  match lake_run with
  | Some (Ok report, Some journal, _) =>
    (iar_created report =? 1) && (iar_albums_created report =? 1) && (2 <? zlen (effects journal))
  | _ => false
  end = true.
Proof. vm_compute. reflexivity. Qed.

Lemma imports_composed_witness : ∃ report journal w, lake_run = Some (Ok report, Some journal, w)
  ∧ import_done lake_plan lake_config lake_client lake_before
      (λ label, scan_google_takeout_inputs_resolved ["/t"] label (tic_source lake_config)) Missing journal.
Proof.
  assert (zlen (up_operations lake_plan) < 2 ^ 60) as Hops by (vm_compute; reflexivity).
  assert (set_len (album_set (up_operations lake_plan)) < 2 ^ 60) as Halb by (vm_compute; reflexivity).
  pose proof lake_result as Hok.
  destruct (imports_composed lake_plan ["/t"] "/state/run.sqlite" Missing lake_client lake_before I Hops Halb)
    as [Htakeout _].
  destruct (Htakeout lake_config) as (r & j & w & Hrun & Hdone).
  rewrite Hrun in Hok. destruct r as [report|e]; [|discriminate Hok]. destruct j as [journal|]; [|discriminate Hok].
  exists report, journal, w. exact (conj Hrun (Hdone journal eq_refl)).
Defined.
End witnesses.
