(* ===== verification/History.v ===== *)
(** * History: the terminal history and the dry-run receipts of the console
    ([crates/immich-web/src/state_store/history.rs], [history/receipts.rs],
    [history-v1.sql], [history-v2.sql], the rows of [types.rs])

    A SQLite file with two tables; [Database] is what is committed to it.  A statement
    may fail and then nothing of its transaction is kept.  The mutex around the
    connection is where other threads act: taking it may find other contents, which
    the same operations have left there ([HistoryLaws]).  An operation is the sequence
    of transactions and file calls of the code on the world and the contents. *)
From Stdlib Require Import Ascii.
From stdpp Require Import strings.
From S2P Require Export Sort Auth.

(** ** Rows *)

Record HistoryRow := {
  hr_sequence : Z;
  hr_recorded_unix : Z;
  hr_kind : Z;
  hr_status : Z;
  hr_plan_ref : option string;
  hr_plan_schema : option Z;
  hr_assets : Z;
  hr_sidecars : Z;
  hr_bytes_read : Z;
  hr_warnings : Z;
  hr_errors : Z;
  hr_max_logical_effects : Z;
}.

Record ReceiptRow := {
  rr_rowid : Z;
  rr_receipt_ref : string;
  rr_plan_ref : string;
  rr_plan_sha256 : string;
  rr_source_configuration_sha256 : string;
  rr_server_identity_sha256 : string;
  rr_server_profile_sha256 : string;
  rr_credential_generation : Z;
  rr_max_logical_effects : Z;
  rr_completed_unix : Z;
}.

(** The two tables, each [None] before it is created; [db_sequence] is the largest
    sequence [AUTOINCREMENT] has given. *)
Record Database := {
  db_version : Z;
  db_history : option (list HistoryRow);
  db_sequence : Z;
  db_receipts : option (list ReceiptRow);
}.

Definition set_history (rows : list HistoryRow) (d : Database) : Database := {|
  db_version := db_version d; db_history := Some rows; db_sequence := db_sequence d;
  db_receipts := db_receipts d |}.
Definition set_receipts (rows : list ReceiptRow) (d : Database) : Database := {|
  db_version := db_version d; db_history := db_history d; db_sequence := db_sequence d;
  db_receipts := Some rows |}.

(** The [CHECK] constraints; [kinds] is 5 in the first version of the table and 13 in
    the second. *)
Definition history_check (kinds : Z) (r : HistoryRow) : bool :=
  (1 <=? hr_kind r) && (hr_kind r <=? kinds)
  && (1 <=? hr_status r) && (hr_status r <=? 3)
  && is_none_or (hr_plan_ref r) (λ reference, len reference =? 16)
  && is_none_or (hr_plan_schema r) (λ schema, 0 <? schema)
  && (0 <=? hr_assets r) && (0 <=? hr_sidecars r) && (0 <=? hr_bytes_read r)
  && (0 <=? hr_warnings r) && (0 <=? hr_errors r) && (0 <=? hr_max_logical_effects r)
  && Bool.eqb (is_some (hr_plan_ref r)) (is_some (hr_plan_schema r)).

Definition receipt_check (r : ReceiptRow) : bool :=
  (len (rr_receipt_ref r) =? 16) && (len (rr_plan_ref r) =? 16)
  && (len (rr_plan_sha256 r) =? 32) && (len (rr_source_configuration_sha256 r) =? 32)
  && (len (rr_server_identity_sha256 r) =? 32) && (len (rr_server_profile_sha256 r) =? 32)
  && (0 <? rr_credential_generation r) && (0 <=? rr_max_logical_effects r).

(** ** What the store relies on *)

Record StoreMeta := { sm_is_file : bool; sm_is_symlink : bool; sm_len : Z }.

Definition message (m : string) : WebConfigError := ConfigMessage m.

(** [rusqlite], the file calls and the mutex.  [sql] is any statement, query, pragma or
    commit; the pragmas that answer have their own method.  [lock_connection] is [None]
    when the mutex is poisoned, and otherwise says what the database holds now.  When the
    largest row number is taken, SQLite tries a random one: [spare_rowid]. *)
Class HistoryWorld (W : Type) := {
  sql : W → bool * W;
  pragma_journal_mode : W → option string * W;
  pragma_max_page_count : Z → W → option Z * W;
  pragma_quick_check : W → option string * W;
  spare_rowid : W → Z * W;
  lock_connection : Database → W → option Database * W;
  store_metadata : string → W → option (option StoreMeta) * W;
  store_exists : string → W → bool * W;
  protect_file : string → W → bool * W;
  create_private_file : string → W → bool * W;
}.

Definition SCHEMA_VERSION : Z := 2.
Definition SQLITE_PAGE_BYTES : Z := 4096.
Definition RECEIPT_CREATE_ATTEMPTS : nat := 8.
Definition I64_MAX : Z := 2 ^ 63 - 1.

Record HistoryStore := {
  hs_path : string;
  hs_maximum_bytes : Z;
  hs_retained_rows : Z;
  hs_retention_seconds : Z;
}.

Definition checked_i64 (m : string) (value : Z) : result WebConfigError Z :=
  if value <=? I64_MAX then Ok value else Err (message m).
Definition to_i64 : Z → result WebConfigError Z := checked_i64 "history limit is invalid".

(** ** Digests as text and as bytes *)

Definition digit_value (a : ascii) : Z := if code a <? 58 then code a - 48 else code a - 87.

(** [u8::from_str_radix(pair, 16)] of every pair of digits *)
Fixpoint unhex (s : string) : string :=
  match s with
  | String a (String b s) => String (ascii_of_N (Z.to_N (digit_value a * 16 + digit_value b))) (unhex s)
  | _ => EmptyString
  end.

Definition decode_sha256 (value : string) : result WebConfigError string :=
  if negb (is_lower_sha256 value) then Err (message "receipt digest is invalid")
  else Ok (unhex value).

Definition encode_sha256 (b : string) : option string :=
  if negb (len b =? 32) then None else Some (hex b).

(** ** Rows and records *)

(** [read_u64] *)
Definition read_u64 (value : Z) : option Z := if value <? 0 then None else Some value.

Record StoredHistory := { sh_sequence : Z; sh_record : TerminalRecord }.

(** [ArtifactRef::from_vec] *)
Definition from_vec (b : string) : option ArtifactRef := if len b =? 16 then Some b else None.

(** [row.get::<_, Option<u32>>] *)
Definition read_u32 (value : option Z) : option (option Z) :=
  match value with
  | None => Some None
  | Some n => if (0 <=? n) && (n <=? u32_max) then Some (Some n) else None
  end.

(** [StoredHistory::from_row] *)
Definition from_row (r : HistoryRow) : option StoredHistory :=
  schema ← read_u32 (hr_plan_schema r);
  plan ← match hr_plan_ref r, schema with
         | Some b, Some schema => reference ← from_vec b; Some (Some (reference, schema))
         | None, None => Some None
         | _, _ => None
         end;
  sequence ← read_u64 (hr_sequence r);
  kind ← history_kind_try_from (hr_kind r);
  status ← terminal_status_try_from (hr_status r);
  assets ← read_u64 (hr_assets r);
  sidecars ← read_u64 (hr_sidecars r);
  bytes_read ← read_u64 (hr_bytes_read r);
  warnings ← read_u64 (hr_warnings r);
  errors ← read_u64 (hr_errors r);
  max_logical_effects ← read_u64 (hr_max_logical_effects r);
  Some {|
    sh_sequence := sequence;
    sh_record := {|
      tr_recorded_unix := hr_recorded_unix r; tr_kind := kind; tr_status := status;
      tr_plan := plan;
      tr_counters := {|
        sc_assets := assets; sc_sidecars := sidecars; sc_bytes_read := bytes_read;
        sc_warnings := warnings; sc_errors := errors;
        sc_max_logical_effects := max_logical_effects |} |} |}.

(** The parameters of the [INSERT] into [history], before its sequence is known;
    [m] is the message for a counter above [i64::MAX]. *)
Definition terminal_row (m : string) (record : TerminalRecord) : result WebConfigError (Z → HistoryRow) :=
  let counters := tr_counters record in
  assets ← checked_i64 m (sc_assets counters);
  sidecars ← checked_i64 m (sc_sidecars counters);
  bytes_read ← checked_i64 m (sc_bytes_read counters);
  warnings ← checked_i64 m (sc_warnings counters);
  errors ← checked_i64 m (sc_errors counters);
  max_logical_effects ← checked_i64 m (sc_max_logical_effects counters);
  Ok (λ sequence, {|
    hr_sequence := sequence;
    hr_recorded_unix := tr_recorded_unix record;
    hr_kind := history_kind_code (tr_kind record);
    hr_status := terminal_status_code (tr_status record);
    hr_plan_ref := fst <$> tr_plan record;
    hr_plan_schema := snd <$> tr_plan record;
    hr_assets := assets; hr_sidecars := sidecars; hr_bytes_read := bytes_read;
    hr_warnings := warnings; hr_errors := errors;
    hr_max_logical_effects := max_logical_effects |}).

(** The parameters of the [INSERT] into [dry_run_receipts] *)
Definition receipt_row (reference : ReceiptRef) (b : DryRunBinding) : result WebConfigError (Z → ReceiptRow) :=
  plan_sha256 ← decode_sha256 (drb_plan_sha256 b);
  source_configuration_sha256 ← decode_sha256 (drb_source_configuration_sha256 b);
  server_identity_sha256 ← decode_sha256 (drb_server_identity_sha256 b);
  server_profile_sha256 ← decode_sha256 (drb_server_profile_sha256 b);
  credential_generation ← checked_i64 "receipt counter is invalid" (drb_credential_generation b);
  max_logical_effects ← checked_i64 "receipt counter is invalid" (drb_max_logical_effects b);
  Ok (λ rowid, {|
    rr_rowid := rowid;
    rr_receipt_ref := reference;
    rr_plan_ref := drb_plan_reference b;
    rr_plan_sha256 := plan_sha256;
    rr_source_configuration_sha256 := source_configuration_sha256;
    rr_server_identity_sha256 := server_identity_sha256;
    rr_server_profile_sha256 := server_profile_sha256;
    rr_credential_generation := credential_generation;
    rr_max_logical_effects := max_logical_effects;
    rr_completed_unix := drb_completed_unix b |}).

(** The closure of [dry_run_receipt] *)
Definition receipt_of_row (reference : ReceiptRef) (r : ReceiptRow) : option DryRunReceipt :=
  plan_reference ← from_vec (rr_plan_ref r);
  plan_sha256 ← encode_sha256 (rr_plan_sha256 r);
  source_configuration_sha256 ← encode_sha256 (rr_source_configuration_sha256 r);
  server_identity_sha256 ← encode_sha256 (rr_server_identity_sha256 r);
  server_profile_sha256 ← encode_sha256 (rr_server_profile_sha256 r);
  credential_generation ← read_u64 (rr_credential_generation r);
  max_logical_effects ← read_u64 (rr_max_logical_effects r);
  Some {|
    drr_reference := reference;
    drr_binding := {|
      drb_plan_reference := plan_reference;
      drb_plan_sha256 := plan_sha256;
      drb_source_configuration_sha256 := source_configuration_sha256;
      drb_server_identity_sha256 := server_identity_sha256;
      drb_server_profile_sha256 := server_profile_sha256;
      drb_credential_generation := credential_generation;
      drb_max_logical_effects := max_logical_effects;
      drb_completed_unix := rr_completed_unix r |} |}.

(** ** Statements *)

(** [ORDER BY sequence DESC LIMIT n] *)
Definition newest_first (a b : HistoryRow) : bool := hr_sequence b <=? hr_sequence a.
Definition newest_history (n : Z) (rows : list HistoryRow) : list HistoryRow :=
  take (Z.to_nat n) (sort_by newest_first rows).

(** [ORDER BY completed_unix DESC, rowid DESC LIMIT n] *)
Definition latest_receipt_first (a b : ReceiptRow) : bool :=
  (rr_completed_unix b <? rr_completed_unix a)
  || ((rr_completed_unix b =? rr_completed_unix a) && (rr_rowid b <=? rr_rowid a)).
Definition newest_receipts (n : Z) (rows : list ReceiptRow) : list ReceiptRow :=
  take (Z.to_nat n) (sort_by latest_receipt_first rows).

(** The [DELETE] statements of [maintain] *)
Definition expire_history (cutoff : Z) (rows : list HistoryRow) : list HistoryRow :=
  List.filter (λ r, negb (hr_recorded_unix r <? cutoff)) rows.
Definition trim_history (n : Z) (rows : list HistoryRow) : list HistoryRow :=
  let kept := map hr_sequence (newest_history n rows) in
  List.filter (λ r, bool_decide (hr_sequence r ∈ kept)) rows.
Definition expire_receipts (cutoff : Z) (rows : list ReceiptRow) : list ReceiptRow :=
  List.filter (λ r, negb (rr_completed_unix r <? cutoff)) rows.
Definition trim_receipts (n : Z) (rows : list ReceiptRow) : list ReceiptRow :=
  let kept := map rr_rowid (newest_receipts n rows) in
  List.filter (λ r, bool_decide (rr_rowid r ∈ kept)) rows.

Definition largest_rowid (rows : list ReceiptRow) : Z := foldr Z.max 0 (map rr_rowid rows).

Section history.
  Context {W : Type} `{!HistoryWorld W, !Entropy W}.
Notation world := (W * Database)%type.
Notation load := (io world WebConfigError).

Definition db_error {A} : result WebConfigError A := Err (message "history database operation failed").

(** ** Calls *)

(** A statement that may fail *)
Definition run_sql : load unit := λ '(w, d),
  let '(ok, w) := sql w in (if ok then Ok tt else db_error, (w, d)).

(** [map_err(db_error)] on a query of a pragma *)
Definition run_pragma {A} (f : W → option A * W) : load A := λ '(w, d),
  match f w with (Some a, w) => (Ok a, (w, d)) | (None, w) => (db_error, (w, d)) end.

(** [self.connection.lock().map_err(lock_error)] *)
Definition lock : load unit := λ '(w, d),
  match lock_connection d w with
  | (Some d, w) => (Ok tt, (w, d))
  | (None, w) => (Err (message "history database lock failed"), (w, d))
  end.

(** What is not committed is rolled back. *)
Definition or_roll_back {A} (m : load A) : load A := λ '(w, d),
  match m (w, d) with
  | (Ok a, s) => (Ok a, s)
  | (Err e, (w, _)) => (Err e, (w, d))
  end.

(** [transaction_with_behavior(Immediate)], the statements of [m], and [commit] *)
Definition transaction {A} (m : load A) : load A :=
  _ ← run_sql;
  or_roll_back (a ← m; _ ← run_sql; mret a).

(** A table of the database; a statement on a table that is not there fails. *)
Definition history_rows : load (list HistoryRow) := λ '(w, d),
  (match db_history d with Some rows => Ok rows | None => db_error end, (w, d)).
Definition receipt_rows : load (list ReceiptRow) := λ '(w, d),
  (match db_receipts d with Some rows => Ok rows | None => db_error end, (w, d)).
Definition change (f : Database → Database) : load unit := λ '(w, d), (Ok tt, (w, f d)).

(** [DELETE FROM history WHERE ..] and [DELETE FROM dry_run_receipts WHERE ..] *)
Definition delete_history (keep : list HistoryRow → list HistoryRow) : load unit :=
  _ ← run_sql; rows ← history_rows; change (set_history (keep rows)).
Definition delete_receipts (keep : list ReceiptRow → list ReceiptRow) : load unit :=
  _ ← run_sql; rows ← receipt_rows; change (set_receipts (keep rows)).

(** [INSERT INTO history ..] and [last_insert_rowid] *)
Definition add_history (row : Z → HistoryRow) (rows : list HistoryRow) : load Z := λ '(w, d),
  let sequence := db_sequence d + 1 in
  if (I64_MAX <? sequence) || negb (history_check 13 (row sequence)) then (db_error, (w, d))
  else (Ok sequence, (w, {| db_version := db_version d;
                            db_history := Some (rows ++ [row sequence]);
                            db_sequence := sequence; db_receipts := db_receipts d |})).
Definition insert_history (row : Z → HistoryRow) : load Z :=
  _ ← run_sql; rows ← history_rows; add_history row rows.

(** [INSERT OR IGNORE INTO dry_run_receipts ..]: whether the row was inserted *)
Definition add_receipt (row : Z → ReceiptRow) (rows : list ReceiptRow) : load bool := λ '(w, d),
  let next := largest_rowid rows + 1 in
  let '(rowid, w) := if next <=? I64_MAX then (next, w) else spare_rowid w in
  let r := row rowid in
  if negb (receipt_check r)
     || existsb (λ r', String.eqb (rr_receipt_ref r') (rr_receipt_ref r)) rows
  then (Ok false, (w, d))
  else if existsb (λ r', rr_rowid r' =? rowid) rows then (db_error, (w, d))
  else (Ok true, (w, set_receipts (rows ++ [r]) d)).
Definition insert_receipt (row : Z → ReceiptRow) : load bool :=
  _ ← run_sql; rows ← receipt_rows; add_receipt row rows.

Definition checkpoint : load unit := run_sql.

(** ** The files *)

(** [file_size] *)
Definition file_size (path : string) : load Z := λ '(w, d),
  match store_metadata path w with
  | (Some (Some m), w) =>
    (if sm_is_file m && negb (sm_is_symlink m) then Ok (sm_len m)
     else Err (message "history database file is invalid"), (w, d))
  | (Some None, w) => (Ok 0, (w, d))
  | (None, w) => (Err (message "cannot inspect history database"), (w, d))
  end.

Definition check_size (store : HistoryStore) : load unit :=
  size ← file_size (hs_path store);
  wal ← file_size (hs_path store +:+ "-wal");
  lift (fail_if (hs_maximum_bytes store <? sat_add size wal)
          (message "history storage bound exceeded")).

Definition on_file (f : string → W → bool * W) (path m : string) : load unit := λ '(w, d),
  let '(ok, w) := f path w in (if ok then Ok tt else Err (message m), (w, d)).
Definition protect (path : string) : load unit :=
  on_file protect_file path "cannot protect history database".

Definition protect_if_there (path : string) : load unit := λ '(w, d),
  let '(there, w) := store_exists path w in
  if there then protect path (w, d) else (Ok tt, (w, d)).

Definition protect_database_files (path : string) : load unit :=
  _ ← protect path;
  _ ← protect_if_there (path +:+ "-wal");
  protect_if_there (path +:+ "-shm").

Definition protect_or_create (path : string) (maximum_bytes : Z) : load unit := λ '(w, d),
  match store_metadata path w with
  | (Some (Some m), w) =>
    if sm_is_file m && negb (sm_is_symlink m) && (sm_len m <=? maximum_bytes)
    then protect path (w, d)
    else (Err (message "history database file is invalid"), (w, d))
  | (Some None, w) =>
    on_file create_private_file path "cannot create history database" (w, d)
  | (None, w) => (Err (message "cannot inspect history database"), (w, d))
  end.
Definition prepare_database_file (path : string) (maximum_bytes : Z) : load unit :=
  _ ← lift (fail_if (maximum_bytes <? sat_mul SQLITE_PAGE_BYTES 4)
              (message "history storage bound is invalid"));
  protect_or_create path maximum_bytes.

(** ** Opening *)

(** [history-v1.sql]: both tables are created, which fails when one is there. *)
Definition create_tables : load unit := λ '(w, d),
  match db_history d, db_receipts d with
  | None, None => (Ok tt, (w, {| db_version := db_version d; db_history := Some [];
                                 db_sequence := 0; db_receipts := Some [] |}))
  | _, _ => (db_error, (w, d))
  end.
Definition migrate_v1 : load unit :=
  transaction (
    _ ← run_sql; _ ← create_tables; _ ← run_sql;
    change (λ d, {| db_version := 1; db_history := db_history d; db_sequence := db_sequence d;
                    db_receipts := db_receipts d |})).

(** [history-v2.sql]: the rows are copied into a new table with the wider [CHECK]; its
    sequence goes on from the largest that was copied. *)
Definition migrate_v2 : load unit :=
  transaction (
    _ ← run_sql;
    rows ← history_rows;
    _ ← lift (if forallb (history_check 13) rows then Ok tt else db_error);
    _ ← change (λ d, {| db_version := db_version d; db_history := Some rows;
                        db_sequence := foldr Z.max 0 (map hr_sequence rows);
                        db_receipts := db_receipts d |});
    _ ← run_sql;
    change (λ d, {| db_version := SCHEMA_VERSION; db_history := db_history d;
                    db_sequence := db_sequence d; db_receipts := db_receipts d |})).

Definition user_version_of : load Z := λ '(w, d), (Ok (db_version d), (w, d)).
Definition query_version : load Z := _ ← run_sql; user_version_of.

Definition validate_schema : load unit :=
  _ ← run_sql; _ ← history_rows;
  _ ← run_sql; _ ← receipt_rows; mret tt.

Definition configure (maximum_bytes : Z) : load unit :=
  _ ← run_sql; _ ← run_sql; _ ← run_sql;
  version ← query_version;
  _ ← lift (fail_if (SCHEMA_VERSION <? version)
              (message "history schema is newer than supported"));
  _ ← (if version =? 0 then migrate_v1 else mret tt);
  version ← query_version;
  _ ← (if version =? 1 then migrate_v2 else mret tt);
  _ ← validate_schema;
  mode ← run_pragma pragma_journal_mode;
  _ ← lift (fail_if (negb (eq_ignore_ascii_case mode "wal"))
              (message "history WAL mode is unavailable"));
  _ ← run_sql;
  let maximum_pages := sat_mul maximum_bytes 3 / 4 / SQLITE_PAGE_BYTES in
  configured_pages ← run_pragma (pragma_max_page_count maximum_pages);
  _ ← lift (fail_if (maximum_pages <? configured_pages)
              (message "history database exceeds its page bound"));
  _ ← run_sql; _ ← run_sql;
  integrity ← run_pragma pragma_quick_check;
  lift (fail_if (negb (String.eqb integrity "ok")) (message "history database is corrupt")).

(** ** Operations *)

(** [i64::saturating_sub] *)
Definition cutoff (store : HistoryStore) (now : Z) : Z := sat_sub_i64 now (hs_retention_seconds store).

Definition maintain (store : HistoryStore) (now : Z) : load unit :=
  _ ← check_size store;
  _ ← lock;
  _ ← transaction (
    _ ← delete_history (expire_history (cutoff store now));
    limit ← lift (to_i64 (hs_retained_rows store));
    _ ← delete_history (trim_history limit);
    _ ← delete_receipts (expire_receipts (cutoff store now));
    limit ← lift (to_i64 (hs_retained_rows store));
    delete_receipts (trim_receipts limit));
  _ ← checkpoint;
  _ ← protect_database_files (hs_path store);
  check_size store.

(** [HistoryStore::open], on the contents of the file *)
Definition open_history (path : string) (maximum_bytes retained_rows retention_days now : Z) :
    load HistoryStore :=
  _ ← prepare_database_file path maximum_bytes;
  _ ← run_sql; _ ← run_sql;
  _ ← configure maximum_bytes;
  retention_seconds ← lift (checked_i64 "history retention is invalid"
                              (sat_mul retention_days 86400));
  let store := {| hs_path := path; hs_maximum_bytes := maximum_bytes;
                  hs_retained_rows := retained_rows;
                  hs_retention_seconds := retention_seconds |} in
  _ ← maintain store now;
  mret store.

(** [HistoryStore::record_terminal] *)
Definition store_terminal (store : HistoryStore) (record : TerminalRecord) : load Z :=
  _ ← lift (fail_if ((tr_recorded_unix record <? 0)
                     || is_some_and (tr_plan record) (λ plan, snd plan =? 0))
              (message "terminal history record is invalid"));
  _ ← check_size store;
  _ ← lock;
  sequence ← transaction (
    row ← lift (terminal_row "history counter is invalid" record);
    insert_history row);
  _ ← checkpoint;
  _ ← maintain store (tr_recorded_unix record);
  mret sequence.

Definition validate_dry_run (b : DryRunBinding) : result WebConfigError unit :=
  fail_if ((drb_completed_unix b <? 0) || (drb_credential_generation b =? 0)
           || negb (is_lower_sha256 (drb_plan_sha256 b))
           || negb (is_lower_sha256 (drb_source_configuration_sha256 b))
           || negb (is_lower_sha256 (drb_server_identity_sha256 b))
           || negb (is_lower_sha256 (drb_server_profile_sha256 b)))
    (message "dry-run receipt is invalid").

Definition is_dry_run (k : HistoryKind.t) : bool :=
  match k with
  | HistoryKind.FolderDryRun | HistoryKind.GoogleTakeoutDryRun
  | HistoryKind.ApplePhotosDryRun | HistoryKind.PicasaDryRun => true
  | _ => false
  end.

Definition validate_terminal (b : DryRunBinding) (t : TerminalRecord) : result WebConfigError unit :=
  let matching_plan := is_some_and (tr_plan t)
    (λ plan, String.eqb (fst plan) (drb_plan_reference b) && (0 <? snd plan)) in
  fail_if (negb (tr_recorded_unix t =? drb_completed_unix b)
           || negb (bool_decide (tr_status t = TerminalStatus.Completed))
           || negb (is_dry_run (tr_kind t))
           || negb (sc_max_logical_effects (tr_counters t) =? drb_max_logical_effects b)
           || negb matching_plan)
    (message "dry-run terminal record is invalid").

(** [ReceiptRef::random] and [ArtifactRef::random] *)
Definition random_reference (m : string) : load string := λ '(w, d),
  match getrandom 16 w with
  | (Some b, w) => (Ok b, (w, d))
  | (None, w) => (Err (message m), (w, d))
  end.

(** One turn of the loop of [record_dry_run] *)
Definition try_receipt (store : HistoryStore) (b : DryRunBinding) (t : TerminalRecord) :
    load (option ReceiptRef) :=
  reference ← random_reference "receipt reference generation failed";
  _ ← lock;
  inserted ← transaction (
    row ← lift (receipt_row reference b);
    inserted ← insert_receipt row;
    if inserted : bool then
      row ← lift (terminal_row "receipt counter is invalid" t);
      _ ← insert_history row;
      mret true
    else mret false);
  _ ← checkpoint;
  if inserted : bool then _ ← maintain store (drb_completed_unix b); mret (Some reference)
  else mret None.

Fixpoint receipt_attempts (attempts : nat) (store : HistoryStore) (b : DryRunBinding)
    (t : TerminalRecord) : load DryRunReceipt :=
  match attempts with
  | O => lift (Err (message "receipt reference capacity exhausted"))
  | S attempts =>
    tried ← try_receipt store b t;
    match tried with
    | Some reference => mret {| drr_reference := reference; drr_binding := b |}
    | None => receipt_attempts attempts store b t
    end
  end.

(** [HistoryStore::record_dry_run] *)
Definition store_dry_run (store : HistoryStore) (b : DryRunBinding) (t : TerminalRecord) :
    load DryRunReceipt :=
  _ ← lift (validate_dry_run b);
  _ ← lift (validate_terminal b t);
  _ ← check_size store;
  receipt_attempts RECEIPT_CREATE_ATTEMPTS store b t.

(** [HistoryStore::latest] *)
Definition latest_history (store : HistoryStore) (maximum : Z) : load (list StoredHistory) :=
  _ ← lift (fail_if ((maximum =? 0) || (hs_retained_rows store <? maximum))
              (message "history page bound is invalid"));
  _ ← lock;
  _ ← run_sql;
  limit ← lift (to_i64 maximum);
  _ ← run_sql;
  rows ← history_rows;
  lift (match mapM from_row (newest_history limit rows) with
        | Some records => Ok records
        | None => db_error
        end).

(** [HistoryStore::count] *)
Definition count_history (store : HistoryStore) : load Z :=
  _ ← check_size store;
  _ ← lock;
  _ ← run_sql;
  rows ← history_rows;
  mret (zlen rows).

(** [HistoryStore::dry_run_receipt] *)
Definition find_receipt (reference : ReceiptRef) : load (option DryRunReceipt) :=
  _ ← lock;
  _ ← run_sql;
  rows ← receipt_rows;
  _ ← run_sql;
  match List.find (λ r, String.eqb (rr_receipt_ref r) reference) rows with
  | None => mret None
  | Some r => lift (match receipt_of_row reference r with
                    | Some receipt => Ok (Some receipt)
                    | None => db_error
                    end)
  end.
End history.

(** ** What the tables hold *)

Record Sound (d : Database) (rows : list HistoryRow) (receipts : list ReceiptRow) : Prop := {
  sound_history : db_history d = Some rows;
  sound_receipts : db_receipts d = Some receipts;
  sound_order : StronglySorted Z.lt (map hr_sequence rows);
  sound_sequence : Forall (λ r, 0 < hr_sequence r <= db_sequence d) rows;
  sound_counter : 0 <= db_sequence d;
  sound_rows : Forall (λ r, is_Some (from_row r)) rows;
  sound_references : NoDup (map rr_receipt_ref receipts);
  sound_rowids : NoDup (map rr_rowid receipts);
  sound_checks : Forall (λ r, receipt_check r = true) receipts;
}.

(** A file that was just created, or one whose tables are in order *)
Definition valid_database (d : Database) : Prop :=
  (db_version d = 0 ∧ db_history d = None ∧ db_receipts d = None)
  ∨ ∃ rows receipts, Sound d rows receipts.

(** The rows of [d'] are rows of [d] or have a later sequence. *)
Definition appended (d d' : Database) : Prop :=
  db_sequence d <= db_sequence d' ∧
  ∀ rows rows', db_history d = Some rows → db_history d' = Some rows' →
    ∀ r, r ∈ rows' → hr_sequence r <= db_sequence d → r ∈ rows.

(** What one step may do to the contents *)
Definition advances (d d' : Database) : Prop :=
  ∀ rows receipts, Sound d rows receipts →
    (∃ rows' receipts', Sound d' rows' receipts') ∧ appended d d'.

(** Other threads use the same operations. *)
Class HistoryLaws (W : Type) `{!HistoryWorld W} : Prop := {
  lock_law d w d' w' : lock_connection d w = (Some d', w') → advances d d';
}.

(** No other thread uses the store meanwhile. *)
Class HistoryAlone (W : Type) `{!HistoryWorld W} : Prop := {
  lock_alone d w d' w' : lock_connection d w = (Some d', w') → d' = d;
}.

#[export] Instance advances_refl : Reflexive advances.
Proof. intros d rows receipts Hs. split; [eauto|]. split; [done|]. intros. by simplify_eq. Qed.

#[export] Instance advances_trans : Transitive advances.
Proof.
  intros d1 d2 d3 H12 H23 rows receipts Hs.
  destruct (H12 _ _ Hs) as [(rows2 & receipts2 & Hs2) [Hle Ha]].
  destruct (H23 _ _ Hs2) as [(rows3 & receipts3 & Hs3) [Hle' Ha']].
  split; [eauto|]. split; [lia|]. intros r1 r3 Hr1 Hr3 r Hr Hseq.
  apply (Ha _ rows2 Hr1 (sound_history _ _ _ Hs2)); [|done].
  apply (Ha' _ _ (sound_history _ _ _ Hs2) Hr3); [done|lia].
Qed.

#[export] Instance advances_preorder : PreOrder advances.
Proof. split; apply _. Qed.

#[export] Instance HistoryAlone_laws {W} `{!HistoryWorld W, !HistoryAlone W} : HistoryLaws W.
Proof. constructor. by intros ???? ->%lock_alone. Qed.

(** ** Order *)

Section rank.
  Context {A} (le : A → A → bool).
  Context (le_total : ∀ x y, le x y = false → le y x = true).

Definition strictly (x y : A) : bool := negb (le y x).

Lemma take_sorted_rank l n x :
  StronglySorted (λ a b, le a b = true) l → NoDup l →
  (∀ a b, a ∈ l → b ∈ l → le a b = true → le b a = true → a = b) →
  x ∈ l → (length (List.filter (λ y, strictly y x) l) < n)%nat → x ∈ take n l.
Proof.
  intros Hs. revert n. induction Hs as [|z l Hs IH Hz]; intros n Hnd Hanti Hx Hn; [by apply not_elem_of_nil in Hx|].
  apply NoDup_cons in Hnd as [Hzl Hnd]. destruct n as [|n]; [lia|]. cbn [take].
  apply elem_of_cons in Hx as [->|Hx]; [by left|]. right. apply IH; try done.
  - intros. apply Hanti; try done; by right.
  - cbn [List.filter] in Hn. rewrite Forall_forall in Hz. unfold strictly at 1 in Hn.
    destruct (le x z) eqn:Hxz; [|cbn in Hn; lia].
    assert (x = z) as -> by (apply Hanti; [by right|by left|done|by apply Hz]). done.
Qed.
End rank.

Lemma insert_by_last {A} (le : A → A → bool) x l :
  Forall (λ y, le x y = false) l → insert_by le x l = l ++ [x].
Proof. induction 1 as [|y l Hy Hl IH]; simpl; [done|]. by rewrite Hy, IH. Qed.

(** Rows in the order of their sequences are sorted the other way round. *)
Lemma sort_newest_first rows :
  StronglySorted Z.lt (map hr_sequence rows) → sort_by newest_first rows = reverse rows.
Proof.
  induction rows as [|r rows IH]; cbn [map sort_by]; [done|].
  intros [Hs Hr]%StronglySorted_inv. rewrite IH by done. rewrite reverse_cons. apply insert_by_last.
  apply Forall_forall. intros y Hy. rewrite elem_of_reverse in Hy. unfold newest_first.
  rewrite Forall_forall in Hr. apply Z.leb_gt, Hr. apply Prelude.elem_of_map. by exists y.
Qed.

Lemma newest_history_take n rows :
  StronglySorted Z.lt (map hr_sequence rows) →
  newest_history n rows = take (Z.to_nat n) (reverse rows).
Proof. intros Hs. unfold newest_history. by rewrite sort_newest_first. Qed.

Lemma sorted_lt_NoDup l : StronglySorted Z.lt l → NoDup l.
Proof.
  induction 1 as [|x l Hs IH Hx]; constructor; [|done].
  intros Hin. rewrite Forall_forall in Hx. specialize (Hx _ Hin). lia.
Qed.

(** [maintain] keeps the newest rows, in their order. *)
Lemma trim_history_last n rows :
  StronglySorted Z.lt (map hr_sequence rows) →
  trim_history n rows = drop (length rows - Z.to_nat n) rows.
Proof.
  intros Hs. unfold trim_history. rewrite newest_history_take by done.
  set (k := (length rows - Z.to_nat n)%nat).
  assert (take (Z.to_nat n) (reverse rows) = reverse (drop k rows)) as ->.
  { rewrite <-(take_drop k rows) at 1. rewrite reverse_app.
    assert (length (reverse (drop k rows)) = Nat.min (Z.to_nat n) (length rows)) as Hlen.
    { rewrite length_reverse, length_drop. lia. }
    destruct (decide (Z.to_nat n <= length rows)%nat).
    - rewrite take_app_length' by lia. done.
    - assert (k = 0%nat) as Hk by lia. rewrite Hk. cbn. rewrite app_nil_r, take_ge; [done|].
      rewrite length_reverse, Hk in Hlen. rewrite length_reverse. cbn in *. lia. }
  set (p := λ r, _). transitivity (List.filter p (take k rows ++ drop k rows)); [by rewrite take_drop|].
  rewrite List.filter_app. unfold p.
  rewrite <-(take_drop k rows), map_app in Hs. apply sorted_lt_NoDup, NoDup_app in Hs as (_ & Hdis & _).
  rewrite filter_none, filter_all; [done|..].
  - apply Forall_forall. intros r Hr. apply bool_decide_eq_true, Prelude.elem_of_map.
    exists r. by rewrite elem_of_reverse.
  - apply Forall_forall. intros r Hr. apply bool_decide_eq_false. intros (r' & Hr' & Heq)%Prelude.elem_of_map.
    rewrite elem_of_reverse in Heq.
    apply (Hdis (hr_sequence r)); apply Prelude.elem_of_map; [by exists r|by exists r'].
Qed.

(** ** Steps on the tables *)

Lemma sound_filter_history d rows receipts p :
  Sound d rows receipts → Sound (set_history (List.filter p rows) d) (List.filter p rows) receipts.
Proof.
  intros [? ? ? ? ? ? ? ? ?].
  constructor; cbn; auto using StronglySorted_map_filter, Forall_List_filter.
Qed.

Lemma sound_filter_receipts d rows receipts p :
  Sound d rows receipts → Sound (set_receipts (List.filter p receipts) d) rows (List.filter p receipts).
Proof.
  intros [? ? ? ? ? ? ? ? ?].
  constructor; cbn; auto using NoDup_map_filter, Forall_List_filter.
Qed.

(** A deletion keeps the rows that satisfy some condition. *)
Definition selects {A} (keep : list A → list A) : Prop :=
  ∀ rows, ∃ p, keep rows = List.filter p rows.
Lemma expire_history_selects c : selects (expire_history c).
Proof. intros rows. by eexists. Qed.
Lemma trim_history_selects n : selects (trim_history n).
Proof. intros rows. by eexists. Qed.
Lemma expire_receipts_selects c : selects (expire_receipts c).
Proof. intros rows. by eexists. Qed.
Lemma trim_receipts_selects n : selects (trim_receipts n).
Proof. intros rows. by eexists. Qed.

Lemma sound_add_history d rows receipts row :
  Sound d rows receipts → (∀ n, hr_sequence (row n) = n) →
  is_Some (from_row (row (db_sequence d + 1))) →
  let d' := {| db_version := db_version d; db_history := Some (rows ++ [row (db_sequence d + 1)]);
               db_sequence := db_sequence d + 1; db_receipts := db_receipts d |} in
  Sound d' (rows ++ [row (db_sequence d + 1)]) receipts ∧ appended d d'.
Proof.
  intros [Hh Hr Ho Hseq Hc Hrows ? ? ?] Hn Hnew d'. split.
  - constructor; cbn; try done; try lia.
    + rewrite map_app. cbn. rewrite Hn. clear -Ho Hseq.
      induction rows as [|r rows IH]; cbn in *; [repeat constructor|].
      apply StronglySorted_inv in Ho as [Ho Hr]. apply Forall_cons in Hseq as [Hs Hseq].
      constructor; [by apply IH|]. apply Forall_app. split; [done|]. constructor; [lia|done].
    + apply Forall_app. split; [|constructor; [rewrite Hn; lia|done]].
      eapply Forall_impl; [exact Hseq|]. cbn. intros r. lia.
    + apply Forall_app. split; [done|]. by constructor.
  - split; cbn; [lia|]. intros rows0 rows' Hrows0 [= <-] r Hin Hle.
    rewrite Hh in Hrows0. injection Hrows0 as <-.
    apply elem_of_app in Hin as [Hin|Hin]; [done|]. apply list_elem_of_singleton in Hin as ->.
    rewrite Hn in Hle. lia.
Qed.

Lemma NoDup_snoc {A} (l : list A) x : NoDup l → x ∉ l → NoDup (l ++ [x]).
Proof. intros Hl Hx. apply NoDup_app. split_and!; [done|set_solver|apply NoDup_singleton]. Qed.

Lemma sound_add_receipt d rows receipts r :
  Sound d rows receipts → receipt_check r = true →
  rr_receipt_ref r ∉ map rr_receipt_ref receipts → rr_rowid r ∉ map rr_rowid receipts →
  Sound (set_receipts (receipts ++ [r]) d) rows (receipts ++ [r]).
Proof.
  intros [? ? ? ? ? ? ? ? ?] Hc Href Hid.
  constructor; cbn; rewrite ?map_app; try done; [by apply NoDup_snoc ..|].
  apply Forall_app. split; [done|]. by constructor.
Qed.

Lemma appended_receipts receipts d : appended d (set_receipts receipts d).
Proof. split; cbn; [done|]. intros. by simplify_eq. Qed.

Lemma appended_filter d rows p : db_history d = Some rows → appended d (set_history (List.filter p rows) d).
Proof.
  intros Hh. split; cbn; [done|]. intros rows0 rows' H0 [= <-] r Hr _. rewrite Hh in H0.
  injection H0 as <-. by apply elem_of_List_filter in Hr as [? _].
Qed.

(** ** The parameters of an insertion *)

Lemma terminal_row_sequence m record row n : terminal_row m record = Ok row → hr_sequence (row n) = n.
Proof. unfold terminal_row. cbv zeta. intros H. by result_inv. Qed.

(** A record is read back from the row it is written to; the schema version of a plan
    is a [u32]. *)
Definition fits_row (record : TerminalRecord) : Prop :=
  ∀ reference schema, tr_plan record = Some (reference, schema) → schema <= u32_max.

Lemma from_terminal_row m record row n :
  terminal_row m record = Ok row → fits_row record → 0 <= n → history_check 13 (row n) = true →
  from_row (row n) = Some {| sh_sequence := n; sh_record := record |}.
Proof.
  unfold terminal_row. cbv zeta. intros Hrow Hfits Hn Hc. result_inv.
  destruct record as [time kind status plan [assets sidecars read warnings errors effects]].
  unfold checked_i64 in *. cbn [sc_assets sc_sidecars sc_bytes_read sc_warnings sc_errors
    sc_max_logical_effects tr_counters] in *.
  repeat (case_match; [|done]). simplify_eq.
  unfold history_check in Hc. cbn in Hc. bools.
  assert (∀ k, 0 <= k → read_u64 k = Some k) as Hread.
  { intros k Hk. unfold read_u64. by destruct (Z.ltb_spec k 0); [lia|]. }
  unfold from_row. cbn [hr_plan_schema hr_plan_ref hr_sequence hr_kind hr_status hr_assets hr_sidecars
    hr_bytes_read hr_warnings hr_errors hr_max_logical_effects hr_recorded_unix tr_kind tr_status tr_plan].
  rewrite !history_kind_roundtrip, !terminal_status_roundtrip.
  destruct plan as [[reference schema]|]; cbn in *.
  - specialize (Hfits _ _ eq_refl). bools.
    rewrite (proj2 (Z.leb_le 0 schema)), (proj2 (Z.leb_le schema u32_max)) by lia. cbn.
    unfold from_vec. rewrite (proj2 (Z.eqb_eq _ _)) by done. cbn. by rewrite !Hread.
  - by rewrite !Hread.
Qed.

(** ** Digests *)

Lemma hex_digit_value a :
  is_lower_hex_byte a = true → hex_digit (digit_value a) = a ∧ 0 <= digit_value a < 16.
Proof. destruct a as [[] [] [] [] [] [] [] []]; vm_compute; intros; (split; [done|split; done]) || done. Qed.

Lemma hex_unhex s :
  forallb is_lower_hex_byte (bytes s) = true → Nat.even (String.length s) = true → hex (unhex s) = s.
Proof.
  revert s. fix IH 1. intros [|a [|b s]]; [done|done|].
  change (bytes (String a (String b s))) with (a :: b :: bytes s). cbn [forallb String.length Nat.even].
  rewrite !andb_true_iff. intros (Ha & Hb & Hs) He.
  destruct (hex_digit_value a Ha) as [Hda Hra], (hex_digit_value b Hb) as [Hdb Hrb].
  cbn [unhex hex]. rewrite ascii_of_byte by lia.
  rewrite Z.div_add_l, Z.div_small, Z.add_0_r by lia.
  rewrite Z.add_comm, Z.mod_add, Z.mod_small by lia.
  by rewrite Hda, Hdb, IH.
Qed.

Lemma encode_decode_sha256 value b :
  decode_sha256 value = Ok b → len b = 32 → encode_sha256 b = Some value.
Proof.
  unfold decode_sha256, encode_sha256. destruct (is_lower_sha256 value) eqn:Hv; [|done].
  intros [= <-] Hl. rewrite Hl. cbn. f_equal. unfold is_lower_sha256 in Hv.
  apply andb_true_iff in Hv as [Hl' Hb]. apply Z.eqb_eq in Hl'. apply hex_unhex; [done|].
  unfold len in Hl'. assert (String.length value = 64%nat) as -> by lia. done.
Qed.

Lemma receipt_row_back reference b row n :
  receipt_row reference b = Ok row → receipt_check (row n) = true →
  rr_rowid (row n) = n ∧ rr_receipt_ref (row n) = reference
  ∧ rr_completed_unix (row n) = drb_completed_unix b
  ∧ receipt_of_row reference (row n) = Some {| drr_reference := reference; drr_binding := b |}.
Proof.
  unfold receipt_row. intros Hrow Hc. result_inv.
  unfold checked_i64 in *. repeat case_match; simplify_eq.
  unfold receipt_check in Hc. cbn in Hc. bools. cbn. split_and!; try done.
  unfold receipt_of_row, from_vec, read_u64. cbn.
  repeat match goal with H : decode_sha256 _ = Ok _ |- _ =>
    apply encode_decode_sha256 in H; [|done] end.
  rewrite (proj2 (Z.eqb_eq (len (drb_plan_reference b)) 16)) by done. cbn.
  repeat match goal with H : encode_sha256 _ = Some _ |- _ => rewrite H; clear H; cbn end.
  do 2 (match goal with |- context [?x <? 0] => destruct (Z.ltb_spec x 0) end; [lia|]; cbn).
  by destruct b.
Qed.

(** ** Every operation is a sequence of steps *)

Section steps.
  Context {W : Type} `{!HistoryWorld W, !Entropy W}.
Notation world := (W * Database)%type.
Notation load := (io world WebConfigError).

(** Whatever [m] returns, it leaves contents that are [R]-related to those it found. *)
Definition steps (R : Database → Database → Prop) {A} (m : load A) : Prop :=
  ∀ w d r w' d', m (w, d) = (r, (w', d')) → R d d'.

Section rules.
  Context (R : Database → Database → Prop) `{!PreOrder R}.

Lemma steps_bind {A B} (m : load A) (f : A → load B) :
  steps R m → (∀ a, steps R (f a)) → steps R (m ≫= f).
Proof.
  intros Hm Hf w d r w' d' [(e & He & _)|(a & [w1 d1] & Ha & Hr)]%io_bind_inv; [by eapply Hm|].
  etransitivity; [by eapply Hm|by eapply Hf].
Qed.
Lemma steps_lift {A} (r : result WebConfigError A) : steps R (lift r).
Proof. by intros w d r' w' d' [= _ _ ->]. Qed.
Lemma steps_ret {A} (a : A) : steps R (mret a : load A).
Proof. by intros w d r' w' d' [= _ _ ->]. Qed.
Lemma steps_transaction {A} (m : load A) : steps R run_sql → steps R m → steps R (transaction m).
Proof.
  intros Hs Hm. apply steps_bind; [done|]. intros _ w d r w' d'. unfold or_roll_back.
  match goal with |- context [match ?b with _ => _ end] => set (body := b) end.
  destruct body as [[a|e] [w1 d1]] eqn:He; intros [= <- <- <-]; [|done]. unfold body in He.
  refine (steps_bind m (λ a, _ ← run_sql; mret a) Hm _ w d (Ok a) w1 d1 He).
  intros a'. apply steps_bind; [done|]. intros _. apply steps_ret.
Qed.
Lemma steps_quiet {A} (m : load A) : steps eq m → steps R m.
Proof. intros Hm w d r w' d' H. by rewrite (Hm _ _ _ _ _ H). Qed.
End rules.

Lemma quiet_sql : steps eq run_sql.
Proof. intros w d r w' d'. unfold run_sql. destruct (sql w). by intros [= _ _ ->]. Qed.
Lemma quiet_pragma {A} (f : W → option A * W) : steps eq (run_pragma f).
Proof. intros w d r w' d'. unfold run_pragma. destruct (f w) as [[] ?]; by intros [= _ _ ->]. Qed.
Lemma quiet_history_rows : steps eq history_rows.
Proof. by intros w d r w' d' [= _ _ ->]. Qed.
Lemma quiet_receipt_rows : steps eq receipt_rows.
Proof. by intros w d r w' d' [= _ _ ->]. Qed.
Lemma quiet_on_file f path m : steps eq (on_file f path m).
Proof. intros w d r w' d'. unfold on_file. destruct (f path w). by intros [= _ _ ->]. Qed.
Lemma quiet_file_size path : steps eq (file_size path).
Proof.
  intros w d r w' d'. unfold file_size. destruct (store_metadata path w) as [[[]|] ?]; by intros [= _ _ ->].
Qed.
Lemma quiet_random m : steps eq (random_reference m).
Proof. intros w d r w' d'. unfold random_reference. destruct (getrandom 16 w) as [[] ?]; by intros [= _ _ ->]. Qed.
Lemma quiet_protect_if_there path : steps eq (protect_if_there path).
Proof.
  intros w d r w' d'. unfold protect_if_there. destruct (store_exists path w) as [[] w1].
  - apply quiet_on_file.
  - by intros [= _ _ ->].
Qed.
Lemma quiet_check_size store : steps eq (check_size store).
Proof.
  apply steps_bind; [apply _|apply quiet_file_size|intros a].
  apply steps_bind; [apply _|apply quiet_file_size|intros b]. apply steps_lift, _.
Qed.
Lemma quiet_protect path : steps eq (protect_database_files path).
Proof.
  apply steps_bind; [apply _|apply quiet_on_file|intros []].
  apply steps_bind; [apply _|apply quiet_protect_if_there|intros []]. apply quiet_protect_if_there.
Qed.

Lemma steps_delete_history keep : selects keep → steps advances (delete_history keep).
Proof.
  intros Hk. apply steps_bind; [apply _|apply steps_quiet, quiet_sql; apply _|intros []].
  intros w d r w' d' [(e & He & _)|(rows & [w1 d1] & Ha & Hr)]%io_bind_inv.
  { by rewrite (quiet_history_rows _ _ _ _ _ He). }
  unfold history_rows in Ha. destruct (db_history d) as [rows0|] eqn:Hrows; [|done].
  simplify_eq. unfold change in Hr. injection Hr as _ _ <-. destruct (Hk rows) as [p ->].
  intros rows' receipts Hs. assert (rows' = rows) as ->.
  { destruct Hs. congruence. }
  split; [by eexists _, _; apply sound_filter_history|]. by apply appended_filter.
Qed.

Lemma steps_delete_receipts keep : selects keep → steps advances (delete_receipts keep).
Proof.
  intros Hk. apply steps_bind; [apply _|apply steps_quiet, quiet_sql; apply _|intros []].
  intros w d r w' d' [(e & He & _)|(rows & [w1 d1] & Ha & Hr)]%io_bind_inv.
  { by rewrite (quiet_receipt_rows _ _ _ _ _ He). }
  unfold receipt_rows in Ha. destruct (db_receipts d) as [rows0|] eqn:Hrows; [|done].
  simplify_eq. unfold change in Hr. injection Hr as _ _ <-. destruct (Hk rows) as [p ->].
  intros rows' receipts Hs. assert (receipts = rows) as ->.
  { destruct Hs. congruence. }
  split; [by eexists _, _; apply sound_filter_receipts|]. apply appended_receipts.
Qed.

(** What an inserted row has to be *)
Definition decodable (row : Z → HistoryRow) : Prop :=
  ∀ n, hr_sequence (row n) = n ∧
    (0 <= n → history_check 13 (row n) = true → is_Some (from_row (row n))).

Lemma steps_insert_history row : decodable row → steps advances (insert_history row).
Proof.
  intros Hd. apply steps_bind; [apply _|apply steps_quiet, quiet_sql; apply _|intros []].
  intros w d r w' d' [(e & He & _)|(rows & [w1 d1] & Ha & Hr)]%io_bind_inv.
  { by rewrite (quiet_history_rows _ _ _ _ _ He). }
  unfold history_rows in Ha. destruct (db_history d) as [rows0|] eqn:Hrows; [|done]. simplify_eq.
  unfold add_history in Hr. destruct (_ || _) eqn:Hc; simplify_eq; [done|]. bools.
  intros rows' receipts Hs. assert (rows' = rows) as ->.
  { destruct Hs. congruence. }
  destruct (sound_add_history _ _ _ row Hs) as [Hs' Ha']; [by apply Hd| |by eauto].
  apply Hd; [destruct Hs; lia|done].
Qed.

Lemma steps_insert_receipt row :
  (∀ n, rr_rowid (row n) = n) → steps advances (insert_receipt row).
Proof.
  intros Hd. apply steps_bind; [apply _|apply steps_quiet, quiet_sql; apply _|intros []].
  intros w d r w' d' [(e & He & _)|(rows & [w1 d1] & Ha & Hr)]%io_bind_inv.
  { by rewrite (quiet_receipt_rows _ _ _ _ _ He). }
  unfold receipt_rows in Ha. destruct (db_receipts d) as [rows0|] eqn:Hrows; [|done]. simplify_eq.
  unfold add_receipt in Hr. cbv zeta in Hr.
  destruct (if _ <=? _ then _ else _) as [rowid w2]. destruct (_ || _) eqn:Hc; [by simplify_eq|].
  destruct (existsb (λ r', rr_rowid r' =? rowid) rows) eqn:Hid; simplify_eq; [done|].
  rewrite orb_false_iff, negb_false_iff, !existsb_false in Hc. rewrite existsb_false in Hid.
  destruct Hc as [Hc Href].
  intros rows' receipts Hs. assert (receipts = rows) as ->.
  { destruct Hs. congruence. }
  split; [|apply appended_receipts]. eexists _, _. apply sound_add_receipt; try done.
  - intros (r' & Heq & Hr')%Prelude.elem_of_map. rewrite Forall_forall in Href.
    specialize (Href _ Hr'). apply String.eqb_neq in Href. congruence.
  - rewrite Hd. intros (r' & Heq & Hr')%Prelude.elem_of_map. rewrite Forall_forall in Hid.
    specialize (Hid _ Hr'). apply Z.eqb_neq in Hid. congruence.
Qed.

Lemma terminal_row_decodable m record row :
  terminal_row m record = Ok row → fits_row record → decodable row.
Proof.
  intros Hrow Hf n. split; [by eapply terminal_row_sequence|]. intros Hn Hc.
  eexists. by eapply from_terminal_row.
Qed.

Lemma receipt_row_rowid reference b row n : receipt_row reference b = Ok row → rr_rowid (row n) = n.
Proof. unfold receipt_row. intros H. by result_inv. Qed.

Lemma steps_lock `{!HistoryLaws W} : steps advances lock.
Proof.
  intros w d r w' d'. unfold lock. destruct (lock_connection d w) as [[d1|] w1] eqn:Hl;
    intros [= <- <- <-]; [by eapply lock_law|done].
Qed.

(** A computation that starts by computing a row *)
Lemma steps_lift_bind {A B} (R : Database → Database → Prop) `{!PreOrder R} (r : result WebConfigError A)
    (f : A → load B) : (∀ a, r = Ok a → steps R (f a)) → steps R (lift r ≫= f).
Proof. intros Hf w d r' w' d'. destruct r as [a|e]; [by apply Hf|by intros [= _ _ ->]]. Qed.
End steps.

#[export] Hint Resolve quiet_sql quiet_pragma quiet_check_size quiet_protect quiet_random
  quiet_on_file quiet_history_rows quiet_receipt_rows expire_history_selects trim_history_selects
  expire_receipts_selects trim_receipts_selects : history.

Ltac step := lazymatch goal with
  | |- steps _ (mret _) => apply steps_ret, _
  | |- steps _ (lift _) => apply steps_lift, _
  | |- steps _ (lift _ ≫= _) => apply steps_lift_bind; [apply _|intros ? ?]
  | |- steps _ (_ ≫= _) => apply steps_bind; [apply _| |intros ?]
  | |- steps _ (transaction _) =>
    apply steps_transaction; [apply _|apply steps_quiet; [apply _|apply quiet_sql]|]
  | |- steps _ (delete_history _) => apply steps_delete_history; auto with history
  | |- steps _ (delete_receipts _) => apply steps_delete_receipts; auto with history
  | |- steps _ (if ?c then _ else _) => destruct c
  | |- steps advances lock => apply steps_lock
  | |- _ => apply steps_quiet; [apply _|solve [auto with history]]
  end.
Ltac steps := repeat step.

Section operations.
  Context {W : Type} `{!HistoryWorld W, !Entropy W, !HistoryLaws W}.
Notation world := (W * Database)%type.
Notation load := (io world WebConfigError).

Lemma steps_maintain store now : steps advances (maintain store now).
Proof. unfold maintain. steps. Qed.

Lemma steps_store_terminal store record :
  fits_row record → steps advances (store_terminal store record).
Proof.
  intros Hf. unfold store_terminal. steps; [|apply steps_maintain].
  apply steps_insert_history. by eapply terminal_row_decodable.
Qed.

Lemma steps_try_receipt store b t : fits_row t → steps advances (try_receipt store b t).
Proof.
  intros Hf. unfold try_receipt. steps; try apply steps_maintain.
  - apply steps_insert_receipt. intros. by eapply receipt_row_rowid.
  - apply steps_insert_history. by eapply terminal_row_decodable.
Qed.

Lemma steps_store_dry_run store b t : fits_row t → steps advances (store_dry_run store b t).
Proof.
  intros Hf. unfold store_dry_run. steps. generalize RECEIPT_CREATE_ATTEMPTS. intros n.
  induction n as [|n IH]; cbn; steps; [by apply steps_try_receipt|].
  case_match; [steps|done].
Qed.

Lemma steps_latest store maximum : steps advances (latest_history store maximum).
Proof. unfold latest_history. steps. Qed.
Lemma steps_count store : steps advances (count_history store).
Proof. unfold count_history. steps. Qed.
Lemma steps_find reference : steps advances (find_receipt reference).
Proof. unfold find_receipt. steps. destruct (List.find _ _); steps. Qed.

(** ** Opening *)

(** A Hoare triple: [Q] when [m] succeeds, [X] when it fails *)
Definition ends {A} (P : Database → Prop) (m : load A) (Q : A → Database → Prop)
    (X : Database → Prop) : Prop :=
  ∀ w d r w' d', m (w, d) = (r, (w', d')) → P d →
    match r with Ok a => Q a d' | Err _ => X d' end.

Lemma ends_seq {A B} (P X : Database → Prop) (Q : A → Database → Prop) (Q' : B → Database → Prop)
    (m : load A) (f : A → load B) :
  ends P m Q X → (∀ a, ends (Q a) (f a) Q' X) → ends P (m ≫= f) Q' X.
Proof.
  intros Hm Hf w d r w' d' [(e & He & ->)|(a & [w1 d1] & Ha & Hr)]%io_bind_inv Hp.
  - exact (Hm _ _ _ _ _ He Hp).
  - exact (Hf a _ _ _ _ _ Hr (Hm _ _ _ _ _ Ha Hp)).
Qed.
Lemma ends_quiet {A} (P X : Database → Prop) (m : load A) :
  steps eq m → (∀ d, P d → X d) → ends P m (λ _, P) X.
Proof. intros Hm Hx w d r w' d' H Hp. rewrite <-(Hm _ _ _ _ _ H). destruct r; auto. Qed.
Lemma ends_mret {A} (P X : Database → Prop) (a : A) : ends P (mret a : load A) (λ _, P) X.
Proof. by intros w d r w' d' [= <- _ <-]. Qed.
Lemma ends_change (P Q X : Database → Prop) f : (∀ d, P d → Q (f d)) → ends P (change f) (λ _, Q) X.
Proof. intros Hf w d r w' d' [= <- _ <-] Hp. by apply Hf. Qed.
Lemma ends_weaken {A} (P P' X : Database → Prop) (Q Q' : A → Database → Prop) (m : load A) :
  ends P m Q X → (∀ d, P' d → P d) → (∀ a d, Q a d → Q' a d) → ends P' m Q' X.
Proof.
  intros Hm Hp Hq w d r w' d' H Hd. specialize (Hm _ _ _ _ _ H (Hp _ Hd)). destruct r; auto.
Qed.
(** A transaction that fails leaves what was there. *)
Lemma ends_transaction {A} (P X Y : Database → Prop) (Q : A → Database → Prop) (m : load A) :
  ends P m Q Y → (∀ d, P d → X d) → ends P (transaction m) Q X.
Proof.
  intros Hm Hx. eapply ends_seq; [by apply ends_quiet; [apply quiet_sql|]|]. intros ?.
  intros w d r w' d'. unfold or_roll_back.
  match goal with |- context [match ?b with _ => _ end] => set (body := b) end.
  destruct body as [[b|e] [w1 d1]] eqn:He; intros [= <- <- <-] Hp; [|auto].
  unfold body in He. apply io_bind_Ok in He as (a' & [w2 d2] & Ha & ([] & [w3 d3] & Hs & [= -> -> ->])%io_bind_Ok).
  rewrite <-(quiet_sql _ _ _ _ _ Hs). exact (Hm _ _ _ _ _ Ha Hp).
Qed.

Definition in_order (d : Database) : Prop := ∃ rows receipts, Sound d rows receipts.

Lemma in_order_valid d : in_order d → valid_database d.
Proof. by right. Qed.

Lemma ends_history_rows :
  ends valid_database history_rows (λ rows d, ∃ receipts, Sound d rows receipts) valid_database.
Proof.
  intros w d r w' d' H Hv. unfold history_rows in H. injection H as <- _ <-.
  destruct Hv as [(? & Hn & ?)|(rows & receipts & Hs)].
  - rewrite Hn. by left.
  - rewrite (sound_history _ _ _ Hs). by exists receipts.
Qed.

Lemma ends_create_tables : ends valid_database create_tables (λ _, in_order) valid_database.
Proof.
  intros w d r w' d'. unfold create_tables.
  destruct (db_history d) as [rows|] eqn:Hh, (db_receipts d) as [receipts|] eqn:Hr;
    intros [= <- <- <-] Hv; try done.
  exists [], []. constructor; cbn; try done; constructor.
Qed.

Lemma sequence_below rows r : r ∈ rows → hr_sequence r <= foldr Z.max 0 (map hr_sequence rows).
Proof. induction 1; cbn; lia. Qed.
Lemma sequences_nonneg rows : 0 <= foldr Z.max 0 (map hr_sequence rows).
Proof. induction rows; cbn; lia. Qed.

(** The version and the counter may change. *)
Lemma sound_renumbered d d' rows receipts :
  Sound d rows receipts → db_history d' = Some rows → db_receipts d' = db_receipts d →
  (∀ r, r ∈ rows → hr_sequence r <= db_sequence d') → 0 <= db_sequence d' → Sound d' rows receipts.
Proof.
  intros [] Hh Hr Hs Hc. constructor; try done; [congruence|].
  rewrite Forall_forall in *. intros r Hin. split; [by apply sound_sequence0|by apply Hs].
Qed.

Lemma ends_migrate_v1 : ends valid_database migrate_v1 (λ _, in_order) valid_database.
Proof.
  eapply ends_transaction; [|done]. eapply ends_seq; [by apply ends_quiet; [apply quiet_sql|]|intros ?].
  eapply ends_seq; [apply ends_create_tables|intros ?].
  eapply ends_seq; [apply ends_quiet; [apply quiet_sql|apply in_order_valid]|intros ?].
  apply ends_change. intros d (rows & receipts & Hs). exists rows, receipts.
  apply (sound_renumbered d); cbn; try done; try apply Hs. intros r Hr.
  pose proof (sound_sequence _ _ _ Hs) as Hq. rewrite Forall_forall in Hq. by apply Hq.
Qed.

Lemma ends_migrate_v2 : ends valid_database migrate_v2 (λ _, in_order) valid_database.
Proof.
  eapply ends_transaction; [|done]. eapply ends_seq; [by apply ends_quiet; [apply quiet_sql|]|intros ?].
  eapply ends_seq; [apply ends_history_rows|intros rows].
  eapply ends_seq.
  { apply ends_quiet; [apply steps_lift, _|]. intros d (receipts & Hs). right. by eexists _, _. }
  intros ?. eapply (ends_seq _ _ (λ _, in_order)); [apply ends_change|intros ?].
  { intros d (receipts & Hs). exists rows, receipts.
    apply (sound_renumbered d); cbn; try done; [apply sequence_below|apply sequences_nonneg]. }
  eapply ends_seq; [apply ends_quiet; [apply quiet_sql|apply in_order_valid]|intros ?].
  apply ends_change. intros d (rows' & receipts & Hs). exists rows', receipts.
  apply (sound_renumbered d); cbn; try done; try apply Hs. intros r Hr.
  pose proof (sound_sequence _ _ _ Hs) as Hq. rewrite Forall_forall in Hq. by apply Hq.
Qed.

Lemma ends_validate_schema : ends valid_database validate_schema (λ _, in_order) valid_database.
Proof.
  eapply ends_seq; [by apply ends_quiet; [apply quiet_sql|]|intros ?].
  eapply ends_seq; [apply ends_history_rows|intros rows].
  eapply ends_weaken; [apply (ends_quiet in_order)|..|by intros ???].
  - steps.
  - apply in_order_valid.
  - intros d (receipts & Hs). by eexists _, _.
Qed.

Lemma quiet_version : steps eq query_version.
Proof. unfold query_version. steps. by intros w d r w' d' [= _ _ ->]. Qed.

(** Opening a new file, or one that was written before, leaves tables in order. *)
Lemma ends_configure maximum_bytes :
  ends valid_database (configure maximum_bytes) (λ _, in_order) valid_database.
Proof.
  assert (∀ c (m : load unit), ends valid_database m (λ _, in_order) valid_database →
    ends valid_database (if c : bool then m else mret tt) (λ _, valid_database) valid_database) as Hif.
  { intros [] m Hm; [|apply ends_mret]. eapply ends_weaken; [exact Hm|done|].
    intros ? d. apply in_order_valid. }
  unfold configure.
  do 3 (eapply ends_seq; [by apply ends_quiet; [apply quiet_sql|]|intros ?]).
  eapply ends_seq; [by apply ends_quiet; [apply quiet_version|]|intros version].
  eapply ends_seq; [by apply ends_quiet; [apply steps_lift, _|]|intros ?].
  eapply ends_seq; [apply Hif, ends_migrate_v1|intros ?].
  eapply ends_seq; [by apply ends_quiet; [apply quiet_version|]|intros version'].
  eapply ends_seq; [apply Hif, ends_migrate_v2|intros ?].
  eapply ends_seq; [apply ends_validate_schema|intros ?].
  apply ends_quiet; [cbv zeta; steps|apply in_order_valid].
Qed.

Lemma ends_open path maximum_bytes retained_rows retention_days now :
  ends valid_database (open_history path maximum_bytes retained_rows retention_days now)
    (λ _, in_order) valid_database.
Proof.
  unfold open_history. eapply ends_seq; [apply ends_quiet; [|done]|intros ?].
  { unfold prepare_database_file. steps. intros w d r w' d'. unfold protect_or_create.
    destruct (store_metadata path w) as [[[m|]|] w1]; [destruct (_ && _)|..];
      first [apply quiet_on_file|by intros [= _ _ ->]]. }
  do 2 (eapply ends_seq; [by apply ends_quiet; [apply quiet_sql|]|intros ?]).
  eapply ends_seq; [apply ends_configure|intros ?].
  eapply ends_seq; [apply ends_quiet; [apply steps_lift, _|apply in_order_valid]|intros seconds].
  cbv zeta. eapply ends_seq; [|intros ?; apply ends_mret].
  intros w d r w' d' H (rows & receipts & Hs).
  destruct (steps_maintain _ _ _ _ _ _ _ H _ _ Hs) as [Hi _].
  destruct r; [done|by apply in_order_valid].
Qed.
End operations.

(** ** What the operations record *)

(** The entries a table stands for *)
Definition recorded (d : Database) (es : list StoredHistory) (receipts : list ReceiptRow) : Prop :=
  ∃ rows, Sound d rows receipts ∧ Forall2 (λ r e, from_row r = Some e) rows es.

(** What the retention of a store keeps at a moment: the newest of the entries that are
    not too old, and the same of the receipts *)
Definition retained_entries (store : HistoryStore) (now : Z) (es : list StoredHistory) :
    list StoredHistory :=
  let live := List.filter (λ e, negb (tr_recorded_unix (sh_record e) <? cutoff store now)) es in
  drop (length live - Z.to_nat (hs_retained_rows store)) live.
Definition retained_receipts (store : HistoryStore) (now : Z) (receipts : list ReceiptRow) :
    list ReceiptRow :=
  trim_receipts (hs_retained_rows store) (expire_receipts (cutoff store now) receipts).

Lemma from_row_recorded r e : from_row r = Some e →
  tr_recorded_unix (sh_record e) = hr_recorded_unix r ∧ sh_sequence e = hr_sequence r.
Proof.
  unfold from_row, read_u64. intros H.
  repeat match type of H with
  | (?m ≫= _) = Some _ => let He := fresh in destruct m eqn:He; cbn in H; [|done]
  end.
  injection H as <-. cbn. by repeat (case_match; simplify_eq).
Qed.

Lemma Forall2_filter_of {A B} (R : A → B → Prop) (p : A → bool) (q : B → bool) l k :
  Forall2 R l k → (∀ x y, R x y → p x = q y) → Forall2 R (List.filter p l) (List.filter q k).
Proof.
  intros Hl Hpq. induction Hl as [|x y l k Hxy Hl IH]; cbn; [constructor|].
  rewrite (Hpq _ _ Hxy). destruct (q y); [by constructor|done].
Qed.

Section alone.
  Context {W : Type} `{!HistoryWorld W, !Entropy W, !HistoryAlone W}.
Notation world := (W * Database)%type.
Notation load := (io world WebConfigError).

Lemma quiet_lock : steps eq lock.
Proof.
  intros w d r w' d'. unfold lock. destruct (lock_connection d w) as [[d1|] w1] eqn:Hl;
    intros [= _ _ <-]; [|done]. by apply lock_alone in Hl.
Qed.

Lemma quiet_bind_inv {A B} (m : load A) (f : A → load B) w d r w' d' :
  steps eq m → (m ≫= f) (w, d) = (r, (w', d')) →
  (∃ e, r = Err e ∧ d' = d) ∨ ∃ a w1, f a (w1, d) = (r, (w', d')).
Proof.
  intros Hq [(e & He & ->)|(a & [w1 d1] & Ha & Hr)]%io_bind_inv.
  - left. exists e. by rewrite (Hq _ _ _ _ _ He).
  - right. exists a, w1. by rewrite (Hq _ _ _ _ _ Ha).
Qed.

Lemma transaction_inv {A} (m : load A) w d r w' d' :
  transaction m (w, d) = (r, (w', d')) →
  (∃ e, r = Err e ∧ d' = d) ∨ ∃ a w1 w2, r = Ok a ∧ m (w1, d) = (Ok a, (w2, d')).
Proof.
  intros [?|(_ & w1 & H)]%quiet_bind_inv; [by left| |apply quiet_sql].
  unfold or_roll_back in H. match type of H with context [match ?b with _ => _ end] => set (body := b) in H end.
  destruct body as [[a|e] [w2 d2]] eqn:He; injection H as <- <- <-; [|by left; exists e].
  right. unfold body in He.
  apply io_bind_Ok in He as (a' & [w3 d3] & Ha & ([] & [w4 d4] & Hs & [= -> -> ->])%io_bind_Ok).
  apply quiet_sql in Hs as ->. by exists a, w1, w3.
Qed.

Lemma delete_history_Ok keep w d w' d' u :
  delete_history keep (w, d) = (Ok u, (w', d')) →
  ∃ rows, db_history d = Some rows ∧ d' = set_history (keep rows) d.
Proof.
  intros ([] & [w1 d1] & Hs & (rows & [w2 d2] & Hr & [= _ _ <-])%io_bind_Ok)%io_bind_Ok.
  apply quiet_sql in Hs as ->. unfold history_rows in Hr.
  destruct (db_history d1) as [rows'|] eqn:Hd; simplify_eq. by exists rows.
Qed.
Lemma delete_receipts_Ok keep w d w' d' u :
  delete_receipts keep (w, d) = (Ok u, (w', d')) →
  ∃ rows, db_receipts d = Some rows ∧ d' = set_receipts (keep rows) d.
Proof.
  intros ([] & [w1 d1] & Hs & (rows & [w2 d2] & Hr & [= _ _ <-])%io_bind_Ok)%io_bind_Ok.
  apply quiet_sql in Hs as ->. unfold receipt_rows in Hr.
  destruct (db_receipts d1) as [rows'|] eqn:Hd; simplify_eq. by exists rows.
Qed.

Definition maintained (store : HistoryStore) (now : Z) (rows : list HistoryRow)
    (receipts : list ReceiptRow) (d : Database) : Database :=
  set_receipts (retained_receipts store now receipts)
    (set_history (trim_history (hs_retained_rows store) (expire_history (cutoff store now) rows)) d).

(** Maintenance happens or does not; it has happened when the call succeeds. *)
Lemma maintain_inv store now rows receipts w d r w' d' :
  Sound d rows receipts → maintain store now (w, d) = (r, (w', d')) →
  (∃ e, r = Err e ∧ d' = d) ∨ d' = maintained store now rows receipts d.
Proof.
  intros Hs. unfold maintain.
  intros [?|(_ & w1 & H)]%quiet_bind_inv; [by left| |apply quiet_check_size].
  apply quiet_bind_inv in H as [?|(_ & w2 & H)]; [by left| |apply quiet_lock].
  apply io_bind_inv in H as [(e & He & ->)|([] & [w3 d3] & Ht & H)].
  { apply transaction_inv in He as [(e' & _ & ->)|(?&?&?&?&?)]; [left; by eexists|done]. }
  right. apply transaction_inv in Ht as [(e & ? & _)|([] & w4 & w5 & _ & Ht)]; [done|].
  assert (d3 = maintained store now rows receipts d) as <-.
  { apply io_bind_Ok in Ht as ([] & [w6 d6] & (rows1 & Hr1 & ->)%delete_history_Ok & Ht).
    apply io_bind_Ok in Ht as (n & [w7 d7] & [Hn [= <- <-]]%lift_Ok & Ht).
    apply io_bind_Ok in Ht as ([] & [w8 d8] & (rows2 & [= <-] & ->)%delete_history_Ok & Ht).
    apply io_bind_Ok in Ht as ([] & [w9 d9] & (rows3 & Hr3 & ->)%delete_receipts_Ok & Ht).
    apply io_bind_Ok in Ht as (n' & [w10 d10] & [Hn' [= <- <-]]%lift_Ok & Ht).
    apply delete_receipts_Ok in Ht as (rows4 & [= <-] & ->).
    unfold to_i64, checked_i64 in Hn, Hn'. repeat case_match; simplify_eq.
    cbn in Hr3. rewrite (sound_history _ _ _ Hs) in Hr1. rewrite (sound_receipts _ _ _ Hs) in Hr3.
    by simplify_eq. }
  match type of H with ?m _ = _ => assert (steps eq m) as Hq by steps end.
  by rewrite (Hq _ _ _ _ _ H).
Qed.

Lemma sound_maintained store now rows receipts d es :
  Sound d rows receipts → Forall2 (λ r e, from_row r = Some e) rows es →
  recorded (maintained store now rows receipts d) (retained_entries store now es)
    (retained_receipts store now receipts).
Proof.
  intros Hs Hes. unfold maintained, retained_receipts.
  destruct (trim_history_selects (hs_retained_rows store) (expire_history (cutoff store now) rows)) as [p Hp].
  assert (Sound (set_history (expire_history (cutoff store now) rows) d)
            (expire_history (cutoff store now) rows) receipts) as Hs1 by by apply sound_filter_history.
  pose proof (sound_filter_history _ _ _ p Hs1) as Hs2. rewrite <-Hp in Hs2.
  pose proof (sound_filter_receipts _ _ _
    (λ r, negb (rr_completed_unix r <? cutoff store now)) Hs2) as Hs3.
  fold (expire_receipts (cutoff store now) receipts) in Hs3.
  destruct (trim_receipts_selects (hs_retained_rows store)
    (expire_receipts (cutoff store now) receipts)) as [q Hq].
  pose proof (sound_filter_receipts _ _ _ q Hs3) as Hs4. rewrite <-Hq in Hs4.
  eexists. split; [exact Hs4|]. rewrite trim_history_last by apply Hs1. unfold retained_entries. cbv zeta.
  match goal with |- Forall2 _ (drop _ ?l) (drop _ ?k) => assert (Forall2 (λ r e, from_row r = Some e) l k) as Hl end.
  { apply Forall2_filter_of; [done|]. intros r e He. by destruct (from_row_recorded r e He) as [-> _]. }
  rewrite (Forall2_length _ _ _ Hl). by apply Forall2_drop.
Qed.
End alone.

Section facts.
  Context {W : Type} `{!HistoryWorld W, !Entropy W, !HistoryAlone W}.

Lemma insert_history_Ok row w d w' d' sequence :
  insert_history row (w, d) = (Ok sequence, (w', d')) →
  ∃ rows, db_history d = Some rows ∧ sequence = db_sequence d + 1
    ∧ history_check 13 (row sequence) = true
    ∧ d' = {| db_version := db_version d; db_history := Some (rows ++ [row sequence]);
              db_sequence := sequence; db_receipts := db_receipts d |}.
Proof.
  intros ([] & [w1 d1] & Hs & (rows & [w2 d2] & Hr & Ha)%io_bind_Ok)%io_bind_Ok.
  apply quiet_sql in Hs as ->. unfold history_rows in Hr. destruct (db_history d1) as [rows'|] eqn:Hd; simplify_eq.
  unfold add_history in Ha. destruct (_ || _) eqn:Hc; simplify_eq. bools. by exists rows.
Qed.

Lemma recorded_insert d es receipts rows record row m :
  recorded d es receipts → terminal_row m record = Ok row → fits_row record →
  db_history d = Some rows → history_check 13 (row (db_sequence d + 1)) = true →
  recorded {| db_version := db_version d; db_history := Some (rows ++ [row (db_sequence d + 1)]);
              db_sequence := db_sequence d + 1; db_receipts := db_receipts d |}
    (es ++ [{| sh_sequence := db_sequence d + 1; sh_record := record |}]) receipts.
Proof.
  intros (rows' & Hs & Hes) Hrow Hf Hh Hc. rewrite (sound_history _ _ _ Hs) in Hh. injection Hh as ->.
  assert (from_row (row (db_sequence d + 1)) =
    Some {| sh_sequence := db_sequence d + 1; sh_record := record |}) as Hnew.
  { eapply from_terminal_row; try done. pose proof (sound_counter _ _ _ Hs). lia. }
  destruct (sound_add_history d rows receipts row Hs) as [Hs' _]; [|by rewrite Hnew|].
  { intros. by eapply terminal_row_sequence. }
  eexists. split; [exact Hs'|]. apply Forall2_app; [done|]. by repeat constructor.
Qed.

Lemma recorded_below d es receipts :
  recorded d es receipts → Forall (λ e, sh_sequence e <= db_sequence d) es.
Proof.
  intros (rows & Hs & Hes). pose proof (sound_sequence _ _ _ Hs) as Hq. clear Hs.
  induction Hes as [|r e rows es He Hes IH]; [constructor|].
  apply Forall_cons in Hq as [Hr Hq]. constructor; [|by apply IH].
  destruct (from_row_recorded _ _ He) as [_ ->]. lia.
Qed.

Lemma last_drop {A} (l : list A) x k : (k <= length l)%nat → last (drop k (l ++ [x])) = Some x.
Proof. intros Hk. rewrite drop_app_le by done. by rewrite last_snoc. Qed.

Lemma cutoff_below store now : is_i64 now → 0 <= hs_retention_seconds store → cutoff store now <= now.
Proof. unfold is_i64, cutoff, sat_sub_i64. lia. Qed.

(** The newest entry is kept by the maintenance that follows it. *)
Lemma retained_last store es e :
  0 < hs_retained_rows store → 0 <= hs_retention_seconds store → is_i64 (tr_recorded_unix (sh_record e)) →
  last (retained_entries store (tr_recorded_unix (sh_record e)) (es ++ [e])) = Some e.
Proof.
  intros Hn Hr Hi. unfold retained_entries. cbv zeta. rewrite List.filter_app.
  pose proof (cutoff_below store _ Hi Hr). cbn [List.filter].
  rewrite (proj2 (Z.ltb_ge _ _)) by lia. cbn [negb]. rewrite length_app. cbn. apply last_drop. lia.
Qed.

Lemma store_terminal_inv store record w d es receipts r w' d' :
  recorded d es receipts → fits_row record → store_terminal store record (w, d) = (r, (w', d')) →
  let es' := es ++ [{| sh_sequence := db_sequence d + 1; sh_record := record |}] in
  let now := tr_recorded_unix record in
  match r with
  | Ok sequence => sequence = db_sequence d + 1
      ∧ recorded d' (retained_entries store now es') (retained_receipts store now receipts)
  | Err _ => recorded d' es receipts ∨ recorded d' es' receipts
      ∨ recorded d' (retained_entries store now es') (retained_receipts store now receipts)
  end.
Proof.
  intros Hd Hf H es' now. unfold store_terminal in H.
  apply quiet_bind_inv in H as [(e & -> & ->)|(_ & w1 & H)]; [by left| |apply steps_lift, _].
  apply quiet_bind_inv in H as [(e & -> & ->)|(_ & w2 & H)]; [by left| |apply quiet_check_size].
  apply quiet_bind_inv in H as [(e & -> & ->)|(_ & w3 & H)]; [by left| |apply quiet_lock].
  apply io_bind_inv in H as [(e & Ht & ->)|(sequence & [w4 d4] & Ht & H)];
    apply transaction_inv in Ht as [(e' & ? & ->)|(s & w5 & w6 & ? & Ht)]; simplify_eq; [by left|].
  apply io_bind_Ok in Ht as (row & [w7 d7] & [Hrow [= <- <-]]%lift_Ok & Ht).
  apply insert_history_Ok in Ht as (rows & Hh & -> & Hc & ->).
  pose proof (recorded_insert d es receipts rows record row _ Hd Hrow Hf Hh Hc) as Hd'. fold es' in Hd'.
  set (d4 := {| db_version := db_version d |}) in *.
  apply quiet_bind_inv in H as [(e & -> & ->)|(_ & w8 & H)]; [by right; left| |apply quiet_sql].
  destruct Hd' as (rows' & Hs & Hes).
  apply io_bind_inv in H as [(e & Hm & ->)|([] & [w9 d9] & Hm & [= <- _ <-])];
    destruct (maintain_inv _ _ _ _ _ _ _ _ _ Hs Hm) as [(e' & ? & ->)| ->]; try done.
  - right. left. by exists rows'.
  - right. right. by apply sound_maintained.
  - split; [done|]. by apply sound_maintained.
Qed.

Lemma latest_Ok store maximum w d es receipts l w' d' :
  recorded d es receipts → latest_history store maximum (w, d) = (Ok l, (w', d')) →
  l = take (Z.to_nat maximum) (reverse es).
Proof.
  intros (rows & Hs & Hes) H. unfold latest_history in H.
  apply quiet_bind_inv in H as [(e & ? & _)|(_ & w1 & H)]; [done| |apply steps_lift, _].
  apply quiet_bind_inv in H as [(e & ? & _)|(_ & w2 & H)]; [done| |apply quiet_lock].
  apply quiet_bind_inv in H as [(e & ? & _)|(_ & w3 & H)]; [done| |apply quiet_sql].
  apply io_bind_Ok in H as (limit & [w4 d4] & [Hl [= <- <-]]%lift_Ok & H).
  apply quiet_bind_inv in H as [(e & ? & _)|(_ & w5 & H)]; [done| |apply quiet_sql].
  apply io_bind_Ok in H as (rows' & [w6 d6] & Hr & H). unfold history_rows in Hr.
  rewrite (sound_history _ _ _ Hs) in Hr. injection Hr as <- <- <-.
  unfold to_i64, checked_i64 in Hl. destruct (maximum <=? I64_MAX); [|done]. injection Hl as <-.
  cbv beta in H. rewrite newest_history_take in H by apply Hs.
  assert (mapM from_row (take (Z.to_nat maximum) (reverse rows)) =
          Some (take (Z.to_nat maximum) (reverse es))) as Hm.
  { apply mapM_Some. by apply Forall2_take, Forall2_reverse. }
  rewrite Hm in H. by injection H as ->.
Qed.

(** ** Receipts *)

Lemma latest_receipt_total a b : latest_receipt_first a b = false → latest_receipt_first b a = true.
Proof. unfold latest_receipt_first. intros H. bools. lia. Qed.
Lemma latest_receipt_trans a b c :
  latest_receipt_first a b = true → latest_receipt_first b c = true → latest_receipt_first a c = true.
Proof. unfold latest_receipt_first. rewrite !orb_true_iff, !andb_true_iff, !Z.eqb_eq, !Z.ltb_lt, !Z.leb_le. lia. Qed.

(** A receipt is kept when few enough were completed at its time or later. *)
Lemma retained_receipt store now receipts r :
  NoDup (map rr_rowid (receipts ++ [r])) → cutoff store now <= rr_completed_unix r →
  zlen (List.filter (λ r', rr_completed_unix r <=? rr_completed_unix r') receipts) < hs_retained_rows store →
  r ∈ retained_receipts store now (receipts ++ [r]).
Proof.
  intros Hnd Hc Hn. unfold retained_receipts, trim_receipts.
  set (l := expire_receipts _ _).
  assert (r ∈ l) as Hr.
  { unfold l, expire_receipts. apply elem_of_List_filter. split; [set_solver|].
    by rewrite (proj2 (Z.ltb_ge _ _)). }
  assert (NoDup (map rr_rowid l)) as Hl by by apply NoDup_map_filter.
  apply elem_of_List_filter. split; [done|]. apply bool_decide_eq_true, Prelude.elem_of_map.
  exists r. split; [done|]. unfold newest_receipts.
  apply take_sorted_rank with (le := latest_receipt_first).
  - apply sort_by_sorted; [apply latest_receipt_total|apply latest_receipt_trans].
  - rewrite sort_by_perm. by apply NoDup_fmap_1 in Hl.
  - intros a b Ha Hb Hab Hba. rewrite elem_of_sort_by in Ha, Hb. eapply NoDup_map_inj; try done.
    unfold latest_receipt_first in *. rewrite orb_true_iff, andb_true_iff, Z.ltb_lt, Z.eqb_eq, Z.leb_le in *. lia.
  - by apply elem_of_sort_by.
  - rewrite (Permutation_length (filter_perm _ _ _ (sort_by_perm latest_receipt_first l))).
    apply Nat.le_lt_trans with (length (List.filter (λ r', rr_completed_unix r <=? rr_completed_unix r') receipts));
      [|unfold zlen in Hn; lia].
    unfold l, expire_receipts. rewrite !List.filter_app, length_app. cbn [List.filter].
    rewrite (proj2 (Z.ltb_ge _ _)) by done. cbn [negb List.filter].
    assert (strictly latest_receipt_first r r = false) as ->.
    { unfold strictly, latest_receipt_first. rewrite Z.eqb_refl, Z.leb_refl, orb_true_r. done. }
    cbn [length]. rewrite Nat.add_0_r.
    rewrite filter_filter. apply filter_length_le. intros x. rewrite andb_true_iff. intros [_ Hx].
    unfold strictly, latest_receipt_first in Hx. bools. apply Z.leb_le. lia.
Qed.
End facts.

Section receipts.
  Context {W : Type} `{!HistoryWorld W, !Entropy W, !HistoryAlone W}.

Lemma insert_receipt_Ok row w d inserted w' d' :
  insert_receipt row (w, d) = (Ok inserted, (w', d')) →
  if inserted : bool then ∃ receipts n, db_receipts d = Some receipts
    ∧ receipt_check (row n) = true
    ∧ rr_receipt_ref (row n) ∉ map rr_receipt_ref receipts ∧ n ∉ map rr_rowid receipts
    ∧ d' = set_receipts (receipts ++ [row n]) d
  else d' = d.
Proof.
  intros ([] & [w1 d1] & Hs & (rows & [w2 d2] & Hr & Ha)%io_bind_Ok)%io_bind_Ok.
  apply quiet_sql in Hs as ->. unfold receipt_rows in Hr. destruct (db_receipts d1) as [rows'|] eqn:Hd; simplify_eq.
  unfold add_receipt in Ha. cbv zeta in Ha. destruct (if _ <=? _ then _ else _) as [n w3].
  destruct (_ || _) eqn:Hc; [by simplify_eq|]. destruct (existsb (λ r', rr_rowid r' =? n) rows) eqn:Hid; simplify_eq.
  rewrite orb_false_iff, negb_false_iff, !existsb_false, Forall_forall in Hc. destruct Hc as [Hc Href].
  rewrite existsb_false, Forall_forall in Hid. exists rows, n. split_and!; try done.
  - intros (r' & Heq & Hr'%Href)%Prelude.elem_of_map. apply String.eqb_neq in Hr'. congruence.
  - intros (r' & Heq & Hr'%Hid)%Prelude.elem_of_map. apply Z.eqb_neq in Hr'. congruence.
Qed.

(** The row of a new receipt, and what the tables hold after it was recorded *)
Definition receipt_recorded (store : HistoryStore) (b : DryRunBinding) (t : TerminalRecord)
    (reference : ReceiptRef) (d : Database) (es : list StoredHistory) (receipts : list ReceiptRow)
    (d' : Database) : Prop :=
  ∃ r, receipt_of_row reference r = Some {| drr_reference := reference; drr_binding := b |}
    ∧ rr_receipt_ref r = reference ∧ rr_completed_unix r = drb_completed_unix b
    ∧ NoDup (map rr_rowid (receipts ++ [r]))
    ∧ recorded d'
        (retained_entries store (drb_completed_unix b)
          (es ++ [{| sh_sequence := db_sequence d + 1; sh_record := t |}]))
        (retained_receipts store (drb_completed_unix b) (receipts ++ [r])).

Lemma try_receipt_Ok store b t w d es receipts o w' d' :
  recorded d es receipts → fits_row t → try_receipt store b t (w, d) = (Ok o, (w', d')) →
  match o with
  | None => d' = d
  | Some reference => receipt_recorded store b t reference d es receipts d'
  end.
Proof.
  intros Hd Hf H. unfold try_receipt in H.
  apply quiet_bind_inv in H as [(e & ? & ?)|(reference & w1 & H)]; [done| |apply quiet_random].
  apply quiet_bind_inv in H as [(e & ? & ?)|(_ & w2 & H)]; [done| |apply quiet_lock].
  apply io_bind_Ok in H as (inserted & [w3 d3] & Ht & H).
  apply transaction_inv in Ht as [(e & ? & _)|(i & w4 & w5 & [= <-] & Ht)]; [done|].
  apply io_bind_Ok in Ht as (row & [w6 d6] & [Hrow [= <- <-]]%lift_Ok & Ht).
  apply io_bind_Ok in Ht as (i & [w7 d7] & Hi & Ht). apply insert_receipt_Ok in Hi.
  apply quiet_bind_inv in H as [(e & ? & ?)|(_ & w8 & H)]; [done| |apply quiet_sql].
  destruct i.
  2:{ injection Ht as <- _ <-. injection H as <- _ <-. by rewrite Hi. }
  destruct Hi as (receipts' & n & Hr & Hc & Href & Hn & ->).
  apply io_bind_Ok in Ht as (trow & [w9 d9] & [Htrow [= <- <-]]%lift_Ok & Ht).
  apply io_bind_Ok in Ht as (sequence & [w10 d10] & Hh & [= <- _ <-]).
  apply insert_history_Ok in Hh as (rows & Hrows & -> & Hcheck & ->).
  apply io_bind_Ok in H as ([] & [w11 d11] & Hm & [= <- _ <-]).
  destruct Hd as (rows' & Hs & Hes).
  assert (receipts' = receipts) as -> by (pose proof (sound_receipts _ _ _ Hs); congruence).
  destruct (receipt_row_back _ _ _ n Hrow Hc) as (Hid & Hreference & Hcompleted & Hback).
  rewrite <-Hid in Hn.
  pose proof (sound_add_receipt _ _ _ _ Hs Hc Href Hn) as Hs1.
  pose proof (recorded_insert _ es (receipts ++ [row n]) rows t trow _
    (ex_intro _ rows' (conj Hs1 Hes)) Htrow Hf Hrows Hcheck) as (rows2 & Hs2 & Hes2).
  destruct (maintain_inv _ _ _ _ _ _ _ _ _ Hs2 Hm) as [(e & ? & _)| ->]; [done|].
  exists (row n). split_and!; try done.
  - rewrite map_app. by apply NoDup_snoc; [apply Hs|].
  - by apply sound_maintained.
Qed.

Lemma store_dry_run_Ok store b t w d es receipts receipt w' d' :
  recorded d es receipts → fits_row t → store_dry_run store b t (w, d) = (Ok receipt, (w', d')) →
  drr_binding receipt = b
  ∧ receipt_recorded store b t (drr_reference receipt) d es receipts d'.
Proof.
  intros Hd Hf H. unfold store_dry_run in H.
  do 2 (apply quiet_bind_inv in H as [(e & ? & ?)|(_ & ? & H)]; [done| |apply steps_lift, _]).
  apply quiet_bind_inv in H as [(e & ? & ?)|(_ & w3 & H)]; [done| |apply quiet_check_size].
  revert w3 H. generalize RECEIPT_CREATE_ATTEMPTS. intros n. induction n as [|n IH]; cbn; intros w3 H; [done|].
  apply io_bind_Ok in H as (o & [w4 d4] & Ht & H). eapply try_receipt_Ok in Ht; [|done..].
  destruct o as [reference|]; [|subst; by eapply IH]. by injection H as <- _ <-.
Qed.

Lemma find_unique (l : list ReceiptRow) r :
  NoDup (map rr_receipt_ref l) → r ∈ l →
  List.find (λ r', String.eqb (rr_receipt_ref r') (rr_receipt_ref r)) l = Some r.
Proof.
  intros Hnd Hr. destruct (List.find _ l) as [r'|] eqn:Hf.
  - apply List.find_some in Hf as [Hin Heq]. apply String.eqb_eq in Heq. f_equal.
    eapply NoDup_map_inj; [exact Hnd|by apply list_elem_of_In|done|done].
  - eapply List.find_none in Hf; [|by apply list_elem_of_In]. by rewrite String.eqb_refl in Hf.
Qed.

Lemma find_receipt_Ok reference r receipt w d es receipts found w' d' :
  recorded d es receipts → r ∈ receipts → rr_receipt_ref r = reference →
  receipt_of_row reference r = Some receipt →
  find_receipt reference (w, d) = (Ok found, (w', d')) → found = Some receipt ∧ d' = d.
Proof.
  intros (rows & Hs & _) Hr Href Hback H. unfold find_receipt in H.
  apply quiet_bind_inv in H as [(e & ? & _)|(_ & w1 & H)]; [done| |apply quiet_lock].
  apply quiet_bind_inv in H as [(e & ? & _)|(_ & w2 & H)]; [done| |apply quiet_sql].
  apply io_bind_Ok in H as (receipts' & [w3 d3] & Hrows & H). unfold receipt_rows in Hrows.
  rewrite (sound_receipts _ _ _ Hs) in Hrows. injection Hrows as <- <- <-.
  apply quiet_bind_inv in H as [(e & ? & _)|(_ & w4 & H)]; [done| |apply quiet_sql].
  rewrite <-Href in H. rewrite (find_unique receipts r) in H by (try done; apply Hs).
  rewrite Href in H. cbv beta in H. rewrite Hback in H. by injection H as <- _ <-.
Qed.
End receipts.

Section claims.
  Context {W : Type} `{!HistoryWorld W, !Entropy W}.
Notation world := (W * Database)%type.

(** What a client of the store may do: open it on a file, and the operations of an open
    store on records whose schema version is a [u32] *)
Inductive store_call : world → world → Prop :=
  | call_terminal store record s r s' :
      fits_row record → store_terminal store record s = (r, s') → store_call s s'
  | call_dry_run store b t s r s' :
      fits_row t → store_dry_run store b t s = (r, s') → store_call s s'
  | call_latest store maximum s r s' : latest_history store maximum s = (r, s') → store_call s s'
  | call_count store s r s' : count_history store s = (r, s') → store_call s s'
  | call_find reference s r s' : find_receipt reference s = (r, s') → store_call s s'
  | call_maintain store now s r s' : maintain store now s = (r, s') → store_call s s'.

Lemma store_call_advances `{!HistoryLaws W} s s' : store_call s s' → advances s.2 s'.2.
Proof.
  intros H. destruct H as [store record [w d] r [w' d'] Hf H|store b t [w d] r [w' d'] Hf H
    |store n [w d] r [w' d'] H|store [w d] r [w' d'] H|reference [w d] r [w' d'] H
    |store now [w d] r [w' d'] H]; cbn.
  - by eapply steps_store_terminal.
  - by eapply steps_store_dry_run.
  - by eapply steps_latest.
  - by eapply steps_count.
  - by eapply steps_find.
  - by eapply steps_maintain.
Qed.

(** C11: opening a new file, or one an earlier run left, and then any sequence of calls by
    any number of threads keeps the tables in order: sequences increase, every row is
    decoded again, references and row numbers are unique; and the history is only
    appended to: no row is changed, brought back, or given the sequence of an earlier
    one, whatever fails in between. *)
Theorem history_append_only `{!HistoryLaws W} path maximum_bytes retained_rows retention_days now
    (w : W) d store s1 s2 s3 :
  valid_database d →
  open_history path maximum_bytes retained_rows retention_days now (w, d) = (Ok store, s1) →
  rtc store_call s1 s2 → rtc store_call s2 s3 →
  ∃ rows2 receipts2 rows3 receipts3,
    Sound s2.2 rows2 receipts2 ∧ Sound s3.2 rows3 receipts3
    ∧ db_sequence s2.2 <= db_sequence s3.2
    ∧ ∀ r, r ∈ rows3 → r ∈ rows2 ∨ db_sequence s2.2 < hr_sequence r.
Proof.
  intros Hv Ho H12 H23. destruct s1 as [w1 d1].
  pose proof (ends_open _ _ _ _ _ _ _ _ _ _ Ho Hv) as (rows1 & receipts1 & Hs1). cbn in Hs1.
  assert (∀ s s', rtc store_call s s' → advances s.2 s'.2) as Hrtc.
  { induction 1 as [s|s s' s'' Hc _ IH]; [done|]. etransitivity; [by apply store_call_advances|done]. }
  destruct (Hrtc _ _ H12 _ _ Hs1) as [(rows2 & receipts2 & Hs2) _].
  destruct (Hrtc _ _ H23 _ _ Hs2) as [(rows3 & receipts3 & Hs3) [Hle Ha]].
  exists rows2, receipts2, rows3, receipts3. split_and!; try done. intros r Hr.
  destruct (decide (hr_sequence r <= db_sequence s2.2)); [left|right; lia].
  by eapply (Ha _ _ (sound_history _ _ _ Hs2) (sound_history _ _ _ Hs3)).
Qed.

(** C12: what is recorded is read back.  A terminal record gets the next sequence, above all
    others, and afterwards the history is the former one with the record at its end, cut
    by the retention, which keeps the record; a page of the history is its newest entries,
    the newest first, exactly as they were recorded.  When the call fails, the record is
    there as a whole or not at all. *)
Theorem history_recorded `{!HistoryAlone W} store record (w : W) d es receipts r w' d' :
  recorded d es receipts → fits_row record →
  store_terminal store record (w, d) = (r, (w', d')) →
  let entry := {| sh_sequence := db_sequence d + 1; sh_record := record |} in
  let kept := retained_entries store (tr_recorded_unix record) (es ++ [entry]) in
  (∃ es' receipts', recorded d' es' receipts'
     ∧ (es' = kept ∨ ∃ e, r = Err e ∧ (es' = es ∨ es' = es ++ [entry]))
     ∧ ∀ maximum w1 l w2 d2, latest_history store maximum (w1, d') = (Ok l, (w2, d2)) →
         l = take (Z.to_nat maximum) (reverse es'))
  ∧ (∀ sequence, r = Ok sequence →
       sequence = sh_sequence entry ∧ Forall (λ e, sh_sequence e < sequence) es
       ∧ (0 < hs_retained_rows store → 0 <= hs_retention_seconds store →
          is_i64 (tr_recorded_unix record) → last kept = Some entry)).
Proof.
  intros Hd Hf H entry kept. pose proof (store_terminal_inv _ _ _ _ _ _ _ _ _ Hd Hf H) as Hinv.
  cbv zeta in Hinv. fold entry kept in Hinv. split.
  - assert (∃ es' receipts', recorded d' es' receipts'
      ∧ (es' = kept ∨ ∃ e, r = Err e ∧ (es' = es ∨ es' = es ++ [entry]))) as (es' & receipts' & Hr & Hes).
    { destruct r; [destruct Hinv|]; naive_solver. }
    exists es', receipts'. split_and!; try done. intros. by eapply latest_Ok.
  - intros sequence ->. destruct Hinv as [-> _]. split_and!; try done.
    + eapply Forall_impl; [by eapply recorded_below|]. cbn. intros. lia.
    + intros. by apply (retained_last store es entry).
Qed.

(** A receipt that was recorded for a dry run is found under its reference and says
    exactly what was recorded, digests and counters included, as long as fewer receipts
    than the store retains were completed at its time or later; the terminal entry of the
    run is written with it. *)
Theorem receipt_kept `{!HistoryAlone W} store b t (w : W) d es receipts receipt w1 d1 :
  recorded d es receipts → fits_row t →
  store_dry_run store b t (w, d) = (Ok receipt, (w1, d1)) →
  drr_binding receipt = b
  ∧ (∃ receipts', recorded d1
       (retained_entries store (drb_completed_unix b)
         (es ++ [{| sh_sequence := db_sequence d + 1; sh_record := t |}])) receipts')
  ∧ (zlen (List.filter (λ r, drb_completed_unix b <=? rr_completed_unix r) receipts)
       < hs_retained_rows store →
     0 <= hs_retention_seconds store → is_i64 (drb_completed_unix b) →
     ∀ w2 found w3 d3, find_receipt (drr_reference receipt) (w2, d1) = (Ok found, (w3, d3)) →
       found = Some receipt).
Proof.
  intros Hd Hf H. destruct (store_dry_run_Ok _ _ _ _ _ _ _ _ _ _ Hd Hf H) as
    [Hb (r & Hback & Href & Htime & Hnd & Hd1)].
  split_and!; [done|by eexists|]. intros Hn Hr Hi w2 found w3 d3 Hfind.
  assert (receipt = {| drr_reference := drr_reference receipt; drr_binding := b |}) as Hreceipt.
  { destruct receipt. cbn in *. by subst. }
  rewrite Hreceipt. eapply (find_receipt_Ok _ r); [exact Hd1| |done|done|exact Hfind].
  rewrite <-Htime in *. apply retained_receipt; [done| |done]. by apply cutoff_below.
Qed.
End claims.

(** ** Witness: a new database, one failed scan, one dry run *)
Section witnesses.

#[local] Instance steady_history : HistoryWorld unit := {|
  sql w := (true, w);
  pragma_journal_mode w := (Some "WAL", w);
  pragma_max_page_count n w := (Some n, w);
  pragma_quick_check w := (Some "ok", w);
  spare_rowid w := (1, w);
  lock_connection d w := (Some d, w);
  store_metadata _ w := (Some None, w);
  store_exists _ w := (true, w);
  protect_file _ w := (true, w);
  create_private_file _ w := (true, w) |}.
#[local] Instance steady_history_alone : HistoryAlone unit.
Proof. constructor. intros d w d' w' [= <- _]. done. Qed.
#[local] Instance steady_entropy : Entropy unit := {|
  getrandom n w := (Some "0123456789abcdef", w);
  url_safe_no_pad b := b |}.

Definition new_database : Database :=
  {| db_version := 0; db_history := None; db_sequence := 0; db_receipts := None |}.
Lemma new_database_valid : valid_database new_database.
Proof. by left. Qed.

Definition sample_store : HistoryStore := {|
  hs_path := "/state/console-history-v1.sqlite3"; hs_maximum_bytes := 1000000;
  hs_retained_rows := 2; hs_retention_seconds := 86400 |}.

Definition scan_record (now : Z) : TerminalRecord := {|
  tr_recorded_unix := now; tr_kind := HistoryKind.FolderScan; tr_status := TerminalStatus.Failed;
  tr_plan := None; tr_counters := no_counters |}.
Lemma scan_record_fits now : fits_row (scan_record now).
Proof. done. Qed.

Definition opened : result WebConfigError HistoryStore * (unit * Database) :=
  open_history "/state/console-history-v1.sqlite3" 1000000 2 1 100000 (tt, new_database).
Definition empty_database : Database :=
  {| db_version := 2; db_history := Some []; db_sequence := 0; db_receipts := Some [] |}.
Lemma opened_ok : opened = (Ok sample_store, (tt, empty_database)).
Proof. vm_compute. reflexivity. Qed.
Lemma empty_recorded : recorded empty_database [] [].
Proof. exists []. split; [|constructor]. constructor; cbn; try done; constructor. Qed.

Definition after_scans : unit * Database :=
  (store_terminal sample_store (scan_record 100001)
    (store_terminal sample_store (scan_record 100000) (tt, empty_database)).2).2.

Lemma history_append_only_witness :
  valid_database new_database
  ∧ open_history "/state/console-history-v1.sqlite3" 1000000 2 1 100000 (tt, new_database)
    = (Ok sample_store, (tt, empty_database))
  ∧ ∃ rows2 receipts2 rows3 receipts3,
    Sound empty_database rows2 receipts2 ∧ Sound after_scans.2 rows3 receipts3
    ∧ 0 <= db_sequence after_scans.2
    ∧ ∀ r, r ∈ rows3 → r ∈ rows2 ∨ 0 < hr_sequence r.
Proof.
  assert (open_history "/state/console-history-v1.sqlite3" 1000000 2 1 100000 (tt, new_database)
    = (Ok sample_store, (tt, empty_database))) as Ho by (vm_compute; reflexivity).
  split; [exact new_database_valid|]. split; [exact Ho|].
  apply (history_append_only _ _ _ _ _ _ _ _ _ (tt, empty_database) after_scans new_database_valid Ho);
    [reflexivity|].
  eapply rtc_l.
  - eapply (call_terminal sample_store (scan_record 100000)); [apply scan_record_fits|].
    apply surjective_pairing.
  - eapply rtc_once, (call_terminal sample_store (scan_record 100001)); [apply scan_record_fits|].
    apply surjective_pairing.
Defined.

Lemma history_recorded_witness :
  ∃ d', store_terminal sample_store (scan_record 100000) (tt, empty_database) = (Ok 1, (tt, d'))
  ∧ ∃ es' receipts', recorded d' es' receipts'
      ∧ (es' = [{| sh_sequence := 1; sh_record := scan_record 100000 |}] ∨ ∃ e, @Ok WebConfigError Z 1 = Err e
          ∧ (es' = [] ∨ es' = [{| sh_sequence := 1; sh_record := scan_record 100000 |}]))
      ∧ ∀ maximum w1 l w2 d2, latest_history sample_store maximum (w1, d') = (Ok l, (w2, d2)) →
          l = take (Z.to_nat maximum) (reverse es').
Proof.
  eexists. split; [vm_compute; reflexivity|].
  assert (∃ d', store_terminal sample_store (scan_record 100000) (tt, empty_database) = (Ok 1, (tt, d')))
    as [d' H] by (eexists; vm_compute; reflexivity).
  pose proof H as H'. vm_compute in H'. injection H' as H'. rewrite H'.
  exact (proj1 (history_recorded sample_store (scan_record 100000) tt empty_database [] []
    _ _ _ empty_recorded (scan_record_fits _) H)).
Defined.

Definition sample_sha256 : string := "00112233445566778899aabbccddeeff00112233445566778899aabbccddeeff".
Definition sample_binding : DryRunBinding := {|
  drb_plan_reference := "fedcba9876543210"; drb_plan_sha256 := sample_sha256;
  drb_source_configuration_sha256 := sample_sha256; drb_server_identity_sha256 := sample_sha256;
  drb_server_profile_sha256 := sample_sha256; drb_credential_generation := 1;
  drb_max_logical_effects := 3; drb_completed_unix := 100000 |}.
Definition dry_run_record : TerminalRecord := {|
  tr_recorded_unix := 100000; tr_kind := HistoryKind.FolderDryRun;
  tr_status := TerminalStatus.Completed; tr_plan := Some ("fedcba9876543210", 1);
  tr_counters := {| sc_assets := 3; sc_sidecars := 0; sc_bytes_read := 9; sc_warnings := 0;
                    sc_errors := 0; sc_max_logical_effects := 3 |} |}.
Definition sample_receipt : DryRunReceipt :=
  {| drr_reference := "0123456789abcdef"; drr_binding := sample_binding |}.

Lemma receipt_kept_witness :
  ∃ d1, store_dry_run sample_store sample_binding dry_run_record (tt, empty_database)
    = (Ok sample_receipt, (tt, d1))
  ∧ ∀ w2 found w3 d3, find_receipt "0123456789abcdef" (w2, d1) = (Ok found, (w3, d3)) →
      found = Some sample_receipt.
Proof.
  assert (∃ d1, store_dry_run sample_store sample_binding dry_run_record (tt, empty_database)
    = (Ok sample_receipt, (tt, d1))) as [d1 H] by (eexists; vm_compute; reflexivity).
  exists d1. split; [exact H|].
  assert (fits_row dry_run_record) as Hf.
  { intros reference schema [= <- <-]. vm_compute. congruence. }
  refine (proj2 (proj2 (receipt_kept sample_store sample_binding dry_run_record tt empty_database [] []
    _ _ _ empty_recorded Hf H)) _ _ _); vm_compute; first [reflexivity|congruence|split; congruence].
Defined.
End witnesses.
