(* ===== verification/StateStore.v ===== *)
(** * StateStore: the private state of the console
    ([crates/immich-web/src/state_store.rs], [state_store/plan_store.rs], [plan_io.rs])

    Plans lie in a directory, each with a binding to the profiles it was made for; both
    are written under a hidden name, synced, and linked to their own names, so that a name
    is never taken twice.  Checkpoints of applies have a directory of their own.  The
    store as a whole implements what the jobs ([Jobs.ConsoleHistory]) and the grants
    ([Grants.ConsoleStore]) ask for. *)
From Stdlib Require Import Ascii.
From stdpp Require Import strings gmap.
From S2P Require Export GrantsTheorems History.

(** ** What the store relies on *)

Record PlanMeta := {
  pm_is_dir : bool;
  pm_is_file : bool;
  pm_is_symlink : bool;
  pm_len : Z;
  pm_mode : Z;
  pm_modified : option Z;
}.

(** The file calls; a file that is open is a number.  [plan_metadata] and [plan_remove]
    tell a missing file from other errors. *)
Class PlanFs (W : Type) := {
  plan_metadata : string → W → option (option PlanMeta) * W;
  followed_metadata : string → W → option PlanMeta * W;
  plan_exists : string → W → bool * W;
  plan_identity : string → W → option string * W;
  plan_open : string → W → option Z * W;
  handle_metadata : Z → W → option PlanMeta * W;
  handle_identity : Z → W → option string * W;
  handle_read : Z → W → option string * W;
  handle_rewind : Z → W → bool * W;
  plan_create_new : string → W → option Z * W;
  handle_write : Z → string → W → option Z * W;
  handle_flush : Z → W → bool * W;
  handle_sync : Z → W → bool * W;
  plan_hard_link : string → string → W → bool * W;
  plan_remove : string → W → option bool * W;
  read_directory : string → W → option (list (option string)) * W;
  sync_directory_call : string → W → bool * W;
  plan_canonicalize : string → W → option string * W;
  create_private_dir : string → W → bool * W;
  create_checkpoint_file : string → W → bool * W;
  system_seconds : W → option Z * W;
}.

(** [serde_json]: the pieces a value is written in, and reading a whole file *)
Class PlanStateJson := {
  pretty_plan : UploadPlan → list string;
  pretty_binding : PlanBinding → list string;
  read_plan : string → option UploadPlan;
  read_binding : string → option PlanBinding;
}.

Definition BINDING_SCHEMA_VERSION : Z := 1.
Definition MAX_BINDING_BYTES : Z := 16 * 1024.
Definition CREATE_ATTEMPTS : nat := 8.

Record PlanStore := {
  ps_directory : string;
  ps_maximum_bytes : Z;
  ps_maximum_store_bytes : Z;
  ps_maximum_files : Z;
}.

Record FileStamp := { fst_identity : string; fst_length : Z }.
#[export] Instance FileStamp_eq_dec : EqDecision FileStamp.
Proof. solve_decision. Defined.

(** [path.with_extension(extension)], for a name with a dot after its first byte *)
Definition with_extension (path extension : string) : string :=
  match rsplit_once "." path with
  | Some (stem, _) => stem +:+ "." +:+ extension
  | None => path +:+ "." +:+ extension
  end.

Section plans.
  Context {W : Type} `{!PlanFs W, !Entropy W, !PlanStateJson, !TimeLib, !Codec}.
Notation load := (io W WebConfigError).

(** A call that may fail, and one that answers whether it succeeded *)
Definition or_fail {A} (f : W → option A * W) (m : string) : load A := λ w,
  match f w with (Some a, w) => (Ok a, w) | (None, w) => (Err (message m), w) end.
Definition must (f : W → bool * W) (m : string) : load unit := λ w,
  let '(ok, w) := f w in (if ok then Ok tt else Err (message m), w).
Definition ask (f : W → bool * W) : load bool := λ w, let '(b, w) := f w in (Ok b, w).

(** ** [plan_io.rs] *)

(** [fs::hard_link] and [fs::remove_file] of the hidden name *)
Definition publish_new (pending final_path : string) : load unit :=
  _ ← must (plan_hard_link pending final_path) "cannot publish";
  removed ← or_fail (plan_remove pending) "cannot publish";
  lift (if removed : bool then Ok tt else Err (message "cannot publish")).

(** [write_all] on the [BoundedWriter]: [skip] bytes of the front are written already. *)
Fixpoint write_all (handle : Z) (buffer : string) (skip : nat) (remaining : Z) : load Z := λ w,
  match buffer with
  | EmptyString => (Ok remaining, w)
  | String _ rest =>
    match skip with
    | S skip => write_all handle rest skip remaining w
    | O =>
      if remaining <? len buffer then (Err (message "plan bound"), w)
      else match handle_write handle buffer w with
           | (Some n, w) =>
             if n <=? 0 then (Err (message "plan bound"), w)
             else write_all handle rest (Z.to_nat n - 1) (sat_sub remaining n) w
           | (None, w) => (Err (message "plan bound"), w)
           end
    end
  end.

Fixpoint write_pieces (handle : Z) (pieces : list string) (remaining : Z) : load Z :=
  match pieces with
  | [] => mret remaining
  | piece :: pieces => remaining ← write_all handle piece 0 remaining; write_pieces handle pieces remaining
  end.

Definition with_message {A} (m : load A) (text : string) : load A := λ w,
  let '(r, w) := m w in (map_err (λ _, message text) r, w).

Definition new_line : string := String "010" "".

Definition write_json (path : string) (pieces : list string) (maximum : Z) : load unit :=
  handle ← or_fail (plan_create_new path) "cannot create plan state";
  remaining ← with_message (write_pieces handle pieces maximum) "cannot serialize plan state";
  _ ← with_message (write_all handle new_line 0 remaining) "plan state size limit exceeded";
  _ ← must (handle_flush handle) "cannot flush plan state";
  must (handle_sync handle) "cannot sync plan state".

Definition stamp (metadata : PlanMeta) (identity : string) (maximum : Z) : result WebConfigError FileStamp :=
  if negb (pm_is_file metadata) || (pm_len metadata =? 0) || (maximum <? pm_len metadata)
     || negb (private_mode (pm_mode metadata))
  then Err (message "plan state file is invalid")
  else Ok {| fst_identity := identity; fst_length := pm_len metadata |}.

Definition file_stamp (path : string) (maximum : Z) : load FileStamp :=
  found ← or_fail (plan_metadata path) "cannot inspect plan state";
  metadata ← lift (ok_or found (message "cannot inspect plan state"));
  _ ← lift (fail_if (pm_is_symlink metadata) (message "plan state must not be a symlink"));
  identity ← or_fail (plan_identity path) "plan state identity is unavailable";
  lift (stamp metadata identity maximum).

(** [load_json_file]; [read] is [serde_json::from_reader]. *)
Definition load_json_file {A} (read : string → option A) (path : string) (maximum : Z) :
    load (A * Z * FileStamp) :=
  before ← file_stamp path maximum;
  handle ← or_fail (plan_open path) "cannot open plan state";
  metadata ← or_fail (handle_metadata handle) "cannot inspect plan state";
  identity ← or_fail (handle_identity handle) "plan state identity is unavailable";
  opened ← lift (stamp metadata identity maximum);
  _ ← lift (fail_if (negb (bool_decide (before = opened))) (message "plan state identity changed"));
  text ← or_fail (handle_read handle) "stored plan state is invalid";
  value ← lift (ok_or (read text) (message "stored plan state is invalid"));
  after ← file_stamp path maximum;
  _ ← lift (fail_if (negb (bool_decide (after = opened))) (message "plan state identity changed"));
  mret (value, handle, opened).

(** ** [plan_store.rs] *)

Definition validate_binding_inputs (source_id source_sha256 server_id server_sha256 : string)
    (credential_generation : Z) : result WebConfigError unit :=
  _ ← validate_id source_id;
  _ ← validate_id server_id;
  fail_if ((credential_generation =? 0) || negb (hex_any_case 64 source_sha256)
           || negb (hex_any_case 64 server_sha256)) (message "plan profile binding is invalid").

(** [logical_effects] *)
Definition logical_effects (plan : UploadPlan) : Z :=
  if ups_max_mutations (up_summary plan) =? 0 then ups_operations (up_summary plan)
  else ups_max_mutations (up_summary plan).

Definition validate_loaded (plan : UploadPlan) (binding : PlanBinding) : result WebConfigError unit :=
  _ ← map_err (λ _, message "stored upload plan is invalid") (Upload.validate plan);
  _ ← validate_binding_inputs (pb_source_profile_id binding) (pb_source_profile_sha256 binding)
        (pb_server_profile_id binding) (pb_server_profile_sha256 binding)
        (pb_credential_generation binding);
  digest ← map_err (λ _, message "stored upload plan digest failed") (upload_plan_sha256 plan);
  fail_if (negb (pb_schema_version binding =? BINDING_SCHEMA_VERSION)
           || negb (String.eqb digest (pb_plan_sha256 binding))
           || negb (hex_any_case 64 (pb_server_identity_sha256 binding))
           || negb (String.eqb (identity_sha256 (up_server plan)) (pb_server_identity_sha256 binding))
           || negb (logical_effects plan =? pb_max_logical_effects binding))
    (message "stored upload plan binding changed").

Definition plan_path (store : PlanStore) (reference : ArtifactRef) : string :=
  path_join (ps_directory store) (url_safe_no_pad reference +:+ ".json").
Definition binding_path (store : PlanStore) (reference : ArtifactRef) : string :=
  path_join (ps_directory store) (url_safe_no_pad reference +:+ ".binding.json").

Definition random_artifact (m : string) : load ArtifactRef := or_fail (getrandom 16) m.

Definition pending_path (directory : string) (reference : ArtifactRef) : load string :=
  nonce ← random_artifact "plan reference generation failed";
  mret (path_join directory ("." +:+ url_safe_no_pad reference +:+ "-" +:+ url_safe_no_pad nonce
                             +:+ ".pending")).

(** The loop of [check_store_bound] *)
Fixpoint check_entries (store : PlanStore) (entries : list (option string)) (files bytes : Z) : load unit :=
  match entries with
  | [] => mret tt
  | entry :: entries =>
    path ← lift (ok_or entry (message "cannot inspect plan directory"));
    found ← or_fail (plan_metadata path) "cannot inspect plan directory";
    metadata ← lift (ok_or found (message "cannot inspect plan directory"));
    _ ← lift (fail_if (negb (pm_is_file metadata) || pm_is_symlink metadata)
                (message "plan directory entry is invalid"));
    let files := sat_add files 1 in
    let bytes := sat_add bytes (pm_len metadata) in
    _ ← lift (fail_if ((ps_maximum_files store <? files) || (ps_maximum_store_bytes store <? bytes))
                (message "plan storage bound exceeded"));
    check_entries store entries files bytes
  end.
Definition check_store_bound (store : PlanStore) : load unit :=
  entries ← or_fail (read_directory (ps_directory store)) "cannot inspect plan directory";
  check_entries store entries 0 0.

Definition sync_directory (store : PlanStore) : load unit :=
  must (sync_directory_call (ps_directory store)) "cannot sync plan directory".

(** [let _cleanup = fs::remove_file(path)] *)
Definition clean_up (path : string) (w : W) : W := (plan_remove path w).2.

(** Publishing the plan; its binding is taken back when that fails. *)
Definition publish_plan (pending plan_file binding_file : string) : load unit := λ w,
  match publish_new pending plan_file w with
  | (Ok _, w) => (Ok tt, w)
  | (Err _, w) => (Err (message "cannot publish upload plan"), clean_up binding_file w)
  end.

(** The closure of [write_new], and what happens when it fails *)
Definition write_files (store : PlanStore) (reference : ArtifactRef) (plan : UploadPlan)
    (binding : PlanBinding) (pending pending_binding : string) : load unit :=
  _ ← write_json pending_binding (pretty_binding binding) MAX_BINDING_BYTES;
  _ ← write_json pending (pretty_plan plan) (ps_maximum_bytes store);
  _ ← check_store_bound store;
  _ ← with_message (publish_new pending_binding (binding_path store reference))
        "cannot publish plan binding";
  _ ← publish_plan pending (plan_path store reference) (binding_path store reference);
  sync_directory store.
Definition or_clean_up (m : load unit) (pending pending_binding : string) : load bool := λ w,
  match m w with
  | (Ok _, w) => (Ok true, w)
  | (Err e, w) => (Err e, clean_up pending_binding (clean_up pending w))
  end.

Definition write_new (store : PlanStore) (reference : ArtifactRef) (plan : UploadPlan)
    (binding : PlanBinding) : load bool :=
  taken ← ask (plan_exists (plan_path store reference));
  taken ← (if taken : bool then mret true else ask (plan_exists (binding_path store reference)));
  if taken : bool then mret false
  else
    pending ← pending_path (ps_directory store) reference;
    let pending_binding := with_extension pending "binding.pending" in
    or_clean_up (write_files store reference plan binding pending pending_binding) pending pending_binding.

Fixpoint write_attempts (attempts : nat) (store : PlanStore) (plan : UploadPlan) (binding : PlanBinding) :
    load PlanArtifact :=
  match attempts with
  | O => lift (Err (message "plan reference capacity exhausted"))
  | S attempts =>
    reference ← random_artifact "plan reference generation failed";
    written ← write_new store reference plan binding;
    if written : bool then mret {|
      pa_reference := reference; pa_schema_version := up_schema_version plan;
      pa_plan_sha256 := pb_plan_sha256 binding;
      pa_max_logical_effects := pb_max_logical_effects binding |}
    else write_attempts attempts store plan binding
  end.

Definition binding_of (plan : UploadPlan) (plan_sha256 source_id source_sha256 server_id server_sha256 : string)
    (credential_generation : Z) : PlanBinding := {|
  pb_schema_version := BINDING_SCHEMA_VERSION; pb_plan_sha256 := plan_sha256;
  pb_source_profile_id := source_id; pb_source_profile_sha256 := source_sha256;
  pb_server_profile_id := server_id; pb_server_profile_sha256 := server_sha256;
  pb_credential_generation := credential_generation;
  pb_server_identity_sha256 := identity_sha256 (up_server plan);
  pb_max_logical_effects := logical_effects plan |}.

(** [PlanStore::write] *)
Definition write_plan (store : PlanStore) (plan : UploadPlan)
    (source_id source_sha256 server_id server_sha256 : string) (credential_generation : Z) :
    load PlanArtifact :=
  _ ← lift (map_err (λ _, message "upload plan is invalid") (Upload.validate plan));
  _ ← lift (validate_binding_inputs source_id source_sha256 server_id server_sha256
              credential_generation);
  plan_sha256 ← lift (map_err (λ _, message "upload plan digest failed") (upload_plan_sha256 plan));
  write_attempts CREATE_ATTEMPTS store plan
    (binding_of plan plan_sha256 source_id source_sha256 server_id server_sha256 credential_generation).

(** Both files of a plan, as [load] and [open_export] read them *)
Definition read_stored (store : PlanStore) (reference : ArtifactRef) :
    load (UploadPlan * PlanBinding * Z * FileStamp) :=
  found ← load_json_file read_binding (binding_path store reference) MAX_BINDING_BYTES;
  let '(binding, _, binding_stamp) := found in
  found ← load_json_file read_plan (plan_path store reference) (ps_maximum_bytes store);
  let '(plan, handle, plan_stamp) := found in
  again ← file_stamp (binding_path store reference) MAX_BINDING_BYTES;
  _ ← lift (fail_if (negb (bool_decide (again = binding_stamp)))
              (message "plan binding identity changed"));
  _ ← lift (validate_loaded plan binding);
  mret (plan, binding, handle, plan_stamp).

(** [PlanStore::load] *)
Definition load_stored (store : PlanStore) (reference : ArtifactRef) : load StoredUploadPlan :=
  stored ← read_stored store reference;
  let '(plan, binding, _, _) := stored in
  mret {| sup_reference := reference; sup_plan := plan; sup_binding := binding |}.

(** [PlanStore::open_export]: the open file and its length *)
Definition open_export (store : PlanStore) (reference : ArtifactRef) : load (Z * Z) :=
  stored ← read_stored store reference;
  let '(_, _, handle, plan_stamp) := stored in
  _ ← must (handle_rewind handle) "cannot rewind upload plan";
  mret (handle, fst_length plan_stamp).

(** [PlanStore::remove] *)
Definition remove_stored (store : PlanStore) (reference : ArtifactRef) : load unit :=
  _ ← or_fail (plan_remove (plan_path store reference)) "cannot remove unpublished plan";
  _ ← or_fail (plan_remove (binding_path store reference)) "cannot remove unpublished plan";
  sync_directory store.

Definition is_below (store : PlanStore) (state_root : string) : bool :=
  path_starts_with (ps_directory store) state_root.
End plans.

(** ** [state_store.rs] *)

Definition HISTORY_FILE : string := "console-history-v1.sqlite3".
Definition PLANS_DIRECTORY : string := "plans".
Definition CHECKPOINTS_DIRECTORY : string := "checkpoints".

Record ConsoleState := {
  cs_history : HistoryStore;
  cs_plans : PlanStore;
  cs_checkpoints : string;
  cs_state_generation_sha256 : string;
}.

Section store.
  Context {W : Type} `{!PlanFs W, !HistoryWorld W, !Entropy W, !PlanStateJson, !TimeLib, !Codec}.
Notation world := (W * Database)%type.
Notation load := (io W WebConfigError).

(** A call that does not touch the database *)
Definition on_files {E A} (m : io W E A) : io world E A := λ '(w, d),
  let '(r, w) := m w in (r, (w, d)).

(** [is_private] *)
Definition is_private (path : string) : load bool :=
  metadata ← or_fail (followed_metadata path) "cannot inspect console state permissions";
  mret (private_mode (pm_mode metadata)).

(** What [fs::symlink_metadata] says of a path: nothing is there, something private is
    there, or neither *)
Inductive Place := Place_Missing | Place_File (metadata : PlanMeta) | Place_Other.

(** The match of [apply_checkpoint_candidate] and of the functions beside it; the mode is
    asked for a file only. *)
Definition private_place (path : string) : load Place := λ w,
  match plan_metadata path w with
  | (Some None, w) => (Ok Place_Missing, w)
  | (Some (Some m), w) =>
    if pm_is_file m && negb (pm_is_symlink m)
    then (is_private_file ← is_private path;
          mret (if is_private_file : bool then Place_File m else Place_Other)) w
    else (Ok Place_Other, w)
  | (None, w) => (Ok Place_Other, w)
  end.

(** The first half of [private_directory]: the directory is there or is created *)
Definition create_if_missing (path : string) : load unit := λ w,
  match plan_metadata path w with
  | (Some (Some m), w) =>
    (if pm_is_dir m && negb (pm_is_symlink m) then Ok tt
     else Err (message "console state directory is invalid"), w)
  | (Some None, w) => must (create_private_dir path) "cannot create console state directory" w
  | (None, w) => (Err (message "cannot inspect console state directory"), w)
  end.

(** [private_directory] *)
Definition state_directory (root name : string) : load string :=
  let path := path_join root name in
  _ ← create_if_missing path;
  canonical ← or_fail (plan_canonicalize path) "cannot resolve console state directory";
  root ← or_fail (plan_canonicalize root) "cannot resolve console state root";
  private ← if path_starts_with canonical root then is_private canonical else mret false;
  _ ← lift (fail_if (negb private) (message "console state directory is not private"));
  mret canonical.

(** [now_unix] *)
Definition unix_now : load Z :=
  seconds ← or_fail system_seconds "system clock is invalid";
  lift (checked_i64 "system clock is out of range" seconds).

(** [ConsoleStore::open] *)
Definition open_console (state : ResolvedStateProfile) (limits : WebLimits) :
    io world WebConfigError ConsoleState :=
  plans ← on_files (state_directory (rst_root state) PLANS_DIRECTORY);
  checkpoints ← on_files (state_directory (rst_root state) CHECKPOINTS_DIRECTORY);
  now ← on_files unix_now;
  history ← open_history (path_join (rst_root state) HISTORY_FILE) (history_store_bytes limits)
              (history_retained_rows limits) (history_retention_days limits) now;
  let plans := {|
    ps_directory := plans; ps_maximum_bytes := plan_file_bytes limits;
    ps_maximum_store_bytes := plan_store_bytes limits;
    ps_maximum_files := sat_add (sat_mul (history_retained_rows limits) 2) 16 |} in
  _ ← on_files (check_store_bound plans);
  mret {| cs_history := history; cs_plans := plans; cs_checkpoints := checkpoints;
          cs_state_generation_sha256 := rst_generation_sha256 state |}.

(** [ConsoleStore::matches_state] *)
Definition same_state (store : ConsoleState) (state : ResolvedStateProfile) : bool :=
  String.eqb (rst_generation_sha256 state) (cs_state_generation_sha256 store)
  && is_below (cs_plans store) (rst_root state).

(** [ConsoleStore::unused_checkpoint] *)
Definition unused_checkpoint (store : ConsoleState) : load string :=
  reference ← random_artifact "plan reference generation failed";
  let path := path_join (cs_checkpoints store)
                ("dry-run-" +:+ url_safe_no_pad reference +:+ ".sqlite3") in
  found ← or_fail (plan_metadata path) "dry-run checkpoint path is unavailable";
  _ ← lift (fail_if (is_some found) (message "dry-run checkpoint path is unavailable"));
  mret path.

(** [path.parent() == Some(directory)] *)
Definition lies_in (path directory : string) : bool :=
  match normal_components path with
  | [] => false
  | _ :: _ => bool_decide (removelast (normal_components path) = normal_components directory)
  end.

(** [ConsoleStore::verify_checkpoint_unused] *)
Definition remove_if_there (path : string) : load unit := λ w,
  match plan_metadata path w with
  | (Some None, w) => (Ok tt, w)
  | (Some (Some m), w) =>
    if pm_is_file m && negb (pm_is_symlink m)
    then match plan_remove path w with
         | (Some true, w) => (Err (message "dry-run created an unexpected checkpoint"), w)
         | (_, w) => (Err (message "cannot remove dry-run checkpoint"), w)
         end
    else (Err (message "dry-run checkpoint path is invalid"), w)
  | (None, w) => (Err (message "dry-run checkpoint path is invalid"), w)
  end.
Definition verify_checkpoint_unused (store : ConsoleState) (path : string) : load unit :=
  _ ← lift (fail_if (negb (lies_in path (cs_checkpoints store)))
              (message "dry-run checkpoint path is invalid"));
  remove_if_there path.

Definition checkpoint_path (store : ConsoleState) (reference : ArtifactRef) : string :=
  path_join (cs_checkpoints store) ("apply-" +:+ url_safe_no_pad reference +:+ ".sqlite3").

(** [ConsoleStore::apply_checkpoint_candidate] *)
Definition apply_checkpoint_candidate (store : ConsoleState) (reference : ArtifactRef) : load string :=
  let path := checkpoint_path store reference in
  place ← private_place path;
  match place with
  | Place_Missing | Place_File _ => mret path
  | Place_Other => lift (Err (message "apply checkpoint is invalid"))
  end.

(** [ConsoleStore::apply_checkpoint] *)
Definition apply_checkpoint (store : ConsoleState) (reference : ArtifactRef) : load string :=
  path ← apply_checkpoint_candidate store reference;
  place ← private_place path;
  match place with
  | Place_File _ => mret path
  | Place_Missing => _ ← must (create_checkpoint_file path) "cannot create apply checkpoint"; mret path
  | Place_Other => lift (Err (message "apply checkpoint is invalid"))
  end.

(** [ConsoleStore::receipt_is_newer_than_checkpoint] *)
Definition newer_than_checkpoint (store : ConsoleState) (reference : ArtifactRef) (completed_unix : Z) :
    load bool :=
  place ← private_place (checkpoint_path store reference);
  match place with
  | Place_Missing => mret true
  | Place_Other => lift (Err (message "apply checkpoint is invalid"))
  | Place_File metadata =>
    modified ← lift (ok_or (pm_modified metadata) (message "apply checkpoint time is invalid"));
    completed ← lift (if 0 <=? completed_unix then Ok completed_unix
                      else Err (message "dry-run receipt time is invalid"));
    mret (modified <? completed)
  end.

(** ** What the other parts are promised *)

Definition forget {S A} (m : io S WebConfigError A) : S → result unit A * S := λ s,
  let '(r, s) := m s in (map_err (λ _, tt) r, s).

(** The store is what the jobs record in, *)
Definition console_history (store : ConsoleState) : ConsoleHistory world := {|
  now_unix := forget (on_files unix_now);
  record_terminal record := forget (store_terminal (cs_history store) record);
  record_dry_run binding record := forget (store_dry_run (cs_history store) binding record);
  remove_plan reference := forget (on_files (remove_stored (cs_plans store) reference)) |}.

(** and what the grants compare with. *)
Definition console_store (store : ConsoleState) : ConsoleStore world := {|
  clock_unix := forget (on_files unix_now);
  dry_run_receipt reference := forget (find_receipt reference);
  load_plan reference := forget (on_files (load_stored (cs_plans store) reference));
  receipt_is_newer_than_checkpoint reference completed :=
    forget (on_files (newer_than_checkpoint store reference completed));
  matches_state state s := (same_state store state, s) |}.
End store.

(** ** The directory of the plans *)

(** A name leads to an inode, an inode has a content, an open file is an inode. *)
Class PlanDisk (W : Type) := {
  links : W → gmap string string;
  inodes : W → gmap string string;
  handles : W → gmap Z string;
}.

Definition undisturbed {W} `{!PlanDisk W} (w w' : W) : Prop :=
  links w' = links w ∧ inodes w' = inodes w ∧ handles w' = handles w.

(** The documented behaviour of the calls; they may fail at any time, and nobody else
    writes into the directory. *)
Class PlanDiskLaws (W : Type) `{!PlanFs W, !Entropy W, !PlanDisk W} : Prop := {
  plan_metadata_law p w r w' : plan_metadata p w = (r, w') → undisturbed w w' ∧
    (r = Some None → links w !! p = None);
  plan_exists_law p w r w' : plan_exists p w = (r, w') → undisturbed w w' ∧
    (r = false → links w !! p = None);
  plan_identity_law p w r w' : plan_identity p w = (r, w') → undisturbed w w';
  plan_open_law p w r w' : plan_open p w = (r, w') →
    match r with
    | Some h => links w' = links w ∧ inodes w' = inodes w
        ∧ ∃ i, links w !! p = Some i ∧ handles w' = <[h := i]> (handles w)
    | None => undisturbed w w'
    end;
  handle_metadata_law h w r w' : handle_metadata h w = (r, w') → undisturbed w w';
  handle_identity_law h w r w' : handle_identity h w = (r, w') → undisturbed w w';
  handle_read_law h w r w' : handle_read h w = (r, w') → undisturbed w w' ∧
    ∀ text i, r = Some text → handles w !! h = Some i → inodes w !! i = Some text;
  plan_create_law p w r w' : plan_create_new p w = (r, w') →
    match r with
    | Some h => ∃ i, links w !! p = None ∧ inodes w !! i = None
        ∧ links w' = <[p := i]> (links w) ∧ inodes w' = <[i := ""]> (inodes w)
        ∧ handles w' = <[h := i]> (handles w)
    | None => undisturbed w w'
    end;
  handle_write_law h s w r w' i c : handle_write h s w = (r, w') →
    handles w !! h = Some i → inodes w !! i = Some c →
    links w' = links w ∧ handles w' = handles w ∧
    match r with
    | Some n => 0 <= n <= len s ∧ inodes w' = <[i := c +:+ String.substring 0 (Z.to_nat n) s]> (inodes w)
    | None => ∃ c', inodes w' = <[i := c']> (inodes w)
    end;
  handle_flush_law h w r w' : handle_flush h w = (r, w') → undisturbed w w';
  handle_sync_law h w r w' : handle_sync h w = (r, w') → undisturbed w w';
  plan_hard_link_law p q w r w' : plan_hard_link p q w = (r, w') →
    inodes w' = inodes w ∧ handles w' = handles w ∧
    if r then links w !! q = None ∧ ∃ i, links w !! p = Some i ∧ links w' = <[q := i]> (links w)
    else links w' = links w;
  plan_remove_law p w r w' : plan_remove p w = (r, w') →
    inodes w' = inodes w ∧ handles w' = handles w ∧
    links w' = match r with Some true => delete p (links w) | _ => links w end;
  read_directory_law p w r w' : read_directory p w = (r, w') → undisturbed w w';
  sync_directory_law p w r w' : sync_directory_call p w = (r, w') → undisturbed w w';
  getrandom_law n w r w' : getrandom n w = (r, w') → undisturbed w w';
}.

(** What is written of a plan and its binding is read back. *)
Definition reads_back `{!PlanStateJson} (plan : UploadPlan) (binding : PlanBinding) : Prop :=
  read_plan (String.concat "" (pretty_plan plan) +:+ new_line) = Some plan
  ∧ read_binding (String.concat "" (pretty_binding binding) +:+ new_line) = Some binding.

(** ** What the calls leave in the directory *)

Fixpoint str_drop (n : nat) (s : string) : string :=
  match n, s with
  | S n, String _ s => str_drop n s
  | _, _ => s
  end.

Lemma substring_drop n s :
  (n <= String.length s)%nat → String.substring 0 n s +:+ str_drop n s = s.
Proof.
  revert s. induction n as [|n IH]; intros [|a s]; cbn; try done; intros Hn.
  change (String a (String.substring 0 n s) +:+ str_drop n s) with (String a (String.substring 0 n s +:+ str_drop n s)).
  f_equal. apply IH. lia.
Qed.

Lemma concat_cons x l : String.concat "" (x :: l) = x +:+ String.concat "" l.
Proof. destruct l; cbn; [by rewrite str_app_nil_r|done]. Qed.

Section disk.
  Context {W : Type} `{!PlanFs W, !Entropy W, !PlanStateJson, !TimeLib, !Codec, !PlanDisk W, !PlanDiskLaws W}.
Notation load := (io W WebConfigError).

#[export] Instance undisturbed_refl : Reflexive (undisturbed (W := W)).
Proof. done. Qed.
#[export] Instance undisturbed_trans : Transitive (undisturbed (W := W)).
Proof. intros w1 w2 w3 (?&?&?) (?&?&?). split_and!; congruence. Qed.

(** The names lead where they led, to the same contents. *)
Definition same_files (w w' : W) : Prop := links w' = links w ∧ inodes w' = inodes w.
#[export] Instance same_files_refl : Reflexive same_files.
Proof. done. Qed.
#[export] Instance same_files_trans : Transitive same_files.
Proof. intros w1 w2 w3 [??] [??]. split; congruence. Qed.
Lemma undisturbed_files w w' : undisturbed w w' → same_files w w'.
Proof. by intros (?&?&?). Qed.

(** ** Writing a file *)

Lemma write_all_files handle buffer skip remaining w r w' i c :
  handles w !! handle = Some i → inodes w !! i = Some c →
  write_all handle buffer skip remaining w = (r, w') →
  links w' = links w ∧ handles w' = handles w ∧
  ∃ c', inodes w' = <[i := c']> (inodes w) ∧ ∀ n, r = Ok n → c' = c +:+ str_drop skip buffer.
Proof.
  intros Hh. revert skip remaining w c Hh.
  induction buffer as [|a rest IH]; intros skip remaining w c Hh Hi; cbn [write_all].
  - intros [= <- <-]. split; [done|]. split; [done|]. exists c. rewrite insert_id by done. split; [done|].
    intros. destruct skip; cbn; by rewrite str_app_nil_r.
  - destruct skip as [|skip]; [|by apply IH].
    destruct (remaining <? len (String a rest)).
    { intros [= <- <-]. split_and!; try done. exists c. by rewrite insert_id. }
    destruct (handle_write handle (String a rest) w) as [[n|] w1] eqn:Hw.
    2:{ intros [= <- <-]. destruct (handle_write_law _ _ _ _ _ _ _ Hw Hh Hi) as (?&?&c'&?).
        split_and!; try done. by exists c'. }
    destruct (handle_write_law _ _ _ _ _ _ _ Hw Hh Hi) as (Hl & Hd & Hn & Hin).
    destruct (Z.leb_spec n 0).
    { intros [= <- <-]. split_and!; try done. by eexists. }
    intros Hrest. destruct (IH (Z.to_nat n - 1)%nat (sat_sub remaining n) w1
      (c +:+ String.substring 0 (Z.to_nat n) (String a rest))) as (Hl1 & Hd1 & c' & Hin1 & Hc').
    + by rewrite Hd.
    + by rewrite Hin, lookup_insert_eq.
    + exact Hrest.
    + split_and!; [congruence..|]. exists c'. split; [by rewrite Hin1, Hin, insert_insert_eq|].
      intros m Hm. rewrite (Hc' m Hm), str_app_assoc. f_equal.
      rewrite <-(substring_drop (Z.to_nat n) (String a rest)) at 2 by (unfold len in Hn; lia).
      f_equal. destruct (Z.to_nat n) as [|k] eqn:Hk; [lia|]. cbn. by rewrite Nat.sub_0_r.
Qed.

Lemma write_pieces_files handle pieces remaining w r w' i c :
  handles w !! handle = Some i → inodes w !! i = Some c →
  write_pieces handle pieces remaining w = (r, w') →
  links w' = links w ∧ handles w' = handles w ∧
  ∃ c', inodes w' = <[i := c']> (inodes w) ∧ ∀ n, r = Ok n → c' = c +:+ String.concat "" pieces.
Proof.
  revert remaining w c. induction pieces as [|piece pieces IH]; intros remaining w c Hh Hi; cbn [write_pieces].
  - intros [= <- <-]. split_and!; try done. exists c. rewrite insert_id by done. split; [done|].
    intros. cbn. by rewrite str_app_nil_r.
  - intros [(e & He & ->)|(m & w1 & Hm & Hrest)]%io_bind_inv.
    + destruct (write_all_files _ _ _ _ _ _ _ _ _ Hh Hi He) as (?&?&c'&?&_). split_and!; try done. by exists c'.
    + destruct (write_all_files _ _ _ _ _ _ _ _ _ Hh Hi Hm) as (Hl & Hd & c1 & Hi1 & Hc1).
      specialize (Hc1 _ eq_refl). cbn in Hc1.
      destruct (IH m w1 c1) as (Hl2 & Hd2 & c2 & Hi2 & Hc2); [by rewrite Hd|by rewrite Hi1, lookup_insert_eq|done|].
      split_and!; [congruence..|]. exists c2. split; [by rewrite Hi2, Hi1, insert_insert_eq|].
      intros n Hn. rewrite (Hc2 n Hn), Hc1, concat_cons, str_app_assoc. done.
Qed.

Lemma with_message_inv {A} (m : load A) text w r w' :
  with_message m text w = (r, w') → ∃ r0, m w = (r0, w') ∧ ∀ a, r = Ok a → r0 = Ok a.
Proof.
  unfold with_message. destruct (m w) as [r0 w0]. intros [= <- <-]. exists r0. split; [done|].
  intros a Ha. by apply map_err_Ok in Ha.
Qed.

Lemma must_inv (f : W → bool * W) m w r w' :
  must f m w = (r, w') → ∃ b, f w = (b, w') ∧ (∀ u, r = Ok u → b = true).
Proof. unfold must. destruct (f w) as [[] w0]; intros [= <- <-]; eexists; by split. Qed.
Lemma or_fail_inv {A} (f : W → option A * W) m w r w' :
  or_fail f m w = (r, w') → ∃ o, f w = (o, w') ∧ (∀ a, r = Ok a ↔ o = Some a).
Proof. unfold or_fail. destruct (f w) as [[a|] w0]; intros [= <- <-]; eexists; (split; [done|]); naive_solver. Qed.

(** A file under a name that was free; its content is [text] when the call succeeds. *)
Definition created (p : string) (w w' : W) (text : option string) : Prop :=
  ∃ i c, links w !! p = None ∧ inodes w !! i = None ∧ links w' = <[p := i]> (links w)
    ∧ inodes w' = <[i := c]> (inodes w) ∧ ∀ t, text = Some t → c = t.

Lemma write_json_files p pieces maximum w r w' :
  write_json p pieces maximum w = (r, w') →
  (same_files w w' ∧ ∃ e, r = Err e)
  ∨ created p w w' (match r with Ok _ => Some (String.concat "" pieces +:+ new_line) | Err _ => None end).
Proof.
  intros Hw. unfold write_json in Hw.
  apply io_bind_inv in Hw as [(e & (o & Ho & He)%or_fail_inv & ->)|(handle & w1 & (o & Ho & He)%or_fail_inv & Hw)].
  { left. pose proof (plan_create_law _ _ _ _ Ho) as Hc. destruct o as [h|].
    - by destruct (He h) as [_ He']; discriminate (He' eq_refl).
    - split; [by apply undisturbed_files|by eexists]. }
  right. pose proof (proj1 (He handle) eq_refl) as ->. destruct (plan_create_law _ _ _ _ Ho) as (i & Hp & Hfresh & Hl & Hi & Hd).
  assert (handles w1 !! handle = Some i) as Hh by by rewrite Hd, lookup_insert_eq.
  assert (inodes w1 !! i = Some "") as Hin by by rewrite Hi, lookup_insert_eq.
  assert (∀ c w2, links w2 = links w1 → inodes w2 = <[i := c]> (inodes w1) → ∀ t,
    (∀ t', t = Some t' → c = t') → created p w w2 t) as Hdone.
  { intros c w2 Hl2 Hi2 t Ht. exists i, c. split_and!; try done; [congruence|].
    by rewrite Hi2, Hi, insert_insert_eq. }
  apply io_bind_inv in Hw as [(e & (r0 & Hp0 & _)%with_message_inv & ->)|(m & w2 & (r0 & Hp0 & Hr)%with_message_inv & Hw)].
  { destruct (write_pieces_files _ _ _ _ _ _ _ _ Hh Hin Hp0) as (?&?&c&?&_). by eapply Hdone. }
  destruct (write_pieces_files _ _ _ _ _ _ _ _ Hh Hin Hp0) as (Hl2 & Hd2 & c2 & Hi2 & Hc2).
  specialize (Hc2 _ (Hr _ eq_refl)). cbn in Hc2.
  assert (handles w2 !! handle = Some i) as Hh2 by by rewrite Hd2.
  assert (inodes w2 !! i = Some c2) as Hin2 by by rewrite Hi2, lookup_insert_eq.
  apply io_bind_inv in Hw as [(e & (r1 & Hp1 & _)%with_message_inv & ->)|(m' & w3 & (r1 & Hp1 & Hr1)%with_message_inv & Hw)].
  { destruct (write_all_files _ _ _ _ _ _ _ _ _ Hh2 Hin2 Hp1) as (?&?&c&Hc&_). eapply (Hdone c); [congruence| |done].
    by rewrite Hc, Hi2, insert_insert_eq. }
  destruct (write_all_files _ _ _ _ _ _ _ _ _ Hh2 Hin2 Hp1) as (Hl3 & Hd3 & c3 & Hi3 & Hc3).
  specialize (Hc3 _ (Hr1 _ eq_refl)). cbn in Hc3.
  assert (same_files w3 w') as [Hl4 Hi4].
  { apply io_bind_inv in Hw as [(e & (b & Hb & _)%must_inv & ->)|(u & w4 & (b & Hb & _)%must_inv & Hw)].
    - by apply undisturbed_files, (handle_flush_law _ _ _ _ Hb).
    - apply must_inv in Hw as (b' & Hb' & _). transitivity w4; apply undisturbed_files;
        [by eapply handle_flush_law|by eapply handle_sync_law]. }
  eapply (Hdone c3); [congruence|by rewrite Hi4, Hi3, Hi2, insert_insert_eq|].
  intros t Ht. destruct r; simplify_eq. done.
Qed.
End disk.

(** ** Publishing *)

(** Every name but some still leads to the same content. *)
Definition kept_names {W} `{!PlanDisk W} (hidden : string → Prop) (w w' : W) : Prop :=
  ∀ p i c, ¬ hidden p → links w !! p = Some i → inodes w !! i = Some c →
    links w' !! p = Some i ∧ inodes w' !! i = Some c.

(** The names that start with a dot *)
Definition hidden_name (store : PlanStore) (p : string) : Prop :=
  ∃ s, p = path_join (ps_directory store) ("." +:+ s).

Section publishing.
  Context {W : Type} `{!PlanFs W, !Entropy W, !PlanStateJson, !TimeLib, !Codec, !PlanDisk W, !PlanDiskLaws W}.
Notation load := (io W WebConfigError).

Lemma kept_trans hidden (w1 w2 w3 : W) :
  kept_names hidden w1 w2 → kept_names hidden w2 w3 → kept_names hidden w1 w3.
Proof. intros H12 H23 p i c Hp Hl Hi. destruct (H12 p i c Hp Hl Hi). by apply H23. Qed.
Lemma kept_same hidden (w w' : W) : same_files w w' → kept_names hidden w w'.
Proof. intros [Hl Hi] p i c _ ??. by rewrite Hl, Hi. Qed.
Lemma kept_created hidden p (w w' : W) text : created p w w' text → kept_names hidden w w'.
Proof.
  intros (i & c & Hp & Hi & Hl & Hn & _) q j d _ Hq Hj. rewrite Hl, Hn.
  rewrite !lookup_insert_ne by congruence. done.
Qed.
Lemma kept_weaken (hidden hidden' : string → Prop) (w w' : W) :
  kept_names hidden w w' → (∀ p, hidden p → hidden' p) → kept_names hidden' w w'.
Proof. intros Hk Hh p i c Hp. apply Hk. auto. Qed.
Lemma kept_clean_up (hidden : string → Prop) p (w : W) : hidden p → kept_names hidden w (clean_up p w).
Proof.
  intros Hh q i c Hq Hl Hi. unfold clean_up. destruct (plan_remove p w) as [r w'] eqn:Hr.
  destruct (plan_remove_law _ _ _ _ Hr) as (Hn & _ & Hd). cbn. rewrite Hn. split; [|done].
  rewrite Hd. destruct r as [[]|]; [|done..]. by rewrite lookup_delete_ne by congruence.
Qed.

Lemma publish_new_inv a b w r w' : publish_new a b w = (r, w') →
  inodes w' = inodes w ∧
  match r with
  | Ok _ => ∃ i, links w !! b = None ∧ links w !! a = Some i ∧ links w' = delete a (<[b := i]> (links w))
  | Err _ => links w' = links w
      ∨ ∃ i, links w !! b = None ∧ links w !! a = Some i ∧ links w' = <[b := i]> (links w)
  end.
Proof.
  intros Hw. unfold publish_new in Hw.
  apply io_bind_inv in Hw as [(e & (ok & Hk & _)%must_inv & ->)|(u & w1 & (ok & Hk & Hok)%must_inv & Hw)].
  { destruct (plan_hard_link_law _ _ _ _ _ Hk) as (Hi & _ & Hl). split; [done|].
    destruct ok; [|by left]. destruct Hl as (Hb & i & Ha & Hl). right. by exists i. }
  rewrite (Hok u eq_refl) in Hk. destruct (plan_hard_link_law _ _ _ _ _ Hk) as (Hi & _ & Hb & i & Ha & Hl).
  apply io_bind_inv in Hw as [(e & (o & Ho & He)%or_fail_inv & ->)|(o & w2 & (o' & Ho & He)%or_fail_inv & Hw)].
  - destruct (plan_remove_law _ _ _ _ Ho) as (Hi2 & _ & Hl2). split; [congruence|].
    right. exists i. split_and!; try done. rewrite Hl2, Hl. destruct o as [[]|]; try done.
    by destruct (He true) as [_ Ht]; discriminate (Ht eq_refl).
  - pose proof (proj1 (He o) eq_refl) as ->. destruct (plan_remove_law _ _ _ _ Ho) as (Hi2 & _ & Hl2).
    destruct o; injection Hw as <- <-; (split; [congruence|]).
    + exists i. split_and!; try done. congruence.
    + right. exists i. split_and!; try done. congruence.
Qed.

Lemma kept_publish (hidden : string → Prop) a b w r w' :
  publish_new a b w = (r, w') → hidden a → kept_names hidden w w'.
Proof.
  intros (Hi & Hr)%publish_new_inv Ha p i c Hp Hl Hc. rewrite Hi. split; [|done].
  destruct r as [u|e].
  - destruct Hr as (j & Hb & Haj & Hl'). rewrite Hl', lookup_delete_ne, lookup_insert_ne by congruence. done.
  - destruct Hr as [Hl'|(j & Hb & Haj & Hl')]; rewrite Hl'; [done|]. by rewrite lookup_insert_ne by congruence.
Qed.

Lemma check_entries_same store entries files bytes w r w' :
  check_entries store entries files bytes w = (r, w') → same_files w w'.
Proof.
  revert files bytes w. induction entries as [|entry entries IH]; intros files bytes w; cbn [check_entries].
  { by intros [= _ <-]. }
  intros [(e & He & ->)|(path & w1 & [_ <-]%lift_Ok & Hw)]%io_bind_inv; [by apply lift_Err in He as [_ ->]|].
  apply io_bind_inv in Hw as [(e & (o & Ho & _)%or_fail_inv & ->)|(found & w2 & (o & Ho & _)%or_fail_inv & Hw)].
  { by apply undisturbed_files, (plan_metadata_law _ _ _ _ Ho). }
  transitivity w2; [by apply undisturbed_files, (plan_metadata_law _ _ _ _ Ho)|].
  apply io_bind_inv in Hw as [(e & He & ->)|(m & w3 & [_ <-]%lift_Ok & Hw)]; [by apply lift_Err in He as [_ ->]|].
  apply io_bind_inv in Hw as [(e & He & ->)|(u & w3 & [_ <-]%lift_Ok & Hw)]; [by apply lift_Err in He as [_ ->]|].
  cbv zeta in Hw.
  apply io_bind_inv in Hw as [(e & He & ->)|(u' & w3 & [_ <-]%lift_Ok & Hw)]; [by apply lift_Err in He as [_ ->]|].
  by eapply IH.
Qed.
Lemma check_store_bound_same store w r w' : check_store_bound store w = (r, w') → same_files w w'.
Proof.
  intros [(e & (o & Ho & _)%or_fail_inv & ->)|(l & w1 & (o & Ho & _)%or_fail_inv & Hw)]%io_bind_inv.
  - by apply undisturbed_files, (read_directory_law _ _ _ _ Ho).
  - transitivity w1; [by apply undisturbed_files, (read_directory_law _ _ _ _ Ho)|].
    by eapply check_entries_same.
Qed.

(** Both files of a plan are there, as they were written. *)
Definition published (store : PlanStore) (reference : ArtifactRef) (plan : UploadPlan)
    (binding : PlanBinding) (w : W) : Prop :=
  ∃ i j, links w !! plan_path store reference = Some i
    ∧ inodes w !! i = Some (String.concat "" (pretty_plan plan) +:+ new_line)
    ∧ links w !! binding_path store reference = Some j
    ∧ inodes w !! j = Some (String.concat "" (pretty_binding binding) +:+ new_line).

Lemma write_files_kept store reference plan binding pending pb w r w' :
  write_files store reference plan binding pending pb w = (r, w') →
  kept_names (λ p, p = pending ∨ p = pb ∨ p = binding_path store reference) w w'
  ∧ (∀ u, r = Ok u → published store reference plan binding w').
Proof.
  set (hidden := λ p, _). intros Hw. unfold write_files in Hw.
  apply io_bind_inv in Hw as [(e & He & ->)|(u1 & w1 & Hs1%write_json_files & Hw)].
  { split; [|done]. apply write_json_files in He as [[Hs _]|Hc]; [by apply kept_same|by eapply kept_created]. }
  destruct Hs1 as [[_ [e He]]|Hc1]; [done|]. pose proof (kept_created hidden _ _ _ _ Hc1) as Hk1.
  apply io_bind_inv in Hw as [(e & He & ->)|(u2 & w2 & Hs2%write_json_files & Hw)].
  { split; [|done]. eapply kept_trans; [exact Hk1|].
    apply write_json_files in He as [[Hs _]|Hc]; [by apply kept_same|by eapply kept_created]. }
  destruct Hs2 as [[_ [e He]]|Hc2]; [done|]. pose proof (kept_trans _ _ _ _ Hk1 (kept_created hidden _ _ _ _ Hc2)) as Hk2.
  apply io_bind_inv in Hw as [(e & He & ->)|(u3 & w3 & Hs3%check_store_bound_same & Hw)].
  { split; [|done]. eapply kept_trans; [exact Hk2|]. by eapply kept_same, check_store_bound_same. }
  pose proof (kept_trans _ _ _ _ Hk2 (kept_same hidden _ _ Hs3)) as Hk3.
  apply io_bind_inv in Hw as [(e & (r4 & Hs4 & _)%with_message_inv & ->)|(u4 & w4 & (r4 & Hs4 & Hr4)%with_message_inv & Hw)].
  { split; [|done]. eapply kept_trans; [exact Hk3|]. eapply kept_publish; [exact Hs4|]. by right; left. }
  rewrite (Hr4 _ eq_refl) in Hs4.
  assert (kept_names hidden w w4) as Hk4.
  { eapply kept_trans; [exact Hk3|]. eapply kept_publish; [exact Hs4|]. by right; left. }
  apply publish_new_inv in Hs4 as (Hi4 & j & Hb4 & Hpb & Hl4).
  destruct Hc1 as (j' & c1 & Hpb0 & Hj0 & Hl1 & Hi1 & Ht1). specialize (Ht1 _ eq_refl).
  destruct Hc2 as (i & c2 & Hp0 & Hi0 & Hl2 & Hi2 & Ht2). specialize (Ht2 _ eq_refl). subst c1 c2.
  destruct Hs3 as [Hl3 Hi3].
  assert (pending ≠ pb) as Hne by (rewrite Hl1 in Hp0; intros ->; by rewrite lookup_insert_eq in Hp0).
  assert (i ≠ j') as Hij by (rewrite Hi1 in Hi0; intros ->; by rewrite lookup_insert_eq in Hi0).
  assert (j = j') as ->.
  { rewrite Hl3, Hl2, lookup_insert_ne, Hl1, lookup_insert_eq in Hpb by done. congruence. }
  assert (binding_path store reference ≠ pb) as Hbpb.
  { intros Heq. rewrite Heq in Hb4. congruence. }
  assert (links w3 !! pending = Some i) as Hpend by (by rewrite Hl3, Hl2, lookup_insert_eq).
  assert (binding_path store reference ≠ pending) as Hbp by (intros Heq; rewrite Heq in Hb4; congruence).
  assert (links w4 !! binding_path store reference = Some j') as Hb.
  { by rewrite Hl4, lookup_delete_ne, lookup_insert_eq by done. }
  assert (links w4 !! pending = Some i) as Hp4.
  { by rewrite Hl4, lookup_delete_ne, lookup_insert_ne by done. }
  assert (kept_names hidden w4 w' ∧ ∀ u, r = Ok u → inodes w' = inodes w4 ∧
    links w' !! plan_path store reference = Some i ∧ links w' !! binding_path store reference = Some j') as [Hk Hok].
  { apply io_bind_inv in Hw as [(e & He & ->)|(u5 & w5 & Hs5 & Hw)].
    - split; [|done]. unfold publish_plan in He.
      destruct (publish_new pending (plan_path store reference) w4) as [[u|e'] w5] eqn:Hs5; [done|].
      injection He as _ <-. eapply kept_trans; [eapply kept_publish; [exact Hs5|by left]|].
      apply kept_clean_up. by right; right.
    - unfold publish_plan in Hs5.
      destruct (publish_new pending (plan_path store reference) w4) as [[u|e'] w5'] eqn:Hs5'; [|done].
      injection Hs5 as _ ->. unfold sync_directory in Hw. apply must_inv in Hw as (b & Hs & _).
      apply sync_directory_law, undisturbed_files in Hs. split.
      + eapply kept_trans; [eapply kept_publish; [exact Hs5'|by left]|by apply kept_same].
      + intros _ _. apply publish_new_inv in Hs5' as (Hi5 & k & Hfree & Hk & Hl5). destruct Hs as [Hls His].
        rewrite Hp4 in Hk. injection Hk as <-. rewrite His, Hls, Hl5.
        assert (plan_path store reference ≠ pending) by congruence.
        assert (plan_path store reference ≠ binding_path store reference) by congruence.
        rewrite !lookup_delete_ne, lookup_insert_eq, lookup_insert_ne by done. done. }
  split; [by eapply kept_trans|]. intros u Hu. destruct (Hok u Hu) as (Hin & Hlp & Hlb).
  exists i, j'. split_and!; try done; rewrite Hin, Hi4, Hi3, Hi2.
  - by rewrite lookup_insert_eq.
  - by rewrite lookup_insert_ne, Hi1, lookup_insert_eq by done.
Qed.
End publishing.

(** ** Writing and loading a plan *)
Section round_trip.
  Context {W : Type} `{!PlanFs W, !Entropy W, !PlanStateJson, !TimeLib, !Codec, !PlanDisk W, !PlanDiskLaws W}.
Notation load := (io W WebConfigError).

Lemma path_join_app dir a b : path_join dir (a +:+ b) = path_join dir a +:+ b.
Proof. unfold path_join. destruct (ends_with "/" dir); by rewrite !str_app_assoc. Qed.

Lemma path_join_inj dir a b : path_join dir a = path_join dir b → a = b.
Proof.
  assert (∀ p x y : string, p +:+ x = p +:+ y → x = y) as Hinj.
  { induction p as [|c p IH]; intros x y Heq; [done|]. injection Heq. apply IH. }
  unfold path_join. destruct (ends_with "/" dir); intros Heq.
  - by eapply Hinj.
  - apply Hinj in Heq. by injection Heq.
Qed.

Lemma pending_path_hidden store reference w p w' :
  pending_path (ps_directory store) reference w = (Ok p, w') →
  undisturbed w w' ∧ hidden_name store p ∧ hidden_name store (with_extension p "binding.pending").
Proof.
  intros (nonce & w1 & (o & Ho & _)%or_fail_inv & [= <- <-])%io_bind_Ok.
  split; [by eapply getrandom_law|]. split; [by eexists|].
  set (stem := url_safe_no_pad reference +:+ "-" +:+ url_safe_no_pad nonce).
  assert (path_join (ps_directory store) ("." +:+ url_safe_no_pad reference +:+ "-" +:+ url_safe_no_pad nonce
            +:+ ".pending") = path_join (ps_directory store) ("." +:+ stem) +:+ String "." "pending") as ->.
  { rewrite <-path_join_app. f_equal. unfold stem. by rewrite !str_app_assoc. }
  unfold with_extension. rewrite rsplit_once_last by done.
  exists (stem +:+ ".binding.pending"). by rewrite <-!path_join_app, !str_app_assoc.
Qed.

Lemma ask_inv (f : W → bool * W) w r w' : ask f w = (r, w') → ∃ b, r = Ok b ∧ f w = (b, w').
Proof. unfold ask. destruct (f w) as [b w1]. intros [= <- <-]. by exists b. Qed.

Lemma write_new_kept store reference plan binding w r w' :
  write_new store reference plan binding w = (r, w') →
  kept_names (hidden_name store) w w' ∧ (r = Ok true → published store reference plan binding w').
Proof.
  intros Hw. unfold write_new in Hw.
  apply io_bind_inv in Hw as [(e & (b & ? & _)%ask_inv & ->)|(t1 & w1 & (b & [= ->] & He1)%ask_inv & Hw)]; [done|].
  destruct (plan_exists_law _ _ _ _ He1) as [Hu1 _].
  apply io_bind_inv in Hw as [(e & Ht & ->)|(taken & w2 & Ht & Hw)].
  { destruct b; [done|]. by apply ask_inv in Ht as (? & ? & _). }
  assert (undisturbed w w2 ∧ (taken = false → links w2 !! binding_path store reference = None)) as [Hu2 Hfree].
  { destruct b; [by injection Ht as <- <-|]. apply ask_inv in Ht as (b & [= ->] & He2).
    destruct (plan_exists_law _ _ _ _ He2) as [Hu2 Hn]. split; [by transitivity w1|].
    intros Hb. destruct Hu2 as (-> & _). by apply Hn. }
  destruct taken.
  { injection Hw as <- <-. split; [by apply kept_same, undisturbed_files|done]. }
  specialize (Hfree eq_refl).
  apply io_bind_inv in Hw as [(e & He & ->)|(pending & w3 & Hp & Hw)].
  { split; [|done]. apply kept_same, undisturbed_files. transitivity w2; [done|].
    apply io_bind_inv in He as [(e' & (o & Ho & _)%or_fail_inv & _)|(n & w4 & _ & ?)]; [|done].
    by eapply getrandom_law. }
  apply pending_path_hidden in Hp as (Hu3 & Hh1 & Hh2). cbv zeta in Hw.
  set (pb := with_extension pending "binding.pending") in *.
  assert (undisturbed w w3) as Hu by by transitivity w2.
  assert (links w3 !! binding_path store reference = None) as Hb3 by (destruct Hu3 as (-> & _); done).
  unfold or_clean_up in Hw.
  destruct (write_files store reference plan binding pending pb w3) as [[u|e] w4] eqn:Hf;
    destruct (write_files_kept _ _ _ _ _ _ _ _ _ Hf) as [Hk Hp];
    injection Hw as <- <-.
  - split; [|intros _; by eapply Hp]. apply (kept_trans _ w w3); [by apply kept_same, undisturbed_files|].
    intros p i c Hn Hl Hc. apply Hk; try done. intros [->|[->| ->]]; [done..|]. congruence.
  - split; [|done]. apply (kept_trans _ w w3); [by apply kept_same, undisturbed_files|].
    intros p i c Hn Hl Hc.
    assert (links w4 !! p = Some i ∧ inodes w4 !! i = Some c) as [Hl4 Hc4].
    { apply Hk; try done. intros [->|[->| ->]]; [done..|]. congruence. }
    by eapply (kept_trans (hidden_name store) w4 (clean_up pending w4)); [apply kept_clean_up|apply kept_clean_up|..].
Qed.

Lemma write_attempts_kept attempts store plan binding w r w' :
  write_attempts attempts store plan binding w = (r, w') →
  kept_names (hidden_name store) w w' ∧ ∀ artifact, r = Ok artifact →
    pa_plan_sha256 artifact = pb_plan_sha256 binding
    ∧ published store (pa_reference artifact) plan binding w'.
Proof.
  revert w. induction attempts as [|attempts IH]; intros w; cbn [write_attempts].
  { by intros [= <- <-]. }
  intros [(e & (o & Ho & _)%or_fail_inv & ->)|(reference & w1 & (o & Ho & _)%or_fail_inv & Hw)]%io_bind_inv.
  { split; [|done]. by eapply kept_same, undisturbed_files, getrandom_law. }
  assert (kept_names (hidden_name store) w w1) as Hk1 by by eapply kept_same, undisturbed_files, getrandom_law.
  apply io_bind_inv in Hw as [(e & [Hk _]%write_new_kept & ->)|(written & w2 & [Hk2 Hp]%write_new_kept & Hw)].
  { split; [by eapply kept_trans|done]. }
  destruct written.
  - injection Hw as <- <-. split; [by eapply kept_trans|]. intros artifact [= <-]. auto.
  - destruct (IH _ Hw) as [Hk Hok]. split; [|done].
    eapply kept_trans; [exact Hk1|by eapply kept_trans].
Qed.

(** *** Reading *)

Lemma file_stamp_same path maximum w r w' : file_stamp path maximum w = (r, w') → undisturbed w w'.
Proof.
  intros Hw. unfold file_stamp in Hw.
  apply io_bind_inv in Hw as [(e & (o & Ho & _)%or_fail_inv & ->)|(found & w1 & (o & Ho & _)%or_fail_inv & Hw)].
  { by apply (plan_metadata_law _ _ _ _ Ho). }
  transitivity w1; [by apply (plan_metadata_law _ _ _ _ Ho)|].
  apply io_bind_inv in Hw as [(e & [_ ->]%lift_Err & ->)|(m & w2 & [_ <-]%lift_Ok & Hw)]; [done|].
  apply io_bind_inv in Hw as [(e & [_ ->]%lift_Err & ->)|(u & w2 & [_ <-]%lift_Ok & Hw)]; [done|].
  apply io_bind_inv in Hw as [(e & (o' & Ho' & _)%or_fail_inv & ->)|(i & w2 & (o' & Ho' & _)%or_fail_inv & Hw)].
  - by eapply plan_identity_law.
  - injection Hw as _ <-. by eapply plan_identity_law.
Qed.

Lemma load_json_file_inv {A} (read : string → option A) path maximum w value handle st w' :
  load_json_file read path maximum w = (Ok (value, handle, st), w') →
  same_files w w' ∧ ∃ i text, links w !! path = Some i ∧ inodes w !! i = Some text ∧ read text = Some value.
Proof.
  intros Hw. unfold load_json_file in Hw.
  apply io_bind_Ok in Hw as (before & w1 & (Hl1 & Hi1 & _)%file_stamp_same & Hw).
  apply io_bind_Ok in Hw as (h & w2 & (o & Ho & He)%or_fail_inv & Hw).
  pose proof (proj1 (He h) eq_refl) as ->. destruct (plan_open_law _ _ _ _ Ho) as (Hl2 & Hi2 & i & Hp & Hd).
  apply io_bind_Ok in Hw as (m & w3 & (o3 & Ho3 & _)%or_fail_inv & Hw).
  apply handle_metadata_law in Ho3 as (Hl3 & Hi3 & Hd3).
  apply io_bind_Ok in Hw as (identity & w4 & (o4 & Ho4 & _)%or_fail_inv & Hw).
  apply handle_identity_law in Ho4 as (Hl4 & Hi4 & Hd4).
  apply io_bind_Ok in Hw as (opened & w5 & [_ <-]%lift_Ok & Hw).
  apply io_bind_Ok in Hw as (u & w5 & [_ <-]%lift_Ok & Hw).
  apply io_bind_Ok in Hw as (text & w6 & (o6 & Ho6 & He6)%or_fail_inv & Hw).
  pose proof (proj1 (He6 text) eq_refl) as ->. destruct (handle_read_law _ _ _ _ Ho6) as [(Hl6 & Hi6 & _) Ht].
  apply io_bind_Ok in Hw as (v & w7 & [Hv <-]%lift_Ok & Hw). apply ok_or_Ok in Hv.
  apply io_bind_Ok in Hw as (after & w8 & (Hl8 & Hi8 & _)%file_stamp_same & Hw).
  apply io_bind_Ok in Hw as (u' & w9 & [_ <-]%lift_Ok & [= <- _ _ <-]).
  split; [split; congruence|]. exists i, text. split_and!; [congruence| |done].
  assert (handles w4 !! h = Some i) as Hh by by rewrite Hd4, Hd3, Hd, lookup_insert_eq.
  specialize (Ht _ _ eq_refl Hh). congruence.
Qed.

Lemma load_stored_Ok store reference plan binding w stored w' :
  reads_back plan binding → published store reference plan binding w → load_stored store reference w = (Ok stored, w') →
  stored = {| sup_reference := reference; sup_plan := plan; sup_binding := binding |} ∧ same_files w w'.
Proof.
  intros [Hrp Hrb] (i & j & Hp & Hpi & Hb & Hbj) Hw. unfold load_stored in Hw.
  apply io_bind_Ok in Hw as ([[[plan' binding'] handle] st] & w1 & Hr & [= <- <-]). unfold read_stored in Hr.
  apply io_bind_Ok in Hr as ([[b h] s] & w2 & [Hs2 (j' & text & Hj & Htext & Hread)]%load_json_file_inv & Hr).
  apply io_bind_Ok in Hr as ([[p h'] s'] & w3 & [Hs3 (i' & text' & Hi & Htext' & Hread')]%load_json_file_inv & Hr).
  apply io_bind_Ok in Hr as (again & w4 & Hu%file_stamp_same & Hr).
  apply io_bind_Ok in Hr as (u & w5 & [_ <-]%lift_Ok & Hr).
  apply io_bind_Ok in Hr as (u' & w5 & [_ <-]%lift_Ok & [= <- <- _ _ <-]).
  destruct Hs2 as [Hl2 Hi2]. rewrite Hl2 in Hi. rewrite Hi2 in Htext'. simplify_eq.
  split; [done|]. transitivity w2; [by split|]. transitivity w3; [done|by apply undisturbed_files].
Qed.

(** Whatever [load] hands out has passed its checks. *)
Lemma load_stored_checked store reference w stored w' :
  load_stored store reference w = (Ok stored, w') →
  validate_loaded (sup_plan stored) (sup_binding stored) = Ok tt.
Proof.
  intros Hw. unfold load_stored in Hw.
  apply io_bind_Ok in Hw as ([[[plan' binding'] handle] st] & w1 & Hr & [= <- <-]). unfold read_stored in Hr.
  apply io_bind_Ok in Hr as ([[b h] s] & w2 & _ & Hr).
  apply io_bind_Ok in Hr as ([[p h'] s'] & w3 & _ & Hr).
  apply io_bind_Ok in Hr as (again & w4 & _ & Hr).
  apply io_bind_Ok in Hr as (u & w5 & [_ <-]%lift_Ok & Hr).
  apply io_bind_Ok in Hr as ([] & w5 & [Hv <-]%lift_Ok & [= <- <- _ _ _]). done.
Qed.

(** What is written passes the checks of [load]. *)
Lemma binding_of_valid plan digest sid ssha vid vsha generation :
  Upload.validate plan = Ok tt → validate_binding_inputs sid ssha vid vsha generation = Ok tt →
  upload_plan_sha256 plan = Ok digest →
  validate_loaded plan (binding_of plan digest sid ssha vid vsha generation) = Ok tt.
Proof.
  intros Hv Hb Hd. unfold validate_loaded. rewrite Hv. cbn. rewrite Hb, Hd. cbn.
  rewrite !String.eqb_refl, Z.eqb_refl. apply upload_validate_Ok, uwf_identity in Hv.
  unfold is_sha256 in Hv. rewrite Hv. done.
Qed.

(** C10: a plan that was written is loaded again exactly as it was, with the binding to the
    profiles it was written for, and what is written always passes the checks of loading;
    and whatever happens in between, a write changes no file of the directory but those
    with hidden names, so no plan is ever overwritten or lost. *)
Theorem plan_store_keeps store plan sid ssha vid vsha generation (w : W) r w' :
  (∀ digest, upload_plan_sha256 plan = Ok digest →
     reads_back plan (binding_of plan digest sid ssha vid vsha generation)) →
  write_plan store plan sid ssha vid vsha generation w = (r, w') →
  (∀ p i c, ¬ hidden_name store p → links w !! p = Some i → inodes w !! i = Some c →
     links w' !! p = Some i ∧ inodes w' !! i = Some c)
  ∧ ∀ artifact, r = Ok artifact →
      let binding := binding_of plan (pa_plan_sha256 artifact) sid ssha vid vsha generation in
      validate_loaded plan binding = Ok tt
      ∧ ∀ stored w2, load_stored store (pa_reference artifact) w' = (Ok stored, w2) →
          stored = {| sup_reference := pa_reference artifact; sup_plan := plan; sup_binding := binding |}.
Proof.
  intros Hback Hw. unfold write_plan in Hw.
  apply io_bind_inv in Hw as [(e & [_ ->]%lift_Err & ->)|([] & w1 & [Hv%map_err_Ok <-]%lift_Ok & Hw)]; [done|].
  apply io_bind_inv in Hw as [(e & [_ ->]%lift_Err & ->)|([] & w1 & [Hb <-]%lift_Ok & Hw)]; [done|].
  apply io_bind_inv in Hw as [(e & [_ ->]%lift_Err & ->)|(digest & w1 & [Hd%map_err_Ok <-]%lift_Ok & Hw)]; [done|].
  destruct (write_attempts_kept _ _ _ _ _ _ _ Hw) as [Hk Hok]. split; [exact Hk|].
  intros artifact Hr. destruct (Hok _ Hr) as [Hsha Hp]. cbn in Hsha. rewrite Hsha. cbv zeta.
  split; [by apply binding_of_valid|]. intros stored w2 Hl.
  eapply load_stored_Ok; [by apply Hback|exact Hp|exact Hl].
Qed.
End round_trip.

(** ** From the dry run to the confirmation *)

(** The effects a plan is stored with are those an apply of it announces. *)
Lemma logical_effects_announced `{TimeLib} plan : Upload.validate plan = Ok tt →
  logical_effects plan =
    if up_schema_version plan =? UPLOAD_PLAN_SCHEMA_VERSION_V2
    then ups_max_mutations (up_summary plan) else ups_operations (up_summary plan).
Proof.
  intros Hv%upload_validate_Ok. rewrite uwf_summary by done.
  unfold logical_effects. rewrite uwf_summary by done. unfold expected_summary. cbn.
  destruct (up_schema_version plan =? UPLOAD_PLAN_SCHEMA_VERSION_V2); [|done].
  match goal with |- context [?effects =? 0] => destruct (Z.eqb_spec effects 0) as [Heq|]; [|done] end.
  rewrite Heq. revert Heq. unfold sat_add, sat_mul, u64_max, count, set_len.
  match goal with |- context [zlen (List.filter ?p ?l)] => pose proof (zlen_nonneg (List.filter p l)) end.
  pose proof (zlen_nonneg (up_operations plan)). lia.
Qed.

Section confirmation.
  Context {W : Type} `{!PlanFs W, !HistoryWorld W, !HistoryAlone W, !Entropy W, !PlanStateJson, !TimeLib,
    !Codec, !ProfileFs (W * Database)}.
Notation world := (W * Database)%type.
  Context (store : ConsoleState) (config : WebConfig).

#[local] Instance history_of_store : ConsoleHistory world := console_history store.
#[local] Instance store_of_store : ConsoleStore world := console_store store.

Lemma forget_inv {S A} (m : io S WebConfigError A) s r s' :
  forget m s = (r, s') → ∃ r0, m s = (r0, s') ∧ ∀ a, r = Ok a → r0 = Ok a.
Proof.
  unfold forget. destruct (m s) as [r0 s0]. intros [= <- <-]. exists r0. split; [done|].
  intros a Ha. by apply map_err_Ok in Ha.
Qed.

Lemma binding_current_loaded grant s s' :
  binding_is_current config grant s = (true, s') →
  ∃ stored receipt server resolved same,
    validate_loaded (sup_plan stored) (sup_binding stored) = Ok tt
    ∧ binding_matches grant receipt stored server resolved same = true.
Proof.
  unfold binding_is_current. intros Hb.
  destruct (dry_run_receipt _ s) as [[[receipt|]|] s1]; try done.
  destruct (load_plan _ s1) as [[stored|] s2] eqn:Hl; [|done].
  destruct (config_source _ _) as [source|]; [|done]. destruct (config_server _ _) as [server|]; [|done].
  destruct (source_resolve _ s2) as [[resolved|] s3]; [|done].
  destruct (history_state _); [|done]. destruct (state_resolve _ s3) as [[state|] s4]; [|done].
  destruct (matches_state state s4) as [same s5]. injection Hb as Hb _.
  eexists _, _, _, _, _. split; [|exact Hb]. clear -Hl. apply forget_inv in Hl as (r & Hl & Hr).
  rewrite (Hr _ eq_refl) in Hl. unfold on_files in Hl. destruct s1 as [w d].
  destruct (load_stored _ _ w) as [r' w'] eqn:Hload. injection Hl as -> _.
  by eapply load_stored_checked.
Qed.

Lemma finish_record_receipt o b (w : W) d reference s' :
  dry_run_binding o = Some b →
  finish_record o (w, d) = (Ok (Some reference), s') →
  ∃ record receipt, history_record (Err tt) o = Ok record
    ∧ store_dry_run (cs_history store) b record (w, d) = (Ok receipt, s')
    ∧ drr_reference receipt = reference.
Proof.
  intros Hb. unfold finish_record. rewrite Hb. destruct (history_record (Err tt) o) as [record|] eqn:Hr.
  2:{ destruct (published_artifact o) as [artifact|]; [|done].
      by destruct (remove_plan (pa_reference artifact) (w, d)). }
  cbn [record_dry_run history_of_store console_history]. unfold forget.
  destruct (store_dry_run (cs_history store) b record (w, d)) as [[receipt|e] s1] eqn:Hs; cbn.
  - intros [= <- <-]. by exists record, receipt.
  - destruct (published_artifact o) as [artifact|]; [|done]. by case_match.
Qed.

(** The artifact of a finished job has a [u32] schema version. *)
Definition fits_outcome (o : WorkerOutcome.t) : Prop :=
  ∀ kind summary artifact dry_run, o = WorkerOutcome.Completed kind summary (Some artifact) dry_run →
    pa_schema_version artifact <= u32_max.

Lemma history_record_fits now o record :
  fits_outcome o → history_record now o = Ok record → fits_row record.
Proof.
  intros Hf Hr reference schema Hp. unfold history_record in Hr.
  destruct o as [kind summary artifact dry_run|kind|kind]; cbn in Hr; result_inv; cbn in Hp; try done.
  destruct artifact as [artifact|]; [|done]. injection Hp as <- <-. by eapply Hf.
Qed.

(** C9: what a dry run records is what its owner confirms.  When a finished dry run got a
    receipt from the store, few enough runs were completed after it, and a confirmation of
    that receipt is accepted, then the grant carries exactly the binding of the dry run,
    the plan digest and the number of effects the owner was shown are those of the dry
    run, and a valid plan with this digest, for this server, is stored, whose announced
    effects are that number. *)
Theorem dry_run_confirmed o b owner request (w : W) d es receipts reference w1 d1 w2 capability
    production s3 :
  recorded d es receipts → fits_outcome o → dry_run_binding o = Some b →
  finish_record o (w, d) = (Ok (Some reference), (w1, d1)) →
  zlen (List.filter (λ r, drb_completed_unix b <=? rr_completed_unix r) receipts)
    < hs_retained_rows (cs_history store) →
  0 <= hs_retention_seconds (cs_history store) → is_i64 (drb_completed_unix b) →
  gr_receipt request = reference →
  prepare config owner request (w2, d1) = (Ok (capability, production), s3) →
  gb_dry_run (cap_binding capability) = b
  ∧ prepared_for owner request capability production
  ∧ ∃ plan, Upload.validate plan = Ok tt
      ∧ upload_plan_sha256 plan = Ok (gr_plan_sha256 request)
      ∧ identity_sha256 (up_server plan) = drb_server_identity_sha256 b
      ∧ gr_max_logical_effects request =
          if up_schema_version plan =? UPLOAD_PLAN_SCHEMA_VERSION_V2
          then ups_max_mutations (up_summary plan) else ups_operations (up_summary plan).
Proof.
  intros Hd Hf Hb Hfin Hn Hret Hi Href Hp.
  destruct (finish_record_receipt _ _ _ _ _ _ Hb Hfin) as (record & receipt & Hrec & Hs & <-).
  destruct (store_dry_run_Ok _ _ _ _ _ _ _ _ _ _ Hd (history_record_fits _ _ _ Hf Hrec) Hs)
    as [_ (r & Hback & Hrr & Htime & Hnd & Hd1)].
  destruct (prepare_sound _ _ _ _ _ _ _ Hp) as [Hprep [s0 Hcur]].
  assert (gb_dry_run (cap_binding capability) = b) as Hg.
  { clear Hprep Hcur. unfold prepare in Hp.
    apply io_bind_Ok in Hp as (found & [w3 d3] & Hfind%call_err_Ok & Hp).
    apply io_bind_Ok in Hp as (receipt' & s4 & [Hfound%ok_or_Ok _]%lift_Ok & Hp).
    apply forget_inv in Hfind as (r0 & Hfind & Hr0). rewrite (Hr0 _ eq_refl), Href in Hfind.
    eapply (find_receipt_Ok _ r) in Hfind as [Hsome _]; [|exact Hd1| |exact Hrr|exact Hback].
    2:{ rewrite <-Htime in *. apply retained_receipt; [done| |done]. by apply cutoff_below. }
    rewrite Hsome in Hfound. injection Hfound as <-.
    do 9 (apply io_bind_Ok in Hp as (? & ? & _ & Hp)).
    unfold require_current in Hp. destruct (binding_is_current _ _ _) as [[] ?]; by simplify_eq/=. }
  split_and!; [done..|].
  destruct Hprep as (_ & _ & Hsha & Heff & _). rewrite Hg in Hsha, Heff.
  apply binding_current_loaded in Hcur as (stored & receipt' & server & resolved & same & Hv & Hm).
  unfold binding_matches in Hm. rewrite !andb_true_iff, !String.eqb_eq, !Z.eqb_eq, Hg in Hm.
  destruct Hm as ((((((((((((_ & _) & Hpsha) & _) & _) & _) & _) & Hid) & _) & _) & _) & _) & Hmax).
  unfold validate_loaded in Hv. result_inv.
  match goal with H : (_ || _) = false |- _ =>
    rewrite !orb_false_iff, !negb_false_iff, !String.eqb_eq, !Z.eqb_eq in H;
    destruct H as ((((_ & Hdig) & _) & Hident) & Hlog) end.
  exists (sup_plan stored).
  match goal with H : Upload.validate _ = Ok ?u |- _ => destruct u; rename H into Hval end.
  split_and!; [done|congruence..|]. rewrite <-logical_effects_announced by done. congruence.
Qed.
End confirmation.

(** ** Witness: a directory in memory, with a plan of another reference in it *)
Section directory.
#[local] Existing Instances sample_codec sample_time.

Record Directory := {
  dir_links : gmap string string;
  dir_inodes : gmap string string;
  dir_handles : gmap Z string;
  dir_next : Z;
}.
Definition file_meta (content : string) : PlanMeta := {|
  pm_is_dir := false; pm_is_file := true; pm_is_symlink := false; pm_len := len content;
  pm_mode := 384; pm_modified := Some 0 |}.
Definition open_inode (i : string) (w : Directory) : Directory := {|
  dir_links := dir_links w; dir_inodes := dir_inodes w;
  dir_handles := <[dir_next w := i]> (dir_handles w); dir_next := dir_next w + 1 |}.
Definition set_links f (w : Directory) : Directory := {|
  dir_links := f (dir_links w); dir_inodes := dir_inodes w; dir_handles := dir_handles w;
  dir_next := dir_next w |}.
Definition set_inodes f (w : Directory) : Directory := {|
  dir_links := dir_links w; dir_inodes := f (dir_inodes w); dir_handles := dir_handles w;
  dir_next := dir_next w |}.

#[local] Instance directory_fs : PlanFs Directory := {|
  plan_metadata p w :=
    (match dir_links w !! p with
     | Some i => Some <$> (file_meta <$> dir_inodes w !! i)
     | None => Some None
     end, w);
  followed_metadata p w := (file_meta <$> (dir_links w !! p ≫= λ i, dir_inodes w !! i), w);
  plan_exists p w := (is_some (dir_links w !! p), w);
  plan_identity p w := (dir_links w !! p, w);
  plan_open p w :=
    match dir_links w !! p with
    | Some i => (Some (dir_next w), open_inode i w)
    | None => (None, w)
    end;
  handle_metadata h w := (file_meta <$> (dir_handles w !! h ≫= λ i, dir_inodes w !! i), w);
  handle_identity h w := (dir_handles w !! h, w);
  handle_read h w := (dir_handles w !! h ≫= λ i, dir_inodes w !! i, w);
  handle_rewind _ w := (true, w);
  plan_create_new p w :=
    match dir_links w !! p, dir_inodes w !! p with
    | None, None => (Some (dir_next w), open_inode p (set_inodes (insert p "") (set_links (insert p p) w)))
    | _, _ => (None, w)
    end;
  handle_write h s w :=
    match dir_handles w !! h ≫= λ i, (λ c, (i, c)) <$> dir_inodes w !! i with
    | Some (i, c) => (Some (len s), set_inodes (insert i (c +:+ s)) w)
    | None => (None, w)
    end;
  handle_flush _ w := (true, w);
  handle_sync _ w := (true, w);
  plan_hard_link p q w :=
    match dir_links w !! p, dir_links w !! q with
    | Some i, None => (true, set_links (insert q i) w)
    | _, _ => (false, w)
    end;
  plan_remove p w :=
    match dir_links w !! p with
    | Some _ => (Some true, set_links (delete p) w)
    | None => (Some false, w)
    end;
  read_directory _ w := (Some (map (λ kv, Some kv.1) (map_to_list (dir_links w))), w);
  sync_directory_call _ w := (true, w);
  plan_canonicalize p w := (Some p, w);
  create_private_dir _ w := (true, w);
  create_checkpoint_file _ w := (true, w);
  system_seconds w := (Some 0, w) |}.
#[local] Instance directory_entropy : Entropy Directory := {|
  getrandom n w := (Some "0123456789abcdef", w);
  url_safe_no_pad b := b |}.
#[local] Instance directory_disk : PlanDisk Directory := {|
  links := dir_links; inodes := dir_inodes; handles := dir_handles |}.

Lemma substring_whole s : String.substring 0 (String.length s) s = s.
Proof. induction s as [|a s IH]; cbn; [done|]. by rewrite IH. Qed.

#[local] Instance directory_laws : PlanDiskLaws Directory.
Proof.
  split; cbn; unfold undisturbed; cbn; try (by intros; simplify_eq).
  - intros p w r w' [= <- <-]. split; [done|]. by destruct (dir_links w !! p) as [i|]; [destruct (dir_inodes w !! i)|].
  - intros p w r w' [= <- <-]. split; [done|]. by destruct (dir_links w !! p).
  - intros p w r w'. destruct (dir_links w !! p) as [i|] eqn:Hp; intros [= <- <-]; cbn; [|done].
    split_and!; try done. by exists i.
  - intros h w r w' [= <- <-]. split; [done|]. intros text i Ht Hh. by rewrite Hh in Ht.
  - intros p w r w'. destruct (dir_links w !! p) eqn:Hp; [by intros [= <- <-]|].
    destruct (dir_inodes w !! p) eqn:Hi; intros [= <- <-]; cbn; [done|]. by exists p.
  - intros h s w r w' i c. intros Hw Hh Hi. rewrite Hh in Hw. cbn in Hw. rewrite Hi in Hw. cbn in Hw.
    injection Hw as <- <-. cbn. split_and!; try done; [unfold len; lia..|].
    unfold len. by rewrite Nat2Z.id, substring_whole.
  - intros p q w r w'. destruct (dir_links w !! p) as [i|] eqn:Hp; [|by intros [= <- <-]].
    destruct (dir_links w !! q) eqn:Hq; intros [= <- <-]; cbn; split_and!; try done. by exists i.
  - intros p w r w'. by destruct (dir_links w !! p); intros [= <- <-].
Qed.

Definition stored_plan : UploadPlan := grant_plan.
Definition stored_binding : PlanBinding :=
  binding_of stored_plan grant_plan_sha256 "photos" sample_digest "home" sample_digest 1.
#[local] Instance directory_json : PlanStateJson := {|
  pretty_plan _ := ["{"; "plan}"]; pretty_binding _ := ["{binding}"];
  read_plan _ := Some stored_plan; read_binding _ := Some stored_binding |}.

Definition sample_plans : PlanStore := {|
  ps_directory := "/state/plans"; ps_maximum_bytes := 1000; ps_maximum_store_bytes := 10000;
  ps_maximum_files := 10 |}.
Definition one_plan : Directory := {|
  dir_links := {["/state/plans/other.json" := "1"]}; dir_inodes := {["1" := "{other}"]};
  dir_handles := ∅; dir_next := 0 |}.

Notation plan_written := (write_plan sample_plans stored_plan "photos" sample_digest "home" sample_digest 1 one_plan).

Lemma plan_store_keeps_witness :
  ∃ artifact w', plan_written = (Ok artifact, w')
  ∧ dir_links w' !! "/state/plans/other.json" = Some "1" ∧ dir_inodes w' !! "1" = Some "{other}"
  ∧ ∃ stored w2, load_stored sample_plans (pa_reference artifact) w' = (Ok stored, w2)
  ∧ stored = {| sup_reference := pa_reference artifact; sup_plan := stored_plan;
      sup_binding := binding_of stored_plan (pa_plan_sha256 artifact) "photos" sample_digest "home" sample_digest 1 |}.
Proof.
  assert (∀ digest, upload_plan_sha256 stored_plan = Ok digest →
    reads_back stored_plan (binding_of stored_plan digest "photos" sample_digest "home" sample_digest 1)) as Hback.
  { intros digest Hd. assert (upload_plan_sha256 stored_plan = Ok grant_plan_sha256) as Hg by (vm_compute; reflexivity).
    rewrite Hg in Hd. injection Hd as <-. split; reflexivity. }
  assert (∃ artifact w', plan_written = (Ok artifact, w')
    ∧ dir_links one_plan !! "/state/plans/other.json" = Some "1" ∧ dir_inodes one_plan !! "1" = Some "{other}"
    ∧ ∃ stored w2, load_stored sample_plans (pa_reference artifact) w' = (Ok stored, w2))
    as (artifact & w' & Hw & Hl & Hi & stored & w2 & Hload).
  { eexists _, _. split; [vm_compute; reflexivity|]. split; [vm_compute; reflexivity|].
    split; [vm_compute; reflexivity|]. eexists _, _. vm_compute. reflexivity. }
  destruct (plan_store_keeps _ _ _ _ _ _ _ _ _ _ Hback Hw) as [Hk Hok].
  exists artifact, w'. split; [exact Hw|].
  assert (¬ hidden_name sample_plans "/state/plans/other.json") as Hn.
  { intros [s Hs]. by injection Hs. }
  destruct (Hk _ _ _ Hn Hl Hi) as [Hl' Hi']. split; [exact Hl'|]. split; [exact Hi'|].
  exists stored, w2. split; [exact Hload|]. exact (proj2 (Hok artifact eq_refl) stored w2 Hload).
Defined.
End directory.

(** ** Witness: a dry run of the plan above, confirmed ten seconds later *)
Section confirmed.
#[local] Existing Instances sample_codec sample_time steady_history steady_history_alone steady_entropy
  directory_json.

#[local] Instance quiet_fs : PlanFs unit := {|
  plan_metadata p w :=
    (Some (if path_starts_with p "/state/checkpoints" then None else Some (file_meta "{plan}")), w);
  followed_metadata _ w := (Some (file_meta "{plan}"), w);
  plan_exists _ w := (false, w);
  plan_identity _ w := (Some "inode", w);
  plan_open p w := (Some (if ends_with "n" p then 1 else 0), w);
  handle_metadata _ w := (Some (file_meta "{plan}"), w);
  handle_identity _ w := (Some "inode", w);
  handle_read _ w := (Some "{plan}", w);
  handle_rewind _ w := (true, w);
  plan_create_new _ w := (Some 0, w);
  handle_write _ s w := (Some (len s), w);
  handle_flush _ w := (true, w);
  handle_sync _ w := (true, w);
  plan_hard_link _ _ w := (true, w);
  plan_remove _ w := (Some true, w);
  read_directory _ w := (Some [], w);
  sync_directory_call _ w := (true, w);
  plan_canonicalize p w := (Some p, w);
  create_private_dir _ w := (true, w);
  create_checkpoint_file _ w := (true, w);
  system_seconds w := (Some 100010, w) |}.

#[local] Instance private_world : ProfileFs (unit * Database) := {|
  fs_symlink_metadata _ w := (Ok {| fm_is_dir := true; fm_is_file := false;
    fm_is_symlink := false; fm_mode := 448 |}, w);
  fs_metadata _ w := (Ok {| fm_is_dir := true; fm_is_file := false;
    fm_is_symlink := false; fm_mode := 448 |}, w);
  fs_canonicalize path w := (Ok path, w);
  resource_identity _ w := (Ok "", w) |}.

Definition plan_source : SourceProfile := {|
  sp_id := "photos"; sp_label := "Photos"; sp_configured_inputs := ["/data/photos"];
  sp_canonical_inputs := ["/data/photos"]; sp_identities := [""];
  sp_generation_sha256 := sample_digest; sp_settings := SourceSettings.Folder default_scan |}.
Definition state_console : WebConfig := {|
  wc_limits := two_slots; wc_sources := [plan_source];
  wc_servers := [{| svp_id := "home"; svp_origin := "https://photos.example";
    svp_api_key_file := "/keys/a"; svp_ca_certificate_file := None;
    svp_mode := ServerMode.ProductionRead; svp_address_ranges := []; svp_generation := 1;
    svp_generation_sha256 := sample_digest; svp_credential_generation := 1 |}];
  wc_states := [{| stp_id := "history"; stp_label := "History"; stp_configured_root := "/state";
    stp_canonical_root := "/state"; stp_identity := ""; stp_generation_sha256 := sample_digest |}];
  wc_history_state_id := "history" |}.
Definition sample_console : ConsoleState := {|
  cs_history := sample_store; cs_plans := sample_plans; cs_checkpoints := "/state/checkpoints";
  cs_state_generation_sha256 := sample_digest |}.

Definition plan_dry_run : DryRunBinding := {|
  drb_plan_reference := "fedcba9876543210"; drb_plan_sha256 := grant_plan_sha256;
  drb_source_configuration_sha256 :=
    source_configuration_digest sample_digest (up_configuration_sha256 stored_plan);
  drb_server_identity_sha256 := sample_digest; drb_server_profile_sha256 := sample_digest;
  drb_credential_generation := 1; drb_max_logical_effects := 2; drb_completed_unix := 100000 |}.
Definition dry_run_done : WorkerOutcome.t :=
  WorkerOutcome.Completed HistoryKind.FolderDryRun
    {| js_schema_version := 1; js_assets := 2; js_sidecars := 0; js_bytes_read := 9; js_warnings := 0;
       js_errors := 0 |}
    (Some {| pa_reference := "fedcba9876543210"; pa_schema_version := 1;
             pa_plan_sha256 := grant_plan_sha256; pa_max_logical_effects := 2 |})
    (Some plan_dry_run).
Definition plan_request : GrantRequest := {|
  gr_receipt := "0123456789abcdef"; gr_plan_sha256 := grant_plan_sha256;
  gr_max_logical_effects := 2; gr_backup_reference := "nightly snapshot" |}.

Notation dry_run_recorded := (@finish_record _ (console_history sample_console) dry_run_done (tt, empty_database)).
Notation plan_confirmed w := (@prepare _ (console_store sample_console) _ _ _ state_console "alice" plan_request w).

Definition after_dry_run : Database := Eval vm_compute in dry_run_recorded.2.2.
Definition confirmed_capability : ApplyCapability := Eval vm_compute in
  match (plan_confirmed (tt, after_dry_run)).1 with
  | Ok (capability, _) => capability
  | Err _ => {| cap_prepared := {| pre_plan := stored_plan; pre_production := None |};
                cap_binding := {| gb_owner := ""; gb_receipt := ""; gb_dry_run := plan_dry_run;
                  gb_source_profile_id := ""; gb_server_profile_id := "";
                  gb_backup_reference_sha256 := None |} |}
  end.

Lemma dry_run_confirmed_witness :
  dry_run_recorded = (Ok (Some "0123456789abcdef"), (tt, after_dry_run))
  ∧ plan_confirmed (tt, after_dry_run) = (Ok (confirmed_capability, true), (tt, after_dry_run))
  ∧ gb_dry_run (cap_binding confirmed_capability) = plan_dry_run
  ∧ ∃ plan, Upload.validate plan = Ok tt ∧ upload_plan_sha256 plan = Ok grant_plan_sha256
      ∧ identity_sha256 (up_server plan) = sample_digest
      ∧ 2 = if up_schema_version plan =? UPLOAD_PLAN_SCHEMA_VERSION_V2
            then ups_max_mutations (up_summary plan) else ups_operations (up_summary plan).
Proof.
  assert (dry_run_recorded = (Ok (Some "0123456789abcdef"), (tt, after_dry_run))) as Hf
    by (vm_compute; reflexivity).
  assert (plan_confirmed (tt, after_dry_run) = (Ok (confirmed_capability, true), (tt, after_dry_run))) as Hp
    by (vm_compute; reflexivity).
  split; [exact Hf|]. split; [exact Hp|].
  assert (fits_outcome dry_run_done) as Hfits.
  { intros kind summary artifact dry_run Heq. injection Heq as _ _ <- _. vm_compute. congruence. }
  assert (is_i64 100000) as Hi by (split; [vm_compute; congruence|vm_compute; reflexivity]).
  assert (zlen (List.filter (λ r, drb_completed_unix plan_dry_run <=? rr_completed_unix r) [])
            < hs_retained_rows (cs_history sample_console)) as Hn by (vm_compute; reflexivity).
  assert (0 <= hs_retention_seconds (cs_history sample_console)) as Hr by (vm_compute; congruence).
  destruct (dry_run_confirmed sample_console state_console dry_run_done plan_dry_run "alice" plan_request
    tt empty_database [] [] "0123456789abcdef" tt after_dry_run tt confirmed_capability true
    (tt, after_dry_run) empty_recorded Hfits eq_refl Hf Hn Hr Hi eq_refl Hp) as (Hg & _ & Hplan).
  split; [exact Hg|exact Hplan].
Defined.
End confirmed.
